(* ===== verification/_CoqProject ===== *)
-Q . S2P
Prelude.v
PolicyCaps.v
PolicyDecide.v
PolicyMatchers.v
PolicyProps.v
Rbac.v
RbacProps.v
RbacGuard.v
RbacGuardProps.v
BreakGlass.v
Board.v
BoardInv.v
BoardProps.v
BoardWip.v
BoardSpec.v
Double.v
BudgetPeriod.v
BudgetStore.v
BudgetLedger.v
BudgetLedgerProps.v
BudgetLedgerSpec.v
BudgetCalls.v
BudgetCallsSpec.v
BudgetCallsRun.v
ApprovalChain.v
ApprovalChainSpec.v
ApprovalChainRun.v
Grants.v
GrantsSpec.v
ApprovalStore.v
ApprovalStoreSpec.v
ApprovalService.v
ApprovalServiceSpec.v
ApprovalServiceRun.v
NetIp.v
NetSpan.v
NetIpSpec.v
NetGuard.v
NetGuardSpec.v
Egress.v
EgressSpec.v
NetRun.v
Paths.v
PathsSpec.v
PathResolve.v
PathResolveSpec.v
PathsRun.v
GrantPaths.v
AuditChain.v
AuditChainSpec.v
AuditWrite.v
AuditRecover.v
AuditChainRun.v
Session.v
SessionPath.v
SessionInv.v
SessionSpec.v
SessionView.v
SessionLife.v
SessionRun.v
Pruning.v
PruningSpec.v
Compaction.v
CompactionSpec.v
IdentityCodes.v
Identity.v
IdentityCalls.v
IdentityInv.v
IdentityGuess.v
IdentityBackfill.v
IdentityBackfillSpec.v
IdentityAdmin.v
IdentityAdminSpec.v
IdentityRun.v
Behaviour.v
Tools.v
Dispatcher.v
DispatcherSpec.v
TurnLoop.v
TurnLoopSpec.v
