(* ===== verification/Prelude.v ===== *)
(** * PLUR1BUS Harness: a verification library

    The harness runs language-model agents for people. What an agent may do is
    decided by the core package, packages/core/src; this library models the parts of
    it that decide, remember and account, and proves what they promise. Paths below
    are relative to packages/core/src.

    ** Parts and how they meet

    - Action policy. A tool call names a capability; [PolicyCaps] is the table of
      policy/capabilities.ts with the effects of policy/effects.ts, [PolicyDecide] the
      evaluator [decide] of policy/decide.ts (allow, ask, deny) with the headless gate of
      policy/headless.ts. [PolicyMatchers] proves its two matchers equal to reference
      definitions, [PolicyProps] what no grant lifts and what an allow rests on.
    - Path policy. Before a path reaches the evaluator it is canonicalised by
      policy/paths.ts: [Paths] is the pure part, [PathResolve] the part that asks the
      file system, [openVerified] included. [PathsSpec], [PathResolveSpec] and
      [PathsRun] prove it; [GrantPaths] joins it to the grant store.
    - People. [Rbac] is rbac/types.ts, policy.ts, authorize.ts and surface.ts,
      [RbacGuard] the wrapper of rbac/guard.ts around every RPC method, [BreakGlass] the
      registry of rbac/break-glass.ts. [RbacProps] and [RbacGuardProps] prove them.
    - Approvals and grants. An [ask] becomes a request ([ApprovalStore],
      approvals/store.ts), a person's decision may make grants ([ApprovalService],
      approvals/service.ts; [Grants], grants/store.ts), and all of it is recorded in one
      chain of MACs ([ApprovalChain], approvals/chain.ts). The evaluator reads grants
      through the store's view of that chain, so the [Spec] files end with what an
      allowed call is vouched for by.
    - Audit. [AuditChain] is audit/chain.ts, the hash-chained file every audit line
      goes to, over a directory where any operation may be the last and a write may stop
      after any byte. [AuditChainSpec] proves the chunked readers and the
      verification, [AuditWrite] what the writer leaves behind, [AuditRecover] the
      recovery; [AuditChainRun] instantiates them.
    - Sessions. [Session] and [SessionPath] are session/store.ts and rewind-path.ts: the
      transcript of a conversation, its turns, and the overlays that hide a part of it
      from the reader. [SessionInv] shows every call to be a sequence of small steps,
      [SessionSpec] what the steps keep, [SessionView] what a rewind hides and brings
      back, [SessionLife] turns, restarts, forks and erasure; [SessionRun] is an example.
    - Turns. [TurnLoop] is session/turn-loop.ts over that store, with the command parser of
      session/rewind.ts: from a submitted message through the provider's stream, the
      dispatcher's answers and their delivery receipts to the turn's outcome. Provider,
      memory and signals are arbitrary. [TurnLoopSpec] proves it over the record of all
      the turn did, and over the store that other callers use meanwhile; it ends with an
      example turn.
    - What a model is given. [Pruning] is session/pruning.ts, which hides tool output in
      views of a session, [Compaction] session/compaction.ts with tokens.ts: the view that
      is made of the session's path, its summaries and the pruned pairs, and the bound on
      its tokens. [PruningSpec] and [CompactionSpec]
      prove them, over a database that others change wherever the code waits, and end
      with examples.
    - Boards. [Board] is collab/board.ts with the project and membership calls of
      collab/store.ts; [BoardInv], [BoardProps], [BoardWip]
      and [BoardSpec] prove its invariants and paging.
    - Budgets. [BudgetPeriod], [BudgetStore], [BudgetLedger] and [BudgetCalls] are
      budget/period.ts, store.ts with cache-read-weight.ts, service.ts and calls.ts;
      [Double] is the rounding they use. Their [Spec], [Props] and [Run] files prove
      that reservations stay within limits and that the books balance.
    - Identity. Which person a channel handle speaks for is decided by identity/: the
      codes, tokens and counters of codes.ts, principals.ts, invite-token.ts and
      ratelimit.ts are [IdentityCodes], service.ts with the constraints of store.ts,
      authorization.ts and recall.ts is [Identity], admin-store.ts (roles, disabled people,
      rights, invitations) is [IdentityAdmin], backfill.ts with engine-rebind.ts is
      [IdentityBackfill], a process in which anything may happen while the engine works.
      [IdentityCalls] says what each call does and turns sequences of calls
      into histories of what was told to the outside, [IdentityInv] proves consent and
      single use over all of them, [IdentityGuess] the bound on guessing,
      [IdentityBackfillSpec] what a back-fill may touch, [IdentityAdminSpec] owners and
      invitations; [IdentityRun] is an example from the code to the moved memories.
    - Tool calls. What a model asks for reaches the evaluator through the dispatcher:
      [Behaviour] is channels/behaviour.ts and behaviour-context.ts (what a channel's
      profile permits), [Tools] tools/registry.ts with the validator of tools/repair.ts
      and tools/reserved-names.ts, [Dispatcher] tools/dispatcher.ts over the port of
      tools/approval.ts, from the name in a request to the envelope of its answer.
      [DispatcherSpec] follows a call stage by stage and proves what had been
      established when a tool is started, using the facts of [PolicyProps].
    - Address guard. [NetIp] is tools/web/ip.ts, [NetGuard] tools/web/ip-display.ts and
      guard.ts; [NetSpan], [NetIpSpec] and [NetGuardSpec] prove the classification, the
      range search and the pinning of one address per connection.
    - Egress. [Egress] is egress/policy.ts, gate.ts, service.ts and model-downloads.ts with
      the HTTP client of tools/web/http.ts over them: which destinations are on the list,
      what is recorded before a connection, and how redirects are followed. [EgressSpec]
      proves it over the address guard; [NetRun] holds the examples of both.

    This file holds what the components share: results and the exception monad, the
    numbers and JSON-like values of the source, the state-and-exception monad [SE] with
    its Hoare-style [triple], list lemmas, and the tactics and hint databases.

    ** How the code is read

    A thrown error is a value ([result], or the [Err] of [SE]); a handler is one
    definition, its guards in the order of the source; a database transaction is a
    step that restores the tables when it throws. Clocks, random ids, audit sinks and
    the answers of the file system are arbitrary functions of an index or a moment, so
    each theorem holds for every history of them. Interfaces between components are
    classes: [GrantTable] and [ApprovalTable] say which table of a database a store
    writes, and [tables_grants] and [tables_approvals] put both in the service's database.
    Code outside src is a parameter: keyed hashes, signatures and JSON texts (with the
    laws [json_laws]), the grants the dispatcher looks up (the evaluator's own,
    [one_store]), Unicode case mapping, node's path functions, name resolution, the
    collation, the zone's date function. Files ending in Run, and the examples at the
    end of other files, instantiate them and apply every theorem that is a property and
    has a hypothesis to a concrete input.

    ** Groups of theorems

    Safety of decisions: what has been established before a tool is started, questions in
    a turn that has read what others wrote, what an allow or an admitted call rests on,
    single use of approvals, grants and invitations, tool results that no provider can
    forge, consent behind every link, canonical paths, connections only to listed
    destinations. Invariants of state over every operation: the chains, boards, ledgers,
    the break-glass registry, the session store, owners, the tool registry, the receipts
    of a turn. What is told is what was done: a tool's answer, the reply of a turn.
    Refinement of declarative specifications: [authorize], the guard, the budget check,
    the audit verification, the validator of arguments, the profile of a channel.
    Equivalence with reference definitions: a dry run and the gate, the RPC rule table,
    and as lemmas globs, path coverage and the range search. Round trips: path spellings,
    addresses, a rewind undone. Bounds: the tokens of a view, refused guesses of a code in
    a quarter of an hour, reservations, results of tools. Termination and recovery:
    canonicalisation, the date search, redirects, an audit chain after a crash, turns
    after a restart, the row of a turn whose work has ended. Errors that leave nothing
    behind, or nothing but evidence.

    ** Bounds and fuel

    Integers are unbounded [Z] where the source stays within 2^53 or uses [bigint];
    address arithmetic is kept at its width in [NetIp]; fractions are rationals rounded
    to doubles by [fl]. The numbers of the shared JSON-like values are integers, NaN and
    the infinities; the argument validator has values of its own with every double,
    into which the dispatcher's go. Strings are bytes, and their lengths count them,
    except in the validator, which counts UTF-16 units; the texts of the path policy
    are lists of code points. Fuel is a nat that is proved to be enough: [globMatch] has a loop
    bound from the two lengths, [fuel_for] in [NetIp] one step per prefix bit,
    [startOfLocalDate] one per halving, [resolve_path] one per parent directory (each
    parent is shorter), the hard-link scans one level per entry of their cap, [follow]
    one round per redirect that is allowed, the validator one level per level of the schema.
    A turn needs no fuel: it follows the finite list of what its provider does, and a
    provider that neither yields nor ends leaves its turn waiting.

    ** Not modelled

    Input and output (SQLite files and their migration, HTTP, subprocesses, model
    providers, channels), wiring and presentation, generated data, the Rust engine and the
    packages beside core; of the modelled parts, parked approval calls with their timers,
    the texts of errors, redaction of what a person is shown, cancellation signals (but
    for what the dispatcher and a turn do when they see one), the cache of verified chain views, the
    repository binding of the collaboration store, the read-only budget reports, of a turn
    the request that is sent to the provider, callbacks a provider makes while the turn
    waits for a tool, callbacks of receipts that throw, work a voice profile puts off and
    the background summary job, and of the session store full-text search, listings,
    prompt snapshots, tool offers, worktrees and checkpoints. They are either effects the
    theorems quantify over or text for people; nothing decided by the modelled parts
    depends on them. *)

From stdpp Require Export base gmap sets list strings numbers.
From Stdlib Require Export ZArith Lia.
From Stdlib Require Import Ascii.

Declare Scope plur_scope.
Delimit Scope plur_scope with plur.
Open Scope plur_scope.
#[global] Open Scope string_scope.
#[global] Open Scope list_scope.
#[global] Open Scope Z_scope.

(** ** Results: a thrown error is a value *)

Inductive result (E A : Type) : Type :=
| Ok (a : A)
| Err (e : E).
Arguments Ok {E A} a.
Arguments Err {E A} e.

Definition rbind {E A B} (m : result E A) (k : A -> result E B) : result E B :=
  match m with Ok a => k a | Err e => Err e end.

Definition rmap {E A B} (f : A -> B) (m : result E A) : result E B :=
  match m with Ok a => Ok (f a) | Err e => Err e end.

(** [guard b e]: continue when [b] holds, throw [e] otherwise. *)
Definition guard {E} (b : bool) (e : E) : result E unit :=
  if b then Ok tt else Err e.

Notation "'let*' x ':=' m 'in' k" := (rbind m (fun x => k))
  (at level 10, x pattern, m at level 100, k at level 200) : plur_scope.
Notation "'assert*' b 'else' e 'in' k" := (if b%bool then k else Err e)
  (at level 10, b at level 100, e at level 100, k at level 200) : plur_scope.

Definition is_ok {E A} (m : result E A) : bool :=
  match m with Ok _ => true | Err _ => false end.

Lemma rbind_ok {E A B} (m : result E A) (k : A -> result E B) b :
  rbind m k = Ok b <-> exists a, m = Ok a /\ k a = Ok b.
Proof.
  destruct m as [a|e]; simpl; split.
  - intros H; exists a; auto.
  - intros (a' & [= ->] & H); exact H.
  - discriminate.
  - intros (a' & H & _); discriminate H.
Qed.

Lemma assert_ok {E A} (b : bool) (e : E) (k : result E A) r :
  (if b then k else Err e) = Ok r <-> b = true /\ k = Ok r.
Proof. destruct b; split; [auto| intros [_ H]; exact H | discriminate | intros [H _]; discriminate H]. Qed.

(** Left-to-right traversal of a list by a step that may throw. *)
Fixpoint rfold {E A S} (f : S -> A -> result E S) (s : S) (l : list A) : result E S :=
  match l with
  | [] => Ok s
  | x :: r => let* s' := f s x in rfold f s' r
  end.

Lemma rfold_invariant {E A S} (P : S -> Prop) (f : S -> A -> result E S) l :
  (forall s x s', P s -> f s x = Ok s' -> P s') ->
  forall s s', P s -> rfold f s l = Ok s' -> P s'.
Proof.
  intros Hf. induction l as [|x l IH]; intros s s' Hs H; simpl in H.
  - congruence.
  - apply rbind_ok in H as (s1 & H1 & H2). eauto.
Qed.

Lemma rfold_app {E A S} (f : S -> A -> result E S) s l1 l2 :
  rfold f s (l1 ++ l2) = rbind (rfold f s l1) (fun s' => rfold f s' l2).
Proof. revert s. induction l1 as [|x l IH]; intros s; simpl; [done|]. by destruct (f s x); simpl. Qed.

(** ** Numbers

    A JavaScript number is a double.  The modules below use integers in the
    safe range, together with the three special values their validity tests
    are there to refuse; fractions appear in [Double] and the budget files, as
    rationals rounded to doubles, and in the argument validator of [Tools]. *)
Inductive num : Type := Fin (z : Z) | NaN | Inf (neg : bool).

#[export] Instance num_eq_dec : EqDecision num.
Proof. solve_decision. Defined.

Definition MAX_SAFE_INTEGER : Z := 9007199254740991.
Definition MIN_SAFE_INTEGER : Z := -9007199254740991.

(** [Number.isSafeInteger] on an integer. *)
Definition safe_int (z : Z) : bool := (MIN_SAFE_INTEGER <=? z) && (z <=? MAX_SAFE_INTEGER).

(** [Number.isFinite]. *)
Definition is_finite (n : num) : bool := match n with Fin _ => true | _ => false end.

(** [Number.isSafeInteger] on a number. *)
Definition num_safe (n : num) : bool := match n with Fin z => safe_int z | _ => false end.

Definition num_add (a b : num) : num :=
  match a, b with
  | Fin x, Fin y => Fin (x + y)
  | NaN, _ | _, NaN => NaN
  | Inf s, Inf t => if Bool.eqb s t then Inf s else NaN
  | Inf s, Fin _ | Fin _, Inf s => Inf s
  end.

(** [a < b]: false as soon as one side is NaN. *)
Definition num_ltb (a b : num) : bool :=
  match a, b with
  | Fin x, Fin y => x <? y
  | NaN, _ | _, NaN => false
  | Inf s, Inf t => s && negb t
  | Inf s, Fin _ => s
  | Fin _, Inf s => negb s
  end.

Definition num_leb (a b : num) : bool :=
  match a, b with
  | NaN, _ | _, NaN => false
  | _, _ => negb (num_ltb b a)
  end.

(** [Math.min] of two numbers. *)
Definition num_min (a b : num) : num :=
  match a, b with
  | NaN, _ | _, NaN => NaN
  | _, _ => if num_ltb b a then b else a
  end.

Lemma safe_int_range z : safe_int z = true <-> - MAX_SAFE_INTEGER <= z <= MAX_SAFE_INTEGER.
Proof. unfold safe_int, MIN_SAFE_INTEGER, MAX_SAFE_INTEGER. lia. Qed.

(** ** JavaScript values, where the code tests what it was handed *)
Inductive js : Type :=
| JUndef
| JNull
| JBool (b : bool)
| JNum (n : num)
| JStr (s : string)
| JArr (l : list js)
| JObj (fields : list (string * js)).

(** Own-property read; anything but an object has none. *)
Definition jget (k : string) (v : js) : js :=
  match v with
  | JObj fs => match list_find (fun p => fst p = k) fs with Some (_, (_, x)) => x | None => JUndef end
  | _ => JUndef
  end.

Definition js_is_true (v : js) : bool := match v with JBool true => true | _ => false end.
Definition js_is_undef (v : js) : bool := match v with JUndef => true | _ => false end.
Definition js_is_bool (v : js) : bool := match v with JBool _ => true | _ => false end.
Definition js_is_str (v : js) : bool := match v with JStr _ => true | _ => false end.
Definition js_is_obj (v : js) : bool := match v with JObj _ => true | _ => false end.
Definition js_str (v : js) : string := match v with JStr s => s | _ => "" end.
Definition js_opt_str (v : js) : option string := match v with JStr s => Some s | _ => None end.

(** Values [JSON.parse] can return. *)
Fixpoint json_value (v : js) : bool :=
  match v with
  | JUndef => false
  | JNum n => match n with Fin _ => true | _ => false end
  | JArr l => forallb json_value l
  | JObj fs => forallb (fun p => json_value (snd p)) fs
  | JNull | JBool _ | JStr _ => true
  end.

#[export] Instance js_eq_dec : EqDecision js.
Proof.
  unfold EqDecision, Decision. fix go 1. intros x y. decide equality.
  - apply bool_eq_dec.
  - apply num_eq_dec.
  - apply String.string_dec.
  - apply (List.list_eq_dec go).
  - apply List.list_eq_dec. intros [a b] [c d].
    destruct (String.string_dec a c) as [->|N]; [|right; congruence]. destruct (go b d) as [->|N]; [by left|right; congruence].
Defined.

(** ** Strings *)

(** White space [String.prototype.trim] removes, within ASCII. *)
Definition is_space (c : ascii) : bool :=
  let n := Ascii.nat_of_ascii c in
  (Nat.eqb n 32 || (Nat.leb 9 n && Nat.leb n 13))%bool.

Definition lower_ascii (c : ascii) : ascii :=
  let n := Ascii.nat_of_ascii c in
  if (Nat.leb 65 n && Nat.leb n 90)%bool then Ascii.ascii_of_nat (n + 32) else c.

Fixpoint drop_space (l : list ascii) : list ascii :=
  match l with [] => [] | c :: r => if is_space c then drop_space r else l end.

Definition chars (s : string) : list ascii := String.list_ascii_of_string s.
Definition of_chars (l : list ascii) : string := String.string_of_list_ascii l.

(** [s.trim()] *)
Definition trim (s : string) : string :=
  of_chars (reverse (drop_space (reverse (drop_space (chars s))))).

(** [s.toLowerCase()] *)
Definition lower (s : string) : string := of_chars (map lower_ascii (chars s)).

(** [s.length] *)
Definition slen (s : string) : Z := Z.of_nat (String.length s).

Definition is_empty (s : string) : bool := String.eqb s "".

Lemma is_empty_neq s : is_empty s = false -> s <> "".
Proof. apply String.eqb_neq. Qed.

(** [s.startsWith(p)] *)
Definition starts_with (p s : string) : bool := String.prefix p s.

Lemma starts_with_app p s : starts_with p s = true <-> exists r, s = (p +:+ r)%string.
Proof.
  unfold starts_with. revert s. induction p as [|c p IH]; intros s.
  - split; [intros _; by exists s|by destruct s].
  - destruct s as [|d s]; [split; [done|by intros (r & ?)]|]. simpl. destruct (ascii_dec c d) as [->|N].
    + rewrite IH. split; intros (r & H); exists r; [by subst|by injection H].
    + split; [done|]. intros (r & H). change (String d s = String c (p +:+ r)) in H. congruence.
Qed.

Lemma lower_app a b : lower (a +:+ b) = (lower a +:+ lower b)%string.
Proof.
  induction a as [|c a IH]; [done|].
  change (String (lower_ascii c) (lower (a +:+ b)) = String (lower_ascii c) (lower a +:+ lower b)). by rewrite IH.
Qed.

(** [s.endsWith(p)] *)
Definition ends_with (p s : string) : bool :=
  String.prefix (of_chars (reverse (chars p))) (of_chars (reverse (chars s))).

(** [s.slice(0, -n)] *)
Definition drop_right (n : nat) (s : string) : string :=
  String.substring 0 (String.length s - n) s.

(** [list.includes(s)] *)
Definition includes (l : list string) (s : string) : bool := existsb (String.eqb s) l.

Lemma includes_spec l s : includes l s = true <-> s ∈ l.
Proof.
  unfold includes. rewrite existsb_exists. split.
  - intros (x & Hin & He). apply String.eqb_eq in He as ->. by apply list_elem_of_In.
  - intros Hin. exists s. split; [by apply list_elem_of_In | apply String.eqb_refl].
Qed.

(** [w] decimal digits of [n]: [String(n).padStart(w, "0")] for [n] below 10^[w]. *)
Definition digit (d : Z) : Ascii.ascii := Ascii.ascii_of_nat (48 + Z.to_nat d).
Fixpoint digits (k : nat) (n : Z) : string :=
  match k with
  | O => ""
  | S k' => String (digit ((n / 10 ^ Z.of_nat k') mod 10)) (digits k' n)
  end.

(** ** Lists *)

(** Total of a measure over a list. *)
Fixpoint zsum {A} (f : A -> Z) (l : list A) : Z :=
  match l with [] => 0 | x :: r => f x + zsum f r end.

Lemma zsum_nil {A} (f : A -> Z) : zsum f [] = 0.
Proof. reflexivity. Qed.

Lemma zsum_cons {A} (f : A -> Z) x l : zsum f (x :: l) = f x + zsum f l.
Proof. reflexivity. Qed.

Lemma zsum_app {A} (f : A -> Z) l1 l2 : zsum f (l1 ++ l2) = zsum f l1 + zsum f l2.
Proof. induction l1 as [|x l IH]; simpl; [lia|]. rewrite IH. lia. Qed.

Lemma zsum_nonneg {A} (f : A -> Z) l : (forall x, x ∈ l -> 0 <= f x) -> 0 <= zsum f l.
Proof.
  induction l as [|x l IH]; intros H; [rewrite zsum_nil; lia|].
  rewrite zsum_cons. pose proof (H x ltac:(left)).
  assert (0 <= zsum f l) by (apply IH; intros y Hy; apply H; by right). lia.
Qed.

Lemma zsum_ext {A} (f g : A -> Z) l : (forall x, x ∈ l -> f x = g x) -> zsum f l = zsum g l.
Proof.
  induction l as [|x l IH]; intros H; [reflexivity|].
  rewrite !zsum_cons, (H x ltac:(left)), IH; [reflexivity|]. intros y Hy. apply H. by right.
Qed.

(** A stable sort by a comparison [le]. *)
Fixpoint insert_by {A} (le : A -> A -> bool) (x : A) (l : list A) : list A :=
  match l with [] => [x] | y :: r => if le x y then x :: l else y :: insert_by le x r end.
Definition sort_by {A} (le : A -> A -> bool) (l : list A) : list A := foldr (insert_by le) [] l.

Lemma insert_by_perm {A} (le : A -> A -> bool) x l : insert_by le x l ≡ₚ x :: l.
Proof.
  induction l as [|y l IH]; simpl; [done|]. destruct (le x y); [done|]. rewrite IH. by constructor.
Qed.

Lemma sort_by_perm {A} (le : A -> A -> bool) l : sort_by le l ≡ₚ l.
Proof. induction l as [|x l IH]; simpl; [done|]. rewrite insert_by_perm. by constructor. Qed.

(** [a < b] on strings: by code unit, the shorter one first. *)
Fixpoint str_ltb (a b : string) : bool :=
  match a, b with
  | _, EmptyString => false
  | EmptyString, String _ _ => true
  | String x a', String y b' =>
      let i := Ascii.nat_of_ascii x in let j := Ascii.nat_of_ascii y in
      Nat.ltb i j || (Nat.eqb i j && str_ltb a' b')
  end.

(** [l.filter(p)] for a boolean predicate. *)
Definition bfilter {A} (p : A -> bool) (l : list A) : list A := List.filter p l.

Lemma bfilter_elem {A} (p : A -> bool) l x : x ∈ bfilter p l <-> x ∈ l /\ p x = true.
Proof. unfold bfilter. rewrite !list_elem_of_In, List.filter_In. reflexivity. Qed.

Lemma bfilter_app {A} (p : A -> bool) l1 l2 : bfilter p (l1 ++ l2) = bfilter p l1 ++ bfilter p l2.
Proof. apply List.filter_app. Qed.

Lemma bfilter_none {A} (p : A -> bool) l : (forall x, x ∈ l -> p x = false) -> bfilter p l = [].
Proof. intros H. unfold bfilter. induction l as [|x l IH]; simpl; [done|]. rewrite (H x) by left. apply IH. intros y Hy. apply H. by right. Qed.

Lemma bfilter_map {A B} (f : A -> B) (p : B -> bool) l : bfilter p (map f l) = map f (bfilter (fun x => p (f x)) l).
Proof. unfold bfilter. induction l as [|x l IH]; simpl; [done|]. destruct (p (f x)); simpl; by rewrite IH. Qed.

Lemma bfilter_ext {A} (p q : A -> bool) l : (forall x, x ∈ l -> p x = q x) -> bfilter p l = bfilter q l.
Proof.
  unfold bfilter. induction l as [|x l IH]; intros H; simpl; [done|].
  rewrite <- (H x) by left. rewrite IH by (intros; apply H; by right). done.
Qed.

Lemma bfilter_all {A} (p : A -> bool) l : (forall x, x ∈ l -> p x = true) -> bfilter p l = l.
Proof.
  intros H. rewrite (bfilter_ext p (fun _ => true)) by done. unfold bfilter.
  induction l as [|x l IH]; simpl; [done|]. by rewrite IH by (intros y Hy; apply H; by right).
Qed.

Lemma bfilter_bfilter {A} (p q : A -> bool) l : bfilter p (bfilter q l) = bfilter (fun x => q x && p x) l.
Proof. unfold bfilter. induction l as [|x l IH]; [done|]. cbn. destruct (q x); cbn; by rewrite IH. Qed.

Lemma zsum_le {A} (f g : A -> Z) l : (forall x, x ∈ l -> f x <= g x) -> zsum f l <= zsum g l.
Proof.
  induction l as [|x l IH]; intros H; simpl; [lia|]. pose proof (H x ltac:(left)).
  assert (zsum f l <= zsum g l) by (apply IH; intros y Hy; apply H; by right). lia.
Qed.

Lemma zsum_plus {A} (f g : A -> Z) l : zsum (fun x => f x + g x) l = zsum f l + zsum g l.
Proof. induction l as [|x l IH]; simpl; lia. Qed.

Lemma zsum_bfilter_le {A} (f : A -> Z) (p : A -> bool) l : (forall x, x ∈ l -> 0 <= f x) -> zsum f (bfilter p l) <= zsum f l.
Proof.
  induction l as [|x l IH]; intros H; [simpl; lia|].
  assert (Hx : 0 <= f x) by (apply H; left). assert (IH' : zsum f (bfilter p l) <= zsum f l) by (apply IH; intros y Hy; apply H; by right).
  unfold bfilter in *. cbn [List.filter]. destruct (p x); cbn [zsum]; lia.
Qed.

Lemma zsum_bfilter_mono {A} (f : A -> Z) (p q : A -> bool) l :
  (forall x, x ∈ l -> 0 <= f x) -> (forall x, p x = true -> q x = true) -> zsum f (bfilter p l) <= zsum f (bfilter q l).
Proof.
  intros H Hpq. induction l as [|x l IH]; [simpl; lia|].
  assert (Hx : 0 <= f x) by (apply H; left). assert (IH' := IH ltac:(intros y Hy; apply H; by right)). specialize (Hpq x).
  unfold bfilter in *. cbn [List.filter]. destruct (p x); destruct (q x); cbn [zsum]; try lia.
Qed.

(** [l.find(p)] *)
Definition bfind {A} (p : A -> bool) (l : list A) : option A := List.find p l.

Lemma bfind_some {A} (p : A -> bool) l x : bfind p l = Some x -> x ∈ l /\ p x = true.
Proof. intros H. apply List.find_some in H. rewrite list_elem_of_In. exact H. Qed.

Lemma bfind_none {A} (p : A -> bool) l x : bfind p l = None -> x ∈ l -> p x = false.
Proof. intros H Hin. eapply List.find_none; [exact H|]. by apply list_elem_of_In. Qed.

Lemma bfind_app {A} (p : A -> bool) l1 l2 :
  bfind p (l1 ++ l2) = match bfind p l1 with Some x => Some x | None => bfind p l2 end.
Proof. induction l1 as [|x l IH]; [done|]. unfold bfind in *. simpl. by destruct (p x). Qed.

Lemma bfind_is_some {A} (p : A -> bool) l x : x ∈ l -> p x = true -> exists y, bfind p l = Some y.
Proof.
  intros Hin Hp. destruct (bfind p l) as [y|] eqn:E; [eauto|].
  rewrite (bfind_none p l x E Hin) in Hp. discriminate.
Qed.

Lemma existsb_elem {A} (p : A -> bool) l : existsb p l = true <-> exists x, x ∈ l /\ p x = true.
Proof. rewrite existsb_exists. setoid_rewrite list_elem_of_In. reflexivity. Qed.

Lemma existsb_false_elem {A} (p : A -> bool) l x : existsb p l = false -> x ∈ l -> p x = false.
Proof.
  intros H Hx. destruct (p x) eqn:E; [|done]. rewrite <- H. symmetry. apply existsb_elem. eauto.
Qed.

Lemma existsb_none {A} (p : A -> bool) l : (forall x, x ∈ l -> p x = false) -> existsb p l = false.
Proof.
  intros H. destruct (existsb p l) eqn:E; [|done]. apply existsb_elem in E as (x & Hx & Hp). by rewrite H in Hp.
Qed.

Lemma forallb_elem {A} (p : A -> bool) l : forallb p l = true <-> forall x, x ∈ l -> p x = true.
Proof. rewrite forallb_forall. setoid_rewrite list_elem_of_In. reflexivity. Qed.

Lemma elem_of_map {A B} (f : A -> B) l y : y ∈ map f l <-> exists x, y = f x /\ x ∈ l.
Proof. rewrite list_elem_of_In, List.in_map_iff. setoid_rewrite list_elem_of_In. naive_solver. Qed.

(** Two elements with the same key are one, where keys are unique. *)
Lemma NoDup_map_inj {A B} (f : A -> B) l x y : NoDup (map f l) -> x ∈ l -> y ∈ l -> f x = f y -> x = y.
Proof.
  induction l as [|z l IH]; simpl; [set_solver|]. rewrite list.NoDup_cons. intros [Hz Hl] Hx Hy E.
  apply elem_of_cons in Hx as [->|Hx]; apply elem_of_cons in Hy as [->|Hy]; auto.
  - exfalso. apply Hz. rewrite E. apply elem_of_map. eauto.
  - exfalso. apply Hz. rewrite <- E. apply elem_of_map. eauto.
Qed.

Lemma nodup_snoc {A} (l : list A) x : NoDup l -> x ∉ l -> NoDup (l ++ [x]).
Proof. intros Hl Hx. apply list.NoDup_app. split; [done|]. split; [|apply NoDup_singleton]. by intros y Hy ->%list_elem_of_singleton. Qed.

(** ** Texts as lists of code points or bytes: splitting and joining *)

(** [s.split(c)] *)
Fixpoint split_at (c : Z) (l : list Z) : list (list Z) :=
  match l with
  | [] => [[]]
  | x :: r => match split_at c r with
              | h :: t => if x =? c then [] :: h :: t else (x :: h) :: t
              | [] => [[x]]
              end
  end.

(** [l.join(c)] *)
Fixpoint join_with (c : Z) (l : list (list Z)) : list Z :=
  match l with [] => [] | [x] => x | x :: r => x ++ c :: join_with c r end.

Lemma split_at_ne c l : split_at c l <> [].
Proof. destruct l as [|x l]; [done|]. cbn. destruct (split_at c l); [done|]. by destruct (x =? c). Qed.

Lemma split_at_free c l : c ∉ l -> split_at c l = [l].
Proof.
  induction l as [|x l IH]; [done|]. intros [Hx Hl]%not_elem_of_cons. cbn. rewrite (IH Hl).
  rewrite (proj2 (Z.eqb_neq x c)); [done|congruence].
Qed.

Lemma split_at_app c a b : c ∉ a -> split_at c (a ++ c :: b) = a :: split_at c b.
Proof.
  induction a as [|x a IH].
  - intros _. cbn. pose proof (split_at_ne c b). destruct (split_at c b); [done|]. by rewrite Z.eqb_refl.
  - intros [Hx Ha]%not_elem_of_cons. cbn. rewrite (IH Ha), (proj2 (Z.eqb_neq x c)); [done|congruence].
Qed.

Lemma split_join c l : l <> [] -> Forall (fun s => c ∉ s) l -> split_at c (join_with c l) = l.
Proof.
  intros Hne H. induction H as [|s l Hs H IH]; [done|].
  destruct l as [|t l]; [by apply split_at_free|].
  change (join_with c (s :: t :: l)) with (s ++ c :: join_with c (t :: l)). rewrite split_at_app by done. by rewrite IH.
Qed.

Lemma join_split c l : join_with c (split_at c l) = l.
Proof.
  induction l as [|x l IH]; [done|]. cbn. pose proof (split_at_ne c l). destruct (split_at c l) as [|h t]; [done|].
  destruct (Z.eqb_spec x c) as [->|_].
  - by rewrite <- IH.
  - rewrite <- IH. by destruct t.
Qed.

Lemma split_at_elem c l s x : s ∈ split_at c l -> x ∈ s -> x ∈ l /\ x <> c.
Proof.
  revert s. induction l as [|y l IH]; intros s.
  - intros ->%list_elem_of_singleton. by intros ?%elem_of_nil.
  - cbn. pose proof (split_at_ne c l) as Hne. destruct (split_at c l) as [|h t]; [done|].
    destruct (Z.eqb_spec y c) as [->|Hy].
    + intros [->|Hs]%elem_of_cons Hx; [by apply elem_of_nil in Hx|].
      destruct (IH s Hs Hx) as [? ?]. split; [by right|done].
    + intros [->|Hs]%elem_of_cons Hx.
      * apply elem_of_cons in Hx as [->|Hx]; [split; [by left|done]|].
        destruct (IH h) as [? ?]; [by left|done|]. split; [by right|done].
      * destruct (IH s) as [? ?]; [by right|done|]. split; [by right|done].
Qed.

Lemma join_elem c l x : x ∈ join_with c l -> x = c \/ exists s, s ∈ l /\ x ∈ s.
Proof.
  induction l as [|s l IH]; [by intros ?%elem_of_nil|].
  destruct l as [|t l]; cbn [join_with].
  - intros Hx. right. exists s. split; [by left|done].
  - intros [Hx|Hx]%elem_of_app; [right; exists s; split; [by left|done]|].
    apply elem_of_cons in Hx as [->|Hx]; [by left|]. destruct (IH Hx) as [?|(u & ? & ?)]; [by left|].
    right. exists u. split; [by right|done].
Qed.

(** ** Automation *)

(** Turn boolean tests in the context into propositions. *)
Ltac bool_hyps :=
  repeat match goal with
  | H : (_ && _)%bool = true |- _ => apply andb_true_iff in H as [? ?]
  | H : (_ || _)%bool = false |- _ => apply orb_false_iff in H as [? ?]
  | H : negb _ = true |- _ => apply negb_true_iff in H
  | H : negb _ = false |- _ => apply negb_false_iff in H
  | H : String.eqb _ _ = true |- _ => apply String.eqb_eq in H
  | H : String.eqb _ _ = false |- _ => apply String.eqb_neq in H
  | H : bool_decide _ = true |- _ => apply bool_decide_eq_true in H
  | H : bool_decide _ = false |- _ => apply bool_decide_eq_false in H
  | H : (_ <? _)%Z = true |- _ => apply Z.ltb_lt in H
  | H : (_ <? _)%Z = false |- _ => apply Z.ltb_ge in H
  | H : (_ <=? _)%Z = true |- _ => apply Z.leb_le in H
  | H : (_ <=? _)%Z = false |- _ => apply Z.leb_gt in H
  | H : (_ =? _)%Z = true |- _ => apply Z.eqb_eq in H
  | H : (_ =? _)%Z = false |- _ => apply Z.eqb_neq in H
  end.

(** Open a successful computation in the error monad. *)
Ltac run_ok :=
  repeat match goal with
  | H : rbind _ _ = Ok _ |- _ => apply rbind_ok in H as (? & ? & ?)
  | H : (if _ then _ else Err _) = Ok _ |- _ => apply assert_ok in H as [? ?]
  | H : Ok _ = Ok _ |- _ => injection H as H; try subst
  | H : Err _ = Ok _ |- _ => discriminate H
  end.

(** Split the next test or match of hypothesis [H]. *)
Ltac split_in H :=
  match type of H with
  | context [if ?b then _ else _] => destruct b eqn:?
  | context [match ?x with _ => _ end] => destruct x eqn:?
  end.

Create HintDb plur.
#[export] Hint Resolve zsum_nonneg : plur.
#[export] Hint Rewrite @zsum_nil @zsum_cons @zsum_app : plur.

(** ** Stateful code that may throw

    A step reads and writes the component's state; a throw keeps the writes
    made before it, as it does in the source. *)
Definition SE (S E A : Type) : Type := S -> result E A * S.

#[export] Instance SE_ret {S E} : MRet (SE S E) := fun A a s => (Ok a, s).
#[export] Instance SE_bind {S E} : MBind (SE S E) := fun A B k m s =>
  match m s with
  | (Ok a, s') => k a s'
  | (Err e, s') => (Err e, s')
  end.

Definition throw {S E A} (e : E) : SE S E A := fun s => (Err e, s).
Definition gets {S E A} (f : S -> A) : SE S E A := fun s => (Ok (f s), s).
Definition modify {S E} (f : S -> S) : SE S E unit := fun s => (Ok tt, f s).
Definition require {S E} (b : bool) (e : E) : SE S E unit := if b then mret tt else throw e.

(** [try { m } catch { h }] *)
Definition catch {S E E' A} (m : SE S E A) (h : E -> SE S E' A) : SE S E' A := fun s =>
  match m s with
  | (Ok a, s') => (Ok a, s')
  | (Err e, s') => h e s'
  end.

Lemma SE_bind_ok {S E A B} (m : SE S E A) (k : A -> SE S E B) s b s' :
  (m ≫= k) s = (Ok b, s') <-> exists a s1, m s = (Ok a, s1) /\ k a s1 = (Ok b, s').
Proof.
  unfold mbind, SE_bind. destruct (m s) as [[a|e] s1]; split.
  - eauto.
  - intros (a' & s2 & [= <- <-] & H). exact H.
  - discriminate.
  - intros (a' & s2 & H & _). discriminate.
Qed.

Lemma SE_bind_run {S E A B} (m : SE S E A) (k : A -> SE S E B) s a s' :
  m s = (Ok a, s') -> (m ≫= k) s = k a s'.
Proof. intros H. unfold mbind, SE_bind. by rewrite H. Qed.

Lemma SE_bind_err {S E A B} (m : SE S E A) (k : A -> SE S E B) s e s' :
  m s = (Err e, s') -> (m ≫= k) s = (Err e, s').
Proof. intros H. unfold mbind, SE_bind. by rewrite H. Qed.

Lemma require_ok {S E} b (e : E) (s : S) u s' : require b e s = (Ok u, s') <-> b = true /\ s = s'.
Proof. destruct b; split; [by intros [= _ <-]|by intros [_ ->]; destruct u|discriminate|by intros [? _]]. Qed.

(** Open a successful run of a stateful step. *)
Ltac run_se :=
  repeat match goal with
  | H : (_ ≫= _) _ = (Ok _, _) |- _ => apply SE_bind_ok in H as (? & ? & ? & ?)
  | H : require _ _ _ = (Ok _, _) |- _ => apply require_ok in H as [? ?]; subst
  | H : mret _ _ = (Ok _, _) |- _ => injection H as ? ?; subst
  | H : gets _ _ = (Ok _, _) |- _ => injection H as ? ?; subst
  | H : modify _ _ = (Ok _, _) |- _ => injection H as ? ?; subst
  | H : throw _ _ = (Ok _, _) |- _ => discriminate H
  | H : (Ok _, _) = (Ok _, _) |- _ => injection H as ? ?; subst
  | H : (Err _, _) = (Ok _, _) |- _ => discriminate H
  end.

(** ** Triples for stateful steps

    [triple P m Q R]: from a state in [P], [m] ends in [Q] with its value or in
    [R] with its error; both outcomes keep the writes made on the way. *)
Definition triple {S E A} (P : S -> Prop) (m : SE S E A) (Q : A -> S -> Prop) (R : E -> S -> Prop) : Prop :=
  forall s, P s -> match m s with (Ok a, s') => Q a s' | (Err e, s') => R e s' end.

(** [m] keeps [P] however it ends. *)
Definition keeps {S E A} (P : S -> Prop) (m : SE S E A) : Prop := triple P m (fun _ => P) (fun _ => P).

Section triples.
Context {S E : Type}.
Implicit Types P : S -> Prop.

Lemma triple_bind {A B} P (m : SE S E A) (k : A -> SE S E B) Q Q' R :
  triple P m Q R -> (forall a, triple (Q a) (k a) Q' R) -> triple P (m ≫= k) Q' R.
Proof.
  intros Hm Hk s Hs. specialize (Hm s Hs). unfold mbind, SE_bind.
  destruct (m s) as [[a|e] s']; [by apply Hk|done].
Qed.

Lemma triple_ret {A} P (a : A) (Q : A -> S -> Prop) (R : E -> S -> Prop) :
  (forall s, P s -> Q a s) -> triple P (mret a) Q R.
Proof. intros H s Hs. by apply H. Qed.

Lemma triple_throw {A} P (e : E) (Q : A -> S -> Prop) R : (forall s, P s -> R e s) -> triple P (throw e) Q R.
Proof. intros H s Hs. by apply H. Qed.

Lemma triple_gets {A} P (f : S -> A) (R : E -> S -> Prop) : triple P (gets f) (fun a s => P s /\ a = f s) R.
Proof. intros s Hs. done. Qed.

Lemma triple_modify P (f : S -> S) (Q : unit -> S -> Prop) (R : E -> S -> Prop) :
  (forall s, P s -> Q tt (f s)) -> triple P (modify f) Q R.
Proof. intros H s Hs. by apply H. Qed.

Lemma triple_require P b (e : E) (R : E -> S -> Prop) :
  (forall s, P s -> R e s) -> triple P (require b e) (fun _ s => P s /\ b = true) R.
Proof. intros H s Hs. unfold require. destruct b; [done|by apply H]. Qed.

Lemma triple_catch {E' A} P (m : SE S E A) (h : E -> SE S E' A) Q R R' :
  triple P m Q R -> (forall e, triple (R e) (h e) Q R') -> triple P (catch m h) Q R'.
Proof.
  intros Hm Hh s Hs. specialize (Hm s Hs). unfold catch.
  destruct (m s) as [[a|e] s']; [done|by apply Hh].
Qed.

Lemma triple_weaken {A} P P' (m : SE S E A) Q Q' R R' :
  triple P m Q R -> (forall s, P' s -> P s) -> (forall a s, Q a s -> Q' a s) -> (forall e s, R e s -> R' e s) ->
  triple P' m Q' R'.
Proof. intros H Hp Hq Hr s Hs. specialize (H s (Hp s Hs)). destruct (m s) as [[a|e] s']; auto. Qed.

Lemma triple_pre {A} P (b : Prop) (m : SE S E A) Q R :
  (b -> triple P m Q R) -> triple (fun s => P s /\ b) m Q R.
Proof. intros H s [Hs Hb]. by apply H. Qed.

Lemma keeps_bind {A B} P (m : SE S E A) (k : A -> SE S E B) :
  keeps P m -> (forall a, keeps P (k a)) -> keeps P (m ≫= k).
Proof. intros Hm Hk. by eapply triple_bind. Qed.

Lemma keeps_ret {A} P (a : A) : keeps P (mret a : SE S E A).
Proof. by apply triple_ret. Qed.

Lemma keeps_throw {A} P (e : E) : keeps P (throw e : SE S E A).
Proof. by apply triple_throw. Qed.

Lemma keeps_gets {A} P (f : S -> A) : keeps P (gets f : SE S E A).
Proof. by intros s Hs. Qed.

Lemma keeps_require P b (e : E) : keeps P (require b e).
Proof. intros s Hs. unfold require. by destruct b. Qed.

Lemma keeps_catch {E' A} P (m : SE S E A) (h : E -> SE S E' A) :
  keeps P m -> (forall e, keeps P (h e)) -> keeps P (catch m h).
Proof. intros Hm Hh. by eapply triple_catch. Qed.

Lemma keeps_modify P (f : S -> S) : (forall s, P s -> P (f s)) -> keeps P (modify f : SE S E unit).
Proof. intros H s Hs. by apply H. Qed.

Lemma keeps_state {A} P (m : SE S E A) s : keeps P m -> P s -> P (m s).2.
Proof. intros H Hs. specialize (H s Hs). by destruct (m s) as [[a|e] s']. Qed.

(** A test before a step that depends on it. *)
Lemma keeps_require_bind {A} P b (e : E) (k : unit -> SE S E A) :
  (b = true -> keeps P (k tt)) -> keeps P (require b e ≫= k).
Proof.
  intros H s Hs. destruct b; [by apply H|done].
Qed.
End triples.

Create HintDb keeps.
#[export] Hint Resolve keeps_ret keeps_throw keeps_gets keeps_require : keeps.

(** Walk down a step, leaving the writes and the calls. *)
Ltac keeps_tac :=
  repeat (match goal with
  | |- keeps _ (_ ≫= _) => apply keeps_bind; [|intros]
  | |- keeps _ (catch _ _) => apply keeps_catch; [|intros]
  | |- keeps _ (match ?x with _ => _ end) => destruct x eqn:?
  | |- keeps _ _ => solve [auto with keeps]
  end).
