(* ===== verification/PolicyCaps.v ===== *)
(** * Capability taxonomy and effect vocabulary

    Model of [packages/core/src/policy/capabilities.ts] (the capability table
    with its classes, ceilings, surfaces and risks) and of
    [packages/core/src/policy/effects.ts] (the effect vocabulary and the three
    mappings onto it). *)

From S2P Require Import Prelude.

(** ** Classes, scopes, risks *)

(* @src policy/capabilities.ts 5 5 PolicyClass *)
Inductive PolicyClass : Type := Allowed | Approval | Never.
#[export] Instance PolicyClass_eq_dec : EqDecision PolicyClass.
Proof. solve_decision. Defined.

(* @src policy/capabilities.ts 6 6 CLASS_STRICTNESS *)
Definition CLASS_STRICTNESS (c : PolicyClass) : Z :=
  match c with Allowed => 0 | Approval => 1 | Never => 2 end.

(* @src policy/capabilities.ts 7 9 stricterClass *)
Definition stricterClass (a b : PolicyClass) : PolicyClass :=
  if CLASS_STRICTNESS b <=? CLASS_STRICTNESS a then a else b.

(* @src policy/capabilities.ts 12 12 GrantScope *)
Inductive GrantScope : Type := Once | Task | Session | Always.
#[export] Instance GrantScope_eq_dec : EqDecision GrantScope.
Proof. solve_decision. Defined.

(* @src policy/capabilities.ts 11 11 GRANT_SCOPES *)
Definition GRANT_SCOPES : list GrantScope := [Once; Task; Session; Always].

(* @src policy/capabilities.ts 13 15 scopeRank *)
Definition scopeRank (s : GrantScope) : Z :=
  match list_find (eq s) GRANT_SCOPES with Some (i, _) => Z.of_nat i | None => -1 end.

(* @src policy/capabilities.ts 18 18 Risk *)
Inductive Risk : Type := Low | Medium | High | Critical.
#[export] Instance Risk_eq_dec : EqDecision Risk.
Proof. solve_decision. Defined.

(* @src policy/capabilities.ts 17 17 RISKS *)
Definition RISKS : list Risk := [Low; Medium; High; Critical].

(* @src policy/capabilities.ts 19 21 riskRank *)
Definition riskRank (r : Risk) : Z :=
  match list_find (eq r) RISKS with Some (i, _) => Z.of_nat i | None => -1 end.

(** Surface trust T0..T3, kept as the number the code compares. *)
(* @src policy/capabilities.ts 24 24 SurfaceTrust *)
Definition SurfaceTrust : Type := Z.

(* @src policy/capabilities.ts 26 26 MIN *)
Definition MIN : Z := 60000.
(* @src policy/capabilities.ts 27 27 HOUR *)
Definition HOUR : Z := 60 * MIN.
(* @src policy/capabilities.ts 28 28 DAY *)
Definition DAY : Z := 24 * HOUR.

(** [DEFAULTS]: the lifetimes and thresholds, one constant per key. *)
(* @src policy/capabilities.ts 32 32 DEFAULTS.lifetimes.onceUnusedMs *)
Definition onceUnusedMs : Z := 10 * MIN.
(* @src policy/capabilities.ts 33 33 DEFAULTS.lifetimes.taskMs *)
Definition taskMs : Z := 24 * HOUR.
(* @src policy/capabilities.ts 34 34 DEFAULTS.lifetimes.sessionIdleMs *)
Definition sessionIdleMs : Z := 7 * DAY.
(* @src policy/capabilities.ts 35 35 DEFAULTS.lifetimes.alwaysUnusedMs *)
Definition alwaysUnusedMs : Z := 90 * DAY.
(* @src policy/capabilities.ts 37 37 DEFAULTS.reviewNudgeAgeMs *)
Definition reviewNudgeAgeMs : Z := 90 * DAY.
(* @src policy/capabilities.ts 38 38 DEFAULTS.maxPromptsPerTaskPerHour *)
Definition maxPromptsPerTaskPerHour : Z := 10.
(* @src policy/capabilities.ts 39 39 DEFAULTS.batchTargetsOver *)
Definition batchTargetsOver : Z := 20.
(* @src policy/capabilities.ts 40 40 DEFAULTS.surfaceByRisk *)
Definition surfaceByRisk (r : Risk) : SurfaceTrust :=
  match r with Low => 1 | Medium => 2 | High => 2 | Critical => 3 end.

(** ** Effects *)

(* @src policy/effects.ts 5 5 Effect *)
Inductive Effect : Type :=
  ERead | ELocalWrite | ELocalDestructive | EExternal | ENetworkA2a | EMoney.
#[export] Instance Effect_eq_dec : EqDecision Effect.
Proof. solve_decision. Defined.

(* @src policy/effects.ts 4 4 EFFECTS *)
Definition EFFECTS : list (string * Effect) :=
  [("read", ERead); ("local-write", ELocalWrite); ("local-destructive", ELocalDestructive);
   ("external", EExternal); ("network.a2a", ENetworkA2a); ("money", EMoney)].

(* @src policy/effects.ts 7 9 effectRank *)
Definition effectRank (e : Effect) : Z :=
  match e with
  | ERead => 0 | ELocalWrite => 1 | ELocalDestructive => 2
  | EExternal => 3 | ENetworkA2a => 3 | EMoney => 4
  end.

(* @src policy/effects.ts 11 13 maxEffect *)
Definition maxEffect (a b : Effect) : Effect :=
  if effectRank b <=? effectRank a then a else b.

(** [isEffect(v)], together with the effect the string names. *)
(* @src policy/effects.ts 15 17 isEffect *)
Definition effect_of (v : js) : option Effect :=
  match v with
  | JStr s => snd <$> bfind (fun p => String.eqb p.1 s) EFFECTS
  | _ => None
  end.

(* @src policy/effects.ts 20 28 fromSideEffects *)
Definition fromSideEffects (side : string) (irreversible : bool) : Effect :=
  if String.eqb side "none" then ERead
  else if String.eqb side "local" then (if irreversible then ELocalDestructive else ELocalWrite)
  else if String.eqb side "external" then EExternal
  else if String.eqb side "money" then EMoney
  else EExternal.

(* @src policy/effects.ts 31 36 fromExtensionEffect *)
Definition fromExtensionEffect (effect : string) (network : option string) : Effect :=
  let none := match network with Some n => String.eqb n "none" | None => false end in
  if String.eqb effect "read" then ERead
  else if negb (String.eqb effect "write") && negb (String.eqb effect "destructive") then EExternal
  else if String.eqb effect "destructive" then (if none then ELocalDestructive else EExternal)
  else if none then ELocalWrite else EExternal.

(* @src policy/effects.ts 38 38 McpAnnotations *)
Record McpAnnotations : Type := {
  readOnlyHint : js;
  destructiveHint : js;
  openWorldHint : js
}.

(* @src policy/effects.ts 44 49 fromMcp *)
Definition fromMcp (declared : js) (ann : McpAnnotations) : Effect :=
  let e := match effect_of declared with Some d => d | None => EExternal end in
  let e := if js_is_true (destructiveHint ann) then maxEffect e ELocalDestructive else e in
  if js_is_true (openWorldHint ann) then maxEffect e EExternal else e.

(** ** The capability table *)

Record Base : Type := { inside : PolicyClass; outside : PolicyClass }.

(* @src policy/capabilities.ts 43 59 CapabilityDef *)
Record CapabilityDef : Type := {
  cap_id : string;
  covers : string;
  intrinsicEffect : Effect;
  base : Base;
  ceiling : option GrantScope;
  minSurface : option SurfaceTrust;
  baseRisk : Risk;
  lowerable : bool;
  taintSensitive : bool
}.

(* @src policy/capabilities.ts 64 64 same *)
Definition same (c : PolicyClass) : Base := {| inside := c; outside := c |}.
Definition inout (i o : PolicyClass) : Base := {| inside := i; outside := o |}.

(* @src policy/capabilities.ts 66 68 def *)
Definition def (id covers : string) (e : Effect) (b : Base) (ceil : option GrantScope)
    (ms : option SurfaceTrust) (r : Risk) (taint : bool) : CapabilityDef :=
  {| cap_id := id; covers := covers; intrinsicEffect := e; base := b; ceiling := ceil;
     minSurface := ms; baseRisk := r;
     lowerable := bool_decide (ceil <> Some Once) && bool_decide (ms <> Some 3)
                  && bool_decide (inside b <> Never);
     taintSensitive := taint |}.

Notation A := Allowed (only parsing).
Notation P := Approval (only parsing).
Notation N := Never (only parsing).

(* @src policy/capabilities.ts 70 112 TABLE *)
Definition TABLE : list CapabilityDef := [
  def "apps.launch" "apps.open/focus, hostctl.app.open" ELocalWrite (same P) (Some Once) (Some 2) Medium false;
  def "fs.read" "fs.list/stat/read/search" ERead (inout A P) (Some Always) (Some 1) Low false;
  def "fs.write" "fs.write/edit/mkdir/copy/move, fs.trash inside roots" ELocalWrite (inout A P) (Some Always) (Some 1) Low false;
  def "memory.read" "memory.recall within the admitted caller and agent" ERead (same A) None None Low false;
  def "memory.write" "memory.capture within the admitted caller and session" ELocalWrite (same A) (Some Always) (Some 2) Low false;
  def "fs.delete" "fs.delete, fs.trash outside roots" ELocalDestructive (same P) (Some Task) (Some 2) High false;
  def "shell.exec" "shell.*, skill scripts" ELocalWrite (same P) (Some Always) (Some 2) Medium false;
  def "proc.signal" "proc.signal/kill, apps.quit with unsaved state" ELocalDestructive (same P) (Some Session) (Some 2) Medium false;
  def "pkg.change" "pkg.install/upgrade/remove" ELocalDestructive (same P) (Some Once) (Some 2) High false;
  def "sys.read" "sys.*, proc.list" ERead (same A) None None Low false;
  def "clipboard.read" "clipboard.read" ERead (same P) (Some Session) (Some 1) Low false;
  def "net.fetch" "web.fetch, browser.navigate/read" ERead (same A) None None Low false;
  def "net.submit" "form submission, downloads, external MCP tools, non-read-only webmcp" EExternal (same P) (Some Session) (Some 2) Medium true;
  def "network.a2a" "outbound A2A card discovery and messages" ENetworkA2a (same P) (Some Session) (Some 2) Medium true;
  def "mcp.tool.read" "MCP tools declared read by an installed extension" ERead (same A) None None Low false;
  def "mcp.tool.write" "MCP tools declared local write by an installed extension" ELocalWrite (same P) (Some Session) (Some 2) Medium false;
  def "mcp.tool.destructive" "MCP tools declared destructive or raised by server annotations" ELocalDestructive (same P) (Some Once) (Some 2) High false;
  def "comm.send" "mail/messages/posts as the person" EExternal (same P) (Some Session) (Some 2) High true;
  def "net.publish" "tailnet / public publishing" EExternal (same P) (Some Always) (Some 2) High true;
  def "money.spend" "purchases, paid top-ups, money tools" EMoney (same P) (Some Once) (Some 3) Critical false;
  def "os.privilege" "sudo, doas, pkexec, polkit, UAC, runas" ELocalDestructive (same P) (Some Once) (Some 3) Critical false;
  def "os.grant" "TCC / privacy toggles / portals" ELocalWrite (same P) (Some Always) (Some 3) High false;
  def "os.script" "os.shortcuts.run, os.script.run" ELocalWrite (same P) (Some Session) (Some 2) Medium false;
  def "screen.capture" "screen.capture" ERead (same P) (Some Session) (Some 2) Medium false;
  def "ui.control" "ui.*" ELocalWrite (same P) (Some Session) (Some 2) High false;
  def "secrets.use" "leasing a secret slot into a tool or script" ERead (same A) None None Low false;
  def "agent.delegate" "delegate/handoff, MoA" ERead (same A) None None Low false;
  def "remote.control" "D108 session start" EExternal (same P) (Some Always) (Some 3) Critical false;
  def "hostctl.fs.trash" "hostctl.fs.trash inside roots, native Trash only" ELocalDestructive (same P) (Some Task) (Some 2) Medium false;
  def "hostctl.proc.session.read" "owned process-session list/output" ERead (same A) (Some Session) (Some 1) Low false;
  def "hostctl.proc.session.write" "stdin of an owned process session" ELocalWrite (same P) (Some Session) (Some 2) Medium false;
  def "hostctl.proc.kill_foreign" "signal foreign PID, separate approval" ELocalDestructive (same P) (Some Once) (Some 2) High false;
  def "harness.admin" "config writes, extension install/enable, grants and approvals themselves" ELocalWrite (same N) None None Critical false;
  def "credential.entry" "typing passwords or OTPs into any UI" EExternal (same N) None None Critical false;
  def "captcha.solve" "solving CAPTCHAs" EExternal (same N) None None Critical false;
  def "input.monitor" "keystroke capture" ERead (same N) None None Critical false;
  def "policy.bypass" "disabling the sandbox, editing the policy or the store" ELocalWrite (same N) None None Critical false
].

(** [new Map(TABLE.map(...))]: the last row of an id would win. *)
(* @src policy/capabilities.ts 116 116 CAPABILITIES *)
Definition CAPABILITIES_get (id : string) : option CapabilityDef :=
  bfind (fun d => String.eqb (cap_id d) id) (reverse TABLE).

(* @src policy/capabilities.ts 119 119 NEVER_CAPABILITIES *)
Definition NEVER_CAPABILITIES : list string :=
  map cap_id (bfilter (fun d => bool_decide (inside (base d) = Never)) TABLE).

(* @src policy/capabilities.ts 121 123 capabilityOf *)
Definition capabilityOf (id : string) : option CapabilityDef := CAPABILITIES_get id.

(** ** Lemmas *)

Lemma CLASS_STRICTNESS_inj a b : CLASS_STRICTNESS a = CLASS_STRICTNESS b -> a = b.
Proof. destruct a, b; simpl; congruence. Qed.

Lemma stricterClass_upper a b :
  CLASS_STRICTNESS a <= CLASS_STRICTNESS (stricterClass a b)
  /\ CLASS_STRICTNESS b <= CLASS_STRICTNESS (stricterClass a b).
Proof. destruct a, b; vm_compute; split; discriminate. Qed.

Lemma stricterClass_approval c : stricterClass c Approval <> Allowed.
Proof. destruct c; vm_compute; discriminate. Qed.

Lemma maxEffect_ge_l a b : effectRank a <= effectRank (maxEffect a b).
Proof. destruct a, b; vm_compute; discriminate. Qed.

Lemma maxEffect_ge_r a b : effectRank b <= effectRank (maxEffect a b).
Proof. destruct a, b; vm_compute; discriminate. Qed.

Lemma scopeRank_nonneg s : 0 <= scopeRank s <= 3.
Proof. destruct s; vm_compute; split; discriminate. Qed.

Lemma scopeRank_inj s t : scopeRank s = scopeRank t -> s = t.
Proof. destruct s, t; vm_compute; congruence. Qed.

Lemma riskRank_range r : 0 <= riskRank r <= 3.
Proof. destruct r; vm_compute; split; discriminate. Qed.

(** A boolean test that holds of every row of the table holds of every
    capability looked up in it. *)
Lemma CAPABILITIES_forall (p : CapabilityDef -> bool) id d :
  forallb p TABLE = true -> CAPABILITIES_get id = Some d -> p d = true /\ cap_id d = id.
Proof.
  intros Hall H. apply bfind_some in H as [Hin He]. bool_hyps. split; [|exact He].
  rewrite forallb_elem in Hall. apply Hall. by apply elem_of_reverse.
Qed.

Lemma CAPABILITIES_in id d : CAPABILITIES_get id = Some d -> d ∈ TABLE /\ cap_id d = id.
Proof.
  intros H. apply bfind_some in H as [Hin He]. bool_hyps.
  split; [by apply elem_of_reverse | exact He].
Qed.

Lemma capability_ids_distinct : NoDup (map cap_id TABLE).
Proof. apply (bool_decide_unpack _). vm_compute. exact I. Qed.

#[export] Hint Resolve maxEffect_ge_l maxEffect_ge_r scopeRank_nonneg riskRank_range : plur.
