(* ===== verification/PolicyDecide.v ===== *)
(** * The decision evaluator

    Model of [packages/core/src/policy/decide.ts] and
    [packages/core/src/policy/headless.ts]: the whole precedence chain from a
    raw call and context to allow / ask / deny, with the grant checks, the
    scope, surface and risk helpers and the two matchers (tool globs and path
    coverage).  [decide] reads raw JavaScript values, as the exported function
    does; [evaluate] is its body once [malformed] let the input through. *)

From S2P Require Import Prelude PolicyCaps.
From Stdlib Require Import Ascii.

(** ** Data *)

(* @src policy/decide.ts 11 11 SubjectKind *)
Inductive SubjectKind : Type :=
  SAgent | SSubagent | SAcpAgent | SMcpClient | SAcpEditor | SA2aPeer | SRemoteHarness.
#[export] Instance SubjectKind_eq_dec : EqDecision SubjectKind.
Proof. solve_decision. Defined.

(* @src policy/decide.ts 175 175 SUBJECT_KINDS *)
Definition SUBJECT_KINDS : list (string * SubjectKind) :=
  [("agent", SAgent); ("subagent", SSubagent); ("acp-agent", SAcpAgent); ("mcp-client", SMcpClient);
   ("acp-editor", SAcpEditor); ("a2a-peer", SA2aPeer); ("remote-harness", SRemoteHarness)].

(** Absent optional flags behave as [false] in every test of the evaluator. *)
(* @src policy/decide.ts 14 31 CallFlags *)
Record CallFlags : Type := {
  outsideRoots : bool; denyListHit : bool; privileged : bool; irreversible : bool; batch : bool;
  shellAllowlisted : bool; sandboxed : bool; secretSlotDeclared : bool; publishPublic : bool;
  systemTree : bool
}.

Inductive Access : Type := ARead | AWrite.
#[export] Instance Access_eq_dec : EqDecision Access.
Proof. solve_decision. Defined.

(** [capability] and [effect] are re-tested where they are used, so they stay raw. *)
(* @src policy/decide.ts 33 44 Call *)
Record Call : Type := {
  capability : js; tool : string; c_effect : js; flags : CallFlags;
  targets : option (list string); access : option Access; actionHash : string
}.

Record Handoff : Type := { h_scope : list string; h_taskId : string; approvalsHeld : list string }.

(* @src policy/decide.ts 46 68 Context *)
Record Context : Type := {
  person : string; subject_kind : SubjectKind; subject_agent : string; surface : js;
  ctx_sessionId : option string; ctx_taskId : option string; ctx_projectId : option string;
  headless : option string; toolsDeny : js; overrides : js; taint : js;
  handoff : option Handoff; tokenScopes : option (list string);
  deniedActionHashes : option (list string); promptsThisHour : js
}.

(* @src policy/decide.ts 70 73 GrantMatch *)
Inductive GrantMatch : Type :=
| MAction
| MCapability
| MPath (path : string) (acc : Access) (recursive : bool).
#[export] Instance GrantMatch_eq_dec : EqDecision GrantMatch.
Proof. solve_decision. Defined.

(* @src policy/decide.ts 75 101 Grant *)
Record Grant : Type := {
  g_id : string; g_capability : string; g_person : string; g_agent : string;
  g_scope : GrantScope; g_match : GrantMatch; createdAt : num; lastUsedAt : option num;
  expiresAt : option num; revoked : js; consumedAt : option num; g_actionHash : option string;
  g_taskId : option string; g_sessionId : option string; g_projectId : option string;
  g_jobId : option string; delegable : js; g_surface : Z; acknowledgedUnsandboxed : js
}.

(* @src policy/decide.ts 103 110 GrantSource *)
Record Deps : Type := {
  maxGrantDays : option Z;
  grants_list : string -> string -> string -> list Grant;
  grants_get : string -> option Grant;
  clock_now : num
}.

(* @src policy/decide.ts 112 112 DenyReason *)
Inductive DenyReason : Type :=
  PolicyNever | DenyList | SurfaceUntrusted | RepeatDenied | PromptCap.

(* @src policy/decide.ts 114 131 ApprovalRequest *)
Record GrantOption : Type := { o_scope : GrantScope; o_requiredSurface : SurfaceTrust }.
Record ApprovalRequest : Type := {
  r_capability : string; r_tool : string; r_effect : Effect; r_flags : CallFlags; r_risk : Risk;
  reversible : bool; r_actionHash : string; grantOptions : list GrantOption;
  r_requiredSurface : option SurfaceTrust; tainted : bool; taintSuspended : bool;
  originSurface : js
}.

Inductive Via : Type := ViaDefault | ViaOverride | ViaGrant (grantId : string) (reviewDue : bool).

(* @src policy/decide.ts 133 138 Decision *)
Inductive Decision : Type :=
| DAllow (via : Via)
| DAsk (request : ApprovalRequest) (park : bool) (why : string)
| DDeny (reason : DenyReason) (rule : string).

(** ** Names and globs *)

(* @src policy/decide.ts 141 143 canon *)
Definition canon (s : string) : string := lower (trim s).

(** The two cursors [p] and [n] are the suffixes still to be read; [star] holds
    the pattern after the last star and the [mark] suffix it was met at. *)
(* @src policy/decide.ts 146 156 globMatch *)
Fixpoint glob_loop (fuel : nat) (pat name : list ascii) (star : option (list ascii * list ascii)) : option bool :=
  match fuel with
  | O => None
  | S f =>
    match name with
    | [] => Some (forallb (Ascii.eqb "*") pat)
    | c :: name' =>
      let backtrack :=
        match star with
        | Some (sp, _ :: mark') => glob_loop f sp mark' (Some (sp, mark'))
        | _ => Some false
        end in
      match pat with
      | d :: pat' =>
        if Ascii.eqb d "*" then glob_loop f pat' name (Some (pat', name))
        else if Ascii.eqb d c then glob_loop f pat' name' star
        else backtrack
      | [] => backtrack
      end
    end
  end.

Definition glob_fuel (pat name : list ascii) : nat := S ((length name + 2) * (length pat + 1)).

(* @src policy/decide.ts 146 156 globMatch *)
Definition globMatch (pattern name : string) : bool :=
  match glob_loop (glob_fuel (chars pattern) (chars name)) (chars pattern) (chars name) None with
  | Some b => b
  | None => false
  end.

Inductive DenyHit : Type := HitInvalid | Hit (b : bool).

(* @src policy/decide.ts 163 173 matchesDeny *)
Fixpoint matches_entries (names : list string) (hit : bool) (l : list js) : DenyHit :=
  match l with
  | [] => Hit hit
  | JStr e :: r =>
      if is_empty (canon e) then HitInvalid
      else matches_entries names (hit || existsb (globMatch (canon e)) names) r
  | _ => HitInvalid
  end.

(* @src policy/decide.ts 163 173 matchesDeny *)
Definition matchesDeny (list : js) (call : Call) (cap : string) : DenyHit :=
  match list with
  | JArr l => matches_entries [canon (tool call); cap] false l
  | _ => HitInvalid
  end.

(** ** Raw input *)

(* @src policy/decide.ts 176 176 FLAG_KEYS *)
Definition FLAG_KEYS : list string :=
  ["privileged"; "irreversible"; "batch"; "shellAllowlisted"; "sandboxed"; "secretSlotDeclared";
   "publishPublic"; "systemTree"].

(* @src policy/decide.ts 178 178 strList *)
Definition strList (v : js) : bool := match v with JArr l => forallb js_is_str l | _ => false end.

(* @src policy/decide.ts 179 179 nonEmpty *)
Definition nonEmpty (v : js) : bool := match v with JStr s => negb (is_empty s) | _ => false end.

Inductive Bad : Type := InvalidCall | InvalidContext.
Definition bad_rule (b : Bad) : string :=
  match b with InvalidCall => "invalid-call" | InvalidContext => "invalid-context" end.

Definition js_in (keys : list string) (v : js) : bool :=
  match v with JStr s => includes keys s | _ => false end.

(* @src policy/decide.ts 182 188 malformed *)
Definition malformed_call (call : js) : bool :=
  let f := jget "flags" call in
  negb (js_is_obj call) || negb (js_is_obj f) || negb (js_is_bool (jget "outsideRoots" f))
  || negb (js_is_bool (jget "denyListHit" f))
  || existsb (fun k => negb (js_is_undef (jget k f)) && negb (js_is_bool (jget k f))) FLAG_KEYS
  || negb (js_is_str (jget "tool" call)) || negb (js_is_str (jget "actionHash" call))
  || (negb (js_is_undef (jget "targets" call)) && negb (strList (jget "targets" call)))
  || (negb (js_is_undef (jget "access" call)) && negb (js_in ["read"; "write"] (jget "access" call))).

(* @src policy/decide.ts 189 193 malformed *)
Definition malformed_context (ctx : js) : bool :=
  let h := jget "headless" ctx in
  let o := jget "handoff" ctx in
  negb (js_is_obj ctx) || negb (js_is_obj (jget "principal" ctx))
  || negb (nonEmpty (jget "person" (jget "principal" ctx)))
  || negb (js_is_obj (jget "subject" ctx)) || negb (nonEmpty (jget "agentId" (jget "subject" ctx)))
  || negb (js_in (map fst SUBJECT_KINDS) (jget "kind" (jget "subject" ctx)))
  || (negb (js_is_undef h) && (negb (js_is_obj h) || negb (nonEmpty (jget "jobId" h))))
  || (negb (js_is_undef (jget "tokenScopes" ctx)) && negb (strList (jget "tokenScopes" ctx)))
  || (negb (js_is_undef (jget "deniedActionHashes" ctx)) && negb (strList (jget "deniedActionHashes" ctx)))
  || (negb (js_is_undef o)
      && (negb (js_is_obj o) || negb (strList (jget "scope" o))
          || negb (strList (jget "approvalsHeld" o)) || negb (nonEmpty (jget "taskId" o)))).

(* @src policy/decide.ts 182 195 malformed *)
Definition malformed (call ctx : js) : option Bad :=
  if malformed_call call then Some InvalidCall
  else if malformed_context ctx then Some InvalidContext
  else None.

(** The typed view of a value [malformed] accepted. *)
Definition read_strs (v : js) : option (list string) :=
  match v with JArr l => Some (map js_str l) | _ => None end.

Definition read_flags (f : js) : CallFlags :=
  let b k := js_is_true (jget k f) in
  {| outsideRoots := b "outsideRoots"; denyListHit := b "denyListHit"; privileged := b "privileged";
     irreversible := b "irreversible"; batch := b "batch"; shellAllowlisted := b "shellAllowlisted";
     sandboxed := b "sandboxed"; secretSlotDeclared := b "secretSlotDeclared";
     publishPublic := b "publishPublic"; systemTree := b "systemTree" |}.

Definition read_call (v : js) : Call :=
  {| capability := jget "capability" v; tool := js_str (jget "tool" v); c_effect := jget "effect" v;
     flags := read_flags (jget "flags" v); targets := read_strs (jget "targets" v);
     access := match jget "access" v with
               | JStr s => if String.eqb s "read" then Some ARead else Some AWrite
               | _ => None
               end;
     actionHash := js_str (jget "actionHash" v) |}.

Definition read_kind (v : js) : SubjectKind :=
  match bfind (fun p => String.eqb p.1 (js_str v)) SUBJECT_KINDS with
  | Some p => p.2
  | None => SAgent
  end.

Definition read_ctx (v : js) : Context :=
  {| person := js_str (jget "person" (jget "principal" v));
     subject_kind := read_kind (jget "kind" (jget "subject" v));
     subject_agent := js_str (jget "agentId" (jget "subject" v));
     surface := jget "surface" v;
     ctx_sessionId := js_opt_str (jget "sessionId" v);
     ctx_taskId := js_opt_str (jget "taskId" v);
     ctx_projectId := js_opt_str (jget "projectId" v);
     headless := js_opt_str (jget "jobId" (jget "headless" v));
     toolsDeny := jget "toolsDeny" v; overrides := jget "overrides" v; taint := jget "taint" v;
     handoff := match jget "handoff" v with
                | JObj fs => let o := JObj fs in
                    Some {| h_scope := default [] (read_strs (jget "scope" o));
                            h_taskId := js_str (jget "taskId" o);
                            approvalsHeld := default [] (read_strs (jget "approvalsHeld" o)) |}
                | _ => None
                end;
     tokenScopes := read_strs (jget "tokenScopes" v);
     deniedActionHashes := read_strs (jget "deniedActionHashes" v);
     promptsThisHour := jget "promptsThisHour" v |}.

(** ** Scope, surface and risk *)

(* @src policy/decide.ts 223 225 isBatch *)
Definition isBatch (f : CallFlags) (ts : option (list string)) : bool :=
  batch f || (batchTargetsOver <? match ts with Some l => Z.of_nat (length l) | None => 0 end).

(** [cap(s)]: lower the running maximum. *)
Definition cap_scope (max s : GrantScope) : GrantScope := if scopeRank s <? scopeRank max then s else max.

(* @src policy/decide.ts 214 221 maxScopeFor *)
Definition maxScopeFor (d : CapabilityDef) (f : CallFlags) : GrantScope :=
  let max := default Once (ceiling d) in
  let max := if isBatch f None then cap_scope max Once else max in
  let max := if systemTree f then cap_scope max Task else max in
  if publishPublic f then cap_scope max Once else max.

(* @src policy/decide.ts 227 234 riskOf *)
Definition riskOf (d : CapabilityDef) (f : CallFlags) : Risk :=
  let r := riskRank (baseRisk d) in
  let r := if outsideRoots f && (effectRank ELocalWrite <=? effectRank (intrinsicEffect d)) then r + 1 else r in
  let r := if irreversible f then r + 1 else r in
  let r := if privileged f then r + 1 else r in
  let r := if publishPublic f || systemTree f then 3 else r in
  default Critical (RISKS !! Z.to_nat (Z.min r 3)).

(* @src policy/decide.ts 237 243 requiredSurface *)
Definition requiredSurface (d : CapabilityDef) (s : GrantScope) (f : CallFlags) : SurfaceTrust :=
  let always := bool_decide (s = Always) in
  let r := Z.max (default 1 (minSurface d)) (surfaceByRisk (riskOf d f)) in
  let r := if always && outsideRoots f
              && (String.eqb (cap_id d) "fs.write" || String.eqb (cap_id d) "shell.exec") then 3 else r in
  let r := if always && (String.eqb (cap_id d) "net.publish" || String.eqb (cap_id d) "remote.control")
           then 3 else r in
  if publishPublic f || systemTree f then 3 else r.

(* @src policy/decide.ts 246 251 surfaceMayDecide *)
Definition surfaceMayDecide (req_cap : string) (req_risk : Risk) (req_flags : CallFlags)
    (sf : SurfaceTrust) (s : GrantScope) : bool :=
  match CAPABILITIES_get req_cap with
  | None => false
  | Some d =>
      if sf <=? 0 then false
      else if (sf =? 1) && negb (bool_decide (req_risk = Low)
                                 && includes ["fs.read"; "fs.write"; "clipboard.read"] (cap_id d))
      then false
      else (requiredSurface d s req_flags <=? sf) && (scopeRank s <=? scopeRank (maxScopeFor d req_flags))
  end.

(** ** Grants *)

(* @src policy/decide.ts 197 209 validGrant *)
Definition validGrant (g : Grant) : bool :=
  negb (is_empty (g_id g)) && negb (is_empty (g_capability g)) && negb (is_empty (g_person g))
  && negb (is_empty (g_agent g))
  && is_finite (createdAt g)
  && match lastUsedAt g with None => true | Some t => is_finite t end
  && match expiresAt g with None => true | Some t => is_finite t end
  && ((g_surface g =? 0) || (g_surface g =? 1) || (g_surface g =? 2) || (g_surface g =? 3))
  && match g_match g with MPath p _ _ => negb (is_empty p) | _ => true end.

(* @src policy/decide.ts 254 262 grantExpiry *)
Definition grantExpiry (g : Grant) (maxDays : Z) : num :=
  let bound :=
    match g_scope g with
    | Once => num_add (createdAt g) (Fin onceUnusedMs)
    | Task => num_add (createdAt g) (Fin taskMs)
    | Session => num_add (default (createdAt g) (lastUsedAt g)) (Fin sessionIdleMs)
    | Always => num_add (default (createdAt g) (lastUsedAt g)) (Fin (maxDays * 24 * 60 * 60000))
    end in
  match expiresAt g with None => bound | Some e => num_min bound e end.

(** [now] is finite where the code calls this. *)
(* @src policy/decide.ts 265 267 grantReviewDue *)
Definition grantReviewDue (g : Grant) (now : num) : bool :=
  bool_decide (g_scope g = Always)
  && match createdAt g, now with
     | Fin c, Fin n => reviewNudgeAgeMs <=? n - c
     | _, _ => false
     end.

(** ** Path coverage *)

Definition is_letter (c : ascii) : bool :=
  let n := Ascii.nat_of_ascii c in
  ((Nat.leb 65 n && Nat.leb n 90) || (Nat.leb 97 n && Nat.leb n 122))%bool.
Definition is_slash (c : ascii) : bool := Ascii.eqb c "/".
Definition is_backslash (c : ascii) : bool := Ascii.eqb c "\".

(** [/^(?:\/|[A-Za-z]:[\\/]|\\\\)/] *)
(* @src policy/decide.ts 269 269 ABS *)
Definition ABS (p : list ascii) : bool :=
  match p with
  | c :: r =>
      is_slash c
      || match r with
         | d :: q =>
             (is_backslash c && is_backslash d)
             || (is_letter c && Ascii.eqb d ":"
                 && match q with e :: _ => is_slash e || is_backslash e | [] => false end)
         | [] => false
         end
  | [] => false
  end.

(** [p.split(sep)] followed by dropping empty pieces. *)
Fixpoint pieces (sep : ascii -> bool) (cur : list ascii) (p : list ascii) : list (list ascii) :=
  match p with
  | [] => if decide (cur = []) then [] else [reverse cur]
  | c :: r =>
      if sep c then (if decide (cur = []) then pieces sep [] r else reverse cur :: pieces sep [] r)
      else pieces sep (c :: cur) r
  end.

(* @src policy/decide.ts 274 279 segments *)
Definition segments (path : string) : option (bool * list (list ascii)) :=
  let p := chars path in
  if bool_decide (p = []) || existsb (Ascii.eqb Ascii.zero) p || negb (ABS p) then None
  else
    let posix := match p with c :: _ => is_slash c | [] => false end in
    let segs := pieces (fun c => if posix then is_slash c else is_slash c || is_backslash c) [] p in
    if existsb (fun s => bool_decide (s = chars ".") || bool_decide (s = chars "..")) segs then None
    else Some (posix, segs).

(* @src policy/decide.ts 282 289 pathCovered *)
Definition pathCovered (grantPath : string) (recursive : bool) (target : string) : bool :=
  match segments grantPath, segments target with
  | Some (gposix, g), Some (tposix, t) =>
      Bool.eqb gposix tposix
      && negb (Nat.eqb (length g) 0 || Nat.ltb (length t) (length g)
               || negb (bool_decide (take (length g) t = g)))
      && (if recursive then true else Nat.eqb (length t) (length g + 1))
  | _, _ => false
  end.

(** ** The evaluator *)

Inductive Override : Type := OvAllowed | OvApproval.

Fixpoint override_entries (id : string) (out : option Override) (l : list (string * js)) : option Override :=
  match l with
  | [] => out
  | (k, v) :: r =>
      if negb (String.eqb (canon k) id) then override_entries id out r
      else if js_in ["approval"] v then Some OvApproval
      else override_entries id (if js_in ["allowed"] v then Some OvAllowed else out) r
  end.

(* @src policy/decide.ts 364 373 overrideFor *)
Definition overrideFor (o : js) (id : string) : option Override :=
  match o with JObj fs => override_entries id None fs | _ => None end.

Definition with_batch (f : CallFlags) (b : bool) : CallFlags :=
  {| outsideRoots := outsideRoots f; denyListHit := denyListHit f; privileged := privileged f;
     irreversible := irreversible f; batch := b; shellAllowlisted := shellAllowlisted f;
     sandboxed := sandboxed f; secretSlotDeclared := secretSlotDeclared f;
     publishPublic := publishPublic f; systemTree := systemTree f |}.

Definition is_tainted (ctx : Context) : bool := js_is_true (jget "tainted" (taint ctx)).

(** The scopes offered, narrowest first, each with the surface it needs. *)
(* @src policy/decide.ts 377 378 ask *)
Definition ask_options (d : CapabilityDef) (f : CallFlags) (b : bool) : list GrantOption :=
  map (fun s => {| o_scope := s; o_requiredSurface := requiredSurface d s f |})
      (bfilter (fun s => scopeRank s <=? scopeRank (maxScopeFor d (with_batch f b))) GRANT_SCOPES).

(* @src policy/decide.ts 375 391 ask *)
Definition ask (d : CapabilityDef) (call : Call) (ctx : Context) (e : Effect) (suspended : bool)
    (why : string) : Decision :=
  let f := flags call in
  let b := isBatch f (targets call) in
  let options := ask_options d f b in
  DAsk {| r_capability := cap_id d; r_tool := tool call; r_effect := e;
          r_flags := with_batch f (batch f || b); r_risk := riskOf d f;
          reversible := negb (irreversible f) && bool_decide (e <> ELocalDestructive)
                        && bool_decide (e <> EMoney);
          r_actionHash := actionHash call; grantOptions := options;
          r_requiredSurface := o_requiredSurface <$> head options;
          tainted := is_tainted ctx; taintSuspended := suspended; originSurface := surface ctx |}
       (match headless ctx with Some _ => true | None => false end) why.

(* @src policy/decide.ts 393 403 candidateGrants *)
Definition candidateGrants (ctx : Context) (deps : Deps) (cap : string) : list Grant :=
  let own := grants_list deps (person ctx) (subject_agent ctx) cap in
  let held :=
    match handoff ctx with
    | Some h =>
        if bool_decide (subject_kind ctx = SSubagent) then
          bfilter (fun g => js_is_true (delegable g)
                            && bool_decide (g_taskId g = Some (h_taskId h))
                            && String.eqb (g_person g) (person ctx))
                  (omap (grants_get deps) (approvalsHeld h))
        else []
    | None => []
    end in
  own ++ held.

Definition eq_some (a : option string) (b : option string) : bool :=
  match a with Some _ => bool_decide (a = b) | None => false end.

(** The match of a task, session or standing grant. *)
(* @src policy/decide.ts 429 438 grantApplies *)
Definition standing_match (g : Grant) (d : CapabilityDef) (call : Call) (f : CallFlags) (e : Effect)
    (b : bool) : bool :=
  negb (b || privileged f || bool_decide (e = EMoney))
  && negb (String.eqb (cap_id d) "shell.exec" && negb (sandboxed f)
           && negb (js_is_true (acknowledgedUnsandboxed g)))
  && match g_match g with
     | MAction => false
     | MCapability => negb (outsideRoots f)
     | MPath path acc recursive =>
         match targets call, access call with
         | Some (t :: ts), Some a =>
             negb (bool_decide (acc = ARead) && bool_decide (a = AWrite))
             && forallb (pathCovered path recursive) (t :: ts)
         | _, _ => false
         end
     end.

(* @src policy/decide.ts 405 439 grantApplies *)
Definition grantApplies (g : Grant) (d : CapabilityDef) (call : Call) (ctx : Context) (f : CallFlags)
    (e : Effect) (b suspends : bool) (now : num) (maxDays : Z) : bool :=
  let ownAgent := String.eqb (g_agent g) (subject_agent ctx) in
  let held := bool_decide (subject_kind ctx = SSubagent)
              && match handoff ctx with Some h => includes (approvalsHeld h) (g_id g) | None => false end in
  (js_is_undef (revoked g) || match revoked g with JBool false => true | _ => false end)
  && String.eqb (canon (g_capability g)) (cap_id d) && String.eqb (g_person g) (person ctx)
  && match headless ctx with
     | Some job => bool_decide (g_jobId g = Some job) && bool_decide (g_scope g = Always)
     | None => bool_decide (g_jobId g = None)
     end
  && (ownAgent || held)
  && (scopeRank (g_scope g) <=? scopeRank (maxScopeFor d (with_batch f b)))
  && negb (num_ltb now (createdAt g) || num_leb (grantExpiry g maxDays) now)
  && negb (match lastUsedAt g with Some t => num_ltb now t | None => false end)
  && (requiredSurface d (g_scope g) f <=? g_surface g)
  && negb (suspends && negb (bool_decide (g_scope g = Once)))
  && match g_projectId g with Some p => bool_decide (ctx_projectId ctx = Some p) | None => true end
  && match g_scope g with
     | Once =>
         bool_decide (consumedAt g = None) && eq_some (g_actionHash g) (Some (actionHash call))
         && bool_decide (g_match g = MAction)
     | Task => eq_some (g_taskId g) (if ownAgent then ctx_taskId ctx else h_taskId <$> handoff ctx)
               && standing_match g d call f e b
     | Session => eq_some (g_sessionId g) (ctx_sessionId ctx) && standing_match g d call f e b
     | Always => standing_match g d call f e b
     end.

(** The floor no override lowers. *)
(* @src policy/decide.ts 336 339 decide *)
Definition floored (f : CallFlags) (b : bool) (e : Effect) : bool :=
  privileged f || irreversible f || b
  || bool_decide (e = EMoney) || bool_decide (e = EExternal) || bool_decide (e = ENetworkA2a)
  || bool_decide (e = ELocalDestructive)
  || (outsideRoots f && (effectRank ELocalWrite <=? effectRank e)).

(** Class after roots, allowlist, override and floors, with whether an override allowed it. *)
(* @src policy/decide.ts 327 340 decide *)
Definition call_class (d : CapabilityDef) (f : CallFlags) (ov : option Override) (b : bool) (e : Effect) :
    PolicyClass * bool :=
  let cls := if outsideRoots f then outside (base d) else inside (base d) in
  let cls := if String.eqb (cap_id d) "shell.exec" && shellAllowlisted f && negb (outsideRoots f)
                && negb (privileged f) then Allowed else cls in
  let '(cls, via) :=
    match ov with
    | Some o =>
        if lowerable d then
          match o with
          | OvApproval => (stricterClass cls Approval, false)
          | OvAllowed => if bool_decide (cls = Approval) && negb (outsideRoots f) then (Allowed, true)
                         else (cls, false)
          end
        else (cls, false)
    | None => (cls, false)
    end in
  (if floored f b e then stricterClass cls Approval else cls, via).

(* @src policy/decide.ts 321 321 decide *)
Definition call_effect (d : CapabilityDef) (v : js) : Effect :=
  if js_is_undef v then intrinsicEffect d
  else match effect_of v with Some e => maxEffect e (intrinsicEffect d) | None => EMoney end.

(* @src policy/decide.ts 323 324 decide *)
Definition taint_suspends (d : CapabilityDef) (ctx : Context) (e : Effect) : bool :=
  is_tainted ctx && js_is_true (jget "readPrivate" (taint ctx))
  && (taintSensitive d || bool_decide (e = EExternal) || bool_decide (e = ENetworkA2a)).

(** Grants, then the fatigue rules, then the question to the person. *)
(* @src policy/decide.ts 349 362 decide *)
Definition evaluate_grants (d : CapabilityDef) (call : Call) (ctx : Context) (deps : Deps) (e : Effect)
    (b suspends : bool) (cls : PolicyClass) : Decision :=
  let now := clock_now deps in
  let applies g := validGrant g && grantApplies g d call ctx (flags call) e b suspends now
                                     (default 90 (maxGrantDays deps)) in
  match bfind applies (if is_finite now then candidateGrants ctx deps (cap_id d) else []) with
  | Some g => DAllow (ViaGrant (g_id g) (grantReviewDue g now))
  | None =>
      if match deniedActionHashes ctx with Some l => includes l (actionHash call) | None => false end
      then DDeny RepeatDenied "fatigue:repeat-denied"
      else if negb (match promptsThisHour ctx with
                    | JUndef | JNull => 0 <? maxPromptsPerTaskPerHour
                    | JNum n => num_ltb n (Fin maxPromptsPerTaskPerHour)
                    | _ => false
                    end)
      then DDeny PromptCap "fatigue:prompt-cap"
      else ask d call ctx e suspends
             (if suspends then "taint-suspended"
              else if bool_decide (cls = Approval) then "approval-class" else "approval")
  end.

(** Once no limit refused the call: effect, taint, class, then allow or ask. *)
(* @src policy/decide.ts 320 362 decide *)
Definition evaluate_class (d : CapabilityDef) (call : Call) (ctx : Context) (deps : Deps) : Decision :=
  let f := flags call in
  let e := call_effect d (c_effect call) in
  let b := isBatch f (targets call) in
  let suspends := taint_suspends d ctx e in
  let '(cls, via_override) := call_class d f (overrideFor (overrides ctx) (cap_id d)) b e in
  match cls with
  | Allowed =>
      if via_override && suspends then ask d call ctx e true "taint-suspended"
      else DAllow (if via_override then ViaOverride else ViaDefault)
  | _ => evaluate_grants d call ctx deps e b suspends cls
  end.

(* @src policy/decide.ts 296 362 decide *)
Definition evaluate (call : Call) (ctx : Context) (deps : Deps) : Decision :=
  match CAPABILITIES_get (match capability call with JStr s => canon s | _ => "" end) with
  | None => DDeny PolicyNever "unknown-capability"
  | Some d =>
      let f := flags call in
      if denyListHit f then DDeny DenyList "deny-list"
      else if bool_decide (inside (base d) = Never) then DDeny PolicyNever "never"
      else if String.eqb (cap_id d) "secrets.use" && negb (secretSlotDeclared f)
      then DDeny PolicyNever "never:secret-slot"
      else
        match (if js_is_undef (toolsDeny ctx) then Hit false else matchesDeny (toolsDeny ctx) call (cap_id d)) with
        | HitInvalid => DDeny PolicyNever "tools.deny:invalid"
        | Hit true => DDeny PolicyNever "tools.deny"
        | Hit false =>
            if bool_decide (subject_kind ctx = SA2aPeer) then DDeny SurfaceUntrusted "a2a-peer"
            else if match tokenScopes ctx with
                    | Some l => negb (existsb (fun c => String.eqb (canon c) (cap_id d)) l)
                    | None => false
                    end
            then DDeny PolicyNever "token-scope"
            else if bool_decide (subject_kind ctx = SSubagent)
                    && negb (match handoff ctx with
                             | Some h => existsb (fun c => String.eqb (canon c) (cap_id d)) (h_scope h)
                             | None => false
                             end)
            then DDeny PolicyNever "handoff-scope"
            else evaluate_class d call ctx deps
        end
  end.

(* @src policy/decide.ts 293 295 decide *)
Definition decide (call ctx : js) (deps : Deps) : Decision :=
  match malformed call ctx with
  | Some b => DDeny PolicyNever (bad_rule b)
  | None => evaluate (read_call call) (read_ctx ctx) deps
  end.

(** ** Headless runs *)

(* @src policy/headless.ts 10 10 HEADLESS_RULE *)
Definition HEADLESS_RULE : string := "headless:no-job-grant".

(* @src policy/headless.ts 12 17 headlessGate *)
Definition headlessGate (dec : Decision) (is_headless : bool) : Decision :=
  match dec with
  | DAsk _ park _ => if is_headless || park then DDeny PolicyNever HEADLESS_RULE else dec
  | _ => dec
  end.
