(* ===== verification/PolicyMatchers.v ===== *)
(** * The matchers of the policy: tool globs and path coverage

    Reference definitions of the two matchers of
    [packages/core/src/policy/decide.ts] and the proofs that the code's
    backtracking loop and its segment comparison decide them. *)

From S2P Require Import Prelude PolicyCaps PolicyDecide.
From Stdlib Require Import Ascii.

(** ** Globs *)

(** What a glob means: a star stands for any run of characters. *)
Inductive glob : list ascii -> list ascii -> Prop :=
| glob_nil : glob [] []
| glob_char c p n : c <> "*"%char -> glob p n -> glob (c :: p) (c :: n)
| glob_star p u n : glob p n -> glob ("*"%char :: p) (u ++ n).

Lemma glob_inv q n : glob q n ->
  match q with
  | [] => n = []
  | c :: p => (exists d m, n = d :: m /\ c <> "*"%char /\ c = d /\ glob p m)
              \/ (c = "*"%char /\ exists u m, n = u ++ m /\ glob p m)
  end.
Proof. intros [|c p m Hc H|p u m H]; eauto 10. Qed.

Lemma glob_star_inv p n : glob ("*"%char :: p) n <-> exists u m, n = u ++ m /\ glob p m.
Proof.
  split; [|intros (u & m & -> & H); by constructor].
  intros H. apply glob_inv in H as [(? & ? & ? & Hc & _)|[_ H]]; [done|exact H].
Qed.

Lemma glob_star_cons p c n : glob ("*"%char :: p) n -> glob ("*"%char :: p) (c :: n).
Proof.
  rewrite !glob_star_inv. intros (u & m & -> & H). exists (c :: u), m. done.
Qed.

Lemma glob_star_app p u n : glob ("*"%char :: p) n -> glob ("*"%char :: p) (u ++ n).
Proof. intros H. induction u as [|c u IH]; simpl; [done|]. by apply glob_star_cons. Qed.

Lemma glob_star_iff p c n :
  glob ("*"%char :: p) (c :: n) <-> glob p (c :: n) \/ glob ("*"%char :: p) n.
Proof.
  split.
  - rewrite !glob_star_inv. intros ([|d u] & m & He & H); simplify_eq/=; eauto.
  - intros [H|H]; [exact (glob_star p [] _ H)| by apply glob_star_cons].
Qed.

Lemma glob_nil_r p : glob p [] <-> forallb (Ascii.eqb "*") p = true.
Proof.
  induction p as [|c p IH]; cbn [forallb]; [split; [done|constructor]|].
  rewrite andb_true_iff, Ascii.eqb_eq, <- IH. split.
  - intros H. apply glob_inv in H as [(d & m & ? & _)|(-> & u & m & He & H)]; [done|].
    symmetry in He. apply app_eq_nil in He as [-> ->]. done.
  - intros [<- H]. exact (glob_star p [] [] H).
Qed.

Lemma glob_char_inv c p d n : c <> "*"%char -> glob (c :: p) (d :: n) <-> c = d /\ glob p n.
Proof.
  intros Hc. split.
  - intros H. apply glob_inv in H as [(? & ? & ? & _ & -> & H)|[? _]]; by simplify_eq.
  - intros [-> H]. by constructor.
Qed.

Lemma glob_literal_app q p n :
  Forall (fun c => c <> "*"%char) q -> glob (q ++ p) n -> exists m, n = q ++ m /\ glob p m.
Proof.
  intros Hq. revert n. induction Hq as [|c q Hc Hq IH]; intros n H; simpl in *; [eauto|].
  apply glob_inv in H as [(d & m & -> & _ & -> & H)|[? _]]; [|done].
  apply IH in H as (m' & -> & Hm). eauto.
Qed.

(** What the loop still has to answer: the rest matches, or the last star takes more. *)
Definition star_more (star : option (list ascii * list ascii)) : Prop :=
  match star with
  | Some (sp, _ :: m) => glob ("*"%char :: sp) m
  | _ => False
  end.

(** Since the last star the pattern was literal and was read off the name. *)
Definition star_inv (star : option (list ascii * list ascii)) (pat name : list ascii) : Prop :=
  match star with
  | None => True
  | Some (sp, m) => exists q, Forall (fun c => c <> "*"%char) q /\ sp = q ++ pat /\ m = q ++ name
  end.

Lemma suffix_of_longer (a b v y : list ascii) :
  a ++ v = b ++ y -> (length v <= length y)%nat -> exists w, y = w ++ v.
Proof.
  intros H Hl. apply app_eq_inv in H as [(k & -> & ->)|(k & -> & ->)]; [eauto|].
  rewrite length_app in Hl. exists []. destruct k; simpl in *; [done|lia].
Qed.

Lemma star_more_end sp m pat name :
  star_inv (Some (sp, m)) pat name -> star_more (Some (sp, m)) ->
  glob ("*"%char :: pat) (tail name) /\ name <> [].
Proof.
  intros (q & Hq & -> & ->) Hm. unfold star_more in Hm.
  destruct (q ++ name) as [|c r] eqn:E; [done|].
  apply glob_star_inv in Hm as (u & n' & -> & Hr).
  apply glob_literal_app in Hr as (v & -> & Hv); [|done].
  assert (Hl : (length q + length name = 1 + (length u + (length q + length v)))%nat).
  { rewrite <- !length_app, E. simpl. by rewrite !length_app. }
  destruct name as [|d name]; simpl in *; [lia|]. split; [|done].
  destruct (suffix_of_longer (c :: u ++ q) (q ++ [d]) v name) as (w & ->); [|lia|by constructor].
  rewrite <- app_assoc. simpl. by rewrite E, <- app_assoc.
Qed.

(** Dropping the previous star for a new one loses nothing. *)
Lemma star_absorb star pat name :
  star_inv star ("*"%char :: pat) name -> star_more star -> glob ("*"%char :: pat) name.
Proof.
  destruct star as [[sp m]|]; [|done]. intros Hi Hm.
  destruct (star_more_end _ _ _ _ Hi Hm) as [H Hn].
  destruct name as [|c name]; [done|]. simpl in H. apply glob_star_cons.
  apply glob_star_inv in H as (u & m' & -> & H). by apply glob_star_app.
Qed.

Lemma star_inv_char star c p n :
  c <> "*"%char -> star_inv star (c :: p) (c :: n) -> star_inv star p n.
Proof.
  destruct star as [[sp m]|]; [|done]. intros Hc (q & Hq & -> & ->).
  exists (q ++ [c]). rewrite <- !app_assoc. split; [|done].
  apply Forall_app. auto.
Qed.

(** Bound on the rounds left: one unit of star is worth more than any pattern. *)
Definition loop_measure (K : nat) (N : nat) (pat : list ascii) (star : option (list ascii * list ascii)) : nat :=
  match star with
  | None => (N + 1) * (K + 1) + length pat
  | Some (_, m) => length m * (K + 1) + length pat
  end.

Definition star_small (K N : nat) (star : option (list ascii * list ascii)) (name : list ascii) : Prop :=
  match star with
  | None => (length name <= N)%nat
  | Some (sp, m) => (length sp <= K /\ length name <= length m <= N)%nat
  end.

Lemma glob_loop_correct K N fuel : forall pat name star,
  star_inv star pat name -> star_small K N star name -> (length pat <= K)%nat ->
  (loop_measure K N pat star < fuel)%nat ->
  exists b, glob_loop fuel pat name star = Some b
            /\ (b = true <-> glob pat name \/ star_more star).
Proof.
  induction fuel as [|fuel IH]; intros pat name star Hi Hs Hp Hm; [lia|].
  destruct name as [|c name]; simpl.
  { eexists. split; [done|]. rewrite <- glob_nil_r. split; [auto|]. intros [H|H]; [done|].
    destruct star as [[sp m]|]; [|done]. by destruct (star_more_end _ _ _ _ Hi H) as [_ []]. }
  set (back := match star with Some (sp, _ :: mark') => glob_loop fuel sp mark' (Some (sp, mark'))
               | _ => Some false end).
  assert (Hback : ~ glob pat (c :: name) ->
    exists b, back = Some b /\ (b = true <-> glob pat (c :: name) \/ star_more star)).
  { intros Hno. subst back. destruct star as [[sp [|d m]]|].
    - exists false. split; [done|]. simpl. split; [discriminate|tauto].
    - destruct (IH sp m (Some (sp, m))) as (b & Hb & Hiff).
      + exists []. auto.
      + simpl in *. lia.
      + simpl in *. lia.
      + simpl in *. destruct Hs. nia.
      + exists b. split; [done|]. rewrite Hiff. simpl.
        destruct m as [|d' m]; cbn [star_more]; [|rewrite (glob_star_iff sp d' m); tauto].
        split; [|intros [?|H]; [done|left]].
        * intros [H|H]; [|done]. right. exact (glob_star sp [] [] H).
        * apply glob_star_inv in H as (u & n' & He & Hr).
          symmetry in He. apply app_eq_nil in He as [-> ->]. done.
    - exists false. split; [done|]. simpl. split; [discriminate|tauto]. }
  destruct pat as [|d pat].
  { apply Hback. intros H. inversion H. }
  destruct (Ascii.eqb_spec d "*") as [->|Hd].
  - destruct (IH pat (c :: name) (Some (pat, c :: name))) as (b & Hb & Hiff).
    + exists []. auto.
    + destruct star as [[sp m]|]; simpl in *; lia.
    + simpl in *; lia.
    + destruct star as [[sp m]|]; simpl in *; nia.
    + exists b. split; [done|]. rewrite Hiff, glob_star_iff. simpl.
      split; [tauto|]. intros [H|H]; [done|].
      apply (star_absorb _ _ _ Hi) in H. by apply glob_star_iff in H.
  - destruct (Ascii.eqb_spec d c) as [->|Hc].
    + destruct (IH pat name star) as (b & Hb & Hiff).
      * by apply star_inv_char with c.
      * destruct star as [[sp m]|]; simpl in *; lia.
      * simpl in *; lia.
      * destruct star as [[sp m]|]; simpl in *; lia.
      * exists b. split; [done|]. rewrite Hiff, glob_char_inv by done. tauto.
    + apply Hback. intros H. apply glob_char_inv in H as [? _]; done.
Qed.

Lemma glob_loop_total pat name :
  exists b, glob_loop (glob_fuel pat name) pat name None = Some b /\ (b = true <-> glob pat name).
Proof.
  destruct (glob_loop_correct (length pat) (length name) (glob_fuel pat name) pat name None)
    as (b & Hb & Hiff); simpl; [done|lia|lia| |].
  - unfold glob_fuel. nia.
  - exists b. split; [done|]. rewrite Hiff. simpl. tauto.
Qed.

(** [globMatch] decides the declarative meaning of a [tools.deny] glob for
    every pattern and name: its backtracking over the last star returns within
    the fuel and answers true exactly when the pattern's stars can be filled
    with runs of characters to spell the name. *)
Theorem globMatch_spec (pattern name : string) :
  globMatch pattern name = true <-> glob (chars pattern) (chars name).
Proof.
  unfold globMatch. destruct (glob_loop_total (chars pattern) (chars name)) as (b & -> & H). exact H.
Qed.

(** ** Path coverage *)

Lemma reverse_not_nil {A} (l : list A) : l <> [] -> reverse l <> [].
Proof. intros H E. apply H. by rewrite <- (reverse_involutive l), E. Qed.

Lemma pieces_sound sep p : forall cur,
  Forall (fun c => sep c = false) cur ->
  Forall (fun s => s <> [] /\ Forall (fun c => sep c = false) s) (pieces sep cur p).
Proof.
  induction p as [|c p IH]; intros cur Hc; simpl.
  - case_decide; constructor; [|constructor]. split; [by apply reverse_not_nil|by apply Forall_reverse].
  - destruct (sep c) eqn:E; [case_decide|]; auto.
    constructor; [|auto]. split; [by apply reverse_not_nil|by apply Forall_reverse].
Qed.

Lemma pieces_content sep p : forall cur,
  Forall (fun c => sep c = false) cur ->
  concat (pieces sep cur p) = reverse cur ++ bfilter (fun c => negb (sep c)) p.
Proof.
  induction p as [|c p IH]; intros cur Hc; simpl.
  - case_decide; subst; simpl; by rewrite ?app_nil_r.
  - destruct (sep c) eqn:E; simpl.
    + case_decide; subst; simpl; rewrite IH; auto.
    + rewrite IH by auto. by rewrite reverse_cons, <- app_assoc.
Qed.

(** The separator of a path's dialect. *)
Definition path_sep (posix : bool) (c : ascii) : bool :=
  if posix then is_slash c else is_slash c || is_backslash c.

Lemma segments_inv path px segs :
  segments path = Some (px, segs) ->
  Forall (fun s => s <> [] /\ Forall (fun c => path_sep px c = false) s /\ s <> chars "." /\ s <> chars "..") segs
  /\ concat segs = bfilter (fun c => negb (path_sep px c)) (chars path).
Proof.
  unfold segments. destruct (_ || _ || _); [done|].
  set (posix := match chars path with c :: _ => is_slash c | [] => false end).
  destruct (existsb _ _) eqn:E; [done|]. intros [= <- <-].
  change (fun c => if posix then is_slash c else is_slash c || is_backslash c) with (path_sep posix) in *.
  split; [|by rewrite pieces_content].
  apply Forall_forall. intros s Hs.
  pose proof (pieces_sound (path_sep posix) (chars path) [] ltac:(constructor)) as Hp.
  rewrite Forall_forall in Hp. destruct (Hp s Hs) as [Hne Hsep].
  pose proof (existsb_false_elem _ _ s E ltac:(by apply list_elem_of_In)) as Hdot. simpl in Hdot.
  bool_hyps. auto.
Qed.

(** Path coverage is segment-wise containment: a grant path covers a target
    exactly when both are absolute paths of the same dialect without empty,
    dot or dot-dot segments, the grant has at least one segment, and the
    target's segments are the grant's followed by exactly one more (not
    recursive) or by any number of them (recursive). *)
Theorem pathCovered_spec (grantPath target : string) (recursive : bool) :
  pathCovered grantPath recursive target = true <->
  exists px gs rest,
    segments grantPath = Some (px, gs) /\ segments target = Some (px, gs ++ rest)
    /\ gs <> [] /\ (recursive = true \/ length rest = 1%nat)
    /\ Forall (fun s => s <> [] /\ s <> chars "." /\ s <> chars "..") (gs ++ rest).
Proof.
  unfold pathCovered. destruct (segments grantPath) as [[gp g]|] eqn:Eg; [|naive_solver].
  destruct (segments target) as [[tp t]|] eqn:Et; [|naive_solver].
  rewrite !andb_true_iff, negb_true_iff, !orb_false_iff, Bool.eqb_true_iff, negb_false_iff,
    bool_decide_eq_true, Nat.eqb_neq, Nat.ltb_ge.
  split.
  - intros [[-> [[Hg Hl] Ht]] Hr]. exists tp, g, (drop (length g) t).
    assert (Heq : g ++ drop (length g) t = t) by (rewrite <- Ht at 1; apply take_drop).
    rewrite Heq. repeat split; auto.
    + destruct g; simpl in *; congruence.
    + destruct recursive; [auto|right]. apply Nat.eqb_eq in Hr. rewrite length_drop. lia.
    + apply segments_inv in Et as [Hs _]. revert Hs. apply List.Forall_impl. naive_solver.
  - intros (px & gs & rest & [= <- <-] & [= -> ->] & Hne & Hr & _).
    rewrite take_app_length, length_app.
    repeat split; [destruct g; simpl in *; [done|lia]|lia|].
    destruct recursive; [done|]. destruct Hr as [?|Hr]; [done|]. apply Nat.eqb_eq. lia.
Qed.

Lemma pathCovered_trans g m t :
  pathCovered g true m = true -> pathCovered m true t = true -> pathCovered g true t = true.
Proof.
  rewrite !pathCovered_spec.
  intros (px & gs & rest & Hg & Hm & Hne & _ & _) (px' & ms & rest' & Hm' & Ht & _ & _ & Hf).
  rewrite Hm in Hm'. injection Hm' as <- <-.
  rewrite <- app_assoc in *. eauto 10.
Qed.
