(* ===== verification/PolicyProps.v ===== *)
(** * What the decision evaluator guarantees

    Theorems on [PolicyDecide.decide]: the refusals nothing lifts, the floors,
    what an allow by grant rests on, the question put to the person, headless
    runs and grant lifetimes. *)

From S2P Require Import Prelude PolicyCaps PolicyDecide.

(** The capability a call names, as the evaluator canonicalises it. *)
Definition call_capability (v : js) : string := match v with JStr s => canon s | _ => "" end.

(** ** The limits in front of every class *)

Record gates_passed (d : CapabilityDef) (call : Call) (ctx : Context) : Prop := {
  gp_cap : CAPABILITIES_get (call_capability (capability call)) = Some d;
  gp_deny : denyListHit (flags call) = false;
  gp_never : inside (base d) <> Never;
  gp_slot : cap_id d = "secrets.use" -> secretSlotDeclared (flags call) = true;
  gp_tools : toolsDeny ctx <> JUndef -> matchesDeny (toolsDeny ctx) call (cap_id d) = Hit false;
  gp_a2a : subject_kind ctx <> SA2aPeer;
  gp_token : forall l, tokenScopes ctx = Some l -> exists c, c ∈ l /\ canon c = cap_id d;
  gp_handoff : subject_kind ctx = SSubagent ->
               exists h c, handoff ctx = Some h /\ c ∈ h_scope h /\ canon c = cap_id d
}.

Lemma existsb_canon l id : existsb (fun c => String.eqb (canon c) id) l = true -> exists c, c ∈ l /\ canon c = id.
Proof. intros H. apply existsb_elem in H as (c & Hc & He). bool_hyps. eauto. Qed.

Lemma evaluate_gates call ctx deps :
  (exists r s, evaluate call ctx deps = DDeny r s)
  \/ exists d, gates_passed d call ctx /\ evaluate call ctx deps = evaluate_class d call ctx deps.
Proof.
  unfold evaluate. fold (call_capability (capability call)).
  destruct (CAPABILITIES_get _) as [d|] eqn:Ed; [|eauto].
  destruct (denyListHit (flags call)) eqn:Edl; [eauto|].
  case_bool_decide as En; [eauto|].
  destruct (_ && negb (secretSlotDeclared _)) eqn:Es; [eauto|].
  destruct (if js_is_undef _ then _ else _) as [|[|]] eqn:Et; [eauto..|].
  case_bool_decide as Ea; [eauto|].
  destruct (match tokenScopes ctx with Some _ => _ | None => _ end) eqn:Ek; [eauto|].
  destruct (bool_decide (subject_kind ctx = SSubagent) && _) eqn:Eh; [eauto|].
  right. exists d. split; [|done]. constructor; auto.
  - intros Hd. rewrite Hd in Es. simpl in Es. by bool_hyps.
  - intros Hu. destruct (toolsDeny ctx); simpl in *; done.
  - intros l Hl. rewrite Hl in Ek. bool_hyps. by apply existsb_canon.
  - intros Hk. rewrite bool_decide_eq_true_2 in Eh by done. simpl in Eh.
    destruct (handoff ctx) as [h|]; [|done]. bool_hyps.
    destruct (existsb_canon _ _ Eh) as (c & ? & ?). eauto.
Qed.

(** Raw input that is not refused outright is evaluated in its typed view. *)
Lemma decide_cases call ctx deps :
  (exists r s, decide call ctx deps = DDeny r s)
  \/ exists d, gates_passed d (read_call call) (read_ctx ctx)
               /\ decide call ctx deps = evaluate_class d (read_call call) (read_ctx ctx) deps.
Proof.
  unfold decide. destruct (malformed call ctx); [eauto|]. apply evaluate_gates.
Qed.

(** Refusals nothing lifts: a call is denied, whatever grants, overrides, scopes or
    surface stand behind it, when its canonical capability is one of the never
    capabilities, when it names no capability of the table, when the path layer
    reported a deny-list hit, or when it comes from an A2A peer. *)
Theorem hard_refusals (call ctx : js) (deps : Deps) :
  call_capability (jget "capability" call) ∈ NEVER_CAPABILITIES
  \/ call_capability (jget "capability" call) ∉ map cap_id TABLE
  \/ jget "denyListHit" (jget "flags" call) = JBool true
  \/ jget "kind" (jget "subject" ctx) = JStr "a2a-peer" ->
  exists reason rule, decide call ctx deps = DDeny reason rule.
Proof.
  intros H. destruct (decide_cases call ctx deps) as [|(d & G & _)]; [done|exfalso].
  destruct (CAPABILITIES_in _ _ (gp_cap _ _ _ G)) as [Hin Hid]. simpl in Hid.
  destruct H as [H|[H|[H|H]]].
  - unfold NEVER_CAPABILITIES in H. apply list_elem_of_fmap in H as (d' & Hid' & Hd').
    apply bfilter_elem in Hd' as [Hd' Hn]. bool_hyps.
    assert (d = d') as ->; [|by apply (gp_never _ _ _ G)].
    assert (cap_id d = cap_id d') as He by congruence.
    apply list_elem_of_lookup in Hin as [i Hi]. apply list_elem_of_lookup in Hd' as [j Hj].
    pose proof capability_ids_distinct as Hnd. 
    assert (i = j) as ->; [|congruence].
    apply (NoDup_lookup (map cap_id TABLE) i j (cap_id d)); [done|..];
      rewrite list_lookup_fmap, ?Hi, ?Hj; simpl; congruence.
  - apply H. rewrite <- Hid. by apply list_elem_of_fmap_2.
  - pose proof (gp_deny _ _ _ G) as E. simpl in E. by rewrite H in E.
  - apply (gp_a2a _ _ _ G). simpl. unfold read_kind. by rewrite H.
Qed.

(** ** Standing permissions stop at the floors *)

Lemma call_effect_ge d v : effectRank (intrinsicEffect d) <= effectRank (call_effect d v).
Proof.
  unfold call_effect. destruct (js_is_undef v); [lia|].
  destruct (effect_of v); [auto with plur|]. destruct (intrinsicEffect d); vm_compute; discriminate.
Qed.

Lemma call_class_allowed d f ov b e via :
  call_class d f ov b e = (Allowed, via) -> floored f b e = false.
Proof.
  unfold call_class. destruct (match ov with Some _ => _ | None => _ end) as [c v].
  destruct (floored f b e); [|done]. intros [= H _]. by apply stricterClass_approval in H.
Qed.

Lemma call_class_override d f ov b e :
  call_class d f ov b e = (Allowed, true) -> ov = Some OvAllowed /\ lowerable d = true /\ outsideRoots f = false.
Proof.
  unfold call_class. set (cls := if _ && negb (privileged f) then _ else _).
  destruct ov as [[|]|]; simpl; [|by destruct (lowerable d)|done].
  destruct (lowerable d); [|done]. destruct (bool_decide (cls = Approval) && _) eqn:E; [|done].
  intros _. by bool_hyps.
Qed.

Lemma evaluate_class_standing d call ctx deps via :
  evaluate_class d call ctx deps = DAllow via -> (forall i r, via <> ViaGrant i r) ->
  exists o, call_class d (flags call) (overrideFor (overrides ctx) (cap_id d)) (isBatch (flags call) (targets call))
              (call_effect d (c_effect call)) = (Allowed, o)
            /\ via = (if o then ViaOverride else ViaDefault)
            /\ (o = true -> taint_suspends d ctx (call_effect d (c_effect call)) = false).
Proof.
  unfold evaluate_class. destruct (call_class _ _ _ _ _) as [cls o] eqn:Ec. intros H Hv.
  assert (Hg : forall e b s c, evaluate_grants d call ctx deps e b s c <> DAllow via).
  { intros e b s c Hc. unfold evaluate_grants in Hc. destruct (bfind _ _).
    - injection Hc as <-. by eapply Hv.
    - repeat (case_match; try discriminate). }
  destruct cls; [|by apply Hg in H..].
  exists o. split; [done|]. destruct o; simpl in H; [|by injection H as <-].
  destruct (taint_suspends _ _ _); [discriminate|]. by injection H as <-.
Qed.

Lemma standing_facts d c x deps via :
  evaluate_class d c x deps = DAllow via -> (forall i r, via <> ViaGrant i r) ->
  let e := call_effect d (c_effect c) in
  (e = ERead \/ e = ELocalWrite)
  /\ privileged (flags c) = false /\ irreversible (flags c) = false
  /\ isBatch (flags c) (targets c) = false
  /\ (outsideRoots (flags c) = true -> e = ERead)
  /\ (via = ViaOverride -> lowerable d = true /\ outsideRoots (flags c) = false
                           /\ taint_suspends d x e = false).
Proof.
  intros H Hv e. destruct (evaluate_class_standing _ _ _ _ _ H Hv) as (o & Hc & -> & Ht).
  pose proof (call_class_allowed _ _ _ _ _ _ Hc) as Hf. unfold floored in Hf.
  repeat (apply orb_false_iff in Hf as [Hf ?]). bool_hyps. fold e in H0, H1, H2, H3, H4.
  assert (He : e = ERead \/ e = ELocalWrite) by (destruct e; naive_solver).
  do 4 (split; [done|]). split.
  - intros Ho. destruct He as [|He]; [done|].
    match goal with H : (outsideRoots _ && _)%bool = false |- _ => by rewrite Ho, He in H end.
  - destruct o; [|discriminate]. apply call_class_override in Hc as (_ & ? & ?). auto.
Qed.

(** What may run without a grant: when [decide] allows a call by default or by a
    person's override, the call's effect (declared effects only ever raise the
    capability's own) is a read or a local write, it is not privileged, not
    irreversible and not a batch, and outside the roots it is a read; an
    override moreover needs a capability a person may lower, works only inside
    the roots, and is set aside in a tainted turn that read private data. *)
Theorem standing_allow_bounded (call ctx : js) (deps : Deps) (via : Via) :
  decide call ctx deps = DAllow via -> (forall i r, via <> ViaGrant i r) ->
  exists d, let c := read_call call in let x := read_ctx ctx in
    let e := call_effect d (c_effect c) in
    gates_passed d c x
    /\ effectRank (intrinsicEffect d) <= effectRank e
    /\ (e = ERead \/ e = ELocalWrite)
    /\ privileged (flags c) = false /\ irreversible (flags c) = false
    /\ isBatch (flags c) (targets c) = false
    /\ (outsideRoots (flags c) = true -> e = ERead)
    /\ (via = ViaOverride -> lowerable d = true /\ outsideRoots (flags c) = false
                             /\ taint_suspends d x e = false).
Proof.
  intros H Hv. destruct (decide_cases call ctx deps) as [(r & s & E)|(d & G & E)];
    [rewrite E in H; discriminate|]. rewrite E in H. exists d. cbv zeta.
  split; [exact G|]. split; [apply call_effect_ge|]. by apply (standing_facts _ _ _ _ _ H).
Qed.

(** ** What an allow by grant rests on *)

Record grant_stands (g : Grant) (d : CapabilityDef) (c : Call) (x : Context) (deps : Deps) : Prop := {
  gs_candidate : g ∈ candidateGrants x deps (cap_id d);
  gs_person : g_person g = person x;
  gs_capability : canon (g_capability g) = cap_id d;
  gs_live : revoked g = JUndef \/ revoked g = JBool false;
  gs_agent : g_agent g = subject_agent x
             \/ exists h, subject_kind x = SSubagent /\ handoff x = Some h /\ g_id g ∈ approvalsHeld h;
  gs_job : g_jobId g = headless x /\ (headless x <> None -> g_scope g = Always);
  gs_scope : scopeRank (g_scope g) <= scopeRank (default Once (ceiling d));
  gs_surface : requiredSurface d (g_scope g) (flags c) <= g_surface g;
  gs_time : exists now born until, clock_now deps = Fin now /\ createdAt g = Fin born
            /\ grantExpiry g (default 90 (maxGrantDays deps)) = Fin until
            /\ born <= now < until;
  gs_taint : taint_suspends d x (call_effect d (c_effect c)) = true -> g_scope g = Once;
  gs_once : g_scope g = Once -> consumedAt g = None /\ g_actionHash g = Some (actionHash c);
  gs_standing : g_scope g <> Once ->
    isBatch (flags c) (targets c) = false /\ privileged (flags c) = false
    /\ call_effect d (c_effect c) <> EMoney
    /\ (outsideRoots (flags c) = true ->
        exists p a r ts, g_match g = MPath p a r /\ targets c = Some ts /\ ts <> []
                         /\ forall t, t ∈ ts -> pathCovered p r t = true)
}.

Lemma cap_scope_le a b : scopeRank (cap_scope a b) <= scopeRank a.
Proof. unfold cap_scope. destruct (_ <? _) eqn:E; bool_hyps; lia. Qed.

Lemma maxScopeFor_le d f : scopeRank (maxScopeFor d f) <= scopeRank (default Once (ceiling d)).
Proof.
  unfold maxScopeFor. pose proof cap_scope_le as H.
  destruct (publishPublic f), (systemTree f), (isBatch f None);
    repeat (etrans; [apply H|]); reflexivity.
Qed.

Lemma grantExpiry_finite g days :
  validGrant g = true -> exists born until, createdAt g = Fin born /\ grantExpiry g days = Fin until.
Proof.
  unfold validGrant. intros H. bool_hyps.
  destruct (createdAt g) as [c| |] eqn:Ec; [|done..]. exists c. unfold grantExpiry. rewrite Ec.
  assert (exists z, default (Fin c) (lastUsedAt g) = Fin z) as [z Hz].
  { destruct (lastUsedAt g) as [[u| |]|]; simpl in *; eauto; done. }
  rewrite Hz.
  destruct (expiresAt g) as [[x| |]|]; try done; destruct (g_scope g); simpl; eauto;
    match goal with |- context [if ?b then _ else _] => destruct b end; eauto.
Qed.

Lemma eq_some_true a b : eq_some a b = true -> a = b.
Proof. destruct a; simpl; [intros; by bool_hyps|discriminate]. Qed.

Lemma standing_match_spec g d c f e b :
  standing_match g d c f e b = true ->
  b = false /\ privileged f = false /\ e <> EMoney
  /\ (outsideRoots f = true ->
      exists p a r ts, g_match g = MPath p a r /\ targets c = Some ts /\ ts <> []
                       /\ forall t, t ∈ ts -> pathCovered p r t = true).
Proof.
  unfold standing_match. intros H. bool_hyps. repeat split; auto.
  intros Ho. rewrite Ho in *. destruct (g_match g) as [| |p a r]; [done..|].
  destruct (targets c) as [[|t ts]|]; [done| |done]. destruct (access c) as [acc|]; [|done].
  bool_hyps. exists p, a, r, (t :: ts). rewrite forallb_elem in *. auto.
Qed.

Lemma grantApplies_stands g d c x deps :
  g ∈ candidateGrants x deps (cap_id d) -> is_finite (clock_now deps) = true -> validGrant g = true ->
  grantApplies g d c x (flags c) (call_effect d (c_effect c)) (isBatch (flags c) (targets c))
    (taint_suspends d x (call_effect d (c_effect c))) (clock_now deps) (default 90 (maxGrantDays deps)) = true ->
  grant_stands g d c x deps.
Proof.
  intros Hc Hn Hv H. unfold grantApplies in H.
  destruct (clock_now deps) as [now| |] eqn:Enow; [|done..].
  destruct (grantExpiry_finite g (default 90 (maxGrantDays deps)) Hv) as (born & until & Hb & Hu).
  rewrite Hb, Hu in H. simpl in H. bool_hyps. constructor; auto.
  - destruct (revoked g) as [| |[]| | | |]; simpl in *; auto; done.
  - match goal with H : (_ || _)%bool = true |- _ => apply orb_true_iff in H as [H|H] end; bool_hyps; [auto|].
    right. destruct (handoff x) as [h|]; [|done]. exists h. by rewrite includes_spec in *.
  - destruct (headless x); bool_hyps; done.
  - pose proof (maxScopeFor_le d (with_batch (flags c) (isBatch (flags c) (targets c)))). lia.
  - exists now, born, until. unfold num_leb in *. simpl in *. bool_hyps. repeat split; try done; lia.
  - intros Hs. rewrite Hs in *. simpl in *. by bool_hyps.
  - intros Hs. rewrite Hs in *. bool_hyps. split; [done|]. by apply eq_some_true.
  - intros Hs. apply (standing_match_spec g d c (flags c)). destruct (g_scope g); [done|..]; bool_hyps; done.
Qed.

Lemma evaluate_class_grant d c x deps id rd :
  evaluate_class d c x deps = DAllow (ViaGrant id rd) ->
  exists g, g_id g = id /\ rd = grantReviewDue g (clock_now deps)
            /\ validGrant g = true /\ grant_stands g d c x deps.
Proof.
  unfold evaluate_class. destruct (call_class _ _ _ _ _) as [cls o].
  intros H. assert (exists cls', evaluate_grants d c x deps (call_effect d (c_effect c))
    (isBatch (flags c) (targets c)) (taint_suspends d x (call_effect d (c_effect c))) cls'
    = DAllow (ViaGrant id rd)) as [cls' Hg].
  { destruct cls; eauto. destruct o, (taint_suspends _ _ _); discriminate. }
  unfold evaluate_grants in Hg. destruct (is_finite (clock_now deps)) eqn:Ef.
  - destruct (bfind _ _) as [g|] eqn:E; [|repeat (case_match; try discriminate)].
    injection Hg as <- <-. apply bfind_some in E as [Hin Ha]. bool_hyps.
    exists g. do 3 (split; [done|]). by apply grantApplies_stands.
  - simpl in Hg. repeat (case_match; try discriminate).
Qed.

(** An allow by grant rests on a grant of that id which the source offered for
    this person, agent and capability or which the hand-off names, and which
    stands for this very call: not revoked, created in the past and not expired
    now, decided on a surface at least as trusted as the call requires, within
    the capability's ceiling, for the headless job when there is one; outside
    the roots only a path grant that covers every target stands. *)
Theorem grant_allow_sound (call ctx : js) (deps : Deps) (id : string) (rd : bool) :
  decide call ctx deps = DAllow (ViaGrant id rd) ->
  exists d g, gates_passed d (read_call call) (read_ctx ctx) /\ g_id g = id /\ validGrant g = true
              /\ grant_stands g d (read_call call) (read_ctx ctx) deps.
Proof.
  intros H. destruct (decide_cases call ctx deps) as [(r & s & E)|(d & G & E)]; rewrite E in H; [discriminate|].
  destruct (evaluate_class_grant _ _ _ _ _ _ H) as (g & Hg & _ & Hv & Hs). exists d, g. auto.
Qed.

Lemma once_lifetime g days born until :
  g_scope g = Once -> createdAt g = Fin born -> grantExpiry g days = Fin until -> until <= born + onceUnusedMs.
Proof.
  intros Hs Hb. unfold grantExpiry. rewrite Hs, Hb. simpl.
  destruct (expiresAt g) as [[x| |]|]; simpl; [|discriminate|..].
  - unfold num_min. simpl. destruct (x <? born + onceUnusedMs) eqn:E; bool_hyps; intros [= <-]; lia.
  - destruct neg; simpl; intros [= <-]; lia.
  - intros [= <-]. lia.
Qed.

(** Spending money, privileged calls, batches and external calls of a tainted
    turn are never covered by a standing permission: when [decide] allows such
    a call it is by a [once] grant of the same person, bound to this call's
    action hash, never consumed, and less than ten minutes old. *)
Theorem critical_calls_need_once (call ctx : js) (deps : Deps) (via : Via) (d : CapabilityDef) :
  decide call ctx deps = DAllow via ->
  CAPABILITIES_get (call_capability (jget "capability" call)) = Some d ->
  let c := read_call call in let x := read_ctx ctx in
  let e := call_effect d (c_effect c) in
  e = EMoney \/ privileged (flags c) = true \/ isBatch (flags c) (targets c) = true
  \/ ((e = EExternal \/ e = ENetworkA2a) /\ taint_suspends d x e = true) ->
  exists g now born, via = ViaGrant (g_id g) false /\ g_scope g = Once /\ consumedAt g = None
    /\ g_person g = person x /\ g_actionHash g = Some (actionHash c)
    /\ clock_now deps = Fin now /\ createdAt g = Fin born /\ born <= now < born + 10 * 60000.
Proof.
  intros H Hd c x e Hcrit.
  destruct (decide_cases call ctx deps) as [(r' & s & E)|(d' & G & E)]; rewrite E in H; [discriminate|].
  assert (d' = d) as -> by (apply gp_cap in G; simpl in G; congruence). fold c x in H.
  assert (exists i r, via = ViaGrant i r) as (i & r & ->).
  { destruct via as [| |i r]; [exfalso..|eauto];
      (destruct (standing_facts _ _ _ _ _ H) as (He & Hp & _ & Hb & _); [done|]; fold e in He;
       destruct He as [He|He], Hcrit as [Hx|[Hx|[Hx|[[Hx|Hx] _]]]]; congruence). }
  destruct (evaluate_class_grant _ _ _ _ _ _ H) as (g & <- & -> & _ & S). fold c x in S.
  assert (Hs : g_scope g = Once).
  { destruct (GrantScope_eq_dec (g_scope g) Once) as [|Hne]; [done|].
    destruct (gs_standing _ _ _ _ _ S Hne) as (Hb & Hp & He & _). fold e in He.
    destruct Hcrit as [?|[?|[?|[_ Ht]]]]; [congruence..|]. by apply (gs_taint _ _ _ _ _ S). }
  destruct (gs_once _ _ _ _ _ S Hs) as [Hcons Hhash].
  destruct (gs_time _ _ _ _ _ S) as (now & born & until & Hn & Hb & Hu & Ht).
  pose proof (once_lifetime _ _ _ _ Hs Hb Hu) as Hl. unfold onceUnusedMs, MIN in Hl.
  exists g, now, born. repeat split; auto; try lia; [|exact (gs_person _ _ _ _ _ S)].
  unfold grantReviewDue. by rewrite Hs.
Qed.

(** ** The question put to the person *)

Definition request_of (dec : Decision) : option ApprovalRequest :=
  match dec with DAsk r _ _ => Some r | _ => None end.

Lemma evaluate_class_ask d c x deps r :
  request_of (evaluate_class d c x deps) = Some r ->
  exists e s why, request_of (ask d c x e s why) = Some r.
Proof.
  unfold evaluate_class. destruct (call_class _ _ _ _ _) as [cls o].
  assert (Hg : forall b sus, request_of (evaluate_grants d c x deps (call_effect d (c_effect c)) b sus cls) = Some r ->
    exists e s why, request_of (ask d c x e s why) = Some r).
  { intros b sus. unfold evaluate_grants. destruct (bfind _ _); [discriminate|].
    destruct (match deniedActionHashes x with Some _ => _ | None => _ end); [discriminate|].
    destruct (negb _); [discriminate|]. eauto. }
  destruct cls; [|apply Hg..]. destruct (o && _); [eauto|]. destruct o; discriminate.
Qed.

Lemma requiredSurface_pos d s f : d ∈ TABLE -> 1 <= requiredSurface d s f.
Proof.
  intros _. unfold requiredSurface.
  assert (1 <= surfaceByRisk (riskOf d f)) by (destruct (riskOf d f); simpl; lia).
  repeat match goal with |- context [if ?b then _ else _] => destruct b end; lia.
Qed.

Lemma maxScopeFor_once d f : 0 <= scopeRank (maxScopeFor d f).
Proof. pose proof (scopeRank_nonneg (maxScopeFor d f)). lia. Qed.

Lemma ask_options_head d f b :
  exists rest, ask_options d f b = {| o_scope := Once; o_requiredSurface := requiredSurface d Once f |} :: rest.
Proof.
  unfold ask_options. pose proof (maxScopeFor_once d (with_batch f b)) as H0.
  destruct (Z.leb_spec (scopeRank Once) (scopeRank (maxScopeFor d (with_batch f b)))) as [H|H].
  - unfold bfilter, GRANT_SCOPES. cbn [List.filter]. apply Z.leb_le in H. rewrite H. cbn [map]. eauto.
  - exfalso. change (scopeRank Once) with 0 in H. lia.
Qed.

Lemma ask_options_elem d f b s sf :
  (exists o, o ∈ ask_options d f b /\ o_scope o = s /\ o_requiredSurface o <= sf)
  <-> scopeRank s <= scopeRank (maxScopeFor d (with_batch f b)) /\ requiredSurface d s f <= sf.
Proof.
  unfold ask_options. split.
  - intros (o & Ho & <- & Hr). apply list_elem_of_fmap in Ho as (s' & -> & Hs').
    apply bfilter_elem in Hs' as [_ Hs']. bool_hyps. done.
  - intros [Hs Hr]. exists {| o_scope := s; o_requiredSurface := requiredSurface d s f |}.
    split; [|done]. apply list_elem_of_fmap. exists s. split; [done|].
    apply bfilter_elem. split; [destruct s; unfold GRANT_SCOPES; set_solver|by apply Z.leb_le].
Qed.

Lemma batch_isBatch f ts : batch f || isBatch f ts = isBatch f ts.
Proof. unfold isBatch. destruct (batch f); reflexivity. Qed.

Lemma surfaceMayDecide_trusted d f b s sf risk :
  CAPABILITIES_get (cap_id d) = Some d -> 2 <= sf ->
  surfaceMayDecide (cap_id d) risk (with_batch f b) sf s = true
  <-> scopeRank s <= scopeRank (maxScopeFor d (with_batch f b)) /\ requiredSurface d s f <= sf.
Proof.
  intros Hget Hsf. unfold surfaceMayDecide. rewrite Hget.
  change (requiredSurface d s (with_batch f b)) with (requiredSurface d s f).
  destruct (Z.leb_spec sf 0); [lia|]. destruct (Z.eqb_spec sf 1); [lia|].
  cbn [andb]. rewrite andb_true_iff, !Z.leb_le. tauto.
Qed.

(** The question [decide] asks is answerable exactly as offered: its options
    start with [once], their scopes are the ones the capability, batch, system
    tree and public-publishing limits admit, and on a surface of trust two or
    three [surfaceMayDecide] accepts a scope for the request precisely when the
    scope is offered with a surface requirement the surface meets. *)
Theorem ask_options_exact (call ctx : js) (deps : Deps) (r : ApprovalRequest) :
  request_of (decide call ctx deps) = Some r ->
  (exists o rest, grantOptions r = o :: rest /\ o_scope o = Once
                  /\ r_requiredSurface r = Some (o_requiredSurface o))
  /\ forall (s : GrantScope) (sf : SurfaceTrust), 2 <= sf ->
     (surfaceMayDecide (r_capability r) (r_risk r) (r_flags r) sf s = true <->
      exists o, o ∈ grantOptions r /\ o_scope o = s /\ o_requiredSurface o <= sf).
Proof.
  intros H. destruct (decide_cases call ctx deps) as [(x & y & E)|(d & G & E)]; rewrite E in H; [discriminate|].
  destruct (CAPABILITIES_in _ _ (gp_cap _ _ _ G)) as [Hin Hid].
  apply evaluate_class_ask in H as (e & sus & why & H). apply (inj Some) in H. subst r.
  cbn [grantOptions r_capability r_risk r_flags r_requiredSurface]. rewrite batch_isBatch. split.
  - destruct (ask_options_head d (flags (read_call call))
      (isBatch (flags (read_call call)) (targets (read_call call)))) as [rest ->]. eauto.
  - intros s sf Hsf. rewrite ask_options_elem. apply surfaceMayDecide_trusted; [|done].
    rewrite Hid. exact (gp_cap _ _ _ G).
Qed.

(** ** Headless runs *)

(** A headless run never waits for a person and never borrows a person's
    grants: after [headlessGate] the decision on a call made for a job is allow
    or deny, and an allow by grant rests on an [always] grant created for that
    very job. *)
Theorem headless_runs_alone (call ctx : js) (deps : Deps) (job : string) :
  headless (read_ctx ctx) = Some job ->
  let dec := headlessGate (decide call ctx deps) true in
  request_of dec = None
  /\ forall id rd, dec = DAllow (ViaGrant id rd) ->
     exists d g, g ∈ candidateGrants (read_ctx ctx) deps (cap_id d) /\ g_id g = id
                 /\ g_jobId g = Some job /\ g_scope g = Always.
Proof.
  intros Hj dec. split.
  - subst dec. destruct (decide call ctx deps); reflexivity.
  - intros id rd H. assert (Hd : decide call ctx deps = DAllow (ViaGrant id rd)).
    { subst dec. destruct (decide call ctx deps); simpl in H; congruence. }
    destruct (decide_cases call ctx deps) as [(x & y & E)|(d & G & E)]; rewrite E in Hd; [discriminate|].
    destruct (evaluate_class_grant _ _ _ _ _ _ Hd) as (g & <- & _ & _ & S).
    destruct (gs_job _ _ _ _ _ S) as [Hjob Hal]. exists d, g.
    split; [exact (gs_candidate _ _ _ _ _ S)|]. split; [done|]. split; [congruence|].
    apply Hal. congruence.
Qed.

(** ** Witnesses *)

Definition ex_call (cap : string) (fl : list (string * js)) : js :=
  JObj [("capability", JStr cap); ("tool", JStr "tool.x"); ("actionHash", JStr "h1");
        ("flags", JObj (fl ++ [("outsideRoots", JBool false); ("denyListHit", JBool false)]))].

Definition ex_ctx (extra : list (string * js)) : js :=
  JObj (extra ++ [("principal", JObj [("person", JStr "p1")]);
                  ("subject", JObj [("kind", JStr "agent"); ("agentId", JStr "a1")]);
                  ("surface", JNum (Fin 2))]).

Definition ex_grant (cap : string) (s : GrantScope) (m : GrantMatch) (job : option string) : Grant :=
  {| g_id := "g1"; g_capability := cap; g_person := "p1"; g_agent := "a1"; g_scope := s; g_match := m;
     createdAt := Fin 1000; lastUsedAt := None; expiresAt := None; revoked := JUndef; consumedAt := None;
     g_actionHash := Some "h1"; g_taskId := None; g_sessionId := None; g_projectId := None;
     g_jobId := job; delegable := JUndef; g_surface := 3; acknowledgedUnsandboxed := JUndef |}.

Definition ex_deps (gs : list Grant) : Deps :=
  {| maxGrantDays := None; grants_list := fun _ _ _ => gs; grants_get := fun _ => None; clock_now := Fin 2000 |}.

Lemma hard_refusals_witness :
  exists reason rule, decide (ex_call " Harness.Admin " []) (ex_ctx []) (ex_deps []) = DDeny reason rule.
Proof.
  apply hard_refusals. left. apply (bool_decide_unpack _). vm_compute. exact I.
Defined.

Lemma standing_allow_bounded_witness :
  decide (ex_call "fs.write" []) (ex_ctx []) (ex_deps []) = DAllow ViaDefault
  /\ exists d, gates_passed d (read_call (ex_call "fs.write" [])) (read_ctx (ex_ctx [])).
Proof.
  assert (H : decide (ex_call "fs.write" []) (ex_ctx []) (ex_deps []) = DAllow ViaDefault)
    by (vm_compute; reflexivity).
  split; [exact H|].
  destruct (standing_allow_bounded _ _ _ _ H ltac:(discriminate)) as (d & G & _). exists d. exact G.
Defined.

Lemma grant_allow_sound_witness :
  let deps := ex_deps [ex_grant "net.submit" Session MCapability None; ex_grant "net.submit" Once MAction None] in
  decide (ex_call "net.submit" []) (ex_ctx []) deps = DAllow (ViaGrant "g1" false)
  /\ exists d g, gates_passed d (read_call (ex_call "net.submit" [])) (read_ctx (ex_ctx [])) /\ g_id g = "g1".
Proof.
  intros deps.
  assert (H : decide (ex_call "net.submit" []) (ex_ctx []) deps = DAllow (ViaGrant "g1" false))
    by (vm_compute; reflexivity).
  split; [exact H|].
  destruct (grant_allow_sound _ _ _ _ _ H) as (d & g & G & Hg & _). exists d, g. split; [exact G|exact Hg].
Defined.

Lemma critical_calls_need_once_witness :
  let deps := ex_deps [ex_grant "money.spend" Once MAction None] in
  exists g now born, ViaGrant "g1" false = ViaGrant (g_id g) false /\ g_scope g = Once /\ consumedAt g = None
    /\ g_person g = "p1" /\ g_actionHash g = Some "h1"
    /\ clock_now deps = Fin now /\ createdAt g = Fin born /\ born <= now < born + 10 * 60000.
Proof.
  intros deps.
  destruct (CAPABILITIES_get "money.spend") as [d|] eqn:Hd; [|vm_compute in Hd; discriminate].
  apply (critical_calls_need_once (ex_call "money.spend" []) (ex_ctx []) deps (ViaGrant "g1" false) d).
  - vm_compute. reflexivity.
  - exact Hd.
  - left. vm_compute in Hd. injection Hd as <-. reflexivity.
Defined.

Lemma ask_options_exact_witness :
  exists r, request_of (decide (ex_call "comm.send" []) (ex_ctx []) (ex_deps [])) = Some r
            /\ surfaceMayDecide (r_capability r) (r_risk r) (r_flags r) 2 Session = true.
Proof.
  destruct (request_of (decide (ex_call "comm.send" []) (ex_ctx []) (ex_deps []))) as [r|] eqn:H;
    [|vm_compute in H; discriminate].
  exists r. split; [reflexivity|].
  apply (proj2 (ask_options_exact _ _ _ _ H) Session 2); [lia|].
  vm_compute in H. injection H as <-. eexists. split; [right; right; left|]. vm_compute.
  split; [reflexivity|discriminate].
Defined.

Lemma headless_runs_alone_witness :
  let ctx := ex_ctx [("headless", JObj [("jobId", JStr "j1")])] in
  request_of (headlessGate (decide (ex_call "net.submit" []) ctx (ex_deps [])) true) = None.
Proof.
  intros ctx. apply (headless_runs_alone (ex_call "net.submit" []) ctx (ex_deps []) "j1").
  vm_compute. reflexivity.
Defined.
