(* ===== verification/Rbac.v ===== *)
(** * RBAC for people: policy table and [authorize]

    Model of [packages/core/src/rbac/types.ts], [policy.ts], [authorize.ts] and
    [surface.ts]: the policy as data, the pure [authorize] evaluator over it and
    the surface-trust function. *)

From S2P Require Import Prelude.

(** ** Types *)

(* @src rbac/types.ts 6 6 Role *)
Inductive Role : Type := Owner | Admin | Operator | Member | Viewer.
#[export] Instance Role_eq_dec : EqDecision Role.
Proof. solve_decision. Defined.

(* @src rbac/types.ts 5 5 ROLES *)
Definition ROLES : list (string * Role) :=
  [("owner", Owner); ("admin", Admin); ("operator", Operator); ("member", Member); ("viewer", Viewer)].

(* @src rbac/types.ts 24 25 PRINCIPAL_KINDS *)
Definition PRINCIPAL_KINDS : list string := ["person"; "agent"].

(* @src rbac/types.ts 13 21 BreakGlassGrant *)
Record BreakGlassGrant : Type := {
  bg_id : string; holderUserId : string; targetUserId : string; bg_reason : string;
  issuedAt : Z; bg_expiresAt : Z; bg_revokedAt : option Z
}.

(** Role, kind and rights are validated at run time, so they stay strings. *)
(* @src rbac/types.ts 27 40 Principal *)
Record Principal : Type := {
  userId : string;
  kind : option string;
  role : string;
  agentRights : option (list (string * string));
  projectRights : option (list (string * string));
  p_tokenScopes : option (list string);
  bindingAgentId : option string;
  breakGlass : list BreakGlassGrant
}.

(* @src rbac/types.ts 42 42 MemoryAgentScope *)
Inductive MemoryAgentScope : Type := AgentPrivate | Workspace.

(* @src rbac/types.ts 44 50 Resource *)
Inductive Resource : Type :=
| ResSystem
| ResUser (id : string)
| ResAgent (id : string)
| ResProject (id : string)
| ResMemoryUser (ownerUserId : string)
| ResMemoryAgent (scope : MemoryAgentScope) (agentId : string).

(* @src rbac/types.ts 53 53 ResourceShape *)
Inductive ResourceShape : Type :=
  RSystem | RUser | RAgent | RProject | RMemUser | RMemPrivate | RMemWorkspace.
#[export] Instance ResourceShape_eq_dec : EqDecision ResourceShape.
Proof. solve_decision. Defined.

(* @src rbac/types.ts 56 56 Grant *)
Inductive Grant : Type := GAllow | GOwn | GObject | GBreakGlass.
#[export] Instance Grant_eq_dec : EqDecision Grant.
Proof. solve_decision. Defined.

Inductive Need : Type := NUse | NManage | NMember | NLead.
#[export] Instance Need_eq_dec : EqDecision Need.
Proof. solve_decision. Defined.

(* @src rbac/types.ts 58 66 ActionSpec *)
Record ActionSpec : Type := {
  action : string; resource : ResourceShape; needs : option Need; human_only : bool;
  grants : list (Role * list Grant)
}.

(* @src rbac/types.ts 68 68 AllowReason *)
Inductive AllowReason : Type := ByRole | ByOwn | ByObjectRight | ByBreakGlass (id : string).

(* @src rbac/types.ts 69 71 DenyReason *)
Inductive DenyReason : Type :=
  Unauthenticated | InvalidPrincipal | UnknownAction | ResourceMismatch | TokenScope | RoleDenied
| NotOwner | ObjectRightRequired | BreakGlassRequired | AuditFailed | AgentPrincipal.
#[export] Instance DenyReason_eq_dec : EqDecision DenyReason.
Proof. solve_decision. Defined.

(* @src rbac/types.ts 73 75 Decision *)
Inductive Decision : Type := RAllow (reason : AllowReason) | RDeny (reason : DenyReason).

(** ** The policy as data *)

(* @src rbac/policy.ts 8 8 A *)
Definition gA : list Grant := [GAllow].
(* @src rbac/policy.ts 9 9 O *)
Definition gO : list Grant := [GOwn].
(* @src rbac/policy.ts 10 10 U *)
Definition gU : list Grant := [GObject].
(* @src rbac/policy.ts 11 11 OB *)
Definition gOB : list Grant := [GOwn; GBreakGlass].

(* @src rbac/policy.ts 13 15 spec *)
Definition spec (a : string) (r : ResourceShape) (g : list (Role * list Grant)) (n : option Need) : ActionSpec :=
  {| action := a; resource := r; needs := n; human_only := false; grants := g |}.

(* @src rbac/policy.ts 17 17 humanOnly *)
Definition humanOnly (s : ActionSpec) : ActionSpec :=
  {| action := action s; resource := resource s; needs := needs s; human_only := true; grants := grants s |}.

(* @src rbac/policy.ts 18 18 OA *)
Definition OA : list (Role * list Grant) := [(Owner, gA); (Admin, gA)].
(* @src rbac/policy.ts 19 19 READERS *)
Definition READERS : list (Role * list Grant) := [(Owner, gA); (Admin, gA); (Operator, gA); (Viewer, gA)].

(* @src rbac/policy.ts 22 25 catalogue *)
Definition catalogue (area : string) : list ActionSpec :=
  [spec (area +:+ ".read") RSystem READERS None; spec (area +:+ ".write") RSystem OA None].

(* @src rbac/policy.ts 27 164 POLICY *)
Definition POLICY : list ActionSpec :=
  [humanOnly (spec "a2a.peers.manage" RSystem [(Owner, gA)] None);
   spec "chat:read" RSystem [(Owner, gA); (Admin, gA); (Operator, gA); (Member, gA); (Viewer, gA)] None;
   spec "chat:write" RSystem [(Owner, gA); (Admin, gA); (Operator, gA); (Member, gA)] None;
   spec "chat:delete" RSystem [(Owner, gA); (Admin, gA); (Operator, gA); (Member, gA)] None;
   humanOnly (spec "inbox.read" RSystem [(Owner, gA); (Admin, gA); (Operator, gA); (Member, gA); (Viewer, gA)] None);
   humanOnly (spec "inbox.write" RSystem [(Owner, gA); (Admin, gA); (Operator, gA); (Member, gA); (Viewer, gA)] None);
   spec "project.board.read" RSystem [(Owner, gA); (Admin, gA); (Operator, gA); (Member, gA); (Viewer, gA)] None;
   spec "project.board.move" RSystem [(Owner, gA); (Admin, gA); (Operator, gA); (Member, gA)] None;
   spec "project.board.comment" RSystem [(Owner, gA); (Admin, gA); (Operator, gA); (Member, gA)] None;
   humanOnly (spec "project.board.write" RSystem [(Owner, gA); (Admin, gA); (Operator, gA); (Member, gA)] None);
   humanOnly (spec "project.board.manage" RSystem [(Owner, gA); (Admin, gA); (Operator, gA); (Member, gA)] None);
   spec "memory.user.read" RMemUser [(Owner, gOB); (Admin, gOB); (Operator, gO); (Member, gO); (Viewer, gO)] None;
   spec "memory.user.write" RMemUser [(Owner, gO); (Admin, gO); (Operator, gO); (Member, gO)] None;
   spec "memory.agent-private.read" RMemPrivate [(Owner, gA); (Admin, gA); (Member, gU)] (Some NManage);
   spec "memory.agent-private.write" RMemPrivate [(Owner, gA); (Admin, gA); (Member, gU)] (Some NManage);
   spec "memory.workspace.read" RMemWorkspace [(Owner, gA); (Admin, gA); (Operator, gU); (Member, gU); (Viewer, gU)] (Some NUse);
   spec "memory.workspace.write" RMemWorkspace [(Owner, gA); (Admin, gA); (Operator, gU); (Member, gU)] (Some NUse);
   spec "memory.forget" RAgent [(Owner, gA); (Admin, gA); (Operator, gU); (Member, gU)] (Some NUse);
   spec "memory.sensitivity.read" RAgent [(Owner, gA); (Admin, gA); (Operator, gU); (Member, gU); (Viewer, gU)] (Some NUse);
   spec "memory.sensitivity.write" RAgent [(Owner, gA); (Admin, gA); (Operator, gU); (Member, gU)] (Some NManage);
   spec "agent.list" RSystem [(Owner, gA); (Admin, gA); (Operator, gA); (Member, gA); (Viewer, gA)] None;
   spec "agent.read" RAgent [(Owner, gA); (Admin, gA); (Operator, gA); (Member, gU); (Viewer, gU)] (Some NUse);
   spec "agent.use" RAgent [(Owner, gA); (Admin, gA); (Operator, gU); (Member, gU)] (Some NUse);
   spec "agent.operate" RAgent [(Owner, gA); (Admin, gA); (Operator, gA)] None;
   spec "agent.manage" RAgent [(Owner, gA); (Admin, gA); (Member, gU)] (Some NManage);
   spec "agent.create" RSystem OA None;
   spec "agent.delete" RAgent OA None;
   spec "dreaming.read" RSystem READERS None;
   spec "dreaming.operate" RSystem [(Owner, gA); (Admin, gA); (Operator, gA)] None;
   spec "cron.read" RSystem READERS None;
   spec "cron.operate" RSystem [(Owner, gA); (Admin, gA); (Operator, gA)] None;
   spec "jobs.run" RSystem [(Owner, gA); (Admin, gA); (Operator, gA)] None;
   spec "sessions.read" RSystem READERS None;
   spec "logs.read" RSystem READERS None;
   spec "audit.read" RSystem OA None;
   spec "logs.query" RSystem OA None] ++
  flat_map catalogue ["models"; "providers"; "channels"; "plugins"; "mcp"] ++
  [humanOnly (spec "extensions.read" RSystem OA None);
   humanOnly (spec "extensions.manage" RSystem OA None);
   humanOnly (spec "imports.read" RSystem OA None);
   humanOnly (spec "imports.manage" RSystem OA None);
   spec "users.read" RSystem OA None;
   spec "users.manage" RSystem OA None;
   spec "users.delete" RUser [(Owner, gA)] None;
   spec "ownership.transfer" RSystem [(Owner, gA)] None;
   spec "breakglass.request" RUser OA None;
   spec "breakglass.log.read" RSystem OA None;
   spec "licence.confirm" RSystem [(Owner, gA)] None;
   humanOnly (spec "media.read" RSystem [(Owner, gA); (Admin, gA); (Operator, gA); (Member, gA); (Viewer, gA)] None);
   humanOnly (spec "media.write" RSystem [(Owner, gA); (Admin, gA); (Operator, gA); (Member, gA)] None);
   spec "media.index.read" RSystem [(Owner, gA); (Admin, gA); (Operator, gA); (Member, gA); (Viewer, gA)] None;
   humanOnly (spec "media.index.operate" RSystem OA None);
   humanOnly (spec "media.caption.write" RSystem [(Owner, gA); (Admin, gA); (Operator, gA); (Member, gA)] None);
   humanOnly (spec "project.surface.read" RSystem [(Owner, gA); (Admin, gA); (Operator, gA); (Member, gA); (Viewer, gA)] None);
   humanOnly (spec "project.surface.write" RSystem [(Owner, gA); (Admin, gA); (Operator, gA); (Member, gA)] None);
   humanOnly (spec "project.create" RSystem OA None);
   humanOnly (spec "identity.self.read" RSystem [(Owner, gA); (Admin, gA); (Operator, gA); (Member, gA); (Viewer, gA)] None);
   humanOnly (spec "identity.self.write" RSystem [(Owner, gA); (Admin, gA); (Operator, gA); (Member, gA)] None);
   humanOnly (spec "auth.credentials.read" RSystem [(Owner, gA)] None);
   humanOnly (spec "auth.credentials.write" RSystem [(Owner, gA)] None);
   humanOnly (spec "channel.read" RSystem OA None);
   humanOnly (spec "channel.write" RSystem OA None);
   humanOnly (spec "admin.agent.operate" RAgent [(Owner, gA); (Admin, gA); (Operator, gA)] None);
   humanOnly (spec "admin.agent.manage" RAgent OA None);
   humanOnly (spec "admin.agent.delete" RAgent OA None);
   humanOnly (spec "admin.agent.rights" RAgent OA None);
   humanOnly (spec "admin.users.read" RSystem OA None);
   humanOnly (spec "admin.users.write" RSystem OA None);
   humanOnly (spec "admin.breakglass.read" RSystem OA None);
   humanOnly (spec "admin.breakglass.write" RSystem OA None);
   humanOnly (spec "admin.sessions.write" RSystem [(Owner, gA); (Admin, gA); (Operator, gA); (Member, gA)] None);
   humanOnly (spec "admin.sessions.read" RSystem [(Owner, gA); (Admin, gA); (Operator, gA); (Member, gA); (Viewer, gA)] None);
   humanOnly (spec "admin.pairing.read" RSystem OA None);
   humanOnly (spec "remote.device.write" RSystem [(Owner, gA); (Admin, gA); (Operator, gA); (Member, gA)] None)] ++
  map (fun a => humanOnly (spec a RSystem [(Owner, gA); (Admin, gA); (Operator, gA); (Member, gA); (Viewer, gA)] None))
    ["device.list"; "device.revoke"; "device.rename"] ++
  [humanOnly (spec "admin.notices.read" RSystem [(Owner, gA); (Admin, gA); (Operator, gA); (Member, gA); (Viewer, gA)] None);
   humanOnly (spec "admin.sessions.transcript" RSystem [(Owner, gA); (Admin, gA); (Operator, gA); (Member, gA); (Viewer, gA)] None);
   humanOnly (spec "admin.memory.read" RSystem [(Owner, gA); (Admin, gA); (Operator, gA); (Member, gA); (Viewer, gA)] None);
   spec "my.read" RUser [(Owner, gO); (Admin, gO); (Operator, gO); (Member, gO); (Viewer, gO)] None;
   spec "my.write" RUser [(Owner, gO); (Admin, gO); (Operator, gO); (Member, gO)] None;
   spec "project.read" RProject [(Owner, gA); (Admin, gA); (Operator, gA); (Member, gA); (Viewer, gA)] None;
   spec "project.write" RProject [(Owner, gA); (Admin, gA); (Operator, gU); (Member, gU)] (Some NMember);
   spec "project.manage" RProject [(Owner, gA); (Admin, gA); (Operator, gU); (Member, gU)] (Some NLead);
   spec "settings.read" RSystem OA None;
   spec "settings.write" RSystem OA None;
   spec "secrets.list" RSystem OA None;
   spec "secrets.reveal" RSystem [(Owner, gA)] None;
   spec "secrets.write" RSystem [(Owner, gA)] None;
   spec "egress.read" RSystem OA None;
   spec "import.run" RSystem OA None;
   spec "doctor.read" RSystem [(Owner, gA); (Admin, gA); (Operator, gA)] None;
   spec "doctor.run" RSystem [(Owner, gA); (Admin, gA); (Operator, gA)] None;
   humanOnly (spec "grant.read" RSystem OA None);
   humanOnly (spec "grant.write" RSystem OA None);
   humanOnly (spec "approval.read" RSystem [(Owner, gA); (Admin, gA); (Operator, gA)] None);
   humanOnly (spec "approval.decide" RSystem OA None)] ++
  map (fun a => spec a RSystem OA None)
    ["admin.obsidian.detect"; "admin.obsidian.prepare"; "admin.obsidian.confirm"; "admin.migrate"; "admin.embedding.probe";
     "admin.embedding.serve"; "admin.embedding.check"; "admin.reembed.plan"; "admin.reembed.run"; "admin.reembed.status";
     "admin.reembed.abort"; "admin.backup.snapshot"].

(** [new Map(POLICY.map(...))]: a later row of the same action would win. *)
(* @src rbac/policy.ts 166 167 policyFor *)
Definition policyFor (a : string) : option ActionSpec :=
  bfind (fun s => String.eqb (action s) a) (reverse POLICY).

(** ** [authorize] *)

Definition role_of (s : string) : option Role := snd <$> bfind (fun p => String.eqb p.1 s) ROLES.

(* @src rbac/authorize.ts 9 9 AGENT_RANK *)
Definition AGENT_RANK (s : string) : option Z :=
  if String.eqb s "use" then Some 1 else if String.eqb s "manage" then Some 2 else None.
(* @src rbac/authorize.ts 10 10 PROJECT_RANK *)
Definition PROJECT_RANK (s : string) : option Z :=
  if String.eqb s "member" then Some 1 else if String.eqb s "lead" then Some 2 else None.

Definition need_name (n : Need) : string :=
  match n with NUse => "use" | NManage => "manage" | NMember => "member" | NLead => "lead" end.

(* @src rbac/authorize.ts 13 15 right *)
Definition right (table : option (list (string * string))) (id : string) : option string :=
  match table with
  | Some l => snd <$> bfind (fun p => String.eqb p.1 id) l
  | None => None
  end.

(* @src rbac/authorize.ts 17 20 shapeOf *)
Definition shapeOf (r : Resource) : ResourceShape :=
  match r with
  | ResSystem => RSystem | ResUser _ => RUser | ResAgent _ => RAgent | ResProject _ => RProject
  | ResMemoryUser _ => RMemUser
  | ResMemoryAgent AgentPrivate _ => RMemPrivate
  | ResMemoryAgent Workspace _ => RMemWorkspace
  end.

(* @src rbac/authorize.ts 22 30 idOf *)
Definition idOf (r : Resource) : string :=
  match r with
  | ResSystem => ""
  | ResUser id | ResAgent id | ResProject id | ResMemoryUser id | ResMemoryAgent _ id => id
  end.

(* @src rbac/authorize.ts 32 34 scopeMatches *)
Definition scopeMatches (scopes : list string) (a : string) : bool :=
  existsb (fun s => String.eqb s a || (ends_with ".*" s && starts_with (drop_right 1 s) a)) scopes.

(** [(RANK[have] ?? 0) >= (RANK[needs] ?? Infinity)] *)
Definition rank_reaches (rank : string -> option Z) (have : option string) (n : Need) : bool :=
  match have with
  | None => false
  | Some h => match rank (need_name n) with
              | Some need => need <=? default 0 (rank h)
              | None => false
              end
  end.

(* @src rbac/authorize.ts 36 45 holdsObjectRight *)
Definition holdsObjectRight (p : Principal) (s : ActionSpec) (r : Resource) (id : string) : bool :=
  match needs s with
  | None => false
  | Some n =>
      match r with
      | ResProject _ => rank_reaches PROJECT_RANK (right (projectRights p) id) n
      | _ => rank_reaches AGENT_RANK (right (agentRights p) id) n
      end
  end.

(* @src rbac/authorize.ts 47 51 liveBreakGlass *)
Definition liveBreakGlass (p : Principal) (target : string) (now : option num) : option BreakGlassGrant :=
  match now with
  | Some (Fin t) =>
      bfind (fun g => String.eqb (holderUserId g) (userId p) && String.eqb (targetUserId g) target
                      && bool_decide (bg_revokedAt g = None) && (issuedAt g <=? t) && (t <? bg_expiresAt g))
            (breakGlass p)
  | _ => None
  end.

(* @src rbac/authorize.ts 53 63 evaluate *)
Definition evaluate (g : Grant) (p : Principal) (s : ActionSpec) (r : Resource) (id : string)
    (now : option num) : option Decision :=
  match g with
  | GAllow => Some (RAllow ByRole)
  | GOwn => if negb (is_empty id) && String.eqb id (userId p) then Some (RAllow ByOwn) else None
  | GObject => if holdsObjectRight p s r id then Some (RAllow ByObjectRight) else None
  | GBreakGlass =>
      if negb (is_empty id) && negb (String.eqb id (userId p)) then
        match liveBreakGlass p id now with
        | Some g => Some (RAllow (ByBreakGlass (bg_id g)))
        | None => None
        end
      else None
  end.

Definition grants_for (s : ActionSpec) (r : Role) : list Grant :=
  match bfind (fun e => bool_decide (e.1 = r)) (grants s) with Some e => e.2 | None => [] end.

Fixpoint first_grant (gs : list Grant) (p : Principal) (s : ActionSpec) (r : Resource) (id : string)
    (now : option num) : option Decision :=
  match gs with
  | [] => None
  | g :: rest => match evaluate g p s r id now with
                 | Some d => Some d
                 | None => first_grant rest p s r id now
                 end
  end.

(* @src rbac/authorize.ts 65 89 authorize *)
Definition authorize (principal : option Principal) (act : string) (res : option Resource)
    (now : option num) : Decision :=
  match principal with
  | None => RDeny Unauthenticated
  | Some p =>
      match role_of (role p) with
      | None => RDeny InvalidPrincipal
      | Some rl =>
          if is_empty (userId p) then RDeny InvalidPrincipal
          else if match kind p with Some k => negb (includes PRINCIPAL_KINDS k) | None => false end
          then RDeny InvalidPrincipal
          else
            match policyFor act with
            | None => RDeny UnknownAction
            | Some s =>
                if human_only s && negb (bool_decide (kind p = Some "person")) then RDeny AgentPrincipal
                else
                  match res with
                  | None => RDeny ResourceMismatch
                  | Some r =>
                      let id := idOf r in
                      if negb (bool_decide (shapeOf r = resource s)) then RDeny ResourceMismatch
                      else if negb (bool_decide (shapeOf r = RSystem)) && is_empty id then RDeny ResourceMismatch
                      else if match p_tokenScopes p with Some l => negb (scopeMatches l act) | None => false end
                      then RDeny TokenScope
                      else
                        let gs := grants_for s rl in
                        match first_grant gs p s r id now with
                        | Some d => d
                        | None =>
                            if bool_decide (gs = []) then RDeny RoleDenied
                            else if bool_decide (GBreakGlass ∈ gs) then RDeny BreakGlassRequired
                            else if bool_decide (GOwn ∈ gs) then RDeny NotOwner
                            else RDeny ObjectRightRequired
                        end
                  end
            end
      end
  end.

Definition is_allow (d : Decision) : bool := match d with RAllow _ => true | RDeny _ => false end.

(* @src rbac/authorize.ts 92 94 canSee *)
Definition canSee (p : option Principal) (act : string) (rs : list Resource) (now : option num) : list Resource :=
  bfilter (fun r => is_allow (authorize p act (Some r) now)) rs.

(** [{ ...principal, tokenScopes }]: the same principal under other scopes. *)
Definition with_scopes (p : Principal) (l : option (list string)) : Principal :=
  {| userId := userId p; kind := kind p; role := role p; agentRights := agentRights p;
     projectRights := projectRights p; p_tokenScopes := l;
     bindingAgentId := bindingAgentId p; breakGlass := breakGlass p |}.

(** ** Surface trust *)

(* @src rbac/surface.ts 12 12 STEP_UP_WINDOW_MS *)
Definition STEP_UP_WINDOW_MS : Z := 5 * 60000.

Definition js_is (s : string) (v : js) : bool := match v with JStr t => String.eqb t s | _ => false end.

(* @src rbac/surface.ts 27 46 surfaceTrust *)
Definition surfaceTrust (facts : js) : Z :=
  match facts with
  | JObj _ =>
      let kd k s := js_is s (jget k facts) in
      let yes k := js_is_true (jget k facts) in
      if kd "kind" "desktop-app" then 3
      else if kd "kind" "cli" then (if yes "tty" && yes "osUserIsOwner" then 3 else 0)
      else if kd "kind" "web" then
        if negb (yes "authenticated") then 0
        else match jget "now" facts with
             | JNum (Fin now) =>
                 match jget "stepUpAt" facts with
                 | JNum (Fin up) => if (up <=? now) && (now - up <=? STEP_UP_WINDOW_MS) then 3 else 2
                 | _ => 2
                 end
             | _ => 0
             end
      else if kd "kind" "channel" then
        if (yes "firstParty" || yes "optedIntoT2") && kd "chat" "private" && yes "identityLinked"
           && yes "nonceValid" then 2 else 0
      else if kd "kind" "acp-editor" then (if yes "startedSession" then 1 else 0)
      else 0
  | _ => 0
  end.

(* @src rbac/surface.ts 49 52 surfaceSatisfies *)
Definition surfaceSatisfies (have : Z) (required : option Z) : bool :=
  match required with
  | None => false
  | Some r =>
      if negb (bool_decide (have ∈ [1; 2; 3])) || negb (bool_decide (r ∈ [0; 1; 2; 3])) then false
      else r <=? have
  end.
