(* ===== verification/RbacProps.v ===== *)
(** * RBAC: what [authorize] promises

    The declarative reading of an allow decision, and the policy-wide facts that
    follow from it: human-only actions, the order on roles, break-glass, token
    scopes, and the surface-trust table. *)

From S2P Require Import Prelude Rbac.

(** ** The declarative reading of an allow *)

(** What one grant asks of the principal and the resource. *)
Definition grant_holds (g : Grant) (p : Principal) (s : ActionSpec) (r : Resource) (now : option num)
    (why : AllowReason) : Prop :=
  match g with
  | GAllow => why = ByRole
  | GOwn => why = ByOwn /\ idOf r = userId p /\ idOf r <> ""
  | GObject => why = ByObjectRight /\ holdsObjectRight p s r (idOf r) = true
  | GBreakGlass =>
      exists b t, why = ByBreakGlass (bg_id b) /\ b ∈ breakGlass p /\ now = Some (Fin t) /\
        holderUserId b = userId p /\ targetUserId b = idOf r /\ idOf r <> userId p /\ idOf r <> "" /\
        bg_revokedAt b = None /\ issuedAt b <= t < bg_expiresAt b
  end.

(** A principal that passes every test [authorize] makes before the grants. *)
Record Passes (p : Principal) (act : string) (r : Resource) (rl : Role) (s : ActionSpec) : Prop := {
  pass_role : role_of (role p) = Some rl;
  pass_user : userId p <> "";
  pass_kind : forall k, kind p = Some k -> k ∈ PRINCIPAL_KINDS;
  pass_spec : policyFor act = Some s;
  pass_human : human_only s = true -> kind p = Some "person";
  pass_shape : shapeOf r = resource s;
  pass_id : shapeOf r <> RSystem -> idOf r <> "";
  pass_scope : forall l, p_tokenScopes p = Some l -> scopeMatches l act = true
}.

Lemma is_empty_false s : is_empty s = false <-> s <> "".
Proof. unfold is_empty. apply String.eqb_neq. Qed.

Lemma evaluate_holds g p s r now why :
  evaluate g p s r (idOf r) now = Some (RAllow why) -> grant_holds g p s r now why.
Proof.
  destruct g; simpl; intros H.
  - injection H as <-. done.
  - split_in H; [|discriminate]. injection H as <-. bool_hyps. by rewrite <- is_empty_false.
  - split_in H; [|discriminate]. injection H as <-. done.
  - unfold liveBreakGlass in H.
    destruct (negb (is_empty (idOf r)) && _) eqn:Hid; [|discriminate].
    destruct now as [[t| |]|]; try discriminate.
    destruct (bfind _ (breakGlass p)) as [b|] eqn:Hf; [|discriminate]. injection H as <-.
    apply bfind_some in Hf as [Hin Hp]. bool_hyps.
    exists b, t. rewrite is_empty_false in *. repeat split; try done; lia.
Qed.

Lemma evaluate_some g p s r id now d :
  evaluate g p s r id now = Some d -> exists why, d = RAllow why.
Proof. destruct g; simpl; intros H; repeat split_in H; try discriminate; injection H as <-; eauto. Qed.

Lemma first_grant_some gs p s r id now d :
  first_grant gs p s r id now = Some d -> exists g, g ∈ gs /\ evaluate g p s r id now = Some d.
Proof.
  induction gs as [|g gs IH]; simpl; [discriminate|].
  destruct (evaluate g p s r id now) eqn:E.
  - intros [= ->]. exists g. split; [by left|done].
  - intros H. destruct (IH H) as (g' & ? & ?). exists g'. split; [by right|done].
Qed.

Lemma first_grant_reach gs g p s r id now d :
  g ∈ gs -> evaluate g p s r id now = Some d ->
  exists why, first_grant gs p s r id now = Some (RAllow why).
Proof.
  induction gs as [|h gs IH]; intros Hin He; [by apply not_elem_of_nil in Hin|].
  simpl. destruct (evaluate h p s r id now) as [d'|] eqn:E.
  - destruct (evaluate_some _ _ _ _ _ _ _ E) as [why ->]. eauto.
  - apply elem_of_cons in Hin as [->|Hin]; [congruence|]. by apply IH.
Qed.

(** Split the next test of a goal or hypothesis built by [authorize]. *)
Ltac authorize_step H := cbv beta zeta in H; split_in H; try discriminate H.

Lemma authorize_allow_inv p act r now why :
  authorize (Some p) act (Some r) now = RAllow why ->
  exists rl s, Passes p act r rl s /\ first_grant (grants_for s rl) p s r (idOf r) now = Some (RAllow why).
Proof.
  unfold authorize. destruct (role_of (role p)) as [rl|] eqn:Hr; [|discriminate].
  destruct (is_empty (userId p)) eqn:Hu; [discriminate|].
  destruct (match kind p with Some k => negb (includes PRINCIPAL_KINDS k) | None => false end) eqn:Hk; [discriminate|].
  destruct (policyFor act) as [s|] eqn:Hs; [|discriminate].
  destruct (human_only s && _) eqn:Hh; [discriminate|].
  destruct (negb (bool_decide (shapeOf r = resource s))) eqn:Hsh; [discriminate|].
  destruct (negb (bool_decide (shapeOf r = RSystem)) && is_empty (idOf r)) eqn:Hid; [discriminate|].
  destruct (match p_tokenScopes p with Some l => negb (scopeMatches l act) | None => false end) eqn:Ht; [discriminate|].
  destruct (first_grant _ p s r (idOf r) now) as [d|] eqn:Hf.
  2:{ intros H. repeat split_in H; discriminate. }
  intros ->. exists rl, s. split; [|exact Hf]. constructor; try done.
  - by apply is_empty_false.
  - intros k E. rewrite E in Hk. bool_hyps. by apply includes_spec.
  - intros E. rewrite E in Hh. simpl in Hh. bool_hyps. done.
  - bool_hyps. done.
  - intros Hne. apply is_empty_false. apply andb_false_iff in Hid as [Hid|Hid]; [|done].
    bool_hyps. done.
  - intros l E. rewrite E in Ht. bool_hyps. done.
Qed.

Lemma authorize_passes p act r now rl s why :
  Passes p act r rl s -> first_grant (grants_for s rl) p s r (idOf r) now = Some (RAllow why) ->
  authorize (Some p) act (Some r) now = RAllow why.
Proof.
  intros [Hr Hu Hk Hs Hh Hsh Hid Ht] Hf. unfold authorize. rewrite Hr, Hs.
  rewrite (proj2 (is_empty_false _) Hu).
  replace (match kind p with Some k => negb (includes PRINCIPAL_KINDS k) | None => false end) with false.
  2:{ destruct (kind p) as [k|] eqn:E; [|done]. symmetry. apply negb_false_iff, includes_spec. by apply Hk. }
  replace (human_only s && negb (bool_decide (kind p = Some "person"))) with false.
  2:{ destruct (human_only s); [|done]. rewrite Hh by done. done. }
  rewrite bool_decide_eq_true_2 by done. cbv zeta beta. cbn [negb].
  replace (negb (bool_decide (shapeOf r = RSystem)) && is_empty (idOf r)) with false.
  2:{ symmetry. case_bool_decide as E; [done|]. simpl. apply is_empty_false. by apply Hid. }
  replace (match p_tokenScopes p with Some l => negb (scopeMatches l act) | None => false end) with false.
  2:{ destruct (p_tokenScopes p) as [l|] eqn:E; [|done]. by rewrite (Ht l). }
  by rewrite Hf.
Qed.

Lemma policyFor_some act s : policyFor act = Some s -> s ∈ POLICY /\ action s = act.
Proof. intros H. apply bfind_some in H as [Hin He]. bool_hyps. split; [by apply elem_of_reverse|done]. Qed.

(** A closed test over the policy, read back for one row. *)
Lemma policy_row (f : ActionSpec -> bool) s : forallb f POLICY = true -> s ∈ POLICY -> f s = true.
Proof. intros H Hin. by apply (proj1 (forallb_elem f POLICY) H). Qed.

Lemma holds_evaluate g p s r now why :
  grant_holds g p s r now why -> exists d, evaluate g p s r (idOf r) now = Some d.
Proof.
  destruct g; simpl.
  - eauto.
  - intros (-> & He & Hne). rewrite (proj2 (is_empty_false _) Hne), He, String.eqb_refl. simpl. eauto.
  - intros (-> & ->). eauto.
  - intros (b & t & -> & Hin & -> & Hh & Ht & Hne & Hid & Hr & Hw).
    rewrite (proj2 (is_empty_false _) Hid), (proj2 (String.eqb_neq _ _) Hne). simpl.
    destruct (bfind_is_some (fun g => String.eqb (holderUserId g) (userId p)
      && String.eqb (targetUserId g) (idOf r) && bool_decide (bg_revokedAt g = None)
      && (issuedAt g <=? t) && (t <? bg_expiresAt g)) _ b Hin) as [b' ->]; [|eauto].
    rewrite Hh, Ht, !String.eqb_refl, bool_decide_eq_true_2 by done. simpl. lia.
Qed.

Lemma is_allow_some d : is_allow d = true <-> exists why, d = RAllow why.
Proof. destruct d; simpl; split; eauto; [discriminate|by intros []]. Qed.

(** The shared form of the specification: an allow is a passing principal with a
    grant of its role that holds. *)
Lemma allow_iff p act r now :
  is_allow (authorize (Some p) act (Some r) now) = true <->
  exists rl s g why, Passes p act r rl s /\ g ∈ grants_for s rl /\ grant_holds g p s r now why.
Proof.
  rewrite is_allow_some. split.
  - intros [why H]. apply authorize_allow_inv in H as (rl & s & Hp & Hf).
    apply first_grant_some in Hf as (g & Hg & He). apply evaluate_holds in He. eauto 10.
  - intros (rl & s & g & why & Hp & Hg & Hh). apply holds_evaluate in Hh as [d He].
    destruct (first_grant_reach _ _ _ _ _ _ _ _ Hg He) as [why' Hf].
    exists why'. eapply authorize_passes; eauto.
Qed.

(** ** Roles in order *)

Definition role_name (r : Role) : string :=
  match r with Owner => "owner" | Admin => "admin" | Operator => "operator" | Member => "member" | Viewer => "viewer" end.

Definition with_role (p : Principal) (r : Role) : Principal :=
  {| userId := userId p; kind := kind p; role := role_name r; agentRights := agentRights p;
     projectRights := projectRights p; p_tokenScopes := p_tokenScopes p;
     bindingAgentId := bindingAgentId p; breakGlass := breakGlass p |}.

Lemma role_of_name r : role_of (role_name r) = Some r.
Proof. by destruct r. Qed.

(** [above hi lo]: the policy gives [hi] whatever it gives [lo]. *)
Definition above (hi lo : Role) : bool :=
  match hi, lo with
  | Owner, _ | Admin, (Admin | Operator | Member | Viewer) | Operator, (Operator | Viewer)
  | Member, Member | Viewer, Viewer => true
  | _, _ => false
  end.

Definition grants_cover (hi lo : Role) (s : ActionSpec) : bool :=
  forallb (fun g => bool_decide (GAllow ∈ grants_for s hi) || bool_decide (g ∈ grants_for s hi)) (grants_for s lo).

Lemma policy_grants_ordered hi lo : above hi lo = true -> forallb (grants_cover hi lo) POLICY = true.
Proof. destruct hi, lo; try discriminate; intros _; vm_compute; reflexivity. Qed.

Lemma passes_with_role p act r rl s hi :
  Passes p act r rl s -> Passes (with_role p hi) act r hi s.
Proof. intros []. constructor; try done. apply role_of_name. Qed.

Lemma grant_holds_with_role g p s r now why hi :
  grant_holds g p s r now why -> grant_holds g (with_role p hi) s r now why.
Proof. by destruct g. Qed.

(** The only rows with a break-glass grant. *)
Definition break_glass_row (rl : Role) (s : ActionSpec) : bool :=
  implb (bool_decide (GBreakGlass ∈ grants_for s rl))
    (String.eqb (action s) "memory.user.read" && bool_decide (resource s = RMemUser)
     && (bool_decide (rl = Owner) || bool_decide (rl = Admin))).

Lemma break_glass_rows rl : forallb (break_glass_row rl) POLICY = true.
Proof. by destruct rl; vm_compute. Qed.

Lemma break_glass_inv p act r now id :
  authorize (Some p) act (Some r) now = RAllow (ByBreakGlass id) ->
  act = "memory.user.read" /\ (role_of (role p) = Some Owner \/ role_of (role p) = Some Admin) /\
  exists target b t, r = ResMemoryUser target /\ target <> userId p /\ b ∈ breakGlass p /\ bg_id b = id /\
    holderUserId b = userId p /\ targetUserId b = target /\ bg_revokedAt b = None /\
    now = Some (Fin t) /\ issuedAt b <= t < bg_expiresAt b.
Proof.
  intros H. apply authorize_allow_inv in H as (rl & s & Hp & Hf).
  apply first_grant_some in Hf as (g & Hg & He). apply evaluate_holds in He.
  destruct (policyFor_some _ _ (pass_spec _ _ _ _ _ Hp)) as [Hin Hact].
  destruct g; simpl in He; [discriminate|by destruct He|by destruct He|].
  destruct He as (b & t & [= ->] & Hb & -> & Hh & Ht & Hne & Hid & Hrv & Hw).
  pose proof (policy_row (break_glass_row rl) s (break_glass_rows rl) Hin) as Hrow.
  unfold break_glass_row in Hrow. rewrite (bool_decide_eq_true_2 _ Hg) in Hrow. simpl in Hrow. bool_hyps.
  split; [congruence|]. split.
  { pose proof (pass_role _ _ _ _ _ Hp).
    match goal with H : (_ || _) = true |- _ => apply orb_true_iff in H as [H|H]; bool_hyps; subst rl; auto end. }
  pose proof (pass_shape _ _ _ _ _ Hp) as Hsh.
  destruct r as [ | | | |o|[]]; try (simpl in Hsh; congruence).
  exists o, b, t. simpl in *. done.
Qed.

(** ** Properties *)

(** (C35) [authorize] implements its contract: a request is allowed exactly when the
    principal is well formed, the action is in the policy, a human-only action
    comes from a person, the resource has the action's shape and an id, the
    token scopes admit the action, and one of the grants the policy lists for
    the role holds (unconditional, own resource, sufficient object right, or a
    live break-glass grant); everything else is denied. *)
Theorem authorize_exact p act res now :
  is_allow (authorize p act res now) = true <->
  exists q r rl s g why, p = Some q /\ res = Some r /\
    Passes q act r rl s /\ g ∈ grants_for s rl /\ grant_holds g q s r now why.
Proof.
  split.
  - destruct p as [q|]; [|discriminate]. destruct res as [r|].
    + intros H. apply allow_iff in H as (rl & s & g & why & H). exists q, r, rl, s, g, why. tauto.
    + unfold authorize. intros H. repeat split_in H; discriminate.
  - intros (q & r & rl & s & g & why & -> & -> & H). apply allow_iff. eauto 10.
Qed.

(** The roles are ordered: whatever an admin may do an owner may do, an admin
    may do whatever operators and members may, and an operator whatever a viewer
    may, on every action of the policy and every resource, all else about the
    principal being equal. *)
Theorem role_hierarchy p act r now hi lo :
  above hi lo = true ->
  is_allow (authorize (Some (with_role p lo)) act (Some r) now) = true ->
  is_allow (authorize (Some (with_role p hi)) act (Some r) now) = true.
Proof.
  intros Hab H. apply allow_iff in H as (rl & s & g & why & Hp & Hg & Hh). apply allow_iff.
  destruct (policyFor_some _ _ (pass_spec _ _ _ _ _ Hp)) as [Hin _].
  pose proof (pass_role _ _ _ _ _ Hp) as Hr. simpl in Hr. rewrite role_of_name in Hr. injection Hr as <-.
  pose proof (policy_row _ _ (policy_grants_ordered hi lo Hab) Hin) as Hc.
  unfold grants_cover in Hc. rewrite forallb_elem in Hc. specialize (Hc g Hg).
  pose proof (passes_with_role _ _ _ _ _ hi Hp) as Hp'.
  apply orb_true_iff in Hc as [Hc|Hc]; apply bool_decide_eq_true in Hc.
  - exists hi, s, GAllow, ByRole. split; [exact Hp'|]. done.
  - exists hi, s, g, why. split; [exact Hp'|]. split; [done|].
    exact (grant_holds_with_role _ _ _ _ _ _ hi Hh).
Qed.

Definition demo_person (r : Role) : Principal :=
  {| userId := "u1"; kind := Some "person"; role := role_name r; agentRights := Some [("a1", "use")];
     projectRights := None; p_tokenScopes := None; bindingAgentId := None;
     breakGlass := [{| bg_id := "g1"; holderUserId := "u1"; targetUserId := "u2"; bg_reason := "incident";
                       issuedAt := 100; bg_expiresAt := 200; bg_revokedAt := None |}] |}.

Lemma role_hierarchy_witness :
  is_allow (authorize (Some (with_role (demo_person Member) Admin)) "agent.use" (Some (ResAgent "a1")) None) = true.
Proof. apply (role_hierarchy (demo_person Member) "agent.use" (ResAgent "a1") None Admin Member); vm_compute; reflexivity. Defined.

(** Break-glass opens one door: a decision allowed by a break-glass grant is a
    read of another person's memory by an owner or admin, and the grant with the
    reported id is held by that person for exactly that target, not revoked, and
    inside its window at the time given. *)
Theorem break_glass_confined p act r now id :
  authorize (Some p) act (Some r) now = RAllow (ByBreakGlass id) ->
  act = "memory.user.read" /\ (role_of (role p) = Some Owner \/ role_of (role p) = Some Admin) /\
  exists target b t, r = ResMemoryUser target /\ target <> userId p /\ b ∈ breakGlass p /\ bg_id b = id /\
    holderUserId b = userId p /\ targetUserId b = target /\ bg_revokedAt b = None /\
    now = Some (Fin t) /\ issuedAt b <= t < bg_expiresAt b.
Proof. apply break_glass_inv. Qed.

Lemma break_glass_confined_witness :
  role_of (role (demo_person Admin)) = Some Owner \/ role_of (role (demo_person Admin)) = Some Admin.
Proof.
  apply (break_glass_confined (demo_person Admin) "memory.user.read" (ResMemoryUser "u2") (Some (Fin 150)) "g1").
  vm_compute. reflexivity.
Defined.

(** Human-only actions stay with people: an allow of an action the policy marks
    human-only comes from a principal of kind person, so an agent, or a principal
    whose kind is missing, is denied it whatever its role, rights or scopes. *)
Theorem human_only_needs_person p act res now s :
  policyFor act = Some s -> human_only s = true ->
  is_allow (authorize (Some p) act res now) = true -> kind p = Some "person".
Proof.
  intros Hs Hh Ha. destruct res as [r|].
  - apply allow_iff in Ha as (rl & s' & g & why & Hp & _).
    pose proof (pass_spec _ _ _ _ _ Hp) as E. rewrite Hs in E. injection E as <-.
    by apply (pass_human _ _ _ _ _ Hp).
  - unfold authorize in Ha. repeat split_in Ha; discriminate.
Qed.

Lemma human_only_needs_person_witness : kind (demo_person Owner) = Some "person".
Proof.
  apply (human_only_needs_person (demo_person Owner) "project.create" (Some ResSystem) None
    (humanOnly (spec "project.create" RSystem OA None))); vm_compute; reflexivity.
Defined.

(** ** Token scopes *)

Lemma first_grant_scopes gs p l s r id now :
  first_grant gs (with_scopes p l) s r id now = first_grant gs p s r id now.
Proof. induction gs as [|g gs IH]; simpl; [done|]. rewrite IH. by destruct g. Qed.

Lemma passes_scopes p l act r rl s :
  Passes p act r rl s -> (forall l', l = Some l' -> scopeMatches l' act = true) ->
  Passes (with_scopes p l) act r rl s.
Proof. intros [] H. by constructor. Qed.

Lemma scopeMatches_mono l l' act : (forall x, x ∈ l -> x ∈ l') -> scopeMatches l act = true -> scopeMatches l' act = true.
Proof. unfold scopeMatches. rewrite !existsb_elem. intros H (x & Hx & He). eauto. Qed.

(** Token scopes only narrow: what a scoped token is allowed, the same
    principal is allowed for the same reason with any wider list of scopes and
    with no scopes at all, and every allow of a scoped token names an action one
    of its scopes matches. *)
Theorem token_scopes_narrow p act r now l why :
  authorize (Some (with_scopes p (Some l))) act (Some r) now = RAllow why ->
  scopeMatches l act = true /\
  authorize (Some (with_scopes p None)) act (Some r) now = RAllow why /\
  (forall l', (forall x, x ∈ l -> x ∈ l') ->
     authorize (Some (with_scopes p (Some l'))) act (Some r) now = RAllow why).
Proof.
  intros H. apply authorize_allow_inv in H as (rl & s & Hp & Hf).
  pose proof (pass_scope _ _ _ _ _ Hp l eq_refl) as Hm. rewrite first_grant_scopes in Hf.
  split; [exact Hm|]. split; [|intros l' Hl]; eapply authorize_passes; try (rewrite first_grant_scopes; exact Hf).
  - by apply (passes_scopes _ None) in Hp.
  - apply (passes_scopes _ (Some l')) in Hp; [exact Hp|].
    intros ? [= <-]. by eapply scopeMatches_mono.
Qed.

Lemma token_scopes_narrow_witness : scopeMatches ["agent.*"] "agent.use" = true.
Proof.
  apply (token_scopes_narrow (demo_person Member) "agent.use" (ResAgent "a1") None ["agent.*"] ByObjectRight).
  vm_compute. reflexivity.
Defined.

(** ** Surface trust *)

Definition js_num_at (k : string) (v : js) : option Z :=
  match jget k v with JNum (Fin z) => Some z | _ => None end.

(** The facts that earn the highest trust. *)
Definition full_trust (f : js) : Prop :=
  jget "kind" f = JStr "desktop-app" \/
  (jget "kind" f = JStr "cli" /\ jget "tty" f = JBool true /\ jget "osUserIsOwner" f = JBool true) \/
  (jget "kind" f = JStr "web" /\ jget "authenticated" f = JBool true /\
   exists now up, js_num_at "now" f = Some now /\ js_num_at "stepUpAt" f = Some up /\
     0 <= now - up <= STEP_UP_WINDOW_MS).

(** The facts that earn at least the middle trust. *)
Definition some_trust (f : js) : Prop :=
  full_trust f \/
  (jget "kind" f = JStr "web" /\ jget "authenticated" f = JBool true /\ exists now, js_num_at "now" f = Some now) \/
  (jget "kind" f = JStr "channel" /\ (jget "firstParty" f = JBool true \/ jget "optedIntoT2" f = JBool true) /\
   jget "chat" f = JStr "private" /\ jget "identityLinked" f = JBool true /\ jget "nonceValid" f = JBool true).

Lemma js_is_iff s v : js_is s v = true <-> v = JStr s.
Proof.
  destruct v; simpl; split; try discriminate; intros H.
  - apply String.eqb_eq in H. congruence.
  - injection H as ->. apply String.eqb_refl.
Qed.

Lemma js_is_true_iff v : js_is_true v = true <-> v = JBool true.
Proof. destruct v as [ | |[]| | | | ]; simpl; split; congruence. Qed.

Lemma js_num_at_iff k f z : js_num_at k f = Some z <-> jget k f = JNum (Fin z).
Proof.
  unfold js_num_at. split; [|by intros ->].
  destruct (jget k f) as [| | |[]| | |]; intros E; inversion E; done.
Qed.

Lemma kind_disjoint f s t : js_is s (jget "kind" f) = true -> s <> t -> jget "kind" f <> JStr t.
Proof. intros H Hn E. apply js_is_iff in H. congruence. Qed.

(** One kind of surface at a time: the branch taken fixes the kind. *)
Lemma surface_kind_cases f :
  (jget "kind" f = JStr "desktop-app" /\ surfaceTrust f = 3) \/
  (jget "kind" f = JStr "cli" /\
   surfaceTrust f = if js_is_true (jget "tty" f) && js_is_true (jget "osUserIsOwner" f) then 3 else 0) \/
  (jget "kind" f = JStr "web" /\
   surfaceTrust f = if js_is_true (jget "authenticated" f) then
      match js_num_at "now" f with
      | None => 0
      | Some now => match js_num_at "stepUpAt" f with
                    | Some up => if (up <=? now) && (now - up <=? STEP_UP_WINDOW_MS) then 3 else 2
                    | None => 2
                    end
      end else 0) \/
  (jget "kind" f = JStr "channel" /\
   surfaceTrust f = if (js_is_true (jget "firstParty" f) || js_is_true (jget "optedIntoT2" f))
      && js_is "private" (jget "chat" f) && js_is_true (jget "identityLinked" f)
      && js_is_true (jget "nonceValid" f) then 2 else 0) \/
  (jget "kind" f <> JStr "desktop-app" /\ jget "kind" f <> JStr "cli" /\ jget "kind" f <> JStr "web" /\
   jget "kind" f <> JStr "channel" /\ 0 <= surfaceTrust f <= 1).
Proof.
  destruct f as [ | | | | | |fs]; try (do 4 right; simpl; split_and!; done).
  unfold surfaceTrust. set (f := JObj fs). cbv zeta.
  destruct (js_is "desktop-app" (jget "kind" f)) eqn:E1; [left; by apply js_is_iff in E1|right].
  destruct (js_is "cli" (jget "kind" f)) eqn:E2; [left; by apply js_is_iff in E2|right].
  destruct (js_is "web" (jget "kind" f)) eqn:E3.
  { left. apply js_is_iff in E3. split; [done|]. unfold js_num_at.
    destruct (js_is_true (jget "authenticated" f)); cbn [negb]; [|done].
    destruct (jget "now" f) as [| | |[]| | |]; try done.
    destruct (jget "stepUpAt" f) as [| | |[]| | |]; done. }
  right. destruct (js_is "channel" (jget "kind" f)) eqn:E4; [left; by apply js_is_iff in E4|right].
  assert (Hk : forall s, js_is s (jget "kind" f) = false -> jget "kind" f <> JStr s).
  { intros s H E. apply js_is_iff in E. congruence. }
  split_and!; auto; repeat case_match; lia.
Qed.

(** Surface trust is earned, never assumed: on any facts the trust is between 0
    and 3; it is 3 exactly for the desktop app, for a terminal of the owner's own
    operating-system user and for an authenticated web session stepped up within
    the last five minutes (and not in the future); it is at least 2 exactly when,
    besides those, the web session is authenticated or the channel message is
    private, identity-linked and nonce-bound on a first-party or opted-in
    channel. *)
Theorem surface_trust_exact f :
  0 <= surfaceTrust f <= 3 /\
  (surfaceTrust f = 3 <-> full_trust f) /\
  (2 <= surfaceTrust f <-> some_trust f).
Proof.
  unfold some_trust, full_trust.
  destruct (surface_kind_cases f) as [[K ->]|[[K ->]|[[K ->]|[[K ->]|(K1 & K2 & K3 & K4 & Hr)]]]];
    try setoid_rewrite K.
  - split; [lia|]. split; split; try lia; intros _; auto.
  - rewrite <- !js_is_true_iff.
    destruct (js_is_true (jget "tty" f)), (js_is_true (jget "osUserIsOwner" f)); simpl;
      (split; [lia|]); split; split; intros H; try lia; try (naive_solver lia); naive_solver.
  - setoid_rewrite <- js_is_true_iff.
    destruct (js_is_true (jget "authenticated" f)); [|split; [lia|]; split; split; intros; [lia|naive_solver|lia|naive_solver]].
    destruct (js_num_at "now" f) as [now|]; [|split; [lia|]; split; split; intros; [lia|naive_solver|lia|naive_solver]].
    destruct (js_num_at "stepUpAt" f) as [up|];
      [destruct ((up <=? now) && (now - up <=? STEP_UP_WINDOW_MS)) eqn:E|].
    + bool_hyps. split; [lia|].
      split; split; intros _; try lia; [right; right|left; right; right];
        (split; [done|]); (split; [done|]); exists now, up; (split; [done|]); (split; [done|]); lia.
    + apply andb_false_iff in E. split; [lia|]. split; split; intros H; try lia.
      * destruct H as [?|[[? _]|(_ & _ & n & u & [= <-] & [= <-] & Hw)]]; try discriminate.
        destruct E; bool_hyps; lia.
      * right. left. naive_solver.
    + split; [lia|]. split; split; intros H; try lia; [naive_solver|right; left; naive_solver].
  - rewrite <- !js_is_true_iff, <- (js_is_iff "private").
    destruct (js_is_true (jget "firstParty" f)), (js_is_true (jget "optedIntoT2" f)),
      (js_is "private" (jget "chat" f)), (js_is_true (jget "identityLinked" f)), (js_is_true (jget "nonceValid" f));
      simpl; (split; [lia|]); split; split; intros H; try lia; naive_solver.
  - split; [lia|]. split; split; intros H; try lia; naive_solver.
Qed.
