(* ===== verification/RbacGuard.v ===== *)
(** * The RPC guard

    Model of [packages/core/src/rbac/guard.ts]: the rule table, the token-scope
    fallback for memory and external turns, and the wrapper put around every ruled
    method.  Clocks, audit sinks, resolvers and wrapped handlers are arbitrary
    functions. *)

From S2P Require Import Prelude Rbac.

(** ** Rules *)

(* @src rbac/guard.ts 16 24 RpcRule *)
Record RpcRule : Type := {
  r_action : string; r_humanOnly : bool; r_apiServiceOnly : bool; r_resource : js -> Resource
}.

(* @src rbac/guard.ts 26 30 field *)
Definition field (params : js) (key : string) : string :=
  match jget key params with JStr v => v | _ => "" end.

(* @src rbac/guard.ts 31 31 agent *)
Definition agent (params : js) : Resource := ResAgent (field params "agentId").
(* @src rbac/guard.ts 32 32 system *)
Definition system (params : js) : Resource := ResSystem.
Definition workspace (params : js) : Resource := ResMemoryAgent Workspace (field params "agentId").

(* @src rbac/guard.ts 33 33 rule *)
Definition rule (a : string) (res : js -> Resource) : RpcRule :=
  {| r_action := a; r_humanOnly := false; r_apiServiceOnly := false; r_resource := res |}.

(** [{ ...r, humanOnly: true }] and [{ ...r, apiServiceOnly: true }]. *)
Definition human_rule (r : RpcRule) : RpcRule :=
  {| r_action := r_action r; r_humanOnly := true; r_apiServiceOnly := r_apiServiceOnly r; r_resource := r_resource r |}.
Definition api_rule (r : RpcRule) : RpcRule :=
  {| r_action := r_action r; r_humanOnly := r_humanOnly r; r_apiServiceOnly := true; r_resource := r_resource r |}.

(** The table in the source's order, in two halves. *)
(* @src rbac/guard.ts 43 185 RPC_RULES *)
Definition RPC_RULES_admin : list (string * RpcRule) :=
  map (fun m => (m, human_rule (rule "a2a.peers.manage" system))) ["a2a.peer.add"; "a2a.peer.list"; "a2a.peer.remove"; "a2a.peer.trust"] ++
  map (fun m => (m, human_rule (rule "imports.manage" system))) ["admin.import.detect"; "admin.import.wsl.list"; "admin.import.plan"; "admin.import.preflight"; "admin.import.skills"; "admin.import.apply"; "admin.import.status"; "admin.import.abort"; "admin.import.runs"; "admin.import.rollback"] ++
  map (fun m => (m, human_rule (rule "imports.read" system))) ["admin.import.ssh.key.status"; "admin.import.ssh.connections.list"] ++
  map (fun m => (m, human_rule (rule "imports.manage" system))) ["admin.import.ssh.key.generate"; "admin.import.ssh.key.rotate"; "admin.import.ssh.key.delete"; "admin.import.ssh.connections.set"; "admin.import.ssh.connections.delete"; "admin.import.ssh.hostKey.probe"; "admin.import.ssh.hostKey.trust"] ++
  map (fun m => (m, human_rule (rule "extensions.read" system))) ["ext.list"; "ext.show"; "ext.watch"; "ext.inspection.get"; "admin.extensions.setup.get"; "admin.extensions.runtime.status"; "admin.extensions.auth.status"] ++
  map (fun m => (m, human_rule (rule "extensions.manage" system))) ["ext.inspect"; "ext.install"; "ext.uninstall"; "ext.restore"; "ext.enable"; "ext.disable"; "admin.extensions.setup.set"; "admin.extensions.auth.start"; "admin.extensions.auth.submit"; "admin.extensions.auth.cancel"; "admin.extensions.runtime.hold"; "admin.extensions.runtime.release"] ++
  [("secret.describe", human_rule (rule "settings.write" system));
   ("secret.grants.list", human_rule (rule "settings.read" system));
   ("delivery.target.list", human_rule (rule "agent.list" system));
   ("delivery.target.add", human_rule (rule "agent.list" system));
   ("delivery.target.confirm", human_rule (rule "agent.list" system));
   ("delivery.target.remove", human_rule (rule "agent.list" system));
   ("delivery.target.subscribe", human_rule (rule "agent.list" system));
   ("channel.history.list", human_rule (rule "chat:read" system));
   ("channel.history.get", human_rule (rule "chat:read" system));
   ("channel.handoff.create", human_rule (rule "chat:write" system));
   ("channel.handoff.redeem", human_rule (rule "chat:write" system));
   ("chat.promote.links", human_rule (rule "chat:read" system));
   ("chat.promote.preview", human_rule (rule "chat:write" system));
   ("chat.promote.commit", human_rule (rule "chat:write" system));
   ("events.subscribe", rule "agent.list" system);
   ("voice.session.create", human_rule (rule "agent.use" agent));
   ("decision.status", human_rule (rule "settings.read" system));
   ("decision.test", human_rule (rule "settings.write" system));
   ("admin.engine.test", human_rule (rule "settings.write" system));
   ("models.test", human_rule (rule "settings.write" system));
   ("budget.set", human_rule (rule "settings.write" system));
   ("chat.create", rule "chat:write" system);
   ("chat.list", rule "chat:read" system);
   ("chat.get", rule "chat:read" system);
   ("chat.events", rule "chat:read" system);
   ("chat.submit", rule "chat:write" system);
   ("chat.update", rule "chat:write" system);
   ("chat.archive", rule "chat:write" system);
   ("chat.restore", rule "chat:write" system);
   ("chat.cancel", rule "chat:write" system);
   ("chat.rewind", human_rule (rule "chat:write" system));
   ("chat.fork", rule "chat:write" system);
   ("chat.delete", rule "chat:delete" system);
   ("chat.export", rule "chat:read" system);
   ("chat.model.get", rule "chat:read" system);
   ("chat.model.set", human_rule (rule "chat:write" system));
   ("jobs.create", human_rule (rule "agent.manage" agent));
   ("jobs.update", human_rule (rule "agent.list" system));
   ("jobs.delete", human_rule (rule "agent.list" system));
   ("doctor.report", human_rule (rule "agent.list" system));
   ("telemetry.cache.summary", human_rule (rule "doctor.read" system));
   ("agent.activity.list", human_rule (rule "agent.list" system));
   ("inbox.list", rule "inbox.read" system);
   ("inbox.count", rule "inbox.read" system);
   ("inbox.markRead", rule "inbox.write" system);
   ("inbox.dismiss", rule "inbox.write" system);
   ("project.column.list", rule "project.board.read" system);
   ("project.card.list", rule "project.board.read" system);
   ("project.card.get", rule "project.board.read" system);
   ("project.card.comment.list", rule "project.board.read" system);
   ("project.card.activity.list", rule "project.board.read" system);
   ("project.column.create", rule "project.board.manage" system);
   ("project.column.update", rule "project.board.manage" system);
   ("project.column.move", rule "project.board.manage" system);
   ("project.column.delete", rule "project.board.manage" system);
   ("project.card.create", rule "project.board.write" system);
   ("project.card.update", rule "project.board.write" system);
   ("project.card.assign", rule "project.board.write" system);
   ("project.card.unassign", rule "project.board.write" system);
   ("project.card.archive", rule "project.board.write" system);
   ("project.card.unarchive", rule "project.board.write" system);
   ("project.card.move", rule "project.board.move" system);
   ("project.card.comment.add", rule "project.board.comment" system);
   ("media.preferences.get", rule "media.read" system);
   ("media.preferences.set", rule "media.write" system);
   ("media.generate", rule "media.write" system);
   ("media.edit", rule "media.write" system);
   ("media.job.get", rule "media.read" system);
   ("media.job.cancel", rule "media.write" system);
   ("media.job.list", rule "media.read" system);
   ("media.output.get", rule "media.read" system);
   ("media.output.list", rule "media.read" system);
   ("media.output.delete", rule "media.write" system);
   ("media.adapters.list", rule "media.read" system);
   ("media.search", rule "media.index.read" system);
   ("media.index.status", rule "media.index.read" system);
   ("media.index.pause", rule "media.index.operate" system);
   ("media.index.resume", rule "media.index.operate" system);
   ("media.index.reindex", rule "media.index.operate" system);
   ("media.caption.set", rule "media.caption.write" system);
   ("project.create", rule "project.create" system);
   ("project.get", rule "project.surface.read" system);
   ("project.list", rule "project.surface.read" system);
   ("project.update", rule "project.surface.write" system);
   ("project.archive", rule "project.surface.write" system);
   ("project.member.add", rule "project.surface.write" system);
   ("project.member.remove", rule "project.surface.write" system);
   ("project.member.role", rule "project.surface.write" system);
   ("project.agent.add", rule "project.surface.write" system);
   ("project.agent.remove", rule "project.surface.write" system);
   ("project.repo.bind", human_rule (rule "project.surface.write" system));
   ("project.repo.unbind", human_rule (rule "project.surface.write" system));
   ("task.complete", human_rule (rule "project.surface.write" system));
   ("collab.session.replay", rule "project.surface.read" system);
   ("collab.trace.get", rule "project.surface.read" system);
   ("collab.trace.list", rule "project.surface.read" system);
   ("collab.chain.cancel", rule "project.surface.write" system);
   ("identity.link.request", rule "identity.self.write" system);
   ("identity.link.list", rule "identity.self.read" system);
   ("identity.link.approve", rule "identity.self.write" system);
   ("identity.link.decline", rule "identity.self.write" system);
   ("identity.link.remove", rule "identity.self.write" system);
   ("identity.principals", rule "identity.self.read" system);
   ("auth.login.start", rule "auth.credentials.write" system);
   ("auth.login.await", rule "auth.credentials.write" system);
   ("auth.login.cancel", rule "auth.credentials.write" system);
   ("auth.logout", rule "auth.credentials.write" system);
   ("auth.credentials.list", rule "auth.credentials.read" system);
   ("auth.status", rule "auth.credentials.read" system);
   ("channel.list", rule "channel.read" system);
   ("channel.get", rule "channel.read" system);
   ("channel.status", rule "channel.read" system);
   ("channel.test", rule "channel.read" system);
   ("channel.enable", rule "channel.write" system);
   ("channel.disable", rule "channel.write" system);
   ("channel.set", rule "channel.write" system);
   ("channel.crypto", rule "channel.write" system);
   ("agent.pause", rule "admin.agent.operate" agent);
   ("agent.resume", rule "admin.agent.operate" agent);
   ("agent.archive", rule "admin.agent.manage" agent);
   ("agent.unarchive", rule "admin.agent.manage" agent);
   ("agent.export", rule "admin.agent.manage" agent);
   ("agent.delete", rule "admin.agent.delete" agent);
   ("user.list", rule "admin.users.read" system)].

(* @src rbac/guard.ts 186 303 RPC_RULES *)
Definition RPC_RULES_rest : list (string * RpcRule) :=
  [("user.role.set", rule "admin.users.write" system);
   ("admin.api.person.resolve", api_rule (rule "admin.users.read" system));
   ("admin.api.invite.validate", api_rule (rule "admin.users.read" system));
   ("user.disable", human_rule (rule "admin.users.write" system));
   ("user.enable", human_rule (rule "admin.users.write" system));
   ("user.invite.create", rule "admin.users.write" system);
   ("user.invite.list", rule "admin.users.read" system);
   ("user.invite.revoke", rule "admin.users.write" system);
   ("agent.rights.get", rule "admin.agent.rights" agent);
   ("agent.rights.set", rule "admin.agent.rights" agent);
   ("breakglass.request", rule "admin.breakglass.write" system);
   ("breakglass.list", rule "admin.breakglass.read" system);
   ("breakglass.revoke", rule "admin.breakglass.write" system);
   ("breakglass.notices", rule "admin.notices.read" system);
   ("code.session.open", human_rule (rule "admin.sessions.write" system));
   ("code.session.mode", human_rule (rule "admin.sessions.write" system));
   ("code.session.check", human_rule (rule "admin.sessions.write" system));
   ("code.session.diff", human_rule (rule "admin.sessions.transcript" system));
   ("session.model.get", rule "admin.sessions.transcript" system);
   ("session.get", rule "admin.sessions.transcript" system);
   ("session.resume", rule "admin.sessions.transcript" system);
   ("session.events", rule "admin.sessions.transcript" system);
   ("memory.curation.list", human_rule (rule "agent.manage" agent));
   ("memory.curation.resolve", human_rule (rule "agent.manage" agent));
   ("memory.list", rule "admin.memory.read" system);
   ("memory.show", rule "admin.memory.read" system);
   ("memory.importText.preview", human_rule (rule "imports.manage" system));
   ("memory.importText.apply", human_rule (rule "imports.manage" system));
   ("memory.importText.rollback", human_rule (rule "imports.manage" system));
   ("memory.exportText", human_rule (rule "admin.memory.read" system));
   ("session.create", rule "admin.sessions.write" system);
   ("session.submit", rule "admin.sessions.write" system);
   ("session.model.set", human_rule (rule "admin.sessions.write" system));
   ("session.cancel", rule "admin.sessions.write" system);
   ("session.rewind", human_rule (rule "admin.sessions.write" system));
   ("session.archive", rule "admin.sessions.write" system);
   ("session.list", rule "admin.sessions.read" system);
   ("admin.api.device.pair", api_rule (rule "admin.pairing.read" system));
   ("admin.api.device.challenge", api_rule (rule "admin.pairing.read" system));
   ("admin.api.device.prove", api_rule (rule "admin.pairing.read" system));
   ("admin.api.device.announce", api_rule (rule "admin.pairing.read" system));
   ("device.pair", rule "remote.device.write" system);
   ("admin.api.desktop.redeem", api_rule (rule "admin.pairing.read" system));
   ("admin.api.desktop.token", api_rule (rule "admin.pairing.read" system));
   ("admin.api.desktop.resolve", api_rule (rule "admin.pairing.read" system));
   ("device.list", rule "device.list" system);
   ("device.revoke", rule "device.revoke" system);
   ("device.rename", rule "device.rename" system);
   ("pairing.qr", rule "admin.pairing.read" system);
   ("memory.forget", rule "memory.forget" agent);
   ("agent.status", rule "agent.read" agent);
   ("jobs.run", rule "jobs.run" system);
   ("models.setOverride", rule "models.write" system);
   ("models.removeManual", rule "models.write" system);
   ("egress.status", rule "egress.read" system);
   ("admin.obsidian.detect", rule "admin.obsidian.detect" system);
   ("admin.obsidian.prepare", rule "admin.obsidian.prepare" system);
   ("admin.obsidian.confirm", rule "admin.obsidian.confirm" system);
   ("admin.migrate", rule "admin.migrate" system);
   ("admin.embedding.probe", rule "admin.embedding.probe" system);
   ("admin.embedding.serve", rule "admin.embedding.serve" system);
   ("admin.embedding.check", rule "admin.embedding.check" system);
   ("admin.reembed.plan", rule "admin.reembed.plan" system);
   ("admin.reembed.run", rule "admin.reembed.run" system);
   ("admin.reembed.status", rule "admin.reembed.status" system);
   ("admin.reembed.abort", rule "admin.reembed.abort" system)] ++
  map (fun m => (m, human_rule (rule (if String.eqb m "dreams.learn.run" then "jobs.run" else "agent.list") system))) ["dreams.learn.run"; "dreams.learn.status"; "dreams.learn.list"; "dreams.learn.get"; "dreams.learn.decide"; "dreams.learn.rollback"; "dreams.learn.calibration"] ++
  [("dreams.run", rule "jobs.run" system);
   ("dreams.schedule.set", rule "settings.write" system);
   ("dreams.enable", rule "settings.write" system);
   ("dreams.disable", rule "settings.write" system);
   ("dreams.diary", rule "agent.manage" agent);
   ("admin.backup.snapshot", rule "admin.backup.snapshot" system);
   ("logs.query", rule "logs.query" system);
   ("logs.tail", rule "logs.query" system);
   ("logs.levels", rule "logs.query" system);
   ("audit.verify", rule "audit.read" system);
   ("identity.list", human_rule (rule "users.read" system));
   ("identity.human.create", human_rule (rule "users.manage" system));
   ("identity.link", human_rule (rule "users.manage" system));
   ("identity.unlink", human_rule (rule "users.manage" system));
   ("identity.pair.start", human_rule (rule "users.manage" system));
   ("identity.pair.claim", human_rule (rule "users.manage" system));
   ("identity.pair.confirm", human_rule (rule "users.manage" system));
   ("model.memory.status", human_rule (rule "settings.write" system));
   ("model.licence.confirm", human_rule (rule "settings.write" system));
   ("model.licence.list", human_rule (rule "settings.write" system));
   ("model.licence.check", human_rule (rule "settings.write" system));
   ("grant.list", rule "grant.read" system);
   ("grant.get", rule "grant.read" system);
   ("grant.create", rule "grant.write" system);
   ("grant.revoke", rule "grant.write" system);
   ("approval.list", rule "approval.read" system);
   ("approval.get", rule "approval.read" system);
   ("approval.verify", rule "approval.read" system);
   ("approval.audit", rule "approval.read" system);
   ("approval.decide", rule "approval.decide" system);
   ("approval.cancel", rule "approval.decide" system);
   ("memory.recall", rule "memory.workspace.read" workspace);
   ("memory.capture", rule "memory.workspace.write" workspace);
   ("memory.sensitivity.get", rule "memory.sensitivity.read" agent);
   ("memory.sensitivity.set", rule "memory.sensitivity.write" agent);
   ("memory.sensitivity.clear", rule "memory.sensitivity.write" agent);
   ("external.turn.start", rule "agent.use" agent);
   ("external.turn.events", rule "agent.read" agent);
   ("external.turn.get", rule "agent.read" agent);
   ("external.turn.cancel", rule "agent.use" agent)].

Definition RPC_RULES : list (string * RpcRule) := RPC_RULES_admin ++ RPC_RULES_rest.

(** [Object.entries(rules)] read by key; the table has no key twice. *)
Definition rule_for (rules : list (string * RpcRule)) (m : string) : option RpcRule :=
  snd <$> bfind (fun e => String.eqb e.1 m) rules.

(** ** Calls *)

(** What the transport knows of the connection: the forwarded API principal
    ([undefined] for no API connection, [null] for the API service itself) and
    whether it is a client context. *)
Inductive ApiIdentity : Type := ApiNone | ApiService | ApiPerson.
#[export] Instance ApiIdentity_eq_dec : EqDecision ApiIdentity.
Proof. solve_decision. Defined.

Record CallContext : Type := { ctx_id : string; apiPrincipal : ApiIdentity; isClientContext : bool }.

(** A thrown value: an [RpcError] with its code and reason, or anything else. *)
Inductive thrown : Type := RpcError (code reason : string) | OtherError (message : string).

(* @src rbac/audit.ts 7 13 AuditEvent *)
Record AuditEvent : Type := {
  ev_at : Z; ev_user : string; ev_host : string; ev_action : string; ev_target : string;
  ev_detail : list (string * js)
}.

(** The guard's own state: the audit lines written, the [authenticated] map, the
    number of clock readings so far, and the state [A] of the wrapped handlers. *)
Record GuardState (A : Type) : Type := {
  g_log : list AuditEvent; g_auth : gmap string Principal; g_ticks : nat; g_app : A
}.
Arguments g_log {A}. Arguments g_auth {A}. Arguments g_ticks {A}. Arguments g_app {A}.

Definition set_auth {A} (f : gmap string Principal -> gmap string Principal) (s : GuardState A) : GuardState A :=
  {| g_log := g_log s; g_auth := f (g_auth s); g_ticks := g_ticks s; g_app := g_app s |}.

(** A handler reads the params and its context, and may throw. *)
Definition Handler (A : Type) : Type := js -> CallContext -> SE (GuardState A) thrown js.

(* @src rbac/guard.ts 35 41 authenticatedPrincipal *)
Definition authenticatedPrincipal {A} (ctx : CallContext) : SE (GuardState A) thrown Principal :=
  o ← gets (fun s => g_auth s !! ctx_id ctx);
  match o with Some p => mret p | None => throw (RpcError "E_UNAUTHORIZED" "") end.

(** [audit] is absent, or a sink that stores a line or throws. *)
(* @src rbac/guard.ts 357 364 GuardOptions *)
Record GuardOptions (A : Type) : Type := {
  o_resolve : CallContext -> string -> js -> GuardState A -> result thrown (option Principal);
  o_audit : option (list AuditEvent -> AuditEvent -> bool);
  o_now : nat -> Z;
  o_host : string
}.
Arguments o_resolve {A}. Arguments o_audit {A}. Arguments o_now {A}. Arguments o_host {A}.

Definition deny_name (d : DenyReason) : string :=
  match d with
  | Unauthenticated => "unauthenticated" | InvalidPrincipal => "invalid-principal"
  | UnknownAction => "unknown-action" | ResourceMismatch => "resource-mismatch"
  | TokenScope => "token-scope" | RoleDenied => "role-denied" | NotOwner => "not-owner"
  | ObjectRightRequired => "object-right-required" | BreakGlassRequired => "break-glass-required"
  | AuditFailed => "audit-failed" | AgentPrincipal => "agent-principal"
  end.

Definition tick {A} (now : nat -> Z) : SE (GuardState A) thrown Z := fun s =>
  (Ok (now (g_ticks s)), {| g_log := g_log s; g_auth := g_auth s; g_ticks := S (g_ticks s); g_app := g_app s |}).

Section guard.
Context {A : Type} (o : GuardOptions A).

(** The line is lost when the sink refuses it; the refusal of the call stands. *)
(* @src rbac/guard.ts 369 371 record *)
Definition record (act user target : string) (detail : list (string * js)) : SE (GuardState A) thrown unit :=
  match o_audit o with
  | None => mret tt
  | Some accepts =>
      now ← tick (o_now o);
      let e := {| ev_at := now; ev_user := user; ev_host := o_host o; ev_action := act; ev_target := target; ev_detail := detail |} in
      modify (fun s => if accepts (g_log s) e
                       then {| g_log := g_log s ++ [e]; g_auth := g_auth s; g_ticks := g_ticks s; g_app := g_app s |}
                       else s)
  end.

Definition scopes_include (p : Principal) (l : list string) : bool :=
  match p_tokenScopes p with Some sc => existsb (includes sc) l | None => false end.

(* @src rbac/guard.ts 305 355 authorizeMemoryFallback *)
Definition authorizeMemoryFallback (method : string) (p : Principal) (params : js) (ctx : CallContext)
    (now : option num) : option Decision :=
  let agentId := if is_empty (field params "agentId") then default "" (bindingAgentId p) else field params "agentId" in
  let noScope := with_scopes p None in
  let try_ q a r := let d := authorize (Some q) a (Some r) now in if is_allow d then Some d else None in
  let or_else (x : option Decision) (k : option Decision) := match x with Some d => Some d | None => k end in
  or_else (if String.eqb method "external.turn.start" || String.eqb method "external.turn.cancel" then
             if scopes_include p ["a2a.task"; "mcp.write"; "mcp:call"]
             then try_ noScope "agent.use" (ResAgent agentId) else None
           else None)
  (or_else (if String.eqb method "external.turn.events" || String.eqb method "external.turn.get" then
             if scopes_include p ["a2a.task"; "mcp.read"; "mcp:call"]
             then try_ noScope "agent.read" (ResAgent agentId) else None
           else None)
  (if String.eqb method "memory.recall" then
     or_else (if isClientContext ctx then try_ p "agent.use" (ResAgent agentId) else None)
     (if negb (is_allow (authorize (Some noScope) "agent.use" (Some (ResAgent agentId)) now)) then None
      else or_else (try_ p "memory.workspace.read" (ResMemoryAgent Workspace agentId))
          (or_else (try_ p "memory.user.read" (ResMemoryUser (userId p)))
                   (try_ p "memory.agent-private.read" (ResMemoryAgent AgentPrivate agentId))))
   else if String.eqb method "memory.capture" then
     or_else (if isClientContext ctx then try_ p "agent.use" (ResAgent agentId) else None)
     (if negb (is_allow (authorize (Some noScope) "agent.use" (Some (ResAgent agentId)) now)) then None
      else or_else (try_ p "memory.user.write" (ResMemoryUser (userId p)))
                   (try_ p "memory.agent-private.write" (ResMemoryAgent AgentPrivate agentId)))
   else None)).

(** The decision on a resolved principal. *)
(* @src rbac/guard.ts 393 398 guardMethods *)
Definition guard_decision (r : RpcRule) (method : string) (params : js) (ctx : CallContext) (p : Principal)
    (now : option num) : Decision :=
  let d := if r_humanOnly r && negb (bool_decide (kind p = Some "person"))
           then RDeny AgentPrincipal
           else authorize (Some p) (r_action r) (Some (r_resource r params)) now in
  match d with
  | RDeny TokenScope => default d (authorizeMemoryFallback method p params ctx now)
  | _ => d
  end.

(** [try { inner } finally { authenticated.delete(ctx) }] *)
Definition with_auth (ctx : CallContext) (p : Principal) (m : SE (GuardState A) thrown js) : SE (GuardState A) thrown js :=
  fun s => let '(v, s') := m (set_auth <[ctx_id ctx := p]> s) in (v, set_auth (delete (ctx_id ctx)) s').

(* @src rbac/guard.ts 376 407 guardMethods *)
Definition guarded (r : RpcRule) (method : string) (inner : Handler A) : Handler A := fun params ctx =>
  if r_apiServiceOnly r then
    if negb (bool_decide (apiPrincipal ctx = ApiService)) then throw (RpcError "E_DENIED" "api-service-only")
    else inner params ctx
  else
    resolved ← gets (o_resolve o ctx method params);
    match resolved with
    | Err (RpcError "E_DENIED" "person-disabled") => throw (RpcError "E_DENIED" "person-disabled")
    | Err _ =>
        _ ← record "rbac.unauthenticated" "anonymous" method [("action", JStr (r_action r)); ("reason", JStr "resolver-failed")];
        throw (RpcError "E_UNAUTHORIZED" "resolver-failed")
    | Ok None =>
        _ ← record "rbac.unauthenticated" "anonymous" method [("action", JStr (r_action r)); ("reason", JStr "no-principal")];
        throw (RpcError "E_UNAUTHORIZED" "no-principal")
    | Ok (Some p) =>
        now ← tick (o_now o);
        match guard_decision r method params ctx p (Some (Fin now)) with
        | RDeny why =>
            _ ← record "rbac.denied" (if is_empty (userId p) then "anonymous" else userId p) method
                  [("action", JStr (r_action r)); ("reason", JStr (deny_name why)); ("role", JStr (role p))];
            throw (RpcError "E_DENIED" (deny_name why))
        | RAllow _ => with_auth ctx p (inner params ctx)
        end
    end.

(* @src rbac/guard.ts 366 410 guardMethods *)
Definition guardMethods (rules : list (string * RpcRule)) (handlers : list (string * Handler A)) : list (string * Handler A) :=
  map (fun e => match rule_for rules e.1 with
                | Some r => (e.1, guarded r e.1 e.2)
                | None => e
                end) handlers.
End guard.

(** ** What a refusal leaves alone *)

Section guard_facts.
Context {A : Type} (o : GuardOptions A).

(** A call that did not reach its handler: only the audit log and the clock moved. *)
Definition untouched (s s' : GuardState A) : Prop := g_auth s' = g_auth s /\ g_app s' = g_app s.

Lemma record_outcome act u t d (s : GuardState A) :
  exists s', record o act u t d s = (Ok tt, s') /\ untouched s s'.
Proof.
  unfold record. destruct (o_audit o) as [acc|]; [|exists s; done].
  unfold mbind, SE_bind, tick, modify. eexists. split; [reflexivity|]. unfold untouched. simpl.
  destruct (acc _ _); done.
Qed.

Lemma record_then_throw act u t d (e : thrown) (s : GuardState A) :
  exists s', (_ ← record o act u t d; throw e) s = ((Err e : result thrown js), s') /\ untouched s s'.
Proof.
  destruct (record_outcome act u t d s) as (s' & H & Hu). exists s'. split; [|done].
  unfold mbind, SE_bind. by rewrite H.
Qed.

Lemma fallback_allow m p params ctx now d :
  authorizeMemoryFallback m p params ctx now = Some d -> is_allow d = true.
Proof. unfold authorizeMemoryFallback. cbv zeta. intros H. by repeat case_match; simplify_eq. Qed.

(** An allow by the guard is an allow of the rule's action, or of the fallback. *)
Definition admitted (r : RpcRule) (m : string) (params : js) (ctx : CallContext) (p : Principal) (now : option num) : Prop :=
  (r_humanOnly r = true -> kind p = Some "person") /\
  (is_allow (authorize (Some p) (r_action r) (Some (r_resource r params)) now) = true \/
   (authorize (Some p) (r_action r) (Some (r_resource r params)) now = RDeny TokenScope /\
    exists d, authorizeMemoryFallback m p params ctx now = Some d)).

Lemma guard_decision_allow r m params ctx p now :
  is_allow (guard_decision r m params ctx p now) = true <-> admitted r m params ctx p now.
Proof.
  unfold guard_decision, admitted.
  destruct (r_humanOnly r && negb (bool_decide (kind p = Some "person"))) eqn:E.
  { bool_hyps. split; [discriminate|]. intros [H1 _]. exfalso. auto. }
  assert (Hk : r_humanOnly r = true -> kind p = Some "person").
  { intros Hr. rewrite Hr in E. simpl in E. by bool_hyps. }
  destruct (authorize (Some p) (r_action r) (Some (r_resource r params)) now) as [why|[]]; simpl;
    try (split; [discriminate|intros (_ & [?|[? _]]); discriminate]).
  - split; [intros _; split; [exact Hk|by left]|done].
  - destruct (authorizeMemoryFallback m p params ctx now) as [d|] eqn:F; simpl.
    + split; [intros _; split; [exact Hk|right; eauto]|]. intros _. by eapply fallback_allow.
    + split; [discriminate|]. intros (_ & [?|(_ & d & ?)]); discriminate.
Qed.
End guard_facts.
