(* ===== verification/RbacGuardProps.v ===== *)
(** * The RPC guard: properties *)

From S2P Require Import Prelude Rbac RbacProps RbacGuard.

(** ** The table *)

(** Each rule builds its resource with one of the three builders of the file. *)
Inductive builder : (js -> Resource) -> ResourceShape -> Prop :=
| by_system : builder system RSystem
| by_agent : builder agent RAgent
| by_workspace : builder workspace RMemWorkspace.

Lemma builder_shape f sh params : builder f sh -> shapeOf (f params) = sh.
Proof. by destruct 1. Qed.

Definition rule_typed (e : string * RpcRule) : Prop :=
  exists s, policyFor (r_action e.2) = Some s /\ builder (r_resource e.2) (resource s).

Lemma policyFor_typed a s f :
  policyFor a = Some s -> builder f (resource s) -> exists s, policyFor a = Some s /\ builder f (resource s).
Proof. eauto. Qed.

Lemma rules_typed : List.Forall rule_typed RPC_RULES.
Proof.
  unfold RPC_RULES, RPC_RULES_admin, RPC_RULES_rest. cbn [map app].
  repeat (apply List.Forall_cons; [eapply policyFor_typed; [vm_compute; reflexivity|constructor]|]).
  apply List.Forall_nil.
Qed.

Lemma rule_methods_distinct : NoDup (map fst RPC_RULES).
Proof. apply (bool_decide_unpack _). vm_compute. reflexivity. Qed.

(** ** The wrapper *)

(** Whether a resolver error is passed on unrecorded. *)
Definition person_disabled (e : thrown) : bool :=
  match e with RpcError c w => String.eqb c "E_DENIED" && String.eqb w "person-disabled" | _ => false end.

Section wrapper.
Context {A : Type} (o : GuardOptions A).

(** Only the guard's own bookkeeping ran, and the call was refused. *)
Definition refused (code : string) (out : result thrown js * GuardState A) (s : GuardState A) : Prop :=
  exists why, out.1 = Err (RpcError code why) /\ untouched s out.2.

Lemma refused_record code why act u t d s :
  refused code ((_ ← record o act u t d; throw (RpcError code why)) s) s.
Proof.
  destruct (record_then_throw o act u t d (RpcError code why) s) as (s' & -> & Hu).
  exists why. done.
Qed.

(** The three ways out of a guarded call that is not for the API service. *)
Lemma guarded_cases r m inner params ctx (s : GuardState A) :
  r_apiServiceOnly r = false ->
  (forall p, o_resolve o ctx m params s = Ok (Some p) ->
     let now := Some (Fin (o_now o (g_ticks s))) in
     let s1 := {| g_log := g_log s; g_auth := g_auth s; g_ticks := S (g_ticks s); g_app := g_app s |} in
     (admitted r m params ctx p now /\
      guarded o r m inner params ctx s = with_auth ctx p (inner params ctx) s1) \/
     (~ admitted r m params ctx p now /\ refused "E_DENIED" (guarded o r m inner params ctx s) s)) /\
  (o_resolve o ctx m params s = Ok None -> refused "E_UNAUTHORIZED" (guarded o r m inner params ctx s) s) /\
  (forall e, o_resolve o ctx m params s = Err e ->
     refused (if person_disabled e then "E_DENIED" else "E_UNAUTHORIZED") (guarded o r m inner params ctx s) s).
Proof.
  intros Hapi. unfold guarded. rewrite Hapi. split; [|split].
  - intros p Hp. cbv zeta. erewrite !SE_bind_run by reflexivity. rewrite Hp.
    erewrite !SE_bind_run by reflexivity.
    pose proof (guard_decision_allow r m params ctx p (Some (Fin (o_now o (g_ticks s))))) as Hd.
    destruct (guard_decision r m params ctx p _) as [why|why].
    + left. split; [by apply Hd|reflexivity].
    + right. split; [by rewrite <- Hd|].
      destruct (refused_record "E_DENIED" (deny_name why) "rbac.denied"
        (if is_empty (userId p) then "anonymous" else userId p) m
        [("action", JStr (r_action r)); ("reason", JStr (deny_name why)); ("role", JStr (role p))]
        {| g_log := g_log s; g_auth := g_auth s; g_ticks := S (g_ticks s); g_app := g_app s |}) as (w & H1 & H2).
      exists w. split; [exact H1|exact H2].
  - intros Hp. erewrite SE_bind_run by reflexivity. rewrite Hp. apply refused_record.
  - intros e He. erewrite SE_bind_run by reflexivity. rewrite He.
    destruct e as [c w|w]; [|apply refused_record].
    unfold person_disabled. destruct (String.eqb c "E_DENIED" && String.eqb w "person-disabled") eqn:E.
    + bool_hyps. subst. exists "person-disabled". done.
    + repeat case_match; try apply refused_record. subst. discriminate.
Qed.
End wrapper.

(** ** Properties *)

(** (C36) Every rule of the guard's table can be met: no method is ruled twice, each
    rule names an action of the policy, and the resource it builds from any
    params has the shape that action demands, so a ruled call is never refused
    for an unknown action or a mismatched resource kind. *)
Theorem rpc_rules_match_policy :
  NoDup (map fst RPC_RULES) /\
  forall m r params, (m, r) ∈ RPC_RULES ->
    exists s, policyFor (r_action r) = Some s /\ shapeOf (r_resource r params) = resource s.
Proof.
  split; [exact rule_methods_distinct|]. intros m r params Hin.
  pose proof rules_typed as H. rewrite List.Forall_forall in H. apply list_elem_of_In in Hin.
  destruct (H _ Hin) as (s & Hs & Hb). exists s. split; [done|]. by apply builder_shape.
Qed.

(** (C37) The guard lets a handler run only for a caller it admits. Under a rule of the table's ordinary kind a guarded
    call either runs the handler, exactly once, as the resolved principal (and clears that identity when it returns or
    throws), which happens precisely when that principal is admitted; or it throws [E_UNAUTHORIZED] or [E_DENIED] with
    the handler's state and the identity map untouched. Under one of the rules for the API service itself, which
    resolve no principal, the handler runs as it is precisely when the caller is the API service, and any other call
    throws [E_DENIED] and changes nothing. *)
Theorem guard_admits_exactly A (o : GuardOptions A) r m inner params ctx s :
  if r_apiServiceOnly r then
    (apiPrincipal ctx = ApiService -> guarded o r m inner params ctx s = inner params ctx s) /\
    (apiPrincipal ctx <> ApiService -> guarded o r m inner params ctx s = (Err (RpcError "E_DENIED" "api-service-only"), s))
  else
    (exists p v s', o_resolve o ctx m params s = Ok (Some p) /\
       admitted r m params ctx p (Some (Fin (o_now o (g_ticks s)))) /\
       inner params ctx {| g_log := g_log s; g_auth := <[ctx_id ctx := p]> (g_auth s);
                           g_ticks := S (g_ticks s); g_app := g_app s |} = (v, s') /\
       guarded o r m inner params ctx s = (v, set_auth (delete (ctx_id ctx)) s')) \/
    ((forall p, o_resolve o ctx m params s = Ok (Some p) ->
        ~ admitted r m params ctx p (Some (Fin (o_now o (g_ticks s))))) /\
     (refused "E_UNAUTHORIZED" (guarded o r m inner params ctx s) s \/
      refused "E_DENIED" (guarded o r m inner params ctx s) s)).
Proof.
  destruct (r_apiServiceOnly r) eqn:Hapi.
  { unfold guarded. rewrite Hapi. by split; intros H; [rewrite bool_decide_eq_true_2|rewrite bool_decide_eq_false_2]. }
  destruct (guarded_cases o r m inner params ctx s Hapi) as (HS & HN & HE).
  destruct (o_resolve o ctx m params s) as [[p|]|e] eqn:Er.
  - destruct (HS p eq_refl) as [[Ha Hg]|[Ha Hg]].
    + left. unfold with_auth, set_auth in Hg. cbn [g_log g_auth g_ticks g_app] in Hg.
      destruct (inner params ctx _) as [v s'] eqn:Ei in Hg. exists p, v, s'. done.
    + right. split; [intros ? [= <-]; done|by right].
  - right. split; [discriminate|]. left. by apply HN.
  - right. split; [discriminate|]. specialize (HE e eq_refl). destruct (person_disabled e); auto.
Qed.

(** No agent runs a human-only method: for a rule marked human-only, and for
    every rule of the table whose action the policy keeps for people, a guarded
    call by a principal that is not a person is refused with [E_DENIED] before
    the handler runs, whatever its role, scopes, rights or parameters. *)
Theorem guard_blocks_agents A (o : GuardOptions A) r m inner params ctx s p :
  r_apiServiceOnly r = false ->
  r_humanOnly r = true \/ (exists sp, policyFor (r_action r) = Some sp /\ human_only sp = true) ->
  o_resolve o ctx m params s = Ok (Some p) -> kind p <> Some "person" ->
  refused "E_DENIED" (guarded o r m inner params ctx s) s.
Proof.
  intros Hapi Hh Hr Hk. destruct (guarded_cases o r m inner params ctx s Hapi) as (HS & _).
  destruct (HS p Hr) as [[[H1 H2] _]|[_ H]]; [exfalso|exact H].
  destruct Hh as [Hh|(sp & Hsp & Hh)]; [auto|].
  assert (Hd : forall b, authorize (Some p) (r_action r) (Some (r_resource r params)) b = RDeny InvalidPrincipal \/
                         authorize (Some p) (r_action r) (Some (r_resource r params)) b = RDeny AgentPrincipal).
  { intros b. unfold authorize. rewrite Hsp, Hh, (bool_decide_eq_false_2 _ Hk). cbn [negb andb].
    repeat case_match; auto. }
  destruct (Hd (Some (Fin (o_now o (g_ticks s))))) as [E|E]; rewrite E in H2;
    destruct H2 as [H2|[H2 _]]; discriminate.
Qed.

(** The token-scope fallback lends no rights: it serves six methods only, it
    allows only what some [authorize] call allowed, and for whatever it allows
    the same principal without token scopes may use (or, for reading an external
    turn, read) the very agent the call names. *)
Theorem fallback_within_rights m p params ctx now d :
  authorizeMemoryFallback m p params ctx now = Some d ->
  let agentId := if is_empty (field params "agentId") then default "" (bindingAgentId p) else field params "agentId" in
  is_allow d = true /\
  (m ∈ ["external.turn.start"; "external.turn.cancel"; "memory.recall"; "memory.capture"] /\
     is_allow (authorize (Some (with_scopes p None)) "agent.use" (Some (ResAgent agentId)) now) = true \/
   m ∈ ["external.turn.events"; "external.turn.get"] /\
     is_allow (authorize (Some (with_scopes p None)) "agent.read" (Some (ResAgent agentId)) now) = true).
Proof.
  intros H. cbv zeta. split; [by eapply fallback_allow|].
  assert (Hu : forall a r, is_allow (authorize (Some p) a (Some r) now) = true ->
                 is_allow (authorize (Some (with_scopes p None)) a (Some r) now) = true).
  { intros a r Ha. apply is_allow_some in Ha as [why Ha]. apply authorize_allow_inv in Ha as (rl & sp & Hp & Hf).
    apply is_allow_some. exists why. eapply authorize_passes; [|rewrite first_grant_scopes; exact Hf].
    apply passes_scopes; [exact Hp|discriminate]. }
  unfold authorizeMemoryFallback in H. cbv zeta in H.
  set (id := if is_empty (field params "agentId") then _ else _) in *. clearbody id.
  set (use := authorize (Some (with_scopes p None)) "agent.use" (Some (ResAgent id)) now) in *.
  set (read := authorize (Some (with_scopes p None)) "agent.read" (Some (ResAgent id)) now) in *.
  clearbody read.
  destruct (String.eqb m "external.turn.start" || String.eqb m "external.turn.cancel") eqn:E1.
  { apply orb_true_iff in E1. left. split; [destruct E1; bool_hyps; subst; set_solver|].
    assert (E : m = "external.turn.start" \/ m = "external.turn.cancel") by (destruct E1; bool_hyps; auto).
    destruct E; subst; cbn [String.eqb Ascii.eqb Bool.eqb orb] in H; repeat case_match; simplify_eq; done. }
  destruct (String.eqb m "external.turn.events" || String.eqb m "external.turn.get") eqn:E2.
  { apply orb_true_iff in E2. right. split; [destruct E2; bool_hyps; subst; set_solver|].
    assert (E : m = "external.turn.events" \/ m = "external.turn.get") by (destruct E2; bool_hyps; auto).
    destruct E; subst; cbn [String.eqb Ascii.eqb Bool.eqb orb] in H; repeat case_match; simplify_eq; done. }
  left. split.
  { destruct (String.eqb m "memory.recall") eqn:E3; [bool_hyps; subst; set_solver|].
    destruct (String.eqb m "memory.capture") eqn:E4; [bool_hyps; subst; set_solver|discriminate]. }
  destruct (is_allow use) eqn:Eu; [done|].
  assert (Ep : is_allow (authorize (Some p) "agent.use" (Some (ResAgent id)) now) = false).
  { apply not_true_iff_false. intros Ha. unfold use in Eu. by rewrite (Hu _ _ Ha) in Eu. }
  clearbody use. rewrite Ep in H. cbn [negb] in H. by repeat case_match; simplify_eq.
Qed.

(** ** Witnesses *)

Definition demo_guard (p : Principal) : GuardOptions nat :=
  {| o_resolve := fun _ _ _ _ => Ok (Some p); o_audit := Some (fun _ _ => true);
     o_now := fun n => Z.of_nat n; o_host := "local" |}.

Definition demo_state : GuardState nat := {| g_log := []; g_auth := ∅; g_ticks := 0; g_app := 0%nat |}.
Definition demo_ctx : CallContext := {| ctx_id := "c1"; apiPrincipal := ApiNone; isClientContext := false |}.

(** A handler that counts its runs. *)
Definition demo_handler : Handler nat := fun _ _ s =>
  (Ok JNull, {| g_log := g_log s; g_auth := g_auth s; g_ticks := g_ticks s; g_app := S (g_app s) |}).

Definition demo_agent : Principal :=
  {| userId := "u1"; kind := Some "agent"; role := "owner"; agentRights := None; projectRights := None;
     p_tokenScopes := Some ["memory.recall"; "memory.workspace.read"]; bindingAgentId := Some "a1"; breakGlass := [] |}.

Lemma guard_admits_exactly_witness :
  (guarded (demo_guard (demo_person Owner)) (rule "agent.use" agent) "chat.send" demo_handler
     (JObj [("agentId", JStr "a1")]) demo_ctx demo_state).1 = Ok JNull.
Proof.
  destruct (guard_admits_exactly nat (demo_guard (demo_person Owner)) (rule "agent.use" agent) "chat.send"
    demo_handler (JObj [("agentId", JStr "a1")]) demo_ctx demo_state) as [(p & v & s' & _ & _ & Hi & Hg)|[H _]].
  - rewrite Hg. simpl. injection Hi as <- _. reflexivity.
  - exfalso. apply (H (demo_person Owner) eq_refl). apply guard_decision_allow. vm_compute. reflexivity.
Defined.

Lemma guard_blocks_agents_witness :
  refused "E_DENIED" (guarded (demo_guard demo_agent) (human_rule (rule "imports.manage" system)) "admin.import.apply"
     demo_handler JNull demo_ctx demo_state) demo_state.
Proof.
  apply (guard_blocks_agents nat (demo_guard demo_agent) _ _ _ _ _ _ demo_agent); [reflexivity|left; reflexivity|reflexivity|].
  vm_compute. discriminate.
Defined.

Lemma fallback_within_rights_witness :
  is_allow (authorize (Some (with_scopes demo_agent None)) "agent.use" (Some (ResAgent "a1")) None) = true.
Proof.
  destruct (fallback_within_rights "memory.recall" demo_agent JNull demo_ctx None (RAllow ByRole)) as [_ [[_ H]|[H _]]].
  - vm_compute. reflexivity.
  - exact H.
  - vm_compute. reflexivity.
Defined.
