(* ===== verification/BreakGlass.v ===== *)
(** * The break-glass registry

    Model of [packages/core/src/rbac/break-glass.ts].  The registry's [Map] is a
    list in insertion order; the clock and the id generator are arbitrary streams
    read by index; the audit sink and the notifier may refuse any line or notice. *)

From S2P Require Import Prelude Rbac RbacProps RbacGuard.

(* @src rbac/break-glass.ts 9 9 MIN_REASON_CHARS *)
Definition MIN_REASON_CHARS : Z := 10.
(* @src rbac/break-glass.ts 10 10 MAX_REASON_CHARS *)
Definition MAX_REASON_CHARS : Z := 500.
(* @src rbac/break-glass.ts 11 11 DEFAULT_TTL_MS *)
Definition DEFAULT_TTL_MS : Z := 15 * 60000.
(* @src rbac/break-glass.ts 12 12 MIN_TTL_MS *)
Definition MIN_TTL_MS : Z := 60000.
(* @src rbac/break-glass.ts 13 13 MAX_TTL_MS *)
Definition MAX_TTL_MS : Z := 60 * 60000.

(* @src rbac/break-glass.ts 15 23 BreakGlassNotice *)
Record BreakGlassNotice : Type := {
  n_userId : string; n_grantId : string; n_holderUserId : string; n_reason : string; n_expiresAt : Z
}.

(* @src rbac/break-glass.ts 25 29 BreakGlassErrorCode *)
Inductive BreakGlassErrorCode : Type :=
  NotPermitted | InvalidTarget | SelfTarget | ReasonRequired | TtlInvalid | AuditRefused | UnknownGrant | NotificationFailed.

Record Limits : Type := { reasonMinChars : Z; reasonMaxChars : Z; maxWindowMinutes : Z }.

(* @src rbac/break-glass.ts 31 41 BreakGlassOptions *)
Record BreakGlassOptions : Type := {
  bo_audit : list AuditEvent -> AuditEvent -> bool;
  bo_limits : option Limits;
  bo_notify : list BreakGlassNotice -> BreakGlassNotice -> option string;
  requireNotification : bool;
  bo_clock : nat -> Z;
  bo_idGen : nat -> string;
  bo_host : string
}.

(** The closure's state, with the lines audited and the notices delivered. *)
Record Registry : Type := {
  bg_grants : list BreakGlassGrant; bg_log : list AuditEvent; bg_notices : list BreakGlassNotice;
  bg_ticks : nat; bg_ids : nat
}.

Definition empty_registry : Registry :=
  {| bg_grants := []; bg_log := []; bg_notices := []; bg_ticks := 0; bg_ids := 0 |}.

Definition set_grants (f : list BreakGlassGrant -> list BreakGlassGrant) (s : Registry) : Registry :=
  {| bg_grants := f (bg_grants s); bg_log := bg_log s; bg_notices := bg_notices s; bg_ticks := bg_ticks s; bg_ids := bg_ids s |}.

(** [Map.set]: a key already present keeps its place. *)
Definition map_set (g : BreakGlassGrant) (l : list BreakGlassGrant) : list BreakGlassGrant :=
  if existsb (fun h => String.eqb (bg_id h) (bg_id g)) l
  then map (fun h => if String.eqb (bg_id h) (bg_id g) then g else h) l
  else l ++ [g].

(** [Map.delete] *)
Definition map_delete (id : string) (l : list BreakGlassGrant) : list BreakGlassGrant :=
  bfilter (fun h => negb (String.eqb (bg_id h) id)) l.

(** [Map.get] *)
Definition map_get (id : string) (l : list BreakGlassGrant) : option BreakGlassGrant :=
  bfind (fun h => String.eqb (bg_id h) id) l.

Section registry.
Context (o : BreakGlassOptions).
Notation M := (SE Registry BreakGlassErrorCode).

Definition clock : M Z := fun s =>
  (Ok (bo_clock o (bg_ticks s)),
   {| bg_grants := bg_grants s; bg_log := bg_log s; bg_notices := bg_notices s; bg_ticks := S (bg_ticks s); bg_ids := bg_ids s |}).

Definition fresh_id : M string := fun s =>
  (Ok (bo_idGen o (bg_ids s)),
   {| bg_grants := bg_grants s; bg_log := bg_log s; bg_notices := bg_notices s; bg_ticks := bg_ticks s; bg_ids := S (bg_ids s) |}).

(** Throws when the sink refuses the line. *)
(* @src rbac/break-glass.ts 61 62 record *)
Definition audit (act actor target : string) (detail : list (string * js)) : M unit :=
  now ← clock;
  let e := {| ev_at := now; ev_user := actor; ev_host := bo_host o; ev_action := act; ev_target := target; ev_detail := detail |} in
  ok ← gets (fun s => bo_audit o (bg_log s) e);
  _ ← require ok AuditRefused;
  modify (fun s => {| bg_grants := bg_grants s; bg_log := bg_log s ++ [e]; bg_notices := bg_notices s;
                      bg_ticks := bg_ticks s; bg_ids := bg_ids s |}).

Definition notify (n : BreakGlassNotice) : SE Registry string unit := fun s =>
  match bo_notify o (bg_notices s) n with
  | None => (Ok tt, {| bg_grants := bg_grants s; bg_log := bg_log s; bg_notices := bg_notices s ++ [n];
                       bg_ticks := bg_ticks s; bg_ids := bg_ids s |})
  | Some message => (Err message, s)
  end.

Definition num_detail (z : Z) : js := JNum (Fin z).

(** One [break-glass.expired] line per lapsed grant; a grant whose line is refused
    stays for the next sweep. *)
(* @src rbac/break-glass.ts 67 73 sweep *)
Definition sweep_one (now : Z) (n : Z) (g : BreakGlassGrant) : M Z :=
  if now <? bg_expiresAt g then mret n
  else catch (_ ← audit "break-glass.expired" "system" (targetUserId g)
                    [("grantId", JStr (bg_id g)); ("holderUserId", JStr (holderUserId g)); ("expiresAt", num_detail (bg_expiresAt g))];
              _ ← modify (set_grants (map_delete (bg_id g)));
              mret (n + 1))
             (fun _ => mret n).

Fixpoint sweep_all (now : Z) (n : Z) (l : list BreakGlassGrant) : M Z :=
  match l with
  | [] => mret n
  | g :: r => n' ← sweep_one now n g; sweep_all now n' r
  end.

(* @src rbac/break-glass.ts 64 75 sweep *)
Definition sweep : M Z :=
  now ← clock;
  gs ← gets bg_grants;
  sweep_all now 0 gs.

(* @src rbac/break-glass.ts 77 80 live *)
Definition live (holder : string) : M (list BreakGlassGrant) :=
  now ← clock;
  gets (fun s => bfilter (fun g => String.eqb (holderUserId g) holder && (now <? bg_expiresAt g)) (bg_grants s)).

(* @src rbac/break-glass.ts 84 84 active *)
Definition active (holder : string) : M (list BreakGlassGrant) := _ ← sweep; live holder.

Definition not_a_person (k : option string) : bool :=
  match k with Some k => negb (String.eqb k "person") | None => false end.

Definition limits : Limits :=
  default {| reasonMinChars := MIN_REASON_CHARS; reasonMaxChars := MAX_REASON_CHARS; maxWindowMinutes := MAX_TTL_MS / 60000 |}
    (bo_limits o).

Definition maxTtlMs : Z := maxWindowMinutes limits * 60000.

(** [req.ttlMs ?? Math.min(DEFAULT_TTL_MS, maxTtlMs)] *)
Definition ttl_of (req : js) : js :=
  match jget "ttlMs" req with
  | JUndef | JNull => JNum (Fin (Z.min DEFAULT_TTL_MS maxTtlMs))
  | v => v
  end.

(* @src rbac/break-glass.ts 86 119 request *)
Definition request (holder : option Principal) (req : js) : M BreakGlassGrant :=
  let target := js_str (jget "targetUserId" req) in
  _ ← require (negb (is_empty target)) InvalidTarget;
  _ ← require (match holder with Some p => negb (not_a_person (kind p)) | None => true end) NotPermitted;
  now ← clock;
  _ ← require (is_allow (authorize holder "breakglass.request" (Some (ResUser target)) (Some (Fin now)))) NotPermitted;
  match holder with
  | None => throw NotPermitted
  | Some p =>
      _ ← require (negb (String.eqb target (userId p))) SelfTarget;
      let reason := trim (js_str (jget "reason" req)) in
      _ ← require (negb ((slen reason <? reasonMinChars limits) || (reasonMaxChars limits <? slen reason))) ReasonRequired;
      match ttl_of req with
      | JNum (Fin ttl) =>
          _ ← require (negb ((ttl <? MIN_TTL_MS) || (maxTtlMs <? ttl))) TtlInvalid;
          _ ← sweep;
          at_ ← clock;
          id ← fresh_id;
          let g := {| bg_id := id; holderUserId := userId p; targetUserId := target; bg_reason := reason;
                      issuedAt := at_; bg_expiresAt := at_ + ttl; bg_revokedAt := None |} in
          _ ← audit "break-glass.granted" (userId p) target
                [("grantId", JStr id); ("reason", JStr reason); ("issuedAt", num_detail at_);
                 ("expiresAt", num_detail (at_ + ttl)); ("ttlMs", num_detail ttl)];
          _ ← modify (set_grants (map_set g));
          _ ← catch (notify {| n_userId := target; n_grantId := id; n_holderUserId := userId p; n_reason := reason;
                               n_expiresAt := at_ + ttl |})
                (fun message =>
                   _ ← (if requireNotification o then modify (set_grants (map_delete id)) else mret tt);
                   _ ← catch (audit "break-glass.notify-failed" (userId p) target [("grantId", JStr id); ("error", JStr message)]) (fun _ => mret tt);
                   if requireNotification o then throw NotificationFailed else mret tt);
          mret g
      | _ => throw TtlInvalid
      end
  end.

(* @src rbac/break-glass.ts 121 129 revoke *)
Definition revoke (actor : option Principal) (grantId : string) : M unit :=
  found ← gets (fun s => map_get grantId (bg_grants s));
  match found with
  | None => throw UnknownGrant
  | Some g =>
      _ ← require (match actor with Some p => negb (not_a_person (kind p)) | None => true end) NotPermitted;
      match actor with
      | None => throw NotPermitted
      | Some p =>
          _ ← require (String.eqb (userId p) (holderUserId g) || String.eqb (role p) "owner") NotPermitted;
          _ ← audit "break-glass.revoked" (userId p) (targetUserId g)
                [("grantId", JStr (bg_id g)); ("holderUserId", JStr (holderUserId g))];
          modify (set_grants (map_delete (bg_id g)))
      end
  end.

Definition with_breakGlass (p : Principal) (l : list BreakGlassGrant) : Principal :=
  {| userId := userId p; kind := kind p; role := role p; agentRights := agentRights p; projectRights := projectRights p;
     p_tokenScopes := p_tokenScopes p; bindingAgentId := bindingAgentId p; breakGlass := l |}.

Definition glass_target (r : option Resource) : string :=
  match r with Some (ResMemoryUser u) => u | _ => "" end.

(** [authorize] with the registry's own live grants; a use is audited or denied. *)
(* @src rbac/break-glass.ts 131 142 authorize *)
Definition authorize_with_glass (p : option Principal) (act : string) (r : option Resource) : M Decision :=
  _ ← sweep;
  now ← clock;
  q ← (match p with
       | Some p => l ← live (userId p); mret (Some (with_breakGlass p l))
       | None => mret None
       end);
  match authorize q act r (Some (Fin now)) with
  | RAllow (ByBreakGlass id) =>
      catch (_ ← audit "break-glass.used" (default "" (userId <$> p)) (glass_target r)
                   [("grantId", JStr id); ("action", JStr act)];
             mret (RAllow (ByBreakGlass id)))
            (fun _ => mret (RDeny AuditFailed))
  | d => mret d
  end.

(** Calls on the registry, in any order. *)
Inductive glass_call : Type :=
| CallRequest (holder : option Principal) (req : js)
| CallRevoke (actor : option Principal) (grantId : string)
| CallSweep
| CallActive (holder : string)
| CallAuthorize (p : option Principal) (act : string) (r : option Resource).

Definition glass_step (s : Registry) (c : glass_call) : Registry :=
  match c with
  | CallRequest h req => (request h req s).2
  | CallRevoke a id => (revoke a id s).2
  | CallSweep => (sweep s).2
  | CallActive h => (active h s).2
  | CallAuthorize p a r => (authorize_with_glass p a r s).2
  end.

Definition glass_run (cs : list glass_call) : Registry := fold_left glass_step cs empty_registry.
End registry.

(** ** What the registry keeps true *)

Section facts.
Context (o : BreakGlassOptions).

(** A line that records the minting of [g]. *)
Definition granted_line (g : BreakGlassGrant) (e : AuditEvent) : Prop :=
  ev_action e = "break-glass.granted" /\ ev_user e = holderUserId g /\ ev_target e = targetUserId g /\
  ("grantId", JStr (bg_id g)) ∈ ev_detail e /\ ("reason", JStr (bg_reason g)) ∈ ev_detail e /\
  ("expiresAt", num_detail (bg_expiresAt g)) ∈ ev_detail e.

(** The shape of every grant the registry mints. *)
Definition well_minted (g : BreakGlassGrant) : Prop :=
  MIN_TTL_MS <= bg_expiresAt g - issuedAt g <= maxTtlMs o /\
  reasonMinChars (limits o) <= slen (bg_reason g) <= reasonMaxChars (limits o) /\
  holderUserId g <> targetUserId g /\ targetUserId g <> "" /\ bg_revokedAt g = None.

Definition told (g : BreakGlassGrant) (n : BreakGlassNotice) : Prop :=
  n_userId n = targetUserId g /\ n_grantId n = bg_id g /\ n_holderUserId n = holderUserId g /\
  n_reason n = bg_reason g /\ n_expiresAt n = bg_expiresAt g.

Definition audited (s : Registry) (g : BreakGlassGrant) : Prop :=
  well_minted g /\ exists e, e ∈ bg_log s /\ granted_line g e.

Definition accounted (s : Registry) (g : BreakGlassGrant) : Prop :=
  audited s g /\ (requireNotification o = true -> exists n, n ∈ bg_notices s /\ told g n).

Definition all_accounted (s : Registry) : Prop := forall g, g ∈ bg_grants s -> accounted s g.

(** A property of the state that only grows with the log and ignores the clock. *)
Definition log_stable (P : Registry -> Prop) : Prop :=
  forall s s', P s -> bg_grants s' = bg_grants s -> bg_ids s' = bg_ids s -> bg_notices s' = bg_notices s ->
    (exists l, bg_log s' = bg_log s ++ l) -> P s'.

Lemma accounted_mono s s' g :
  accounted s g -> (forall e, e ∈ bg_log s -> e ∈ bg_log s') -> (forall n, n ∈ bg_notices s -> n ∈ bg_notices s') ->
  accounted s' g.
Proof. intros [[Hw (e & He & Hl)] Hn] Hlog Hnot. split; [split; [done|eauto]|]. intros Hr. destruct (Hn Hr) as (n & ? & ?). eauto. Qed.

Lemma accounted_stable : log_stable all_accounted.
Proof.
  intros s s' H Hg _ Hn [l Hl] g Hin. rewrite Hg in Hin. eapply accounted_mono; [by apply H| |].
  - intros e He. rewrite Hl. set_solver.
  - intros n. by rewrite Hn.
Qed.

Lemma map_delete_elem g id l : g ∈ map_delete id l <-> g ∈ l /\ bg_id g <> id.
Proof. unfold map_delete. rewrite bfilter_elem, negb_true_iff, String.eqb_neq. done. Qed.

Lemma map_set_elem g h l : h ∈ map_set g l -> h = g \/ h ∈ l.
Proof.
  unfold map_set. destruct (existsb _ l).
  - rewrite list_elem_of_In, List.in_map_iff. intros (x & <- & Hx). destruct (String.eqb _ _); [by left|].
    right. by apply list_elem_of_In.
  - set_solver.
Qed.

Lemma keeps_clock P : log_stable P -> keeps P (clock o).
Proof. intros Hs s H. simpl. eapply Hs; try done. exists []. simpl. by rewrite app_nil_r. Qed.

Lemma triple_audit P act u t d :
  log_stable P ->
  triple P (audit o act u t d)
    (fun _ s => P s /\ exists e pre, bg_log s = pre ++ [e] /\ ev_action e = act /\ ev_user e = u /\ ev_target e = t /\ ev_detail e = d)
    (fun _ => P).
Proof.
  intros Hs. eapply triple_bind; [by apply keeps_clock|]. intros now. cbv zeta.
  eapply triple_bind; [apply triple_gets|]. intros ok.
  eapply triple_bind; [apply triple_require; by intros s [? _]|]. intros [].
  apply triple_modify. intros s [[Hp _] _]. split.
  - eapply Hs; [exact Hp|done..|]. eexists. reflexivity.
  - simpl. eexists _, _. split; [reflexivity|done].
Qed.

Lemma keeps_audit P act u t d : log_stable P -> keeps P (audit o act u t d).
Proof. intros Hs. eapply triple_weaken; [by apply (triple_audit P)| | |]; naive_solver. Qed.

(** Dropping grants keeps whatever is said of each grant. *)
Definition drop_stable (P : Registry -> Prop) : Prop :=
  forall s id, P s -> P (set_grants (map_delete id) s).

Lemma accounted_drop : drop_stable all_accounted.
Proof. intros s id H g Hg. apply map_delete_elem in Hg as [Hg _]. by apply H. Qed.

Lemma keeps_sweep P : log_stable P -> drop_stable P -> keeps P (sweep o).
Proof.
  intros Hs Hd. unfold sweep. apply keeps_bind; [by apply keeps_clock|]. intros now.
  apply keeps_bind; [apply keeps_gets|]. intros gs. generalize 0.
  induction gs as [|g gs IH]; intros n; simpl; [apply keeps_ret|].
  apply keeps_bind; [|auto]. unfold sweep_one. destruct (now <? bg_expiresAt g); [apply keeps_ret|].
  apply keeps_catch; [|intros; apply keeps_ret]. apply keeps_bind; [by apply keeps_audit|]. intros _.
  apply keeps_bind; [|intros; apply keeps_ret]. apply keeps_modify. intros s. apply Hd.
Qed.

Lemma keeps_live P h : log_stable P -> keeps P (live o h).
Proof. intros Hs. apply keeps_bind; [by apply keeps_clock|]. intros. apply keeps_gets. Qed.

Lemma keeps_active P h : log_stable P -> drop_stable P -> keeps P (active o h).
Proof. intros. apply keeps_bind; [by apply keeps_sweep|]. intros. by apply keeps_live. Qed.

Lemma keeps_revoke P a id : log_stable P -> drop_stable P -> keeps P (revoke o a id).
Proof.
  intros Hs Hd. unfold revoke. keeps_tac; [by apply keeps_audit|]. apply keeps_modify. intros s. apply Hd.
Qed.

Lemma keeps_authorize P p a r : log_stable P -> drop_stable P -> keeps P (authorize_with_glass o p a r).
Proof.
  intros Hs Hd. unfold authorize_with_glass.
  keeps_tac; auto using keeps_sweep, keeps_clock, keeps_live, keeps_audit.
Qed.

(** ** Minting, once for every invariant

    [P] is the invariant, [Q g] what holds between storing [g] and telling the
    affected user. *)
Section mint.
Context (P : Registry -> Prop) (Q : BreakGlassGrant -> Registry -> Prop).
Context (Ps : log_stable P) (Pd : drop_stable P) (Qs : forall g, log_stable (Q g)).
Context (next : forall s, P s -> P (fresh_id o s).2).
Context (store : forall s s0 g, P s -> audited s g -> P s0 -> bg_id g = bo_idGen o (bg_ids s0) ->
                   Q g (set_grants (map_set g) s)).
Context (tell : forall s g n, Q g s -> told g n ->
                  P {| bg_grants := bg_grants s; bg_log := bg_log s; bg_notices := bg_notices s ++ [n];
                       bg_ticks := bg_ticks s; bg_ids := bg_ids s |}).
Context (drop : forall s g, Q g s -> P (set_grants (map_delete (bg_id g)) s)).
Context (untold : forall s g, Q g s -> requireNotification o = false -> P s).

Lemma triple_announce g n :
  told g n ->
  triple (Q g)
    (catch (notify o n)
       (fun message =>
          _ ← (if requireNotification o then modify (set_grants (map_delete (bg_id g))) else mret tt);
          _ ← catch (audit o "break-glass.notify-failed" (holderUserId g) (targetUserId g)
                       [("grantId", JStr (bg_id g)); ("error", JStr message)]) (fun _ => mret tt);
          if requireNotification o then throw NotificationFailed else mret tt))
    (fun _ => P) (fun _ => P).
Proof.
  intros Ht. eapply triple_catch with (R := fun _ => Q g).
  { intros s Hs. unfold notify. destruct (bo_notify o (bg_notices s) n); [done|]. by apply tell with g. }
  intros message. eapply triple_bind with (Q := fun _ => P).
  { destruct (requireNotification o) eqn:E.
    - apply triple_modify. intros s. apply drop.
    - apply triple_ret. intros s Hs. by apply untold with g. }
  intros []. eapply triple_bind with (Q := fun _ => P).
  - eapply triple_catch; [by apply keeps_audit|]. intros e. by apply triple_ret.
  - intros []. destruct (requireNotification o); [by apply triple_throw|by apply triple_ret].
Qed.

Lemma keeps_request h req : keeps P (request o h req).
Proof.
  unfold request. cbv zeta.
  set (target := js_str (jget "targetUserId" req)). set (reason := trim (js_str (jget "reason" req))).
  apply keeps_require_bind. intros Ht. apply keeps_bind; [apply keeps_require|]. intros _.
  apply keeps_bind; [by apply keeps_clock|]. intros now. apply keeps_bind; [apply keeps_require|]. intros _.
  destruct h as [p|]; [|apply keeps_throw].
  apply keeps_require_bind. intros Hself. apply keeps_require_bind. intros Hreason.
  destruct (ttl_of o req) as [| | |[ttl| |]| | |]; try apply keeps_throw.
  apply keeps_require_bind. intros Httl.
  apply keeps_bind; [by apply keeps_sweep|]. intros _. apply keeps_bind; [by apply keeps_clock|]. intros at_.
  apply triple_bind with (Q := fun id s => P s /\ exists s0, P s0 /\ id = bo_idGen o (bg_ids s0)).
  { intros s Hs. pose proof (next s Hs). simpl. split; [done|]. exists s. done. }
  intros id. set (g := {| bg_id := id; holderUserId := userId p; targetUserId := target; bg_reason := reason;
    issuedAt := at_; bg_expiresAt := at_ + ttl; bg_revokedAt := None |}).
  assert (Hw : well_minted g).
  { bool_hyps. unfold well_minted, g. simpl. split_and!; try done; try lia.
    by apply is_empty_neq. }
  eapply triple_bind.
  { eapply triple_weaken; [apply (triple_audit (fun s => P s /\ exists s0, P s0 /\ id = bo_idGen o (bg_ids s0)))| | |].
    - intros s s' [Hp Hn] Hg Hi Hno Hl. split; [by apply Ps with s|done].
    - done.
    - intros a s H. exact H.
    - intros e s [H _]. exact H. }
  intros []. eapply triple_bind with (Q := fun _ => Q g).
  { apply triple_modify. intros s [[Hp (s0 & Hp0 & Hid)] (e & pre & Hl & Ha & Hu & Ht' & Hdt)].
    apply store with s0; try done. split; [done|]. exists e. split; [rewrite Hl; set_solver|].
    unfold granted_line. rewrite Hdt. simpl. repeat split; try done; set_solver. }
  intros []. eapply triple_bind; [by apply (triple_announce g)|]. intros []. by apply triple_ret.
Qed.
End mint.

(** Everything but [g] is accounted for, and [g] is audited. *)
Definition all_but (g : BreakGlassGrant) (s : Registry) : Prop :=
  forall h, h ∈ bg_grants s -> accounted s h \/ (h = g /\ audited s g).

Lemma all_but_stable g : log_stable (all_but g).
Proof.
  intros s s' H Hg _ Hn [l Hl] h Hin. rewrite Hg in Hin. destruct (H h Hin) as [Ha|[-> [Hw (e & He & Hm)]]].
  - left. eapply accounted_mono; [exact Ha|rewrite Hl; set_solver|by rewrite Hn].
  - right. split; [done|]. split; [done|]. exists e. rewrite Hl. set_solver.
Qed.

Lemma request_accounted p req : keeps all_accounted (request o p req).
Proof.
  apply (keeps_request all_accounted all_but).
  - apply accounted_stable.
  - apply accounted_drop.
  - apply all_but_stable.
  - intros s H g Hg. simpl in Hg. by apply H.
  - intros s n g H Ha _ _ h Hh. apply map_set_elem in Hh as [->|Hh]; [by right|left; by apply H].
  - intros s g n H Ht h Hh. simpl in Hh. destruct (H h Hh) as [Hc|[-> Ha]].
    + eapply accounted_mono; [exact Hc|done|simpl; set_solver].
    + split; [exact Ha|]. intros _. exists n. simpl. set_solver.
  - intros s g H h Hh. apply map_delete_elem in Hh as [Hh Hne]. destruct (H h Hh) as [Hc|[-> _]]; [exact Hc|done].
  - intros s g H Hr h Hh. destruct (H h Hh) as [Hc|[-> Ha]]; [exact Hc|]. split; [exact Ha|congruence].
Qed.

(** The id is gone and, from generator position [k] on, cannot come back. *)
Definition absent (id : string) (k : nat) (s : Registry) : Prop :=
  (forall g, g ∈ bg_grants s -> bg_id g <> id) /\ (k <= bg_ids s)%nat.

Lemma absent_stable id k : log_stable (absent id k).
Proof. intros s s' [H1 H2] Hg Hi _ _. unfold absent. by rewrite Hg, Hi. Qed.

Lemma absent_drop id k : drop_stable (absent id k).
Proof. intros s i [H1 H2]. split; [|done]. intros g Hg. apply map_delete_elem in Hg as [Hg _]. by apply H1. Qed.

Lemma request_absent id k p req : (forall n, (k <= n)%nat -> bo_idGen o n <> id) -> keeps (absent id k) (request o p req).
Proof.
  intros Hfresh. pose proof (absent_stable id k) as Hs. pose proof (absent_drop id k) as Hd.
  apply (keeps_request (absent id k) (fun g s => absent id k s)); try done.
  - intros s [H1 H2]. split; simpl; [done|lia].
  - intros s s0 g [H1 H2] _ [_ H0] Hid. split; [|done]. intros h' Hh. apply map_set_elem in Hh as [->|Hh]; [|by apply H1].
    rewrite Hid. by apply Hfresh.
  - intros s g. apply Hd.
Qed.

(** Every call keeps what the six walks keep. *)
Lemma glass_step_keeps P s c :
  log_stable P -> drop_stable P -> (forall h req, keeps P (request o h req)) -> P s -> P (glass_step o s c).
Proof.
  intros Hs Hd Hr Hp. destruct c; simpl; apply keeps_state; auto using keeps_sweep, keeps_active, keeps_revoke, keeps_authorize.
Qed.

Lemma glass_steps_keep P cs s :
  log_stable P -> drop_stable P -> (forall h req, keeps P (request o h req)) -> P s -> P (fold_left (glass_step o) cs s).
Proof. intros Hs Hd Hr. revert s. induction cs as [|c cs IH]; intros s Hp; [done|]. apply IH. by apply glass_step_keeps. Qed.
End facts.

Lemma used_grant_facts o p act r s id s' :
  authorize_with_glass o p act r s = (Ok (RAllow (ByBreakGlass id)), s') ->
  exists q g target e pre t,
    p = Some q /\ r = Some (ResMemoryUser target) /\ g ∈ bg_grants s' /\ bg_id g = id /\
    holderUserId g = userId q /\ targetUserId g = target /\ target <> userId q /\
    issuedAt g <= t < bg_expiresAt g /\
    bg_log s' = pre ++ [e] /\ ev_action e = "break-glass.used" /\ ev_user e = userId q /\ ev_target e = target /\
    ev_detail e = [("grantId", JStr id); ("action", JStr act)].
Proof.
  intros H. unfold authorize_with_glass in H.
  apply SE_bind_ok in H as (n & s1 & _ & H). apply SE_bind_ok in H as (now & s2 & _ & H).
  destruct p as [q|]; [|by apply SE_bind_ok in H as (? & ? & E & H); injection E as <- <-].
  apply SE_bind_ok in H as (pq & s3 & Hq & H). apply SE_bind_ok in Hq as (l & s4 & Hl & Hq). injection Hq as <- <-.
  unfold live in Hl. apply SE_bind_ok in Hl as (now' & s5 & Hc & Hl). injection Hc as _ <-. injection Hl as <- <-.
  match type of H with context [authorize (Some ?x) act r ?n] => set (q' := x) in *;
    destruct (authorize (Some q') act r n) as [why|why] eqn:Ha end;
    [|discriminate H].
  destruct why as [| | |id0]; try discriminate H.
  unfold catch in H.
  match type of H with context [mbind _ (audit o ?a ?u ?t ?d) ?st] => set (s4 := st) in *;
    pose proof (triple_audit o (fun x => bg_grants x = bg_grants s4) a u t d) as HA end.
  specialize (HA ltac:(intros x x' Hx Hg _ _ _; congruence) s4 eq_refl).
  unfold mbind at 1, SE_bind at 1 in H. destruct (audit o _ _ _ _ s4) as [[[]|e] s6] eqn:Hau; [|discriminate H].
  injection H as <- <-. destruct HA as [Hg (e & pre & Hlog & Hact & Hu & Ht & Hd)].
  destruct r as [r|]; [|unfold authorize in Ha; repeat case_match; discriminate].
  apply break_glass_inv in Ha as (Hact' & _ & target & g & t & -> & Hne & Hin & Hid & Hh & Htg & _ & _ & Hw).
  simpl in Hin. apply bfilter_elem in Hin as [Hin _].
  exists q, g, target, e, pre, t. rewrite Hg. simpl in *. split_and!; try done; lia.
Qed.

Lemma used_grant_inv o p act r s id s' :
  authorize_with_glass o p act r s = (Ok (RAllow (ByBreakGlass id)), s') ->
  exists g, g ∈ bg_grants s' /\ bg_id g = id.
Proof. intros H. apply used_grant_facts in H as (q & g & target & e & pre & t & _ & _ & Hin & Hid & _). eauto. Qed.

(** ** Properties *)

(** No break-glass grant without its record: whatever calls were made, in
    whatever order, and however the clock, the sink and the notifier behaved,
    every grant in the registry has a [break-glass.granted] line in the audit
    log naming its holder, target, reason and expiry; its window is between one
    minute and the configured maximum, its reason within the configured length,
    its holder is not its target; and, where notices are required, the affected
    user was told of exactly this grant. *)
Theorem live_grants_accounted o cs g :
  g ∈ bg_grants (glass_run o cs) ->
  well_minted o g /\
  (exists e, e ∈ bg_log (glass_run o cs) /\ granted_line g e) /\
  (requireNotification o = true -> exists n, n ∈ bg_notices (glass_run o cs) /\ told g n).
Proof.
  intros Hg. assert (H : all_accounted o (glass_run o cs)).
  { unfold glass_run. apply glass_steps_keep; [apply accounted_stable|apply accounted_drop|apply request_accounted|].
    intros h Hh. by apply not_elem_of_nil in Hh. }
  destruct (H g Hg) as [[Hw He] Hn]. done.
Qed.

Definition demo_glass : BreakGlassOptions :=
  {| bo_audit := fun _ _ => true; bo_limits := None; bo_notify := fun _ _ => None; requireNotification := true;
     bo_clock := fun n => 1000 * Z.of_nat n; bo_idGen := fun n => if Nat.eqb n 0 then "g0" else "g1"; bo_host := "local" |}.

Definition demo_admin : Principal :=
  {| userId := "u1"; kind := Some "person"; role := "admin"; agentRights := None; projectRights := None;
     p_tokenScopes := None; bindingAgentId := None; breakGlass := [] |}.

Definition demo_request : glass_call :=
  CallRequest (Some demo_admin) (JObj [("targetUserId", JStr "u2"); ("reason", JStr " incident 4711 ")]).

Definition demo_minted : BreakGlassGrant :=
  {| bg_id := "g0"; holderUserId := "u1"; targetUserId := "u2"; bg_reason := "incident 4711"; issuedAt := 2000;
     bg_expiresAt := 902000; bg_revokedAt := None |}.

Lemma live_grants_accounted_witness :
  exists n, n ∈ bg_notices (glass_run demo_glass [demo_request]) /\ told demo_minted n.
Proof.
  apply (live_grants_accounted demo_glass [demo_request] demo_minted); [|reflexivity].
  vm_compute. left.
Defined.

(** Break-glass is never used unseen: when the registry allows a read by a
    break-glass grant, the grant is the registry's own, held by the caller for
    that very target and inside its window, and the last line of the audit log
    records this use; a use whose line the sink refuses is denied instead. *)
Theorem break_glass_use_audited o p act r s id s' :
  authorize_with_glass o p act r s = (Ok (RAllow (ByBreakGlass id)), s') ->
  exists q g target e pre t,
    p = Some q /\ r = Some (ResMemoryUser target) /\ g ∈ bg_grants s' /\ bg_id g = id /\
    holderUserId g = userId q /\ targetUserId g = target /\ target <> userId q /\
    issuedAt g <= t < bg_expiresAt g /\
    bg_log s' = pre ++ [e] /\ ev_action e = "break-glass.used" /\ ev_user e = userId q /\ ev_target e = target /\
    ev_detail e = [("grantId", JStr id); ("action", JStr act)].
Proof. apply used_grant_facts. Qed.

Definition demo_registry : Registry := glass_run demo_glass [demo_request].

Lemma break_glass_use_audited_witness :
  exists q g, Some demo_admin = Some q /\ holderUserId g = userId q /\ bg_id g = "g0".
Proof.
  destruct (break_glass_use_audited demo_glass (Some demo_admin) "memory.user.read" (Some (ResMemoryUser "u2"))
    demo_registry "g0" (authorize_with_glass demo_glass (Some demo_admin) "memory.user.read" (Some (ResMemoryUser "u2")) demo_registry).2)
    as (q & g & target & e & pre & t & Hq & _ & _ & Hid & Hh & _).
  - vm_compute. reflexivity.
  - exists q, g. split; [exact Hq|]. split; [exact Hh|exact Hid].
Defined.

Lemma revoke_inv o a id s s' :
  revoke o a id s = (Ok tt, s') ->
  exists p g e pre, a = Some p /\ map_get id (bg_grants s) = Some g /\ not_a_person (kind p) = false /\
    (userId p = holderUserId g \/ role p = "owner") /\
    bg_grants s' = map_delete id (bg_grants s) /\ bg_log s' = pre ++ [e] /\
    ev_action e = "break-glass.revoked" /\ ev_user e = userId p /\ ev_target e = targetUserId g.
Proof.
  intros H. unfold revoke in H. erewrite SE_bind_run in H by reflexivity.
  destruct (map_get id (bg_grants s)) as [g|] eqn:Hg; [|discriminate].
  apply SE_bind_ok in H as (u & s1 & Hr & H). apply require_ok in Hr as [Hk ->].
  destruct a as [p|]; [|discriminate]. bool_hyps.
  apply SE_bind_ok in H as (u' & s2 & Hr & H). apply require_ok in Hr as [Hw ->].
  apply SE_bind_ok in H as ([] & s3 & Hau & H). injection H as <-.
  match type of Hau with audit o ?a ?u ?t ?d _ = _ =>
    pose proof (triple_audit o (fun x => bg_grants x = bg_grants s2) a u t d) as HA end.
  specialize (HA ltac:(intros x x' Hx Hgx _ _ _; congruence) s2 eq_refl). rewrite Hau in HA.
  destruct HA as (Hgr & e & pre & Hl & Ha & Hu & Ht & _).
  apply bfind_some in Hg as Hid. destruct Hid as [_ Hid]. bool_hyps.
  exists p, g, e, pre. simpl. rewrite Hgr, Hid. apply orb_true_iff in Hw.
  split_and!; try done. destruct Hw as [Hw|Hw]; bool_hyps; auto.
Qed.

(** Revocation is immediate and final: a revocation succeeds only for a person
    who holds the grant or is an owner, and is audited before the grant goes;
    from then on, whatever else is called and as long as the id generator does
    not hand out that id again, no grant with that id is live and no request is
    allowed by it. *)
Theorem revoke_final o a id s s' cs :
  revoke o a id s = (Ok tt, s') ->
  (forall n, (bg_ids s' <= n)%nat -> bo_idGen o n <> id) ->
  (exists p g e pre, a = Some p /\ map_get id (bg_grants s) = Some g /\
     (userId p = holderUserId g \/ role p = "owner") /\ (forall k, kind p = Some k -> k = "person") /\
     bg_log s' = pre ++ [e] /\ ev_action e = "break-glass.revoked" /\ ev_user e = userId p) /\
  map_get id (bg_grants (fold_left (glass_step o) cs s')) = None /\
  (forall p act r, (authorize_with_glass o p act r (fold_left (glass_step o) cs s')).1 <> Ok (RAllow (ByBreakGlass id))).
Proof.
  intros Hr Hfresh. destruct (revoke_inv o a id s s' Hr) as (p & g & e & pre & -> & Hg & Hk & Hw & Hd & Hl & Ha & Hu & _).
  assert (Hab : absent id (bg_ids s') (fold_left (glass_step o) cs s')).
  { apply glass_steps_keep; [apply absent_stable|apply absent_drop|intros; by apply request_absent|].
    split; [|done]. rewrite Hd. intros h Hh. by apply map_delete_elem in Hh as [_ Hh]. }
  set (s2 := fold_left (glass_step o) cs s') in *. split; [|split].
  - exists p, g, e, pre. split_and!; try done. intros k Hkk. unfold not_a_person in Hk. rewrite Hkk in Hk. by bool_hyps.
  - destruct (map_get id (bg_grants s2)) as [h|] eqn:E; [|done]. apply bfind_some in E as [Hin Hid].
    bool_hyps. by apply (proj1 Hab) in Hin.
  - intros q act r E. pose proof (keeps_state _ _ s2 (keeps_authorize o _ q act r (absent_stable id (bg_ids s')) (absent_drop id (bg_ids s'))) Hab) as [Hs3 _].
    destruct (authorize_with_glass o q act r s2) as [v s3] eqn:Ev. simpl in E, Hs3. subst v.
    apply used_grant_inv in Ev as (g' & Hin & Hid). by apply Hs3 in Hin.
Qed.

Lemma revoke_final_witness :
  map_get "g0" (bg_grants (fold_left (glass_step demo_glass) [CallSweep] (revoke demo_glass (Some demo_admin) "g0" demo_registry).2)) = None.
Proof.
  apply (revoke_final demo_glass (Some demo_admin) "g0" demo_registry).
  - vm_compute. reflexivity.
  - intros n Hn E. assert (H1 : (1 <= n)%nat) by (revert Hn; vm_compute; intros; assumption).
    destruct n; [inversion H1|discriminate E].
Defined.
