(* ===== verification/Board.v ===== *)
(** * Project boards and membership

    Model of [packages/core/src/collab/board.ts] (the whole [ProjectBoardStore])
    and of the project and membership calls of [collab/store.ts] it shares its
    database with.  The database is a pair of maps; a write is a transaction
    that is discarded when it throws.  Clock readings and generated ids are
    arbitrary streams, the collation of [localeCompare], URL parsing, hashing
    and the cursor codec are parameters. *)

From S2P Require Import Prelude.

(** ** Data *)

Inductive ActorKind : Type := Person | Agent.
#[export] Instance ActorKind_eq_dec : EqDecision ActorKind.
Proof. solve_decision. Defined.

(* @src packages/core/src/collab/board.ts 5 5 BoardActor *)
Record BoardActor : Type := { a_kind : ActorKind; a_id : string }.
#[export] Instance BoardActor_eq_dec : EqDecision BoardActor.
Proof. solve_decision. Defined.

(* @src packages/core/src/collab/board.ts 6 6 BoardColumn *)
Record BoardColumn : Type := {
  col_id : string; col_title : option string; col_titleKey : option string; col_position : Z; wipLimit : option Z
}.

(* @src packages/core/src/collab/board.ts 7 7 BoardLink *)
Record BoardLink : Type := { l_kind : string; l_id : string }.

(* @src packages/core/src/collab/board.ts 8 13 BoardCard *)
Record BoardCard : Type := {
  c_id : string; c_projectId : string; c_title : string; c_description : string; c_columnId : string;
  c_position : Z; c_labels : list string; c_priority : string; c_dueAt : option Z;
  c_assignees : list BoardActor; c_links : list BoardLink; c_createdBy : BoardActor; c_updatedBy : BoardActor;
  c_createdAt : Z; c_updatedAt : Z; c_archived : bool
}.

Inductive ActivityKind : Type :=
  ACreated | AUpdated | AMoved | AAssigned | AUnassigned | ACommented | AArchived | AUnarchived.

(** [detail] is the value before [JSON.stringify]. *)
(* @src packages/core/src/collab/board.ts 14 14 BoardActivity *)
Record BoardActivity : Type := {
  act_id : string; act_cardId : string; act_kind : ActivityKind; act_actor : BoardActor; act_at : Z; act_detail : js
}.

(* @src packages/core/src/collab/board.ts 15 15 BoardComment *)
Record BoardComment : Type := { cm_id : string; cm_cardId : string; cm_author : BoardActor; cm_text : string; cm_createdAt : Z }.

(** The fields a card call may set; [None] is [undefined]. *)
(* @src packages/core/src/collab/board.ts 16 16 CardInput *)
Record CardPatch : Type := {
  i_title : option string; i_description : option string; i_labels : option (list string);
  i_priority : option string; i_dueAt : option (option num); i_links : option (list BoardLink)
}.

(* @src packages/core/src/collab/board.ts 17 17 CardFilter *)
Record CardFilter : Type := {
  f_columnId : option string; f_assignee : option BoardActor; f_label : option string; f_text : option string;
  f_archived : option bool; f_cursor : option string; f_limit : option num
}.

(* @src packages/core/src/collab/board.ts 19 19 Data *)
Record Data : Type := {
  columns_of : list BoardColumn; cards_of : list BoardCard; activity_of : list BoardActivity; comments_of : list BoardComment
}.

(* @src packages/core/src/collab/board.ts 20 23 BoardError *)
Inductive BoardCode : Type := BInvalid | BNotFound | BConflict | BWip | BArchived | BDenied.

(** Codes of [CollabError] the membership calls throw, and a constraint failure. *)
Inductive Fault : Type := BoardFault (c : BoardCode) | CollabFault (code reason : string) | SqliteFault.

Notation bad := (BoardFault BInvalid).

(** ** Validation *)

(** The characters the link pattern forbids: white space and control characters. *)
Definition link_char_ok (c : Ascii.ascii) : bool :=
  let n := Ascii.nat_of_ascii c in negb (is_space c) && Nat.leb 32 n && negb (Nat.eqb n 127).

(* @src packages/core/src/collab/board.ts 26 26 safeLinkUrl *)
Definition safeLinkUrl (canParse : string -> bool) (s : string) : bool :=
  existsb (fun p => starts_with p (lower s) && negb (slen s =? slen p)
                    && forallb link_char_ok (chars (String.substring (String.length p) (String.length s) s)))
    ["https://"; "http://"; "mailto:"] && canParse s.

(* @src packages/core/src/collab/board.ts 27 27 same *)
Definition same (a b : BoardActor) : bool := bool_decide (a = b).

(* @src packages/core/src/collab/board.ts 28 28 title *)
Definition title (s : string) : result Fault string :=
  if negb (is_empty (trim s)) && (slen s <=? 256) then Ok (trim s) else Err bad.

(* @src packages/core/src/collab/board.ts 29 29 index *)
Definition index (n : option num) (size : nat) : result Fault nat :=
  match n with
  | None => Ok size
  | Some (Fin z) => if safe_int z && (0 <=? z) then Ok (Nat.min (Z.to_nat z) size) else Err bad
  | Some _ => Err bad
  end.

(* @src packages/core/src/collab/board.ts 30 30 limit *)
Definition limit (n : option num) : result Fault nat :=
  match default (Fin 50) n with
  | Fin z => if safe_int z && (0 <? z) && (z <=? 100) then Ok (Z.to_nat z) else Err bad
  | _ => Err bad
  end.

(* @src packages/core/src/collab/board.ts 110 110 #validWip *)
Definition validWip (n : option num) : result Fault (option Z) :=
  match n with
  | None => Ok None
  | Some (Fin z) => if safe_int z && (1 <=? z) then Ok (Some z) else Err bad
  | Some _ => Err bad
  end.

(** [xs.splice(i, 0, x)] *)
Definition splice {A} (i : nat) (x : A) (l : list A) : list A := take i l ++ x :: drop i l.

(** [String(n).padStart(16, "0")], for the [n] below 10^16 a board can hold. *)
Definition seq_id (n : nat) : string := digits 16 (Z.of_nat n).

(** ** Updates of a board held in memory *)

Definition with_columns (f : list BoardColumn -> list BoardColumn) (d : Data) : Data :=
  {| columns_of := f (columns_of d); cards_of := cards_of d; activity_of := activity_of d; comments_of := comments_of d |}.
Definition with_cards (f : list BoardCard -> list BoardCard) (d : Data) : Data :=
  {| columns_of := columns_of d; cards_of := f (cards_of d); activity_of := activity_of d; comments_of := comments_of d |}.

(** Assignment through the reference to the card with this id. *)
Definition upd_card (id : string) (f : BoardCard -> BoardCard) : Data -> Data :=
  with_cards (map (fun c => if String.eqb (c_id c) id then f c else c)).

Definition set_place (col : string) (pos : Z) (c : BoardCard) : BoardCard :=
  {| c_id := c_id c; c_projectId := c_projectId c; c_title := c_title c; c_description := c_description c;
     c_columnId := col; c_position := pos; c_labels := c_labels c; c_priority := c_priority c; c_dueAt := c_dueAt c;
     c_assignees := c_assignees c; c_links := c_links c; c_createdBy := c_createdBy c; c_updatedBy := c_updatedBy c;
     c_createdAt := c_createdAt c; c_updatedAt := c_updatedAt c; c_archived := c_archived c |}.
Definition set_updated (at_ : Z) (by_ : BoardActor) (c : BoardCard) : BoardCard :=
  {| c_id := c_id c; c_projectId := c_projectId c; c_title := c_title c; c_description := c_description c;
     c_columnId := c_columnId c; c_position := c_position c; c_labels := c_labels c; c_priority := c_priority c; c_dueAt := c_dueAt c;
     c_assignees := c_assignees c; c_links := c_links c; c_createdBy := c_createdBy c; c_updatedBy := by_;
     c_createdAt := c_createdAt c; c_updatedAt := at_; c_archived := c_archived c |}.
Definition set_assignees (l : list BoardActor) (c : BoardCard) : BoardCard :=
  {| c_id := c_id c; c_projectId := c_projectId c; c_title := c_title c; c_description := c_description c;
     c_columnId := c_columnId c; c_position := c_position c; c_labels := c_labels c; c_priority := c_priority c; c_dueAt := c_dueAt c;
     c_assignees := l; c_links := c_links c; c_createdBy := c_createdBy c; c_updatedBy := c_updatedBy c;
     c_createdAt := c_createdAt c; c_updatedAt := c_updatedAt c; c_archived := c_archived c |}.
Definition set_archived (b : bool) (c : BoardCard) : BoardCard :=
  {| c_id := c_id c; c_projectId := c_projectId c; c_title := c_title c; c_description := c_description c;
     c_columnId := c_columnId c; c_position := c_position c; c_labels := c_labels c; c_priority := c_priority c; c_dueAt := c_dueAt c;
     c_assignees := c_assignees c; c_links := c_links c; c_createdBy := c_createdBy c; c_updatedBy := c_updatedBy c;
     c_createdAt := c_createdAt c; c_updatedAt := c_updatedAt c; c_archived := b |}.
Definition set_fields (t ds : string) (ls : list string) (pr : string) (du : option Z) (lk : list BoardLink) (c : BoardCard) : BoardCard :=
  {| c_id := c_id c; c_projectId := c_projectId c; c_title := t; c_description := ds;
     c_columnId := c_columnId c; c_position := c_position c; c_labels := ls; c_priority := pr; c_dueAt := du;
     c_assignees := c_assignees c; c_links := lk; c_createdBy := c_createdBy c; c_updatedBy := c_updatedBy c;
     c_createdAt := c_createdAt c; c_updatedAt := c_updatedAt c; c_archived := c_archived c |}.
Definition set_col_position (pos : Z) (c : BoardColumn) : BoardColumn :=
  {| col_id := col_id c; col_title := col_title c; col_titleKey := col_titleKey c; col_position := pos; wipLimit := wipLimit c |}.

(** [columns.forEach((x, i) => { x.position = i; })] *)
Definition renumber_columns (l : list BoardColumn) : list BoardColumn := imap (fun i => set_col_position (Z.of_nat i)) l.

(* @src packages/core/src/collab/board.ts 71 71 #column *)
Definition column (d : Data) (id : string) : result Fault BoardColumn :=
  match bfind (fun c => String.eqb (col_id c) id) (columns_of d) with Some c => Ok c | None => Err (BoardFault BNotFound) end.

(* @src packages/core/src/collab/board.ts 72 72 #card *)
Definition card (d : Data) (id : string) : result Fault BoardCard :=
  match bfind (fun c => String.eqb (c_id c) id) (cards_of d) with Some c => Ok c | None => Err (BoardFault BNotFound) end.

(** Cards of a column that count against its limit. *)
Definition in_column (col : string) (c : BoardCard) : bool := String.eqb (c_columnId c) col.
Definition active_in (col : string) (c : BoardCard) : bool := in_column col c && negb (c_archived c).
Definition active_count (d : Data) (col : string) : Z := Z.of_nat (length (bfilter (active_in col) (cards_of d))).

(* @src packages/core/src/collab/board.ts 73 76 #wip *)
Definition wip (d : Data) (columnId : string) (incoming : Z) (override : bool) : result Fault unit :=
  let* c := column d columnId in
  if (0 <? incoming) && negb override
     && match wipLimit c with Some l => l <? active_count d columnId + incoming | None => false end
  then Err (BoardFault BWip) else Ok tt.

(** The position of an id in a list of ids. *)
Fixpoint index_of (id : string) (l : list string) : option nat :=
  match l with
  | [] => None
  | x :: r => if String.eqb x id then Some 0%nat else S <$> index_of id r
  end.

(** [list.forEach((x, i) => { x.position = i; })] through references to cards,
    moving them to column [col]. *)
Definition renumber (col : string) (ids : list string) (d : Data) : Data :=
  with_cards (map (fun c => match index_of (c_id c) ids with
                            | Some i => set_place col (Z.of_nat i) c
                            | None => c
                            end)) d.

(** ** Projects and the database *)

(* @src packages/core/src/collab/types.ts 25 25 ProjectMember *)
Inductive ProjectRole : Type := RoleMember | RoleLead.
#[export] Instance ProjectRole_eq_dec : EqDecision ProjectRole.
Proof. solve_decision. Defined.

(** The project row with its two membership tables. *)
(* @src packages/core/src/collab/types.ts 29 41 Project *)
Record Project : Type := {
  p_id : string; p_name : string; p_owner : string; p_members : gmap string ProjectRole; p_agents : gset string;
  p_settings : js; p_createdAt : Z; p_updatedAt : Z; p_archivedAt : option Z
}.

Record World : Type := { w_projects : gmap string Project; w_boards : gmap string Data; w_ticks : nat; w_ids : nat }.

Definition set_boards (f : gmap string Data -> gmap string Data) (s : World) : World :=
  {| w_projects := w_projects s; w_boards := f (w_boards s); w_ticks := w_ticks s; w_ids := w_ids s |}.
Definition set_projects (f : gmap string Project -> gmap string Project) (s : World) : World :=
  {| w_projects := f (w_projects s); w_boards := w_boards s; w_ticks := w_ticks s; w_ids := w_ids s |}.

(** Rows back, clock and generator where they are. *)
Definition rollback (s s' : World) : World :=
  {| w_projects := w_projects s; w_boards := w_boards s; w_ticks := w_ticks s'; w_ids := w_ids s' |}.

(** [BEGIN IMMEDIATE ... COMMIT], or [ROLLBACK] and rethrow. *)
(* @src packages/core/src/collab/store.ts 78 82 #tx *)
Definition tx {A} (m : SE World Fault A) : SE World Fault A := fun s =>
  match m s with
  | (Ok a, s') => (Ok a, s')
  | (Err e, s') => (Err e, rollback s s')
  end.

(** A pure step that may throw. *)
Definition lift {S E A} (r : result E A) : SE S E A := fun s => (r, s).

(** A board in memory inside a transaction. *)
Record Draft : Type := { dr : Data; dr_world : World }.
Definition edit (f : Data -> Data) : SE Draft Fault unit := modify (fun s => {| dr := f (dr s); dr_world := dr_world s |}).
Definition peek {A} (f : Data -> result Fault A) : SE Draft Fault A := fun s => (f (dr s), s).
Definition in_world {A} (m : SE World Fault A) : SE Draft Fault A := fun s =>
  let '(r, w) := m (dr_world s) in (r, {| dr := dr s; dr_world := w |}).

Section store.
Context (clock_at : nat -> Z) (newId : string -> nat -> string) (localeLe : string -> string -> bool).
Context (canParse : string -> bool) (fingerprint : js -> string).
Context (encodeCursor : string * string -> string) (decodeCursor : string -> option (string * string)).

Definition now : SE World Fault Z := fun s =>
  (Ok (clock_at (w_ticks s)), {| w_projects := w_projects s; w_boards := w_boards s; w_ticks := S (w_ticks s); w_ids := w_ids s |}).
Definition new_id (prefix : string) : SE World Fault string := fun s =>
  (Ok (newId prefix (w_ids s)), {| w_projects := w_projects s; w_boards := w_boards s; w_ticks := w_ticks s; w_ids := S (w_ids s) |}).

(* @src packages/core/src/collab/board.ts 55 60 #read *)
Definition read (pid : string) : SE World Fault Data :=
  w ← gets id;
  match w_projects w !! pid, w_boards w !! pid with
  | Some _, Some d => mret d
  | _, _ => throw (BoardFault BNotFound)
  end.

(** Runs [m] on the board and stores what it leaves. *)
Definition on_board {A} (pid : string) (d : Data) (m : SE Draft Fault A) : SE World Fault A := fun w =>
  match m {| dr := d; dr_world := w |} with
  | (Ok a, s') => (Ok a, set_boards <[pid := dr s']> (dr_world s'))
  | (Err e, s') => (Err e, dr_world s')
  end.

(* @src packages/core/src/collab/board.ts 61 70 #write *)
Definition write {A} (pid : string) (m : SE Draft Fault A) : SE World Fault A :=
  tx (d ← read pid;
      p ← gets (fun w => w_projects w !! pid);
      _ ← require (bool_decide (p_archivedAt <$> p = Some None)) (BoardFault BArchived);
      on_board pid d m).

(* @src packages/core/src/collab/board.ts 77 81 #history *)
Definition history (cid : string) (k : ActivityKind) (actor : BoardActor) (detail : js) : SE Draft Fault unit :=
  t ← in_world now;
  _ ← edit (upd_card cid (set_updated t actor));
  edit (fun d => {| columns_of := columns_of d; cards_of := cards_of d;
                    activity_of := activity_of d ++
                      [{| act_id := seq_id (S (length (activity_of d))); act_cardId := cid; act_kind := k;
                          act_actor := actor; act_at := t; act_detail := detail |}];
                    comments_of := comments_of d |}).

(** Order of a column: position, then the collation of ids. *)
Definition card_le (a b : BoardCard) : bool :=
  if c_position a =? c_position b then localeLe (c_id a) (c_id b) else c_position a <=? c_position b.
Definition pos_le (a b : BoardCard) : bool := c_position a <=? c_position b.

(* @src packages/core/src/collab/board.ts 82 89 #place *)
Definition place (cid : string) (columnId : string) (position : option num) : SE Draft Fault unit :=
  _ ← peek (fun d => column d columnId);
  c ← peek (fun d => card d cid);
  let old := c_columnId c in
  d ← peek Ok;
  let target := sort_by card_le (bfilter (fun x => negb (String.eqb (c_id x) cid) && in_column columnId x) (cards_of d)) in
  i ← lift (index position (length target));
  _ ← edit (renumber columnId (splice i cid (map c_id target)));
  if String.eqb old columnId then mret tt
  else d' ← peek Ok; edit (renumber old (map c_id (sort_by pos_le (bfilter (in_column old) (cards_of d'))))).

Definition actor_js (a : BoardActor) : list (string * js) :=
  [("kind", JStr (match a_kind a with Person => "person" | Agent => "agent" end)); ("id", JStr (a_id a))].

(** One release per card that carries the assignee. *)
Fixpoint release_all (owner : string) (assignee : BoardActor) (ids : list string) : SE Draft Fault unit :=
  match ids with
  | [] => mret tt
  | cid :: r =>
      c ← peek (fun d => card d cid);
      _ ← (if existsb (same assignee) (c_assignees c) then
             _ ← edit (upd_card cid (fun c => set_assignees (bfilter (fun a => negb (same a assignee)) (c_assignees c)) c));
             history cid AUnassigned {| a_kind := Person; a_id := owner |}
               (JObj (actor_js assignee ++ [("reason", JStr "membership-removed")]))
           else mret tt);
      release_all owner assignee r
  end.

(* @src packages/core/src/collab/board.ts 91 100 releaseAssignee *)
Definition releaseAssignee (pid : string) (assignee : BoardActor) : SE World Fault unit :=
  d ← read pid;
  p ← gets (fun w => w_projects w !! pid);
  on_board pid d (release_all (default "" (p_owner <$> p)) assignee (map c_id (cards_of d))).

(** ** Columns *)

(* @src packages/core/src/collab/board.ts 101 101 columns *)
Definition columns (pid : string) : SE World Fault (list BoardColumn) :=
  d ← read pid; mret (sort_by (fun a b => col_position a <=? col_position b) (columns_of d)).

Definition truthy (s : option string) : bool := match s with Some s => negb (is_empty s) | None => false end.

(** [s ? title(s) : null] *)
Definition title_or_null (s : option string) : result Fault (option string) :=
  match s with
  | Some t => if is_empty t then Ok None else rmap Some (title t)
  | None => Ok None
  end.

(* @src packages/core/src/collab/board.ts 102 109 createColumn *)
Definition createColumn (pid : string) (ttl ttlKey : option string) (wl : option num) (position : option num) : SE World Fault BoardColumn :=
  write pid (
    _ ← require (truthy ttl || truthy ttlKey) bad;
    cid ← in_world (new_id "col");
    t ← lift (title_or_null ttl);
    k ← lift (title_or_null ttlKey);
    w ← lift (validWip wl);
    let c := {| col_id := cid; col_title := t; col_titleKey := k; col_position := 0; wipLimit := w |} in
    n ← peek (fun d => Ok (length (columns_of d)));
    i ← lift (index position n);
    _ ← edit (with_columns (fun l => renumber_columns (splice i c l)));
    peek (fun d => column d cid)).

Definition upd_column (id : string) (f : BoardColumn -> BoardColumn) : Data -> Data :=
  with_columns (map (fun c => if String.eqb (col_id c) id then f c else c)).

(* @src packages/core/src/collab/board.ts 111 119 updateColumn *)
Definition updateColumn (pid cid : string) (ttl ttlKey : option string) (wl : option (option num)) : SE World Fault BoardColumn :=
  write pid (
    _ ← peek (fun d => column d cid);
    _ ← match ttl with
        | Some s => t ← lift (title s);
            edit (upd_column cid (fun c => {| col_id := col_id c; col_title := Some t; col_titleKey := None; col_position := col_position c; wipLimit := wipLimit c |}))
        | None => mret tt end;
    _ ← match ttlKey with
        | Some s => t ← lift (title s);
            edit (upd_column cid (fun c => {| col_id := col_id c; col_title := None; col_titleKey := Some t; col_position := col_position c; wipLimit := wipLimit c |}))
        | None => mret tt end;
    _ ← match wl with
        | Some n => w ← lift (validWip n);
            edit (upd_column cid (fun c => {| col_id := col_id c; col_title := col_title c; col_titleKey := col_titleKey c; col_position := col_position c; wipLimit := w |}))
        | None => mret tt end;
    peek (fun d => column d cid)).

(* @src packages/core/src/collab/board.ts 120 122 moveColumn *)
Definition moveColumn (pid cid : string) (position : num) : SE World Fault BoardColumn :=
  write pid (
    c ← peek (fun d => column d cid);
    rest ← peek (fun d => Ok (bfilter (fun x => negb (String.eqb (col_id x) cid)) (columns_of d)));
    i ← lift (index (Some position) (length rest));
    _ ← edit (with_columns (fun _ => renumber_columns (splice i c rest)));
    peek (fun d => column d cid)).

Definition opt_js (s : option string) : js := match s with Some s => JStr s | None => JUndef end.
Definition bool_js (b : bool) : js := JBool b.

(** Each card of the deleted column, appended to the target in order. *)
Fixpoint evacuate (from target : string) (actor : BoardActor) (override : bool) (ids : list string) : SE Draft Fault unit :=
  match ids with
  | [] => mret tt
  | cid :: r =>
      _ ← place cid target None;
      _ ← history cid AMoved actor (JObj [("from", JStr from); ("to", JStr target); ("override", bool_js override)]);
      evacuate from target actor override r
  end.

(* @src packages/core/src/collab/board.ts 123 133 deleteColumn *)
Definition deleteColumn (pid cid : string) (target : option string) (actor : BoardActor) (override : bool) : SE World Fault unit :=
  write pid (
    _ ← peek (fun d => column d cid);
    _ ← require (negb (bool_decide (target = Some cid))) bad;
    cards ← peek (fun d => Ok (sort_by pos_le (bfilter (in_column cid) (cards_of d))));
    _ ← (if truthy target
         then peek (fun d => wip d (default "" target) (Z.of_nat (length (bfilter (fun c => negb (c_archived c)) cards))) override)
         else require (bool_decide (cards = [])) (BoardFault BConflict));
    _ ← evacuate cid (default "" target) actor override (map c_id cards);
    edit (with_columns (fun l => renumber_columns (bfilter (fun c => negb (String.eqb (col_id c) cid)) l)))).

(** ** Cards *)

(* @src packages/core/src/collab/board.ts 134 134 getCard *)
Definition getCard (pid cid : string) : SE World Fault BoardCard := d ← read pid; lift (card d cid).

(** [needle] occurs in [hay]. *)
Fixpoint contains (needle hay : string) : bool :=
  starts_with needle hay || match hay with EmptyString => false | String _ r => contains needle r end.

Definition newline : string := String (Ascii.ascii_of_nat 10) "".

Definition matches (f : CardFilter) (c : BoardCard) : bool :=
  Bool.eqb (c_archived c) (default false (f_archived f))
  && (negb (truthy (f_columnId f)) || String.eqb (c_columnId c) (default "" (f_columnId f)))
  && match f_assignee f with Some a => existsb (fun x => same x a) (c_assignees c) | None => true end
  && (negb (truthy (f_label f)) || includes (c_labels c) (default "" (f_label f)))
  && (negb (truthy (f_text f)) || contains (lower (default "" (f_text f))) (lower (c_title c +:+ newline +:+ c_description c))).

Definition id_le {A} (key : A -> string) (a b : A) : bool := negb (str_ltb (key b) (key a)).

(** The part of [l] after the element with this id. *)
Fixpoint after_id {A} (key : A -> string) (id : string) (l : list A) : list A :=
  match l with [] => [] | x :: r => if String.eqb (key x) id then r else after_id key id r end.

(** The id a cursor resumes after; [""] without a cursor. *)
Definition cursor_after {A} (key : A -> string) (items : list A) (cursor : option string) (hash : string) (ordered : bool)
    : result Fault string :=
  match cursor with
  | None => Ok ""
  | Some c =>
      if is_empty c then Ok "" else
      match decodeCursor c with
      | None => Err bad
      | Some (h, after) =>
          if negb (String.eqb h hash) || (2048 <? slen c) then Err bad
          else if ordered && negb (existsb (fun i => String.eqb (key i) after) items) then Err bad
          else Ok after
      end
  end.

(* @src packages/core/src/collab/board.ts 32 46 page *)
Definition page {A} (key : A -> string) (items : list A) (cursor : option string) (lim : option num) (binding : js) (ordered : bool)
    : result Fault (list A * option string) :=
  let* take_ := limit lim in
  let hash := fingerprint binding in
  let* after := cursor_after key items cursor hash ordered in
  let remaining :=
    if ordered then (if is_empty after then items else after_id key after items)
    else sort_by (id_le key) (bfilter (fun i => str_ltb after (key i)) items) in
  let selected := take take_ remaining in
  Ok (selected,
      if Nat.ltb take_ (length remaining)
      then option_map (fun x => encodeCursor (hash, key x)) (head (reverse selected)) else None).

Definition column_rank (d : Data) (c : BoardCard) : Z :=
  match column d (c_columnId c) with Ok k => col_position k | Err _ => 0 end.
Definition board_le (d : Data) (a b : BoardCard) : bool :=
  if column_rank d a =? column_rank d b then card_le a b else column_rank d a <=? column_rank d b.

Definition actor_opt_js (a : option BoardActor) : js := match a with Some a => JObj (actor_js a) | None => JUndef end.

(** The binding names the query and the state of every card it matched. *)
Definition cards_binding (pid : string) (f : CardFilter) (items : list BoardCard) : js :=
  JArr [JStr pid; opt_js (f_columnId f); actor_opt_js (f_assignee f); opt_js (f_label f); opt_js (f_text f);
        JBool (default false (f_archived f));
        JArr (map (fun c => JArr [JStr (c_id c); JNum (Fin (c_updatedAt c)); JStr (c_columnId c); JNum (Fin (c_position c))]) items)].

(* @src packages/core/src/collab/board.ts 135 142 cards *)
Definition cards (pid : string) (f : CardFilter) : SE World Fault (list BoardCard * option string) :=
  d ← read pid;
  _ ← (if truthy (f_columnId f) then _ ← lift (column d (default "" (f_columnId f))); mret tt else mret tt);
  let items := sort_by (board_le d) (bfilter (matches f) (cards_of d)) in
  lift (page c_id items (f_cursor f) (f_limit f) (cards_binding pid f items) true).

(** [[...new Set(labels)]]: the first of each. *)
Fixpoint dedup (seen l : list string) : list string :=
  match l with [] => [] | x :: r => if includes seen x then dedup seen r else x :: dedup (x :: seen) r end.

Definition labels_ok (l : list string) : bool :=
  (Z.of_nat (length l) <=? 32) && forallb (fun s => negb (is_empty s) && (slen s <=? 64)) l.
Definition link_ok (l : BoardLink) : bool :=
  includes ["session"; "job"; "media"; "url"] (l_kind l) && negb (is_empty (l_id l)) && (slen (l_id l) <=? 4096)
  && (negb (String.eqb (l_kind l) "url") || safeLinkUrl canParse (l_id l)).

Definition due_ok (n : option num) : result Fault (option Z) :=
  match n with
  | None => Ok None
  | Some (Fin z) => if safe_int z && (0 <=? z) then Ok (Some z) else Err bad
  | Some _ => Err bad
  end.

(** Every field of the patch, in the source's order; a refused one throws. *)
(* @src packages/core/src/collab/board.ts 143 150 #fields *)
Definition fields (c : BoardCard) (p : CardPatch) : result Fault BoardCard :=
  let* t := match i_title p with Some s => title s | None => Ok (c_title c) end in
  let* ds := match i_description p with Some s => if slen s <=? 65536 then Ok s else Err bad | None => Ok (c_description c) end in
  let* ls := match i_labels p with Some l => if labels_ok l then Ok (dedup [] l) else Err bad | None => Ok (c_labels c) end in
  let* pr := match i_priority p with
             | Some s => if includes ["none"; "low"; "normal"; "high"; "urgent"] s then Ok s else Err bad
             | None => Ok (c_priority c) end in
  let* du := match i_dueAt p with Some n => due_ok n | None => Ok (c_dueAt c) end in
  let* lk := match i_links p with
             | Some l => if (Z.of_nat (length l) <=? 64) && forallb link_ok l then Ok l else Err bad
             | None => Ok (c_links c) end in
  Ok (set_fields t ds ls pr du lk c).

Definition apply_fields (cid : string) (p : CardPatch) : SE Draft Fault unit :=
  c ← peek (fun d => card d cid);
  c' ← lift (fields c p);
  edit (upd_card cid (fun _ => c')).

(** [CardInput] carries its title besides the optional fields. *)
Definition with_title (t : string) (p : CardPatch) : CardPatch :=
  {| i_title := Some t; i_description := i_description p; i_labels := i_labels p; i_priority := i_priority p;
     i_dueAt := i_dueAt p; i_links := i_links p |}.

(** The call's result is the card as the transaction leaves it. *)
(* @src packages/core/src/collab/board.ts 151 158 createCard *)
Definition createCard (pid ttl columnId : string) (position : option num) (p : CardPatch) (actor : BoardActor) (override : bool)
    : SE World Fault BoardCard :=
  write pid (
    _ ← peek (fun d => wip d columnId 1 override);
    t ← in_world now;
    cid ← in_world (new_id "card");
    tt' ← lift (title ttl);
    let c := {| c_id := cid; c_projectId := pid; c_title := tt'; c_description := ""; c_columnId := columnId; c_position := 0;
                c_labels := []; c_priority := "normal"; c_dueAt := None; c_assignees := []; c_links := [];
                c_createdBy := actor; c_updatedBy := actor; c_createdAt := t; c_updatedAt := t; c_archived := false |} in
    c' ← lift (fields c (with_title ttl p));
    _ ← edit (with_cards (fun l => l ++ [c']));
    _ ← place cid columnId position;
    _ ← history cid ACreated actor (JObj [("override", bool_js override)]);
    peek (fun d => card d cid)).

(* @src packages/core/src/collab/board.ts 159 161 updateCard *)
Definition updateCard (pid cid : string) (p : CardPatch) (actor : BoardActor) : SE World Fault BoardCard :=
  write pid (_ ← apply_fields cid p; _ ← history cid AUpdated actor (JStr ""); peek (fun d => card d cid)).

(* @src packages/core/src/collab/board.ts 162 164 moveCard *)
Definition moveCard (pid cid columnId : string) (position : option num) (actor : BoardActor) (override : bool) : SE World Fault BoardCard :=
  write pid (
    c ← peek (fun d => card d cid);
    _ ← require (negb (c_archived c)) (BoardFault BArchived);
    _ ← (if String.eqb (c_columnId c) columnId then mret tt else peek (fun d => wip d columnId 1 override));
    _ ← place cid columnId position;
    c' ← peek (fun d => card d cid);
    _ ← history cid AMoved actor (JObj [("from", JStr (c_columnId c)); ("to", JStr columnId);
                                        ("position", JNum (Fin (c_position c'))); ("override", bool_js override)]);
    peek (fun d => card d cid)).

Definition belongs (p : option Project) (a : BoardActor) : bool :=
  match p with
  | Some p => match a_kind a with
              | Person => bool_decide (is_Some (p_members p !! a_id a))
              | Agent => bool_decide (a_id a ∈ p_agents p)
              end
  | None => false
  end.

(* @src packages/core/src/collab/board.ts 165 174 assign *)
Definition assign (pid cid : string) (assignee : BoardActor) (add : bool) (actor : BoardActor) : SE World Fault BoardCard :=
  write pid (
    p ← in_world (gets (fun w => w_projects w !! pid));
    _ ← require (negb (add && negb (belongs p assignee))) bad;
    c ← peek (fun d => card d cid);
    if Bool.eqb add (existsb (fun a => same a assignee) (c_assignees c)) then mret c
    else
      _ ← edit (upd_card cid (fun c => set_assignees
             (if add then c_assignees c ++ [assignee] else bfilter (fun a => negb (same a assignee)) (c_assignees c)) c));
      _ ← history cid (if add then AAssigned else AUnassigned) actor (JObj (actor_js assignee));
      peek (fun d => card d cid)).

(* @src packages/core/src/collab/board.ts 175 177 archiveCard *)
Definition archiveCard (pid cid : string) (archived : bool) (actor : BoardActor) (override : bool) : SE World Fault BoardCard :=
  write pid (
    c ← peek (fun d => card d cid);
    if Bool.eqb (c_archived c) archived then mret c
    else
      _ ← (if archived then mret tt else peek (fun d => wip d (c_columnId c) 1 override));
      _ ← edit (upd_card cid (set_archived archived));
      _ ← history cid (if archived then AArchived else AUnarchived) actor (JObj [("override", bool_js override)]);
      peek (fun d => card d cid)).

(* @src packages/core/src/collab/board.ts 178 180 comment *)
Definition comment (pid cid text : string) (actor : BoardActor) : SE World Fault BoardComment :=
  write pid (
    _ ← peek (fun d => card d cid);
    _ ← require (negb (is_empty (trim text)) && (slen text <=? 65536)) bad;
    n ← peek (fun d => Ok (length (comments_of d)));
    t ← in_world now;
    let c := {| cm_id := seq_id (S n); cm_cardId := cid; cm_author := actor; cm_text := text; cm_createdAt := t |} in
    _ ← edit (fun d => {| columns_of := columns_of d; cards_of := cards_of d; activity_of := activity_of d; comments_of := comments_of d ++ [c] |});
    _ ← history cid ACommented actor (JStr (cm_id c));
    mret c).

(* @src packages/core/src/collab/board.ts 181 181 comments *)
Definition comments (pid cid : string) (cursor : option string) (lim : option num) : SE World Fault (list BoardComment * option string) :=
  d ← read pid;
  _ ← lift (card d cid);
  lift (page cm_id (bfilter (fun c => String.eqb (cm_cardId c) cid) (comments_of d)) cursor lim
          (JArr [JStr pid; JStr cid; JStr "comments"]) false).

(* @src packages/core/src/collab/board.ts 182 182 activity *)
Definition activity (pid cid : string) (cursor : option string) (lim : option num) : SE World Fault (list BoardActivity * option string) :=
  d ← read pid;
  _ ← lift (card d cid);
  lift (page act_id (bfilter (fun c => String.eqb (act_cardId c) cid) (activity_of d)) cursor lim
          (JArr [JStr pid; JStr cid; JStr "activity"]) false).

(** ** Projects and members *)

Definition conflict (why : string) : Fault := CollabFault "conflict" why.
Definition invalid (why : string) : Fault := CollabFault "invalid" why.

(** [{ ...o, k: v }] and [delete o[k]] on a JSON object. *)
Definition js_set (k : string) (v : js) (o : js) : js :=
  match o with
  | JObj fs => JObj (if existsb (fun p => String.eqb p.1 k) fs
                     then map (fun p => if String.eqb p.1 k then (k, v) else p) fs else fs ++ [(k, v)])
  | _ => JObj [(k, v)]
  end.
Definition js_del (k : string) (o : js) : js :=
  match o with JObj fs => JObj (bfilter (fun p => negb (String.eqb p.1 k)) fs) | _ => o end.

Definition js_is_num (z : Z) (v : js) : bool := match v with JNum (Fin x) => x =? z | _ => false end.

(* @src packages/core/src/collab/store.ts 20 26 normalizedSettings *)
Definition normalizedSettings (settings : js) : js :=
  if js_is_num 2 (jget "settingsVersion" settings) then settings
  else fold_left (fun o e => if js_is_num e.2 (jget e.1 o) then js_del e.1 o else o)
    [("maxDepth", 1); ("maxFanout", 3); ("maxPairPerTurn", 2); ("maxTurns", 25); ("timeoutMs", 300000); ("returnTokens", 2000)]
    settings.

(* @src packages/core/src/collab/store.ts 136 139 #settingsJson *)
Definition settingsJson (settings : js) : js := js_set "settingsVersion" (JNum (Fin 2)) (normalizedSettings settings).

Definition upd_project (pid : string) (f : Project -> Project) : World -> World := set_projects (alter f pid).

Definition set_membership (m : gmap string ProjectRole -> gmap string ProjectRole) (a : gset string -> gset string) (p : Project) : Project :=
  {| p_id := p_id p; p_name := p_name p; p_owner := p_owner p; p_members := m (p_members p); p_agents := a (p_agents p);
     p_settings := p_settings p; p_createdAt := p_createdAt p; p_updatedAt := p_updatedAt p; p_archivedAt := p_archivedAt p |}.
Definition set_row (name : string) (st : js) (up : Z) (arch : option Z) (p : Project) : Project :=
  {| p_id := p_id p; p_name := name; p_owner := p_owner p; p_members := p_members p; p_agents := p_agents p;
     p_settings := st; p_createdAt := p_createdAt p; p_updatedAt := up; p_archivedAt := arch |}.

(* @src packages/core/src/collab/store.ts 208 213 #live *)
Definition live_project (pid : string) : SE World Fault Project :=
  w ← gets id;
  match w_projects w !! pid with
  | None => throw (CollabFault "not-found" "project")
  | Some p => match p_archivedAt p with Some _ => throw (CollabFault "archived" "archived") | None => mret p end
  end.

(* @src packages/core/src/collab/store.ts 206 206 #touch *)
Definition touch (pid : string) (t : Z) : SE World Fault unit :=
  modify (upd_project pid (fun p => set_row (p_name p) (settingsJson (p_settings p)) t (p_archivedAt p) p)).

(** [this.#project(id)!] *)
Definition project (pid : string) : SE World Fault Project :=
  w ← gets id; match w_projects w !! pid with Some p => mret p | None => throw (CollabFault "not-found" "project") end.

(** The trigger that gives every new project its four columns. *)
(* @src packages/core/src/collab/migrations.ts 106 114 project_board_defaults *)
Definition default_board (pid : string) : Data :=
  {| columns_of := imap (fun i e => {| col_id := pid +:+ ":" +:+ fst e; col_title := None; col_titleKey := Some ("project.board." +:+ snd e);
                                      col_position := Z.of_nat i; wipLimit := None |})
       [("backlog", "backlog"); ("in-progress", "inProgress"); ("review", "review"); ("done", "done")];
     cards_of := []; activity_of := []; comments_of := [] |}.

(* @src packages/core/src/collab/store.ts 89 105 createProject *)
Definition createProject (pname owner : string) (settings : js) (oid : option string) : SE World Fault Project :=
  let name := trim pname in
  _ ← require (negb (is_empty name)) (invalid "name");
  _ ← require (slen name <=? 256) (invalid "name");
  _ ← require (negb (is_empty owner)) (invalid "owner");
  t ← now;
  pid ← match oid with Some i => mret i | None => new_id "prj" end;
  tx (w ← gets id;
      _ ← require (bool_decide (w_projects w !! pid = None)) SqliteFault;
      _ ← modify (set_projects <[pid := {| p_id := pid; p_name := name; p_owner := owner; p_members := ∅; p_agents := ∅;
             p_settings := js_set "settingsVersion" (JNum (Fin 2)) settings; p_createdAt := t; p_updatedAt := t; p_archivedAt := None |}]>);
      _ ← modify (set_boards <[pid := default_board pid]>);
      _ ← modify (upd_project pid (set_membership <[owner := RoleLead]> (fun a => a)));
      project pid).

(* @src packages/core/src/collab/store.ts 107 116 updateProject *)
Definition updateProject (pid name : string) : SE World Fault Project :=
  _ ← require (negb (is_empty (trim name)) && (slen (trim name) <=? 256)) (invalid "name");
  tx (_ ← live_project pid;
      t ← now;
      _ ← modify (upd_project pid (fun p => set_row (trim name) (settingsJson (p_settings p)) t (p_archivedAt p) p));
      project pid).

(* @src packages/core/src/collab/store.ts 145 154 archiveProject *)
Definition archiveProject (pid : string) : SE World Fault Project :=
  t ← now;
  tx (p ← project pid;
      match p_archivedAt p with
      | Some _ => mret p
      | None => _ ← modify (upd_project pid (fun p => set_row (p_name p) (settingsJson (p_settings p)) t (Some t) p)); project pid
      end).

(* @src packages/core/src/collab/store.ts 156 170 addMember *)
Definition addMember (pid user role : string) : SE World Fault Project :=
  _ ← require (negb (is_empty user)) (invalid "userId");
  _ ← require (String.eqb role "member" || String.eqb role "lead") (invalid "role");
  t ← now;
  tx (p ← live_project pid;
      _ ← require (negb (String.eqb user (p_owner p) && negb (String.eqb role "lead"))) (conflict "owner");
      _ ← modify (upd_project pid (set_membership <[user := if String.eqb role "lead" then RoleLead else RoleMember]> (fun a => a)));
      _ ← touch pid t;
      project pid).

(* @src packages/core/src/collab/store.ts 172 182 removeMember *)
Definition removeMember (pid user : string) : SE World Fault Project :=
  t ← now;
  tx (p ← live_project pid;
      _ ← require (negb (String.eqb user (p_owner p))) (conflict "owner");
      _ ← modify (upd_project pid (set_membership (delete user) (fun a => a)));
      _ ← releaseAssignee pid {| a_kind := Person; a_id := user |};
      _ ← touch pid t;
      project pid).

(* @src packages/core/src/collab/store.ts 184 193 addAgent *)
Definition addAgent (pid agent : string) : SE World Fault Project :=
  _ ← require (negb (is_empty agent)) (invalid "agentId");
  t ← now;
  tx (_ ← live_project pid;
      _ ← modify (upd_project pid (set_membership (fun m => m) (fun a => {[agent]} ∪ a)));
      _ ← touch pid t;
      project pid).

(* @src packages/core/src/collab/store.ts 195 204 removeAgent *)
Definition removeAgent (pid agent : string) : SE World Fault Project :=
  t ← now;
  tx (_ ← live_project pid;
      _ ← modify (upd_project pid (set_membership (fun m => m) (fun a => a ∖ {[agent]})));
      _ ← releaseAssignee pid {| a_kind := Agent; a_id := agent |};
      _ ← touch pid t;
      project pid).
End store.
