(* ===== verification/BoardInv.v ===== *)
(** * Boards: lists, placing a card, the board invariant, and its preservation

    Sorting and splicing permute, renumbering numbers a column 0 to n-1 and takes cards
    from other columns only, and everything a board invariant looks at survives updates
    that leave a card's place alone. So every call of the store keeps each stored board
    well formed, whether the call returns or throws. *)

From S2P Require Import Prelude Board.

(** ** Sorting, splicing, finding *)

Lemma splice_perm {A} i (x : A) l : splice i x l ≡ₚ x :: l.
Proof. unfold splice. rewrite <- Permutation_middle. by rewrite take_drop. Qed.

Lemma index_of_app id l1 l2 :
  id ∉ l1 -> index_of id (l1 ++ l2) = (fun n => (length l1 + n)%nat) <$> index_of id l2.
Proof.
  induction l1 as [|x l IH]; intros H; simpl; [by destruct (index_of id l2)|].
  destruct (String.eqb x id) eqn:E; bool_hyps; [set_solver|].
  rewrite IH by set_solver. by destruct (index_of id l2).
Qed.

Lemma index_of_none id l : index_of id l = None <-> id ∉ l.
Proof.
  induction l as [|x l IH]; simpl; [set_solver|].
  destruct (String.eqb x id) eqn:E; bool_hyps; [set_solver|].
  destruct (index_of id l); simpl; set_solver.
Qed.

Lemma index_of_some id l : id ∈ l -> exists i, index_of id l = Some i.
Proof. intros H. destruct (index_of id l) eqn:E; [eauto|]. by apply index_of_none in E. Qed.

(** The indices of a list without repetition, read off in order. *)
Lemma index_of_seq l : NoDup l -> map (fun id => default 0%nat (index_of id l)) l = seq 0 (length l).
Proof.
  intros Hnd. assert (H : forall l1 l2, l = l1 ++ l2 ->
    map (fun id => default 0%nat (index_of id l)) l2 = seq (length l1) (length l2)).
  { intros l1 l2. revert l1. induction l2 as [|x l2 IH]; intros l1 ->; simpl; [done|]. f_equal.
    - apply list.NoDup_app in Hnd as (_ & Hd & _). rewrite index_of_app by (intros Hx; apply (Hd x Hx); set_solver).
      simpl. rewrite String.eqb_refl. simpl. lia.
    - rewrite (IH (l1 ++ [x])) by (by rewrite <- app_assoc). rewrite length_app. simpl. f_equal. lia. }
  exact (H [] l eq_refl).
Qed.

Lemma bfilter_NoDup {A} (p : A -> bool) l : NoDup l -> NoDup (bfilter p l).
Proof. rewrite !NoDup_ListNoDup. apply List.NoDup_filter. Qed.

Lemma bfilter_perm {A} (p : A -> bool) l l' : l ≡ₚ l' -> bfilter p l ≡ₚ bfilter p l'.
Proof.
  unfold bfilter. induction 1; simpl; [done| | |by etrans].
  - destruct (p x); [by constructor|done].
  - destruct (p x), (p y); try done. apply Permutation_swap.
Qed.

Lemma NoDup_map_filter {A B} (f : A -> B) (p : A -> bool) l : NoDup (map f l) -> NoDup (map f (bfilter p l)).
Proof.
  unfold bfilter. induction l as [|x l IH]; simpl; [done|]. rewrite !list.NoDup_cons. intros [Hx Hl].
  destruct (p x); simpl; [|by apply IH]. apply list.NoDup_cons. split; [|by apply IH].
  intros H. apply Hx. apply elem_of_map in H as (y & -> & Hy). apply elem_of_map. exists y. split; [done|].
  by apply (bfilter_elem p l y) in Hy as [? _].
Qed.

Lemma map_fix {A} (f : A -> A) l : (forall x, x ∈ l -> f x = x) -> map f l = l.
Proof. induction l as [|x l IH]; intros H; simpl; [done|]. rewrite (H x) by left. by rewrite IH by set_solver. Qed.

(** ** What the invariants look at *)

Definition skel (c : BoardCard) : string * string * Z * bool := (c_id c, c_columnId c, c_position c, c_archived c).

Definition positions (col : string) (l : list BoardCard) : list Z := map c_position (bfilter (in_column col) l).

(** The cards of a column are numbered 0 to n-1. *)
Definition contiguous (col : string) (l : list BoardCard) : Prop :=
  positions col l ≡ₚ map Z.of_nat (seq 0 (length (positions col l))).

Lemma skel_positions col l l' : map skel l = map skel l' -> positions col l = positions col l'.
Proof.
  unfold positions, bfilter. revert l'. induction l as [|c l IH]; intros [|c' l']; simpl; try done.
  intros [= Hid Hc Hp Ha Hl]. specialize (IH l' Hl).
  assert (E : in_column col c = in_column col c') by (unfold in_column; by rewrite Hc).
  rewrite E. destruct (in_column col c'); simpl; by rewrite IH, ?Hp.
Qed.

Lemma skel_ids l l' : map skel l = map skel l' -> map c_id l = map c_id l'.
Proof.
  intros H. apply (f_equal (map (fun x => x.1.1.1))) in H. rewrite !map_map in H. exact H.
Qed.

Lemma skel_active col l l' : map skel l = map skel l' ->
  length (bfilter (active_in col) l) = length (bfilter (active_in col) l').
Proof.
  unfold bfilter. revert l'. induction l as [|c l IH]; intros [|c' l']; simpl; try done.
  intros [= Hid Hc Hp Ha Hl]. specialize (IH l' Hl).
  assert (E : active_in col c = active_in col c') by (unfold active_in, in_column; by rewrite Hc, Ha).
  rewrite E. destruct (active_in col c'); simpl; by rewrite IH.
Qed.

Lemma skel_elem l l' c : map skel l = map skel l' -> c ∈ l -> exists c', c' ∈ l' /\ skel c' = skel c.
Proof.
  intros H Hc. assert (Hm : skel c ∈ map skel l') by (rewrite <- H; apply elem_of_map; eauto).
  apply elem_of_map in Hm as (c' & E & ?). eauto.
Qed.

Lemma skel_upd id f l : (forall c, skel (f c) = skel c) ->
  map skel (map (fun c => if String.eqb (c_id c) id then f c else c) l) = map skel l.
Proof. intros H. rewrite map_map. apply map_ext. intros c. by destruct (String.eqb _ _). Qed.

(** ** Renumbering *)

Definition renum (col : string) (ids : list string) (l : list BoardCard) : list BoardCard :=
  map (fun c => match index_of (c_id c) ids with Some i => set_place col (Z.of_nat i) c | None => c end) l.

Lemma renum_ids col ids l : map c_id (renum col ids l) = map c_id l.
Proof. unfold renum. rewrite map_map. apply map_ext. intros c. by destruct (index_of _ _). Qed.

Lemma renum_length col ids l : length (renum col ids l) = length l.
Proof. apply length_map. Qed.

Lemma renum_in_column col ids col' c :
  in_column col' (match index_of (c_id c) ids with Some i => set_place col (Z.of_nat i) c | None => c end) =
  match index_of (c_id c) ids with Some _ => String.eqb col col' | None => in_column col' c end.
Proof. by destruct (index_of _ _). Qed.

(** Another column only loses the cards that were named. *)
Lemma renum_other col ids col' l :
  col' <> col -> bfilter (in_column col') (renum col ids l) =
                 bfilter (fun c => in_column col' c && bool_decide (c_id c ∉ ids)) l.
Proof.
  intros Hne. unfold renum. rewrite bfilter_map.
  rewrite (bfilter_ext _ (fun c => in_column col' c && bool_decide (c_id c ∉ ids))).
  - apply map_fix. intros c Hc. apply bfilter_elem in Hc as [_ Hc]. bool_hyps.
    match goal with H : c_id c ∉ ids |- _ => apply index_of_none in H; by rewrite H end.
  - intros c _. rewrite renum_in_column. destruct (index_of (c_id c) ids) eqn:E.
    + rewrite bool_decide_eq_false_2, andb_false_r; [by apply String.eqb_neq|].
      intros H. apply index_of_none in H. congruence.
    + rewrite bool_decide_eq_true_2, andb_true_r; [done|]. by apply index_of_none.
Qed.

(** The named cards fill the column from 0 on. *)
Lemma renum_contiguous col ids l :
  NoDup (map c_id l) -> NoDup ids -> (forall x, x ∈ ids -> x ∈ map c_id l) ->
  (forall c, c ∈ l -> c_columnId c = col -> c_id c ∈ ids) ->
  contiguous col (renum col ids l).
Proof.
  intros Hnd Hids Hsub Hcov.
  assert (Hpos : positions col (renum col ids l) =
    map Z.of_nat (map (fun x => default 0%nat (index_of x ids)) (bfilter (fun x => bool_decide (x ∈ ids)) (map c_id l)))).
  { unfold positions, renum. rewrite bfilter_map, bfilter_map, !map_map.
    rewrite (bfilter_ext _ (fun c => bool_decide (c_id c ∈ ids))).
    - apply map_ext_in. intros c Hc. apply list_elem_of_In in Hc. apply bfilter_elem in Hc as [_ Hc]. bool_hyps.
      match goal with H : c_id c ∈ ids |- _ => destruct (index_of_some _ _ H) as [i ->] end. done.
    - intros c Hc. rewrite renum_in_column. destruct (index_of (c_id c) ids) eqn:E.
      + rewrite String.eqb_refl. symmetry. apply bool_decide_eq_true. destruct (decide (c_id c ∈ ids)) as [|Hn]; [done|].
        apply index_of_none in Hn. congruence.
      + apply index_of_none in E. rewrite bool_decide_eq_false_2 by done. apply String.eqb_neq. intros Ec.
        by apply E, Hcov. }
  assert (Hperm : bfilter (fun x => bool_decide (x ∈ ids)) (map c_id l) ≡ₚ ids).
  { apply NoDup_Permutation; [by apply bfilter_NoDup|done|]. intros x. rewrite bfilter_elem, bool_decide_eq_true. naive_solver. }
  unfold contiguous. rewrite Hpos, !length_map. rewrite Hperm at 1. rewrite index_of_seq by done.
  by rewrite (Permutation_length Hperm).
Qed.

(** ** Placing a card *)

(** What a move leaves alone. *)
Definition frame (c : BoardCard) : string * bool * list BoardActor := (c_id c, c_archived c, c_assignees c).

(** The column of each card once [cid] is in [col]. *)
Definition moved_to (cid col : string) (c : BoardCard) : string * string :=
  (c_id c, if String.eqb (c_id c) cid then col else c_columnId c).

Lemma renum_frame col ids l : map frame (renum col ids l) = map frame l.
Proof. unfold renum. rewrite map_map. apply map_ext. intros c. by destruct (index_of _ _). Qed.

(** Naming only cards that are in the column already moves nobody. *)
Lemma renum_same_column col ids l :
  (forall c, c ∈ l -> c_id c ∈ ids -> c_columnId c = col) ->
  map (fun c => (c_id c, c_columnId c)) (renum col ids l) = map (fun c => (c_id c, c_columnId c)) l.
Proof.
  intros H. unfold renum. rewrite map_map. apply map_ext_in. intros c Hc. apply list_elem_of_In in Hc.
  destruct (index_of (c_id c) ids) eqn:E; [|done]. simpl. f_equal. symmetry. apply H; [done|].
  destruct (decide (c_id c ∈ ids)) as [|Hn]; [done|]. apply index_of_none in Hn. congruence.
Qed.

Lemma column_map_elem {l l'} : map (fun c => (c_id c, c_columnId c)) l = map (fun c => (c_id c, c_columnId c)) l' ->
  forall c, c ∈ l -> exists c', c' ∈ l' /\ c_id c' = c_id c /\ c_columnId c' = c_columnId c.
Proof.
  intros H c Hc. assert (Hm : (c_id c, c_columnId c) ∈ map (fun c => (c_id c, c_columnId c)) l') by (rewrite <- H; apply elem_of_map; eauto).
  apply elem_of_map in Hm as (c' & [= ? ?] & ?). eauto.
Qed.

Section place.
Context (localeLe : string -> string -> bool).

(** The ids of column [col] with [cid] spliced in at [i]. *)
Definition target_ids (cid col : string) (i : nat) (l : list BoardCard) : list string :=
  splice i cid (map c_id (sort_by (card_le localeLe) (bfilter (fun x => negb (String.eqb (c_id x) cid) && in_column col x) l))).

Lemma target_ids_elem cid col i l x :
  x ∈ target_ids cid col i l <-> x = cid \/ exists c, c ∈ l /\ c_id c = x /\ x <> cid /\ c_columnId c = col.
Proof.
  unfold target_ids. rewrite splice_perm, elem_of_cons, elem_of_map. setoid_rewrite sort_by_perm.
  setoid_rewrite bfilter_elem. unfold in_column. split.
  - intros [->|(c & -> & Hc & Hp)]; [by left|]. bool_hyps. right. eauto.
  - intros [->|(c & Hc & <- & Hne & <-)]; [by left|]. right. exists c. split; [done|]. split; [done|].
    rewrite String.eqb_refl, andb_true_r. apply negb_true_iff. by apply String.eqb_neq.
Qed.

Lemma target_ids_NoDup cid col i l : NoDup (map c_id l) -> NoDup (target_ids cid col i l).
Proof.
  intros Hnd. unfold target_ids. rewrite splice_perm. apply list.NoDup_cons. split.
  - intros H. apply elem_of_map in H as (c & E & Hc). rewrite sort_by_perm in Hc. apply bfilter_elem in Hc as [_ Hc].
    bool_hyps. congruence.
  - rewrite sort_by_perm. by apply NoDup_map_filter.
Qed.

(** The cards after a move. *)
Definition place_cards (cid col : string) (i : nat) (old : string) (l : list BoardCard) : list BoardCard :=
  let l1 := renum col (target_ids cid col i l) l in
  if String.eqb old col then l1
  else renum old (map c_id (sort_by pos_le (bfilter (in_column old) l1))) l1.

Lemma renum_target_columns cid col i l :
  NoDup (map c_id l) ->
  map (fun c => (c_id c, c_columnId c)) (renum col (target_ids cid col i l) l) = map (moved_to cid col) l.
Proof.
  intros Hnd. unfold renum. rewrite map_map. apply map_ext_in. intros c Hc. apply list_elem_of_In in Hc.
  unfold moved_to. destruct (index_of (c_id c) _) eqn:E.
  - simpl. f_equal. destruct (String.eqb (c_id c) cid) eqn:Ec; [done|]. bool_hyps.
    assert (Hin : c_id c ∈ target_ids cid col i l).
    { destruct (decide (c_id c ∈ target_ids cid col i l)) as [|Hn]; [done|]. apply index_of_none in Hn. congruence. }
    apply target_ids_elem in Hin as [?|(c' & Hc' & Hid & _ & <-)]; [done|].
    by rewrite (NoDup_map_inj c_id l c' c).
  - apply index_of_none in E. destruct (String.eqb (c_id c) cid) eqn:Ec; [|done]. bool_hyps.
    exfalso. apply E. apply target_ids_elem. by left.
Qed.

Lemma place_cards_facts cid col i l c :
  NoDup (map c_id l) -> c ∈ l -> c_id c = cid ->
  let l' := place_cards cid col i (c_columnId c) l in
  map frame l' = map frame l /\
  map (fun c => (c_id c, c_columnId c)) l' = map (moved_to cid col) l /\
  (forall k, k = col \/ k = c_columnId c \/ contiguous k l -> contiguous k l').
Proof.
  intros Hnd Hc Hcid. cbv zeta. unfold place_cards. set (old := c_columnId c).
  set (l1 := renum col (target_ids cid col i l) l).
  assert (Hids1 : map c_id l1 = map c_id l) by apply renum_ids.
  assert (Hcols1 : map (fun c => (c_id c, c_columnId c)) l1 = map (moved_to cid col) l) by by apply renum_target_columns.
  assert (Hcol : contiguous col l1).
  { apply renum_contiguous; [done|by apply target_ids_NoDup| |].
    - intros x Hx. apply target_ids_elem in Hx as [->|(d & Hd & <- & _)]; apply elem_of_map; eauto.
    - intros d Hd Hk. apply target_ids_elem. destruct (decide (c_id d = cid)); eauto 6. }
  assert (Hother : forall k, k <> col -> k <> old -> positions k l1 = positions k l).
  { intros k Hk Ho. unfold positions, l1. rewrite renum_other by done. f_equal. apply bfilter_ext. intros d Hd.
    destruct (in_column k d) eqn:E; [|done]. simpl. apply bool_decide_eq_true. intros Hin. unfold in_column in E. bool_hyps.
    apply target_ids_elem in Hin as [Hin|(d' & Hd' & Hid & _ & Hcd)].
    - apply Ho. rewrite <- E. unfold old. f_equal. apply (NoDup_map_inj c_id l); congruence.
    - apply Hk. rewrite <- E, <- Hcd. f_equal. by apply (NoDup_map_inj c_id l). }
  destruct (String.eqb old col) eqn:Eo; bool_hyps.
  - split; [apply renum_frame|]. split; [done|]. intros k Hk.
    destruct (decide (k = col)) as [->|Hne]; [done|].
    assert (Ho : k <> old) by congruence. destruct Hk as [?|[?|Hk]]; [done|done|].
    unfold contiguous in *. by rewrite (Hother k Hne Ho).
  - set (ids2 := map c_id (sort_by pos_le (bfilter (in_column old) l1))).
    assert (Hin2 : forall x, x ∈ ids2 <-> exists d, d ∈ l1 /\ c_id d = x /\ c_columnId d = old).
    { intros x. unfold ids2. rewrite elem_of_map. setoid_rewrite sort_by_perm. setoid_rewrite bfilter_elem.
      unfold in_column. setoid_rewrite String.eqb_eq. naive_solver. }
    assert (Hcols2 : map (fun c => (c_id c, c_columnId c)) (renum old ids2 l1) = map (fun c => (c_id c, c_columnId c)) l1).
    { apply renum_same_column. intros d Hd Hid. apply Hin2 in Hid as (d' & Hd' & Hid & <-). f_equal.
      apply (NoDup_map_inj c_id l1); [by rewrite Hids1|done..]. }
    split; [rewrite renum_frame; apply renum_frame|]. split; [by rewrite Hcols2|]. intros k Hk.
    destruct (decide (k = old)) as [->|Hne].
    { apply renum_contiguous; [by rewrite Hids1| | |].
      - unfold ids2. rewrite sort_by_perm. apply NoDup_map_filter. by rewrite Hids1.
      - intros x Hx. apply Hin2 in Hx as (d & Hd & <- & _). apply elem_of_map. eauto.
      - intros d Hd Hk'. apply Hin2. eauto. }
    assert (Hsame : positions k (renum old ids2 l1) = positions k l1).
    { unfold positions. rewrite renum_other by done. f_equal. apply bfilter_ext. intros d Hd.
      destruct (in_column k d) eqn:E; [|done]. simpl. apply bool_decide_eq_true. intros Hin. unfold in_column in E. bool_hyps.
      apply Hin2 in Hin as (d' & Hd' & Hid & Hcd). apply Hne. rewrite <- E, <- Hcd. f_equal.
      apply (NoDup_map_inj c_id l1); [by rewrite Hids1|done..]. }
    unfold contiguous in *. rewrite Hsame. destruct (decide (k = col)) as [->|Hnc]; [done|].
    destruct Hk as [?|[?|Hk]]; [done|done|]. by rewrite (Hother k Hnc Hne).
Qed.

Lemma card_ok d cid c : card d cid = Ok c <-> bfind (fun c => String.eqb (c_id c) cid) (cards_of d) = Some c.
Proof. unfold card. destruct (bfind _ _); split; congruence. Qed.

Lemma card_in d cid c : card d cid = Ok c -> c ∈ cards_of d /\ c_id c = cid.
Proof. intros H. apply card_ok in H. apply bfind_some in H as [? H]. by bool_hyps. Qed.

Lemma column_in d cid c : column d cid = Ok c -> c ∈ columns_of d /\ col_id c = cid.
Proof.
  unfold column. destruct (bfind _ _) eqn:E; [|discriminate]. intros [= <-]. apply bfind_some in E as [? E]. by bool_hyps.
Qed.

(** A move that succeeds is [place_cards]; one that fails leaves the world alone. *)
Lemma place_run cid col pos s :
  match place localeLe cid col pos s with
  | (Ok _, s') =>
      exists c i, column (dr s) col = Ok c /\ exists k, card (dr s) cid = Ok k /\
        s' = {| dr := with_cards (place_cards cid col i (c_columnId k)) (dr s); dr_world := dr_world s |}
  | (Err _, s') => dr_world s' = dr_world s
  end.
Proof.
  unfold place. unfold mbind at 1, SE_bind at 1, peek at 1. destruct (column (dr s) col) as [c|] eqn:Ec; [|done].
  unfold mbind at 1, SE_bind at 1, peek at 1. destruct (card (dr s) cid) as [k|] eqn:Ek; [|done].
  cbv zeta. erewrite SE_bind_run by reflexivity. cbv zeta. unfold mbind at 1, SE_bind at 1, lift.
  destruct (index pos _) as [i|] eqn:Ei; [|done]. erewrite SE_bind_run by reflexivity. cbv zeta.
  destruct (String.eqb (c_columnId k) col) eqn:Eo; unfold mret, SE_ret; [|erewrite SE_bind_run by reflexivity];
    exists c, i; (split; [done|]); exists k; (split; [done|]);
    unfold place_cards, with_cards; cbn [columns_of cards_of activity_of comments_of]; rewrite Eo; reflexivity.
Qed.
End place.

(** ** The invariant of one board *)

Section invariant.
Context (clock_at : nat -> Z) (newId : string -> nat -> string) (localeLe : string -> string -> bool).
Context (canParse : string -> bool) (fingerprint : js -> string).
Context (encodeCursor : string * string -> string) (decodeCursor : string -> option (string * string)).
(** The id generator never repeats itself and never makes a default column's id. *)
Context (newId_inj : forall p n m, newId p n = newId p m -> n = m).
Context (newId_plain : forall n pid e, newId "col" n <> pid +:+ ":" +:+ e).

(** [ok] tells who may be assigned, [E] the columns whose numbering is pending. *)
Record wf (pid : string) (ok : BoardActor -> Prop) (E : list string) (ids : nat) (d : Data) : Prop := {
  wf_columns : NoDup (map col_id (columns_of d));
  wf_column_order : map col_position (columns_of d) = map Z.of_nat (seq 0 (length (columns_of d)));
  wf_cards : NoDup (map c_id (cards_of d));
  wf_home : forall c, c ∈ cards_of d -> c_columnId c ∈ map col_id (columns_of d);
  wf_positions : forall k, k ∉ E -> contiguous k (cards_of d);
  wf_activity : map act_id (activity_of d) = map seq_id (seq 1 (length (activity_of d)));
  wf_comments : map cm_id (comments_of d) = map seq_id (seq 1 (length (comments_of d)));
  wf_assignees : forall c a, c ∈ cards_of d -> a ∈ c_assignees c -> ok a;
  wf_fresh_cards : forall x, x ∈ map c_id (cards_of d) -> exists n, (n < ids)%nat /\ x = newId "card" n;
  wf_fresh_columns : forall x, x ∈ map col_id (columns_of d) ->
    (exists n, (n < ids)%nat /\ x = newId "col" n) \/ exists e, x = pid +:+ ":" +:+ e
}.

Lemma wf_later pid ok E n m d : (n <= m)%nat -> wf pid ok E n d -> wf pid ok E m d.
Proof.
  intros Hnm []. constructor; try done.
  - intros x Hx. destruct (wf_fresh_cards0 x Hx) as (k & ? & ?). exists k. split; [lia|done].
  - intros x Hx. destruct (wf_fresh_columns0 x Hx) as [(k & ? & ?)|?]; [|by right]. left. exists k. split; [lia|done].
Qed.

Lemma wf_members pid (ok ok' : BoardActor -> Prop) E n d :
  (forall a, ok a -> ok' a) -> wf pid ok E n d -> wf pid ok' E n d.
Proof. intros H []. constructor; eauto. Qed.

(** Updates of cards that leave skeletons alone and assign nobody new. *)
Lemma wf_cards_update pid ok E n d f :
  (map skel (f (cards_of d)) = map skel (cards_of d)) ->
  (forall c a, c ∈ f (cards_of d) -> a ∈ c_assignees c -> ok a) ->
  wf pid ok E n d -> wf pid ok E n (with_cards f d).
Proof.
  intros Hs Ha []. constructor; simpl; try done.
  - by rewrite (skel_ids _ _ Hs).
  - intros c Hc. destruct (skel_elem _ _ c Hs Hc) as (c' & Hc' & [= _ <- _ _]). by apply wf_home0.
  - intros k Hk. unfold contiguous. rewrite (skel_positions k _ _ Hs). by apply wf_positions0.
  - intros x. rewrite (skel_ids _ _ Hs). auto.
Qed.

Lemma seq_snoc n : seq 1 (S n) = seq 1 n ++ [S n].
Proof. rewrite seq_S. done. Qed.

Section draft.
Context (pid : string) (ok : BoardActor -> Prop) (P0 : gmap string Project) (B0 : gmap string Data) (ids0 : nat).

Definition D (E : list string) (s : Draft) : Prop :=
  wf pid ok E (w_ids (dr_world s)) (dr s) /\ w_projects (dr_world s) = P0 /\ w_boards (dr_world s) = B0 /\
  (ids0 <= w_ids (dr_world s))%nat.

(** After a throw only the generator matters: the rows are rolled back. *)
Definition R (s : Draft) : Prop := (ids0 <= w_ids (dr_world s))%nat.

Lemma D_R E s : D E s -> R s.
Proof. by intros (_ & _ & _ & ?). Qed.

Definition draws {A} (E E' : list string) (m : SE Draft Fault A) : Prop := triple (D E) m (fun _ => D E') (fun _ => R).

Lemma draws_bind {A B} E E' E'' (m : SE Draft Fault A) (k : A -> SE Draft Fault B) :
  draws E E' m -> (forall a, draws E' E'' (k a)) -> draws E E'' (m ≫= k).
Proof. intros. by eapply triple_bind. Qed.

Lemma draws_ret {A} E (a : A) : draws E E (mret a).
Proof. by apply triple_ret. Qed.

Lemma draws_peek {A} E (f : Data -> result Fault A) : draws E E (peek f).
Proof. intros s Hs. unfold peek. destruct (f (dr s)); [done|by apply D_R in Hs]. Qed.

(** A look whose result the rest depends on. *)
Lemma draws_peek_bind {A B} E E' (f : Data -> result Fault A) (k : A -> SE Draft Fault B) :
  (forall a s, D E s -> f (dr s) = Ok a -> match k a s with (Ok _, s') => D E' s' | (Err _, s') => R s' end) ->
  draws E E' (peek f ≫= k).
Proof.
  intros H s Hs. unfold mbind, SE_bind, peek. destruct (f (dr s)) eqn:Ef; [by apply H|by apply D_R in Hs].
Qed.

Lemma draws_require E b (e : Fault) : draws E E (require b e).
Proof. intros s Hs. unfold require. destruct b; [done|by apply D_R in Hs]. Qed.

Lemma draws_lift {A} E (r : result Fault A) : draws E E (lift r).
Proof. intros s Hs. unfold lift. destruct r; [done|by apply D_R in Hs]. Qed.

Lemma draws_lift_bind {A B} E E' (r : result Fault A) (k : A -> SE Draft Fault B) :
  (forall a, r = Ok a -> draws E E' (k a)) -> draws E E' (lift r ≫= k).
Proof. intros H s Hs. unfold mbind, SE_bind, lift. destruct r as [a|e]; [by apply H|by apply D_R in Hs]. Qed.

Lemma draws_now E : draws E E (in_world (now clock_at)).
Proof. by intros s (? & ? & ? & ?). Qed.

Lemma draws_edit E E' f :
  (forall n d, wf pid ok E n d -> wf pid ok E' n (f d)) -> draws E E' (edit f).
Proof. intros H s (? & ? & ? & ?). unfold D. simpl. auto. Qed.

Lemma draws_cards E f :
  (forall n d, wf pid ok E n d -> map skel (f (cards_of d)) = map skel (cards_of d) /\
     (forall c a, c ∈ f (cards_of d) -> a ∈ c_assignees c -> ok a)) ->
  draws E E (edit (with_cards f)).
Proof. intros H. apply draws_edit. intros n d Hd. destruct (H n d Hd). by apply wf_cards_update. Qed.

(** Updates of one card that keep its skeleton and assign nobody new. *)
Lemma draws_upd E cid f :
  (forall c, skel (f c) = skel c) -> (forall c a, a ∈ c_assignees (f c) -> a ∈ c_assignees c \/ ok a) ->
  draws E E (edit (upd_card cid f)).
Proof.
  intros Hs Ha. apply draws_cards. intros n d Hd. split; [by apply skel_upd|].
  intros c a Hc Hin. apply elem_of_map in Hc as (c' & -> & Hc').
  destruct (String.eqb (c_id c') cid); [|by eapply (wf_assignees _ _ _ _ _ Hd)].
  destruct (Ha c' a Hin); [by eapply (wf_assignees _ _ _ _ _ Hd)|done].
Qed.

Lemma draws_history E cid k actor detail : draws E E (history clock_at cid k actor detail).
Proof.
  eapply draws_bind; [apply draws_now|]. intros t. eapply draws_bind; [apply draws_upd; [done|by left]|]. intros _.
  apply draws_edit. intros n d []. constructor; simpl; try done.
  rewrite length_app, map_app, wf_activity0. simpl. rewrite Nat.add_1_r, seq_snoc, map_app. done.
Qed.

Lemma draws_place E cid col pos :
  draws (E ++ [col]) E (place localeLe cid col pos) /\ draws E E (place localeLe cid col pos).
Proof.
  assert (H : draws (E ++ [col]) E (place localeLe cid col pos)).
  { intros s Hs. pose proof (place_run localeLe cid col pos s) as Hp.
    destruct (place localeLe cid col pos s) as [[u|e] s']; [|unfold R; rewrite Hp; by apply D_R in Hs].
    destruct Hp as (c & i & Hcol & k & Hk & ->). destruct Hs as (Hwf & HP & HB & Hi). unfold D. simpl.
    split; [|done]. apply card_in in Hk as [Hk Hid]. apply column_in in Hcol as [Hcol Hcid].
    destruct (place_cards_facts localeLe cid col i (cards_of (dr s)) k (wf_cards _ _ _ _ _ Hwf) Hk Hid) as (Hf & Hc & Hpos).
    set (l' := place_cards _ cid col i _ _) in *.
    assert (Hids : map c_id l' = map c_id (cards_of (dr s))).
    { apply (f_equal (map (fun x => x.1.1))) in Hf. by rewrite !map_map in Hf. }
    destruct Hwf. constructor; simpl; try done.
    - fold l'. by rewrite Hids.
    - intros d Hd. fold l' in Hd.
      assert (Hm : (c_id d, c_columnId d) ∈ map (moved_to cid col) (cards_of (dr s))) by (rewrite <- Hc; apply elem_of_map; eauto).
      apply elem_of_map in Hm as (d' & [= _ ->] & Hd'). destruct (String.eqb (c_id d') cid).
      + apply elem_of_map. eauto.
      + by apply wf_home0.
    - intros x Hx. fold l'. apply Hpos. destruct (decide (x = col)) as [->|]; [by left|]. right. right.
      apply wf_positions0. apply not_elem_of_app. split; [done|]. by rewrite list_elem_of_singleton.
    - intros d a Hd Ha. fold l' in Hd.
      assert (Hm : frame d ∈ map frame (cards_of (dr s))) by (rewrite <- Hf; apply elem_of_map; eauto).
      apply elem_of_map in Hm as (d' & [= _ _ E'] & Hd'). apply (wf_assignees0 d'); [done|]. by rewrite <- E'.
    - intros x. fold l'. rewrite Hids. auto. }
  split; [done|]. intros s (Hwf & ?). apply H. split; [|done]. destruct Hwf. constructor; try done.
  intros k Hk. apply wf_positions0. intros Hin. apply Hk, elem_of_app. by left.
Qed.

Lemma draws_new_id E prefix :
  triple (D E) (in_world (new_id newId prefix))
    (fun i s => D E s /\ exists n, i = newId prefix n /\ w_ids (dr_world s) = S n /\ wf pid ok E n (dr s))
    (fun _ => R).
Proof.
  intros s (Hwf & ? & ? & ?). simpl. unfold D. simpl. split.
  - split_and!; try done; [|lia]. eapply wf_later; [|exact Hwf]. lia.
  - exists (w_ids (dr_world s)). done.
Qed.
End draft.

(** ** Each call's body *)

Section bodies.
Context (pid : string) (ok : BoardActor -> Prop) (P0 : gmap string Project) (B0 : gmap string Data) (ids0 : nat).
Notation draws := (draws pid ok P0 B0 ids0).
Notation D := (D pid ok P0 B0 ids0).
Notation R := (R ids0).

Lemma draws_release E owner who ids : draws E E (release_all clock_at owner who ids).
Proof.
  induction ids as [|i ids IH]; simpl; [apply draws_ret|].
  eapply draws_bind; [apply draws_peek|]. intros c. eapply draws_bind; [|intros []; exact IH].
  destruct (existsb _ _); [|apply draws_ret]. eapply draws_bind; [|intros []; apply draws_history].
  apply draws_upd; [done|]. intros d a Ha. left. simpl in Ha. by apply bfilter_elem in Ha as [? _].
Qed.

Lemma imap_map {A B} (f : nat -> A -> B) (g : B -> Z) l :
  (forall i x, g (f i x) = Z.of_nat i) -> map g (imap f l) = map Z.of_nat (seq 0 (length l)).
Proof.
  intros H. assert (Hk : forall k (l : list A), map g (imap (fun i => f (k + i)%nat) l) = map Z.of_nat (seq k (length l))).
  { intros k l0. revert k. induction l0 as [|x l0 IH]; intros k; simpl; [done|]. rewrite H, Nat.add_0_r. f_equal.
    rewrite <- IH. f_equal. apply imap_ext. intros i y _. simpl. f_equal. lia. }
  apply (Hk 0%nat).
Qed.

Lemma imap_map_same {A B C} (f : nat -> A -> B) (g : B -> C) (h : A -> C) l :
  (forall i x, g (f i x) = h x) -> map g (imap f l) = map h l.
Proof.
  intros H. revert f H. induction l as [|x l IH]; intros f H; simpl; [done|]. rewrite H. f_equal.
  apply (IH (f ∘ S)). intros i y. apply H.
Qed.

Lemma renumber_columns_ids l : map col_id (renumber_columns l) = map col_id l.
Proof. by apply imap_map_same. Qed.

Lemma renumber_columns_order l : map col_position (renumber_columns l) = map Z.of_nat (seq 0 (length (renumber_columns l))).
Proof. unfold renumber_columns. rewrite length_imap. by apply imap_map. Qed.

(** Rearranged columns: the same columns, or a change of the set that keeps every home. *)
Lemma wf_set_columns E n d l :
  wf pid ok E n d -> NoDup (map col_id l) ->
  (forall c, c ∈ cards_of d -> c_columnId c ∈ map col_id l) ->
  (forall x, x ∈ map col_id l -> (exists k, (k < n)%nat /\ x = newId "col" k) \/ exists e, x = pid +:+ ":" +:+ e) ->
  wf pid ok E n (with_columns (fun _ => renumber_columns l) d).
Proof.
  intros [] Hnd Hh Hf. constructor; simpl; rewrite ?renumber_columns_ids; try done. apply renumber_columns_order.
Qed.

Lemma splice_ids i c l : map col_id (splice i c l) ≡ₚ col_id c :: map col_id l.
Proof. rewrite splice_perm. done. Qed.

Lemma draws_peek_pure {A B} E (f : Data -> A) (k : A -> SE Draft Fault B) :
  (forall s, D E s -> match k (f (dr s)) s with (Ok _, s') => D E s' | (Err _, s') => R s' end) ->
  draws E E (peek (fun d => Ok (f d)) ≫= k).
Proof. intros H. apply draws_peek_bind. intros a s Hs [= <-]. by apply H. Qed.

(** [upd_column] that keeps ids and positions. *)
Lemma draws_upd_column E cid f :
  (forall c, col_id (f c) = col_id c) -> (forall c, col_position (f c) = col_position c) -> draws E E (edit (upd_column cid f)).
Proof.
  intros Hi Hp. apply draws_edit. intros n d [].
  assert (Hids : map col_id (map (fun c => if String.eqb (col_id c) cid then f c else c) (columns_of d)) = map col_id (columns_of d)).
  { rewrite map_map. apply map_ext. intros c. destruct (String.eqb _ _); [apply Hi|done]. }
  assert (Hpos : map col_position (map (fun c => if String.eqb (col_id c) cid then f c else c) (columns_of d)) = map col_position (columns_of d)).
  { rewrite map_map. apply map_ext. intros c. destruct (String.eqb _ _); [apply Hp|done]. }
  constructor; simpl; rewrite ?Hids, ?Hpos, ?length_map; try done.
Qed.

(** A look at a column or card followed by a closed continuation. *)
Ltac draw :=
  match goal with
  | |- draws _ _ (peek _ ≫= _) => eapply draws_bind; [apply draws_peek|intros ?]
  | |- draws _ _ (require _ _ ≫= _) => eapply draws_bind; [apply draws_require|intros []]
  | |- draws _ _ (in_world (now _) ≫= _) => eapply draws_bind; [apply draws_now|intros ?]
  | |- draws _ _ (history _ _ _ _ _ ≫= _) => eapply draws_bind; [apply draws_history|intros []]
  | |- draws _ _ (place _ _ _ _ ≫= _) => eapply draws_bind; [apply draws_place|intros []]
  | |- draws _ _ (peek _) => apply draws_peek
  | |- draws _ _ (mret _) => apply draws_ret
  | |- draws _ _ (let _ := _ in _) => cbv zeta
  end.

(** The last value of a body does not matter to the invariant. *)
Lemma draws_then_peek {A} E E' (m : SE Draft Fault unit) (f : Data -> result Fault A) :
  draws E E' m -> draws E E' (m ≫= fun _ => peek f).
Proof. intros. eapply draws_bind; [done|]. intros. apply draws_peek. Qed.

Lemma draws_createColumn ttl ttlKey wl position :
  draws [] [] (
    _ ← require (truthy ttl || truthy ttlKey) bad;
    cid ← in_world (new_id newId "col");
    t ← lift (title_or_null ttl);
    k ← lift (title_or_null ttlKey);
    w ← lift (validWip wl);
    let c := {| col_id := cid; col_title := t; col_titleKey := k; col_position := 0; wipLimit := w |} in
    n ← peek (fun d => Ok (length (columns_of d)));
    i ← lift (index position n);
    _ ← edit (with_columns (fun l => renumber_columns (splice i c l)));
    peek (fun d => column d cid)).
Proof.
  draw. eapply triple_bind; [apply draws_new_id|]. intros cid s0 [Hs0 (n0 & -> & Hn0 & Hwf0)].
  unfold mbind at 1, SE_bind at 1, lift at 1. destruct (title_or_null ttl) as [t|]; [|by apply D_R in Hs0].
  unfold mbind at 1, SE_bind at 1, lift at 1. destruct (title_or_null ttlKey) as [k|]; [|by apply D_R in Hs0].
  unfold mbind at 1, SE_bind at 1, lift at 1. destruct (validWip wl) as [w|]; [|by apply D_R in Hs0].
  cbv zeta. erewrite SE_bind_run by reflexivity.
  unfold mbind at 1, SE_bind at 1, lift at 1. destruct (index position _) as [i|]; [|by apply D_R in Hs0].
  erewrite SE_bind_run by reflexivity.
  set (c := {| col_id := newId "col" n0; col_title := t; col_titleKey := k; col_position := 0; wipLimit := w |}).
  set (s1 := {| dr := _; dr_world := _ |}).
  assert (H1 : D [] s1).
  { destruct Hs0 as (Hwf & Hrest). split; [|exact Hrest].
    apply (wf_set_columns [] _ (dr s0) (splice i c (columns_of (dr s0)))); [done| | |].
    - rewrite splice_ids. apply list.NoDup_cons. split; [|by apply (wf_columns _ _ _ _ _ Hwf)]. simpl.
      intros Hx. destruct (wf_fresh_columns _ _ _ _ _ Hwf0 _ Hx) as [(m & Hm & E)|[e E]].
      + apply newId_inj in E. lia.
      + by apply newId_plain in E.
    - intros x Hx. rewrite splice_ids. apply elem_of_cons. right. by apply (wf_home _ _ _ _ _ Hwf).
    - intros x Hx. rewrite splice_ids in Hx. apply elem_of_cons in Hx as [->|Hx].
      + left. exists n0. simpl. rewrite Hn0. split; [lia|done].
      + by apply (wf_fresh_columns _ _ _ _ _ Hwf). }
  exact (draws_peek pid ok P0 B0 ids0 [] (fun d => column d (newId "col" n0)) s1 H1).
Qed.

Lemma draws_updateColumn cid ttl ttlKey wl :
  draws [] [] (
    _ ← peek (fun d => column d cid);
    _ ← match ttl with
        | Some s => t ← lift (title s);
            edit (upd_column cid (fun c => {| col_id := col_id c; col_title := Some t; col_titleKey := None; col_position := col_position c; wipLimit := wipLimit c |}))
        | None => mret tt end;
    _ ← match ttlKey with
        | Some s => t ← lift (title s);
            edit (upd_column cid (fun c => {| col_id := col_id c; col_title := None; col_titleKey := Some t; col_position := col_position c; wipLimit := wipLimit c |}))
        | None => mret tt end;
    _ ← match wl with
        | Some n => w ← lift (validWip n);
            edit (upd_column cid (fun c => {| col_id := col_id c; col_title := col_title c; col_titleKey := col_titleKey c; col_position := col_position c; wipLimit := w |}))
        | None => mret tt end;
    peek (fun d => column d cid)).
Proof.
  draw. do 2 (eapply draws_bind; [case_match; [apply draws_lift_bind; intros; by apply draws_upd_column|draw]|intros []]).
  apply draws_then_peek. case_match; [|draw]. apply draws_lift_bind. intros. by apply draws_upd_column.
Qed.

Lemma column_split d cid c :
  NoDup (map col_id (columns_of d)) -> column d cid = Ok c ->
  map col_id (columns_of d) ≡ₚ cid :: map col_id (bfilter (fun x => negb (String.eqb (col_id x) cid)) (columns_of d)).
Proof.
  intros Hnd Hc. apply column_in in Hc as [Hc <-].
  apply NoDup_Permutation; [done| |].
  - apply list.NoDup_cons. split; [|by apply NoDup_map_filter]. intros H. apply elem_of_map in H as (x & E & Hx).
    apply bfilter_elem in Hx as [_ Hx]. bool_hyps. congruence.
  - intros x. rewrite elem_of_cons, !elem_of_map. setoid_rewrite bfilter_elem. split.
    + intros (y & -> & Hy). destruct (decide (col_id y = col_id c)) as [E|E]; [by left|]. right. exists y.
      split; [done|]. split; [done|]. apply negb_true_iff. by apply String.eqb_neq.
    + intros [->|(y & -> & Hy & _)]; eauto.
Qed.

Lemma draws_moveColumn cid position :
  draws [] [] (
    c ← peek (fun d => column d cid);
    rest ← peek (fun d => Ok (bfilter (fun x => negb (String.eqb (col_id x) cid)) (columns_of d)));
    i ← lift (index (Some position) (length rest));
    _ ← edit (with_columns (fun _ => renumber_columns (splice i c rest)));
    peek (fun d => column d cid)).
Proof.
  apply draws_peek_bind. intros c s Hs Hc. erewrite SE_bind_run by reflexivity.
  unfold mbind at 1, SE_bind at 1, lift at 1. destruct (index _ _) as [i|]; [|by apply D_R in Hs].
  erewrite SE_bind_run by reflexivity. set (s1 := {| dr := _; dr_world := _ |}).
  assert (H1 : D [] s1).
  { destruct Hs as (Hwf & Hrest). split; [|exact Hrest].
    pose proof (column_split _ _ _ (wf_columns _ _ _ _ _ Hwf) Hc) as Hp.
    assert (Hp' : map col_id (splice i c (bfilter (fun x => negb (String.eqb (col_id x) cid)) (columns_of (dr s)))) ≡ₚ map col_id (columns_of (dr s))).
    { rewrite splice_ids, Hp. apply column_in in Hc as [_ ->]. done. }
    apply (wf_set_columns [] _ (dr s) (splice i c (bfilter (fun x => negb (String.eqb (col_id x) cid)) (columns_of (dr s))))); [done| | |].
    - rewrite Hp'. by apply (wf_columns _ _ _ _ _ Hwf).
    - intros x Hx. rewrite Hp'. by apply (wf_home _ _ _ _ _ Hwf).
    - intros x Hx. rewrite Hp' in Hx. by apply (wf_fresh_columns _ _ _ _ _ Hwf). }
  exact (draws_peek pid ok P0 B0 ids0 [] (fun d => column d cid) s1 H1).
Qed.

(** Cards of [from] not yet moved. *)
Definition waiting (from : string) (ids : list string) (s : Draft) : Prop :=
  forall c, c ∈ cards_of (dr s) -> c_columnId c = from -> c_id c ∈ ids.

Lemma history_cards cid k actor detail s :
  exists s', history clock_at cid k actor detail s = (Ok tt, s') /\ map skel (cards_of (dr s')) = map skel (cards_of (dr s)).
Proof. unfold history. do 2 erewrite SE_bind_run by reflexivity. eexists. split; [reflexivity|]. simpl. by apply skel_upd. Qed.

Lemma triple_evacuate from target actor override ids :
  target <> from ->
  triple (fun s => D [] s /\ waiting from ids s) (evacuate clock_at localeLe from target actor override ids)
    (fun _ s => D [] s /\ waiting from [] s) (fun _ => R).
Proof.
  intros Hne. induction ids as [|i ids IH]; simpl; [by apply triple_ret|].
  eapply triple_bind with (Q := fun _ s => D [] s /\ waiting from ids s).
  - intros s [Hs Hw]. pose proof (proj2 (draws_place pid ok P0 B0 ids0 [] i target None) s Hs) as Hd.
    pose proof (place_run localeLe i target None s) as Hp.
    destruct (place localeLe i target None s) as [[u|e] s']; [|done]. split; [done|].
    destruct Hp as (c & j & Hcol & k & Hk & ->). destruct Hs as (Hwf & _). apply card_in in Hk as [Hk Hid].
    destruct (place_cards_facts localeLe i target j (cards_of (dr s)) k (wf_cards _ _ _ _ _ Hwf) Hk Hid) as (_ & Hc & _).
    intros d Hdin Hfrom. simpl in Hdin.
    assert (Hm : (c_id d, c_columnId d) ∈ map (moved_to i target) (cards_of (dr s))) by (rewrite <- Hc; apply elem_of_map; eauto).
    apply elem_of_map in Hm as (d' & [= E1 E2] & Hd'). destruct (String.eqb (c_id d') i) eqn:Ei.
    { exfalso. apply Hne. by rewrite <- E2, Hfrom. }
    bool_hyps. rewrite E1. assert (Hin : c_id d' ∈ i :: ids) by (apply Hw; [exact Hd'|by rewrite <- E2]).
    by apply elem_of_cons in Hin as [?|?].
  - intros []. eapply triple_bind with (Q := fun _ s => D [] s /\ waiting from ids s); [|intros []; exact IH].
    intros s [Hs Hw]. set (det := JObj _). pose proof (draws_history pid ok P0 B0 ids0 [] i AMoved actor det s Hs) as Hd.
    destruct (history_cards i AMoved actor det s) as (s' & E & Hsk). rewrite E in Hd |- *. split; [done|].
    intros c Hc Hf. destruct (skel_elem _ _ c Hsk Hc) as (c' & Hc' & [= E1 E2 _ _]).
    rewrite <- E1. apply Hw; [exact Hc'|by rewrite E2].
Qed.

Lemma draws_deleteColumn cid target actor override :
  draws [] [] (
    _ ← peek (fun d => column d cid);
    _ ← require (negb (bool_decide (target = Some cid))) bad;
    cards ← peek (fun d => Ok (sort_by pos_le (bfilter (in_column cid) (cards_of d))));
    _ ← (if truthy target
         then peek (fun d => wip d (default "" target) (Z.of_nat (length (bfilter (fun c => negb (c_archived c)) cards))) override)
         else require (bool_decide (cards = [])) (BoardFault BConflict));
    _ ← evacuate clock_at localeLe cid (default "" target) actor override (map c_id cards);
    edit (with_columns (fun l => renumber_columns (bfilter (fun c => negb (String.eqb (col_id c) cid)) l)))).
Proof.
  apply draws_peek_bind. intros c s Hs Hc.
  destruct (negb (bool_decide (target = Some cid))) eqn:Et; [|erewrite SE_bind_err by reflexivity; by apply D_R in Hs].
  bool_hyps. do 2 erewrite SE_bind_run by reflexivity.
  set (cs := sort_by pos_le (bfilter (in_column cid) (cards_of (dr s)))).
  assert (Hcs : forall x, x ∈ cs <-> x ∈ cards_of (dr s) /\ c_columnId x = cid).
  { intros x. unfold cs. rewrite sort_by_perm, bfilter_elem. unfold in_column. by rewrite String.eqb_eq. }
  set (look := if truthy target then _ else _).
  assert (Hlook : match look s with
     | (Ok _, s') => s' = s /\ (truthy target = true \/ cs = []) | (Err _, s') => s' = s end).
  { unfold look. destruct (truthy target); unfold peek, require.
    - destruct (wip _ _ _ _); auto.
    - case_bool_decide; simpl; auto. }
  clearbody look. unfold mbind at 1, SE_bind at 1. destruct (look s) as [[u|e] s1]; [|subst s1; by apply D_R in Hs].
  destruct Hlook as [-> Hempty].
  assert (Hev : match evacuate clock_at localeLe cid (default "" target) actor override (map c_id cs) s with
                | (Ok _, s') => D [] s' /\ waiting cid [] s' | (Err _, s') => R s' end).
  { destruct (decide (default "" target = cid)) as [E|E].
    - assert (Hnil : cs = []).
      { destruct Hempty as [Ht|?]; [|done]. destruct target as [t|]; [|done]. simpl in E. subst. done. }
      rewrite Hnil. simpl. split; [done|]. intros x Hx Hxc. exfalso.
      assert (Hin : x ∈ cs) by by apply Hcs. rewrite Hnil in Hin. by apply not_elem_of_nil in Hin.
    - apply triple_evacuate; [done|]. split; [done|]. intros x Hx Hxc. apply elem_of_map. exists x. split; [done|]. by apply Hcs. }
  unfold mbind at 1, SE_bind at 1. destruct (evacuate _ _ _ _ _ _ _ s) as [[v|e] s2]; [|done].
  destruct Hev as [(Hwf & Hrest) Hw]. simpl. split; [|exact Hrest].
  assert (Hkeep : forall x, x ∈ map col_id (bfilter (fun c => negb (String.eqb (col_id c) cid)) (columns_of (dr s2))) -> x ∈ map col_id (columns_of (dr s2))).
  { intros x Hx. apply elem_of_map in Hx as (y & -> & Hy). apply bfilter_elem in Hy as [Hy _]. apply elem_of_map. eauto. }
  apply (wf_set_columns [] _ (dr s2) (bfilter (fun c => negb (String.eqb (col_id c) cid)) (columns_of (dr s2)))); [done| | |].
  - apply NoDup_map_filter. by apply (wf_columns _ _ _ _ _ Hwf).
  - intros x Hx. pose proof (wf_home _ _ _ _ _ Hwf x Hx) as Hh. apply elem_of_map in Hh as (y & E & Hy). apply elem_of_map.
    exists y. split; [done|]. apply bfilter_elem. split; [done|]. apply negb_true_iff, String.eqb_neq. intros E'.
    apply (not_elem_of_nil (c_id x)). apply Hw; [done|congruence].
  - intros x Hx. apply (wf_fresh_columns _ _ _ _ _ Hwf). by apply Hkeep.
Qed.

(** [fields] keeps a card's skeleton, assignees and identity. *)
Lemma fields_ok c p c' : fields canParse c p = Ok c' ->
  skel c' = skel c /\ c_assignees c' = c_assignees c /\ c_columnId c' = c_columnId c /\ c_archived c' = c_archived c.
Proof. intros H. unfold fields in H. run_ok. done. Qed.

Lemma draws_apply_fields E cid p : draws E E (apply_fields canParse cid p).
Proof.
  apply draws_peek_bind. intros c s Hs Hc. unfold mbind at 1, SE_bind at 1, lift at 1.
  destruct (fields canParse c p) as [c'|] eqn:Ef; [|by apply D_R in Hs]. apply fields_ok in Ef as (Hsk & Ha & _ & _).
  destruct Hs as (Hwf & Hrest). split; [|exact Hrest]. simpl. apply card_in in Hc as [Hc Hid].
  apply wf_cards_update; [| |done].
  - rewrite map_map. apply map_ext_in. intros x Hx. apply list_elem_of_In in Hx. destruct (String.eqb (c_id x) cid) eqn:E'; [|done].
    bool_hyps. rewrite Hsk. assert (c = x) as ->; [|done].
    apply (NoDup_map_inj c_id (cards_of (dr s))); [apply (wf_cards _ _ _ _ _ Hwf)|done..|]. by rewrite Hid, E'.
  - intros x a Hx Hin. apply elem_of_map in Hx as (y & -> & Hy). destruct (String.eqb (c_id y) cid).
    + rewrite Ha in Hin. exact (wf_assignees _ _ _ _ _ Hwf c a Hc Hin).
    + exact (wf_assignees _ _ _ _ _ Hwf y a Hy Hin).
Qed.

Lemma draws_updateCard cid p actor :
  draws [] [] (_ ← apply_fields canParse cid p; _ ← history clock_at cid AUpdated actor (JStr ""); peek (fun d => card d cid)).
Proof. eapply draws_bind; [apply draws_apply_fields|intros []]. repeat draw. Qed.

Lemma draws_moveCard cid col position actor override :
  draws [] [] (
    c ← peek (fun d => card d cid);
    _ ← require (negb (c_archived c)) (BoardFault BArchived);
    _ ← (if String.eqb (c_columnId c) col then mret tt else peek (fun d => wip d col 1 override));
    _ ← place localeLe cid col position;
    c' ← peek (fun d => card d cid);
    _ ← history clock_at cid AMoved actor (JObj [("from", JStr (c_columnId c)); ("to", JStr col);
                                        ("position", JNum (Fin (c_position c'))); ("override", bool_js override)]);
    peek (fun d => card d cid)).
Proof. do 2 draw. eapply draws_bind; [case_match; draw|intros []]. repeat draw. Qed.

Lemma draws_archiveCard cid archived actor override :
  draws [] [] (
    c ← peek (fun d => card d cid);
    if Bool.eqb (c_archived c) archived then mret c
    else
      _ ← (if archived then mret tt else peek (fun d => wip d (c_columnId c) 1 override));
      _ ← edit (upd_card cid (set_archived archived));
      _ ← history clock_at cid (if archived then AArchived else AUnarchived) actor (JObj [("override", bool_js override)]);
      peek (fun d => card d cid)).
Proof.
  draw. case_match; [draw|]. eapply draws_bind; [case_match; draw|intros []].
  eapply draws_bind; [|intros []; repeat draw]. apply draws_edit. intros n d [].
  assert (Hs : map (fun c => (c_id c, c_columnId c, c_position c)) (map (fun c => if String.eqb (c_id c) cid then set_archived archived c else c) (cards_of d)) =
               map (fun c => (c_id c, c_columnId c, c_position c)) (cards_of d)).
  { rewrite map_map. apply map_ext. intros x. by destruct (String.eqb _ _). }
  assert (Hids : map c_id (map (fun c => if String.eqb (c_id c) cid then set_archived archived c else c) (cards_of d)) = map c_id (cards_of d)).
  { rewrite map_map. apply map_ext. intros x. by destruct (String.eqb _ _). }
  constructor; simpl; rewrite ?Hids; try done.
  - intros c Hc. apply elem_of_map in Hc as (c' & -> & Hc'). destruct (String.eqb _ _); exact (wf_home0 c' Hc').
  - intros k Hk. unfold contiguous, positions. rewrite bfilter_map, map_map.
    rewrite (bfilter_ext _ (in_column k)) by (intros x _; by destruct (String.eqb (c_id x) cid)).
    erewrite (map_ext _ c_position) by (intros x; by destruct (String.eqb (c_id x) cid)). by apply wf_positions0.
  - intros c b Hc Hb. apply elem_of_map in Hc as (c' & -> & Hc'). destruct (String.eqb _ _); exact (wf_assignees0 c' b Hc' Hb).
Qed.

Lemma draws_comment cid text actor :
  draws [] [] (
    _ ← peek (fun d => card d cid);
    _ ← require (negb (is_empty (trim text)) && (slen text <=? 65536)) bad;
    n ← peek (fun d => Ok (length (comments_of d)));
    t ← in_world (now clock_at);
    let c := {| cm_id := seq_id (S n); cm_cardId := cid; cm_author := actor; cm_text := text; cm_createdAt := t |} in
    _ ← edit (fun d => {| columns_of := columns_of d; cards_of := cards_of d; activity_of := activity_of d; comments_of := comments_of d ++ [c] |});
    _ ← history clock_at cid ACommented actor (JStr (cm_id c));
    mret c).
Proof.
  do 2 draw. apply draws_peek_pure. intros s Hs. erewrite SE_bind_run by reflexivity. cbv zeta. erewrite SE_bind_run by reflexivity.
  set (s1 := {| dr := _; dr_world := _ |}). set (c := {| cm_id := _; cm_cardId := _; cm_author := _; cm_text := _; cm_createdAt := _ |}).
  assert (H1 : D [] s1).
  { destruct Hs as (Hwf & Hrest). split; [|exact Hrest]. destruct Hwf. constructor; simpl; try done.
    rewrite length_app, map_app, wf_comments0. simpl. rewrite Nat.add_1_r, seq_snoc, map_app. done. }
  clearbody s1. revert s1 H1.
  change (draws [] [] (_ ← history clock_at cid ACommented actor (JStr (cm_id c)); mret c)). repeat draw.
Qed.

Lemma contiguous_snoc k l c : c_columnId c <> k -> contiguous k l -> contiguous k (l ++ [c]).
Proof.
  intros Hne. unfold contiguous, positions.
  assert (E : bfilter (in_column k) (l ++ [c]) = bfilter (in_column k) l).
  { rewrite bfilter_app. unfold bfilter at 2. simpl. unfold in_column at 2.
    rewrite (proj2 (String.eqb_neq _ _) Hne). apply app_nil_r. }
  by rewrite E.
Qed.

Lemma draws_createCard pid' ttl columnId position p actor override :
  draws [] [] (
    _ ← peek (fun d => wip d columnId 1 override);
    t ← in_world (now clock_at);
    cid ← in_world (new_id newId "card");
    tt' ← lift (title ttl);
    let c := {| c_id := cid; c_projectId := pid'; c_title := tt'; c_description := ""; c_columnId := columnId; c_position := 0;
                c_labels := []; c_priority := "normal"; c_dueAt := None; c_assignees := []; c_links := [];
                c_createdBy := actor; c_updatedBy := actor; c_createdAt := t; c_updatedAt := t; c_archived := false |} in
    c' ← lift (fields canParse c (with_title ttl p));
    _ ← edit (with_cards (fun l => l ++ [c']));
    _ ← place localeLe cid columnId position;
    _ ← history clock_at cid ACreated actor (JObj [("override", bool_js override)]);
    peek (fun d => card d cid)).
Proof.
  apply draws_peek_bind. intros [] s Hs Hwip. do 2 erewrite SE_bind_run by reflexivity.
  set (n0 := w_ids _) in *. set (s0 := {| dr := _; dr_world := _ |}) at 1.
  assert (Hs0 : D [] s0).
  { destruct Hs as (Hwf & ? & ? & ?). split; [|simpl; split_and!; try done; unfold n0; simpl; lia].
    eapply wf_later; [|exact Hwf]. unfold s0, n0. simpl. lia. }
  unfold mbind at 1, SE_bind at 1, lift at 1. destruct (title ttl) as [tt'|]; [|by apply D_R in Hs0]. cbv zeta.
  unfold mbind at 1, SE_bind at 1, lift at 1. set (c := {| c_id := _; c_projectId := pid'; c_title := _ |}).
  destruct (fields canParse c _) as [c'|] eqn:Ef; [|by apply D_R in Hs0].
  apply fields_ok in Ef as (Hsk & Ha & Hcol & _). injection Hsk as Hid _ _ _. simpl in Hid, Hcol, Ha.
  erewrite SE_bind_run by reflexivity. set (s1 := {| dr := _; dr_world := _ |}) at 1.
  assert (H1 : D [columnId] s1); [|clearbody s1; revert s1 H1].
  { destruct Hs as (Hwf & _). destruct Hs0 as (Hwf0 & Hrest). split; [|exact Hrest].
    destruct Hwf0. constructor; simpl; rewrite ?map_app; simpl; rewrite ?Hid; try done.
    - apply list.NoDup_app. split; [done|]. split; [|apply NoDup_singleton].
      intros x Hx Hx'. apply list_elem_of_singleton in Hx' as ->.
      destruct (wf_fresh_cards _ _ _ _ _ Hwf _ Hx) as (m & Hm & E). apply newId_inj in E. unfold n0 in E. simpl in E. lia.
    - intros x Hx. apply elem_of_app in Hx as [Hx|Hx]; [by apply wf_home0|].
      apply list_elem_of_singleton in Hx as ->. rewrite Hcol. unfold wip in Hwip. run_ok.
      match goal with H : column _ _ = Ok _ |- _ => apply column_in in H as [H <-] end. apply elem_of_map. eauto.
    - intros k Hk. apply contiguous_snoc; [|apply wf_positions0; apply not_elem_of_nil]. rewrite Hcol.
      intros Ek. apply Hk, list_elem_of_singleton. by rewrite Ek.
    - intros x a Hx Hin. apply elem_of_app in Hx as [Hx|Hx]; [exact (wf_assignees0 x a Hx Hin)|].
      apply list_elem_of_singleton in Hx as ->. rewrite Ha in Hin. by apply not_elem_of_nil in Hin.
    - intros x Hx. apply elem_of_app in Hx as [Hx|Hx]; [by apply wf_fresh_cards0|].
      apply list_elem_of_singleton in Hx as ->. exists n0. split; [unfold n0; simpl; lia|done]. }
  change (draws [columnId] [] (_ ← place localeLe (newId "card" n0) columnId position;
    _ ← history clock_at (newId "card" n0) ACreated actor (JObj [("override", bool_js override)]);
    peek (fun d => card d (newId "card" n0)))).
  eapply draws_bind; [apply (proj1 (draws_place pid ok P0 B0 ids0 [] _ columnId position))|]. intros []. repeat draw.
Qed.

Lemma draws_assign cid assignee add actor :
  (forall a, belongs (P0 !! pid) a = true -> ok a) ->
  draws [] [] (
    p ← in_world (gets (fun w => w_projects w !! pid));
    _ ← require (negb (add && negb (belongs p assignee))) bad;
    c ← peek (fun d => card d cid);
    if Bool.eqb add (existsb (fun a => same a assignee) (c_assignees c)) then mret c
    else
      _ ← edit (upd_card cid (fun c => set_assignees
             (if add then c_assignees c ++ [assignee] else bfilter (fun a => negb (same a assignee)) (c_assignees c)) c));
      _ ← history clock_at cid (if add then AAssigned else AUnassigned) actor (JObj (actor_js assignee));
      peek (fun d => card d cid)).
Proof.
  intros Hok s Hs. erewrite SE_bind_run by reflexivity. rewrite (proj1 (proj2 Hs)).
  assert (Hset : (let '(b, e) := (negb (add && negb (belongs (P0 !! pid) assignee)), bad) in
                  b = true -> add = true -> ok assignee)).
  { intros Hb ->. simpl in Hb. apply Hok. by bool_hyps. }
  replace {| dr := dr s; dr_world := dr_world s |} with s by by destruct s.
  destruct (negb (add && _)) eqn:Hb; [|erewrite SE_bind_err by reflexivity; by apply D_R in Hs].
  erewrite SE_bind_run by reflexivity. revert s Hs. simpl in Hset. specialize (Hset eq_refl).
  match goal with |- forall s, D [] s -> match ?m s with _ => _ end => change (draws [] [] m) end.
  draw. case_match; [draw|]. eapply draws_bind; [|intros []; repeat draw].
  apply draws_upd; [done|]. intros c b Hin. simpl in Hin. destruct add.
  - apply elem_of_app in Hin as [Hin|Hin]; [by left|]. apply list_elem_of_singleton in Hin as ->. right. by apply Hset.
  - left. by apply bfilter_elem in Hin as [? _].
Qed.

(** After the release no card that was visited carries the assignee. *)
Definition released (who : BoardActor) (ids : list string) (s : Draft) : Prop :=
  forall c, c ∈ cards_of (dr s) -> c_id c ∉ ids -> who ∉ c_assignees c.

Lemma history_assignees cid k actor detail s :
  exists s', history clock_at cid k actor detail s = (Ok tt, s') /\
    forall c, c ∈ cards_of (dr s') -> exists c', c' ∈ cards_of (dr s) /\ c_id c' = c_id c /\ c_assignees c' = c_assignees c.
Proof.
  unfold history. do 2 erewrite SE_bind_run by reflexivity. eexists. split; [reflexivity|]. simpl. intros c Hc.
  apply elem_of_map in Hc as (c' & -> & Hc'). exists c'. split; [done|]. by destruct (String.eqb _ _).
Qed.

Lemma same_eq a b : same a b = true <-> a = b.
Proof. unfold same. apply bool_decide_eq_true. Qed.

Lemma triple_release owner who ids :
  triple (fun s => D [] s /\ released who ids s) (release_all clock_at owner who ids)
    (fun _ s => D [] s /\ released who [] s) (fun _ => R).
Proof.
  induction ids as [|i ids IH]; simpl; [by apply triple_ret|].
  intros s [Hs Hr]. unfold mbind at 1, SE_bind at 1, peek at 1. destruct (card (dr s) i) as [c|] eqn:Hc; [|by apply D_R in Hs].
  assert (Hids : NoDup (map c_id (cards_of (dr s)))) by apply (wf_cards _ _ _ _ _ (proj1 Hs)).
  apply card_in in Hc as [Hc Hid]. revert s Hs Hr Hc Hids. destruct (existsb (same who) (c_assignees c)) eqn:Ex; intros s Hs Hr Hc Hids.
  - set (det := JObj _).
    assert (Hd : match (_ ← edit (upd_card i (fun c => set_assignees (bfilter (fun a => negb (same a who)) (c_assignees c)) c));
                        history clock_at i AUnassigned {| a_kind := Person; a_id := owner |} det) s with
                 | (Ok _, s') => D [] s' /\ released who ids s' | (Err _, s') => R s' end).
    { erewrite SE_bind_run by reflexivity. set (s1 := {| dr := _; dr_world := _ |}).
      assert (H1 : D [] s1).
      { apply (draws_upd pid ok P0 B0 ids0 [] i
          (fun c => set_assignees (bfilter (fun a => negb (same a who)) (c_assignees c)) c)); [done| |exact Hs].
        intros x a Ha. left. simpl in Ha. by apply bfilter_elem in Ha as [? _]. }
      pose proof (draws_history pid ok P0 B0 ids0 [] i AUnassigned {| a_kind := Person; a_id := owner |} det s1 H1) as H2.
      destruct (history_assignees i AUnassigned {| a_kind := Person; a_id := owner |} det s1) as (s2 & E & Hs2).
      rewrite E in H2 |- *. split; [done|]. intros x Hx Hni. apply Hs2 in Hx as (y & Hy & E1 & E2).
      rewrite <- E1 in Hni. rewrite <- E2. clear E1 E2.
      apply elem_of_map in Hy as (z & -> & Hz). revert Hni. destruct (String.eqb (c_id z) i) eqn:Ei; simpl; intros Hni.
      - intros Hin. apply bfilter_elem in Hin as [_ Hin]. apply negb_true_iff in Hin.
        assert (same who who = true) by by apply same_eq. congruence.
      - bool_hyps. apply (Hr z Hz). by apply not_elem_of_cons. }
    unfold mbind at 1, SE_bind at 1. destruct ((_ ← edit _; history _ _ _ _ _) s) as [[u|e] s1]; [|done]. by apply IH.
  - unfold mbind at 1, SE_bind at 1, mret at 1, SE_ret at 1. apply IH. split; [done|]. intros x Hx Hni.
    destruct (decide (c_id x = i)) as [E|E].
    + assert (x = c) as -> by (apply (NoDup_map_inj c_id (cards_of (dr s))); [done..|by rewrite E, Hid]).
      intros Hin. apply (existsb_false_elem _ _ who) in Ex; [|done].
      assert (same who who = true) by by apply same_eq. congruence.
    + apply (Hr x Hx). by apply not_elem_of_cons.
Qed.
End bodies.

(** ** The whole store *)

Definition assignable (p : Project) (a : BoardActor) : Prop := belongs (Some p) a = true.

Definition Inv (w : World) : Prop :=
  (forall pid d, w_boards w !! pid = Some d ->
     exists p, w_projects w !! pid = Some p /\ wf pid (assignable p) [] (w_ids w) d) /\
  (forall pid, is_Some (w_projects w !! pid) -> is_Some (w_boards w !! pid)).

Lemma Inv_later s s' : Inv s -> (w_ids s <= w_ids s')%nat -> Inv (rollback s s').
Proof.
  intros [H1 H2] Hi. split; simpl; [|done]. intros pid d Hd. destruct (H1 pid d Hd) as (p & Hp & Hwf).
  exists p. split; [done|]. by eapply wf_later.
Qed.

(** A transaction keeps the invariant if its commit does: a throw changes no row. *)
Lemma keeps_tx {A} (m : SE World Fault A) :
  (forall s, Inv s -> match m s with (Ok _, s') => Inv s' | (Err _, s') => (w_ids s <= w_ids s')%nat end) -> keeps Inv (tx m).
Proof.
  intros H s Hs. specialize (H s Hs). unfold tx. destruct (m s) as [[a|e] s']; [done|]. by apply Inv_later.
Qed.

Lemma commit_board pid p d' w w' :
  Inv w -> w_projects w !! pid = Some p -> w_projects w' = w_projects w -> w_boards w' = w_boards w ->
  (w_ids w <= w_ids w')%nat -> wf pid (assignable p) [] (w_ids w') d' -> Inv (set_boards <[pid := d']> w').
Proof.
  intros [H1 H2] Hp HP HB Hi Hwf. split; simpl.
  - intros q d Hd. rewrite HP. rewrite HB in Hd. destruct (decide (q = pid)) as [->|Hne].
    + rewrite lookup_insert_eq in Hd. injection Hd as <-. eauto.
    + rewrite lookup_insert_ne in Hd by done. destruct (H1 q d Hd) as (p' & Hp' & Hwf').
      exists p'. split; [done|]. by eapply wf_later.
  - intros q Hq. rewrite HP in Hq. rewrite HB. destruct (decide (q = pid)) as [->|Hne].
    + rewrite lookup_insert_eq. eauto.
    + rewrite lookup_insert_ne by done. by apply H2.
Qed.

Lemma read_ok pid s d s' : read pid s = (Ok d, s') -> s' = s /\ w_boards s !! pid = Some d /\ is_Some (w_projects s !! pid).
Proof.
  unfold read. erewrite SE_bind_run by reflexivity. unfold id.
  destruct (w_projects s !! pid) eqn:Ep; [|discriminate]. destruct (w_boards s !! pid) eqn:Eb; [|discriminate].
  intros [= <- <-]. eauto.
Qed.

Lemma read_state pid s : (read pid s).2 = s.
Proof. unfold read. erewrite SE_bind_run by reflexivity. repeat case_match; done. Qed.

Lemma keeps_write {A} pid (m : SE Draft Fault A) :
  (forall p P0 B0 ids0, P0 !! pid = Some p -> draws pid (assignable p) P0 B0 ids0 [] [] m) -> keeps Inv (write pid m).
Proof.
  intros Hm. apply keeps_tx. intros s Hs. unfold mbind at 1, SE_bind at 1. pose proof (read_state pid s) as Hrs.
  destruct (read pid s) as [[d|e] s1] eqn:Er; simpl in Hrs; subst s1; [|done].
  apply read_ok in Er as (_ & Hb & _). erewrite SE_bind_run by reflexivity.
  unfold mbind at 1, SE_bind at 1, require at 1. destruct (bool_decide _); [|apply Nat.le_refl]. unfold mret at 1, SE_ret at 1.
  destruct (proj1 Hs pid d Hb) as (p & Hp & Hwf).
  specialize (Hm p (w_projects s) (w_boards s) (w_ids s) Hp {| dr := d; dr_world := s |}).
  unfold on_board. destruct (m _) as [[a|e] s2]; simpl in Hm.
  - destruct Hm as (Hwf' & HP & HB & Hi); [done|]. by apply (commit_board pid p _ s).
  - apply Hm. done.
Qed.

(** Project rows that keep id and owner, with at least the old members. *)
Lemma Inv_project pid f w :
  Inv w -> (forall p a, w_projects w !! pid = Some p -> assignable p a -> assignable (f p) a) -> Inv (upd_project pid f w).
Proof.
  intros [H1 H2] Hf. split; simpl.
  - intros q d Hd. destruct (H1 q d Hd) as (p & Hp & Hwf). destruct (decide (q = pid)) as [->|Hne].
    + exists (f p). rewrite lookup_alter_eq, Hp. split; [done|]. apply (wf_members _ (assignable p)); [|done]. eauto.
    + exists p. by rewrite lookup_alter_ne.
  - intros q [p Hq]. destruct (decide (q = pid)) as [->|Hne].
    + rewrite lookup_alter_eq in Hq. destruct (w_projects w !! pid) eqn:E; [|discriminate]. apply H2. by rewrite E.
    + rewrite lookup_alter_ne in Hq by done. apply H2. by rewrite Hq.
Qed.

Lemma keeps_now : keeps Inv (now clock_at).
Proof. intros s [H1 H2]. split; done. Qed.

Lemma live_project_ok pid s : match live_project pid s with
  | (Ok p, s') => s' = s /\ w_projects s !! pid = Some p /\ p_archivedAt p = None | (Err _, s') => s' = s end.
Proof.
  unfold live_project. erewrite SE_bind_run by reflexivity. unfold id. destruct (w_projects s !! pid) as [p|] eqn:E; [|done].
  destruct (p_archivedAt p) eqn:Ea; done.
Qed.

Lemma project_ok pid s : match project pid s with
  | (Ok p, s') => s' = s /\ w_projects s !! pid = Some p | (Err _, s') => s' = s end.
Proof.
  unfold project. erewrite SE_bind_run by reflexivity. unfold id. by destruct (w_projects s !! pid) as [p|].
Qed.

(** What a transaction's body is held to. *)
Definition commits {A} (m : SE World Fault A) : Prop :=
  forall s, Inv s -> match m s with (Ok _, s') => Inv s' | (Err _, s') => (w_ids s <= w_ids s')%nat end.

Lemma commits_live {A} pid (k : Project -> SE World Fault A) :
  (forall p s, Inv s -> w_projects s !! pid = Some p ->
     match k p s with (Ok _, s') => Inv s' | (Err _, s') => (w_ids s <= w_ids s')%nat end) -> commits (live_project pid ≫= k).
Proof.
  intros H s Hs. unfold mbind, SE_bind. pose proof (live_project_ok pid s) as Hl.
  destruct (live_project pid s) as [[p|e] s1]; [|by subst]. destruct Hl as (-> & Hp & _). by apply H.
Qed.

Lemma commits_touch pid t s :
  Inv s -> match (_ ← touch pid t; project pid) s with (Ok _, s') => Inv s' | (Err _, s') => (w_ids s <= w_ids s')%nat end.
Proof.
  intros Hs. erewrite SE_bind_run by reflexivity. set (s1 := upd_project pid _ s).
  assert (H1 : Inv s1) by by apply Inv_project. pose proof (project_ok pid s1) as Hp.
  destruct (project pid s1) as [[p|e] s2]; [by destruct Hp as [-> _]|by subst s2].
Qed.

(** Adding to the tables. *)
Lemma commits_join pid p m a t s :
  Inv s -> w_projects s !! pid = Some p -> (forall x, assignable p x -> assignable (set_membership m a p) x) ->
  match (_ ← modify (upd_project pid (set_membership m a)); _ ← touch pid t; project pid) s with
  | (Ok _, s') => Inv s' | (Err _, s') => (w_ids s <= w_ids s')%nat end.
Proof.
  intros Hs Hp Hx. erewrite SE_bind_run by reflexivity. set (s1 := upd_project pid _ s).
  assert (H1 : Inv s1).
  { apply Inv_project; [done|]. intros p' x Hp'. rewrite Hp in Hp'. injection Hp' as <-. apply Hx. }
  pose proof (commits_touch pid t s1 H1) as Hc. by destruct ((_ ← touch pid t; project pid) s1) as [[v|e] s4].
Qed.

(** Removing from the tables and releasing the removed member's cards. *)
Lemma commits_leave pid p m a who t s :
  Inv s -> w_projects s !! pid = Some p ->
  (forall x, assignable p x -> x <> who -> assignable (set_membership m a p) x) ->
  match (_ ← modify (upd_project pid (set_membership m a)); _ ← releaseAssignee clock_at pid who; _ ← touch pid t; project pid) s with
  | (Ok _, s') => Inv s' | (Err _, s') => (w_ids s <= w_ids s')%nat end.
Proof.
  intros Hs Hp Hx. erewrite SE_bind_run by reflexivity. set (p' := set_membership m a p). set (s1 := upd_project pid _ s).
  assert (Hp1 : w_projects s1 !! pid = Some p') by (simpl; by rewrite lookup_alter_eq, Hp).
  destruct (proj2 Hs pid) as [d Hd]; [by rewrite Hp|]. destruct (proj1 Hs pid d Hd) as (q & Hq & Hwf).
  rewrite Hp in Hq. injection Hq as <-.
  unfold mbind at 1, SE_bind at 1. unfold releaseAssignee.
  assert (Er : read pid s1 = (Ok d, s1)).
  { unfold read. erewrite SE_bind_run by reflexivity. unfold id. rewrite Hp1. simpl. by rewrite Hd. }
  rewrite (SE_bind_run _ _ _ _ _ Er). erewrite SE_bind_run by reflexivity. unfold on_board.
  pose proof (triple_release pid (assignable p) (w_projects s1) (w_boards s1) (w_ids s1)
    (default "" (p_owner <$> w_projects s1 !! pid)) who (map c_id (cards_of d)) {| dr := d; dr_world := s1 |}) as Ht.
  destruct (release_all _ _ _ _ _) as [[u|e] s2].
  - destruct Ht as [(Hwf2 & HP & HB & Hi) Hrel].
    { split; [done|]. intros c Hc Hn. exfalso. apply Hn. apply elem_of_map. eauto. }
    set (s3 := set_boards _ _).
    assert (H3 : Inv s3).
    { assert (Hbelow : (w_ids s <= w_ids (dr_world s2))%nat) by exact Hi.
      split; simpl.
      - intros k b Hb. rewrite HP. rewrite HB in Hb. destruct (decide (k = pid)) as [->|Hne].
        + rewrite lookup_insert_eq in Hb. injection Hb as <-. exists p'. split; [done|].
          destruct Hwf2. constructor; try done. intros c x Hc Hin. apply Hx; [by eapply wf_assignees0|].
          intros ->. by apply (Hrel c Hc) in Hin; [|apply not_elem_of_nil].
        + rewrite lookup_insert_ne in Hb by done. destruct (proj1 Hs k b Hb) as (q & Hq & Hwfq).
          exists q. simpl. rewrite lookup_alter_ne by done. split; [done|]. by eapply wf_later.
      - intros k Hk. rewrite HP in Hk. rewrite HB. destruct (decide (k = pid)) as [->|Hne]; [rewrite lookup_insert_eq; eauto|].
        rewrite lookup_insert_ne by done. simpl in Hk. rewrite lookup_alter_ne in Hk by done. by apply (proj2 Hs). }
    pose proof (commits_touch pid t s3 H3) as Hc. destruct ((_ ← touch pid t; project pid) s3) as [[v|e] s4]; [done|].
    etrans; [exact Hi|exact Hc].
  - apply Ht. split; [done|]. intros c Hc Hn. exfalso. apply Hn. apply elem_of_map. eauto.
Qed.

(** ** Every call of the store *)

Lemma append_inj_l a b c : a +:+ b = a +:+ c -> b = c.
Proof. intros H. induction a as [|x a IH]; simpl in *; [done|]. injection H as H. by apply IH. Qed.

Lemma contiguous_nil k : contiguous k [].
Proof. constructor. Qed.

Lemma wf_default_board pid ok n : wf pid ok [] n (default_board pid).
Proof.
  clear - newId. constructor; simpl; try done; try set_solver; try (intros; apply contiguous_nil).
  - change (NoDup ((fun e => pid +:+ e) <$> [":backlog"; ":in-progress"; ":review"; ":done"])).
    apply (NoDup_fmap_2_strong (fun e => pid +:+ e)); [intros x y _ _; apply append_inj_l|].
    apply (bool_decide_unpack _). vm_compute. reflexivity.
  - apply NoDup_nil_2.
Qed.

Lemma keeps_createProject name owner settings oid : keeps Inv (createProject clock_at newId name owner settings oid).
Proof.
  unfold createProject. cbv zeta. do 3 (apply keeps_require_bind; intros _). apply keeps_bind; [apply keeps_now|]. intros t.
  apply keeps_bind.
  { destruct oid; [apply keeps_ret|]. intros s [H1 H2]. split; simpl; [|done]. intros q d Hd.
    destruct (H1 q d Hd) as (p & Hp & Hwf). exists p. split; [done|]. eapply wf_later; [|exact Hwf]. lia. }
  intros pid. apply keeps_tx. intros s Hs. erewrite SE_bind_run by reflexivity. unfold id.
  destruct (bool_decide (w_projects s !! pid = None)) eqn:E; [|erewrite SE_bind_err by reflexivity; done].
  bool_hyps. do 4 erewrite SE_bind_run by reflexivity. set (s1 := upd_project pid _ _).
  assert (H1 : Inv s1).
  { apply Inv_project.
    - destruct Hs as [Hs1 Hs2]. split; simpl.
      + intros q d Hd. destruct (decide (q = pid)) as [->|Hne].
        * rewrite lookup_insert_eq in Hd. rewrite lookup_insert_eq. injection Hd as <-. eexists. split; [reflexivity|]. apply wf_default_board.
        * rewrite lookup_insert_ne in Hd by done. rewrite lookup_insert_ne by done. by apply Hs1.
      + intros q Hq. destruct (decide (q = pid)) as [->|Hne]; [rewrite lookup_insert_eq; eauto|].
        rewrite lookup_insert_ne in Hq by done. rewrite lookup_insert_ne by done. by apply Hs2.
    - intros p [[] i] Hp; unfold assignable, belongs; simpl; [|done]. rewrite !bool_decide_eq_true.
      intros [r Hr]. destruct (decide (owner = i)) as [->|]; [rewrite lookup_insert_eq; eauto|rewrite lookup_insert_ne by done; eauto]. }
  pose proof (project_ok pid s1) as Hp. destruct (project pid s1) as [[p|e] s2]; [by destruct Hp as [-> _]|by subst s2].
Qed.

(** Row updates that keep both tables. *)
Lemma commits_row pid f s :
  Inv s -> (forall p a, assignable p a -> assignable (f p) a) ->
  match (_ ← modify (upd_project pid f); project pid) s with (Ok _, s') => Inv s' | (Err _, s') => (w_ids s <= w_ids s')%nat end.
Proof.
  intros Hs Hf. erewrite SE_bind_run by reflexivity. set (s1 := upd_project pid f s).
  assert (H1 : Inv s1) by (apply Inv_project; auto).
  pose proof (project_ok pid s1) as Hp. destruct (project pid s1) as [[p|e] s2]; [by destruct Hp as [-> _]|by subst s2].
Qed.

Lemma keeps_updateProject pid name : keeps Inv (updateProject clock_at pid name).
Proof.
  unfold updateProject. apply keeps_require_bind. intros _. apply keeps_tx. apply commits_live. intros p s Hs Hp.
  erewrite SE_bind_run by reflexivity. set (t := clock_at _).
  set (s1 := {| w_projects := w_projects s; w_boards := w_boards s; w_ticks := S (w_ticks s); w_ids := w_ids s |}).
  assert (H1 : Inv s1) by by destruct Hs as [Ha Hb]; split.
  set (f := fun p => set_row (trim name) (settingsJson (p_settings p)) t (p_archivedAt p) p).
  pose proof (commits_row pid f s1 H1 ltac:(done)) as Hc.
  by destruct ((_ ← modify (upd_project pid f); project pid) s1) as [[v|e] s4].
Qed.

Lemma keeps_archiveProject pid : keeps Inv (archiveProject clock_at pid).
Proof.
  apply keeps_bind; [apply keeps_now|]. intros t. apply keeps_tx. intros s Hs.
  unfold mbind at 1, SE_bind at 1. pose proof (project_ok pid s) as Hp.
  destruct (project pid s) as [[p|e] s1]; [|by subst s1]. destruct Hp as [-> Hp].
  destruct (p_archivedAt p); [done|]. by apply commits_row.
Qed.

Lemma keeps_addMember pid user role : keeps Inv (addMember clock_at pid user role).
Proof.
  unfold addMember. do 2 (apply keeps_require_bind; intros _). apply keeps_bind; [apply keeps_now|]. intros t.
  apply keeps_tx. apply commits_live. intros p s Hs Hp.
  destruct (negb _) eqn:E; [|erewrite SE_bind_err by reflexivity; done]. erewrite SE_bind_run by reflexivity.
  apply (commits_join pid p); [done..|]. intros [[] i]; unfold assignable, belongs; simpl; [|done]. rewrite !bool_decide_eq_true.
  intros [r Hr]. destruct (decide (user = i)) as [->|]; [rewrite lookup_insert_eq; eauto|rewrite lookup_insert_ne by done; eauto].
Qed.

Lemma keeps_addAgent pid agent : keeps Inv (addAgent clock_at pid agent).
Proof.
  unfold addAgent. apply keeps_require_bind; intros _. apply keeps_bind; [apply keeps_now|]. intros t.
  apply keeps_tx. apply commits_live. intros p s Hs Hp. apply (commits_join pid p); [done..|].
  intros [[] i]; unfold assignable, belongs; simpl; [done|]. rewrite !bool_decide_eq_true.
  intros H. apply elem_of_union. by right.
Qed.

Lemma keeps_removeMember pid user : keeps Inv (removeMember clock_at pid user).
Proof.
  apply keeps_bind; [apply keeps_now|]. intros t. apply keeps_tx. apply commits_live. intros p s Hs Hp.
  destruct (negb _) eqn:E; [|erewrite SE_bind_err by reflexivity; done]. erewrite SE_bind_run by reflexivity.
  apply (commits_leave pid p); [done..|]. intros [[] i] Ha Hne; unfold assignable, belongs in *; simpl in *; [|done].
  rewrite bool_decide_eq_true in Ha |- *. rewrite lookup_delete_ne; [done|]. intros E'. apply Hne. by rewrite E'.
Qed.

Lemma keeps_removeAgent pid agent : keeps Inv (removeAgent clock_at pid agent).
Proof.
  apply keeps_bind; [apply keeps_now|]. intros t. apply keeps_tx. apply commits_live. intros p s Hs Hp.
  apply (commits_leave pid p); [done..|]. intros [[] i] Ha Hne; unfold assignable, belongs in *; simpl in *; [done|].
  rewrite bool_decide_eq_true in Ha |- *. apply elem_of_difference. split; [done|].
  intros Hin. apply elem_of_singleton in Hin. apply Hne. by rewrite Hin.
Qed.
End invariant.

(** The calls that change the store. *)
Inductive board_call : Type :=
| BCreateProject (name owner : string) (settings : js) (oid : option string)
| BUpdateProject (pid name : string)
| BArchiveProject (pid : string)
| BAddMember (pid user role : string)
| BRemoveMember (pid user : string)
| BAddAgent (pid agent : string)
| BRemoveAgent (pid agent : string)
| BCreateColumn (pid : string) (ttl ttlKey : option string) (wl : option num) (position : option num)
| BUpdateColumn (pid cid : string) (ttl ttlKey : option string) (wl : option (option num))
| BMoveColumn (pid cid : string) (position : num)
| BDeleteColumn (pid cid : string) (target : option string) (actor : BoardActor) (override : bool)
| BCreateCard (pid ttl columnId : string) (position : option num) (p : CardPatch) (actor : BoardActor) (override : bool)
| BUpdateCard (pid cid : string) (p : CardPatch) (actor : BoardActor)
| BMoveCard (pid cid columnId : string) (position : option num) (actor : BoardActor) (override : bool)
| BAssign (pid cid : string) (assignee : BoardActor) (add : bool) (actor : BoardActor)
| BArchiveCard (pid cid : string) (archived : bool) (actor : BoardActor) (override : bool)
| BComment (pid cid text : string) (actor : BoardActor).

(** What lies outside the store: clock, ids, collation, URL parsing. *)
Record Env : Type := {
  e_clock : nat -> Z; e_newId : string -> nat -> string; e_localeLe : string -> string -> bool; e_canParse : string -> bool
}.

Definition unit_of {S E A} (m : SE S E A) : SE S E unit := _ ← m; mret tt.

Definition board_do (v : Env) (c : board_call) : SE World Fault unit :=
  let clk := e_clock v in let nid := e_newId v in let le := e_localeLe v in let cp := e_canParse v in
  match c with
  | BCreateProject n o st i => unit_of (createProject clk nid n o st i)
  | BUpdateProject p n => unit_of (updateProject clk p n)
  | BArchiveProject p => unit_of (archiveProject clk p)
  | BAddMember p u r => unit_of (addMember clk p u r)
  | BRemoveMember p u => unit_of (removeMember clk p u)
  | BAddAgent p a => unit_of (addAgent clk p a)
  | BRemoveAgent p a => unit_of (removeAgent clk p a)
  | BCreateColumn p t k w i => unit_of (createColumn nid p t k w i)
  | BUpdateColumn p c t k w => unit_of (updateColumn p c t k w)
  | BMoveColumn p c i => unit_of (moveColumn p c i)
  | BDeleteColumn p c t a o => deleteColumn clk le p c t a o
  | BCreateCard p t c i q a o => unit_of (createCard clk nid le cp p t c i q a o)
  | BUpdateCard p c q a => unit_of (updateCard clk cp p c q a)
  | BMoveCard p c k i a o => unit_of (moveCard clk le p c k i a o)
  | BAssign p c w b a => unit_of (assign clk p c w b a)
  | BArchiveCard p c b a o => unit_of (archiveCard clk p c b a o)
  | BComment p c t a => unit_of (comment clk p c t a)
  end.

Definition empty_world : World := {| w_projects := ∅; w_boards := ∅; w_ticks := 0; w_ids := 0 |}.

Definition board_run (v : Env) (cs : list board_call) : World :=
  fold_left (fun w c => (board_do v c w).2) cs empty_world.

(** The id generator never repeats itself and never makes a default column's id. *)
Record fresh_ids (newId : string -> nat -> string) : Prop := {
  fresh_inj : forall p n m, newId p n = newId p m -> n = m;
  fresh_plain : forall n pid e, newId "col" n <> pid +:+ ":" +:+ e
}.

Lemma keeps_unit_of {S E A} (P : S -> Prop) (m : SE S E A) : keeps P m -> keeps P (unit_of m).
Proof. intros H. apply keeps_bind; [done|]. intros. apply keeps_ret. Qed.

Lemma board_do_keeps v c : fresh_ids (e_newId v) -> keeps (Inv (e_newId v)) (board_do v c).
Proof.
  intros [Hi Hp]. unfold board_do. destruct c; cbv zeta; try apply keeps_unit_of.
  - by apply keeps_createProject.
  - by apply keeps_updateProject.
  - by apply keeps_archiveProject.
  - by apply keeps_addMember.
  - by apply keeps_removeMember.
  - by apply keeps_addAgent.
  - by apply keeps_removeAgent.
  - apply keeps_write. intros. by apply draws_createColumn.
  - apply keeps_write. intros. by apply draws_updateColumn.
  - apply keeps_write. intros. by apply draws_moveColumn.
  - apply keeps_write. intros. by apply draws_deleteColumn.
  - apply keeps_write. intros. by apply draws_createCard.
  - apply keeps_write. intros. by apply draws_updateCard.
  - apply keeps_write. intros. by apply draws_moveCard.
  - apply keeps_write. intros q P0 B0 ids0 Hq. apply draws_assign. rewrite Hq. done.
  - apply keeps_write. intros. by apply draws_archiveCard.
  - apply keeps_write. intros. by apply draws_comment.
Qed.

Lemma board_run_Inv v cs : fresh_ids (e_newId v) -> Inv (e_newId v) (board_run v cs).
Proof.
  intros Hf. unfold board_run. assert (H0 : Inv (e_newId v) empty_world).
  { split; simpl; [intros pid d Hd; by rewrite lookup_empty in Hd|intros pid [p Hp]; by rewrite lookup_empty in Hp]. }
  revert H0. generalize empty_world. induction cs as [|c cs IH]; intros w Hw; [done|]. simpl. apply IH.
  apply keeps_state; [by apply board_do_keeps|done].
Qed.
