(* ===== verification/BoardProps.v ===== *)
(** * Boards: what the store promises

    Numbering and homes, assignments, work-in-progress limits, rollback,
    append-only history and paging. *)

From S2P Require Import Prelude Board BoardInv.

(** ** Rollback *)

(** A throw that changes no row. *)
Definition rolls {A} (m : SE World Fault A) : Prop :=
  forall w e w', m w = (Err e, w') -> w_projects w' = w_projects w /\ w_boards w' = w_boards w.

(** A step that never changes a row. *)
Definition rowless {A} (m : SE World Fault A) : Prop :=
  forall w, w_projects (m w).2 = w_projects w /\ w_boards (m w).2 = w_boards w.

Lemma rolls_tx {A} (m : SE World Fault A) : rolls (tx m).
Proof. intros w e w' H. unfold tx in H. destruct (m w) as [[a|e'] w1]; [discriminate|]. by injection H as _ <-. Qed.

Lemma rolls_rowless {A B} (m : SE World Fault A) (k : A -> SE World Fault B) :
  rowless m -> (forall a, rolls (k a)) -> rolls (m ≫= k).
Proof.
  intros Hm Hk w e w' H. specialize (Hm w). unfold mbind, SE_bind in H.
  destruct (m w) as [[a|e'] w1]; simpl in Hm.
  - destruct (Hk a w1 e w' H) as [H1 H2]. destruct Hm as [<- <-]. done.
  - by injection H as _ <-.
Qed.

Lemma rolls_unit {A} (m : SE World Fault A) : rolls m -> rolls (unit_of m).
Proof.
  intros Hm w e w' H. unfold unit_of, mbind, SE_bind in H. destruct (m w) as [[a|e'] w1] eqn:E; [discriminate|].
  injection H as -> ->. by eapply Hm.
Qed.

Lemma rowless_require b e : rowless (require b e).
Proof. intros w. by destruct b. Qed.

Lemma rowless_now clk : rowless (now clk).
Proof. done. Qed.

Lemma rowless_new_id nid prefix : rowless (new_id nid prefix).
Proof. done. Qed.

Lemma rowless_gets {A} (f : World -> A) : rowless (gets f).
Proof. done. Qed.

Lemma rowless_read p : rowless (read p).
Proof. intros w. by rewrite read_state. Qed.

Lemma rowless_live p : rowless (live_project p).
Proof. intros w. pose proof (live_project_ok p w) as Hl. destruct (live_project p w) as [[q|e] w']; [by destruct Hl as [-> _]|by subst]. Qed.

Lemma rowless_project p : rowless (project p).
Proof. intros w. pose proof (project_ok p w) as Hl. destruct (project p w) as [[q|e] w']; [by destruct Hl as [-> _]|by subst]. Qed.
#[export] Hint Resolve rowless_now rowless_new_id rowless_gets rowless_read rowless_live rowless_project rowless_require : keeps.

Lemma board_do_rolls v c : rolls (board_do v c).
Proof.
  unfold board_do. destruct c; cbv zeta; try apply rolls_unit; try apply rolls_tx;
    unfold createProject, updateProject, archiveProject, addMember, addAgent, removeMember, removeAgent; cbv zeta;
    repeat (apply rolls_rowless; [first [apply rowless_require | apply rowless_now | by destruct oid]|intros ?]);
    apply rolls_tx.
Qed.

(** ** History only grows *)

Definition same_rows (w w' : World) : Prop := w_projects w' = w_projects w /\ w_boards w' = w_boards w.

(** A draft related to the board it started from, the rows being as they were. *)
Definition related (Rel : Data -> Data -> Prop) (d0 : Data) (w0 : World) (s : Draft) : Prop :=
  Rel d0 (dr s) /\ same_rows w0 (dr_world s).

(** What was said stays said. *)
Definition extends (d0 d : Data) : Prop :=
  activity_of d0 `prefix_of` activity_of d /\ comments_of d0 `prefix_of` comments_of d.

#[export] Instance extends_preorder : PreOrder extends.
Proof. split; [by intros d|]. intros x y z [H1 H2] [H3 H4]. split; by etrans. Qed.

Notation grown := (related extends).

Section growth.
Context (v : Env) (d0 : Data) (w0 : World).
Notation G := (keeps (grown d0 w0)).

Lemma grown_peek {A} (f : Data -> result Fault A) : G (peek f).
Proof. intros s Hs. unfold peek. by destruct (f (dr s)). Qed.

Lemma grown_lift {A} (r : result Fault A) : G (lift r).
Proof. intros s Hs. unfold lift. by destruct r. Qed.

Lemma grown_world {A} (m : SE World Fault A) : rowless m -> G (in_world m).
Proof.
  intros Hm s [Hs [HP HB]]. unfold in_world. specialize (Hm (dr_world s)).
  destruct (m (dr_world s)) as [[a|e] w]; simpl in Hm; destruct Hm as [H1 H2]; (split; [exact Hs|]);
    split; simpl; by rewrite ?H1, ?H2.
Qed.

Lemma grown_columns f : G (edit (with_columns f)).
Proof. by apply keeps_modify. Qed.

Lemma grown_cards f : G (edit (with_cards f)).
Proof. by apply keeps_modify. Qed.

Hint Resolve grown_peek grown_lift grown_world grown_columns grown_cards : keeps.

Lemma grown_history cid k a d : G (history (e_clock v) cid k a d).
Proof.
  unfold history, upd_card. keeps_tac. apply keeps_modify. intros s [[H1 H2] Hw]. split; [|done].
  split; simpl; [|done]. by apply prefix_app_r.
Qed.

Lemma grown_place cid col pos : G (place (e_localeLe v) cid col pos).
Proof. unfold place, renumber. cbv zeta. keeps_tac. Qed.
Hint Resolve grown_history grown_place : keeps.

Lemma grown_release owner who ids : G (release_all (e_clock v) owner who ids).
Proof. induction ids as [|i ids IH]; simpl; unfold upd_card; keeps_tac. Qed.

Lemma grown_evacuate from to actor o ids : G (evacuate (e_clock v) (e_localeLe v) from to actor o ids).
Proof. induction ids as [|i ids IH]; simpl; keeps_tac. Qed.
Hint Resolve grown_release grown_evacuate : keeps.

Lemma grown_comment c : G (edit (fun d => {| columns_of := columns_of d; cards_of := cards_of d;
                                             activity_of := activity_of d; comments_of := comments_of d ++ [c] |})).
Proof. apply keeps_modify. intros s [[H1 H2] Hw]. split; [|done]. split; simpl; [done|]. by apply prefix_app_r. Qed.
Hint Resolve grown_comment : keeps.
End growth.
#[export] Hint Resolve grown_peek grown_lift grown_world grown_columns grown_cards grown_history grown_place
  grown_release grown_evacuate grown_comment : keeps.

(** The board of an existing project, related to [d0]. *)
Definition holds (Rel : Data -> Data -> Prop) (pid : string) (d0 : Data) (w : World) : Prop :=
  is_Some (w_projects w !! pid) /\ exists d, w_boards w !! pid = Some d /\ Rel d0 d.

(** Any such relation is carried from the drafts to the store. *)
Section relation.
Context (Rel : Data -> Data -> Prop) `{!PreOrder Rel} (v : Env) (pid : string) (d0 : Data).
Context (rel_release : forall d w owner who ids, keeps (related Rel d w) (release_all (e_clock v) owner who ids)).
Notation H := (keeps (holds Rel pid d0)).

Lemma holds_rows w w' : same_rows w w' -> holds Rel pid d0 w -> holds Rel pid d0 w'.
Proof. intros [HP HB]. unfold holds. by rewrite HP, HB. Qed.

Lemma rel_rowless {A} (m : SE World Fault A) : rowless m -> H m.
Proof.
  intros Hm w Hw. specialize (Hm w). destruct (m w) as [[a|e] w']; simpl in Hm; by apply (holds_rows w).
Qed.

Lemma rel_tx {A} (m : SE World Fault A) : H m -> H (tx m).
Proof.
  intros Hm w Hw. specialize (Hm w Hw). unfold tx. destruct (m w) as [[a|e] w']; [done|].
  by apply (holds_rows w).
Qed.

(** A body that grows history, run on the board just read. *)
Lemma rel_board {A} p (m : SE Draft Fault A) d w :
  (forall d0 w0, keeps (related Rel d0 w0) m) -> holds Rel pid d0 w -> w_boards w !! p = Some d ->
  holds Rel pid d0 (on_board p d m w).2.
Proof.
  intros Hm Hw Hd. unfold on_board. specialize (Hm d w {| dr := d; dr_world := w |}).
  assert (Hg : related Rel d w {| dr := d; dr_world := w |}) by by split.
  specialize (Hm Hg). destruct (m _) as [[a|e] s]; simpl in *; destruct Hm as [Hr [HP HB]];
    [|by apply (holds_rows w)].
  destruct Hw as (Hp & d1 & Hd1 & Hr1). split; simpl; [by rewrite HP|]. rewrite HB.
  destruct (decide (p = pid)) as [->|Hne].
  - exists (dr s). rewrite lookup_insert_eq. split; [done|]. rewrite Hd1 in Hd. injection Hd as <-. by etrans.
  - exists d1. by rewrite lookup_insert_ne.
Qed.

Lemma rel_write {A} p (m : SE Draft Fault A) : (forall d0 w0, keeps (related Rel d0 w0) m) -> H (write p m).
Proof.
  intros Hm. apply rel_tx. intros w Hw. unfold mbind at 1, SE_bind at 1. pose proof (read_state p w) as Hrs.
  destruct (read p w) as [[d|e] w1] eqn:Er; simpl in Hrs; subst w1; [|done].
  apply read_ok in Er as (_ & Hb & _). erewrite SE_bind_run by reflexivity.
  destruct (bool_decide _); [erewrite SE_bind_run by reflexivity|by erewrite SE_bind_err by reflexivity].
  pose proof (rel_board p m d w Hm Hw Hb) as Hk. by destruct (on_board p d m w) as [[a|e] w'].
Qed.

Lemma rel_member_release p who : H (releaseAssignee (e_clock v) p who).
Proof.
  intros w Hw. unfold releaseAssignee, mbind at 1, SE_bind at 1. pose proof (read_state p w) as Hrs.
  destruct (read p w) as [[d|e] w1] eqn:Er; simpl in Hrs; subst w1; [|done].
  apply read_ok in Er as (_ & Hb & _). erewrite SE_bind_run by reflexivity.
  set (m := release_all _ _ _ _).
  pose proof (rel_board p m d w ltac:(intros; apply rel_release) Hw Hb) as Hk.
  by destruct (on_board p d m w) as [[a|e] w'].
Qed.

Lemma rel_project p f : H (modify (upd_project p f) : SE World Fault unit).
Proof.
  apply keeps_modify. intros w [Hp Hd]. split; simpl; [|done]. destruct (decide (p = pid)) as [->|Hne].
  - rewrite lookup_alter_eq. destruct Hp as [q ->]. eauto.
  - by rewrite lookup_alter_ne.
Qed.

Lemma rel_bind {A B} (m : SE World Fault A) (k : A -> SE World Fault B) : H m -> (forall a, H (k a)) -> H (m ≫= k).
Proof. apply keeps_bind. Qed.

Lemma rel_createProject n o st i : H (createProject (e_clock v) (e_newId v) n o st i).
Proof.
  unfold createProject. cbv zeta. do 4 (apply rel_bind; [apply rel_rowless; auto with keeps|intros ?]).
  apply rel_bind; [apply rel_rowless; destruct i; [done|auto with keeps]|]. intros p. apply rel_tx.
  intros w Hw. erewrite SE_bind_run by reflexivity. unfold id.
  destruct (bool_decide (w_projects w !! p = None)) eqn:E; [|by erewrite SE_bind_err by reflexivity].
  bool_hyps. do 4 erewrite SE_bind_run by reflexivity. set (w1 := upd_project p _ _).
  assert (Hne : p <> pid). { intros ->. destruct Hw as [[q Hq] _]. rewrite Hq in E. discriminate. }
  assert (H1 : holds Rel pid d0 w1).
  { destruct Hw as [Hp Hd]. split; simpl; [by rewrite lookup_alter_ne, lookup_insert_ne|by rewrite lookup_insert_ne]. }
  pose proof (rowless_project p w1) as Hr. destruct (project p w1) as [[q|e] w2]; by apply (holds_rows w1).
Qed.

Lemma keeps_unit {A} (m : SE World Fault A) : H m -> H (unit_of m).
Proof. apply keeps_unit_of. Qed.

(** The calls on projects and members, for every relation a release keeps. *)
Lemma rel_projects c :
  match c with
  | BCreateProject _ _ _ _ | BUpdateProject _ _ | BArchiveProject _ | BAddMember _ _ _ | BRemoveMember _ _
  | BAddAgent _ _ | BRemoveAgent _ _ => H (board_do v c)
  | _ => True
  end.
Proof.
  unfold board_do. destruct c; cbv zeta; try done; apply keeps_unit; try (apply rel_createProject);
    unfold updateProject, archiveProject, addMember, addAgent, removeMember, removeAgent, touch; cbv zeta;
    repeat (lazymatch goal with
      | |- keeps _ (_ ≫= _) => apply rel_bind; [|intros ?]
      | |- keeps _ (tx _) => apply rel_tx
      | |- keeps _ (modify _) => apply rel_project
      | |- keeps _ (releaseAssignee _ _ _) => apply rel_member_release
      | |- keeps _ (match ?x with _ => _ end) => destruct x
      | |- keeps _ _ => apply rel_rowless; solve [auto with keeps | done]
      end).
Qed.
End relation.

(** Every call extends every board's history. *)
Lemma history_do v pid d0 c : keeps (holds extends pid d0) (board_do v c).
Proof.
  pose proof (rel_projects extends v pid d0 ltac:(intros; apply grown_release) c) as Hp.
  destruct c; try exact Hp; unfold board_do; cbv zeta; try apply keeps_unit_of;
    apply rel_write; try apply _; intros; unfold apply_fields, upd_column, upd_card; cbv zeta; keeps_tac; auto with keeps.
Qed.
