(* ===== verification/BoardWip.v ===== *)
(** * Boards: work-in-progress limits

    How each call changes the number of active cards of each column, and that a
    call without override never takes a column over its limit. *)

From S2P Require Import Prelude Board BoardInv BoardProps.

(** What a limit counts. *)
Definition shape (c : BoardCard) : string * string * bool := (c_id c, c_columnId c, c_archived c).

Definition one (b : bool) : Z := if b then 1 else 0.

Definition counts (k : string) (x : string * string * bool) : Z := one (String.eqb x.1.2 k && negb x.2).

Lemma active_count_shape d k : active_count d k = zsum (counts k) (map shape (cards_of d)).
Proof.
  unfold active_count. induction (cards_of d) as [|c l IH]; [done|]. unfold bfilter in *. simpl.
  unfold counts at 1, one, active_in at 1, in_column. simpl.
  destruct (String.eqb _ _ && _); simpl; lia.
Qed.

Lemma zsum_map {A B} (f : B -> Z) (g : A -> B) l : zsum f (map g l) = zsum (fun x => f (g x)) l.
Proof. induction l as [|x l IH]; simpl; [done|]. by rewrite IH. Qed.

Lemma zsum_filter {A} (p : A -> bool) l : zsum (fun x => one (p x)) l = Z.of_nat (length (bfilter p l)).
Proof. unfold bfilter. induction l as [|x l IH]; simpl; [done|]. destruct (p x); simpl; unfold one in *; lia. Qed.

(** At most one element differs where keys are unique. *)
Lemma zsum_one {A} (key : A -> string) (x0 : string) (f g : A -> Z) l :
  NoDup (map key l) -> (forall x, x ∈ l -> key x <> x0 -> f x <= g x) -> (forall x, x ∈ l -> f x <= g x + 1) ->
  zsum f l <= zsum g l + 1.
Proof.
  intros Hnd Hne Hle. revert Hnd Hne Hle. induction l as [|x l IH]; simpl; [lia|]. rewrite list.NoDup_cons. intros [Hx Hnd] Hne Hle.
  pose proof (Hle x ltac:(left)) as Hx1. destruct (String.eqb (key x) x0) eqn:E; bool_hyps.
  - assert (zsum f l <= zsum g l); [|lia]. apply zsum_le. intros y Hy. apply Hne; [by right|].
    intros Ey. apply Hx. apply elem_of_map. exists y. split; congruence || done.
  - pose proof (Hne x ltac:(left) E). assert (zsum f l <= zsum g l + 1); [|lia].
    apply IH; [done|..]; intros y Hy; [apply Hne; by right|apply Hle; by right].
Qed.

(** The calls that ask for a limit to be ignored. *)
Definition overrides (c : board_call) : bool :=
  match c with
  | BDeleteColumn _ _ _ _ o | BCreateCard _ _ _ _ _ _ o | BMoveCard _ _ _ _ _ o | BArchiveCard _ _ _ _ o => o
  | _ => false
  end.

(** No column of [d] is over its limit unless it held as many before. *)
Definition within_limits (d0 d : Data) : Prop :=
  forall k l, k ∈ columns_of d -> wipLimit k = Some l -> active_count d (col_id k) <= Z.max l (active_count d0 (col_id k)).

Lemma within_same d0 d : map shape (cards_of d) = map shape (cards_of d0) -> within_limits d0 d.
Proof. intros H k l _ _. rewrite !active_count_shape, H. lia. Qed.

(** Fewer active cards everywhere. *)
Lemma within_fewer d0 d : (forall k, active_count d k <= active_count d0 k) -> within_limits d0 d.
Proof. intros H k l _ _. specialize (H (col_id k)). lia. Qed.

(** A checked column may grow up to its limit; the others must not grow. *)
Lemma within_checked d0 d col n :
  NoDup (map col_id (columns_of d0)) ->
  (forall k, k ∈ columns_of d -> exists k0, k0 ∈ columns_of d0 /\ col_id k0 = col_id k /\ wipLimit k0 = wipLimit k) ->
  wip d0 col n false = Ok tt -> 0 <= n ->
  (forall k, k <> col -> active_count d k <= active_count d0 k) -> active_count d col <= active_count d0 col + n ->
  within_limits d0 d.
Proof.
  intros Hnd Hcols Hwip Hn Hother Hcol k l Hk Hl. destruct (String.eqb (col_id k) col) eqn:E; bool_hyps.
  2:{ specialize (Hother _ E). lia. }
  unfold wip in Hwip. apply rbind_ok in Hwip as (c & Hc & Hwip). apply column_in in Hc as [Hc Hid].
  destruct (Hcols k Hk) as (k0 & Hk0 & Hid0 & Hl0).
  assert (k0 = c) as -> by (apply (NoDup_map_inj col_id (columns_of d0)); [done..|by rewrite Hid0, Hid, E]).
  rewrite Hl0, Hl in Hwip. rewrite E. destruct (0 <? n) eqn:En; [|bool_hyps; assert (n = 0) by lia; subst n; lia].
  simpl in Hwip. destruct (l <? active_count d0 col + n) eqn:El; [discriminate|]. bool_hyps. lia.
Qed.

Lemma filter_twice {A} (p q : A -> bool) l :
  length (bfilter p (bfilter q l)) = length (bfilter (fun x => p x && q x) l).
Proof.
  unfold bfilter. induction l as [|x l IH]; simpl; [done|]. destruct (q x); simpl.
  - rewrite andb_true_r. destruct (p x); simpl; by rewrite IH.
  - by rewrite andb_false_r.
Qed.

(** ** Calls that leave shapes alone *)

Definition same_shape (d0 : Data) (s : Draft) : Prop := map shape (cards_of (dr s)) = map shape (cards_of d0).

Section shapes.
Context (v : Env) (d0 : Data).
Notation H := (keeps (same_shape d0)).

Lemma shape_peek {A} (f : Data -> result Fault A) : H (peek f).
Proof. intros s Hs. unfold peek. by destruct (f (dr s)). Qed.
Lemma shape_lift {A} (r : result Fault A) : H (lift r).
Proof. intros s Hs. unfold lift. by destruct r. Qed.
Lemma shape_world {A} (m : SE World Fault A) : H (in_world m).
Proof. intros s Hs. unfold in_world. destruct (m (dr_world s)) as [[a|e] w]; done. Qed.
Lemma shape_columns f : H (edit (with_columns f)).
Proof. by apply keeps_modify. Qed.

Lemma shape_upd cid f : (forall c, shape (f c) = shape c) -> H (edit (upd_card cid f)).
Proof.
  intros Hf. apply keeps_modify. intros s Hs. unfold same_shape. simpl. rewrite map_map.
  rewrite <- Hs. apply map_ext. intros c. by destruct (String.eqb _ _).
Qed.
Hint Resolve shape_peek shape_lift shape_world shape_columns : keeps.

Lemma shape_history cid k a d : H (history (e_clock v) cid k a d).
Proof. unfold history. keeps_tac; [by apply shape_upd|]. by apply keeps_modify. Qed.
Hint Resolve shape_history : keeps.

Lemma shape_release owner who ids : H (release_all (e_clock v) owner who ids).
Proof. induction ids as [|i ids IH]; simpl; keeps_tac. by apply shape_upd. Qed.

Lemma shape_apply_fields cid p :
  triple (fun s => same_shape d0 s /\ NoDup (map c_id (cards_of (dr s)))) (apply_fields (e_canParse v) cid p)
    (fun _ => same_shape d0) (fun _ _ => True).
Proof.
  intros s [Hs Hnd]. unfold apply_fields, mbind at 1, SE_bind at 1, peek. destruct (card (dr s) cid) as [c|] eqn:Hc; [|done].
  unfold mbind at 1, SE_bind at 1, lift. destruct (fields _ c p) as [c'|] eqn:Ef; [|done].
  apply fields_ok in Ef as (Hsk & _ & _ & _). injection Hsk as H1 H2 _ H4. apply card_in in Hc as [Hc Hid].
  simpl. unfold same_shape. simpl. rewrite map_map. rewrite <- Hs. apply map_ext_in. intros x Hx. apply list_elem_of_In in Hx.
  destruct (String.eqb (c_id x) cid) eqn:E; [|done]. bool_hyps. unfold shape. rewrite H1, H2, H4.
  by rewrite (NoDup_map_inj c_id (cards_of (dr s)) c x Hnd Hc Hx) by congruence.
Qed.
End shapes.
#[export] Hint Resolve shape_peek shape_lift shape_world shape_columns shape_history shape_release : keeps.

(** ** Calls that move, create, archive or evacuate *)

Definition moved (cid col : string) (x : string * string * bool) : string * string * bool :=
  (x.1.1, if String.eqb x.1.1 cid then col else x.1.2, x.2).

Lemma place_shape le cid col pos s :
  NoDup (map c_id (cards_of (dr s))) ->
  match place le cid col pos s with
  | (Ok _, s') => columns_of (dr s') = columns_of (dr s) /\
      map shape (cards_of (dr s')) = map (moved cid col) (map shape (cards_of (dr s)))
  | (Err _, _) => True
  end.
Proof.
  intros Hnd. pose proof (place_run le cid col pos s) as Hp. destruct (place le cid col pos s) as [[u|e] s']; [|done].
  destruct Hp as (c & i & Hcol & k & Hk & ->). apply card_in in Hk as [Hk Hid].
  destruct (place_cards_facts le cid col i (cards_of (dr s)) k Hnd Hk Hid) as (Hf & Hc & _).
  split; [done|]. simpl. set (l' := place_cards _ _ _ _ _ _) in *.
  clearbody l'. rewrite map_map. revert Hf Hc. generalize (cards_of (dr s)). clear.
  induction l' as [|x l' IH]; intros [|y l]; simpl; try done.
  intros [= E1 E2 E3 Hf] [= E4 E5 Hc]. unfold shape at 1, moved at 1. simpl. rewrite E1, E2, E5. f_equal. by apply IH.
Qed.

Lemma counts_moved_other cid col k x : k <> col -> counts k (moved cid col x) <= counts k x.
Proof.
  intros Hne. unfold counts, moved, one. simpl. destruct (String.eqb x.1.1 cid); [|lia].
  rewrite (proj2 (String.eqb_neq col k)) by done. simpl. destruct (_ && _); lia.
Qed.

Lemma shape_keys l : map (fun x => x.1.1) (map shape l) = map c_id l.
Proof. rewrite map_map. done. Qed.

Lemma history_shape clk cid k a d s :
  exists s', history clk cid k a d s = (Ok tt, s') /\ map shape (cards_of (dr s')) = map shape (cards_of (dr s)) /\
    columns_of (dr s') = columns_of (dr s).
Proof.
  unfold history. do 2 erewrite SE_bind_run by reflexivity. eexists. split; [reflexivity|]. simpl. split; [|done].
  rewrite map_map. apply map_ext. intros c. by destruct (String.eqb _ _).
Qed.

(** A history line and a look end a call without touching shapes. *)
Lemma finish_within {A} clk cid k a d (f : Data -> result Fault A) d0 s :
  within_limits d0 (dr s) ->
  match (_ ← history clk cid k a d; peek f) s with (Ok _, s') => within_limits d0 (dr s') | (Err _, _) => True end.
Proof.
  intros Hw. destruct (history_shape clk cid k a d s) as (s' & E & Hs & Hc).
  erewrite SE_bind_run by exact E. unfold peek. destruct (f (dr s')); [|done].
  intros c l Hk Hl. rewrite active_count_shape, Hs, <- active_count_shape. apply Hw; [by rewrite <- Hc|done].
Qed.

Section changes.
Context (v : Env) (Hids : fresh_ids (e_newId v)) (pid : string) (ok : BoardActor -> Prop) (d0 : Data).
Definition starts (s : Draft) : Prop := dr s = d0 /\ wf (e_newId v) pid ok [] (w_ids (dr_world s)) d0.
Definition checked {A} (m : SE Draft Fault A) : Prop := triple starts m (fun _ s => within_limits d0 (dr s)) (fun _ _ => True).

Lemma same_columns (d : Data) : columns_of d = columns_of d0 ->
  forall k, k ∈ columns_of d -> exists k0, k0 ∈ columns_of d0 /\ col_id k0 = col_id k /\ wipLimit k0 = wipLimit k.
Proof. intros -> k Hk. eauto. Qed.

Lemma checked_moveCard cid col position actor :
  checked (
    c ← peek (fun d => card d cid);
    _ ← require (negb (c_archived c)) (BoardFault BArchived);
    _ ← (if String.eqb (c_columnId c) col then mret tt else peek (fun d => wip d col 1 false));
    _ ← place (e_localeLe v) cid col position;
    c' ← peek (fun d => card d cid);
    _ ← history (e_clock v) cid AMoved actor (JObj [("from", JStr (c_columnId c)); ("to", JStr col);
                                        ("position", JNum (Fin (c_position c'))); ("override", bool_js false)]);
    peek (fun d => card d cid)).
Proof.
  intros s [<- Hwf]. unfold mbind at 1, SE_bind at 1, peek at 1. destruct (card (dr s) cid) as [c|] eqn:Hc; [|done].
  apply card_in in Hc as [Hc Hid]. destruct (negb (c_archived c)) eqn:Ha; [|by erewrite SE_bind_err by reflexivity].
  erewrite SE_bind_run by reflexivity. set (look := if String.eqb _ _ then _ else _).
  assert (Hlook : match look s with (Ok _, s') => s' = s /\ (c_columnId c = col \/ wip (dr s) col 1 false = Ok tt) | (Err _, _) => True end).
  { unfold look. destruct (String.eqb (c_columnId c) col) eqn:E; bool_hyps; [by split; [|left]|].
    unfold peek. destruct (wip (dr s) col 1 false) as [[]|] eqn:Ew; [|done]. split; [done|by right]. }
  clearbody look. unfold mbind at 1, SE_bind at 1. destruct (look s) as [[u|e] s1]; [|done]. destruct Hlook as [-> Hwip].
  pose proof (place_shape (e_localeLe v) cid col position s (wf_cards _ _ _ _ _ _ Hwf)) as Hp.
  unfold mbind at 1, SE_bind at 1. destruct (place _ cid col position s) as [[u'|e] s2]; [|done]. destruct Hp as [Hcols Hsh].
  unfold mbind at 1, SE_bind at 1, peek at 1. destruct (card (dr s2) cid) as [c'|]; [|done].
  apply finish_within. destruct Hwip as [Hsame|Hwip].
  - apply within_same. rewrite Hsh, map_map. apply map_ext_in. intros x Hx. apply list_elem_of_In in Hx.
    unfold moved, shape. simpl. destruct (String.eqb (c_id x) cid) eqn:E; [|done]. bool_hyps.
    by rewrite (NoDup_map_inj c_id _ x c (wf_cards _ _ _ _ _ _ Hwf) Hx Hc), <- Hsame by by rewrite E, Hid.
  - apply (within_checked _ _ col 1); try done; [apply (wf_columns _ _ _ _ _ _ Hwf)|rewrite Hcols; eauto| |].
    + intros k Hne. rewrite !active_count_shape, Hsh, zsum_map. apply zsum_le. intros x _. by apply counts_moved_other.
    + rewrite !active_count_shape, Hsh, zsum_map. apply (zsum_one (fun x => x.1.1) cid).
      * rewrite shape_keys. apply (wf_cards _ _ _ _ _ _ Hwf).
      * intros x _ Hx. unfold moved, counts. simpl. rewrite (proj2 (String.eqb_neq _ _) Hx). lia.
      * intros x _. unfold counts, one. destruct (_ && _), (_ && _); lia.
Qed.

Lemma checked_archiveCard cid archived actor :
  checked (
    c ← peek (fun d => card d cid);
    if Bool.eqb (c_archived c) archived then mret c
    else
      _ ← (if archived then mret tt else peek (fun d => wip d (c_columnId c) 1 false));
      _ ← edit (upd_card cid (set_archived archived));
      _ ← history (e_clock v) cid (if archived then AArchived else AUnarchived) actor (JObj [("override", bool_js false)]);
      peek (fun d => card d cid)).
Proof.
  intros s [<- Hwf]. unfold mbind at 1, SE_bind at 1, peek at 1. destruct (card (dr s) cid) as [c|] eqn:Hc; [|done].
  apply card_in in Hc as [Hc Hid]. destruct (Bool.eqb (c_archived c) archived) eqn:Ha; [by apply within_same|].
  set (look := if archived then mret tt else peek _).
  assert (Hlook : match look s with (Ok _, s') => s' = s /\ (archived = true \/ wip (dr s) (c_columnId c) 1 false = Ok tt) | (Err _, _) => True end).
  { unfold look. destruct archived; [by split; [|left]|].
    unfold peek. destruct (wip (dr s) _ 1 false) as [[]|] eqn:Ew; [|done]. split; [done|by right]. }
  clearbody look. unfold mbind at 1, SE_bind at 1. destruct (look s) as [[u|e] s1]; [|done]. destruct Hlook as [-> Hwip].
  erewrite SE_bind_run by reflexivity. apply finish_within. simpl.
  set (g := fun c0 : BoardCard => if String.eqb (c_id c0) cid then set_archived archived c0 else c0).
  assert (Hcount : forall k, active_count (with_cards (map g) (dr s)) k = zsum (fun x => counts k (shape (g x))) (cards_of (dr s))).
  { intros k. rewrite active_count_shape. simpl. by rewrite !zsum_map. }
  assert (H0 : forall k, active_count (dr s) k = zsum (fun x => counts k (shape x)) (cards_of (dr s))).
  { intros k. by rewrite active_count_shape, zsum_map. }
  destruct Hwip as [->|Hwip].
  - apply within_fewer. intros k. rewrite Hcount, H0. apply zsum_le. intros x _. unfold g, counts, shape, one.
    destruct (String.eqb (c_id x) cid); simpl; [|lia]. rewrite andb_false_r. destruct (_ && _); lia.
  - apply (within_checked _ _ (c_columnId c) 1); try done; [apply (wf_columns _ _ _ _ _ _ Hwf)|eauto| |].
    + intros k Hne. rewrite Hcount, H0. apply zsum_le. intros x Hx. unfold g.
      destruct (String.eqb (c_id x) cid) eqn:E; [|lia]. bool_hyps.
      assert (x = c) as -> by (apply (NoDup_map_inj c_id _ x c (wf_cards _ _ _ _ _ _ Hwf) Hx Hc); by rewrite E, Hid).
      unfold counts, shape, one. simpl. rewrite (proj2 (String.eqb_neq (c_columnId c) k)) by done. simpl. lia.
    + rewrite Hcount, H0. apply (zsum_one c_id cid).
      * apply (wf_cards _ _ _ _ _ _ Hwf).
      * intros x _ Hx. unfold g. rewrite (proj2 (String.eqb_neq _ _) Hx). lia.
      * intros x _. unfold counts, one. destruct (_ && _), (_ && _); lia.
Qed.

Lemma checked_createCard pid' ttl columnId position p actor :
  checked (
    _ ← peek (fun d => wip d columnId 1 false);
    t ← in_world (now (e_clock v));
    cid ← in_world (new_id (e_newId v) "card");
    tt' ← lift (title ttl);
    let c := {| c_id := cid; c_projectId := pid'; c_title := tt'; c_description := ""; c_columnId := columnId; c_position := 0;
                c_labels := []; c_priority := "normal"; c_dueAt := None; c_assignees := []; c_links := [];
                c_createdBy := actor; c_updatedBy := actor; c_createdAt := t; c_updatedAt := t; c_archived := false |} in
    c' ← lift (fields (e_canParse v) c (with_title ttl p));
    _ ← edit (with_cards (fun l => l ++ [c']));
    _ ← place (e_localeLe v) cid columnId position;
    _ ← history (e_clock v) cid ACreated actor (JObj [("override", bool_js false)]);
    peek (fun d => card d cid)).
Proof.
  intros s [<- Hwf]. unfold mbind at 1, SE_bind at 1, peek at 1. destruct (wip (dr s) columnId 1 false) as [[]|] eqn:Hwip; [|done].
  do 2 erewrite SE_bind_run by reflexivity. set (n0 := w_ids _).
  unfold mbind at 1, SE_bind at 1, lift at 1. destruct (title ttl) as [tt'|]; [|done]. cbv zeta.
  unfold mbind at 1, SE_bind at 1, lift at 1. set (c := {| c_id := _; c_projectId := pid'; c_title := _ |}).
  destruct (fields (e_canParse v) c _) as [c'|] eqn:Ef; [|done]. apply fields_ok in Ef as (Hsk & _). injection Hsk as H1 H2 _ H4.
  simpl in H1, H2, H4. erewrite SE_bind_run by reflexivity. set (s1 := {| dr := _; dr_world := _ |}) at 1.
  assert (Hnew : e_newId v "card" n0 ∉ map c_id (cards_of (dr s))).
  { intros Hin. destruct (wf_fresh_cards _ _ _ _ _ _ Hwf _ Hin) as (m & Hm & E). apply (fresh_inj _ Hids) in E.
    unfold n0 in E. simpl in E. lia. }
  assert (Hnd : NoDup (map c_id (cards_of (dr s1)))).
  { simpl. rewrite map_app. apply list.NoDup_app. split; [apply (wf_cards _ _ _ _ _ _ Hwf)|]. split; [|apply NoDup_singleton].
    intros x Hx Hx'. apply list_elem_of_singleton in Hx' as ->. apply Hnew. by rewrite <- H1. }
  pose proof (place_shape (e_localeLe v) (e_newId v "card" n0) columnId position s1 Hnd) as Hp. clearbody n0.
  unfold mbind at 1, SE_bind at 1. destruct (place _ _ _ _ s1) as [[u'|e] s2]; [|done]. destruct Hp as [Hcols Hsh].
  apply finish_within. simpl in Hsh. rewrite !map_app in Hsh. simpl in Hsh.
  assert (Hold : map (moved (e_newId v "card" n0) columnId) (map shape (cards_of (dr s))) = map shape (cards_of (dr s))).
  { apply map_fix. intros x Hx. apply elem_of_map in Hx as (y & -> & Hy). unfold moved, shape. simpl.
    destruct (String.eqb (c_id y) _) eqn:E; [|done]. bool_hyps. exfalso. apply Hnew. rewrite <- E. apply elem_of_map. eauto. }
  rewrite Hold in Hsh. clear Hold.
  assert (Hk : forall k, active_count (dr s2) k = active_count (dr s) k + one (String.eqb columnId k)).
  { intros k. rewrite !active_count_shape, Hsh, zsum_app. simpl. unfold counts at 2, moved, shape. simpl.
    rewrite H1, H4, String.eqb_refl. simpl. rewrite andb_true_r. lia. }
  apply (within_checked _ _ columnId 1); try done; [apply (wf_columns _ _ _ _ _ _ Hwf)|rewrite Hcols; simpl; eauto| |].
  - intros k Hne. rewrite Hk, (proj2 (String.eqb_neq columnId k)) by done. simpl. lia.
  - rewrite Hk, String.eqb_refl. simpl. lia.
Qed.

Definition moved_all (ids : list string) (col : string) (x : string * string * bool) : string * string * bool :=
  (x.1.1, if bool_decide (x.1.1 ∈ ids) then col else x.1.2, x.2).

Lemma evacuate_shape from target actor o ids s :
  NoDup (map c_id (cards_of (dr s))) ->
  match evacuate (e_clock v) (e_localeLe v) from target actor o ids s with
  | (Ok _, s') => columns_of (dr s') = columns_of (dr s) /\
      map shape (cards_of (dr s')) = map (moved_all ids target) (map shape (cards_of (dr s)))
  | (Err _, _) => True
  end.
Proof.
  revert s. induction ids as [|i ids IH]; intros s Hnd; simpl.
  - split; [done|]. symmetry. apply map_fix. intros [[a b] c] _. unfold moved_all. by rewrite bool_decide_eq_false_2 by apply not_elem_of_nil.
  - pose proof (place_shape (e_localeLe v) i target None s Hnd) as Hp. unfold mbind at 1, SE_bind at 1.
    destruct (place _ i target None s) as [[u|e] s1]; [|done]. destruct Hp as [Hc1 Hs1].
    set (det := JObj _). destruct (history_shape (e_clock v) i AMoved actor det s1) as (s2 & E & Hs2 & Hc2).
    erewrite SE_bind_run by exact E.
    assert (Hnd2 : NoDup (map c_id (cards_of (dr s2)))).
    { rewrite <- (shape_keys (cards_of (dr s2))), Hs2, Hs1, !map_map. simpl. exact Hnd. }
    specialize (IH s2 Hnd2). destruct (evacuate _ _ _ _ _ _ ids s2) as [[u'|e] s3]; [|done]. destruct IH as [Hc3 Hs3].
    split; [congruence|]. rewrite Hs3, Hs2, Hs1, map_map. apply map_ext. intros [[a b] c]. unfold moved_all, moved. simpl.
    destruct (String.eqb a i) eqn:Ea; bool_hyps.
    + subst. rewrite (bool_decide_eq_true_2 (i ∈ i :: ids)) by by left. by destruct (bool_decide _).
    + destruct (decide (a ∈ ids)).
      * rewrite !bool_decide_eq_true_2; [done|by right|done].
      * rewrite !bool_decide_eq_false_2; [done| |done]. by apply not_elem_of_cons.
Qed.

Lemma checked_deleteColumn cid target actor :
  checked (
    _ ← peek (fun d => column d cid);
    _ ← require (negb (bool_decide (target = Some cid))) bad;
    cards ← peek (fun d => Ok (sort_by pos_le (bfilter (in_column cid) (cards_of d))));
    _ ← (if truthy target
         then peek (fun d => wip d (default "" target) (Z.of_nat (length (bfilter (fun c => negb (c_archived c)) cards))) false)
         else require (bool_decide (cards = [])) (BoardFault BConflict));
    _ ← evacuate (e_clock v) (e_localeLe v) cid (default "" target) actor false (map c_id cards);
    edit (with_columns (fun l => renumber_columns (bfilter (fun c => negb (String.eqb (col_id c) cid)) l)))).
Proof.
  intros s [<- Hwf]. unfold mbind at 1, SE_bind at 1, peek at 1. destruct (column (dr s) cid) as [c|] eqn:Hc; [|done].
  destruct (negb (bool_decide (target = Some cid))) eqn:Et; [|by erewrite SE_bind_err by reflexivity].
  clear Et. do 2 erewrite SE_bind_run by reflexivity. set (cs := sort_by pos_le (bfilter (in_column cid) (cards_of (dr s)))).
  set (n := Z.of_nat (length (bfilter (fun c => negb (c_archived c)) cs))).
  set (look := if truthy target then _ else _).
  assert (Hlook : match look s with
     | (Ok _, s') => s' = s /\ (wip (dr s) (default "" target) n false = Ok tt \/ cs = []) | (Err _, _) => True end).
  { unfold look. destruct (truthy target); unfold peek, require.
    - destruct (wip (dr s) _ n false) as [[]|] eqn:Ew; [|done]. split; [done|by left].
    - destruct (bool_decide (cs = [])) eqn:Ecs; cbn; [split; [done|right; by bool_hyps]|done]. }
  clearbody look. unfold mbind at 1, SE_bind at 1. destruct (look s) as [[u|e] s1]; [|done]. destruct Hlook as [-> Hwip].
  pose proof (evacuate_shape cid (default "" target) actor false (map c_id cs) s (wf_cards _ _ _ _ _ _ Hwf)) as Hev.
  unfold mbind at 1, SE_bind at 1. destruct (evacuate _ _ _ _ _ _ _ s) as [[u'|e] s2]; [|done]. destruct Hev as [Hcols Hsh].
  simpl. set (d := with_columns _ (dr s2)).
  assert (Hin : forall x, x ∈ cards_of (dr s) -> c_id x ∈ map c_id cs <-> c_columnId x = cid).
  { intros x Hx. rewrite elem_of_map. unfold cs. setoid_rewrite sort_by_perm. setoid_rewrite bfilter_elem.
    unfold in_column. setoid_rewrite String.eqb_eq. split; [|eauto]. intros (y & E & Hy & <-). f_equal.
    exact (NoDup_map_inj c_id _ x y (wf_cards _ _ _ _ _ _ Hwf) Hx Hy E). }
  assert (Hd : forall k, active_count d k = zsum (fun x => counts k (moved_all (map c_id cs) (default "" target) (shape x))) (cards_of (dr s))).
  { intros k. rewrite active_count_shape. simpl. by rewrite Hsh, !zsum_map. }
  assert (Hn : n = zsum (fun x => one (negb (c_archived x) && in_column cid x)) (cards_of (dr s))).
  { unfold n. rewrite zsum_filter. f_equal. transitivity (length (bfilter (fun c => negb (c_archived c)) (bfilter (in_column cid) (cards_of (dr s))))).
    - apply Permutation_length, bfilter_perm, sort_by_perm.
    - apply filter_twice. }
  destruct Hwip as [Hwip|Hnil].
  2:{ apply within_same. simpl. rewrite Hsh, Hnil. apply map_fix. intros [[a b] e] _. unfold moved_all.
      by rewrite bool_decide_eq_false_2 by apply not_elem_of_nil. }
  apply (within_checked _ _ (default "" target) n); try done.
  - apply (wf_columns _ _ _ _ _ _ Hwf).
  - intros k Hk. simpl in Hk. rewrite Hcols in Hk.
    assert (Hm : (col_id k, wipLimit k) ∈ map (fun k => (col_id k, wipLimit k))
      (renumber_columns (bfilter (fun c => negb (String.eqb (col_id c) cid)) (columns_of (dr s))))) by (apply elem_of_map; eauto).
    unfold renumber_columns in Hm. rewrite (imap_map_same _ _ (fun k => (col_id k, wipLimit k))) in Hm by done.
    apply elem_of_map in Hm as (k0 & [= -> ->] & Hk0). apply bfilter_elem in Hk0 as [Hk0 _]. eauto.
  - unfold n. lia.
  - intros k Hne. rewrite Hd, active_count_shape, zsum_map. apply zsum_le. intros x _. unfold counts, moved_all, shape, one. simpl.
    destruct (bool_decide _); [|apply Z.le_refl]. rewrite (proj2 (String.eqb_neq (default "" target) k)) by done. simpl. destruct (_ && _); lia.
  - rewrite Hd, active_count_shape, zsum_map, Hn, <- zsum_plus. apply zsum_le. intros x Hx.
    unfold counts, moved_all, shape, one, in_column. simpl. case_bool_decide as E.
    + apply (Hin x Hx) in E. rewrite E, !String.eqb_refl. simpl. destruct (c_archived x); simpl; [rewrite andb_false_r; lia|].
      destruct (_ && _); lia.
    + destruct (_ && _), (_ && _); lia.
Qed.
End changes.

(** ** From drafts to the store *)

Definition shape_rel (d0 d : Data) : Prop := map shape (cards_of d) = map shape (cards_of d0).

#[export] Instance shape_rel_preorder : PreOrder shape_rel.
Proof. split; [by intros d|]. intros x y z H1 H2. unfold shape_rel in *. congruence. Qed.

Lemma shape_rel_release v d w owner who ids : keeps (related shape_rel d w) (release_all (e_clock v) owner who ids).
Proof.
  intros s [Hs Hw]. pose proof (shape_release v d owner who ids s Hs) as H1.
  pose proof (grown_release v (dr s) w owner who ids s) as H2. specialize (H2 ltac:(by split)).
  destruct (release_all _ _ _ _ s) as [[a|e] s']; (split; [exact H1|apply H2]).
Qed.

(** A write: another project's board is not touched, this one was checked. *)
Lemma write_within {A} v pid p (m : SE Draft Fault A) w d d' :
  Inv (e_newId v) w -> (forall ok d, checked v p ok d m) ->
  (forall d0 w0, keeps (related (fun _ _ => True) d0 w0) m) ->
  w_boards w !! pid = Some d -> w_boards (write p m w).2 !! pid = Some d' -> within_limits d d'.
Proof.
  intros Hw Hm Hrows Hd. assert (Hstay : forall w', w_boards w' = w_boards w -> w_boards w' !! pid = Some d' -> within_limits d d').
  { intros w' ->. rewrite Hd. intros [= <-]. by apply within_same. }
  unfold write, tx, mbind, SE_bind. pose proof (read_state p w) as Hrs.
  destruct (read p w) as [[dp|e] w1] eqn:Er; simpl in Hrs; subst w1; [|by apply Hstay].
  apply read_ok in Er as (_ & Hb & _). simpl. destruct (bool_decide _); [|by apply Hstay]. simpl.
  destruct (proj1 Hw p dp Hb) as (q & _ & Hwf). unfold on_board.
  specialize (Hm (assignable q) dp {| dr := dp; dr_world := w |}). specialize (Hrows dp w {| dr := dp; dr_world := w |}).
  destruct (m _) as [[a|e] s]; [|by apply Hstay]. simpl in *. destruct Hrows as [_ [_ HB]]; [by split; [|split]|]. rewrite HB.
  destruct (decide (p = pid)) as [->|Hne].
  - rewrite lookup_insert_eq. intros [= <-]. rewrite Hd in Hb. injection Hb as <-. by apply Hm.
  - rewrite lookup_insert_ne by done. by apply (Hstay w).
Qed.

(** A body that keeps shapes is checked. *)
Lemma checked_same {A} v pid ok d (m : SE Draft Fault A) : keeps (same_shape d) m -> checked v pid ok d m.
Proof.
  intros Hm s [<- _]. specialize (Hm s eq_refl). destruct (m s) as [[a|e] s']; [|done]. by apply within_same.
Qed.

Lemma checked_updateCard v pid ok d cid p actor :
  checked v pid ok d (_ ← apply_fields (e_canParse v) cid p; _ ← history (e_clock v) cid AUpdated actor (JStr ""); peek (fun d => card d cid)).
Proof.
  intros s [<- Hwf]. pose proof (shape_apply_fields v (dr s) cid p s) as Ha. unfold mbind at 1, SE_bind at 1.
  destruct (apply_fields _ cid p s) as [[u|e] s1]; [|done]. apply finish_within, within_same, Ha.
  split; [done|]. apply (wf_cards _ _ _ _ _ _ Hwf).
Qed.

#[export] Instance true_preorder : PreOrder (fun _ _ : Data => True).
Proof. by split. Qed.

Section rows.
Context (d0 : Data) (w0 : World).
Notation H := (keeps (related (fun _ _ => True) d0 w0)).

Lemma rows_draft {A} (m : SE Draft Fault A) : (forall d, keeps (grown d w0) m) -> H m.
Proof.
  intros Hm s [_ Hs]. specialize (Hm (dr s) s ltac:(by split)). destruct (m s) as [[a|e] s']; (split; [done|apply Hm]).
Qed.
End rows.

(** What a call without override does to any stored board. *)
Lemma board_do_within v w c pid d d' :
  fresh_ids (e_newId v) -> Inv (e_newId v) w -> overrides c = false -> w_boards w !! pid = Some d ->
  w_boards (board_do v c w).2 !! pid = Some d' -> within_limits d d'.
Proof.
  intros Hf Hw Ho Hd.
  pose proof (rel_projects shape_rel v pid d (shape_rel_release v) c) as Hp.
  assert (Hshape : (keeps (holds shape_rel pid d) (board_do v c)) -> w_boards (board_do v c w).2 !! pid = Some d' -> within_limits d d').
  { intros Hk Hd'. destruct (keeps_state _ _ w Hk) as (_ & d1 & Hd1 & Hr).
    - destruct (proj1 Hw pid d Hd) as (q & Hq & _). split; [by rewrite Hq|]. exists d. by split.
    - rewrite Hd1 in Hd'. injection Hd' as <-. by apply within_same. }
  assert (Hunit : forall A (m : SE World Fault A), (unit_of m w).2 = (m w).2).
  { intros A m. unfold unit_of, mbind, SE_bind. by destruct (m w) as [[a|e] w']. }
  destruct c; try (exact (Hshape Hp)); clear Hp Hshape; simpl in Ho; try subst override; unfold board_do; cbv zeta; rewrite ?Hunit;
    (eapply write_within; [exact Hw| |intros; apply rows_draft; intros; unfold apply_fields, upd_column, upd_card; cbv zeta; keeps_tac; auto with keeps|exact Hd]);
    intros ok d1;
    first [ apply checked_moveCard | apply checked_archiveCard | by apply checked_createCard | apply checked_deleteColumn
          | apply checked_updateCard | apply checked_same; unfold upd_column; cbv zeta; keeps_tac; auto with keeps ].
  - by apply shape_upd.
  - by apply keeps_modify.
Qed.
