(* ===== verification/BoardSpec.v ===== *)
(** * Boards: paging, and the properties

    Following the cursors of [page] from the first page on returns the whole listing, in
    order, without gaps or repetitions, for both listings. *)

From S2P Require Import Prelude Board BoardInv BoardProps BoardWip.
From Stdlib Require Import Sorting.Sorted.

(** ** The order of ids *)

Lemma str_ltb_irrefl a : str_ltb a a = false.
Proof. induction a as [|x a IH]; simpl; [done|]. by rewrite Nat.ltb_irrefl, IH, andb_false_r. Qed.

Lemma str_ltb_trans a b c : str_ltb a b = true -> str_ltb b c = true -> str_ltb a c = true.
Proof.
  revert b c. induction a as [|x a IH]; intros [|y b] [|z c]; simpl; try done.
  rewrite !orb_true_iff, !andb_true_iff, !Nat.ltb_lt, !Nat.eqb_eq.
  intros [H1|[H1 H2]] [H3|[H3 H4]]; try (left; lia). right. split; [lia|]. by eapply IH.
Qed.

Lemma str_ltb_total a b : a <> b -> str_ltb a b = false -> str_ltb b a = true.
Proof.
  revert b. induction a as [|x a IH]; intros [|y b]; simpl; try done.
  intros Hne. rewrite orb_false_iff, orb_true_iff, andb_false_iff, andb_true_iff, Nat.ltb_ge, !Nat.ltb_lt, Nat.eqb_neq, !Nat.eqb_eq.
  intros [H1 [H2|H2]]; [left; lia|]. destruct (decide (Ascii.nat_of_ascii y = Ascii.nat_of_ascii x)) as [E|E]; [|left; lia].
  right. split; [done|]. apply IH; [|done]. intros ->. apply Hne. f_equal.
  rewrite <- (Ascii.ascii_nat_embedding x), <- (Ascii.ascii_nat_embedding y). by rewrite E.
Qed.

(** ** Sorted by id *)

Section sorted.
Context {A : Type} (key : A -> string).
Definition before (a b : A) : Prop := str_ltb (key a) (key b) = true.

Lemma insert_sorted x l :
  StronglySorted before l -> (forall y, y ∈ l -> key y <> key x) -> StronglySorted before (insert_by (id_le key) x l).
Proof.
  induction l as [|y l IH]; intros Hl Hne; simpl; [by repeat constructor|].
  apply StronglySorted_inv in Hl as [Hl Hy]. unfold id_le. destruct (str_ltb (key y) (key x)) eqn:E; simpl.
  - constructor; [apply IH; [done|]; intros z Hz; apply Hne; by right|].
    rewrite list.Forall_forall in *. intros z Hz. rewrite insert_by_perm in Hz. apply elem_of_cons in Hz as [->|Hz]; [done|by apply Hy].
  - assert (Hxy : before x y) by (apply str_ltb_total; [apply Hne; by left|done]).
    constructor; [by constructor|]. rewrite list.Forall_forall in *. intros z Hz. apply elem_of_cons in Hz as [->|Hz]; [done|].
    eapply str_ltb_trans; [exact Hxy|by apply Hy].
Qed.

Lemma sort_sorted l : NoDup (map key l) -> StronglySorted before (sort_by (id_le key) l).
Proof.
  induction l as [|x l IH]; simpl; [constructor|]. rewrite list.NoDup_cons. intros [Hx Hl]. apply insert_sorted; [by apply IH|].
  intros y Hy E. rewrite sort_by_perm in Hy. apply Hx. apply elem_of_map. eauto.
Qed.

(** A set has one sorted listing. *)
Lemma sorted_unique l l' : l ≡ₚ l' -> StronglySorted before l -> StronglySorted before l' -> l = l'.
Proof.
  revert l'. induction l as [|x l IH]; intros [|y l'] Hp Hl Hl'; [done|by apply Permutation_nil in Hp|by symmetry in Hp; apply Permutation_nil in Hp|].
  apply StronglySorted_inv in Hl as [Hl Hx]. apply StronglySorted_inv in Hl' as [Hl' Hy]. rewrite list.Forall_forall in Hx, Hy.
  assert (Hxy : x = y).
  { assert (H1 : x ∈ y :: l') by (rewrite <- Hp; by left). assert (H2 : y ∈ x :: l) by (rewrite Hp; by left).
    apply elem_of_cons in H1 as [?|H1]; [done|]. apply elem_of_cons in H2 as [?|H2]; [done|].
    pose proof (str_ltb_trans _ _ _ (Hx _ H2) (Hy _ H1)) as H. by rewrite str_ltb_irrefl in H. }
  subst y. f_equal. apply IH; [|done..]. by apply Permutation_cons_inv in Hp.
Qed.

Lemma sorted_split l1 a l2 : StronglySorted before (l1 ++ a :: l2) ->
  StronglySorted before l2 /\ (forall x, x ∈ l1 -> before x a) /\ (forall x, x ∈ l2 -> before a x).
Proof.
  induction l1 as [|y l1 IH]; simpl; intros H; apply StronglySorted_inv in H as [H1 H2]; rewrite list.Forall_forall in H2.
  - split; [done|]. split; [|done]. intros x Hx. by apply not_elem_of_nil in Hx.
  - destruct (IH H1) as (H3 & H4 & H5). split; [done|]. split; [|done]. intros x Hx.
    apply elem_of_cons in Hx as [->|Hx]; [|by apply H4]. apply H2. apply elem_of_app. right. by left.
Qed.

(** What the unordered listing resumes with. *)
Lemma resume_sorted items l1 a l2 :
  NoDup (map key items) -> sort_by (id_le key) items = l1 ++ a :: l2 ->
  sort_by (id_le key) (bfilter (fun i => str_ltb (key a) (key i)) items) = l2.
Proof.
  intros Hnd Hs. pose proof (sort_sorted items Hnd) as Hss. rewrite Hs in Hss.
  destruct (sorted_split _ _ _ Hss) as (H2 & Hb & Ha). apply sorted_unique.
  - rewrite sort_by_perm. pose proof (bfilter_perm (fun i => str_ltb (key a) (key i)) _ _ (sort_by_perm (id_le key) items)) as Hp.
    rewrite <- Hp, Hs, bfilter_app.
    rewrite (bfilter_none _ l1), app_nil_l.
    2:{ intros x Hx. destruct (str_ltb (key a) (key x)) eqn:E; [|done].
        pose proof (str_ltb_trans _ _ _ (Hb x Hx) E) as H. by rewrite str_ltb_irrefl in H. }
    change (bfilter ?p (a :: l2)) with (if p a then a :: bfilter p l2 else bfilter p l2). cbv beta.
    rewrite str_ltb_irrefl. by rewrite bfilter_all.
  - apply sort_sorted. by apply NoDup_map_filter.
  - done.
Qed.
End sorted.

(** ** Following the cursors *)

Section walk.
Context {A : Type} (fingerprint : js -> string).
Context (encodeCursor : string * string -> string) (decodeCursor : string -> option (string * string)).
Context (key : A -> string) (items : list A) (lim : option num) (binding : js) (ordered : bool).

(** Ask for pages until there is no next cursor; [None] when a page throws or the fuel ends. *)
Fixpoint follow (fuel : nat) (cursor : option string) : option (list A) :=
  match fuel with
  | O => None
  | S f =>
      match page fingerprint encodeCursor decodeCursor key items cursor lim binding ordered with
      | Err _ => None
      | Ok (xs, None) => Some xs
      | Ok (xs, Some c) => app xs <$> follow f (Some c)
      end
  end.

(** The listing a client is after. *)
Definition listing : list A := if ordered then items else sort_by (id_le key) items.

(** The cursors of this listing survive the trip to the client and back. *)
Record cursor_codec : Prop := {
  codec_inverse : forall x, x ∈ items -> decodeCursor (encodeCursor (fingerprint binding, key x)) = Some (fingerprint binding, key x);
  codec_nonempty : forall x, x ∈ items -> encodeCursor (fingerprint binding, key x) <> "";
  codec_short : forall x, x ∈ items -> slen (encodeCursor (fingerprint binding, key x)) <= 2048
}.
Context (codec : cursor_codec) (distinct : NoDup (map key items)) (named : forall x, x ∈ items -> key x <> "").

Lemma after_id_split l1 a l2 : NoDup (map key (l1 ++ a :: l2)) -> after_id key (key a) (l1 ++ a :: l2) = l2.
Proof.
  induction l1 as [|x l1 IH]; simpl; [by rewrite String.eqb_refl|]. rewrite list.NoDup_cons. intros [Hx Hnd].
  rewrite (proj2 (String.eqb_neq (key x) (key a))); [by apply IH|].
  intros E. apply Hx. rewrite E, map_app. apply elem_of_app. right. by left.
Qed.

Lemma listing_perm : listing ≡ₚ items.
Proof. unfold listing. destruct ordered; [done|apply sort_by_perm]. Qed.

(** What a cursor resumes with. *)
Lemma page_from cursor pre post n :
  limit lim = Ok n -> listing = pre ++ post ->
  (pre = [] /\ cursor = None \/ exists l a, pre = l ++ [a] /\ cursor = Some (encodeCursor (fingerprint binding, key a))) ->
  page fingerprint encodeCursor decodeCursor key items cursor lim binding ordered =
  Ok (take n post, if Nat.ltb n (length post)
                   then option_map (fun x => encodeCursor (fingerprint binding, key x)) (head (reverse (take n post))) else None).
Proof.
  intros Hn Hl Hc. unfold page. rewrite Hn. cbn [rbind]. unfold cursor_after.
  destruct Hc as [[-> ->]|(l & a & -> & ->)].
  - cbn [rbind]. simpl in Hl. unfold listing in Hl. destruct ordered; [by rewrite Hl|].
    rewrite bfilter_all; [by rewrite Hl|]. intros x Hx. destruct (key x) eqn:E; [by apply named in Hx|done].
  - assert (Ha : a ∈ items). { rewrite <- listing_perm, Hl. apply elem_of_app. left. apply elem_of_app. right. by left. }
    unfold is_empty at 1. rewrite (proj2 (String.eqb_neq _ _) (codec_nonempty codec a Ha)), (codec_inverse codec a Ha), String.eqb_refl. simpl.
    rewrite (proj2 (Z.ltb_ge _ _)) by by apply (codec_short codec).
    rewrite <- app_assoc in Hl. simpl in Hl. unfold listing in Hl. destruct ordered; simpl.
    + replace (existsb _ items) with true.
      2:{ symmetry. apply existsb_elem. exists a. split; [done|]. apply String.eqb_refl. }
      simpl. unfold is_empty. rewrite (proj2 (String.eqb_neq _ _) (named a Ha)). rewrite Hl in distinct |- *.
      by rewrite after_id_split.
    + by rewrite (resume_sorted key items l a post distinct Hl).
Qed.

Lemma limit_pos n : limit lim = Ok n -> (0 < n)%nat.
Proof. unfold limit. destruct (default _ lim); try discriminate. destruct (_ && _) eqn:E; [|discriminate]. intros [= <-]. bool_hyps. lia. Qed.

Lemma follow_from n fuel cursor pre post :
  limit lim = Ok n -> listing = pre ++ post -> (length post < fuel)%nat ->
  (pre = [] /\ cursor = None \/ exists l a, pre = l ++ [a] /\ cursor = Some (encodeCursor (fingerprint binding, key a))) ->
  follow fuel cursor = Some post.
Proof.
  intros Hn. pose proof (limit_pos n Hn) as Hpos. revert cursor pre post.
  induction fuel as [|f IH]; intros cursor pre post Hl Hf Hc; [lia|]. simpl. rewrite (page_from cursor pre post n Hn Hl Hc).
  destruct (Nat.ltb n (length post)) eqn:El; [|apply Nat.ltb_ge in El; by rewrite take_ge].
  apply Nat.ltb_lt in El. destruct (List.exists_last (l := take n post)) as (t & a & Et).
  { intros E. apply (f_equal length) in E. rewrite length_take in E. simpl in E. lia. }
  rewrite Et, reverse_snoc. simpl. rewrite (IH _ (pre ++ t ++ [a]) (drop n post)).
  - simpl. f_equal. rewrite <- Et. apply take_drop.
  - rewrite <- app_assoc, <- Et, take_drop. exact Hl.
  - rewrite length_drop. lia.
  - right. exists (pre ++ t), a. split; [by rewrite app_assoc|done].
Qed.
End walk.

(** Paging loses nothing and repeats nothing: for a listing of items with
    distinct, non-empty ids, a page size between 1 and 100 and cursors that
    survive their encoding, asking for pages until no cursor comes back returns
    exactly the listing, in order: as given when it is ordered, by id otherwise. *)
Theorem paging_complete A fingerprint encodeCursor decodeCursor (key : A -> string) items lim binding ordered n :
  cursor_codec fingerprint encodeCursor decodeCursor key items binding ->
  NoDup (map key items) -> (forall x, x ∈ items -> key x <> "") -> limit lim = Ok n ->
  follow fingerprint encodeCursor decodeCursor key items lim binding ordered (S (length items)) None =
  Some (listing key items ordered).
Proof.
  intros Hc Hnd Hne Hn. apply (follow_from _ _ _ _ _ _ _ _ Hc Hnd Hne n _ _ []); [done|done| |by left].
  rewrite (Permutation_length (listing_perm key items ordered)). lia.
Qed.

(** Cursors of the witness: the hash is one character. *)
Definition demo_encode (x : string * string) : string := x.1 +:+ x.2.
Definition demo_decode (s : string) : option (string * string) :=
  match s with String c r => Some (String c "", r) | EmptyString => None end.
Definition demo_items : list string := ["c"; "a"; "b"].

Lemma paging_complete_witness :
  follow (fun _ => "h") demo_encode demo_decode (fun x => x) demo_items (Some (Fin 2)) JNull false 4 None = Some ["a"; "b"; "c"].
Proof.
  apply (paging_complete string (fun _ => "h") demo_encode demo_decode (fun x => x) demo_items (Some (Fin 2)) JNull false 2).
  - constructor; intros x Hx; repeat (apply elem_of_cons in Hx as [->|Hx]; [vm_compute; (reflexivity || discriminate)|]);
      by apply not_elem_of_nil in Hx.
  - apply (bool_decide_unpack _). vm_compute. reflexivity.
  - intros x Hx; repeat (apply elem_of_cons in Hx as [->|Hx]; [vm_compute; (reflexivity || discriminate)|]);
      by apply not_elem_of_nil in Hx.
  - vm_compute. reflexivity.
Defined.

(** ** A concrete store for the witnesses *)

Fixpoint unary (n : nat) : string := match n with O => "" | S k => String (Ascii.ascii_of_nat 120) (unary k) end.
Definition demo_env : Env :=
  {| e_clock := fun n => Z.of_nat n; e_newId := fun p n => p +:+ unary n; e_localeLe := fun a b => negb (str_ltb b a);
     e_canParse := fun _ => true |}.

Fixpoint no_colon (s : string) : bool :=
  match s with EmptyString => true | String c r => negb (Ascii.eqb c (Ascii.ascii_of_nat 58)) && no_colon r end.

Lemma no_colon_app a e : no_colon (a +:+ ":" +:+ e) = false.
Proof. induction a as [|c a IH]; simpl; [done|]. by rewrite IH, andb_false_r. Qed.

Lemma demo_fresh : fresh_ids (e_newId demo_env).
Proof.
  split.
  - intros p n m H. apply append_inj_l in H. revert m H. induction n as [|n IH]; intros [|m]; simpl; try done.
    intros [= H]. f_equal. by apply IH.
  - intros n pid e H. apply (f_equal no_colon) in H. rewrite no_colon_app in H. simpl in H.
    induction n as [|n IH]; simpl in H; [discriminate|by apply IH].
Defined.

Definition alice : BoardActor := {| a_kind := Person; a_id := "alice" |}.
Definition no_patch : CardPatch :=
  {| i_title := None; i_description := None; i_labels := None; i_priority := None; i_dueAt := None; i_links := None |}.

(** A project, two cards in the backlog, one of them assigned and moved to the front of review. *)
Definition demo_calls : list board_call :=
  [BCreateProject "Demo" "alice" (JObj []) (Some "p");
   BCreateCard "p" "first" "p:backlog" None no_patch alice false;
   BCreateCard "p" "second" "p:backlog" (Some (Fin 0)) no_patch alice false;
   BAssign "p" "cardx" alice true alice;
   BMoveCard "p" "cardx" "p:review" (Some (Fin 0)) alice false;
   BUpdateColumn "p" "p:review" None None (Some (Some (Fin 1)))].

Definition demo_world : World := board_run demo_env demo_calls.
Definition demo_board : Data := default (default_board "p") (w_boards demo_world !! "p").

Lemma demo_board_stored : w_boards demo_world !! "p" = Some demo_board.
Proof. vm_compute. reflexivity. Defined.

(** ** Properties *)

(** (C38) Boards stay in order: whatever calls were made, successful or not, each
    stored board belongs to a project; its columns have distinct ids and carry
    their index as position; its cards have distinct ids, each sits in an
    existing column, and the cards of every column are numbered 0 to n-1
    without gap or repetition. *)
Theorem boards_stay_ordered v cs pid d :
  fresh_ids (e_newId v) -> w_boards (board_run v cs) !! pid = Some d ->
  is_Some (w_projects (board_run v cs) !! pid) /\
  NoDup (map col_id (columns_of d)) /\
  map col_position (columns_of d) = map Z.of_nat (seq 0 (length (columns_of d))) /\
  NoDup (map c_id (cards_of d)) /\
  (forall c, c ∈ cards_of d -> c_columnId c ∈ map col_id (columns_of d)) /\
  (forall col, contiguous col (cards_of d)).
Proof.
  intros Hf Hd. destruct (proj1 (board_run_Inv v cs Hf) pid d Hd) as (p & Hp & []).
  rewrite Hp. split_and!; try done. intros col. apply wf_positions. apply not_elem_of_nil.
Qed.

Lemma boards_stay_ordered_witness :
  map c_columnId (cards_of demo_board) = ["p:backlog"; "p:review"] /\ contiguous "p:review" (cards_of demo_board).
Proof.
  split; [vm_compute; reflexivity|].
  apply (boards_stay_ordered demo_env demo_calls "p" demo_board demo_fresh demo_board_stored).
Defined.

(** Nobody outside the project stays assigned: in every reachable store each
    assignee of each card is a member (a person) or an agent of the card's
    project, also after members and agents were removed. *)
Theorem assignees_belong v cs pid d c a :
  fresh_ids (e_newId v) -> w_boards (board_run v cs) !! pid = Some d -> c ∈ cards_of d -> a ∈ c_assignees c ->
  belongs (w_projects (board_run v cs) !! pid) a = true.
Proof.
  intros Hf Hd Hc Ha. destruct (proj1 (board_run_Inv v cs Hf) pid d Hd) as (p & -> & Hwf).
  by eapply (wf_assignees _ _ _ _ _ _ Hwf c a).
Qed.

Lemma assignees_belong_witness : belongs (w_projects demo_world !! "p") alice = true.
Proof.
  eapply (assignees_belong demo_env demo_calls "p" demo_board _ alice demo_fresh demo_board_stored).
  - apply (list_elem_of_lookup_2 _ 1). vm_compute. reflexivity.
  - vm_compute. left.
Defined.

(** Work-in-progress limits hold: from any reachable store, a call made without
    override leaves no column of any board over its limit that did not already
    hold as many active cards before the call; the check covers creating,
    moving, unarchiving and the evacuation of a deleted column. *)
Theorem wip_limits_respected v cs c pid d d' :
  fresh_ids (e_newId v) -> overrides c = false ->
  w_boards (board_run v cs) !! pid = Some d ->
  w_boards (board_do v c (board_run v cs)).2 !! pid = Some d' ->
  forall k l, k ∈ columns_of d' -> wipLimit k = Some l ->
    active_count d' (col_id k) <= Z.max l (active_count d (col_id k)).
Proof.
  intros Hf Ho Hd Hd'. exact (board_do_within v _ c pid d d' Hf (board_run_Inv v cs Hf) Ho Hd Hd').
Qed.

Lemma wip_limits_respected_witness :
  active_count (default (default_board "p")
    (w_boards (board_do demo_env (BMoveCard "p" "card" "p:review" None alice false) demo_world).2 !! "p")) "p:review" <= 1.
Proof.
  assert (H : 1 <= Z.max 1 (active_count demo_board "p:review") /\ Z.max 1 (active_count demo_board "p:review") <= 1)
    by (vm_compute; split; discriminate).
  etrans; [|exact (proj2 H)].
  set (c := {| col_id := "p:review"; col_title := None; col_titleKey := Some "project.board.review"; col_position := 2; wipLimit := Some 1 |}).
  apply (wip_limits_respected demo_env demo_calls (BMoveCard "p" "card" "p:review" None alice false) "p" demo_board
    (default (default_board "p") (w_boards (board_do demo_env (BMoveCard "p" "card" "p:review" None alice false) demo_world).2 !! "p"))
    demo_fresh eq_refl demo_board_stored) with (k := c).
  - vm_compute. reflexivity.
  - apply (list_elem_of_lookup_2 _ 2). vm_compute. reflexivity.
  - reflexivity.
Defined.

(** A refused call changes nothing: whenever a call of the store throws, for
    whatever reason and at whatever point of its body, every project row and
    every board is exactly what it was before. *)
Theorem refused_call_changes_nothing v c w e w' :
  board_do v c w = (Err e, w') -> w_projects w' = w_projects w /\ w_boards w' = w_boards w.
Proof. apply board_do_rolls. Qed.

Lemma refused_call_changes_nothing_witness :
  w_boards (board_do demo_env (BMoveCard "p" "card" "p:review" None alice false) demo_world).2 = w_boards demo_world.
Proof.
  apply (refused_call_changes_nothing demo_env (BMoveCard "p" "card" "p:review" None alice false) demo_world (BoardFault BWip)).
  vm_compute. reflexivity.
Defined.

(** History is append-only: over any further calls, a board keeps all the
    activity entries and comments it had, unchanged and in the same order, as
    the beginning of what it has afterwards, and the board itself stays. *)
Theorem history_append_only v cs cs' pid d :
  fresh_ids (e_newId v) -> w_boards (board_run v cs) !! pid = Some d ->
  exists d', w_boards (board_run v (cs ++ cs')) !! pid = Some d' /\
    activity_of d `prefix_of` activity_of d' /\ comments_of d `prefix_of` comments_of d'.
Proof.
  intros Hf Hd. unfold board_run. rewrite fold_left_app.
  assert (H : holds extends pid d (fold_left (fun w c => (board_do v c w).2) cs empty_world)).
  { destruct (proj1 (board_run_Inv v cs Hf) pid d Hd) as (p & Hp & _). split; [by exists p|]. exists d. by split. }
  revert H. generalize (fold_left (fun w c => (board_do v c w).2) cs empty_world).
  induction cs' as [|c cs' IH]; intros w Hw; simpl; [by destruct Hw as [_ Hw]|].
  apply IH. apply keeps_state; [apply history_do|done].
Qed.

Lemma history_append_only_witness :
  exists d', w_boards (board_run demo_env (demo_calls ++ [BComment "p" "card" "done" alice])) !! "p" = Some d' /\
    activity_of demo_board `prefix_of` activity_of d'.
Proof.
  destruct (history_append_only demo_env demo_calls [BComment "p" "card" "done" alice] "p" demo_board demo_fresh demo_board_stored)
    as (d' & H1 & H2 & _).
  exists d'. split; [exact H1|exact H2].
Defined.
