(* ===== verification/Double.v ===== *)
(** * Double-precision arithmetic

    A finite JavaScript number is the rational it stands for.  [fl] rounds an
    exact result to the nearest double, ties to even, with 53 bits of mantissa
    and subnormals below 2^-1022; it is all the components that multiply or
    divide fractions need.  Overflow cannot occur below the safe-integer range
    these components validate. *)

From S2P Require Import Prelude.
From Stdlib Require Import QArith Qround Qpower Qabs Lqa.
#[local] Open Scope Z_scope.

(** Nearest integer, ties to even. *)
Definition rne (x : Q) : Z :=
  let f := Qfloor x in
  match (x - inject_Z f ?= 1 # 2)%Q with
  | Lt => f
  | Gt => f + 1
  | Eq => if Z.even f then f else f + 1
  end.

Definition two_to (e : Z) : Q := Qpower (2 # 1) e.

(** Exponent of a positive rational: [2^e <= q < 2^(e+1)]. *)
Definition exponent (q : Q) : Z :=
  let l := Z.log2 (Qnum q) - Z.log2 (Zpos (Qden q)) in
  if Qle_bool (two_to l) q then l else l - 1.

(** Distance between doubles at the exponent [e]. *)
Definition ulp_exp (e : Z) : Z := Z.max (e - 52) (-1074).

Definition round_to_double (q : Q) : Q :=
  match (q ?= 0)%Q with
  | Eq => 0%Q
  | Gt => let u := two_to (ulp_exp (exponent q)) in Qred (inject_Z (rne (q / u)) * u)
  | Lt => let u := two_to (ulp_exp (exponent (- q))) in Qred (- (inject_Z (rne (- q / u)) * u))
  end.

(** The double nearest to [q]. *)
Definition fl (q : Q) : Q := round_to_double (Qred q).

Definition fmul (a b : Q) : Q := fl (a * b).
Definition fdiv (a b : Q) : Q := fl (a / b).

(** [Math.round]: halves go up. *)
Definition js_round (q : Q) : Z := Qfloor (q + (1 # 2)).

(** Addition of two integers held as doubles. *)
Definition jadd (a b : Z) : Z :=
  let s := a + b in if Z.abs s <=? 2 ^ 53 then s else Qfloor (fl (inject_Z s)).

(** ** Facts *)

Lemma rne_error x : (Qabs (inject_Z (rne x) - x) <= 1 # 2)%Q.
Proof.
  unfold rne. pose proof (Qfloor_le x) as H1. pose proof (Qlt_floor x) as H2.
  rewrite inject_Z_plus in H2. apply Qabs_Qle_condition.
  destruct (_ ?= _)%Q eqn:E.
  - apply Qeq_alt in E. destruct (Z.even _); [|rewrite inject_Z_plus]; change (inject_Z 1) with 1%Q in *; lra.
  - apply Qlt_alt in E. lra.
  - apply Qgt_alt in E. rewrite inject_Z_plus. change (inject_Z 1) with 1%Q in *; lra.
Qed.

Lemma rne_between x (a b : Z) : (inject_Z a <= x)%Q -> (x <= inject_Z b)%Q -> a <= rne x <= b.
Proof.
  intros Ha Hb. unfold rne.
  pose proof (Qfloor_le x) as H1. pose proof (Qlt_floor x) as H2.
  assert (Hfa : a <= Qfloor x) by (rewrite <- (Qfloor_Z a); by apply Qfloor_resp_le).
  assert (Hfb : Qfloor x <= b) by (rewrite <- (Qfloor_Z b) at 1; by apply Qfloor_resp_le).
  assert (Hlt : (0 < x - inject_Z (Qfloor x))%Q -> Qfloor x + 1 <= b).
  { intros H. destruct (Z.le_gt_cases (Qfloor x + 1) b); [done|].
    assert (Qfloor x = b) as E by lia. rewrite E in H. lra. }
  destruct (_ ?= _)%Q eqn:E.
  - apply Qeq_alt in E. assert (Qfloor x + 1 <= b) by (apply Hlt; lra). destruct (Z.even _); lia.
  - lia.
  - apply Qgt_alt in E. assert (Qfloor x + 1 <= b) by (apply Hlt; lra). lia.
Qed.

Lemma two_to_pos e : (0 < two_to e)%Q.
Proof. apply Qpower_0_lt. reflexivity. Qed.

Lemma two_to_plus a b : (two_to (a + b) == two_to a * two_to b)%Q.
Proof. apply Qpower_plus. discriminate. Qed.

Lemma two_to_Z e : 0 <= e -> (two_to e == inject_Z (2 ^ e))%Q.
Proof. intros H. unfold two_to. rewrite Zpower_Qpower by done. reflexivity. Qed.

Lemma two_to_le a b : a <= b -> (two_to a <= two_to b)%Q.
Proof. intros H. apply Qpower_le_compat_l; [done|]. discriminate. Qed.

Lemma two_to_lt_inv a b : (two_to a < two_to b)%Q -> a < b.
Proof.
  intros H. destruct (Z.lt_ge_cases a b) as [?|Hba]; [done|].
  apply two_to_le in Hba. lra.
Qed.

(** [2^(log2 n - log2 d - 1) <= n / d]. *)
Lemma log2_below q : (0 < q)%Q -> (two_to (Z.log2 (Qnum q) - Z.log2 (Zpos (Qden q)) - 1) <= q)%Q.
Proof.
  intros Hq. destruct q as [n d]. cbn [Qnum Qden].
  assert (Hn : 0 < n) by (unfold Qlt in Hq; simpl in Hq; lia).
  destruct (Z.log2_spec n Hn) as [Hn1 _]. destruct (Z.log2_spec (Zpos d) ltac:(lia)) as [_ Hd].
  pose proof (Z.log2_nonneg n) as Hl1. pose proof (Z.log2_nonneg (Zpos d)) as Hl2.
  set (ln := Z.log2 n) in *. set (ldd := Z.log2 (Zpos d)) in *.
  rewrite (Qmake_Qdiv n d). apply Qle_shift_div_l; [reflexivity|].
  apply Qle_trans with (two_to (ln - ldd - 1) * two_to (Z.succ ldd))%Q.
  - rewrite (Qmult_comm _ (inject_Z _)), (Qmult_comm _ (two_to (Z.succ ldd))).
    apply Qmult_le_compat_r; [|apply Qlt_le_weak, two_to_pos].
    rewrite two_to_Z by lia. rewrite <- Zle_Qle. lia.
  - rewrite <- two_to_plus. replace (ln - ldd - 1 + Z.succ ldd) with ln by lia.
    rewrite two_to_Z by lia. by rewrite <- Zle_Qle.
Qed.

Lemma exponent_below q : (0 < q)%Q -> (two_to (exponent q) <= q)%Q.
Proof.
  intros Hq. unfold exponent. destruct (Qle_bool _ _) eqn:E; [by apply Qle_bool_iff|by apply log2_below].
Qed.

Lemma exponent_lt q j : (0 < q)%Q -> (q < two_to j)%Q -> exponent q < j.
Proof. intros H Hj. apply two_to_lt_inv. eapply Qle_lt_trans; [by apply exponent_below|done]. Qed.

Lemma rtd_pos q : (0 < q)%Q ->
  (round_to_double q == inject_Z (rne (q / two_to (ulp_exp (exponent q)))) * two_to (ulp_exp (exponent q)))%Q.
Proof.
  intros H. unfold round_to_double. apply Qgt_alt in H. rewrite H. cbv zeta. apply Qred_correct.
Qed.

Lemma rtd_zero q : (q == 0)%Q -> round_to_double q = 0%Q.
Proof. intros H. unfold round_to_double. apply Qeq_alt in H. by rewrite H. Qed.

(** Rounding moves a number below [2^j] by at most [2^(j-54)]. *)
Lemma rtd_error q j : -1000 <= j -> (0 <= q)%Q -> (q < two_to j)%Q -> (Qabs (round_to_double q - q) <= two_to (j - 54))%Q.
Proof.
  intros Hj H0 Hq. destruct (Qle_lt_or_eq _ _ H0) as [Hp|He].
  2:{ rewrite rtd_zero by (by symmetry). rewrite <- He. apply Qlt_le_weak, two_to_pos. }
  rewrite rtd_pos by done. pose proof (exponent_lt q j Hp Hq) as Hexp.
  set (u := two_to (ulp_exp (exponent q))). assert (Hu : (0 < u)%Q) by apply two_to_pos.
  assert (E : (inject_Z (rne (q / u)) * u - q == (inject_Z (rne (q / u)) - q / u) * u)%Q) by (field; lra).
  rewrite E, Qabs_Qmult, (Qabs_pos u) by lra.
  apply Qle_trans with ((1 # 2) * u)%Q.
  - apply Qmult_le_compat_r; [apply rne_error|lra].
  - change (1 # 2)%Q with (two_to (-1)). unfold u. rewrite <- two_to_plus.
    apply two_to_le. unfold ulp_exp. lia.
Qed.

Lemma div_unit e z : e <= 0 -> (inject_Z z / two_to e == inject_Z (z * 2 ^ (- e)))%Q.
Proof.
  intros He. rewrite inject_Z_mult, <- two_to_Z by lia.
  assert (E : (/ two_to e == two_to (- e))%Q) by (unfold two_to; by rewrite Qpower_opp).
  unfold Qdiv. rewrite E. reflexivity.
Qed.

Lemma div_mono x y u : (0 < u)%Q -> (x <= y)%Q -> (x / u <= y / u)%Q.
Proof.
  intros Hu Hxy. unfold Qdiv. apply Qmult_le_compat_r; [done|]. apply Qlt_le_weak, Qinv_lt_0_compat, Hu.
Qed.

(** Rounding stays between integers a double holds. *)
Lemma rtd_between q (a b : Z) : (inject_Z a <= q)%Q -> (q <= inject_Z b)%Q -> 0 <= a -> b < 2 ^ 53 ->
  (inject_Z a <= round_to_double q)%Q /\ (round_to_double q <= inject_Z b)%Q.
Proof.
  intros Ha Hb H0 H53.
  assert (Hq0 : (0 <= q)%Q) by (rewrite Zle_Qle in H0; change (inject_Z 0) with 0%Q in H0; lra).
  destruct (Qle_lt_or_eq _ _ Hq0) as [Hp|He].
  2:{ rewrite rtd_zero by (by symmetry). rewrite <- He in Ha, Hb. done. }
  assert (Hlt : (q < two_to 53)%Q).
  { rewrite two_to_Z by lia. rewrite Zlt_Qlt in H53. lra. }
  rewrite rtd_pos by done. pose proof (exponent_lt q 53 Hp Hlt) as Hexp.
  assert (Hue : ulp_exp (exponent q) <= 0) by (unfold ulp_exp; lia).
  set (e := ulp_exp (exponent q)) in *. assert (Hu : (0 < two_to e)%Q) by apply two_to_pos.
  assert (Hm : forall z, (inject_Z (z * 2 ^ (- e)) * two_to e == inject_Z z)%Q)
    by (intros z; rewrite <- div_unit by done; field; lra).
  destruct (rne_between (q / two_to e) (a * 2 ^ (- e)) (b * 2 ^ (- e))) as [R1 R2].
  { rewrite <- div_unit by done. by apply div_mono. }
  { rewrite <- div_unit by done. by apply div_mono. }
  rewrite Zle_Qle in R1, R2. split.
  - rewrite <- (Hm a). apply Qmult_le_compat_r; [done|lra].
  - rewrite <- (Hm b). apply Qmult_le_compat_r; [done|lra].
Qed.

Lemma log2_above q : (0 < q)%Q -> (q < two_to (Z.log2 (Qnum q) - Z.log2 (Zpos (Qden q)) + 1))%Q.
Proof.
  intros Hq. destruct q as [n d]. cbn [Qnum Qden].
  assert (Hn : 0 < n) by (unfold Qlt in Hq; simpl in Hq; lia).
  destruct (Z.log2_spec n Hn) as [_ Hn2]. destruct (Z.log2_spec (Zpos d) ltac:(lia)) as [Hd _].
  pose proof (Z.log2_nonneg n) as Hl1. pose proof (Z.log2_nonneg (Zpos d)) as Hl2.
  set (ln := Z.log2 n) in *. set (ldd := Z.log2 (Zpos d)) in *.
  rewrite (Qmake_Qdiv n d). apply Qlt_shift_div_r; [reflexivity|].
  apply Qlt_le_trans with (two_to (ln - ldd + 1) * two_to ldd)%Q.
  - rewrite <- two_to_plus. replace (ln - ldd + 1 + ldd) with (Z.succ ln) by lia.
    rewrite two_to_Z by lia. by rewrite <- Zlt_Qlt.
  - rewrite (Qmult_comm _ (inject_Z _)), (Qmult_comm _ (two_to ldd)).
    apply Qmult_le_compat_r; [|apply Qlt_le_weak, two_to_pos].
    rewrite two_to_Z by lia. rewrite <- Zle_Qle. lia.
Qed.

Lemma exponent_ge q j : (two_to j <= q)%Q -> j <= exponent q.
Proof.
  intros H. assert (Hq : (0 < q)%Q) by (pose proof (two_to_pos j); lra).
  unfold exponent. destruct (Qle_bool _ q) eqn:E.
  - assert (j < Z.log2 (Qnum q) - Z.log2 (Zpos (Qden q)) + 1); [|lia].
    apply two_to_lt_inv. eapply Qle_lt_trans; [exact H|by apply log2_above].
  - assert (j < Z.log2 (Qnum q) - Z.log2 (Zpos (Qden q))); [|lia].
    apply two_to_lt_inv. eapply Qle_lt_trans; [exact H|]. apply Qnot_le_lt. intros C.
    apply Qle_bool_iff in C. congruence.
Qed.

(** A number of at least [2^j] stays so. *)
Lemma rtd_above q j : -1000 <= j -> (two_to j <= q)%Q -> (two_to j <= round_to_double q)%Q.
Proof.
  intros Hj H. assert (Hq : (0 < q)%Q) by (pose proof (two_to_pos j); lra).
  rewrite rtd_pos by done. pose proof (exponent_ge q j H) as He. pose proof (exponent_below q Hq) as Hb.
  assert (Eu : ulp_exp (exponent q) = exponent q - 52) by (unfold ulp_exp; lia). rewrite Eu.
  set (e := exponent q) in *. assert (Hu : (0 < two_to (e - 52))%Q) by apply two_to_pos.
  destruct (rne_between (q / two_to (e - 52)) (2 ^ 52) (Qceiling (q / two_to (e - 52)))) as [R _].
  - apply Qle_shift_div_l; [done|]. rewrite <- two_to_Z by lia. rewrite <- two_to_plus.
    by replace (52 + (e - 52)) with e by lia.
  - apply Qle_ceiling.
  - rewrite Zle_Qle, <- two_to_Z in R by lia.
    apply Qle_trans with (two_to 52 * two_to (e - 52))%Q.
    + rewrite <- two_to_plus. apply two_to_le. lia.
    + apply Qmult_le_compat_r; [done|lra].
Qed.

Lemma rne_mono x y : (x <= y)%Q -> rne x <= rne y.
Proof.
  intros H. pose proof (Qfloor_resp_le _ _ H) as Hf. unfold rne.
  assert (Hcase : Qfloor x < Qfloor y \/ Qfloor x = Qfloor y) by lia. destruct Hcase as [Hc|Hc].
  - repeat case_match; lia.
  - rewrite Hc. destruct (x - inject_Z (Qfloor y) ?= 1 # 2)%Q eqn:E1, (y - inject_Z (Qfloor y) ?= 1 # 2)%Q eqn:E2; try (repeat case_match; lia).
    + apply Qeq_alt in E1. apply Qlt_alt in E2. lra.
    + apply Qgt_alt in E1. apply Qeq_alt in E2. lra.
    + apply Qgt_alt in E1. apply Qlt_alt in E2. lra.
Qed.

(** A number up to a power of two rounds to one. *)
Lemma rtd_below q j : -1000 <= j -> (0 < q)%Q -> (q <= two_to j)%Q -> exponent q < j -> (round_to_double q <= two_to j)%Q.
Proof.
  intros Hj H0 Hq He. rewrite rtd_pos by done. set (e := ulp_exp (exponent q)).
  assert (Hej : 0 <= j - e) by (unfold e, ulp_exp; lia). pose proof (two_to_pos e) as Hu.
  destruct (rne_between (q / two_to e) (Qfloor (q / two_to e)) (2 ^ (j - e))) as [_ R].
  - apply Qfloor_le.
  - apply Qle_shift_div_r; [done|]. rewrite <- two_to_Z, <- two_to_plus by done. by replace (j - e + e) with j by lia.
  - rewrite Zle_Qle, <- two_to_Z in R by done. apply Qle_trans with (two_to (j - e) * two_to e)%Q; [apply Qmult_le_compat_r; [done|lra]|].
    rewrite <- two_to_plus. replace (j - e + e) with j by lia. apply Qle_refl.
Qed.

(** Rounding keeps order. *)
Lemma fl_mono p q : (two_to (-1000) <= p)%Q -> (p <= q)%Q -> (fl p <= fl q)%Q.
Proof.
  unfold fl. intros Hp Hq. rewrite <- (Qred_correct p) in Hp, Hq. rewrite <- (Qred_correct q) in Hq. revert Hp Hq. generalize (Qred p), (Qred q). clear p q. intros p q Hp Hq.
  assert (Hp0 : (0 < p)%Q) by (pose proof (two_to_pos (-1000)); lra). assert (Hq0 : (0 < q)%Q) by lra.
  pose proof (exponent_ge p _ Hp) as He1. pose proof (exponent_below p Hp0) as He2. pose proof (exponent_below q Hq0) as He3.
  destruct (Z.lt_ge_cases (exponent p) (exponent q)) as [Hlt|Hge].
  - apply Qle_trans with (two_to (exponent q)).
    + apply rtd_below; [lia|done| |done]. apply Qnot_lt_le. intros C. apply Qlt_le_weak, exponent_ge in C. lia.
    + apply rtd_above; [lia|done].
  - assert (exponent p = exponent q) as E by (pose proof (exponent_ge q (exponent p) ltac:(lra)); lia).
    rewrite !rtd_pos, E by done. apply Qmult_le_compat_r; [|apply Qlt_le_weak, two_to_pos].
    rewrite <- Zle_Qle. by apply rne_mono, div_mono; [apply two_to_pos|].
Qed.

Lemma fl_ext p q : (p == q)%Q -> fl p = fl q.
Proof. intros H. unfold fl. by rewrite (Qred_complete _ _ H). Qed.

Lemma fl_error q j : -1000 <= j -> (0 <= q)%Q -> (q < two_to j)%Q -> (Qabs (fl q - q) <= two_to (j - 54))%Q.
Proof.
  intros Hj H0 Hq. unfold fl. rewrite <- (Qred_correct q) at 2.
  apply rtd_error; [done| |]; by rewrite Qred_correct.
Qed.

Lemma fl_between q (a b : Z) : (inject_Z a <= q)%Q -> (q <= inject_Z b)%Q -> 0 <= a -> b < 2 ^ 53 ->
  (inject_Z a <= fl q)%Q /\ (fl q <= inject_Z b)%Q.
Proof. intros Ha Hb. apply rtd_between; by rewrite Qred_correct. Qed.

Lemma fl_above q j : 0 <= j -> (two_to j <= q)%Q -> (two_to j <= fl q)%Q.
Proof. intros Hj H. apply rtd_above; [lia|]. by rewrite Qred_correct. Qed.

(** ** Integers held as doubles *)

Lemma jadd_exact a b : Z.abs (a + b) <= 2 ^ 53 -> jadd a b = a + b.
Proof. intros H. unfold jadd. by rewrite (proj2 (Z.leb_le _ _) H). Qed.

Lemma jadd_large a b : 2 ^ 53 < a + b -> 2 ^ 53 <= jadd a b.
Proof.
  intros H. unfold jadd. destruct (Z.leb_spec (Z.abs (a + b)) (2 ^ 53)); [lia|].
  assert (two_to 53 <= fl (inject_Z (a + b)))%Q as E.
  { apply fl_above; [lia|]. rewrite two_to_Z by lia. rewrite <- Zle_Qle. lia. }
  rewrite two_to_Z in E by lia. apply Qfloor_resp_le in E. by rewrite Qfloor_Z in E.
Qed.

(** Comparing a sum with a safe integer is exact. *)
Lemma jadd_gtb a b h : 0 <= a -> 0 <= b -> h <= MAX_SAFE_INTEGER -> (h <? jadd a b) = (h <? a + b).
Proof.
  intros Ha Hb Hh. unfold MAX_SAFE_INTEGER in Hh.
  destruct (Z.le_gt_cases (a + b) (2 ^ 53)) as [Hs|Hs]; [by rewrite jadd_exact by lia|].
  pose proof (jadd_large a b Hs). change (2 ^ 53) with 9007199254740992 in *.
  transitivity true; [|symmetry]; apply Z.ltb_lt; lia.
Qed.

Lemma jadd_safe a b : 0 <= a -> 0 <= b -> safe_int (jadd a b) = true -> jadd a b = a + b.
Proof.
  intros Ha Hb Hs. apply safe_int_range in Hs. unfold MAX_SAFE_INTEGER in Hs.
  apply jadd_exact. destruct (Z.le_gt_cases (a + b) (2 ^ 53)); [lia|].
  pose proof (jadd_large a b ltac:(lia)). change (2 ^ 53) with 9007199254740992 in *. lia.
Qed.

(** A product by a share between 0 and 1 rounds within the range of the factor. *)
Lemma fmul_share w (s : Q) : 0 <= w < 2 ^ 53 -> (0 <= s)%Q -> (s <= 1)%Q ->
  (0 <= fmul (inject_Z w) s)%Q /\ (fmul (inject_Z w) s <= inject_Z w)%Q.
Proof.
  intros Hw H0 H1. change 0%Q with (inject_Z 0) at 1. apply fl_between; [| |lia|lia].
  - change (inject_Z 0) with 0%Q. apply Qmult_le_0_compat; [|done].
    change 0%Q with (inject_Z 0). rewrite <- Zle_Qle. lia.
  - rewrite Qmult_comm. apply Qle_trans with (1 * inject_Z w)%Q; [|rewrite Qmult_1_l; apply Qle_refl].
    apply Qmult_le_compat_r; [done|]. change 0%Q with (inject_Z 0). rewrite <- Zle_Qle. lia.
Qed.

(** A safe result was not rounded. *)
Lemma jadd_safe_lower a b : - 2 ^ 53 <= a + b -> safe_int (jadd a b) = true -> jadd a b = a + b.
Proof.
  intros Hl Hs. apply safe_int_range in Hs. unfold MAX_SAFE_INTEGER in Hs.
  destruct (Z.le_gt_cases (a + b) (2 ^ 53)); [apply jadd_exact; lia|].
  pose proof (jadd_large a b ltac:(lia)). change (2 ^ 53) with 9007199254740992 in *. lia.
Qed.
