(* ===== verification/BudgetPeriod.v ===== *)
(** * Budget periods

    Model of [packages/core/src/budget/period.ts]: the local day, week or month an
    instant falls in.  The zone's own date function and the validity of a zone
    name are parameters; the proleptic Gregorian calendar of [Date.UTC] and the
    binary search for the start of a local date are written out. *)

From S2P Require Import Prelude.

(* @src budget/period.ts 5 6 CallPeriod *)
Inductive CallPeriod : Type := Day | Week | Month.
#[export] Instance CallPeriod_eq_dec : EqDecision CallPeriod.
Proof. solve_decision. Defined.

(* @src budget/period.ts 7 7 PeriodBounds *)
Record PeriodBounds : Type := { b_period : CallPeriod; b_key : string; b_start : Z; b_end : Z }.

(* @src budget/period.ts 26 26 LocalDate *)
Record LocalDate : Type := { ly : Z; lm : Z; ld : Z }.

(* @src budget/period.ts 32 32 dateKey *)
Definition dateKey (l : LocalDate) : Z := ly l * 10000 + lm l * 100 + ld l.

(** ** The UTC calendar of [Date] *)

Definition day_ms : Z := 86400000.

(** Days since 1970-01-01 of a civil date; the month may be any integer and the
    day is an offset from the first, so both roll over. *)
Definition days_of_civil (y m d : Z) : Z :=
  let y' := y + (m - 1) / 12 in
  let m' := (m - 1) mod 12 + 1 in
  let yy := if m' <=? 2 then y' - 1 else y' in
  let era := yy / 400 in
  let yoe := yy - era * 400 in
  let mp := if 2 <? m' then m' - 3 else m' + 9 in
  let doy := (153 * mp + 2) / 5 in
  let doe := yoe * 365 + yoe / 4 - yoe / 100 + doy in
  era * 146097 + doe - 719468 + (d - 1).

Definition civil_of_days (z0 : Z) : LocalDate :=
  let z := z0 + 719468 in
  let era := z / 146097 in
  let doe := z - era * 146097 in
  let yoe := (doe - doe / 1460 + doe / 36524 - doe / 146096) / 365 in
  let doy := doe - (365 * yoe + yoe / 4 - yoe / 100) in
  let mp := (5 * doy + 2) / 153 in
  let m := if mp <? 10 then mp + 3 else mp - 9 in
  {| ly := yoe + era * 400 + (if m <=? 2 then 1 else 0); lm := m; ld := doy - (153 * mp + 2) / 5 + 1 |}.

(** [Date.UTC(y, m - 1, d)] in days: two-digit years mean 19xx. *)
Definition utc_day (y m d : Z) : Z := days_of_civil (if (0 <=? y) && (y <=? 99) then 1900 + y else y) m d.

(** Sunday is 0. *)
Definition weekday (days : Z) : Z := (days + 4) mod 7.

Section zone.
Context (valid_zone : string -> bool) (localDate : Z -> string -> LocalDate).

(* @src budget/period.ts 20 24 validateTimeZone *)
Definition validateTimeZone (tz : string) : result string string :=
  if negb (is_empty tz) && (slen tz <=? 64) && valid_zone tz then Ok tz else Err "invalid time zone".

(** The loop of the search: at most [fuel] halvings. *)
(* @src budget/period.ts 41 44 startOfLocalDate *)
Fixpoint search (fuel : nat) (target : Z) (tz : string) (lo hi : Z) : Z :=
  match fuel with
  | O => hi
  | S f =>
      if 1 <? hi - lo then
        let mid := lo + (hi - lo) / 2 in
        if target <=? dateKey (localDate mid tz) then search f target tz lo mid else search f target tz mid hi
      else hi
  end.

Definition half_window : Z := 36 * 3600000.

(** 72 hours halve to one millisecond in 28 steps. *)
Definition search_fuel : nat := 28.

(* @src budget/period.ts 34 46 startOfLocalDate *)
Definition startOfLocalDate (y m d : Z) (tz : string) : Z :=
  let days := utc_day y m d in
  let target := dateKey (civil_of_days days) in
  let base := days * day_ms in
  search search_fuel target tz (base - half_window) (base + half_window).

(* @src budget/period.ts 48 62 periodBounds *)
Definition periodBounds (ts : num) (tz : string) (p : CallPeriod) : result string PeriodBounds :=
  match ts with
  | Fin t =>
      let l := localDate t tz in
      match p with
      | Week =>
          let days := utc_day (ly l) (lm l) (ld l) in
          let wd := weekday days in
          let mo := civil_of_days (utc_day (ly l) (lm l) (ld l - (wd + 6) mod 7)) in
          Ok {| b_period := p; b_key := digits 4 (ly mo) +:+ "-" +:+ digits 2 (lm mo) +:+ "-" +:+ digits 2 (ld mo);
                b_start := startOfLocalDate (ly mo) (lm mo) (ld mo) tz; b_end := startOfLocalDate (ly mo) (lm mo) (ld mo + 7) tz |}
      | Day =>
          Ok {| b_period := p; b_key := digits 4 (ly l) +:+ "-" +:+ digits 2 (lm l) +:+ "-" +:+ digits 2 (ld l);
                b_start := startOfLocalDate (ly l) (lm l) (ld l) tz; b_end := startOfLocalDate (ly l) (lm l) (ld l + 1) tz |}
      | Month =>
          Ok {| b_period := p; b_key := digits 4 (ly l) +:+ "-" +:+ digits 2 (lm l);
                b_start := startOfLocalDate (ly l) (lm l) 1 tz; b_end := startOfLocalDate (ly l) (lm l + 1) 1 tz |}
      end
  | _ => Err "invalid timestamp"
  end.

(** ** The search *)

(** The search keeps its bracket and ends with the two sides adjacent. *)
Lemma search_bracket fuel target tz lo hi :
  lo < hi -> hi - lo <= 2 ^ Z.of_nat fuel ->
  dateKey (localDate lo tz) < target <= dateKey (localDate hi tz) ->
  let r := search fuel target tz lo hi in
  lo < r <= hi /\ dateKey (localDate (r - 1) tz) < target <= dateKey (localDate r tz).
Proof.
  revert lo hi. induction fuel as [|f IH]; intros lo hi Hlt Hf Hk; cbv zeta; simpl search.
  - change (2 ^ Z.of_nat 0) with 1 in Hf. replace (hi - 1) with lo by lia. lia.
  - destruct (1 <? hi - lo) eqn:E; bool_hyps; [|replace (hi - 1) with lo by lia; lia].
    rewrite Nat2Z.inj_succ, Z.pow_succ_r in Hf by lia.
    pose proof (Z.div_mod (hi - lo) 2 ltac:(lia)). pose proof (Z.mod_pos_bound (hi - lo) 2 ltac:(lia)).
    set (mid := lo + (hi - lo) / 2) in *.
    destruct (target <=? dateKey (localDate mid tz)) eqn:Em; bool_hyps.
    + specialize (IH lo mid ltac:(lia) ltac:(lia) ltac:(lia)). cbv zeta in IH. lia.
    + specialize (IH mid hi ltac:(lia) ltac:(lia) ltac:(lia)). cbv zeta in IH. lia.
Qed.

Lemma search_fuel_enough : 2 * half_window <= 2 ^ Z.of_nat search_fuel.
Proof. vm_compute. discriminate. Qed.
End zone.

(** The search for the start of a local date is right and always ends within
    its 28 halvings: whenever the local date 36 hours before the UTC midnight is
    earlier than the date sought and 36 hours after is not, the instant returned
    already has that date or a later one while the millisecond before it does
    not; and if the zone's date never goes back within the window, it is the
    first instant of the window that has. *)
Theorem startOfLocalDate_first localDate y m d tz :
  let base := utc_day y m d * day_ms in
  let target := dateKey (civil_of_days (utc_day y m d)) in
  let key t := dateKey (localDate t tz) in
  let r := startOfLocalDate localDate y m d tz in
  key (base - half_window) < target <= key (base + half_window) ->
  base - half_window < r <= base + half_window /\ key (r - 1) < target <= key r /\
  ((forall t t', base - half_window <= t <= t' -> t' <= base + half_window -> key t <= key t') ->
   forall t, base - half_window <= t <= base + half_window -> target <= key t -> r <= t).
Proof.
  cbv zeta. intros Hk. unfold startOfLocalDate.
  pose proof search_fuel_enough as Hf.
  destruct (search_bracket localDate search_fuel (dateKey (civil_of_days (utc_day y m d))) tz
    (utc_day y m d * day_ms - half_window) (utc_day y m d * day_ms + half_window)) as [Hr Hk'].
  - unfold half_window. lia.
  - lia.
  - exact Hk.
  - split; [exact Hr|]. split; [exact Hk'|]. intros Hmono t Ht Hge.
    set (r := search _ _ _ _ _ _) in *. destruct (Z.le_gt_cases r t); [done|].
    specialize (Hmono t (r - 1) ltac:(lia) ltac:(lia)). lia.
Qed.

(** A zone 90 minutes behind UTC. *)
Definition demo_zone (t : Z) (tz : string) : LocalDate := civil_of_days ((t - 5400000) / day_ms).

Lemma startOfLocalDate_first_witness :
  dateKey (demo_zone (startOfLocalDate demo_zone 2026 11 1 "Etc/Demo") "Etc/Demo") >= 20261101.
Proof.
  pose proof (startOfLocalDate_first demo_zone 2026 11 1 "Etc/Demo") as H. cbv zeta in H.
  destruct H as (_ & [_ H] & _); [vm_compute; split; [reflexivity|discriminate]|].
  change (dateKey (civil_of_days (utc_day 2026 11 1))) with 20261101 in H. lia.
Defined.
