(* ===== verification/BudgetStore.v ===== *)
(** * The budget database

    Model of the tables [packages/core/src/budget/store.ts] creates and the call
    port adds, of its transactions, and of [cache-read-weight.ts]: the weight of
    cache reads, its text in the settings table and the tokens a limit counts.
    A [World] is the database, the clock readings taken so far and the events
    handed to the sink; only the database is rolled back. *)

From Stdlib Require Import QArith Qround Qabs Lqa.
From S2P Require Import Prelude Double BudgetPeriod.
#[local] Open Scope Z_scope.

(** ** Data *)

(* @src budget/service.ts 14 14 Metric *)
Inductive Metric : Type := Tokens | Images | VideoSeconds.
#[export] Instance Metric_eq_dec : EqDecision Metric.
Proof. solve_decision. Defined.

(* @src budget/service.ts 11 11 LimitScope *)
Inductive LimitScope : Type := SAgent | SGlobal.
#[export] Instance LimitScope_eq_dec : EqDecision LimitScope.
Proof. solve_decision. Defined.

(** A row of [usage_event]. *)
(* @src budget/store.ts 11 24 usage_event *)
Record UsageRow : Type := {
  ue_ts : Z; ue_agent : string; ue_provider : string; ue_model : string;
  ue_input : Z; ue_output : Z; ue_cacheRead : Z; ue_cacheWrite : Z;
  ue_request : option string; ue_images : Z; ue_video : Z
}.

(** A row of [budget_limit]; [None] is the metric 'cost' of an older core. *)
(* @src budget/store.ts 55 66 budget_limit_v2 *)
Record LimitRow : Type := {
  l_scope : LimitScope; l_agent : string; l_period : CallPeriod; l_metric : option Metric;
  l_soft : option Z; l_hard : option Z
}.

(* @src budget/store.ts 40 49 notice *)
Record Notice : Type := {
  nt_hard : bool; nt_scope : LimitScope; nt_agent : string; nt_period : CallPeriod; nt_metric : option Metric; nt_key : string
}.
#[export] Instance Notice_eq_dec : EqDecision Notice.
Proof. solve_decision. Defined.

(* @src budget/calls.ts 13 13 CallScope *)
Inductive CallScope : Type := Global | User | Project | Agent | Turn | Session.
#[export] Instance CallScope_eq_dec : EqDecision CallScope.
Proof. solve_decision. Defined.

(* @src budget/calls.ts 82 85 CallRow *)
Record CallRow : Type := {
  r_id : string; r_principal : string; r_project : string; r_agent : string; r_model : string; r_provider : string;
  r_turn : string; r_session : string; r_ts : Z; r_tokens : Z; r_images : Z; r_video : Z; r_settled : bool
}.
#[export] Instance CallRow_eq_dec : EqDecision CallRow.
Proof. solve_decision. Defined.

(** A row of [budget_call_limit]; an older core may have left one with a metric this core ignores. *)
(* @src budget/calls.ts 120 124 budget_call_limit *)
Record CallLimitRow : Type := {
  cl_scope : CallScope; cl_id : string; cl_period : CallPeriod; cl_metric : option Metric; cl_hard : Z; cl_soft : Z
}.

(* @src budget/calls.ts 125 128 budget_call_notice *)
Record CallNotice : Type := {
  cn_scope : CallScope; cn_id : string; cn_period : CallPeriod; cn_metric : Metric; cn_key : string
}.
#[export] Instance CallNotice_eq_dec : EqDecision CallNotice.
Proof. solve_decision. Defined.

(** Rows are in insertion order. *)
Record Store : Type := {
  s_usage : list UsageRow; s_limits : list LimitRow; s_timezone : option string; s_weight : option string;
  s_schema : option string; s_notices : list Notice;
  s_calls : list CallRow; s_callLimits : list CallLimitRow; s_callNotices : list CallNotice
}.

Definition empty_store : Store :=
  {| s_usage := []; s_limits := []; s_timezone := None; s_weight := None; s_schema := None; s_notices := [];
     s_calls := []; s_callLimits := []; s_callNotices := [] |}.

Definition set_usage f (s : Store) : Store :=
  {| s_usage := f (s_usage s); s_limits := s_limits s; s_timezone := s_timezone s; s_weight := s_weight s; s_schema := s_schema s;
     s_notices := s_notices s; s_calls := s_calls s; s_callLimits := s_callLimits s; s_callNotices := s_callNotices s |}.
Definition set_limits f (s : Store) : Store :=
  {| s_usage := s_usage s; s_limits := f (s_limits s); s_timezone := s_timezone s; s_weight := s_weight s; s_schema := s_schema s;
     s_notices := s_notices s; s_calls := s_calls s; s_callLimits := s_callLimits s; s_callNotices := s_callNotices s |}.
Definition set_settings (tz w sc : option string) (s : Store) : Store :=
  {| s_usage := s_usage s; s_limits := s_limits s; s_timezone := tz; s_weight := w; s_schema := sc;
     s_notices := s_notices s; s_calls := s_calls s; s_callLimits := s_callLimits s; s_callNotices := s_callNotices s |}.
Definition set_notices f (s : Store) : Store :=
  {| s_usage := s_usage s; s_limits := s_limits s; s_timezone := s_timezone s; s_weight := s_weight s; s_schema := s_schema s;
     s_notices := f (s_notices s); s_calls := s_calls s; s_callLimits := s_callLimits s; s_callNotices := s_callNotices s |}.
Definition set_calls f (s : Store) : Store :=
  {| s_usage := s_usage s; s_limits := s_limits s; s_timezone := s_timezone s; s_weight := s_weight s; s_schema := s_schema s;
     s_notices := s_notices s; s_calls := f (s_calls s); s_callLimits := s_callLimits s; s_callNotices := s_callNotices s |}.
Definition set_callLimits f (s : Store) : Store :=
  {| s_usage := s_usage s; s_limits := s_limits s; s_timezone := s_timezone s; s_weight := s_weight s; s_schema := s_schema s;
     s_notices := s_notices s; s_calls := s_calls s; s_callLimits := f (s_callLimits s); s_callNotices := s_callNotices s |}.
Definition set_callNotices f (s : Store) : Store :=
  {| s_usage := s_usage s; s_limits := s_limits s; s_timezone := s_timezone s; s_weight := s_weight s; s_schema := s_schema s;
     s_notices := s_notices s; s_calls := s_calls s; s_callLimits := s_callLimits s; s_callNotices := f (s_callNotices s) |}.

(** What a call throws: [BudgetInputError], a [RangeError], a [TypeError], or an error of the
    database: a sum outside the integers it can hand back, or a newer schema. *)
Inductive Fault : Type := FInput | FRange | FType | FStore | FSchema.
#[export] Instance Fault_eq_dec : EqDecision Fault.
Proof. solve_decision. Defined.

Record World (Ev : Type) : Type := { w_db : Store; w_ticks : nat; w_sent : list Ev }.
Arguments w_db {Ev} _.
Arguments w_ticks {Ev} _.
Arguments w_sent {Ev} _.

Definition empty_world Ev : World Ev := {| w_db := empty_store; w_ticks := 0; w_sent := [] |}.

Section steps.
Context {Ev : Type} (clk : nat -> Z).
Notation M := (SE (World Ev) Fault).

(** [clock.now()]: the next reading of an arbitrary clock. *)
Definition clock_now : M Z := fun w =>
  (Ok (clk (w_ticks w)), {| w_db := w_db w; w_ticks := S (w_ticks w); w_sent := w_sent w |}).

Definition query {A} (f : Store -> A) : M A := gets (fun w => f (w_db w)).
Definition update (f : Store -> Store) : M unit :=
  modify (fun w => {| w_db := f (w_db w); w_ticks := w_ticks w; w_sent := w_sent w |}).
(** The sink's own failures are swallowed. *)
Definition emit (e : Ev) : M unit :=
  modify (fun w => {| w_db := w_db w; w_ticks := w_ticks w; w_sent := w_sent w ++ [e] |}).
Definition lift {A} (r : result Fault A) : M A := fun w => (r, w).

(* @src budget/store.ts 132 142 transaction *)
Definition transaction {A} (m : M A) : M A := fun w =>
  match m w with
  | (Ok a, w') => (Ok a, w')
  | (Err e, w') => (Err e, {| w_db := w_db w; w_ticks := w_ticks w'; w_sent := w_sent w' |})
  end.

Fixpoint each {A} (f : A -> M unit) (l : list A) : M unit :=
  match l with [] => mret tt | x :: r => _ ← f x; each f r end.

(** Run [f] on each element and keep its answers in order. *)
Fixpoint gather {A B} (f : A -> M (list B)) (l : list A) : M (list B) :=
  match l with
  | [] => mret []
  | x :: r => ys ← f x; zs ← gather f r; mret (ys ++ zs)
  end.
End steps.

(** ** The weight of cache reads *)

(* @src budget/cache-read-weight.ts 10 10 DEFAULT_CACHE_READ_WEIGHT *)
Definition DEFAULT_CACHE_READ_WEIGHT : Q := 1.
(* @src budget/cache-read-weight.ts 12 12 MICROS *)
Definition MICROS : Z := 1000000.

(** [None] is a value that is not a finite number. *)
(* @src budget/cache-read-weight.ts 18 23 validateCacheReadWeight *)
Definition validateCacheReadWeight (w : option Q) : result Fault Q :=
  match w with
  | Some w =>
      if negb (Qle_bool 0 w) || negb (Qle_bool w 1) then Err FRange
      else Ok (fdiv (inject_Z (js_round (fmul w (inject_Z MICROS)))) (inject_Z MICROS))
  | None => Err FRange
  end.

Definition is_digit (c : Ascii.ascii) : bool := let n := Ascii.nat_of_ascii c in Nat.leb 48 n && Nat.leb n 57.
Definition digit_val (c : Ascii.ascii) : Z := Z.of_nat (Ascii.nat_of_ascii c) - 48.

(** The leading digits of a text: their value on top of [acc], their number, the rest. *)
Fixpoint take_digits (acc : Z) (n : nat) (l : list Ascii.ascii) : Z * nat * list Ascii.ascii :=
  match l with
  | c :: r => if is_digit c then take_digits (acc * 10 + digit_val c) (S n) r else (acc, n, l)
  | [] => (acc, n, [])
  end.

(** [Number(s)] for a text [STORED] matches, [None] for any other. *)
(* @src budget/cache-read-weight.ts 14 15 STORED *)
Definition parse_stored (s : string) : option Q :=
  match take_digits 0 0 (chars s) with
  | (_, O, _) => None
  | (i, _, []) => Some (fl (inject_Z i))
  | (i, _, c :: r) =>
      if Nat.eqb (Ascii.nat_of_ascii c) 46
      then match take_digits i 0 r with
           | (v, S k, []) => Some (fl (inject_Z v / inject_Z (10 ^ Z.of_nat (S k))))
           | _ => None
           end
      else None
  end.

(* @src budget/cache-read-weight.ts 26 30 storedCacheReadWeight *)
Definition storedCacheReadWeight (s : Store) : Q :=
  match s_weight s ≫= parse_stored with
  | Some w => if Qle_bool 0 w && Qle_bool w 1
              then match validateCacheReadWeight (Some w) with Ok v => v | Err _ => DEFAULT_CACHE_READ_WEIGHT end
              else DEFAULT_CACHE_READ_WEIGHT
  | None => DEFAULT_CACHE_READ_WEIGHT
  end.

(** The fraction [m / 10^k] without its trailing zeros. *)
Fixpoint print_fraction (k : nat) (m : Z) : string :=
  match k with
  | O => ""
  | S k' => if m mod 10 =? 0 then print_fraction k' (m / 10) else digits k m
  end.

(** [String(v)] of a whole number of millionths up to one: fewer than seven
    digits, so its shortest decimal is the plain one. *)
Definition print_micros (m : Z) : string :=
  if m =? 0 then "0" else if m =? MICROS then "1" else "0." +:+ print_fraction 6 m.

Definition micros_of (w : Q) : Z := js_round (fmul w (inject_Z MICROS)).

(* @src budget/cache-read-weight.ts 33 38 writeCacheReadWeight *)
Definition writeCacheReadWeight {Ev} (w : option Q) : SE (World Ev) Fault Q :=
  v ← lift (validateCacheReadWeight w);
  _ ← update (fun s => set_settings (s_timezone s) (Some (print_micros (micros_of v))) (s_schema s) s);
  mret v.

(* @src budget/cache-read-weight.ts 44 44 CACHE_READS_SQL *)
Definition cacheReads (r : UsageRow) : Z := Z.min (ue_cacheRead r) (ue_input r).

(* @src budget/cache-read-weight.ts 52 56 countedTokens *)
Definition countedTokens (inputOutput reads : Z) (weight : Q) : Z :=
  let micros := js_round (fmul weight (inject_Z MICROS)) in
  let kept := Z.quot (reads * micros + (MICROS - 1)) MICROS in
  jadd (jadd inputOutput (- reads)) kept.

(** ** Facts *)

Lemma js_round_between q (a b : Z) : (inject_Z a <= q)%Q -> (q <= inject_Z b)%Q -> a <= js_round q <= b.
Proof.
  intros Ha Hb. unfold js_round. split.
  - rewrite <- (Qfloor_Z a). apply Qfloor_resp_le. lra.
  - pose proof (Qfloor_le (q + (1 # 2))) as H. destruct (Z.le_gt_cases (Qfloor (q + (1 # 2))) b); [done|].
    assert (inject_Z (b + 1) <= inject_Z (Qfloor (q + (1 # 2))))%Q as E by (rewrite <- Zle_Qle; lia).
    rewrite inject_Z_plus in E. change (inject_Z 1) with 1%Q in E. lra.
Qed.

(** Anything closer than a half to an integer rounds to it. *)
Lemma js_round_near q (n : Z) : (Qabs (q - inject_Z n) < 1 # 2)%Q -> js_round q = n.
Proof.
  intros H. apply Qabs_Qlt_condition in H as [H1 H2]. unfold js_round.
  pose proof (Qfloor_le (q + (1 # 2))) as F1. pose proof (Qlt_floor (q + (1 # 2))) as F2.
  set (f := Qfloor _) in *.
  assert (inject_Z f < inject_Z (n + 1))%Q as G1 by (rewrite inject_Z_plus; change (inject_Z 1) with 1%Q; lra).
  assert (inject_Z n < inject_Z (f + 1))%Q as G2 by (rewrite inject_Z_plus in *; change (inject_Z 1) with 1%Q in *; lra).
  rewrite <- Zlt_Qlt in G1, G2. lia.
Qed.

Lemma micros_range w : (0 <= w)%Q -> (w <= 1)%Q -> 0 <= micros_of w <= MICROS.
Proof.
  intros H0 H1. unfold micros_of, fmul.
  assert (inject_Z 0 <= fl (w * inject_Z MICROS) /\ fl (w * inject_Z MICROS) <= inject_Z MICROS)%Q as [A B].
  { apply fl_between; [| |done|done].
    - apply Qmult_le_0_compat; [done|discriminate].
    - apply Qle_trans with (1 * inject_Z MICROS)%Q; [|rewrite Qmult_1_l; apply Qle_refl].
      apply Qmult_le_compat_r; [done|discriminate]. }
  by apply js_round_between.
Qed.

(** The double of a whole number of millionths. *)
Definition of_micros (m : Z) : Q := fdiv (inject_Z m) (inject_Z MICROS).

Lemma of_micros_range m : 0 <= m <= MICROS -> (0 <= of_micros m)%Q /\ (of_micros m <= 1)%Q.
Proof.
  intros Hm. unfold of_micros, fdiv. change 0%Q with (inject_Z 0) at 1. change 1%Q with (inject_Z 1).
  apply fl_between; [| |done|done].
  - apply Qle_shift_div_l; [reflexivity|]. rewrite <- inject_Z_mult, <- Zle_Qle. lia.
  - apply Qle_shift_div_r; [reflexivity|]. rewrite <- inject_Z_mult, <- Zle_Qle. lia.
Qed.

Lemma of_micros_error m : 0 <= m <= MICROS -> (Qabs (of_micros m - inject_Z m / inject_Z MICROS) <= two_to (1 - 54))%Q.
Proof.
  intros Hm.
  apply fl_error; [done| |].
  - apply Qle_shift_div_l; [reflexivity|]. change 0%Q with (inject_Z 0).
    rewrite <- inject_Z_mult, <- Zle_Qle. lia.
  - apply Qlt_shift_div_r; [reflexivity|]. change (two_to 1) with (inject_Z 2).
    rewrite <- inject_Z_mult, <- Zlt_Qlt. unfold MICROS in *. lia.
Qed.

(** Doubles lose no millionth. *)
Lemma micros_of_micros m : 0 <= m <= MICROS -> micros_of (of_micros m) = m.
Proof.
  intros Hm. unfold micros_of. apply js_round_near. unfold fmul.
  destruct (of_micros_range m Hm) as [V0 V1].
  set (v := of_micros m) in *.
  pose proof (of_micros_error m Hm) as E1. fold v in E1.
  assert (E2 : (Qabs (fl (v * inject_Z MICROS) - v * inject_Z MICROS) <= two_to (21 - 54))%Q).
  { apply fl_error; [done| |].
    - apply Qmult_le_0_compat; [done|discriminate].
    - change (two_to 21) with (2097152 # 1)%Q. change (inject_Z MICROS) with (1000000 # 1)%Q. lra. }
  apply Qabs_Qle_condition in E1, E2. apply Qabs_Qlt_condition.
  change (two_to (1 - 54)) with (1 # 9007199254740992)%Q in E1.
  change (two_to (21 - 54)) with (1 # 8589934592)%Q in E2.
  assert (Em : (inject_Z m == (inject_Z m / inject_Z MICROS) * inject_Z MICROS)%Q) by (field; discriminate).
  set (x := (inject_Z m / inject_Z MICROS)%Q) in *. change (inject_Z MICROS) with (1000000 # 1)%Q in *.
  set (y := fl (v * (1000000 # 1))) in *. rewrite Em. split; lra.
Qed.

Lemma js_round_error q : (Qabs (inject_Z (js_round q) - q) <= 1 # 2)%Q.
Proof.
  unfold js_round. pose proof (Qfloor_le (q + (1 # 2))) as F1. pose proof (Qlt_floor (q + (1 # 2))) as F2.
  rewrite inject_Z_plus in F2. change (inject_Z 1) with 1%Q in F2. apply Qabs_Qle_condition. split; lra.
Qed.

(** Rounding to millionths moves a weight by less than one. *)
Lemma of_micros_near q : (0 <= q)%Q -> (q <= 1)%Q -> (Qabs (of_micros (micros_of q) - q) <= 1 # 1000000)%Q.
Proof.
  intros H0 H1. pose proof (micros_range q H0 H1) as Hm.
  assert (E1 : (Qabs (fl (q * inject_Z MICROS) - q * inject_Z MICROS) <= two_to (21 - 54))%Q).
  { apply fl_error; [done| |].
    - apply Qmult_le_0_compat; [done|discriminate].
    - change (two_to 21) with (2097152 # 1)%Q. change (inject_Z MICROS) with (1000000 # 1)%Q. lra. }
  pose proof (js_round_error (fmul q (inject_Z MICROS))) as E2. unfold fmul in E2.
  change (js_round (fl (q * inject_Z MICROS))) with (micros_of q) in E2.
  set (m := micros_of q) in *. pose proof (of_micros_error m Hm) as E3.
  set (v := of_micros m) in *. clearbody v m. set (y := fl _) in *. clearbody y.
  apply Qabs_Qle_condition in E1, E2, E3. apply Qabs_Qle_condition.
  change (two_to (1 - 54)) with (1 # 9007199254740992)%Q in E3.
  change (two_to (21 - 54)) with (1 # 8589934592)%Q in E1.
  assert (Em : (inject_Z m == (inject_Z m / inject_Z MICROS) * inject_Z MICROS)%Q) by (field; discriminate).
  set (x := (inject_Z m / inject_Z MICROS)%Q) in *. rewrite Em in E2. change (inject_Z MICROS) with (1000000 # 1)%Q in *.
  clearbody x. split; lra.
Qed.

Lemma validate_ok w v : validateCacheReadWeight w = Ok v ->
  exists q, w = Some q /\ (0 <= q)%Q /\ (q <= 1)%Q /\ v = of_micros (micros_of q).
Proof.
  destruct w as [q|]; [|done]. simpl. intros H. destruct (Qle_bool 0 q) eqn:E1; [|done].
  destruct (Qle_bool q 1) eqn:E2; [|done]. simpl in H. injection H as <-.
  apply Qle_bool_iff in E1, E2. exists q. done.
Qed.

(** ** The text of a weight *)

Lemma digit_is_digit d : 0 <= d < 10 -> is_digit (digit d) = true /\ digit_val (digit d) = d.
Proof.
  intros Hd. unfold is_digit, digit_val, digit.
  rewrite Ascii.nat_ascii_embedding by lia. split; [|lia].
  rewrite andb_true_iff, !Nat.leb_le. lia.
Qed.

(** The last [j] digits of [n] are those of its remainder. *)
Lemma digits_mod j k n : (j <= k)%nat -> digits j n = digits j (n mod 10 ^ Z.of_nat k).
Proof.
  induction j as [|j IH]; intros Hj; [done|]. cbn [digits]. rewrite IH by lia. f_equal. f_equal.
  replace (Z.of_nat k) with (Z.of_nat j + (1 + (Z.of_nat k - Z.of_nat j - 1))) by lia.
  set (r := Z.of_nat k - Z.of_nat j - 1). assert (Hr : 0 <= r) by lia.
  assert (Pj : 0 < 10 ^ Z.of_nat j) by (apply Z.pow_pos_nonneg; lia).
  assert (Pr : 0 < 10 ^ r) by (apply Z.pow_pos_nonneg; lia).
  rewrite (Z.pow_add_r 10 (Z.of_nat j)), (Z.pow_add_r 10 1) by lia. rewrite Z.pow_1_r.
  rewrite Z.rem_mul_r by lia.
  rewrite (Z.mul_comm (10 ^ Z.of_nat j)), Z.div_add by lia.
  rewrite (Z.div_small (n mod 10 ^ Z.of_nat j)) by (apply Z.mod_pos_bound; lia).
  rewrite Z.add_0_l, Z.rem_mul_r by lia.
  rewrite (Z.mul_comm 10), Z.mod_add by lia. by rewrite Z.mod_mod by lia.
Qed.

Lemma take_digits_digits k n acc c : 0 <= n < 10 ^ Z.of_nat k ->
  take_digits acc c (chars (digits k n)) = (acc * 10 ^ Z.of_nat k + n, (c + k)%nat, []).
Proof.
  revert n acc c. induction k as [|k IH]; intros n acc c Hn.
  - change (10 ^ Z.of_nat 0) with 1 in *. simpl. repeat f_equal; lia.
  - assert (Hp : 0 < 10 ^ Z.of_nat k) by lia.
    rewrite Nat2Z.inj_succ in Hn |- *. rewrite Z.pow_succ_r in Hn |- * by lia.
    cbn [digits chars String.list_ascii_of_string take_digits]. fold (chars (digits k n)).
    pose proof (Z.div_mod n (10 ^ Z.of_nat k) ltac:(lia)) as D. pose proof (Z.mod_pos_bound n (10 ^ Z.of_nat k) Hp) as B.
    assert (Q : 0 <= n / 10 ^ Z.of_nat k < 10).
    { split; [apply Z.div_pos; [lia|done]|]. apply Z.div_lt_upper_bound; [done|]. lia. }
    rewrite (Z.mod_small _ 10) by done. destruct (digit_is_digit _ Q) as [-> ->].
    assert (Hd : digits k n = digits k (n mod 10 ^ Z.of_nat k)).
    { apply digits_mod. lia. }
    rewrite Hd, IH by done.
    assert ((acc * 10 + n / 10 ^ Z.of_nat k) * 10 ^ Z.of_nat k + n mod 10 ^ Z.of_nat k = acc * (10 * 10 ^ Z.of_nat k) + n) as ->.
    { rewrite D at 3. ring. }
    by replace (S c + k)%nat with (c + S k)%nat by lia.
Qed.

Lemma print_fraction_spec k m : 0 < m < 10 ^ Z.of_nat k ->
  exists j n, print_fraction k m = digits (S j) n /\ 0 <= n < 10 ^ Z.of_nat (S j) /\
              n * 10 ^ Z.of_nat k = m * 10 ^ Z.of_nat (S j).
Proof.
  revert m. induction k as [|k IH]; intros m Hm.
  - change (10 ^ Z.of_nat 0) with 1 in Hm. lia.
  - cbn [print_fraction]. destruct (m mod 10 =? 0) eqn:E; bool_hyps.
    + pose proof (Z.div_mod m 10 ltac:(lia)) as D. rewrite Nat2Z.inj_succ, Z.pow_succ_r in Hm by lia.
      rewrite (Nat2Z.inj_succ k), (Z.pow_succ_r _ (Z.of_nat k)) by lia.
      destruct (IH (m / 10)) as (j & n & -> & Hn & Hv); [lia|].
      exists j, n. split; [done|]. split; [done|]. rewrite D, E. nia.
    + exists k, m. split; [done|]. split; [lia|done].
Qed.

Lemma parse_print m : 0 <= m <= MICROS -> parse_stored (print_micros m) = Some (of_micros m).
Proof.
  intros Hm. unfold print_micros. destruct (m =? 0) eqn:E0; bool_hyps; [by rewrite E0|].
  destruct (m =? MICROS) eqn:E1; bool_hyps; [by rewrite E1|].
  destruct (print_fraction_spec 6 m) as (j & n & -> & Hn & Hv); [unfold MICROS in *; lia|].
  unfold parse_stored. change (chars ("0." +:+ digits (S j) n)) with
    (Ascii.ascii_of_nat 48 :: Ascii.ascii_of_nat 46 :: chars (digits (S j) n)).
  set (ds := chars (digits (S j) n)). cbn [take_digits]. 
  change (is_digit (Ascii.ascii_of_nat 48)) with true. cbv iota.
  change (0 * 10 + digit_val (Ascii.ascii_of_nat 48)) with 0. cbn [take_digits].
  change (is_digit (Ascii.ascii_of_nat 46)) with false. cbv iota.
  change (Nat.eqb (Ascii.nat_of_ascii (Ascii.ascii_of_nat 46)) 46) with true. cbv iota.
  unfold ds. rewrite take_digits_digits by done. cbn [Nat.add]. rewrite Z.mul_0_l, Z.add_0_l.
  f_equal. unfold of_micros, fdiv. apply fl_ext.
  assert (P : ~ (inject_Z (10 ^ Z.of_nat (S j)) == 0)%Q).
  { change 0%Q with (inject_Z 0). intros C. apply (proj1 (inject_Z_injective _ _)) in C. lia. }
  assert (Hz : (inject_Z n * inject_Z MICROS == inject_Z m * inject_Z (10 ^ Z.of_nat (S j)))%Q).
  { rewrite <- !inject_Z_mult. apply inject_Z_injective. exact Hv. }
  apply (Qeq_trans _ (inject_Z n * inject_Z MICROS / (inject_Z MICROS * inject_Z (10 ^ Z.of_nat (S j))))).
  - field. split; first [exact P|discriminate].
  - rewrite Hz. field. split; first [exact P|discriminate].
Qed.

(** What is stored is a whole number of millionths. *)
Lemma stored_weight_micros s : exists m, 0 <= m <= MICROS /\ storedCacheReadWeight s = of_micros m.
Proof.
  assert (D : exists m, 0 <= m <= MICROS /\ DEFAULT_CACHE_READ_WEIGHT = of_micros m) by (exists MICROS; done).
  unfold storedCacheReadWeight. destruct (s_weight s ≫= parse_stored) as [w|]; [|done].
  destruct (Qle_bool 0 w && Qle_bool w 1); [|done].
  destruct (validateCacheReadWeight (Some w)) as [v|] eqn:E; [|done].
  apply validate_ok in E as (q & [= <-] & H0 & H1 & ->). exists (micros_of w). split; [by apply micros_range|done].
Qed.

Lemma stored_weight_range s : (0 <= storedCacheReadWeight s)%Q /\ (storedCacheReadWeight s <= 1)%Q.
Proof. destruct (stored_weight_micros s) as (m & Hm & ->). by apply of_micros_range. Qed.

(** A stored whole number of millionths is the weight. *)
Lemma stored_after s m : 0 <= m <= MICROS -> s_weight s = Some (print_micros m) -> storedCacheReadWeight s = of_micros m.
Proof.
  intros Hm Hs. unfold storedCacheReadWeight. rewrite Hs. change (Some (print_micros m) ≫= parse_stored) with (parse_stored (print_micros m)).
  rewrite parse_print by done. destruct (of_micros_range m Hm) as [V0 V1].
  apply Qle_bool_iff in V0, V1. rewrite V0, V1. cbn [andb]. unfold validateCacheReadWeight. rewrite V0, V1. cbn [negb orb].
  fold (micros_of (of_micros m)). by rewrite micros_of_micros.
Qed.

(** The tokens a limit counts, without the rounding of large doubles. *)
Definition counted (io reads : Z) (w : Q) : Z := io - reads + (reads * micros_of w + (MICROS - 1)) / MICROS.

Lemma counted_range io reads w : (0 <= w)%Q -> (w <= 1)%Q -> 0 <= reads ->
  io - reads <= counted io reads w <= io.
Proof.
  intros H0 H1 Hr. pose proof (micros_range w H0 H1) as Hm. unfold counted, MICROS in *.
  change (1000000 - 1) with 999999.
  assert (0 <= (reads * micros_of w + 999999) / 1000000 <= reads); [|lia]. split.
  - apply Z.div_pos; nia.
  - apply Z.lt_succ_r, Z.div_lt_upper_bound; nia.
Qed.

Lemma countedTokens_eq io reads w : (0 <= w)%Q -> (w <= 1)%Q -> 0 <= reads <= io -> io <= MAX_SAFE_INTEGER ->
  countedTokens io reads w = counted io reads w.
Proof.
  intros H0 H1 Hr Hio. pose proof (counted_range io reads w H0 H1 ltac:(lia)) as Hc.
  pose proof (micros_range w H0 H1) as Hm.
  unfold countedTokens, counted in *. fold (micros_of w). unfold MAX_SAFE_INTEGER, MICROS in *.
  rewrite Z.quot_div_nonneg by nia.
  rewrite (jadd_exact io) by lia. rewrite jadd_exact; [lia|].
  change (2 ^ 53) with 9007199254740992. lia.
Qed.

(** The tokens a limit counts are input plus output less the unweighted share
    of the cache reads, rounded up to a whole token in exact integer arithmetic:
    the reads taken off never exceed the reads, the count is never below the rule
    [io - reads + reads * w] (with [w] in millionths) and less than one token
    above it, and at full weight it is input plus output itself. *)
Theorem countedTokens_exact io reads w :
  (0 <= w)%Q -> (w <= 1)%Q -> 0 <= reads <= io -> io <= MAX_SAFE_INTEGER ->
  let c := countedTokens io reads w in
  io - reads <= c <= io /\
  reads * micros_of w <= (c - (io - reads)) * MICROS < reads * micros_of w + MICROS /\
  (w == 1 -> c = io)%Q.
Proof.
  intros H0 H1 Hr Hio. cbv zeta. rewrite countedTokens_eq by done.
  split; [apply counted_range; [done|done|lia]|].
  pose proof (micros_range w H0 H1) as Hm. unfold counted, MICROS in *.
  pose proof (Z.div_mod (reads * micros_of w + 999999) 1000000 ltac:(lia)) as D.
  pose proof (Z.mod_pos_bound (reads * micros_of w + 999999) 1000000 ltac:(lia)) as B.
  change (1000000 - 1) with 999999 in *. split; [lia|]. intros E.
  assert (micros_of w = 1000000) as Ew.
  { unfold micros_of, fmul. rewrite (fl_ext _ (1 * inject_Z MICROS)%Q) by (by rewrite E). reflexivity. }
  rewrite Ew in *. lia.
Qed.

Lemma countedTokens_exact_witness : countedTokens 1000 900 (of_micros 100000) = 190 /\
  (1000 - 900 <= countedTokens 1000 900 (of_micros 100000) <= 1000).
Proof.
  split; [vm_compute; reflexivity|].
  apply (countedTokens_exact 1000 900 (of_micros 100000)); [apply Qle_bool_iff; vm_compute; reflexivity|apply Qle_bool_iff; vm_compute; reflexivity|lia|].
  unfold MAX_SAFE_INTEGER. lia.
Defined.

(** A weight survives the settings table: whatever weight is accepted, the one
    returned is between 0 and 1 and at most a millionth away, the text stored
    reads back as exactly it, and every sum then counts with it; a weight outside
    0 to 1 (or not a finite number) is refused and changes nothing. *)
Theorem cache_weight_round_trip {Ev} (w : World Ev) (x : option Q) :
  match writeCacheReadWeight x w with
  | (Ok v, w') =>
      storedCacheReadWeight (w_db w') = v /\ (0 <= v)%Q /\ (v <= 1)%Q /\
      (forall q, x = Some q -> (Qabs (v - q) <= 1 # 1000000)%Q) /\
      w' = {| w_db := set_settings (s_timezone (w_db w)) (Some (print_micros (micros_of v))) (s_schema (w_db w)) (w_db w);
              w_ticks := w_ticks w; w_sent := w_sent w |}
  | (Err e, w') => e = FRange /\ w' = w /\ forall q, x = Some q -> ~ ((0 <= q)%Q /\ (q <= 1)%Q)
  end.
Proof.
  unfold writeCacheReadWeight, mbind, SE_bind, lift.
  destruct (validateCacheReadWeight x) as [v|e] eqn:E.
  - apply validate_ok in E as (q & -> & H0 & H1 & ->).
    pose proof (micros_range q H0 H1) as Hm. destruct (of_micros_range _ Hm) as [V0 V1].
    unfold update, modify, mret, SE_ret. cbv beta iota.
    rewrite micros_of_micros by done. split_and!; [|exact V0|exact V1| |reflexivity].
    + by apply stored_after.
    + intros q' [= <-]. apply of_micros_near; done.
  - destruct x as [q|]; simpl in *; [|split; [congruence|done]].
    destruct (Qle_bool 0 q) eqn:E0; destruct (Qle_bool q 1) eqn:E1; simpl in E; try done;
      (split; [congruence|]; split; [done|]; intros q' [= <-] [A B]; apply Qle_bool_iff in A, B; congruence).
Qed.

(** ** Facts of the database that steps keep *)

Section db_keeps.
Context {Ev : Type} (P : Store -> Prop).
Notation KP := (keeps (E := Fault) (fun w : World Ev => P (w_db w))).

Lemma db_update (f : Store -> Store) : (forall s, P s -> P (f s)) -> KP (update f).
Proof. intros H w Hw. apply H, Hw. Qed.
Lemma db_query {A} (f : Store -> A) : KP (query f).
Proof. by intros w Hw. Qed.
Lemma db_emit (e : Ev) : KP (emit e).
Proof. by intros w Hw. Qed.
Lemma db_clock clk : KP (clock_now clk).
Proof. by intros w Hw. Qed.
Lemma db_lift {A} (r : result Fault A) : KP (lift r).
Proof. intros w Hw. by destruct r. Qed.
Lemma db_transaction {A} (m : SE (World Ev) Fault A) : KP m -> KP (transaction m).
Proof. intros H w Hw. specialize (H w Hw). unfold transaction. by destruct (m w) as [[a|e] w']. Qed.
Lemma db_gather {A B} (f : A -> SE (World Ev) Fault (list B)) l : (forall x, KP (f x)) -> KP (gather f l).
Proof. intros H. induction l as [|x l IH]; cbn [gather]; keeps_tac; auto with keeps. Qed.
Lemma db_each {A} (f : A -> SE (World Ev) Fault unit) l : (forall x, KP (f x)) -> KP (each f l).
Proof. intros H. induction l as [|x l IH]; cbn [each]; keeps_tac; auto with keeps. Qed.
End db_keeps.

#[export] Hint Resolve db_query db_emit db_clock db_lift db_transaction db_gather db_each : keeps.

Lemma lift_bind {Ev A B} (r : result Fault A) (k : A -> SE (World Ev) Fault B) w :
  (lift r ≫= k) w = match r with Ok a => k a w | Err e => (Err e, w) end.
Proof. by destruct r. Qed.

(** Handing the events of a committed step to the sink. *)
Lemma each_emit {Ev} (l : list Ev) (w : World Ev) : each emit l w = (Ok tt, {| w_db := w_db w; w_ticks := w_ticks w; w_sent := w_sent w ++ l |}).
Proof.
  revert w. induction l as [|e l IH]; intros w; cbn [each].
  - rewrite app_nil_r. by destruct w.
  - unfold mbind, SE_bind. cbn. rewrite IH. cbn. by rewrite <- app_assoc.
Qed.

(** ** Rows of the ledger *)

Definition row_nonneg (u : UsageRow) : Prop :=
  0 <= ue_input u /\ 0 <= ue_output u /\ 0 <= ue_cacheRead u /\ 0 <= ue_cacheWrite u /\ 0 <= ue_images u /\ 0 <= ue_video u.

Definition tokens_of (u : UsageRow) : Z := ue_input u + ue_output u.

(** Counts are not negative, no two rows share a request id, and all the tokens
    ever recorded add up to a number a double holds. *)
Definition usage_ok (s : Store) : Prop :=
  (forall u, u ∈ s_usage s -> row_nonneg u) /\ NoDup (omap ue_request (s_usage s)).
Definition usage_safe (s : Store) : Prop := zsum tokens_of (s_usage s) <= MAX_SAFE_INTEGER.

(** The tokens a limit counts over some of the rows. *)
Definition spent_on (rows : list UsageRow) (w : Q) : Z := counted (zsum tokens_of rows) (zsum cacheReads rows) w.

Lemma spent_on_counted s p w : usage_ok s -> usage_safe s -> (0 <= w)%Q -> (w <= 1)%Q ->
  let rows := bfilter p (s_usage s) in
  countedTokens (jadd (zsum ue_input rows) (zsum ue_output rows)) (zsum cacheReads rows) w = spent_on rows w /\
  0 <= spent_on rows w <= MAX_SAFE_INTEGER.
Proof.
  intros [Hn _] Hs H0 H1. cbv zeta. set (rows := bfilter p (s_usage s)).
  assert (Hr : forall u, u ∈ rows -> row_nonneg u) by (intros u Hu; apply bfilter_elem in Hu as [Hu _]; auto).
  assert (Ht : zsum tokens_of rows <= MAX_SAFE_INTEGER).
  { eapply Z.le_trans; [|exact Hs]. apply zsum_bfilter_le. intros u Hu. destruct (Hn u Hu) as (? & ? & _). unfold tokens_of. lia. }
  assert (Hi : 0 <= zsum ue_input rows) by (apply zsum_nonneg; intros u Hu; apply Hr in Hu; unfold row_nonneg in Hu; lia).
  assert (Ho : 0 <= zsum ue_output rows) by (apply zsum_nonneg; intros u Hu; apply Hr in Hu; unfold row_nonneg in Hu; lia).
  assert (Hc : 0 <= zsum cacheReads rows) by (apply zsum_nonneg; intros u Hu; apply Hr in Hu; unfold row_nonneg, cacheReads in *; lia).
  assert (Hci : zsum cacheReads rows <= zsum ue_input rows) by (apply zsum_le; intros u Hu; unfold cacheReads; lia).
  assert (Hsum : zsum ue_input rows + zsum ue_output rows = zsum tokens_of rows) by (symmetry; apply zsum_plus).
  unfold MAX_SAFE_INTEGER in *.
  rewrite jadd_exact by (change (2 ^ 53) with 9007199254740992; lia). rewrite Hsum.
  split; [apply countedTokens_eq; [done|done|lia|unfold MAX_SAFE_INTEGER; lia]|].
  pose proof (counted_range (zsum tokens_of rows) (zsum cacheReads rows) w H0 H1 Hc). unfold spent_on. lia.
Qed.

(** A transaction keeps what its successful runs keep. *)
Lemma db_transaction_ok {Ev A} (P : Store -> Prop) (m : SE (World Ev) Fault A) :
  (forall w a w', P (w_db w) -> m w = (Ok a, w') -> P (w_db w')) -> keeps (fun w => P (w_db w)) (transaction m).
Proof.
  intros H w Hw. unfold transaction. specialize (H w). destruct (m w) as [[a|e] w']; [by eapply H|exact Hw].
Qed.
