(* ===== verification/BudgetLedger.v ===== *)
(** * The budget service

    Model of [packages/core/src/budget/service.ts]: usage accounting, soft and
    hard limits, and the check before a model call.  The clock is an arbitrary
    stream of instants and the time zone's calendar a parameter; events leave
    through the world's list in the order the service hands them to its sink. *)

From Stdlib Require Import QArith.
From S2P Require Import Prelude Double BudgetPeriod BudgetStore.
#[local] Open Scope Z_scope.

(** ** Data *)

(* @src budget/service.ts 48 51 BudgetEvent *)
Record BudgetEvent : Type := {
  be_hard : bool; be_scope : LimitScope; be_agent : string; be_period : CallPeriod; be_metric : option Metric;
  be_limit : Z; be_used : Z; be_key : string
}.

(* @src budget/service.ts 35 39 Breach *)
Record Breach : Type := { br_row : LimitRow; br_limit : Z; br_used : Z; br_estimate : Z; br_key : string; br_resetsAt : Z }.
(* @src budget/service.ts 40 45 Warning *)
Record Warning : Type := { wn_row : LimitRow; wn_limit : Z; wn_used : Z; wn_estimate : Z; wn_key : string; wn_notified : bool }.
(* @src budget/service.ts 46 46 CheckDecision *)
Record CheckDecision : Type := { allowed : bool; cd_breaches : list Breach; cd_warnings : list Warning }.

(* @src budget/service.ts 32 32 Limit *)
Record Limit : Type := { lim_scope : LimitScope; lim_agentId : option string; lim_period : CallPeriod; lim_metric : option Metric;
                         lim_soft : option Z; lim_hard : option Z }.

(** ** Validation *)

Definition alnum (c : Ascii.ascii) : bool :=
  let n := Ascii.nat_of_ascii c in
  (Nat.leb 65 n && Nat.leb n 90) || (Nat.leb 97 n && Nat.leb n 122) || (Nat.leb 48 n && Nat.leb n 57).
Definition id_char (c : Ascii.ascii) : bool :=
  alnum c || existsb (Ascii.eqb c) (chars "._:/@+=-").

(* @src budget/service.ts 99 99 ID *)
Definition id_ok (s : string) : bool :=
  match chars s with
  | c :: r => alnum c && forallb id_char r && Nat.leb (length r) 127
  | [] => false
  end.

(* @src budget/service.ts 105 108 ident *)
Definition ident (v : js) : result Fault string :=
  match v with JStr s => if id_ok s then Ok s else Err FInput | _ => Err FInput end.

(* @src budget/service.ts 109 113 count *)
Definition count (v : js) (optional : bool) : result Fault Z :=
  match v with
  | JUndef => if optional then Ok 0 else Err FInput
  | JNum (Fin z) => if safe_int z && (0 <=? z) then Ok z else Err FInput
  | _ => Err FInput
  end.

(** The [typeof] test of the callers and the closed set of properties. *)
(* @src budget/service.ts 114 116 closed *)
Definition closed (v : js) (keys : list string) : result Fault unit :=
  match v with
  | JObj fs => if forallb (fun p => includes keys (fst p)) fs then Ok tt else Err FInput
  | JArr [] => Ok tt
  | _ => Err FInput
  end.

(* @src budget/service.ts 100 100 EVENT_KEYS *)
Definition EVENT_KEYS : list string :=
  ["agent"; "model"; "provider"; "inputTokens"; "outputTokens"; "cacheReadTokens"; "cacheWriteTokens"; "ts"; "requestId"].
(* @src budget/service.ts 101 102 MAX_TS *)
Definition MAX_TS : Z := 8640000000000000.
(* @src budget/service.ts 103 103 ESTIMATE_KEYS *)
Definition ESTIMATE_KEYS : list string := ["provider"; "inputTokens"; "outputTokens"].

(** [x === undefined ? d : f(x)] *)
Definition opt_js {A} (v : js) (d : A) (f : js -> result Fault A) : result Fault A := if js_is_undef v then Ok d else f v.

(** ** Sums over the ledger *)

(* @src budget/service.ts 118 119 Row *)
Record Row : Type := { n_ : Z; i_ : Z; o_ : Z; cr_ : Z; cw_ : Z; im_ : Z; vs_ : Z; ri_ : Z; fresh_ : Z }.

(* @src budget/service.ts 120 120 ZERO_ROW *)
Definition ZERO_ROW : Row := {| n_ := 0; i_ := 0; o_ := 0; cr_ := 0; cw_ := 0; im_ := 0; vs_ := 0; ri_ := 0; fresh_ := 0 |}.

(* @src budget/service.ts 125 125 SUMS *)
Definition SUMS (l : list UsageRow) : Row :=
  {| n_ := Z.of_nat (length l); i_ := zsum ue_input l; o_ := zsum ue_output l; cr_ := zsum ue_cacheRead l; cw_ := zsum ue_cacheWrite l;
     im_ := zsum ue_images l; vs_ := zsum ue_video l; ri_ := zsum cacheReads l;
     fresh_ := zsum (fun r => Z.max 0 (ue_input r - ue_cacheRead r - ue_cacheWrite r)) l |}.

Definition row_values (r : Row) : list Z := [n_ r; i_ r; o_ r; cr_ r; cw_ r; im_ r; vs_ r; ri_ r; fresh_ r].

(** The driver refuses to hand back an integer a double cannot hold. *)
Definition fetch (r : Row) : result Fault Row := if forallb safe_int (row_values r) then Ok r else Err FStore.

Definition in_period (st en : Z) (agent : option string) (u : UsageRow) : bool :=
  (st <=? ue_ts u) && (ue_ts u <? en) && match agent with Some a => String.eqb (ue_agent u) a | None => true end.

(* @src budget/service.ts 172 175 sums *)
Definition sums (s : Store) (st en : Z) (agent : option string) : result Fault Row :=
  fetch (SUMS (bfilter (in_period st en agent) (s_usage s))).

(* @src budget/service.ts 126 127 USED *)
Definition USED (m : Metric) (r : Row) (w : Q) : Z :=
  match m with
  | Tokens => countedTokens (jadd (i_ r) (o_ r)) (ri_ r) w
  | Images => im_ r
  | VideoSeconds => vs_ r
  end.

(* @src budget/service.ts 72 79 UsageTotals *)
Record UsageTotals : Type := {
  events : Z; inputTokens : Z; outputTokens : Z; cacheReadTokens : Z; cacheWriteTokens : Z;
  freshInputTokens : Z; t_countedTokens : Z; images : Z; videoSeconds : Z
}.

(* @src budget/service.ts 121 124 totals *)
Definition totals (r : Row) (w : Q) : UsageTotals :=
  {| events := n_ r; inputTokens := i_ r; outputTokens := o_ r; cacheReadTokens := cr_ r; cacheWriteTokens := cw_ r;
     freshInputTokens := fresh_ r; t_countedTokens := countedTokens (jadd (i_ r) (o_ r)) (ri_ r) w; images := im_ r; videoSeconds := vs_ r |}.

(** ** Limits *)

Definition scope_text (s : LimitScope) : string := match s with SAgent => "agent" | SGlobal => "global" end.
Definition period_text (p : CallPeriod) : string := match p with Day => "day" | Month => "month" | Week => "week" end.
Definition metric_text (m : option Metric) : string :=
  match m with None => "cost" | Some Images => "images" | Some Tokens => "tokens" | Some VideoSeconds => "videoSeconds" end.

(** [ORDER BY scope, agent, period, metric] *)
Fixpoint texts_le (a b : list string) : bool :=
  match a, b with
  | x :: a', y :: b' => str_ltb x y || (String.eqb x y && texts_le a' b')
  | _, _ => true
  end.
Definition row_key (r : LimitRow) : list string := [scope_text (l_scope r); l_agent r; period_text (l_period r); metric_text (l_metric r)].
Definition row_le (a b : LimitRow) : bool := texts_le (row_key a) (row_key b).

(* @src budget/service.ts 134 134 TOKEN_LIMITS *)
Definition TOKEN_LIMITS (r : LimitRow) : bool := bool_decide (l_metric r = Some Tokens).
(* @src budget/service.ts 136 136 KNOWN_LIMITS *)
Definition KNOWN_LIMITS (r : LimitRow) : bool := bool_decide (l_metric r <> None).

Definition is_global (s : LimitScope) : bool := match s with SGlobal => true | SAgent => false end.
Definition covers (agent : string) (r : LimitRow) : bool := is_global (l_scope r) || String.eqb (l_agent r) agent.

(* @src budget/service.ts 183 186 limitRows *)
Definition limitRows (s : Store) (agent : option string) (which : LimitRow -> bool) : list LimitRow :=
  sort_by row_le (bfilter (fun r => which r && match agent with Some a => covers a r | None => true end) (s_limits s)).

(* @src budget/service.ts 187 187 toLimit *)
Definition toLimit (r : LimitRow) : Limit :=
  {| lim_scope := l_scope r; lim_agentId := if is_global (l_scope r) then None else Some (l_agent r); lim_period := l_period r;
     lim_metric := l_metric r; lim_soft := l_soft r; lim_hard := l_hard r |}.

Definition same_limit (sc : LimitScope) (agent : string) (p : CallPeriod) (m : option Metric) (r : LimitRow) : bool :=
  bool_decide (l_scope r = sc) && String.eqb (l_agent r) agent && bool_decide (l_period r = p) && bool_decide (l_metric r = m).

(** [INSERT ... ON CONFLICT DO UPDATE] *)
Definition upsert_limit (x : LimitRow) (l : list LimitRow) : list LimitRow :=
  let k := same_limit (l_scope x) (l_agent x) (l_period x) (l_metric x) in
  if existsb k l then map (fun r => if k r then x else r) l else l ++ [x].

(** ** The service *)

Section service.
Context (clk : nat -> Z) (valid_zone : string -> bool) (localDate : Z -> string -> LocalDate) (defaultTz : string).
Notation W := (World BudgetEvent).
Notation M := (SE W Fault).

(* @src budget/service.ts 166 170 getTz *)
Definition getTz (s : Store) : string :=
  match s_timezone s with
  | Some v => match validateTimeZone valid_zone v with Ok tz => tz | Err _ => defaultTz end
  | None => defaultTz
  end.

Definition bounds_of (ts : Z) (tz : string) (p : CallPeriod) : result Fault PeriodBounds :=
  match periodBounds localDate (Fin ts) tz p with Ok b => Ok b | Err _ => Err FRange end.

(* @src budget/service.ts 176 180 usedFor *)
Definition usedFor (s : Store) (r : LimitRow) (ts : Z) (tz : string) (w : Q) : result Fault (Z * PeriodBounds) :=
  let* b := bounds_of ts tz (l_period r) in
  let* row := sums s (b_start b) (b_end b) (if is_global (l_scope r) then None else Some (l_agent r)) in
  match l_metric r with
  | Some m => Ok (USED m row w, b)
  | None => Err FType
  end.

(* @src budget/service.ts 190 191 firstNotice *)
Definition firstNotice (hard : bool) (r : LimitRow) (key : string) : M bool :=
  let n := {| nt_hard := hard; nt_scope := l_scope r; nt_agent := l_agent r; nt_period := l_period r; nt_metric := l_metric r; nt_key := key |} in
  known ← query (fun s => bool_decide (n ∈ s_notices s));
  if (known : bool) then mret false else _ ← update (set_notices (fun l => l ++ [n])); mret true.

(* @src budget/service.ts 193 194 eventFor *)
Definition eventFor (hard : bool) (r : LimitRow) (limit used : Z) (key : string) : BudgetEvent :=
  {| be_hard := hard; be_scope := l_scope r; be_agent := l_agent r; be_period := l_period r; be_metric := l_metric r;
     be_limit := limit; be_used := used; be_key := key |}.

(** One limit against one estimate: over the hard bound, over the soft one, or neither. *)
(* @src budget/service.ts 206 217 check *)
Definition judge (s : Store) (now : Z) (tz : string) (w : Q) (estimate : Z) (r : LimitRow) : result Fault (list (Breach + Warning)) :=
  let* ub := usedFor s r now tz w in
  let '(used, b) := ub in
  let total := jadd used estimate in
  match l_hard r with
  | Some h =>
      if h <? total
      then Ok [inl {| br_row := r; br_limit := h; br_used := used; br_estimate := estimate; br_key := b_key b; br_resetsAt := b_end b |}]
      else match l_soft r with
           | Some f => if f <? total then Ok [inr {| wn_row := r; wn_limit := f; wn_used := used; wn_estimate := estimate; wn_key := b_key b; wn_notified := false |}] else Ok []
           | None => Ok []
           end
  | None =>
      match l_soft r with
      | Some f => if f <? total then Ok [inr {| wn_row := r; wn_limit := f; wn_used := used; wn_estimate := estimate; wn_key := b_key b; wn_notified := false |}] else Ok []
      | None => Ok []
      end
  end.

Definition breaches_of (l : list (Breach + Warning)) : list Breach := omap (fun x => match x with inl b => Some b | inr _ => None end) l.
Definition warnings_of (l : list (Breach + Warning)) : list Warning := omap (fun x => match x with inr w => Some w | inl _ => None end) l.

Definition notified (b : bool) (w : Warning) : Warning :=
  {| wn_row := wn_row w; wn_limit := wn_limit w; wn_used := wn_used w; wn_estimate := wn_estimate w; wn_key := wn_key w; wn_notified := b |}.

(** One soft notice per pending warning; the events come back with the warnings. *)
(* @src budget/service.ts 218 224 check *)
Fixpoint notify_all (l : list Warning) : M (list Warning * list BudgetEvent) :=
  match l with
  | [] => mret ([], [])
  | p :: r =>
      first ← firstNotice false (wn_row p) (wn_key p);
      rest ← notify_all r;
      mret (notified first p :: fst rest,
            (if first : bool then [eventFor false (wn_row p) (wn_limit p) (wn_used p) (wn_key p)] else []) ++ snd rest)
  end.

(* @src budget/service.ts 196 226 check *)
Definition check (agent model est : js) : M (CheckDecision * list BudgetEvent) :=
  a ← lift (ident agent);
  _ ← lift (ident model);
  _ ← lift (closed est ESTIMATE_KEYS);
  i ← lift (count (jget "inputTokens" est) false);
  o ← lift (count (jget "outputTokens" est) true);
  _ ← lift (opt_js (jget "provider" est) "" ident);
  now ← clock_now clk;
  s ← query id;
  let tz := getTz s in
  let weight := storedCacheReadWeight s in
  let estimate := jadd i o in
  found ← gather (fun r => lift (judge s now tz weight estimate r)) (limitRows s (Some a) TOKEN_LIMITS);
  let breaches := breaches_of found in
  match breaches with
  | [] =>
      ns ← notify_all (warnings_of found);
      mret ({| allowed := true; cd_breaches := []; cd_warnings := fst ns |}, snd ns)
  | _ => mret ({| allowed := false; cd_breaches := breaches; cd_warnings := warnings_of found |}, [])
  end.

(* @src budget/service.ts 229 234 checked *)
Definition checked (agent model est : js) : M CheckDecision :=
  r ← transaction (check agent model est);
  _ ← each emit (snd r);
  mret (fst r).

(** The decision [BudgetExceededError] carries is the left side. *)
(* @src budget/service.ts 304 308 enforce *)
Definition enforce (agent model est : js) : M (CheckDecision + CheckDecision) :=
  d ← checked agent model est;
  mret (if allowed d then inr d else inl d).

(** One limit after an event was recorded. *)
(* @src budget/service.ts 288 295 recordUsage *)
Definition announce (ts : Z) (tz : string) (weight : Q) (r : LimitRow) : M (list BudgetEvent) :=
  s ← query id;
  ub ← lift (usedFor s r ts tz weight);
  let '(used, b) := (ub : Z * PeriodBounds) in
  let soft_case : M (list BudgetEvent) :=
    match l_soft r with
    | Some f => if f <? used then first ← firstNotice false r (b_key b); mret (if first : bool then [eventFor false r f used (b_key b)] else [])
                else mret []
    | None => mret []
    end in
  match l_hard r with
  | Some h =>
      if h <? used then
        _ ← (match l_soft r with Some _ => firstNotice false r (b_key b) | None => mret false end);
        first ← firstNotice true r (b_key b);
        mret (if first : bool then [eventFor true r h used (b_key b)] else [])
      else soft_case
  | None => soft_case
  end.

Definition has_request (q : option string) (s : Store) : bool :=
  match q with Some q => existsb (fun u => bool_decide (ue_request u = Some q)) (s_usage s) | None => false end.

(** The transaction of [recordUsage]: insert or ignore, then the notices. *)
(* @src budget/service.ts 281 298 recordUsage *)
Definition record_tx (u : UsageRow) (tz : string) (weight : Q) : M (bool * list BudgetEvent) :=
  dup ← query (has_request (ue_request u));
  if (dup : bool) then mret (false, [])
  else
    _ ← update (set_usage (fun l => l ++ [u]));
    rows ← query (fun s => limitRows s (Some (ue_agent u)) TOKEN_LIMITS);
    out ← gather (announce (ue_ts u) tz weight) rows;
    mret (true, out).

(* @src budget/service.ts 266 301 recordUsage *)
Definition recordUsage (e : js) : M bool :=
  _ ← lift (closed e EVENT_KEYS);
  agent ← lift (ident (jget "agent" e));
  model ← lift (ident (jget "model" e));
  provider ← lift (opt_js (jget "provider" e) "" ident);
  requestId ← lift (opt_js (jget "requestId" e) None (fun v => let* q := ident v in Ok (Some q)));
  i ← lift (count (jget "inputTokens" e) false);
  o ← lift (count (jget "outputTokens" e) false);
  cr ← lift (count (jget "cacheReadTokens" e) true);
  cw ← lift (count (jget "cacheWriteTokens" e) true);
  ts ← (if js_is_undef (jget "ts" e) then clock_now clk else lift (count (jget "ts" e) false));
  _ ← require (negb (MAX_TS <? ts)) FInput;
  _ ← require (safe_int (jadd i o)) FInput;
  tz ← query getTz;
  weight ← query storedCacheReadWeight;
  r ← transaction (record_tx {| ue_ts := ts; ue_agent := agent; ue_provider := provider; ue_model := model; ue_input := i; ue_output := o;
                                ue_cacheRead := cr; ue_cacheWrite := cw; ue_request := requestId; ue_images := 0; ue_video := 0 |} tz weight);
  _ ← each emit (snd r);
  mret (fst r).

(** ** Settings *)

(** [undefined] leaves a bound, [null] clears it. *)
(* @src budget/service.ts 242 243 bound *)
Definition bound (v : js) : result Fault (option (option Z)) :=
  match v with
  | JUndef => Ok None
  | JNull => Ok (Some None)
  | _ => let* z := count v false in Ok (Some (Some z))
  end.

Definition scope_of (v : js) : result Fault LimitScope :=
  match v with JStr "global" => Ok SGlobal | JStr "agent" => Ok SAgent | _ => Err FInput end.
(* @src budget/service.ts 15 15 PERIODS *)
Definition period_of (v : js) : result Fault CallPeriod :=
  match v with JStr "day" => Ok Day | JStr "month" => Ok Month | _ => Err FInput end.
(* @src budget/service.ts 16 16 METRICS *)
Definition metric_of (v : js) : result Fault Metric :=
  match v with JStr "tokens" => Ok Tokens | JStr "images" => Ok Images | JStr "videoSeconds" => Ok VideoSeconds | _ => Err FInput end.

(** The limit an update means, against the row it replaces; [None] removes it. *)
(* @src budget/service.ts 236 251 storeLimit *)
Definition next_limit (s : Store) (l : js) : result Fault (LimitRow * bool) :=
  assert* match l with JUndef | JNull => false | _ => true end else FType in
  let* scope := scope_of (jget "scope" l) in
  let* period := period_of (jget "period" l) in
  let* metric := metric_of (jget "metric" l) in
  let* agent := (if is_global scope then Ok "" else ident (jget "agentId" l)) in
  assert* negb (is_global scope && negb (js_is_undef (jget "agentId" l))) else FInput in
  let* soft := bound (jget "soft" l) in
  let* hard := bound (jget "hard" l) in
  let cur := bfind (same_limit scope agent period (Some metric)) (s_limits s) in
  let nextSoft := match soft with None => cur ≫= l_soft | Some v => v end in
  let nextHard := match hard with None => cur ≫= l_hard | Some v => v end in
  let row := {| l_scope := scope; l_agent := agent; l_period := period; l_metric := Some metric; l_soft := nextSoft; l_hard := nextHard |} in
  match nextSoft, nextHard with
  | None, None => Ok (row, false)
  | Some f, Some h => assert* f <=? h else FInput in Ok (row, true)
  | _, _ => Ok (row, true)
  end.

(* @src budget/service.ts 236 257 storeLimit *)
Definition storeLimit (l : js) : M (option Limit) :=
  s ← query id;
  nx ← lift (next_limit s l);
  let '(row, kept) := (nx : LimitRow * bool) in
  if kept then
    _ ← update (set_limits (upsert_limit row));
    mret (Some (toLimit row))
  else
    _ ← update (set_limits (bfilter (fun r => negb (same_limit (l_scope row) (l_agent row) (l_period row) (l_metric row) r))));
    mret None.

(* @src budget/service.ts 259 263 storeTimeZone *)
Definition storeTimeZone (tz : string) : M string :=
  v ← lift (match validateTimeZone valid_zone tz with Ok v => Ok v | Err _ => Err FRange end);
  _ ← update (fun s => set_settings (Some v) (s_weight s) (s_schema s) s);
  mret v.

(* @src budget/service.ts 348 348 setLimit *)
Definition setLimit (l : js) : M (option Limit) := transaction (storeLimit l).

(* @src budget/service.ts 87 87 BudgetSettings *)
Record BudgetSettings : Type := { bs_timeZone : option string; bs_weight : option (option Q); bs_limit : option js }.

(* @src budget/service.ts 88 88 BudgetSettingsResult *)
Record BudgetSettingsResult : Type := { sr_timeZone : string; sr_weight : Q; sr_limit : option (option Limit); sr_limits : list Limit }.

(* @src budget/service.ts 346 346 limits *)
Definition limits (s : Store) : list Limit := map toLimit (limitRows s None KNOWN_LIMITS).

(* @src budget/service.ts 349 356 updateSettings *)
Definition updateSettings (x : BudgetSettings) : M BudgetSettingsResult :=
  transaction (
    set ← (match bs_limit x with None => mret None | Some l => v ← storeLimit l; mret (Some v) end);
    _ ← (match bs_timeZone x with None => mret "" | Some tz => storeTimeZone tz end);
    _ ← (match bs_weight x with None => mret DEFAULT_CACHE_READ_WEIGHT | Some w => writeCacheReadWeight w end);
    s ← query id;
    mret {| sr_timeZone := getTz s; sr_weight := storedCacheReadWeight s; sr_limit := set; sr_limits := limits s |}).

(* @src budget/service.ts 362 362 prune *)
Definition prune (beforeTs : js) : M Z :=
  t ← lift (count beforeTs false);
  n ← query (fun s => Z.of_nat (length (bfilter (fun u => ue_ts u <? t) (s_usage s))));
  _ ← update (set_usage (bfilter (fun u => negb (ue_ts u <? t))));
  mret n.

(** ** Status *)

(* @src budget/service.ts 83 83 StatusPeriod *)
Record StatusAgent : Type := { sa_agentId : string; sa_total : UsageTotals; sa_models : list (string * UsageTotals) }.
(* @src budget/service.ts 81 84 StatusPeriod *)
Record StatusPeriod : Type := { sp_period : CallPeriod; sp_key : string; sp_start : Z; sp_end : Z; sp_total : UsageTotals; sp_agents : list StatusAgent }.
Inductive LimitState : Type := StOk | StSoft | StHard.
(* @src budget/service.ts 80 80 StatusLimit *)
Record StatusLimit : Type := { sl_limit : Limit; sl_used : Z; sl_state : LimitState }.
(* @src budget/service.ts 85 85 BudgetStatus *)
Record BudgetStatus : Type := { st_timeZone : string; st_weight : Q; st_now : Z; st_periods : list StatusPeriod; st_limits : list StatusLimit }.

Definition pair_le (a b : string * string) : bool := texts_le [fst a; snd a] [fst b; snd b].
Definition of_pair (p : string * string) (u : UsageRow) : bool := String.eqb (ue_agent u) (fst p) && String.eqb (ue_model u) (snd p).

(** [GROUP BY agent, model ORDER BY agent, model] *)
(* @src budget/service.ts 326 326 status *)
Definition grouped (l : list UsageRow) : list (string * string * Row) :=
  map (fun p => (p, SUMS (bfilter (of_pair p) l))) (sort_by pair_le (remove_dups (map (fun u => (ue_agent u, ue_model u)) l))).

(* @src budget/service.ts 333 333 status *)
Definition add_row (a r : Row) : Row :=
  {| n_ := jadd (n_ a) (n_ r); i_ := jadd (i_ a) (i_ r); o_ := jadd (o_ a) (o_ r); cr_ := jadd (cr_ a) (cr_ r);
     cw_ := jadd (cw_ a) (cw_ r); im_ := jadd (im_ a) (im_ r); vs_ := jadd (vs_ a) (vs_ r); ri_ := jadd (ri_ a) (ri_ r);
     fresh_ := jadd (fresh_ a) (fresh_ r) |}.

Definition Group : Type := string * (Row * list (string * UsageTotals)).

(** One grouped row into the map of agents, which keeps its order of insertion. *)
(* @src budget/service.ts 328 334 status *)
Fixpoint add_group (w : Q) (agent model : string) (r : Row) (m : list Group) : list Group :=
  match m with
  | [] => [(agent, (add_row ZERO_ROW r, [(model, totals r w)]))]
  | (a, (row, ms)) :: rest =>
      if String.eqb a agent then (a, (add_row row r, ms ++ [(model, totals r w)])) :: rest
      else (a, (row, ms)) :: add_group w agent model r rest
  end.

Definition groups_of (w : Q) (rows : list (string * string * Row)) : list Group :=
  fold_left (fun m x => add_group w (fst (fst x)) (snd (fst x)) (snd x) m) rows [].

(* @src budget/service.ts 321 338 status *)
Definition status_period (s : Store) (now : Z) (tz : string) (w : Q) (agentId : option string) (p : CallPeriod) : result Fault StatusPeriod :=
  let* b := bounds_of now tz p in
  let* total := sums s (b_start b) (b_end b) agentId in
  let rows := grouped (bfilter (in_period (b_start b) (b_end b) agentId) (s_usage s)) in
  let* _ := rfold (fun _ x => let* _ := fetch (snd x) in Ok tt) tt rows in
  Ok {| sp_period := p; sp_key := b_key b; sp_start := b_start b; sp_end := b_end b; sp_total := totals total w;
        sp_agents := map (fun g : Group => {| sa_agentId := fst g; sa_total := totals (fst (snd g)) w; sa_models := snd (snd g) |}) (groups_of w rows) |}.

(* @src budget/service.ts 339 342 status *)
Definition status_limit (s : Store) (now : Z) (tz : string) (w : Q) (r : LimitRow) : result Fault StatusLimit :=
  let* ub := usedFor s r now tz w in
  let used := fst ub in
  Ok {| sl_limit := toLimit r; sl_used := used;
        sl_state := match l_hard r with
                    | Some h => if h <=? used then StHard else match l_soft r with Some f => if f <=? used then StSoft else StOk | None => StOk end
                    | None => match l_soft r with Some f => if f <=? used then StSoft else StOk | None => StOk end
                    end |}.

Fixpoint rmapM {A B} (f : A -> result Fault B) (l : list A) : result Fault (list B) :=
  match l with [] => Ok [] | x :: r => let* y := f x in let* ys := rmapM f r in Ok (y :: ys) end.

(* @src budget/service.ts 318 344 status *)
Definition status (agentId : js) : M BudgetStatus :=
  now ← clock_now clk;
  s ← query id;
  let tz := getTz s in
  let w := storedCacheReadWeight s in
  a ← lift (opt_js agentId None (fun v => let* x := ident v in Ok (Some x)));
  periods ← lift (rmapM (status_period s now tz w a) [Day; Month]);
  lims ← lift (rmapM (status_limit s now tz w) (limitRows s a KNOWN_LIMITS));
  mret {| st_timeZone := tz; st_weight := w; st_now := now; st_periods := periods; st_limits := lims |}.

(** ** Calls on the service, in any order *)

Inductive ledger_call : Type :=
| CCheck (agent model est : js) | CEnforce (agent model est : js) | CRecord (e : js) | CStatus (agentId : js)
| CSetLimit (l : js) | CSettings (x : BudgetSettings) | CSetZone (tz : string) | CSetWeight (w : option Q) | CPrune (t : js).

Definition ledger_step (w : W) (c : ledger_call) : W :=
  match c with
  | CCheck a m e => snd (checked a m e w)
  | CEnforce a m e => snd (enforce a m e w)
  | CRecord e => snd (recordUsage e w)
  | CStatus a => snd (status a w)
  | CSetLimit l => snd (setLimit l w)
  | CSettings x => snd (updateSettings x w)
  | CSetZone tz => snd (storeTimeZone tz w)
  | CSetWeight x => snd (writeCacheReadWeight x w)
  | CPrune t => snd (prune t w)
  end.

Definition ledger_run (cs : list ledger_call) : W := fold_left ledger_step cs (empty_world BudgetEvent).
End service.
