(* ===== verification/BudgetLedgerProps.v ===== *)
(** * The budget service: what it promises

    One notice per limit and period whatever the order of calls, one ledger row
    per request id, limits that stay well formed, and a check that refuses a call
    exactly when a hard limit would be passed. *)

From Stdlib Require Import QArith.
From S2P Require Import Prelude Double BudgetPeriod BudgetStore BudgetLedger.
#[local] Open Scope Z_scope.

(** ** Steps that only announce *)

Definition notice_of (e : BudgetEvent) : Notice :=
  {| nt_hard := be_hard e; nt_scope := be_scope e; nt_agent := be_agent e; nt_period := be_period e; nt_metric := be_metric e;
     nt_key := be_key e |}.

(** The database but for its notices. *)
Definition sans_notices (s : Store) : Store := set_notices (fun _ => []) s.

Section announcing.
Notation W := (World BudgetEvent).
Notation M := (SE W Fault).

(** [m] hands nothing to the sink, adds to the notices without repetition, and
    the events in its answer are of notices it added. *)
Definition announces {A} (ev : A -> list BudgetEvent) (m : M A) : Prop := forall w,
  let w' := snd (m w) in
  w_sent w' = w_sent w /\
  exists new, s_notices (w_db w') = s_notices (w_db w) ++ new /\
    (NoDup (s_notices (w_db w)) -> NoDup (s_notices (w_db w'))) /\
    match fst (m w) with Ok a => map notice_of (ev a) ⊆+ new | Err _ => True end.

Definition nothing {A} (_ : A) : list BudgetEvent := [].

Lemma announces_pure {A} (ev : A -> list BudgetEvent) (m : M A) :
  (forall w, s_notices (w_db (snd (m w))) = s_notices (w_db w) /\ w_sent (snd (m w)) = w_sent w) ->
  (forall w a, fst (m w) = Ok a -> ev a = []) -> announces ev m.
Proof.
  intros H1 H2 w. destruct (H1 w) as [E1 E2]. cbv zeta. rewrite E1, E2. split; [done|].
  exists []. rewrite app_nil_r. split; [done|]. split; [done|].
  destruct (fst (m w)) as [a|] eqn:E; [|done]. by rewrite (H2 w a E).
Qed.

Lemma announces_bind {A B} (ev : A -> list BudgetEvent) (ev' : B -> list BudgetEvent) (m : M A) (k : A -> M B) :
  announces ev m -> (forall a, announces (fun b => drop (length (ev a)) (ev' b)) (k a)) ->
  (forall a w b, fst (k a w) = Ok b -> take (length (ev a)) (ev' b) = ev a) ->
  announces ev' (m ≫= k).
Proof.
  intros Hm Hk Hp w. specialize (Hm w). cbv zeta in *. unfold mbind, SE_bind.
  destruct (m w) as [[a|e] w1]; cbn [fst snd] in *; destruct Hm as (S1 & n1 & N1 & U1 & E1).
  - specialize (Hk a w1). specialize (Hp a w1). cbv zeta in Hk.
    destruct (k a w1) as [r w2]; cbn [fst snd] in *. destruct Hk as (S2 & n2 & N2 & U2 & E2).
    split; [congruence|]. exists (n1 ++ n2). split; [by rewrite N2, N1, app_assoc|].
    split; [auto|]. destruct r as [b|]; [|done].
    rewrite <- (take_drop (length (ev a)) (ev' b)), map_app, (Hp b eq_refl). by apply submseteq_app.
  - split; [done|]. exists n1. done.
Qed.

(** A first step that announces nothing of its own. *)
Lemma announces_bind_nothing {A B} (ev' : B -> list BudgetEvent) (m : M A) (k : A -> M B) :
  announces nothing m -> (forall a, announces ev' (k a)) -> announces ev' (m ≫= k).
Proof. intros Hm Hk. by eapply announces_bind with (ev := nothing). Qed.

Lemma announces_ret {A} (ev : A -> list BudgetEvent) a : ev a = [] -> announces ev (mret a : M A).
Proof. intros H. apply announces_pure; [done|]. by intros w a' [= <-]. Qed.

Lemma announces_lift {A} (r : result Fault A) : announces nothing (lift r : M A).
Proof. by apply announces_pure. Qed.

Lemma announces_query {A} (f : Store -> A) : announces nothing (query f : M A).
Proof. by apply announces_pure. Qed.

Lemma announces_require b (e : Fault) : announces nothing (require b e : M unit).
Proof. apply announces_pure; [by destruct b|done]. Qed.

Lemma announces_clock clk : announces nothing (clock_now clk : M Z).
Proof. by apply announces_pure. Qed.

Lemma announces_forget {A} (ev : A -> list BudgetEvent) (m : M A) : announces ev m -> announces nothing m.
Proof.
  intros H w. specialize (H w). cbv zeta in *. destruct H as (S1 & n & N & U & E).
  split; [done|]. exists n. split; [done|]. split; [done|].
  destruct (fst (m w)); [|done]. simpl. apply submseteq_nil_l.
Qed.

Lemma announces_gather {A} (f : A -> M (list BudgetEvent)) l :
  (forall x, announces id (f x)) -> announces id (gather f l).
Proof.
  intros Hf. induction l as [|x l IH]; cbn [gather]; [by apply announces_ret|].
  apply announces_bind with (ev := id); [apply Hf| |].
  - intros ys. apply announces_bind with (ev := id); [exact IH| |].
    + intros zs. apply announces_ret. unfold id. rewrite drop_app_length. apply drop_ge. lia.
    + intros zs w b [= <-]. unfold id. rewrite drop_app_length. apply take_ge. lia.
  - intros ys w b. unfold mbind, SE_bind. destruct (gather f l w) as [[zs|] w1]; [|done]. intros [= <-].
    unfold id. by rewrite take_app_length.
Qed.

Lemma firstNotice_new hard r key limit used :
  announces (fun b : bool => if b then [eventFor hard r limit used key] else []) (firstNotice hard r key).
Proof.
  intros w. unfold firstNotice, mbind, SE_bind, query, gets.
  set (n := {| nt_hard := hard |}). destruct (bool_decide (n ∈ s_notices (w_db w))) eqn:E; bool_hyps.
  - cbn. split; [done|]. exists []. by rewrite app_nil_r.
  - cbn. split; [done|]. exists [n]. split; [done|]. split; [|done].
    intros H. apply list.NoDup_app. split; [done|]. split; [|apply NoDup_singleton].
    intros x Hx ->%list_elem_of_singleton. done.
Qed.

Lemma announces_first hard r key limit used :
  announces id (first ← firstNotice hard r key; mret (if first : bool then [eventFor hard r limit used key] else [])).
Proof.
  eapply announces_bind; [apply (firstNotice_new hard r key limit used)| |].
  - intros [|]; by apply announces_ret.
  - by intros [|] w b [= <-].
Qed.

Lemma notify_all_new l : announces snd (notify_all l).
Proof.
  induction l as [|p l IH]; cbn [notify_all]; [by apply announces_ret|].
  eapply announces_bind; [apply (firstNotice_new false (wn_row p) (wn_key p) (wn_limit p) (wn_used p))| |].
  - intros first. eapply announces_bind; [exact IH| |].
    + intros rest. apply announces_ret. cbn [snd]. rewrite drop_app_length. apply drop_ge. lia.
    + intros rest w b [= <-]. cbn [snd]. rewrite drop_app_length. apply take_ge. lia.
  - intros first w b. unfold mbind, SE_bind. destruct (notify_all l w) as [[rest|] w1]; [|done]. intros [= <-].
    cbn [snd]. by rewrite take_app_length.
Qed.
End announcing.

#[export] Hint Resolve announces_lift announces_query announces_require announces_clock announces_ret : keeps.

(** Walk down a step that announces only at its end. *)
Ltac quiet :=
  repeat (cbv zeta; match goal with
  | |- announces _ (_ ≫= _) => apply announces_bind_nothing; [solve [auto with keeps]|intros]
  | |- announces _ (match ?x with _ => _ end) => destruct x eqn:?
  | |- announces _ _ => solve [auto with keeps]
  end).

(** A traversal that only reads. *)
Lemma gather_lift {Ev A B} (f : A -> result Fault (list B)) l (w : World Ev) : snd (gather (fun x => lift (f x)) l w) = w.
Proof.
  induction l as [|x l IH]; [done|]. cbn [gather]. unfold mbind, SE_bind, lift at 1.
  destruct (f x) as [ys|]; [|done]. destruct (gather (fun y => lift (f y)) l w) as [[zs|] w1]; exact IH.
Qed.

Section service_facts.
Context (clk : nat -> Z) (valid_zone : string -> bool) (localDate : Z -> string -> LocalDate) (defaultTz : string).
Notation W := (World BudgetEvent).
Notation getTz' := (getTz valid_zone defaultTz).

Lemma check_announces agent model est : announces snd (check clk valid_zone localDate defaultTz agent model est).
Proof.
  unfold check.
  do 7 (apply announces_bind_nothing; [solve [auto with keeps]|intros]).
  apply announces_bind_nothing; [auto with keeps|intros s]. cbv zeta.
  apply announces_bind_nothing; [by apply announces_pure; [intros w; rewrite gather_lift|]|].
  intros found. destruct (breaches_of found); [|by apply announces_ret].
  eapply announces_bind; [apply notify_all_new| |].
  - intros ns. apply announces_ret. cbn [snd]. apply drop_ge. lia.
  - intros ns w b [= <-]. cbn [snd]. apply take_ge. lia.
Qed.

Lemma announce_announces ts tz weight r : announces id (announce localDate ts tz weight r).
Proof.
  unfold announce. apply announces_bind_nothing; [auto with keeps|intros s].
  apply announces_bind_nothing; [auto with keeps|intros [used b]]. cbv zeta.
  assert (S : announces id (match l_soft r with
    | Some f => if f <? used then first ← firstNotice false r (b_key b); mret (if first : bool then [eventFor false r f used (b_key b)] else [])
                else mret []
    | None => mret [] end)).
  { destruct (l_soft r); [|by apply announces_ret]. destruct (_ <? used); [apply announces_first|by apply announces_ret]. }
  destruct (l_hard r) as [h|]; [|exact S]. destruct (h <? used); [|exact S].
  apply announces_bind_nothing; [|intros ?; apply announces_first].
  destruct (l_soft r); [|by apply announces_ret]. eapply announces_forget, (firstNotice_new _ _ _ 0 0).
Qed.

(** Each notice once, and every event sent has its notice. *)
Definition told_once (w : W) : Prop :=
  NoDup (s_notices (w_db w)) /\ NoDup (map notice_of (w_sent w)) /\
  forall e, e ∈ w_sent w -> notice_of e ∈ s_notices (w_db w).

Lemma told_extend w w' out new : told_once w -> w_sent w' = w_sent w ++ out ->
  s_notices (w_db w') = s_notices (w_db w) ++ new -> NoDup (s_notices (w_db w')) -> map notice_of out ⊆+ new -> told_once w'.
Proof.
  intros (T1 & T2 & T3) Es En Un Ho. unfold told_once. rewrite Es, En in *.
  apply list.NoDup_app in Un as (U1 & U2 & U3). split_and!.
  - apply list.NoDup_app. done.
  - rewrite map_app. apply list.NoDup_app. split; [done|]. split.
    + intros n Hn Ho'. apply elem_of_map in Hn as (e & -> & He). apply (U2 (notice_of e)); [by apply T3|].
      eapply elem_of_submseteq; [exact Ho'|exact Ho].
    + clear -U3 Ho. revert U3. induction Ho as [|x l1 l2 Ho IH|x y l|x l1 l2 Ho IH|l1 l2 l3 H1 IH1 H2 IH2]; intros U.
      * constructor.
      * apply list.NoDup_cons in U as [Ux U]. constructor; [|by apply IH]. intros C. apply Ux. by eapply elem_of_submseteq.
      * rewrite Permutation_swap. done.
      * apply list.NoDup_cons in U as [_ U]. auto.
      * auto.
  - intros e He. apply elem_of_app in He as [He|He]; [apply elem_of_app; left; by apply T3|].
    apply elem_of_app. right. eapply elem_of_submseteq; [|exact Ho]. apply elem_of_map. eauto.
Qed.

(** A committed step followed by its announcements. *)
Lemma told_transaction {A} (m : SE W Fault (A * list BudgetEvent)) w :
  announces snd m -> told_once w -> told_once (snd ((r ← transaction m; _ ← each emit (snd r); mret (fst r)) w)).
Proof.
  intros Hm T. specialize (Hm w). cbv zeta in Hm. unfold transaction, mbind, SE_bind.
  destruct (m w) as [[a|e] w1]; cbn [fst snd] in *; destruct Hm as (S1 & new & N1 & U1 & E1).
  - rewrite each_emit. cbn. eapply told_extend; [exact T|cbn; by rewrite S1|exact N1|apply U1, T|exact E1].
  - destruct T as (T1 & T2 & T3). unfold told_once. cbn. by rewrite S1.
Qed.

(** A step that leaves the notices and the sink alone. *)
Definition untold {A} (m : SE W Fault A) : Prop := forall w,
  s_notices (w_db (snd (m w))) = s_notices (w_db w) /\ w_sent (snd (m w)) = w_sent w.

Lemma told_untold {A} (m : SE W Fault A) w : untold m -> told_once w -> told_once (snd (m w)).
Proof. intros H T. destruct (H w) as [E1 E2]. unfold told_once. by rewrite E1, E2. Qed.

Lemma untold_bind {A B} (m : SE W Fault A) (k : A -> SE W Fault B) : untold m -> (forall a, untold (k a)) -> untold (m ≫= k).
Proof.
  intros Hm Hk w. destruct (Hm w) as [E1 E2]. unfold mbind, SE_bind.
  destruct (m w) as [[a|e] w1]; cbn [snd] in *; [|done]. destruct (Hk a w1) as [E3 E4]. split; congruence.
Qed.

Lemma untold_transaction {A} (m : SE W Fault A) : untold m -> untold (transaction m).
Proof. intros Hm w. destruct (Hm w) as [E1 E2]. unfold transaction. by destruct (m w) as [[a|e] w1]. Qed.

Lemma untold_settings {A} (f : Store -> Store) (v : A) :
  (forall s, s_notices (f s) = s_notices s) -> untold (_ ← update f; mret v : SE W Fault A).
Proof. intros H w. split; [apply H|reflexivity]. Qed.

Lemma untold_lift {A} (r : result Fault A) : untold (lift r).
Proof. by intros w. Qed.
Lemma untold_query {A} (f : Store -> A) : untold (query f).
Proof. by intros w. Qed.
Lemma untold_ret {A} (a : A) : untold (mret a).
Proof. by intros w. Qed.
Lemma untold_clock : untold (clock_now clk).
Proof. by intros w. Qed.
#[local] Hint Resolve untold_lift untold_query untold_ret untold_clock : keeps.

Ltac still :=
  repeat (cbv zeta; match goal with
  | |- untold (_ ≫= _) => apply untold_settings; intros ?; reflexivity
  | |- untold (_ ≫= _) => apply untold_bind; [|intros]
  | |- untold (transaction _) => apply untold_transaction
  | |- untold (match ?x with _ => _ end) => destruct x eqn:?
  | |- untold _ => solve [auto with keeps]
  end).

Lemma untold_storeLimit l : untold (storeLimit l).
Proof. unfold storeLimit. still. Qed.
Lemma untold_zone tz : untold (storeTimeZone valid_zone tz).
Proof. unfold storeTimeZone. still. Qed.
Lemma untold_weight x : untold (writeCacheReadWeight (Ev := BudgetEvent) x).
Proof. unfold writeCacheReadWeight. still. Qed.
#[local] Hint Resolve untold_storeLimit untold_zone untold_weight : keeps.

Lemma untold_updateSettings x : untold (updateSettings valid_zone defaultTz x).
Proof. unfold updateSettings. still. Qed.
Lemma untold_prune v : untold (prune v).
Proof. unfold prune. still. Qed.
Lemma untold_status a : untold (status clk valid_zone localDate defaultTz a).
Proof. unfold status. still. Qed.

Lemma told_bind {A B} (m : SE W Fault A) (k : A -> SE W Fault B) w :
  untold m -> (forall a w1, told_once w1 -> told_once (snd (k a w1))) -> told_once w -> told_once (snd ((m ≫= k) w)).
Proof.
  intros Hm Hk T. pose proof (told_untold m w Hm T) as T1. unfold mbind, SE_bind.
  destruct (m w) as [[a|e] w1]; cbn [snd] in *; [by apply Hk|done].
Qed.

Lemma record_tx_announces u tz weight : announces snd (record_tx localDate u tz weight).
Proof.
  unfold record_tx. apply announces_bind_nothing; [auto with keeps|intros dup].
  destruct dup; [by apply announces_ret|].
  apply announces_bind_nothing; [by apply announces_pure|intros _].
  apply announces_bind_nothing; [auto with keeps|intros rows].
  eapply announces_bind; [apply announces_gather; intros r; apply announce_announces| |].
  - intros out. apply announces_ret. cbn [snd]. apply drop_ge. unfold id. lia.
  - intros out w b [= <-]. cbn [snd]. apply take_ge. unfold id. lia.
Qed.

Lemma untold_require b (e : Fault) : untold (require b e).
Proof. intros w. by destruct b. Qed.
#[local] Hint Resolve untold_require : keeps.

Lemma told_record e w : told_once w -> told_once (snd (recordUsage clk valid_zone localDate defaultTz e w)).
Proof.
  unfold recordUsage. intros T.
  repeat (apply told_bind; [solve [still]|clear T; clear w; intros ? w T|exact T]).
  apply told_transaction; [apply record_tx_announces|exact T].
Qed.

Lemma told_checked agent model est w : told_once w -> told_once (snd (checked clk valid_zone localDate defaultTz agent model est w)).
Proof. intros T. apply told_transaction; [apply check_announces|exact T]. Qed.

Lemma told_step c w : told_once w -> told_once (ledger_step clk valid_zone localDate defaultTz w c).
Proof.
  intros T. destruct c; cbn [ledger_step].
  - by apply told_checked.
  - unfold enforce. pose proof (told_checked agent model est w T) as T1. unfold mbind, SE_bind.
    by destruct (checked _ _ _ _ _ _ _ w) as [[d|e] w1].
  - by apply told_record.
  - by apply told_untold; [apply untold_status|].
  - by apply told_untold; [unfold setLimit; still|].
  - by apply told_untold; [apply untold_updateSettings|].
  - by apply told_untold; [apply untold_zone|].
  - by apply told_untold; [apply untold_weight|].
  - by apply told_untold; [apply untold_prune|].
Qed.
End service_facts.

(** A limit announces each of its thresholds at most once per period: whatever
    checks, recordings, changes of limits or settings and prunings the service
    runs, in any order and with any clock, no two events it handed to its sink
    agree in threshold, limit (scope, agent, period, metric) and period key, and
    each has its notice in the store. *)
Theorem notices_sent_once clk valid_zone localDate defaultTz cs :
  let w := ledger_run clk valid_zone localDate defaultTz cs in
  NoDup (map notice_of (w_sent w)) /\ (forall e, e ∈ w_sent w -> notice_of e ∈ s_notices (w_db w)) /\ NoDup (s_notices (w_db w)).
Proof.
  cbv zeta. assert (T : told_once (ledger_run clk valid_zone localDate defaultTz cs)); [|by destruct T as (? & ? & ?)].
  unfold ledger_run. assert (T0 : told_once (empty_world BudgetEvent)) by (repeat split; try constructor; intros e He; inversion He).
  revert T0. generalize (empty_world BudgetEvent). induction cs as [|c cs IH]; intros w T; cbn [fold_left]; [done|].
  apply IH. by apply told_step.
Qed.
