(* ===== verification/BudgetLedgerSpec.v ===== *)
(** * The budget service: checks, recordings, limits

    The check against hard limits, exactly; what one recording writes; and the
    shape of the limits and of the ledger over any sequence of calls. *)

From Stdlib Require Import QArith.
From S2P Require Import Prelude Double BudgetPeriod BudgetStore BudgetLedger BudgetLedgerProps.
#[local] Open Scope Z_scope.

(** ** Well-formed limits *)

Definition lkey (r : LimitRow) : LimitScope * string * CallPeriod * option Metric :=
  (l_scope r, l_agent r, l_period r, l_metric r).

Definition bound_ok (b : option Z) : Prop := match b with Some z => 0 <= z <= MAX_SAFE_INTEGER | None => True end.

(** The table constraints of [budget_limit], the bounds read by [count] and a metric this core knows. *)
Definition limit_ok (r : LimitRow) : Prop :=
  (l_soft r <> None \/ l_hard r <> None) /\ bound_ok (l_soft r) /\ bound_ok (l_hard r) /\
  (forall f h, l_soft r = Some f -> l_hard r = Some h -> f <= h) /\
  (l_scope r = SGlobal <-> l_agent r = "") /\ l_metric r <> None.

Definition limits_ok (s : Store) : Prop := NoDup (map lkey (s_limits s)) /\ forall r, r ∈ s_limits s -> limit_ok r.

Lemma same_limit_spec sc a p m r : same_limit sc a p m r = true <-> lkey r = (sc, a, p, m).
Proof.
  unfold same_limit, lkey. rewrite !andb_true_iff, !bool_decide_eq_true, String.eqb_eq. split.
  - intros [[[-> ->] ->] ->]. done.
  - intros [= -> -> -> ->]. done.
Qed.

Lemma upsert_keys x l : NoDup (map lkey l) -> NoDup (map lkey (upsert_limit x l)).
Proof.
  intros H. unfold upsert_limit. destruct (existsb _ l) eqn:E.
  - replace (map lkey (map _ l)) with (map lkey l); [done|]. rewrite map_map. apply map_ext. intros r.
    destruct (same_limit _ _ _ _ r) eqn:Es; [|done]. by apply same_limit_spec in Es.
  - rewrite map_app. apply list.NoDup_app. split; [done|]. split; [|apply NoDup_singleton].
    intros k Hk Hx. apply list_elem_of_singleton in Hx. apply elem_of_map in Hk as (r & Ek & Hr).
    apply (existsb_false_elem _ _ _ E) in Hr as Hf. apply not_true_iff_false in Hf. apply Hf, same_limit_spec. by rewrite <- Ek, Hx.
Qed.

Lemma upsert_elem x l r : r ∈ upsert_limit x l -> r = x \/ r ∈ l.
Proof.
  unfold upsert_limit. destruct (existsb _ l).
  - intros (y & -> & Hy)%elem_of_map. destruct (same_limit _ _ _ _ y); auto.
  - intros [H|H%list_elem_of_singleton]%elem_of_app; auto.
Qed.

Lemma upsert_in x l : x ∈ upsert_limit x l.
Proof.
  unfold upsert_limit. destruct (existsb _ l) eqn:E; [|apply elem_of_app; right; by apply list_elem_of_singleton].
  apply existsb_elem in E as (r & Hr & Es). apply elem_of_map. exists r. split; [|done]. by rewrite Es.
Qed.

Lemma filter_keys p l : NoDup (map lkey l) -> NoDup (map lkey (bfilter p l)).
Proof.
  induction l as [|x l IH]; intros H; [constructor|]. cbn [map] in H. apply list.NoDup_cons in H as [Hx Hl].
  unfold bfilter. cbn [List.filter]. destruct (p x); [|by apply IH]. cbn [map]. apply list.NoDup_cons. split; [|by apply IH].
  intros (y & E & Hy)%elem_of_map. apply Hx. apply elem_of_map. exists y. split; [done|]. by apply bfilter_elem in Hy as [Hy _].
Qed.

Lemma count_ok v b z : count v b = Ok z -> 0 <= z <= MAX_SAFE_INTEGER.
Proof.
  unfold count. destruct v as [| | |[z'| |]| | |]; try done; [destruct b; [intros [= <-]; unfold MAX_SAFE_INTEGER; lia|done]|].
  destruct (safe_int z' && (0 <=? z')) eqn:E; [|done]. intros [= <-]. bool_hyps. apply safe_int_range in H. lia.
Qed.

Lemma bound_bounds v b : bound v = Ok (Some b) -> bound_ok b.
Proof.
  unfold bound. destruct v; try (intros [= <-]; exact I); try done; intros H; apply rbind_ok in H as (z & Hz & [= <-]);
    by apply count_ok in Hz.
Qed.

Lemma ident_nonempty v s : ident v = Ok s -> s <> "".
Proof. unfold ident. destruct v as [| | | |s'| |]; try done. destruct (id_ok s') eqn:E; [|done]. intros [= <-] ->. done. Qed.

Lemma next_bound_ok v b (cur : option LimitRow) (f : LimitRow -> option Z) :
  bound v = Ok b -> (forall c, cur = Some c -> bound_ok (f c)) ->
  bound_ok (match b with None => cur ≫= f | Some x => x end).
Proof.
  intros Hb Hc. destruct b as [b|]; [by apply bound_bounds in Hb|]. destruct cur as [c|]; [by apply Hc|exact I].
Qed.

Lemma next_limit_ok s l row : limits_ok s -> next_limit s l = Ok (row, true) -> limit_ok row.
Proof.
  intros [_ Hs] H. unfold next_limit in H.
  apply assert_ok in H as [_ H].
  apply rbind_ok in H as (scope & _ & H). apply rbind_ok in H as (period & _ & H). apply rbind_ok in H as (metric & _ & H).
  apply rbind_ok in H as (agent & Ha & H). apply assert_ok in H as [_ H].
  apply rbind_ok in H as (soft & Hsoft & H). apply rbind_ok in H as (hard & Hhard & H). cbv zeta in H.
  set (cur := bfind _ (s_limits s)) in H.
  assert (Hcur : forall c, cur = Some c -> limit_ok c) by (intros c Hc; apply Hs; by apply bfind_some in Hc as [? _]).
  pose proof (next_bound_ok _ _ cur l_soft Hsoft (fun c Hc => proj1 (proj2 (Hcur c Hc)))) as Bs.
  pose proof (next_bound_ok _ _ cur l_hard Hhard (fun c Hc => proj1 (proj2 (proj2 (Hcur c Hc))))) as Bh.
  set (ns := match soft with None => cur ≫= l_soft | Some v => v end) in *.
  set (nh := match hard with None => cur ≫= l_hard | Some v => v end) in *.
  clearbody ns nh. clear cur Hcur Hsoft Hhard.
  assert (Hg : scope = SGlobal <-> agent = "").
  { destruct scope; cbn in Ha; [|by injection Ha as <-]. apply ident_nonempty in Ha. by split. }
  unfold limit_ok. destruct ns as [f|]; destruct nh as [h|].
  - apply assert_ok in H as [Hle [= <-]]. apply Z.leb_le in Hle. refine (conj (or_introl _) (conj Bs (conj Bh (conj _ (conj Hg _))))); [done| |done].
    by intros f' h' [= <-] [= <-].
  - injection H as <-. by refine (conj (or_introl _) (conj Bs (conj Bh (conj _ (conj Hg _))))).
  - injection H as <-. by refine (conj (or_intror _) (conj Bs (conj Bh (conj _ (conj Hg _))))).
  - done.
Qed.

(** What a removal or an upsert leaves is well formed. *)
Lemma limits_ok_upsert s row : limits_ok s -> limit_ok row -> limits_ok (set_limits (upsert_limit row) s).
Proof.
  intros [H1 H2] Hr. split; cbn [set_limits s_limits]; [by apply upsert_keys|].
  intros r [->|Hin]%upsert_elem; auto.
Qed.

Lemma limits_ok_filter s p : limits_ok s -> limits_ok (set_limits (bfilter p) s).
Proof.
  intros [H1 H2]. split; cbn [set_limits s_limits]; [by apply filter_keys|].
  intros r [Hin _]%bfilter_elem; auto.
Qed.

(** ** Every call keeps the database well formed *)

Definition well (s : Store) : Prop := limits_ok s /\ usage_ok s.

Lemma omap_snoc {A B} (f : A -> option B) l x : omap f (l ++ [x]) = omap f l ++ match f x with Some y => [y] | None => [] end.
Proof. by rewrite omap_app. Qed.

Lemma has_request_spec q s : has_request (Some q) s = true <-> q ∈ omap ue_request (s_usage s).
Proof.
  cbn [has_request]. rewrite existsb_elem, list_elem_of_omap. setoid_rewrite bool_decide_eq_true. done.
Qed.

(** Adding a row with a new request id. *)
Lemma usage_ok_add s u : usage_ok s -> row_nonneg u -> has_request (ue_request u) s = false ->
  usage_ok (set_usage (fun l => l ++ [u]) s).
Proof.
  intros [H1 H2] Hu Hq. split; cbn [set_usage s_usage].
  - intros x [Hx|Hx%list_elem_of_singleton]%elem_of_app; [by apply H1|by subst].
  - rewrite omap_snoc. destruct (ue_request u) as [q|]; [|by rewrite app_nil_r].
    apply list.NoDup_app. split; [done|]. split; [|apply NoDup_singleton].
    intros x Hx ->%list_elem_of_singleton. apply has_request_spec in Hx. congruence.
Qed.

Lemma usage_ok_filter s p : usage_ok s -> usage_ok (set_usage (bfilter p) s).
Proof.
  intros [H1 H2]. split; cbn [set_usage s_usage]; [intros u [Hu _]%bfilter_elem; by apply H1|].
  clear H1. induction (s_usage s) as [|u l IH]; [constructor|]. unfold bfilter in *. cbn [List.filter omap list_omap] in *.
  destruct (ue_request u) as [q|] eqn:E; [apply list.NoDup_cons in H2 as [Hq H2]|].
  - destruct (p u); [|by apply IH]. cbn [omap list_omap]. rewrite E. apply list.NoDup_cons. split; [|by apply IH].
    intros (y & Hy & Ey)%list_elem_of_omap. apply Hq, list_elem_of_omap. exists y. split; [|done].
    by apply (bfilter_elem p) in Hy as [Hy _].
  - destruct (p u); [|by apply IH]. cbn [omap list_omap]. rewrite E. by apply IH.
Qed.

Section service_keeps.
Context (clk : nat -> Z) (valid_zone : string -> bool) (localDate : Z -> string -> LocalDate) (defaultTz : string).
Notation W := (World BudgetEvent).
Notation K := (keeps (E := Fault) (fun w : W => well (w_db w))).

Lemma well_firstNotice hard r key : K (firstNotice hard r key).
Proof. unfold firstNotice. keeps_tac. by apply db_update. Qed.
#[local] Hint Resolve well_firstNotice : keeps.

Lemma well_notify l : K (notify_all l).
Proof. induction l as [|p l IH]; cbn [notify_all]; keeps_tac; auto with keeps. Qed.
#[local] Hint Resolve well_notify : keeps.

Lemma well_check a m e : K (check clk valid_zone localDate defaultTz a m e).
Proof. unfold check. cbv zeta. keeps_tac. Qed.
#[local] Hint Resolve well_check : keeps.

Lemma well_checked a m e : K (checked clk valid_zone localDate defaultTz a m e).
Proof. unfold checked. keeps_tac. Qed.
#[local] Hint Resolve well_checked : keeps.

Lemma well_announce ts tz w r : K (announce localDate ts tz w r).
Proof. unfold announce. cbv zeta. keeps_tac. Qed.

#[local] Hint Resolve well_announce : keeps.

Lemma well_record_tx u tz w : row_nonneg u -> K (record_tx localDate u tz w).
Proof.
  intros Hu s Hs. unfold record_tx. erewrite SE_bind_run by reflexivity.
  destruct (has_request (ue_request u) (w_db s)) eqn:E; [exact Hs|].
  erewrite SE_bind_run by reflexivity. cbv beta.
  set (s1 := {| w_db := _ |}). assert (H1 : well (w_db s1)) by (destruct Hs as [Hl Hu']; split; [exact Hl|by apply usage_ok_add]).
  clearbody s1. clear Hs E s. revert s1 H1.
  change (K (rows ← query (fun s : Store => limitRows s (Some (ue_agent u)) TOKEN_LIMITS);
             out ← gather (announce localDate (ue_ts u) tz w) rows; mret (true, out))).
  keeps_tac.
Qed.

Lemma well_storeLimit l : K (storeLimit l).
Proof.
  intros w Hw. unfold storeLimit, mbind, SE_bind, query, gets, lift, id.
  destruct (next_limit (w_db w) l) as [[row kept]|e] eqn:E; [|exact Hw].
  destruct Hw as [Hl Hu]. destruct kept; (split; [|exact Hu]).
  - apply limits_ok_upsert; [done|]. by eapply next_limit_ok.
  - by apply limits_ok_filter.
Qed.
#[local] Hint Resolve well_storeLimit : keeps.

Lemma well_zone tz : K (storeTimeZone valid_zone tz).
Proof. unfold storeTimeZone. keeps_tac. by apply db_update. Qed.
Lemma well_weight x : K (writeCacheReadWeight x).
Proof. unfold writeCacheReadWeight. keeps_tac. by apply db_update. Qed.
#[local] Hint Resolve well_zone well_weight : keeps.

Lemma well_updateSettings x : K (updateSettings valid_zone defaultTz x).
Proof. unfold updateSettings. apply db_transaction. keeps_tac. Qed.

Lemma well_prune v : K (prune v).
Proof. unfold prune. keeps_tac. apply db_update. intros s [Hl Hu]. split; [exact Hl|by apply usage_ok_filter]. Qed.

Lemma well_status v : K (status clk valid_zone localDate defaultTz v).
Proof. unfold status. cbv zeta. keeps_tac. Qed.
End service_keeps.

(** ** One recording *)

(** The ledger row an event asks for. *)
Definition event_row (e : js) (u : UsageRow) : Prop :=
  ident (jget "agent" e) = Ok (ue_agent u) /\ ident (jget "model" e) = Ok (ue_model u) /\
  count (jget "inputTokens" e) false = Ok (ue_input u) /\ count (jget "outputTokens" e) false = Ok (ue_output u) /\
  count (jget "cacheReadTokens" e) true = Ok (ue_cacheRead u) /\ count (jget "cacheWriteTokens" e) true = Ok (ue_cacheWrite u) /\
  ue_images u = 0 /\ ue_video u = 0 /\ ue_ts u <= MAX_TS /\
  match ue_request u with Some q => jget "requestId" e = JStr q | None => jget "requestId" e = JUndef end.

Lemma event_row_nonneg e u : event_row e u -> row_nonneg u.
Proof.
  intros (_ & _ & Hi & Ho & Hr & Hw & E1 & E2 & _). unfold row_nonneg. rewrite E1, E2.
  apply count_ok in Hi, Ho, Hr, Hw. lia.
Qed.

Section recording.
Context (clk : nat -> Z) (valid_zone : string -> bool) (localDate : Z -> string -> LocalDate) (defaultTz : string).
Notation W := (World BudgetEvent).
Notation record' := (recordUsage clk valid_zone localDate defaultTz).

(** A recording is refused before anything is written, or runs its transaction
    on the row the event asks for. *)
Lemma record_front e (w : W) :
  (exists f w', record' e w = (Err f, w') /\ w_db w' = w_db w /\ w_sent w' = w_sent w) \/
  (exists u w', event_row e u /\ w_db w' = w_db w /\ w_sent w' = w_sent w /\
     record' e w = (r ← transaction (record_tx localDate u (getTz valid_zone defaultTz (w_db w)) (storedCacheReadWeight (w_db w)));
                    _ ← each emit (snd r); mret (fst r)) w').
Proof.
  unfold recordUsage.
  rewrite lift_bind. destruct (closed e EVENT_KEYS) as [[]|f]; [|left; by exists f, w].
  rewrite lift_bind. destruct (ident (jget "agent" e)) as [agent|f] eqn:E1; [|left; by exists f, w].
  rewrite lift_bind. destruct (ident (jget "model" e)) as [model|f] eqn:E2; [|left; by exists f, w].
  rewrite lift_bind. destruct (opt_js (jget "provider" e) "" ident) as [provider|f]; [|left; by exists f, w].
  rewrite lift_bind. destruct (opt_js (jget "requestId" e) None _) as [q|f] eqn:Eq; [|left; by exists f, w].
  rewrite lift_bind. destruct (count (jget "inputTokens" e) false) as [i|f] eqn:E3; [|left; by exists f, w].
  rewrite lift_bind. destruct (count (jget "outputTokens" e) false) as [o|f] eqn:E4; [|left; by exists f, w].
  rewrite lift_bind. destruct (count (jget "cacheReadTokens" e) true) as [cr|f] eqn:E5; [|left; by exists f, w].
  rewrite lift_bind. destruct (count (jget "cacheWriteTokens" e) true) as [cw|f] eqn:E6; [|left; by exists f, w].
  assert (Ets : exists w1, w_db w1 = w_db w /\ w_sent w1 = w_sent w /\
    ((exists ts, (if js_is_undef (jget "ts" e) then clock_now clk else lift (count (jget "ts" e) false)) w = (Ok ts, w1)) \/
     exists f, (if js_is_undef (jget "ts" e) then clock_now clk else lift (count (jget "ts" e) false)) w = (Err f, w1))).
  { destruct (js_is_undef (jget "ts" e)).
    - eexists. split; [|split; [|left; eexists; reflexivity]]; done.
    - exists w. unfold lift. destruct (count (jget "ts" e) false) as [ts|f]; eauto 6. }
  destruct Ets as (w1 & D1 & S1 & [[ts Ets]|[f Ets]]); [|left; exists f, w1; by rewrite (SE_bind_err _ _ _ _ _ Ets)].
  rewrite (SE_bind_run _ _ _ _ _ Ets).
  destruct (MAX_TS <? ts) eqn:Em; [left; by exists FInput, w1|].
  destruct (safe_int (jadd i o)) eqn:Es; [|left; by exists FInput, w1].
  right. eexists _, w1. split; [|split; [exact D1|split; [exact S1|rewrite <- D1; reflexivity]]].
  bool_hyps. unfold event_row. cbn. split_and!; try done.
  unfold opt_js in Eq. destruct (jget "requestId" e) as [| | | |q'| |]; cbn in Eq; try done; [by injection Eq as <-|].
  destruct (id_ok q'); [|done]. by injection Eq as <-.
Qed.

Definition tables_are (l1 : list UsageRow) (l2 : list LimitRow) (s : Store) : Prop := s_usage s = l1 /\ s_limits s = l2.

(** The tables the notices of a recording leave alone. *)
Lemma announce_tables ts tz wt r (w : W) :
  let w' := snd (announce localDate ts tz wt r w) in s_usage (w_db w') = s_usage (w_db w) /\ s_limits (w_db w') = s_limits (w_db w).
Proof.
  assert (H : forall l1 l2, keeps (fun w : W => tables_are l1 l2 (w_db w)) (announce localDate ts tz wt r)).
  { intros l1 l2. unfold announce, firstNotice. cbv zeta. keeps_tac; by apply db_update. }
  cbv zeta. by apply (keeps_state _ _ w (H _ _)).
Qed.

Lemma gather_tables ts tz wt rows (w : W) :
  let w' := snd (gather (announce localDate ts tz wt) rows w) in s_usage (w_db w') = s_usage (w_db w) /\ s_limits (w_db w') = s_limits (w_db w).
Proof.
  assert (H : forall l1 l2, keeps (fun w : W => tables_are l1 l2 (w_db w)) (gather (announce localDate ts tz wt) rows)).
  { intros l1 l2. apply db_gather. intros r w' [<- <-]. pose proof (announce_tables ts tz wt r w') as H.
    by destruct (announce _ _ _ _ _ w') as [[a|e] w2]. }
  cbv zeta. by apply (keeps_state _ _ w (H _ _)).
Qed.

(** The transaction of a recording, by cases. *)
Lemma record_tx_cases u tz wt (w : W) :
  let s1 := set_usage (fun l => l ++ [u]) (w_db w) in
  record_tx localDate u tz wt w =
  if has_request (ue_request u) (w_db w) then (Ok (false, []), w)
  else match gather (announce localDate (ue_ts u) tz wt) (limitRows s1 (Some (ue_agent u)) TOKEN_LIMITS)
               {| w_db := s1; w_ticks := w_ticks w; w_sent := w_sent w |} with
       | (Ok out, w') => (Ok (true, out), w')
       | (Err f, w') => (Err f, w')
       end.
Proof.
  cbv zeta. unfold record_tx. erewrite (SE_bind_run (query _)) by reflexivity.
  destruct (has_request _ _); [done|]. erewrite SE_bind_run by reflexivity. erewrite SE_bind_run by reflexivity. done.
Qed.

Lemma gather_sent ts tz wt rows (w : W) : w_sent (snd (gather (announce localDate ts tz wt) rows w)) = w_sent w.
Proof. exact (proj1 (announces_gather _ rows (fun r => announce_announces localDate ts tz wt r) w)). Qed.
End recording.

(** One recording writes one row or nothing: when it reports a new event,
    exactly the row the event describes is appended to the ledger, no earlier row
    had its request id, and the limits are untouched; when it reports a repeat, a
    row with that request id was there and neither the database nor the sink sees
    anything; when it throws, the same.  So an event whose request id is already
    in the ledger is never recorded again. *)
Theorem usage_recorded_once clk valid_zone localDate defaultTz e (w : World BudgetEvent) :
  match recordUsage clk valid_zone localDate defaultTz e w with
  | (Ok true, w') =>
      exists u, event_row e u /\ s_usage (w_db w') = s_usage (w_db w) ++ [u] /\ s_limits (w_db w') = s_limits (w_db w) /\
        forall q, jget "requestId" e = JStr q -> forall v, v ∈ s_usage (w_db w) -> ue_request v <> Some q
  | (Ok false, w') =>
      w_db w' = w_db w /\ w_sent w' = w_sent w /\
      exists q v, jget "requestId" e = JStr q /\ v ∈ s_usage (w_db w) /\ ue_request v = Some q
  | (Err _, w') => w_db w' = w_db w /\ w_sent w' = w_sent w
  end.
Proof.
  destruct (record_front clk valid_zone localDate defaultTz e w) as [(f & w' & -> & H)|(u & w0 & Hrow & D0 & S0 & ->)]; [exact H|].
  set (tz := getTz _ _ _). set (wt := storedCacheReadWeight _). clearbody tz wt.
  assert (Hq : match ue_request u with Some q => jget "requestId" e = JStr q | None => jget "requestId" e = JUndef end) by apply Hrow.
  unfold mbind at 1, SE_bind at 1, transaction. rewrite record_tx_cases, D0.
  destruct (has_request (ue_request u) (w_db w)) eqn:Eq.
  - cbn [snd fst]. rewrite (SE_bind_run _ _ _ _ _ (each_emit [] w0)). cbn. rewrite D0, S0, app_nil_r.
    split; [done|]. split; [done|].
    destruct (ue_request u) as [q|]; [|done]. apply existsb_elem in Eq as (v & Hv & Ev). bool_hyps. eauto.
  - set (w1 := {| w_db := _ |}). set (rows := limitRows _ _ _).
    pose proof (gather_tables localDate (ue_ts u) tz wt rows w1) as [G1 G2].
    pose proof (gather_sent localDate (ue_ts u) tz wt rows w1) as G3.
    destruct (gather _ rows w1) as [[out|f] w2]; cbn [snd fst] in *.
    + rewrite (SE_bind_run _ _ _ _ _ (each_emit out w2)). cbn. exists u. rewrite G1, G2. split_and!; try done.
      intros q Ej v Hv Ev. rewrite Ej in Hq. destruct (ue_request u) as [q'|]; [|done]. injection Hq as ->.
      apply not_true_iff_false in Eq. apply Eq, has_request_spec, list_elem_of_omap. eauto.
    + cbn. rewrite G3. done.
Qed.

Lemma well_record clk valid_zone localDate defaultTz e (w : World BudgetEvent) :
  well (w_db w) -> well (w_db (snd (recordUsage clk valid_zone localDate defaultTz e w))).
Proof.
  intros Hw. destruct (record_front clk valid_zone localDate defaultTz e w) as [(f & w' & -> & H & _)|(u & w0 & Hrow & D0 & _ & ->)].
  - cbn. by rewrite H.
  - rewrite <- D0 in Hw. revert Hw. generalize (getTz valid_zone defaultTz (w_db w)) (storedCacheReadWeight (w_db w)). intros tz wt Hw.
    assert (K : keeps (E := Fault) (fun w : World BudgetEvent => well (w_db w))
      (r ← transaction (record_tx localDate u tz wt); _ ← each emit (snd r); mret (fst r))).
    { apply keeps_bind; [apply db_transaction, well_record_tx; by eapply event_row_nonneg|]. intros r. keeps_tac. }
    exact (keeps_state _ _ _ K Hw).
Qed.

Lemma well_step clk valid_zone localDate defaultTz c w :
  well (w_db w) -> well (w_db (ledger_step clk valid_zone localDate defaultTz w c)).
Proof.
  intros Hw. destruct c; cbn [ledger_step].
  - exact (keeps_state _ _ _ (well_checked clk valid_zone localDate defaultTz agent model est) Hw).
  - pose proof (keeps_state _ _ _ (well_checked clk valid_zone localDate defaultTz agent model est) Hw) as H.
    unfold enforce, mbind, SE_bind. by destruct (checked _ _ _ _ _ _ _ w) as [[d|e] w1].
  - by apply well_record.
  - exact (keeps_state _ _ _ (well_status clk valid_zone localDate defaultTz agentId) Hw).
  - exact (keeps_state _ _ _ (db_transaction _ _ (well_storeLimit l)) Hw).
  - exact (keeps_state _ _ _ (well_updateSettings valid_zone defaultTz x) Hw).
  - exact (keeps_state _ _ _ (well_zone valid_zone tz) Hw).
  - exact (keeps_state _ _ _ (well_weight w0) Hw).
  - exact (keeps_state _ _ _ (well_prune t) Hw).
Qed.

Lemma well_run clk valid_zone localDate defaultTz cs : well (w_db (ledger_run clk valid_zone localDate defaultTz cs)).
Proof.
  unfold ledger_run. assert (T0 : well (w_db (empty_world BudgetEvent))).
  { split; split; first [intros r Hr; by inversion Hr|cbn; constructor]. }
  revert T0. generalize (empty_world BudgetEvent). induction cs as [|c cs IH]; intros w T; cbn [fold_left]; [done|].
  apply IH. by apply well_step.
Qed.

(** Whatever calls the service serves, in any order: no two limits share scope,
    agent, period and metric; every limit has a bound left, its bounds are counts
    a double holds, its soft bound does not exceed its hard one, exactly the
    global ones name no agent and its metric is one this core knows; ledger rows
    hold no negative count and no two of them share a request id. *)
Theorem ledger_well_formed clk valid_zone localDate defaultTz cs :
  let s := w_db (ledger_run clk valid_zone localDate defaultTz cs) in
  NoDup (map lkey (s_limits s)) /\ (forall r, r ∈ s_limits s -> limit_ok r) /\
  (forall u, u ∈ s_usage s -> row_nonneg u) /\ NoDup (omap ue_request (s_usage s)).
Proof. cbv zeta. by destruct (well_run clk valid_zone localDate defaultTz cs) as [[? ?] [? ?]]. Qed.

(** ** The check, exactly *)

Section checking.
Context (clk : nat -> Z) (valid_zone : string -> bool) (localDate : Z -> string -> LocalDate) (defaultTz : string).
Notation W := (World BudgetEvent).

(** What a token limit counts in its period at the instant [now]. *)
Definition spent (s : Store) (r : LimitRow) (b : PeriodBounds) : Z :=
  spent_on (bfilter (in_period (b_start b) (b_end b) (if is_global (l_scope r) then None else Some (l_agent r))) (s_usage s))
    (storedCacheReadWeight s).

Lemma usedFor_spent s r ts tz u b : usage_ok s -> usage_safe s -> l_metric r = Some Tokens ->
  usedFor localDate s r ts tz (storedCacheReadWeight s) = Ok (u, b) ->
  bounds_of localDate ts tz (l_period r) = Ok b /\ u = spent s r b /\ 0 <= u <= MAX_SAFE_INTEGER.
Proof.
  intros Hu Hs Hm H. unfold usedFor in H. apply rbind_ok in H as (b' & Hb & H). apply rbind_ok in H as (row & Hr & H).
  rewrite Hm in H. injection H as <- <-. split; [done|].
  unfold sums, fetch in Hr. destruct (forallb _ _); [|done]. injection Hr as <-.
  destruct (stored_weight_range s) as [W0 W1].
  set (p := in_period _ _ _). destruct (spent_on_counted s p _ Hu Hs W0 W1) as [E B].
  unfold spent. fold p. cbn [USED SUMS i_ o_ ri_]. rewrite E. done.
Qed.

(** Adding use and estimate as doubles does not change the comparison with a bound. *)
Lemma total_gtb z i o h : 0 <= z -> 0 <= i -> 0 <= o -> h <= MAX_SAFE_INTEGER ->
  (h <? jadd z (jadd i o)) = (h <? z + (i + o)).
Proof.
  intros Hz Hi Ho Hh. unfold MAX_SAFE_INTEGER in *. destruct (Z.le_gt_cases (i + o) (2 ^ 53)) as [Hle|Hgt].
  - rewrite (jadd_exact i o) by lia. apply jadd_gtb; [lia|lia|unfold MAX_SAFE_INTEGER; lia].
  - pose proof (jadd_large i o Hgt) as Hj. change (2 ^ 53) with 9007199254740992 in *.
    rewrite jadd_gtb by (unfold MAX_SAFE_INTEGER; lia). transitivity true; [|symmetry]; apply Z.ltb_lt; lia.
Qed.

(** One limit is over its hard bound exactly when it says so. *)
Lemma judge_breach s now tz i o r l : usage_ok s -> usage_safe s -> limit_ok r -> l_metric r = Some Tokens -> 0 <= i -> 0 <= o ->
  judge localDate s now tz (storedCacheReadWeight s) (jadd i o) r = Ok l ->
  exists b, bounds_of localDate now tz (l_period r) = Ok b /\
    ((exists x, inl x ∈ l) <-> exists h, l_hard r = Some h /\ h < spent s r b + (i + o)).
Proof.
  intros Hu Hs Hl Hm Hi Ho H. unfold judge in H. apply rbind_ok in H as ([u b] & Hub & H).
  destruct (usedFor_spent _ _ _ _ _ _ Hu Hs Hm Hub) as (Hb & -> & Hr). exists b. split; [done|].
  destruct Hl as (_ & _ & Bh & _). destruct (l_hard r) as [h|].
  - rewrite total_gtb in H; [|lia|done|done|apply Bh]. destruct (h <? spent s r b + (i + o)) eqn:E; bool_hyps.
    + injection H as <-. split; [eauto|]. intros _. eexists. by left.
    + split; [|intros (h' & [= <-] & Hlt); lia]. intros (x & Hx). exfalso.
      destruct (l_soft r) as [f|]; [destruct (f <? _)|]; injection H as <-; [by apply list_elem_of_singleton in Hx|inversion Hx|inversion Hx].
  - split; [|by intros (h & ? & _)]. intros (x & Hx). exfalso.
    destruct (l_soft r) as [f|]; [destruct (f <? _)|]; injection H as <-; [by apply list_elem_of_singleton in Hx|inversion Hx|inversion Hx].
Qed.

(** A traversal that succeeds visited every element. *)
Lemma gather_lift_ok {A B} (f : A -> result Fault (list B)) l (w w' : W) ys :
  gather (fun x => lift (f x)) l w = (Ok ys, w') ->
  w' = w /\ (forall x, x ∈ l -> exists y, f x = Ok y) /\
  forall z, z ∈ ys <-> exists x y, x ∈ l /\ f x = Ok y /\ z ∈ y.
Proof.
  revert ys. induction l as [|x l IH]; intros ys; cbn [gather].
  - intros [= <- <-]. split; [done|]. split; [intros x Hx; inversion Hx|]. intros z. split; [intros Hz; inversion Hz|].
    intros (x & y & Hx & _). inversion Hx.
  - rewrite lift_bind. destruct (f x) as [y|] eqn:E; [|done].
    unfold mbind, SE_bind. destruct (gather _ l w) as [[zs|] w1] eqn:G; [|done]. intros [= <- <-].
    destruct (IH zs eq_refl) as (-> & H1 & H2). split; [done|]. split.
    + intros x' [->|Hx']%elem_of_cons; eauto.
    + intros z. rewrite elem_of_app, H2. split.
      * intros [Hz|(x' & y' & Hx' & E' & Hz)]; [exists x, y; split; [left|done]|exists x', y'; split; [by right|done]].
      * intros (x' & y' & [->|Hx']%elem_of_cons & E' & Hz); [left; congruence|right; eauto].
Qed.

Lemma breaches_of_elem l b : b ∈ breaches_of l <-> inl b ∈ l.
Proof.
  unfold breaches_of. rewrite list_elem_of_omap. split; [intros ([x|x] & Hx & [= ->]); done|].
  intros H. by exists (inl b).
Qed.

(** The check up to its notices: its inputs are valid, every limit was judged, and
    the answer is the list of breaches or the warnings. *)
Lemma check_front agent model est w d out w' : check clk valid_zone localDate defaultTz agent model est w = (Ok (d, out), w') ->
  exists a i o found w1, agent = JStr a /\ count (jget "inputTokens" est) false = Ok i /\ count (jget "outputTokens" est) true = Ok o /\
    w_db w1 = w_db w /\ w_sent w1 = w_sent w /\
    let rows := limitRows (w_db w) (Some a) TOKEN_LIMITS in
    let judge' := judge localDate (w_db w) (clk (w_ticks w)) (getTz valid_zone defaultTz (w_db w)) (storedCacheReadWeight (w_db w)) (jadd i o) in
    (forall r, r ∈ rows -> exists l, judge' r = Ok l) /\
    (forall z, z ∈ found <-> exists r l, r ∈ rows /\ judge' r = Ok l /\ z ∈ l) /\
    (if allowed d then breaches_of found = [] else breaches_of found <> [] /\ out = [] /\ w' = w1).
Proof.
  unfold check. rewrite lift_bind. destruct (ident agent) as [a|] eqn:Ea; [|done].
  assert (Ha : agent = JStr a).
  { unfold ident in Ea. destruct agent as [| | | |s| |]; try done. destruct (id_ok s); [|done]. by injection Ea as ->. }
  rewrite lift_bind. destruct (ident model); [|done]. rewrite lift_bind. destruct (closed est ESTIMATE_KEYS); [|done].
  rewrite lift_bind. destruct (count (jget "inputTokens" est) false) as [i|]; [|done].
  rewrite lift_bind. destruct (count (jget "outputTokens" est) true) as [o|]; [|done].
  rewrite lift_bind. destruct (opt_js (jget "provider" est) "" ident); [|done].
  erewrite SE_bind_run by reflexivity. erewrite (SE_bind_run (query id)) by reflexivity. cbn [w_db]. cbv zeta. intros H.
  set (w1 := {| w_db := w_db w; w_ticks := _; w_sent := _ |}) in H. unfold id in H.
  unfold mbind, SE_bind at 1 in H. destruct (gather _ _ w1) as [[found|] w2] eqn:G; [|done].
  apply gather_lift_ok in G as (-> & G1 & G2). exists a, i, o, found, w1. do 5 (split; [done|]). cbv zeta. split; [exact G1|]. split; [exact G2|].
  destruct (breaches_of found) as [|b bs].
  - unfold SE_bind in H. destruct (notify_all (warnings_of found) w1) as [[ns|] w3]; [|done]. injection H as <- <- <-. done.
  - injection H as <- <- <-. done.
Qed.
End checking.

(** (C39) The check before a model call refuses exactly the calls a hard token limit
    cannot take: with a well-formed ledger whose tokens fit a double, the call is
    allowed if and only if for every token limit with a hard bound that covers the
    agent (its own or global), the tokens counted so far in that limit's current
    period plus the whole estimate stay within the bound; and a refused check
    leaves the database and the sink untouched. *)
Theorem check_refuses_exactly clk valid_zone localDate defaultTz agent model est (w w' : World BudgetEvent) d :
  well (w_db w) -> usage_safe (w_db w) ->
  checked clk valid_zone localDate defaultTz agent model est w = (Ok d, w') ->
  exists a i o, agent = JStr a /\ count (jget "inputTokens" est) false = Ok i /\ count (jget "outputTokens" est) true = Ok o /\
    (allowed d = true <->
     forall r h, r ∈ s_limits (w_db w) -> l_metric r = Some Tokens -> covers a r = true -> l_hard r = Some h ->
       exists b, bounds_of localDate (clk (w_ticks w)) (getTz valid_zone defaultTz (w_db w)) (l_period r) = Ok b /\
                 spent (w_db w) r b + (i + o) <= h) /\
    (allowed d = false -> w_db w' = w_db w /\ w_sent w' = w_sent w).
Proof.
  intros [Hl Hu] Hs H. unfold checked, mbind, SE_bind, transaction in H.
  destruct (check _ _ _ _ _ _ _ w) as [[[d0 out]|f] w2] eqn:Ec; [|done].
  rewrite each_emit in H. injection H as <- <-. cbn [fst snd w_db w_sent].
  destruct (check_front _ _ _ _ _ _ _ _ _ _ _ Ec) as (a & i & o & found & w1 & Ha & Hi & Ho & D1 & S1 & G1 & G2 & Gd).
  exists a, i, o. split_and!; try done.
  - apply count_ok in Hi, Ho.
    assert (Hrows : forall r, r ∈ limitRows (w_db w) (Some a) TOKEN_LIMITS <-> r ∈ s_limits (w_db w) /\ l_metric r = Some Tokens /\ covers a r = true).
    { intros r. unfold limitRows. rewrite sort_by_perm, bfilter_elem, andb_true_iff. unfold TOKEN_LIMITS. by rewrite bool_decide_eq_true. }
    assert (HA : forall r, r ∈ s_limits (w_db w) -> l_metric r = Some Tokens -> covers a r = true -> exists b l, judge localDate (w_db w) (clk (w_ticks w)) (getTz valid_zone defaultTz (w_db w)) (storedCacheReadWeight (w_db w)) (jadd i o) r = Ok l /\
      bounds_of localDate (clk (w_ticks w)) (getTz valid_zone defaultTz (w_db w)) (l_period r) = Ok b /\
      ((exists x, inl x ∈ l) <-> exists h, l_hard r = Some h /\ h < spent (w_db w) r b + (i + o))).
    { intros r Hr Hm Hc. destruct (G1 r ltac:(by apply Hrows)) as (l & Ej).
      destruct (judge_breach localDate _ _ _ i o r l Hu Hs ltac:(by apply Hl) Hm ltac:(lia) ltac:(lia) Ej) as (b & Hb & Hx). eauto. }
    split.
    + intros Hok r h Hr Hm Hc Hh. rewrite Hok in Gd. destruct (HA r Hr Hm Hc) as (b & l & Ej & Hb & Hx). exists b. split; [done|].
      destruct (Z.le_gt_cases (spent (w_db w) r b + (i + o)) h) as [?|Hgt]; [done|exfalso].
      destruct (proj2 Hx ltac:(eauto)) as (x & Hin). assert (Hf : x ∈ breaches_of found).
      { apply breaches_of_elem, G2. exists r, l. split; [by apply Hrows|done]. }
      rewrite Gd in Hf. inversion Hf.
    + intros Hall. destruct (allowed d0); [done|exfalso]. destruct Gd as [Gd _].
      destruct (breaches_of found) as [|x bs] eqn:Eb; [done|]. assert (Hf : x ∈ breaches_of found) by (rewrite Eb; left).
      apply breaches_of_elem, G2 in Hf as (r & l & Hr & Ej & Hin). apply Hrows in Hr as (Hr & Hm & Hc).
      destruct (HA r Hr Hm Hc) as (b & l' & Ej' & Hb & Hx). rewrite Ej in Ej'. injection Ej' as <-.
      destruct (proj1 Hx ltac:(eauto)) as (h & Hh & Hlt). destruct (Hall r h Hr Hm Hc Hh) as (b' & Hb' & Hle). rewrite Hb in Hb'. injection Hb' as <-. lia.
  - intros Hno. rewrite Hno in Gd. destruct Gd as (_ & -> & ->). rewrite D1, S1, app_nil_r. done.
Qed.

(** A day of 1000 tokens, 950 spent: 60 more are refused. *)
Definition demo_calls : list ledger_call :=
  [CSetLimit (JObj [("scope", JStr "global"); ("period", JStr "day"); ("metric", JStr "tokens"); ("hard", JNum (Fin 1000))]);
   CRecord (JObj [("agent", JStr "a"); ("model", JStr "m"); ("inputTokens", JNum (Fin 900)); ("outputTokens", JNum (Fin 50))])].
Definition demo_clock (n : nat) : Z := 1790000000000.
Definition demo_world : World BudgetEvent := ledger_run demo_clock (fun _ => true) demo_zone "UTC" demo_calls.
Definition demo_estimate : js := JObj [("inputTokens", JNum (Fin 60))].

Lemma check_refuses_exactly_witness : exists d w',
  checked demo_clock (fun _ => true) demo_zone "UTC" (JStr "a") (JStr "m") demo_estimate demo_world = (Ok d, w') /\
  allowed d = false /\ w_db w' = w_db demo_world.
Proof.
  eexists _, _. split; [vm_compute; reflexivity|]. split; [reflexivity|].
  destruct (check_refuses_exactly demo_clock (fun _ => true) demo_zone "UTC" (JStr "a") (JStr "m") demo_estimate demo_world _ _
    (well_run _ _ _ _ _) ltac:(vm_compute; discriminate) ltac:(vm_compute; reflexivity)) as (a & i & o & _ & _ & _ & _ & H).
  exact (proj1 (H eq_refl)).
Defined.
