(* ===== verification/BudgetCalls.v ===== *)
(** * The call budget

    Model of [packages/core/src/budget/calls.ts], the port every model call goes
    through: a call reserves its estimate before it is made and is settled with
    what it used, released, or expires.  The clock is read as often as the code
    reads it; ids are an arbitrary stream.  Rows a query returns without an
    [ORDER BY] come in the order they were inserted. *)

From Stdlib Require Import QArith Qround.
From S2P Require Import Prelude Double BudgetPeriod BudgetStore BudgetLedger.
#[local] Open Scope Z_scope.

(** ** Data *)

(** One amount per metric. *)
(* @src budget/calls.ts 86 86 Amounts *)
Definition Amounts : Type := Metric -> Z.
(* @src budget/calls.ts 95 95 amountsOf *)
Definition amountsOf (r : CallRow) : Amounts := fun m => match m with Tokens => r_tokens r | Images => r_images r | VideoSeconds => r_video r end.
Definition amounts (t i v : Z) : Amounts := fun m => match m with Tokens => t | Images => i | VideoSeconds => v end.

(** A limit as the port reads it, its own or one of the budget service. *)
(* @src budget/calls.ts 100 100 LimitRow *)
Record PortLimit : Type := { q_scope : CallScope; q_id : string; q_period : CallPeriod; q_metric : Metric; q_hard : option Z; q_soft : Z }.

(* @src budget/calls.ts 22 25 CallRefusal *)
Record CallRefusal : Type := {
  cf_scope : CallScope; cf_limit : Z; cf_used : Z; cf_estimate : Z; cf_metric : Metric; cf_id : string; cf_resetsAt : Z
}.
(* @src budget/calls.ts 26 28 CallDecision *)
Inductive CallDecision : Type := Allow (reservationId : string) (estimatedTokens images videoSeconds : Z) | Refuse (r : CallRefusal).
(* @src budget/calls.ts 53 53 Settlement *)
Record Settlement : Type := { recorded : bool; overages : list CallRefusal }.

(** Media units are part of an event when they are not 0. *)
(* @src budget/calls.ts 29 35 CallBudgetEvent *)
Inductive CallBudgetEvent : Type :=
| EWarn (scope : CallScope) (id : string) (used limit : Z) (metric : Metric)
| ERefuse (r : CallRefusal)
| EReserve (id : string) (tokens images video : Z)
| ESettle (id : string) (tokens images video : Z) (overages : list CallRefusal)
| ERelease (id : string)
| EExpire (id : string) (tokens images video reservedAt : Z).

(* @src budget/calls.ts 48 48 DEFAULT_RESERVATION_TTL_MS *)
Definition DEFAULT_RESERVATION_TTL_MS : Z := 30 * 60000.

(** ** Validation *)

(* @src budget/calls.ts 70 73 id *)
Definition call_id (v : js) : result Fault string := ident v.
(* @src budget/calls.ts 74 77 count *)
Definition call_count (v : js) : result Fault Z := count v false.
(* @src budget/calls.ts 78 81 closed *)
Definition call_closed (v : js) (keys : list string) : result Fault unit := closed v keys.

Definition nat_count (z : Z) : result Fault Z := call_count (JNum (Fin z)).
(** [v ?? d] *)
Definition or_else (v d : js) : js := match v with JUndef | JNull => d | _ => v end.

(* @src budget/calls.ts 98 98 applies *)
Definition applies (m : Metric) (a : Amounts) : bool := match m with Tokens => true | _ => 0 <? a m end.

(** The column a scope is matched in. *)
(* @src budget/calls.ts 101 101 COLUMN *)
Definition COLUMN (s : CallScope) (r : CallRow) : option string :=
  match s with
  | Global => None
  | User => Some (r_principal r)
  | Project => Some (r_project r)
  | Agent => Some (r_agent r)
  | Turn => Some (r_turn r)
  | Session => Some (r_session r)
  end.

(** The double nearest 0.8, and [Math.floor(hard * 0.8)]. *)
Definition point_eight : Q := fl (8 # 10).
Definition soft_share (hard : Z) : Z := Qfloor (fmul (inject_Z hard) point_eight).

(** ** Which limits cover a call *)

Definition own_limit (l : CallLimitRow) : option PortLimit :=
  match cl_metric l with
  | Some m => Some {| q_scope := cl_scope l; q_id := cl_id l; q_period := cl_period l; q_metric := m; q_hard := Some (cl_hard l); q_soft := cl_soft l |}
  | None => None
  end.

(* @src budget/calls.ts 162 163 limits *)
Definition legacy_limit (l : LimitRow) : option PortLimit :=
  match l_metric l with
  | Some m => Some {| q_scope := if is_global (l_scope l) then Global else Agent; q_id := l_agent l; q_period := l_period l; q_metric := m;
                      q_hard := l_hard l; q_soft := match l_soft l with Some f => f | None => soft_share (default 0 (l_hard l)) end |}
  | None => None
  end.

Definition concerns (l : PortLimit) (r : CallRow) : bool :=
  match COLUMN (q_scope l) r with
  | None => true
  | Some v => negb (is_empty v) && String.eqb v (q_id l)
  end.

(* @src budget/calls.ts 159 166 limits *)
Definition port_limits (s : Store) (r : CallRow) (a : Amounts) : list PortLimit :=
  bfilter (fun l => concerns l r)
    (bfilter (fun l => applies (q_metric l) a) (omap own_limit (s_callLimits s) ++ omap legacy_limit (s_limits s))).

(** ** What a limit counts *)

(** [AND col = ?] *)
Definition in_column (l : PortLimit) (r : CallRow) : bool :=
  match COLUMN (q_scope l) r with None => true | Some v => String.eqb v (q_id l) end.

(* @src budget/calls.ts 88 88 RESERVED *)
Definition RESERVED (m : Metric) (r : CallRow) : Z := amountsOf r m.
(* @src budget/calls.ts 89 89 SETTLED *)
Definition SETTLED (m : Metric) (u : UsageRow) : Z :=
  match m with Tokens => ue_input u + ue_output u | Images => ue_images u | VideoSeconds => ue_video u end.

(* @src budget/calls.ts 91 91 LEDGER_PREFIX *)
Definition LEDGER_PREFIX : string := "budget-call:".
Definition ledger_id (id : string) : string := LEDGER_PREFIX +:+ id.

(** The cache reads of the usage event a settlement wrote; none counts nothing. *)
(* @src budget/calls.ts 92 94 CALL_READS_SQL *)
Definition call_reads (s : Store) (r : CallRow) : Z :=
  match bfind (fun u => bool_decide (ue_request u = Some (ledger_id (r_id r)))) (s_usage s) with
  | Some u => cacheReads u
  | None => 0
  end.

Definition is_lifetime (s : CallScope) : bool := match s with Turn | Session => true | _ => false end.
Definition on_ledger (s : CallScope) : bool := match s with Global | Agent => true | _ => false end.

Definition holds (l : PortLimit) (cutoff : Z) (r : CallRow) : bool := negb (r_settled r) && (cutoff <=? r_ts r) && in_column l r.
(* @src budget/calls.ts 175 176 usage *)
Definition reserved_sum (s : Store) (l : PortLimit) (cutoff : Z) : Z := zsum (RESERVED (q_metric l)) (bfilter (holds l cutoff) (s_calls s)).

(* @src budget/calls.ts 180 189 usage *)
Definition settled_sums (s : Store) (l : PortLimit) (st en : Z) (weight : Q) : Z * Z :=
  let weighted := negb (Qle_bool DEFAULT_CACHE_READ_WEIGHT weight) in
  if on_ledger (q_scope l) then
    let rows := bfilter (in_period st en (match q_scope l with Agent => Some (q_id l) | _ => None end)) (s_usage s) in
    (zsum (SETTLED (q_metric l)) rows, if weighted then zsum cacheReads rows else 0)
  else
    let rows := bfilter (fun r => r_settled r && (st <=? r_ts r) && (r_ts r <? en) && in_column l r) (s_calls s) in
    (zsum (RESERVED (q_metric l)) rows, if weighted then zsum (call_reads s) rows else 0).

Definition int_of (z : Z) : result Fault Z := if safe_int z then Ok z else Err FStore.

Section port.
Context (clk : nat -> Z) (idGen : nat -> string) (valid_zone : string -> bool) (localDate : Z -> string -> LocalDate)
        (defaultZone : string) (ttl : Z).
Notation W := (World CallBudgetEvent).
Notation M := (SE W Fault).

(* @src budget/calls.ts 140 141 expiredBefore *)
Definition expiredBefore : M Z := now ← clock_now clk; mret (now - ttl).

(* @src budget/calls.ts 154 157 zone *)
Definition zone (s : Store) : result Fault string :=
  match validateTimeZone valid_zone (default defaultZone (s_timezone s)) with Ok v => Ok v | Err _ => Err FRange end.

Record Used : Type := { us_used : Z; us_key : string; us_end : Z }.

(* @src budget/calls.ts 168 169 usage *)
Definition usage_bounds (s : Store) (l : PortLimit) (ts : Z) : result Fault (Z * Z * string) :=
  if is_lifetime (q_scope l) then Ok (0, 8640000000000000, q_id l)
  else let* tz := zone s in let* b := bounds_of localDate ts tz (q_period l) in Ok (b_start b, b_end b, b_key b).

(** [usage] with the expiry instant it read. *)
(* @src budget/calls.ts 167 192 usage *)
Definition use_at (s : Store) (l : PortLimit) (bounds : Z * Z * string) (cutoff : Z) : result Fault Used :=
  let '(st, en, key) := bounds in
  let* reserved := int_of (reserved_sum s l cutoff) in
  let weight := match q_metric l with Tokens => storedCacheReadWeight s | _ => DEFAULT_CACHE_READ_WEIGHT end in
  let '(n0, r0) := settled_sums s l st en weight in
  let* n1 := int_of n0 in
  let* r1 := int_of r0 in
  let n := match q_metric l with Tokens => countedTokens n1 r1 weight | _ => n1 end in
  let* used := nat_count (jadd reserved n) in
  Ok {| us_used := used; us_key := key; us_end := en |}.

(* @src budget/calls.ts 167 192 usage *)
Definition usage (l : PortLimit) (ts : Z) : M Used :=
  s ← query id;
  b ← lift (usage_bounds s l ts);
  cutoff ← expiredBefore;
  lift (use_at s l b cutoff).

Definition added (add : option Amounts) (m : Metric) : Z := match add with Some a => a m | None => 0 end.

(* @src budget/calls.ts 195 199 breaches *)
Definition breach_one (add : option Amounts) (ts : Z) (l : PortLimit) : M (list CallRefusal) :=
  match q_hard l with
  | None => mret []
  | Some h =>
      u ← usage l ts;
      let n := added add (q_metric l) in
      mret (if n <=? h - us_used u then []
            else [{| cf_scope := q_scope l; cf_limit := h; cf_used := us_used u; cf_estimate := n; cf_metric := q_metric l;
                     cf_id := q_id l; cf_resetsAt := us_end u |}])
  end.

Definition margin (r : CallRefusal) : Z := cf_limit r - cf_used r.
Definition margin_le (a b : CallRefusal) : bool := margin a <=? margin b.

(* @src budget/calls.ts 194 201 breaches *)
Definition breaches (r : CallRow) (uses : Amounts) (add : option Amounts) (ts : Z) : M (list CallRefusal) :=
  ls ← query (fun s => port_limits s r uses);
  found ← gather (breach_one add ts) ls;
  mret (sort_by margin_le found).

(* @src budget/calls.ts 203 209 warnings *)
Definition warn_one (add : option Amounts) (ts : Z) (l : PortLimit) : M (list CallBudgetEvent) :=
  u ← usage l ts;
  let total := jadd (us_used u) (added add (q_metric l)) in
  if q_soft l <=? total then
    let n := {| cn_scope := q_scope l; cn_id := q_id l; cn_period := q_period l; cn_metric := q_metric l; cn_key := us_key u |} in
    known ← query (fun s => bool_decide (n ∈ s_callNotices s));
    if (known : bool) then mret []
    else _ ← update (set_callNotices (fun ns => ns ++ [n])); mret [EWarn (q_scope l) (q_id l) total (q_soft l) (q_metric l)]
  else mret [].

(* @src budget/calls.ts 202 210 warnings *)
Definition warnings (r : CallRow) (uses : Amounts) (add : option Amounts) (ts : Z) : M (list CallBudgetEvent) :=
  ls ← query (fun s => port_limits s r uses);
  gather (warn_one add ts) ls.

(** ** Operations *)

(* @src budget/calls.ts 142 151 reconcileExpired *)
Definition reconcileExpired : M Z :=
  rows ← transaction (
    cutoff ← expiredBefore;
    stale ← query (fun s => bfilter (fun r => negb (r_settled r) && (r_ts r <? cutoff)) (s_calls s));
    _ ← update (set_calls (bfilter (fun r => negb (existsb (fun x => String.eqb (r_id x) (r_id r)) stale && negb (r_settled r)))));
    mret stale);
  _ ← each (fun r => emit (EExpire (r_id r) (r_tokens r) (r_images r) (r_video r) (r_ts r))) rows;
  mret (Z.of_nat (length rows)).

Definition scope_js (v : js) : result Fault CallScope :=
  match v with
  | JStr "global" => Ok Global | JStr "user" => Ok User | JStr "project" => Ok Project
  | JStr "agent" => Ok Agent | JStr "turn" => Ok Turn | JStr "session" => Ok Session
  | _ => Err FInput
  end.
Definition call_period_of (v : js) : result Fault CallPeriod :=
  match v with JStr "day" => Ok Day | JStr "week" => Ok Week | JStr "month" => Ok Month | _ => Err FInput end.

(** The row a call to [setLimit] stores. *)
(* @src budget/calls.ts 211 216 setLimit *)
Definition call_limit_of (l : js) : result Fault CallLimitRow :=
  let* _ := call_closed l ["scope"; "id"; "period"; "metric"; "hard"; "soft"] in
  let* scope := scope_js (jget "scope" l) in
  let* period := call_period_of (jget "period" l) in
  let* metric := metric_of (jget "metric" l) in
  let* lid := match scope with
              | Global => match jget "id" l with JStr "" => Ok "" | _ => Err FInput end
              | _ => call_id (jget "id" l)
              end in
  let* hard := call_count (jget "hard" l) in
  let* soft := call_count (or_else (jget "soft" l) (JNum (Fin (soft_share hard)))) in
  assert* soft <=? hard else FInput in
  Ok {| cl_scope := scope; cl_id := lid; cl_period := period; cl_metric := Some metric; cl_hard := hard; cl_soft := soft |}.

Definition same_call_limit (sc : CallScope) (i : string) (p : CallPeriod) (m : option Metric) (r : CallLimitRow) : bool :=
  bool_decide (cl_scope r = sc) && String.eqb (cl_id r) i && bool_decide (cl_period r = p) && bool_decide (cl_metric r = m).

Definition upsert_call_limit (x : CallLimitRow) (l : list CallLimitRow) : list CallLimitRow :=
  let k := same_call_limit (cl_scope x) (cl_id x) (cl_period x) (cl_metric x) in
  if existsb k l then map (fun r => if k r then x else r) l else l ++ [x].

(* @src budget/calls.ts 211 218 setLimit *)
Definition setCallLimit (l : js) : M unit :=
  row ← lift (call_limit_of l);
  update (set_callLimits (upsert_call_limit row)).

(* @src budget/calls.ts 278 278 clearLimit *)
Definition clearLimit (sc : CallScope) (i : string) (p : CallPeriod) (m : Metric) : M unit :=
  update (set_callLimits (bfilter (fun r => negb (same_call_limit sc i p (Some m) r)))).

Definition REQUEST_KEYS : list string :=
  ["principal"; "agent"; "project"; "model"; "provider"; "estimatedInputTokens"; "maxOutputTokens"; "images"; "videoSeconds"; "turn"; "session"].

(** The fields of a valid request: everything of its row but the id and the instant. *)
(* @src budget/calls.ts 219 225 checkBeforeCall *)
Definition request_row (q : js) (id : string) (ts : Z) : result Fault CallRow :=
  let* _ := nat_count ts in
  let* i := call_count (jget "estimatedInputTokens" q) in
  let* o := call_count (jget "maxOutputTokens" q) in
  let* tokens := nat_count (jadd i o) in
  let* im := call_count (or_else (jget "images" q) (JNum (Fin 0))) in
  let* vs := call_count (or_else (jget "videoSeconds" q) (JNum (Fin 0))) in
  Ok {| r_id := id; r_principal := js_str (jget "principal" q); r_project := js_str (jget "project" q); r_agent := js_str (jget "agent" q);
        r_model := js_str (jget "model" q); r_provider := js_str (jget "provider" q); r_turn := js_str (jget "turn" q);
        r_session := js_str (jget "session" q); r_ts := ts; r_tokens := tokens; r_images := im; r_video := vs; r_settled := false |}.

(* @src budget/calls.ts 219 222 checkBeforeCall *)
Definition request_ids (q : js) : result Fault unit :=
  let* _ := call_closed q REQUEST_KEYS in
  let* _ := call_id (jget "principal" q) in
  let* _ := call_id (jget "agent" q) in
  let* _ := call_id (jget "project" q) in
  let* _ := call_id (jget "model" q) in
  let* _ := opt_js (jget "provider" q) "" call_id in
  let* _ := opt_js (jget "turn" q) "" call_id in
  let* _ := opt_js (jget "session" q) "" call_id in
  Ok tt.

(** [INSERT INTO budget_call]: the id is the primary key. *)
Definition insert_call (r : CallRow) : M unit :=
  dup ← query (fun s => existsb (fun x => String.eqb (r_id x) (r_id r)) (s_calls s));
  if (dup : bool) then throw FStore else update (set_calls (fun l => l ++ [r])).

(* @src budget/calls.ts 228 236 checkBeforeCall *)
Definition reserve_tx (r : CallRow) (ts : Z) : M (CallDecision * list CallBudgetEvent) :=
  bs ← breaches r (amountsOf r) (Some (amountsOf r)) ts;
  match bs with
  | refusal :: _ => mret (Refuse refusal, [ERefuse refusal])
  | [] =>
      ws ← warnings r (amountsOf r) (Some (amountsOf r)) ts;
      _ ← insert_call r;
      mret (Allow (r_id r) (r_tokens r) (r_images r) (r_video r), ws ++ [EReserve (r_id r) (r_tokens r) (r_images r) (r_video r)])
  end.

(* @src budget/calls.ts 219 238 checkBeforeCall *)
Definition checkBeforeCall (request : js) : M CallDecision :=
  _ ← lift (request_ids request);
  n ← gets w_ticks;
  ts ← clock_now clk;
  r ← lift (request_row request (idGen n) ts);
  d ← transaction (reserve_tx r ts);
  _ ← each emit (snd d);
  mret (fst d).

Record Actual : Type := { ac_input : Z; ac_output : Z; ac_read : Z; ac_write : Z; ac_images : Z; ac_video : Z }.

(* @src budget/calls.ts 240 241 settle *)
Definition actual_of (a : js) : result Fault Actual :=
  let* _ := call_closed a ["inputTokens"; "outputTokens"; "cacheReadTokens"; "cacheWriteTokens"; "images"; "videoSeconds"] in
  let* i := call_count (jget "inputTokens" a) in
  let* o := call_count (jget "outputTokens" a) in
  let* cr := call_count (or_else (jget "cacheReadTokens" a) (JNum (Fin 0))) in
  let* cw := call_count (or_else (jget "cacheWriteTokens" a) (JNum (Fin 0))) in
  let* im := call_count (or_else (jget "images" a) (JNum (Fin 0))) in
  let* vs := call_count (or_else (jget "videoSeconds" a) (JNum (Fin 0))) in
  Ok {| ac_input := i; ac_output := o; ac_read := cr; ac_write := cw; ac_images := im; ac_video := vs |}.

Definition settled_row (tokens im vs : Z) (r : CallRow) : CallRow :=
  {| r_id := r_id r; r_principal := r_principal r; r_project := r_project r; r_agent := r_agent r; r_model := r_model r;
     r_provider := r_provider r; r_turn := r_turn r; r_session := r_session r; r_ts := r_ts r; r_tokens := tokens; r_images := im;
     r_video := vs; r_settled := true |}.

(** The usage event of a settlement. *)
(* @src budget/calls.ts 252 252 settle *)
Definition ledger_row (r : CallRow) (u : Actual) : UsageRow :=
  {| ue_ts := r_ts r; ue_agent := r_agent r; ue_provider := r_provider r; ue_model := r_model r; ue_input := ac_input u;
     ue_output := ac_output u; ue_cacheRead := ac_read u; ue_cacheWrite := ac_write u; ue_request := Some (ledger_id (r_id r));
     ue_images := ac_images u; ue_video := ac_video u |}.

(* @src budget/calls.ts 243 255 settle *)
Definition settle_tx (reservationId : string) (u : Actual) : M (Settlement * list CallBudgetEvent) :=
  found ← query (fun s => bfind (fun r => String.eqb (r_id r) reservationId) (s_calls s));
  match found with
  | None => throw FInput
  | Some r =>
      if r_settled r then mret ({| recorded := false; overages := [] |}, [])
      else
        tokens ← lift (nat_count (jadd (ac_input u) (ac_output u)));
        let uses := amounts tokens (Z.max (r_images r) (ac_images u)) (Z.max (r_video r) (ac_video u)) in
        _ ← update (set_calls (map (fun x => if String.eqb (r_id x) (r_id r) then settled_row tokens (ac_images u) (ac_video u) x else x)));
        dup ← query (has_request (Some (ledger_id (r_id r))));
        _ ← (if (dup : bool) then throw FStore else update (set_usage (fun l => l ++ [ledger_row r u])));
        ws ← warnings r uses None (r_ts r);
        os ← breaches r uses None (r_ts r);
        mret ({| recorded := true; overages := os |}, ws)
  end.

(* @src budget/calls.ts 239 259 settle *)
Definition settle (reservationId actual : js) : M Settlement :=
  i ← lift (call_id reservationId);
  u ← lift (actual_of actual);
  r ← transaction (settle_tx i u);
  _ ← each emit (snd r);
  _ ← (if recorded (fst r) then emit (ESettle i (jadd (ac_input u) (ac_output u)) (ac_images u) (ac_video u) (overages (fst r))) else mret tt);
  mret (fst r).

Definition is_reserved (i : string) (r : CallRow) : bool := String.eqb (r_id r) i && negb (r_settled r).

(* @src budget/calls.ts 262 267 releaseUnused *)
Definition releaseUnused (reservationId : js) : M unit :=
  i ← lift (call_id reservationId);
  hit ← query (fun s => existsb (is_reserved i) (s_calls s));
  _ ← update (set_calls (bfilter (fun r => negb (is_reserved i r))));
  if (hit : bool) then emit (ERelease i) else mret tt.

Record ReservationView : Type := { rv_settled : bool; rv_tokens : Z; rv_images : Z; rv_video : Z; rv_expired : bool }.

(** The clock is read only for a reserved row. *)
(* @src budget/calls.ts 268 272 reservation *)
Definition reservation (reservationId : js) : M (option ReservationView) :=
  i ← lift (call_id reservationId);
  found ← query (fun s => bfind (fun r => String.eqb (r_id r) i) (s_calls s));
  match found with
  | None => mret None
  | Some r =>
      if r_settled r then mret (Some {| rv_settled := true; rv_tokens := r_tokens r; rv_images := r_images r; rv_video := r_video r; rv_expired := false |})
      else cutoff ← expiredBefore;
           mret (Some {| rv_settled := false; rv_tokens := r_tokens r; rv_images := r_images r; rv_video := r_video r; rv_expired := r_ts r <? cutoff |})
  end.

(* @src budget/calls.ts 273 277 pendingReservations *)
Definition pendingReservations : M (Z * Z) :=
  c1 ← expiredBefore;
  c2 ← expiredBefore;
  query (fun s => (Z.of_nat (length (bfilter (fun r => negb (r_settled r) && (c1 <=? r_ts r)) (s_calls s))),
                   Z.of_nat (length (bfilter (fun r => negb (r_settled r) && (r_ts r <? c2)) (s_calls s))))).

(** What [run] throws besides its faults: a refusal, or usage still pending. *)
Inductive RunFailure : Type := RExceeded (r : CallRefusal) | RPending (id : string) | RFault (f : Fault).

(** [invoke] is any step on the same world; it answers the usage or throws. *)
(* @src budget/calls.ts 279 287 run *)
Definition run (request : js) (invoke : M js) : SE W RunFailure unit :=
  decision ← catch (checkBeforeCall request) (fun f => throw (RFault f));
  match decision with
  | Refuse r => throw (RExceeded r)
  | Allow i _ _ _ =>
      catch (u ← invoke; _ ← settle (JStr i) u; mret tt) (fun _ => throw (RPending i))
  end.

(** Opening the port: the schema it knows, a valid time to live, then recovery. *)
(* @src budget/calls.ts 103 153 createCallBudget *)
Definition open_port : M Z :=
  _ ← transaction (
    sc ← query s_schema;
    _ ← require (match sc with None => true | Some v => String.eqb v "1" || String.eqb v "2" end) FSchema;
    update (fun s => set_settings (s_timezone s) (s_weight s) (Some "2") s));
  _ ← require (safe_int ttl && (0 <? ttl)) FInput;
  reconcileExpired.

(** Calls on the port, in any order. *)
Inductive port_call : Type :=
| PCheck (q : js) | PSettle (i a : js) | PRelease (i : js) | PReconcile | PSetLimit (l : js)
| PClear (sc : CallScope) (i : string) (p : CallPeriod) (m : Metric) | PReservation (i : js) | PPending | POpen.

Definition port_step (w : W) (c : port_call) : W :=
  match c with
  | PCheck q => snd (checkBeforeCall q w)
  | PSettle i a => snd (settle i a w)
  | PRelease i => snd (releaseUnused i w)
  | PReconcile => snd (reconcileExpired w)
  | PSetLimit l => snd (setCallLimit l w)
  | PClear sc i p m => snd (clearLimit sc i p m w)
  | PReservation i => snd (reservation i w)
  | PPending => snd (pendingReservations w)
  | POpen => snd (open_port w)
  end.

Definition port_run (cs : list port_call) (w : W) : W := fold_left port_step cs w.
End port.
