(* ===== verification/BudgetCallsSpec.v ===== *)
(** * The call budget: reservations stay within the limits

    What a limit counts is the reservations it holds plus what was settled in its
    period; an allowed call leaves that within every hard limit that applies to
    it, from its own instant on, and a refused call leaves everything alone. *)

From Stdlib Require Import QArith.
From S2P Require Import Prelude Double BudgetPeriod BudgetStore BudgetLedger BudgetCalls.
#[local] Open Scope Z_scope.

(** ** What a limit counts, as one number *)

Definition call_nonneg (r : CallRow) : Prop := 0 <= r_tokens r /\ 0 <= r_images r /\ 0 <= r_video r.

Definition counts_ok (s : Store) : Prop := usage_ok s /\ forall r, r ∈ s_calls s -> call_nonneg r.

Definition weight_of (s : Store) (l : PortLimit) : Q := match q_metric l with Tokens => storedCacheReadWeight s | _ => DEFAULT_CACHE_READ_WEIGHT end.

(** The settled part, in the period [b]. *)
Definition settled_count (s : Store) (l : PortLimit) (b : Z * Z * string) : Z :=
  let sums := settled_sums s l (fst (fst b)) (snd (fst b)) (weight_of s l) in
  match q_metric l with Tokens => counted (fst sums) (snd sums) (weight_of s l) | _ => fst sums end.

(** Reserved and settled together, reservations before [cutoff] left out. *)
Definition in_use (s : Store) (l : PortLimit) (b : Z * Z * string) (cutoff : Z) : Z :=
  reserved_sum s l cutoff + settled_count s l b.

Lemma amounts_nonneg r m : call_nonneg r -> 0 <= amountsOf r m.
Proof. intros (? & ? & ?). by destruct m. Qed.

Lemma weight_range s l : (0 <= weight_of s l)%Q /\ (weight_of s l <= 1)%Q.
Proof.
  unfold weight_of. assert (D : (0 <= DEFAULT_CACHE_READ_WEIGHT)%Q /\ (DEFAULT_CACHE_READ_WEIGHT <= 1)%Q) by (split; discriminate).
  destruct (q_metric l); [apply stored_weight_range|exact D|exact D].
Qed.

Lemma sums_nonneg s l st en w : counts_ok s -> 0 <= fst (settled_sums s l st en w) /\ 0 <= snd (settled_sums s l st en w).
Proof.
  intros [[Hu _] Hc]. unfold settled_sums. destruct (on_ledger (q_scope l)); cbn [fst snd]; split.
  - apply zsum_nonneg. intros u [Hin _]%bfilter_elem. apply Hu in Hin. unfold row_nonneg in Hin. destruct (q_metric l); cbn [SETTLED]; lia.
  - destruct (negb _); [|lia]. apply zsum_nonneg. intros u [Hin _]%bfilter_elem. apply Hu in Hin. unfold row_nonneg, cacheReads in *. lia.
  - apply zsum_nonneg. intros r [Hin _]%bfilter_elem. by apply amounts_nonneg, Hc.
  - destruct (negb _); [|lia]. apply zsum_nonneg. intros r _. unfold call_reads.
    destruct (bfind _ (s_usage s)) as [u|] eqn:E; [|lia]. apply bfind_some in E as [Hin _]. apply Hu in Hin.
    unfold row_nonneg, cacheReads in *. lia.
Qed.

(** The tokens counted are exact whatever the reads a provider reports. *)
Lemma countedTokens_wide io reads w : (0 <= w)%Q -> (w <= 1)%Q -> 0 <= io <= MAX_SAFE_INTEGER -> 0 <= reads <= MAX_SAFE_INTEGER ->
  countedTokens io reads w = counted io reads w /\ - MAX_SAFE_INTEGER <= counted io reads w <= MAX_SAFE_INTEGER.
Proof.
  intros H0 H1 Hi Hr. pose proof (counted_range io reads w H0 H1 ltac:(lia)) as Hc. pose proof (micros_range w H0 H1) as Hm.
  split; [|lia]. unfold countedTokens, counted in *. fold (micros_of w). unfold MAX_SAFE_INTEGER, MICROS in *.
  rewrite Z.quot_div_nonneg by nia. rewrite (jadd_exact io) by lia. rewrite jadd_exact; [lia|].
  change (2 ^ 53) with 9007199254740992. lia.
Qed.

Lemma int_of_ok z v : int_of z = Ok v -> v = z /\ - MAX_SAFE_INTEGER <= z <= MAX_SAFE_INTEGER.
Proof. unfold int_of. destruct (safe_int z) eqn:E; [|done]. intros [= <-]. split; [done|]. by apply safe_int_range. Qed.

Lemma nat_count_ok z v : nat_count z = Ok v -> v = z /\ safe_int z = true /\ 0 <= z <= MAX_SAFE_INTEGER.
Proof.
  unfold nat_count, call_count, count. destruct (safe_int z && (0 <=? z)) eqn:E; [|done]. intros [= <-]. bool_hyps.
  split; [done|]. split; [done|]. apply safe_int_range in H. lia.
Qed.

Lemma reserved_nonneg s l c : counts_ok s -> 0 <= reserved_sum s l c.
Proof. intros [_ Hc]. apply zsum_nonneg. intros r [Hin _]%bfilter_elem. by apply amounts_nonneg, Hc. Qed.

(** What [usage] answers is that number. *)
Lemma use_at_in_use s l b c u : counts_ok s -> use_at s l b c = Ok u -> us_used u = in_use s l b c /\ 0 <= us_used u <= MAX_SAFE_INTEGER.
Proof.
  intros Hc H. unfold use_at in H. destruct b as [[st en] key].
  apply rbind_ok in H as (rv & Hr & H). apply int_of_ok in Hr as [-> Hr]. fold (weight_of s l) in H.
  destruct (weight_range s l) as [W0 W1]. pose proof (sums_nonneg s l st en (weight_of s l) Hc) as [N0 N1].
  pose proof (reserved_nonneg s l c Hc) as Hr0.
  unfold in_use, settled_count. cbn [fst snd]. destruct (settled_sums s l st en (weight_of s l)) as [n0 r0]. cbn [fst snd] in *.
  apply rbind_ok in H as (n1 & Hn & H). apply int_of_ok in Hn as [-> Hn].
  apply rbind_ok in H as (r1 & Hr1 & H). apply int_of_ok in Hr1 as [-> Hr1].
  destruct (countedTokens_wide n0 r0 (weight_of s l) W0 W1 ltac:(lia) ltac:(lia)) as [Ec Rc].
  apply rbind_ok in H as (v & Hv & H). injection H as <-. cbn [us_used]. apply nat_count_ok in Hv as (-> & Hs & Hb).
  split; [|exact Hb]. rewrite jadd_safe_lower; [|unfold MAX_SAFE_INTEGER in *|exact Hs].
  - destruct (q_metric l); [by rewrite Ec|done|done].
  - destruct (q_metric l); [rewrite Ec|idtac|idtac]; lia.
Qed.

(** ** One more reservation *)

Definition with_call (r : CallRow) (s : Store) : Store := set_calls (fun l => l ++ [r]) s.

Lemma reserved_add s l r c c' : counts_ok s -> call_nonneg r -> c <= c' ->
  reserved_sum (with_call r s) l c' <= reserved_sum s l c + amountsOf r (q_metric l).
Proof.
  intros [_ Hc] Hr Hle. unfold reserved_sum, with_call. cbn [set_calls s_calls].
  assert (Hm : zsum (RESERVED (q_metric l)) (bfilter (holds l c') (s_calls s)) <= zsum (RESERVED (q_metric l)) (bfilter (holds l c) (s_calls s))).
  { apply zsum_bfilter_mono; [intros x Hx; by apply amounts_nonneg, Hc|]. intros x. unfold holds. intros Hh. bool_hyps.
    rewrite !andb_true_iff, negb_true_iff. split; [split; [done|lia]|done]. }
  unfold bfilter in *. rewrite List.filter_app, zsum_app.
  pose proof (amounts_nonneg r (q_metric l) Hr). cbn [List.filter]. destruct (holds l c' r); cbn [zsum]; unfold RESERVED in *; lia.
Qed.

(** A pending reservation settles nothing. *)
Lemma settled_add s l r b : r_settled r = false -> settled_count (with_call r s) l b = settled_count s l b.
Proof.
  intros Hr. unfold settled_count. replace (weight_of (with_call r s) l) with (weight_of s l) by done.
  assert (E : forall st en w, settled_sums (with_call r s) l st en w = settled_sums s l st en w); [|by rewrite E].
  intros st en w. unfold settled_sums. cbn [with_call set_calls s_usage s_calls]. destruct (on_ledger (q_scope l)); [done|].
  unfold bfilter. rewrite List.filter_app. cbn [List.filter]. rewrite Hr. cbn [andb]. by rewrite app_nil_r.
Qed.

(** ** Steps of the port *)

(** The database without the warnings' notices, which nothing counts. *)
Definition base (s : Store) : Store := set_callNotices (fun _ => []) s.

Section port_facts.
Context (clk : nat -> Z) (idGen : nat -> string) (valid_zone : string -> bool) (localDate : Z -> string -> LocalDate)
        (defaultZone : string) (ttl : Z).
Notation W := (World CallBudgetEvent).
Notation bounds' := (usage_bounds valid_zone localDate defaultZone).
Notation usage' := (usage clk valid_zone localDate defaultZone ttl).
Notation breach' := (breach_one clk valid_zone localDate defaultZone ttl).

Lemma base_in_use s l b c : in_use (base s) l b c = in_use s l b c.
Proof. reflexivity. Qed.
Lemma base_limits s r a : port_limits (base s) r a = port_limits s r a.
Proof. reflexivity. Qed.
Lemma base_bounds s l ts : bounds' (base s) l ts = bounds' s l ts.
Proof. reflexivity. Qed.

(** One reading of the use of a limit. *)
Lemma usage_run l ts (w w' : W) u : usage' l ts w = (Ok u, w') ->
  exists b, bounds' (w_db w) l ts = Ok b /\ use_at (w_db w) l b (clk (w_ticks w) - ttl) = Ok u /\
    w' = {| w_db := w_db w; w_ticks := S (w_ticks w); w_sent := w_sent w |}.
Proof.
  unfold usage. erewrite (SE_bind_run (query id)) by reflexivity. cbv beta. rewrite lift_bind. unfold id.
  destruct (bounds' (w_db w) l ts) as [b|]; [|done]. unfold expiredBefore. cbn. unfold lift.
  intros [= H <-]. eauto.
Qed.

Definition refusal_of (l : PortLimit) (h n : Z) (u : Used) : CallRefusal :=
  {| cf_scope := q_scope l; cf_limit := h; cf_used := us_used u; cf_estimate := n; cf_metric := q_metric l; cf_id := q_id l; cf_resetsAt := us_end u |}.

(** A limit judged with some reading of the clock made between two points. *)
Definition judged (s : Store) (ts : Z) (l : PortLimit) (t0 t1 : nat) (u : Used) : Prop :=
  exists b m, bounds' s l ts = Ok b /\ (t0 <= m < t1)%nat /\ use_at s l b (clk m - ttl) = Ok u.

Lemma breach_run add ts l (w w' : W) ys : breach' add ts l w = (Ok ys, w') ->
  w_db w' = w_db w /\ w_sent w' = w_sent w /\ (w_ticks w <= w_ticks w')%nat /\
  match q_hard l with
  | None => ys = []
  | Some h => exists u, judged (w_db w) ts l (w_ticks w) (w_ticks w') u /\
                ys = if added add (q_metric l) <=? h - us_used u then [] else [refusal_of l h (added add (q_metric l)) u]
  end.
Proof.
  unfold breach_one. destruct (q_hard l) as [h|]; [|by intros [= <- <-]].
  unfold mbind, SE_bind. destruct (usage' l ts w) as [[u|] w1] eqn:E; [|done].
  apply usage_run in E as (b & Hb & Hu & ->). cbv zeta. intros [= <- <-]. cbn [w_db w_sent w_ticks].
  split; [done|]. split; [done|]. split; [lia|]. exists u. split; [|done]. exists b, (w_ticks w). split; [done|]. split; [lia|done].
Qed.

Lemma judged_weaken s ts l t0 t1 t0' t1' u : judged s ts l t0 t1 u -> (t0' <= t0)%nat -> (t1 <= t1')%nat -> judged s ts l t0' t1' u.
Proof. intros (b & m & Hb & Hm & Hu) H0 H1. exists b, m. split; [done|]. split; [lia|done]. Qed.

(** All limits judged, in turn. *)
Lemma gather_breaches add ts ls (w w' : W) found : gather (breach' add ts) ls w = (Ok found, w') ->
  w_db w' = w_db w /\ w_sent w' = w_sent w /\ (w_ticks w <= w_ticks w')%nat /\
  (forall l h, l ∈ ls -> q_hard l = Some h -> exists u, judged (w_db w) ts l (w_ticks w) (w_ticks w') u /\
     (added add (q_metric l) <= h - us_used u \/ refusal_of l h (added add (q_metric l)) u ∈ found)) /\
  (forall z, z ∈ found -> exists l h u, l ∈ ls /\ q_hard l = Some h /\ judged (w_db w) ts l (w_ticks w) (w_ticks w') u /\
     z = refusal_of l h (added add (q_metric l)) u /\ h - us_used u < added add (q_metric l)).
Proof.
  revert w found. induction ls as [|l ls IH]; intros w found; cbn [gather].
  - intros [= <- <-]. split_and!; try done; [intros l h Hl|intros z Hz]; by apply elem_of_nil in Hl || by apply elem_of_nil in Hz.
  - unfold mbind at 1, SE_bind at 1. destruct (breach' add ts l w) as [[ys|] w1] eqn:E; [|done].
    unfold mbind, SE_bind. destruct (gather _ ls w1) as [[zs|] w2] eqn:G; [|done]. intros [= <- <-].
    apply breach_run in E as (D1 & S1 & T1 & B1). destruct (IH w1 zs G) as (D2 & S2 & T2 & P1 & P2). rewrite D1 in D2, P1, P2.
    split; [congruence|]. split; [congruence|]. split; [lia|]. split.
    + intros l' h [->|Hl]%elem_of_cons Hh.
      * rewrite Hh in B1. destruct B1 as (u & Hj & ->). exists u. split; [eapply judged_weaken; [exact Hj|lia|lia]|].
        destruct (Z.leb_spec (added add (q_metric l)) (h - us_used u)); [by left|right]. apply elem_of_app. left. by left.
      * destruct (P1 l' h Hl Hh) as (u & Hj & Ho). exists u. split; [eapply judged_weaken; [exact Hj|lia|lia]|].
        destruct Ho as [Ho|Ho]; [by left|right]. apply elem_of_app. by right.
    + intros z [Hz|Hz]%elem_of_app.
      * destruct (q_hard l) as [h|] eqn:Hh; [|subst; by apply elem_of_nil in Hz]. destruct B1 as (u & Hj & ->).
        destruct (Z.leb_spec (added add (q_metric l)) (h - us_used u)); [by apply elem_of_nil in Hz|].
        apply list_elem_of_singleton in Hz as ->. exists l, h, u. split_and!; try done; [by left|eapply judged_weaken; [exact Hj|lia|lia]].
      * destruct (P2 z Hz) as (l' & h & u & Hl & Hh & Hj & Hz' & Hlt). exists l', h, u.
        split_and!; try done; [by right|eapply judged_weaken; [exact Hj|lia|lia]].
Qed.

Lemma breaches_run r uses add ts (w w' : W) bs : breaches clk valid_zone localDate defaultZone ttl r uses add ts w = (Ok bs, w') ->
  w_db w' = w_db w /\ w_sent w' = w_sent w /\ (w_ticks w <= w_ticks w')%nat /\
  (forall l h, l ∈ port_limits (w_db w) r uses -> q_hard l = Some h -> exists u, judged (w_db w) ts l (w_ticks w) (w_ticks w') u /\
     (added add (q_metric l) <= h - us_used u \/ refusal_of l h (added add (q_metric l)) u ∈ bs)) /\
  (forall z, z ∈ bs -> exists l h u, l ∈ port_limits (w_db w) r uses /\ q_hard l = Some h /\ judged (w_db w) ts l (w_ticks w) (w_ticks w') u /\
     z = refusal_of l h (added add (q_metric l)) u /\ h - us_used u < added add (q_metric l)).
Proof.
  unfold breaches. erewrite (SE_bind_run (query _)) by reflexivity. unfold mbind, SE_bind.
  destruct (gather _ _ w) as [[found|] w1] eqn:G; [|done]. intros [= <- <-].
  apply gather_breaches in G as (D & S & T & P1 & P2). do 3 (split; [done|]). split.
  - intros l h Hl Hh. destruct (P1 l h Hl Hh) as (u & Hj & Ho). exists u. split; [done|]. by rewrite sort_by_perm.
  - intros z Hz. rewrite sort_by_perm in Hz. by apply P2.
Qed.

(** What warnings may change: the notices, and the clock. *)
Definition framed (x : Store) (y : list CallBudgetEvent) (n : nat) (w : W) : Prop :=
  base (w_db w) = x /\ w_sent w = y /\ (n <= w_ticks w)%nat.

Lemma framed_usage x y n l ts : keeps (framed x y n) (usage' l ts).
Proof.
  intros w (H1 & H2 & H3). destruct (usage' l ts w) as [[u|f] w'] eqn:E.
  - apply usage_run in E as (b & _ & _ & ->). unfold framed. cbn. split_and!; [done|done|lia].
  - revert E. unfold usage. erewrite (SE_bind_run (query id)) by reflexivity. cbv beta. rewrite lift_bind. unfold id.
    destruct (bounds' (w_db w) l ts) as [b|]; [|by intros [= _ <-]]. unfold expiredBefore. cbn. unfold lift.
    intros [= _ <-]. unfold framed. cbn. split_and!; [done|done|lia].
Qed.

Lemma framed_warn x y n add ts l : keeps (framed x y n) (warn_one clk valid_zone localDate defaultZone ttl add ts l).
Proof.
  unfold warn_one. apply keeps_bind; [apply framed_usage|intros u]. cbv zeta.
  destruct (q_soft l <=? _); [|apply keeps_ret]. apply keeps_bind; [by intros w Hw|intros known].
  destruct known; [apply keeps_ret|]. apply keeps_bind; [|intros _; apply keeps_ret]. by intros w Hw.
Qed.

Lemma warnings_run r uses add ts (w w' : W) res : warnings clk valid_zone localDate defaultZone ttl r uses add ts w = (res, w') ->
  base (w_db w') = base (w_db w) /\ w_sent w' = w_sent w /\ (w_ticks w <= w_ticks w')%nat.
Proof.
  intros H. assert (K : keeps (framed (base (w_db w)) (w_sent w) (w_ticks w)) (warnings clk valid_zone localDate defaultZone ttl r uses add ts)).
  { unfold warnings. apply keeps_bind; [by intros w0 Hw0|intros ls]. induction ls as [|l ls IH]; cbn [gather]; [apply keeps_ret|].
    apply keeps_bind; [apply framed_warn|intros ys]. apply keeps_bind; [exact IH|intros zs; apply keeps_ret]. }
  pose proof (keeps_state _ _ w K) as Hk. rewrite H in Hk. apply Hk. unfold framed. split_and!; [done|done|lia].
Qed.

(** A check up to its transaction. *)
Lemma check_tx q (w w' : W) d : checkBeforeCall clk idGen valid_zone localDate defaultZone ttl q w = (Ok d, w') ->
  exists r out w2, request_row q (idGen (w_ticks w)) (clk (w_ticks w)) = Ok r /\
    reserve_tx clk valid_zone localDate defaultZone ttl r (clk (w_ticks w)) {| w_db := w_db w; w_ticks := S (w_ticks w); w_sent := w_sent w |} = (Ok (d, out), w2) /\
    w' = {| w_db := w_db w2; w_ticks := w_ticks w2; w_sent := w_sent w2 ++ out |}.
Proof.
  unfold checkBeforeCall. rewrite lift_bind. destruct (request_ids q); [|done].
  erewrite (SE_bind_run (gets _)) by reflexivity. erewrite (SE_bind_run (clock_now clk)) by reflexivity. cbv beta. rewrite lift_bind.
  destruct (request_row q _ _) as [r|] eqn:Er; [|done]. unfold mbind at 1, SE_bind at 1, transaction.
  destruct (reserve_tx _ _ _ _ _ _ _ _) as [[[d0 out]|f] w2] eqn:Et; [|done].
  rewrite (SE_bind_run _ _ _ _ _ (each_emit out w2)). intros [= <- <-]. exists r, out, w2. done.
Qed.

Lemma request_row_spec q i ts r : request_row q i ts = Ok r ->
  r_id r = i /\ r_ts r = ts /\ r_settled r = false /\ call_nonneg r /\ 0 <= ts.
Proof.
  unfold request_row. intros H. apply rbind_ok in H as (? & Hts & H). apply rbind_ok in H as (ii & Hi & H). apply rbind_ok in H as (o & Ho & H).
  apply rbind_ok in H as (tokens & Ht & H). apply rbind_ok in H as (im & Him & H). apply rbind_ok in H as (vs & Hvs & H).
  injection H as <-. apply nat_count_ok in Hts as (_ & _ & Hts), Ht as (-> & _ & Ht).
  unfold call_count in Him, Hvs. assert (0 <= im /\ 0 <= vs) as [? ?].
  { split; [clear -Him; revert Him|clear -Hvs; revert Hvs]; unfold count;
      match goal with |- context[or_else ?a ?b] => destruct (or_else a b) as [| | |[z| |]| | |] end; try done;
      destruct (safe_int z && (0 <=? z)) eqn:E; try done; intros [= <-]; bool_hyps; lia. }
  unfold call_nonneg. cbn. split_and!; try done; lia.
Qed.

(** The row is the request's: whose call it is, of what, and how much of each metric it may come to. *)
Definition row_of (q : js) (r : CallRow) : Prop :=
  r_principal r = js_str (jget "principal" q) /\ r_agent r = js_str (jget "agent" q) /\ r_project r = js_str (jget "project" q) /\
  r_model r = js_str (jget "model" q) /\ r_provider r = js_str (jget "provider" q) /\ r_turn r = js_str (jget "turn" q) /\ r_session r = js_str (jget "session" q) /\
  (exists a b, jget "estimatedInputTokens" q = JNum (Fin a) /\ jget "maxOutputTokens" q = JNum (Fin b) /\ r_tokens r = a + b) /\
  or_else (jget "images" q) (JNum (Fin 0)) = JNum (Fin (r_images r)) /\ or_else (jget "videoSeconds" q) (JNum (Fin 0)) = JNum (Fin (r_video r)).

Lemma call_count_eq v z : call_count v = Ok z -> v = JNum (Fin z) /\ 0 <= z.
Proof. unfold call_count, count. destruct v as [| | |[x| |]| | |]; try done. destruct (safe_int x && (0 <=? x)) eqn:E; [|done]. intros [= ->]. bool_hyps. split; [done|lia]. Qed.

Lemma request_row_of q i ts r : request_row q i ts = Ok r -> row_of q r.
Proof.
  unfold request_row. intros H. apply rbind_ok in H as (? & _ & H). apply rbind_ok in H as (ii & Hi & H). apply rbind_ok in H as (o & Ho & H).
  apply rbind_ok in H as (tokens & Ht & H). apply rbind_ok in H as (im & Him & H). apply rbind_ok in H as (vs & Hvs & H).
  injection H as <-. apply nat_count_ok in Ht as (-> & Hs & _). apply call_count_eq in Hi as [Hi ?], Ho as [Ho ?], Him as [Him _], Hvs as [Hvs _].
  split_and!; try done. exists ii, o. split; [done|]. split; [done|]. by apply jadd_safe.
Qed.

Lemma insert_run r (w w' : W) u : insert_call r w = (Ok u, w') ->
  (forall x, x ∈ s_calls (w_db w) -> r_id x <> r_id r) /\ w' = {| w_db := with_call r (w_db w); w_ticks := w_ticks w; w_sent := w_sent w |}.
Proof.
  unfold insert_call. erewrite SE_bind_run by reflexivity. destruct (existsb _ _) eqn:E; [done|]. intros [= <-]. split; [|done].
  intros x Hx Heq. apply (existsb_false_elem _ _ _ E) in Hx. by rewrite Heq, String.eqb_refl in Hx.
Qed.

(** The transaction of a check, by its answer. *)
Lemma reserve_tx_run r ts (w w' : W) d out : reserve_tx clk valid_zone localDate defaultZone ttl r ts w = (Ok (d, out), w') ->
  w_sent w' = w_sent w /\
  match d with
  | Allow i t im vs =>
      i = r_id r /\ t = r_tokens r /\ im = r_images r /\ vs = r_video r /\
      (forall x, x ∈ s_calls (w_db w) -> r_id x <> r_id r) /\
      (exists s1, base s1 = base (w_db w) /\ w_db w' = with_call r s1) /\
      forall l h, l ∈ port_limits (w_db w) r (amountsOf r) -> q_hard l = Some h ->
        exists u, judged (w_db w) ts l (w_ticks w) (w_ticks w') u /\ amountsOf r (q_metric l) <= h - us_used u
  | Refuse f =>
      w_db w' = w_db w /\ out = [ERefuse f] /\
      exists l h u, l ∈ port_limits (w_db w) r (amountsOf r) /\ q_hard l = Some h /\ judged (w_db w) ts l (w_ticks w) (w_ticks w') u /\
        f = refusal_of l h (amountsOf r (q_metric l)) u /\ h - us_used u < amountsOf r (q_metric l)
  end.
Proof.
  unfold reserve_tx. intros H. unfold mbind at 1, SE_bind at 1 in H.
  destruct (breaches _ _ _ _ _ _ _ _ _ w) as [[bs|] w1] eqn:Eb; [|done].
  apply breaches_run in Eb as (D1 & S1 & T1 & P1 & P2). destruct bs as [|z bs].
  - unfold mbind at 1, SE_bind at 1 in H. destruct (warnings _ _ _ _ _ _ _ _ _ w1) as [[ws|] w2] eqn:Ew; [|done].
    apply warnings_run in Ew as (D2 & S2 & T2). unfold mbind, SE_bind in H.
    destruct (insert_call r w2) as [[[]|] w3] eqn:Ei; [|done]. apply insert_run in Ei as (Hid & ->). injection H as <- <- <-.
    cbn [w_sent w_db w_ticks]. split; [congruence|]. rewrite D1 in D2.
    assert (Hcalls : s_calls (w_db w2) = s_calls (w_db w)) by exact (f_equal s_calls D2).
    split_and!; try done; [by rewrite Hcalls in Hid|by exists (w_db w2)|].
    intros l h Hl Hh. destruct (P1 l h Hl Hh) as (u & Hj & [Ho|Ho]); [|by apply elem_of_nil in Ho].
    exists u. split; [eapply judged_weaken; [exact Hj|lia|lia]|exact Ho].
  - injection H as <- <- <-. split; [done|]. split; [done|]. split; [done|]. apply P2. by left.
Qed.
End port_facts.

(** (C40) A reservation never takes a limit past its hard bound.  When the check
    before a call allows it, exactly one pending row is added: the request's own
    (principal, agent, project, model, turn, session, amounts), with the id and
    the amounts of the answer, of the instant the check read from the clock.  And
    for every hard limit that covers the call and applies to what it asks for,
    what that limit then counts in the period of that instant - everything still
    reserved and everything settled - is within the bound, at this reading of the
    clock and at every later one, where the clock never goes back and no amount in
    the ledger and in the rows from before is negative. *)
Theorem reservation_within_limits clk idGen valid_zone localDate defaultZone ttl q (w w' : World CallBudgetEvent) i t im vs :
  (forall n m, (n <= m)%nat -> clk n <= clk m) -> counts_ok (w_db w) ->
  checkBeforeCall clk idGen valid_zone localDate defaultZone ttl q w = (Ok (Allow i t im vs), w') ->
  exists r, s_calls (w_db w') = s_calls (w_db w) ++ [r] /\ s_usage (w_db w') = s_usage (w_db w) /\
    row_of q r /\ r_ts r = clk (w_ticks w) /\ i = idGen (w_ticks w) /\
    r_id r = i /\ r_settled r = false /\ r_tokens r = t /\ r_images r = im /\ r_video r = vs /\
    forall l h b m, l ∈ port_limits (w_db w') r (amountsOf r) -> q_hard l = Some h ->
      usage_bounds valid_zone localDate defaultZone (w_db w') l (r_ts r) = Ok b -> (w_ticks w' <= m)%nat ->
      in_use (w_db w') l b (clk m - ttl) <= h.
Proof.
  intros Hclk Hc H. apply check_tx in H as (r & out & w2 & Hr & Ht & ->). cbn [w_db w_ticks].
  pose proof (request_row_of _ _ _ _ Hr) as Hof. apply request_row_spec in Hr as (Hi & Hts & Hset & Hnn & _).
  apply reserve_tx_run in Ht as (_ & -> & -> & -> & -> & _ & (s1 & Hb1 & ->) & P). cbn [w_db w_ticks] in *.
  assert (HU : s_usage s1 = s_usage (w_db w)) by exact (f_equal s_usage Hb1).
  assert (HC : s_calls s1 = s_calls (w_db w)) by exact (f_equal s_calls Hb1).
  assert (Hc1 : counts_ok s1) by (unfold counts_ok, usage_ok; rewrite HU, HC; exact Hc).
  exists r. split; [|split; [exact HU|split; [exact Hof|split_and!; try done]]].
  - exact (f_equal (fun s => s_calls s ++ [r]) Hb1).
  - intros l h b m Hl Hh Hb Hm.
    assert (Hl' : l ∈ port_limits (w_db w) r (amountsOf r)) by (rewrite <- base_limits, <- Hb1; exact Hl).
    destruct (P l h Hl' Hh) as (u & (b' & m' & Hb' & Hm' & Hu) & Hle).
    rewrite <- (base_bounds valid_zone localDate defaultZone (w_db w)), <- Hb1 in Hb'. rewrite Hts in Hb.
    assert (b' = b) as -> by (enough (@Ok Fault _ b' = Ok b) as [=] by done; rewrite <- Hb, <- Hb'; reflexivity).
    apply use_at_in_use in Hu as [Hu _]; [|exact Hc].
    rewrite <- base_in_use, <- Hb1, base_in_use in Hu. unfold in_use in *. rewrite settled_add by done.
    assert (Hcl : clk m' - ttl <= clk m - ttl) by (assert (clk m' <= clk m) by (apply Hclk; lia); lia).
    pose proof (reserved_add s1 l r (clk m' - ttl) (clk m - ttl) Hc1 Hnn Hcl). lia.
Qed.
