(* ===== verification/BudgetCallsRun.v ===== *)
(** * The call budget: settlement, release, expiry

    Over any sequence of calls on the port, the ledger rows of the port are
    exactly its settled calls, each accounted for once with what was used; a
    second settlement changes nothing; recovery removes exactly the stale
    reservations. *)

From Stdlib Require Import QArith.
From S2P Require Import Prelude Double BudgetPeriod BudgetStore BudgetLedger BudgetLedgerSpec BudgetCalls BudgetCallsSpec.
#[local] Open Scope Z_scope.

(** ** The books of the port *)

(** The ledger row that accounts for a call. *)
Definition accounts (u : UsageRow) (r : CallRow) : Prop :=
  ue_request u = Some (ledger_id (r_id r)) /\ ue_input u + ue_output u = r_tokens r /\ ue_images u = r_images r /\
  ue_video u = r_video r /\ ue_ts u = r_ts r /\ ue_agent u = r_agent r.

Record books (s : Store) : Prop := {
  bk_ids : NoDup (map r_id (s_calls s));
  bk_counts : counts_ok s;
  bk_settled : forall r, r ∈ s_calls s -> r_settled r = true -> exists u, u ∈ s_usage s /\ accounts u r;
  bk_ledger : forall u x, u ∈ s_usage s -> ue_request u = Some (ledger_id x) -> exists r, r ∈ s_calls s /\ r_settled r = true /\ r_id r = x /\ accounts u r
}.

Lemma ledger_id_inj x y : ledger_id x = ledger_id y -> x = y.
Proof. intros H. injection H as H. exact H. Qed.

Lemma books_ext s s' : s_calls s' = s_calls s -> s_usage s' = s_usage s -> books s -> books s'.
Proof.
  intros EC EU [H1 H2 H3 H4]. split; rewrite ?EC, ?EU; try done. unfold counts_ok, usage_ok. by rewrite EC, EU.
Qed.

Lemma id_unique (l : list CallRow) r r' : NoDup (map r_id l) -> r ∈ l -> r' ∈ l -> r_id r = r_id r' -> r = r'.
Proof.
  induction l as [|x l IH]; intros Hn Hr Hr' E; [by apply elem_of_nil in Hr|]. cbn [map] in Hn. apply list.NoDup_cons in Hn as [Hx Hn].
  apply elem_of_cons in Hr as [->|Hr], Hr' as [->|Hr']; [done| | |by apply IH]; exfalso; apply Hx, elem_of_map; [exists r'|exists r]; done.
Qed.

Lemma request_unique (l : list UsageRow) u v q : NoDup (omap ue_request l) -> u ∈ l -> v ∈ l ->
  ue_request u = Some q -> ue_request v = Some q -> u = v.
Proof.
  induction l as [|x l IH]; intros Hn Hu Hv Eu Ev; [by apply elem_of_nil in Hu|]. cbn [omap list_omap] in Hn.
  assert (Hrest : forall y, y ∈ l -> ue_request y = Some q -> q ∈ omap ue_request l) by (intros y Hy Ey; apply list_elem_of_omap; eauto).
  apply elem_of_cons in Hu as [->|Hu], Hv as [->|Hv]; [done| | |].
  - rewrite Eu in Hn. apply list.NoDup_cons in Hn as [Hn _]. by destruct Hn; apply (Hrest v).
  - rewrite Ev in Hn. apply list.NoDup_cons in Hn as [Hn _]. by destruct Hn; apply (Hrest u).
  - apply IH; [|done|done|done|done]. destruct (ue_request x); [by apply list.NoDup_cons in Hn as [_ Hn]|done].
Qed.

(** A reservation with a new id. *)
Lemma books_reserve s r : books s -> call_nonneg r -> r_settled r = false -> (forall x, x ∈ s_calls s -> r_id x <> r_id r) ->
  books (with_call r s).
Proof.
  intros [H1 [H2 H2'] H3 H4] Hn Hs Hid. split; cbn [with_call set_calls s_calls s_usage].
  - rewrite map_app. apply list.NoDup_app. split; [done|]. split; [|apply NoDup_singleton].
    intros x (y & -> & Hy)%elem_of_map Hx. cbn in Hx. apply list_elem_of_singleton in Hx. by apply (Hid y).
  - split; [exact H2|]. intros x [Hx|Hx%list_elem_of_singleton]%elem_of_app; [by apply H2'|by subst].
  - intros x [Hx|Hx%list_elem_of_singleton]%elem_of_app Hset; [by apply H3|congruence].
  - intros u x Hu Hq. destruct (H4 u x Hu Hq) as (y & Hy & Hrest). exists y. split; [apply elem_of_app; by left|done].
Qed.

(** Dropping pending reservations. *)
Lemma books_drop s p : books s -> (forall r, p r = false -> r_settled r = false) -> books (set_calls (bfilter p) s).
Proof.
  intros [H1 [H2 H2'] H3 H4] Hp. split; cbn [set_calls s_calls s_usage].
  - revert H1. clear. induction (s_calls s) as [|x l IH]; [done|]. cbn [map]. intros [Hx Hl]%list.NoDup_cons.
    unfold bfilter in *. cbn [List.filter]. destruct (p x); [|by apply IH]. cbn [map]. apply list.NoDup_cons. split; [|by apply IH].
    intros (y & E & Hy)%elem_of_map. apply Hx, elem_of_map. exists y. split; [done|]. by apply (bfilter_elem p) in Hy as [Hy _].
  - split; [exact H2|]. intros x [Hx _]%bfilter_elem. by apply H2'.
  - intros x [Hx _]%bfilter_elem. by apply H3.
  - intros u x Hu Hq. destruct (H4 u x Hu Hq) as (y & Hy & Hs & Hrest). exists y. split; [|done]. apply bfilter_elem. split; [done|].
    destruct (p y) eqn:E; [done|]. apply Hp in E. congruence.
Qed.

Definition settle_call (r : CallRow) (tokens : Z) (u : Actual) : Store -> Store :=
  set_calls (map (fun x => if String.eqb (r_id x) (r_id r) then settled_row tokens (ac_images u) (ac_video u) x else x)).

Definition actual_nonneg (u : Actual) : Prop :=
  0 <= ac_input u /\ 0 <= ac_output u /\ 0 <= ac_read u /\ 0 <= ac_write u /\ 0 <= ac_images u /\ 0 <= ac_video u.

(** Settling a pending call and writing its ledger row. *)
Lemma books_settle s r u : books s -> actual_nonneg u -> r ∈ s_calls s -> r_settled r = false -> has_request (Some (ledger_id (r_id r))) s = false ->
  books (set_usage (fun l => l ++ [ledger_row r u]) (settle_call r (ac_input u + ac_output u) u s)).
Proof.
  intros [H1 [H2 H2'] H3 H4] Hu Hr Hset Hq. set (tokens := ac_input u + ac_output u).
  set (g := fun x => if String.eqb (r_id x) (r_id r) then settled_row tokens (ac_images u) (ac_video u) x else x).
  assert (Gid : forall x, r_id (g x) = r_id x) by (intros x; unfold g; by destruct (String.eqb _ _)).
  assert (Gr : g r = settled_row tokens (ac_images u) (ac_video u) r) by (unfold g; by rewrite String.eqb_refl).
  assert (Go : forall x, x ∈ s_calls s -> x <> r -> g x = x).
  { intros x Hx Hne. unfold g. destruct (String.eqb (r_id x) (r_id r)) eqn:E; [|done]. bool_hyps. exfalso. by apply Hne, (id_unique (s_calls s)). }
  assert (Hacc : accounts (ledger_row r u) (g r)) by (rewrite Gr; unfold accounts, ledger_row, settled_row; cbn; done).
  set (s1 := set_usage _ _). assert (EC : s_calls s1 = map g (s_calls s)) by reflexivity.
  assert (EU : s_usage s1 = s_usage s ++ [ledger_row r u]) by reflexivity.
  assert (Hus : usage_ok s1).
  { apply (usage_ok_add s); [exact H2| |exact Hq]. unfold row_nonneg, ledger_row. cbn. unfold actual_nonneg in Hu. lia. }
  clearbody s1. split; rewrite ?EC, ?EU.
  - rewrite map_map. rewrite (map_ext _ r_id); [done|exact Gid].
  - split; [exact Hus|]. rewrite EC. intros x (y & -> & Hy)%elem_of_map. destruct (decide (y = r)) as [->|Hne].
    + rewrite Gr. unfold call_nonneg, settled_row. cbn. unfold actual_nonneg, tokens in *. lia.
    + rewrite Go by done. by apply H2'.
  - intros x (y & -> & Hy)%elem_of_map Hs. destruct (decide (y = r)) as [->|Hne].
    + exists (ledger_row r u). split; [|done]. apply elem_of_app. right. by apply list_elem_of_singleton.
    + rewrite Go in Hs |- * by done. destruct (H3 y Hy Hs) as (v & Hv & Ha). exists v. split; [apply elem_of_app; by left|done].
  - intros v x [Hv|Hv%list_elem_of_singleton]%elem_of_app Hx.
    + destruct (H4 v x Hv Hx) as (y & Hy & Hs & Hi & Ha). exists y. split; [|done]. apply elem_of_map. exists y. split; [|done].
      symmetry. apply Go; [done|]. intros ->. congruence.
    + subst v. assert (Ex : r_id r = x) by (apply ledger_id_inj; unfold ledger_row in Hx; cbn [ue_request] in Hx; congruence). exists (g r).
      split; [apply elem_of_map; by exists r|]. rewrite Gid. split; [by rewrite Gr|]. by split.
Qed.

Lemma count_or_zero v z : call_count (or_else v (JNum (Fin 0))) = Ok z -> 0 <= z.
Proof. intros H. apply count_ok in H. lia. Qed.

Lemma actual_of_nonneg a u : actual_of a = Ok u -> actual_nonneg u.
Proof.
  unfold actual_of. intros H. apply rbind_ok in H as (? & _ & H). apply rbind_ok in H as (i & Hi & H). apply rbind_ok in H as (o & Ho & H).
  apply rbind_ok in H as (cr & Hcr & H). apply rbind_ok in H as (cw & Hcw & H). apply rbind_ok in H as (im & Him & H).
  apply rbind_ok in H as (vs & Hvs & H). injection H as <-. apply count_ok in Hi, Ho. apply count_or_zero in Hcr, Hcw, Him, Hvs.
  unfold actual_nonneg. cbn. lia.
Qed.

Section port_run.
Context (clk : nat -> Z) (idGen : nat -> string) (valid_zone : string -> bool) (localDate : Z -> string -> LocalDate)
        (defaultZone : string) (ttl : Z).
Notation W := (World CallBudgetEvent).
Notation settle_tx' := (settle_tx clk valid_zone localDate defaultZone ttl).
Notation settle' := (settle clk valid_zone localDate defaultZone ttl).

(** A settlement by its answer. *)
Lemma settle_tx_run i u (w w' : W) st out : actual_nonneg u -> settle_tx' i u w = (Ok (st, out), w') ->
  w_sent w' = w_sent w /\ exists r, bfind (fun r => String.eqb (r_id r) i) (s_calls (w_db w)) = Some r /\ recorded st = negb (r_settled r) /\
  if r_settled r then w' = w /\ out = [] /\ st = {| recorded := false; overages := [] |}
  else has_request (Some (ledger_id (r_id r))) (w_db w) = false /\
       base (w_db w') = base (set_usage (fun l => l ++ [ledger_row r u]) (settle_call r (ac_input u + ac_output u) u (w_db w))).
Proof.
  intros Hu H. unfold settle_tx in H. erewrite (SE_bind_run (query _)) in H by reflexivity. cbv beta in H.
  destruct (bfind _ _) as [r|] eqn:Ef; [|done]. destruct (r_settled r) eqn:Es.
  { injection H as <- <- <-. split; [done|]. exists r. rewrite Es. done. }
  rewrite lift_bind in H. destruct (nat_count (jadd (ac_input u) (ac_output u))) as [tokens|] eqn:Et; [|done].
  apply nat_count_ok in Et as (-> & Hsafe & _). cbv zeta in H.
  erewrite (SE_bind_run (update _)) in H by reflexivity. erewrite (SE_bind_run (query _)) in H by reflexivity. cbn [w_db] in H.
  rewrite (jadd_safe_lower (ac_input u) (ac_output u)) in H; [|unfold actual_nonneg in Hu; lia|exact Hsafe].
  fold (settle_call r (ac_input u + ac_output u) u (w_db w)) in H.
  change (has_request (Some (ledger_id (r_id r))) (settle_call r (ac_input u + ac_output u) u (w_db w))) with (has_request (Some (ledger_id (r_id r))) (w_db w)) in H.
  destruct (has_request _ (w_db w)) eqn:Eh; [done|].
  erewrite (SE_bind_run (update _)) in H by reflexivity. cbn [w_db w_ticks w_sent] in H.
  unfold mbind at 1, SE_bind at 1 in H. destruct (warnings _ _ _ _ _ _ _ _ _ _) as [[ws|] w1] eqn:Ew; [|done].
  apply warnings_run in Ew as (B1 & S1 & _). cbn [w_db w_sent] in B1, S1.
  unfold mbind, SE_bind in H. destruct (breaches _ _ _ _ _ _ _ _ _ w1) as [[os|] w2] eqn:Eb; [|done].
  apply breaches_run in Eb as (D2 & S2 & _). injection H as <- <- <-.
  split; [congruence|]. exists r. rewrite Es. split; [done|]. split; [done|]. split; [done|]. by rewrite D2.
Qed.

(** A settlement as a whole. *)
Lemma settle_run i a (w : W) :
  let '(res, w') := settle' i a w in
  match res with
  | Err _ => w_db w' = w_db w
  | Ok st => exists r u, i = JStr (r_id r) /\ actual_of a = Ok u /\ bfind (fun x => String.eqb (r_id x) (r_id r)) (s_calls (w_db w)) = Some r /\
      recorded st = negb (r_settled r) /\
      if r_settled r then w_db w' = w_db w /\ w_sent w' = w_sent w
      else has_request (Some (ledger_id (r_id r))) (w_db w) = false /\
           base (w_db w') = base (set_usage (fun l => l ++ [ledger_row r u]) (settle_call r (ac_input u + ac_output u) u (w_db w)))
  end.
Proof.
  unfold settle. rewrite lift_bind. destruct (call_id i) as [i'|] eqn:Ei; [|done].
  rewrite lift_bind. destruct (actual_of a) as [u|] eqn:Ea; [|done]. pose proof (actual_of_nonneg a u Ea) as Hu.
  unfold mbind at 1, SE_bind at 1, transaction. destruct (settle_tx' i' u w) as [[[st out]|f] w1] eqn:Et; [|done].
  apply settle_tx_run in Et as (S1 & r & Ef & Er & Hr); [|exact Hu].
  rewrite (SE_bind_run _ _ _ _ _ (each_emit out w1)). cbn [fst snd].
  assert (Hi : i = JStr (r_id r)).
  { unfold call_id, ident in Ei. destruct i as [| | | |s| |]; try done. destruct (id_ok s); [|done]. injection Ei as ->.
    apply bfind_some in Ef as [_ Ef]. bool_hyps. by rewrite Ef. }
  assert (Hi' : i' = r_id r) by (subst i; unfold call_id, ident in Ei; destruct (id_ok (r_id r)); [by injection Ei|done]). subst i'.
  rewrite Er. destruct (r_settled r) eqn:Es; cbn [negb].
  - destruct Hr as (-> & -> & ->). cbn. exists r, u. rewrite Es. split_and!; try done. by rewrite app_nil_r.
  - rewrite (SE_bind_run (emit _) _ _ tt _ eq_refl). cbn. exists r, u. rewrite Es. split_and!; try done; apply Hr.
Qed.

Notation K := (keeps (E := Fault) (fun w : W => books (w_db w))).

Lemma base_books s s' : base s' = base s -> books s -> books s'.
Proof. intros H. apply books_ext; [exact (f_equal s_calls H)|exact (f_equal s_usage H)]. Qed.

Lemma keeps_check q : K (checkBeforeCall clk idGen valid_zone localDate defaultZone ttl q).
Proof.
  intros w Hw. destruct (checkBeforeCall _ _ _ _ _ _ q w) as [[d|f] w'] eqn:E.
  - apply check_tx in E as (r & out & w2 & Hr & Ht & ->). cbn [w_db]. apply request_row_spec in Hr as (_ & _ & Hs & Hn & _).
    apply reserve_tx_run in Ht as (_ & Hd). destruct d as [i t im vs|f].
    + destruct Hd as (_ & _ & _ & _ & Hid & (s1 & Hb & ->) & _). cbn [w_db] in *.
      assert (Hw1 : books s1) by (by eapply base_books). apply books_reserve; [done|done|done|].
      intros x Hx. apply Hid. by rewrite <- (f_equal s_calls Hb : s_calls s1 = s_calls (w_db w)).
    + destruct Hd as (-> & _). exact Hw.
  - revert E. unfold checkBeforeCall. rewrite lift_bind. destruct (request_ids q); [|by intros [= _ <-]].
    erewrite (SE_bind_run (gets _)) by reflexivity. erewrite (SE_bind_run (clock_now clk)) by reflexivity. cbv beta. rewrite lift_bind.
    destruct (request_row q _ _) as [r|]; [|by intros [= _ <-]]. unfold mbind at 1, SE_bind at 1, transaction.
    destruct (reserve_tx _ _ _ _ _ _ _ _) as [[[d out]|g] w2]; [|by intros [= _ <-]].
    by rewrite (SE_bind_run _ _ _ _ _ (each_emit out w2)).
Qed.

Lemma keeps_settle i a : K (settle' i a).
Proof.
  intros w Hw. pose proof (settle_run i a w) as H. destruct (settle' i a w) as [[st|f] w']; [|by rewrite H].
  destruct H as (r & u & -> & Ha & Hf & _ & Hr). destruct (r_settled r) eqn:Es; [destruct Hr as [-> _]; exact Hw|].
  destruct Hr as [Hq Hb]. eapply base_books; [exact Hb|]. apply bfind_some in Hf as [Hin _].
  apply books_settle; [done|by eapply actual_of_nonneg|done|done|done].
Qed.

Lemma keeps_expired : K (expiredBefore clk ttl).
Proof. unfold expiredBefore. keeps_tac. Qed.
#[local] Hint Resolve keeps_expired : keeps.

Lemma keeps_reconcile : K (reconcileExpired clk ttl).
Proof.
  unfold reconcileExpired. apply keeps_bind; [apply db_transaction|intros rows; keeps_tac].
  apply keeps_bind; [apply keeps_expired|intros cutoff]. apply keeps_bind; [apply db_query|intros stale].
  apply keeps_bind; [|intros _; apply keeps_ret]. apply db_update. intros s Hs. apply books_drop; [exact Hs|].
  intros r. destruct (existsb _ stale); cbn [andb]; [|done]. by destruct (r_settled r).
Qed.

Lemma keeps_release i : K (releaseUnused i).
Proof.
  unfold releaseUnused. apply keeps_bind; [apply db_lift|intros x]. apply keeps_bind; [apply db_query|intros hit].
  apply keeps_bind; [|intros _; keeps_tac]. apply db_update. intros s Hs. apply books_drop; [exact Hs|].
  intros r Hr. apply negb_false_iff in Hr. unfold is_reserved in Hr. by bool_hyps.
Qed.

Lemma keeps_limit l : K (setCallLimit l).
Proof. unfold setCallLimit. keeps_tac. apply db_update. intros s Hs. by apply (books_ext s). Qed.

Lemma keeps_open : K (open_port clk ttl).
Proof.
  unfold open_port. apply keeps_bind; [apply db_transaction|intros _].
  - apply keeps_bind; [apply db_query|intros sc]. apply keeps_bind; [apply keeps_require|intros _].
    apply db_update. intros s Hs. by apply (books_ext s).
  - apply keeps_bind; [apply keeps_require|intros _; apply keeps_reconcile].
Qed.

Lemma port_step_books c (w : W) : books (w_db w) -> books (w_db (port_step clk idGen valid_zone localDate defaultZone ttl w c)).
Proof.
  intros Hw. destruct c; cbn [port_step].
  - exact (keeps_state _ _ _ (keeps_check q) Hw).
  - exact (keeps_state _ _ _ (keeps_settle i a) Hw).
  - exact (keeps_state _ _ _ (keeps_release i) Hw).
  - exact (keeps_state _ _ _ keeps_reconcile Hw).
  - exact (keeps_state _ _ _ (keeps_limit l) Hw).
  - by apply (books_ext (w_db w)).
  - assert (K' : K (reservation clk ttl i)) by (unfold reservation; keeps_tac). exact (keeps_state _ _ _ K' Hw).
  - assert (K' : K (pendingReservations clk ttl)) by (unfold pendingReservations; keeps_tac). exact (keeps_state _ _ _ K' Hw).
  - exact (keeps_state _ _ _ keeps_open Hw).
Qed.

Lemma port_run_books cs (w : W) : books (w_db w) -> books (w_db (port_run clk idGen valid_zone localDate defaultZone ttl cs w)).
Proof.
  revert w. induction cs as [|c cs IH]; intros w Hw; [done|]. cbn. apply IH. by apply port_step_books.
Qed.
End port_run.

(** The port's books balance.  Starting with no calls and with a ledger of
    other rows, after any sequence of checks, settlements, releases, recoveries
    and changes of limits: no two calls share an id; a call is settled if and only
    if the ledger holds a row of the port for it, that row is unique, and it
    carries the call's instant and agent and exactly the tokens, images and
    seconds the call was settled with. *)
Theorem port_books_balance clk idGen valid_zone localDate defaultZone ttl cs (w0 : World CallBudgetEvent) :
  s_calls (w_db w0) = [] -> usage_ok (w_db w0) -> (forall u x, u ∈ s_usage (w_db w0) -> ue_request u <> Some (ledger_id x)) ->
  let s := w_db (port_run clk idGen valid_zone localDate defaultZone ttl cs w0) in
  NoDup (map r_id (s_calls s)) /\
  (forall r, r ∈ s_calls s ->
    (r_settled r = true <-> exists u, u ∈ s_usage s /\ ue_request u = Some (ledger_id (r_id r)))) /\
  (forall r u, r ∈ s_calls s -> u ∈ s_usage s -> ue_request u = Some (ledger_id (r_id r)) -> accounts u r) /\
  (forall x u v, u ∈ s_usage s -> v ∈ s_usage s -> ue_request u = Some (ledger_id x) -> ue_request v = Some (ledger_id x) -> u = v).
Proof.
  intros Hc Hu Hl. assert (B0 : books (w_db w0)).
  { split; rewrite ?Hc; [constructor| |intros r Hr; by apply elem_of_nil in Hr|intros u x Hin Hx; by apply Hl in Hx].
    split; [done|]. rewrite Hc. intros r Hr. by apply elem_of_nil in Hr. }
  cbv zeta. destruct (port_run_books clk idGen valid_zone localDate defaultZone ttl cs w0 B0) as [H1 H2 H3 H4].
  set (s := w_db (port_run _ _ _ _ _ _ _ _)) in *.
  assert (Hacc : forall r u, r ∈ s_calls s -> u ∈ s_usage s -> ue_request u = Some (ledger_id (r_id r)) -> r_settled r = true /\ accounts u r).
  { intros r u Hr Hin Hq. destruct (H4 u (r_id r) Hin Hq) as (y & Hy & Hs & Hi & Ha).
    by assert (y = r) as -> by by apply (id_unique (s_calls s)). }
  split_and!; [done| |intros r u Hr Hin Hq; by apply Hacc|].
  - intros r Hr. split.
    + intros Hs. destruct (H3 r Hr Hs) as (u & Hin & Ha). exists u. split; [done|]. apply Ha.
    + intros (u & Hin & Hq). by apply (Hacc r u).
  - intros x u v Hin Hv Hq Hq'. by apply (request_unique (s_usage s) u v (ledger_id x)); [apply H2| | | |].
Qed.

(** Settlement is once and exact.  Settling a pending call marks exactly that
    call settled with what was used, appends exactly its ledger row and touches
    no other call, row, limit or setting; settling a settled call answers that
    nothing was recorded and changes neither the database nor what the sink has
    seen; a settlement that throws changes nothing. *)
Theorem settlement_once clk valid_zone localDate defaultZone ttl i a (w : World CallBudgetEvent) :
  let '(res, w') := settle clk valid_zone localDate defaultZone ttl i a w in
  match res with
  | Err _ => w_db w' = w_db w
  | Ok st => exists r u, i = JStr (r_id r) /\ actual_of a = Ok u /\ r ∈ s_calls (w_db w) /\ recorded st = negb (r_settled r) /\
      if r_settled r then w_db w' = w_db w /\ w_sent w' = w_sent w
      else
        (forall v, v ∈ s_usage (w_db w) -> ue_request v <> Some (ledger_id (r_id r))) /\
        s_usage (w_db w') = s_usage (w_db w) ++ [ledger_row r u] /\
        s_calls (w_db w') = map (fun x => if String.eqb (r_id x) (r_id r)
                                          then settled_row (ac_input u + ac_output u) (ac_images u) (ac_video u) x else x) (s_calls (w_db w)) /\
        s_limits (w_db w') = s_limits (w_db w) /\ s_callLimits (w_db w') = s_callLimits (w_db w) /\
        storedCacheReadWeight (w_db w') = storedCacheReadWeight (w_db w)
  end.
Proof.
  pose proof (settle_run clk valid_zone localDate defaultZone ttl i a w) as H.
  destruct (settle _ _ _ _ _ i a w) as [[st|f] w']; [|exact H].
  destruct H as (r & u & Hi & Ha & Hf & Hr & H). exists r, u. apply bfind_some in Hf as [Hin _].
  split_and!; try done. destruct (r_settled r); [exact H|]. destruct H as [Hq Hb].
  split.
  { intros v Hv Ev. apply not_true_iff_false in Hq. apply Hq, has_request_spec, list_elem_of_omap. eauto. }
  split; [exact (f_equal s_usage Hb)|]. split; [exact (f_equal s_calls Hb)|]. split; [exact (f_equal s_limits Hb)|].
  split; [exact (f_equal s_callLimits Hb)|exact (f_equal storedCacheReadWeight Hb)].
Qed.

(** What recovery takes: pending calls older than the time to live. *)
Definition stale (cutoff : Z) (r : CallRow) : bool := negb (r_settled r) && (r_ts r <? cutoff).

(** Recovery releases exactly the stale reservations: with distinct call ids,
    at the instant it reads, every pending call older than the time to live is
    removed and announced once, in order, every other call and the rest of the
    database stay as they were, and the answer is their number. *)
Theorem recovery_exact clk ttl (w : World CallBudgetEvent) :
  NoDup (map r_id (s_calls (w_db w))) ->
  let gone := bfilter (stale (clk (w_ticks w) - ttl)) (s_calls (w_db w)) in
  reconcileExpired clk ttl w =
  (Ok (Z.of_nat (length gone)),
   {| w_db := set_calls (bfilter (fun r => negb (stale (clk (w_ticks w) - ttl) r))) (w_db w);
      w_ticks := S (w_ticks w);
      w_sent := w_sent w ++ map (fun r => EExpire (r_id r) (r_tokens r) (r_images r) (r_video r) (r_ts r)) gone |}).
Proof.
  intros Hn gone. unfold reconcileExpired. set (cutoff := clk (w_ticks w) - ttl) in *.
  assert (Eb : bfilter (fun r => negb (existsb (fun x => String.eqb (r_id x) (r_id r)) gone && negb (r_settled r))) (s_calls (w_db w))
             = bfilter (fun r => negb (stale cutoff r)) (s_calls (w_db w))).
  { unfold bfilter. apply List.filter_ext_in. intros r Hr. f_equal. apply list_elem_of_In in Hr.
    destruct (stale cutoff r) eqn:E.
    - assert (Hg : r ∈ gone) by (by apply bfilter_elem). apply andb_true_iff. unfold stale in E. bool_hyps.
      rewrite negb_true_iff. split; [|done]. apply existsb_elem. exists r. split; [done|apply String.eqb_refl].
    - apply andb_false_iff. destruct (existsb _ gone) eqn:Ex; [right|by left]. apply existsb_elem in Ex as (x & Hx & Ei). bool_hyps.
      apply bfilter_elem in Hx as [Hx Hst]. assert (x = r) as -> by by apply (id_unique (s_calls (w_db w))). congruence. }
  assert (Ee : forall l w1, each (fun r => emit (EExpire (r_id r) (r_tokens r) (r_images r) (r_video r) (r_ts r))) l w1 =
    (Ok tt, {| w_db := w_db w1; w_ticks := w_ticks w1; w_sent := w_sent w1 ++ map (fun r => EExpire (r_id r) (r_tokens r) (r_images r) (r_video r) (r_ts r)) l |})).
  { induction l as [|x l IH]; intros w1; cbn [each map]; [by rewrite app_nil_r; destruct w1|].
    rewrite (SE_bind_run (emit _) _ _ tt _ eq_refl), IH. cbn. by rewrite <- app_assoc. }
  unfold transaction, expiredBefore, clock_now, query, gets, update, modify, mbind, SE_bind, mret, SE_ret. cbv beta iota.
  cbn [w_db w_ticks w_sent]. fold cutoff.
  change (bfilter (fun r => negb (r_settled r) && (r_ts r <? cutoff)) (s_calls (w_db w))) with gone.
  rewrite Ee. cbn [w_db w_ticks w_sent]. unfold set_calls. rewrite Eb. reflexivity.
Qed.

(** ** Concrete instances: a day of 1000 tokens, one call of 700 *)

Definition demo_day : CallLimitRow :=
  {| cl_scope := Global; cl_id := ""; cl_period := Day; cl_metric := Some Tokens; cl_hard := 1000; cl_soft := 800 |}.
Definition demo_port : World CallBudgetEvent :=
  {| w_db := set_callLimits (fun _ => [demo_day]) empty_store; w_ticks := 0; w_sent := [] |}.
Definition demo_ticks (n : nat) : Z := 1790000000000 + Z.of_nat n.
Definition demo_ids (n : nat) : string := "call-" +:+ digits 4 (Z.of_nat n).
Definition demo_request : js :=
  JObj [("principal", JStr "p"); ("agent", JStr "a"); ("project", JStr "x"); ("model", JStr "m");
        ("estimatedInputTokens", JNum (Fin 600)); ("maxOutputTokens", JNum (Fin 100))].
Definition demo_calls_run : list port_call :=
  [PCheck demo_request; PSettle (JStr "call-0000") (JObj [("inputTokens", JNum (Fin 500)); ("outputTokens", JNum (Fin 50))]); PCheck demo_request].

Lemma demo_counts : counts_ok (w_db demo_port).
Proof. split; [split; [intros u Hu; by apply elem_of_nil in Hu|constructor]|intros r Hr; by apply elem_of_nil in Hr]. Qed.

Lemma reservation_within_limits_witness : exists i w',
  checkBeforeCall demo_ticks demo_ids (fun _ => true) demo_zone "UTC" 60000 demo_request demo_port = (Ok (Allow i 700 0 0), w') /\
  exists r, s_calls (w_db w') = [r] /\
    in_use (w_db w') {| q_scope := Global; q_id := ""; q_period := Day; q_metric := Tokens; q_hard := Some 1000; q_soft := 800 |}
      (1789954200000, 1790040600000, "2026-09-21") (demo_ticks 9 - 60000) <= 1000.
Proof.
  eexists _, _. split; [vm_compute; reflexivity|].
  edestruct (reservation_within_limits demo_ticks demo_ids (fun _ => true) demo_zone "UTC" 60000 demo_request demo_port)
    as (r & Hr & _ & _ & _ & _ & Hi & _ & Ht & _ & _ & H); [intros n m Hnm; unfold demo_ticks; lia|exact demo_counts|vm_compute; reflexivity|].
  exists r. split; [exact Hr|]. injection Hr as <-. 
  eapply H; [vm_compute; left|reflexivity|vm_compute; reflexivity|cbn; lia].
Defined.

Lemma port_books_balance_witness :
  let s := w_db (port_run demo_ticks demo_ids (fun _ => true) demo_zone "UTC" 60000 demo_calls_run demo_port) in
  length (s_usage s) = 1%nat /\ length (s_calls s) = 1%nat /\ NoDup (map r_id (s_calls s)).
Proof.
  split; [vm_compute; reflexivity|]. split; [vm_compute; reflexivity|].
  apply (port_books_balance demo_ticks demo_ids (fun _ => true) demo_zone "UTC" 60000 demo_calls_run demo_port);
    [reflexivity|apply demo_counts|intros u x Hu; by apply elem_of_nil in Hu].
Defined.

Definition demo_stale : World CallBudgetEvent :=
  {| w_db := set_calls (fun _ => [{| r_id := "old"; r_principal := "p"; r_project := "x"; r_agent := "a"; r_model := "m"; r_provider := "";
                                     r_turn := ""; r_session := ""; r_ts := 0; r_tokens := 5; r_images := 0; r_video := 0; r_settled := false |}]) empty_store;
     w_ticks := 0; w_sent := [] |}.

Lemma recovery_exact_witness : fst (reconcileExpired demo_ticks 60000 demo_stale) = Ok 1.
Proof.
  rewrite (recovery_exact demo_ticks 60000 demo_stale); [vm_compute; reflexivity|]. cbn. apply NoDup_singleton.
Defined.
