(* ===== verification/ApprovalChain.v ===== *)
(** * The approval chain

    Model of [packages/core/src/approvals/chain.ts]: the append-only event log
    whose entries carry the MAC of their predecessor, the keyed head row that pins
    the newest one, the verification of the whole chain with its binding and
    replay rules, and the append that refuses a broken chain.  The keyed hash, the
    signatures and the texts of JSON values are parameters; the cache of verified
    views is not modelled, every read verifies. *)

From S2P Require Import Prelude.

(** ** Data *)

(* @src approvals/chain.ts 15 17 ChainEntry *)
Record ChainEntry {Text : Type} : Type := {
  e_seq : Z; e_ts : Z; e_kind : string; e_ref : string; e_nonce : option string; e_payload : Text; e_prev : string; e_mac : string
}.
Arguments ChainEntry : clear implicits.

(* @src approvals/chain.ts 19 21 VerifyFailure *)
Inductive VerifyFailure : Type :=
  SeqGap | PrevMismatch | MacMismatch | Truncated | HeadMismatch | Malformed | NonceReuse | BindingMismatch | Duplicate | SignatureMismatch.
#[export] Instance VerifyFailure_eq_dec : EqDecision VerifyFailure.
Proof. solve_decision. Defined.

(* @src approvals/chain.ts 23 23 SignatureReport *)
Inductive SignatureReport : Type := Unsigned | SignedOk | SignedBad.
(* @src approvals/chain.ts 24 29 SignatureSummary *)
Record SignatureSummary : Type := { unsignedLegacy : Z; signedOk : Z; signedBad : Z; report : SignatureReport }.
(* @src approvals/chain.ts 31 31 EMPTY_SIGNATURES *)
Definition EMPTY_SIGNATURES : SignatureSummary := {| unsignedLegacy := 0; signedOk := 0; signedBad := 0; report := Unsigned |}.

(* @src approvals/chain.ts 33 35 VerifyResult *)
Inductive VerifyResult : Type :=
| Verified (entries : Z) (head : option (Z * string)) (signatures : SignatureSummary)
| Broken (entries brokenAt : Z) (reason : VerifyFailure) (signatures : SignatureSummary).

Definition result_ok (r : VerifyResult) : bool := match r with Verified _ _ _ => true | Broken _ _ _ _ => false end.

(** [trustedBelow] is [None] for the infinity of a chain that verifies. *)
(* @src approvals/chain.ts 37 43 ChainSnapshot *)
Record ChainSnapshot {Text : Type} : Type := { s_result : VerifyResult; s_entries : list (ChainEntry Text); trustedBelow : option Z }.
Arguments ChainSnapshot : clear implicits.

(* @src approvals/chain.ts 118 119 #build *)
Definition byRef {Text} (id : string) (s : ChainSnapshot Text) : list (ChainEntry Text) :=
  bfilter (fun e => String.eqb (e_ref e) id) (s_entries s).

(** [e.seq < snap.trustedBelow] *)
Definition trusted {Text} (s : ChainSnapshot Text) (e : ChainEntry Text) : bool :=
  match trustedBelow s with None => true | Some b => e_seq e <? b end.

Record SignatureRow : Type := { sg_seq : Z; sg_public : string; sg_signature : string }.
Record DecisionSigner : Type := { publicKey : string; sign_mac : string -> string }.

(** The three tables of the chain; rows are in the order they were inserted. *)
Record ChainDb {Text : Type} : Type := { c_rows : list (ChainEntry Text); c_head : option (Z * string * string); c_sigs : list SignatureRow }.
Arguments ChainDb : clear implicits.

Definition empty_chain {Text} : ChainDb Text := {| c_rows := []; c_head := None; c_sigs := [] |}.

(** What a call on this database throws: the broken chain, a constraint of a table, or
    an error of the caller's own kind. *)
(* @src approvals/chain.ts 45 55 ApprovalChainError *)
Inductive Fault {X : Type} : Type := ChainBroken (brokenAt : Z) (reason : VerifyFailure) | Sql | Own (x : X).
Arguments Fault : clear implicits.

(* @src approvals/chain.ts 13 13 GENESIS_MAC *)
Definition GENESIS_MAC : string := of_chars (repeat (Ascii.ascii_of_nat 48) 64).

(** The tuple of seven strings, or nothing when one is missing; [subject] is read
    only when it is there. *)
(* @src approvals/chain.ts 63 69 bindingTuple *)
Definition bindingTuple (b : js) : option (list string) :=
  match b with
  | JObj _ | JArr _ =>
      let s := jget "subject" b in
      mapM js_opt_str [jget "actionHash" b; jget "principal" b; jget "kind" s; jget "id" s; jget "turnId" b; jget "taskId" b; jget "sessionId" b]
  | _ => None
  end.

(** ** Binding and replay rules *)

(* @src approvals/chain.ts 200 204 #semantic *)
Record Replay : Type := {
  rp_requested : list (string * (list string * option string)); rp_decided : list (string * string);
  rp_used : list string; rp_cancelled : list string; rp_nonces : list string
}.
Definition no_replay : Replay := {| rp_requested := []; rp_decided := []; rp_used := []; rp_cancelled := []; rp_nonces := [] |}.

Definition assoc {V} (k : string) (l : list (string * V)) : option V :=
  match bfind (fun p => String.eqb (fst p) k) l with Some p => Some (snd p) | None => None end.
Definition known {V} (k : string) (l : list (string * V)) : bool := match assoc k l with Some _ => true | None => false end.

(** [tuple !== r.tuple]: the request's tuple is never missing. *)
Definition same_tuple (t : option (list string)) (r : list string) : bool := bool_decide (t = Some r).

Section chain.
Context {Text : Type} (stringify : js -> Text) (parse : Text -> option js).
(** The keyed hash over an entry and its predecessor's MAC, and over the head row. *)
Context (hmac : string -> Z -> Z -> string -> string -> option string -> Text -> string) (tag : Z -> string -> string).
Context (verifySignature : string -> string -> string -> bool) (signer : option DecisionSigner).
Notation Entry := (ChainEntry Text).
Notation Db := (ChainDb Text).

(** What one entry adds to the replay state, or the rule it breaks. *)
(* @src approvals/chain.ts 205 233 #semantic *)
Definition replay_entry (st : Replay) (e : Entry) : result (Z * VerifyFailure) Replay :=
  let bad r := Err (e_seq e, r) in
  if negb (starts_with "approval." (e_kind e)) then Ok st
  else match parse (e_payload e) with
  | Some (JObj _) | Some (JArr _) =>
      let p := default JNull (parse (e_payload e)) in
      let tuple := bindingTuple (jget "bound" p) in
      let k := e_kind e in
      if String.eqb k "approval.requested" then
        match tuple with
        | None => bad Malformed
        | Some t => if known (e_ref e) (rp_requested st) then bad Duplicate
                    else Ok {| rp_requested := (e_ref e, (t, e_nonce e)) :: rp_requested st; rp_decided := rp_decided st; rp_used := rp_used st;
                               rp_cancelled := rp_cancelled st; rp_nonces := rp_nonces st |}
        end
      else if String.eqb k "approval.decided" then
        match e_nonce e with
        | None => bad NonceReuse
        | Some n =>
            if includes (rp_nonces st) n then bad NonceReuse
            else if negb (match assoc (e_ref e) (rp_requested st) with
                          | Some (t, rn) => same_tuple tuple t && bool_decide (rn = Some n)
                          | None => false
                          end) then bad BindingMismatch
            else if known (e_ref e) (rp_decided st) then bad Duplicate
            else if includes (rp_cancelled st) (e_ref e) then bad BindingMismatch
            else match jget "decision" p with
                 | JStr d =>
                     if String.eqb d "approve" || String.eqb d "deny"
                     then Ok {| rp_requested := rp_requested st; rp_decided := (e_ref e, d) :: rp_decided st; rp_used := rp_used st;
                                rp_cancelled := rp_cancelled st; rp_nonces := n :: rp_nonces st |}
                     else bad Malformed
                 | _ => bad Malformed
                 end
        end
      else if String.eqb k "approval.cancelled" then
        if negb (match assoc (e_ref e) (rp_requested st) with Some (t, _) => same_tuple tuple t | None => false end)
           || known (e_ref e) (rp_decided st)
        then bad BindingMismatch
        else Ok {| rp_requested := rp_requested st; rp_decided := rp_decided st; rp_used := rp_used st;
                   rp_cancelled := e_ref e :: rp_cancelled st; rp_nonces := rp_nonces st |}
      else if String.eqb k "approval.used" then
        if negb (match assoc (e_ref e) (rp_requested st) with Some (t, _) => same_tuple tuple t | None => false end)
           || negb (bool_decide (assoc (e_ref e) (rp_decided st) = Some "approve"))
        then bad BindingMismatch
        else if includes (rp_used st) (e_ref e) then bad Duplicate
        else Ok {| rp_requested := rp_requested st; rp_decided := rp_decided st; rp_used := e_ref e :: rp_used st;
                   rp_cancelled := rp_cancelled st; rp_nonces := rp_nonces st |}
      else Ok st
  | _ => bad Malformed
  end.

(* @src approvals/chain.ts 199 235 #semantic *)
Definition semantic (rows : list Entry) : option (Z * VerifyFailure) :=
  match rfold replay_entry no_replay rows with Ok _ => None | Err f => Some f end.

(** ** Verification *)

(* @src approvals/chain.ts 93 95 #mac *)
Definition mac (prev : string) (e : Entry) : string :=
  hmac prev (e_seq e) (e_ts e) (e_kind e) (e_ref e) (e_nonce e) (e_payload e).

(** The first entry out of place, from the expected position and predecessor. *)
(* @src approvals/chain.ts 124 132 #build *)
Fixpoint links (expected : Z) (prev : string) (rows : list Entry) : option (Z * VerifyFailure) :=
  match rows with
  | [] => None
  | e :: r =>
      if negb (e_seq e =? expected) then Some (expected, SeqGap)
      else if negb (String.eqb (e_prev e) prev) then Some (e_seq e, PrevMismatch)
      else if negb (String.eqb (e_mac e) (mac prev e)) then Some (e_seq e, MacMismatch)
      else links (expected + 1) (e_mac e) r
  end.

Definition last_mac (rows : list Entry) : string := match list.last rows with Some e => e_mac e | None => GENESIS_MAC end.

(* @src approvals/chain.ts 134 143 #build *)
Definition head_fault (rows : list Entry) (h : option (Z * string * string)) : option (Z * VerifyFailure) :=
  let n := Z.of_nat (length rows) in
  if n =? 0 then match h with Some _ => Some (1, Truncated) | None => None end
  else match h with
  | None => Some (n, HeadMismatch)
  | Some (seq, m, tg) =>
      if negb (String.eqb tg (tag seq m)) then Some (n, HeadMismatch)
      else if n <? seq then Some (n + 1, Truncated)
      else if seq <? n then Some (seq + 1, HeadMismatch)
      else if negb (String.eqb m (last_mac rows)) then Some (n, HeadMismatch)
      else None
  end.

(** The signature row of a decision: missing, good or bad. *)
(* @src approvals/chain.ts 173 179 #signatures *)
Definition signature_of (sigs : list SignatureRow) (e : Entry) : SignatureReport :=
  if negb (String.eqb (e_kind e) "approval.decided") then Unsigned
  else match bfind (fun s => sg_seq s =? e_seq e) sigs with
  | None => Unsigned
  | Some row =>
      let keyOk := match signer with None => true | Some k => String.eqb (sg_public row) (publicKey k) end in
      if verifySignature (e_mac e) (sg_public row) (sg_signature row) && keyOk then SignedOk else SignedBad
  end.

Definition is_bad (r : SignatureReport) : bool := match r with SignedBad => true | _ => false end.
Definition is_signed (r : SignatureReport) : bool := match r with SignedOk => true | _ => false end.

(* @src approvals/chain.ts 169 183 #signatures *)
Definition signatures (sigs : list SignatureRow) (rows : list Entry) : SignatureSummary :=
  let rs := map (signature_of sigs) rows in
  let count p := Z.of_nat (length (bfilter p rs)) in
  let b := count is_bad in let o := count is_signed in
  {| unsignedLegacy := Z.of_nat (length rs) - b - o; signedOk := o; signedBad := b;
     report := if 0 <? b then SignedBad else if 0 <? o then SignedOk else Unsigned |}.

(* @src approvals/chain.ts 185 196 #firstBadSignatureSeq *)
Definition firstBadSignatureSeq (sigs : list SignatureRow) (rows : list Entry) : option Z :=
  e_seq <$> bfind (fun e => is_bad (signature_of sigs e)) rows.

Definition failed (rows : list Entry) (f : Z * VerifyFailure) (s : SignatureSummary) : ChainSnapshot Text :=
  {| s_result := Broken (Z.of_nat (length rows)) f.1 f.2 s; s_entries := rows; trustedBelow := Some f.1 |}.

(* @src approvals/chain.ts 116 156 #build *)
Definition build (db : Db) : ChainSnapshot Text :=
  let rows := c_rows db in
  let n := Z.of_nat (length rows) in
  match links 1 GENESIS_MAC rows with
  | Some f => failed rows f EMPTY_SIGNATURES
  | None =>
  match head_fault rows (c_head db) with
  | Some f => failed rows f EMPTY_SIGNATURES
  | None =>
  match semantic rows with
  | Some f => failed rows f EMPTY_SIGNATURES
  | None =>
      let s := signatures (c_sigs db) rows in
      if 0 <? signedBad s then failed rows (default n (firstBadSignatureSeq (c_sigs db) rows), SignatureMismatch) s
      else {| s_result := Verified n (if n =? 0 then None else Some (n, last_mac rows)) s; s_entries := rows; trustedBelow := None |}
  end end end.

(* @src approvals/chain.ts 112 114 verify *)
Definition verify (db : Db) : VerifyResult := s_result (build db).

(** ** Append

    The database also holds the tables of the store that owns the chain ([Rows]); a
    transaction covers them all.  The world keeps what is outside it: whether a
    transaction is open, the clock's readings and what was sent out. *)
Record World {Rows Ev : Type} : Type := { w_chain : Db; w_rows : Rows; w_tx : bool; w_ticks : nat; w_log : list Ev }.
#[global] Arguments World : clear implicits.

Section steps.
Context {Rows Ev X : Type} (clk : nat -> Z).
Notation M := (SE (World Rows Ev) (Fault X)).

Definition clock_now : M Z := fun w =>
  (Ok (clk (w_ticks w)), {| w_chain := w_chain w; w_rows := w_rows w; w_tx := w_tx w; w_ticks := S (w_ticks w); w_log := w_log w |}).
Definition on_chain (f : Db -> Db) : M unit :=
  modify (fun w => {| w_chain := f (w_chain w); w_rows := w_rows w; w_tx := w_tx w; w_ticks := w_ticks w; w_log := w_log w |}).
Definition on_rows (f : Rows -> Rows) : M unit :=
  modify (fun w => {| w_chain := w_chain w; w_rows := f (w_rows w); w_tx := w_tx w; w_ticks := w_ticks w; w_log := w_log w |}).

(** A nested call runs in the outer transaction, which keeps or drops everything. *)
(* @src approvals/db.ts 162 173 transaction *)
Definition transaction {A} (m : M A) : M A := fun w =>
  if w_tx w then m w
  else match m {| w_chain := w_chain w; w_rows := w_rows w; w_tx := true; w_ticks := w_ticks w; w_log := w_log w |} with
  | (Ok a, w') => (Ok a, {| w_chain := w_chain w'; w_rows := w_rows w'; w_tx := false; w_ticks := w_ticks w'; w_log := w_log w' |})
  | (Err e, w') => (Err e, {| w_chain := w_chain w; w_rows := w_rows w; w_tx := false; w_ticks := w_ticks w'; w_log := w_log w' |})
  end.

(** [LIKE 'approval.%']: ASCII letters compare without case. *)
Definition once_only (kind : string) : bool := starts_with "approval." (lower kind).

(** The unique index over kind and ref. *)
(* @src approvals/db.ts 84 84 approval_chain_once *)
Definition row_free (db : Db) (kind ref : string) : bool :=
  negb (once_only kind && existsb (fun e => String.eqb (e_kind e) kind && String.eqb (e_ref e) ref) (c_rows db)).

Definition add_row (e : Entry) (db : Db) : Db := {| c_rows := c_rows db ++ [e]; c_head := c_head db; c_sigs := c_sigs db |}.
Definition set_head (h : Z * string * string) (db : Db) : Db := {| c_rows := c_rows db; c_head := Some h; c_sigs := c_sigs db |}.
Definition add_sig (s : SignatureRow) (db : Db) : Db := {| c_rows := c_rows db; c_head := c_head db; c_sigs := c_sigs db ++ [s] |}.

(** The entry after a verified chain. *)
(* @src approvals/chain.ts 242 245 append *)
Definition next_entry (db : Db) (ts : Z) (kind ref : string) (payload : js) (nonce : option string) : Entry :=
  let prev := last_mac (c_rows db) in
  let base m := {| e_seq := match list.last (c_rows db) with Some e => e_seq e | None => 0 end + 1; e_ts := ts; e_kind := kind; e_ref := ref;
                   e_nonce := nonce; e_payload := stringify payload; e_prev := prev; e_mac := m |} in
  base (mac prev (base "")).

(* @src approvals/chain.ts 251 255 append *)
Definition sign_entry (e : Entry) : M unit :=
  match signer with
  | Some k =>
      if String.eqb (e_kind e) "approval.decided" then
        db ← gets w_chain;
        _ ← require (negb (existsb (fun s => sg_seq s =? e_seq e) (c_sigs db))) Sql;
        on_chain (add_sig {| sg_seq := e_seq e; sg_public := publicKey k; sg_signature := sign_mac k (e_mac e) |})
      else mret tt
  | None => mret tt
  end.

(* @src approvals/chain.ts 239 257 append *)
Definition append_steps (kind ref : string) (payload : js) (nonce : option string) : M Entry :=
  db ← gets w_chain;
  match verify db with
  | Broken _ at_ reason _ => throw (ChainBroken at_ reason)
  | Verified _ _ _ =>
      ts ← clock_now;
      let e := next_entry db ts kind ref payload nonce in
      _ ← require (row_free db kind ref) Sql;
      _ ← on_chain (add_row e);
      _ ← on_chain (set_head (e_seq e, e_mac e, tag (e_seq e) (e_mac e)));
      _ ← sign_entry e;
      mret e
  end.

(* @src approvals/chain.ts 238 263 append *)
Definition append (kind ref : string) (payload : js) (nonce : option string) : M Entry :=
  transaction (append_steps kind ref payload nonce).
End steps.
End chain.
