(* ===== verification/ApprovalChainSpec.v ===== *)
(** * What the approval chain promises

    Theorems on [ApprovalChain]: an entry appended to a chain that verifies leaves
    a chain that verifies, a broken one takes no entry; the head row pins every
    entry under it; an approval is used at most once, after the approval of the
    very request it binds. *)

From S2P Require Import Prelude ApprovalChain.

(** [JSON.parse] reads back what [JSON.stringify] wrote, and returns JSON values only. *)
Record json_laws {Text : Type} (stringify : js -> Text) (parse : Text -> option js) : Prop := {
  json_round_trip : forall v, json_value v = true -> parse (stringify v) = Some v;
  json_parsed : forall t v, parse t = Some v -> json_value v = true
}.

Lemma jget_json k v : json_value v = true -> jget k v = JUndef \/ json_value (jget k v) = true.
Proof.
  destruct v as [| | | | | |fs]; cbn; try by left. intros Hj. destruct (list_find _ fs) as [[i [k' x]]|] eqn:E; [|by left].
  right. apply list_find_Some in E as (E & _ & _). cbn [snd]. rewrite forallb_forall in Hj.
  apply (Hj (k', x)). apply list_elem_of_In. by eapply list_elem_of_lookup_2.
Qed.

Section spec.
Context {Text : Type} (stringify : js -> Text) (parse : Text -> option js).
Context (hmac : string -> Z -> Z -> string -> string -> option string -> Text -> string) (tag : Z -> string -> string).
Context (verifySignature : string -> string -> string -> bool) (signer : option DecisionSigner).
Notation Entry := (ChainEntry Text).
Notation Db := (ChainDb Text).
Notation verify := (verify parse hmac tag verifySignature signer).
Notation mac := (mac hmac).
Notation links := (links hmac).
Notation head_fault := (head_fault tag).
Notation semantic := (semantic parse).
Notation replay_entry := (replay_entry parse).
Notation signature_of := (signature_of (Text := Text) verifySignature signer).
Notation signatures := (signatures verifySignature signer).

Definition intact (db : Db) : Prop := result_ok (verify db) = true.

(** ** Chains that verify *)

Lemma intact_parts db :
  intact db <-> links 1 GENESIS_MAC (c_rows db) = None /\ head_fault (c_rows db) (c_head db) = None
                /\ semantic (c_rows db) = None /\ signedBad (signatures (c_sigs db) (c_rows db)) <= 0.
Proof.
  unfold intact, ApprovalChain.verify, build.
  destruct (links _ _ _) as [f|]; [by split; [|intros (? & _)]|].
  destruct (head_fault _ _) as [f|]; [by split; [|intros (_ & ? & _)]|].
  destruct (semantic _) as [f|]; [by split; [|intros (_ & _ & ? & _)]|].
  cbv zeta. generalize (signatures (c_sigs db) (c_rows db)) as s. intros s. destruct (Z.ltb_spec 0 (signedBad s)); cbn.
  - split; [done|]. intros (_ & _ & _ & ?). lia.
  - by split.
Qed.

Lemma verified_exact db n h s :
  verify db = Verified n h s ->
  n = Z.of_nat (length (c_rows db)) /\ h = (if n =? 0 then None else Some (n, last_mac (c_rows db))) /\ s = signatures (c_sigs db) (c_rows db).
Proof.
  unfold ApprovalChain.verify, build. repeat case_match; cbn; intros [= <- <- <-]; split_and!; try done; congruence.
Qed.

Lemma last_mac_app (l : list Entry) e : last_mac (l ++ [e]) = e_mac e.
Proof. unfold last_mac. by rewrite last_snoc. Qed.

(** The MAC the entry after [l] has to name. *)
Definition tip (prev : string) (l : list Entry) : string := match list.last l with Some e => e_mac e | None => prev end.

Lemma tip_cons prev e l : tip prev (e :: l) = tip (e_mac e) l.
Proof. unfold tip. destruct l as [|x l]; [done|]. rewrite last_cons_cons. destruct (list.last (x :: l)) eqn:E; [done|by apply last_None in E]. Qed.

Lemma tip_snoc prev l e : tip prev (l ++ [e]) = e_mac e.
Proof. unfold tip. by rewrite last_snoc. Qed.

Lemma links_snoc n prev l e :
  links n prev (l ++ [e]) = None <->
  links n prev l = None /\ e_seq e = n + Z.of_nat (length l) /\ e_prev e = tip prev l /\ e_mac e = mac (tip prev l) e.
Proof.
  revert n prev. induction l as [|x l IH]; intros n prev; simpl.
  - unfold tip; cbn. destruct (Z.eqb_spec (e_seq e) n); cbn; [|split; [done|lia]].
    destruct (String.eqb_spec (e_prev e) prev); cbn; [|naive_solver].
    destruct (String.eqb_spec (e_mac e) (mac prev e)); cbn; [|naive_solver]. split; [|done]. intros _. repeat split; [lia|done|done].
  - rewrite tip_cons. destruct (negb (e_seq x =? n)); [naive_solver|]. destruct (negb (String.eqb (e_prev x) prev)); [naive_solver|].
    destruct (negb (String.eqb (e_mac x) (mac prev x))); [naive_solver|]. rewrite IH. rewrite Nat2Z.inj_succ.
    replace (n + 1 + Z.of_nat (length l)) with (n + Z.succ (Z.of_nat (length l))) by lia. done.
Qed.

(** ** The head pins the log *)

(** No two entries with their predecessors have the same MAC. *)
Definition hmac_injective : Prop := forall p s t k r n x p' s' t' k' r' n' x',
  hmac p s t k r n x = hmac p' s' t' k' r' n' x' -> p = p' /\ s = s' /\ t = t' /\ k = k' /\ r = r' /\ n = n' /\ x = x'.

Lemma same_tip_same_rows n p l1 l2 :
  hmac_injective -> links n p l1 = None -> links n p l2 = None -> length l1 = length l2 -> tip p l1 = tip p l2 -> l1 = l2.
Proof.
  intros Hi. revert l2. induction l1 as [|e1 l1 IH] using rev_ind; intros l2 H1 H2 Hl Ht.
  - by destruct l2.
  - destruct l2 as [|e2 l2 _] using rev_ind; [rewrite length_app in Hl; simpl in Hl; lia|].
    rewrite !length_app in Hl. simpl in Hl. rewrite !tip_snoc in Ht.
    apply links_snoc in H1 as (L1 & S1 & P1 & M1). apply links_snoc in H2 as (L2 & S2 & P2 & M2).
    rewrite M1, M2 in Ht. apply Hi in Ht as (Hp & Hs & Hts & Hk & Hr & Hn & Hx).
    assert (E1 : l1 = l2) by (apply IH; [done|done|lia|done]). f_equal; [exact E1|]. f_equal.
    destruct e1, e2; simpl in *. subst. by rewrite M1, M2.
Qed.

Lemma intact_head db : intact db ->
  (c_rows db = [] /\ c_head db = None)
  \/ (c_rows db <> [] /\ exists tg, c_head db = Some (Z.of_nat (length (c_rows db)), last_mac (c_rows db), tg)
                                 /\ tg = tag (Z.of_nat (length (c_rows db))) (last_mac (c_rows db))).
Proof.
  intros (_ & H & _)%intact_parts. unfold ApprovalChain.head_fault in H. set (n := Z.of_nat (length (c_rows db))) in *.
  destruct (Z.eqb_spec n 0) as [E|E].
  - left. split; [|by destruct (c_head db)]. destruct (c_rows db); [done|]. subst n. simpl in E. lia.
  - right. split; [intros Hr; apply E; subst n; by rewrite Hr|]. destruct (c_head db) as [[[seq m] tg]|]; [|done].
    repeat (case_match; [done|]). bool_hyps. assert (seq = n) as -> by lia. subst. eauto.
Qed.

(** ** Positions *)

Lemma links_seq n p l e : links n p l = None -> e ∈ l -> n <= e_seq e < n + Z.of_nat (length l).
Proof.
  revert n p. induction l as [|x l IH]; intros n p H He; [by apply elem_of_nil in He|]. simpl in H.
  repeat (case_match; [done|]). bool_hyps. simpl length. apply elem_of_cons in He as [->|He]; [lia|]. specialize (IH _ _ H He). lia.
Qed.

Lemma links_last n p l e : links n p l = None -> list.last l = Some e -> e_seq e = n + Z.of_nat (length l) - 1.
Proof.
  intros H Hl. destruct l as [|x l _] using rev_ind; [done|]. rewrite last_snoc in Hl. injection Hl as ->.
  apply links_snoc in H as (_ & -> & _). rewrite length_app. simpl. lia.
Qed.

Lemma next_seq db ts kind ref payload nonce :
  intact db -> e_seq (next_entry stringify hmac db ts kind ref payload nonce) = Z.of_nat (length (c_rows db)) + 1.
Proof.
  intros (H & _)%intact_parts. unfold next_entry. cbn. destruct (list.last (c_rows db)) as [e|] eqn:E.
  - rewrite (links_last _ _ _ _ H E). lia.
  - apply last_None in E as ->. done.
Qed.

(** ** Append *)

Section append.
Context {Rows Ev X : Type} (clk : nat -> Z).
Notation W := (World (Text := Text) Rows Ev).
Notation append := (append stringify parse hmac tag verifySignature signer clk (Rows := Rows) (Ev := Ev) (X := X)).
Notation next_entry := (next_entry stringify hmac).

(** The signature row an entry brings. *)
Definition sigs_of (e : Entry) : list SignatureRow :=
  match signer with
  | Some k => if String.eqb (e_kind e) "approval.decided"
              then [{| sg_seq := e_seq e; sg_public := publicKey k; sg_signature := sign_mac k (e_mac e) |}] else []
  | None => []
  end.

(** The chain with one more entry under its head. *)
Definition written (db : Db) (e : Entry) : Db :=
  {| c_rows := c_rows db ++ [e]; c_head := Some (e_seq e, e_mac e, tag (e_seq e) (e_mac e)); c_sigs := c_sigs db ++ sigs_of e |}.

(** The world after an append: one reading of the clock and the written chain. *)
Definition appended (w : W) (e : Entry) : W :=
  {| w_chain := written (w_chain w) e; w_rows := w_rows w; w_tx := w_tx w; w_ticks := S (w_ticks w); w_log := w_log w |}.

Definition sig_free (sigs : list SignatureRow) (e : Entry) : bool :=
  bool_decide (sigs_of e = []) || negb (existsb (fun s => sg_seq s =? e_seq e) sigs).

Lemma sign_entry_run (e : Entry) (w : W) :
  sign_entry signer (X := X) e w =
  if sig_free (c_sigs (w_chain w)) e
  then (Ok tt, {| w_chain := {| c_rows := c_rows (w_chain w); c_head := c_head (w_chain w); c_sigs := c_sigs (w_chain w) ++ sigs_of e |};
                  w_rows := w_rows w; w_tx := w_tx w; w_ticks := w_ticks w; w_log := w_log w |})
  else (Err Sql, w).
Proof.
  destruct w as [[rows h sigs] rs tx n log]. unfold sign_entry, sig_free, sigs_of.
  destruct signer as [k|]; [|cbn; by rewrite app_nil_r].
  destruct (String.eqb (e_kind e) "approval.decided"); [|cbn; by rewrite app_nil_r].
  unfold mbind, SE_bind, gets, require. cbn -[existsb]. by destruct (existsb _ sigs).
Qed.

Lemma append_steps_run (w : W) kind ref payload nonce :
  append_steps stringify parse hmac tag verifySignature signer clk (X := X) kind ref payload nonce w =
  let e := next_entry (w_chain w) (clk (w_ticks w)) kind ref payload nonce in
  match verify (w_chain w) with
  | Broken _ b r _ => (Err (ChainBroken b r), w)
  | Verified _ _ _ =>
      if row_free (w_chain w) kind ref then
        if sig_free (c_sigs (w_chain w)) e then (Ok e, appended w e)
        else (Err Sql, {| w_chain := set_head (e_seq e, e_mac e, tag (e_seq e) (e_mac e)) (add_row e (w_chain w));
                          w_rows := w_rows w; w_tx := w_tx w; w_ticks := S (w_ticks w); w_log := w_log w |})
      else (Err Sql, {| w_chain := w_chain w; w_rows := w_rows w; w_tx := w_tx w; w_ticks := S (w_ticks w); w_log := w_log w |})
  end.
Proof.
  destruct w as [db rs tx n log]. unfold append_steps. erewrite (SE_bind_run (gets w_chain)) by reflexivity. cbv beta. cbn [w_chain w_ticks w_rows w_tx w_log].
  destruct (verify db); [|done]. erewrite (SE_bind_run (clock_now clk)) by reflexivity. cbv beta zeta. cbn [w_chain w_ticks w_rows w_tx w_log].
  set (e := next_entry db (clk n) kind ref payload nonce). destruct (row_free db kind ref); [|done].
  erewrite (SE_bind_run (require true Sql)) by reflexivity. cbv beta. erewrite (SE_bind_run (on_chain _)) by reflexivity. cbv beta.
  erewrite (SE_bind_run (on_chain _)) by reflexivity. cbv beta. unfold mbind, SE_bind. rewrite sign_entry_run.
  cbn [w_chain c_sigs set_head add_row]. by destruct (sig_free (c_sigs db) e).
Qed.

Lemma append_verified (w : W) kind ref payload nonce :
  intact (w_chain w) ->
  let e := next_entry (w_chain w) (clk (w_ticks w)) kind ref payload nonce in
  row_free (w_chain w) kind ref = true -> sig_free (c_sigs (w_chain w)) e = true ->
  append kind ref payload nonce w = (Ok e, appended w e).
Proof.
  intros Hi e Hf Hs. unfold intact in Hi. unfold ApprovalChain.append, transaction.
  destruct w as [db rs [] n log]; cbn [w_chain w_tx w_ticks w_rows w_log] in *; rewrite append_steps_run; cbn [w_chain w_tx w_ticks w_rows w_log]; cbv zeta;
    (destruct (verify db); [|done]); rewrite Hf; fold e; by rewrite Hs.
Qed.

Lemma append_broken (w : W) kind ref payload nonce n b r s :
  verify (w_chain w) = Broken n b r s -> append kind ref payload nonce w = (Err (ChainBroken b r), w).
Proof.
  intros Hv. destruct w as [db rs [] n' log]; unfold ApprovalChain.append, transaction; cbn [w_tx]; rewrite append_steps_run;
    cbn [w_chain w_tx w_ticks w_rows w_log] in *; by rewrite Hv.
Qed.

(** What an append that returned did. *)
Lemma append_ok (w : W) kind ref payload nonce e w' :
  append kind ref payload nonce w = (Ok e, w') ->
  intact (w_chain w) /\ e = next_entry (w_chain w) (clk (w_ticks w)) kind ref payload nonce /\ w' = appended w e
  /\ row_free (w_chain w) kind ref = true.
Proof.
  unfold intact, ApprovalChain.append, transaction.
  destruct w as [db rs [] n log]; cbn [w_tx]; rewrite append_steps_run; cbn [w_chain w_tx w_ticks w_rows w_log]; cbv zeta;
    (destruct (verify db); [|done]); (destruct (row_free db kind ref) eqn:Hf; [|done]); (destruct (sig_free _ _); [|done]);
    by intros [= <- <-].
Qed.

(** A throw is the broken chain, with the world untouched, or a constraint. *)
Lemma append_err (w : W) kind ref payload nonce x w' :
  append kind ref payload nonce w = (Err x, w') ->
  (exists n b r s, x = ChainBroken b r /\ verify (w_chain w) = Broken n b r s /\ w' = w) \/ x = Sql.
Proof.
  unfold ApprovalChain.append, transaction.
  destruct w as [db rs [] n log]; cbn [w_tx]; rewrite append_steps_run; cbn [w_chain w_tx w_ticks w_rows w_log]; cbv zeta;
    (destruct (verify db) eqn:Hv; [|intros [= <- <-]; left; eauto 10]); (destruct (row_free db kind ref) eqn:Hf; [|intros [= <- _]; by right]);
    (destruct (sig_free _ _); [done|intros [= <- _]; by right]).
Qed.

(** A transaction that returned, and one that threw at the outermost level. *)
Lemma transaction_ok {A} (m : SE W (Fault X) A) (w : W) a w' :
  transaction m w = (Ok a, w') ->
  exists w0 w1, m w0 = (Ok a, w1) /\ w_chain w0 = w_chain w /\ w_rows w0 = w_rows w /\ w_ticks w0 = w_ticks w /\ w_log w0 = w_log w
    /\ w_chain w' = w_chain w1 /\ w_rows w' = w_rows w1 /\ w_log w' = w_log w1.
Proof.
  unfold transaction. destruct (w_tx w); intros Hm.
  - exists w, w'. by rewrite Hm.
  - destruct (m _) as [[b|e] w1] eqn:E; [|done]. injection Hm as <- <-. eexists _, w1. split; [exact E|]. done.
Qed.

Lemma transaction_err {A} (m : SE W (Fault X) A) (w : W) x w' :
  w_tx w = false -> transaction m w = (Err x, w') -> w_chain w' = w_chain w /\ w_rows w' = w_rows w.
Proof. unfold transaction. intros ->. destruct (m _) as [[a|e] w1]; [done|]. by intros [= _ <-]. Qed.

Lemma transaction_err_tx {A} (m : SE W (Fault X) A) (w : W) x w' : w_tx w = false -> transaction m w = (Err x, w') -> w_tx w' = false.
Proof. unfold transaction. intros ->. destruct (m _) as [[a|e] w1]; [done|]. by intros [= _ <-]. Qed.

Lemma transaction_tx {A} (m : SE W (Fault X) A) (w : W) : w_tx w = false -> w_tx (transaction m w).2 = false.
Proof. unfold transaction. intros ->. by destruct (m _) as [[a|e] w1]. Qed.

(** The signer's own signatures verify. *)
Definition honest_signer : Prop := forall k m, signer = Some k -> verifySignature m (publicKey k) (sign_mac k m) = true.

(** No signature lies beyond the chain's end. *)
Definition sigs_within (db : Db) : Prop := forall s, s ∈ c_sigs db -> sg_seq s <= Z.of_nat (length (c_rows db)).

Lemma sigs_of_seq e s : s ∈ sigs_of e -> sg_seq s = e_seq e.
Proof.
  unfold sigs_of. destruct signer; [|by intros ?%elem_of_nil]. case_match; [|by intros ?%elem_of_nil].
  by intros ->%list_elem_of_singleton.
Qed.

Lemma signature_old sigs (e e' : Entry) : e_seq e' <> e_seq e -> signature_of (sigs ++ sigs_of e) e' = signature_of sigs e'.
Proof.
  intros Hne. unfold ApprovalChain.signature_of. destruct (negb _); [done|]. rewrite bfind_app.
  destruct (bfind _ sigs); [done|]. destruct (bfind _ (sigs_of e)) as [s|] eqn:E; [|done].
  apply bfind_some in E as [Hs Hq]. apply sigs_of_seq in Hs. bool_hyps. congruence.
Qed.

Lemma signature_new sigs (e : Entry) :
  honest_signer -> (forall s, s ∈ sigs -> sg_seq s < e_seq e) -> is_bad (signature_of (sigs ++ sigs_of e) e) = false.
Proof.
  intros Hh Hs. unfold ApprovalChain.signature_of. destruct (String.eqb (e_kind e) "approval.decided") eqn:K; [|done]. cbn [negb].
  rewrite bfind_app. destruct (bfind _ sigs) as [s|] eqn:E.
  { apply bfind_some in E as [H1 H2]. specialize (Hs _ H1). bool_hyps. lia. }
  unfold sigs_of. destruct signer as [k|] eqn:Sg; [|done]. rewrite K. cbn. rewrite Z.eqb_refl. cbn.
  unfold honest_signer in Hh. by rewrite (Hh k (e_mac e) Sg), String.eqb_refl.
Qed.

Lemma signedBad_length sigs (rows : list Entry) : signedBad (signatures sigs rows) = Z.of_nat (length (bfilter is_bad (map (signature_of sigs) rows))).
Proof. reflexivity. Qed.

(** An append keeps the chain verified, unless its entry breaks a binding rule. *)
Lemma written_intact (w : W) kind ref payload nonce :
  honest_signer -> intact (w_chain w) -> sigs_within (w_chain w) ->
  let e := next_entry (w_chain w) (clk (w_ticks w)) kind ref payload nonce in
  intact (written (w_chain w) e) <-> semantic (c_rows (w_chain w) ++ [e]) = None.
Proof.
  intros Hh Hi Hs e. assert (Hq : e_seq e = Z.of_nat (length (c_rows (w_chain w))) + 1) by (by apply next_seq).
  rewrite intact_parts. cbn [c_rows c_head c_sigs written]. apply intact_parts in Hi as (Hl & _ & _ & Hb).
  set (rows := c_rows (w_chain w)) in *. set (n := Z.of_nat (length rows)) in *.
  assert (L : links 1 GENESIS_MAC (rows ++ [e]) = None).
  { apply links_snoc. split_and!; [done|fold n; lia|done|done]. }
  assert (F : head_fault (rows ++ [e]) (Some (e_seq e, e_mac e, tag (e_seq e) (e_mac e))) = None).
  { unfold ApprovalChain.head_fault. rewrite length_app, Nat2Z.inj_add. fold n. change (Z.of_nat (length [e])) with 1. rewrite Hq.
    rewrite last_mac_app, !String.eqb_refl. cbn [negb].
    rewrite (proj2 (Z.eqb_neq _ _)), Z.ltb_irrefl by (subst n; lia). done. }
  assert (B : signedBad (signatures (c_sigs (w_chain w) ++ sigs_of e) (rows ++ [e])) <= 0); [|tauto].
  rewrite signedBad_length in *. rewrite map_app. unfold bfilter. rewrite List.filter_app. simpl map.
  assert (M : map (signature_of (c_sigs (w_chain w) ++ sigs_of e)) rows = map (signature_of (c_sigs (w_chain w))) rows).
  { apply map_ext_in. intros e' He'%list_elem_of_In. apply signature_old.
    pose proof (links_seq _ _ _ _ Hl He'). fold n in H. lia. }
  rewrite M. cbn [List.filter]. rewrite signature_new; [|done|intros s Hs'; specialize (Hs s Hs'); fold rows n in Hs; lia].
  rewrite app_nil_r. exact Hb.
Qed.

(** Entries outside the approval rules change nothing those rules read. *)
Lemma semantic_snoc rows e : semantic rows = None -> starts_with "approval." (e_kind e) = false -> semantic (rows ++ [e]) = None.
Proof.
  unfold ApprovalChain.semantic. rewrite rfold_app. destruct (rfold _ _ rows); [|done]. intros _ H. cbn.
  unfold ApprovalChain.replay_entry. by rewrite H.
Qed.

Lemma once_only_starts kind : once_only kind = false -> starts_with "approval." kind = false.
Proof.
  intros H. destruct (starts_with "approval." kind) eqn:E; [|done]. apply starts_with_app in E as (r & ->).
  unfold once_only in H. rewrite lower_app in H. assert (X' : starts_with "approval." (lower "approval." +:+ lower r) = true); [|congruence].
  apply starts_with_app. by exists (lower r).
Qed.

Lemma plain_append (w : W) kind ref payload nonce :
  honest_signer -> intact (w_chain w) -> sigs_within (w_chain w) -> once_only kind = false ->
  let e := next_entry (w_chain w) (clk (w_ticks w)) kind ref payload nonce in
  append kind ref payload nonce w = (Ok e, appended w e) /\ intact (written (w_chain w) e).
Proof.
  intros Hh Hi Hs Hk e. apply once_only_starts in Hk as Hk'. split.
  - apply append_verified; [done|unfold row_free; by rewrite Hk|].
    fold e. unfold sig_free. assert (sigs_of e = []) as ->; [|done]. unfold sigs_of. cbn. destruct signer; [|done].
    destruct (String.eqb_spec kind "approval.decided"); [subst; done|done].
  - apply written_intact; [done..|]. apply semantic_snoc; [by apply intact_parts in Hi as (_ & _ & ? & _)|done].
Qed.

(** Appending is all or nothing about the chain. On a chain that verifies, an entry of any kind
    outside the approval rules is always taken: it lands at the next position, with what was passed,
    and the chain verifies again; an entry of those rules leaves a chain that verifies exactly when
    the binding and replay rules accept it. On a chain that does not verify nothing is appended, no
    matter what, and nothing else changes either. *)
Theorem append_exact (w : W) kind ref payload nonce :
  honest_signer -> sigs_within (w_chain w) ->
  (intact (w_chain w) -> once_only kind = false ->
   exists e w', append kind ref payload nonce w = (Ok e, w') /\ c_rows (w_chain w') = c_rows (w_chain w) ++ [e]
     /\ e_seq e = Z.of_nat (length (c_rows (w_chain w))) + 1 /\ e_kind e = kind /\ e_ref e = ref /\ e_nonce e = nonce
     /\ e_payload e = stringify payload /\ intact (w_chain w') /\ sigs_within (w_chain w') /\ w_rows w' = w_rows w /\ w_log w' = w_log w)
  /\ (~ intact (w_chain w) -> exists b r, append kind ref payload nonce w = (Err (ChainBroken b r), w))
  /\ (forall e w', append kind ref payload nonce w = (Ok e, w') ->
      c_rows (w_chain w') = c_rows (w_chain w) ++ [e] /\ (intact (w_chain w') <-> semantic (c_rows (w_chain w')) = None)).
Proof.
  intros Hh Hs. split_and!.
  - intros Hi Hk. destruct (plain_append w kind ref payload nonce Hh Hi Hs Hk) as [A B].
    eexists _, _. split; [exact A|]. split_and!; try done.
    + by apply next_seq.
    + intros s. cbn [w_chain appended written c_sigs c_rows]. rewrite length_app, Nat2Z.inj_add. intros [Hin|Hin]%elem_of_app.
      * specialize (Hs s Hin). lia.
      * apply sigs_of_seq in Hin. rewrite next_seq in Hin by done. simpl length. lia.
  - intros Hb. unfold intact in Hb. destruct (verify (w_chain w)) as [|n b r s] eqn:Hv; [by destruct Hb|].
    exists b, r. by apply (append_broken w kind ref payload nonce n b r s).
  - intros e w' H. apply append_ok in H as (Hi & -> & -> & _). split; [done|]. by apply written_intact.
Qed.
End append.

(** (C34) The head row fixes the log under it: two databases that both verify and agree on the head
    have the same entries. With a MAC no two different entries share, no edit, deletion, insertion
    or reordering of entries passes verification while the head stays. *)
Theorem head_pins_log (db db' : Db) :
  hmac_injective -> intact db -> intact db' -> c_head db = c_head db' -> c_rows db = c_rows db'.
Proof.
  intros Hi H H' Hh. pose proof (intact_head db H) as C. pose proof (intact_head db' H') as C'.
  apply intact_parts in H as (L & _). apply intact_parts in H' as (L' & _).
  destruct C as [[E ?]|(E & tg & C & _)], C' as [[E' ?]|(E' & tg' & C' & _)]; [congruence..|].
  rewrite C, C' in Hh. injection Hh as Hn Hm _. apply (same_tip_same_rows 1 GENESIS_MAC); try done. lia.
Qed.

(** ** The approval rules *)

Definition entry_tuple (e : Entry) : option (list string) := bindingTuple (jget "bound" (default JNull (parse (e_payload e)))).
Definition entry_decision (e : Entry) : js := jget "decision" (default JNull (parse (e_payload e))).

(** Among [rows], a request and after it a decision on it with the same binding and nonce. *)
Definition decided_by (rows : list Entry) (ref : string) (d : string) (t : list string) : Prop :=
  exists a dec b req, rows = a ++ dec :: b /\ e_kind dec = "approval.decided" /\ e_ref dec = ref /\ entry_decision dec = JStr d
    /\ entry_tuple dec = Some t /\ req ∈ a /\ e_kind req = "approval.requested" /\ e_ref req = ref /\ entry_tuple req = Some t
    /\ e_nonce req = e_nonce dec /\ e_nonce dec <> None.

Record tracks (rows : list Entry) (st : Replay) : Prop := {
  tr_requested : forall r t n, assoc r (rp_requested st) = Some (t, n) ->
    exists e, e ∈ rows /\ e_kind e = "approval.requested" /\ e_ref e = r /\ entry_tuple e = Some t /\ e_nonce e = n;
  tr_decided : forall r d, assoc r (rp_decided st) = Some d ->
    exists t n, assoc r (rp_requested st) = Some (t, n) /\ decided_by rows r d t;
  tr_used : forall e, e ∈ rows -> e_kind e = "approval.used" -> includes (rp_used st) (e_ref e) = true;
  tr_cancelled : forall e, e ∈ rows -> e_kind e = "approval.cancelled" -> includes (rp_cancelled st) (e_ref e) = true;
  tr_exclusive : forall r, includes (rp_cancelled st) r = true -> assoc r (rp_decided st) = None
}.

Lemma decided_by_snoc rows e r d t : decided_by rows r d t -> decided_by (rows ++ [e]) r d t.
Proof.
  intros (a & dec & b & req & -> & H). exists a, dec, (b ++ [e]), req. rewrite <- app_assoc. by split.
Qed.

Lemma assoc_cons {V} k v r (l : list (string * V)) : assoc r ((k, v) :: l) = if String.eqb k r then Some v else assoc r l.
Proof. unfold assoc, bfind. cbn. by destruct (String.eqb k r). Qed.

Lemma includes_cons k l r : includes (k :: l) r = String.eqb r k || includes l r.
Proof. reflexivity. Qed.

Definition with_requested v (st : Replay) : Replay :=
  {| rp_requested := v :: rp_requested st; rp_decided := rp_decided st; rp_used := rp_used st; rp_cancelled := rp_cancelled st; rp_nonces := rp_nonces st |}.
Definition with_decided v n (st : Replay) : Replay :=
  {| rp_requested := rp_requested st; rp_decided := v :: rp_decided st; rp_used := rp_used st; rp_cancelled := rp_cancelled st; rp_nonces := n :: rp_nonces st |}.
Definition with_cancelled r (st : Replay) : Replay :=
  {| rp_requested := rp_requested st; rp_decided := rp_decided st; rp_used := rp_used st; rp_cancelled := r :: rp_cancelled st; rp_nonces := rp_nonces st |}.
Definition with_used r (st : Replay) : Replay :=
  {| rp_requested := rp_requested st; rp_decided := rp_decided st; rp_used := r :: rp_used st; rp_cancelled := rp_cancelled st; rp_nonces := rp_nonces st |}.

(** The five ways an entry is accepted. *)
Inductive accepts (st : Replay) (e : Entry) : Replay -> Prop :=
| acc_other : e_kind e <> "approval.requested" -> e_kind e <> "approval.decided" -> e_kind e <> "approval.used" ->
    e_kind e <> "approval.cancelled" -> accepts st e st
| acc_requested t : e_kind e = "approval.requested" -> entry_tuple e = Some t -> known (e_ref e) (rp_requested st) = false ->
    accepts st e (with_requested (e_ref e, (t, e_nonce e)) st)
| acc_decided t n d : e_kind e = "approval.decided" -> entry_tuple e = Some t -> e_nonce e = Some n ->
    assoc (e_ref e) (rp_requested st) = Some (t, Some n) -> known (e_ref e) (rp_decided st) = false ->
    includes (rp_cancelled st) (e_ref e) = false -> entry_decision e = JStr d -> accepts st e (with_decided (e_ref e, d) n st)
| acc_cancelled t n : e_kind e = "approval.cancelled" -> entry_tuple e = Some t -> assoc (e_ref e) (rp_requested st) = Some (t, n) ->
    known (e_ref e) (rp_decided st) = false -> accepts st e (with_cancelled (e_ref e) st)
| acc_used t n : e_kind e = "approval.used" -> entry_tuple e = Some t -> assoc (e_ref e) (rp_requested st) = Some (t, n) ->
    assoc (e_ref e) (rp_decided st) = Some "approve" -> includes (rp_used st) (e_ref e) = false ->
    accepts st e (with_used (e_ref e) st).

Lemma same_tuple_some t r : same_tuple t r = true -> t = Some r.
Proof. apply bool_decide_eq_true. Qed.

Lemma replay_entry_accepts st e st' : replay_entry st e = Ok st' -> accepts st e st'.
Proof.
  unfold ApprovalChain.replay_entry. intros H.
  destruct (negb (starts_with "approval." (e_kind e))) eqn:K.
  { injection H as <-. bool_hyps. by constructor; intros E; rewrite E in K. }
  fold (entry_tuple e) (entry_decision e) in H.
  assert (H' : (if String.eqb (e_kind e) "approval.requested" then
        match entry_tuple e with
        | None => Err (e_seq e, Malformed)
        | Some t => if known (e_ref e) (rp_requested st) then Err (e_seq e, Duplicate) else Ok (with_requested (e_ref e, (t, e_nonce e)) st)
        end
      else if String.eqb (e_kind e) "approval.decided" then
        match e_nonce e with
        | None => Err (e_seq e, NonceReuse)
        | Some n =>
            if includes (rp_nonces st) n then Err (e_seq e, NonceReuse)
            else if negb (match assoc (e_ref e) (rp_requested st) with
                          | Some (t, rn) => same_tuple (entry_tuple e) t && bool_decide (rn = Some n)
                          | None => false
                          end) then Err (e_seq e, BindingMismatch)
            else if known (e_ref e) (rp_decided st) then Err (e_seq e, Duplicate)
            else if includes (rp_cancelled st) (e_ref e) then Err (e_seq e, BindingMismatch)
            else match entry_decision e with
                 | JStr d => if String.eqb d "approve" || String.eqb d "deny" then Ok (with_decided (e_ref e, d) n st) else Err (e_seq e, Malformed)
                 | _ => Err (e_seq e, Malformed)
                 end
        end
      else if String.eqb (e_kind e) "approval.cancelled" then
        if negb (match assoc (e_ref e) (rp_requested st) with Some (t, _) => same_tuple (entry_tuple e) t | None => false end)
           || known (e_ref e) (rp_decided st)
        then Err (e_seq e, BindingMismatch) else Ok (with_cancelled (e_ref e) st)
      else if String.eqb (e_kind e) "approval.used" then
        if negb (match assoc (e_ref e) (rp_requested st) with Some (t, _) => same_tuple (entry_tuple e) t | None => false end)
           || negb (bool_decide (assoc (e_ref e) (rp_decided st) = Some "approve"))
        then Err (e_seq e, BindingMismatch)
        else if includes (rp_used st) (e_ref e) then Err (e_seq e, Duplicate) else Ok (with_used (e_ref e) st)
      else Ok st) = Ok st').
  { revert H. unfold entry_tuple, entry_decision. by destruct (parse (e_payload e)) as [[]|]. }
  clear H K. revert H'.
  destruct (String.eqb_spec (e_kind e) "approval.requested") as [K|K1].
  { destruct (entry_tuple e) as [t|] eqn:T; [|done]. destruct (known _ _) eqn:Kn; [done|]. intros [= <-]. by apply acc_requested. }
  destruct (String.eqb_spec (e_kind e) "approval.decided") as [K|K2].
  { destruct (e_nonce e) as [n|] eqn:N; [|done]. destruct (includes (rp_nonces st) n); [done|].
    destruct (assoc (e_ref e) (rp_requested st)) as [[t rn]|] eqn:R; [|done].
    destruct (same_tuple (entry_tuple e) t) eqn:T; [|done]. apply same_tuple_some in T. destruct (bool_decide_reflect (rn = Some n)) as [->|]; [|done]. cbn [negb andb].
    destruct (known _ _) eqn:Kn; [done|]. destruct (includes (rp_cancelled st) _) eqn:C; [done|].
    destruct (entry_decision e) as [| | | |d| |] eqn:D; try done. destruct (_ || _); [|done]. intros [= <-]. by eapply acc_decided. }
  destruct (String.eqb_spec (e_kind e) "approval.cancelled") as [K|K3].
  { destruct (assoc (e_ref e) (rp_requested st)) as [[t rn]|] eqn:R; [|done].
    destruct (same_tuple (entry_tuple e) t) eqn:T; [|done]. apply same_tuple_some in T. cbn [negb orb].
    destruct (known _ _) eqn:Kn; [done|]. intros [= <-]. by eapply acc_cancelled. }
  destruct (String.eqb_spec (e_kind e) "approval.used") as [K|K4].
  { destruct (assoc (e_ref e) (rp_requested st)) as [[t rn]|] eqn:R; [|done].
    destruct (same_tuple (entry_tuple e) t) eqn:T; [|done]. apply same_tuple_some in T. cbn [negb orb].
    destruct (bool_decide_reflect (assoc (e_ref e) (rp_decided st) = Some "approve")) as [D|]; [|done]. cbn [negb].
    destruct (includes _ _) eqn:U; [done|]. intros [= <-]. by eapply acc_used. }
  intros [= <-]. by apply acc_other.
Qed.

Lemma known_none {V} r (l : list (string * V)) : known r l = false -> assoc r l = None.
Proof. unfold known. by destruct (assoc r l). Qed.

Lemma tracks_step rows st e st' : tracks rows st -> replay_entry st e = Ok st' -> tracks (rows ++ [e]) st'.
Proof.
  intros [R D U C X] H. apply replay_entry_accepts in H.
  assert (R' : forall r t n, assoc r (rp_requested st) = Some (t, n) ->
    exists e', e' ∈ rows ++ [e] /\ e_kind e' = "approval.requested" /\ e_ref e' = r /\ entry_tuple e' = Some t /\ e_nonce e' = n).
  { intros r t n (e' & He' & H')%R. exists e'. split; [apply elem_of_app; by left|done]. }
  assert (D' : forall r d, assoc r (rp_decided st) = Some d ->
    exists t n, assoc r (rp_requested st) = Some (t, n) /\ decided_by (rows ++ [e]) r d t).
  { intros r d (t & n & Hr & Hd)%D. exists t, n. split; [done|by apply decided_by_snoc]. }
  assert (U' : forall x, x ∈ rows ++ [e] -> e_kind x = "approval.used" -> x = e \/ includes (rp_used st) (e_ref x) = true).
  { intros x [Hx|Hx%list_elem_of_singleton]%elem_of_app Hk; [right; by apply U|by left]. }
  assert (C' : forall x, x ∈ rows ++ [e] -> e_kind x = "approval.cancelled" -> x = e \/ includes (rp_cancelled st) (e_ref x) = true).
  { intros x [Hx|Hx%list_elem_of_singleton]%elem_of_app Hk; [right; by apply C|by left]. }
  destruct H as [K1 K2 K3 K4|t K T Kn|t n d K T N Rq Kn Cn Dc|t n K T Rq Kn|t n K T Rq Dc Us];
    constructor; cbn [rp_requested rp_decided rp_used rp_cancelled with_requested with_decided with_cancelled with_used]; try done;
    try (intros x Hx Hk; specialize (U' x Hx Hk) as [->|?]; [congruence|done]);
    try (intros x Hx Hk; specialize (C' x Hx Hk) as [->|?]; [congruence|done]).
  - intros r t' n. rewrite assoc_cons. destruct (String.eqb_spec (e_ref e) r) as [<-|]; [|by apply R'].
    intros [= <- <-]. exists e. split; [apply elem_of_app; right; by apply list_elem_of_singleton|done].
  - intros r d (t' & n & Hr & Hd)%D'. exists t', n. split; [|done]. rewrite assoc_cons.
    destruct (String.eqb_spec (e_ref e) r) as [<-|]; [|done]. apply known_none in Kn. congruence.
  - intros r d'. rewrite assoc_cons. destruct (String.eqb_spec (e_ref e) r) as [<-|]; [|by apply D'].
    intros [= <-]. exists t, (Some n). split; [done|]. destruct (R _ _ _ Rq) as (q & Hq & Kq & Rfq & Tq & Nq).
    exists rows, e, [], q. split_and!; try done; congruence.
  - intros r Hr. rewrite assoc_cons. destruct (String.eqb_spec (e_ref e) r) as [<-|]; [congruence|by apply X].
  - intros x Hx Hk. rewrite includes_cons. destruct (C' x Hx Hk) as [->| ->]; [by rewrite String.eqb_refl|by rewrite orb_true_r].
  - intros r. rewrite includes_cons. destruct (String.eqb_spec r (e_ref e)) as [->|]; [intros _; by apply known_none|apply X].
  - intros x Hx Hk. rewrite includes_cons. destruct (U' x Hx Hk) as [->| ->]; [by rewrite String.eqb_refl|by rewrite orb_true_r].
Qed.

Lemma tracks_fold rows l st st' : tracks rows st -> rfold replay_entry st l = Ok st' -> tracks (rows ++ l) st'.
Proof.
  revert rows st. induction l as [|e l IH]; intros rows st Ht H; simpl in H.
  - rewrite app_nil_r. by injection H as <-.
  - apply rbind_ok in H as (st1 & H1 & H2). rewrite cons_middle, app_assoc. eapply IH; [|done]. by eapply tracks_step.
Qed.

Lemma tracks_nil : tracks [] no_replay.
Proof. constructor; cbn; try done; by intros e ?%elem_of_nil. Qed.

(** An approval is spent once and only for what was approved: in a chain that verifies, an entry
    that records a use comes after a decision "approve" on the same reference, which comes after the
    request with the same binding and the same nonce; no earlier entry records a use of it and no
    earlier entry cancels it. *)
Theorem approval_used_once (db : Db) (before after : list Entry) (e : Entry) :
  intact db -> c_rows db = before ++ e :: after -> e_kind e = "approval.used" ->
  (exists t, entry_tuple e = Some t /\ decided_by before (e_ref e) "approve" t)
  /\ (forall x, x ∈ before -> e_ref x = e_ref e -> e_kind x <> "approval.used" /\ e_kind x <> "approval.cancelled").
Proof.
  intros (_ & _ & Hs & _)%intact_parts Hr Hk. unfold ApprovalChain.semantic in Hs. rewrite Hr in Hs. rewrite rfold_app in Hs.
  destruct (rfold replay_entry no_replay before) as [st|] eqn:Hb; [|done]. cbn [rbind rfold] in Hs.
  destruct (replay_entry st e) as [st'|] eqn:He; [|done].
  pose proof (tracks_fold [] before no_replay st tracks_nil Hb) as [R D U C X]. cbn [app] in *.
  apply replay_entry_accepts in He. destruct He as [K1 K2 K3 K4|t K T Kn|t n d K T N Rq Kn Cn Dc|t n K T Rq Kn|t n K T Rq Dc Us]; try congruence.
  split.
  - destruct (D _ _ Dc) as (t' & n' & Rq' & Hd). rewrite Rq in Rq'. injection Rq' as <- <-. eauto.
  - intros x Hx Hxr. split; intros Hxk.
    + apply U in Hxk; [|done]. rewrite Hxr in Hxk. congruence.
    + apply C in Hxk; [|done]. rewrite Hxr in Hxk. apply X in Hxk. congruence.
Qed.

End spec.
