(* ===== verification/ApprovalChainRun.v ===== *)
(** * Runs of the approval chain

    A concrete keyed hash, injective, and the theorems of [ApprovalChainSpec]
    applied to short chains. *)

From S2P Require Import Prelude ApprovalChain ApprovalChainSpec.
From Stdlib Require Import Ascii.

(** ** An injective hash *)

Fixpoint bits (p : positive) : string :=
  match p with xH => "" | xO q => String "0"%char (bits q) | xI q => String "1"%char (bits q) end.

Lemma bits_inj p q : bits p = bits q -> p = q.
Proof.
  revert q. induction p as [p IH|p IH|]; intros [q|q|] H; simpl in H; try discriminate; try done;
    injection H as H; by rewrite (IH q H).
Qed.

Definition digest (l : list positive) : string := bits (positives_flatten l).

Lemma digest_inj l l' : digest l = digest l' -> l = l'.
Proof. intros H%bits_inj%(f_equal positives_unflatten). rewrite !positives_unflatten_flatten in H. by injection H. Qed.

Definition run_hmac (p : string) (s t : Z) (k r : string) (n : option string) (x : string) : string :=
  digest [encode p; encode s; encode t; encode k; encode r; encode n; encode x].
Definition run_tag (s : Z) (m : string) : string := digest [encode "head"; encode s; encode m].

Lemma run_hmac_injective : hmac_injective run_hmac.
Proof.
  intros p s t k r n x p' s' t' k' r' n' x' H%digest_inj. injection H as Hp Hs Ht Hk Hr Hn Hx.
  split_and!; by apply (inj encode).
Qed.

(** ** Runs

    The longer runs use a short hash: nothing they show rests on the one above. *)

Definition short_hmac (p : string) (s t : Z) (k r : string) (n : option string) (x : string) : string :=
  digits 2 s +:+ k +:+ x +:+ String.substring 0 4 p.
Definition short_tag (s : Z) (m : string) : string := digits 2 s +:+ m.

Definition run_verifySignature (m pk sg : string) : bool := String.eqb sg (pk +:+ m).
Definition run_signer : option DecisionSigner := Some {| publicKey := "K"; sign_mac := fun m => "K" +:+ m |}.

Definition run_bound : js :=
  JObj [("actionHash", JStr "h"); ("principal", JStr "p"); ("subject", JObj [("kind", JStr "agent"); ("id", JStr "a")]);
        ("turnId", JStr "t"); ("taskId", JStr ""); ("sessionId", JStr "s")].

(** The texts the runs use, each standing for one payload. *)
Definition run_parse (s : string) : option js :=
  if String.eqb s "bound" then Some (JObj [("bound", run_bound)])
  else if String.eqb s "approve" then Some (JObj [("bound", run_bound); ("decision", JStr "approve")])
  else None.
Definition run_stringify (v : js) : string :=
  match v with JStr s => s | _ => "" end.

Definition run_world : World (Text := string) unit unit :=
  {| w_chain := empty_chain; w_rows := tt; w_tx := false; w_ticks := 0; w_log := [] |}.
Definition run_append (kind ref text : string) (nonce : option string) (w : World (Text := string) unit unit) : World unit unit :=
  (append run_stringify run_parse short_hmac short_tag run_verifySignature run_signer (X := unit) (fun n => Z.of_nat n) kind ref (JStr text) nonce w).2.

Definition run_plain : World (Text := string) unit unit := run_append "grant.created" "g1" "def" None run_world.
Definition run_approved : World (Text := string) unit unit :=
  run_append "approval.used" "r1" "bound" None
    (run_append "approval.decided" "r1" "approve" (Some "n") (run_append "approval.requested" "r1" "bound" (Some "n") run_world)).

Definition run_intact (w : World (Text := string) unit unit) : Prop :=
  intact run_parse short_hmac short_tag run_verifySignature run_signer (w_chain w).

Lemma append_exact_witness :
  run_intact run_plain /\
  exists e w', append run_stringify run_parse short_hmac short_tag run_verifySignature run_signer (X := unit) (fun n => Z.of_nat n)
                 "grant.used" "g1" (JObj []) None run_plain = (Ok e, w') /\ run_intact w' /\ e_seq e = 2.
Proof.
  assert (H : run_intact run_plain) by (vm_compute; reflexivity). split; [exact H|].
  destruct (append_exact run_stringify run_parse short_hmac short_tag run_verifySignature run_signer (X := unit) (fun n => Z.of_nat n)
              run_plain "grant.used" "g1" (JObj []) None) as (A & _ & _).
  - intros k m [= <-]. cbn. apply String.eqb_refl.
  - intros s Hs. assert (E : c_sigs (w_chain run_plain) = []) by (vm_compute; reflexivity). rewrite E in Hs. by apply elem_of_nil in Hs.
  - destruct (A H eq_refl) as (e & w' & E & _ & Hq & _ & _ & _ & _ & Hi & _). exists e, w'. split; [exact E|]. split; [exact Hi|].
    rewrite Hq. vm_compute. reflexivity.
Defined.

(** One entry under the injective hash. *)
Definition pinned : ChainDb string :=
  w_chain (append run_stringify run_parse run_hmac run_tag run_verifySignature run_signer (X := unit) (fun n => Z.of_nat n)
             "grant.created" "g1" (JStr "def") None run_world).2.

(** The same head over a copy that holds one stray signature. *)
Definition stray (db : ChainDb string) : ChainDb string :=
  {| c_rows := c_rows db; c_head := c_head db; c_sigs := [{| sg_seq := 99; sg_public := "X"; sg_signature := "" |}] |}.

Lemma stray_head db : c_head db = c_head (stray db).
Proof. reflexivity. Qed.

Lemma head_pins_log_witness :
  length (c_rows pinned) = 1%nat /\ c_rows pinned = c_rows (stray pinned).
Proof.
  split; [vm_compute; reflexivity|].
  apply (head_pins_log run_parse run_hmac run_tag run_verifySignature run_signer);
    [exact run_hmac_injective|vm_compute; reflexivity|vm_compute; reflexivity|exact (stray_head _)].
Defined.

Lemma approval_used_once_witness :
  exists before e, c_rows (w_chain run_approved) = before ++ [e] /\ length before = 2%nat
    /\ exists t, entry_tuple run_parse e = Some t /\ decided_by run_parse before (e_ref e) "approve" t.
Proof.
  assert (L : length (c_rows (w_chain run_approved)) = 3%nat) by (vm_compute; reflexivity).
  assert (K : e_kind <$> list.last (c_rows (w_chain run_approved)) = Some "approval.used") by (vm_compute; reflexivity).
  destruct (c_rows (w_chain run_approved)) as [|e before _] eqn:E using rev_ind; [discriminate|].
  rewrite last_snoc in K. injection K as K. rewrite length_app in L. exists before, e. split; [reflexivity|]. split; [simpl in L; lia|].
  destruct (approval_used_once run_parse short_hmac short_tag run_verifySignature run_signer (w_chain run_approved) before [] e) as (A & _);
    [vm_compute; reflexivity|exact E|exact K|exact A].
Defined.
