(* ===== verification/Grants.v ===== *)
(** * The grant store

    Model of [packages/core/src/grants/store.ts]: the grants table over the approval
    chain.  Every definition of a grant and everything that happens to it is chained;
    a read compares the row with its entries.  The table is one of the tables of the
    database the chain lives in, so a change and its entry commit together. *)

From S2P Require Import Prelude PolicyCaps PolicyDecide ApprovalChain.
From Stdlib Require Import Ascii.

(** ** Data *)

(* @src grants/store.ts 21 21 USE_RECORD_GRANULARITY_MS *)
Definition USE_RECORD_GRANULARITY_MS : Z := 60 * 60000.

(* @src grants/store.ts 23 27 GrantErrorCode *)
Inductive GrantErrorCode : Type := InvalidGrant | CeilingExceeded | SurfaceTooLow | NeverCapability | DuplicateId.
#[export] Instance GrantErrorCode_eq_dec : EqDecision GrantErrorCode.
Proof. solve_decision. Defined.

(** What is thrown here besides the chain's errors: a refusal of the store, the failure of the
    audit trail, or an error of the caller that shares the transaction. *)
Inductive GrantFault : Type := Refused (c : GrantErrorCode) | AuditFailed | Foreign (reason : string).

(* @src grants/store.ts 30 39 StoredGrant *)
Record StoredGrant : Type := {
  grant : Grant; createdBy : string; st_effect : option string; revokedAt : option Z; endReason : option string; attestedVia : option string
}.

(* @src grants/store.ts 40 40 GrantState *)
Inductive GrantState : Type := Active | Revoked | Consumed | Suspended.
#[export] Instance GrantState_eq_dec : EqDecision GrantState.
Proof. solve_decision. Defined.

(** The input is typed: tests of a value's type alone have no counterpart. *)
(* @src grants/store.ts 42 63 CreateGrantInput *)
Record CreateGrantInput : Type := {
  i_id : option string; i_capability : string; i_person : string; i_agent : string; i_scope : GrantScope; i_match : GrantMatch;
  i_createdBy : string; i_surface : Z; i_effect : option string; i_expiresAt : option num; i_actionHash : option string;
  i_taskId : option string; i_sessionId : option string; i_projectId : option string; i_jobId : option string;
  i_delegable : bool; i_acknowledgedUnsandboxed : bool; i_attestedVia : option string
}.

(* @src grants/store.ts 66 66 MAX_FIELD_CHARS *)
Definition MAX_FIELD_CHARS : Z := 256.

Definition is_lower_digit (c : ascii) : bool :=
  let n := Ascii.nat_of_ascii c in (Nat.leb 48 n && Nat.leb n 57) || (Nat.leb 97 n && Nat.leb n 122).

(* @src grants/store.ts 68 68 ATTESTED_VIA *)
Definition ATTESTED_VIA (s : string) : bool :=
  starts_with "attested:" s
  && match drop 9 (chars s) with
     | c :: r => is_lower_digit c && forallb (fun d => is_lower_digit d || Ascii.eqb d "-") r && Nat.leb (length r) 31
     | [] => false
     end.

(* @src grants/store.ts 70 70 GrantLifecycleChange *)
Inductive GrantLifecycleChange : Type := Used | Expired | ToSuspended.
#[export] Instance GrantLifecycleChange_eq_dec : EqDecision GrantLifecycleChange.
Proof. solve_decision. Defined.

Inductive MatchKind : Type := KAction | KCapability | KPath.

(** Columns under the checks of the table: [match_kind], [duration], [match_access] and the flags hold
    what their checks allow, and a row of kind path has its path columns filled. *)
(* @src grants/store.ts 90 96 GrantRow *)
Record GrantRow : Type := {
  gr_id : string; gr_person : string; gr_agent : string; gr_capability : string; gr_effect : option string; match_kind : MatchKind; match_path : option string;
  match_access : option Access; match_recursive : option bool; duration : GrantScope; created_by : string; created_at : Z; expires_at : option Z; revoked_at : option Z; end_reason : option string;
  last_used_at : option Z; consumed_at : option Z; action_hash : option string; task_id : option string; session_id : option string;
  project_id : option string; job_id : option string; gr_delegable : bool; gr_surface : Z; acknowledged_unsandboxed : bool;
  def_hash : string; chain_seq : Z; attested_via : option string
}.

Definition scope_text (s : GrantScope) : string :=
  match s with Once => "once" | Task => "task" | Session => "session" | Always => "always" end.
Definition kind_text (k : MatchKind) : string := match k with KAction => "action" | KCapability => "capability" | KPath => "path" end.
Definition kind_of (m : GrantMatch) : MatchKind := match m with MAction => KAction | MCapability => KCapability | MPath _ _ _ => KPath end.
Definition access_text (a : Access) : string := match a with ARead => "read" | AWrite => "write" end.
Definition or_null (s : option string) : js := match s with Some t => JStr t | None => JNull end.

(* @src grants/store.ts 99 109 definitionOf *)
Definition definition_js (r : GrantRow) : js :=
  JObj ([("id", JStr (gr_id r)); ("person", JStr (gr_person r)); ("agent", JStr (gr_agent r)); ("capability", JStr (gr_capability r));
         ("effect", or_null (gr_effect r)); ("scope", JStr (scope_text (duration r)));
         ("match", JObj [("kind", JStr (kind_text (match_kind r))); ("path", or_null (match_path r));
                         ("access", or_null (access_text <$> match_access r));
                         ("recursive", match match_recursive r with Some b => JBool b | None => JNull end)]);
         ("createdBy", JStr (created_by r)); ("createdAt", JNum (Fin (created_at r)));
         ("expiresAt", match expires_at r with Some t => JNum (Fin t) | None => JNull end);
         ("actionHash", or_null (action_hash r)); ("taskId", or_null (task_id r)); ("sessionId", or_null (session_id r));
         ("projectId", or_null (project_id r)); ("jobId", or_null (job_id r)); ("delegable", JBool (gr_delegable r));
         ("surface", JNum (Fin (gr_surface r))); ("acknowledgedUnsandboxed", JBool (acknowledged_unsandboxed r))]
        ++ match attested_via r with Some v => [("attestedVia", JStr v)] | None => [] end).

(* @src grants/store.ts 111 111 View *)
Record View : Type := { v_grant : StoredGrant; v_state : GrantState }.

(** The path columns of a path row are not null. *)
(* @src grants/store.ts 215 217 #toGrant *)
Definition row_match (r : GrantRow) : GrantMatch :=
  match match_kind r with
  | KPath => MPath (default "" (match_path r)) (default ARead (match_access r)) (default false (match_recursive r))
  | KAction => MAction
  | KCapability => MCapability
  end.

(* @src grants/store.ts 214 237 #toGrant *)
Definition toGrant (r : GrantRow) : StoredGrant :=
  {| grant :=
       {| g_id := gr_id r; g_capability := gr_capability r; g_person := gr_person r; g_agent := gr_agent r; g_scope := duration r;
          g_match := row_match r; createdAt := Fin (created_at r); lastUsedAt := Fin <$> last_used_at r; expiresAt := Fin <$> expires_at r;
          revoked := match revoked_at r with Some _ => JBool true | None => JUndef end; consumedAt := Fin <$> consumed_at r;
          g_actionHash := action_hash r; g_taskId := task_id r; g_sessionId := session_id r; g_projectId := project_id r;
          g_jobId := job_id r; delegable := if gr_delegable r then JBool true else JUndef; g_surface := gr_surface r;
          acknowledgedUnsandboxed := if acknowledged_unsandboxed r then JBool true else JUndef |};
     createdBy := created_by r; st_effect := gr_effect r; revokedAt := revoked_at r; endReason := end_reason r; attestedVia := attested_via r |}.

(** A policy audit line, by the fields this store fills. *)
(* @src grants/store.ts 239 247 #note *)
Record AuditLine : Type := {
  l_action : string; l_person : string; l_agent : string; l_capability : string; l_grantId : string; l_scope : GrantScope; l_matchKind : string;
  l_targets : option (list string); l_jobId : option string; l_taskId : option string; l_sessionId : option string;
  l_decisionSurface : option Z; l_by : option string; l_reason : option string; l_actionHash : option string
}.

(** What leaves the process: audit lines of this store and of the service above it (by action, request,
    person and first grant), and the lifecycle changes handed to the listener. *)
Inductive Event : Type :=
| Audit (l : AuditLine)
| ServiceAudit (action request : string) (who : option string) (grantId : option string) (reason : option string)
| Notify (c : GrantLifecycleChange) (g : StoredGrant) (s : GrantState).

(* @src grants/store.ts 239 247 #note *)
Definition audit_line (action : string) (g : StoredGrant) (by_ reason hash : option string) : AuditLine :=
  let p := grant g in
  let created := String.eqb action "grant.created" in
  {| l_action := action; l_person := g_person p; l_agent := g_agent p; l_capability := g_capability p; l_grantId := g_id p; l_scope := g_scope p;
     l_matchKind := kind_text (kind_of (g_match p)); l_targets := match g_match p with MPath t _ _ => Some [t] | _ => None end;
     l_jobId := g_jobId p; l_taskId := g_taskId p; l_sessionId := g_sessionId p;
     l_decisionSurface := if created then Some (g_surface p) else None;
     l_by := match by_ with Some b => Some b | None => if created then Some (createdBy g) else None end;
     l_reason := reason; l_actionHash := hash |}.

(** The grants table inside the database's other tables. *)
Class GrantTable (Rows : Type) : Type := {
  grants_of : Rows -> list GrantRow;
  with_grants : (list GrantRow -> list GrantRow) -> Rows -> Rows;
  grants_with : forall f r, grants_of (with_grants f r) = f (grants_of r)
}.

#[export] Instance own_table : GrantTable (list GrantRow) := {| grants_of r := r; with_grants f r := f r; grants_with _ _ := eq_refl |}.

(** [ORDER BY created_at, id] *)
Definition row_leb (a b : GrantRow) : bool :=
  (created_at a <? created_at b) || ((created_at a =? created_at b) && negb (str_ltb (gr_id b) (gr_id a))).

Section store.
Context {Text : Type} `{EqDecision Text} (stringify : js -> Text) (parse : Text -> option js).
Context (hmac : string -> Z -> Z -> string -> string -> option string -> Text -> string) (tag : Z -> string -> string).
Context (verifySignature : string -> string -> string -> bool) (signer : option DecisionSigner).
Context {Rows : Type} `{GrantTable Rows} (clk : nat -> Z) (maxDays : Z).
(** Whether the audit trail takes a line after what was recorded; [None] without one. *)
Context (audit : option (list Event -> Event -> bool)).
(** The path checks of [policy/paths.ts], the digest of a definition, and the random part of a new id. *)
Context (checkSyntax : string -> option bool) (reachesSystemTree : string -> bool -> bool) (sha : Text -> string) (freshId : Z -> nat -> string).

Notation W := (World (Text := Text) Rows Event).
Notation M := (SE W (Fault GrantFault)).
Notation build := (build parse hmac tag verifySignature signer).
Notation append := (append stringify parse hmac tag verifySignature signer clk).
Notation read_clock := (ApprovalChain.clock_now clk).

Definition snapshot : M (ChainSnapshot Text) := gets (fun w => build (w_chain w)).
Definition select (p : GrantRow -> bool) : M (list GrantRow) := gets (fun w => bfilter p (grants_of (w_rows w))).
Definition update_where (p : GrantRow -> bool) (f : GrantRow -> GrantRow) : M Z :=
  hits ← select p;
  _ ← on_rows (with_grants (map (fun r => if p r then f r else r)));
  mret (Z.of_nat (length hits)).
Definition has_id (id : string) (r : GrantRow) : bool := String.eqb (gr_id r) id.

(** ** Views *)

(** The text of the definition a [grant.created] entry chained. *)
(* @src grants/store.ts 198 198 #views *)
Definition chained_text (e : ChainEntry Text) : option Text :=
  match parse (e_payload e) with
  | Some p => match jget "def" p with JUndef => None | d => Some (stringify d) end
  | None => None
  end.

Definition of_kind (k : string) (e : ChainEntry Text) : bool := String.eqb (e_kind e) k.

(* @src grants/store.ts 195 199 #views *)
Definition vouched (snap : ChainSnapshot Text) (r : GrantRow) : bool :=
  match bfind (of_kind "grant.created") (byRef (gr_id r) snap) with
  | Some e => trusted snap e && bool_decide (chained_text e = Some (stringify (definition_js r)))
  | None => false
  end.

(** [Math.max(...l)] of a list that is not empty. *)
Definition zmax (l : list Z) : option Z := match l with [] => None | x :: r => Some (fold_left Z.max r x) end.

(* @src grants/store.ts 190 212 #views *)
Definition view_of (snap : ChainSnapshot Text) (r : GrantRow) : View :=
  let l := byRef (gr_id r) snap in
  let s := toGrant r in
  let g := grant s in
  let ended := bfind (fun e => of_kind "grant.revoked" e || of_kind "grant.ended" e) l in
  let consumed := bfind (fun e => of_kind "grant.consumed" e && trusted snap e) l in
  let uses := bfilter (fun e => of_kind "grant.used" e && trusted snap e) l in
  let revokedAt' := match revokedAt s with Some t => Some t | None => e_ts <$> ended end in
  let revoked' := if bool_decide (revokedAt' <> None) then JBool true else revoked g in
  let consumedAt' := match consumedAt g with Some t => Some t | None => (fun e => Fin (e_ts e)) <$> consumed end in
  {| v_grant :=
       {| grant :=
            {| g_id := g_id g; g_capability := g_capability g; g_person := g_person g; g_agent := g_agent g; g_scope := g_scope g;
               g_match := g_match g; createdAt := createdAt g; lastUsedAt := Fin <$> zmax (map e_ts uses); expiresAt := expiresAt g;
               revoked := revoked'; consumedAt := consumedAt'; g_actionHash := g_actionHash g; g_taskId := g_taskId g;
               g_sessionId := g_sessionId g; g_projectId := g_projectId g; g_jobId := g_jobId g; delegable := delegable g;
               g_surface := g_surface g; acknowledgedUnsandboxed := acknowledgedUnsandboxed g |};
          createdBy := createdBy s; st_effect := st_effect s; revokedAt := revokedAt'; endReason := endReason s; attestedVia := attestedVia s |};
     v_state := if negb (vouched snap r) then Suspended
                else if js_is_true revoked' then Revoked
                else match consumedAt' with Some _ => Consumed | None => Active end |}.

(** ** Reads: nothing is written *)

(* @src grants/store.ts 191 192 #views *)
Definition views (w : W) (rows : list GrantRow) : list View := map (view_of (build (w_chain w))) rows.

Definition is_active (v : View) : bool := bool_decide (v_state v = Active).

(* @src grants/store.ts 158 163 list *)
Definition list_grants (w : W) (p a c : string) : list Grant :=
  let rows := sort_by row_leb (bfilter (fun r =>
    String.eqb (gr_person r) p && String.eqb (gr_agent r) a && String.eqb (gr_capability r) c
    && bool_decide (revoked_at r = None) && bool_decide (consumed_at r = None)) (grants_of (w_rows w))) in
  map (fun v => grant (v_grant v)) (bfilter is_active (views w rows)).

(** The row is the table's only one with the id. *)
(* @src grants/store.ts 185 188 #viewOf *)
Definition viewOf (w : W) (id : string) : option View := view_of (build (w_chain w)) <$> bfind (has_id id) (grants_of (w_rows w)).

(* @src grants/store.ts 166 171 get *)
Definition get (w : W) (id : string) : option Grant :=
  match viewOf w id with
  | Some v => if bool_decide (v_state v = Suspended) then None else Some (grant (v_grant v))
  | None => None
  end.

(* @src grants/store.ts 174 176 chainEntries *)
Definition chainEntries (w : W) : list (ChainEntry Text) := s_entries (build (w_chain w)).

(* @src grants/store.ts 179 183 inspect *)
Definition inspect (w : W) (p a : option string) : list View :=
  let ok f v := match f with Some x => String.eqb x v | None => true end in
  views w (sort_by row_leb (bfilter (fun r => ok p (gr_person r) && ok a (gr_agent r)) (grants_of (w_rows w)))).

(** The store as the evaluator sees it at one reading of its clock. *)
Definition deps_of (w : W) (now : num) : Deps :=
  {| maxGrantDays := Some maxDays; grants_list := list_grants w; grants_get := get w; PolicyDecide.clock_now := now |}.

(** ** Notifications and audit lines *)

Definition log (e : Event) : M unit :=
  modify (fun w => {| w_chain := w_chain w; w_rows := w_rows w; w_tx := w_tx w; w_ticks := w_ticks w; w_log := w_log w ++ [e] |}).

(** The set of emitted keys is read off the log. *)
Definition emitted (l : list Event) (c : GrantLifecycleChange) (id : string) : bool :=
  existsb (fun e => match e with Notify c' g _ => bool_decide (c' = c) && String.eqb (g_id (grant g)) id | _ => false end) l.

(** A listener that throws is ignored. *)
(* @src grants/store.ts 138 145 #emit *)
Definition emit (c : GrantLifecycleChange) (g : StoredGrant) (s : GrantState) : M unit :=
  l ← gets w_log;
  if negb (bool_decide (c = Used)) && emitted l c (g_id (grant g)) then mret tt else log (Notify c g s).

Fixpoint each {A} (f : A -> M unit) (l : list A) : M unit := match l with [] => mret tt | x :: r => _ ← f x; each f r end.

(* @src grants/store.ts 148 154 announceDue *)
Definition announceDue (p : option string) : M unit :=
  now ← read_clock;
  w ← gets id;
  each (fun v => match v_state v with
                 | Suspended => emit ToSuspended (v_grant v) (v_state v)
                 | Active => if num_leb (grantExpiry (grant (v_grant v)) maxDays) (Fin now) then emit Expired (v_grant v) (v_state v) else mret tt
                 | _ => mret tt
                 end) (inspect w p None).

(** A line the caller must not act without: a failure to record it is thrown. *)
Definition record_line (e : Event) : M unit :=
  match audit with
  | None => mret tt
  | Some ok => l ← gets w_log; _ ← require (ok l e) (Own AuditFailed); log e
  end.

(* @src grants/store.ts 239 247 #note *)
Definition note (action : string) (g : StoredGrant) (by_ reason hash : option string) : M unit :=
  record_line (Audit (audit_line action g by_ reason hash)).

(** ** Create *)

Definition bad {A} (c : GrantErrorCode) : M A := throw (Own (Refused c)).
Definition ensure (b : bool) (c : GrantErrorCode) : M unit := require b (Own (Refused c)).
Definition str (v : option string) : bool := match v with Some s => negb (is_empty s) | None => false end.

(* @src grants/store.ts 276 279 create *)
Definition fields_fit (i : CreateGrantInput) : bool :=
  forallb (fun v => match v with Some s => slen s <=? MAX_FIELD_CHARS | None => true end)
    [i_id i; Some (i_person i); Some (i_agent i); Some (i_createdBy i); i_taskId i; i_sessionId i; i_projectId i; i_jobId i; i_effect i; i_actionHash i].

(** [p.split(/[\\/]/)] *)
Fixpoint split_path (cur : list ascii) (p : list ascii) : list (list ascii) :=
  match p with
  | [] => [reverse cur]
  | c :: r => if is_slash c || is_backslash c then reverse cur :: split_path [] r else split_path (c :: cur) r
  end.

(* @src grants/store.ts 296 297 create *)
Definition canonical_path (p : string) : bool :=
  let rest := drop 1 (split_path [] (chars p)) in
  negb (Nat.eqb (length rest) 0) && negb (existsb (fun s => bool_decide (s = []) || bool_decide (s = chars ".")) rest).

Definition system_flags : CallFlags :=
  {| outsideRoots := true; denyListHit := false; privileged := false; irreversible := false; batch := false; shellAllowlisted := false;
     sandboxed := false; secretSlotDeclared := false; publishPublic := false; systemTree := true |}.

(* @src grants/store.ts 288 304 create *)
Definition check_path (d : CapabilityDef) (i : CreateGrantInput) (path : string) (recursive : bool) : M unit :=
  _ ← ensure (negb (is_empty path)) InvalidGrant;
  _ ← match checkSyntax path with
      | None => bad InvalidGrant
      | Some absolute => ensure absolute InvalidGrant
      end;
  _ ← ensure (canonical_path path) InvalidGrant;
  if reachesSystemTree path recursive then
    _ ← ensure (scopeRank (i_scope i) <=? scopeRank (maxScopeFor d system_flags)) CeilingExceeded;
    ensure (requiredSurface d (i_scope i) system_flags <=? i_surface i) SurfaceTooLow
  else mret tt.

(* @src grants/store.ts 263 304 create *)
Definition check_create (i : CreateGrantInput) : M CapabilityDef :=
  match CAPABILITIES_get (lower (trim (i_capability i))) with
  | None => bad InvalidGrant
  | Some d =>
      _ ← ensure (negb (bool_decide (inside (base d) = Never))) NeverCapability;
      match ceiling d with
      | None => bad CeilingExceeded
      | Some top =>
          _ ← ensure (negb (is_empty (i_person i)) && negb (is_empty (i_agent i)) && negb (is_empty (i_createdBy i))) InvalidGrant;
          _ ← ensure (scopeRank (i_scope i) <=? scopeRank top) CeilingExceeded;
          _ ← ensure ((i_surface i =? 1) || (i_surface i =? 2) || (i_surface i =? 3)) SurfaceTooLow;
          _ ← ensure (match minSurface d with Some m => m <=? i_surface i | None => true end) SurfaceTooLow;
          _ ← ensure (match i_attestedVia i with Some v => ATTESTED_VIA v && (2 <=? i_surface i) | None => true end) InvalidGrant;
          _ ← ensure (fields_fit i) InvalidGrant;
          _ ← match i_expiresAt i with
              | Some t => _ ← ensure (is_finite t) InvalidGrant; now ← read_clock; ensure (negb (num_leb t (Fin now))) InvalidGrant
              | None => mret tt
              end;
          _ ← ensure (match i_scope i with
                      | Once => str (i_actionHash i) && bool_decide (i_match i = MAction)
                      | _ => negb (bool_decide (i_match i = MAction))
                      end) InvalidGrant;
          _ ← ensure (negb (bool_decide (i_scope i = Task)) || str (i_taskId i)) InvalidGrant;
          _ ← ensure (negb (bool_decide (i_scope i = Session)) || str (i_sessionId i)) InvalidGrant;
          _ ← ensure (match i_jobId i with Some j => bool_decide (i_scope i = Always) && negb (is_empty j) | None => true end) InvalidGrant;
          _ ← match i_match i with MPath p _ b => check_path d i p b | _ => mret tt end;
          mret d
      end
  end.

Definition int_of (n : num) : Z := match n with Fin z => z | _ => 0 end.

(** The row as it is written first, before it is chained. *)
(* @src grants/store.ts 319 327 #insert *)
Definition new_row (id : string) (now : Z) (i : CreateGrantInput) (cap : string) : GrantRow :=
  {| gr_id := id; gr_person := i_person i; gr_agent := i_agent i; gr_capability := cap; gr_effect := i_effect i; match_kind := kind_of (i_match i);
     match_path := match i_match i with MPath p _ _ => Some p | _ => None end; match_access := match i_match i with MPath _ a _ => Some a | _ => None end;
     match_recursive := match i_match i with MPath _ _ b => Some b | _ => None end;
     duration := i_scope i; created_by := i_createdBy i; created_at := now; expires_at := int_of <$> i_expiresAt i; revoked_at := None;
     end_reason := None; last_used_at := None; consumed_at := None; action_hash := i_actionHash i; task_id := i_taskId i;
     session_id := i_sessionId i; project_id := i_projectId i; job_id := i_jobId i; gr_delegable := i_delegable i; gr_surface := i_surface i;
     acknowledged_unsandboxed := i_acknowledgedUnsandboxed i; def_hash := ""; chain_seq := 0; attested_via := i_attestedVia i |}.

Definition with_chain (h : string) (seq : Z) (r : GrantRow) : GrantRow :=
  {| gr_id := gr_id r; gr_person := gr_person r; gr_agent := gr_agent r; gr_capability := gr_capability r; gr_effect := gr_effect r;
     match_kind := match_kind r; match_path := match_path r; match_access := match_access r; match_recursive := match_recursive r; duration := duration r; created_by := created_by r; created_at := created_at r; expires_at := expires_at r;
     revoked_at := revoked_at r; end_reason := end_reason r; last_used_at := last_used_at r; consumed_at := consumed_at r;
     action_hash := action_hash r; task_id := task_id r; session_id := session_id r; project_id := project_id r; job_id := job_id r;
     gr_delegable := gr_delegable r; gr_surface := gr_surface r; acknowledged_unsandboxed := acknowledged_unsandboxed r;
     def_hash := h; chain_seq := seq; attested_via := attested_via r |}.

(** [JSON.parse] of the text just made. *)
(* @src grants/store.ts 316 334 #insert *)
Definition insert (id : string) (now : Z) (i : CreateGrantInput) (cap : string) : M StoredGrant :=
  let row := new_row id now i cap in
  let def := stringify (definition_js row) in
  _ ← on_rows (with_grants (fun rs => rs ++ [row]));
  e ← append "grant.created" id (JObj [("def", default JNull (parse def)); ("defHash", JStr (sha def))]) None;
  _ ← update_where (has_id id) (with_chain (sha def) (e_seq e));
  mret (toGrant (with_chain (sha def) (e_seq e) row)).

(* @src grants/store.ts 305 314 create *)
Definition create (i : CreateGrantInput) : M StoredGrant :=
  d ← check_create i;
  now ← read_clock;
  ticks ← gets w_ticks;
  let id := default (freshId now ticks) (i_id i) in
  transaction (
    taken ← select (has_id id);
    _ ← ensure (bool_decide (taken = [])) DuplicateId;
    g ← insert id now i (cap_id d);
    _ ← note "grant.created" g None None None;
    mret g).

(** ** Ending, using and consuming a grant *)

Definition with_end (at_ : Z) (why : string) (r : GrantRow) : GrantRow :=
  {| gr_id := gr_id r; gr_person := gr_person r; gr_agent := gr_agent r; gr_capability := gr_capability r; gr_effect := gr_effect r;
     match_kind := match_kind r; match_path := match_path r; match_access := match_access r; match_recursive := match_recursive r; duration := duration r; created_by := created_by r; created_at := created_at r; expires_at := expires_at r;
     revoked_at := Some at_; end_reason := Some why; last_used_at := last_used_at r; consumed_at := consumed_at r;
     action_hash := action_hash r; task_id := task_id r; session_id := session_id r; project_id := project_id r; job_id := job_id r;
     gr_delegable := gr_delegable r; gr_surface := gr_surface r; acknowledged_unsandboxed := acknowledged_unsandboxed r;
     def_hash := def_hash r; chain_seq := chain_seq r; attested_via := attested_via r |}.
Definition with_use (used consumed : option Z) (r : GrantRow) : GrantRow :=
  {| gr_id := gr_id r; gr_person := gr_person r; gr_agent := gr_agent r; gr_capability := gr_capability r; gr_effect := gr_effect r;
     match_kind := match_kind r; match_path := match_path r; match_access := match_access r; match_recursive := match_recursive r; duration := duration r; created_by := created_by r; created_at := created_at r; expires_at := expires_at r;
     revoked_at := revoked_at r; end_reason := end_reason r; last_used_at := used; consumed_at := consumed;
     action_hash := action_hash r; task_id := task_id r; session_id := session_id r; project_id := project_id r; job_id := job_id r;
     gr_delegable := gr_delegable r; gr_surface := gr_surface r; acknowledged_unsandboxed := acknowledged_unsandboxed r;
     def_hash := def_hash r; chain_seq := chain_seq r; attested_via := attested_via r |}.

(** A broken chain takes no entry, but the row alone ends the grant. *)
Definition unless_broken (m : M unit) : M unit := fun w =>
  match m w with
  | (Err (ChainBroken _ _), w') => (Ok tt, w')
  | r => r
  end.

Definition end_kind (reason : string) : string := if String.eqb reason "revoked" then "grant.revoked" else "grant.ended".

(* @src grants/store.ts 337 354 revoke *)
Definition revoke (id by_ reason : string) : M bool :=
  transaction (
    now ← read_clock;
    n ← update_where (fun r => has_id id r && bool_decide (revoked_at r = None)) (with_end now reason);
    if negb (n =? 1) then mret false
    else
      _ ← unless_broken (_ ← append (end_kind reason) id (JObj [("by", JStr by_); ("reason", JStr reason)]) None; mret tt);
      rows ← select (has_id id);
      _ ← catch (match rows with r :: _ => note (end_kind reason) (toGrant r) (Some by_) (Some reason) None | [] => mret tt end)
                (fun _ => mret tt : M unit);
      mret true).

Fixpoint revoke_each (ids : list string) (by_ reason : string) (n : Z) : M Z :=
  match ids with
  | [] => mret n
  | i :: r => b ← revoke i by_ reason; revoke_each r by_ reason (if (b : bool) then n + 1 else n)
  end.

(* @src grants/store.ts 364 371 #endWhere *)
Definition endWhere (d : GrantScope) (col : GrantRow -> option string) (value by_ reason : string) : M Z :=
  transaction (
    rows ← select (fun r => bool_decide (duration r = d) && bool_decide (col r = Some value) && bool_decide (revoked_at r = None));
    revoke_each (map gr_id rows) by_ reason 0).

(* @src grants/store.ts 357 359 endTask *)
Definition endTask (taskId by_ : string) : M Z := endWhere Task task_id taskId by_ "task-ended".
(* @src grants/store.ts 361 363 endSession *)
Definition endSession (sessionId by_ : string) : M Z := endWhere Session session_id sessionId by_ "session-ended".

(** Whether a use is worth an entry: the grant is live and the last recorded one is old enough. *)
(* @src grants/store.ts 381 382 markUsed *)
Definition use_due (v : View) (now : Z) : bool :=
  let g := grant (v_grant v) in
  negb (num_ltb (Fin now) (createdAt g) || num_leb (grantExpiry g maxDays) (Fin now))
  && match lastUsedAt g with Some (Fin t) => negb (now - t <? USE_RECORD_GRANULARITY_MS) | _ => true end.

(* @src grants/store.ts 374 389 markUsed *)
Definition markUsed (id : string) : M unit :=
  used ← transaction (
    w ← gets (fun w => viewOf w id);
    match w with
    | Some v =>
        if negb (is_active v) || bool_decide (g_scope (grant (v_grant v)) = Once) then mret None
        else
          now ← read_clock;
          if negb (use_due v now) then mret None
          else
            _ ← append "grant.used" id (JObj []) None;
            _ ← update_where (has_id id) (fun r => with_use (Some now) (consumed_at r) r);
            _ ← note "grant.used" (v_grant v) None None None;
            gets (fun w' => viewOf w' id)
    | None => mret None
    end);
  match used with Some v => emit Used (v_grant v) (v_state v) | None => mret tt end.

(* @src grants/store.ts 409 415 #consumeOnce *)
Definition consumable (id p a h : string) (now : Z) (r : GrantRow) : bool :=
  has_id id r && bool_decide (duration r = Once) && bool_decide (consumed_at r = None) && bool_decide (revoked_at r = None)
  && String.eqb (gr_person r) p && String.eqb (gr_agent r) a && bool_decide (action_hash r = Some h)
  && (now <? created_at r + onceUnusedMs) && match expires_at r with Some t => now <? t | None => true end.

(* @src grants/store.ts 404 420 #consumeOnce *)
Definition consumeOnce_tx (id p a h : string) : M bool :=
  transaction (
    v ← gets (fun w => viewOf w id);
    match v with
    | Some v =>
        if negb (is_active v) then mret false
        else
          now ← read_clock;
          n ← update_where (consumable id p a h now) (with_use (Some now) (Some now));
          if negb (n =? 1) then mret false
          else
            _ ← append "grant.consumed" id (JObj [("actionHash", JStr h)]) None;
            _ ← note "grant.consumed" (v_grant v) None None (Some h);
            mret true
    | None => mret false
    end).

(* @src grants/store.ts 396 403 consumeOnce *)
Definition consumeOnce (id p a h : string) : M bool := fun w =>
  match consumeOnce_tx id p a h w with
  | (Err (ChainBroken _ _), w') => (Ok false, w')
  | r => r
  end.
End store.
