(* ===== verification/GrantsSpec.v ===== *)
(** * What the grant store promises

    Theorems on [Grants]: what happened to a grant is in the chain, and the chain
    alone decides. A once grant is consumed once and an ended grant stays ended
    whatever is done to the table; a grant the evaluator allows a call by is, field
    by field, one the chain recorded; creation keeps to the capability table. At the
    end the theorems are applied to a once grant that is created, used, tampered with and
    revoked, over a concrete hash and JSON texts that are the values themselves. *)

From S2P Require Import Prelude PolicyCaps PolicyDecide PolicyProps ApprovalChain ApprovalChainSpec Grants.

Section spec.
Context {Text : Type} `{EqDecision Text} (stringify : js -> Text) (parse : Text -> option js).
Context (hmac : string -> Z -> Z -> string -> string -> option string -> Text -> string) (tag : Z -> string -> string).
Context (verifySignature : string -> string -> string -> bool) (signer : option DecisionSigner).
Context {Rows : Type} `{GrantTable Rows} (clk : nat -> Z) (maxDays : Z).
Context (audit : option (list Event -> Event -> bool)).
Context (checkSyntax : string -> option bool) (reachesSystemTree : string -> bool -> bool) (sha : Text -> string) (freshId : Z -> nat -> string).

Notation W := (World (Text := Text) Rows Event).
Notation json_laws := (json_laws stringify parse).
Notation build := (build parse hmac tag verifySignature signer).
Notation intact := (intact parse hmac tag verifySignature signer).
Notation append := (append stringify parse hmac tag verifySignature signer clk (Rows := Rows) (Ev := Event) (X := GrantFault)).
Notation view_of := (view_of stringify parse).
Notation viewOf := (viewOf stringify parse hmac tag verifySignature signer (Rows := Rows)).
Notation list_grants := (list_grants stringify parse hmac tag verifySignature signer (Rows := Rows)).
Notation get := (get stringify parse hmac tag verifySignature signer (Rows := Rows)).
Notation create := (create stringify parse hmac tag verifySignature signer clk audit checkSyntax reachesSystemTree sha freshId (Rows := Rows)).
Notation revoke := (revoke stringify parse hmac tag verifySignature signer clk audit (Rows := Rows)).
Notation endWhere := (endWhere stringify parse hmac tag verifySignature signer clk audit (Rows := Rows)).
Notation markUsed := (markUsed stringify parse hmac tag verifySignature signer clk maxDays audit (Rows := Rows)).
Notation consumeOnce := (consumeOnce stringify parse hmac tag verifySignature signer clk audit (Rows := Rows)).
Notation announceDue := (announceDue stringify parse hmac tag verifySignature signer clk maxDays (Rows := Rows)).
Notation deps_of := (deps_of stringify parse hmac tag verifySignature signer maxDays (Rows := Rows)).

(** ** The chain only grows *)

Definition grows (w w' : W) : Prop := exists more, c_rows (w_chain w') = c_rows (w_chain w) ++ more.

#[global] Instance grows_preorder : PreOrder grows.
Proof.
  split.
  - intros w. exists []. by rewrite app_nil_r.
  - intros a b c [m1 H1] [m2 H2]. exists (m1 ++ m2). by rewrite H2, H1, app_assoc.
Qed.

(** A step after which the chain has at least the entries it had. *)
Definition growing {A} (m : SE W (Fault GrantFault) A) : Prop := forall w, grows w (m w).2.

Lemma growing_bind {A B} (m : SE W (Fault GrantFault) A) (k : A -> SE W (Fault GrantFault) B) :
  growing m -> (forall a, growing (k a)) -> growing (m ≫= k).
Proof.
  intros Hm Hk w. specialize (Hm w). unfold mbind, SE_bind. destruct (m w) as [[a|e] w1]; [|done].
  etransitivity; [exact Hm|apply Hk].
Qed.

Lemma growing_same {A} (m : SE W (Fault GrantFault) A) : (forall w, c_rows (w_chain (m w).2) = c_rows (w_chain w)) -> growing m.
Proof. intros Hm w. exists []. by rewrite Hm, app_nil_r. Qed.

Lemma growing_transaction {A} (m : SE W (Fault GrantFault) A) : growing m -> growing (transaction m).
Proof.
  intros Hm w. unfold transaction. destruct (w_tx w); [apply Hm|].
  specialize (Hm {| w_chain := w_chain w; w_rows := w_rows w; w_tx := true; w_ticks := w_ticks w; w_log := w_log w |}).
  destruct (m _) as [[a|e] w1]; [exact Hm|]. exists []. by rewrite app_nil_r.
Qed.

Lemma growing_append kind ref p n : growing (append kind ref p n).
Proof.
  intros w. destruct (append kind ref p n w) as [[e|x] w'] eqn:E.
  - apply append_ok in E as (_ & _ & -> & _). by exists [e].
  - revert E. unfold ApprovalChain.append, transaction. destruct w as [db rs [] k l]; cbn [w_tx]; rewrite append_steps_run;
      cbn [w_chain w_tx w_ticks w_rows w_log]; cbv zeta; repeat case_match; intros [= <- <-]; first [by exists []; rewrite app_nil_r|eexists; reflexivity].
Qed.

Create HintDb growing.
#[local] Hint Resolve growing_append growing_transaction : growing.
#[local] Hint Extern 2 (growing _) => (by apply growing_same) : growing.

Lemma growing_require b e : growing (require b e).
Proof. apply growing_same. intros w. by destruct b. Qed.
Lemma growing_update p f : growing (update_where p f).
Proof. by apply growing_same. Qed.
Lemma growing_record e : growing (record_line audit e).
Proof.
  unfold record_line. destruct audit as [ok|]; [|by apply growing_same]. apply growing_bind; [by apply growing_same|intros l].
  apply growing_bind; [apply growing_require|intros _]. by apply growing_same.
Qed.
Lemma growing_note a g b r h : growing (note audit a g b r h).
Proof. apply growing_record. Qed.
Lemma growing_emit c g s : growing (emit c g s).
Proof. unfold emit. apply growing_bind; [by apply growing_same|intros l]. case_match; by apply growing_same. Qed.
Lemma growing_each {A} (f : A -> SE W (Fault GrantFault) unit) l : (forall x, growing (f x)) -> growing (each f l).
Proof. intros Hf. induction l; [by apply growing_same|by apply growing_bind]. Qed.
Lemma growing_catch {A} (m : SE W (Fault GrantFault) A) h : growing m -> (forall e, growing (h e)) -> growing (catch m h).
Proof.
  intros Hm Hh w. unfold catch. specialize (Hm w). destruct (m w) as [[a|e] w1]; [done|]. etransitivity; [exact Hm|apply Hh].
Qed.
Lemma growing_unless m : growing m -> growing (unless_broken m).
Proof. intros Hm w. unfold unless_broken. specialize (Hm w). by destruct (m w) as [[a|[]] w1]. Qed.
#[local] Hint Resolve growing_require growing_update growing_record growing_note growing_emit growing_each growing_catch growing_unless : growing.

Ltac grow :=
  repeat (match goal with
  | |- growing (_ ≫= _) => apply growing_bind; [|intros ?]
  | |- growing (transaction _) => apply growing_transaction
  | |- growing (unless_broken _) => apply growing_unless
  | |- growing (catch _ _) => apply growing_catch; [|intros ?]
  | |- growing (if ?b then _ else _) => destruct b
  | |- growing (match ?x with _ => _ end) => destruct x
  end); eauto 3 with growing.

Lemma growing_insert id now i c : growing (insert stringify parse hmac tag verifySignature signer clk sha id now i c).
Proof. unfold insert. grow. Qed.
Lemma growing_check_create i : growing (check_create clk checkSyntax reachesSystemTree i).
Proof. unfold check_create, check_path, ensure, bad. grow. Qed.
Lemma growing_create i : growing (create i).
Proof. unfold Grants.create, ensure. grow; [apply growing_check_create|apply growing_insert]. Qed.
Lemma growing_revoke id b r : growing (revoke id b r).
Proof. unfold Grants.revoke. grow. Qed.
Lemma growing_revoke_each ids b r n : growing (revoke_each stringify parse hmac tag verifySignature signer clk audit ids b r n).
Proof. revert n. induction ids as [|i ids IH]; intros n; [by apply growing_same|]. apply growing_bind; [apply growing_revoke|intros []; apply IH]. Qed.
Lemma growing_endWhere d col v b r : growing (endWhere d col v b r).
Proof. unfold Grants.endWhere. grow. apply growing_revoke_each. Qed.
Lemma growing_markUsed id : growing (markUsed id).
Proof. unfold Grants.markUsed. grow. Qed.
Lemma growing_consumeOnce id p a h : growing (consumeOnce id p a h).
Proof.
  assert (G : growing (consumeOnce_tx stringify parse hmac tag verifySignature signer clk audit id p a h)) by (unfold consumeOnce_tx; grow).
  intros w. specialize (G w). unfold Grants.consumeOnce. by destruct (consumeOnce_tx _ _ _ _ _ _ _ _ _ _ _ _ w) as [[b|[]] w'].
Qed.
Lemma growing_announceDue p : growing (announceDue p).
Proof. unfold Grants.announceDue. apply growing_bind; [by apply growing_same|intros now]. apply growing_bind; [by apply growing_same|intros w].
  apply growing_each. intros v. grow. Qed.

(** ** Views *)

Lemma build_entries db : s_entries (build db) = c_rows db.
Proof. unfold ApprovalChain.build. by repeat case_match. Qed.

Lemma intact_trusts db e : intact db -> trusted (build db) e = true.
Proof.
  unfold ApprovalChainSpec.intact, ApprovalChain.verify, ApprovalChain.build. by repeat case_match.
Qed.

Lemma byRef_elem id db e : e ∈ byRef id (build db) <-> e ∈ c_rows db /\ e_ref e = id.
Proof. unfold byRef. rewrite build_entries, bfilter_elem, String.eqb_eq. done. Qed.

Definition chained (w : W) (kind id : string) : Prop := exists e, e ∈ c_rows (w_chain w) /\ e_kind e = kind /\ e_ref e = id.

Lemma chained_grows w w' kind id : grows w w' -> chained w kind id -> chained w' kind id.
Proof. intros [more Hm] (e & He & Hk). exists e. split; [|done]. rewrite Hm. apply elem_of_app. by left. Qed.

Definition has_ended (w : W) (id : string) : Prop := chained w "grant.revoked" id \/ chained w "grant.ended" id.

Lemma has_ended_grows w w' id : grows w w' -> has_ended w id -> has_ended w' id.
Proof. intros Hg [Hc|Hc]; [left|right]; by eapply chained_grows. Qed.

(** An end entry marks the grant revoked in every view, whatever the row says. *)
Lemma ended_revoked w r : has_ended w (gr_id r) -> revoked (grant (v_grant (view_of (build (w_chain w)) r))) = JBool true.
Proof.
  intros He. cbn [view_of Grants.view_of v_grant grant revoked].
  assert (exists e, bfind (fun e => of_kind "grant.revoked" e || of_kind "grant.ended" e) (byRef (gr_id r) (build (w_chain w))) = Some e) as [e E].
  { destruct He as [(e & He & Hk & Hr)|(e & He & Hk & Hr)]; apply (bfind_is_some _ _ e);
      try (by apply byRef_elem); unfold of_kind; by rewrite Hk. }
  rewrite E. cbn. by destruct (revoked_at r).
Qed.

Lemma view_revoked snap r : revoked (grant (v_grant (view_of snap r))) = JBool true -> v_state (view_of snap r) <> Active.
Proof.
  cbn [Grants.view_of v_state v_grant grant revoked]. intros ->. by destruct (negb _).
Qed.

Lemma view_vouched snap r : v_state (view_of snap r) <> Suspended -> vouched stringify parse snap r = true.
Proof. cbn [Grants.view_of v_state]. by destruct (vouched stringify parse snap r). Qed.

(** A proven consumption entry makes the view consumed. *)
Lemma consumed_not_active w r : intact (w_chain w) -> chained w "grant.consumed" (gr_id r) -> v_state (view_of (build (w_chain w)) r) <> Active.
Proof.
  intros Hi (e & He & Hk & Hr). cbn [Grants.view_of v_state]. destruct (negb _); [done|]. destruct (js_is_true _); [done|].
  destruct (consumedAt (grant (toGrant r))) as [t|]; [done|].
  destruct (bfind_is_some (fun e => of_kind "grant.consumed" e && trusted (build (w_chain w)) e) (byRef (gr_id r) (build (w_chain w))) e) as [y ->];
    [by apply byRef_elem| |done].
  unfold of_kind. rewrite Hk, intact_trusts by done. done.
Qed.

Lemma viewOf_some w id v : viewOf w id = Some v ->
  exists r, r ∈ grants_of (w_rows w) /\ gr_id r = id /\ v = view_of (build (w_chain w)) r.
Proof.
  unfold Grants.viewOf. destruct (bfind _ _) as [r|] eqn:E; [|done]. intros [= <-]. apply bfind_some in E as [Hr Hid].
  exists r. split_and!; [done|by apply String.eqb_eq|done].
Qed.

(** ** Consuming *)

Lemma record_ok e (w w' : W) u : record_line audit e w = (Ok u, w') -> w_chain w' = w_chain w /\ w_rows w' = w_rows w.
Proof. unfold record_line, log. destruct audit; intros Hn; run_se; done. Qed.

Lemma note_ok a g b r h (w w' : W) u : note audit a g b r h w = (Ok u, w') -> w_chain w' = w_chain w /\ w_rows w' = w_rows w.
Proof. apply record_ok. Qed.

Lemma update_where_ok p f (w : W) n w' : update_where p f w = (Ok n, w') ->
  n = Z.of_nat (length (bfilter p (grants_of (w_rows w)))) /\ w_chain w' = w_chain w
  /\ w_rows w' = with_grants (map (fun r => if p r then f r else r)) (w_rows w) /\ w_log w' = w_log w.
Proof. unfold update_where, select, on_rows. intros Hu. run_se. done. Qed.

(** A consumption that went through was of an active grant over a chain that verified, and is chained. *)
Lemma consumeOnce_true w id p a h w' :
  consumeOnce id p a h w = (Ok true, w') ->
  intact (w_chain w) /\ chained w' "grant.consumed" id /\ exists v, viewOf w id = Some v /\ v_state v = Active.
Proof.
  unfold Grants.consumeOnce. destruct (consumeOnce_tx _ _ _ _ _ _ _ _ _ _ _ _ w) as [[b|x] w1] eqn:E; [|by destruct x].
  intros [= -> ->]. unfold consumeOnce_tx in E. apply transaction_ok in E as (w0 & w2 & Hm & C0 & R0 & _ & _ & C1 & _).
  apply SE_bind_ok in Hm as (v & w3 & Hv & Hm). injection Hv as <- <-.
  assert (Hvo : viewOf w0 id = viewOf w id) by (unfold Grants.viewOf; by rewrite C0, R0).
  rewrite Hvo in Hm. destruct (viewOf w id) as [v|] eqn:Ev; [|by run_se].
  destruct (is_active v) eqn:Ha; [|by run_se]. cbn [negb] in Hm. apply bool_decide_eq_true in Ha.
  apply SE_bind_ok in Hm as (now & w4 & Hn & Hm). injection Hn as _ <-.
  apply SE_bind_ok in Hm as (n & w5 & Hu & Hm). apply update_where_ok in Hu as (_ & Cu & _ & _). destruct (negb (n =? 1)); [by run_se|].
  apply SE_bind_ok in Hm as (e & w6 & Hap & Hm). apply append_ok in Hap as (Hi & -> & -> & _).
  apply SE_bind_ok in Hm as (u & w7 & Hno & Hm). apply note_ok in Hno as (Cn & _). injection Hm as <-.
  cbn [w_chain] in Cu. rewrite Cu, C0 in Hi. split_and!; [exact Hi| |by exists v].
  unfold chained. rewrite C1, Cn. cbn [w_chain appended written c_rows]. eexists. split; [apply elem_of_app; right; by apply list_elem_of_singleton|done].
Qed.

Lemma consume_refused w id p a h : chained w "grant.consumed" id -> (consumeOnce id p a h w).1 <> Ok true.
Proof.
  intros Hc E. destruct (consumeOnce id p a h w) as [r w'] eqn:Ec. cbn in E. subst r.
  apply consumeOnce_true in Ec as (Hi & _ & v & Hv & Ha). apply viewOf_some in Hv as (r & _ & <- & ->). by apply (consumed_not_active w r).
Qed.

Lemma consume_ended w id p a h : has_ended w id -> (consumeOnce id p a h w).1 <> Ok true.
Proof.
  intros Hc E. destruct (consumeOnce id p a h w) as [r w'] eqn:Ec. cbn in E. subst r.
  apply consumeOnce_true in Ec as (_ & _ & v & Hv & Ha). apply viewOf_some in Hv as (r & _ & <- & ->).
  by eapply view_revoked; [apply ended_revoked|].
Qed.

(** ** Runs of the store

    Any calls in any order, between them any change to the tables beside the
    chain: rows edited, deleted, restored or made up. *)
Inductive Op : Type :=
| OCreate (i : CreateGrantInput) | ORevoke (id by_ reason : string) | OEndTask (task by_ : string) | OEndSession (session by_ : string)
| OUse (id : string) | OConsume (id p a h : string) | OAnnounce (p : option string) | OForge (f : Rows -> Rows).

(** The world after an operation, and whether it was a consumption of [id] that went through. *)
Definition step (id : string) (o : Op) (w : W) : bool * W :=
  match o with
  | OCreate i => (false, (create i w).2)
  | ORevoke g b r => (false, (revoke g b r w).2)
  | OEndTask t b => (false, (endWhere Task task_id t b "task-ended" w).2)
  | OEndSession s b => (false, (endWhere Session session_id s b "session-ended" w).2)
  | OUse g => (false, (markUsed g w).2)
  | OConsume g p a h => let '(r, w') := consumeOnce g p a h w in (match r with Ok true => String.eqb g id | _ => false end, w')
  | OAnnounce p => (false, (announceDue p w).2)
  | OForge f => (false, {| w_chain := w_chain w; w_rows := f (w_rows w); w_tx := w_tx w; w_ticks := w_ticks w; w_log := w_log w |})
  end.

Fixpoint run (id : string) (ops : list Op) (w : W) : nat * W :=
  match ops with
  | [] => (O, w)
  | o :: r => let '(b, w1) := step id o w in let '(n, w2) := run id r w1 in (if b : bool then S n else n, w2)
  end.

Lemma step_grows id o w : grows w (step id o w).2.
Proof.
  destruct o; cbn [step snd].
  - apply growing_create.
  - apply growing_revoke.
  - apply growing_endWhere.
  - apply growing_endWhere.
  - apply growing_markUsed.
  - pose proof (growing_consumeOnce id0 p a h w) as G. by destruct (consumeOnce id0 p a h w) as [r w'].
  - apply growing_announceDue.
  - exists []. by rewrite app_nil_r.
Qed.

Lemma run_grows id ops w : grows w (run id ops w).2.
Proof.
  revert w. induction ops as [|o ops IH]; intros w; [reflexivity|]. cbn [run]. pose proof (step_grows id o w) as G.
  destruct (step id o w) as [b w1]. specialize (IH w1). destruct (run id ops w1) as [n w2]. by etransitivity.
Qed.

Lemma step_consumes id o w : (step id o w).1 = true -> exists p a h, o = OConsume id p a h /\ (consumeOnce id p a h w).1 = Ok true
  /\ chained (step id o w).2 "grant.consumed" id.
Proof.
  destruct o; cbn [step fst snd]; try done. destruct (consumeOnce id0 p a h w) as [r w'] eqn:E. cbn [fst snd].
  destruct r as [[]|]; try done. intros ->%String.eqb_eq. exists p, a, h. rewrite E. split_and!; [done|done|].
  by apply consumeOnce_true in E as (_ & ? & _).
Qed.

Lemma run_refused (P : W -> Prop) id ops w :
  (forall w w', grows w w' -> P w -> P w') -> (forall w p a h, P w -> (consumeOnce id p a h w).1 <> Ok true) -> P w -> (run id ops w).1 = O.
Proof.
  intros Hg Hr. revert w. induction ops as [|o ops IH]; intros w Hp; [done|]. cbn [run].
  pose proof (step_grows id o w) as G. pose proof (step_consumes id o w) as S.
  destruct (step id o w) as [[] w1]; cbn [fst snd] in *.
  - destruct (S eq_refl) as (p & a & h & _ & E & _). by apply Hr in E.
  - specialize (IH w1 (Hg _ _ G Hp)). by destruct (run id ops w1).
Qed.

(** (C12) A once grant runs once. Over any run of the store's calls, with the rows of the grants table
    edited, restored or invented between them at will, at most one consumption of a given grant goes
    through, and none at all once the chain holds an end of it. *)
Theorem consumed_at_most_once id ops w : ((run id ops w).1 <= 1)%nat /\ (has_ended w id -> (run id ops w).1 = O).
Proof.
  split; [|intros He; apply (run_refused (fun w => has_ended w id)); [intros ??; apply has_ended_grows|intros; by apply consume_ended|done]].
  revert w. induction ops as [|o ops IH]; intros w; [cbn; lia|]. cbn [run].
  pose proof (step_consumes id o w) as S. destruct (step id o w) as [[] w1]; cbn [fst snd] in *.
  - destruct (S eq_refl) as (p & a & h & _ & _ & Hc).
    pose proof (run_refused (fun w => chained w "grant.consumed" id) id ops w1
      ltac:(intros ??; apply chained_grows) ltac:(intros; by apply consume_refused) Hc) as Hz.
    destruct (run id ops w1) as [n w2]. cbn in *. lia.
  - specialize (IH w1). by destruct (run id ops w1).
Qed.

(** ** What the evaluator is given *)

Lemma list_elem w p a c g : g ∈ list_grants w p a c ->
  exists r, r ∈ grants_of (w_rows w) /\ g = grant (v_grant (view_of (build (w_chain w)) r)) /\ v_state (view_of (build (w_chain w)) r) = Active
    /\ gr_person r = p /\ gr_agent r = a /\ gr_capability r = c.
Proof.
  unfold Grants.list_grants. cbv zeta. intros (v & -> & Hv)%elem_of_map. apply bfilter_elem in Hv as [Hv Ha].
  apply bool_decide_eq_true in Ha. unfold views in Hv. apply elem_of_map in Hv as (r & -> & Hr).
  rewrite sort_by_perm in Hr. apply bfilter_elem in Hr as [Hr Hc]. bool_hyps. eauto 10.
Qed.

Lemma get_some w id g : get w id = Some g ->
  exists r, r ∈ grants_of (w_rows w) /\ gr_id r = id /\ g = grant (v_grant (view_of (build (w_chain w)) r))
    /\ v_state (view_of (build (w_chain w)) r) <> Suspended.
Proof.
  unfold Grants.get. destruct (viewOf w id) as [v|] eqn:E; [|done]. apply viewOf_some in E as (r & Hr & Hid & ->).
  destruct (bool_decide_reflect (v_state (view_of (build (w_chain w)) r) = Suspended)); [done|]. intros [= <-]. eauto.
Qed.

Lemma candidate_view w now x cap g : g ∈ candidateGrants x (deps_of w now) cap ->
  exists r, r ∈ grants_of (w_rows w) /\ g = grant (v_grant (view_of (build (w_chain w)) r)) /\ v_state (view_of (build (w_chain w)) r) <> Suspended.
Proof.
  unfold candidateGrants. cbn [grants_list grants_get Grants.deps_of]. cbv zeta. intros [Hg|Hg]%elem_of_app.
  - apply list_elem in Hg as (r & Hr & -> & Ha & _). exists r. rewrite Ha. by split_and!.
  - destruct (handoff x) as [h|]; [|by apply elem_of_nil in Hg]. destruct (bool_decide _); [|by apply elem_of_nil in Hg].
    apply bfilter_elem in Hg as [Hg _]. apply list_elem_of_omap in Hg as (i & _ & Hg). apply get_some in Hg as (r & Hr & _ & -> & Hs). eauto.
Qed.

(** A revocation over a chain that verifies is chained. *)
Lemma revoke_true id by_ reason w w' : revoke id by_ reason w = (Ok true, w') -> intact (w_chain w) -> has_ended w' id.
Proof.
  intros Hr Hi. unfold Grants.revoke in Hr. apply transaction_ok in Hr as (w0 & w1 & Hm & C0 & _ & _ & _ & C1 & _).
  apply SE_bind_ok in Hm as (t & w2 & Hn & Hm). injection Hn as _ <-.
  apply SE_bind_ok in Hm as (n & w3 & Hu & Hm). apply update_where_ok in Hu as (_ & Cu & _ & _).
  destruct (negb (n =? 1)); [by run_se|]. apply SE_bind_ok in Hm as (u & w4 & Hb & Hm).
  apply SE_bind_ok in Hm as (rows & w5 & Hs & Hm). injection Hs as <- <-. apply SE_bind_ok in Hm as (u' & w6 & Hc & Hm). injection Hm as <-.
  assert (E4 : c_rows (w_chain w6) = c_rows (w_chain w4)).
  { unfold catch in Hc. destruct (bfilter _ _) as [|r rs]; [by injection Hc as _ <-|].
    unfold note, record_line, log in Hc. destruct audit as [ok|]; [|by injection Hc as _ <-]. unfold mbind, SE_bind, gets, require, modify in Hc.
    destruct (ok _ _); by injection Hc as _ <-. }
  unfold unless_broken in Hb. match type of Hb with (match ?m with _ => _ end) = _ => destruct m as [[u2|x] w5] eqn:Ea end.
  - apply SE_bind_ok in Ea as (e & w7 & Ha & E). injection E as _ <-. injection Hb as _ <-. apply append_ok in Ha as (_ & -> & -> & _).
    assert (chained w' (end_kind reason) id) as X.
    { eexists. rewrite C1, E4. cbn [w_chain appended written c_rows]. split; [apply elem_of_app; right; by apply list_elem_of_singleton|done]. }
    unfold end_kind in X. case_match; [by left|by right].
  - exfalso. destruct x as [b r| |]; try by injection Hb. unfold mbind, SE_bind in Ea.
    destruct (append _ _ _ _ w3) as [[e|y] w7] eqn:Ha; [done|]. injection Ea as -> ->.
    apply append_err in Ha as [(n' & b' & r' & s' & _ & Hv & _)|]; [|done].
    unfold ApprovalChainSpec.intact in Hi. cbn [w_chain] in Cu. rewrite Cu, C0 in Hv. by rewrite Hv in Hi.
Qed.

(** An end is final. Once a grant was revoked or ended over a chain that verifies, no run of the
    store's calls and no edit of the table brings it back: it is never listed, it is handed out by id
    only flagged revoked, it is never consumed, and no call is allowed by it. *)
Theorem end_is_final id by_ reason w w' ops call ctx now rd :
  revoke id by_ reason w = (Ok true, w') -> intact (w_chain w) ->
  let later := (run id ops w').2 in
  (forall p a c g, g ∈ list_grants later p a c -> g_id g <> id)
  /\ (forall g, get later id = Some g -> revoked g = JBool true)
  /\ (forall p a h, (consumeOnce id p a h later).1 <> Ok true)
  /\ decide call ctx (deps_of later now) <> DAllow (ViaGrant id rd).
Proof.
  intros Hr Hi later. pose proof (revoke_true id by_ reason w w' Hr Hi) as He.
  assert (Hl : has_ended later id) by (eapply has_ended_grows; [apply run_grows|exact He]).
  split_and!.
  - intros p a c g Hg Eg. apply list_elem in Hg as (r & _ & -> & Ha & _). assert (Er : gr_id r = id) by exact Eg.
    by eapply view_revoked; [apply ended_revoked; rewrite Er|].
  - intros g Hg. apply get_some in Hg as (r & _ & Er & -> & _). apply ended_revoked. by rewrite Er.
  - intros p a h. by apply consume_ended.
  - intros Hd. destruct (decide_cases call ctx (deps_of later now)) as [(x & y & E)|(d & G & E)]; rewrite E in Hd; [done|].
    destruct (evaluate_class_grant _ _ _ _ _ _ Hd) as (g & Eg & _ & _ & Hs).
    destruct (candidate_view _ _ _ _ _ (gs_candidate _ _ _ _ _ Hs)) as (r & _ & -> & _). assert (Er : gr_id r = id) by exact Eg.
    assert (Hv : has_ended later (gr_id r)) by (by rewrite Er). apply ended_revoked in Hv.
    destruct (gs_live _ _ _ _ _ Hs); congruence.
Qed.

(** ** A grant the evaluator uses is the grant that was recorded *)

(** The table's check on path columns. *)
Definition rows_checked (w : W) : Prop := forall r, r ∈ grants_of (w_rows w) -> match_kind r = KPath ->
  exists p a b, match_path r = Some p /\ match_access r = Some a /\ match_recursive r = Some b.

Definition or_null_num (n : option num) : js := match n with Some x => JNum x | None => JNull end.

(** A chained definition states every term of the grant. *)
Record states (def : js) (g : Grant) : Prop := {
  sd_id : jget "id" def = JStr (g_id g);
  sd_person : jget "person" def = JStr (g_person g);
  sd_agent : jget "agent" def = JStr (g_agent g);
  sd_capability : jget "capability" def = JStr (g_capability g);
  sd_scope : jget "scope" def = JStr (scope_text (g_scope g));
  sd_kind : jget "kind" (jget "match" def) = JStr (kind_text (kind_of (g_match g)));
  sd_path : forall p a b, g_match g = MPath p a b ->
    jget "path" (jget "match" def) = JStr p /\ jget "access" (jget "match" def) = JStr (access_text a) /\ jget "recursive" (jget "match" def) = JBool b;
  sd_created : jget "createdAt" def = JNum (createdAt g);
  sd_expires : jget "expiresAt" def = or_null_num (expiresAt g);
  sd_action : jget "actionHash" def = or_null (g_actionHash g);
  sd_task : jget "taskId" def = or_null (g_taskId g);
  sd_session : jget "sessionId" def = or_null (g_sessionId g);
  sd_project : jget "projectId" def = or_null (g_projectId g);
  sd_job : jget "jobId" def = or_null (g_jobId g);
  sd_delegable : jget "delegable" def = JBool (js_is_true (delegable g));
  sd_surface : jget "surface" def = JNum (Fin (g_surface g));
  sd_unsandboxed : jget "acknowledgedUnsandboxed" def = JBool (js_is_true (acknowledgedUnsandboxed g))
}.

Lemma definition_json r : json_value (definition_js r) = true.
Proof.
  unfold definition_js. cbn [json_value]. rewrite forallb_app. apply andb_true_iff. split; [|by destruct (attested_via r)].
  cbn. destruct (gr_effect r), (match_path r), (match_access r), (match_recursive r), (expires_at r), (action_hash r), (task_id r), (session_id r),
    (project_id r), (job_id r); reflexivity.
Qed.

(** A row the chain vouches for is the one its first entry defines. *)
Lemma vouched_defined (w : W) r : json_laws -> vouched stringify parse (build (w_chain w)) r = true ->
  exists e p, e ∈ c_rows (w_chain w) /\ e_kind e = "grant.created" /\ e_ref e = gr_id r /\ trusted (build (w_chain w)) e = true
    /\ parse (e_payload e) = Some p /\ jget "def" p = definition_js r.
Proof.
  intros J. unfold vouched. destruct (bfind _ _) as [e|] eqn:E; [|done]. apply bfind_some in E as [He Hk].
  apply byRef_elem in He as [He Hr]. intros Hv. bool_hyps. unfold of_kind in Hk. bool_hyps. unfold chained_text in *.
  destruct (parse (e_payload e)) as [p|] eqn:Hp; [|done]. exists e, p. split_and!; try done.
  assert (Hd : jget "def" p <> JUndef /\ stringify (jget "def" p) = stringify (definition_js r)) by (by destruct (jget "def" p); simplify_eq).
  destruct Hd as [Hu Hs]. pose proof (json_parsed _ _ J _ _ Hp) as Hj. destruct (jget_json "def" p Hj) as [|Hjd]; [done|].
  pose proof (json_round_trip _ _ J _ Hjd) as R1. pose proof (json_round_trip _ _ J _ (definition_json r)) as R2. rewrite Hs, R2 in R1. by injection R1.
Qed.

Lemma definition_states (w : W) r : (match_kind r = KPath -> exists p a b, match_path r = Some p /\ match_access r = Some a /\ match_recursive r = Some b) ->
  states (definition_js r) (grant (v_grant (view_of (build (w_chain w)) r))).
Proof.
  intros Hc. constructor; try reflexivity.
  - cbn. unfold row_match. by destruct (match_kind r).
  - intros p a b. cbn [Grants.view_of v_grant grant toGrant g_match]. unfold row_match. destruct (match_kind r); try done.
    destruct (Hc eq_refl) as (p' & a' & b' & Hp & Ha & Hb). rewrite Hp, Ha, Hb. intros [= <- <- <-].
    change (or_null (match_path r) = JStr p' /\ or_null (access_text <$> match_access r) = JStr (access_text a')
            /\ match match_recursive r with Some b => JBool b | None => JNull end = JBool b').
    by rewrite Hp, Ha, Hb.
  - cbn. by destruct (expires_at r).
  - cbn. by destruct (gr_delegable r).
  - cbn. by destruct (acknowledged_unsandboxed r).
Qed.

(** (C11) No grant is forged. Whatever the grants table holds, a call allowed by a grant is allowed by one
    whose creation is in the chain below its first fault, with exactly the terms the evaluator went by
    (person, agent, capability, scope, match, bounds, surface, binding ids), and which has no revocation
    or end in the chain; the grant stands for this call as the evaluator requires. *)
Theorem allow_by_grant_vouched w call ctx now id rd :
  json_laws -> rows_checked w -> decide call ctx (deps_of w now) = DAllow (ViaGrant id rd) ->
  exists d g e p, grant_stands g d (read_call call) (read_ctx ctx) (deps_of w now) /\ g_id g = id
    /\ e ∈ c_rows (w_chain w) /\ e_kind e = "grant.created" /\ e_ref e = id /\ trusted (build (w_chain w)) e = true
    /\ parse (e_payload e) = Some p /\ states (jget "def" p) g /\ ~ has_ended w id.
Proof.
  intros J Hc Hd. destruct (decide_cases call ctx (deps_of w now)) as [(x & y & E)|(d & G & E)]; rewrite E in Hd; [done|].
  destruct (evaluate_class_grant _ _ _ _ _ _ Hd) as (g & Eg & _ & _ & Hs).
  destruct (candidate_view _ _ _ _ _ (gs_candidate _ _ _ _ _ Hs)) as (r & Hr & -> & Hn). assert (Er : gr_id r = id) by exact Eg.
  apply view_vouched in Hn. destruct (vouched_defined w r J Hn) as (e & p & He & Hk & Hre & Ht & Hp & Hdef).
  exists d, (grant (v_grant (view_of (build (w_chain w)) r))), e, p. split_and!; try done.
  - by rewrite Hre.
  - rewrite Hdef. apply definition_states. by apply Hc.
  - rewrite <- Er. intros Hv%ended_revoked. destruct (gs_live _ _ _ _ _ Hs); congruence.
Qed.

(** ** Creation *)

Notation check_create := (check_create clk checkSyntax reachesSystemTree (Text := Text) (Rows := Rows)).

Lemma ensure_ok b c (w w' : W) u : ensure b c w = (Ok u, w') -> b = true /\ w' = w.
Proof. intros Hq. apply require_ok in Hq as [? <-]. done. Qed.

Definition outside_clock (w w' : W) : Prop :=
  w_chain w' = w_chain w /\ w_rows w' = w_rows w /\ w_tx w' = w_tx w /\ w_log w' = w_log w.

(** What passed the checks on a path. *)
Record path_ok (d : CapabilityDef) (i : CreateGrantInput) (p : string) (b : bool) : Prop := {
  po_syntax : checkSyntax p = Some true;
  po_canonical : canonical_path p = true;
  po_system : reachesSystemTree p b = true -> (scopeRank (i_scope i) <= scopeRank Task) /\ 3 <= i_surface i
}.

Lemma system_scope d : scopeRank (maxScopeFor d system_flags) <= scopeRank Task.
Proof.
  unfold maxScopeFor, system_flags, isBatch, cap_scope. cbn [batch systemTree publishPublic]. change (batchTargetsOver <? 0) with false. cbn [orb].
  destruct (ceiling d) as [[]|]; vm_compute; congruence.
Qed.

Lemma check_path_ok d i p b (w w' : W) u :
  check_path checkSyntax reachesSystemTree d i p b w = (Ok u, w') -> path_ok d i p b /\ w' = w.
Proof.
  unfold check_path. intros Hq. apply SE_bind_ok in Hq as (u1 & w1 & H1 & Hq). apply ensure_ok in H1 as [_ ->].
  apply SE_bind_ok in Hq as (u2 & w2 & H2 & Hq). destruct (checkSyntax p) as [ab|] eqn:Es; [|done]. apply ensure_ok in H2 as [-> ->].
  apply SE_bind_ok in Hq as (u3 & w3 & H3 & Hq). apply ensure_ok in H3 as [Hc ->].
  destruct (reachesSystemTree p b) eqn:Er.
  - apply SE_bind_ok in Hq as (u4 & w4 & H4 & Hq). apply ensure_ok in H4 as [Hs ->]. apply ensure_ok in Hq as [Hf ->]. bool_hyps.
    split; [|done]. constructor; try done. intros _. pose proof (system_scope d). split; [lia|].
    unfold requiredSurface in Hf. cbn [publishPublic systemTree system_flags orb] in Hf. lia.
  - injection Hq as _ <-. split; [|done]. constructor; [done|done|congruence].
Qed.

(** What passed the checks of [create]. *)
Record input_ok (d : CapabilityDef) (i : CreateGrantInput) : Prop := {
  io_cap : CAPABILITIES_get (lower (trim (i_capability i))) = Some d;
  io_class : inside (base d) <> Never;
  io_ceiling : exists top, ceiling d = Some top /\ scopeRank (i_scope i) <= scopeRank top;
  io_surface : 1 <= i_surface i <= 3;
  io_min : forall m, minSurface d = Some m -> m <= i_surface i;
  io_attested : i_attestedVia i <> None -> 2 <= i_surface i;
  io_once : i_scope i = Once <-> i_match i = MAction;
  io_hash : i_scope i = Once -> exists h, i_actionHash i = Some h /\ h <> "";
  io_task : i_scope i = Task -> exists k, i_taskId i = Some k /\ k <> "";
  io_session : i_scope i = Session -> exists k, i_sessionId i = Some k /\ k <> "";
  io_job : i_jobId i <> None -> i_scope i = Always;
  io_path : forall p a b, i_match i = MPath p a b -> path_ok d i p b
}.

Lemma str_some v : str v = true -> exists s, v = Some s /\ s <> "".
Proof. destruct v as [s|]; [|done]. cbn. intros Hs. exists s. split; [done|]. apply is_empty_neq. by bool_hyps. Qed.

Lemma check_create_ok i (w w' : W) d : check_create i w = (Ok d, w') -> input_ok d i /\ outside_clock w w'.
Proof.
  unfold Grants.check_create, bad. intros Hq. destruct (CAPABILITIES_get _) as [d'|] eqn:Ec; [|done].
  apply SE_bind_ok in Hq as (u1 & w1 & H1 & Hq). apply ensure_ok in H1 as [Hn ->]. destruct (ceiling d') as [top|] eqn:Et; [|done].
  apply SE_bind_ok in Hq as (u2 & w2 & H2 & Hq). apply ensure_ok in H2 as [_ ->].
  apply SE_bind_ok in Hq as (u3 & w3 & H3 & Hq). apply ensure_ok in H3 as [Hs ->].
  apply SE_bind_ok in Hq as (u4 & w4 & H4 & Hq). apply ensure_ok in H4 as [Hf ->].
  apply SE_bind_ok in Hq as (u5 & w5 & H5 & Hq). apply ensure_ok in H5 as [Hm ->].
  apply SE_bind_ok in Hq as (u6 & w6 & H6 & Hq). apply ensure_ok in H6 as [Ha ->].
  apply SE_bind_ok in Hq as (u7 & w7 & H7 & Hq). apply ensure_ok in H7 as [_ ->].
  apply SE_bind_ok in Hq as (u8 & w8 & H8 & Hq).
  assert (O8 : outside_clock w w8).
  { destruct (i_expiresAt i) as [t|]; [|by injection H8 as _ <-].
    apply SE_bind_ok in H8 as (v1 & x1 & G1 & H8). apply ensure_ok in G1 as [_ ->].
    apply SE_bind_ok in H8 as (v2 & x2 & G2 & H8). injection G2 as _ <-. by apply ensure_ok in H8 as [_ ->]. }
  apply SE_bind_ok in Hq as (u9 & w9 & H9 & Hq). apply ensure_ok in H9 as [Ho ->].
  apply SE_bind_ok in Hq as (u10 & w10 & H10 & Hq). apply ensure_ok in H10 as [Ht ->].
  apply SE_bind_ok in Hq as (u11 & w11 & H11 & Hq). apply ensure_ok in H11 as [Hse ->].
  apply SE_bind_ok in Hq as (u12 & w12 & H12 & Hq). apply ensure_ok in H12 as [Hj ->].
  apply SE_bind_ok in Hq as (u13 & w13 & H13 & Hq). injection Hq as -> ->.
  assert (P13 : (forall p a b, i_match i = MPath p a b -> path_ok d i p b) /\ w' = w8).
  { destruct (i_match i) as [| |p a b]; [by injection H13 as _ <-..|]. apply check_path_ok in H13 as [Hp ->]. split; [|done]. by intros ? ? ? [= <- _ <-]. }
  destruct P13 as [Hp ->]. split; [|exact O8]. bool_hyps.
  constructor; try done.
  - eauto.
  - apply orb_true_iff in Hf as [Hf|Hf]; [apply orb_true_iff in Hf as [Hf|Hf]|]; bool_hyps; lia.
  - intros m Em. rewrite Em in Hm. bool_hyps. lia.
  - intros Hv. destruct (i_attestedVia i); [|done]. bool_hyps. lia.
  - destruct (i_scope i); bool_hyps; split; try done; congruence.
  - intros Es. rewrite Es in Ho. bool_hyps. by apply str_some.
  - intros Es. rewrite Es in Ht. by apply str_some.
  - intros Es. rewrite Es in Hse. by apply str_some.
  - intros Hv. destruct (i_jobId i); [|done]. by bool_hyps.
Qed.

Definition payload_of (row : GrantRow) : js :=
  JObj [("def", definition_js row); ("defHash", JStr (sha (stringify (definition_js row))))].

Lemma payload_json row : json_value (payload_of row) = true.
Proof. unfold payload_of. cbn [json_value forallb snd]. by rewrite definition_json. Qed.

(** The row, entry and world a creation that went through leaves. *)
Lemma create_ok i (w w' : W) s : json_laws -> create i w = (Ok s, w') ->
  exists d now row e (w0 : W), input_ok d i /\ row = new_row (gr_id row) now i (cap_id d) /\ intact (w_chain w)
    /\ w_chain w0 = w_chain w /\ e = next_entry stringify hmac (w_chain w) (clk (w_ticks w0)) "grant.created" (gr_id row) (payload_of row) None
    /\ w_chain w' = written tag signer (w_chain w) e /\ (exists h q, s = toGrant (with_chain h q row)
    /\ with_chain h q row ∈ grants_of (w_rows w'))
    /\ (forall x, x ∈ grants_of (w_rows w) -> exists x', x' ∈ grants_of (w_rows w') /\ (x' = x \/ exists h q, x' = with_chain h q x)).
Proof.
  intros J Hc. unfold Grants.create in Hc. apply SE_bind_ok in Hc as (d & w1 & H1 & Hc). apply check_create_ok in H1 as [Hi (C1 & R1 & T1 & L1)].
  apply SE_bind_ok in Hc as (now & w2 & H2 & Hc). injection H2 as _ <-. apply SE_bind_ok in Hc as (k & w3 & H3 & Hc). injection H3 as <- <-.
  set (id := default (freshId now _) (i_id i)) in *. apply transaction_ok in Hc as (w4 & w5 & Hm & C4 & R4 & _ & _ & C5 & R5 & _).
  apply SE_bind_ok in Hm as (taken & w6 & Hs & Hm). injection Hs as <- <-. apply SE_bind_ok in Hm as (u & w7 & He & Hm). apply ensure_ok in He as [Ht ->].
  apply SE_bind_ok in Hm as (g & w8 & Hin & Hm). apply SE_bind_ok in Hm as (u' & w9 & Hn & Hm). apply note_ok in Hn as [C9 R9]. injection Hm as <- <-.
  unfold insert in Hin. set (row := new_row id now i (cap_id d)) in *.
  apply SE_bind_ok in Hin as (v1 & x1 & G1 & Hin). injection G1 as _ <-.
  apply SE_bind_ok in Hin as (e & x2 & G2 & Hin). rewrite (json_round_trip _ _ J _ (definition_json row)) in G2.
  apply append_ok in G2 as (Hia & -> & -> & _).
  apply SE_bind_ok in Hin as (n & x3 & G3 & Hin). apply update_where_ok in G3 as (_ & C3 & R3 & _). injection Hin as <- <-.
  cbn [w_chain w_rows w_ticks appended] in *. rewrite C4 in Hia, C3. rewrite C1 in Hia, C3.
  eexists d, now, row, _, {| w_chain := w_chain w4; w_rows := w_rows w4; w_tx := false; w_ticks := _; w_log := [] |}.
  split_and!; [exact Hi|done|exact Hia|cbn; by rewrite C4, C1|done| | |].
  - rewrite C5, C9, C3. reflexivity.
  - eexists _, _. split; [reflexivity|]. rewrite R5, R9, R3, grants_with. rewrite grants_with.
    apply elem_of_map. exists row. split; [|apply elem_of_app; right; by apply list_elem_of_singleton].
    unfold has_id. cbn [gr_id row new_row]. by rewrite String.eqb_refl.
  - intros x Hx. eexists. split.
    + rewrite R5, R9, R3, !grants_with, R4, R1. apply elem_of_map. exists x. split; [reflexivity|]. apply elem_of_app. by left.
    + cbn beta. destruct (has_id id x); [right; by eexists _, _|by left].
Qed.

(** A grant with nothing but its creation in the chain is shown as its row. *)
Lemma fresh_view snap r e : byRef (gr_id r) snap = [e] -> e_kind e = "grant.created" -> vouched stringify parse snap r = true ->
  revoked_at r = None -> consumed_at r = None -> last_used_at r = None -> view_of snap r = {| v_grant := toGrant r; v_state := Active |}.
Proof.
  intros Hb Hk Hv H1 H2 H3. unfold Grants.view_of. rewrite Hv, Hb. unfold bfind, bfilter, of_kind. cbn [List.find List.filter]. rewrite Hk.
  destruct r; cbn in *. by subst.
Qed.

(** Creation and reading agree. A grant [create] returns passed the table of capabilities (no never
    capability, scope under the ceiling, surface at the minimum, a once grant bound to an action hash, a
    grant reaching a system tree at most for a task and decided on T3); it carries the terms of the
    input; and when its id is new to the chain, the chain verifies again and the very grant is listed. *)
Theorem create_exact i (w w' : W) s :
  json_laws -> honest_signer verifySignature signer -> sigs_within (w_chain w) -> create i w = (Ok s, w') ->
  (forall e, e ∈ c_rows (w_chain w) -> e_ref e <> g_id (grant s)) ->
  exists d, input_ok d i /\ intact (w_chain w') /\ g_scope (grant s) = i_scope i /\ g_match (grant s) = i_match i /\ g_surface (grant s) = i_surface i
    /\ g_actionHash (grant s) = i_actionHash i /\ g_taskId (grant s) = i_taskId i /\ g_sessionId (grant s) = i_sessionId i
    /\ grant s ∈ list_grants w' (i_person i) (i_agent i) (cap_id d).
Proof.
  intros J Hh Hw Hc Hnew. destruct (create_ok i w w' s J Hc) as (d & now & row & e & w0 & Hi & Hrow & Hin & C0 & He & C' & (h & q & -> & Hel) & _).
  set (row' := with_chain h q row) in *. assert (Hr' : row' = with_chain h q (new_row (gr_id row) now i (cap_id d))) by (subst row'; by rewrite <- Hrow).
  assert (Hid : g_id (grant (toGrant row')) = gr_id row) by done. rewrite Hid in Hnew.
  assert (Hintact : intact (w_chain w')).
  { rewrite C'. rewrite He, <- C0.
    apply (written_intact stringify parse hmac tag verifySignature signer clk w0); [done|by rewrite C0|by rewrite C0|].
    apply semantic_snoc; [rewrite C0; by apply intact_parts in Hin as (_ & _ & ? & _)|done]. }
  assert (Hby : byRef (gr_id row) (build (w_chain w')) = [e]).
  { unfold byRef. rewrite build_entries, C'. cbn [written c_rows]. rewrite bfilter_app, bfilter_none.
    - cbn. rewrite He. cbn. by rewrite String.eqb_refl.
    - intros x Hx. apply String.eqb_neq. by apply Hnew. }
  assert (Hke : e_kind e = "grant.created" /\ parse (e_payload e) = Some (payload_of row)).
  { rewrite He. split; [done|]. cbn [next_entry e_payload]. apply (json_round_trip _ _ J), payload_json. }
  destruct Hke as [Hk Hpay].
  assert (Hv : view_of (build (w_chain w')) row' = {| v_grant := toGrant row'; v_state := Active |}).
  { apply (fresh_view _ _ e); [exact Hby|exact Hk| |by rewrite Hr'..].
    unfold vouched. change (gr_id row') with (gr_id row). rewrite Hby. unfold bfind, of_kind. cbn [List.find]. rewrite Hk. cbn [String.eqb Ascii.eqb Bool.eqb].
    rewrite intact_trusts by done. unfold chained_text. rewrite Hpay. change (jget "def" (payload_of row)) with (definition_js row').
    apply bool_decide_eq_true_2. reflexivity. }
  exists d. split_and!; try done; try (rewrite Hr'; done).
  - rewrite Hr'. cbn. unfold row_match. cbn. by destruct (i_match i).
  - unfold Grants.list_grants. cbv zeta. apply elem_of_map. exists {| v_grant := toGrant row'; v_state := Active |}. split; [done|].
    apply bfilter_elem. split; [|done]. unfold views. apply elem_of_map. exists row'. split; [done|].
    rewrite sort_by_perm. apply bfilter_elem. split; [done|]. rewrite Hr'. cbn. by rewrite !String.eqb_refl.
Qed.
End spec.

(** ** Parameters *)

Definition gr_stringify (v : js) : js := v.
Definition gr_parse (v : js) : option js := if json_value v then Some v else None.
Definition gr_hmac (p : string) (s t : Z) (k r : string) (n : option string) (x : js) : string :=
  digits 2 s +:+ k +:+ r +:+ String.substring 0 4 p.
Definition gr_tag (s : Z) (m : string) : string := digits 2 s +:+ m.
Definition gr_verify (m pk sg : string) : bool := String.eqb sg (pk +:+ m).
Definition gr_clock (n : nat) : Z := 1000 + Z.of_nat n.
Definition gr_audit : option (list Event -> Event -> bool) := Some (fun _ _ => true).
Definition gr_syntax (p : string) : option bool := Some true.
Definition gr_reaches (p : string) (b : bool) : bool := false.
Definition gr_sha (v : js) : string := "sha".
Definition gr_fresh (t : Z) (n : nat) : string := "grt".

Lemma gr_laws : json_laws gr_stringify gr_parse.
Proof.
  constructor; unfold gr_stringify, gr_parse.
  - intros v ->. reflexivity.
  - intros t v. destruct (json_value t) eqn:E; [|discriminate]. by intros [= <-].
Qed.

Notation GW := (World (Text := js) (list GrantRow) Event).
Notation gr_create :=
  (create gr_stringify gr_parse gr_hmac gr_tag gr_verify None gr_clock gr_audit gr_syntax gr_reaches gr_sha gr_fresh).
Notation gr_revoke :=
  (revoke gr_stringify gr_parse gr_hmac gr_tag gr_verify None gr_clock gr_audit).
Notation gr_run :=
  (run gr_stringify gr_parse gr_hmac gr_tag gr_verify None gr_clock 90 gr_audit gr_syntax gr_reaches gr_sha gr_fresh).
Notation gr_deps :=
  (deps_of gr_stringify gr_parse gr_hmac gr_tag gr_verify None 90).

Definition gr_world : GW := {| w_chain := empty_chain; w_rows := []; w_tx := false; w_ticks := 0; w_log := [] |}.

Definition gr_input : CreateGrantInput :=
  {| i_id := Some "g1"; i_capability := "net.submit"; i_person := "p1"; i_agent := "a1"; i_scope := Once; i_match := MAction; i_createdBy := "p1";
     i_surface := 3; i_effect := None; i_expiresAt := None; i_actionHash := Some "h1"; i_taskId := None; i_sessionId := None; i_projectId := None;
     i_jobId := None; i_delegable := false; i_acknowledgedUnsandboxed := false; i_attestedVia := None |}.

(** The world in which the grant exists. *)
Definition gr_made : GW := (gr_create gr_input gr_world).2.

(** The row with its consumption erased. *)
Definition gr_reset : list GrantRow -> list GrantRow := map (with_use None None).

Lemma chained_spec (w : GW) kind id :
  existsb (fun e => String.eqb (e_kind e) kind && String.eqb (e_ref e) id) (c_rows (w_chain w)) = true -> chained w kind id.
Proof. intros (e & He & Hk)%existsb_elem. bool_hyps. by exists e. Qed.

Lemma pair_of {A B} (p : A * B) a : p.1 = a -> p = (a, p.2).
Proof. destruct p. cbn. by intros ->. Qed.

(** ** Witnesses *)

Lemma consumed_at_most_once_witness :
  let ops := [OConsume "g1" "p1" "a1" "h1"; OForge gr_reset; OConsume "g1" "p1" "a1" "h1"] in
  (gr_run "g1" ops gr_made).1 = 1%nat /\ ((gr_run "g1" ops gr_made).1 <= 1)%nat
  /\ (gr_run "g1" ops (gr_revoke "g1" "p1" "revoked" gr_made).2).1 = O.
Proof.
  intros ops. split; [vm_compute; reflexivity|].
  split; apply (consumed_at_most_once gr_stringify gr_parse gr_hmac gr_tag gr_verify None gr_clock 90 gr_audit gr_syntax gr_reaches gr_sha gr_fresh "g1" ops).
  left. apply chained_spec. vm_compute. reflexivity.
Defined.

Definition gr_ended : GW := (gr_revoke "g1" "p1" "revoked" gr_made).2.

Lemma end_is_final_witness :
  (gr_revoke "g1" "p1" "revoked" gr_made).1 = Ok true
  /\ decide (ex_call "net.submit" []) (ex_ctx []) (gr_deps gr_made (Fin 2000)) = DAllow (ViaGrant "g1" false)
  /\ decide (ex_call "net.submit" []) (ex_ctx []) (gr_deps (gr_run "g1" [OForge gr_reset; OUse "g1"] gr_ended).2 (Fin 2000))
     <> DAllow (ViaGrant "g1" false).
Proof.
  assert (E : (gr_revoke "g1" "p1" "revoked" gr_made).1 = Ok true) by (vm_compute; reflexivity).
  split; [exact E|]. split; [vm_compute; reflexivity|].
  apply (end_is_final gr_stringify gr_parse gr_hmac gr_tag gr_verify None gr_clock 90 gr_audit gr_syntax gr_reaches gr_sha gr_fresh
           "g1" "p1" "revoked" gr_made gr_ended [OForge gr_reset; OUse "g1"] (ex_call "net.submit" []) (ex_ctx []) (Fin 2000) false).
  - exact (pair_of _ _ E).
  - vm_compute. reflexivity.
Defined.

Lemma allow_by_grant_vouched_witness :
  exists d g e p, grant_stands g d (read_call (ex_call "net.submit" [])) (read_ctx (ex_ctx [])) (gr_deps gr_made (Fin 2000)) /\ g_id g = "g1"
    /\ e ∈ c_rows (w_chain gr_made) /\ gr_parse (e_payload e) = Some p /\ states (jget "def" p) g.
Proof.
  destruct (allow_by_grant_vouched gr_stringify gr_parse gr_hmac gr_tag gr_verify None 90 gr_made (ex_call "net.submit" []) (ex_ctx []) (Fin 2000) "g1" false)
    as (d & g & e & p & Hs & Hg & He & _ & _ & _ & Hp & Hd & _).
  - exact gr_laws.
  - intros r Hr. assert (E : map match_kind (w_rows gr_made) = [KAction]) by (vm_compute; reflexivity).
    intros Hk. exfalso. assert (X : KPath ∈ [KAction]); [|apply list_elem_of_singleton in X; discriminate].
    rewrite <- E, <- Hk. apply elem_of_map. by exists r.
  - vm_compute. reflexivity.
  - exists d, g, e, p. split; [exact Hs|]. split; [exact Hg|]. split; [exact He|]. split; [exact Hp|exact Hd].
Defined.

Lemma create_exact_witness :
  exists s w', gr_create gr_input gr_world = (Ok s, w') /\ g_actionHash (grant s) = Some "h1"
    /\ grant s ∈ list_grants gr_stringify gr_parse gr_hmac gr_tag gr_verify None w' "p1" "a1" "net.submit".
Proof.
  destruct (gr_create gr_input gr_world) as [[s|x] w'] eqn:E; [|exfalso; assert (X : is_ok (gr_create gr_input gr_world).1 = true) by (vm_compute; reflexivity); rewrite E in X; discriminate].
  exists s, w'. split; [reflexivity|].
  destruct (create_exact gr_stringify gr_parse gr_hmac gr_tag gr_verify None gr_clock gr_audit gr_syntax gr_reaches gr_sha gr_fresh gr_input gr_world w' s)
    as (d & Hd & _ & _ & _ & _ & Ha & _ & _ & Hl).
  - exact gr_laws.
  - intros k m Hk. discriminate.
  - intros y Hy. by apply elem_of_nil in Hy.
  - exact E.
  - intros y Hy. by apply elem_of_nil in Hy.
  - split; [exact Ha|]. assert (cap_id d = "net.submit") as Hc; [|rewrite Hc in Hl; exact Hl].
    pose proof (io_cap _ _ _ _ Hd) as C. destruct (CAPABILITIES_in _ _ C) as [_ Hid]. exact Hid.
Defined.
