(* ===== verification/ApprovalStore.v ===== *)
(** * The approval store

    Model of [packages/core/src/approvals/store.ts]: requests bound to an action,
    decisions, withdrawals and single use, all of them entries of the approval
    chain.  The [approvals] table is a projection for listing; nothing is decided
    from it. *)

From S2P Require Import Prelude ApprovalChain.

(** ** Data *)

(* @src approvals/store.ts 13 13 MAX_DETAIL_BYTES *)
Definition MAX_DETAIL_BYTES : Z := 16 * 1024.
(* @src approvals/store.ts 14 14 DEFAULT_REQUEST_TTL_MS *)
Definition DEFAULT_REQUEST_TTL_MS : Z := 24 * 60 * 60000.

(** The kind of a subject stays the text it is stored as. *)
(* @src approvals/store.ts 16 26 ApprovalBinding *)
Record ApprovalBinding : Type := {
  b_requestId : string; b_actionHash : string; b_principal : string; b_kind : string; b_subject : string;
  b_turnId : string; b_taskId : string; b_sessionId : string
}.

(* @src approvals/store.ts 29 29 ApprovalDenial *)
Inductive ApprovalDenial : Type := ApprovalMismatch | ApprovalUsed | ApprovalExpired | SurfaceUntrusted.
#[export] Instance ApprovalDenial_eq_dec : EqDecision ApprovalDenial.
Proof. solve_decision. Defined.

(* @src approvals/store.ts 34 34 ApprovalStatus *)
Inductive ApprovalStatus : Type := Pending | Approved | Denied | UsedUp | ExpiredStatus | Cancelled.
#[export] Instance ApprovalStatus_eq_dec : EqDecision ApprovalStatus.
Proof. solve_decision. Defined.

(** What the chained payload holds stays the value it was parsed to. *)
(* @src approvals/store.ts 35 50 ApprovalRecord *)
Record ApprovalRecord : Type := {
  a_id : string; a_status : ApprovalStatus; a_capability : string; a_bound : js; a_createdAt : Z; a_expiresAt : num;
  a_decidedAt : option Z; a_decidedBy : option string; a_surface : option js; a_delegable : bool; a_usedAt : option Z;
  a_detail : option js; a_cancelledAt : option Z
}.

(* @src approvals/store.ts 52 56 RequestInput *)
Record RequestInput : Type := { ri_binding : ApprovalBinding; ri_capability : string; ri_detail : option js }.
(* @src approvals/store.ts 57 65 DecideInput *)
Record DecideInput : Type := {
  di_requestId : string; di_nonce : string; di_approve : bool; di_person : string; di_surface : Z; di_delegable : bool
}.

(** A row of the projection. *)
(* @src approvals/db.ts 52 71 approvals *)
Record ApprovalRow : Type := {
  ar_id : string; ar_binding : ApprovalBinding; ar_capability : string; ar_nonce : string; ar_status : ApprovalStatus;
  ar_createdAt : Z; ar_expiresAt : Z; ar_decidedAt : option Z; ar_decidedBy : option string; ar_surface : option Z;
  ar_usedAt : option Z; ar_delegable : bool
}.

(* @src approvals/store.ts 97 99 boundOf *)
Definition boundOf (b : ApprovalBinding) : js :=
  JObj [("actionHash", JStr (b_actionHash b)); ("principal", JStr (b_principal b));
        ("subject", JObj [("kind", JStr (b_kind b)); ("id", JStr (b_subject b))]);
        ("turnId", JStr (b_turnId b)); ("taskId", JStr (b_taskId b)); ("sessionId", JStr (b_sessionId b))].

(** [Number(v)]; a text or an object is not a number here, the store writes none. *)
Definition js_number (v : js) : num :=
  match v with JNum n => n | JNull => Fin 0 | JBool b => Fin (if b then 1 else 0) | _ => NaN end.

(** The projection inside the database's other tables. *)
Class ApprovalTable (Rows : Type) : Type := {
  approvals_of : Rows -> list ApprovalRow;
  with_approvals : (list ApprovalRow -> list ApprovalRow) -> Rows -> Rows;
  approvals_with : forall f r, approvals_of (with_approvals f r) = f (approvals_of r)
}.

#[export] Instance own_approvals : ApprovalTable (list ApprovalRow) :=
  {| approvals_of r := r; with_approvals f r := f r; approvals_with _ _ := eq_refl |}.

Section store.
Context {Text : Type} (stringify : js -> Text) (parse : Text -> option js) (text_length : Text -> Z).
Context (hmac : string -> Z -> Z -> string -> string -> option string -> Text -> string) (tag : Z -> string -> string).
Context (verifySignature : string -> string -> string -> bool) (signer : option DecisionSigner).
Context {Rows Ev X : Type} `{ApprovalTable Rows} (type_error : X) (clk : nat -> Z) (ttl : Z).
Notation W := (World (Text := Text) Rows Ev).
Notation M := (SE W (Fault X)).
Notation Entry := (ChainEntry Text).
Notation append := (append stringify parse hmac tag verifySignature signer clk (Rows := Rows) (Ev := Ev) (X := X)).
Notation clock_now := (clock_now clk).

(** The verified entries about a reference, or the integrity error. *)
(* @src approvals/store.ts 107 111 trusted *)
Definition trusted_refs : M (string -> list Entry) :=
  db ← gets w_chain;
  let snap := build parse hmac tag verifySignature signer db in
  match s_result snap with
  | Broken _ at_ reason _ => throw (ChainBroken at_ reason)
  | Verified _ _ _ => mret (fun id => byRef id snap)
  end.

(* @src approvals/store.ts 112 112 find *)
Definition find (l : list Entry) (kind : string) : option Entry := bfind (fun e => String.eqb (e_kind e) kind) l.

(** Entries of these kinds parse when the chain verifies. *)
(* @src approvals/store.ts 113 113 parse *)
Definition payload (e : Entry) : js := default JNull (parse (e_payload e)).

Definition expiresAt (rp : js) : num := js_number (jget "expiresAt" rp).
(** [now >= Number(rp.expiresAt)] *)
Definition past (now : Z) (rp : js) : bool := num_leb (expiresAt rp) (Fin now).

(* @src approvals/store.ts 115 132 record *)
Definition record (id : string) (l : list Entry) (now : Z) : option ApprovalRecord :=
  match find l "approval.requested" with
  | None => None
  | Some req =>
      let rp := payload req in
      let dec := find l "approval.decided" in
      let use := find l "approval.used" in
      let cancel := find l "approval.cancelled" in
      let dp := payload <$> dec in
      let status := match use, cancel, dp with
                    | Some _, _, _ => UsedUp
                    | None, Some _, _ => Cancelled
                    | None, None, Some p => if bool_decide (jget "decision" p = JStr "approve") then Approved else Denied
                    | None, None, None => Pending
                    end in
      let status := if (bool_decide (status = Pending) || bool_decide (status = Approved)) && past now rp then ExpiredStatus else status in
      Some {| a_id := id; a_status := status; a_capability := js_str (jget "capability" rp); a_bound := jget "bound" rp;
              a_createdAt := e_ts req; a_expiresAt := expiresAt rp; a_decidedAt := e_ts <$> dec;
              a_decidedBy := (fun p => js_str (jget "person" p)) <$> dp; a_surface := jget "surface" <$> dp;
              a_delegable := match dp with Some p => js_is_true (jget "delegable" p) | None => false end;
              a_usedAt := e_ts <$> use;
              a_detail := match jget "detail" rp with JObj _ | JArr _ => Some (jget "detail" rp) | _ => None end;
              a_cancelledAt := e_ts <$> cancel |}
  end.

(** ** The calls *)

Definition insert_row (r : ApprovalRow) : M unit :=
  rows ← gets (fun w => approvals_of (w_rows w));
  _ ← require (negb (existsb (fun x => String.eqb (ar_id x) (ar_id r) || String.eqb (ar_nonce x) (ar_nonce r)) rows)) Sql;
  on_rows (with_approvals (fun rs => rs ++ [r])).
Definition update_row (id : string) (f : ApprovalRow -> ApprovalRow) : M unit :=
  on_rows (with_approvals (map (fun r => if String.eqb (ar_id r) id then f r else r))).
Definition set_status (st : ApprovalStatus) (dec : option (Z * string * Z * bool)) (used : option Z) (r : ApprovalRow) : ApprovalRow :=
  {| ar_id := ar_id r; ar_binding := ar_binding r; ar_capability := ar_capability r; ar_nonce := ar_nonce r; ar_status := st;
     ar_createdAt := ar_createdAt r; ar_expiresAt := ar_expiresAt r;
     ar_decidedAt := match dec with Some (t, _, _, _) => Some t | None => ar_decidedAt r end;
     ar_decidedBy := match dec with Some (_, p, _, _) => Some p | None => ar_decidedBy r end;
     ar_surface := match dec with Some (_, _, s, _) => Some s | None => ar_surface r end;
     ar_usedAt := match used with Some t => Some t | None => ar_usedAt r end;
     ar_delegable := match dec with Some (_, _, _, b) => b | None => ar_delegable r end |}.

(** The two random values are arguments. *)
(* @src approvals/store.ts 138 154 request *)
Definition request (id nonce : string) (i : RequestInput) : M (string * string * Z) :=
  let b := ri_binding i in
  let bound := boundOf b in
  _ ← require (bool_decide (bindingTuple bound <> None)) (Own type_error);
  _ ← require (match ri_detail i with Some d => negb (MAX_DETAIL_BYTES <? text_length (stringify d)) | None => true end) (Own type_error);
  transaction (
    _ ← trusted_refs;
    now ← clock_now;
    _ ← append "approval.requested" id
          (JObj ([("capability", JStr (ri_capability i)); ("expiresAt", JNum (Fin (now + ttl))); ("bound", bound)]
                 ++ match ri_detail i with Some d => [("detail", d)] | None => [] end)) (Some nonce);
    _ ← insert_row {| ar_id := id; ar_binding := b; ar_capability := ri_capability i; ar_nonce := nonce; ar_status := Pending;
                      ar_createdAt := now; ar_expiresAt := now + ttl; ar_decidedAt := None; ar_decidedBy := None; ar_surface := None;
                      ar_usedAt := None; ar_delegable := false |};
    mret (id, nonce, now + ttl)).

Notation answer := (result ApprovalDenial).

(* @src approvals/store.ts 156 176 decide *)
Definition decide_request (d : DecideInput) : M (answer ApprovalStatus) :=
  if negb ((di_surface d =? 1) || (di_surface d =? 2) || (di_surface d =? 3)) then mret (Err SurfaceUntrusted)
  else transaction (
    refs ← trusted_refs;
    let l := refs (di_requestId d) in
    match find l "approval.requested" with
    | None => mret (Err ApprovalMismatch)
    | Some req =>
        let rp := payload req in
        if negb (bool_decide (jget "principal" (jget "bound" rp) = JStr (di_person d))) then mret (Err ApprovalMismatch)
        else if negb (bool_decide (e_nonce req = Some (di_nonce d))) then mret (Err ApprovalMismatch)
        else match find l "approval.decided" with
        | Some _ => mret (Err ApprovalUsed)
        | None =>
        match find l "approval.cancelled" with
        | Some _ => mret (Err ApprovalExpired)
        | None =>
            now ← clock_now;
            if past now rp then mret (Err ApprovalExpired)
            else
              let deleg := di_delegable d && di_approve d in
              let st := if di_approve d then Approved else Denied in
              _ ← append "approval.decided" (di_requestId d)
                    (JObj [("decision", JStr (if di_approve d then "approve" else "deny")); ("person", JStr (di_person d));
                           ("surface", JNum (Fin (di_surface d))); ("delegable", JBool deleg); ("bound", jget "bound" rp)]) (Some (di_nonce d));
              _ ← update_row (di_requestId d) (set_status st (Some (now, di_person d, di_surface d, deleg)) None);
              mret (Ok st)
        end end
    end).

(* @src approvals/store.ts 178 191 cancel *)
Definition cancel (id by_ : string) : M (answer unit) :=
  transaction (
    refs ← trusted_refs;
    let l := refs id in
    match find l "approval.requested" with
    | None => mret (Err ApprovalMismatch)
    | Some req =>
        let rp := payload req in
        match find l "approval.decided", find l "approval.cancelled" with
        | None, None =>
            now ← clock_now;
            if past now rp then mret (Err ApprovalExpired)
            else
              _ ← append "approval.cancelled" id (JObj [("by", JStr by_); ("bound", jget "bound" rp)]) None;
              _ ← update_row id (set_status Cancelled None None);
              mret (Ok tt)
        | _, _ => mret (Err ApprovalUsed)
        end
    end).

(* @src approvals/store.ts 193 210 consume *)
Definition consume (b : ApprovalBinding) : M (answer bool) :=
  let tuple := bindingTuple (boundOf b) in
  let id := b_requestId b in
  transaction (
    refs ← trusted_refs;
    let l := refs id in
    match find l "approval.requested", find l "approval.decided", tuple with
    | Some req, Some dec, Some _ =>
        let rp := payload req in
        let dp := payload dec in
        if negb (bool_decide (jget "decision" dp = JStr "approve")) || negb (bool_decide (bindingTuple (jget "bound" rp) = tuple))
        then mret (Err ApprovalMismatch)
        else match find l "approval.used" with
        | Some _ => mret (Err ApprovalUsed)
        | None =>
            now ← clock_now;
            if past now rp then mret (Err ApprovalExpired)
            else
              _ ← append "approval.used" id (JObj [("bound", jget "bound" rp)]) None;
              _ ← update_row id (set_status UsedUp None (Some now));
              mret (Ok (js_is_true (jget "delegable" dp)))
        end
    | _, _, _ => mret (Err ApprovalMismatch)
    end).

(* @src approvals/store.ts 212 214 get *)
Definition get_record (id : string) : M (option ApprovalRecord) :=
  refs ← trusted_refs; now ← clock_now; mret (record id (refs id) now).

(** The references in the order of their first entry. *)
Fixpoint first_refs (seen : list string) (l : list Entry) : list string :=
  match l with
  | [] => []
  | e :: r => if includes seen (e_ref e) then first_refs seen r else e_ref e :: first_refs (e_ref e :: seen) r
  end.

(* @src approvals/store.ts 216 225 list *)
Definition list_records (st : option ApprovalStatus) (principal : option string) : M (list ApprovalRecord) :=
  db ← gets w_chain;
  refs ← trusted_refs;
  now ← clock_now;
  let keep r := match st with Some s => bool_decide (a_status r = s) | None => true end
                && match principal with Some p => bool_decide (jget "principal" (a_bound r) = JStr p) | None => true end in
  mret (sort_by (fun a b => a_createdAt a <=? a_createdAt b)
          (bfilter keep (omap (fun id => record id (refs id) now) (first_refs [] (c_rows db))))).
End store.
