(* ===== verification/ApprovalStoreSpec.v ===== *)
(** * What the approval store promises

    Theorems on [ApprovalStore]: a request is decided at most once and used at most
    once, after an approval by the person it binds; the store's own guards are
    strong enough for the chain's replay rules, so no call of it breaks the chain. *)

From S2P Require Import Prelude ApprovalChain ApprovalChainSpec ApprovalStore.

Lemma bfind_bfilter {A} (p q : A -> bool) l : bfind p (bfilter q l) = bfind (fun x => q x && p x) l.
Proof.
  unfold bfind, bfilter. induction l as [|x l IH]; simpl; [done|]. destruct (q x); simpl; [|done]. by destruct (p x).
Qed.

Lemma bfind_snoc {A} (p : A -> bool) l x : bfind p (l ++ [x]) = match bfind p l with Some y => Some y | None => if p x then Some x else None end.
Proof. rewrite bfind_app. destruct (bfind p l); [done|]. unfold bfind. cbn. by destruct (p x). Qed.

Section spec.
Context {Text : Type} (stringify : js -> Text) (parse : Text -> option js) (text_length : Text -> Z).
Context (hmac : string -> Z -> Z -> string -> string -> option string -> Text -> string) (tag : Z -> string -> string).
Context (verifySignature : string -> string -> string -> bool) (signer : option DecisionSigner).
Context {Rows Ev X : Type} `{ApprovalTable Rows} (type_error : X) (clk : nat -> Z) (ttl : Z).
Notation W := (World (Text := Text) Rows Ev).
Notation Entry := (ChainEntry Text).
Notation intact := (intact parse hmac tag verifySignature signer).
Notation build := (build parse hmac tag verifySignature signer).
Notation semantic := (semantic parse).
Notation replay_entry := (replay_entry parse).
Notation entry_tuple := (entry_tuple parse).
Notation entry_decision := (entry_decision parse).
Notation request := (request stringify parse text_length hmac tag verifySignature signer type_error clk ttl (Rows := Rows) (Ev := Ev)).
Notation decide_request := (decide_request stringify parse hmac tag verifySignature signer clk (Rows := Rows) (Ev := Ev) (X := X)).
Notation cancel := (cancel stringify parse hmac tag verifySignature signer clk (Rows := Rows) (Ev := Ev) (X := X)).
Notation consume := (consume stringify parse hmac tag verifySignature signer clk (Rows := Rows) (Ev := Ev) (X := X)).

(** ** The replay state mirrors what [find] sees *)

(** The first entry of a kind about a reference. *)
Definition at_ (rows : list Entry) (k r : string) : option Entry := bfind (fun e => String.eqb (e_ref e) r && String.eqb (e_kind e) k) rows.

Lemma find_at db k r : find (byRef r (build db)) k = at_ (c_rows db) k r.
Proof.
  unfold find, byRef, at_. rewrite bfind_bfilter. assert (s_entries (build db) = c_rows db) as -> by (unfold ApprovalChain.build; by repeat case_match).
  done.
Qed.

Lemma at_snoc rows e k r :
  at_ (rows ++ [e]) k r = match at_ rows k r with Some x => Some x | None => if String.eqb (e_ref e) r && String.eqb (e_kind e) k then Some e else None end.
Proof. unfold at_. by rewrite bfind_snoc. Qed.

Lemma at_other rows e k r : e_kind e <> k -> at_ (rows ++ [e]) k r = at_ rows k r.
Proof.
  intros Hk. rewrite at_snoc. destruct (at_ rows k r); [done|]. destruct (String.eqb_spec (e_kind e) k); [done|]. by rewrite andb_false_r.
Qed.

Lemma at_own rows e k : e_kind e = k -> at_ rows k (e_ref e) = None -> at_ (rows ++ [e]) k (e_ref e) = Some e.
Proof. intros Hk Hn. by rewrite at_snoc, Hn, Hk, !String.eqb_refl. Qed.

Lemma at_some rows k r e : at_ rows k r = Some e -> e ∈ rows /\ e_kind e = k /\ e_ref e = r.
Proof. intros [He Hk]%bfind_some. by bool_hyps. Qed.

Record mirrors (rows : list Entry) (st : Replay) : Prop := {
  mi_requested : forall r, match at_ rows "approval.requested" r with
    | None => assoc r (rp_requested st) = None
    | Some e => exists t, entry_tuple e = Some t /\ assoc r (rp_requested st) = Some (t, e_nonce e)
    end;
  mi_decided : forall r, match at_ rows "approval.decided" r with
    | None => assoc r (rp_decided st) = None
    | Some e => exists d, entry_decision e = JStr d /\ assoc r (rp_decided st) = Some d
                          /\ exists q, at_ rows "approval.requested" r = Some q /\ e_nonce q = e_nonce e
    end;
  mi_used : forall r, includes (rp_used st) r = match at_ rows "approval.used" r with Some _ => true | None => false end;
  mi_cancelled : forall r, includes (rp_cancelled st) r = match at_ rows "approval.cancelled" r with Some _ => true | None => false end;
  mi_nonces : forall n, includes (rp_nonces st) n = true ->
    exists r e, at_ rows "approval.decided" r = Some e /\ e_nonce e = Some n
}.

Lemma mirrors_nil : mirrors [] no_replay.
Proof. by constructor. Qed.

(** Facts about an entry of another kind carry over. *)
Ltac carry K := intros r; rewrite !at_other by (rewrite K; done).

Lemma mirrors_step rows st e st' : mirrors rows st -> replay_entry st e = Ok st' -> mirrors (rows ++ [e]) st'.
Proof.
  intros [R D U C N] Hr. apply replay_entry_accepts in Hr.
  assert (N' : e_kind e <> "approval.decided" -> forall n, includes (rp_nonces st) n = true ->
    exists r x, at_ (rows ++ [e]) "approval.decided" r = Some x /\ e_nonce x = Some n).
  { intros K n (r & x & Hx & Hn)%N. exists r, x. by rewrite at_other. }
  assert (D' : e_kind e <> "approval.decided" -> forall r, match at_ (rows ++ [e]) "approval.decided" r with
    | None => assoc r (rp_decided st) = None
    | Some x => exists d, entry_decision x = JStr d /\ assoc r (rp_decided st) = Some d
                          /\ exists q, at_ (rows ++ [e]) "approval.requested" r = Some q /\ e_nonce q = e_nonce x end).
  { intros K r. rewrite (at_other _ _ _ _ K). specialize (D r). destruct (at_ rows "approval.decided" r); [|done].
    destruct D as (d & H1 & H2 & q & H3 & H4). exists d. split_and!; try done. exists q. by rewrite at_snoc, H3. }
  destruct Hr as [K1 K2 K3 K4|t K T Kn|t n d K T Hn Rq Kn Cn Dc|t n K T Rq Kn|t n K T Rq Dc Us].
  - constructor; [|by apply D'| | |by apply N']; intros r; rewrite at_other by done; [apply R|apply U|apply C].
  - constructor; [| | carry K; apply U|carry K; apply C|apply N'; by rewrite K].
    + intros r. cbn [rp_requested with_requested]. rewrite assoc_cons. specialize (R r). destruct (String.eqb_spec (e_ref e) r) as [<-|Hne].
      * apply known_none in Kn. destruct (at_ rows "approval.requested" (e_ref e)) as [x|] eqn:E; [destruct R as (t' & _ & R); congruence|].
        rewrite at_own by done. by exists t.
      * rewrite at_snoc. destruct (at_ rows "approval.requested" r); [done|]. apply String.eqb_neq in Hne. by rewrite Hne.
    + apply D'. by rewrite K.
  - assert (Hat : at_ rows "approval.decided" (e_ref e) = None).
    { specialize (D (e_ref e)). apply known_none in Kn. destruct (at_ rows _ _); [|done]. destruct D as (? & _ & ? & _). congruence. }
    constructor; [carry K; apply R| |carry K; apply U|carry K; apply C|].
    + intros r. cbn [rp_decided with_decided]. rewrite assoc_cons. specialize (D r). rewrite (at_other _ _ "approval.requested") by (by rewrite K).
      destruct (String.eqb_spec (e_ref e) r) as [<-|Hne].
      * rewrite at_own by done. exists d. split_and!; try done. specialize (R (e_ref e)).
        destruct (at_ rows "approval.requested" (e_ref e)) as [q|]; [|congruence]. destruct R as (t' & _ & R). exists q. split; [done|congruence].
      * rewrite at_snoc. destruct (at_ rows "approval.decided" r); [done|]. apply String.eqb_neq in Hne. by rewrite Hne.
    + intros m. cbn [rp_nonces with_decided]. rewrite includes_cons. intros [Hm|Hm]%orb_true_iff.
      * bool_hyps. subst m. exists (e_ref e), e. by rewrite at_own.
      * apply N in Hm as (r & x & Hx & Hm). exists r, x. by rewrite at_snoc, Hx.
  - constructor; [carry K; apply R|apply D'; by rewrite K|carry K; apply U| |apply N'; by rewrite K].
    intros r. cbn [rp_cancelled with_cancelled]. rewrite includes_cons, at_snoc, C, K, (String.eqb_sym r). destruct (at_ rows _ r); [by rewrite orb_true_r|].
    rewrite orb_false_r. by destruct (String.eqb (e_ref e) r).
  - constructor; [carry K; apply R|apply D'; by rewrite K| |carry K; apply C|apply N'; by rewrite K].
    intros r. cbn [rp_used with_used]. rewrite includes_cons, at_snoc, U, K, (String.eqb_sym r). destruct (at_ rows _ r); [by rewrite orb_true_r|].
    rewrite orb_false_r. by destruct (String.eqb (e_ref e) r).
Qed.

Lemma mirrors_fold rows l st st' : mirrors rows st -> rfold replay_entry st l = Ok st' -> mirrors (rows ++ l) st'.
Proof.
  revert rows st. induction l as [|e l IH]; intros rows st Hm Hf; simpl in Hf.
  - rewrite app_nil_r. by injection Hf as <-.
  - apply rbind_ok in Hf as (st1 & H1 & H2). rewrite cons_middle, app_assoc. eapply IH; [|done]. by eapply mirrors_step.
Qed.

(** A verified chain has a replay state, which mirrors it. *)
Lemma intact_mirror db : intact db -> exists st, rfold replay_entry no_replay (c_rows db) = Ok st /\ mirrors (c_rows db) st.
Proof.
  intros (_ & _ & Hs & _)%intact_parts. unfold ApprovalChain.semantic in Hs. destruct (rfold _ _ _) as [st|] eqn:E; [|done].
  exists st. split; [done|]. by apply (mirrors_fold [] (c_rows db) no_replay st mirrors_nil).
Qed.

(** ** What a call that went through did *)

(** The chain of [w'] is that of [w] with one entry more. *)
Definition lands (w w' : W) (kind id : string) (p : js) (n : option string) (e : Entry) : Prop :=
  intact (w_chain w) /\ (exists k, e = next_entry stringify hmac (w_chain w) (clk k) kind id p n) /\ w_chain w' = written tag signer (w_chain w) e.

Lemma trusted_refs_ok (w : W) refs w' :
  trusted_refs parse hmac tag verifySignature signer (X := X) w = (Ok refs, w') ->
  intact (w_chain w) /\ w' = w /\ refs = fun id => byRef id (build (w_chain w)).
Proof.
  unfold trusted_refs. intros Hr. apply SE_bind_ok in Hr as (db & w1 & Hg & Hr). injection Hg as <- <-.
  destruct (s_result (build (w_chain w))) eqn:E; [|done]. injection Hr as <- <-.
  split; [|done]. unfold ApprovalChainSpec.intact, ApprovalChain.verify. by rewrite E.
Qed.

Lemma append_then {A} (w : W) kind id p n (k : SE W (Fault X) A) f a w' w0 :
  w_chain w0 = w_chain w ->
  (_ ← append stringify parse hmac tag verifySignature signer clk kind id p n; _ ← update_row id f; k) w0 = (Ok a, w') ->
  (forall x y, k x = (Ok a, y) -> y = x) -> exists e, lands w w' kind id p n e.
Proof.
  intros C0 Hm Hk. apply SE_bind_ok in Hm as (e & w1 & Ha & Hm). apply SE_bind_ok in Hm as (u & w2 & Hu & Hm). apply Hk in Hm as ->.
  injection Hu as _ <-. apply append_ok in Ha as (Hi & -> & -> & _). eexists. unfold lands. cbn [w_chain appended]. rewrite C0 in *.
  split_and!; [done|by eexists|done].
Qed.

Definition answers (d : DecideInput) : ApprovalStatus := if di_approve d then Approved else Denied.
Definition decision_payload (d : DecideInput) (bound : js) : js :=
  JObj [("decision", JStr (if di_approve d then "approve" else "deny")); ("person", JStr (di_person d)); ("surface", JNum (Fin (di_surface d)));
        ("delegable", JBool (di_delegable d && di_approve d)); ("bound", bound)].
Definition bound_in (e : Entry) : js := jget "bound" (payload parse e).

(** A decision was taken on an open request, by its principal, with its nonce, in time. *)
Lemma decide_ok d (w : W) st w' : decide_request d w = (Ok (Ok st), w') ->
  1 <= di_surface d <= 3 /\ st = answers d
  /\ exists req e now, at_ (c_rows (w_chain w)) "approval.requested" (di_requestId d) = Some req
    /\ at_ (c_rows (w_chain w)) "approval.decided" (di_requestId d) = None /\ at_ (c_rows (w_chain w)) "approval.cancelled" (di_requestId d) = None
    /\ jget "principal" (bound_in req) = JStr (di_person d) /\ e_nonce req = Some (di_nonce d) /\ past now (payload parse req) = false
    /\ lands w w' "approval.decided" (di_requestId d) (decision_payload d (bound_in req)) (Some (di_nonce d)) e.
Proof.
  unfold ApprovalStore.decide_request. destruct (_ || _ || _) eqn:Es; [|done]. cbn [negb]. intros Hd.
  assert (Hs : 1 <= di_surface d <= 3).
  { apply orb_true_iff in Es as [Es|Es]; [apply orb_true_iff in Es as [Es|Es]|]; bool_hyps; lia. }
  apply transaction_ok in Hd as (w0 & w1 & Hm & C0 & _ & _ & _ & C1 & _). apply SE_bind_ok in Hm as (refs & w2 & Ht & Hm).
  apply trusted_refs_ok in Ht as (Hi & -> & ->). cbv zeta in Hm. rewrite !find_at, C0 in Hm.
  destruct (at_ _ "approval.requested" _) as [req|] eqn:Er; [|done]. destruct (bool_decide_reflect (jget "principal" (jget "bound" (payload parse req)) = JStr (di_person d))) as [Hp|]; [|done].
  destruct (bool_decide_reflect (e_nonce req = Some (di_nonce d))) as [Hn|]; [|done]. cbn [negb] in Hm.
  destruct (at_ _ "approval.decided" _) eqn:Ed; [done|]. destruct (at_ _ "approval.cancelled" _) eqn:Ec; [done|].
  apply SE_bind_ok in Hm as (now & w3 & Hc & Hm). injection Hc as _ <-. destruct (past now (payload parse req)) eqn:Ep; [done|].
  assert (st = answers d).
  { apply SE_bind_ok in Hm as (? & ? & _ & Hm). apply SE_bind_ok in Hm as (? & ? & _ & Hm). by injection Hm as <- _. }
  eapply (append_then w) in Hm as [e He]; [|done|by intros x y [=]].
  split; [done|]. split; [done|]. exists req, e, now. split_and!; try done. destruct He as (? & ? & ?). split_and!; try done. by rewrite C1.
Qed.

Lemma cancel_ok id by_ (w : W) u w' : cancel id by_ w = (Ok (Ok u), w') ->
  exists req e, at_ (c_rows (w_chain w)) "approval.requested" id = Some req
    /\ at_ (c_rows (w_chain w)) "approval.decided" id = None /\ at_ (c_rows (w_chain w)) "approval.cancelled" id = None
    /\ lands w w' "approval.cancelled" id (JObj [("by", JStr by_); ("bound", bound_in req)]) None e.
Proof.
  unfold ApprovalStore.cancel. intros Hd.
  apply transaction_ok in Hd as (w0 & w1 & Hm & C0 & _ & _ & _ & C1 & _). apply SE_bind_ok in Hm as (refs & w2 & Ht & Hm).
  apply trusted_refs_ok in Ht as (Hi & -> & ->). cbv zeta in Hm. rewrite !find_at, C0 in Hm.
  destruct (at_ _ "approval.requested" _) as [req|] eqn:Er; [|done].
  destruct (at_ _ "approval.decided" _) eqn:Ed; [done|]. destruct (at_ _ "approval.cancelled" _) eqn:Ec; [done|].
  apply SE_bind_ok in Hm as (now & w3 & Hc & Hm). injection Hc as _ <-. destruct (past now (payload parse req)) eqn:Ep; [done|].
  eapply (append_then w) in Hm as [e He]; [|done|by intros x y [=]].
  exists req, e. split_and!; try done. destruct He as (? & ? & ?). split_and!; try done. by rewrite C1.
Qed.

Lemma consume_ok b (w : W) deleg w' : consume b w = (Ok (Ok deleg), w') ->
  exists req dec e now, at_ (c_rows (w_chain w)) "approval.requested" (b_requestId b) = Some req
    /\ at_ (c_rows (w_chain w)) "approval.decided" (b_requestId b) = Some dec /\ at_ (c_rows (w_chain w)) "approval.used" (b_requestId b) = None
    /\ entry_decision dec = JStr "approve" /\ entry_tuple req = bindingTuple (boundOf b) /\ past now (payload parse req) = false
    /\ lands w w' "approval.used" (b_requestId b) (JObj [("bound", bound_in req)]) None e.
Proof.
  unfold ApprovalStore.consume. cbv zeta. intros Hd.
  apply transaction_ok in Hd as (w0 & w1 & Hm & C0 & _ & _ & _ & C1 & _). apply SE_bind_ok in Hm as (refs & w2 & Ht & Hm).
  apply trusted_refs_ok in Ht as (Hi & -> & ->). rewrite !find_at, C0 in Hm.
  destruct (at_ _ "approval.requested" _) as [req|] eqn:Er; [|done]. destruct (at_ _ "approval.decided" _) as [dec|] eqn:Ed; [|done].
  destruct (bindingTuple (boundOf b)) as [t|] eqn:Et; [|done].
  destruct (bool_decide_reflect (jget "decision" (payload parse dec) = JStr "approve")) as [Hdec|]; [|done].
  destruct (bool_decide_reflect (bindingTuple (jget "bound" (payload parse req)) = Some t)) as [Htu|]; [|done]. cbn [negb orb] in Hm.
  destruct (at_ _ "approval.used" _) eqn:Eu; [done|].
  apply SE_bind_ok in Hm as (now & w3 & Hc & Hm). injection Hc as _ <-. destruct (past now (payload parse req)) eqn:Ep; [done|].
  eapply (append_then w) in Hm as [e He]; [|done|by intros x y [=]].
  exists req, dec, e, now. split_and!; try done. destruct He as (? & ? & ?). split_and!; try done. by rewrite C1.
Qed.

Lemma request_ok id nonce i (w : W) r w' : request id nonce i w = (Ok r, w') ->
  bindingTuple (boundOf (ri_binding i)) <> None /\ exists e now,
    lands w w' "approval.requested" id
      (JObj ([("capability", JStr (ri_capability i)); ("expiresAt", JNum (Fin (now + ttl))); ("bound", boundOf (ri_binding i))]
             ++ match ri_detail i with Some d => [("detail", d)] | None => [] end)) (Some nonce) e.
Proof.
  unfold ApprovalStore.request. cbv zeta. intros Hd. apply SE_bind_ok in Hd as (u1 & v1 & H1 & Hd). apply require_ok in H1 as [Hb <-].
  apply SE_bind_ok in Hd as (u2 & v2 & H2 & Hd). apply require_ok in H2 as [_ <-]. split; [by apply bool_decide_eq_true in Hb|].
  apply transaction_ok in Hd as (w0 & w1 & Hm & C0 & _ & _ & _ & C1 & _). apply SE_bind_ok in Hm as (refs & w2 & Ht & Hm).
  apply trusted_refs_ok in Ht as (Hi & -> & _). apply SE_bind_ok in Hm as (now & w3 & Hc & Hm). injection Hc as _ <-.
  apply SE_bind_ok in Hm as (e & w4 & Ha & Hm). apply SE_bind_ok in Hm as (u & w5 & Hu & Hm). injection Hm as _ <-.
  unfold insert_row in Hu. apply SE_bind_ok in Hu as (rs & w6 & Hg & Hu). injection Hg as _ <-.
  apply SE_bind_ok in Hu as (u3 & w7 & Hq & Hu). apply require_ok in Hq as [_ <-]. injection Hu as _ <-.
  apply append_ok in Ha as (Hi' & -> & -> & _). eexists _, now. unfold lands.
  cbn [w_chain w_ticks appended] in *. rewrite C0 in *. split_and!; [done|by eexists|by rewrite C1].
Qed.

(** A call that was refused or threw left the chain alone. *)
Ltac untouched :=
  repeat match goal with
  | H : (_ ≫= _) _ = (Ok (Err _), _) |- _ => apply SE_bind_ok in H as (? & ? & ? & ?)
  | H : trusted_refs _ _ _ _ _ _ = (Ok _, _) |- _ => apply trusted_refs_ok in H as (_ & -> & ->)
  | H : ApprovalChain.clock_now _ _ = (Ok _, _) |- _ => injection H as _ <-
  | H : mret (Err _) _ = (Ok (Err _), _) |- _ => injection H as _ <-
  | H : mret (Ok _) _ = (Ok (Err _), _) |- _ => discriminate H
  | H : (match ?x with _ => _ end) _ = (Ok (Err _), _) |- _ => destruct x eqn:?
  end.

Lemma require_err {A} b e (k : unit -> SE W (Fault X) A) (w : W) x w' :
  (require b e ≫= k) w = (Err x, w') -> w' = w \/ k tt w = (Err x, w').
Proof. unfold mbind, SE_bind. destruct b; [by right|]. intros [= _ <-]. by left. Qed.

(** [m] changes the database only when it answers with success. *)
Definition all_or_nothing {A} (m : SE W (Fault X) (result ApprovalDenial A)) : Prop := forall w, w_tx w = false ->
  match m w with (Ok (Ok _), _) => True | (_, w') => w_chain w' = w_chain w /\ w_rows w' = w_rows w end.

(** A refusal changes nothing, inside a transaction too. *)
Definition refusals_idle {A} (m : SE W (Fault X) (result ApprovalDenial A)) : Prop := forall w r w',
  m w = (Ok (Err r), w') -> w_chain w' = w_chain w /\ w_rows w' = w_rows w.

Lemma decide_idle d : refusals_idle (decide_request d).
Proof.
  intros w r w' Hd. unfold ApprovalStore.decide_request in Hd; cbv zeta in Hd. destruct (negb _); [by injection Hd as _ <-|].
  apply transaction_ok in Hd as (w0 & w1 & Hm & C0 & R0 & _ & _ & C1 & R1 & _). rewrite C1, R1, <- C0, <- R0. untouched; done.
Qed.

Lemma cancel_idle id by_ : refusals_idle (cancel id by_).
Proof.
  intros w r w' Hd. unfold ApprovalStore.cancel in Hd; cbv zeta in Hd.
  apply transaction_ok in Hd as (w0 & w1 & Hm & C0 & R0 & _ & _ & C1 & R1 & _). rewrite C1, R1, <- C0, <- R0. untouched; done.
Qed.

Lemma consume_idle b : refusals_idle (consume b).
Proof.
  intros w r w' Hd. unfold ApprovalStore.consume in Hd; cbv zeta in Hd.
  apply transaction_ok in Hd as (w0 & w1 & Hm & C0 & R0 & _ & _ & C1 & R1 & _). rewrite C1, R1, <- C0, <- R0. untouched; done.
Qed.

Lemma idle_all {A} (m : SE W (Fault X) (result ApprovalDenial A)) :
  refusals_idle m -> (forall w x w', w_tx w = false -> m w = (Err x, w') -> w_chain w' = w_chain w /\ w_rows w' = w_rows w) -> all_or_nothing m.
Proof. intros Hi He w Hw. destruct (m w) as [[[a|r]|x] w'] eqn:E; [done|by apply Hi in E|by apply He in E]. Qed.

Lemma decide_all d : all_or_nothing (decide_request d).
Proof.
  apply idle_all; [apply decide_idle|]. intros w x w' Hw Hd. unfold ApprovalStore.decide_request in Hd. destruct (negb _); [done|by apply transaction_err in Hd].
Qed.
Lemma cancel_all id by_ : all_or_nothing (cancel id by_).
Proof. apply idle_all; [apply cancel_idle|]. intros w x w' Hw Hd. by apply transaction_err in Hd. Qed.
Lemma consume_all b : all_or_nothing (consume b).
Proof. apply idle_all; [apply consume_idle|]. intros w x w' Hw Hd. by apply transaction_err in Hd. Qed.

Lemma request_err id nonce i (w : W) x w' : w_tx w = false -> request id nonce i w = (Err x, w') -> w_chain w' = w_chain w.
Proof.
  intros Hw Hd. unfold ApprovalStore.request in Hd. cbv zeta in Hd. apply require_err in Hd as [-> |Hd]; [done|].
  apply require_err in Hd as [-> |Hd]; [done|]. by apply transaction_err in Hd as [? _].
Qed.

(** ** The store keeps the chain verified *)

(** No two requests share a nonce. *)
Definition fresh_nonces (rows : list Entry) : Prop := forall r r' e e',
  at_ rows "approval.requested" r = Some e -> at_ rows "approval.requested" r' = Some e' -> e_nonce e = e_nonce e' -> r = r'.

Record good (w : W) : Prop := {
  gd_intact : intact (w_chain w);
  gd_sigs : sigs_within (w_chain w);
  gd_nonces : fresh_nonces (c_rows (w_chain w))
}.

Lemma lands_entry w w' kind id p n e : json_laws stringify parse -> lands w w' kind id p n e -> json_value p = true ->
  c_rows (w_chain w') = c_rows (w_chain w) ++ [e] /\ e_kind e = kind /\ e_ref e = id /\ e_nonce e = n /\ parse (e_payload e) = Some p.
Proof.
  intros J (_ & (k & ->) & ->) Hp. split_and!; try done. by apply (json_round_trip _ _ J).
Qed.

(** An entry the replay rules accept leaves a good chain. *)
Lemma lands_good w w' kind id p n e : honest_signer verifySignature signer -> good w -> lands w w' kind id p n e ->
  (forall st, mirrors (c_rows (w_chain w)) st -> is_ok (replay_entry st e) = true) ->
  fresh_nonces (c_rows (w_chain w) ++ [e]) -> good w'.
Proof.
  intros Hh [Hi Hs Hf] (_ & (k & He) & Hw) Hacc Hfr.
  assert (Hsem : semantic (c_rows (w_chain w) ++ [e]) = None).
  { destruct (intact_mirror _ Hi) as (st & E & Hm). unfold ApprovalChain.semantic. rewrite rfold_app, E. cbn [rbind rfold].
    specialize (Hacc st Hm). by destruct (replay_entry st e). }
  set (w0 := {| w_chain := w_chain w; w_rows := w_rows w; w_tx := false; w_ticks := k; w_log := [] |} : W).
  constructor.
  - rewrite Hw, He. apply (written_intact stringify parse hmac tag verifySignature signer clk w0 kind id p n Hh Hi Hs). rewrite He in Hsem. exact Hsem.
  - intros s. rewrite Hw. cbn [written c_sigs c_rows]. rewrite length_app, Nat2Z.inj_add. intros [Hin|Hin]%elem_of_app.
    + specialize (Hs s Hin). lia.
    + apply sigs_of_seq in Hin. rewrite He, (next_seq _ parse _ tag verifySignature signer) in Hin by exact Hi. simpl length. lia.
  - by rewrite Hw.
Qed.

Lemma fresh_other rows e : e_kind e <> "approval.requested" -> fresh_nonces rows -> fresh_nonces (rows ++ [e]).
Proof. intros Hk Hf r r' x x'. rewrite !at_other by done. apply Hf. Qed.

Lemma bound_json req t : json_laws stringify parse -> entry_tuple req = Some t -> json_value (bound_in req) = true.
Proof.
  unfold ApprovalChainSpec.entry_tuple, bound_in, payload. intros J Ht. destruct (parse (e_payload req)) as [v|] eqn:E; [|done]. cbn [default from_option id] in *.
  destruct (jget_json "bound" v (json_parsed _ _ J _ _ E)) as [Hu|Hj]; [|done]. by rewrite Hu in Ht.
Qed.

Lemma same_tuple_refl t : same_tuple (Some t) t = true.
Proof. by apply bool_decide_eq_true. Qed.

Lemma decided_accepted rows st e fs req t n d :
  mirrors rows st -> fresh_nonces rows -> e_kind e = "approval.decided" -> parse (e_payload e) = Some (JObj fs) ->
  bindingTuple (jget "bound" (JObj fs)) = Some t -> jget "decision" (JObj fs) = JStr d -> d = "approve" \/ d = "deny" ->
  at_ rows "approval.requested" (e_ref e) = Some req -> entry_tuple req = Some t -> e_nonce req = Some n -> e_nonce e = Some n ->
  at_ rows "approval.decided" (e_ref e) = None -> at_ rows "approval.cancelled" (e_ref e) = None -> is_ok (replay_entry st e) = true.
Proof.
  intros [R D U C N] Hf K Hp Ht Hd Hdv Hr Hrt Hrn Hn Had Hac. unfold ApprovalChain.replay_entry. rewrite K, Hp. cbn [default from_option id].
  change (negb (starts_with "approval." "approval.decided")) with false. cbv iota.
  change (String.eqb "approval.decided" "approval.requested") with false. change (String.eqb "approval.decided" "approval.decided") with true. cbv iota.
  rewrite Hn. destruct (includes (rp_nonces st) n) eqn:En.
  { exfalso. apply N in En as (r & x & Hx & Hxn). specialize (D r) as Dr. rewrite Hx in Dr. destruct Dr as (_ & _ & _ & q & Hq & Hqn).
    assert (r = e_ref e) as -> by (apply (Hf _ _ q req); [done|done|congruence]). congruence. }
  specialize (R (e_ref e)). rewrite Hr, Hrt in R. destruct R as (t' & [= <-] & ->). rewrite Ht, same_tuple_refl, Hrn. rewrite bool_decide_eq_true_2 by done.
  cbn [andb negb]. specialize (D (e_ref e)). rewrite Had in D. unfold known. rewrite D. specialize (C (e_ref e)). rewrite Hac in C. rewrite C, Hd.
  by destruct Hdv as [-> | ->].
Qed.

Lemma cancelled_accepted rows st e fs req t :
  mirrors rows st -> e_kind e = "approval.cancelled" -> parse (e_payload e) = Some (JObj fs) -> bindingTuple (jget "bound" (JObj fs)) = Some t ->
  at_ rows "approval.requested" (e_ref e) = Some req -> entry_tuple req = Some t -> at_ rows "approval.decided" (e_ref e) = None ->
  is_ok (replay_entry st e) = true.
Proof.
  intros [R D U C N] K Hp Ht Hr Hrt Had. unfold ApprovalChain.replay_entry. rewrite K, Hp. cbn [default from_option id].
  change (negb (starts_with "approval." "approval.cancelled")) with false. cbv iota.
  change (String.eqb "approval.cancelled" "approval.requested") with false. change (String.eqb "approval.cancelled" "approval.decided") with false.
  change (String.eqb "approval.cancelled" "approval.cancelled") with true. cbv iota.
  specialize (R (e_ref e)). rewrite Hr, Hrt in R. destruct R as (t' & [= <-] & ->). rewrite Ht, same_tuple_refl.
  specialize (D (e_ref e)). rewrite Had in D. unfold known. by rewrite D.
Qed.

Lemma used_accepted rows st e fs req dec t :
  mirrors rows st -> e_kind e = "approval.used" -> parse (e_payload e) = Some (JObj fs) -> bindingTuple (jget "bound" (JObj fs)) = Some t ->
  at_ rows "approval.requested" (e_ref e) = Some req -> entry_tuple req = Some t -> at_ rows "approval.decided" (e_ref e) = Some dec ->
  entry_decision dec = JStr "approve" -> at_ rows "approval.used" (e_ref e) = None -> is_ok (replay_entry st e) = true.
Proof.
  intros [R D U C N] K Hp Ht Hr Hrt Had Hdd Hau. unfold ApprovalChain.replay_entry. rewrite K, Hp. cbn [default from_option id].
  change (negb (starts_with "approval." "approval.used")) with false. cbv iota.
  change (String.eqb "approval.used" "approval.requested") with false. change (String.eqb "approval.used" "approval.decided") with false.
  change (String.eqb "approval.used" "approval.cancelled") with false. change (String.eqb "approval.used" "approval.used") with true. cbv iota.
  specialize (R (e_ref e)). rewrite Hr, Hrt in R. destruct R as (t' & [= <-] & ->). rewrite Ht, same_tuple_refl.
  specialize (D (e_ref e)). rewrite Had, Hdd in D. destruct D as (d & [= <-] & -> & _). rewrite bool_decide_eq_true_2 by done. cbn [negb orb].
  specialize (U (e_ref e)). rewrite Hau in U. by rewrite U.
Qed.

(** ** Runs of the store *)

(** The store's calls, and between them any change to the tables beside the chain. *)
Inductive Call : Type :=
| CRequest (id nonce : string) (i : RequestInput) | CDecide (d : DecideInput) | CCancel (id by_ : string) | CConsume (b : ApprovalBinding)
| CForge (f : Rows -> Rows).

(** What a call achieved. *)
Inductive Did : Type := Requested (id : string) | Decided (id : string) (approve : bool) | Withdrawn (id : string) | Spent (id : string).

Definition outcome {A} (r : result (Fault X) (result ApprovalDenial A) * W) (d : Did) : option Did * W :=
  match r with (Ok (Ok _), w) => (Some d, w) | (_, w) => (None, w) end.

Definition step (o : Call) (w : W) : option Did * W :=
  match o with
  | CRequest id nonce i => match request id nonce i w with (Ok _, w') => (Some (Requested id), w') | (Err _, w') => (None, w') end
  | CDecide d => outcome (decide_request d w) (Decided (di_requestId d) (di_approve d))
  | CCancel id by_ => outcome (cancel id by_ w) (Withdrawn id)
  | CConsume b => outcome (consume b w) (Spent (b_requestId b))
  | CForge f => (None, {| w_chain := w_chain w; w_rows := f (w_rows w); w_tx := w_tx w; w_ticks := w_ticks w; w_log := w_log w |})
  end.

(** The entry an achievement brought, and what stood before it. *)
Definition achieved (o : Call) (d : Did) (w w' : W) : Prop :=
  match d with
  | Requested id => exists nonce i e now, o = CRequest id nonce i /\ bindingTuple (boundOf (ri_binding i)) <> None
      /\ lands w w' "approval.requested" id
           (JObj ([("capability", JStr (ri_capability i)); ("expiresAt", JNum (Fin (now + ttl))); ("bound", boundOf (ri_binding i))]
                  ++ match ri_detail i with Some d => [("detail", d)] | None => [] end)) (Some nonce) e
  | Decided id a => exists c req e, di_requestId c = id /\ di_approve c = a /\ at_ (c_rows (w_chain w)) "approval.requested" id = Some req
      /\ at_ (c_rows (w_chain w)) "approval.decided" id = None /\ at_ (c_rows (w_chain w)) "approval.cancelled" id = None
      /\ e_nonce req = Some (di_nonce c) /\ lands w w' "approval.decided" id (decision_payload c (bound_in req)) (Some (di_nonce c)) e
  | Withdrawn id => exists by_ req e, at_ (c_rows (w_chain w)) "approval.requested" id = Some req
      /\ at_ (c_rows (w_chain w)) "approval.decided" id = None /\ at_ (c_rows (w_chain w)) "approval.cancelled" id = None
      /\ lands w w' "approval.cancelled" id (JObj [("by", JStr by_); ("bound", bound_in req)]) None e
  | Spent id => exists req dec e, at_ (c_rows (w_chain w)) "approval.requested" id = Some req
      /\ at_ (c_rows (w_chain w)) "approval.decided" id = Some dec /\ at_ (c_rows (w_chain w)) "approval.used" id = None
      /\ entry_decision dec = JStr "approve" /\ lands w w' "approval.used" id (JObj [("bound", bound_in req)]) None e
  end.

Lemma step_tx o (w : W) : w_tx w = false -> w_tx (step o w).2 = false.
Proof.
  intros Ht. destruct o; cbn [step]; unfold outcome; try done.
  - assert (G : w_tx (request id nonce i w).2 = false); [|by destruct (request id nonce i w) as [[]]].
    unfold ApprovalStore.request, mbind, SE_bind, require. destruct (bool_decide _); [|done]. cbn [mret SE_ret]. unfold SE_ret.
    destruct (match ri_detail i with Some _ => _ | None => _ end); [|done]. by apply transaction_tx.
  - assert (G : w_tx (decide_request d w).2 = false); [|by destruct (decide_request d w) as [[[]|]]].
    unfold ApprovalStore.decide_request. destruct (negb _); [done|]. by apply transaction_tx.
  - assert (G : w_tx (cancel id by_ w).2 = false) by by apply transaction_tx. by destruct (cancel id by_ w) as [[[]|]].
  - assert (G : w_tx (consume b w).2 = false) by by apply transaction_tx. by destruct (consume b w) as [[[]|]].
Qed.

Lemma outcome_none {A} (m : SE W (Fault X) (result ApprovalDenial A)) d (w : W) :
  all_or_nothing m -> w_tx w = false -> (outcome (m w) d).1 = None -> w_chain (outcome (m w) d).2 = w_chain w.
Proof. intros Hm Ht. specialize (Hm w Ht). destruct (m w) as [[[a|r]|x] w']; [done|by intros _; apply Hm..]. Qed.

Lemma outcome_some {A} (m : SE W (Fault X) (result ApprovalDenial A)) d d' (w : W) :
  (outcome (m w) d).1 = Some d' -> d' = d /\ exists a, m w = (Ok (Ok a), (outcome (m w) d).2).
Proof. destruct (m w) as [[[a|r]|x] w']; cbn; try done. intros [= <-]. by split; [|exists a]. Qed.

Lemma step_spec o (w : W) : w_tx w = false ->
  match (step o w).1 with None => w_chain (step o w).2 = w_chain w | Some d => achieved o d w (step o w).2 end.
Proof.
  intros Ht. destruct (step o w).1 as [d'|] eqn:E.
  - destruct o; cbn [step] in *; try done.
    + destruct (request id nonce i w) as [[r|x] w'] eqn:Er; [|done]. injection E as <-. apply request_ok in Er as (Hb & e & now & Hl).
      by exists nonce, i, e, now.
    + apply outcome_some in E as (-> & st & (_ & _ & req & e & now & Hr & Hd & Hc & _ & Hn & _ & Hl)%decide_ok). exists d, req, e. by split_and!.
    + apply outcome_some in E as (-> & u & (req & e & Hr & Hd & Hc & Hl)%cancel_ok). exists by_, req, e. by split_and!.
    + apply outcome_some in E as (-> & u & (req & dec & e & now & Hr & Hd & Hu & Hdd & _ & _ & Hl)%consume_ok). exists req, dec, e. by split_and!.
  - destruct o; cbn [step] in *.
    + destruct (request id nonce i w) as [[r|x] w'] eqn:Er; [done|]. by apply request_err in Er.
    + apply outcome_none; [apply decide_all|done|done].
    + apply outcome_none; [apply cancel_all|done|done].
    + apply outcome_none; [apply consume_all|done|done].
    + done.
Qed.

Lemma at_none rows k r : (forall e, e ∈ rows -> e_ref e <> r) -> at_ rows k r = None.
Proof.
  intros Hn. destruct (at_ rows k r) as [e|] eqn:E; [|done]. apply at_some in E as (He & _ & Hr). by apply Hn in He.
Qed.

Lemma requested_accepted rows st e fs t :
  mirrors rows st -> e_kind e = "approval.requested" -> parse (e_payload e) = Some (JObj fs) -> bindingTuple (jget "bound" (JObj fs)) = Some t ->
  at_ rows "approval.requested" (e_ref e) = None -> is_ok (replay_entry st e) = true.
Proof.
  intros [R D U C N] K Hp Ht Hr. unfold ApprovalChain.replay_entry. rewrite K, Hp. cbn [default from_option id].
  change (negb (starts_with "approval." "approval.requested")) with false. cbv iota.
  change (String.eqb "approval.requested" "approval.requested") with true. cbv iota. rewrite Ht.
  specialize (R (e_ref e)). rewrite Hr in R. unfold known. by rewrite R.
Qed.

Lemma fresh_requested rows e nonce :
  (forall x, x ∈ rows -> e_ref x <> e_ref e /\ e_nonce x <> Some nonce) -> e_kind e = "approval.requested" -> e_nonce e = Some nonce ->
  fresh_nonces rows -> fresh_nonces (rows ++ [e]).
Proof.
  intros Hn Hk He Hf r r' x x'. rewrite !at_snoc, Hk. cbn [String.eqb].
  destruct (at_ rows "approval.requested" r) as [y|] eqn:E, (at_ rows "approval.requested" r') as [y'|] eqn:E'.
  - intros [= ->] [= ->]. by apply (Hf r r' x x').
  - intros [= ->]. destruct (_ && _) eqn:Eq; [|done]. intros [= <-] Hxn. apply at_some in E as (Hx & _). destruct (Hn x Hx). congruence.
  - destruct (_ && _) eqn:Eq; [|done]. intros [= <-] [= ->] Hxn. apply at_some in E' as (Hx & _). destruct (Hn x' Hx). congruence.
  - destruct (String.eqb (e_ref e) r && _) eqn:Eq; [|done]. destruct (String.eqb (e_ref e) r' && _) eqn:Eq'; [|done]. bool_hyps. congruence.
Qed.

(** A request's id and nonce are new to the chain, and its detail is a JSON value. *)
Definition fresh_call (o : Call) (w : W) : Prop :=
  match o with
  | CRequest id nonce i => (forall e, e ∈ c_rows (w_chain w) -> e_ref e <> id /\ e_nonce e <> Some nonce)
                           /\ match ri_detail i with Some d => json_value d = true | None => True end
  | _ => True
  end.

Lemma request_json i now : match ri_detail i with Some d => json_value d = true | None => True end ->
  json_value (JObj ([("capability", JStr (ri_capability i)); ("expiresAt", JNum (Fin (now + ttl))); ("bound", boundOf (ri_binding i))]
                    ++ match ri_detail i with Some d => [("detail", d)] | None => [] end)) = true.
Proof.
  intros Hj. cbn [json_value]. rewrite forallb_app. apply andb_true_iff. split; [done|].
  destruct (ri_detail i); [|done]. cbn [forallb snd]. by rewrite Hj.
Qed.

(** No call of the approval store breaks the chain. From a chain that verifies, with the nonces of
    its requests distinct, every call leaves such a chain, whether it goes through, is refused or throws:
    the checks of decide, cancel and consume imply the binding and replay rules of the chain. A request
    needs an id and a nonce the chain does not know. *)
Theorem store_keeps_chain o w :
  json_laws stringify parse -> honest_signer verifySignature signer -> good w -> w_tx w = false -> fresh_call o w ->
  good (step o w).2 /\ w_tx (step o w).2 = false.
Proof.
  intros J Hh Hg Ht Hfr. split; [|by apply step_tx]. pose proof (step_spec o w Ht) as Hs. destruct (step o w) as [[d|] w'] eqn:Eo; cbn [fst snd] in *.
  2: { destruct Hg as [H1 H2 H3]. constructor; unfold sigs_within; by rewrite Hs. }
  pose proof (gd_nonces _ Hg) as Hn. destruct (intact_mirror _ (gd_intact _ Hg)) as (st0 & _ & M0).
  assert (Rq : forall id req, at_ (c_rows (w_chain w)) "approval.requested" id = Some req -> exists t, entry_tuple req = Some t).
  { intros id req Hr. pose proof (mi_requested _ _ M0 id) as R. rewrite Hr in R. destruct R as (t & Et & _). eauto. }
  destruct d as [id|id a|id|id]; cbn [achieved] in Hs.
  - destruct Hs as (nonce & i & e & now & -> & Hb & Hl). cbn [fresh_call] in Hfr. destruct Hfr as [Hnew Hj].
    destruct (bindingTuple (boundOf (ri_binding i))) as [t|] eqn:Et; [|done].
    destruct (lands_entry _ _ _ _ _ _ _ J Hl (request_json i now Hj)) as (_ & K & Re & Ne & Pe).
    eapply (lands_good _ _ _ _ _ _ e Hh Hg Hl).
    + intros st M. eapply (requested_accepted _ _ _ _ t M K Pe); [exact Et|].
      apply at_none. intros x Hx. rewrite Re. by apply Hnew.
    + apply (fresh_requested _ _ nonce); try done. by rewrite Re.
  - destruct Hs as (c & req & e & <- & Ha & Hr & Hd & Hc & Hno & Hl). destruct (Rq _ _ Hr) as [t Et]. pose proof (bound_json _ _ J Et) as Jb.
    destruct (lands_entry _ _ _ _ _ _ _ J Hl ltac:(unfold decision_payload; cbn; by rewrite Jb)) as (_ & K & Re & Ne & Pe).
    eapply (lands_good _ _ _ _ _ _ e Hh Hg Hl).
    + intros st M. eapply (decided_accepted _ _ _ _ req t (di_nonce c) _ M Hn K Pe); rewrite ?Re; try done.
      destruct (di_approve c); [by left|by right].
    + apply fresh_other; [by rewrite K|done].
  - destruct Hs as (by_ & req & e & Hr & Hd & Hc & Hl). destruct (Rq _ _ Hr) as [t Et]. pose proof (bound_json _ _ J Et) as Jb.
    destruct (lands_entry _ _ _ _ _ _ _ J Hl ltac:(cbn; by rewrite Jb)) as (_ & K & Re & Ne & Pe).
    eapply (lands_good _ _ _ _ _ _ e Hh Hg Hl).
    + intros st M. eapply (cancelled_accepted _ _ _ _ req t M K Pe); rewrite ?Re; done.
    + apply fresh_other; [by rewrite K|done].
  - destruct Hs as (req & dec & e & Hr & Hd & Hu & Hdd & Hl). destruct (Rq _ _ Hr) as [t Et]. pose proof (bound_json _ _ J Et) as Jb.
    destruct (lands_entry _ _ _ _ _ _ _ J Hl ltac:(cbn; by rewrite Jb)) as (_ & K & Re & Ne & Pe).
    eapply (lands_good _ _ _ _ _ _ e Hh Hg Hl).
    + intros st M. eapply (used_accepted _ _ _ _ req dec t M K Pe); rewrite ?Re; done.
    + apply fresh_other; [by rewrite K|done].
Qed.

(** ** Once decided, once used *)

Fixpoint run (ops : list Call) (w : W) : list Did * W :=
  match ops with
  | [] => ([], w)
  | o :: r => let '(d, w1) := step o w in let '(l, w2) := run r w1 in (match d with Some x => x :: l | None => l end, w2)
  end.

Definition had (w : W) (k id : string) : option Entry := at_ (c_rows (w_chain w)) k id.

Lemma at_app rows more k r : at_ (rows ++ more) k r = match at_ rows k r with Some x => Some x | None => at_ more k r end.
Proof. unfold at_. apply bfind_app. Qed.

Lemma step_rows o w : w_tx w = false -> exists more, c_rows (w_chain (step o w).2) = c_rows (w_chain w) ++ more.
Proof.
  intros Ht. pose proof (step_spec o w Ht) as Hs. destruct (step o w) as [[d|] w']; cbn [fst snd] in *; [|exists []; by rewrite Hs, app_nil_r].
  destruct d; cbn [achieved] in Hs.
  1: destruct Hs as (nonce & i & e & now & _ & _ & _ & _ & Hw).
  2: destruct Hs as (c & req & e & _ & _ & _ & _ & _ & _ & _ & _ & Hw).
  3: destruct Hs as (by_ & req & e & _ & _ & _ & _ & _ & Hw).
  4: destruct Hs as (req & dec & e & _ & _ & _ & _ & _ & _ & Hw).
  all: rewrite Hw; by eexists.
Qed.

Lemma had_step o w k id e : w_tx w = false -> had w k id = Some e -> had (step o w).2 k id = Some e.
Proof. intros Ht He. unfold had in *. destruct (step_rows o w Ht) as [more ->]. by rewrite at_app, He. Qed.

(** What the state forbids never happens in a run. *)
Lemma run_never (P : W -> Prop) (bad : Did -> bool) ops w :
  (forall o w, w_tx w = false -> P w -> P (step o w).2) ->
  (forall o w d, w_tx w = false -> P w -> (step o w).1 = Some d -> bad d = false) ->
  w_tx w = false -> P w -> bfilter bad (run ops w).1 = [].
Proof.
  intros Hp Hb. revert w. induction ops as [|o ops IH]; intros w Ht Hw; [done|]. cbn [run].
  pose proof (Hp o w Ht Hw) as Hw1. pose proof (Hb o w) as Hd. pose proof (step_tx o w Ht) as Ht1.
  destruct (step o w) as [d w1]; cbn [fst snd] in *. specialize (IH w1 Ht1 Hw1). destruct (run ops w1) as [l w2]; cbn [fst] in *.
  destruct d as [d|]; [|done]. unfold bfilter in *. cbn [List.filter]. by rewrite (Hd d Ht Hw eq_refl).
Qed.

(** At most one, when the first one makes every other impossible. *)
Lemma run_once (P : W -> Prop) (bad : Did -> bool) ops w :
  (forall o w, w_tx w = false -> P w -> P (step o w).2) ->
  (forall o w d, w_tx w = false -> P w -> (step o w).1 = Some d -> bad d = false) ->
  (forall o w d, w_tx w = false -> (step o w).1 = Some d -> bad d = true -> P (step o w).2) ->
  w_tx w = false -> (length (bfilter bad (run ops w).1) <= 1)%nat.
Proof.
  intros Hp Hb Hn. revert w. induction ops as [|o ops IH]; intros w Ht; [cbn; lia|]. cbn [run].
  pose proof (Hn o w) as Hd. pose proof (step_tx o w Ht) as Ht1.
  destruct (step o w) as [d w1]; cbn [fst snd] in *. specialize (IH w1 Ht1). pose proof (run_never P bad ops w1 Hp Hb Ht1) as Hz.
  destruct (run ops w1) as [l w2]; cbn [fst] in *. destruct d as [d|]; [|done]. unfold bfilter in *. cbn [List.filter].
  destruct (bad d) eqn:Eb; [|done]. rewrite (Hz (Hd d Ht eq_refl Eb)). cbn. lia.
Qed.

Definition closes (id : string) (d : Did) : bool := match d with Decided i _ | Withdrawn i => String.eqb i id | _ => false end.
Definition spends (id : string) (d : Did) : bool := match d with Spent i => String.eqb i id | _ => false end.

Definition is_closed (id : string) (w : W) : Prop := exists e, had w "approval.decided" id = Some e \/ had w "approval.cancelled" id = Some e.

Lemma lands_at w w' kind id p n e : lands w w' kind id p n e -> had w kind id = None -> had w' kind id = Some e.
Proof.
  intros (_ & (k & He) & Hw) Hn. unfold had in *. rewrite Hw. cbn [written c_rows].
  assert (e_kind e = kind /\ e_ref e = id) as [K R] by by rewrite He. rewrite <- R in *. by apply at_own.
Qed.

Lemma closed_step id o w : w_tx w = false -> is_closed id w -> is_closed id (step o w).2.
Proof. intros Ht (e & [He|He]); exists e; [left|right]; by apply had_step. Qed.

Lemma step_closes id o w d : w_tx w = false -> (step o w).1 = Some d -> closes id d = true -> ~ is_closed id w /\ is_closed id (step o w).2.
Proof.
  intros Ht Hd Hc. pose proof (step_spec o w Ht) as Hs. rewrite Hd in Hs. destruct d as [i|i a|i|i]; cbn [closes] in Hc; try done;
    bool_hyps; subst i; cbn [achieved] in Hs.
  - destruct Hs as (c & req & e & Hi & _ & _ & Hx & Hy & _ & Hl). split.
    + unfold is_closed, had. rewrite Hx, Hy. by intros (z & [?|?]).
    + exists e. left. by eapply lands_at.
  - destruct Hs as (by_ & req & e & _ & Hx & Hy & Hl). split.
    + unfold is_closed, had. rewrite Hx, Hy. by intros (z & [?|?]).
    + exists e. right. by eapply lands_at.
Qed.

Lemma step_spends id o w d : w_tx w = false -> (step o w).1 = Some d -> spends id d = true ->
  had w "approval.used" id = None /\ (exists e, had (step o w).2 "approval.used" id = Some e)
  /\ exists dec, had w "approval.decided" id = Some dec /\ entry_decision dec = JStr "approve".
Proof.
  intros Ht Hd Hc. pose proof (step_spec o w Ht) as Hs. rewrite Hd in Hs. destruct d as [i|i a|i|i]; cbn [spends] in Hc; try done.
  bool_hyps; subst i; cbn [achieved] in Hs. destruct Hs as (req & dec & e & _ & Hx & Hu & Hdd & Hl). split_and!; [done| |by exists dec].
  exists e. by eapply lands_at.
Qed.

(** A run step leaves an undecided request undecided, unless it decides it. *)
Lemma step_undecided id o w : json_laws stringify parse -> w_tx w = false -> had w "approval.decided" id = None ->
  had (step o w).2 "approval.decided" id = None
  \/ exists a dec, (step o w).1 = Some (Decided id a) /\ had (step o w).2 "approval.decided" id = Some dec
                   /\ entry_decision dec = JStr (if a : bool then "approve" else "deny").
Proof.
  intros J Ht Hn. pose proof (step_spec o w Ht) as Hs. destruct (step o w) as [[d|] w']; cbn [fst snd] in *.
  2: { left. unfold had in *. by rewrite Hs. }
  assert (Hother : forall kind i p n e, lands w w' kind i p n e -> kind <> "approval.decided" -> had w' "approval.decided" id = None).
  { intros kind i p n e (_ & (k & He) & Hw) Hk. unfold had in *. rewrite Hw. cbn [written c_rows]. rewrite at_other; [done|]. by rewrite He. }
  destruct d as [i|i a|i|i]; cbn [achieved] in Hs.
  - destruct Hs as (nonce & i0 & e & now & _ & _ & Hl). left. by eapply Hother.
  - destruct Hs as (c & req & e & Hi & Ha & Hr & Hx & Hy & _ & Hl). destruct (String.eqb_spec i id) as [->|Hne].
    + right. exists a, e. split_and!; [done|by eapply lands_at|].
      destruct (intact_mirror _ (proj1 Hl)) as (st & _ & M). pose proof (mi_requested _ _ M id) as R. rewrite Hr in R. destruct R as (t & Et & _).
      destruct (lands_entry _ _ _ _ _ _ _ J Hl ltac:(unfold decision_payload; cbn; by rewrite (bound_json _ _ J Et))) as (_ & _ & _ & _ & Pe).
      unfold ApprovalChainSpec.entry_decision. rewrite Pe. cbn. by rewrite Ha.
    + left. destruct Hl as (_ & (k & He) & Hw). unfold had in *. rewrite Hw. cbn [written c_rows]. rewrite at_snoc, Hn.
      assert (e_ref e = i) as -> by by rewrite He. apply String.eqb_neq in Hne. by rewrite Hne.
  - destruct Hs as (by_ & req & e & _ & _ & _ & Hl). left. by eapply Hother.
  - destruct Hs as (req & dec & e & _ & _ & _ & _ & Hl). left. by eapply Hother.
Qed.

(** An undecided request is used only after its approval. *)
Lemma approved_first ops w id before after : json_laws stringify parse -> w_tx w = false -> had w "approval.decided" id = None ->
  (run ops w).1 = before ++ Spent id :: after -> Decided id true ∈ before.
Proof.
  intros J Ht. revert w Ht before. induction ops as [|o ops IH]; intros w Ht before Hn; [by destruct before|]. cbn [run].
  pose proof (step_undecided id o w J Ht Hn) as Hu. pose proof (step_tx o w Ht) as Ht1. pose proof (step_spends id o w) as Hsp.
  destruct (step o w) as [d w1]; cbn [fst snd] in *. specialize (IH w1 Ht1).
  pose proof (run_never (fun w => exists x, had w "approval.decided" id = Some x /\ entry_decision x <> JStr "approve") (spends id) ops w1) as Hz.
  destruct (run ops w1) as [l w2]; cbn [fst] in *. destruct Hu as [Hn1|(a & dec & -> & Hd1 & Ed)].
  + destruct d as [d|]; [|by apply (IH before)]. destruct before as [|y before]; cbn; intros E; injection E as -> E.
    * exfalso. destruct (Hsp (Spent id) Ht eq_refl (String.eqb_refl id)) as (_ & _ & x & Hx & _). congruence.
    * right. by apply (IH before Hn1).
  + destruct before as [|y before]; cbn; intros E; [done|]. injection E as <- E. destruct a; [left|exfalso].
    assert (Hzero : bfilter (spends id) l = []).
    { apply Hz; [intros o0 w0 Ht0 (x & Hx & Hd); exists x; split; [by apply had_step|done]| |done|exists dec; split; [done|by rewrite Ed]].
      intros o0 w0 d0 Ht0 (x & Hx & Hne) Hd. destruct (spends id d0) eqn:Es; [|done].
      destruct (step_spends id o0 w0 d0 Ht0 Hd Es) as (_ & _ & y & Hy & Hey). congruence. }
    assert (Hin : Spent id ∈ bfilter (spends id) l).
    { apply bfilter_elem. split; [rewrite E; apply elem_of_app; right; left|apply String.eqb_refl]. }
    rewrite Hzero in Hin. by apply elem_of_nil in Hin.
Qed.

(** (C10) One request, one answer, one use. In any run of the store's calls, with the table edited at
    will between them, a request is decided or withdrawn at most once altogether and used at most
    once; and a request that was undecided when the run began is used only after it was approved. *)
Theorem decided_and_used_once ops w id :
  json_laws stringify parse -> w_tx w = false ->
  let did := (run ops w).1 in
  (length (bfilter (closes id) did) <= 1)%nat /\ (length (bfilter (spends id) did) <= 1)%nat
  /\ (had w "approval.decided" id = None -> forall before after, did = before ++ Spent id :: after -> Decided id true ∈ before).
Proof.
  intros J Ht did. split_and!.
  - apply (run_once (is_closed id)); [intros; by apply closed_step| | |done].
    + intros o w0 d Ht0 Hc Hd. destruct (closes id d) eqn:E; [|done]. by destruct (step_closes id o w0 d Ht0 Hd E).
    + intros o w0 d Ht0 Hd E. by destruct (step_closes id o w0 d Ht0 Hd E).
  - apply (run_once (fun w => exists e, had w "approval.used" id = Some e)); [intros o w0 Ht0 (e & He); exists e; by apply had_step| | |done].
    + intros o w0 d Ht0 (e & He) Hd. destruct (spends id d) eqn:E; [|done]. destruct (step_spends id o w0 d Ht0 Hd E) as (Hu & _). congruence.
    + intros o w0 d Ht0 Hd E. by destruct (step_spends id o w0 d Ht0 Hd E) as (_ & ? & _).
  - intros Hn before after. by apply approved_first.
Qed.
End spec.
