(* ===== verification/ApprovalService.v ===== *)
(** * The approval service

    Model of the decision and execution core of
    [packages/core/src/approvals/service.ts]: the grants a decision makes, the
    decision itself with its transaction over approvals and grants, the start of an
    execution, withdrawal, and what the service adds to the evaluator's context.
    Parked calls, timers, redaction and event payloads are left out. *)

From S2P Require Import Prelude PolicyCaps PolicyDecide ApprovalChain Grants ApprovalStore.
From Stdlib Require Import Ascii.

(** ** Data *)

(** The two tables that share the database with the chain. *)
Record Tables : Type := { t_grants : list GrantRow; t_approvals : list ApprovalRow }.

#[export] Instance tables_grants : GrantTable Tables :=
  {| grants_of := t_grants; with_grants f t := {| t_grants := f (t_grants t); t_approvals := t_approvals t |}; grants_with _ _ := eq_refl |}.
#[export] Instance tables_approvals : ApprovalTable Tables :=
  {| approvals_of := t_approvals; with_approvals f t := {| t_grants := t_grants t; t_approvals := f (t_approvals t) |}; approvals_with _ _ := eq_refl |}.

(* @src approvals/service.ts 32 32 HOUR_MS *)
Definition HOUR_MS : Z := 60 * 60000.

(* @src approvals/service.ts 85 85 ServiceDecideDenial *)
Inductive ServiceDecideDenial : Type := ByStore (d : ApprovalDenial) | ScopeUnavailable.

(* @src approvals/service.ts 86 100 ServiceDecideInput *)
Record ServiceDecideInput : Type := {
  si_requestId : string; si_nonce : string; si_approve : bool; si_person : string; si_surface : Z; si_scope : option GrantScope;
  si_delegable : bool; si_acknowledgedUnsandboxed : bool; si_attestedVia : option string
}.

(* @src approvals/service.ts 101 103 ServiceDecideResult *)
Definition ServiceDecideResult : Type := result ServiceDecideDenial (ApprovalStatus * option GrantScope * list string).

(** The parts of an ask the service binds and audits. *)
Record Ask : Type := {
  ask_actionHash : string; ask_callId : string; ask_agentId : string; ask_principal : string; ask_subjectKind : option string;
  ask_turnId : option string; ask_taskId : option string; ask_sessionId : option string
}.

(** An approved answer: its request, the grants and scope the person gave. *)
Record Answer : Type := { an_approved : bool; an_requestId : string; an_grantIds : list string }.

(** The chained detail of a request, as it is read back. *)
(* @src approvals/service.ts 138 148 RequestDetail *)
Record RequestDetail : Type := {
  rd_origin : bool; rd_effect : string; rd_risk : js; rd_flags : js; rd_options : js; rd_targets : list string; rd_masked : bool;
  rd_access : option Access; rd_taskId : option string; rd_sessionId : option string; rd_projectId : option string
}.

Definition read_detail (d : js) : RequestDetail :=
  {| rd_origin := bool_decide (jget "origin" d = JStr "code-session-root"); rd_effect := js_str (jget "effect" d); rd_risk := jget "risk" d;
     rd_flags := jget "flags" d; rd_options := jget "grantOptions" d; rd_targets := default [] (read_strs (jget "targets" d));
     rd_masked := js_is_true (jget "targetsMasked" d);
     rd_access := match jget "access" d with JStr s => if String.eqb s "read" then Some ARead else Some AWrite | _ => None end;
     rd_taskId := js_opt_str (jget "taskId" d); rd_sessionId := js_opt_str (jget "sessionId" d); rd_projectId := js_opt_str (jget "projectId" d) |}.

(* @src approvals/service.ts 155 155 taskKeyOf *)
Definition taskKeyOf (task session : option string) : string :=
  match task, session with Some t, _ => t | None, Some s => s | None, None => "-" end.

(* @src approvals/service.ts 157 162 bindingOf *)
Definition bindingOf (a : Ask) (id : string) : ApprovalBinding :=
  {| b_requestId := id; b_actionHash := ask_actionHash a; b_principal := ask_principal a; b_kind := default "agent" (ask_subjectKind a);
     b_subject := ask_agentId a; b_turnId := default (ask_callId a) (ask_turnId a); b_taskId := taskKeyOf (ask_taskId a) (ask_sessionId a);
     b_sessionId := default "-" (ask_sessionId a) |}.

Definition is_sep (c : ascii) : bool := is_slash c || is_backslash c.
Definition is_newline (c : ascii) : bool := let n := Ascii.nat_of_ascii c in Nat.eqb n 10 || Nat.eqb n 13.

(** Split at the last separator: what is before it, when something is after it. *)
Fixpoint split_last (rest : list ascii) (tail : nat) : option (list ascii) :=
  match rest with
  | [] => None
  | c :: r => if is_sep c then (if Nat.eqb tail 0 then None else Some (reverse r)) else split_last r (S tail)
  end.

(* @src approvals/service.ts 165 168 parentOf *)
Definition parentOf (p : string) : option string :=
  match split_last (reverse (chars p)) 0 with
  | Some d =>
      let drive := match d with [c; k] => is_letter c && Ascii.eqb k ":" | _ => false end in
      if bool_decide (d = []) || existsb is_newline d || drive then None else Some (of_chars d)
  | None => None
  end.

(** [new Set(l)]: the first of each. *)
Fixpoint uniq {A} `{EqDecision A} (l : list A) : list A :=
  match l with [] => [] | x :: r => x :: bfilter (fun y => negb (bool_decide (y = x))) (uniq r) end.

(** Only the risk "low" is told apart by the surface rules. *)
Definition risk_of (v : js) : Risk := match v with JStr "low" => Low | _ => Critical end.

(** [d.grantOptions.some(option => option.scope === scope)] *)
Definition offered (options : js) (s : GrantScope) : bool :=
  match options with JArr l => existsb (fun o => bool_decide (jget "scope" o = JStr (scope_text s))) l | _ => false end.

Section service.
Context {Text : Type} `{EqDecision Text} (stringify : js -> Text) (parse : Text -> option js) (text_length : Text -> Z).
Context (hmac : string -> Z -> Z -> string -> string -> option string -> Text -> string) (tag : Z -> string -> string).
Context (verifySignature : string -> string -> string -> bool) (signer : option DecisionSigner).
Context (clk : nat -> Z) (maxDays : Z) (audit : option (list Event -> Event -> bool)).
Context (checkSyntax : string -> option bool) (reachesSystemTree : string -> bool -> bool) (sha : Text -> string) (freshId : Z -> nat -> string).
(** Whether a code-folder request still has its live session. *)
Context (codeRootActive : string -> bool).

Notation W := (World (Text := Text) Tables Event).
Notation M := (SE W (Fault GrantFault)).
Notation create := (create stringify parse hmac tag verifySignature signer clk audit checkSyntax reachesSystemTree sha freshId).
Notation get := (get stringify parse hmac tag verifySignature signer (Rows := Tables)).
Notation markUsed := (markUsed stringify parse hmac tag verifySignature signer clk maxDays audit).
Notation consumeOnce := (consumeOnce stringify parse hmac tag verifySignature signer clk audit).
Notation decide_request := (decide_request stringify parse hmac tag verifySignature signer clk (Ev := Event) (X := GrantFault)).
Notation consume := (consume stringify parse hmac tag verifySignature signer clk (Ev := Event) (X := GrantFault)).
Notation store_cancel := (ApprovalStore.cancel stringify parse hmac tag verifySignature signer clk (Ev := Event) (X := GrantFault)).
Notation get_record := (get_record parse hmac tag verifySignature signer clk (Rows := Tables) (Ev := Event) (X := GrantFault)).
Notation list_records := (list_records parse hmac tag verifySignature signer clk (Rows := Tables) (Ev := Event) (X := GrantFault)).
Notation read_clock := (ApprovalChain.clock_now clk).
Notation rec := (record_line audit).

(** A line about something already refused: its failure is ignored. *)
(* @src approvals/service.ts 186 186 recSoft *)
Definition recSoft (e : Event) : M unit := catch (rec e) (fun _ => mret tt).

(** Only a broken chain leaves an integrity line. *)
(* @src approvals/service.ts 189 191 integrityFailure *)
Definition integrityFailure (e : Fault GrantFault) : M unit :=
  match e with ChainBroken _ _ => recSoft (ServiceAudit "approvals.integrity-failure" "" None None None) | _ => mret tt end.

(** ** The grants of a decision *)

Fixpoint create_all (l : list CreateGrantInput) : M (list string) :=
  match l with
  | [] => mret []
  | i :: r => g ← create i; ids ← create_all r; mret (g_id (grant g) :: ids)
  end.

(** The input every grant of the decision shares. *)
(* @src approvals/service.ts 372 379 createGrants *)
Definition base_input (r : ApprovalRecord) (d : RequestDetail) (i : ServiceDecideInput) (s : GrantScope) (m : GrantMatch) : CreateGrantInput :=
  let b := a_bound r in
  {| i_id := None; i_capability := a_capability r; i_person := js_str (jget "principal" b); i_agent := js_str (jget "id" (jget "subject" b));
     i_scope := s; i_match := m; i_createdBy := si_person i; i_surface := si_surface i; i_effect := Some (rd_effect d); i_expiresAt := None;
     i_actionHash := None; i_taskId := rd_taskId d; i_sessionId := rd_sessionId d; i_projectId := rd_projectId d; i_jobId := None;
     i_delegable := si_delegable i; i_acknowledgedUnsandboxed := si_acknowledgedUnsandboxed i; i_attestedVia := si_attestedVia i |}.

Definition with_action (h : string) (c : CreateGrantInput) : CreateGrantInput :=
  {| i_id := i_id c; i_capability := i_capability c; i_person := i_person c; i_agent := i_agent c; i_scope := i_scope c; i_match := i_match c;
     i_createdBy := i_createdBy c; i_surface := i_surface c; i_effect := i_effect c; i_expiresAt := i_expiresAt c; i_actionHash := Some h;
     i_taskId := i_taskId c; i_sessionId := i_sessionId c; i_projectId := i_projectId c; i_jobId := i_jobId c; i_delegable := i_delegable c;
     i_acknowledgedUnsandboxed := i_acknowledgedUnsandboxed c; i_attestedVia := i_attestedVia c |}.
Definition with_code_root (cap effect : string) (c : CreateGrantInput) : CreateGrantInput :=
  {| i_id := i_id c; i_capability := cap; i_person := i_person c; i_agent := i_agent c; i_scope := i_scope c; i_match := i_match c;
     i_createdBy := i_createdBy c; i_surface := i_surface c; i_effect := Some effect; i_expiresAt := i_expiresAt c; i_actionHash := i_actionHash c;
     i_taskId := i_taskId c; i_sessionId := i_sessionId c; i_projectId := i_projectId c; i_jobId := i_jobId c; i_delegable := false;
     i_acknowledgedUnsandboxed := i_acknowledgedUnsandboxed c; i_attestedVia := i_attestedVia c |}.

(** Every element, or nothing. *)
Definition all_some {A} (l : list (option A)) : option (list A) := mapM id l.

(* @src approvals/service.ts 371 413 createGrants *)
Definition createGrants (r : ApprovalRecord) (d : RequestDetail) (i : ServiceDecideInput) (s : GrantScope) : M (list string) :=
  let base := base_input r d i s in
  if rd_origin d then
    match rd_targets d with
    | [t] =>
        if negb (bool_decide (s = Session)) || si_delegable i || rd_masked d || negb (bool_decide (rd_access d = Some AWrite)) || reachesSystemTree t true
        then bad InvalidGrant
        else create_all [with_code_root "fs.write" "local-write" (base (MPath t AWrite true)); with_code_root "fs.read" "read" (base (MPath t ARead true))]
    | _ => bad InvalidGrant
    end
  else match s with
  | Once =>
      catch (create_all [with_action (js_str (jget "actionHash" (a_bound r))) (base MAction)])
            (fun e => match e with Own (Refused CeilingExceeded) => mret [] | _ => throw e end)
  | _ =>
      _ ← ensure (negb (bool_decide (s = Task)) || bool_decide (rd_taskId d <> None)) InvalidGrant;
      _ ← ensure (negb (bool_decide (s = Session)) || bool_decide (rd_sessionId d <> None)) InvalidGrant;
      match rd_targets d with
      | [] => create_all [base MCapability]
      | ts =>
          if rd_masked d then bad InvalidGrant
          else
            let acc := match rd_access d with Some a => a | None => if String.eqb (rd_effect d) "read" then ARead else AWrite end in
            match all_some (uniq (map parentOf ts)) with
            | None => bad InvalidGrant
            | Some dirs => create_all (map (fun dir => base (MPath dir acc false)) dirs)
            end
      end
  end.

(** ** The decision *)

(** What an approval has to pass before anything is written. *)
(* @src approvals/service.ts 426 442 decideCore *)
Definition approve_refused (r : ApprovalRecord) (i : ServiceDecideInput) (s : GrantScope) : option ServiceDecideDenial :=
  let untrusted := Some (ByStore SurfaceUntrusted) in
  let detail := read_detail (default JUndef (a_detail r)) in
  let origin := match a_detail r with Some _ => rd_origin detail | None => false end in
  if origin && (negb (bool_decide (s = Session)) || si_delegable i) then Some ScopeUnavailable
  else if origin && negb (codeRootActive (a_id r)) then Some (ByStore ApprovalMismatch)
  else match CAPABILITIES_get (a_capability r), a_detail r with
  | Some def, Some _ =>
      if negb (js_is_str (rd_risk detail)) || js_is_undef (rd_flags detail) then untrusted
      else if negb (offered (rd_options detail) s) then Some ScopeUnavailable
      else if negb ((si_surface i =? 1) || (si_surface i =? 2) || (si_surface i =? 3)) then untrusted
      else if scopeRank (maxScopeFor def (read_flags (rd_flags detail))) <? scopeRank s then Some ScopeUnavailable
      else if negb (surfaceMayDecide (a_capability r) (risk_of (rd_risk detail)) (read_flags (rd_flags detail)) (si_surface i) s) then untrusted
      else None
  | _, _ => untrusted
  end.

(* @src approvals/service.ts 415 419 decideCore *)
Definition refuse {A} (i : ServiceDecideInput) (reason : ServiceDecideDenial) : M (result ServiceDecideDenial A) :=
  _ ← recSoft (ServiceAudit "approval.refused" (si_requestId i) (Some (si_person i)) None None); mret (Err reason).

(** The transaction: the decision, its grants and its audit line, or nothing. *)
(* @src approvals/service.ts 445 459 decideCore *)
Definition decide_tx (r : ApprovalRecord) (i : ServiceDecideInput) (s : GrantScope) : M (result ApprovalDenial (ApprovalStatus * list string)) :=
  transaction (
    res ← decide_request {| di_requestId := si_requestId i; di_nonce := si_nonce i; di_approve := si_approve i; di_person := si_person i;
                            di_surface := si_surface i; di_delegable := si_delegable i |};
    match res with
    | Err e => mret (Err e)
    | Ok st =>
        ids ← (if si_approve i then createGrants r (read_detail (default JUndef (a_detail r))) i s else mret []);
        _ ← rec (ServiceAudit "approval.decided" (si_requestId i) (Some (si_person i)) (head ids) None);
        mret (Ok (st, ids))
    end).

(* @src approvals/service.ts 415 481 decideCore *)
Definition decideCore (i : ServiceDecideInput) : M ServiceDecideResult :=
  if negb ((si_surface i =? 0) || (si_surface i =? 1) || (si_surface i =? 2) || (si_surface i =? 3)) then refuse i (ByStore SurfaceUntrusted)
  else
    r ← catch (get_record (si_requestId i)) (fun e => _ ← integrityFailure e; throw e);
    match r with
    | None => refuse i (ByStore ApprovalMismatch)
    | Some r =>
        if negb (bool_decide (jget "principal" (a_bound r) = JStr (si_person i))) then refuse i (ByStore ApprovalMismatch)
        else
          let s := default Once (si_scope i) in
          match (if si_approve i then approve_refused r i s else None) with
          | Some reason => refuse i reason
          | None =>
              out ← catch (res ← decide_tx r i s; mret (match res with Ok v => Ok v | Err d => Err (ByStore d) end))
                          (fun e => match e with
                                    | Own (Refused SurfaceTooLow) => mret (Err (ByStore SurfaceUntrusted))
                                    | Own (Refused _) => mret (Err ScopeUnavailable)
                                    | _ => _ ← integrityFailure e; throw e
                                    end);
              match out with
              | Err reason => refuse i reason
              | Ok (st, ids) => mret (Ok (st, if bool_decide (st = Approved) then Some s else None, ids))
              end
          end
    end.

(** ** The start of an execution *)

(* @src approvals/service.ts 496 502 begin *)
Fixpoint use_grants (ids : list string) (a : Ask) : M unit :=
  match ids with
  | [] => mret tt
  | id :: r =>
      g ← gets (fun w => get w id);
      match g with
      | None => throw (Own (Foreign "grant-mismatch"))
      | Some g =>
          _ ← require (String.eqb (g_person g) (ask_principal a) && String.eqb (g_agent g) (ask_agentId a)) (Own (Foreign "grant-mismatch"));
          _ ← (if bool_decide (g_scope g = Once)
               then used ← consumeOnce id (ask_principal a) (ask_agentId a) (ask_actionHash a); require used (Own (Foreign "grant-used"))
               else markUsed id);
          use_grants r a
      end
  end.

(* @src approvals/service.ts 493 505 begin *)
Definition begin_tx (an : Answer) (a : Ask) : M bool :=
  transaction (
    used ← consume (bindingOf a (an_requestId an));
    match used with
    | Err _ => throw (Own (Foreign "not-consumable"))
    | Ok _ =>
        _ ← use_grants (an_grantIds an) a;
        _ ← rec (ServiceAudit "approval.consumed" (an_requestId an) (Some (ask_principal a)) (head (an_grantIds an)) None);
        mret true
    end).

(* @src approvals/service.ts 489 511 begin *)
Definition begin (an : Answer) (a : Ask) : M bool :=
  if negb (an_approved an) then mret false
  else catch (begin_tx an a)
    (fun e => _ ← integrityFailure e;
              _ ← recSoft (ServiceAudit "approval.refused" (an_requestId an) (Some (ask_principal a)) None
                             (Some (match e with Own (Foreign c) => c | _ => "error" end)));
              mret false).

(** ** Withdrawal and context *)

(* @src approvals/service.ts 528 543 cancel *)
Definition service_cancel (id person : string) (by_ : option string) : M (result ApprovalDenial unit) :=
  r ← get_record id;
  match r with
  | None => mret (Err ApprovalMismatch)
  | Some r =>
      if negb (bool_decide (jget "principal" (a_bound r) = JStr person)) then mret (Err ApprovalMismatch)
      else transaction (
        c ← store_cancel id (default person by_);
        match c with
        | Err e => mret (Err e)
        | Ok _ => _ ← rec (ServiceAudit "approval.cancelled" id (Some person) None None); mret (Ok tt)
        end)
  end.

(* @src policy/audit.ts 24 24 HeldRejection *)
Inductive HeldRejection : Type := HUnknown | HRevoked | HForeignPerson | HNotDelegable | HTaskMismatch.

(* @src approvals/service.ts 553 563 verifyHeld *)
Definition held_reason (w : W) (task person id : string) : option HeldRejection :=
  match get w id with
  | None => Some HUnknown
  | Some g =>
      if js_is_true (revoked g) || bool_decide (consumedAt g <> None) then Some HRevoked
      else if negb (String.eqb (g_person g) person) then Some HForeignPerson
      else if negb (js_is_true (delegable g)) then Some HNotDelegable
      else if negb (bool_decide (g_taskId g = Some task)) then Some HTaskMismatch
      else None
  end.

(* @src approvals/service.ts 553 563 verifyHeld *)
Definition verifyHeld (w : W) (held : list string) (task person : string) : list string :=
  bfilter (fun id => match held_reason w task person id with None => true | Some _ => false end) held.

(** The action hashes a person denied for a task, and the prompts of the last hour. *)
(* @src approvals/service.ts 569 578 policyContext *)
Definition fatigue (principal key : string) : M (list string * Z) :=
  now ← read_clock;
  rs ← list_records None (Some principal);
  let mine := bfilter (fun r => bool_decide (jget "taskId" (a_bound r) = JStr key)) rs in
  mret (map (fun r => js_str (jget "actionHash" (a_bound r))) (bfilter (fun r => bool_decide (a_status r = Denied)) mine),
        Z.of_nat (length (bfilter (fun r => now - HOUR_MS <? a_createdAt r) mine))).
End service.
