(* ===== verification/ApprovalServiceSpec.v ===== *)
(** * What the approval service promises

    Theorems on [ApprovalService]: a decision keeps to what the request offered and
    the policy allows and makes only grants narrowed to the request; a decision or an
    execution start that does not go through leaves the database as it was; an
    execution starts at most once per request. *)

From S2P Require Import Prelude PolicyCaps PolicyDecide ApprovalChain ApprovalChainSpec Grants GrantsSpec ApprovalStore ApprovalStoreSpec ApprovalService.

Section spec.
Context {Text : Type} `{EqDecision Text} (stringify : js -> Text) (parse : Text -> option js) (text_length : Text -> Z).
Context (hmac : string -> Z -> Z -> string -> string -> option string -> Text -> string) (tag : Z -> string -> string).
Context (verifySignature : string -> string -> string -> bool) (signer : option DecisionSigner).
Context (clk : nat -> Z) (maxDays : Z) (audit : option (list Event -> Event -> bool)).
Context (checkSyntax : string -> option bool) (reachesSystemTree : string -> bool -> bool) (sha : Text -> string) (freshId : Z -> nat -> string).
Context (codeRootActive : string -> bool).

Notation W := (World (Text := Text) Tables Event).
Notation M := (SE W (Fault GrantFault)).
Notation json_laws := (json_laws stringify parse).
Notation create := (create stringify parse hmac tag verifySignature signer clk audit checkSyntax reachesSystemTree sha freshId (Rows := Tables)).
Notation create_all := (create_all stringify parse hmac tag verifySignature signer clk audit checkSyntax reachesSystemTree sha freshId).
Notation createGrants := (createGrants stringify parse hmac tag verifySignature signer clk audit checkSyntax reachesSystemTree sha freshId).
Notation get := (get stringify parse hmac tag verifySignature signer (Rows := Tables)).
Notation get_record := (get_record parse hmac tag verifySignature signer clk (Rows := Tables) (Ev := Event) (X := GrantFault)).
Notation decide_request := (decide_request stringify parse hmac tag verifySignature signer clk (Rows := Tables) (Ev := Event) (X := GrantFault)).
Notation consume := (consume stringify parse hmac tag verifySignature signer clk (Rows := Tables) (Ev := Event) (X := GrantFault)).
Notation consumeOnce := (consumeOnce stringify parse hmac tag verifySignature signer clk audit (Rows := Tables)).
Notation markUsed := (markUsed stringify parse hmac tag verifySignature signer clk maxDays audit (Rows := Tables)).
Notation decide_tx := (decide_tx stringify parse hmac tag verifySignature signer clk audit checkSyntax reachesSystemTree sha freshId).
Notation decideCore := (decideCore stringify parse hmac tag verifySignature signer clk audit checkSyntax reachesSystemTree sha freshId codeRootActive).
Notation begin := (begin stringify parse hmac tag verifySignature signer clk maxDays audit).
Notation begin_tx := (begin_tx stringify parse hmac tag verifySignature signer clk maxDays audit).
Notation use_grants := (use_grants stringify parse hmac tag verifySignature signer clk maxDays audit).
Notation service_cancel := (service_cancel stringify parse hmac tag verifySignature signer clk audit).
Notation recSoft := (recSoft audit (Text := Text)).
Notation record_line := (record_line audit (Text := Text) (Rows := Tables)).
Notation integrityFailure := (integrityFailure audit (Text := Text)).
Notation approve_refused := (approve_refused codeRootActive).

(** ** Steps that leave the database alone *)

Definition same_db (w w' : W) : Prop := w_chain w' = w_chain w /\ w_rows w' = w_rows w /\ w_tx w' = w_tx w.

#[local] Instance same_db_preorder : PreOrder same_db.
Proof.
  split; [by intros w|]. intros a b c (H1 & H2 & H3) (G1 & G2 & G3). unfold same_db. by rewrite G1, G2, G3.
Qed.

(** [m] changes neither the tables nor the chain, however it ends. *)
Definition idle {A} (m : M A) : Prop := forall w, same_db w (m w).2.

Lemma idle_bind {A B} (m : M A) (k : A -> M B) : idle m -> (forall a, idle (k a)) -> idle (m ≫= k).
Proof.
  intros Hm Hk w. specialize (Hm w). unfold mbind, SE_bind. destruct (m w) as [[a|e] w1]; [|done]. etransitivity; [exact Hm|apply Hk].
Qed.

Lemma idle_catch {A} (m : M A) h : idle m -> (forall e, idle (h e)) -> idle (catch m h).
Proof. intros Hm Hh w. specialize (Hm w). unfold catch. destruct (m w) as [[a|e] w1]; [done|]. etransitivity; [exact Hm|apply Hh]. Qed.

Lemma idle_record e : idle (record_line e).
Proof.
  unfold Grants.record_line. destruct audit as [ok|]; [|by intros w]. apply idle_bind; [by intros w|intros l].
  apply idle_bind; [intros w; by destruct (ok l e)|intros u]. by intros w.
Qed.

Lemma idle_recSoft e : idle (recSoft e).
Proof. apply idle_catch; [apply idle_record|by intros x w]. Qed.

Lemma idle_integrity x : idle (integrityFailure x).
Proof. unfold ApprovalService.integrityFailure. destruct x; [apply idle_recSoft|by intros w..]. Qed.

Lemma recSoft_ok e w : (recSoft e w).1 = Ok tt.
Proof. unfold ApprovalService.recSoft, catch. by destruct (record_line e w) as [[[]|x] w']. Qed.

Lemma idle_refuse {A} i r : idle (refuse audit (Text := Text) (A := A) i r).
Proof. apply idle_bind; [apply idle_recSoft|by intros u w]. Qed.

Lemma refuse_run {A} i r w : exists w', refuse audit (Text := Text) (A := A) i r w = (Ok (Err r), w') /\ same_db w w'.
Proof.
  pose proof (idle_refuse (A := A) i r w) as Hi. unfold refuse in *. unfold mbind, SE_bind in *.
  pose proof (recSoft_ok (ServiceAudit "approval.refused" (si_requestId i) (Some (si_person i)) None None) w) as Ho.
  destruct (recSoft _ w) as [[u|x] w1]; [|done]. by exists w1.
Qed.

Lemma idle_get_record id : idle (get_record id).
Proof.
  unfold ApprovalStore.get_record. apply idle_bind; [|intros refs; apply idle_bind; [by intros w|by intros now w]].
  intros w. unfold trusted_refs. unfold mbind, SE_bind, gets. by destruct (s_result _).
Qed.

(** ** The start of an execution *)

(** An entry of a kind about a reference is found. *)
Lemma chained_at (w : W) k id : GrantsSpec.chained w k id -> exists e, at_ (c_rows (w_chain w)) k id = Some e.
Proof.
  intros (e & He & Hk & Hr). apply (bfind_is_some _ _ e); [done|]. by rewrite Hk, Hr, !String.eqb_refl.
Qed.

Lemma lands_grows (w w' : W) kind id p n e : lands stringify parse hmac tag verifySignature signer clk w w' kind id p n e -> grows w w' /\ GrantsSpec.chained w' kind id.
Proof.
  intros (_ & (k & He) & Hw). unfold grows, GrantsSpec.chained. rewrite Hw. cbn [written c_rows]. split; [by eexists|].
  exists e. split; [apply elem_of_app; right; by apply list_elem_of_singleton|]. by rewrite He.
Qed.

(** A grant an execution used: consumed on the chain, or not a once grant. *)
Definition spent (w w' : W) (a : Ask) (id : string) : Prop :=
  exists wi g, grows w wi /\ get wi id = Some g /\ g_person g = ask_principal a /\ g_agent g = ask_agentId a
    /\ (g_scope g = Once -> GrantsSpec.chained w' "grant.consumed" id).

Lemma spent_grows (w0 w w' w'' : W) a id : grows w0 w -> grows w' w'' -> spent w w' a id -> spent w0 w'' a id.
Proof.
  intros G0 G (wi & g & Hg & H1 & H2 & H3 & H4). exists wi, g. split_and!; try done; [by etransitivity|].
  intros Ho. eapply chained_grows; [exact G|by apply H4].
Qed.

Lemma use_grants_ok ids a w u w' : use_grants ids a w = (Ok u, w') -> grows w w' /\ forall id, id ∈ ids -> spent w w' a id.
Proof.
  revert w u. induction ids as [|i ids IH]; intros w u Hu.
  - injection Hu as _ <-. split; [reflexivity|]. by intros id ?%elem_of_nil.
  - cbn [ApprovalService.use_grants] in Hu. apply SE_bind_ok in Hu as (g & w1 & Hg & Hu). injection Hg as <- <-.
    destruct (get w i) as [g|] eqn:Eg; [|done]. apply SE_bind_ok in Hu as (u1 & w1 & Hr & Hu). apply require_ok in Hr as [Hr <-]. bool_hyps.
    apply SE_bind_ok in Hu as (u2 & w2 & Hs & Hu). specialize (IH _ _ Hu) as [G2 Hall].
    assert (S : grows w w2 /\ (g_scope g = Once -> GrantsSpec.chained w2 "grant.consumed" i)).
    { destruct (bool_decide_reflect (g_scope g = Once)) as [Ho|Ho].
      - apply SE_bind_ok in Hs as (ok & w3 & Hc & Hs). apply require_ok in Hs as [-> <-].
        pose proof (growing_consumeOnce stringify parse hmac tag verifySignature signer clk audit i (ask_principal a) (ask_agentId a) (ask_actionHash a) w) as G.
        rewrite Hc in G. split; [exact G|]. intros _. by apply consumeOnce_true in Hc as (_ & ? & _).
      - pose proof (growing_markUsed stringify parse hmac tag verifySignature signer clk maxDays audit i w) as G. rewrite Hs in G. by split. }
    destruct S as [G1 Hc]. split; [by etransitivity|]. intros id [->|Hid]%elem_of_cons.
    + exists w, g. split_and!; try done. intros Ho. eapply chained_grows; [exact G2|by apply Hc].
    + eapply spent_grows; [exact G1|reflexivity|by apply Hall].
Qed.

(** An approval that can be spent by this ask: requested with the same binding, approved, not used. *)
Definition spendable (w : W) (a : Ask) (id : string) : Prop :=
  exists req dec, at_ (c_rows (w_chain w)) "approval.requested" id = Some req /\ at_ (c_rows (w_chain w)) "approval.decided" id = Some dec
    /\ at_ (c_rows (w_chain w)) "approval.used" id = None /\ entry_decision parse dec = JStr "approve"
    /\ entry_tuple parse req = bindingTuple (boundOf (bindingOf a id)).

Lemma begin_tx_ok an a w b w' : begin_tx an a w = (Ok b, w') ->
  b = true /\ spendable w a (an_requestId an) /\ GrantsSpec.chained w' "approval.used" (an_requestId an)
  /\ forall id, id ∈ an_grantIds an -> spent w w' a id.
Proof.
  unfold ApprovalService.begin_tx. intros Hb. apply transaction_ok in Hb as (w0 & w1 & Hm & C0 & _ & _ & _ & C1 & _).
  apply SE_bind_ok in Hm as (r & w2 & Hc & Hm). destruct r as [deleg|r]; [|done].
  apply SE_bind_ok in Hm as (u & w3 & Hu & Hm). apply SE_bind_ok in Hm as (u' & w4 & Hr & Hm). injection Hm as <- <-.
  apply record_ok in Hr as [C4 _]. apply consume_ok in Hc as (req & dec & e & now & Hq & Hd & Hn & Hdd & Ht & _ & Hl).
  apply lands_grows in Hl as [G2 Ch]. apply use_grants_ok in Hu as [G3 Hs].
  assert (Gw : grows w w2) by (destruct G2 as [m Hm2]; exists m; by rewrite Hm2, C0).
  assert (Gw' : grows w3 w') by (exists []; by rewrite app_nil_r, C1, C4).
  split_and!; [done| | |].
  - exists req, dec. by rewrite <- C0.
  - eapply chained_grows; [etransitivity; [exact G3|exact Gw']|exact Ch].
  - intros id Hid. eapply spent_grows; [exact Gw|exact Gw'|by apply Hs].
Qed.

Lemma begin_ok an a w b w' : begin an a w = (Ok b, w') ->
  (b = true /\ begin_tx an a w = (Ok true, w')) \/ (b = false /\ (w_tx w = false -> same_db w w')).
Proof.
  unfold ApprovalService.begin. destruct (an_approved an); cbn [negb]; [|intros [= <- <-]; by right]. unfold catch.
  destruct (begin_tx an a w) as [[b'|x] w1] eqn:E.
  - intros [= -> ->]. left. by destruct (begin_tx_ok _ _ _ _ _ E) as (-> & _).
  - intros Hb. right. assert (I : same_db w1 w' /\ b = false).
    { apply SE_bind_ok in Hb as (u1 & w2 & H1 & Hb). apply SE_bind_ok in Hb as (u2 & w3 & H2 & Hb). injection Hb as <- <-. split; [|done].
      pose proof (idle_integrity x w1) as I1. rewrite H1 in I1.
      pose proof (idle_recSoft (ServiceAudit "approval.refused" (an_requestId an) (Some (ask_principal a)) None
        (Some (match x with Own (Foreign c) => c | _ => "error" end))) w2) as I2. rewrite H2 in I2. by etransitivity. }
    destruct I as [I ->]. split; [done|]. intros Ht. etransitivity; [|exact I].
    unfold ApprovalService.begin_tx in E. pose proof (transaction_err_tx _ _ _ _ Ht E) as T. apply transaction_err in E as [E1 E2]; [|done].
    split_and!; [done|done|congruence].
Qed.

Lemma begin_total an a (w : W) : exists b, (begin an a w).1 = Ok b.
Proof.
  unfold ApprovalService.begin. destruct (an_approved an); [|by exists false]. cbn [negb]. unfold catch.
  destruct (begin_tx an a w) as [[b|x] w1]; [by exists b|]. exists false. unfold mbind, SE_bind.
  assert (Hi : (integrityFailure x w1).1 = Ok tt) by (destruct x; [apply recSoft_ok|done..]).
  destruct (integrityFailure x w1) as [r w2]. cbn in Hi. subst r.
  match goal with |- context [ApprovalService.recSoft audit ?e w2] => pose proof (recSoft_ok e w2) as Hr; destruct (recSoft e w2) as [r w3] end.
  cbn in Hr. by subst r.
Qed.

(** (C9) An execution starts once. [begin] never throws. When it lets a call run, the call's request was
    approved for exactly this binding and not used before, its use is now on the chain, and every grant
    of the answer belongs to the caller and, if it is a once grant, is consumed on the chain; from then
    on no start on the same request goes through, whatever happened to the tables since. *)
Theorem execution_starts_once an a (w : W) :
  (exists b, (begin an a w).1 = Ok b)
  /\ forall w', begin an a w = (Ok true, w') ->
     spendable w a (an_requestId an) /\ (forall id, id ∈ an_grantIds an -> spent w w' a id)
     /\ forall an2 a2 w2 w3, an_requestId an2 = an_requestId an -> grows w' w2 -> begin an2 a2 w2 <> (Ok true, w3).
Proof.
  split.
  - apply begin_total.
  - intros w' Hb. apply begin_ok in Hb as [[_ Hb]|[? _]]; [|done]. apply begin_tx_ok in Hb as (_ & Hs & Hc & Hg). split_and!; [done|done|].
    intros an2 a2 w2 w3 Hid Hgr Hb2. apply begin_ok in Hb2 as [[_ Hb2]|[? _]]; [|done]. apply begin_tx_ok in Hb2 as (_ & Hs2 & _ & _).
    destruct Hs2 as (_ & _ & _ & _ & Hn & _). rewrite Hid in Hn. destruct (chained_at w2 "approval.used" (an_requestId an)) as [e He]; [|congruence].
    eapply chained_grows; [exact Hgr|exact Hc].
Qed.

(** ** The grants of a decision *)

(** A row of the table with the terms of an input. *)
Definition made (w : W) (id : string) (c : CreateGrantInput) : Prop :=
  exists row, row ∈ grants_of (w_rows w) /\ gr_id row = id /\ gr_person row = i_person c /\ gr_agent row = i_agent c /\ duration row = i_scope c
    /\ gr_surface row = i_surface c /\ created_by row = i_createdBy c /\ row_match row = i_match c.

Lemma new_row_match id now i cap h q : row_match (with_chain h q (new_row id now i cap)) = i_match i.
Proof. unfold row_match. cbn. by destruct (i_match i). Qed.

Lemma create_made i (w w' : W) s : json_laws -> create i w = (Ok s, w') ->
  made w' (g_id (grant s)) i /\ forall id c, made w id c -> made w' id c.
Proof.
  intros J Hc. destruct (create_ok _ _ _ _ _ _ _ _ _ _ _ _ i w w' s J Hc) as (d & now & row & e & w0 & _ & Hrow & _ & _ & _ & _ & (h & q & -> & Hin) & Hk).
  split.
  - exists (with_chain h q row). split; [done|]. rewrite Hrow. split_and!; try done. apply new_row_match.
  - intros id c (x & Hx & H1 & H2 & H3 & H4 & H5 & H6 & H7). destruct (Hk x Hx) as (x' & Hx' & [->|(h' & q' & ->)]); eexists; split_and!; eauto.
Qed.

Lemma create_all_ok l (w w' : W) ids : json_laws -> create_all l w = (Ok ids, w') ->
  (forall id c, made w id c -> made w' id c) /\ forall id, id ∈ ids -> exists c, c ∈ l /\ made w' id c.
Proof.
  intros J. revert w ids. induction l as [|i l IH]; intros w ids Hc.
  - injection Hc as <- <-. split; [done|]. by intros id ?%elem_of_nil.
  - cbn [ApprovalService.create_all] in Hc. apply SE_bind_ok in Hc as (g & w1 & Hg & Hc). apply SE_bind_ok in Hc as (ids' & w2 & Hr & Hc). injection Hc as <- <-.
    apply create_made in Hg as [Hm Hk]; [|done]. apply IH in Hr as [Hk2 Hr]. split; [intros id c Hx; by apply Hk2, Hk|].
    intros id [->|Hid]%elem_of_cons; [exists i; split; [left|by apply Hk2]|].
    destruct (Hr id Hid) as (c & Hin & Hc). exists c. split; [by right|done].
Qed.

(** The access a request asks for. *)
Definition asked_access (d : RequestDetail) : Access :=
  match rd_access d with Some a => a | None => if String.eqb (rd_effect d) "read" then ARead else AWrite end.

(** A match no wider than the request's own targets. *)
Definition narrow (d : RequestDetail) (m : GrantMatch) : Prop :=
  match m with
  | MAction => True
  | MCapability => rd_targets d = []
  | MPath p acc b => (rd_origin d = true /\ rd_targets d = [p]) \/ (b = false /\ acc = asked_access d /\ Some p ∈ map parentOf (rd_targets d))
  end.

Lemma uniq_elem {A} `{EqDecision A} (l : list A) x : x ∈ uniq l -> x ∈ l.
Proof.
  induction l as [|y l IH]; [done|]. cbn [uniq]. intros [->|Hx]%elem_of_cons; [left|]. apply bfilter_elem in Hx as [Hx _]. right. by apply IH.
Qed.

Lemma all_some_elem {A} (l : list (option A)) r x : all_some l = Some r -> x ∈ r -> Some x ∈ l.
Proof.
  unfold all_some. revert r. induction l as [|o l IH]; intros r Hm Hx; cbn in Hm; [injection Hm as <-; by apply elem_of_nil in Hx|].
  destruct o as [y|]; cbn in Hm; [|done]. destruct (mapM id l) as [r'|] eqn:E; [|done]. injection Hm as <-.
  apply elem_of_cons in Hx as [->|Hx]; [left|right; by apply (IH r')].
Qed.

(** The terms a grant of the decision carries. *)
Definition from_decision (r : ApprovalRecord) (d : RequestDetail) (i : ServiceDecideInput) (s : GrantScope) (c : CreateGrantInput) : Prop :=
  i_person c = js_str (jget "principal" (a_bound r)) /\ i_agent c = js_str (jget "id" (jget "subject" (a_bound r))) /\ i_scope c = s
  /\ i_surface c = si_surface i /\ i_createdBy c = si_person i /\ narrow d (i_match c)
  /\ (i_capability c = a_capability r \/ rd_origin d = true /\ i_capability c ∈ ["fs.write"; "fs.read"])
  /\ (i_match c = MAction -> i_actionHash c = Some (js_str (jget "actionHash" (a_bound r)))).

Lemma createGrants_ok r d i s (w w' : W) ids : json_laws -> createGrants r d i s w = (Ok ids, w') ->
  forall id, id ∈ ids -> exists c, made w' id c /\ from_decision r d i s c.
Proof.
  intros J Hc. unfold ApprovalService.createGrants in Hc. cbv zeta in Hc.
  assert (K : forall l w0, create_all l w0 = (Ok ids, w') -> (forall c, c ∈ l -> from_decision r d i s c) ->
    forall id, id ∈ ids -> exists c, made w' id c /\ from_decision r d i s c).
  { intros l w0 Hl Hf id Hid. apply create_all_ok in Hl as [_ Hl]; [|done]. destruct (Hl id Hid) as (c & Hin & Hm). eauto. }
  destruct (rd_origin d) eqn:Eo.
  - destruct (rd_targets d) as [|t0 [|? ?]] eqn:Et; try done. destruct (_ || _) eqn:E; [done|].
    eapply K; [exact Hc|]. intros c [->|[->|Hn]%elem_of_cons]%elem_of_cons; [| |by apply elem_of_nil in Hn]; (split_and!; [done..| | |done]); cbn; [left; by rewrite Eo, Et|right; split; [done|set_solver]|left; by rewrite Eo, Et|right; split; [done|set_solver]].
  - destruct (bool_decide_reflect (s = Once)) as [->|Hs].
    + unfold catch in Hc. match type of Hc with (match ?m with _ => _ end) = _ => destruct m as [[v|x] w1] eqn:E end.
      * injection Hc as -> ->. eapply K; [exact E|]. intros c ->%list_elem_of_singleton. split_and!; try done. by left.
      * destruct x as [| |[[]| |]]; try done. injection Hc as <- _. by intros id ?%elem_of_nil.
    + assert (Hc' : (_ ← ensure (negb (bool_decide (s = Task)) || bool_decide (rd_taskId d <> None)) InvalidGrant;
         _ ← ensure (negb (bool_decide (s = Session)) || bool_decide (rd_sessionId d <> None)) InvalidGrant;
         match rd_targets d with
         | [] => create_all [base_input r d i s MCapability]
         | ts => if rd_masked d then bad InvalidGrant
           else match all_some (uniq (map parentOf ts)) with
                | None => bad InvalidGrant
                | Some dirs => create_all (map (fun dir => base_input r d i s (MPath dir (asked_access d) false)) dirs)
                end
         end) w = (Ok ids, w')) by (destruct s; [done|exact Hc..]).
      clear Hc. apply SE_bind_ok in Hc' as (u1 & w1 & _ & Hc). apply SE_bind_ok in Hc as (u2 & w2 & _ & Hc).
      destruct (rd_targets d) as [|t0 ts] eqn:Et.
      * eapply K; [exact Hc|]. intros c ->%list_elem_of_singleton. split_and!; try done. by left.
      * destruct (rd_masked d); [done|]. destruct (all_some _) as [dirs|] eqn:Ea; [|done].
        eapply K; [exact Hc|]. intros c (p & -> & Hp)%elem_of_map. split_and!; try done; [|by left]. cbn. right. split; [done|]. split; [done|].
        rewrite Et. apply uniq_elem. by eapply all_some_elem.
Qed.
(** ** The decision *)

Definition store_input (i : ServiceDecideInput) : DecideInput :=
  {| di_requestId := si_requestId i; di_nonce := si_nonce i; di_approve := si_approve i; di_person := si_person i;
     di_surface := si_surface i; di_delegable := si_delegable i |}.

(** The record that is read is the chained request's own, in every part a decision looks at. *)
Definition record_of (id : string) (req : ChainEntry Text) (r : ApprovalRecord) : Prop :=
  let rp := payload parse req in
  a_id r = id /\ a_bound r = jget "bound" rp /\ a_capability r = js_str (jget "capability" rp)
  /\ a_detail r = match jget "detail" rp with JObj _ | JArr _ => Some (jget "detail" rp) | _ => None end.

Lemma get_record_ok id (w : W) r w' : get_record id w = (Ok (Some r), w') ->
  same_db w w' /\ exists req, at_ (c_rows (w_chain w)) "approval.requested" id = Some req /\ record_of id req r.
Proof.
  intros Hg. pose proof (idle_get_record id w) as Hi. rewrite Hg in Hi. split; [exact Hi|].
  unfold ApprovalStore.get_record in Hg. apply SE_bind_ok in Hg as (refs & w1 & Ht & Hg). apply trusted_refs_ok in Ht as (_ & -> & ->).
  apply SE_bind_ok in Hg as (now & w2 & Hc & Hg). injection Hg as Hg _. unfold record in Hg. rewrite find_at in Hg.
  destruct (at_ _ "approval.requested" id) as [req|]; [|done]. injection Hg as <-. by exists req.
Qed.

(** What a decision that went through did: the request was open on the chain for this person and this nonce,
    the decision is now chained, and the grants carry the terms of the request. *)
Definition decided_well (w w' : W) (r : ApprovalRecord) (i : ServiceDecideInput) (s : GrantScope) (st : ApprovalStatus) (ids : list string) : Prop :=
  1 <= si_surface i <= 3 /\ st = (if si_approve i then Approved else Denied)
  /\ (exists req, at_ (c_rows (w_chain w)) "approval.requested" (si_requestId i) = Some req
       /\ jget "principal" (jget "bound" (payload parse req)) = JStr (si_person i) /\ e_nonce req = Some (si_nonce i))
  /\ at_ (c_rows (w_chain w)) "approval.decided" (si_requestId i) = None /\ at_ (c_rows (w_chain w)) "approval.cancelled" (si_requestId i) = None
  /\ GrantsSpec.chained w' "approval.decided" (si_requestId i)
  /\ (si_approve i = false -> ids = [])
  /\ forall id, id ∈ ids -> exists c, made w' id c /\ from_decision r (read_detail (default JUndef (a_detail r))) i s c.

Lemma grows_chain (a b c d : W) : w_chain a = w_chain c -> w_chain b = w_chain d -> grows a b -> grows c d.
Proof. unfold grows. by intros -> ->. Qed.

Lemma growing_create_all l : growing (create_all l).
Proof.
  induction l as [|i l IH]; [by apply growing_same|]. cbn [ApprovalService.create_all].
  apply growing_bind; [apply growing_create|intros g]. apply growing_bind; [exact IH|intros ids; by apply growing_same].
Qed.

Lemma growing_ensure b e : growing (ensure b e : M unit).
Proof. apply growing_require. Qed.

Lemma growing_createGrants r d i s : growing (createGrants r d i s).
Proof.
  unfold ApprovalService.createGrants, bad.
  repeat (match goal with
  | |- growing (create_all _) => apply growing_create_all
  | |- growing (ensure _ _) => apply growing_ensure
  | |- growing (_ ≫= _) => apply growing_bind; [|intros ?]
  | |- growing (catch _ _) => apply growing_catch; [|intros ?]
  | |- growing (if ?b then _ else _) => destruct b
  | |- growing (match ?x with _ => _ end) => destruct x
  end); by apply growing_same.
Qed.

Lemma decide_tx_ok r i s (w : W) st ids w' : json_laws -> decide_tx r i s w = (Ok (Ok (st, ids)), w') -> decided_well w w' r i s st ids.
Proof.
  intros J Hd. unfold ApprovalService.decide_tx in Hd. apply transaction_ok in Hd as (w0 & w1 & Hm & C0 & _ & _ & _ & C1 & R1 & _).
  apply SE_bind_ok in Hm as (res & w2 & Hr & Hm). destruct res as [st'|]; [|done].
  apply SE_bind_ok in Hm as (ids' & w3 & Hg & Hm). apply SE_bind_ok in Hm as (u & w4 & Hl & Hm). injection Hm as <- <- <-.
  apply record_ok in Hl as [C4 R4]. apply decide_ok in Hr as (Hs & -> & req & e & now & Hq & Hd & Hc & Hp & Hn & _ & Hl).
  apply lands_grows in Hl as [_ Hch]. cbn [di_requestId di_surface di_person di_nonce] in *. rewrite C0 in *. unfold decided_well.
  assert (G : grows w2 w3).
  { destruct (si_approve i); [|injection Hg as _ <-; reflexivity].
    pose proof (growing_createGrants r (read_detail (default JUndef (a_detail r))) i s w2) as G. by rewrite Hg in G. }
  split; [exact Hs|]. split_and!; try done.
  - by exists req.
  - eapply chained_grows; [|exact Hch]. eapply grows_chain; [reflexivity| |exact G]. congruence.
  - intros E. rewrite E in Hg. by injection Hg as <- _.
  - intros id Hid. destruct (si_approve i); [|injection Hg as <- _; by apply elem_of_nil in Hid].
    destruct (createGrants_ok _ _ _ _ _ _ _ J Hg id Hid) as (c & (row & Hrow & Hterms) & Hf). exists c. split; [|done].
    exists row. split; [|done]. by rewrite R1, R4.
Qed.

(** ** Nothing or everything *)

(** The database is left as it was, unless the value says the call went through. *)
Definition spares {A} (good : A -> bool) (m : M A) : Prop := forall w, w_tx w = false ->
  match m w with (Ok a, w') => good a = true \/ same_db w w' | (Err _, w') => same_db w w' end.

Definition never {A} (a : A) : bool := false.

Lemma spares_idle {A} (good : A -> bool) (m : M A) : idle m -> spares good m.
Proof. intros Hi w _. specialize (Hi w). destruct (m w) as [[a|e] w']; [by right|done]. Qed.

Lemma spares_bind {A B} (good : B -> bool) (m : M A) (k : A -> M B) : idle m -> (forall a, spares good (k a)) -> spares good (m ≫= k).
Proof.
  intros Hi Hk w Hw. specialize (Hi w). unfold mbind, SE_bind. destruct (m w) as [[a|e] w1]; [|done]. cbn [snd] in Hi.
  assert (Hw1 : w_tx w1 = false) by (destruct Hi as (_ & _ & ->); done).
  specialize (Hk a w1 Hw1). destruct (k a w1) as [[b|x] w2]; [destruct Hk as [Hk|Hk]; [by left|right]|]; by etransitivity.
Qed.

Lemma spares_catch {A} (good : A -> bool) (m : M A) h : spares good m -> (forall e, idle (h e)) -> spares good (catch m h).
Proof.
  intros Hm Hh w Hw. specialize (Hm w Hw). unfold catch. destruct (m w) as [[a|e] w1]; [done|]. specialize (Hh e w1).
  destruct (h e w1) as [[b|x] w2]; [right|]; by etransitivity.
Qed.

(** What follows a step that went through only reads and logs. *)
Lemma spares_then {A B} (good : A -> bool) (good' : B -> bool) (m : M A) (k : A -> M B) :
  spares good m -> (forall a, idle (k a)) -> (forall a w, good a = true -> exists b w', k a w = (Ok b, w') /\ good' b = true) ->
  spares good' (m ≫= k).
Proof.
  intros Hm Hk Hg w Hw. specialize (Hm w Hw). unfold mbind, SE_bind. destruct (m w) as [[a|e] w1]; [|done]. specialize (Hk a w1).
  destruct Hm as [Hm|Hm].
  - destruct (Hg a w1 Hm) as (b & w2 & -> & Hb). by left.
  - destruct (k a w1) as [[b|x] w2]; [right|]; by etransitivity.
Qed.

(** A transaction whose body may refuse only before it writes. *)
Lemma spares_transaction {A D} (m : M (result D A)) :
  (forall w d w', m w = (Ok (Err d), w') -> w_chain w' = w_chain w /\ w_rows w' = w_rows w) -> spares is_ok (transaction m).
Proof.
  intros Hm w Hw. destruct (transaction m w) as [[[a|d]|x] w'] eqn:E; [by left|right|].
  - pose proof (transaction_tx m w Hw) as T. rewrite E in T. apply transaction_ok in E as (w0 & w1 & E & C0 & R0 & _ & _ & C1 & R1 & _).
    apply Hm in E as [C R]. split_and!; [congruence..|]. cbn in T. congruence.
  - pose proof (transaction_err_tx _ _ _ _ Hw E) as T. apply transaction_err in E as [C R]; [|done]. split_and!; [done|done|congruence].
Qed.

Lemma decide_tx_spares r i s : spares is_ok (decide_tx r i s).
Proof.
  apply spares_transaction. intros w d w' Hm. apply SE_bind_ok in Hm as (res & w1 & Hr & Hm). destruct res as [st|d'].
  - apply SE_bind_ok in Hm as (? & ? & _ & Hm). by apply SE_bind_ok in Hm as (? & ? & _ & Hm).
  - injection Hm as -> <-. by apply decide_idle in Hr.
Qed.

Lemma idle_throw {A} e : idle (throw e : M A).
Proof. by intros w. Qed.
Lemma idle_ret {A} (a : A) : idle (mret a : M A).
Proof. by intros w. Qed.

Lemma decideCore_spares i : spares is_ok (decideCore i).
Proof.
  unfold ApprovalService.decideCore. destruct (negb _); [apply spares_idle, idle_refuse|].
  apply spares_bind.
  { apply idle_catch; [apply idle_get_record|intros e]. apply idle_bind; [apply idle_integrity|intros _; apply idle_throw]. }
  intros [r|]; [|apply spares_idle, idle_refuse]. destruct (negb _); [apply spares_idle, idle_refuse|]. cbv zeta.
  destruct (if si_approve i then _ else _); [apply spares_idle, idle_refuse|].
  apply (spares_then is_ok).
  - apply spares_catch.
    + apply (spares_then is_ok); [apply decide_tx_spares|intros [|]; apply idle_ret|]. intros [v|d] w; [|done]. by eexists _, _.
    + intros e. destruct e as [| |[[]| |]]; try apply idle_ret; (apply idle_bind; [apply idle_integrity|intros _; apply idle_throw]).
  - intros [[st ids]|d]; [apply idle_ret|apply idle_refuse].
  - intros [[st ids]|d] w; [|done]. by eexists _, _.
Qed.

Lemma service_cancel_spares id person b : spares is_ok (service_cancel id person b).
Proof.
  unfold ApprovalService.service_cancel. apply spares_bind; [apply idle_get_record|]. intros [r|]; [|apply spares_idle, idle_ret].
  destruct (negb _); [apply spares_idle, idle_ret|]. apply spares_transaction. intros w d w' Hm.
  apply SE_bind_ok in Hm as (res & w1 & Hr & Hm). destruct res as [u|d'].
  - by apply SE_bind_ok in Hm as (? & ? & _ & Hm).
  - injection Hm as -> <-. by apply cancel_idle in Hr.
Qed.

(** Nothing or everything: outside a transaction, a decision, a withdrawal or an execution start that
    does not answer with success, whether it refuses or throws and whatever it had written by then
    (decision entry, grants, consumptions), leaves the chain and both tables exactly as they were. *)
Theorem service_all_or_nothing (w : W) : w_tx w = false ->
  (forall i, match decideCore i w with (Ok (Ok _), _) => True | (_, w') => same_db w w' end)
  /\ (forall id person b, match service_cancel id person b w with (Ok (Ok _), _) => True | (_, w') => same_db w w' end)
  /\ (forall an a, match begin an a w with (Ok true, _) => True | (_, w') => same_db w w' end).
Proof.
  intros Hw. split_and!.
  - intros i. pose proof (decideCore_spares i w Hw) as H. destruct (decideCore i w) as [[[v|d]|x] w']; [done|by destruct H|done].
  - intros id p b. pose proof (service_cancel_spares id p b w Hw) as H. destruct (service_cancel id p b w) as [[[v|d]|x] w']; [done|by destruct H|done].
  - intros an a. assert (B : exists b, (begin an a w).1 = Ok b) by apply begin_total. destruct (begin an a w) as [[b|x] w'] eqn:E; [|by destruct B].
    destruct (begin_ok _ _ _ _ _ E) as [[-> _]|[-> H]]; [done|by apply H].
Qed.

(** ** The policy of a decision *)

(** What an approval has passed when it was not refused. *)
Definition approval_allowed (r : ApprovalRecord) (i : ServiceDecideInput) (s : GrantScope) : Prop :=
  let d := read_detail (default JUndef (a_detail r)) in
  exists def, CAPABILITIES_get (a_capability r) = Some def /\ offered (rd_options d) s = true
    /\ scopeRank s <= scopeRank (maxScopeFor def (read_flags (rd_flags d)))
    /\ surfaceMayDecide (a_capability r) (risk_of (rd_risk d)) (read_flags (rd_flags d)) (si_surface i) s = true
    /\ (rd_origin d = true -> s = Session /\ si_delegable i = false /\ codeRootActive (a_id r) = true).

Lemma approve_allowed r i s : approve_refused r i s = None -> approval_allowed r i s.
Proof.
  unfold ApprovalService.approve_refused, approval_allowed. cbv zeta. destruct (a_detail r) as [v|]; cbn [default from_option id];
    [|destruct (CAPABILITIES_get _); done].
  destruct (_ && (_ || _)) eqn:E1; [done|]. destruct (_ && negb (codeRootActive _)) eqn:E2; [done|].
  destruct (CAPABILITIES_get _) as [def|]; [|done]. destruct (_ || js_is_undef _); [done|]. destruct (offered _ s); [|done]. cbn [negb].
  destruct (negb (_ || _ || _)); [done|]. destruct (_ <? _) eqn:E3; [done|]. destruct (surfaceMayDecide _ _ _ _ _); [|done]. intros _.
  exists def. bool_hyps. split_and!; try done. intros Ho. rewrite Ho in *. cbn [andb] in *. bool_hyps. done.
Qed.

(** (C8) A decision keeps to the policy. When [decideCore] answers that a request is decided, the request is
    on the chain, was open, belongs to the person who decides and was answered with its own nonce at a
    verified surface, and the decision is chained. A denial makes no grant. An approval is of a registered
    capability, at a scope that the request's chained detail offered, that does not rank above the
    capability's ceiling and that this surface may decide; and every grant it made is in the table for the
    request's own person, agent and capability (or, for a code folder, reading or writing files), at that
    scope, and matches the request's own action, or what it asked for in the folders of its targets, or,
    when it named no target, the capability. *)
Theorem decision_within_policy i (w : W) st sc ids w' : json_laws -> decideCore i w = (Ok (Ok (st, sc, ids)), w') ->
  exists r s req, at_ (c_rows (w_chain w)) "approval.requested" (si_requestId i) = Some req
    /\ record_of (si_requestId i) req r /\ s = default Once (si_scope i) /\ decided_well w w' r i s st ids
    /\ (si_approve i = true -> sc = Some s /\ approval_allowed r i s)
    /\ (si_approve i = false -> sc = None /\ ids = []).
Proof.
  intros J Hd. unfold ApprovalService.decideCore in Hd. destruct (negb _); [by destruct (refuse_run (A := ApprovalStatus * option GrantScope * list string) i (ByStore SurfaceUntrusted) w) as (? & E & _); rewrite E in Hd|].
  assert (NR : forall d v, refuse audit (Text := Text) (A := ApprovalStatus * option GrantScope * list string) i d v <> (Ok (Ok (st, sc, ids)), w')).
  { intros d v E. destruct (refuse_run (A := ApprovalStatus * option GrantScope * list string) i d v) as (? & E' & _). by rewrite E' in E. }
  apply SE_bind_ok in Hd as (r & w1 & Hg & Hd). destruct r as [r|]; [|by apply NR in Hd]. destruct (negb _) eqn:Ep; [by apply NR in Hd|].
  cbv zeta in Hd. destruct (if si_approve i then _ else _) eqn:Er; [by apply NR in Hd|].
  apply SE_bind_ok in Hd as (out & w2 & Ho & Hd). destruct out as [[st' ids']|d]; [|by apply NR in Hd]. injection Hd as <- <- <- <-.
  assert (Hgr : get_record (si_requestId i) w = (Ok (Some r), w1)).
  { unfold catch in Hg. destruct (get_record _ w) as [[o|x] v]; [exact Hg|]. apply SE_bind_ok in Hg as (? & ? & _ & Hg). done. }
  apply get_record_ok in Hgr as ((C & R & T) & req & Hreq & Hb).
  assert (Ht : decide_tx r i (default Once (si_scope i)) w1 = (Ok (Ok (st', ids')), w2)).
  { unfold catch in Ho. match type of Ho with (let (_, _) := ?m in _) = _ => destruct m as [[o|x] v] eqn:E end.
    - injection Ho as -> ->. apply SE_bind_ok in E as (res & v' & E & H). destruct res as [[? ?]|]; [|done]. by injection H as -> -> ->.
    - destruct x as [| |[[]| |]]; try done; by apply SE_bind_ok in Ho as (? & ? & _ & Ho). }
  apply decide_tx_ok in Ht as Hw; [|done]. exists r, (default Once (si_scope i)), req.
  assert (Hw' : decided_well w w2 r i (default Once (si_scope i)) st' ids') by (unfold decided_well in *; by rewrite C in Hw).
  split_and!; try done.
  - intros E. rewrite E in *. destruct Hw as (_ & -> & _). rewrite E. rewrite bool_decide_eq_true_2 by done. split; [done|]. by apply approve_allowed.
  - intros E. destruct Hw as (_ & -> & _ & _ & _ & _ & Hn & _). rewrite E. split; [done|by apply Hn].
Qed.
End spec.
