(* ===== verification/ApprovalServiceRun.v ===== *)
(** * Runs of the approval store and service

    The theorems of [ApprovalStoreSpec] applied to one request that is approved, used,
    and presented again; and those of [ApprovalServiceSpec] to one request for a form
    submission: a decision with the wrong nonce, the approval, the start of the call and
    a second start. *)

From S2P Require Import Prelude PolicyCaps PolicyDecide ApprovalChain ApprovalChainSpec Grants GrantsSpec ApprovalStore ApprovalStoreSpec ApprovalService ApprovalServiceSpec.

Definition as_stringify (v : js) : js := v.
Definition as_parse (v : js) : option js := if json_value v then Some v else None.
Definition as_length (v : js) : Z := 100.
Definition as_hmac (p : string) (s t : Z) (k r : string) (n : option string) (x : js) : string :=
  digits 2 s +:+ k +:+ r +:+ String.substring 0 4 p.
Definition as_tag (s : Z) (m : string) : string := digits 2 s +:+ m.
Definition as_verify (m pk sg : string) : bool := String.eqb sg (pk +:+ m).
Definition as_signer : option DecisionSigner := Some {| publicKey := "K"; sign_mac := fun m => "K" +:+ m |}.
Definition as_clock (n : nat) : Z := 1000 + Z.of_nat n.

Lemma as_laws : json_laws as_stringify as_parse.
Proof.
  constructor; unfold as_stringify, as_parse.
  - intros v ->. reflexivity.
  - intros t v. destruct (json_value t) eqn:E; [|discriminate]. by intros [= <-].
Qed.

Lemma as_honest : honest_signer as_verify as_signer.
Proof. intros k m [= <-]. apply String.eqb_refl. Qed.

Notation AW := (World (Text := js) (list ApprovalRow) unit).
Notation as_step := (step as_stringify as_parse as_length as_hmac as_tag as_verify as_signer tt as_clock DEFAULT_REQUEST_TTL_MS (Rows := list ApprovalRow) (Ev := unit)).
Notation as_run := (run as_stringify as_parse as_length as_hmac as_tag as_verify as_signer tt as_clock DEFAULT_REQUEST_TTL_MS (Rows := list ApprovalRow) (Ev := unit)).

Definition as_world : AW := {| w_chain := empty_chain; w_rows := []; w_tx := false; w_ticks := 0; w_log := [] |}.

Definition as_binding : ApprovalBinding :=
  {| b_requestId := "r1"; b_actionHash := "h1"; b_principal := "p1"; b_kind := "agent"; b_subject := "a1"; b_turnId := "t1"; b_taskId := "-"; b_sessionId := "s1" |}.
Definition as_input : RequestInput := {| ri_binding := as_binding; ri_capability := "net.submit"; ri_detail := None |}.
Definition as_decision : DecideInput :=
  {| di_requestId := "r1"; di_nonce := "n1"; di_approve := true; di_person := "p1"; di_surface := 2; di_delegable := false |}.

Definition as_calls : list (Call (Rows := list ApprovalRow)) :=
  [CRequest "r1" "n1" as_input; CConsume as_binding; CDecide as_decision; CConsume as_binding; CForge (fun _ => []); CConsume as_binding; CDecide as_decision].

Lemma decided_and_used_once_witness :
  (as_run as_calls as_world).1 = [Requested "r1"; Decided "r1" true; Spent "r1"]
  /\ (length (bfilter (spends "r1") (as_run as_calls as_world).1) <= 1)%nat
  /\ Decided "r1" true ∈ [Requested "r1"; Decided "r1" true].
Proof.
  assert (E : (as_run as_calls as_world).1 = [Requested "r1"; Decided "r1" true] ++ Spent "r1" :: []) by (vm_compute; reflexivity).
  split; [exact E|].
  destruct (decided_and_used_once as_stringify as_parse as_length as_hmac as_tag as_verify as_signer tt as_clock DEFAULT_REQUEST_TTL_MS
              as_calls as_world "r1" as_laws eq_refl) as (_ & H & D).
  split; [exact H|]. apply (D eq_refl _ []). exact E.
Defined.

Lemma store_keeps_chain_witness :
  let w1 := (as_step (CRequest "r1" "n1" as_input) as_world).2 in
  length (c_rows (w_chain w1)) = 1%nat /\ intact as_parse as_hmac as_tag as_verify as_signer (w_chain w1).
Proof.
  intros w1. split; [vm_compute; reflexivity|].
  apply (store_keeps_chain as_stringify as_parse as_length as_hmac as_tag as_verify as_signer tt as_clock DEFAULT_REQUEST_TTL_MS
           (CRequest "r1" "n1" as_input) as_world as_laws as_honest).
  - constructor.
    + vm_compute. reflexivity.
    + intros s Hs. by apply elem_of_nil in Hs.
    + intros r r' e e' Hr. discriminate.
  - reflexivity.
  - split; [|exact I]. intros e He. by apply elem_of_nil in He.
Defined.

Definition sv_fresh (t : Z) (n : nat) : string := "g" +:+ digits 2 (Z.of_nat n).
Definition sv_active (id : string) : bool := false.
Definition sv_length (v : js) : Z := 100.

Notation SW := (World (Text := js) Tables Event).
Notation sv_request :=
  (request gr_stringify gr_parse sv_length gr_hmac gr_tag gr_verify None (Foreign "TypeError") gr_clock DEFAULT_REQUEST_TTL_MS (Rows := Tables) (Ev := Event) (X := GrantFault)).
Notation sv_decide := (decideCore gr_stringify gr_parse gr_hmac gr_tag gr_verify None gr_clock gr_audit gr_syntax gr_reaches gr_sha sv_fresh sv_active).
Notation sv_begin := (begin gr_stringify gr_parse gr_hmac gr_tag gr_verify None gr_clock 90 gr_audit).

Definition sv_ask : Ask :=
  {| ask_actionHash := "h1"; ask_callId := "c1"; ask_agentId := "a1"; ask_principal := "p1"; ask_subjectKind := None; ask_turnId := Some "t1";
     ask_taskId := None; ask_sessionId := Some "s1" |}.

Definition sv_detail : js :=
  JObj [("effect", JStr "external"); ("risk", JStr "medium"); ("flags", JObj []); ("targets", JArr []);
        ("grantOptions", JArr [JObj [("scope", JStr "once")]]); ("sessionId", JStr "s1")].

Definition sv_input : RequestInput := {| ri_binding := bindingOf sv_ask "r1"; ri_capability := "net.submit"; ri_detail := Some sv_detail |}.

Definition sv_decision (nonce : string) : ServiceDecideInput :=
  {| si_requestId := "r1"; si_nonce := nonce; si_approve := true; si_person := "p1"; si_surface := 3; si_scope := None; si_delegable := false;
     si_acknowledgedUnsandboxed := false; si_attestedVia := None |}.

Definition sv_empty : SW := {| w_chain := empty_chain; w_rows := {| t_grants := []; t_approvals := [] |}; w_tx := false; w_ticks := 0; w_log := [] |}.

(** The world with the request on the chain, and the one with its approval. *)
Definition sv_asked : SW := (sv_request "r1" "n1" sv_input sv_empty).2.
Definition sv_done : SW := (sv_decide (sv_decision "n1") sv_asked).2.

Definition sv_answer : Answer :=
  {| an_approved := true; an_requestId := "r1"; an_grantIds := map gr_id (t_grants (w_rows sv_done)) |}.

(** ** Witnesses *)

Lemma decision_within_policy_witness :
  exists st sc ids r s req, sv_decide (sv_decision "n1") sv_asked = (Ok (Ok (st, sc, ids)), sv_done) /\ length ids = 1%nat
    /\ at_ (c_rows (w_chain sv_asked)) "approval.requested" "r1" = Some req /\ sc = Some s /\ approval_allowed sv_active r (sv_decision "n1") s.
Proof.
  assert (E : match (sv_decide (sv_decision "n1") sv_asked).1 with Ok (Ok (_, _, ids)) => Nat.eqb (length ids) 1 | _ => false end = true) by (vm_compute; reflexivity).
  destruct (sv_decide (sv_decision "n1") sv_asked) as [o w'] eqn:D. cbn [fst] in E.
  destruct o as [[[[st sc] ids]|d]|x]; [|discriminate..].
  destruct (decision_within_policy gr_stringify gr_parse gr_hmac gr_tag gr_verify None gr_clock gr_audit gr_syntax gr_reaches gr_sha sv_fresh sv_active
              (sv_decision "n1") sv_asked st sc ids w' gr_laws D) as (r & s & req & Hq & _ & _ & _ & Ha & _).
  destruct (Ha eq_refl) as [Hs Hp]. exists st, sc, ids, r, s, req.
  split; [unfold sv_done; rewrite D; reflexivity|]. split; [by apply Nat.eqb_eq|]. split; [exact Hq|]. split; [exact Hs|exact Hp].
Defined.

Lemma execution_starts_once_witness :
  sv_begin sv_answer sv_ask sv_done = (Ok true, (sv_begin sv_answer sv_ask sv_done).2)
  /\ length (an_grantIds sv_answer) = 1%nat
  /\ sv_begin sv_answer sv_ask (sv_begin sv_answer sv_ask sv_done).2 <> (Ok true, sv_done).
Proof.
  assert (E : (sv_begin sv_answer sv_ask sv_done).1 = Ok true) by (vm_compute; reflexivity).
  apply pair_of in E. split; [exact E|]. split; [vm_compute; reflexivity|].
  destruct (execution_starts_once gr_stringify gr_parse gr_hmac gr_tag gr_verify None gr_clock 90 gr_audit sv_answer sv_ask sv_done) as [_ H].
  destruct (H _ E) as (_ & _ & Hn). apply Hn; [reflexivity|]. exists []. by rewrite app_nil_r.
Defined.

Lemma service_all_or_nothing_witness :
  is_ok (sv_decide (sv_decision "wrong") sv_asked).1 = true
  /\ same_db sv_asked (sv_decide (sv_decision "wrong") sv_asked).2.
Proof.
  destruct (service_all_or_nothing gr_stringify gr_parse gr_hmac gr_tag gr_verify None gr_clock 90 gr_audit gr_syntax gr_reaches gr_sha sv_fresh sv_active
              sv_asked eq_refl) as (H & _ & _).
  specialize (H (sv_decision "wrong")).
  assert (E : match (sv_decide (sv_decision "wrong") sv_asked).1 with Ok (Err _) => true | _ => false end = true) by (vm_compute; reflexivity).
  destruct (sv_decide (sv_decision "wrong") sv_asked) as [[[v|d]|x] w']; [discriminate| |discriminate]. split; [reflexivity|exact H].
Defined.
