(* ===== verification/NetIp.v ===== *)
(** * IP addresses: parsing, classification, ranges

    Model of [packages/core/src/tools/web/ip.ts], the pure part of the SSRF guard.
    An address is its family and its bytes; texts are lists of characters; shifts
    and masks are those of the source, on integers that stay below 2^32 (the
    [bigint]s below 2^128). *)

From S2P Require Import Prelude.
From Stdlib Require Import Ascii.

(** ** Data *)

Inductive family : Type := F4 | F6.

#[export] Instance family_eq_dec : EqDecision family.
Proof. solve_decision. Defined.

(* @src tools/web/ip.ts 8 11 ParsedAddress *)
Record ParsedAddress : Type := { a_family : family; a_bytes : list Z }.

(** Public, or the reason why not. *)
(* @src tools/web/ip.ts 13 17 Verdict *)
Inductive Verdict : Type := Public | NotPublic (reason : string).

(* @src tools/web/ip.ts 19 23 Cidr *)
Record Cidr : Type := { r_family : family; r_bytes : list Z; r_prefix : Z }.

Definition is_public (v : Verdict) : bool := match v with Public => true | NotPublic _ => false end.

(** ** Characters and numerals *)

Definition code (c : ascii) : Z := Z.of_nat (Ascii.nat_of_ascii c).

(** The value of a hexadecimal digit. *)
Definition hex_value (c : ascii) : option Z :=
  let n := code c in
  if (48 <=? n) && (n <=? 57) then Some (n - 48)
  else if (97 <=? n) && (n <=? 102) then Some (n - 87)
  else if (65 <=? n) && (n <=? 70) then Some (n - 55)
  else None.

(** The numeral [l] read in [base], when every digit is below it. *)
Fixpoint numeral (base acc : Z) (l : list ascii) : option Z :=
  match l with
  | [] => Some acc
  | c :: r => match hex_value c with
              | Some d => if d <? base then numeral base (acc * base + d) r else None
              | None => None
              end
  end.

(** [s.split(c)] *)
Fixpoint split_on (c : ascii) (l : list ascii) : list (list ascii) :=
  match l with
  | [] => [[]]
  | x :: r => match split_on c r with
              | h :: t => if Ascii.eqb x c then [] :: h :: t else (x :: h) :: t
              | [] => [[x]]
              end
  end.

Definition has (c : ascii) (l : list ascii) : bool := existsb (Ascii.eqb c) l.

(** ** Parsing *)

(** [Number.parseInt] rounds a numeral past 2^53; such a value is at least 2^32 either way and refused by
    the caller, as is the infinity of a still longer one. *)
(* @src tools/web/ip.ts 37 42 parseV4Part *)
Definition parseV4Part (s : list ascii) : option Z :=
  match s with
  | [] => None
  | c :: r =>
      if Ascii.eqb c "0" then
        match r with
        | x :: h => if (Ascii.eqb x "x" || Ascii.eqb x "X") && negb (bool_decide (h = [])) then numeral 16 0 h else numeral 8 0 r
        | [] => Some 0
        end
      else numeral 10 0 s
  end.

(** [/^(0|[1-9][0-9]{0,2})$/] *)
Definition canonical_octet (s : list ascii) : bool :=
  match s with
  | [] => false
  | c :: r => match hex_value c with
              | Some 0 => bool_decide (r = [])
              | Some _ => Nat.leb (length s) 3 && match numeral 10 0 s with Some _ => true | None => false end
              | None => false
              end
  end.

Definition b256 (n : Z) (i : Z) : Z := (n / 256 ^ i) mod 256.

(* @src tools/web/ip.ts 44 65 parseV4 *)
Definition parseV4 (s : list ascii) (strict : bool) : option (list Z) :=
  let parts := split_on "." s in
  let len := length parts in
  if Nat.ltb len 1 || Nat.ltb 4 len then None
  else if strict && negb (Nat.eqb len 4) then None
  else if strict && negb (forallb canonical_octet parts) then None
  else match mapM parseV4Part parts with
  | None => None
  | Some nums =>
      let last := default 0 (list.last nums) in
      let lastBytes := 5 - Z.of_nat len in
      if 256 ^ lastBytes <=? last then None
      else
        let init := take (len - 1) nums in
        if existsb (fun n => 255 <? n) init then None
        else Some (init ++ map (b256 last) (reverse (seqZ 0 lastBytes)))
  end.

(** [/^[0-9a-fA-F]{1,4}$/] and its value. *)
Definition group_value (h : list ascii) : option Z :=
  if Nat.leb 1 (length h) && Nat.leb (length h) 4 then numeral 16 0 h else None.

(* @src tools/web/ip.ts 79 87 toGroups *)
Definition toGroups (part : list ascii) : option (list Z) :=
  match part with [] => Some [] | _ => mapM group_value (split_on ":" part) end.

(** The positions at which "::" occurs. *)
Fixpoint doubles (i : nat) (l : list ascii) : list nat :=
  match l with
  | x :: ((y :: _) as r) => (if Ascii.eqb x ":" && Ascii.eqb y ":" then [i] else []) ++ doubles (S i) r
  | _ => []
  end.

(** The text up to and including the last colon, and what follows it. *)
Fixpoint last_colon (l : list ascii) : option (list ascii * list ascii) :=
  match l with
  | [] => None
  | c :: r => match last_colon r with
              | Some (a, b) => Some (c :: a, b)
              | None => if Ascii.eqb c ":" then Some ([c], r) else None
              end
  end.

Definition v6_char (c : ascii) : bool :=
  match hex_value c with Some _ => true | None => Ascii.eqb c ":" || Ascii.eqb c "." end.

Definition two_bytes (g : Z) : list Z := [Z.shiftr g 8; Z.land g 255].

(* @src tools/web/ip.ts 89 102 parseV6 *)
Definition v6_groups (head : list ascii) (tail : list Z) : option (list Z) :=
  match doubles 0 head with
  | _ :: _ :: _ => None
  | [d] =>
      match toGroups (take d head), toGroups (drop (d + 2) head) with
      | Some a, Some b =>
          let fill := 8 - Z.of_nat (length a) - Z.of_nat (length b) - Z.of_nat (length tail) in
          if fill <? 1 then None else Some (a ++ replicate (Z.to_nat fill) 0 ++ b ++ tail)
      | _, _ => None
      end
  | [] => match toGroups head with Some a => Some (a ++ tail) | None => None end
  end.

(* @src tools/web/ip.ts 67 110 parseV6 *)
Definition parseV6 (s : list ascii) : option (list Z) :=
  if negb (bool_decide (s <> []) && forallb v6_char s && has ":" s) then None
  else match last_colon s with
  | None => None
  | Some (pre, post) =>
      let dotted := has "." post in
      match (if dotted then parseV4 post true else Some []) with
      | None => None
      | Some v4 =>
          let word i := Z.lor (Z.shiftl (default 0 (v4 !! i)) 8) (default 0 (v4 !! S i)) in
          let tail := if dotted then [word 0%nat; word 2%nat] else [] in
          let two := match reverse pre with x :: y :: _ => Ascii.eqb x ":" && Ascii.eqb y ":" | _ => false end in
          let head := if dotted then (if two then pre else take (length pre - 1) pre) else s in
          match v6_groups head tail with
          | None => None
          | Some groups => if Nat.eqb (length groups) 8 then Some (groups ≫= two_bytes) else None
          end
      end
  end.

Definition trim_chars (l : list ascii) : list ascii := reverse (drop_space (reverse (drop_space l))).

(** The text between brackets, or the text. *)
Definition unbracket (s : list ascii) : list ascii :=
  match s with
  | c :: r => match reverse r with
              | d :: m => if Ascii.eqb c "[" && Ascii.eqb d "]" then reverse m else s
              | [] => s
              end
  | [] => s
  end.

(* @src tools/web/ip.ts 113 123 parseAddress *)
Definition parseAddress (input : list ascii) (strict : bool) : option ParsedAddress :=
  let s := unbracket (trim_chars input) in
  if bool_decide (s = []) then None
  else if has ":" s then option_map (fun b => {| a_family := F6; a_bytes := b |}) (parseV6 s)
  else option_map (fun b => {| a_family := F4; a_bytes := b |}) (parseV4 s strict).

(** [/^[0-9]{1,3}$/] and its value. *)
Definition prefix_value (s : list ascii) : option Z :=
  if Nat.leb 1 (length s) && Nat.leb (length s) 3 then numeral 10 0 s else None.

(* @src tools/web/ip.ts 192 205 parseCidr *)
Definition parseCidr (input : list ascii) : option Cidr :=
  let parts := split_on "/" input in
  if Nat.ltb 2 (length parts) then None
  else match parseAddress (default [] (head parts)) true with
  | None => None
  | Some a =>
      let max := match a_family a with F4 => 32 | F6 => 128 end in
      match parts with
      | [_; p] => match prefix_value p with
                  | Some prefix => if max <? prefix then None else Some {| r_family := a_family a; r_bytes := a_bytes a; r_prefix := prefix |}
                  | None => None
                  end
      | _ => Some {| r_family := a_family a; r_bytes := a_bytes a; r_prefix := max |}
      end
  end.

(** ** Classification *)

Definition byte (b : list Z) (i : nat) : Z := default 0 (b !! i).
Definition zeros (b : list Z) : bool := forallb (fun x => x =? 0) b.

(* @src tools/web/ip.ts 125 125 isV4Mapped *)
Definition isV4Mapped (b : list Z) : bool := zeros (take 10 b) && (byte b 10 =? 255) && (byte b 11 =? 255).

(* @src tools/web/ip.ts 128 130 canonical *)
Definition canonical (a : ParsedAddress) : ParsedAddress :=
  if bool_decide (a_family a = F6) && isV4Mapped (a_bytes a) then {| a_family := F4; a_bytes := drop 12 (a_bytes a) |} else a.

(** The loop over the bytes: whole bytes while eight bits are left, then a mask. *)
(* @src tools/web/ip.ts 183 188 inCidr *)
Fixpoint bytes_match (x c : list Z) (bits : Z) : bool :=
  if bits <=? 0 then true
  else
    let mask := if 8 <=? bits then 255 else Z.land (Z.shiftl 255 (8 - bits)) 255 in
    match x, c with
    | a :: x', b :: c' => (Z.land a mask =? Z.land b mask) && bytes_match x' c' (bits - 8)
    | _, _ => true
    end.

(* @src tools/web/ip.ts 180 189 inCidr *)
Definition inCidr (a : ParsedAddress) (c : Cidr) : bool :=
  let addr := canonical a in
  bool_decide (a_family addr = r_family c) && bytes_match (a_bytes addr) (r_bytes c) (r_prefix c).

(** A literal that does not parse is not registered. *)
(* @src tools/web/ip.ts 135 141 addV4 *)
Definition registered (rows : list (string * string)) : list (Cidr * string) :=
  omap (fun p => option_map (fun c => (c, p.2)) (parseCidr (chars p.1))) rows.

(* @src tools/web/ip.ts 142 157 addV4 *)
Definition v4Ranges : list (Cidr * string) := Eval vm_compute in registered
  [("0.0.0.0/8", "unspecified"); ("10.0.0.0/8", "private"); ("100.64.0.0/10", "shared-address-space"); ("127.0.0.0/8", "loopback");
   ("169.254.0.0/16", "link-local"); ("168.63.129.16/32", "cloud-metadata"); ("172.16.0.0/12", "private"); ("192.0.0.0/24", "reserved");
   ("192.0.2.0/24", "reserved"); ("192.88.99.0/24", "reserved"); ("192.168.0.0/16", "private"); ("198.18.0.0/15", "reserved");
   ("198.51.100.0/24", "reserved"); ("203.0.113.0/24", "reserved"); ("224.0.0.0/4", "multicast"); ("240.0.0.0/4", "reserved")].

(* @src tools/web/ip.ts 159 178 addV6 *)
Definition v6Ranges : list (Cidr * string) := Eval vm_compute in registered
  [("::/128", "unspecified"); ("::1/128", "loopback"); ("::/96", "reserved"); ("64:ff9b:1::/48", "reserved"); ("100::/64", "reserved");
   ("2001::/23", "reserved"); ("2001:db8::/32", "reserved"); ("3fff::/20", "reserved"); ("fc00::/7", "private"); ("fe80::/10", "link-local");
   ("fec0::/10", "reserved"); ("ff00::/8", "multicast")].

Definition first_range (a : ParsedAddress) (l : list (Cidr * string)) : option string :=
  option_map snd (bfind (fun p => inCidr a p.1) l).

(* @src tools/web/ip.ts 207 212 classifyV4 *)
Definition classifyV4 (bytes : list Z) : Verdict :=
  if forallb (fun x => x =? 255) bytes then NotPublic "reserved"
  else match first_range {| a_family := F4; a_bytes := bytes |} v4Ranges with Some r => NotPublic r | None => Public end.

(* @src tools/web/ip.ts 214 226 classifyAddress *)
Definition classifyAddress (input : ParsedAddress) : Verdict :=
  let a := canonical input in
  match a_family a with
  | F4 => classifyV4 (a_bytes a)
  | F6 =>
      let b := a_bytes a in
      let w i := Z.lor (Z.shiftl (byte b i) 8) (byte b (S i)) in
      if (w 0%nat =? 100) && (w 2%nat =? 65435) && zeros (take 8 (drop 4 b)) then classifyV4 (drop 12 b)
      else if w 0%nat =? 8194 then classifyV4 (take 4 (drop 2 b))
      else match first_range a v6Ranges with
           | Some r => NotPublic r
           | None => if Z.land (byte b 0) 224 =? 32 then Public else NotPublic "reserved"
           end
  end.

(* @src tools/web/ip.ts 234 237 classificationTable *)
Definition classificationTable : list (Cidr * string) := v4Ranges ++ v6Ranges.

(** ** The lowest public address of a range *)

(* @src tools/web/ip.ts 241 244 Span *)
Record Span : Type := { base : Z; s_prefix : Z }.

(* @src tools/web/ip.ts 245 251 Family *)
Record Family : Type := { width : Z; closed : list Span; embedded : list Span }.

(* @src tools/web/ip.ts 253 253 bigOf *)
Definition bigOf (bytes : list Z) : Z := foldl (fun n b => Z.lor (Z.shiftl n 8) b) 0 bytes.

(* @src tools/web/ip.ts 254 257 maskTo *)
Definition maskTo (n w p : Z) : Z := Z.shiftl (Z.shiftr n (w - p)) (w - p).

(* @src tools/web/ip.ts 258 258 spanFrom *)
Definition spanFrom (c : Cidr) (w : Z) : Span := {| base := maskTo (bigOf (r_bytes c)) w (r_prefix c); s_prefix := r_prefix c |}.

(** The literals below all parse. *)
(* @src tools/web/ip.ts 259 259 spanOf *)
Definition spanOf (cidr : string) (w : Z) : Span :=
  match parseCidr (chars cidr) with Some c => spanFrom c w | None => {| base := 0; s_prefix := 0 |} end.

(* @src tools/web/ip.ts 260 261 covers *)
Definition covers (outer inner : Span) (w : Z) : bool :=
  (s_prefix outer <=? s_prefix inner) && (maskTo (base inner) w (s_prefix outer) =? base outer).

(* @src tools/web/ip.ts 265 269 FAMILY_V4 *)
Definition FAMILY_V4 : Family := Eval vm_compute in
  {| width := 32; closed := map (fun p => spanFrom p.1 32) v4Ranges ++ [spanOf "255.255.255.255/32" 32]; embedded := [] |}.

(* @src tools/web/ip.ts 270 280 FAMILY_V6 *)
Definition FAMILY_V6 : Family := Eval vm_compute in
  {| width := 128;
     closed := map (fun p => spanFrom p.1 128) v6Ranges ++ [spanOf "::/3" 128; spanOf "4000::/2" 128; spanOf "8000::/1" 128];
     embedded := [spanOf "::ffff:0:0/96" 128; spanOf "64:ff9b::/96" 128; spanOf "2002::/16" 128] |}.

(** The outer [None] is out of fuel; the inner one is the [null] of the source. *)
(* @src tools/web/ip.ts 282 301 firstPublic *)
Fixpoint firstPublic (fuel : nat) (f v4 : Family) (b p : Z) : option (option Z) :=
  match fuel with
  | O => None
  | S fuel =>
      let w := width f in
      let range := {| base := maskTo b w p; s_prefix := p |} in
      match bfind (fun e => covers e range w) (embedded f) with
      | Some e =>
          let shift := w - s_prefix e - 32 in
          let carriedPrefix := Z.min 32 (p - s_prefix e) in
          let carried := maskTo (Z.land (Z.shiftr (base range) shift) 4294967295) 32 carriedPrefix in
          found ← firstPublic fuel v4 v4 carried carriedPrefix;
          Some (match found with
                | None => None
                | Some x => Some (Z.lor (Z.land (base range) (Z.lnot (Z.shiftl 4294967295 shift))) (Z.shiftl x shift))
                end)
      | None =>
          let holdsEmbedded := existsb (fun e => covers range e w) (embedded f) in
          if negb holdsEmbedded && existsb (fun c => covers c range w) (closed f) then Some None
          else if negb holdsEmbedded && negb (existsb (fun c => covers range c w) (closed f)) then Some (Some (base range))
          else if w <=? p then Some None
          else
            lower ← firstPublic fuel f v4 (base range) (p + 1);
            match lower with
            | Some x => Some (Some x)
            | None => firstPublic fuel f v4 (Z.lor (base range) (Z.shiftl 1 (w - p - 1))) (p + 1)
            end
      end
  end.

(** The low bytes of [n], most significant first. *)
Definition to_bytes (len : nat) (n : Z) : list Z :=
  map (fun i => Z.land (Z.shiftr n (8 * Z.of_nat i)) 255) (reverse (seq 0 len)).

(** Halving a range ends after at most its width, and a carried range after 33 steps more. *)
Definition fuel_for (w : Z) : nat := Z.to_nat (w + 35).

(* @src tools/web/ip.ts 309 316 cidrContainsPublic *)
Definition cidrContainsPublic (c : Cidr) : option (option ParsedAddress) :=
  let f := match r_family c with F4 => FAMILY_V4 | F6 => FAMILY_V6 end in
  found ← firstPublic (fuel_for (width f)) f FAMILY_V4 (bigOf (r_bytes c)) (r_prefix c);
  Some (option_map (fun n => {| a_family := r_family c; a_bytes := to_bytes (Z.to_nat (width f / 8)) n |}) found).
