(* ===== verification/NetSpan.v ===== *)
(** * Aligned ranges and the search for a public address

    Facts on [NetIp.firstPublic] for any family of aligned ranges: two aligned ranges
    are nested or disjoint, and the halving search ends with the lowest address that
    no closed range holds. *)

From S2P Require Import Prelude NetIp.

(** ** Masks as division *)

Lemma maskTo_div n w p : p <= w -> maskTo n w p = n / 2 ^ (w - p) * 2 ^ (w - p).
Proof. intros H. unfold maskTo. by rewrite Z.shiftl_mul_pow2, Z.shiftr_div_pow2 by lia. Qed.

Lemma pow_split a b : 0 <= a <= b -> 2 ^ b = 2 ^ a * 2 ^ (b - a).
Proof. intros H. rewrite <- Z.pow_add_r by lia. f_equal. lia. Qed.

Lemma pow_pos k : 0 <= k -> 0 < 2 ^ k.
Proof. intros H. apply Z.pow_pos_nonneg; lia. Qed.

(** Dropping low bits commutes with keeping a window of bits. *)
Lemma div_mod_window x a b : 0 <= a <= b -> (x mod 2 ^ b) / 2 ^ a = (x / 2 ^ a) mod 2 ^ (b - a).
Proof.
  intros H. pose proof (pow_pos a ltac:(lia)). pose proof (pow_pos (b - a) ltac:(lia)).
  rewrite (pow_split a b H), Z.rem_mul_r by lia. rewrite Z.mul_comm, Z.div_add by lia.
  rewrite Z.div_small by (apply Z.mod_pos_bound; lia). lia.
Qed.

Lemma div_div_pow x a b : 0 <= a -> 0 <= b -> x / 2 ^ a / 2 ^ b = x / 2 ^ (a + b).
Proof. intros. rewrite Z.div_div by (try apply pow_pos; lia). by rewrite <- Z.pow_add_r by lia. Qed.

Lemma maskTo_coarser x w p q : q <= p <= w -> maskTo (maskTo x w p) w q = maskTo x w q.
Proof.
  intros H. rewrite !maskTo_div by lia. f_equal. replace (w - q) with (w - p + (p - q)) by lia.
  rewrite <- div_div_pow by lia. pose proof (pow_pos (w - p) ltac:(lia)). rewrite Z.div_mul by lia.
  rewrite div_div_pow by lia. reflexivity.
Qed.

Lemma maskTo_finer x w p q : p <= q <= w -> maskTo (maskTo x w p) w q = maskTo x w p.
Proof.
  intros H. rewrite (maskTo_div _ w q) by lia. rewrite (maskTo_div x w p) by lia.
  rewrite (pow_split (w - q) (w - p)) by lia. replace (w - p - (w - q)) with (q - p) by lia.
  set (h := x / _). pose proof (pow_pos (w - q) ltac:(lia)).
  replace (h * (2 ^ (w - q) * 2 ^ (q - p))) with (h * 2 ^ (q - p) * 2 ^ (w - q)) by lia. rewrite Z.div_mul by lia. reflexivity.
Qed.

Lemma maskTo_same x w p : p <= w -> maskTo (maskTo x w p) w p = maskTo x w p.
Proof. intros. apply maskTo_coarser. lia. Qed.

(** ** Ranges *)

(** The range holds [x]. *)
Definition holds (w : Z) (s : Span) (x : Z) : bool := maskTo x w (s_prefix s) =? base s.

(** The host bits of the base are zero. *)
Definition aligned (w : Z) (s : Span) : Prop := 0 <= s_prefix s <= w /\ maskTo (base s) w (s_prefix s) = base s.

Definition range_of (w b p : Z) : Span := {| base := maskTo b w p; s_prefix := p |}.

Lemma range_aligned w b p : 0 <= p <= w -> aligned w (range_of w b p).
Proof. intros H. split; [done|]. apply maskTo_same. cbn. lia. Qed.

Lemma holds_interval w s x : aligned w s -> holds w s x = true <-> base s <= x < base s + 2 ^ (w - s_prefix s).
Proof.
  intros [Hp Ha]. unfold holds. rewrite Z.eqb_eq, maskTo_div in * by lia. pose proof (pow_pos (w - s_prefix s) ltac:(lia)).
  revert Ha. set (k := 2 ^ (w - s_prefix s)) in *. intros Ha. pose proof (Z.div_mod x k ltac:(lia)). pose proof (Z.mod_pos_bound x k ltac:(lia)).
  split; [intros E; lia|]. intros Hx. assert (E : x / k = base s / k) by (symmetry; apply Z.div_unique with (x - base s); lia). by rewrite E.
Qed.

Lemma holds_base w s : aligned w s -> holds w s (base s) = true.
Proof. intros [_ H]. unfold holds. by rewrite H, Z.eqb_refl. Qed.

Lemma covers_holds w o i x : aligned w o -> aligned w i -> covers o i w = true -> holds w i x = true -> holds w o x = true.
Proof.
  intros [Ho _] [Hi _] Hc Hx. unfold covers, holds in *. bool_hyps. apply Z.eqb_eq.
  rewrite <- (maskTo_coarser x w (s_prefix i)) by lia. congruence.
Qed.

(** Two aligned ranges that share an address are nested. *)
Lemma nested w o i x : aligned w o -> aligned w i -> holds w o x = true -> holds w i x = true -> covers o i w = true \/ covers i o w = true.
Proof.
  intros [Ho _] [Hi _] Hx Hy. unfold covers, holds in *. bool_hyps. destruct (Z.le_gt_cases (s_prefix o) (s_prefix i)).
  - left. apply andb_true_iff. rewrite Z.leb_le, Z.eqb_eq. split; [done|]. by rewrite <- Hy, maskTo_coarser by lia.
  - right. apply andb_true_iff. rewrite Z.leb_le, Z.eqb_eq. split; [lia|]. by rewrite <- Hx, maskTo_coarser by lia.
Qed.

Lemma apart w o i x : aligned w o -> aligned w i -> covers o i w = false -> covers i o w = false -> holds w i x = true -> holds w o x = false.
Proof. intros Ho Hi H1 H2 Hx. destruct (holds w o x) eqn:E; [|done]. destruct (nested w o i x Ho Hi E Hx); congruence. Qed.

(** A union with low bits that are free is a sum. *)
Lemma lor_high h k l : 0 <= k -> 0 <= l < 2 ^ k -> Z.lor (Z.shiftl h k) l = Z.shiftl h k + l.
Proof.
  intros Hk Hl. assert (E : Z.land (Z.shiftl h k) l = 0).
  { apply Z.bits_inj'. intros i Hi. rewrite Z.land_spec, Z.bits_0, Z.shiftl_spec by lia. destruct (Z.lt_ge_cases i k) as [C|C].
    - by rewrite Z.testbit_neg_r by lia.
    - rewrite <- (Z.mod_small l (2 ^ k)), Z.mod_pow2_bits_high by lia. apply andb_false_r. }
  by rewrite Z.add_nocarry_lxor, Z.lxor_lor.
Qed.

(** The two halves of a range. *)
Lemma halves w b p x : 0 <= p < w -> let r := range_of w b p in let up := Z.lor (base r) (Z.shiftl 1 (w - p - 1)) in
  maskTo (base r) w (p + 1) = base r /\ maskTo up w (p + 1) = up /\ up = base r + 2 ^ (w - p - 1)
  /\ (holds w r x = true <-> holds w (range_of w (base r) (p + 1)) x = true \/ holds w (range_of w up (p + 1)) x = true).
Proof.
  intros Hp. cbv zeta. set (r := range_of w b p). set (up := Z.lor _ _).
  assert (Hr : aligned w r) by (apply range_aligned; lia).
  assert (E1 : maskTo (base r) w (p + 1) = base r) by (apply maskTo_finer; lia).
  assert (Eu : up = base r + 2 ^ (w - p - 1)).
  { unfold up. rewrite Z.shiftl_1_l. cbn [r range_of base]. unfold maskTo. apply lor_high; [lia|]. split; [apply Z.pow_nonneg; lia|].
    apply Z.pow_lt_mono_r; lia. }
  assert (E2 : maskTo up w (p + 1) = up).
  { rewrite Eu, maskTo_div by lia. rewrite <- E1 at 1 2. rewrite maskTo_div by lia. replace (w - (p + 1)) with (w - p - 1) by lia.
    set (k := 2 ^ (w - p - 1)). pose proof (pow_pos (w - p - 1) ltac:(lia)). rewrite Z.div_add_l by lia. rewrite Z.div_same by lia.
    replace ((base r / k + 1) * k) with (base r / k * k + k) by lia. reflexivity. }
  split_and!; try done. rewrite !holds_interval by (try apply range_aligned; try done; lia). cbn [range_of base s_prefix]. rewrite E1, E2, Eu.
  change (maskTo b w p) with (base r). change (s_prefix r) with p. replace (w - (p + 1)) with (w - p - 1) by lia.
  assert (2 ^ (w - p) = 2 ^ (w - p - 1) + 2 ^ (w - p - 1)) by (rewrite (pow_split (w - p - 1) (w - p)) by lia; replace (w - p - (w - p - 1)) with 1 by lia; lia).
  pose proof (pow_pos (w - p - 1) ltac:(lia)). lia.
Qed.

(** ** What the search looks for *)

(** The IPv4 address that [x] carries in the block [e]. *)
Definition carry (w : Z) (e : Span) (x : Z) : Z := Z.land (Z.shiftr x (w - s_prefix e - 32)) 4294967295.

Definition open_at (f : Family) (x : Z) : bool := negb (existsb (fun c => holds (width f) c x) (closed f)).

(** The verdict the family gives: the carried address inside an embedding block, the closed ranges elsewhere. *)
Definition verdict (f v4 : Family) (x : Z) : bool :=
  match bfind (fun e => holds (width f) e x) (embedded f) with
  | Some e => open_at v4 (carry (width f) e x)
  | None => open_at f x
  end.

(** [o] is the lowest address of [r] with the property, or there is none. *)
Definition lowest (P : Z -> bool) (w : Z) (r : Span) (o : option Z) : Prop :=
  match o with
  | None => forall x, holds w r x = true -> P x = false
  | Some y => holds w r y = true /\ P y = true /\ forall x, holds w r x = true -> x < y -> P x = false
  end.

Record well_formed (f : Family) : Prop := {
  wf_width : 0 <= width f;
  wf_closed : forall c, c ∈ closed f -> aligned (width f) c;
  wf_embedded : forall e, e ∈ embedded f -> aligned (width f) e /\ s_prefix e + 32 <= width f;
  wf_apart : forall e e' x, e ∈ embedded f -> e' ∈ embedded f -> holds (width f) e x = true -> holds (width f) e' x = true -> e = e'
}.

(** ** A range inside an embedding block *)

Lemma carry_div w e x : 0 <= w - s_prefix e - 32 -> carry w e x = (x / 2 ^ (w - s_prefix e - 32)) mod 2 ^ 32.
Proof. intros H. unfold carry. change 4294967295 with (Z.ones 32). rewrite Z.land_ones by lia. by rewrite Z.shiftr_div_pow2. Qed.

Lemma carry_range w e x : 0 <= w - s_prefix e - 32 -> 0 <= carry w e x < 2 ^ 32.
Proof. intros H. rewrite carry_div by lia. apply Z.mod_pos_bound. lia. Qed.

(** An address is the part before the carried one, the carried one and the part after it. *)
Lemma carry_parts w e x : let s := w - s_prefix e - 32 in 0 <= s ->
  x = x / 2 ^ (w - s_prefix e) * 2 ^ (s + 32) + carry w e x * 2 ^ s + x mod 2 ^ s.
Proof.
  cbv zeta. intros H. rewrite carry_div by lia. set (s := w - s_prefix e - 32) in *. pose proof (pow_pos s H).
  replace (w - s_prefix e) with (s + 32) by lia. rewrite <- (div_div_pow x s 32) by lia.
  rewrite Z.pow_add_r by lia. pose proof (Z.div_mod x (2 ^ s) ltac:(lia)). pose proof (Z.div_mod (x / 2 ^ s) (2 ^ 32) ltac:(lia)). nia.
Qed.

(** Addresses of one range agree above its host bits. *)
Lemma holds_high w s x k : 0 <= s_prefix s <= w -> w - s_prefix s <= k -> holds w s x = true -> x / 2 ^ k = base s / 2 ^ k.
Proof.
  intros Hp Hk Hx. unfold holds in Hx. apply Z.eqb_eq in Hx. rewrite maskTo_div in Hx by lia. rewrite <- Hx.
  replace k with (w - s_prefix s + (k - (w - s_prefix s))) by lia. rewrite <- !div_div_pow by lia.
  rewrite Z.div_mul by (pose proof (pow_pos (w - s_prefix s) ltac:(lia)); lia). reflexivity.
Qed.

(** The base of a range is lowest in every window of low bits. *)
Lemma base_low w s x k : aligned w s -> 0 <= k -> holds w s x = true -> base s mod 2 ^ k <= x mod 2 ^ k.
Proof.
  intros [Hp _] Hk Hx. unfold holds in Hx. apply Z.eqb_eq in Hx. rewrite maskTo_div in Hx by lia. rewrite <- Hx. set (h := w - s_prefix s) in *.
  pose proof (pow_pos h ltac:(lia)). pose proof (pow_pos k Hk). destruct (Z.le_gt_cases k h) as [C|C].
  - rewrite (pow_split k h) by lia. replace (x / (2 ^ k * 2 ^ (h - k)) * (2 ^ k * 2 ^ (h - k))) with (x / (2 ^ k * 2 ^ (h - k)) * 2 ^ (h - k) * 2 ^ k) by lia.
    rewrite Z.mod_mul by lia. apply Z.mod_pos_bound. lia.
  - assert (E : (x / 2 ^ h * 2 ^ h) mod 2 ^ k = (x mod 2 ^ k) / 2 ^ h * 2 ^ h).
    { rewrite div_mod_window by lia. rewrite (pow_split h k), (Z.mul_comm (2 ^ h)) by lia. apply Zmult_mod_distr_r. }
    rewrite E, Z.mul_comm. apply Z.mul_div_le. lia.
Qed.

(** Membership as agreement above the host bits. *)
Lemma holds_div w s x : aligned w s -> holds w s x = true <-> x / 2 ^ (w - s_prefix s) = base s / 2 ^ (w - s_prefix s).
Proof.
  intros [Hp Ha]. unfold holds. rewrite Z.eqb_eq, maskTo_div in * by lia. pose proof (pow_pos (w - s_prefix s) ltac:(lia)).
  split; [intros <-; rewrite Z.div_mul by lia; reflexivity|]. intros ->. exact Ha.
Qed.

(** The address of the block that carries [y], next to [b]. *)
Definition put (s b y : Z) : Z := Z.lor (Z.land b (Z.lnot (Z.shiftl 4294967295 s))) (Z.shiftl y s).

Lemma put_parts s b y : 0 <= s -> 0 <= y < 2 ^ 32 -> put s b y = b / 2 ^ (s + 32) * 2 ^ (s + 32) + y * 2 ^ s + b mod 2 ^ s.
Proof.
  intros Hs Hy. pose proof (Z.mod_pos_bound b (2 ^ s) ltac:(apply pow_pos; lia)).
  transitivity (Z.lor (Z.shiftl (Z.lor (Z.shiftl (Z.shiftr b (s + 32)) 32) y) s) (b mod 2 ^ s)).
  - unfold put. apply Z.bits_inj'. intros i Hi. rewrite <- Z.land_ones by lia. change 4294967295 with (Z.ones 32).
    rewrite !Z.lor_spec, !Z.land_spec, Z.lnot_spec, !Z.shiftl_spec, Z.lor_spec, !Z.testbit_ones by lia.
    destruct (Z.lt_ge_cases i s) as [C|C].
    + rewrite !(Z.testbit_neg_r _ (i - s)) by lia.
      replace (0 <=? i - s) with false by (symmetry; apply Z.leb_gt; lia). replace (0 <=? i) with true by (symmetry; apply Z.leb_le; lia).
      replace (i <? s) with true by (symmetry; apply Z.ltb_lt; lia). cbn. destruct (Z.testbit b i); reflexivity.
    + replace (i <? s) with false by (symmetry; apply Z.ltb_ge; lia). replace (0 <=? i - s) with true by (symmetry; apply Z.leb_le; lia).
      rewrite !andb_false_r, orb_false_r. rewrite Z.shiftl_spec by lia. destruct (Z.lt_ge_cases (i - s) 32) as [D|D].
      * replace (i - s <? 32) with true by (symmetry; apply Z.ltb_lt; lia). rewrite (Z.testbit_neg_r _ (i - s - 32)) by lia. cbn. by rewrite andb_false_r.
      * replace (i - s <? 32) with false by (symmetry; apply Z.ltb_ge; lia). rewrite Z.shiftr_spec by lia.
        replace (i - s - 32 + (s + 32)) with i by lia. rewrite <- (Z.mod_small y (2 ^ 32)) by lia. rewrite Z.mod_pow2_bits_high by lia. cbn. by rewrite andb_true_r.
  - rewrite lor_high by lia. rewrite lor_high by lia. rewrite !Z.shiftl_mul_pow2, Z.shiftr_div_pow2 by lia. rewrite Z.pow_add_r by lia. lia.
Qed.

Section embedded_range.
Context (w : Z) (e r : Span) (Ae : aligned w e) (Ar : aligned w r) (Hroom : s_prefix e + 32 <= w) (Hc : covers e r w = true).

Notation s := (w - s_prefix e - 32).
Notation q := (Z.min 32 (s_prefix r - s_prefix e)).
Definition carried : Span := range_of 32 (carry w e (base r)) q.

Lemma embedded_prefix : 0 <= s_prefix e <= s_prefix r /\ s_prefix r <= w.
Proof. destruct Ae as [? _], Ar as [? _]. unfold covers in Hc. bool_hyps. lia. Qed.

Lemma carried_aligned : aligned 32 carried.
Proof. pose proof embedded_prefix. apply range_aligned. lia. Qed.

Lemma carried_holds x : holds w r x = true -> holds 32 carried (carry w e x) = true.
Proof.
  pose proof embedded_prefix as Hp. intros Hx. unfold holds, carried. cbn [range_of base s_prefix]. apply Z.eqb_eq. rewrite !maskTo_div by lia. f_equal.
  rewrite !carry_div by lia. rewrite !div_mod_window by lia. rewrite !div_div_pow by lia. f_equal.
  apply (holds_high w r x); [lia|lia|done].
Qed.

Lemma put_carry y : 0 <= y < 2 ^ 32 -> carry w e (put s (base r) y) = y.
Proof.
  pose proof embedded_prefix as Hp. intros Hy. rewrite carry_div, put_parts by lia. rewrite Z.pow_add_r by lia. pose proof (pow_pos s ltac:(lia)).
  pose proof (Z.mod_pos_bound (base r) (2 ^ s) ltac:(lia)). set (h := base r / _). set (l := base r mod _) in *.
  replace (h * (2 ^ s * 2 ^ 32) + y * 2 ^ s + l) with (l + (h * 2 ^ 32 + y) * 2 ^ s) by lia. rewrite Z.div_add, Z.div_small by lia.
  rewrite Z.add_0_l, Z.add_comm, Z.mod_add by lia. by apply Z.mod_small.
Qed.

Lemma put_same : put s (base r) (carry w e (base r)) = base r.
Proof.
  pose proof embedded_prefix as Hp. rewrite put_parts by (try apply carry_range; lia).
  pose proof (carry_parts w e (base r)) as E. cbv zeta in E. specialize (E ltac:(lia)).
  replace (w - s_prefix e) with (s + 32) in E at 1 by lia. by symmetry.
Qed.

Lemma put_holds y : 0 <= y < 2 ^ 32 -> holds 32 carried y = true -> holds w r (put s (base r) y) = true.
Proof.
  pose proof embedded_prefix as Hp. intros Hy Hh. apply (holds_div 32 carried _ carried_aligned) in Hh. cbn [carried range_of base s_prefix] in Hh.
  rewrite maskTo_div, Z.div_mul in Hh by (try (pose proof (pow_pos (32 - q) ltac:(lia))); lia). apply holds_div; [done|].
  pose proof put_same as E. revert E. rewrite !put_parts by (try apply carry_range; lia). set (c := carry _ _ _) in *. intros E.
  destruct (Z.le_gt_cases 32 (s_prefix r - s_prefix e)) as [C|C].
  - replace (32 - q) with 0 in Hh by lia. rewrite !Z.div_1_r in Hh. by rewrite Hh, E.
  - rewrite <- E at 3. pose proof (pow_pos s ltac:(lia)). pose proof (Z.mod_pos_bound (base r) (2 ^ s) ltac:(lia)).
    set (h := base r / 2 ^ (s + 32)) in *. set (l := base r mod _) in *. replace (w - s_prefix r) with (s + (32 - q)) by lia. rewrite <- !div_div_pow by lia.
    assert (F : forall z, (h * 2 ^ (s + 32) + z * 2 ^ s + l) / 2 ^ s / 2 ^ (32 - q) = h * 2 ^ q + z / 2 ^ (32 - q)).
    { intros z. rewrite Z.pow_add_r by lia. replace (h * (2 ^ s * 2 ^ 32) + z * 2 ^ s + l) with (l + (h * 2 ^ 32 + z) * 2 ^ s) by lia.
      rewrite Z.div_add, (Z.div_small l) by lia. rewrite Z.add_0_l. rewrite (pow_split (32 - q) 32) by lia. replace (32 - (32 - q)) with q by lia.
      replace (h * (2 ^ (32 - q) * 2 ^ q) + z) with (h * 2 ^ q * 2 ^ (32 - q) + z) by lia. by rewrite Z.div_add_l by (pose proof (pow_pos (32 - q) ltac:(lia)); lia). }
    rewrite !F. by rewrite Hh.
Qed.

Lemma put_lowest x y : holds w r x = true -> holds 32 carried y = true -> 0 <= y < 2 ^ 32 -> x < put s (base r) y -> carry w e x < y.
Proof.
  pose proof embedded_prefix as Hp. intros Hx Hh Hy Hlt. rewrite put_parts in Hlt by lia.
  pose proof (carry_parts w e x) as E. cbv zeta in E. specialize (E ltac:(lia)). pose proof (carry_range w e x ltac:(lia)).
  pose proof (base_low w r x s Ar ltac:(lia) Hx) as Hlow. pose proof (holds_high w r x (s + 32) ltac:(lia) ltac:(lia) Hx) as Hhi.
  replace (w - s_prefix e) with (s + 32) in E at 1 by lia. rewrite Hhi in E. pose proof (pow_pos s ltac:(lia)).
  pose proof (Z.mod_pos_bound (base r) (2 ^ s) ltac:(lia)). pose proof (Z.mod_pos_bound x (2 ^ s) ltac:(lia)). nia.
Qed.

(** The lowest carried address gives the lowest address of the range. *)
Lemma embedded_lowest P4 P o : (forall x, holds w r x = true -> P x = P4 (carry w e x)) -> lowest P4 32 carried o ->
  lowest P w r (option_map (put s (base r)) o).
Proof.
  pose proof embedded_prefix as Hp. intros HP. destruct o as [y|]; cbn [option_map lowest].
  - intros (Hy & Py & Hlow). assert (Hr : 0 <= y < 2 ^ 32).
    { apply (holds_interval 32 carried y carried_aligned) in Hy as Hi. cbn [carried range_of base s_prefix] in Hi.
      pose proof (carry_range w e (base r) ltac:(lia)) as Hcr. rewrite maskTo_div in Hi by lia. set (c := carry _ _ _) in *. set (k := 2 ^ (32 - q)) in *.
      assert (0 < k) by (apply pow_pos; lia). assert (2 ^ 32 = 2 ^ q * k) by (unfold k; rewrite (pow_split q 32) by lia; lia).
      assert (0 <= c / k < 2 ^ q) by (split; [apply Z.div_pos; lia|apply Z.div_lt_upper_bound; lia]). nia. }
    assert (Hput : holds w r (put s (base r) y) = true) by by apply put_holds. split_and!; [done|by rewrite HP, put_carry|].
    intros x Hx Hlt. rewrite HP by done. apply Hlow; [by apply carried_holds|by apply put_lowest].
  - intros Hn x Hx. rewrite HP by done. apply Hn. by apply carried_holds.
Qed.
End embedded_range.

(** ** The search *)

Section search.
Context (f v4 : Family) (Hf : well_formed f) (extra : nat) (Hextra : (1 <= extra)%nat).
Notation w := (width f).
(** The carried search, when there is one, has enough fuel. *)
Context (inner : forall e b p n, e ∈ embedded f -> 0 <= p <= 32 -> (extra <= S n)%nat ->
  exists o, firstPublic n v4 v4 b p = Some o /\ lowest (open_at v4) 32 (range_of 32 b p) o).

(** Inside an embedding block the verdict is that of the carried address. *)
Lemma verdict_embedded e x : e ∈ embedded f -> holds w e x = true -> verdict f v4 x = open_at v4 (carry w e x).
Proof.
  intros He Hx. unfold verdict. destruct (bfind_is_some (fun e => holds w e x) (embedded f) e He Hx) as [e' E]. rewrite E.
  apply bfind_some in E as [He' Hx']. by rewrite (wf_apart f Hf e e' x).
Qed.

(** A range that is neither inside nor around an embedding block is judged by the closed ranges alone. *)
Lemma verdict_plain r x : aligned w r -> (forall e, e ∈ embedded f -> covers e r w = false /\ covers r e w = false) ->
  holds w r x = true -> verdict f v4 x = open_at f x.
Proof.
  intros Ar Hn Hx. unfold verdict. destruct (bfind _ _) as [e|] eqn:E; [|done]. apply bfind_some in E as [He Hex].
  destruct (wf_embedded f Hf e He) as [Ae _]. destruct (Hn e He) as [H1 H2]. by rewrite (apart w e r x Ae Ar H1 H2 Hx) in Hex.
Qed.

Lemma plain_lowest r : aligned w r -> (forall c, c ∈ closed f -> covers r c w = false /\ covers c r w = false) ->
  lowest (open_at f) w r (Some (base r)).
Proof.
  intros Ar Hn. assert (Ho : open_at f (base r) = true).
  { unfold open_at. apply negb_true_iff. destruct (existsb _ _) eqn:E; [|done]. apply existsb_elem in E as (c & Hc & Hh).
    destruct (Hn c Hc) as [H1 H2]. by rewrite (apart w c r (base r) (wf_closed f Hf c Hc) Ar H2 H1 (holds_base w r Ar)) in Hh. }
  split_and!; [by apply holds_base|done|]. intros x Hx Hlt. apply holds_interval in Hx; [lia|done].
Qed.

Lemma lowest_ext P Q r o : (forall x, holds w r x = true -> P x = Q x) -> lowest P w r o -> lowest Q w r o.
Proof.
  intros H. destruct o as [y|]; cbn.
  - intros (Hy & Py & Hl). rewrite H in Py by done. split_and!; [done|done|]. intros x Hx Hlt. rewrite <- H by done. by apply Hl.
  - intros Hn x Hx. rewrite <- H by done. by apply Hn.
Qed.

Lemma holds_same r r' x : base r = base r' -> s_prefix r = s_prefix r' -> holds w r x = holds w r' x.
Proof. intros H1 H2. unfold holds. by rewrite H1, H2. Qed.

(** The lower half first, then the upper half. *)
Lemma halves_lowest P b p lo hi : 0 <= p < w -> let r := range_of w b p in let up := Z.lor (base r) (Z.shiftl 1 (w - p - 1)) in
  lowest P w (range_of w (base r) (p + 1)) lo -> (lo = None -> lowest P w (range_of w up (p + 1)) hi) ->
  lowest P w r (match lo with Some x => Some x | None => hi end).
Proof.
  cbv zeta. intros Hp Hlo Hhi. destruct (halves w b p 0 Hp) as (E1 & E2 & Eu & _). set (r := range_of w b p) in *. set (up := Z.lor _ _) in *.
  assert (Hx : forall x, holds w r x = true <-> holds w (range_of w (base r) (p + 1)) x = true \/ holds w (range_of w up (p + 1)) x = true)
    by (intros x; apply (halves w b p x Hp)).
  assert (Hlow : forall x, holds w (range_of w (base r) (p + 1)) x = true -> x < up).
  { intros x Hl. apply holds_interval in Hl; [|apply range_aligned; lia]. cbn [range_of base s_prefix] in Hl. rewrite E1 in Hl.
    replace (w - (p + 1)) with (w - p - 1) in Hl by lia. lia. }
  assert (Hup : forall x, holds w (range_of w up (p + 1)) x = true -> up <= x).
  { intros x Hl. apply holds_interval in Hl; [|apply range_aligned; lia]. cbn [range_of base s_prefix] in Hl. rewrite E2 in Hl. lia. }
  destruct lo as [y|].
  - destruct Hlo as (Hy & Py & Hl). split_and!; [apply Hx; by left|done|]. intros x [H|H]%Hx Hlt; [by apply Hl|]. apply Hup in H. apply Hlow in Hy. lia.
  - specialize (Hhi eq_refl). destruct hi as [y|]; cbn in *.
    + destruct Hhi as (Hy & Py & Hl). split_and!; [apply Hx; by right|done|]. intros x [H|H]%Hx Hlt; [by apply Hlo|by apply Hl].
    + intros x [H|H]%Hx; [by apply Hlo|by apply Hhi].
Qed.

(** The halves searched in order. *)
Lemma search_halves n b p : 0 <= p < w -> (Z.to_nat (w - p) + extra <= S n)%nat ->
  (forall b p, 0 <= p <= w -> (Z.to_nat (w - p) + extra <= n)%nat ->
     exists o, firstPublic n f v4 b p = Some o /\ lowest (verdict f v4) w (range_of w b p) o) ->
  exists o, (lower ← firstPublic n f v4 (base (range_of w b p)) (p + 1);
             match lower with
             | Some x => Some (Some x)
             | None => firstPublic n f v4 (Z.lor (base (range_of w b p)) (Z.shiftl 1 (w - p - 1))) (p + 1)
             end) = Some o /\ lowest (verdict f v4) w (range_of w b p) o.
Proof.
  intros Hp Hn IH. destruct (IH (base (range_of w b p)) (p + 1) ltac:(lia) ltac:(lia)) as (lo & E1 & L1). rewrite E1. cbn [mbind option_bind].
  destruct (IH (Z.lor (base (range_of w b p)) (Z.shiftl 1 (w - p - 1))) (p + 1) ltac:(lia) ltac:(lia)) as (hi & E2 & L2).
  exists (match lo with Some x => Some x | None => hi end). split; [by destruct lo|]. by apply halves_lowest.
Qed.

Theorem firstPublic_lowest n : forall b p, 0 <= p <= w -> (Z.to_nat (w - p) + extra <= n)%nat ->
  exists o, firstPublic n f v4 b p = Some o /\ lowest (verdict f v4) w (range_of w b p) o.
Proof.
  induction n as [|n IH]; intros b p Hp Hn; [lia|]. cbn [firstPublic]. set (r := range_of w b p).
  change {| base := maskTo b w p; s_prefix := p |} with r. assert (Ar : aligned w r) by (apply range_aligned; lia).
  destruct (bfind _ (embedded f)) as [e|] eqn:Ee.
  - apply bfind_some in Ee as [He Hc]. destruct (wf_embedded f Hf e He) as [Ae Hroom].
    assert (Hpe : 0 <= s_prefix e <= p) by (destruct Ae as [? _]; unfold covers in Hc; bool_hyps; cbn in *; lia).
    change (Z.land (Z.shiftr (base r) (w - s_prefix e - 32)) 4294967295) with (carry w e (base r)).
    destruct (inner e (maskTo (carry w e (base r)) 32 (Z.min 32 (p - s_prefix e))) (Z.min 32 (p - s_prefix e)) n He ltac:(lia) ltac:(lia)) as (o & Ho & Hlow).
    rewrite Ho. cbn [mbind option_bind]. eexists. split; [reflexivity|].
    assert (E : range_of 32 (maskTo (carry w e (base r)) 32 (Z.min 32 (p - s_prefix e))) (Z.min 32 (p - s_prefix e)) = carried w e r).
    { unfold carried, range_of. cbn [s_prefix]. f_equal. apply maskTo_same. lia. }
    rewrite E in Hlow. eapply (embedded_lowest w e r Ae Ar Hroom Hc (open_at v4)) in Hlow; [destruct o; exact Hlow|].
    intros x Hx. apply verdict_embedded; [done|]. by apply (covers_holds w e r).
  - assert (Hne : forall e, e ∈ embedded f -> covers e r w = false) by (intros e He; by apply (bfind_none _ _ e Ee)).
    destruct (existsb _ (embedded f)) eqn:Hh; cbn [negb andb].
    + assert (Hlt : p < w).
      { apply existsb_elem in Hh as (e & He & Hc). destruct (wf_embedded f Hf e He) as [_ ?]. unfold covers in Hc. bool_hyps. cbn in *. lia. }
      replace (w <=? p) with false by (symmetry; apply Z.leb_gt; lia). apply search_halves; [lia|exact Hn|exact IH].
    + assert (Hno : forall e, e ∈ embedded f -> covers e r w = false /\ covers r e w = false).
      { intros e He. split; [by apply Hne|]. by apply (existsb_false_elem _ _ _ Hh). }
      destruct (existsb (fun c => covers c r w) (closed f)) eqn:Hin; cbn [negb].
      { exists None. split; [done|]. intros x Hx. rewrite (verdict_plain r) by done. apply existsb_elem in Hin as (c & Hc & Hcov).
        unfold open_at. apply negb_false_iff, existsb_elem. exists c. split; [done|]. by apply (covers_holds w c r); [apply wf_closed| | |]. }
      destruct (existsb (fun c => covers r c w) (closed f)) eqn:Hout; cbn [negb].
      * assert (Hlt : p < w).
        { destruct (Z.lt_ge_cases p w) as [|Hge]; [done|]. exfalso. apply existsb_elem in Hout as (c & Hc & Hcov). destruct (wf_closed f Hf c Hc) as [Hpc Hac].
          apply (existsb_false_elem _ _ _ Hin) in Hc as Hcc. unfold covers in *. bool_hyps. cbn [r range_of s_prefix base] in *.
          apply andb_false_iff in Hcc. rewrite Z.leb_gt, Z.eqb_neq in Hcc. assert (s_prefix c = w) by lia. assert (p = w) by lia. subst p. destruct Hcc as [?|Hcc]; [lia|].
          apply Hcc. replace (s_prefix c) with w in * by lia. rewrite maskTo_same by lia. congruence. }
        replace (w <=? p) with false by (symmetry; apply Z.leb_gt; lia). apply search_halves; [lia|exact Hn|exact IH].
      * exists (Some (base r)). split; [done|]. apply (lowest_ext (open_at f)); [intros x Hx; symmetry; by apply (verdict_plain r)|].
        apply plain_lowest; [done|]. intros c Hc. split; [by apply (existsb_false_elem _ _ _ Hout)|by apply (existsb_false_elem _ _ _ Hin)].
Qed.
End search.
