(* ===== verification/NetIpSpec.v ===== *)
(** * What the address classification promises

    Theorems on [NetIp]: the byte loop of a range test is agreement of the leading
    bits; which IPv4 addresses are public, in plain numbers; the range search returns
    the lowest address that the classification calls public. *)

From S2P Require Import Prelude NetIp NetSpan.

(** ** Bytes and numbers *)

Definition bytes_ok (b : list Z) : Prop := forall x, x ∈ b -> 0 <= x < 256.
Definition size (f : family) : nat := match f with F4 => 4%nat | F6 => 16%nat end.

(** An address as the parser makes it. *)
Definition valid (a : ParsedAddress) : Prop := length (a_bytes a) = size (a_family a) /\ bytes_ok (a_bytes a).

Definition valid_range (c : Cidr) : Prop :=
  length (r_bytes c) = size (r_family c) /\ bytes_ok (r_bytes c) /\ 0 <= r_prefix c <= 8 * Z.of_nat (size (r_family c)).

Definition value (b : list Z) : Z := foldl (fun n x => n * 256 + x) 0 b.

Lemma bytes_ok_cons x b : bytes_ok (x :: b) <-> 0 <= x < 256 /\ bytes_ok b.
Proof. unfold bytes_ok. split; [intros H; split; [|intros y Hy]; apply H; by constructor|]. intros [H1 H2] y [->|Hy]%elem_of_cons; [done|by apply H2]. Qed.

Lemma bytes_ok_app x y : bytes_ok (x ++ y) <-> bytes_ok x /\ bytes_ok y.
Proof. unfold bytes_ok. setoid_rewrite elem_of_app. naive_solver. Qed.

Lemma bytes_ok_take n b : bytes_ok b -> bytes_ok (take n b).
Proof. intros H. rewrite <- (take_drop n b) in H. by apply bytes_ok_app in H as [? _]. Qed.

Lemma bytes_ok_drop n b : bytes_ok b -> bytes_ok (drop n b).
Proof. intros H. rewrite <- (take_drop n b) in H. by apply bytes_ok_app in H as [_ ?]. Qed.

Lemma bytes_okb b : forallb (fun x => (0 <=? x) && (x <? 256)) b = true -> bytes_ok b.
Proof. intros H x Hx. apply (proj1 (forallb_elem _ _) H) in Hx. bool_hyps. lia. Qed.

Lemma value_acc n b : foldl (fun n x => n * 256 + x) n b = n * 256 ^ Z.of_nat (length b) + value b.
Proof.
  revert n. unfold value. induction b as [|x b IH]; intros n; cbn [foldl length]; [change (Z.of_nat 0) with 0; lia|].
  rewrite (IH (n * 256 + x)), (IH (0 * 256 + x)), Nat2Z.inj_succ, Z.pow_succ_r by lia. lia.
Qed.

Lemma value_cons x b : value (x :: b) = x * 256 ^ Z.of_nat (length b) + value b.
Proof. unfold value at 1. cbn [foldl]. rewrite value_acc. lia. Qed.

Lemma value_app x y : value (x ++ y) = value x * 256 ^ Z.of_nat (length y) + value y.
Proof. unfold value at 1. rewrite foldl_app. apply value_acc. Qed.

Lemma value_range b : bytes_ok b -> 0 <= value b < 256 ^ Z.of_nat (length b).
Proof.
  induction b as [|x b IH]; [cbn; lia|]. intros [Hx Hb]%bytes_ok_cons. specialize (IH Hb). rewrite value_cons. cbn [length].
  rewrite Nat2Z.inj_succ, Z.pow_succ_r by lia. nia.
Qed.

Lemma bigOf_value b : bytes_ok b -> bigOf b = value b.
Proof.
  unfold bigOf, value. generalize 0. induction b as [|x b IH]; intros n; [done|]. intros [Hx Hb]%bytes_ok_cons. cbn [foldl].
  rewrite lor_high by lia. rewrite Z.shiftl_mul_pow2 by lia. by apply IH.
Qed.

Lemma value_inj x y : length x = length y -> bytes_ok x -> bytes_ok y -> value x = value y -> x = y.
Proof.
  revert y. induction x as [|a x IH]; intros [|b y] Hl; try done. injection Hl as Hl. intros [Ha Hx]%bytes_ok_cons [Hb Hy]%bytes_ok_cons.
  rewrite !value_cons, <- Hl. pose proof (value_range x Hx). pose proof (value_range y Hy) as Ry. rewrite <- Hl in Ry. intros E.
  assert (a = b) by nia. subst b. f_equal. apply IH; [done..|lia].
Qed.

(** The bytes from [m] on, [n] of them. *)
Lemma value_slice b m n : bytes_ok b -> (m + n <= length b)%nat ->
  value (take n (drop m b)) = (value b / 256 ^ Z.of_nat (length b - m - n)) mod 256 ^ Z.of_nat n.
Proof.
  intros Hb Hl. rewrite <- (take_drop m b) at 2. rewrite <- (take_drop n (drop m b)) at 2. rewrite !value_app.
  pose proof (value_range _ (bytes_ok_drop n _ (bytes_ok_drop m _ Hb))) as R2. pose proof (value_range _ (bytes_ok_take n _ (bytes_ok_drop m _ Hb))) as R1.
  assert (L1 : length (take n (drop m b)) = n) by (rewrite length_take, length_drop; lia).
  assert (L2 : length (drop n (drop m b)) = (length b - m - n)%nat) by (rewrite !length_drop; lia).
  rewrite length_app, L1, L2 in *. set (t := Z.of_nat (length b - m - n)) in *. rewrite Nat2Z.inj_add, Z.pow_add_r by lia. fold t.
  set (A := value (take m b)). set (B := value (take n (drop m b))) in *. set (C := value (drop n (drop m b))) in *.
  replace (A * (256 ^ Z.of_nat n * 256 ^ t) + (B * 256 ^ t + C)) with (C + (A * 256 ^ Z.of_nat n + B) * 256 ^ t) by lia.
  rewrite Z.div_add by lia. rewrite (Z.div_small C) by lia. rewrite Z.add_0_l, Z.add_comm, Z.mod_add by lia. by rewrite Z.mod_small by lia.
Qed.

Lemma pow_256 n : 256 ^ Z.of_nat n = 2 ^ (8 * Z.of_nat n).
Proof. rewrite Z.pow_mul_r by lia. reflexivity. Qed.

(** A test of every byte. *)
Lemma every_byte (P : Z -> bool) : forallb P (seqZ 0 256) = true -> forall x, 0 <= x < 256 -> P x = true.
Proof. intros H x Hx. apply (proj1 (forallb_elem _ _) H). apply elem_of_seqZ. lia. Qed.

Lemma byte_mask x k : 0 <= x < 256 -> 0 <= k <= 8 -> Z.land x (Z.land (Z.shiftl 255 k) 255) = x / 2 ^ k * 2 ^ k.
Proof.
  intros Hx Hk. pose (P := fun x => forallb (fun k => Z.land x (Z.land (Z.shiftl 255 k) 255) =? x / 2 ^ k * 2 ^ k) (seqZ 0 9)).
  assert (H : P x = true) by (apply every_byte; [vm_compute; reflexivity|done]).
  apply Z.eqb_eq. apply (proj1 (forallb_elem _ _) H). apply elem_of_seqZ. lia.
Qed.

Lemma byte_land x : 0 <= x < 256 -> Z.land x 255 = x.
Proof. intros Hx. change 255 with (Z.ones 8). rewrite Z.land_ones by lia. by apply Z.mod_small. Qed.

Lemma bytes_match_done x c p : p <= 0 -> bytes_match x c p = true.
Proof. intros H. destruct x; cbn; by rewrite (proj2 (Z.leb_le p 0) H). Qed.

(** The loop compares the leading bits. *)
Lemma bytes_match_div x c p : length x = length c -> bytes_ok x -> bytes_ok c -> p <= 8 * Z.of_nat (length x) ->
  bytes_match x c p = true <-> value x / 2 ^ (8 * Z.of_nat (length x) - p) = value c / 2 ^ (8 * Z.of_nat (length x) - p).
Proof.
  intros Hl Hx Hc Hp. destruct (Z.le_gt_cases p 0) as [H0|H0].
  { rewrite bytes_match_done by lia. split; [intros _|done]. pose proof (value_range x Hx) as Rx. pose proof (value_range c Hc) as Rc.
    rewrite <- Hl in Rc. rewrite pow_256 in *. assert (2 ^ (8 * Z.of_nat (length x)) <= 2 ^ (8 * Z.of_nat (length x) - p)) by (apply Z.pow_le_mono_r; lia).
    rewrite !Z.div_small by lia. done. }
  revert c p Hl Hx Hc Hp H0. induction x as [|a x IH]; intros [|b c] p Hl; try done; [cbn; lia|].
  injection Hl as Hl. intros [Ha Hx]%bytes_ok_cons [Hb Hc]%bytes_ok_cons Hp H0. cbn [bytes_match].
  replace (p <=? 0) with false by (symmetry; apply Z.leb_gt; lia). rewrite andb_true_iff, Z.eqb_eq, !value_cons, <- Hl.
  pose proof (value_range x Hx) as Rx. pose proof (value_range c Hc) as Rc. rewrite <- Hl in Rc. cbn [length] in *. rewrite Nat2Z.inj_succ in *.
  rewrite pow_256 in *. set (n := Z.of_nat (length x)) in *. assert (Hn : 0 <= n) by lia. destruct (Z.le_gt_cases 8 p) as [H8|H8].
  - replace (8 <=? p) with true by (symmetry; apply Z.leb_le; lia). rewrite !byte_land by done.
    replace (8 * Z.succ n - p) with (8 * n - (p - 8)) by lia. set (k := 8 * n - (p - 8)). assert (Hk : 0 <= k <= 8 * n) by lia.
    assert (E : forall d y, (d * 2 ^ (8 * n) + y) / 2 ^ k = d * 2 ^ (p - 8) + y / 2 ^ k).
    { intros d y. rewrite (pow_split k (8 * n)) by lia. replace (8 * n - k) with (p - 8) by (unfold k; lia). pose proof (pow_pos k ltac:(lia)).
      replace (d * (2 ^ k * 2 ^ (p - 8)) + y) with (d * 2 ^ (p - 8) * 2 ^ k + y) by lia. by rewrite Z.div_add_l by lia. }
    assert (B : forall y, 0 <= y < 2 ^ (8 * n) -> 0 <= y / 2 ^ k < 2 ^ (p - 8)).
    { intros y Hy. pose proof (pow_pos k ltac:(lia)). split; [apply Z.div_pos; lia|]. apply Z.div_lt_upper_bound; [lia|].
      rewrite <- Z.pow_add_r by lia. replace (k + (p - 8)) with (8 * n) by (unfold k; lia). lia. }
    rewrite !E. pose proof (B _ Rx). pose proof (B _ Rc). assert (Hr : bytes_match x c (p - 8) = true <-> value x / 2 ^ k = value c / 2 ^ k).
    { destruct (Z.le_gt_cases (p - 8) 0) as [C|C].
      - rewrite bytes_match_done by lia. assert (p - 8 = 0) as Hz by lia. rewrite Hz in *. split; [intros _; lia|done].
      - apply IH; try done; lia. }
    rewrite Hr. split; [intros [-> ->]; done|]. intros H2. assert (a = b) by nia. subst b. split; [done|lia].
  - replace (8 <=? p) with false by (symmetry; apply Z.leb_gt; lia). rewrite !byte_mask by lia. rewrite bytes_match_done by lia.
    assert (E : forall d y, 0 <= y < 2 ^ (8 * n) -> (d * 2 ^ (8 * n) + y) / 2 ^ (8 * Z.succ n - p) = d / 2 ^ (8 - p)).
    { intros d y Hy. replace (8 * Z.succ n - p) with (8 * n + (8 - p)) by lia. rewrite <- div_div_pow by lia.
      pose proof (pow_pos (8 * n) ltac:(lia)). rewrite Z.div_add_l, (Z.div_small y) by lia. by rewrite Z.add_0_r. }
    rewrite !E by done. pose proof (pow_pos (8 - p) ltac:(lia)). split; [intros [H1 _]; nia|intros ->; done].
Qed.

(** The span of a range holds an address when the loop says so. *)
Lemma bytes_match_holds x c p : length x = length c -> bytes_ok x -> bytes_ok c -> 0 <= p <= 8 * Z.of_nat (length x) -> forall f,
  let w := 8 * Z.of_nat (length x) in
  bytes_match x c p = holds w (spanFrom {| r_family := f; r_bytes := c; r_prefix := p |} w) (value x).
Proof.
  cbv zeta. intros Hl Hx Hc Hp f. unfold spanFrom. cbn [r_bytes r_prefix]. rewrite bigOf_value by done. set (w := 8 * Z.of_nat (length x)) in *.
  apply eq_true_iff_eq. rewrite bytes_match_div by (done || lia). fold w. rewrite holds_div by (apply (range_aligned w (value c) p); lia).
  cbn [base s_prefix]. rewrite maskTo_div by lia. rewrite Z.div_mul by (pose proof (pow_pos (w - p) ltac:(lia)); lia). reflexivity.
Qed.

(** ** The classification as a verdict on numbers *)

Definition range_okb (f : family) (c : Cidr) : bool :=
  bool_decide (r_family c = f) && Nat.eqb (length (r_bytes c)) (size f) && forallb (fun x => (0 <=? x) && (x <? 256)) (r_bytes c)
  && (0 <=? r_prefix c) && (r_prefix c <=? 8 * Z.of_nat (size f)).

Lemma range_okb_spec f c : range_okb f c = true -> r_family c = f /\ valid_range c.
Proof.
  unfold range_okb, valid_range. intros H. bool_hyps. apply Nat.eqb_eq in H3. subst f. split; [done|]. split_and!; try done.
  by apply bytes_okb.
Qed.

Lemma tables_ok : forallb (fun p => range_okb F4 p.1) v4Ranges && forallb (fun p => range_okb F6 p.1) v6Ranges = true.
Proof. vm_compute. reflexivity. Qed.

Lemma in_table f c (r : string) l : forallb (fun p => range_okb f p.1) l = true -> (c, r) ∈ l -> r_family c = f /\ valid_range c.
Proof. intros H Hc. apply range_okb_spec. by apply (proj1 (forallb_elem _ _) H (c, r)). Qed.

Notation bits b := (8 * Z.of_nat (length b)).

(** A range of an address's own family, without the rewriting of mapped addresses. *)
Lemma range_holds b c : length b = size (r_family c) -> bytes_ok b -> valid_range c ->
  bytes_match b (r_bytes c) (r_prefix c) = holds (bits b) (spanFrom c (bits b)) (value b).
Proof.
  intros Hl Hb (Hc & Hok & Hp). destruct c as [f cb p]. cbn [r_family r_bytes r_prefix] in *.
  apply bytes_match_holds; [congruence|done|done|]. rewrite Hl. exact Hp.
Qed.

Lemma first_range_none a l : match first_range a l with None => true | Some _ => false end = negb (existsb (fun p => inCidr a p.1) l).
Proof.
  unfold first_range. induction l as [|[c r] l IH]; [done|]. unfold bfind in *. cbn [List.find existsb fst]. by destruct (inCidr a c).
Qed.

Lemma existsb_ext_elem {A} (p q : A -> bool) l : (forall x, x ∈ l -> p x = q x) -> existsb p l = existsb q l.
Proof.
  induction l as [|x l IH]; intros H; [done|]. cbn. rewrite (H x) by left. f_equal. apply IH. intros y Hy. apply H. by right.
Qed.

Lemma existsb_map {A B} (g : A -> B) p l : existsb p (map g l) = existsb (fun x => p (g x)) l.
Proof. induction l as [|x l IH]; [done|]. cbn. by rewrite IH. Qed.

Lemma v4_closed : closed FAMILY_V4 = map (fun p => spanFrom p.1 32) v4Ranges ++ [{| base := 4294967295; s_prefix := 32 |}].
Proof. vm_compute. reflexivity. Qed.

Lemma broadcast b : length b = 4%nat -> bytes_ok b -> forallb (fun x => x =? 255) b = holds 32 {| base := 4294967295; s_prefix := 32 |} (value b).
Proof.
  intros Hl Hb. unfold holds. cbn [s_prefix base]. rewrite maskTo_div, Z.sub_diag, Z.div_1_r, Z.mul_1_r by lia.
  apply eq_true_iff_eq. rewrite forallb_elem, Z.eqb_eq. split.
  - intros H. assert (E : b = [255; 255; 255; 255]); [|by subst]. apply list_eq_same_length with 4%nat; [done..|]. intros i x y Hi Hx Hy.
    apply list_elem_of_lookup_2 in Hx. apply H in Hx. bool_hyps. do 4 (destruct i as [|i]; [cbn in Hy; congruence|]). lia.
  - intros E. assert (b = [255; 255; 255; 255]) as ->; [|by apply (forallb_elem (fun x => x =? 255))].
    apply value_inj; [done|done|by apply bytes_okb|done].
Qed.

Lemma v4_verdict b : length b = 4%nat -> bytes_ok b -> is_public (classifyV4 b) = open_at FAMILY_V4 (value b).
Proof.
  intros Hl Hb. unfold classifyV4, open_at. rewrite v4_closed, existsb_app, existsb_map. cbn [existsb width FAMILY_V4].
  rewrite <- broadcast by done. rewrite orb_false_r, negb_orb.
  assert (E : existsb (fun p => inCidr {| a_family := F4; a_bytes := b |} p.1) v4Ranges = existsb (fun p => holds 32 (spanFrom p.1 32) (value b)) v4Ranges).
  { apply existsb_ext_elem. intros [c r] Hc. apply (in_table F4) in Hc as [Hf Hv]; [|by pose proof tables_ok as T; apply andb_true_iff in T as [? _]].
    unfold inCidr, canonical. cbn [a_family a_bytes fst]. rewrite (bool_decide_eq_false_2 (F4 = F6)) by done. cbn [andb a_family a_bytes].
    rewrite Hf, bool_decide_eq_true_2 by done. cbn [andb]. rewrite range_holds; [|by rewrite Hf|done|done]. by rewrite Hl. }
  rewrite <- E, <- first_range_none. destruct (forallb _ b); [by rewrite andb_false_r|]. rewrite andb_true_r.
  by destruct (first_range _ _).
Qed.

(** ** IPv6 *)

Definition mapped_block : list Z := [0; 0; 0; 0; 0; 0; 0; 0; 0; 0; 255; 255; 0; 0; 0; 0].
Definition nat64_block : list Z := [0; 100; 255; 155; 0; 0; 0; 0; 0; 0; 0; 0; 0; 0; 0; 0].
Definition sixto4_block : list Z := [32; 2; 0; 0; 0; 0; 0; 0; 0; 0; 0; 0; 0; 0; 0; 0].

(** A list of sixteen bytes, byte by byte. *)
Ltac sixteen b H Hb :=
  do 16 (destruct b as [|? b]; [discriminate H|]); destruct b; [|discriminate H];
  repeat match goal with Hx : bytes_ok (_ :: _) |- _ => apply bytes_ok_cons in Hx as [? Hx] end.

Lemma words x y n : 0 <= x < 256 -> 0 <= y < 256 -> 0 <= n < 65536 -> (Z.lor (Z.shiftl x 8) y =? n) = (x =? n / 256) && (y =? n mod 256).
Proof.
  intros Hx Hy Hn. rewrite lor_high by lia. rewrite Z.shiftl_mul_pow2 by lia. change (2 ^ 8) with 256.
  apply eq_true_iff_eq. rewrite andb_true_iff, !Z.eqb_eq. pose proof (Z.div_mod n 256 ltac:(lia)). pose proof (Z.mod_pos_bound n 256 ltac:(lia)). lia.
Qed.

(** A prefix of whole bytes is compared byte by byte. *)
Lemma bytes_match_take k x c : length x = length c -> bytes_ok x -> bytes_ok c -> (k <= length x)%nat ->
  bytes_match x c (8 * Z.of_nat k) = bool_decide (take k x = take k c).
Proof.
  revert k c. induction x as [|a x IH]; intros k [|b c] Hl; try done.
  - intros _ _ Hk. cbn in Hk. replace k with O by lia. done.
  - injection Hl as Hl. intros [Ha Hx]%bytes_ok_cons [Hb Hc]%bytes_ok_cons Hk. cbn [length] in Hk. destruct k as [|k]; [done|]. cbn [bytes_match take].
    replace (8 * Z.of_nat (S k) <=? 0) with false by (symmetry; apply Z.leb_gt; lia). replace (8 <=? 8 * Z.of_nat (S k)) with true by (symmetry; apply Z.leb_le; lia).
    rewrite !byte_land by done. replace (8 * Z.of_nat (S k) - 8) with (8 * Z.of_nat k) by lia. rewrite IH by (done || lia).
    apply eq_true_iff_eq. rewrite andb_true_iff, Z.eqb_eq, !bool_decide_eq_true. split; [by intros [-> ->]|by intros [= -> ->]].
Qed.

Ltac same_bytes := apply eq_true_iff_eq; rewrite bool_decide_eq_true, ?andb_true_iff, ?Z.eqb_eq; split; [intros H'; decompose [and] H'; subst; reflexivity|intros [=]; subst; done].

Lemma mapped_match b : length b = 16%nat -> bytes_ok b -> isV4Mapped b = bytes_match b mapped_block 96.
Proof.
  intros H Hb. rewrite (bytes_match_take 12) by first [done|rewrite H; cbn; lia|by apply bytes_okb].
  sixteen b H Hb. unfold isV4Mapped, zeros, byte. cbn -[Z.eqb]. same_bytes.
Qed.

Lemma nat64_match b : length b = 16%nat -> bytes_ok b ->
  (Z.lor (Z.shiftl (byte b 0) 8) (byte b 1) =? 100) && (Z.lor (Z.shiftl (byte b 2) 8) (byte b 3) =? 65435) && zeros (take 8 (drop 4 b))
  = bytes_match b nat64_block 96.
Proof.
  intros H Hb. rewrite (bytes_match_take 12) by first [done|rewrite H; cbn; lia|by apply bytes_okb].
  sixteen b H Hb. unfold zeros, byte. cbn -[Z.lor Z.shiftl Z.eqb]. rewrite !words by lia.
  change (100 / 256) with 0. change (100 mod 256) with 100. change (65435 / 256) with 255. change (65435 mod 256) with 155. same_bytes.
Qed.

Lemma sixto4_match b : length b = 16%nat -> bytes_ok b ->
  (Z.lor (Z.shiftl (byte b 0) 8) (byte b 1) =? 8194) = bytes_match b sixto4_block 16.
Proof.
  intros H Hb. rewrite (bytes_match_take 2) by first [done|rewrite H; cbn; lia|by apply bytes_okb].
  sixteen b H Hb. unfold byte. cbn -[Z.lor Z.shiftl Z.eqb]. rewrite !words by lia. change (8194 / 256) with 32. change (8194 mod 256) with 2. same_bytes.
Qed.

(** The ranges outside 2000::/3. *)
Definition low_block : list Z := replicate 16 0.
Definition middle_block : list Z := 64 :: replicate 15 0.
Definition high_block : list Z := 128 :: replicate 15 0.

Notation span6 b p := (spanFrom {| r_family := F6; r_bytes := b; r_prefix := p |} 128).

Lemma v6_closed : closed FAMILY_V6 = map (fun p => spanFrom p.1 128) v6Ranges ++ [span6 low_block 3; span6 middle_block 2; span6 high_block 1].
Proof. vm_compute. reflexivity. Qed.

Lemma v6_embedded : embedded FAMILY_V6 = [span6 mapped_block 96; span6 nat64_block 96; span6 sixto4_block 16].
Proof. vm_compute. reflexivity. Qed.

Lemma match6 b c p : length b = 16%nat -> bytes_ok b -> length c = 16%nat -> bytes_ok c -> 0 <= p <= 128 -> bytes_match b c p = holds 128 (span6 c p) (value b).
Proof.
  intros Hl Hb Hc Hcb Hp. pose proof (bytes_match_holds b c p ltac:(congruence) Hb Hcb) as E. rewrite Hl in E. apply (E Hp F6).
Qed.

Lemma global_unicast b : length b = 16%nat -> bytes_ok b ->
  (Z.land (byte b 0) 224 =? 32) = negb (bytes_match b low_block 3 || (bytes_match b middle_block 2 || (bytes_match b high_block 1 || false))).
Proof.
  intros Hl Hb. destruct b as [|x b]; [done|]. apply bytes_ok_cons in Hb as [Hx Hb].
  assert (E : forall c y p, 0 < p < 8 -> bytes_match (x :: b) (c :: y) p = (Z.land x (Z.land (Z.shiftl 255 (8 - p)) 255) =? Z.land c (Z.land (Z.shiftl 255 (8 - p)) 255))).
  { intros c y p Hp. cbn [bytes_match]. replace (p <=? 0) with false by (symmetry; apply Z.leb_gt; lia). replace (8 <=? p) with false by (symmetry; apply Z.leb_gt; lia).
    rewrite bytes_match_done by lia. apply andb_true_r. }
  unfold low_block, middle_block, high_block. cbn [replicate]. rewrite !E by lia. unfold byte. cbn [lookup list_lookup default from_option id].
  pose (m p := Z.land (Z.shiftl 255 (8 - p)) 255).
  apply Bool.eqb_prop. apply (every_byte (fun x => Bool.eqb (Z.land x 224 =? 32)
    (negb ((Z.land x (m 3) =? Z.land 0 (m 3)) || ((Z.land x (m 2) =? Z.land 64 (m 2)) || ((Z.land x (m 1) =? Z.land 128 (m 1)) || false)))))); [|done].
  vm_compute. reflexivity.
Qed.

Lemma carry_slice b m : length b = 16%nat -> bytes_ok b -> (m + 4 <= 16)%nat -> forall e, s_prefix e = 8 * Z.of_nat m ->
  carry 128 e (value b) = value (take 4 (drop m b)).
Proof.
  intros Hl Hb Hm e He. rewrite carry_div, value_slice by (try rewrite He; done || lia). rewrite pow_256, Hl, He.
  replace (8 * Z.of_nat (16 - m - 4)) with (128 - 8 * Z.of_nat m - 32) by lia. reflexivity.
Qed.

Lemma canonical_f6 b : isV4Mapped b = false -> canonical {| a_family := F6; a_bytes := b |} = {| a_family := F6; a_bytes := b |}.
Proof. intros H. unfold canonical. cbn [a_family a_bytes]. by rewrite H, andb_false_r. Qed.

Lemma take4 (b : list Z) : length b = 16%nat -> take 4 (drop 12 b) = drop 12 b.
Proof. intros H. apply take_ge. by rewrite length_drop, H. Qed.

Lemma v4_at b m : length b = 16%nat -> bytes_ok b -> (m + 4 <= 16)%nat -> forall e, s_prefix e = 8 * Z.of_nat m ->
  is_public (classifyV4 (take 4 (drop m b))) = open_at FAMILY_V4 (carry 128 e (value b)).
Proof.
  intros Hl Hb Hm e He. rewrite (carry_slice b m) by done. apply v4_verdict; [rewrite length_take, length_drop; lia|by apply bytes_ok_take, bytes_ok_drop].
Qed.

Lemma v6_verdict b : length b = 16%nat -> bytes_ok b ->
  is_public (classifyAddress {| a_family := F6; a_bytes := b |}) = verdict FAMILY_V6 FAMILY_V4 (value b).
Proof.
  intros Hl Hb. unfold verdict, bfind. cbn [width FAMILY_V6]. rewrite v6_embedded. cbn [List.find].
  rewrite <- !match6 by (done || by apply bytes_okb). rewrite <- mapped_match, <- nat64_match, <- sixto4_match by done. unfold classifyAddress.
  destruct (isV4Mapped b) eqn:Em.
  { unfold canonical. cbn [a_family a_bytes]. rewrite Em, bool_decide_eq_true_2 by done. cbn [andb a_family a_bytes].
    rewrite <- (take4 b Hl). by apply v4_at. }
  rewrite canonical_f6 by done. cbn [a_family a_bytes]. cbv zeta. destruct (_ && _ && zeros _); [rewrite <- (take4 b Hl); by apply v4_at|].
  destruct (_ =? 8194); [apply v4_at; [done|done|lia|done]|]. unfold open_at. cbn [width FAMILY_V6]. rewrite v6_closed, existsb_app, existsb_map. cbn [existsb].
  rewrite <- !match6 by (done || by apply bytes_okb). rewrite negb_orb, <- global_unicast by done.
  assert (E : existsb (fun p => inCidr {| a_family := F6; a_bytes := b |} p.1) v6Ranges = existsb (fun p => holds 128 (spanFrom p.1 128) (value b)) v6Ranges).
  { apply existsb_ext_elem. intros [c r] Hc. apply (in_table F6) in Hc as [Hf Hv]; [|by pose proof tables_ok as T; apply andb_true_iff in T as [_ ?]].
    unfold inCidr. rewrite canonical_f6 by done. cbn [a_family a_bytes fst]. rewrite Hf, bool_decide_eq_true_2 by done. cbn [andb].
    rewrite range_holds; [|by rewrite Hf|done|done]. by rewrite Hl. }
  rewrite <- E, <- first_range_none. destruct (first_range _ _); [done|]. by destruct (_ =? 32).
Qed.

(** ** The two families are well formed *)

Definition alignedb (w : Z) (s : Span) : bool := (0 <=? s_prefix s) && (s_prefix s <=? w) && (maskTo (base s) w (s_prefix s) =? base s).

Definition well_formedb (f : Family) : bool :=
  (0 <=? width f) && forallb (alignedb (width f)) (closed f)
  && forallb (fun e => alignedb (width f) e && (s_prefix e + 32 <=? width f)) (embedded f)
  && forallb (fun e => forallb (fun e' => ((base e =? base e') && (s_prefix e =? s_prefix e')) || negb (covers e e' (width f) || covers e' e (width f))) (embedded f)) (embedded f).

Lemma alignedb_spec w s : alignedb w s = true -> aligned w s.
Proof. unfold alignedb, aligned. intros H. bool_hyps. by split. Qed.

Lemma well_formedb_spec f : well_formedb f = true -> well_formed f.
Proof.
  unfold well_formedb. intros H. bool_hyps. rename H into Hw, H2 into Hc, H1 into He, H0 into Ha. rewrite forallb_elem in Hc, He, Ha.
  assert (Hal : forall e, e ∈ embedded f -> aligned (width f) e /\ s_prefix e + 32 <= width f).
  { intros e Hin. specialize (He e Hin). bool_hyps. split; [by apply alignedb_spec|done]. }
  split; [done|by intros c Hin; apply alignedb_spec, Hc|done|].
  intros e e' x Hin Hin' Hx Hx'. specialize (Ha e Hin). rewrite forallb_elem in Ha. specialize (Ha e' Hin'). apply orb_true_iff in Ha as [Ha|Ha].
  - bool_hyps. destruct e, e'. cbn in *. by subst.
  - bool_hyps. destruct (nested (width f) e e' x (proj1 (Hal e Hin)) (proj1 (Hal e' Hin')) Hx Hx'); congruence.
Qed.

Lemma families_ok : well_formed FAMILY_V4 /\ well_formed FAMILY_V6.
Proof. split; apply well_formedb_spec; vm_compute; reflexivity. Qed.

(** ** The lowest public address *)

Lemma to_bytes_S len n : to_bytes (S len) n = Z.land (Z.shiftr n (8 * Z.of_nat len)) 255 :: to_bytes len n.
Proof. unfold to_bytes. rewrite seq_S, reverse_app. reflexivity. Qed.

Lemma to_bytes_ok len n : length (to_bytes len n) = len /\ bytes_ok (to_bytes len n).
Proof.
  induction len as [|len [IHl IHb]]; [split; [done|]; by intros x ?%elem_of_nil|]. rewrite to_bytes_S. split; [cbn; congruence|].
  apply bytes_ok_cons. split; [|done]. change 255 with (Z.ones 8). rewrite Z.land_ones by lia. apply Z.mod_pos_bound. lia.
Qed.

Lemma to_bytes_value len n : value (to_bytes len n) = n mod 256 ^ Z.of_nat len.
Proof.
  induction len as [|len IH]; [cbn; by rewrite Z.mod_1_r|]. rewrite to_bytes_S, value_cons, IH, (proj1 (to_bytes_ok len n)).
  change 255 with (Z.ones 8). rewrite Z.land_ones, Z.shiftr_div_pow2, <- pow_256 by lia. change (2 ^ 8) with 256.
  rewrite Nat2Z.inj_succ, Z.pow_succ_r, (Z.mul_comm 256), Z.rem_mul_r by lia. lia.
Qed.

Definition family_of (f : family) : Family := match f with F4 => FAMILY_V4 | F6 => FAMILY_V6 end.

Lemma family_width f : width (family_of f) = 8 * Z.of_nat (size f).
Proof. by destruct f. Qed.

Lemma verdict_public a : valid a -> is_public (classifyAddress a) = verdict (family_of (a_family a)) FAMILY_V4 (value (a_bytes a)).
Proof.
  destruct a as [[] b]; intros [Hl Hb]; cbn [a_family a_bytes family_of size] in *; [|by apply v6_verdict].
  unfold classifyAddress, canonical. cbn [a_family a_bytes]. rewrite bool_decide_eq_false_2 by done. cbn [andb a_family a_bytes]. by apply v4_verdict.
Qed.

Lemma first_public_v4 n b p : 0 <= p <= 32 -> (Z.to_nat (32 - p) < n)%nat ->
  exists o, firstPublic n FAMILY_V4 FAMILY_V4 b p = Some o /\ lowest (open_at FAMILY_V4) 32 (range_of 32 b p) o.
Proof.
  intros Hp Hn. apply (firstPublic_lowest FAMILY_V4 FAMILY_V4 (proj1 families_ok) 1); [lia| |exact Hp|cbn [width FAMILY_V4]; lia].
  intros e b' p' n' He. by apply elem_of_nil in He.
Qed.

Lemma first_public f n b p : 0 <= p <= width (family_of f) -> (Z.to_nat (width (family_of f) - p) + 34 <= n)%nat ->
  exists o, firstPublic n (family_of f) FAMILY_V4 b p = Some o
    /\ lowest (verdict (family_of f) FAMILY_V4) (width (family_of f)) (range_of (width (family_of f)) b p) o.
Proof.
  destruct f; intros Hp Hn; [apply first_public_v4; cbn [family_of width FAMILY_V4] in *; lia|].
  apply (firstPublic_lowest FAMILY_V6 FAMILY_V4 (proj2 families_ok) 34); [lia| |exact Hp|exact Hn].
  intros e b' p' n' _ Hp' Hn'. apply first_public_v4; lia.
Qed.

(** The address lies in the range: same family, same leading bits. *)
Definition in_range (a : ParsedAddress) (c : Cidr) : Prop := a_family a = r_family c /\ bytes_match (a_bytes a) (r_bytes c) (r_prefix c) = true.

Lemma in_range_holds a c : valid a -> valid_range c -> a_family a = r_family c ->
  bytes_match (a_bytes a) (r_bytes c) (r_prefix c)
  = holds (width (family_of (r_family c))) (range_of (width (family_of (r_family c))) (bigOf (r_bytes c)) (r_prefix c)) (value (a_bytes a)).
Proof.
  intros [Hl Hb] Hc Hf. rewrite range_holds by (congruence || done). rewrite family_width, Hl, Hf. reflexivity.
Qed.

(** The range search answers the lowest public address. For every well-formed range [cidrContainsPublic]
    ends, and what it answers agrees with [classifyAddress]: with no answer every address of the range is
    non-public; with an answer, that address is in the range and public, and every lower address of the
    range is non-public. So the interval tables of the search mirror the classifier's tables, its
    carried IPv4 blocks and its rule for 2000::/3. *)
Theorem cidrContainsPublic_lowest c : valid_range c ->
  exists r, cidrContainsPublic c = Some r /\
    match r with
    | None => forall a, valid a -> in_range a c -> is_public (classifyAddress a) = false
    | Some y => valid y /\ in_range y c /\ is_public (classifyAddress y) = true
        /\ forall a, valid a -> in_range a c -> value (a_bytes a) < value (a_bytes y) -> is_public (classifyAddress a) = false
    end.
Proof.
  intros Hc. destruct Hc as (Hl & Hb & Hp) eqn:E. clear E. unfold cidrContainsPublic. cbv zeta. fold (family_of (r_family c)). rewrite <- family_width in Hp.
  destruct (first_public (r_family c) (fuel_for (width (family_of (r_family c)))) (bigOf (r_bytes c)) (r_prefix c) Hp) as (o & Ho & Hlow).
  { unfold fuel_for. destruct (r_family c); cbn [family_of width FAMILY_V4 FAMILY_V6] in *; lia. }
  rewrite Ho. cbn [mbind option_bind]. eexists. split; [reflexivity|].
  assert (In : forall a, valid a -> in_range a c -> a_family a = r_family c
    /\ holds (width (family_of (r_family c))) (range_of (width (family_of (r_family c))) (bigOf (r_bytes c)) (r_prefix c)) (value (a_bytes a)) = true).
  { intros a Ha [Hf Hm]. split; [done|]. by rewrite <- in_range_holds. }
  destruct o as [y|]; cbn [option_map lowest] in *.
  - destruct Hlow as (Hy & Py & Hlow). set (f := r_family c) in *. set (a := {| a_family := f; a_bytes := _ |}).
    assert (Hr : 0 <= y < 256 ^ Z.of_nat (size f)).
    { apply holds_interval in Hy; [|apply range_aligned; lia]. cbn [range_of base s_prefix] in Hy. rewrite bigOf_value in Hy by done.
      pose proof (value_range _ Hb) as R. rewrite Hl, pow_256 in R. rewrite pow_256, <- family_width in *. rewrite maskTo_div in Hy by lia.
      pose proof (pow_pos (width (family_of f) - r_prefix c) ltac:(lia)). set (k := 2 ^ (_ - _)) in *.
      assert (2 ^ width (family_of f) = 2 ^ r_prefix c * k) by (unfold k; rewrite (pow_split (r_prefix c)) by lia; lia).
      assert (0 <= value (r_bytes c) / k < 2 ^ r_prefix c) by (split; [apply Z.div_pos; lia|apply Z.div_lt_upper_bound; lia]). nia. }
    assert (Es : Z.to_nat (width (family_of f) / 8) = size f) by (by destruct f).
    assert (Ev : value (a_bytes a) = y) by (cbn [a a_bytes]; rewrite Es, to_bytes_value; by apply Z.mod_small).
    assert (Va : valid a) by (unfold valid; cbn [a a_bytes a_family]; rewrite Es; apply to_bytes_ok).
    split; [exact Va|]. split; [split; [done|by rewrite in_range_holds, Ev]|]. split; [by rewrite verdict_public, Ev|].
    intros x Hx Hin Hlt. rewrite Ev in Hlt. destruct (In x Hx Hin) as [Hf Hh]. rewrite verdict_public, Hf by done. by apply Hlow.
  - intros x Hx Hin. destruct (In x Hx Hin) as [Hf Hh]. rewrite verdict_public, Hf by done. by apply Hlow.
Qed.

(** ** The classification in plain numbers *)

Definition between (lo hi x : Z) : bool := (lo <=? x) && (x <=? hi).

(** The IPv4 addresses nobody may reach, as the registries list them. *)
Definition special4 (a b c d : Z) : bool :=
  (a =? 0) || (a =? 10) || ((a =? 100) && between 64 127 b) || (a =? 127) || ((a =? 169) && (b =? 254))
  || ((a =? 168) && (b =? 63) && (c =? 129) && (d =? 16)) || ((a =? 172) && between 16 31 b) || ((a =? 192) && (b =? 0) && (c =? 0))
  || ((a =? 192) && (b =? 0) && (c =? 2)) || ((a =? 192) && (b =? 88) && (c =? 99)) || ((a =? 192) && (b =? 168))
  || ((a =? 198) && between 18 19 b) || ((a =? 198) && (b =? 51) && (c =? 100)) || ((a =? 203) && (b =? 0) && (c =? 113)) || (224 <=? a).

Definition special4_of (b : list Z) : bool := match b with [x; y; z; t] => special4 x y z t | _ => true end.

(** IPv6: a carried IPv4 address decides; otherwise global unicast without the protocol and documentation ranges. *)
Definition special6 (b : list Z) : bool :=
  if bool_decide (take 12 b = take 12 mapped_block) || bool_decide (take 12 b = take 12 nat64_block) then special4_of (drop 12 b)
  else if bool_decide (take 2 b = [32; 2]) then special4_of (take 4 (drop 2 b))
  else let x := byte b 0 in let y := byte b 1 in let z := byte b 2 in
    negb (between 32 63 x) || ((x =? 32) && (y =? 1) && (z <=? 1)) || ((x =? 32) && (y =? 1) && (z =? 13) && (byte b 3 =? 184))
    || ((x =? 63) && (y =? 255) && (z <=? 15)).

Definition special (a : ParsedAddress) : bool := match a_family a with F4 => special4_of (a_bytes a) | F6 => special6 (a_bytes a) end.

Lemma match8 a x c y p : 8 <= p -> 0 <= a < 256 -> 0 <= c < 256 -> bytes_match (a :: x) (c :: y) p = (a =? c) && bytes_match x y (p - 8).
Proof.
  intros Hp Ha Hc. cbn [bytes_match]. replace (p <=? 0) with false by (symmetry; apply Z.leb_gt; lia). replace (8 <=? p) with true by (symmetry; apply Z.leb_le; lia).
  by rewrite !byte_land.
Qed.

Lemma match_low a x c y p : 0 < p < 8 -> 0 <= a < 256 -> 0 <= c < 256 -> bytes_match (a :: x) (c :: y) p = (a / 2 ^ (8 - p) =? c / 2 ^ (8 - p)).
Proof.
  intros Hp Ha Hc. cbn [bytes_match]. replace (p <=? 0) with false by (symmetry; apply Z.leb_gt; lia). replace (8 <=? p) with false by (symmetry; apply Z.leb_gt; lia).
  rewrite bytes_match_done, andb_true_r, !byte_mask by lia. pose proof (pow_pos (8 - p) ltac:(lia)).
  apply eq_true_iff_eq. rewrite !Z.eqb_eq. split; [nia|by intros ->].
Qed.

(** Run the loop of a range test on given bytes. *)
Ltac run_match :=
  repeat match goal with
  | |- context [bytes_match ?x ?c 0] => rewrite (bytes_match_done x c 0) by lia
  | |- context [bytes_match (?a :: ?x) (?c :: ?y) ?p] =>
      let t := eval vm_compute in (8 <=? p) in
      match t with
      | true => let q := eval vm_compute in (p - 8) in rewrite (match8 a x c y p) by lia; change (p - 8) with q
      | false => let k := eval vm_compute in (2 ^ (8 - p)) in let v := eval vm_compute in (c / 2 ^ (8 - p)) in
                 rewrite (match_low a x c y p) by lia; change (c / 2 ^ (8 - p)) with v; change (2 ^ (8 - p)) with k
      end
  end.

Lemma inCidr_f4 b c p : inCidr {| a_family := F4; a_bytes := b |} {| r_family := F4; r_bytes := c; r_prefix := p |} = bytes_match b c p.
Proof. unfold inCidr, canonical. cbn [a_family a_bytes r_family r_bytes r_prefix]. rewrite (bool_decide_eq_false_2 (F4 = F6)) by done. cbn [andb a_family a_bytes]. by rewrite bool_decide_eq_true_2. Qed.

Lemma inCidr_f6 b c p : isV4Mapped b = false ->
  inCidr {| a_family := F6; a_bytes := b |} {| r_family := F6; r_bytes := c; r_prefix := p |} = bytes_match b c p.
Proof. intros H. unfold inCidr. rewrite canonical_f6 by done. cbn [a_family a_bytes r_family r_bytes r_prefix]. by rewrite bool_decide_eq_true_2. Qed.

(** A quotient test is an interval. *)
Lemma bands x k q : 0 < k -> (x / k =? q) = between (q * k) (q * k + k - 1) x.
Proof.
  intros Hk. unfold between. apply eq_true_iff_eq. rewrite andb_true_iff, Z.eqb_eq, !Z.leb_le. pose proof (Z.div_mod x k ltac:(lia)).
  pose proof (Z.mod_pos_bound x k ltac:(lia)). split; [intros <-; lia|]. intros Hx. symmetry. apply Z.div_unique with (x - q * k); lia.
Qed.

Lemma top_bands x r : 0 <= x < 256 -> between 224 239 x || (between 240 255 x || r) = (224 <=? x) || r.
Proof. intros Hx. unfold between. destruct r; lia. Qed.

Lemma ipv4_special b : length b = 4%nat -> bytes_ok b -> is_public (classifyV4 b) = negb (special4_of b).
Proof.
  intros Hl Hb. do 4 (destruct b as [|? b]; [discriminate Hl|]). destruct b; [|discriminate Hl].
  repeat match goal with Hx : bytes_ok (_ :: _) |- _ => apply bytes_ok_cons in Hx as [? Hx] end.
  unfold classifyV4.
  assert (E : forall o, is_public (match o with Some r => NotPublic r | None => Public end) = match o with None => true | Some _ => false end) by (by intros []).
  destruct (forallb _ _) eqn:Ef.
  { cbn in Ef. bool_hyps. subst. reflexivity. }
  rewrite E, first_range_none. unfold v4Ranges. cbn [existsb fst]. rewrite !inCidr_f4. run_match. rewrite !bands, top_bands by lia.
  rewrite ?andb_true_r, ?orb_false_r, <- ?andb_assoc, <- ?orb_assoc. unfold special4_of, special4. by rewrite <- ?andb_assoc, <- ?orb_assoc.
Qed.

Lemma ipv6_special b : length b = 16%nat -> bytes_ok b -> is_public (classifyAddress {| a_family := F6; a_bytes := b |}) = negb (special6 b).
Proof.
  intros Hl Hb. unfold special6. assert (T : forall k c, bytes_ok c -> length c = 16%nat -> (k <= 16)%nat -> bool_decide (take k b = take k c) = bytes_match b c (8 * Z.of_nat k)).
  { intros k c Hc Hlc Hk. rewrite bytes_match_take by (done || congruence || lia). done. }
  change [32; 2] with (take 2 sixto4_block). rewrite !T by first [done|lia|by apply bytes_okb].
  change (8 * Z.of_nat 12) with 96. change (8 * Z.of_nat 2) with 16. rewrite <- (mapped_match b), <- (nat64_match b), <- (sixto4_match b) by done. unfold classifyAddress.
  assert (V : forall m, (m + 4 <= 16)%nat -> is_public (classifyV4 (take 4 (drop m b))) = negb (special4_of (take 4 (drop m b)))).
  { intros m Hm. apply ipv4_special; [rewrite length_take, length_drop; lia|by apply bytes_ok_take, bytes_ok_drop]. }
  destruct (isV4Mapped b) eqn:Em.
  { unfold canonical. cbn [a_family a_bytes]. rewrite Em, bool_decide_eq_true_2 by done. cbn [andb orb a_family a_bytes].
    rewrite <- (take4 b Hl). apply V. lia. }
  rewrite canonical_f6 by done. cbn [a_family a_bytes orb]. cbv zeta. destruct (_ && _ && zeros _); [rewrite <- (take4 b Hl); apply V; lia|].
  destruct (_ =? 8194); [apply V; lia|].
  assert (E : forall o, is_public (match o with Some r => NotPublic r | None => if Z.land (byte b 0) 224 =? 32 then Public else NotPublic "reserved" end)
      = match o with None => true | Some _ => false end && (Z.land (byte b 0) 224 =? 32)) by (intros [r|]; [done|by destruct (_ =? 32)]).
  rewrite E, first_range_none. unfold v6Ranges. cbn [existsb fst]. rewrite !inCidr_f6 by done. clear E T V Em.
  sixteen b Hl Hb. unfold byte. cbn [lookup list_lookup default from_option id].
  assert (U : (Z.land z 224 =? 32) = between 32 63 z).
  { apply Bool.eqb_prop, (every_byte (fun x => Bool.eqb (Z.land x 224 =? 32) (between 32 63 x))); [vm_compute; reflexivity|done]. }
  rewrite U. run_match. rewrite !bands by lia. rewrite ?andb_true_r, ?orb_false_r. destruct (between 32 63 z) eqn:B; [|by rewrite andb_false_r].
  rewrite andb_true_r. unfold between in B. bool_hyps.
  repeat match goal with |- context [z =? ?k] => let t := eval vm_compute in ((32 <=? k) && (k <=? 63)) in
    match t with false => replace (z =? k) with false by (symmetry; apply Z.eqb_neq; lia) end end.
  cbn [negb andb orb]. replace (between (126 * 2) (126 * 2 + 2 - 1) z) with false by (unfold between; lia). rewrite orb_false_r.
  assert (L : forall k x, 0 <= x -> between 0 k x = (x <=? k)) by (unfold between; lia).
  change (0 * 2) with 0. change (0 * 16) with 0. rewrite !L by lia. by rewrite <- ?andb_assoc, <- ?orb_assoc.
Qed.

Lemma public_special a : valid a -> is_public (classifyAddress a) = negb (special a).
Proof.
  destruct a as [[] b]; intros [Hl Hb]; cbn [a_family a_bytes size] in *; [|by apply ipv6_special].
  unfold classifyAddress, canonical. cbn [a_family a_bytes]. rewrite (bool_decide_eq_false_2 (F4 = F6)) by done. cbn [andb a_family a_bytes]. by apply ipv4_special.
Qed.

(** Which addresses are public. A well-formed address is public exactly when it is none of the special
    addresses, spelled out in plain numbers: the IPv4 registry blocks, multicast and above, the carried
    IPv4 address for mapped, NAT64 and 6to4 addresses, and for the rest of IPv6 everything outside
    2000::/3 and the three blocks reserved inside it. *)
Theorem public_exact a : valid a -> is_public (classifyAddress a) = negb (special a).
Proof. apply public_special. Qed.

(** ** Range tests *)

Lemma canonical_valid a : valid a -> valid (canonical a).
Proof.
  intros [Hl Hb]. unfold canonical. destruct (_ && _) eqn:E; [|done]. bool_hyps. split; cbn [a_family a_bytes]; [|by apply bytes_ok_drop].
  rewrite length_drop, Hl. by rewrite H.
Qed.

Lemma canonical_idem a : canonical (canonical a) = canonical a.
Proof.
  destruct a as [f b]. unfold canonical. cbn [a_family a_bytes].
  destruct (bool_decide (f = F6) && isV4Mapped b) eqn:E; cbn [a_family a_bytes]; [by rewrite (bool_decide_eq_false_2 (F4 = F6))|by rewrite E].
Qed.

(** What a range test tests. [inCidr] holds exactly when the address, a mapped one read as the IPv4
    address it carries, is of the range's family and agrees with it in the first [r_prefix] bits. *)
Theorem inCidr_exact a c : valid a -> valid_range c ->
  inCidr a c = true <-> a_family (canonical a) = r_family c /\
    forall i, 0 <= i < r_prefix c -> let w := 8 * Z.of_nat (size (r_family c)) in
      Z.testbit (value (a_bytes (canonical a))) (w - 1 - i) = Z.testbit (value (r_bytes c)) (w - 1 - i).
Proof.
  intros Ha (Hlc & Hbc & Hp). unfold inCidr. rewrite andb_true_iff, bool_decide_eq_true. destruct (canonical_valid a Ha) as [Hl Hb].
  destruct (canonical a) as [f b]. cbn [a_family a_bytes] in *. split; intros [Hf H]; (split; [done|]); subst f.
  - intros i Hi. cbv zeta. apply bytes_match_div in H; [|congruence|done|done|rewrite Hl; lia]. rewrite Hl in H. set (w := 8 * Z.of_nat _) in *.
    apply (f_equal (fun x => Z.testbit x (r_prefix c - 1 - i))) in H. rewrite !Z.div_pow2_bits in H by lia.
    replace (r_prefix c - 1 - i + (w - r_prefix c)) with (w - 1 - i) in H by lia. exact H.
  - apply bytes_match_div; [congruence|done|done|rewrite Hl; lia|]. rewrite Hl. set (w := 8 * Z.of_nat _) in *. apply Z.bits_inj'. intros j Hj.
    rewrite !Z.div_pow2_bits by lia. destruct (Z.lt_ge_cases j (r_prefix c)) as [C|C].
    + specialize (H (r_prefix c - 1 - j) ltac:(lia)). cbv zeta in H. fold w in H. replace (w - 1 - (r_prefix c - 1 - j)) with (j + (w - r_prefix c)) in H by lia. exact H.
    + pose proof (value_range b Hb) as R1. pose proof (value_range _ Hbc) as R2. rewrite Hl, pow_256 in R1. rewrite Hlc, pow_256 in R2. fold w in R1, R2.
      rewrite <- (Z.mod_small (value b) (2 ^ w)), <- (Z.mod_small (value (r_bytes c)) (2 ^ w)) by lia. by rewrite !Z.mod_pow2_bits_high by lia.
Qed.

(** A range written as a mapped IPv4 range holds no address at all: the addresses it names are compared as
    IPv4 addresses, the range as an IPv6 one. *)
Theorem mapped_range_empty a c : valid a -> valid_range c -> r_family c = F6 -> isV4Mapped (r_bytes c) = true -> 96 <= r_prefix c ->
  inCidr a c = false.
Proof.
  intros Ha (Hlc & Hbc & Hp) Hf Hm Hpre. unfold inCidr. destruct (bool_decide_reflect (a_family (canonical a) = r_family c)) as [E|]; [|done]. cbn [andb].
  destruct (bytes_match _ _ _) eqn:M; [|done]. exfalso. rewrite Hf in *. cbn [size] in *.
  assert (Hc : canonical a = a /\ isV4Mapped (a_bytes a) = false).
  { unfold canonical in *. destruct (bool_decide_reflect (a_family a = F6)); cbn [andb] in *; [|congruence]. destruct (isV4Mapped (a_bytes a)); [done|by split]. }
  destruct Hc as [Hca Hn]. rewrite Hca in E, M. destruct Ha as [Hl Hb]. rewrite E in Hl. cbn [size] in Hl.
  assert (K : bytes_match (a_bytes a) mapped_block 96 = true); [|rewrite <- mapped_match in K by done; congruence].
  rewrite mapped_match in Hm by done. apply bytes_match_div in M; [|congruence|done|done|rewrite Hl; lia].
  apply bytes_match_div in Hm; [|done|done|by apply bytes_okb|rewrite Hlc; lia].
  apply bytes_match_div; [done|done|by apply bytes_okb|rewrite Hl; lia|]. rewrite Hl in *. rewrite Hlc in Hm. rewrite <- Hm.
  change (8 * Z.of_nat 16) with 128 in *. replace (128 - 96) with (128 - r_prefix c + (r_prefix c - 96)) by lia.
  rewrite <- !div_div_pow by lia. by rewrite M.
Qed.
