(* ===== verification/NetGuard.v ===== *)
(** * Address texts and the SSRF guard

    Model of [packages/core/src/tools/web/ip-display.ts] (addresses and ranges as a
    person writes them) and [packages/core/src/tools/web/guard.ts] (the decision that
    pins one address for a connection). Name resolution is a parameter. *)

From S2P Require Import Prelude NetIp.
From Stdlib Require Import Ascii.

(** ** Numerals and texts *)

Definition digit_char (d : Z) : ascii := Ascii.ascii_of_nat (Z.to_nat (if d <? 10 then 48 + d else 87 + d)).

Fixpoint text_of (fuel : nat) (base n : Z) (acc : list ascii) : list ascii :=
  match fuel with
  | O => acc
  | S f => let acc := digit_char (n mod base) :: acc in if n / base =? 0 then acc else text_of f base (n / base) acc
  end.

(** [String(n)] and [n.toString(16)]; the numbers here have at most five digits. *)
Definition decimal (n : Z) : list ascii := text_of 5 10 n [].
Definition hexadecimal (n : Z) : list ascii := text_of 5 16 n [].

(** [l.join(c)] *)
Fixpoint join (c : ascii) (l : list (list ascii)) : list ascii :=
  match l with [] => [] | [x] => x | x :: r => x ++ c :: join c r end.

(** The eight groups of sixteen bytes. *)
Fixpoint groups_of (b : list Z) : list Z :=
  match b with x :: y :: r => Z.lor (Z.shiftl x 8) y :: groups_of r | _ => [] end.

(** Length of the leading run of zeros. *)
Fixpoint zero_run (l : list Z) : nat := match l with 0 :: r => S (zero_run r) | _ => O end.

(** The first of the longest runs of zeros: [i] is the position of [l], [best] the run found so far (its
    start is not read while its length is below two). *)
(* @src tools/web/ip-display.ts 20 28 formatWitness *)
Fixpoint scan (fuel i : nat) (l : list Z) (best : nat * nat) : nat * nat :=
  match fuel with
  | O => best
  | S fuel =>
      match l with
      | [] => best
      | x :: r =>
          if negb (x =? 0) then scan fuel (S i) r best
          else let k := zero_run l in scan fuel (i + k) (drop k l) (if Nat.ltb best.2 k then (i, k) else best)
      end
  end.

(* @src tools/web/ip-display.ts 15 32 formatWitness *)
Definition formatWitness (address : ParsedAddress) : list ascii :=
  let a := canonical address in
  match a_family a with
  | F4 => join "." (map decimal (a_bytes a))
  | F6 =>
      let groups := groups_of (a_bytes a) in
      let '(start, length) := scan 9 0 groups (0, 0)%nat in
      let hex := map hexadecimal groups in
      if Nat.ltb length 2 then join ":" hex
      else join ":" (take start hex) ++ [":"; ":"]%char ++ join ":" (drop (start + length) hex)
  end.

(* @src tools/web/ip-display.ts 42 46 formatRange *)
Fixpoint mask_bytes (b : list Z) (prefix : Z) : list Z :=
  match b with
  | [] => []
  | x :: r =>
      let bits := Z.max 0 (Z.min 8 prefix) in
      Z.land x (if bits =? 0 then 0 else Z.land (Z.shiftl 255 (8 - bits)) 255) :: mask_bytes r (prefix - 8)
  end.

(** The family, bytes and prefix that are shown. *)
(* @src tools/web/ip-display.ts 40 41 formatRange *)
Definition shown (c : Cidr) : Cidr :=
  if bool_decide (r_family c = F6) && (96 <=? r_prefix c)
     && bool_decide (a_family (canonical {| a_family := r_family c; a_bytes := r_bytes c |}) = F4)
  then {| r_family := F4; r_bytes := drop 12 (r_bytes c); r_prefix := r_prefix c - 96 |} else c.

(* @src tools/web/ip-display.ts 39 48 formatRange *)
Definition formatRange (range : Cidr) : list ascii :=
  let c := shown range in
  formatWitness {| a_family := r_family c; a_bytes := mask_bytes (r_bytes c) (r_prefix c) |} ++ ["/"]%char ++ decimal (r_prefix c).

(** ** The guard *)

(* @src tools/web/guard.ts 7 10 ResolvedAddress *)
Record ResolvedAddress : Type := { address : list ascii; ra_family : family }.

(** The kinds of [WebFailure] the guard throws. *)
Inductive GuardFailure : Type := InvalidUrl | PrivateAddress | NotFound.

(* @src tools/web/guard.ts 20 26 AddressPolicy *)
Record AddressPolicy : Type := { allow : list Cidr; deny : list Cidr; forHost : list ascii -> list Cidr }.

(* @src tools/web/guard.ts 29 36 makeAddressPolicy *)
Definition makeAddressPolicy (allowCidrs : list (list ascii)) : option AddressPolicy :=
  option_map (fun l => {| allow := l; deny := []; forHost := fun _ => [] |}) (mapM parseCidr allowCidrs).

(* @src tools/web/guard.ts 38 44 formatAddress *)
Definition formatAddress (a : ParsedAddress) : list ascii :=
  let c := canonical a in
  match a_family c with
  | F4 => join "." (map decimal (a_bytes c))
  | F6 => join ":" (map hexadecimal (groups_of (a_bytes c)))
  end.

(* @src tools/web/guard.ts 46 54 admit *)
Definition admit_address (a : ParsedAddress) (policy : AddressPolicy) (host : list ascii) : result GuardFailure ResolvedAddress :=
  let c := canonical a in
  if existsb (inCidr c) (deny policy) then Err PrivateAddress
  else if negb (is_public (classifyAddress c)) && negb (existsb (inCidr c) (allow policy)) && negb (existsb (inCidr c) (forHost policy host))
  then Err PrivateAddress
  else Ok {| address := formatAddress c; ra_family := a_family c |}.

(** [s.endsWith(".")] and the text before it. *)
Definition drop_dot (s : list ascii) : list ascii :=
  match reverse s with c :: r => if Ascii.eqb c "." then reverse r else s | [] => s end.

Definition bad_host_char (c : ascii) : bool := is_space c || Ascii.eqb c "/" || Ascii.eqb c "\" || Ascii.eqb c "@".

(* @src tools/web/guard.ts 61 63 resolveGuarded *)
Definition host_name (host : list ascii) : list ascii := drop_dot (unbracket (map lower_ascii (trim_chars host))).

Definition localhost : list ascii := chars "localhost".

(** The name is "localhost" or ends in ".localhost". *)
(* @src tools/web/guard.ts 69 69 resolveGuarded *)
Definition is_localhost (name : list ascii) : bool :=
  bool_decide (name = localhost) || bool_decide (drop (length name - 10) name = "."%char :: localhost).

(** Each answer in turn; the first that fails is thrown. *)
(* @src tools/web/guard.ts 81 85 resolveGuarded *)
Fixpoint admit_all (answers : list ResolvedAddress) (policy : AddressPolicy) (name : list ascii) : result GuardFailure (list ResolvedAddress) :=
  match answers with
  | [] => Ok []
  | r :: rest =>
      match parseAddress (address r) false with
      | None => Err PrivateAddress
      | Some parsed => let* x := admit_address parsed policy name in let* l := admit_all rest policy name in Ok (x :: l)
      end
  end.

Section guard.
(** Name resolution: every address of the name, or a failure. *)
Context (resolver : list ascii -> option (list ResolvedAddress)).

(* @src tools/web/guard.ts 60 87 resolveGuarded *)
Definition resolveGuarded (host : list ascii) (policy : AddressPolicy) : result GuardFailure ResolvedAddress :=
  let name := host_name host in
  if bool_decide (name = []) || Nat.ltb 253 (length name) || existsb bad_host_char name then Err InvalidUrl
  else match parseAddress name false with
  | Some literal => admit_address literal policy name
  | None =>
      if is_localhost name then
        match parseAddress (chars "127.0.0.1") false with
        | Some loop => admit_address loop policy name
        | None => Err PrivateAddress
        end
      else match resolver name with
      | None => Err NotFound
      | Some [] => Err NotFound
      | Some answers =>
          let* admitted := admit_all answers policy name in
          match admitted with x :: _ => Ok x | [] => Err NotFound end
      end
  end.
End guard.
