(* ===== verification/NetGuardSpec.v ===== *)
(** * What address texts and the guard promise

    Theorems on [NetGuard]: an address written as text parses back to itself, in both
    notations; what the guard hands out is the text of one address that is allowed,
    and every answer of the resolver was. *)

From S2P Require Import Prelude NetIp NetSpan NetIpSpec NetGuard.
From Stdlib Require Import Ascii.

(** ** Numerals *)

Definition no_char (c : ascii) (l : list ascii) : bool := negb (has c l).
Definition is_hex (c : ascii) : bool := match hex_value c with Some _ => true | None => false end.

Definition octet_ok (n : Z) : bool :=
  let t := decimal n in
  canonical_octet t && bool_decide (parseV4Part t = Some n) && negb (bool_decide (t = [])) && forallb is_hex t.

Definition group_ok (n : Z) : bool :=
  let t := hexadecimal n in bool_decide (group_value t = Some n) && negb (bool_decide (t = [])) && forallb is_hex t.

Lemma octets_ok : forallb octet_ok (seqZ 0 256) = true.
Proof. vm_compute. reflexivity. Qed.

Lemma groups_ok : forallb (fun x => forallb (fun y => group_ok (x * 256 + y)) (seqZ 0 256)) (seqZ 0 256) = true.
Proof. vm_cast_no_check (eq_refl true). Qed.

Lemma octet_facts n : 0 <= n < 256 -> canonical_octet (decimal n) = true /\ parseV4Part (decimal n) = Some n /\ decimal n <> [] /\ forallb is_hex (decimal n) = true.
Proof.
  intros Hn. assert (H : octet_ok n = true) by (apply (every_byte octet_ok); [exact octets_ok|done]). unfold octet_ok in H. bool_hyps. done.
Qed.

Lemma group_facts n : 0 <= n < 65536 -> group_value (hexadecimal n) = Some n /\ hexadecimal n <> [] /\ forallb is_hex (hexadecimal n) = true.
Proof.
  intros Hn. pose proof (Z.div_mod n 256 ltac:(lia)). pose proof (Z.mod_pos_bound n 256 ltac:(lia)).
  assert (0 <= n / 256 < 256) by (split; [apply Z.div_pos; lia|apply Z.div_lt_upper_bound; lia]).
  assert (H2 : group_ok (n / 256 * 256 + n mod 256) = true).
  { pose proof (every_byte (fun x => forallb (fun y => group_ok (x * 256 + y)) (seqZ 0 256)) groups_ok (n / 256) ltac:(lia)) as G.
    apply (every_byte _ G). lia. }
  replace (n / 256 * 256 + n mod 256) with n in H2 by lia. unfold group_ok in H2. bool_hyps. done.
Qed.

(** ** Splitting what was joined *)

Lemma has_app c x y : has c (x ++ y) = has c x || has c y.
Proof. unfold has. apply existsb_app. Qed.

Lemma split_on_free c l : has c l = false -> split_on c l = [l].
Proof.
  induction l as [|x l IH]; [done|]. unfold has. cbn [existsb split_on]. intros H. apply orb_false_iff in H as [H1 H2]. rewrite IH by exact H2.
  rewrite Ascii.eqb_sym in H1. by rewrite H1.
Qed.

Lemma split_on_step c x r : has c x = false -> split_on c (x ++ c :: r) = x :: split_on c r.
Proof.
  induction x as [|y x IH]; intros H; cbn [app split_on].
  - rewrite Ascii.eqb_refl. destruct (split_on c r) eqn:E; [|done]. destruct r as [|z r]; cbn in E; [done|]. destruct (split_on c r); [done|]. by destruct (Ascii.eqb z c).
  - unfold has in H. cbn [existsb] in H. apply orb_false_iff in H as [H1 H2]. rewrite IH by exact H2. rewrite Ascii.eqb_sym in H1. by rewrite H1.
Qed.

Lemma split_on_join c l : l <> [] -> forallb (no_char c) l = true -> split_on c (join c l) = l.
Proof.
  induction l as [|x l IH]; [done|]. intros _. cbn [forallb]. intros H. bool_hyps. unfold no_char in *. bool_hyps. destruct l as [|y l].
  - by apply split_on_free.
  - change (join c (x :: y :: l)) with (x ++ c :: join c (y :: l)). rewrite split_on_step by done. f_equal. by apply IH.
Qed.

(** Texts of hexadecimal digits hold none of the separators. *)
Lemma hex_free c l : is_hex c = false -> forallb is_hex l = true -> has c l = false.
Proof.
  intros Hc Hl. unfold has. apply not_true_is_false. intros (x & Hx & E)%existsb_elem. apply Ascii.eqb_eq in E as <-.
  apply (proj1 (forallb_elem _ _) Hl) in Hx. congruence.
Qed.

Lemma hex_space x : is_hex x = true -> is_space x = false.
Proof. destruct x as [[] [] [] [] [] [] [] []]; vm_compute; congruence. Qed.

(** Text made of digits and separators is neither trimmed nor unbracketed. *)
Definition plain_char (c : ascii) : bool := is_hex c || Ascii.eqb c ":" || Ascii.eqb c ".".

Lemma plain_space x : plain_char x = true -> is_space x = false /\ Ascii.eqb x "[" = false.
Proof. destruct x as [[] [] [] [] [] [] [] []]; vm_compute; split; congruence. Qed.

Lemma drop_space_plain l : forallb plain_char l = true -> drop_space l = l.
Proof. destruct l as [|x l]; [done|]. cbn [forallb drop_space]. intros H. bool_hyps. by rewrite (proj1 (plain_space x H)). Qed.

Lemma forallb_reverse {A} (p : A -> bool) l : forallb p (reverse l) = forallb p l.
Proof. apply eq_true_iff_eq. rewrite !forallb_elem. by setoid_rewrite elem_of_reverse. Qed.

Lemma trim_plain l : forallb plain_char l = true -> trim_chars l = l.
Proof.
  intros H. unfold trim_chars. rewrite (drop_space_plain l H), drop_space_plain by (by rewrite forallb_reverse). apply reverse_involutive.
Qed.

Lemma unbracket_plain l : forallb plain_char l = true -> unbracket l = l.
Proof.
  destruct l as [|x l]; [done|]. cbn [forallb unbracket]. intros H. bool_hyps. rewrite (proj2 (plain_space x H)). by destruct (reverse l).
Qed.

Lemma parse_plain l strict : forallb plain_char l = true -> l <> [] -> parseAddress l strict =
  if has ":" l then option_map (fun b => {| a_family := F6; a_bytes := b |}) (parseV6 l)
  else option_map (fun b => {| a_family := F4; a_bytes := b |}) (parseV4 l strict).
Proof.
  intros H Hn. unfold parseAddress. rewrite trim_plain, unbracket_plain by done. by rewrite bool_decide_eq_false_2.
Qed.

Lemma join_plain c l : plain_char c = true -> forallb (forallb is_hex) l = true -> forallb plain_char (join c l) = true.
Proof.
  intros Hc. assert (P : forall x, forallb is_hex x = true -> forallb plain_char x = true).
  { intros x Hx. apply forallb_elem. intros y Hy. apply (proj1 (forallb_elem _ _) Hx) in Hy. unfold plain_char. by rewrite Hy. }
  induction l as [|x l IH]; [done|]. cbn [forallb]. intros H. bool_hyps. destruct l as [|y l]; [by apply P|].
  change (join c (x :: y :: l)) with (x ++ c :: join c (y :: l)). rewrite forallb_app. cbn [forallb]. rewrite P, Hc, IH by done. done.
Qed.

Lemma forallb_map {A B} (p : B -> bool) (f : A -> B) l : forallb p (map f l) = forallb (fun x => p (f x)) l.
Proof. induction l as [|x l IH]; [done|]. cbn. by rewrite IH. Qed.

Lemma mapM_map {A B} (f : A -> B) (g : B -> option A) l : (forall x, x ∈ l -> g (f x) = Some x) -> mapM g (map f l) = Some l.
Proof.
  induction l as [|x l IH]; intros H; [done|]. cbn. rewrite (H x) by left. cbn. rewrite IH by (intros y Hy; apply H; by right). done.
Qed.

(** ** IPv4 *)

Lemma parseV4_decimal b strict : length b = 4%nat -> bytes_ok b -> parseV4 (join "." (map decimal b)) strict = Some b.
Proof.
  intros Hl Hb. assert (F : forall x, x ∈ b -> canonical_octet (decimal x) = true /\ parseV4Part (decimal x) = Some x /\ forallb is_hex (decimal x) = true).
  { intros x Hx. destruct (octet_facts x (Hb x Hx)) as (? & ? & _ & ?). done. }
  unfold parseV4. rewrite split_on_join.
  - rewrite length_map, Hl. cbn [Nat.ltb Nat.leb Nat.eqb orb andb negb]. rewrite andb_false_r. rewrite forallb_map.
    rewrite (proj2 (forallb_elem (fun x => canonical_octet (decimal x)) b)) by (intros x Hx; by apply F). rewrite andb_false_r.
    rewrite mapM_map by (intros x Hx; by apply F). do 4 (destruct b as [|? b]; [discriminate Hl|]). destruct b; [|discriminate Hl].
    repeat match goal with Hx : bytes_ok (_ :: _) |- _ => apply bytes_ok_cons in Hx as [? Hx] end.
    cbn -[Z.leb Z.ltb b256 Z.pow Z.of_nat]. repeat (rewrite (proj2 (Z.ltb_ge 255 _)) by lia). cbn [orb].
    replace (5 - Z.of_nat 4) with 1 by lia. change (256 ^ 1) with 256. replace (256 <=? z2) with false by (symmetry; apply Z.leb_gt; lia).
    change (reverse (seqZ 0 1)) with [0]. cbn [map]. unfold b256. change (256 ^ 0) with 1. by rewrite Z.div_1_r, Z.mod_small by lia.
  - by destruct b.
  - rewrite forallb_map. apply forallb_elem. intros x Hx. unfold no_char. by rewrite hex_free; [|done|apply F].
Qed.

(** ** IPv6 *)

Lemma doubles_free i h r : has ":" h = false -> doubles i (h ++ r) = doubles (i + length h) r.
Proof.
  revert i. induction h as [|x h IH]; intros i H; [by rewrite Nat.add_0_r|]. unfold has in H. cbn [existsb] in H. apply orb_false_iff in H as [H1 H2].
  cbn [app length]. rewrite <- Nat.add_succ_comm, <- IH by exact H2. cbn [doubles]. rewrite Ascii.eqb_sym, H1. by destruct (h ++ r).
Qed.

Lemma doubles_colon i r : match r with y :: _ => Ascii.eqb y ":" = false | [] => True end -> doubles i (":"%char :: r) = doubles (S i) r.
Proof. destruct r as [|y r]; [done|]. intros H. cbn [doubles]. by rewrite H, andb_false_r. Qed.

(** A text of hexadecimal digits that is not empty. *)
Definition hex_text (t : list ascii) : Prop := t <> [] /\ forallb is_hex t = true.

Lemma hex_text_head t r : hex_text t -> match t ++ r with y :: _ => Ascii.eqb y ":" = false | [] => True end.
Proof.
  intros [Hn Ht]. destruct t as [|y t]; [done|]. cbn [forallb app] in *. bool_hyps. destruct (Ascii.eqb y ":") eqn:E; [|done].
  apply Ascii.eqb_eq in E as ->. discriminate.
Qed.

Lemma join_head l r : (forall t, t ∈ l -> hex_text t) -> l <> [] -> match join ":" l ++ r with y :: _ => Ascii.eqb y ":" = false | [] => True end.
Proof.
  intros H Hn. destruct l as [|x [|y l]]; [done|apply hex_text_head, H; left|]. change (join ":" (x :: y :: l)) with (x ++ ":"%char :: join ":" (y :: l)).
  rewrite <- app_assoc. apply hex_text_head, H. left.
Qed.

Lemma doubles_join l : (forall t, t ∈ l -> hex_text t) -> forall i r, doubles i (join ":" l ++ r) = doubles (i + length (join ":" l)) r.
Proof.
  induction l as [|x l IH]; intros H i r; [by rewrite Nat.add_0_r|]. destruct (H x ltac:(left)) as [_ Hx]. assert (Fx : has ":" x = false) by (by apply hex_free).
  destruct l as [|y l]; [by apply doubles_free|]. change (join ":" (x :: y :: l)) with (x ++ ":"%char :: join ":" (y :: l)).
  rewrite <- app_assoc, doubles_free by done. cbn [app]. rewrite doubles_colon.
  - rewrite IH by (intros t Ht; apply H; by right). f_equal. rewrite length_app. cbn [length]. lia.
  - apply (join_head (y :: l)); [intros t Ht; apply H; by right|done].
Qed.

Lemma last_colon_some s : has ":" s = true -> exists pre post, last_colon s = Some (pre, post) /\ s = pre ++ post.
Proof.
  induction s as [|x s IH]; [done|]. unfold has. cbn [existsb last_colon]. intros H. destruct (last_colon s) as [[a b]|] eqn:E.
  - eexists _, _. split; [done|]. destruct (has ":" s) eqn:F.
    + destruct (IH eq_refl) as (p & q & [= <- <-] & ->). done.
    + exfalso. clear -E F. revert a b E. induction s as [|y s IH]; intros a b E; [done|]. unfold has in F. cbn [existsb] in F. apply orb_false_iff in F as [F1 F2].
      cbn [last_colon] in E. destruct (last_colon s) as [[p q]|]; [by eapply IH|]. rewrite Ascii.eqb_sym in F1. by rewrite F1 in E.
  - destruct (Ascii.eqb x ":") eqn:F; [eexists _, _; done|]. rewrite Ascii.eqb_sym in F. rewrite F in H. cbn in H. by destruct (IH H) as (p & q & ? & _).
Qed.

Definition colon_hex (c : ascii) : bool := is_hex c || Ascii.eqb c ":".

Lemma colon_hex_char c : colon_hex c = true -> v6_char c = true /\ plain_char c = true /\ Ascii.eqb "." c = false.
Proof. destruct c as [[] [] [] [] [] [] [] []]; vm_compute; intros H; first [discriminate H|by split_and!]. Qed.

Lemma parseV6_groups s g : forallb colon_hex s = true -> has ":" s = true -> v6_groups s [] = Some g -> length g = 8%nat -> parseV6 s = Some (g ≫= two_bytes).
Proof.
  intros Hs Hc Hg Hl. unfold parseV6. rewrite forallb_elem in Hs. assert (Hn : s <> []) by (intros ->; done).
  rewrite bool_decide_eq_true_2 by done. rewrite (proj2 (forallb_elem v6_char s)) by (intros c Hin; by apply colon_hex_char, Hs). rewrite Hc. cbn [andb negb].
  destruct (last_colon_some s Hc) as (pre & post & E & Es). rewrite E. assert (F : has "." post = false).
  { unfold has. apply not_true_is_false. intros (c & Hin & Hd)%existsb_elem. destruct (colon_hex_char c) as (_ & _ & N); [|congruence].
    apply Hs. rewrite Es. apply elem_of_app. by right. }
  rewrite F. cbv zeta. by rewrite Hg, Hl.
Qed.

Definition small (g : list Z) : Prop := forall x, x ∈ g -> 0 <= x < 65536.

Lemma hex_texts g : small g -> forall t, t ∈ map hexadecimal g -> hex_text t.
Proof. intros H t (x & -> & Hx)%elem_of_map. destruct (group_facts x (H x Hx)) as (_ & ? & ?). done. Qed.

Lemma toGroups_join g : small g -> toGroups (join ":" (map hexadecimal g)) = Some g.
Proof.
  intros H. pose proof (hex_texts g H) as T. destruct g as [|x g]; [done|]. assert (Hn : join ":" (map hexadecimal (x :: g)) <> []).
  { destruct (T (hexadecimal x) ltac:(left)) as [N _]. cbn [map]. destruct g as [|y g]; [exact N|]. cbn [map].
    change (join ":" (hexadecimal x :: hexadecimal y :: map hexadecimal g)) with (hexadecimal x ++ ":"%char :: join ":" (hexadecimal y :: map hexadecimal g)). by destruct (hexadecimal x). }
  unfold toGroups. destruct (join ":" _) as [|c r] eqn:E; [done|]. rewrite <- E. rewrite split_on_join; [|done|].
  - apply mapM_map. intros z Hz. by destruct (group_facts z (H z Hz)).
  - apply forallb_elem. intros t Ht. unfold no_char. destruct (T t Ht) as [_ F]. by rewrite hex_free.
Qed.

Lemma small_app x y : small (x ++ y) <-> small x /\ small y.
Proof. unfold small. setoid_rewrite elem_of_app. naive_solver. Qed.

Lemma join_has l : (2 <= length l)%nat -> has ":" (join ":" l) = true.
Proof.
  destruct l as [|x [|y l]]; cbn [length]; try lia. intros _. change (join ":" (x :: y :: l)) with (x ++ ":"%char :: join ":" (y :: l)).
  rewrite has_app. unfold has at 2. cbn. apply orb_true_r.
Qed.

Lemma join_colon_hex l : (forall t, t ∈ l -> hex_text t) -> forallb colon_hex (join ":" l) = true.
Proof.
  assert (P : forall x, hex_text x -> forallb colon_hex x = true).
  { intros x [_ Hx]. apply forallb_elem. intros y Hy. apply (proj1 (forallb_elem _ _) Hx) in Hy. unfold colon_hex. by rewrite Hy. }
  induction l as [|x l IH]; intros H; [done|]. destruct l as [|y l]; [apply P, H; left|].
  change (join ":" (x :: y :: l)) with (x ++ ":"%char :: join ":" (y :: l)). rewrite forallb_app. cbn [forallb]. rewrite P by (apply H; left).
  rewrite IH by (intros t Ht; apply H; by right). done.
Qed.

(** Eight groups in full. *)
Lemma full_groups g : small g -> length g = 8%nat -> parseV6 (join ":" (map hexadecimal g)) = Some (g ≫= two_bytes).
Proof.
  intros H Hl. pose proof (hex_texts g H) as T. apply parseV6_groups; [by apply join_colon_hex|apply join_has; rewrite length_map, Hl; lia| |done].
  unfold v6_groups. rewrite <- (app_nil_r (join _ _)) at 1. rewrite doubles_join by done. cbn [doubles]. rewrite toGroups_join by done. by rewrite app_nil_r.
Qed.

(** The groups on both sides of a run of zeros. *)
Lemma short_groups x n y : small x -> small y -> (2 <= n)%nat -> (length x + n + length y = 8)%nat ->
  parseV6 (join ":" (map hexadecimal x) ++ [":"; ":"]%char ++ join ":" (map hexadecimal y)) = Some ((x ++ replicate n 0 ++ y) ≫= two_bytes).
Proof.
  intros Hx Hy Hn Hl. pose proof (hex_texts x Hx) as Tx. pose proof (hex_texts y Hy) as Ty. apply parseV6_groups.
  - rewrite !forallb_app. rewrite !join_colon_hex by done. done.
  - rewrite !has_app. cbn. apply orb_true_r.
  - unfold v6_groups. rewrite doubles_join by done. set (J := join ":" (map hexadecimal y)). cbn [app].
    assert (Hd : match J with c :: _ => Ascii.eqb c ":" = false | [] => True end).
    { unfold J. destruct y as [|z y]; [done|]. pose proof (join_head (map hexadecimal (z :: y)) [] Ty) as Hh. rewrite app_nil_r in Hh. by apply Hh. }
    change (doubles (0 + length (join ":" (map hexadecimal x))) (":"%char :: ":"%char :: J))
      with ((length (join ":" (map hexadecimal x))) :: doubles (S (length (join ":" (map hexadecimal x)))) (":"%char :: J)).
    rewrite doubles_colon by exact Hd. unfold J at 1. rewrite <- (app_nil_r (join ":" (map hexadecimal y))), doubles_join by done. cbn [doubles].
    rewrite take_app_length, toGroups_join by done.
    replace (drop (length (join ":" (map hexadecimal x)) + 2) (join ":" (map hexadecimal x) ++ ":"%char :: ":"%char :: J)) with J
      by (rewrite drop_app_add; done).
    unfold J. rewrite toGroups_join by done. cbn [length]. replace (8 - Z.of_nat (length x) - Z.of_nat (length y) - Z.of_nat 0) with (Z.of_nat n) by lia.
    replace (Z.of_nat n <? 1) with false by (symmetry; apply Z.ltb_ge; lia). by rewrite Nat2Z.id, app_nil_r.
  - rewrite !length_app, length_replicate. lia.
Qed.

(** ** The longest run *)

Definition run_ok (g : list Z) (best : nat * nat) : Prop := (best.1 + best.2 <= length g)%nat /\ take best.2 (drop best.1 g) = replicate best.2 0.

Lemma zero_run_spec l : (zero_run l <= length l)%nat /\ take (zero_run l) l = replicate (zero_run l) 0.
Proof.
  induction l as [|x l [IH1 IH2]]; [done|]. cbn [zero_run]. destruct x; cbn; [|split; [lia|done]..]. split; [lia|by f_equal].
Qed.

Lemma scan_ok g fuel : forall i best, (i <= length g)%nat -> run_ok g best -> run_ok g (scan fuel i (drop i g) best).
Proof.
  induction fuel as [|fuel IH]; intros i best Hi Hb; [done|]. cbn [scan]. destruct (drop i g) as [|x r] eqn:E; [done|].
  assert (Hlen : (length (x :: r) = length g - i)%nat) by (by rewrite <- E, length_drop). cbn [length] in Hlen. destruct (negb (x =? 0)).
  - replace r with (drop (S i) g); [apply IH; [lia|done]|]. rewrite <- Nat.add_1_r, <- drop_drop, E. done.
  - rewrite <- E, drop_drop. destruct (zero_run_spec (drop i g)) as [H1 H2]. rewrite length_drop in H1.
    apply IH; [lia|]. destruct (Nat.ltb _ _); [|done]. split; cbn [fst snd]; [lia|done].
Qed.

(** ** Round trips *)

Lemma groups_of_ok b : length b = 16%nat -> bytes_ok b -> length (groups_of b) = 8%nat /\ small (groups_of b) /\ groups_of b ≫= two_bytes = b.
Proof.
  intros H Hb. assert (W : forall x y, 0 <= x < 256 -> 0 <= y < 256 -> 0 <= Z.lor (Z.shiftl x 8) y < 65536 /\ two_bytes (Z.lor (Z.shiftl x 8) y) = [x; y]).
  { intros x y Hx Hy. rewrite lor_high by lia. rewrite Z.shiftl_mul_pow2 by lia. change (2 ^ 8) with 256. split; [lia|]. unfold two_bytes.
    rewrite Z.shiftr_div_pow2 by lia. change (2 ^ 8) with 256. change 255 with (Z.ones 8). rewrite Z.land_ones by lia. change (2 ^ 8) with 256.
    rewrite Z.div_add_l, (Z.div_small y) by lia. rewrite Z.add_0_r, (Z.add_comm (x * 256)), Z.mod_add, Z.mod_small by lia. done. }
  assert (W2 : forall x y, 0 <= x < 256 -> 0 <= y < 256 -> two_bytes (Z.lor (Z.shiftl x 8) y) = [x; y]) by (intros; by apply W).
  sixteen b H Hb. cbn [groups_of]. split; [done|]. split.
  - intros g Hg. repeat (apply elem_of_cons in Hg as [->|Hg]; [by apply W|]). by apply elem_of_nil in Hg.
  - cbn [mbind list_bind]. rewrite !W2 by done. done.
Qed.

Lemma format_v4 b strict : length b = 4%nat -> bytes_ok b -> parseAddress (join "." (map decimal b)) strict = Some {| a_family := F4; a_bytes := b |}.
Proof.
  intros Hl Hb. assert (Hh : forallb (forallb is_hex) (map decimal b) = true).
  { rewrite forallb_map. apply forallb_elem. intros x Hx. by destruct (octet_facts x (Hb x Hx)) as (_ & _ & _ & ?). }
  assert (Hp : forallb plain_char (join "." (map decimal b)) = true) by by apply join_plain.
  rewrite parse_plain; [|done|].
  - assert (N : has ":" (join "." (map decimal b)) = false).
    { clear -Hh. induction b as [|x [|y b] IH]; [done| |].
      - cbn [map join forallb] in *. bool_hyps. by apply hex_free.
      - cbn [map forallb] in Hh. bool_hyps. cbn [map] in *. change (join "." (decimal x :: decimal y :: map decimal b)) with (decimal x ++ "."%char :: join "." (decimal y :: map decimal b)).
        rewrite has_app, hex_free by done. unfold has at 1. cbn [existsb Ascii.eqb]. apply IH. cbn [forallb]. by rewrite H0, H1. }
    by rewrite N, parseV4_decimal.
  - destruct b as [|x b]; [done|]. destruct (octet_facts x (Hb x ltac:(left))) as (_ & _ & Nn & _). destruct b as [|y b]; [exact Nn|].
    cbn [map]. change (join "." (decimal x :: decimal y :: map decimal b)) with (decimal x ++ "."%char :: join "." (decimal y :: map decimal b)). by destruct (decimal x).
Qed.

Lemma parse_v6 t b strict : forallb colon_hex t = true -> has ":" t = true -> parseV6 t = Some b -> parseAddress t strict = Some {| a_family := F6; a_bytes := b |}.
Proof.
  intros Hc Hh Hp. rewrite parse_plain; [by rewrite Hh, Hp| |by intros ->]. apply forallb_elem. intros c Hin. apply (proj1 (forallb_elem _ _) Hc) in Hin.
  by apply colon_hex_char.
Qed.

Lemma format_full b strict : length b = 16%nat -> bytes_ok b ->
  parseAddress (join ":" (map hexadecimal (groups_of b))) strict = Some {| a_family := F6; a_bytes := b |}.
Proof.
  intros Hl Hb. destruct (groups_of_ok b Hl Hb) as (L & S & B). pose proof (hex_texts _ S) as T.
  apply parse_v6; [by apply join_colon_hex|apply join_has; rewrite length_map, L; lia|]. by rewrite full_groups, B.
Qed.

Lemma format_short b strict : length b = 16%nat -> bytes_ok b -> isV4Mapped b = false ->
  parseAddress (formatWitness {| a_family := F6; a_bytes := b |}) strict = Some {| a_family := F6; a_bytes := b |}.
Proof.
  intros Hl Hb Hm. unfold formatWitness. rewrite canonical_f6 by done. cbn [a_family a_bytes]. destruct (groups_of_ok b Hl Hb) as (L & S & B).
  assert (R : run_ok (groups_of b) (scan 9 0 (groups_of b) (0, 0)%nat)).
  { apply (scan_ok (groups_of b) 9 0 (0, 0)%nat); [lia|]. split; [cbn; lia|done]. }
  destruct (scan 9 0 (groups_of b) (0, 0)%nat) as [start n]. destruct R as [R1 R2]. cbn [fst snd] in R1, R2.
  destruct (Nat.ltb_spec n 2) as [C|C]; [by apply format_full|]. set (x := take start (groups_of b)). set (y := drop (start + n) (groups_of b)).
  assert (E : groups_of b = x ++ replicate n 0 ++ y).
  { rewrite <- R2. unfold x, y. rewrite <- drop_drop, !take_drop. done. }
  assert (Ex : take start (map hexadecimal (groups_of b)) = map hexadecimal x) by apply List.firstn_map.
  assert (Ey : drop (start + n) (map hexadecimal (groups_of b)) = map hexadecimal y) by apply List.skipn_map.
  rewrite Ex, Ey. rewrite E in S, L. apply small_app in S as [Sx S]. apply small_app in S as [_ Sy]. rewrite !length_app, length_replicate in L.
  apply parse_v6.
  - rewrite !forallb_app. rewrite !join_colon_hex by (by apply hex_texts). done.
  - rewrite !has_app. cbn. apply orb_true_r.
  - rewrite (short_groups x n y) by (done || lia). by rewrite <- E, B.
Qed.

Lemma format_parses a strict : valid a ->
  parseAddress (formatAddress a) strict = Some (canonical a) /\ parseAddress (formatWitness a) strict = Some (canonical a).
Proof.
  intros Ha. unfold formatAddress, formatWitness. pose proof (canonical_valid a Ha) as [Hl Hb]. pose proof (canonical_idem a) as Hi.
  destruct (canonical a) as [[] b]; cbn [a_family a_bytes size] in *; [split; by apply format_v4|]. split; [by apply format_full|].
  assert (Hm : isV4Mapped b = false).
  { unfold canonical in Hi. cbn [a_family a_bytes] in Hi. rewrite bool_decide_eq_true_2 in Hi by done. cbn [andb] in Hi. by destruct (isV4Mapped b). }
  pose proof (format_short b strict Hl Hb Hm) as F. unfold formatWitness in F. rewrite canonical_f6 in F by done. exact F.
Qed.

(** What is written reads back. Both notations of a well-formed address, in full and shortened at its
    longest run of zero groups, parse to that address (a mapped one to the IPv4 address it carries),
    also under the strict rules of the configuration. *)
Theorem address_text_round_trip a strict : valid a ->
  parseAddress (formatAddress a) strict = Some (canonical a) /\ parseAddress (formatWitness a) strict = Some (canonical a).
Proof. apply format_parses. Qed.

(** ** What parses is well formed *)

Lemma hex_value_range c d : hex_value c = Some d -> 0 <= d < 16.
Proof.
  unfold hex_value. cbv zeta. repeat (match goal with |- (if ?b then _ else _) = _ -> _ => destruct b eqn:? end); intros H; simplify_eq; bool_hyps; lia.
Qed.

Lemma numeral_range base l : 0 < base -> forall acc n, 0 <= acc -> numeral base acc l = Some n -> 0 <= n < (acc + 1) * base ^ Z.of_nat (length l).
Proof.
  intros Hbase. induction l as [|c l IH]; intros acc n Ha; [intros [= <-]; cbn; lia|]. cbn [numeral length].
  destruct (hex_value c) as [d|] eqn:E; [|done]. apply hex_value_range in E. destruct (d <? base) eqn:D; [|done]. bool_hyps. intros H.
  apply IH in H; [|nia]. rewrite Nat2Z.inj_succ, Z.pow_succ_r by lia. assert (0 < base ^ Z.of_nat (length l)) by (apply Z.pow_pos_nonneg; lia). nia.
Qed.

Lemma part_nonneg t n : parseV4Part t = Some n -> 0 <= n.
Proof.
  assert (N : forall base l m, 0 < base -> numeral base 0 l = Some m -> 0 <= m) by (intros base l m Hb H; by apply (numeral_range base l Hb 0 m ltac:(lia) H)).
  unfold parseV4Part. destruct t as [|c r]; [done|]. destruct (Ascii.eqb c "0"); [|by apply N]. destruct r as [|x h]; [by intros [= <-]|].
  destruct (_ && _); by apply N.
Qed.

Lemma parseV4_ok s strict b : parseV4 s strict = Some b -> length b = 4%nat /\ bytes_ok b.
Proof.
  unfold parseV4. cbv zeta. destruct (_ || _) eqn:E; [done|]. destruct (strict && negb (Nat.eqb _ _)); [done|]. destruct (strict && _); [done|].
  destruct (mapM parseV4Part _) as [nums|] eqn:Em; [|done]. destruct (_ <=? _); [done|]. destruct (existsb _ _) eqn:Ei; [done|]. intros [= <-].
  apply mapM_Some in Em. pose proof (Forall2_length Em) as Hlen. apply orb_false_iff in E as [E1 E2]. apply Nat.ltb_ge in E1, E2. split.
  - rewrite length_app, length_take, length_map, length_reverse, length_seqZ. lia.
  - apply bytes_ok_app. split.
    + intros x Hx. pose proof (existsb_false_elem _ _ _ Ei Hx) as Hle. apply Z.ltb_ge in Hle.
      assert (Hin : x ∈ nums) by (rewrite <- (take_drop (length (split_on "." s) - 1) nums); apply elem_of_app; by left).
      apply list_elem_of_lookup in Hin as [i Hi]. eapply Forall2_lookup_r in Em as (t & _ & Ht); [|exact Hi]. apply part_nonneg in Ht. lia.
    + intros x (i & -> & _)%elem_of_map. unfold b256. apply Z.mod_pos_bound. lia.
Qed.

Lemma group_small t n : group_value t = Some n -> 0 <= n < 65536.
Proof.
  unfold group_value. destruct (_ && _) eqn:E; [|done]. intros H. apply numeral_range in H; [|lia..]. apply andb_true_iff in E as [_ E]. apply Nat.leb_le in E.
  assert (16 ^ Z.of_nat (length t) <= 16 ^ 4) by (apply Z.pow_le_mono_r; lia). lia.
Qed.

Lemma toGroups_small t g : toGroups t = Some g -> small g.
Proof.
  unfold toGroups. destruct t as [|c t]; [intros [= <-]; by intros x ?%elem_of_nil|]. intros H%mapM_Some x Hx.
  apply list_elem_of_lookup in Hx as [i Hi]. eapply Forall2_lookup_r in H as (u & _ & Hu); [|exact Hi]. by eapply group_small.
Qed.

Lemma v6_groups_small h t g : small t -> v6_groups h t = Some g -> small g.
Proof.
  intros Ht. unfold v6_groups. destruct (doubles 0 h) as [|d [|? ?]]; [| |done].
  - destruct (toGroups h) eqn:E; [|done]. intros [= <-]. apply small_app. split; [by eapply toGroups_small|done].
  - destruct (toGroups (take d h)) eqn:Ea; [|done]. destruct (toGroups (drop (d + 2) h)) eqn:Eb; [|done]. destruct (_ <? 1); [done|]. intros [= <-].
    rewrite !small_app. split_and!; [by eapply toGroups_small| |by eapply toGroups_small|done]. intros x Hx. apply elem_of_replicate in Hx as [-> _]. lia.
Qed.

Lemma byte_default b i : bytes_ok b -> 0 <= default 0 (b !! i) < 256.
Proof. intros Hb. destruct (b !! i) eqn:E; cbn; [|lia]. apply Hb. by eapply list_elem_of_lookup_2. Qed.

Lemma parseV6_ok s b : parseV6 s = Some b -> length b = 16%nat /\ bytes_ok b.
Proof.
  unfold parseV6. destruct (negb _); [done|]. destruct (last_colon s) as [[pre post]|]; [|done].
  destruct (if has "." post then parseV4 post true else Some []) as [v4|] eqn:E4; [|done]. cbv zeta.
  assert (B4 : bytes_ok v4) by (destruct (has "." post); [by apply parseV4_ok in E4 as [_ ?]|injection E4 as <-; by intros x ?%elem_of_nil]).
  destruct (v6_groups _ _) as [g|] eqn:Eg; [|done]. destruct (Nat.eqb_spec (length g) 8) as [L|]; [|done]. intros [= <-].
  assert (S : small g).
  { eapply v6_groups_small; [|exact Eg]. destruct (has "." post); [|by intros x ?%elem_of_nil]. intros x Hx.
    assert (exists i, x = Z.lor (Z.shiftl (default 0 (v4 !! i)) 8) (default 0 (v4 !! Datatypes.S i))) as [i ->].
    { apply elem_of_cons in Hx as [->|Hx]; [by exists 0%nat|]. apply list_elem_of_singleton in Hx as ->. by exists 2%nat. }
    pose proof (byte_default v4 i B4). pose proof (byte_default v4 (Datatypes.S i) B4). rewrite lor_high by lia. rewrite Z.shiftl_mul_pow2 by lia. lia. }
  clear -L S. do 8 (destruct g as [|? g]; [discriminate L|]). destruct g; [|discriminate L]. split; [done|].
  assert (W : forall x, 0 <= x < 65536 -> bytes_ok (two_bytes x)).
  { intros x Hx. unfold two_bytes. rewrite Z.shiftr_div_pow2 by lia. change 255 with (Z.ones 8). rewrite Z.land_ones by lia. change (2 ^ 8) with 256.
    intros y [->|Hy%list_elem_of_singleton]%elem_of_cons; [|subst y]; [split; [apply Z.div_pos; lia|apply Z.div_lt_upper_bound; lia]|apply Z.mod_pos_bound; lia]. }
  cbn [mbind list_bind]. repeat (apply bytes_ok_app; split; [apply W, S; set_solver|]). intros x Hx. by apply elem_of_nil in Hx.
Qed.

Lemma parsed_valid s strict a : parseAddress s strict = Some a -> valid a.
Proof.
  unfold parseAddress. destruct (bool_decide _); [done|]. destruct (has ":" _).
  - destruct (parseV6 _) as [b|] eqn:E; [|done]. intros [= <-]. by apply parseV6_ok in E.
  - destruct (parseV4 _ _) as [b|] eqn:E; [|done]. intros [= <-]. by apply parseV4_ok in E.
Qed.

(** Whatever the text, what parses is well formed: four bytes or sixteen, each below 256; and a range has
    a prefix no longer than its address. Legacy spellings that overflow an octet or 32 bits do not parse. *)
Theorem parsed_well_formed s strict :
  (forall a, parseAddress s strict = Some a -> valid a) /\ (forall c, parseCidr s = Some c -> valid_range c).
Proof.
  split; [apply parsed_valid|]. intros c. unfold parseCidr. cbv zeta. destruct (Nat.ltb _ _); [done|]. destruct (parseAddress _ true) as [a|] eqn:E; [|done].
  apply parsed_valid in E as [Hl Hb]. set (max := match a_family a with F4 => 32 | F6 => 128 end).
  assert (M : max = 8 * Z.of_nat (size (a_family a))) by (unfold max; by destruct (a_family a)).
  assert (D : valid_range {| r_family := a_family a; r_bytes := a_bytes a; r_prefix := max |}) by (split_and!; cbn; [done|done|lia|lia]).
  destruct (split_on "/" s) as [|? [|p [|? ?]]]; try (intros [= <-]; exact D).
  destruct (prefix_value p) as [n|] eqn:Ep; [|done]. destruct (max <? n) eqn:Em; [done|]. intros [= <-]. bool_hyps.
  split_and!; cbn; try done; [|lia]. unfold prefix_value in Ep. destruct (_ && _); [|done]. apply numeral_range in Ep; lia.
Qed.

(** ** The guard *)

(** An address that the policy lets through: not excluded, and public or allowed. *)
Definition admissible (policy : AddressPolicy) (name : list ascii) (a : ParsedAddress) : Prop :=
  (forall c, c ∈ deny policy -> inCidr a c = false)
  /\ (special a = false \/ exists c, (c ∈ allow policy \/ c ∈ forHost policy name) /\ inCidr a c = true).

(** The text and family of an address that was let through. *)
Definition pins (policy : AddressPolicy) (name : list ascii) (r : ResolvedAddress) : Prop :=
  exists a, valid a /\ canonical a = a /\ (forall strict, parseAddress (address r) strict = Some a) /\ ra_family r = a_family a /\ admissible policy name a.

Lemma admit_ok a policy name r : valid a -> admit_address a policy name = Ok r -> pins policy name r /\ admissible policy name (canonical a).
Proof.
  intros Ha. unfold admit_address. cbv zeta. destruct (existsb _ (deny policy)) eqn:Ed; [done|]. destruct (_ && _) eqn:E; [done|]. intros [= <-].
  assert (A : admissible policy name (canonical a)).
  { split; [intros c Hc; by apply (existsb_false_elem _ _ _ Ed)|]. rewrite public_special, negb_involutive in E by by apply canonical_valid.
    destruct (special (canonical a)); [right|by left]. cbn [andb] in E. apply andb_false_iff in E as [E|E]; apply negb_false_iff, existsb_elem in E as (c & Hc & Hi);
      exists c; split; [by left|done|by right|done]. }
  split; [|done]. exists (canonical a). split; [by apply canonical_valid|]. split; [apply canonical_idem|]. split; [|done].
  intros strict. cbn [address]. rewrite <- (canonical_idem a) at 2. by apply format_parses, canonical_valid.
Qed.

Lemma admit_all_ok answers policy name l : admit_all answers policy name = Ok l ->
  (forall r, r ∈ l -> pins policy name r) /\ forall x, x ∈ answers -> exists y, parseAddress (address x) false = Some y /\ admissible policy name (canonical y).
Proof.
  revert l. induction answers as [|x answers IH]; intros l; cbn [admit_all].
  - intros [= <-]. split; by intros ? ?%elem_of_nil.
  - destruct (parseAddress (address x) false) as [a|] eqn:Ea; [|done]. intros H. apply rbind_ok in H as (r & Hr & H). apply rbind_ok in H as (l' & Hl & H). injection H as <-.
    apply admit_ok in Hr as [Hp Ha]; [|by eapply (parsed_valid _ _ _ Ea)]. destruct (IH _ Hl) as [H1 H2]. split.
    + intros y [->|Hy]%elem_of_cons; [done|by apply H1].
    + intros y [->|Hy]%elem_of_cons; [by exists a|by apply H2].
Qed.

(** The guard pins an address it vetted. When [resolveGuarded] hands out an address for a connection, its text
    parses to exactly one well-formed address, that address is not excluded, and it is public (none of the
    special addresses) or explicitly allowed. For a name that went through the resolver every single answer
    was such an address, so a name that mixes public and internal records is refused. *)
Theorem guard_sound resolver host policy r : resolveGuarded resolver host policy = Ok r ->
  pins policy (host_name host) r
  /\ (parseAddress (host_name host) false = None -> is_localhost (host_name host) = false ->
      exists answers, resolver (host_name host) = Some answers
        /\ forall x, x ∈ answers -> exists y, parseAddress (address x) false = Some y /\ admissible policy (host_name host) (canonical y)).
Proof.
  unfold resolveGuarded. cbv zeta. set (name := host_name host). destruct (_ || _); [done|]. destruct (parseAddress name false) as [a|] eqn:Ea.
  - intros H. apply admit_ok in H as [H _]; [done|by eapply (parsed_valid _ _ _ Ea)].
  - destruct (is_localhost name) eqn:El.
    + destruct (parseAddress (chars "127.0.0.1") false) as [a|] eqn:E; [|done]. intros H. apply admit_ok in H as [H _]; [done|by eapply (parsed_valid _ _ _ E)].
    + destruct (resolver name) as [[|x answers]|] eqn:Er; [done| |done]. intros H. apply rbind_ok in H as (l & Hl & H). destruct l as [|y l]; [done|]. injection H as <-.
      apply admit_all_ok in Hl as [H1 H2]. split; [apply H1; left|]. intros _ _. by exists (x :: answers).
Qed.

(** ** Ranges as text *)

Lemma mask_match x c p : bytes_match x (mask_bytes c p) p = bytes_match x c p.
Proof.
  revert c p. induction x as [|a x IH]; intros [|b c] p; try done. cbn [bytes_match mask_bytes]. destruct (Z.leb_spec p 0) as [H0|H0]; [done|].
  replace (Z.max 0 (Z.min 8 p) =? 0) with false by (symmetry; apply Z.eqb_neq; lia). rewrite IH. f_equal. f_equal. destruct (Z.leb_spec 8 p) as [H8|H8].
  - replace (Z.max 0 (Z.min 8 p)) with 8 by lia. by rewrite <- Z.land_assoc.
  - replace (Z.max 0 (Z.min 8 p)) with p by lia. by rewrite <- Z.land_assoc, Z.land_diag.
Qed.

Lemma mask_ok c p : bytes_ok c -> length (mask_bytes c p) = length c /\ bytes_ok (mask_bytes c p).
Proof.
  revert p. induction c as [|b c IH]; intros p; [done|]. intros [Hb Hc]%bytes_ok_cons. cbn [mask_bytes length]. destruct (IH (p - 8) Hc) as [H1 H2].
  split; [by rewrite H1|]. apply bytes_ok_cons. split; [|done]. set (k := Z.max 0 (Z.min 8 p)). destruct (k =? 0); [rewrite Z.land_0_r; lia|].
  rewrite byte_mask by lia. pose proof (pow_pos (8 - k) ltac:(lia)). pose proof (Z.mul_div_le b (2 ^ (8 - k)) ltac:(lia)).
  assert (0 <= b / 2 ^ (8 - k)) by (apply Z.div_pos; lia). nia.
Qed.

Lemma mask_self c p : bytes_match (mask_bytes c p) c p = true.
Proof.
  revert p. induction c as [|b c IH]; intros p; cbn [mask_bytes bytes_match]; [by destruct (p <=? 0)|]. destruct (Z.leb_spec p 0) as [H0|H0]; [done|].
  replace (Z.max 0 (Z.min 8 p) =? 0) with false by (symmetry; apply Z.eqb_neq; lia). rewrite IH, andb_true_r. apply Z.eqb_eq. destruct (Z.leb_spec 8 p) as [H8|H8].
  - replace (Z.max 0 (Z.min 8 p)) with 8 by lia. by rewrite <- Z.land_assoc.
  - replace (Z.max 0 (Z.min 8 p)) with p by lia. by rewrite <- Z.land_assoc, Z.land_diag.
Qed.

Lemma mask_lookup c p i : mask_bytes c p !! i =
  option_map (fun x => let k := Z.max 0 (Z.min 8 (p - 8 * Z.of_nat i)) in Z.land x (if k =? 0 then 0 else Z.land (Z.shiftl 255 (8 - k)) 255)) (c !! i).
Proof.
  revert p i. induction c as [|b c IH]; intros p [|i]; try done; cbn [mask_bytes].
  - cbn [lookup list_lookup option_map]. cbv zeta. by rewrite Z.sub_0_r.
  - change (mask_bytes c (p - 8) !! i = option_map (fun x => let k := Z.max 0 (Z.min 8 (p - 8 * Z.of_nat (S i))) in Z.land x (if k =? 0 then 0 else Z.land (Z.shiftl 255 (8 - k)) 255)) (c !! i)).
    rewrite IH. replace (p - 8 - 8 * Z.of_nat i) with (p - 8 * Z.of_nat (S i)) by lia. done.
Qed.

(** A range test in two steps. *)
Lemma bytes_match_app x y c d p : length x = length c -> 8 * Z.of_nat (length x) <= p ->
  bytes_match (x ++ y) (c ++ d) p = bytes_match x c (8 * Z.of_nat (length x)) && bytes_match y d (p - 8 * Z.of_nat (length x)).
Proof.
  revert c p. induction x as [|a x IH]; intros [|b c] p Hl Hp; try done.
  - cbn [length app]. rewrite (bytes_match_done [] []) by (cbn; lia). cbn [andb]. f_equal. lia.
  - injection Hl as Hl. cbn [length] in *. rewrite Nat2Z.inj_succ in *. cbn [app bytes_match].
    replace (p <=? 0) with false by (symmetry; apply Z.leb_gt; lia). replace (8 <=? p) with true by (symmetry; apply Z.leb_le; lia).
    replace (8 * Z.succ (Z.of_nat (length x)) <=? 0) with false by (symmetry; apply Z.leb_gt; lia).
    replace (8 <=? 8 * Z.succ (Z.of_nat (length x))) with true by (symmetry; apply Z.leb_le; lia).
    replace (8 * Z.succ (Z.of_nat (length x)) - 8) with (8 * Z.of_nat (length x)) by lia. rewrite IH by (done || lia). rewrite andb_assoc. f_equal. f_equal. lia.
Qed.

Lemma prefix_text : forallb (fun n => bool_decide (prefix_value (decimal n) = Some n) && forallb is_hex (decimal n)) (seqZ 0 129) = true.
Proof. vm_compute. reflexivity. Qed.

Lemma prefix_facts n : 0 <= n <= 128 -> prefix_value (decimal n) = Some n /\ forallb is_hex (decimal n) = true.
Proof.
  intros Hn. pose proof prefix_text as T. rewrite forallb_elem in T. specialize (T n ltac:(apply elem_of_seqZ; lia)). bool_hyps. done.
Qed.

(** The shown range is written with bytes that are not those of a mapped address. *)
Lemma shown_valid c : valid_range c -> valid_range (shown c).
Proof.
  intros (Hl & Hb & Hp). unfold shown. destruct (_ && _) eqn:E; [|exact (conj Hl (conj Hb Hp))]. bool_hyps. rewrite H in *. cbn [size] in *.
  unfold valid_range. cbn [r_family r_bytes r_prefix size]. split; [rewrite length_drop; lia|]. split; [by apply bytes_ok_drop|lia].
Qed.

Lemma masked_canonical c : valid_range c ->
  let a := {| a_family := r_family (shown c); a_bytes := mask_bytes (r_bytes (shown c)) (r_prefix (shown c)) |} in valid a /\ canonical a = a.
Proof.
  intros Hc. pose proof (shown_valid c Hc) as (Hl & Hb & Hp). cbv zeta. destruct (mask_ok _ (r_prefix (shown c)) Hb) as [Ml Mb].
  split; [split; cbn; [congruence|done]|]. unfold canonical. cbn [a_family a_bytes]. destruct (_ && _) eqn:E; [|done]. exfalso. bool_hyps.
  destruct Hc as (Cl & Cb & Cp). unfold shown in *. destruct (bool_decide (r_family c = F6) && _ && _) eqn:S; [done|]. bool_hyps. rewrite H in *. cbn [size] in *.
  rewrite bool_decide_eq_true_2 in S by done. cbn [andb] in S. destruct (Z.leb_spec 96 (r_prefix c)) as [P|P]; cbn [andb] in S.
  - bool_hyps. apply S. unfold canonical. cbn [a_family a_bytes]. rewrite bool_decide_eq_true_2 by done.
    assert (isV4Mapped (r_bytes c) = true) as ->; [|done]. rewrite mapped_match in * by (done || congruence).
    apply bytes_match_div; [done|done|by apply bytes_okb|rewrite Cl; lia|]. rewrite Cl. apply bytes_match_div in H0; [|by rewrite Ml|done|by apply bytes_okb|rewrite Ml, Cl; lia].
    rewrite Ml, Cl in H0. rewrite <- H0. change (8 * Z.of_nat 16 - 96) with 32.
    assert (M : bytes_match (mask_bytes (r_bytes c) (r_prefix c)) (r_bytes c) (r_prefix c) = true) by (rewrite mask_self by done; done).
    apply bytes_match_div in M; [|by rewrite Ml|done|done|rewrite Ml, Cl; lia]. rewrite Ml, Cl in M. change (8 * Z.of_nat 16) with 128 in M.
    replace 32 with (128 - r_prefix c + (r_prefix c - 96)) by lia. rewrite <- !div_div_pow by lia. by rewrite M.
  - unfold isV4Mapped in H0. bool_hyps. unfold byte in H1. rewrite mask_lookup in H1. destruct (r_bytes c !! 11%nat) as [x|] eqn:Ex; cbn in H1; [|done].
    assert (Hx : 0 <= x < 256) by (apply Cb; by eapply list_elem_of_lookup_2). set (k := Z.max 0 (Z.min 8 _)) in H1. destruct (k =? 0); [by rewrite Z.land_0_r in H1|].
    rewrite byte_mask in H1 by lia. rewrite (pow_split 1 (8 - k)) in H1 by lia. change (2 ^ 1) with 2 in H1. lia.
Qed.


Lemma formatWitness_free a : valid a -> has "/" (formatWitness a) = false.
Proof.
  intros Ha. unfold formatWitness. pose proof (canonical_valid a Ha) as [Hl Hb].
  assert (J : forall c l, Ascii.eqb "/" c = false -> (forall t, t ∈ l -> forallb is_hex t = true) -> has "/" (join c l) = false).
  { intros c l Hc. induction l as [|x [|y l] IH]; intros H; [done|by apply hex_free; [|apply H; left]|].
    change (join c (x :: y :: l)) with (x ++ c :: join c (y :: l)). rewrite has_app, hex_free by (done || (apply H; left)). unfold has at 1. cbn [existsb].
    rewrite Hc. apply IH. intros t Ht. apply H. by right. }
  destruct (canonical a) as [[] b]; cbn [a_family a_bytes size] in *.
  - apply J; [done|]. intros t (x & -> & Hx)%elem_of_map. by destruct (octet_facts x (Hb x Hx)) as (_ & _ & _ & ?).
  - destruct (groups_of_ok b Hl Hb) as (_ & S & _). pose proof (hex_texts _ S) as T. destruct (scan _ _ _ _) as [start n].
    assert (T' : forall t, t ∈ map hexadecimal (groups_of b) -> forallb is_hex t = true) by (intros t Ht; by apply T).
    destruct (Nat.ltb n 2); [by apply J|]. rewrite !has_app. rewrite !J; [done|done| |done|].
    + intros t Ht. apply T'. rewrite <- (take_drop (start + n) (map _ _)). apply elem_of_app. by right.
    + intros t Ht. apply T'. rewrite <- (take_drop start (map _ _)). apply elem_of_app. by left.
Qed.

(** A range shown is the range meant. The text of a well-formed range parses, under the strict rules, to a
    range with the shown family and prefix that holds the same addresses as the shown range; and the shown
    range is the given one, except for a mapped range of 96 bits or more, for which it is the IPv4 range
    that holds exactly the IPv4 addresses carried by the addresses of the given range. *)
Theorem range_text_round_trip c : valid_range c ->
  (exists c', parseCidr (formatRange c) = Some c' /\ valid_range c' /\ r_family c' = r_family (shown c) /\ r_prefix c' = r_prefix (shown c)
     /\ forall a, in_range a c' <-> in_range a (shown c))
  /\ (shown c = c \/ forall a, valid a -> a_family a = F6 -> in_range a c <-> isV4Mapped (a_bytes a) = true /\ in_range (canonical a) (shown c)).
Proof.
  intros Hc. pose proof (shown_valid c Hc) as Hs. destruct (masked_canonical c Hc) as [Va Ca]. cbv zeta in Va, Ca. split.
  - destruct Hs as (Sl & Sb & Sp). set (f := r_family (shown c)) in *. set (p := r_prefix (shown c)) in *. set (b := mask_bytes (r_bytes (shown c)) p) in *.
    exists {| r_family := f; r_bytes := b; r_prefix := p |}. assert (Hp : 0 <= p <= 128) by (destruct f; cbn [size] in Sp; lia). destruct (prefix_facts p Hp) as [P1 P2].
    split; [|split; [|split; [done|split; [done|]]]].
    + unfold parseCidr, formatRange. cbv zeta. fold f p b. cbn [app]. rewrite split_on_step by by apply formatWitness_free. rewrite split_on_free by by apply hex_free.
      cbn [length Nat.ltb Nat.leb head default from_option id]. destruct (format_parses _ true Va) as [_ W]. rewrite W, Ca. cbn [a_family a_bytes]. rewrite P1.
      assert (M : match f with F4 => 32 | F6 => 128 end = 8 * Z.of_nat (size f)) by (by destruct f). rewrite M.
      replace (8 * Z.of_nat (size f) <? p) with false by (symmetry; apply Z.ltb_ge; lia). done.
    + destruct Va as [V1 V2]. exact (conj V1 (conj V2 Sp)).
    + intros a. unfold in_range. cbn [r_family r_bytes r_prefix]. unfold b. by rewrite mask_match.
  - unfold shown. destruct (_ && _) eqn:E; [right|by left]. bool_hyps. intros a [Hl Hb] Hf. unfold in_range. cbn [r_family r_bytes r_prefix].
    destruct Hc as (Cl & Cb & Cp). rewrite H in *. rewrite Hf in *. cbn [size] in *.
    assert (Hm : isV4Mapped (r_bytes c) = true).
    { unfold canonical in H0. cbn [a_family a_bytes] in H0. rewrite bool_decide_eq_true_2 in H0 by done. by destruct (isV4Mapped (r_bytes c)). }
    rewrite mapped_match in Hm by done. rewrite (bytes_match_take 12) in Hm by first [done|rewrite Cl; cbn; lia|by apply bytes_okb]. apply bool_decide_eq_true in Hm.
    assert (S : bytes_match (a_bytes a) (r_bytes c) (r_prefix c) = isV4Mapped (a_bytes a) && bytes_match (drop 12 (a_bytes a)) (drop 12 (r_bytes c)) (r_prefix c - 96)).
    { rewrite <- (take_drop 12 (a_bytes a)) at 1. rewrite <- (take_drop 12 (r_bytes c)) at 1. rewrite bytes_match_app by (rewrite !length_take, ?Hl, ?Cl; lia).
      rewrite length_take, Hl. change (8 * Z.of_nat (12 `min` 16)) with 96. f_equal.
      rewrite mapped_match by done. rewrite (bytes_match_take 12 (a_bytes a)) by first [done|rewrite Hl; cbn; lia|by apply bytes_okb].
      change 96 with (8 * Z.of_nat 12). rewrite (bytes_match_take 12) by first [by rewrite !length_take, Hl, Cl|by apply bytes_ok_take|rewrite length_take, Hl; cbn; lia].
      rewrite !take_take. change (12 `min` 12)%nat with 12%nat. by rewrite Hm. }
    rewrite S, andb_true_iff. unfold canonical. rewrite Hf, bool_decide_eq_true_2 by done. cbn [andb]. destruct (isV4Mapped (a_bytes a)); cbn [a_family a_bytes]; naive_solver.
Qed.
