(* ===== verification/Egress.v ===== *)
(** * Where the core may connect

    Model of [packages/core/src/egress/policy.ts], [gate.ts], [model-downloads.ts] and
    [service.ts] with the HTTP client they drive, [tools/web/http.ts]: the list of
    destinations, the decision on every hop before and after its name is resolved, and
    the loop that follows redirects. Texts are ASCII. The URL parser, [domainToASCII],
    name resolution, the network and the caller's abort are parameters that may answer
    differently at every moment; what the client does to the outside is a trace. *)

From S2P Require Import Prelude NetIp NetGuard.
From Stdlib Require Import Ascii.

(** ** The policy as data *)

(** The live configuration is not trusted to be well typed. *)
(* @src egress/policy.ts 8 16 EgressConfig *)
Record EgressConfig : Type := { allowHosts : js; allowPorts : js; c_allowLoopback : js; modelDownloads : js }.

(* @src egress/policy.ts 18 18 DEFAULT_EGRESS_CONFIG *)
Definition DEFAULT_EGRESS_CONFIG : EgressConfig :=
  {| allowHosts := JArr []; allowPorts := JArr [JNum (Fin 443)]; c_allowLoopback := JBool false; modelDownloads := JUndef |}.

(* @src egress/policy.ts 20 20 HostRule *)
Inductive HostRule : Type :=
| Exact (host : list ascii)
| Suffix (suffix : list ascii)
| AnyName
| RuleIp (address : list ascii).

(** What is wrong with an entry, and with the configuration. *)
Inductive ConfigError : Type := NotAString | NotCanonicalIp (e : list ascii) | BadWildcard (e : list ascii) | BadName (e : list ascii) | HostsNotList | PortsNotList | BadPort (p : js).

(* @src egress/policy.ts 22 30 EgressPolicy *)
Record EgressPolicy : Type := { hostRules : list HostRule; p_allowPorts : list js; allowLoopback : bool; errors : list ConfigError; p_allowHosts : list (list ascii) }.

Definition alnum (c : ascii) : bool := ((97 <=? code c) && (code c <=? 122)) || ((48 <=? code c) && (code c <=? 57)).
Definition is_digit (c : ascii) : bool := (48 <=? code c) && (code c <=? 57).

(* @src egress/policy.ts 32 32 LABEL *)
Definition LABEL (l : list ascii) : bool :=
  match l, reverse l with
  | a :: _, z :: _ => alnum a && alnum z && forallb (fun c => alnum c || Ascii.eqb c "-") l && Nat.leb (length l) 63
  | _, _ => false
  end.

Definition bad_name_char (c : ascii) : bool :=
  (code c <? 33) || (code c =? 127) || existsb (Ascii.eqb c) (chars "/\@:?#%") || is_space c.

Definition lowercase (l : list ascii) : list ascii := map lower_ascii l.

Section policy.
(** [domainToASCII] of node:url: the name in its ASCII form, or the empty text. *)
Context (domainToASCII : list ascii -> list ascii).

(* @src egress/policy.ts 34 44 normaliseName *)
Definition normaliseName (raw : list ascii) : option (list ascii) :=
  let n := drop_dot (lowercase (trim_chars raw)) in
  if bool_decide (n = []) || Nat.ltb 253 (length n) || existsb bad_name_char n then None
  else
    let a := domainToASCII n in
    if bool_decide (a = []) || Nat.ltb 253 (length a) then None
    else
      let labels := split_on "." a in
      if negb (forallb LABEL labels) then None
      else
        let l := List.last labels [] in
        if negb (bool_decide (l = [])) && forallb is_digit l then None else Some a.

Definition starts_with_char (c : ascii) (l : list ascii) : bool := match l with x :: _ => Ascii.eqb x c | [] => false end.

(* @src egress/policy.ts 46 62 compileHost *)
Definition compileHost (entry : js) : result ConfigError HostRule :=
  match entry with
  | JStr s =>
      let e := trim_chars (chars s) in
      if bool_decide (e = ["*"%char]) then Ok AnyName
      else match parseAddress e false with
      | Some _ =>
          match parseAddress e true with
          | Some a => if Bool.eqb (starts_with_char "[" e) (bool_decide (a_family a = F6)) then Ok (RuleIp (formatAddress a)) else Err (NotCanonicalIp e)
          | None => Err (NotCanonicalIp e)
          end
      | None =>
          match e with
          | "*"%char :: "."%char :: rest =>
              match normaliseName rest with
              | Some n => if has "*" rest then Err (BadWildcard e) else Ok (Suffix n)
              | None => Err (BadWildcard e)
              end
          | _ => if has "*" e then Err (BadName e) else match normaliseName e with Some n => Ok (Exact n) | None => Err (BadName e) end
          end
      end
  | _ => Err NotAString
  end.

Definition port_ok (p : js) : bool := match p with JNum (Fin n) => (1 <=? n) && (n <=? 65535) | _ => false end.

(** The rules of the entries that compile, and the errors of the others. *)
Fixpoint compile_all (l : list js) : list HostRule * list ConfigError :=
  match l with
  | [] => ([], [])
  | e :: r => let '(rs, es) := compile_all r in match compileHost e with Ok x => (x :: rs, es) | Err x => (rs, x :: es) end
  end.

Definition rule_text (r : HostRule) : list ascii :=
  match r with Exact h => h | Suffix s => "*"%char :: "."%char :: s | AnyName => ["*"%char] | RuleIp a => a end.

Definition items (v : js) : list js := match v with JArr l => l | _ => [] end.
Definition is_list (v : js) : bool := match v with JArr _ => true | _ => false end.

(** [ports.find] answers [undefined] both when it finds nothing and when it finds that; the errors empty every list. *)
(* @src egress/policy.ts 64 89 compileEgressPolicy *)
Definition compileEgressPolicy (cfg : EgressConfig) : EgressPolicy :=
  let '(rules, bad) := compile_all (items (allowHosts cfg)) in
  let ports := items (allowPorts cfg) in
  let badPort := bfind (fun p => negb (port_ok p)) ports in
  let errs := (if is_list (allowHosts cfg) then [] else [HostsNotList]) ++ (if is_list (allowPorts cfg) then [] else [PortsNotList]) ++ bad
              ++ (match badPort with None | Some JUndef => [] | Some p => [BadPort p] end) in
  let failed := negb (bool_decide (length errs = 0%nat)) in
  {| hostRules := if failed then [] else rules;
     p_allowPorts := if failed then [] else ports;
     allowLoopback := js_is_true (c_allowLoopback cfg) && negb failed;
     errors := errs;
     p_allowHosts := if failed then [] else map rule_text rules |}.
End policy.

(** [h.endsWith(s)] *)
Definition has_suffix (s h : list ascii) : bool := bool_decide (drop (length h - length s) h = s).

(** [.suffix] *)
Definition dotted (s : list ascii) : list ascii := "."%char :: s.

(* @src egress/policy.ts 92 102 hostAllowed *)
Definition hostAllowed (p : EgressPolicy) (host : list ascii) (explicitOnly exactOnly : bool) : bool :=
  let h := drop_dot (lowercase host) in
  match parseAddress h false with
  | Some lit =>
      let addr := formatAddress (canonical lit) in
      existsb (fun r => match r with RuleIp a => bool_decide (a = addr) | _ => false end) (hostRules p)
  | None =>
      existsb (fun r =>
        if exactOnly then match r with Exact x => bool_decide (x = h) | _ => false end
        else match r with
             | AnyName => negb explicitOnly
             | Exact x => bool_decide (x = h)
             | Suffix s => has_suffix (dotted s) h
             | RuleIp _ => false
             end) (hostRules p)
  end.

(* @src egress/model-downloads.ts 4 4 MODEL_DOWNLOAD_HOSTS *)
Definition MODEL_DOWNLOAD_HOSTS : list string := ["huggingface.co"; "us.aws.cdn.hf.co"].

(** [a ?? b] *)
Definition or_else (a b : js) : js := match a with JUndef | JNull => b | _ => a end.

(** Reading a property of [null] throws. *)
(* @src egress/model-downloads.ts 18 24 modelDownloadPolicy *)
Definition modelDownloadPolicy (config : EgressConfig) : option EgressConfig :=
  let raw := modelDownloads config in
  let entries := or_else (jget "allowHosts" raw) (JArr (map JStr MODEL_DOWNLOAD_HOSTS)) in
  match raw with
  | JNull => None
  | _ =>
      let enabled := js_is_undef raw || js_is_true (jget "enabled" raw) in
      let valid := is_list entries && forallb (fun h => match h with JStr s => includes MODEL_DOWNLOAD_HOSTS s | _ => false end) (items entries) in
      Some {| allowHosts := JArr (if enabled && valid then items entries else []); allowPorts := allowPorts config;
              c_allowLoopback := c_allowLoopback config; modelDownloads := modelDownloads config |}
  end.

(** ** The decision on one hop *)

Record URL : Type := { href : list ascii; protocol : list ascii; hostname : list ascii; port : list ascii; username : list ascii; password : list ascii;
                       pathname : list ascii; search : list ascii }.

(* @src egress/gate.ts 9 9 DenyReason *)
Inductive DenyReason : Type := DInvalidUrl | DScheme | DPort | DHostNotAllowed | DLoopback | DPrivateAddress | DNotFound.

#[export] Instance deny_eq_dec : EqDecision DenyReason.
Proof. solve_decision. Defined.

(* @src egress/gate.ts 10 10 Decision *)
Inductive Decision : Type := Allowed | Denied (r : DenyReason).

(* @src tools/web/failure.ts 4 27 WebFailureCode *)
Inductive WebFailureCode : Type :=
| WInvalidArguments | WInvalidUrl | WPrivateAddress | WEgressDenied | WNotFound | WGone | WAuthRequired | WPaywall | WCaptcha | WRateLimited | WTimeout | WTooLarge
| WUnsupportedType | WTlsError | WNeedsRender | WTooManyRedirects | WRobotsDisallowed | WNetworkError | WHttpError | WCursorExpired | WNoProvider | WProviderFailed
| WInternalError.

#[export] Instance code_eq_dec : EqDecision WebFailureCode.
Proof. solve_decision. Defined.

(** A [WebFailure], with the reason of an [EgressDenial]. *)
(* @src egress/gate.ts 12 20 EgressDenial *)
Record WebFailure : Type := { wf_code : WebFailureCode; wf_reason : option DenyReason }.
Definition failure (c : WebFailureCode) : WebFailure := {| wf_code := c; wf_reason := None |}.
Definition egress_denial (r : DenyReason) : WebFailure :=
  {| wf_code := if bool_decide (r = DPrivateAddress) then WPrivateAddress else WEgressDenied; wf_reason := Some r |}.

Definition is_https (u : URL) : bool := bool_decide (protocol u = chars "https:").
Definition is_http (u : URL) : bool := bool_decide (protocol u = chars "http:").

(** [s.slice(1, -1)] *)
Definition inner (l : list ascii) : list ascii := match l with [] => [] | _ :: r => removelast r end.

(* @src egress/gate.ts 31 31 bareHost *)
Definition bareHost (u : URL) : list ascii :=
  drop_dot (lowercase (if starts_with_char "[" (hostname u) then inner (hostname u) else hostname u)).

Definition is_loopback_verdict (a : ParsedAddress) : bool := match classifyAddress a with NotPublic r => String.eqb r "loopback" | Public => false end.

(* @src egress/gate.ts 34 38 isLoopbackHost *)
Definition isLoopbackHost (host : list ascii) : bool :=
  is_localhost host || match parseAddress host false with Some a => is_loopback_verdict a | None => false end.

(** [None] is NaN. *)
(* @src egress/gate.ts 40 40 effectivePort *)
Definition effectivePort (u : URL) : option Z :=
  match port u with [] => Some (if is_https u then 443 else 80) | p => numeral 10 0 p end.

Definition includes_port (l : list js) (p : option Z) : bool :=
  match p with Some n => existsb (fun x => match x with JNum (Fin m) => m =? n | _ => false end) l | None => false end.

(** [h.includes("..")] *)
Fixpoint double_dot (h : list ascii) : bool :=
  match h with a :: ((b :: _) as r) => (Ascii.eqb a "." && Ascii.eqb b ".") || double_dot r | _ => false end.
Definition empty_label (h : list ascii) : bool := starts_with_char "." h || starts_with_char "." (reverse h) || double_dot h.

(* @src egress/gate.ts 49 65 beforeResolve *)
Definition beforeResolve (policy : EgressPolicy) (u : URL) : option DenyReason :=
  let host := bareHost u in
  let loopbackOk := allowLoopback policy && isLoopbackHost host in
  if negb (is_https u) && negb (is_http u && loopbackOk) then Some DScheme
  else if bool_decide (host = []) then Some DInvalidUrl
  else if negb (bool_decide (username u = [])) || negb (bool_decide (password u = [])) then Some DInvalidUrl
  else if empty_label host then Some DInvalidUrl
  else if negb (includes_port (p_allowPorts policy) (effectivePort u)) then Some DPort
  else if negb (hostAllowed policy host false false) then Some DHostNotAllowed
  else if allowLoopback policy && isLoopbackHost host && negb (hostAllowed policy host true false) then Some DHostNotAllowed
  else None.

(* @src egress/gate.ts 66 75 afterResolve *)
Definition afterResolve (policy : EgressPolicy) (u : URL) (pin : ResolvedAddress) : option DenyReason :=
  let host := bareHost u in
  let loopbackPin := match parseAddress (address pin) false with Some a => is_loopback_verdict a | None => false end in
  if loopbackPin && negb (allowLoopback policy) then Some DLoopback
  else if loopbackPin && negb (isLoopbackHost host) then Some DLoopback
  else if is_http u && negb loopbackPin then Some DScheme
  else None.

(** ** Requests of model files *)

Definition seg_char (c : ascii) : bool := alnum (lower_ascii c) || existsb (Ascii.eqb c) (chars "._-").
Definition seg (l : list ascii) : bool := negb (bool_decide (l = [])) && forallb seg_char l.

(** A file name with one of the endings, and something before it. *)
Definition model_file (l : list ascii) : bool :=
  existsb (fun e => has_suffix (dotted (chars e)) l && seg (take (length l - length (dotted (chars e))) l)) ["json"; "onnx"; "onnx_data"; "txt"; "model"].

(** The path of a file in a model repository: [/owner/name/resolve/revision/.../file.ext]. *)
Definition artifact_path (p : list ascii) : bool :=
  match split_on "/" p with
  | root :: owner :: name :: res :: rev :: rest =>
      bool_decide (root = []) && seg owner && seg name && bool_decide (res = chars "resolve") && seg rev
      && match reverse rest with file :: dirs => forallb seg dirs && model_file file | [] => false end
  | _ => false
  end.

(** [u] is the parsed URL of the request. *)
(* @src egress/model-downloads.ts 7 15 isModelArtifactRequest *)
Definition isModelArtifactRequest (method : string) (has_body : bool) (header_names : list string) (u : URL) : bool :=
  if negb (includes ["GET"; "HEAD"] method) || has_body || negb (is_https u) || negb (bool_decide (port u = [])) || negb (bool_decide (username u = []))
     || negb (bool_decide (password u = [])) || negb (bool_decide (search u = [])) then false
  else if negb (bool_decide (hostname u = chars "huggingface.co")) then false
  else
    let safe := forallb (includes ["accept"; "user-agent"; "range"]) header_names in
    safe && artifact_path (pathname u) && negb (existsb (fun s => bool_decide (s = chars "..") || bool_decide (s = chars ".")) (split_on "/" (pathname u))).

(** ** The HTTP client *)

(* @src tools/web/http.ts 62 62 HttpMethod *)
Inductive HttpMethod : Type := GET | HEAD | POST | PUT | PATCH | DELETE.

#[export] Instance method_eq_dec : EqDecision HttpMethod.
Proof. solve_decision. Defined.

Inductive RedirectMode : Type := Follow | Manual | RedirectError.

(** What a rejected promise carries: a failure, an error of node with its code, or the loop out of steps. *)
Inductive Thrown : Type := Web (f : WebFailure) | Raw (code : list ascii) | Stuck.

(* @src tools/web/http.ts 16 60 HttpOptions *)
Record HttpOptions : Type := {
  maxRedirects : option Z; maxBytes : option Z; errorBodyBytes : Z; streamResponse : bool; modelDownload : bool; safeRedirectHeaders : bool;
  redirect : option RedirectMode; acceptType : option (option (list ascii) -> bool); onRedirect : option (nat -> URL -> option (WebFailure + list ascii));
  method : option (list ascii); headers : list (list ascii * list ascii); body : option (list Z); maxRequestBytes : option Z; discardBody : bool }.

(* @src tools/web/http.ts 63 63 METHODS *)
Definition METHODS : list (list ascii * HttpMethod) :=
  [(chars "GET", GET); (chars "HEAD", HEAD); (chars "POST", POST); (chars "PUT", PUT); (chars "PATCH", PATCH); (chars "DELETE", DELETE)].
(* @src tools/web/http.ts 65 65 RESERVED_HEADERS *)
Definition RESERVED_HEADERS : list (list ascii) :=
  map chars ["host"; "connection"; "content-length"; "transfer-encoding"; "te"; "trailer"; "upgrade"; "keep-alive"; "expect"; "proxy-authorization"; "proxy-connection";
             "accept-encoding"; "cookie"].
(* @src tools/web/http.ts 66 66 TOKEN *)
Definition TOKEN (l : list ascii) : bool :=
  negb (bool_decide (l = [])) && forallb (fun c => alnum (lower_ascii c) || existsb (Ascii.eqb c) (chars "!#$%&'*+.^_`|~-")) l.

(* @src tools/web/http.ts 102 102 DEFAULT_MAX_BYTES *)
Definition DEFAULT_MAX_BYTES : Z := 20 * 1024 * 1024.
(* @src tools/web/http.ts 104 104 REDIRECT *)
Definition REDIRECT : list Z := [301; 302; 303; 307; 308].

Definition uppercase (l : list ascii) : list ascii :=
  map (fun c => if (97 <=? code c) && (code c <=? 122) then Ascii.ascii_of_nat (Z.to_nat (code c - 32)) else c) l.
Definition member (l : list (list ascii)) (x : list ascii) : bool := existsb (fun y => bool_decide (y = x)) l.

(** [headers[name] = value] *)
Fixpoint set_header (h : list (list ascii * list ascii)) (name value : list ascii) : list (list ascii * list ascii) :=
  match h with
  | [] => [(name, value)]
  | (n, v) :: r => if bool_decide (n = name) then (n, value) :: r else (n, v) :: set_header r name value
  end.

Definition bad_value_char (c : ascii) : bool := (code c =? 13) || (code c =? 10) || (code c =? 0).

(* @src tools/web/http.ts 73 79 requestParts *)
Definition add_header (h : list (list ascii * list ascii)) (kv : list ascii * list ascii) : result WebFailure (list (list ascii * list ascii)) :=
  let name := lowercase kv.1 in
  assert* TOKEN name else failure WInvalidUrl in
  assert* negb (member RESERVED_HEADERS name || bool_decide (take 6 name = chars "proxy-")) else failure WInvalidUrl in
  assert* negb (existsb bad_value_char kv.2) else failure WInvalidUrl in
  Ok (set_header h name kv.2).

Record Parts : Type := { pt_method : HttpMethod; pt_headers : list (list ascii * list ascii); pt_body : option (list Z) }.

Definition method_of (m : list ascii) : option HttpMethod := option_map snd (bfind (fun p => bool_decide (p.1 = m)) METHODS).
Definition zlen {A} (l : list A) : Z := Z.of_nat (length l).

(* @src tools/web/http.ts 69 88 requestParts *)
Definition requestParts (o : HttpOptions) : result WebFailure Parts :=
  match method_of (uppercase (default (chars "GET") (method o))) with
  | None => Err (failure WInvalidUrl)
  | Some m =>
      let* hs := rfold add_header [] (headers o) in
      match body o with
      | None => Ok {| pt_method := m; pt_headers := hs; pt_body := None |}
      | Some b =>
          assert* negb (bool_decide (m = GET) || bool_decide (m = HEAD)) else failure WInvalidUrl in
          assert* negb (default DEFAULT_MAX_BYTES (maxRequestBytes o) <? zlen b) else failure WTooLarge in
          Ok {| pt_method := m; pt_headers := hs; pt_body := Some b |}
      end
  end.

(** The parts of an answer the client reads: [chunks] arrive decoded, then the stream ends or breaks with an error's code. *)
Record Headers : Type := { h_location : option (list ascii); h_encoding : list ascii; h_type : option (list ascii); h_length : option Z }.
Record Response : Type := { rs_status : Z; rs_headers : Headers; chunks : list (list Z); broken : option (list ascii) }.
Inductive Answer : Type := Answered (r : Response) | Unreachable (code : list ascii).

(* @src tools/web/http.ts 90 100 HttpResponse *)
Record HttpResponse : Type := {
  r_url : list ascii; r_status : Z; r_headers : Headers; r_body : list Z; r_stream : option (list (list Z) * option WebFailure); r_redirects : list (list ascii) }.

(* @src tools/web/http.ts 128 138 decoders *)
Definition decoders (encoding : list ascii) : result WebFailure (list (list ascii)) :=
  let l := bfilter (fun s => negb (bool_decide (s = []) || bool_decide (s = chars "identity"))) (map (fun s => lowercase (trim_chars s)) (split_on "," encoding)) in
  rfold (fun out enc => if member (map chars ["gzip"; "x-gzip"; "deflate"; "br"]) enc then Ok (out ++ [enc]) else Err (failure WUnsupportedType)) [] (reverse l).

(* @src tools/web/http.ts 105 105 TLS_CODES *)
Definition TLS_CODES (code : list ascii) : bool :=
  existsb (fun p => bool_decide (take (length (chars p)) code = chars p))
    ["CERT_"; "DEPTH_ZERO"; "UNABLE_TO_"; "SELF_SIGNED"; "ERR_TLS_"; "ERR_SSL_"; "HOSTNAME_MISMATCH"; "ERR_OSSL"].

(* @src tools/web/http.ts 166 172 mapError *)
Definition mapError (e : Thrown) : Thrown :=
  match e with
  | Raw c => Web (failure (if TLS_CODES c then WTlsError else WNetworkError))
  | _ => e
  end.

(** At most [max] bytes; [None] when the stream breaks before that. *)
(* @src tools/web/http.ts 141 153 readUpTo *)
Fixpoint readUpTo (l : list (list Z)) (broken : option (list ascii)) (acc : list Z) (max : Z) : option (list Z) :=
  match l with
  | [] => match broken with None => Some (take (Z.to_nat max) acc) | Some _ => None end
  | c :: r => let acc := acc ++ c in if max <=? zlen acc then Some (take (Z.to_nat max) acc) else readUpTo r broken acc max
  end.

(* @src tools/web/http.ts 155 164 readCapped *)
Fixpoint readCapped (l : list (list Z)) (broken : option (list ascii)) (acc : list Z) (max : Z) : result Thrown (list Z) :=
  match l with
  | [] => match broken with None => Ok acc | Some c => Err (Raw c) end
  | c :: r => if max <? zlen acc + zlen c then Err (Web (failure WTooLarge)) else readCapped r broken (acc ++ c) max
  end.

(** The chunks a reader of the stream gets, and the error it ends with. *)
(* @src tools/web/http.ts 212 228 hop *)
Fixpoint pulled (l : list (list Z)) (broken : option (list ascii)) (total max : Z) : list (list Z) * option WebFailure :=
  match l with
  | [] => ([], match broken with None => None | Some c => match mapError (Raw c) with Web f => Some f | _ => None end end)
  | c :: r =>
      if max <? total + zlen c then ([], Some (failure WTooLarge))
      else let '(cs, e) := pulled r broken (total + zlen c) max in (c :: cs, e)
  end.

Record Hop : Type := { hp_status : Z; hp_headers : Headers; hp_body : list Z; hp_stream : option (list (list Z) * option WebFailure) }.
Definition bare (r : Response) (b : list Z) : Hop := {| hp_status := rs_status r; hp_headers := rs_headers r; hp_body := b; hp_stream := None |}.

Definition web {A} (r : result WebFailure A) : result Thrown A := match r with Ok a => Ok a | Err f => Err (Web f) end.

(** What a hop resolves with, given the answer. *)
(* @src tools/web/http.ts 199 275 hop *)
Definition read_answer (o : HttpOptions) (m : HttpMethod) (r : Response) : result Thrown Hop :=
  let max := default DEFAULT_MAX_BYTES (maxBytes o) in
  let s := rs_status r in let h := rs_headers r in
  if (300 <=? s) && (s <? 400) then Ok (bare r [])
  else if streamResponse o && negb (bool_decide (m = HEAD)) && negb (s =? 204) && negb (s =? 205) && negb (s =? 304) then
    let* _ := web (decoders (h_encoding h)) in
    Ok {| hp_status := s; hp_headers := h; hp_body := []; hp_stream := Some (pulled (chunks r) (broken r) 0 max) |}
  else if (s <? 200) || (400 <=? s) then
    let peek := if 400 <=? s then errorBodyBytes o else 0 in
    if peek <=? 0 then Ok (bare r [])
    else match decoders (h_encoding h) with
    | Err _ => Ok (bare r [])
    | Ok _ => Ok (bare r (default [] (readUpTo (chunks r) (broken r) [] peek)))
    end
  else if discardBody o then Ok (bare r [])
  else
    assert* match acceptType o with Some f => f (h_type h) | None => true end else Web (failure WUnsupportedType) in
    let* stages := web (decoders (h_encoding h)) in
    assert* negb (bool_decide (stages = []) && match h_length h with Some n => max <? n | None => false end) else Web (failure WTooLarge) in
    let* b := readCapped (chunks r) (broken r) [] max in
    Ok (bare r b).

(** *** The outside *)

Inductive Ev : Type :=
| Resolve (host : list ascii)
| Connect (url : URL) (pin : ResolvedAddress) (parts : Parts).

(* @src egress/service.ts 42 43 createEgress *)
Record World : Type := { moment : nat; trace : list Ev; allowed : Z; denied : DenyReason -> Z }.
Definition M := SE World Thrown.

Definition tick : M nat := fun w => (Ok (moment w), {| moment := S (moment w); trace := trace w; allowed := allowed w; denied := denied w |}).
Definition emit (e : Ev) : M unit := modify (fun w => {| moment := moment w; trace := trace w ++ [e]; allowed := allowed w; denied := denied w |}).

(* @src egress/service.ts 44 47 record *)
Definition record (d : Decision) : M unit := modify (fun w =>
  match d with
  | Allowed => {| moment := moment w; trace := trace w; allowed := allowed w + 1; denied := denied w |}
  | Denied r => {| moment := moment w; trace := trace w; allowed := allowed w; denied := fun x => if bool_decide (x = r) then denied w x + 1 else denied w x |}
  end).

Definition lift {A} (r : result Thrown A) : M A := match r with Ok a => mret a | Err e => throw e end.
Definition throw_web {A} (c : WebFailureCode) : M A := throw (Web (failure c)).

Section client.
(** [new URL(text)] and [new URL(text, base)]; the answers of the resolver and of the network, and whether the deadline has passed or the
    caller has aborted, at every moment. *)
Context (parse_url : list ascii -> option URL) (resolve_url : list ascii -> URL -> option URL)
  (resolver : nat -> list ascii -> option (list ResolvedAddress)) (answer : nat -> Answer) (aborted : nat -> bool).

(* @src tools/web/http.ts 115 126 parseTarget *)
Definition parseTarget (raw : list ascii) : result Thrown URL :=
  match parse_url raw with
  | None => Err (Web (failure WInvalidUrl))
  | Some u =>
      if negb (is_http u) && negb (is_https u) then Err (Web (failure WEgressDenied))
      else if negb (bool_decide (username u = [])) || negb (bool_decide (password u = [])) then Err (Web (failure WInvalidUrl))
      else if bool_decide (hostname u = []) then Err (Web (failure WInvalidUrl))
      else Ok u
  end.

(** The wait for a step that has begun, given up when the signal fires. *)
(* @src tools/web/http.ts 339 346 raceAbort *)
Definition check_abort : M unit :=
  n ← tick;
  if aborted n then throw_web WTimeout else mret tt.

(** What the gate and the guard throw. *)
Definition refuse (r : option DenyReason) : M unit :=
  match r with
  | None => mret tt
  | Some d => record (Denied d) ;; throw (Web (egress_denial d))
  end.

Definition of_guard (f : GuardFailure) : WebFailure :=
  failure (match f with InvalidUrl => WInvalidUrl | PrivateAddress => WPrivateAddress | NotFound => WNotFound end).

Definition guard_host (host : list ascii) (policy : AddressPolicy) : M (result GuardFailure ResolvedAddress) :=
  n ← tick;
  emit (Resolve host) ;;
  mret (resolveGuarded (resolver n) host policy).

Section request.
Context (o : HttpOptions) (parts : Parts) (gate : option EgressPolicy) (addresses : AddressPolicy).

(* @src tools/web/http.ts 175 286 hop *)
Definition hop (u : URL) (pin : ResolvedAddress) : M Hop :=
  emit (Connect u pin parts) ;;
  check_abort ;;
  n ← tick;
  match answer n with
  | Unreachable c => throw (Raw c)
  | Answered r => lift (read_answer o (pt_method parts) r)
  end.

Definition harmless : list (list ascii) := map chars ["accept"; "user-agent"; "range"].

(* @src tools/web/http.ts 293 293 guardedRequest *)
Definition follows : bool :=
  match default Follow (redirect o) with Follow => true | _ => false end
  && (bool_decide (pt_method parts = GET) || bool_decide (pt_method parts = HEAD))
  && bool_decide (pt_body parts = None)
  && (bool_decide (pt_headers parts = []) || (safeRedirectHeaders o && forallb (fun h => member harmless h.1) (pt_headers parts))).

(* @src tools/web/http.ts 294 294 guardedRequest *)
Definition redirect_limit : Z := if follows then default 10 (maxRedirects o) else 0.

(** [r.headers.location], when there is one to follow. *)
Definition to_follow (h : Hop) : option (list ascii) :=
  if follows && existsb (Z.eqb (hp_status h)) REDIRECT
  then match h_location (hp_headers h) with Some [] | None => None | Some l => Some l end else None.

(* @src egress/gate.ts 49 75 createGate *)
Definition vetted (u : URL) : M ResolvedAddress :=
  refuse (match gate with Some p => beforeResolve p u | None => None end) ;;
  r ← guard_host (hostname u) addresses;
  check_abort ;;
  match r with
  | Err f => throw (Web (of_guard f))
  | Ok pin =>
      match gate with
      | None => mret pin
      | Some p =>
          match afterResolve p u pin with
          | Some d => refuse (Some d) ;; mret pin
          | None => record Allowed ;; mret pin
          end
      end
  end.

(* @src tools/web/http.ts 308 330 guardedRequest *)
Fixpoint follow (fuel : nat) (u : URL) (redirects : list (list ascii)) : M HttpResponse :=
  match fuel with
  | O => throw Stuck
  | S fuel =>
      check_abort ;;
      pin ← vetted u;
      r ← hop u pin;
      require (negb (existsb (Z.eqb (hp_status r)) REDIRECT && match redirect o with Some RedirectError => true | _ => false end)) (Web (failure WInvalidUrl)) ;;
      match to_follow r with
      | Some location =>
          require (negb (redirect_limit <=? zlen redirects)) (Web (failure WTooManyRedirects)) ;;
          match resolve_url location u with
          | None => throw_web WInvalidUrl
          | Some v =>
              v ← lift (parseTarget (href v));
              (match onRedirect o with
               | None => mret tt
               | Some f => n ← tick; (if aborted n then throw_web WTimeout else match f n v with Some (inl e) => throw (Web e) | Some (inr c) => throw (Raw c) | None => mret tt end)
               end) ;;
              follow fuel v (redirects ++ [href u])
          end
      | None =>
          mret {| r_url := href u; r_status := hp_status r; r_headers := hp_headers r; r_body := hp_body r; r_stream := hp_stream r; r_redirects := redirects |}
      end
  end.

(** One round for the first request and each redirect that may be followed. *)
Definition rounds : nat := S (Z.to_nat redirect_limit).

(* @src tools/web/http.ts 331 333 guardedRequest *)
Definition after_throw {A} (e : Thrown) : M A :=
  n ← tick;
  if aborted n && negb (match e with Web f => bool_decide (wf_code f = WTimeout) | _ => false end) then throw_web WTimeout
  else throw (mapError e).

Definition run_request (raw : list ascii) : M HttpResponse :=
  catch (u ← lift (parseTarget raw); follow rounds u []) after_throw.
End request.

(* @src tools/web/http.ts 288 337 guardedRequest *)
Definition guardedRequest (raw : list ascii) (o : HttpOptions) (gate : option EgressPolicy) (addresses : AddressPolicy) : M HttpResponse :=
  parts ← lift (web (requestParts o));
  run_request o parts gate addresses raw.
(** ** The service *)

Definition ranges (l : list string) : list Cidr := match makeAddressPolicy (map chars l) with Some p => allow p | None => [] end.

(* @src egress/service.ts 49 49 createEgress *)
Definition loopback : list Cidr := Eval vm_compute in ranges ["127.0.0.0/8"; "::1/128"].
(* @src egress/service.ts 50 50 createEgress *)
Definition tailnet : list Cidr := Eval vm_compute in ranges ["100.64.0.0/10"; "fd7a:115c:a1e0::/48"].
(* @src egress/service.ts 51 51 createEgress *)
Definition metadata : list Cidr := Eval vm_compute in ranges ["100.100.100.200/32"].

(* @src egress/service.ts 54 55 addressPolicy *)
Definition addressPolicy (p : EgressPolicy) (a2a : bool) : AddressPolicy :=
  {| allow := []; deny := metadata;
     forHost := fun h => if allowLoopback p && isLoopbackHost h then loopback else if a2a && hostAllowed p h false true then tailnet else [] |}.

Context (domainToASCII : list ascii -> list ascii).
Notation compile := (compileEgressPolicy domainToASCII).

Definition is_private (e : Thrown) : bool := match e with Web f => bool_decide (wf_code f = WPrivateAddress) | _ => false end.

(** [None] is a configuration that cannot be read. *)
(* @src egress/service.ts 58 67 request *)
Definition request (config : EgressConfig) (url : list ascii) (o : HttpOptions) : M HttpResponse :=
  match (if modelDownload o then modelDownloadPolicy config else Some config) with
  | None => throw (Raw [])
  | Some c =>
      let policy := compile c in
      catch (guardedRequest url o (Some policy) (addressPolicy policy false))
        (fun e => (if is_private e then record (Denied DPrivateAddress) else mret tt) ;; throw e)
  end.

(* @src egress/service.ts 17 19 DryRun *)
Inductive DryRun : Type :=
| Reachable (host : list ascii) (port : option Z) (address : list ascii) (fam : family)
| Unreached (reason : DenyReason).

Definition dry_reason (f : WebFailure) : DenyReason :=
  match wf_reason f with
  | Some r => r
  | None => if bool_decide (wf_code f = WPrivateAddress) then DPrivateAddress else if bool_decide (wf_code f = WNotFound) then DNotFound else DInvalidUrl
  end.

(* @src egress/service.ts 79 86 decide *)
Definition decide_url (policy : EgressPolicy) (a2a : bool) (u : URL) : M DryRun :=
  refuse (beforeResolve policy u) ;;
  if a2a && negb (hostAllowed policy (bareHost u) false true) then record (Denied DHostNotAllowed) ;; mret (Unreached DHostNotAllowed)
  else
    r ← guard_host (hostname u) (addressPolicy policy a2a);
    match r with
    | Err f => throw (Web (of_guard f))
    | Ok pin =>
        refuse (afterResolve policy u pin) ;;
        record Allowed ;;
        mret (Reachable (bareHost u) (effectivePort u) (address pin) (ra_family pin))
    end.

(* @src egress/service.ts 68 95 decide *)
Definition decide (config : EgressConfig) (raw : list ascii) (a2a : bool) : M DryRun :=
  let policy := compile config in
  match parse_url raw with
  | None => record (Denied DInvalidUrl) ;; mret (Unreached DInvalidUrl)
  | Some u =>
      catch (decide_url policy a2a u) (fun e =>
        match e with
        | Web f =>
            let reason := dry_reason f in
            (if bool_decide (reason = DPrivateAddress) then record (Denied reason) else mret tt) ;; mret (Unreached reason)
        | _ => throw e
        end)
  end.

(* @src egress/service.ts 11 15 EgressStatus *)
Record EgressStatus : Type := { st_policy : EgressPolicy; st_valid : bool; st_allowed : Z; st_denied : Z; byReason : DenyReason -> Z }.

Definition reasons : list DenyReason := [DInvalidUrl; DScheme; DPort; DHostNotAllowed; DLoopback; DPrivateAddress; DNotFound].

(* @src egress/service.ts 96 103 status *)
Definition status (config : EgressConfig) (w : World) : EgressStatus :=
  let p := compile config in
  {| st_policy := p; st_valid := bool_decide (errors p = []); st_allowed := allowed w; st_denied := zsum (denied w) reasons; byReason := denied w |}.
End client.
