(* ===== verification/EgressSpec.v ===== *)
(** * What the core connects to

    The shape of every trace a request can leave: rounds of a name that the policy lists
    being resolved and a connection to the address that was vetted, one more round for
    each redirect that is followed. The theorems are read off that shape. *)

From S2P Require Import Prelude NetIp NetSpan NetIpSpec NetGuard NetGuardSpec Egress.
From Stdlib Require Import Ascii.

(** ** Loopback addresses *)

Lemma loopback_verdict a c : valid a -> canonical a = a -> c ∈ loopback -> inCidr a c = true -> is_loopback_verdict a = true.
Proof.
  intros [Hl Hb] Hc Hin. unfold inCidr. rewrite Hc. destruct a as [f b]. cbn [a_family a_bytes] in *. intros H. bool_hyps.
  apply elem_of_cons in Hin as [->|Hin%list_elem_of_singleton]; [|subst c]; cbn [r_family r_bytes r_prefix] in *; subst f; cbn [size] in Hl.
  - destruct b as [|x [|y [|z [|t [|? ?]]]]]; try discriminate Hl. apply bytes_ok_cons in Hb as [Hx Hb].
    rewrite match8 in H0 by lia. bool_hyps. subst x. vm_compute. reflexivity.
  - assert (E : bytes_ok [0; 0; 0; 0; 0; 0; 0; 0; 0; 0; 0; 0; 0; 0; 0; 1]) by (apply bytes_okb; vm_compute; reflexivity).
    apply bytes_match_div in H0; [|exact Hl|exact Hb|exact E|rewrite Hl; cbn; lia]. rewrite Hl in H0. change (8 * Z.of_nat 16 - 128) with 0 in H0.
    rewrite Z.pow_0_r, !Z.div_1_r in H0. apply value_inj in H0; [|exact Hl|exact Hb|exact E]. rewrite H0. vm_compute. reflexivity.
Qed.

(** ** What a request may reach *)

(** The policy lets the name of [u] be looked up. *)
Definition listed (p : EgressPolicy) (u : URL) : Prop :=
  hostAllowed p (bareHost u) false false = true /\ (exists n, effectivePort u = Some n /\ JNum (Fin n) ∈ p_allowPorts p) /\
  username u = [] /\ password u = [] /\ (is_https u = true \/ is_http u = true /\ allowLoopback p = true /\ isLoopbackHost (bareHost u) = true) /\
  (allowLoopback p = true -> isLoopbackHost (bareHost u) = true -> hostAllowed p (bareHost u) true false = true).

(** The address is one [u] may be reached at: a public one over https, or a loopback address where loopback is switched on and the host of [u] is a
    loopback spelling. *)
Definition reachable (p : EgressPolicy) (u : URL) (pin : ResolvedAddress) : Prop :=
  exists a, valid a /\ canonical a = a /\ (forall strict, parseAddress (address pin) strict = Some a) /\ (forall c, c ∈ metadata -> inCidr a c = false) /\
    (special a = false /\ is_https u = true \/
     is_loopback_verdict a = true /\ allowLoopback p = true /\ isLoopbackHost (bareHost u) = true).

Lemma includes_port_elem l n : includes_port l n = true -> exists k, n = Some k /\ JNum (Fin k) ∈ l.
Proof.
  unfold includes_port. destruct n as [k|]; [|done]. intros (x & Hx & E)%existsb_elem. exists k. split; [done|].
  destruct x as [| | |[m| |]| | |]; try discriminate E. apply Z.eqb_eq in E as ->. exact Hx.
Qed.

Lemma before_listed p u : beforeResolve p u = None -> listed p u.
Proof.
  unfold beforeResolve. repeat (match goal with |- (if ?b then _ else _) = None -> _ => destruct b eqn:?; [discriminate|] end). intros _.
  bool_hyps. split_and!; try done.
  - apply includes_port_elem. done.
  - destruct (is_https u) eqn:E; [by left|]. cbn [negb andb] in *. bool_hyps. right. auto.
  - intros Hl Hb. rewrite Hl, Hb in *. cbn [andb] in *. by bool_hyps.
Qed.

Lemma after_reachable p u pin : pins (addressPolicy p false) (host_name (hostname u)) pin -> afterResolve p u pin = None ->
  (is_https u = true \/ is_http u = true) -> reachable p u pin.
Proof.
  intros (a & Hv & Hc & Hp & _ & Hd & Ha) Ht Hs. exists a. split_and!; try done. revert Ht. unfold afterResolve. rewrite Hp.
  repeat (match goal with |- (if ?b then _ else _) = None -> _ => destruct b eqn:?; [discriminate|] end). intros _.
  destruct (is_loopback_verdict a) eqn:El; cbn [andb negb] in *; bool_hyps.
  - right. auto.
  - rewrite andb_true_r in *. left. split; [|destruct Hs as [?|E]; congruence].
    destruct Ha as [Ha|(c & [Hx|Hx] & Hi)]; [done|by apply elem_of_nil in Hx|]. cbn [forHost addressPolicy andb] in Hx.
    destruct (_ && _); [|by apply elem_of_nil in Hx]. by rewrite (loopback_verdict a c) in El.
Qed.

(** A configuration with an error lists nothing. *)
Lemma listed_valid f c u : listed (compileEgressPolicy f c) u -> errors (compileEgressPolicy f c) = [].
Proof.
  unfold compileEgressPolicy. destruct (compile_all f _) as [rules bad]. cbn zeta. set (errs := _ ++ _). intros (_ & (n & _ & Hn) & _).
  cbn [p_allowPorts errors] in *. destruct (bool_decide (length errs = 0%nat)) eqn:E; cbn [negb] in Hn; [|by apply elem_of_nil in Hn].
  apply bool_decide_eq_true in E. by destruct errs.
Qed.

(** ** The shape of a trace *)

Section rounds.
Context (p : EgressPolicy) (parts : Parts) (may_follow : bool).

(** What up to [n] rounds leave, the first for [u]: each may end before its lookup, after it, or after its connection. *)
Inductive Rounds : nat -> URL -> list Ev -> Prop :=
| rounds_none n u : Rounds n u []
| rounds_looked n u : listed p u -> Rounds (S n) u [Resolve (hostname u)]
| rounds_connected n u v pin l : listed p u -> reachable p u pin -> (l <> [] -> may_follow = true) -> Rounds n v l ->
    Rounds (S n) u (Resolve (hostname u) :: Connect u pin parts :: l).

Definition connects (l : list Ev) : list (URL * ResolvedAddress * Parts) :=
  omap (fun e => match e with Connect u pin ps => Some (u, pin, ps) | Resolve _ => None end) l.

Lemma rounds_each n u l : Rounds n u l ->
  (forall h, Resolve h ∈ l -> exists v, hostname v = h /\ listed p v) /\
  (forall v pin ps, Connect v pin ps ∈ l -> ps = parts /\ listed p v /\ reachable p v pin).
Proof.
  induction 1 as [n u|n u Hl|n u v pin l Hl Hr _ _ [IH1 IH2]].
  - split; intros; by match goal with H : _ ∈ [] |- _ => apply elem_of_nil in H end.
  - split; [|by intros ? ? ? ?%list_elem_of_singleton]. intros h [= ->]%list_elem_of_singleton. by exists u.
  - split.
    + intros h [[= ->]|[?|Hh]%elem_of_cons]%elem_of_cons; [by exists u|done|auto].
    + intros v' pin' ps [?|[[= -> -> ->]|Hh]%elem_of_cons]%elem_of_cons; [done|done|auto].
Qed.

Lemma rounds_count n u l : Rounds n u l ->
  (length (connects l) <= n)%nat /\ (forall c, head (connects l) = Some c -> c.1.1 = u) /\ ((2 <= length (connects l))%nat -> may_follow = true).
Proof.
  induction 1 as [n u|n u Hl|n u v pin l Hl Hr Hf _ (IH1 & IH2 & IH3)].
  - split_and!; [cbn; lia|done|cbn; lia].
  - split_and!; [cbn; lia|done|cbn; lia].
  - change (connects (Resolve (hostname u) :: Connect u pin parts :: l)) with ((u, pin, parts) :: connects l). split_and!.
    + cbn. lia.
    + intros c [= <-]. done.
    + cbn. intros H. apply Hf. intros ->. cbn in H. lia.
Qed.
End rounds.

(** ** Steps that leave no trace *)

Definition quiet {A} (m : M A) : Prop := forall w, trace (m w).2 = trace w /\ (m w).1 <> Err Stuck.

Lemma quiet_ret {A} (a : A) : quiet (mret a). Proof. done. Qed.
Lemma quiet_throw {A} e : e <> Stuck -> quiet (throw e : M A). Proof. intros H w. split; [done|]. cbn. congruence. Qed.
Lemma quiet_require b e : e <> Stuck -> quiet (require b e). Proof. intros H w. destruct b; [done|by apply (quiet_throw e H)]. Qed.
Lemma quiet_record d : quiet (record d). Proof. by intros w; destruct d. Qed.
Lemma quiet_tick : quiet tick. Proof. done. Qed.
Lemma quiet_lift {A} (r : result Thrown A) : r <> Err Stuck -> quiet (lift r).
Proof. destruct r as [a|e]; intros H; [done|]. apply quiet_throw. congruence. Qed.
Lemma quiet_bind {A B} (m : M A) (k : A -> M B) : quiet m -> (forall a, quiet (k a)) -> quiet (m ≫= k).
Proof.
  intros Hm Hk w. unfold mbind, SE_bind. specialize (Hm w). destruct (m w) as [[a|e] w1]; cbn in *; [|by destruct Hm as [? ?]; split; [|congruence]].
  destruct (Hk a w1) as [-> ?]. by destruct Hm.
Qed.
Lemma quiet_refuse d : quiet (refuse d).
Proof. destruct d; [|apply quiet_ret]. apply quiet_bind; [apply quiet_record|intros; by apply quiet_throw]. Qed.
Lemma quiet_abort f : quiet (check_abort f).
Proof. apply quiet_bind; [apply quiet_tick|]. intros n. destruct (f n); [by apply quiet_throw|apply quiet_ret]. Qed.
Lemma quiet_after {A} f e : e <> Stuck -> quiet (after_throw f e : M A).
Proof. intros H. apply quiet_bind; [apply quiet_tick|]. intros n. destruct (_ && _); apply quiet_throw; [done|by destruct e]. Qed.
#[export] Hint Resolve quiet_ret quiet_throw quiet_require quiet_record quiet_tick quiet_lift quiet_refuse quiet_abort quiet_after : egress.

(** Run the next step of a sequence: it has left no trace, whether it returns or throws. *)
Lemma quiet_step {A B} (m : M A) (k : A -> M B) w (P : result Thrown B * World -> Prop) : quiet m ->
  (forall e w', m w = (Err e, w') -> e <> Stuck -> trace w' = trace w -> P (Err e, w')) -> (forall a w', m w = (Ok a, w') -> trace w' = trace w -> P (k a w')) ->
  P ((m ≫= k) w).
Proof.
  intros Hq He Hk. specialize (Hq w) as [Ht Hs]. unfold mbind, SE_bind. destruct (m w) as [[a|e] w'] eqn:E; cbn in *; [auto|]. apply He; [done|congruence|done].
Qed.

Lemma quiet_end {A} (m : M A) w (P : result Thrown A * World -> Prop) : quiet m -> (forall r w', r <> Err Stuck -> trace w' = trace w -> P (r, w')) -> P (m w).
Proof. intros Hq H. specialize (Hq w) as [Ht Hs]. destruct (m w) as [r w']. by apply H. Qed.

Lemma web_sane {A} (r : result WebFailure A) : web r <> Err Stuck. Proof. by destruct r. Qed.
Lemma readCapped_sane l b acc max : readCapped l b acc max <> Err Stuck.
Proof. revert acc. induction l as [|c l IH]; intros acc; cbn; [by destruct b|]. destruct (max <? _); [done|apply IH]. Qed.

Lemma read_answer_sane o m r : read_answer o m r <> Err Stuck.
Proof.
  unfold read_answer. destruct (_ && _); [done|]. destruct (_ && _).
  { pose proof (web_sane (decoders (h_encoding (rs_headers r)))) as H. by destruct (web _) as [|[]]. }
  destruct (_ || _).
  { cbn zeta. destruct (_ <=? 0); [done|]. by destruct (decoders _). }
  destruct (discardBody o); [done|]. destruct (match acceptType o with Some _ => _ | None => _ end); [|done].
  pose proof (web_sane (decoders (h_encoding (rs_headers r)))) as H. destruct (web _) as [x|e]; [|by destruct e]. cbn [rbind].
  destruct (negb _); [|done]. pose proof (readCapped_sane (chunks r) (broken r) [] (default DEFAULT_MAX_BYTES (maxBytes o))) as Hc.
  by destruct (readCapped _ _ _ _) as [|[]].
Qed.

Section client.
Context (parse_url : list ascii -> option URL) (resolve_url : list ascii -> URL -> option URL)
  (resolver : nat -> list ascii -> option (list ResolvedAddress)) (answer : nat -> Answer) (aborted : nat -> bool).

Lemma parseTarget_sane raw : parseTarget parse_url raw <> Err Stuck.
Proof. unfold parseTarget. destruct (parse_url raw); [|done]. by repeat case_match. Qed.

Lemma parseTarget_ok raw u : parseTarget parse_url raw = Ok u -> parse_url raw = Some u /\ (is_https u = true \/ is_http u = true).
Proof.
  unfold parseTarget. destruct (parse_url raw) as [v|]; [|done]. destruct (negb (is_http v) && negb (is_https v)) eqn:E; [done|]. repeat case_match; try done.
  intros [= ->]. split; [done|]. apply andb_false_iff in E as [E|E]; bool_hyps; auto.
Qed.

Section request.
Context (o : HttpOptions) (parts : Parts) (p : EgressPolicy).
Notation vetted := (vetted resolver aborted (Some p) (addressPolicy p false)).
Notation hop := (hop answer aborted o parts).
Notation follow := (follow parse_url resolve_url resolver answer aborted o parts (Some p) (addressPolicy p false)).
Notation Rounds := (Rounds p parts (follows o parts)).

(** A look-up happens for a listed name only, and an address that comes of it is one the name may be reached at. *)
Lemma vetted_step u w : let '(r, w') := vetted u w in
  r <> Err Stuck /\ exists l, trace w' = trace w ++ l /\
  match r with Ok pin => l = [Resolve (hostname u)] /\ listed p u /\ reachable p u pin | Err _ => l = [] \/ l = [Resolve (hostname u)] /\ listed p u end.
Proof.
  unfold Egress.vetted. apply quiet_step; [auto with egress| |].
  { intros e w' _ He Ht. split; [congruence|]. exists []. rewrite app_nil_r. auto. }
  intros [] w1 E Ht. destruct (beforeResolve p u) as [d|] eqn:Eb; [by unfold refuse, mbind, SE_bind in E; cbn in E|]. apply before_listed in Eb.
  unfold guard_host. unfold mbind at 1, SE_bind at 1. unfold mbind at 1, SE_bind at 1. unfold mbind at 1, SE_bind at 1. cbn [tick emit modify mret SE_ret].
  unfold mret at 1, SE_ret at 1. apply quiet_step; [auto with egress| |].
  { intros e w' _ He Ht'. split; [congruence|]. exists [Resolve (hostname u)]. cbn in Ht'. rewrite Ht', Ht. auto. }
  intros [] w2 _ Ht2. cbn in Ht2. rewrite Ht in Ht2. destruct (resolveGuarded _ _ _) as [pin|f] eqn:Eg.
  2: { split; [done|]. exists [Resolve (hostname u)]. auto. }
  apply guard_sound in Eg as [Eg _]. destruct (afterResolve p u pin) as [d|] eqn:Ea.
  - split; [done|]. exists [Resolve (hostname u)]. auto.
  - split; [done|]. exists [Resolve (hostname u)]. split; [done|]. split; [done|]. split; [done|]. apply after_reachable; [done|done|].
    destruct Eb as (_ & _ & _ & _ & [?|(? & _)] & _); auto.
Qed.

Lemma hop_step u pin w : let '(r, w') := hop u pin w in r <> Err Stuck /\ trace w' = trace w ++ [Connect u pin parts].
Proof.
  unfold Egress.hop. unfold mbind at 1, SE_bind at 1. cbn [emit modify]. apply quiet_step; [auto with egress| |].
  - intros e w' _ He Ht. split; [congruence|done].
  - intros [] w1 _ Ht. unfold mbind, SE_bind. cbn [tick]. destruct (answer (moment w1)) as [r|c]; [|by split].
    pose proof (read_answer_sane o (pt_method parts) r) as H. by destruct (read_answer _ _ r).
Qed.
Lemma to_follow_follows r loc : to_follow o parts r = Some loc -> follows o parts = true.
Proof. unfold to_follow. by destruct (follows o parts). Qed.

Lemma follow_step fuel : forall u redirects w, let '(r, w') := follow fuel u redirects w in
  (exists l, trace w' = trace w ++ l /\ Rounds fuel u l) /\
  (Z.of_nat fuel + zlen redirects = 1 + Z.max 0 (redirect_limit o parts) -> (0 < fuel)%nat -> r <> Err Stuck).
Proof.
  induction fuel as [|fuel IH]; intros u redirects w; [split; [exists []; rewrite app_nil_r; split; [done|constructor]|lia]|].
  assert (Stop : forall w', trace w' = trace w -> exists l, trace w' = trace w ++ l /\ Rounds (S fuel) u l)
    by (intros w' Ht; exists []; rewrite app_nil_r; split; [done|constructor]).
  cbn [Egress.follow]. apply quiet_step; [auto with egress| |].
  { intros e w1 _ He Ht. split; [by apply Stop|congruence]. }
  intros [] w1 _ Ht1. unfold mbind at 1, SE_bind at 1. pose proof (vetted_step u w1) as Hv. destruct (vetted u w1) as [[pin|e] w2].
  2: { destruct Hv as (He & l & Hl & [->|[-> Hu]]); (split; [|congruence]).
       - rewrite app_nil_r in Hl. apply Stop. congruence.
       - exists [Resolve (hostname u)]. split; [congruence|by constructor]. }
  destruct Hv as (_ & l & Hl & -> & Hu & Hr). unfold mbind at 1, SE_bind at 1. pose proof (hop_step u pin w2) as Hh. destruct (hop u pin w2) as [r w3].
  destruct Hh as [Hs Hh]. rewrite Hl, Ht1, <- app_assoc in Hh. cbn [app] in Hh.
  assert (Here : forall w', trace w' = trace w3 -> exists l, trace w' = trace w ++ l /\ Rounds (S fuel) u l).
  { intros w' Ht. exists [Resolve (hostname u); Connect u pin parts]. split; [congruence|]. apply (rounds_connected _ _ _ fuel u u); [done..|constructor]. }
  destruct r as [r|e]; [|split; [by apply Here|congruence]].
  apply quiet_step; [auto with egress| |].
  { intros e w4 _ He Ht. split; [by apply Here|congruence]. }
  intros [] w4 _ Ht4. destruct (to_follow o parts r) as [loc|] eqn:Ef; [|by split; [apply Here|]]. apply to_follow_follows in Ef.
  apply (quiet_step (require _ _)); [auto with egress| |].
  { intros e w5 _ He Ht. split; [apply Here; congruence|congruence]. }
  intros [] w5 Hlim Ht5. apply require_ok in Hlim as [Hlim _]. destruct (resolve_url loc u) as [v|]; [|by split; [apply Here; congruence|]].
  apply (quiet_step (lift _)); [apply quiet_lift, parseTarget_sane| |].
  { intros e w6 _ He Ht. split; [apply Here; congruence|congruence]. }
  intros v' w6 _ Ht6. apply quiet_step.
  { destruct (onRedirect o) as [f|]; [|apply quiet_ret]. apply quiet_bind; [apply quiet_tick|]. intros n. destruct (aborted n); [by apply quiet_throw|].
    destruct (f n v') as [[?|?]|]; [by apply quiet_throw..|apply quiet_ret]. }
  { intros e w7 _ He Ht. split; [apply Here; congruence|congruence]. }
  intros [] w7 _ Ht7. specialize (IH v' (redirects ++ [href u]) w7). destruct (follow fuel v' (redirects ++ [href u]) w7) as [r' w8].
  destruct IH as [(l & Hl' & HR) IH]. split.
  - exists (Resolve (hostname u) :: Connect u pin parts :: l). split; [|by apply (rounds_connected _ _ _ fuel u v')].
    rewrite Hl'. replace (trace w7) with (trace w3) by congruence. rewrite Hh, <- app_assoc. done.
  - bool_hyps. intros Hf _. apply IH; unfold zlen in *; rewrite ?length_app; cbn [length]; lia.
Qed.

(** A whole request: nothing, or rounds that begin with the URL that was asked for. *)
Lemma request_rounds raw w : let '(r, w') := run_request parse_url resolve_url resolver answer aborted o parts (Some p) (addressPolicy p false) raw w in
  r <> Err Stuck /\ exists l, trace w' = trace w ++ l /\ (l = [] \/ exists u, parse_url raw = Some u /\ Rounds (rounds o parts) u l).
Proof.
  unfold run_request, catch.
  assert (H : let '(r, w') := (u ← lift (parseTarget parse_url raw); follow (rounds o parts) u []) w in
    r <> Err Stuck /\ exists l, trace w' = trace w ++ l /\ (l = [] \/ exists u, parse_url raw = Some u /\ Rounds (rounds o parts) u l)).
  { apply quiet_step; [apply quiet_lift, parseTarget_sane| |].
    - intros e w1 _ He Ht. split; [congruence|]. exists []. rewrite app_nil_r. auto.
    - intros u w1 Hu Ht. pose proof (follow_step (rounds o parts) u [] w1) as Hf. destruct (follow _ u [] w1) as [r w2]. destruct Hf as [(l & Hl & HR) Hs].
      split; [apply Hs; unfold rounds, zlen; cbn; lia|]. exists l. split; [congruence|]. right. exists u. split; [|done].
      destruct (parseTarget parse_url raw) as [x|] eqn:E; [|discriminate Hu]. injection Hu as -> _. by apply parseTarget_ok in E as [? _]. }
  revert H. destruct ((u ← lift _; follow _ u []) w) as [[a|e] w1]; intros (Hs & l & Hl & HR); [split; [done|by exists l]|].
  pose proof (quiet_after (A:=HttpResponse) aborted e ltac:(congruence) w1) as [Ht He]. destruct (after_throw aborted e w1) as [r w2]. cbn in Ht, He.
  split; [done|]. exists l. split; [congruence|done].
Qed.
End request.
End client.

(** ** The service *)

Section service.
Context (parse_url : list ascii -> option URL) (resolve_url : list ascii -> URL -> option URL)
  (resolver : nat -> list ascii -> option (list ResolvedAddress)) (answer : nat -> Answer) (aborted : nat -> bool) (domainToASCII : list ascii -> list ascii).

Notation request := (request parse_url resolve_url resolver answer aborted domainToASCII).
Notation decide := (decide parse_url resolver domainToASCII).
Notation compile := (compileEgressPolicy domainToASCII).

(** The configuration a request goes by. *)
Definition config_for (config : EgressConfig) (o : HttpOptions) : option EgressConfig := if modelDownload o then modelDownloadPolicy config else Some config.

Lemma service_rounds config raw o w : let '(r, w') := request config raw o w in
  r <> Err Stuck /\ exists l, trace w' = trace w ++ l /\
  (l = [] \/ exists c parts u, config_for config o = Some c /\ requestParts o = Ok parts /\ parse_url raw = Some u /\ Rounds (compile c) parts (follows o parts) (rounds o parts) u l).
Proof.
  unfold Egress.request. change (if modelDownload o then modelDownloadPolicy config else Some config) with (config_for config o).
  destruct (config_for config o) as [c|] eqn:Ec; [|split; [done|]; exists []; rewrite app_nil_r; auto].
  assert (H : let '(r, w') := guardedRequest parse_url resolve_url resolver answer aborted raw o (Some (compile c)) (addressPolicy (compile c) false) w in
    r <> Err Stuck /\ exists l, trace w' = trace w ++ l /\
    (l = [] \/ exists parts u, requestParts o = Ok parts /\ parse_url raw = Some u /\ Rounds (compile c) parts (follows o parts) (rounds o parts) u l)).
  { unfold guardedRequest. apply quiet_step; [apply quiet_lift, web_sane| |].
    - intros e w1 _ He Ht. split; [congruence|]. exists []. rewrite app_nil_r. auto.
    - intros parts w1 Hp Ht. pose proof (request_rounds parse_url resolve_url resolver answer aborted o parts (compile c) raw w1) as Hr.
      destruct (run_request _ _ _ _ _ _ _ _ _ _ w1) as [r w2]. destruct Hr as (Hs & l & Hl & HR). split; [done|]. exists l. split; [congruence|].
      destruct HR as [->|(u & Hu & HR)]; [by left|]. right. exists parts, u. split; [|done].
      destruct (requestParts o); [|discriminate Hp]. by injection Hp as -> _. }
  unfold catch. revert H. destruct (guardedRequest _ _ _ _ _ _ _ _ _ w) as [[a|e] w1]; intros (Hs & l & Hl & HR).
  - split; [done|]. exists l. split; [done|]. destruct HR as [->|(parts & u & ? & ? & ?)]; [by left|]. right. by exists c, parts, u.
  - apply quiet_end.
    { apply quiet_bind; [destruct (is_private e); [apply quiet_record|apply quiet_ret]|]. intros _. apply quiet_throw. congruence. }
    intros r w2 Hq Ht. split; [exact Hq|]. exists l. split; [congruence|].
    destruct HR as [->|(parts & u & ? & ? & ?)]; [by left|]. right. by exists c, parts, u.
Qed.

(** (C21) Connections go where the configuration says. Whatever URL is requested, however often it redirects, and whatever the resolver answers at any
    moment: every name that is looked up is one the policy lists, at a port it lists, without credentials; and every connection is to such a
    URL, at one vetted address that is never the metadata address and is either public, and reached over https, or a loopback address, for a host that
    is itself spelled as loopback and listed by name, with loopback switched on. A configuration with any error lets nothing out at all. *)
Theorem connects_only_listed config raw o w : exists l, trace (request config raw o w).2 = trace w ++ l /\
  (forall host, Resolve host ∈ l -> exists c u, config_for config o = Some c /\ errors (compile c) = [] /\ hostname u = host /\ listed (compile c) u) /\
  (forall u pin parts, Connect u pin parts ∈ l -> exists c, config_for config o = Some c /\ errors (compile c) = [] /\ listed (compile c) u /\ reachable (compile c) u pin).
Proof.
  pose proof (service_rounds config raw o w) as H. destruct (request config raw o w) as [r w']. destruct H as (_ & l & Hl & HR). exists l. split; [done|].
  destruct HR as [->|(c & parts & u & Hc & _ & _ & [H1 H2]%rounds_each)]; [split; intros; by match goal with H : _ ∈ [] |- _ => apply elem_of_nil in H end|]. split.
  - intros h (v & <- & Hv)%H1. exists c, v. split_and!; try done. by eapply listed_valid.
  - intros v pin ps (-> & Hv & Hr)%H2. exists c. split_and!; try done. by eapply listed_valid.
Qed.

(** A redirect is handed nothing. A request always ends, after at most one connection more than the redirects it may follow; the first connection is
    to the URL that was asked for, and each carries the request's own method, headers and body. If there is a second connection, then the request
    is a GET or a HEAD without a body, and has no header of its caller but the harmless ones an engine download may name. *)
Theorem redirects_carry_nothing config raw o w : let '(r, w') := request config raw o w in
  r <> Err Stuck /\ exists l, trace w' = trace w ++ l /\
  (length (connects l) <= S (Z.to_nat (default 10 (maxRedirects o))%Z))%nat /\
  (forall c, head (connects l) = Some c -> parse_url raw = Some c.1.1) /\
  (forall c, c ∈ connects l -> requestParts o = Ok c.2) /\
  ((2 <= length (connects l))%nat -> forall c, c ∈ connects l -> pt_body c.2 = None /\ (pt_method c.2 = GET \/ pt_method c.2 = HEAD) /\
     forall h, h ∈ pt_headers c.2 -> safeRedirectHeaders o = true /\ h.1 ∈ harmless).
Proof.
  pose proof (service_rounds config raw o w) as H. destruct (request config raw o w) as [r w']. destruct H as (Hs & l & Hl & HR). split; [done|]. exists l. split; [done|].
  destruct HR as [->|(c & parts & u & Hc & Hp & Hu & HR)].
  { split_and!; [cbn; lia|done|by intros ? ?%elem_of_nil|cbn; lia]. }
  destruct (rounds_count _ _ _ _ _ _ HR) as (H1 & H2 & H3). apply rounds_each in HR as [_ H4].
  assert (H5 : forall x, x ∈ connects l -> x.2 = parts).
  { intros [[v pin] ps] Hx. unfold connects in Hx. rewrite list_elem_of_omap in Hx. destruct Hx as ([h|v' pin' ps'] & Hx & E); [discriminate E|].
    injection E as <- <- <-. by apply H4 in Hx as (-> & _). }
  split_and!.
  - etrans; [exact H1|]. unfold rounds, redirect_limit. destruct (follows o parts); lia.
  - intros x Hx. by rewrite (H2 x Hx).
  - intros x Hx. by rewrite (H5 x Hx).
  - intros Hn x Hx. rewrite (H5 x Hx). specialize (H3 Hn). unfold follows in H3. bool_hyps. split_and!; [done| |].
    + destruct (bool_decide (pt_method parts = GET)) eqn:E; [left; by apply bool_decide_eq_true in E|]. cbn [orb] in *. right. by bool_hyps.
    + intros h Hh. destruct (bool_decide (pt_headers parts = [])) eqn:E; [bool_hyps; rewrite E in Hh; by apply elem_of_nil in Hh|]. cbn [orb] in *. bool_hyps.
      split; [done|]. match goal with H : forallb _ _ = true |- _ => rewrite forallb_elem in H; specialize (H h Hh); apply existsb_elem in H as (y & Hy & E') end.
      bool_hyps. by subst.
Qed.
(** *** The dry run and the dial *)

Lemma bind_eq {A B} (m : M A) (k : A -> M B) w : (m ≫= k) w = match m w with (Ok a, w1) => k a w1 | (Err e, w1) => (Err e, w1) end.
Proof. done. Qed.

Definition grows {A} (m : M A) : Prop := forall w, exists l, trace (m w).2 = trace w ++ l.

Lemma grows_quiet {A} (m : M A) : quiet m -> grows m.
Proof. intros H w. exists []. rewrite app_nil_r. apply H. Qed.

Lemma grows_bind {A B} (m : M A) (k : A -> M B) : grows m -> (forall a, grows (k a)) -> grows (m ≫= k).
Proof.
  intros Hm Hk w. unfold mbind, SE_bind. destruct (Hm w) as [l Hl]. destruct (m w) as [[a|e] w1]; cbn in Hl; [|by exists l].
  destruct (Hk a w1) as [l' Hl']. exists (l ++ l'). by rewrite Hl', Hl, app_assoc.
Qed.

Section agree.
Context (Hlive : forall n, aborted n = false) (Hsame : forall n h, resolver n h = resolver 0%nat h).
Context (p : EgressPolicy) (u : URL).

(** What the gate and the guard make of [u]. *)
Definition verdict : option ResolvedAddress :=
  match beforeResolve p u, resolveGuarded (resolver 0%nat) (hostname u) (addressPolicy p false) with
  | None, Ok pin => match afterResolve p u pin with None => Some pin | Some _ => None end
  | _, _ => None
  end.

Lemma live_check w : check_abort aborted w = (Ok tt, (tick w).2).
Proof. unfold check_abort, mbind, SE_bind. cbn [tick]. by rewrite Hlive. Qed.

Lemma same_guard n host policy : resolveGuarded (resolver n) host policy = resolveGuarded (resolver 0%nat) host policy.
Proof. unfold resolveGuarded. cbn zeta. by rewrite Hsame. Qed.

Lemma guard_run host policy w :
  guard_host resolver host policy w = (Ok (resolveGuarded (resolver 0%nat) host policy), (emit (Resolve host) (tick w).2).2).
Proof. unfold guard_host, mbind, SE_bind. cbn. by rewrite same_guard. Qed.

Lemma vetted_verdict w : match (vetted resolver aborted (Some p) (addressPolicy p false) u w).1 with Ok pin => verdict = Some pin | Err _ => verdict = None end.
Proof.
  unfold vetted, verdict. destruct (beforeResolve p u) as [d|]; [done|].
  rewrite (SE_bind_run (refuse None) _ w tt w eq_refl), (SE_bind_run _ _ _ _ _ (guard_run _ _ _)), (SE_bind_run _ _ _ _ _ (live_check _)).
  destruct (resolveGuarded _ _ _) as [pin|f]; [|done]. by destruct (afterResolve p u pin).
Qed.

Lemma decide_verdict w : match (decide_url resolver p false u w).1 with
  | Ok (Reachable _ _ a f) => verdict = Some {| address := a; ra_family := f |} | Ok (Unreached _) | Err _ => verdict = None end.
Proof.
  unfold decide_url, verdict. destruct (beforeResolve p u) as [d|]; [done|].
  rewrite (SE_bind_run (refuse None) _ w tt w eq_refl). cbn [andb]. rewrite (SE_bind_run _ _ _ _ _ (guard_run _ _ _)).
  destruct (resolveGuarded _ _ _) as [pin|f]; [|done]. destruct (afterResolve p u pin); [done|]. by destruct pin.
Qed.

Lemma follow_first o parts fuel red w : 
  match verdict with
  | Some pin => exists l, trace (follow parse_url resolve_url resolver answer aborted o parts (Some p) (addressPolicy p false) (S fuel) u red w).2 = trace w ++ Resolve (hostname u) :: Connect u pin parts :: l
  | None => exists l, trace (follow parse_url resolve_url resolver answer aborted o parts (Some p) (addressPolicy p false) (S fuel) u red w).2 = trace w ++ l /\ connects l = []
  end.
Proof.
  cbn [follow]. rewrite (SE_bind_run _ _ _ _ _ (live_check _)). set (w1 := (tick w).2). rewrite bind_eq.
  pose proof (vetted_verdict w1) as Hv. pose proof (vetted_step resolver aborted p u w1) as Hs.
  destruct (vetted resolver aborted (Some p) (addressPolicy p false) u w1) as [[pin|e] w2]; cbn [fst] in Hv; rewrite Hv.
  2: { destruct Hs as (_ & l & Hl & Hx). exists l. split; [exact Hl|]. by destruct Hx as [->|[-> _]]. }
  destruct Hs as (_ & l & Hl & -> & _ & _). pose proof (hop_step answer aborted o parts u pin w2) as Hh.
  rewrite bind_eq. destruct (hop answer aborted o parts u pin w2) as [r w3]. destruct Hh as [_ Hh]. rewrite Hl, <- app_assoc in Hh. cbn [app] in Hh.
  assert (G : forall X (m : M X), grows m -> exists l, trace (m w3).2 = trace w ++ Resolve (hostname u) :: Connect u pin parts :: l).
  { intros X m Hg. destruct (Hg w3) as [l' Hl']. exists l'. rewrite Hl', Hh, <- app_assoc. done. }
  destruct r as [r|e]; [|exists []; exact Hh]. apply G.
  apply grows_bind; [by apply grows_quiet, quiet_require|]. intros _. destruct (to_follow o parts r) as [loc|]; [|by apply grows_quiet].
  apply grows_bind; [by apply grows_quiet, quiet_require|]. intros _. destruct (resolve_url loc u) as [v|]; [|by apply grows_quiet, quiet_throw].
  apply grows_bind; [apply grows_quiet, quiet_lift, parseTarget_sane|]. intros v'. apply grows_bind.
  - apply grows_quiet. destruct (onRedirect o) as [f|]; [|apply quiet_ret]. apply quiet_bind; [apply quiet_tick|]. intros n. destruct (aborted n); [by apply quiet_throw|].
    destruct (f n v') as [[?|?]|]; [by apply quiet_throw..|apply quiet_ret].
  - intros _ w'. pose proof (follow_step parse_url resolve_url resolver answer aborted o parts p fuel v' (red ++ [href u]) w') as H.
    destruct (follow _ _ _ _ _ _ _ _ _ _ _ _ w') as [r' w'']. destruct H as [(l' & Hl' & _) _]. by exists l'.
Qed.
End agree.
Lemma before_target p raw u : parse_url raw = Some u -> beforeResolve p u = None -> parseTarget parse_url raw = Ok u.
Proof.
  intros Hu. unfold beforeResolve, parseTarget. rewrite Hu.
  repeat (match goal with |- (if ?b then _ else _) = None -> _ => destruct b eqn:?; [discriminate|] end). intros _. bool_hyps.
  assert (Hs : negb (is_http u) && negb (is_https u) = false).
  { destruct (is_https u); [by rewrite andb_false_r|]. cbn [negb andb] in *. bool_hyps. by replace (is_http u) with true. }
  rewrite Hs. cbn [negb orb]. rewrite bool_decide_eq_false_2; [done|].
  intros E. assert (bareHost u = []) by (unfold bareHost; by rewrite E). done.
Qed.

(** What a request leaves is what its rounds leave. *)
Lemma service_trace config raw o parts w l : modelDownload o = false -> requestParts o = Ok parts ->
  trace (match parseTarget parse_url raw with
         | Ok u => (follow parse_url resolve_url resolver answer aborted o parts (Some (compile config)) (addressPolicy (compile config) false) (rounds o parts) u [] w).2
         | Err _ => w end) = trace w ++ l -> trace (request config raw o w).2 = trace w ++ l.
Proof.
  intros Hm Hp H. unfold Egress.request. rewrite Hm. unfold catch, guardedRequest. rewrite Hp, bind_eq. cbn [web lift]. unfold mret at 1, SE_ret at 1.
  unfold run_request. unfold catch at 1. rewrite bind_eq.
  assert (A : forall e s, trace (after_throw (A:=HttpResponse) aborted e s).2 = trace s) by (intros e s; unfold after_throw; rewrite bind_eq; cbn; by destruct (_ && _)).
  assert (R : forall e s, trace (((if is_private e then record (Denied DPrivateAddress) else mret tt) ;; throw e : M HttpResponse) s).2 = trace s)
    by (intros e s; by destruct (is_private e)).
  destruct (parseTarget parse_url raw) as [v|e]; cbn [lift].
  - unfold mret at 1, SE_ret at 1. destruct (follow _ _ _ _ _ _ _ _ _ _ _ _ w) as [[a|e] s]; [done|]. cbn [snd] in H. rewrite <- A with (e := e) in H.
    destruct (after_throw aborted e s) as [[a|e'] s']; [done|]. exact (eq_trans (R _ _) H).
  - cbn [throw]. unfold throw at 1. rewrite <- A with (e := e) in H at 1. destruct (after_throw aborted e w) as [[a|e'] s']; [done|]. exact (eq_trans (R _ _) H).
Qed.

(** (C23) The dry run and the dial agree on ordinary requests. Of a request that is not a model download and whose method, headers and body are well formed,
    and of the dry run that does not ask about agents: while nothing is aborted and names resolve the same way each time, judging a URL says that it may be
    reached at an address exactly when requesting it looks its host up and then connects to it at that very address. (A model download is judged by a policy
    of its own, and an ill-formed request is refused before any look-up.) *)
Theorem dry_run_agrees config raw o parts w : (forall n, aborted n = false) -> (forall n h, resolver n h = resolver 0%nat h) ->
  modelDownload o = false -> requestParts o = Ok parts -> forall pin,
  (exists host n, (decide config raw false w).1 = Ok (Reachable host n (address pin) (ra_family pin))) <->
  (exists u l, parse_url raw = Some u /\ trace (request config raw o w).2 = trace w ++ Resolve (hostname u) :: Connect u pin parts :: l).
Proof.
  intros Hlive Hsame Hm Hp pin. destruct (parse_url raw) as [u|] eqn:Hu.
  2: { unfold Egress.decide. rewrite Hu. split; [intros (? & ? & [=])|by intros (? & ? & ? & _)]. }
  trans (verdict (compile config) u = Some pin).
  - unfold Egress.decide. rewrite Hu. unfold catch. pose proof (decide_verdict Hsame (compile config) u w) as Hd.
    destruct (decide_url resolver (compile config) false u w) as [[[h n a f|x]|e] w1]; cbn [fst] in *.
    + rewrite Hd. split; [by intros (? & ? & [= -> -> -> ->]); destruct pin|]. intros [= <-]. by exists h, n.
    + rewrite Hd. by split; [intros (? & ? & [=])|].
    + rewrite Hd. split; [|done]. intros (? & ? & H). destruct e as [y|y|]; [|discriminate H..]. by destruct (bool_decide _).
  - pose proof (fun l => service_trace config raw o parts w l Hm Hp) as T. pose proof (before_target (compile config) raw u Hu) as Hb.
    pose proof (parseTarget_ok parse_url raw) as Ho. destruct (parseTarget parse_url raw) as [v|e] eqn:Et.
    + destruct (Ho v eq_refl) as [Hv _]. assert (v = u) as -> by congruence.
      pose proof (follow_first Hlive Hsame (compile config) u o parts (Z.to_nat (redirect_limit o parts)) [] w) as Hf.
      destruct (verdict (compile config) u) as [pin'|].
      * destruct Hf as [l Hl]. apply T in Hl. rewrite Hl. split; [intros [= ->]; by exists u, l|]. intros (u' & l' & [= <-] & E%app_inv_head). congruence.
      * destruct Hf as (l & Hl & Hn). apply T in Hl. rewrite Hl. split; [done|]. intros (u' & l' & _ & E%app_inv_head). by rewrite E in Hn.
    + rewrite (T [] ltac:(by rewrite app_nil_r)). split.
      * unfold verdict. destruct (beforeResolve (compile config) u); [done|]. by specialize (Hb eq_refl).
      * by intros (u' & l' & _ & E%app_inv_head).
Qed.
End service.

(** ** What is kept of an answer *)

Lemma readCapped_bound l b acc max r : zlen acc <= Z.max 0 max -> readCapped l b acc max = Ok r -> zlen r <= Z.max 0 max.
Proof.
  revert acc. induction l as [|c l IH]; intros acc Ha; cbn; [by destruct b; intros [= <-]|]. destruct (max <? _) eqn:E; [done|]. apply IH. bool_hyps.
  unfold zlen in *. rewrite length_app. lia.
Qed.

Lemma pulled_bound l b total max : zsum zlen (pulled l b total max).1 <= Z.max 0 (max - total).
Proof.
  revert total. induction l as [|c l IH]; intros total; cbn; [lia|]. destruct (max <? total + zlen c) eqn:E; [cbn; lia|]. specialize (IH (total + zlen c)).
  destruct (pulled l b (total + zlen c) max) as [cs e]. cbn in *. bool_hyps. unfold zlen in *. lia.
Qed.

Lemma readUpTo_bound l b acc max r : 0 <= max -> readUpTo l b acc max = Some r -> zlen r <= max.
Proof.
  revert acc. assert (T : forall x : list Z, 0 <= max -> zlen (take (Z.to_nat max) x) <= max) by (intros x Hm; unfold zlen; rewrite length_take; lia).
  induction l as [|c l IH]; intros acc Hm; cbn.
  - destruct b; [done|]. intros [= <-]. by apply T.
  - destruct (max <=? _); [intros [= <-]; by apply T|by apply IH].
Qed.

(** However much an answer claims or sends: of a page at most [maxBytes] decoded bytes are kept or handed on, of an error page at most what was asked for. *)
Theorem answer_bounded o m r h : read_answer o m r = Ok h ->
  zlen (hp_body h) <= Z.max 0 (if 400 <=? rs_status r then errorBodyBytes o else default DEFAULT_MAX_BYTES (maxBytes o)) /\
  match hp_stream h with Some (cs, _) => zsum zlen cs <= Z.max 0 (default DEFAULT_MAX_BYTES (maxBytes o)) | None => True end.
Proof.
  unfold read_answer. cbn zeta. set (max := default DEFAULT_MAX_BYTES (maxBytes o)). assert (Z0 : forall x, zlen (@nil Z) <= Z.max 0 x) by (intros; unfold zlen; cbn; lia).
  destruct ((300 <=? _) && _); [intros [= <-]; by split|]. destruct (_ && _).
  { intros H. run_ok. cbn. split; [apply Z0|]. destruct (pulled _ _ _ _) as [cs e] eqn:E. pose proof (pulled_bound (chunks r) (broken r) 0 max) as B. rewrite E in B.
    cbn in B. by rewrite Z.sub_0_r in B. }
  destruct (400 <=? rs_status r) eqn:E4.
  - rewrite orb_true_r. destruct (errorBodyBytes o <=? 0) eqn:Ee; [intros [= <-]; by split|]. bool_hyps. destruct (decoders _); [|intros [= <-]; by split].
    intros [= <-]. split; [|done]. cbn. destruct (readUpTo _ _ _ _) as [b|] eqn:E; [|apply Z0]. apply readUpTo_bound in E; cbn; lia.
  - destruct (_ || _); [cbn; intros [= <-]; by split|]. destruct (discardBody o); [intros [= <-]; by split|]. intros H. run_ok. split; [|done]. cbn.
    eapply readCapped_bound; [|eassumption]. apply Z0.
Qed.
