(* ===== verification/NetRun.v ===== *)
(** * Runs of the address guard and the egress service

    The theorems of [NetIpSpec] and [NetGuardSpec] applied to concrete addresses,
    ranges and a resolver with two records; those of [EgressSpec] to a site that
    redirects to a second one. *)

From S2P Require Import Prelude NetIp NetIpSpec NetGuard NetGuardSpec Egress EgressSpec.
From Stdlib Require Import Ascii.

Definition quad (a b c d : Z) : ParsedAddress := {| a_family := F4; a_bytes := [a; b; c; d] |}.
Definition documentation : ParsedAddress := {| a_family := F6; a_bytes := [32; 1; 13; 184; 0; 0; 0; 0; 0; 0; 0; 0; 0; 0; 0; 1] |}.
Definition nat64_range : Cidr := {| r_family := F6; r_bytes := nat64_block; r_prefix := 96 |}.
Definition mapped_range : Cidr := {| r_family := F6; r_bytes := [0; 0; 0; 0; 0; 0; 0; 0; 0; 0; 255; 255; 8; 8; 8; 0]; r_prefix := 120 |}.

Definition validb (a : ParsedAddress) : bool := Nat.eqb (length (a_bytes a)) (size (a_family a)) && forallb (fun x => (0 <=? x) && (x <? 256)) (a_bytes a).

Lemma valid_of a : validb a = true -> valid a.
Proof. unfold validb. intros H. bool_hyps. split; [by apply Nat.eqb_eq|by apply bytes_okb]. Qed.

Lemma valid_range_of c : range_okb (r_family c) c = true -> valid_range c.
Proof. intros H. by apply range_okb_spec in H as [_ ?]. Qed.

Lemma public_exact_witness :
  is_public (classifyAddress (quad 169 254 169 254)) = false /\ is_public (classifyAddress (quad 8 8 8 8)) = negb (special (quad 8 8 8 8))
  /\ is_public (classifyAddress documentation) = negb (special documentation).
Proof. split; [vm_compute; reflexivity|]. split; apply public_exact; apply valid_of; reflexivity. Defined.

Lemma inCidr_exact_witness :
  inCidr (quad 172 31 0 1) {| r_family := F4; r_bytes := [172; 16; 0; 0]; r_prefix := 12 |} = true
  /\ forall i, 0 <= i < 12 -> let w := 8 * Z.of_nat (size F4) in
       Z.testbit (value (a_bytes (canonical (quad 172 31 0 1)))) (w - 1 - i) = Z.testbit (value [172; 16; 0; 0]) (w - 1 - i).
Proof.
  assert (E : inCidr (quad 172 31 0 1) {| r_family := F4; r_bytes := [172; 16; 0; 0]; r_prefix := 12 |} = true) by (vm_compute; reflexivity).
  split; [exact E|]. apply inCidr_exact in E; [|apply valid_of; reflexivity|apply valid_range_of; reflexivity]. destruct E as [_ E]. exact E.
Defined.

Lemma cidrContainsPublic_lowest_witness :
  exists y, cidrContainsPublic nat64_range = Some (Some y) /\ formatWitness y = chars "64:ff9b::100:0" /\ is_public (classifyAddress y) = true.
Proof.
  destruct (cidrContainsPublic_lowest nat64_range (valid_range_of nat64_range eq_refl)) as (r & Hr & H).
  assert (E : match cidrContainsPublic nat64_range with Some (Some y) => bool_decide (formatWitness y = chars "64:ff9b::100:0") | _ => false end = true)
    by (vm_compute; reflexivity).
  rewrite Hr in E. destruct r as [y|]; [|discriminate]. exists y. split; [exact Hr|]. split; [by apply bool_decide_eq_true in E|apply H].
Defined.

Lemma mapped_range_empty_witness :
  parseCidr (chars "::ffff:8.8.8.0/120") = Some mapped_range /\ inCidr (quad 8 8 8 8) mapped_range = false.
Proof.
  split; [vm_compute; reflexivity|].
  apply (mapped_range_empty (quad 8 8 8 8) mapped_range); [apply valid_of; reflexivity|apply valid_range_of; reflexivity|reflexivity|reflexivity|discriminate].
Defined.

Lemma address_text_round_trip_witness :
  formatWitness documentation = chars "2001:db8::1" /\ parseAddress (formatWitness documentation) true = Some documentation.
Proof.
  split; [vm_compute; reflexivity|]. apply (address_text_round_trip documentation true). apply valid_of. reflexivity.
Defined.

Lemma parsed_well_formed_witness :
  parseAddress (chars "0x7f.1") false = Some (quad 127 0 0 1) /\ valid (quad 127 0 0 1).
Proof.
  assert (E : parseAddress (chars "0x7f.1") false = Some (quad 127 0 0 1)) by (vm_compute; reflexivity).
  split; [exact E|]. apply (parsed_well_formed (chars "0x7f.1") false). exact E.
Defined.

Lemma range_text_round_trip_witness :
  formatRange mapped_range = chars "8.8.8.0/24" /\ exists c', parseCidr (formatRange mapped_range) = Some c' /\ r_prefix c' = 24.
Proof.
  split; [vm_compute; reflexivity|]. destruct (range_text_round_trip mapped_range (valid_range_of mapped_range eq_refl)) as [(c' & H1 & _ & _ & H2 & _) _].
  exists c'. split; [exact H1|exact H2].
Defined.

(** A name with two public records, and one that also has an internal record. *)
Definition two_records (name : list Ascii.ascii) : option (list ResolvedAddress) :=
  if has "m"%char name then Some [{| address := chars "8.8.8.8"; ra_family := F4 |}; {| address := chars "10.0.0.1"; ra_family := F4 |}]
  else Some [{| address := chars "8.8.8.8"; ra_family := F4 |}; {| address := chars "2001:4860::8"; ra_family := F6 |}].

Definition open_policy : AddressPolicy := {| allow := []; deny := []; forHost := fun _ => [] |}.

Lemma guard_sound_witness :
  exists r, resolveGuarded two_records (chars "Pub.dev.") open_policy = Ok r /\ address r = chars "8.8.8.8" /\ pins open_policy (chars "pub.dev") r
  /\ resolveGuarded two_records (chars "mixed.dev") open_policy = Err PrivateAddress.
Proof.
  eexists. split; [vm_compute; reflexivity|]. split; [reflexivity|]. split; [|vm_compute; reflexivity].
  apply (guard_sound two_records (chars "Pub.dev.") open_policy). vm_compute. reflexivity.
Defined.

(** ** A request that is redirected *)

Definition site (host : string) : URL :=
  {| href := chars ("https://" +:+ host +:+ "/"); protocol := chars "https:"; hostname := chars host; port := []; username := []; password := []; pathname := ["/"%char]; search := [] |}.
Definition sites : list URL := map site ["pub.dev"; "cdn.dev"; "mixed.dev"; "localhost"].
Definition parse_site (raw : list Ascii.ascii) : option URL := bfind (fun u => bool_decide (href u = raw)) sites.
Definition page (status : Z) (location : option string) : Answer :=
  Answered {| rs_status := status; rs_headers := {| h_location := option_map chars location; h_encoding := []; h_type := None; h_length := None |}; chunks := [[1; 2]; [3]]; broken := None |}.

(** The first site answers with a redirect, whatever is asked after it with a page. *)
Definition moved (n : nat) : Answer := if Nat.leb n 4 then page 302 (Some "https://cdn.dev/") else page 200 None.
Definition some_sites : EgressConfig := {| allowHosts := JArr [JStr "*.dev"]; allowPorts := JArr [JNum (Fin 443)]; c_allowLoopback := JBool false; modelDownloads := JUndef |}.
Definition plain_get : HttpOptions :=
  {| maxRedirects := None; maxBytes := None; errorBodyBytes := 0; streamResponse := false; modelDownload := false; safeRedirectHeaders := false; redirect := None;
     acceptType := None; onRedirect := None; method := None; headers := []; body := None; maxRequestBytes := None; discardBody := false |}.
Definition with_key : HttpOptions :=
  {| maxRedirects := None; maxBytes := None; errorBodyBytes := 0; streamResponse := false; modelDownload := false; safeRedirectHeaders := false; redirect := None;
     acceptType := None; onRedirect := None; method := Some (chars "post"); headers := [(chars "Authorization", chars "Bearer k")]; body := Some [7]; maxRequestBytes := None;
     discardBody := false |}.
Definition asked (o : HttpOptions) (host : string) : result Thrown HttpResponse * World :=
  request parse_site (fun l _ => parse_site l) (fun _ => two_records) moved (fun _ => false) id some_sites (href (site host)) o
    {| moment := 0; trace := []; allowed := 0; denied := fun _ => 0 |}.
Definition hosts_of (w : World) : list (list Ascii.ascii) := map (fun c => hostname c.1.1) (connects (trace w)).

(** A plain request follows the redirect; one with a key gets the redirect back; a name with a private record is not connected to, and an unlisted
    one is not looked up. *)
Example redirect_followed : hosts_of (asked plain_get "pub.dev").2 = [chars "pub.dev"; chars "cdn.dev"]
  /\ match (asked plain_get "pub.dev").1 with Ok r => r_body r = [1; 2; 3] /\ r_redirects r = [chars "https://pub.dev/"] | Err _ => False end.
Proof. vm_compute. auto. Qed.
Example redirect_returned : hosts_of (asked with_key "pub.dev").2 = [chars "pub.dev"] /\ match (asked with_key "pub.dev").1 with Ok r => r_status r = 302 | Err _ => False end.
Proof. vm_compute. auto. Qed.
Example mixed_refused : trace (asked plain_get "mixed.dev").2 = [Resolve (chars "mixed.dev")] /\ denied (asked plain_get "mixed.dev").2 DPrivateAddress = 1.
Proof. vm_compute. auto. Qed.
Example unlisted_unasked : trace (asked plain_get "localhost").2 = [] /\ denied (asked plain_get "localhost").2 DHostNotAllowed = 1.
Proof. vm_compute. auto. Qed.

Lemma dry_run_agrees_witness : exists l, trace (asked plain_get "pub.dev").2 =
  Resolve (chars "pub.dev") :: Connect (site "pub.dev") {| address := chars "8.8.8.8"; ra_family := F4 |} {| pt_method := GET; pt_headers := []; pt_body := None |} :: l.
Proof.
  destruct (proj1 (dry_run_agrees parse_site (fun l _ => parse_site l) (fun _ => two_records) moved (fun _ => false) id some_sites (href (site "pub.dev")) plain_get
    {| pt_method := GET; pt_headers := []; pt_body := None |} {| moment := 0; trace := []; allowed := 0; denied := fun _ => 0 |}
    (fun _ => eq_refl) (fun _ _ => eq_refl) eq_refl eq_refl {| address := chars "8.8.8.8"; ra_family := F4 |})) as (u & l & Hu & H).
  - exists (chars "pub.dev"), (Some 443). vm_compute. reflexivity.
  - assert (E : u = site "pub.dev") by (vm_compute in Hu; injection Hu as <-; reflexivity). rewrite E in H. exists l. exact H.
Defined.

Lemma answer_bounded_witness : zlen [1; 2; 3] <= 20971520.
Proof.
  pose proof (answer_bounded plain_get GET {| rs_status := 200; rs_headers := {| h_location := None; h_encoding := []; h_type := None; h_length := None |}; chunks := [[1; 2]; [3]]; broken := None |}
    {| hp_status := 200; hp_headers := {| h_location := None; h_encoding := []; h_type := None; h_length := None |}; hp_body := [1; 2; 3]; hp_stream := None |} eq_refl) as [H _].
  exact H.
Defined.
