(* ===== verification/Paths.v ===== *)
(** * Path rules

    Model of the file-system-free part of [packages/core/src/policy/paths.ts]: the
    syntax of a path argument, deny-list matching, containment, and which paths are
    system trees. A text is the list of its code points; a lone surrogate is a code
    point between 0xD800 and 0xDFFF. Unicode case mapping and normalisation are
    parameters. *)

From S2P Require Import Prelude NetIp.
From Stdlib Require Import Ascii.

(** ** Texts *)

Notation text := (list Z).

(** The code points of an ASCII literal. *)
Definition lit (s : string) : text := map code (chars s).

Definition SLASH : Z := 47.
Definition BACK : Z := 92.
Definition DOT : Z := 46.

(** [s.startsWith(p)] *)
Definition starts (p s : text) : bool := bool_decide (take (length p) s = p).

(** [s.endsWith(c)] for one character. *)
Definition ends_in (c : Z) (s : text) : bool := match list.last s with Some x => x =? c | None => false end.

(** [Buffer.byteLength(s, "utf8")] *)
Definition utf8_size (x : Z) : Z := if x <? 128 then 1 else if x <? 2048 then 2 else if x <? 65536 then 3 else 4.
Definition byteLength (s : text) : Z := zsum utf8_size s.

Definition well_formed_text (s : text) : bool := forallb (fun x => negb ((55296 <=? x) && (x <=? 57343))) s.
Definition ascii_letter (x : Z) : bool := ((65 <=? x) && (x <=? 90)) || ((97 <=? x) && (x <=? 122)).
Definition ascii_upper (x : Z) : Z := if (97 <=? x) && (x <=? 122) then x - 32 else x.
Definition ascii_digit (x : Z) : bool := (48 <=? x) && (x <=? 57).

(** [/^[A-Za-z]:/] *)
Definition drive_spec (n : text) : bool := match n with c :: d :: _ => ascii_letter c && (d =? 58) | _ => false end.

(** ** Data *)

(* @src policy/paths.ts 20 26 RefusalReason *)
Inductive RefusalReason : Type :=
| not_a_string | empty | too_long | invalid_unicode | control_char | bidi_control
| backslash | dot_dot | relative_no_cwd | drive_relative | device_path | unc_not_allowed
| short_name | alternate_stream | forbidden_char | trailing_dot_space | reserved_device_name
| special_tree | unresolvable | dangling_link | link_loop | not_directory | no_identity
| bad_root | root_identity_changed | outside_root | hard_link | deny_listed
| identity_changed | link_swap | unsupported_open | not_found.

(* @src policy/paths.ts 32 32 Identity *)
Record Identity : Type := { dev : Z; ino : Z; birth : option Z }.

(* @src policy/paths.ts 34 39 PathRoot *)
Record PathRoot : Type := { root_id : string; root_path : text; root_identity : option Identity }.

(* @src policy/paths.ts 42 42 DenyEntry *)
Inductive DenyEntry : Type := ByPath (p : text) | ByName (n : text).

#[export] Instance denyentry_eq_dec : EqDecision DenyEntry.
Proof. solve_decision. Defined.

(** A deny-list as it is handed in: entries may have any shape. *)
Inductive RawEntry : Type := RawOther | RawName (n : option text) | RawPath (p : option text).

Inductive Platform : Type := Linux | Darwin | Win32 | OtherPlatform.

#[export] Instance platform_eq_dec : EqDecision Platform.
Proof. solve_decision. Defined.

(* @src policy/paths.ts 110 110 SyntaxOk *)
Record SyntaxOk : Type := { s_windows : bool; s_unc : bool; s_drive : option Z; segments : list text; absolute : bool }.

(* @src policy/paths.ts 94 94 MAX_PATH_UTF8 *)
Definition MAX_PATH_UTF8 : Z := 4096.
(* @src policy/paths.ts 95 95 MAX_SEGMENT_UTF8 *)
Definition MAX_SEGMENT_UTF8 : Z := 255.
(* @src policy/paths.ts 96 96 BIDI *)
Definition BIDI (x : Z) : bool := (x =? 8206) || (x =? 8207) || ((8234 <=? x) && (x <=? 8238)) || ((8294 <=? x) && (x <=? 8297)).
(* @src policy/paths.ts 97 97 CONTROL *)
Definition CONTROL (x : Z) : bool := ((0 <=? x) && (x <=? 31)) || ((127 <=? x) && (x <=? 159)).
(* @src policy/paths.ts 98 98 WIN_FORBIDDEN *)
Definition WIN_FORBIDDEN (x : Z) : bool := existsb (Z.eqb x) [60; 62; 34; 124; 63; 42].

(** [/^[^.]{1,6}~[0-9]+(\.[^.]{0,3})?$/u]: a base of one to six characters without a dot, "~", digits, and an
    extension of at most three. The base may itself hold a "~", so every split is tried. *)
(* @src policy/paths.ts 100 100 SHORT_NAME *)
Definition SHORT_NAME (s : text) : bool :=
  let tail_ok (t : text) :=
    match split_at DOT t with
    | [d] => negb (bool_decide (d = [])) && forallb ascii_digit d
    | [d; e] => negb (bool_decide (d = [])) && forallb ascii_digit d && Nat.leb (length e) 3
    | _ => false
    end in
  existsb (fun n => match drop n s with
                    | x :: t => (x =? 126) && forallb (fun c => negb (c =? DOT)) (take n s) && tail_ok t
                    | [] => false
                    end) [1; 2; 3; 4; 5; 6]%nat.

(** [s.replace(/ +$/, "")] *)
Definition trim_end (s : text) : text := reverse ((fix go l := match l with x :: r => if x =? 32 then go r else l | [] => [] end) (reverse s)).

(** [s.split(/[\\/]+/).filter((x) => x !== "")] *)
Definition parts (p : text) : list text :=
  bfilter (fun x => negb (bool_decide (x = []))) (split_at SLASH (map (fun c => if c =? BACK then SLASH else c) p)).

Section unicode.
Context (toLowerCase toUpperCase NFC : text -> text).

(* @src policy/paths.ts 103 108 isReservedDeviceName *)
Definition isReservedDeviceName (segment : text) : bool :=
  let stem := toLowerCase (trim_end (default [] (head (split_at DOT segment)))) in
  if existsb (fun n => bool_decide (stem = lit n)) ["con"; "prn"; "aux"; "nul"; "conin$"; "conout$"; "clock$"] then true
  else
    let port := if starts (lit "com") stem then Some (drop 3 stem) else if starts (lit "lpt") stem then Some (drop 3 stem) else None in
    match port with Some [x] => ((49 <=? x) && (x <=? 57)) || (x =? 185) || (x =? 178) || (x =? 179) | _ => false end.

(** The rules for one segment; [None] when it is kept. *)
(* @src policy/paths.ts 155 163 checkSyntax *)
Definition segment_refused (windows : bool) (seg : text) : option RefusalReason :=
  if bool_decide (seg = [DOT; DOT]) then Some dot_dot
  else if MAX_SEGMENT_UTF8 <? byteLength seg then Some too_long
  else if negb windows then None
  else if existsb (Z.eqb 58) seg then Some alternate_stream
  else if existsb WIN_FORBIDDEN seg then Some forbidden_char
  else if ends_in DOT seg || ends_in 32 seg then Some trailing_dot_space
  else if isReservedDeviceName seg then Some reserved_device_name
  else if SHORT_NAME seg then Some short_name
  else None.

(* @src policy/paths.ts 151 165 checkSyntax *)
Fixpoint check_segments (windows : bool) (raw : list text) : result RefusalReason (list text) :=
  match raw with
  | [] => Ok []
  | seg :: r =>
      if bool_decide (seg = []) || bool_decide (seg = [DOT]) then check_segments windows r
      else match segment_refused windows seg with
           | Some reason => Err reason
           | None => let* l := check_segments windows r in Ok (seg :: l)
           end
  end.

(** What stands before the segments: the rest of the text, UNC, the drive, absolute. *)
(* @src policy/paths.ts 126 149 checkSyntax *)
Definition prefix_of (windows allowUnc : bool) (input : text) : result RefusalReason (text * bool * option Z * bool) :=
  if windows then
    let n := map (fun c => if c =? SLASH then BACK else c) input in
    if starts (lit "\\?\") n || starts (lit "\\.\") n || bool_decide (n = lit "\\?") || bool_decide (n = lit "\\.") then Err device_path
    else if starts (lit "\??\") n then Err device_path
    else if starts (lit "\\") n then if negb allowUnc then Err unc_not_allowed else Ok (drop 2 n, true, None, true)
    else if drive_spec n then
      match drop 2 n with
      | x :: r => if x =? BACK then Ok (r, false, option_map ascii_upper (head n), true) else Err drive_relative
      | [] => Err drive_relative
      end
    else if starts (lit "\") n then Err drive_relative
    else Ok (n, false, None, false)
  else if existsb (Z.eqb BACK) input then Err backslash
  else Ok (input, false, None, starts [SLASH] input).

(** [None] stands for an argument that is not a string. *)
(* @src policy/paths.ts 116 168 checkSyntax *)
Definition checkSyntax (windows allowUnc : bool) (input : option text) : result RefusalReason SyntaxOk :=
  match input with
  | None => Err not_a_string
  | Some input =>
      if bool_decide (input = []) then Err empty
      else if negb (well_formed_text input) then Err invalid_unicode
      else if MAX_PATH_UTF8 <? byteLength input then Err too_long
      else if existsb CONTROL input then Err control_char
      else if existsb BIDI input then Err bidi_control
      else
        let* p := prefix_of windows allowUnc input in
        let '(rest, unc, drive, abs) := p in
        let* segs := check_segments windows (split_at (if windows then BACK else SLASH) rest) in
        if bool_decide (segs = []) && negb abs then Err empty
        else Ok {| s_windows := windows; s_unc := unc; s_drive := drive; segments := segs; absolute := abs |}
  end.

(* @src policy/paths.ts 171 177 assemble *)
Definition assemble (s : SyntaxOk) : text :=
  if s_windows s then
    if s_unc s then BACK :: BACK :: join_with BACK (segments s)
    else match s_drive s with Some d => [d] | None => lit "null" end ++ 58 :: BACK :: join_with BACK (segments s)
  else SLASH :: join_with SLASH (segments s).

(* @src policy/paths.ts 180 182 foldForDeny *)
Definition foldForDeny (s : text) : text := NFC (toLowerCase (toUpperCase (NFC s))).

(** Every segment of [want] is the segment of [have] at its place. *)
(* @src policy/paths.ts 360 360 startsWithSegs *)
Definition startsWithSegs (have want : list text) : bool := bool_decide (take (length want) have = want).

(* @src policy/paths.ts 187 194 matchDeny *)
Definition entry_matches (segs : list text) (e : DenyEntry) : bool :=
  match e with
  | ByName n => existsb (fun s => bool_decide (s = foldForDeny n)) segs
  | ByPath q => let want := map foldForDeny (parts q) in negb (bool_decide (want = [])) && startsWithSegs segs want
  end.

(* @src policy/paths.ts 185 197 matchDeny *)
Definition matchDeny (p : text) (deny : list DenyEntry) : option DenyEntry :=
  bfind (entry_matches (map foldForDeny (parts p))) deny.

(** [/^(?:\/|[A-Za-z]:[\\/]|\\\\)/] *)
(* @src policy/paths.ts 199 199 ABSOLUTE_SPELLING *)
Definition ABSOLUTE_SPELLING (q : text) : bool :=
  starts [SLASH] q || (drive_spec q && match drop 2 q with x :: _ => (x =? BACK) || (x =? SLASH) | [] => false end) || starts [BACK; BACK] q.

Definition is_dots (seg : text) : bool := bool_decide (seg = [DOT; DOT]) || bool_decide (seg = [DOT]).

(* @src policy/paths.ts 211 223 invalidDenyEntry *)
Definition entry_invalid (e : RawEntry) : bool :=
  match e with
  | RawOther => true
  | RawName None | RawPath None => true
  | RawName (Some n) => bool_decide (n = []) || is_dots n || existsb (fun c => (c =? BACK) || (c =? SLASH) || (c =? 0)) n
  | RawPath (Some q) => existsb (Z.eqb 0) q || negb (ABSOLUTE_SPELLING q) || existsb is_dots (parts q)
  end.

(** What is wrong with a deny-list: it is not an array, or its first bad entry. *)
Inductive DenyFault : Type := NotAnArray | BadEntry (index : nat).

(** The argument is absent, not an array, or a list of entries. *)
(* @src policy/paths.ts 206 226 invalidDenyEntry *)
Definition invalidDenyEntry (deny : option (option (list RawEntry))) : option DenyFault :=
  match deny with
  | None => None
  | Some None => Some NotAnArray
  | Some (Some l) => option_map (fun p => BadEntry p.1) (list_find (fun e => entry_invalid e = true) l)
  end.

(* @src policy/paths.ts 229 233 containsExact *)
Definition containsExact (root p : text) (sep : Z) : bool :=
  bool_decide (p = root) || starts (if ends_in sep root then root else root ++ [sep]) p.

(* @src policy/paths.ts 235 236 identityOf *)
Definition identityOf (dev ino birthtime : Z) : Identity := {| dev := dev; ino := ino; birth := if 0 <? birthtime then Some birthtime else None |}.

(* @src policy/paths.ts 237 237 sameIdentity *)
Definition sameIdentity (a b : Identity) : bool :=
  (dev a =? dev b) && (ino a =? ino b) && match birth a, birth b with Some x, Some y => x =? y | _, _ => true end.

(* @src policy/paths.ts 240 247 normaliseNative *)
Definition normaliseNative (p : text) (windows : bool) : text :=
  if negb windows then p
  else
    let r := if starts (lit "\\?\UNC\") p then BACK :: BACK :: drop 8 p else if starts (lit "\\?\") p then drop 4 p else p in
    match r with c :: t => if drive_spec r then ascii_upper c :: t else r | [] => r end.

(** "/name" itself or something below it. *)
Definition under (name p : text) : bool := let d := SLASH :: name in bool_decide (p = d) || starts (d ++ [SLASH]) p.

(* @src policy/paths.ts 249 257 specialTree *)
Definition specialTree (p : text) (platform : Platform) : bool :=
  match platform with
  | Linux => existsb (fun n => under (lit n) p) ["proc"; "sys"; "dev"] || starts (lit "/run/user/") p
  | Darwin => under (lit "dev") p
  | _ => false
  end.

(** ** System trees *)

(* @src policy/paths.ts 326 326 POSIX_SYSTEM *)
Definition POSIX_SYSTEM : list text := map lit
  ["/etc"; "/usr"; "/System"; "/Library"; "/bin"; "/sbin"; "/boot"; "/proc"; "/sys"; "/dev"; "/private/etc"; "/private/var/db"; "/private/var/root"].
(* @src policy/paths.ts 327 327 WIN_SYSTEM *)
Definition WIN_SYSTEM : list text := map lit ["C:\Windows"; "C:\Program Files"; "C:\Program Files (x86)"; "C:\ProgramData"].
(* @src policy/paths.ts 346 346 POSIX_HOMES_PARENT *)
Definition POSIX_HOMES_PARENT : list text := map lit ["/Users"; "/home"].
(* @src policy/paths.ts 347 347 WIN_HOMES_PARENT *)
Definition WIN_HOMES_PARENT : list text := [lit "C:\Users"].

(* @src policy/paths.ts 357 359 foldSegments *)
Definition foldSegments (p : text) (windows : bool) : list text :=
  map foldForDeny (if windows then parts p else bfilter (fun x => negb (bool_decide (x = []))) (split_at SLASH p)).

(* @src policy/paths.ts 361 361 sameSegs *)
Definition sameSegs (a b : list text) : bool := bool_decide (a = b).

(* @src policy/paths.ts 363 365 homeSegments *)
Definition homeSegments (homes : list text) (windows : bool) : list (list text) :=
  bfilter (fun h => negb (bool_decide (h = []))) (map (fun h => foldSegments h windows) (bfilter (fun h => negb (bool_decide (h = []))) homes)).

Definition homes_parent (windows : bool) : list text := if windows then WIN_HOMES_PARENT else POSIX_HOMES_PARENT.
Definition system_trees (windows : bool) : list text := if windows then WIN_SYSTEM else POSIX_SYSTEM.

(* @src policy/paths.ts 372 381 isSystemTreePath *)
Definition isSystemTreePath (p : text) (windows : bool) (homes : list text) : bool :=
  let segs := foldSegments p windows in
  if bool_decide (segs = []) then true
  else
    let unc := windows && starts [BACK; BACK] p in
    if windows && (unc || drive_spec p) && Nat.leb (length segs) (if unc then 2 else 1) then true
    else if existsb (fun h => sameSegs h segs) (homeSegments homes windows) then true
    else if existsb (fun f => sameSegs (foldSegments f windows) segs) (homes_parent windows) then true
    else existsb (fun f => startsWithSegs segs (foldSegments f windows)) (system_trees windows).

(* @src policy/paths.ts 389 396 grantReachesSystemTree *)
Definition grantReachesSystemTree (grantPath : text) (recursive windows : bool) (homes : list text) : bool :=
  if isSystemTreePath grantPath windows homes then true
  else
    let g := foldSegments grantPath windows in
    if existsb (fun h => startsWithSegs h g) (homeSegments homes windows) then true
    else if negb recursive then false
    else existsb (fun f => startsWithSegs (foldSegments f windows) g) (homes_parent windows ++ system_trees windows).
End unicode.
