(* ===== verification/PathsSpec.v ===== *)
(** * Laws of the path rules

    An accepted path has one normal spelling, a deny entry covers all that is below
    it, and a recursive grant that reaches no system tree has none below it. *)

From S2P Require Import Prelude NetIp Paths.

(** ** Sizes *)

Lemma utf8_size_pos x : 1 <= utf8_size x.
Proof. unfold utf8_size. repeat case_match; lia. Qed.

Lemma byteLength_app a b : byteLength (a ++ b) = byteLength a + byteLength b.
Proof. apply zsum_app. Qed.

Lemma byteLength_cons x l : byteLength (x :: l) = utf8_size x + byteLength l.
Proof. done. Qed.

Lemma byteLength_nonneg l : 0 <= byteLength l.
Proof. induction l as [|x l IH]; [done|]. rewrite byteLength_cons. pose proof (utf8_size_pos x). lia. Qed.

Lemma byteLength_join_cons c s l : byteLength s <= byteLength (join_with c (s :: l)) /\ byteLength (join_with c l) <= byteLength (join_with c (s :: l)).
Proof.
  destruct l as [|t l]; [split; [reflexivity|apply byteLength_nonneg]|].
  change (join_with c (s :: t :: l)) with (s ++ c :: join_with c (t :: l)). rewrite byteLength_app, byteLength_cons. pose proof (byteLength_nonneg s). pose proof (utf8_size_pos c).
  pose proof (byteLength_nonneg (join_with c (t :: l))). lia.
Qed.

Lemma byteLength_join_sublist c l r : sublist l r -> byteLength (join_with c l) <= byteLength (join_with c r).
Proof.
  induction 1 as [|s l r H IH|s l r H IH]; [done| |].
  - destruct l as [|t l], r as [|u r].
    + done.
    + apply byteLength_join_cons.
    + by apply sublist_nil_r in H.
    + change (byteLength (s ++ c :: join_with c (t :: l)) <= byteLength (s ++ c :: join_with c (u :: r))).
      rewrite !byteLength_app, !byteLength_cons. lia.
  - pose proof (byteLength_join_cons c s r). lia.
Qed.

Section unicode.
Context (toLowerCase toUpperCase NFC : text -> text).
Notation checkSyntax := (checkSyntax toLowerCase).
Notation segment_refused := (segment_refused toLowerCase).
Notation check_segments := (check_segments toLowerCase).
Notation matchDeny := (matchDeny toLowerCase toUpperCase NFC).
Notation isSystemTreePath := (isSystemTreePath toLowerCase toUpperCase NFC).
Notation grantReachesSystemTree := (grantReachesSystemTree toLowerCase toUpperCase NFC).
Notation foldSegments := (foldSegments toLowerCase toUpperCase NFC).

(** ** Segments *)

Definition kept (w : bool) (s : text) : Prop := s <> [] /\ s <> [DOT] /\ segment_refused w s = None.

Lemma check_segments_kept w raw l : check_segments w raw = Ok l -> Forall (kept w) l /\ sublist l raw.
Proof.
  revert l. induction raw as [|s raw IH]; intros l; cbn; [intros [= <-]; by split|].
  case_bool_decide as H1; cbn; [intros H; destruct (IH l H); split; [done|by constructor]|].
  case_bool_decide as H2; cbn; [intros H; destruct (IH l H); split; [done|by constructor]|].
  destruct (segment_refused w s) eqn:Hr; [done|].
  destruct (check_segments w raw) as [l'|e]; [|done]. cbn. intros [= <-]. destruct (IH l' eq_refl). split; by constructor.
Qed.

Lemma check_segments_id w l : Forall (kept w) l -> check_segments w l = Ok l.
Proof.
  induction 1 as [|s l (H1 & H2 & H3) H IH]; [done|]. cbn. rewrite !bool_decide_eq_false_2 by done. cbn. by rewrite H3, IH.
Qed.

Lemma check_segments_join w c l : Forall (kept w) l -> Forall (fun s => c ∉ s) l -> check_segments w (split_at c (join_with c l)) = Ok l.
Proof.
  intros Hk Hf. destruct l as [|s l]; [done|]. rewrite split_join by done. by apply check_segments_id.
Qed.

(** ** What an accepted text looks like *)

Definition plain (x : Z) : Prop := negb ((55296 <=? x) && (x <=? 57343)) = true /\ CONTROL x = false /\ BIDI x = false.

Notation sep w := (if w : bool then BACK else SLASH).

Lemma syntax_ok_iff w u input s :
  checkSyntax w u (Some input) = Ok s <->
  input <> [] /\ Forall plain input /\ byteLength input <= MAX_PATH_UTF8 /\
  exists rest, prefix_of w u input = Ok (rest, s_unc s, s_drive s, absolute s) /\
    check_segments w (split_at (sep w) rest) = Ok (segments s) /\ (segments s <> [] \/ absolute s = true) /\ s_windows s = w.
Proof.
  unfold Paths.checkSyntax. split.
  - case_bool_decide; [done|]. destruct (well_formed_text input) eqn:Hw; [|done]. cbn [negb].
    destruct (Z.ltb_spec MAX_PATH_UTF8 (byteLength input)) as [|Hl]; [done|].
    destruct (existsb CONTROL input) eqn:Hc; [done|]. destruct (existsb BIDI input) eqn:Hb; [done|].
    destruct (prefix_of w u input) as [[[[rest unc] d] a]|]; [|done]. cbn [rbind].
    destruct (check_segments w (split_at (sep w) rest)) as [segs|] eqn:Hs; [|done]. cbn [rbind].
    destruct (bool_decide (segs = []) && negb a) eqn:He; [done|]. intros [= <-]. cbn.
    split; [done|]. split.
    { apply list.Forall_forall. intros x Hx. split; [exact (proj1 (forallb_elem _ _) Hw x Hx)|].
      split; eapply existsb_false_elem; eauto. }
    split; [lia|]. exists rest. split; [done|]. split; [done|]. split; [|done].
    apply andb_false_iff in He as [H1|H1]; [left; by apply bool_decide_eq_false in H1|right; by destruct a].
  - intros (Hne & Hp & Hl & rest & Hr & Hs & Ha & Hw). rewrite bool_decide_eq_false_2 by done.
    assert (well_formed_text input = true) as ->.
    { apply forallb_elem. intros x Hx. destruct (proj1 (list.Forall_forall _ _) Hp x Hx) as (? & ? & ?). assumption. }
    cbn [negb]. rewrite (proj2 (Z.ltb_ge _ _)) by lia.
    assert (existsb CONTROL input = false) as ->.
    { apply existsb_none. intros x Hx. destruct (proj1 (list.Forall_forall _ _) Hp x Hx) as (? & ? & ?). assumption. }
    assert (existsb BIDI input = false) as ->.
    { apply existsb_none. intros x Hx. destruct (proj1 (list.Forall_forall _ _) Hp x Hx) as (? & ? & ?). assumption. }
    rewrite Hr. cbn [rbind]. rewrite Hs. cbn [rbind].
    assert (bool_decide (segments s = []) && negb (absolute s) = false) as ->.
    { destruct Ha as [Ha| ->]; [by rewrite bool_decide_eq_false_2|by rewrite andb_false_r]. }
    destruct s. cbn in *. by subst.
Qed.

(** ** The normal spelling *)

Lemma byteLength_map_slash l : byteLength (map (fun c => if c =? SLASH then BACK else c) l) = byteLength l.
Proof.
  induction l as [|x l IH]; [done|]. cbn [map]. rewrite !byteLength_cons, IH. by destruct (Z.eqb_spec x SLASH) as [->|].
Qed.

Lemma map_slash_id l : SLASH ∉ l -> map (fun c => if c =? SLASH then BACK else c) l = l.
Proof.
  induction l as [|x l IH]; [done|]. intros [H1 H2]%not_elem_of_cons. cbn [map].
  rewrite (IH H2), (proj2 (Z.eqb_neq x SLASH)); [done|congruence].
Qed.

Lemma map_slash_elem l x : x ∈ map (fun c => if c =? SLASH then BACK else c) l -> x <> SLASH /\ (x = BACK \/ x ∈ l).
Proof.
  intros (y & -> & Hy)%elem_of_map. destruct (Z.eqb_spec y SLASH) as [->|]; [split; [done|by left]|split; [done|by right]].
Qed.

Lemma kept_windows s : kept true s -> 63 ∉ s /\ 58 ∉ s.
Proof.
  intros (_ & _ & H). unfold Paths.segment_refused in H.
  case_bool_decide; [done|]. destruct (MAX_SEGMENT_UTF8 <? byteLength s); [done|]. cbn [negb] in H.
  destruct (existsb (Z.eqb 58) s) eqn:H1; [done|]. destruct (existsb WIN_FORBIDDEN s) eqn:H2; [done|].
  split; intros Hx; [by apply (existsb_false_elem _ _ _ H2) in Hx|by apply (existsb_false_elem _ _ _ H1) in Hx].
Qed.

(** The segments kept of [rest], joined again: nothing new, no longer, and the same segments. *)
Lemma rejoin w rest l : check_segments w (split_at (sep w) rest) = Ok l ->
  Forall (kept w) l /\ byteLength (join_with (sep w) l) <= byteLength rest /\
  (forall x, x ∈ join_with (sep w) l -> x ∈ rest \/ x = sep w) /\
  check_segments w (split_at (sep w) (join_with (sep w) l)) = Ok l.
Proof.
  intros H. destruct (check_segments_kept w _ l H) as [Hk Hs].
  assert (forall s, s ∈ l -> s ∈ split_at (sep w) rest) as Hin by (intros s Hin; exact (elem_of_sublist _ _ _ Hin Hs)).
  split; [done|]. split; [|split].
  - rewrite <- (join_split (sep w) rest). by apply byteLength_join_sublist.
  - intros x [->|(s & Hs' & Hx)]%join_elem; [by right|left]. eapply split_at_elem; eauto.
  - apply check_segments_join; [done|]. apply list.Forall_forall. intros s Hs' Hx. by destruct (split_at_elem _ _ _ _ (Hin s Hs') Hx).
Qed.

Lemma plain_ascii x : 32 <= x <= 126 -> plain x.
Proof. intros H. unfold plain, CONTROL, BIDI. repeat split; lia. Qed.

(** The prefix of a POSIX spelling is the leading slash. *)
Lemma normal_posix u input s : checkSyntax false u (Some input) = Ok s -> absolute s = true -> checkSyntax false u (Some (assemble s)) = Ok s.
Proof.
  intros H Habs. apply syntax_ok_iff in H as (Hne & Hp & Hl & rest & Hr & Hs & Ha & Hw). apply syntax_ok_iff.
  unfold prefix_of in Hr. destruct (existsb (Z.eqb BACK) input) eqn:Hb; [done|]. injection Hr as <- Hu Hd Ha'.
  rewrite Habs in Ha'. unfold starts in Ha'. apply bool_decide_eq_true in Ha'.
  destruct input as [|x r]; [done|]. injection Ha' as ->.
  assert (check_segments false (split_at SLASH r) = Ok (segments s)) as Hs'.
  { cbn [split_at] in Hs. pose proof (split_at_ne SLASH r). by destruct (split_at SLASH r). }
  destruct (rejoin false r _ Hs') as (Hk & Hlen & Hel & Hck).
  unfold assemble. rewrite Hw. apply list.Forall_cons in Hp as [_ Hp]. rewrite byteLength_cons in Hl.
  split; [done|]. split; [|split].
  - constructor; [by apply plain_ascii|]. apply list.Forall_forall. intros x Hx.
    destruct (Hel x Hx) as [Hx' | ->]; [exact (proj1 (list.Forall_forall _ _) Hp x Hx')|by apply plain_ascii].
  - rewrite byteLength_cons. lia.
  - exists (SLASH :: join_with SLASH (segments s)). split; [|split; [|split; [by right|done]]].
    + unfold prefix_of. rewrite (existsb_none (Z.eqb BACK)).
      * by rewrite <- Hu, <- Hd, Habs.
      * intros x [->|Hx]%elem_of_cons; [done|]. destruct (Hel x Hx) as [Hx' | ->]; [|done].
        apply (existsb_false_elem _ _ _ Hb). by right.
    + cbn [split_at]. pose proof (split_at_ne SLASH (join_with SLASH (segments s))).
      destruct (split_at SLASH (join_with SLASH (segments s))) eqn:E; [done|]. cbn -[check_segments]. exact Hck.
Qed.

(** What a Windows text that needs no separator folding starts with. *)
Lemma starts_join_device l : Forall (kept true) l ->
  Forall (fun s => BACK ∉ s) l ->
  let n := BACK :: BACK :: join_with BACK l in
  starts (lit "\\?\") n || starts (lit "\\.\") n || bool_decide (n = lit "\\?") || bool_decide (n = lit "\\.") = false /\
  starts (lit "\??\") n = false.
Proof.
  intros Hk Hb n. subst n.
  assert (63 ∉ join_with BACK l) as H63.
  { intros [?|(s & Hs & Hx)]%join_elem; [done|]. apply (proj1 (list.Forall_forall _ _) Hk) in Hs.
    by apply kept_windows in Hs as [? _]. }
  assert (forall t, join_with BACK l <> DOT :: BACK :: t) as Hd1.
  { intros t E. destruct l as [|s l]; [done|]. pose proof (split_join BACK (s :: l) ltac:(done) Hb) as Hj. rewrite E in Hj.
    change (split_at BACK ([DOT] ++ BACK :: t) = s :: l) in Hj. rewrite split_at_app in Hj by (apply not_elem_of_cons; split; [done|apply not_elem_of_nil]).
    injection Hj as <- _. apply list.Forall_cons in Hk as [(_ & ? & _) _]. done. }
  assert (join_with BACK l <> [DOT]) as Hd2.
  { intros E. destruct l as [|s l]; [done|]. pose proof (split_join BACK (s :: l) ltac:(done) Hb) as Hj. rewrite E in Hj.
    injection Hj as <- _. apply list.Forall_cons in Hk as [(_ & ? & _) _]. done. }
  unfold starts. split; [|done]. rewrite !bool_decide_eq_false_2; [done| | | |].
  - intros [= E]. done.
  - intros [= E]. apply H63. rewrite E. by left.
  - destruct (join_with BACK l) as [|a [|b t]]; cbn; intros E; [done|injection E; intros; congruence|].
    injection E as -> ->. by apply (Hd1 t).
  - destruct (join_with BACK l) as [|a t]; cbn; intros E; [done|]. injection E as -> _. apply H63. by left.
Qed.

Notation fold_back := (map (fun c => if c =? SLASH then BACK else c)).

(** What the segments of a folded text contribute to its normal spelling. *)
Lemma rejoin_windows input pre rest l : Forall plain input -> fold_back input = pre ++ rest ->
  check_segments true (split_at BACK rest) = Ok l ->
  Forall (kept true) l /\ Forall (fun s => BACK ∉ s) l /\ byteLength pre + byteLength (join_with BACK l) <= byteLength input /\
  Forall (fun x => plain x /\ x <> SLASH) (join_with BACK l) /\ check_segments true (split_at BACK (join_with BACK l)) = Ok l.
Proof.
  intros Hp E H. destruct (rejoin true rest l H) as (Hk & Hlen & Hel & Hck). split; [done|]. split; [|split; [|split; [|done]]].
  - destruct (check_segments_kept true _ l H) as [_ Hs]. apply list.Forall_forall. intros s Hs' Hx.
    by destruct (split_at_elem _ _ _ _ (elem_of_sublist _ _ _ Hs' Hs) Hx).
  - rewrite <- (byteLength_map_slash input), E, byteLength_app. lia.
  - apply list.Forall_forall. intros x Hx. destruct (Hel x Hx) as [Hx' | ->]; [|split; [by apply plain_ascii|done]].
    assert (x ∈ fold_back input) as Hin by (rewrite E; apply elem_of_app; by right).
    apply map_slash_elem in Hin as [? [-> |Hin]]; [split; [by apply plain_ascii|done]|].
    split; [exact (proj1 (list.Forall_forall _ _) Hp x Hin)|done].
Qed.

Lemma drive_upper c : ascii_letter c = true -> ascii_letter (ascii_upper c) = true /\ ascii_upper (ascii_upper c) = ascii_upper c /\ plain (ascii_upper c) /\
  ascii_upper c <> SLASH /\ ascii_upper c <> BACK /\ utf8_size (ascii_upper c) = utf8_size c.
Proof.
  intros H. unfold ascii_letter in *. assert (65 <= ascii_upper c <= 90) as Hu by (unfold ascii_upper; case_match; lia).
  assert (65 <= c <= 122) as Hc by lia.
  split; [lia|]. split; [unfold ascii_upper at 1; rewrite andb_comm; case_match; lia|]. split; [apply plain_ascii; lia|].
  unfold SLASH, BACK. split; [lia|]. split; [lia|]. unfold utf8_size. by rewrite !(proj2 (Z.ltb_lt _ 128)) by lia.
Qed.

Lemma syntax_intro_windows u l unc d out :
  let s := {| s_windows := true; s_unc := unc; s_drive := d; segments := l; absolute := true |} in
  out <> [] -> Forall (fun x => plain x /\ x <> SLASH) out -> byteLength out <= MAX_PATH_UTF8 ->
  check_segments true (split_at BACK (join_with BACK l)) = Ok l ->
  prefix_of true u out = Ok (join_with BACK l, unc, d, true) -> checkSyntax true u (Some out) = Ok s.
Proof.
  intros s Hne Hp Hl Hck Hpre. apply syntax_ok_iff. split; [done|]. split; [|split; [done|]].
  - eapply list.Forall_impl; [exact Hp|]. by intros x [? _].
  - exists (join_with BACK l). split; [exact Hpre|]. split; [exact Hck|]. split; [by right|done].
Qed.

Lemma starts_app p l : starts p l = true -> exists r, l = p ++ r.
Proof. unfold starts. intros H%bool_decide_eq_true. exists (drop (length p) l). by rewrite <- H at 1; rewrite take_drop. Qed.

Lemma normal_windows u input s : checkSyntax true u (Some input) = Ok s -> absolute s = true -> checkSyntax true u (Some (assemble s)) = Ok s.
Proof.
  intros H Habs. apply syntax_ok_iff in H as (Hne & Hp & Hl & rest & Hr & Hs & Ha & Hw).
  destruct s as [w unc d l a]. cbn [s_windows s_unc s_drive segments absolute] in *. subst w a.
  unfold prefix_of in Hr. cbv beta iota zeta in Hr. set (n := fold_back input) in Hr.
  destruct (starts (lit "\\?\") n || starts (lit "\\.\") n || bool_decide (n = lit "\\?") || bool_decide (n = lit "\\.")); [done|].
  destruct (starts (lit "\??\") n); [done|]. destruct (starts (lit "\\") n) eqn:H2.
  - destruct u; [|done]. cbn in Hr. injection Hr as <- <- <-.
    destruct (starts_app _ _ H2) as [r Hn].
    assert (drop 2 n = r) as Hdr by (rewrite Hn; done). rewrite Hdr in Hs.
    destruct (rejoin_windows input _ r l Hp Hn Hs) as (Hk & Hb & Hlen & Hpl & Hck).
    apply syntax_intro_windows; [done| | |done|].
    + constructor; [split; [by apply plain_ascii|done]|]. constructor; [split; [by apply plain_ascii|done]|done].
    + unfold assemble. cbn [s_windows s_unc segments]. rewrite !byteLength_cons. change (byteLength (lit "\\")) with 2 in Hlen.
      change (utf8_size BACK) with 1. lia.
    + unfold prefix_of. rewrite map_slash_id.
      * unfold assemble. cbn [s_windows s_unc segments]. destruct (starts_join_device l Hk Hb) as [-> ->]. done.
      * intros Hx. unfold assemble in Hx. cbn [s_windows s_unc segments] in Hx. apply elem_of_cons in Hx as [?|Hx]; [done|].
        apply elem_of_cons in Hx as [?|Hx]; [done|]. by destruct (proj1 (list.Forall_forall _ _) Hpl _ Hx).
  - destruct (drive_spec n) eqn:Hd; [|by destruct (starts (lit "\") n)].
    destruct n as [|c [|x r]] eqn:En; [done..|]. cbn in Hd. apply andb_true_iff in Hd as [Hc ->%Z.eqb_eq].
    change (drop 2 (c :: 58 :: r)) with r in Hr. destruct r as [|y r]; [done|]. destruct (Z.eqb_spec y BACK) as [->|]; [|done]. injection Hr as <- <- <-.
    destruct (drive_upper c Hc) as (Hc1 & Hc2 & Hc3 & Hc4 & Hc5 & Hc6).
    destruct (rejoin_windows input [c; 58; BACK] r l Hp En Hs) as (Hk & Hb & Hlen & Hpl & Hck).
    assert (Forall (fun x => plain x /\ x <> SLASH) (ascii_upper c :: 58 :: BACK :: join_with BACK l)) as Hout.
    { constructor; [done|]. constructor; [split; [by apply plain_ascii|done]|]. constructor; [split; [by apply plain_ascii|done]|done]. }
    apply syntax_intro_windows; [done|exact Hout| |done|].
    + change (byteLength (ascii_upper c :: 58 :: BACK :: join_with BACK l) <= MAX_PATH_UTF8).
      rewrite !byteLength_cons in *. change (byteLength []) with 0 in Hlen. lia.
    + unfold prefix_of. rewrite map_slash_id.
      * change (assemble _) with (ascii_upper c :: 58 :: BACK :: join_with BACK l).
        assert (forall p t, p <> [] -> head p = Some BACK -> starts p (ascii_upper c :: t) = false) as Hst.
        { intros p t Hpne Hh. unfold starts. apply bool_decide_eq_false. destruct p as [|z p]; [done|]. injection Hh as ->. intros [= E _]. done. }
        rewrite !Hst by done. rewrite !bool_decide_eq_false_2 by (intros [= E]; done). cbn [orb drive_spec]. rewrite Hc1. cbn. by rewrite Hc2.
      * intros Hx. by destruct (proj1 (list.Forall_forall _ _) Hout _ Hx).
Qed.

(** The prefix of an absolute Windows spelling is a share's two backslashes, or a drive, a colon and a backslash. *)
Lemma prefix_windows u input rest unc d : prefix_of true u input = Ok (rest, unc, d, true) -> exists pre, fold_back input = pre ++ rest /\
  (unc = true /\ d = None /\ u = true \/ unc = false /\ exists c, d = Some (ascii_upper c) /\ ascii_letter c = true).
Proof.
  unfold prefix_of. cbv beta iota zeta. set (n := fold_back input).
  destruct (starts (lit "\\?\") n || starts (lit "\\.\") n || bool_decide (n = lit "\\?") || bool_decide (n = lit "\\.")); [done|].
  destruct (starts (lit "\??\") n); [done|]. destruct (starts (lit "\\") n) eqn:H2.
  - destruct u; [|done]. cbn. intros [= <- <- <-]. exists (take 2 n). split; [by rewrite take_drop|by left].
  - destruct (drive_spec n) eqn:Hd; [|by destruct (starts (lit "\") n)]. intros Hr.
    destruct n as [|c [|x r]] eqn:En; [done..|]. cbn in Hd. apply andb_true_iff in Hd as [Hc ->%Z.eqb_eq].
    change (drop 2 (c :: 58 :: r)) with r in Hr. destruct r as [|y r]; [done|]. destruct (Z.eqb_spec y BACK) as [->|]; [|done]. injection Hr as <- <- <-.
    exists [c; 58; BACK]. split; [done|]. right. split; [done|]. by exists c.
Qed.

(** The parts of a text that a spelling keeps. *)
Definition kept_parts (w : bool) (rest : text) : list text := bfilter (fun x => negb (bool_decide (x = []) || bool_decide (x = [DOT]))) (split_at (sep w) rest).

Lemma check_segments_parts w raw l : check_segments w raw = Ok l -> l = bfilter (fun x => negb (bool_decide (x = []) || bool_decide (x = [DOT]))) raw.
Proof.
  revert l. induction raw as [|s raw IH]; intros l; cbn [Paths.check_segments bfilter List.filter]; [by intros [= <-]|]. destruct (_ || _); cbn [negb]; [apply IH|].
  destruct (segment_refused w s); [done|]. destruct (check_segments w raw) as [l'|]; [|done]. cbn. intros [= <-]. f_equal. by apply IH.
Qed.

Lemma kept_no_dots w s : kept w s -> s <> [DOT; DOT].
Proof. intros (_ & _ & H) ->. unfold Paths.segment_refused in H. by rewrite bool_decide_eq_true_2 in H. Qed.

(** (C15) An accepted absolute path has one normal spelling. Its segments are the parts of the input between
    separators that are neither empty nor a dot, none of them two dots; writing the parsed path out again and parsing
    that gives the same path, with the same rules, so no rule applied to a parsed path depends on how it was first
    spelled; and the spelling has no empty and no dot segment, on Windows no forward slash, and its drive, which it
    has unless it names a share, in upper case. *)
Theorem syntax_round_trip w u input s :
  checkSyntax w u (Some input) = Ok s -> absolute s = true -> checkSyntax w u (Some (assemble s)) = Ok s /\
  (exists rest, prefix_of w u input = Ok (rest, s_unc s, s_drive s, true) /\ segments s = kept_parts w rest) /\
  (forall seg, seg ∈ segments s -> seg <> [] /\ seg <> [DOT] /\ seg <> [DOT; DOT] /\ (sep w) ∉ seg) /\
  (w = true -> SLASH ∉ assemble s /\ (s_unc s = true \/ exists d, s_drive s = Some d /\ 65 <= d <= 90)).
Proof.
  intros H Ha. split; [destruct w; [by apply (normal_windows u input)|by apply (normal_posix u input)]|].
  apply syntax_ok_iff in H as (_ & Hp & _ & rest & Hr & Hs & _ & Hw). rewrite Ha in Hr. destruct (check_segments_kept w _ _ Hs) as [Hk Hsub]. split_and!.
  - exists rest. split; [done|]. by eapply check_segments_parts.
  - intros seg Hseg. pose proof (proj1 (list.Forall_forall _ _) Hk seg Hseg) as (H1 & H2 & H3). split_and!; [done|done|by apply (kept_no_dots w)|].
    intros Hx. by destruct (split_at_elem _ _ _ _ (elem_of_sublist _ _ _ Hseg Hsub) Hx).
  - intros ->. destruct (prefix_windows _ _ _ _ _ Hr) as (pre & Hn & Hd). destruct (rejoin_windows input pre rest _ Hp Hn Hs) as (_ & _ & _ & Hpl & _).
    assert (Hj : SLASH ∉ join_with BACK (segments s)) by (intros Hx; by destruct (proj1 (list.Forall_forall _ _) Hpl _ Hx)).
    unfold assemble. rewrite Hw. destruct Hd as [(-> & _ & _)|(-> & c & -> & Hc)].
    + split; [|by left]. by rewrite !not_elem_of_cons.
    + destruct (drive_upper c Hc) as (Hu & _ & _ & Hne & _). assert (65 <= ascii_upper c <= 90) as Hr' by (unfold ascii_letter in Hc; unfold ascii_upper; case_match; lia).
      split; [|right; by exists (ascii_upper c)]. change (SLASH ∉ ascii_upper c :: 58 :: BACK :: join_with BACK (segments s)). rewrite !not_elem_of_cons. split_and!; [congruence|done..].
Qed.

(** ** Deny lists *)

Notation fold := (foldForDeny toLowerCase toUpperCase NFC).

(** What an entry protects: a path and everything below it, or every path with a segment of that name. *)
Definition covered (deny : list DenyEntry) (p : text) : Prop :=
  (exists q rest, ByPath q ∈ deny /\ parts q <> [] /\ map fold (parts p) = map fold (parts q) ++ rest) \/
  (exists n seg, ByName n ∈ deny /\ seg ∈ parts p /\ fold seg = fold n).

Lemma startsWithSegs_iff have want : startsWithSegs have want = true <-> exists rest, have = want ++ rest.
Proof.
  unfold startsWithSegs. split.
  - intros H%bool_decide_eq_true. exists (drop (length want) have). by rewrite <- H at 1; rewrite take_drop.
  - intros [rest ->]. apply bool_decide_eq_true. by rewrite take_app_length.
Qed.

Lemma matchDeny_covered p deny : is_Some (matchDeny p deny) <-> covered deny p.
Proof.
  unfold Paths.matchDeny, covered. split.
  - intros [e He]. apply bfind_some in He as [Hin Hm]. destruct e as [q|n]; cbn in Hm.
    + left. apply andb_true_iff in Hm as [Hne Hs]. apply startsWithSegs_iff in Hs as [rest Hs]. exists q, rest.
      split; [done|]. split; [|done]. intros E. by rewrite E in Hne.
    + right. apply existsb_elem in Hm as (x & Hx & E%bool_decide_eq_true). apply elem_of_map in Hx as (seg & -> & Hseg).
      by exists n, seg.
  - intros [(q & rest & Hin & Hne & Hs)|(n & seg & Hin & Hseg & E)]; eapply bfind_is_some; [exact Hin| |exact Hin|]; cbn.
    + apply andb_true_iff. split; [|apply startsWithSegs_iff; by exists rest].
      apply negb_true_iff, bool_decide_eq_false. intros E%map_eq_nil. done.
    + apply existsb_elem. exists (fold seg). split; [apply elem_of_map; by exists seg|by apply bool_decide_eq_true].
Qed.

(** A path is denied exactly when a path entry has its leading segments, or a name entry one of its segments,
    all compared case- and normalisation-folded. A path entry without segments covers nothing. *)
Theorem deny_exact p deny : is_Some (matchDeny p deny) <-> covered deny p.
Proof. apply matchDeny_covered. Qed.

(** The file-system root as a deny entry passes the shape check, and protects nothing. *)
Theorem root_entry_denies_nothing p :
  invalidDenyEntry (Some (Some [RawPath (Some (lit "/"))])) = None /\ matchDeny p [ByPath (lit "/")] = None.
Proof.
  split; [reflexivity|]. destruct (matchDeny p [ByPath (lit "/")]) eqn:E; [|done]. exfalso.
  assert (covered [ByPath (lit "/")] p) as [(q & rest & Hq & Hne & _)|(n & seg & Hn & _)] by (apply matchDeny_covered; by rewrite E).
  - apply list_elem_of_singleton in Hq. injection Hq as ->. by apply Hne.
  - by apply list_elem_of_singleton in Hn.
Qed.

(** ** System trees *)

(** [p] is spelled like [g]: both UNC or neither, both with a drive or neither. *)
Definition same_kind (w : bool) (g p : text) : Prop := w = true -> starts [BACK; BACK] g = starts [BACK; BACK] p /\ drive_spec g = drive_spec p.

Lemma prefix_comparable (a b x y : list text) : a ++ x = b ++ y -> (exists r, b = a ++ r) \/ (exists r, a = b ++ r).
Proof.
  revert b. induction a as [|s a IH]; intros b E; [left; by exists b|].
  destruct b as [|t b]; [right; by exists (s :: a)|]. injection E as <- E.
  destruct (IH b E) as [[r ->]|[r ->]]; [left|right]; by exists r.
Qed.

Lemma grant_clear w homes g p rest :
  same_kind w g p -> foldSegments p w = foldSegments g w ++ rest ->
  grantReachesSystemTree g true w homes = false -> isSystemTreePath p w homes = false.
Proof.
  intros Hk E H. unfold Paths.grantReachesSystemTree in H. destruct (isSystemTreePath g w homes) eqn:Hg; [done|].
  destruct (existsb _ (homeSegments _ _ _ homes w)) eqn:Hh; [done|]. cbn [negb] in H.
  unfold Paths.isSystemTreePath in *. cbv zeta in *. case_bool_decide as Hg0; [done|].
  rewrite bool_decide_eq_false_2 by (rewrite E; by destruct (foldSegments g w)).
  destruct (w && (w && starts [BACK; BACK] g || drive_spec g) && _) eqn:Hd; [done|].
  assert (w && (w && starts [BACK; BACK] p || drive_spec p) && Nat.leb (length (foldSegments p w)) (if w && starts [BACK; BACK] p then 2 else 1) = false) as ->.
  { destruct w; [|done]. destruct (Hk eq_refl) as [<- <-]. cbn [andb] in *.
    destruct (starts [BACK; BACK] g || drive_spec g); [|done]. cbn [andb] in *. apply Nat.leb_gt in Hd. apply Nat.leb_gt.
    rewrite E, length_app. lia. }
  destruct (existsb (fun h => sameSegs h (foldSegments g w)) (homeSegments _ _ _ homes w)) eqn:Hs; [done|].
  destruct (existsb (fun f => sameSegs (foldSegments f w) (foldSegments g w)) (homes_parent w)) eqn:Hhp; [done|].
  rewrite (existsb_none (fun h => sameSegs h (foldSegments p w))), (existsb_none (fun f => sameSegs (foldSegments f w) (foldSegments p w))).
  - apply existsb_none. intros f Hf. destruct (startsWithSegs (foldSegments p w) (foldSegments f w)) eqn:Hpf; [|done].
    apply startsWithSegs_iff in Hpf as [r Hr]. rewrite E in Hr. destruct (prefix_comparable _ _ _ _ Hr) as [C|C]; apply startsWithSegs_iff in C.
    + rewrite (existsb_false_elem _ _ f H) in C; [done|]. apply elem_of_app. by right.
    + by rewrite (existsb_false_elem _ _ f Hg Hf) in C.
  - intros f Hf. apply bool_decide_eq_false. intros Ef.
    assert (startsWithSegs (foldSegments f w) (foldSegments g w) = true) as C by (apply startsWithSegs_iff; exists rest; congruence).
    rewrite (existsb_false_elem _ _ f H) in C; [done|]. apply elem_of_app. by left.
  - intros h Hin. apply bool_decide_eq_false. intros Eh.
    assert (startsWithSegs h (foldSegments g w) = true) as C by (apply startsWithSegs_iff; exists rest; congruence).
    by rewrite (existsb_false_elem _ _ h Hh Hin) in C.
Qed.

(** A recursive grant that is not classified as reaching a system tree reaches none: no path at or below the
    granted one is a home, a drive root, a container of homes, or inside a system tree. *)
Theorem grant_below_is_clear w homes g p rest :
  same_kind w g p -> foldSegments p w = foldSegments g w ++ rest ->
  grantReachesSystemTree g true w homes = false -> isSystemTreePath p w homes = false.
Proof. exact (grant_clear w homes g p rest). Qed.
End unicode.
