(* ===== verification/PathResolve.v ===== *)
(** * Path canonicalisation

    Model of the file-system part of [packages/core/src/policy/paths.ts]: real-target
    resolution, roots, the hard-link scans, [canonicalisePath] and [openVerified].
    The file system is one table of answers per moment, so it may change between any
    two calls; node's [path] functions are parameters. *)

From S2P Require Import Prelude NetIp Paths.
From Stdlib Require Import Ascii.

(** ** The file system *)

Inductive Errno : Type := ENOENT | ELOOP | ENOTDIR | EMLINK | EEXIST | OtherErrno.

#[export] Instance errno_eq_dec : EqDecision Errno.
Proof. solve_decision. Defined.

Record Stat : Type := { st_dev : Z; st_ino : Z; st_birth : Z; st_nlink : Z; isDirectory : bool; isFile : bool }.
Record Dirent : Type := { d_name : text; d_isDirectory : bool; d_isFile : bool }.

(** The bits of the flags of an open call that the code looks at; [o_wr] is any of write, read-write, append and truncate. *)
Record OpenFlags : Type := { o_wr : bool; o_creat : bool; o_excl : bool; o_nofollow : bool }.

(** The answers at one moment: [lstat] says whether the entry is a symbolic link, [open] gives a handle,
    [fd_link] is what [/proc/self/fd] shows for it. *)
Record Moment : Type := {
  realpath : text -> result Errno text;
  stat : text -> result Errno Stat;
  lstat : text -> result Errno bool;
  readdir : text -> result Errno (list Dirent);
  open_file : text -> OpenFlags -> result Errno nat;
  fstat : nat -> result Errno Stat;
  fd_link : nat -> option text
}.

(** A refusal, or a loop that did not end within its fuel. *)
Inductive Refusal : Type := Refused (r : RefusalReason) | OutOfFuel.

(* @src policy/paths.ts 259 259 Resolved *)
Record Resolved : Type := { real : text; r_exists : bool; r_identity : Identity; parentIdentity : Identity; hardLinked : bool }.

(* @src policy/paths.ts 301 301 ResolvedRoot *)
Record ResolvedRoot : Type := { rr_id : string; rr_real : text }.

Inductive AccessMode : Type := Reading | Writing.

#[export] Instance access_mode_eq_dec : EqDecision AccessMode.
Proof. solve_decision. Defined.

(* @src policy/paths.ts 46 66 CanonicalPath *)
Record CanonicalPath : Type := {
  canonical_path : text; rootId : option string; c_exists : bool; identity : Identity; c_parentIdentity : Identity; c_hardLinked : bool;
  denyGuarded : bool; systemTree : bool; access : AccessMode
}.

(* @src policy/paths.ts 70 89 CanonicaliseOptions *)
Record CanonicaliseOptions : Type := {
  platform : Platform; windowsRules : option bool; cwd : option text; roots : list PathRoot; o_deny : option (option (list RawEntry));
  o_access : option AccessMode; requireRoot : option bool; allowUnc : option bool; home : option text; scanCap : option Z
}.

Inductive Alias : Type := IsAlias | Incomplete.

#[export] Instance alias_eq_dec : EqDecision Alias.
Proof. solve_decision. Defined.

(** Take one occurrence of a handle off the list of open ones. *)
Fixpoint remove_one (x : nat) (l : list nat) : list nat :=
  match l with [] => [] | y :: r => if Nat.eqb x y then r else y :: remove_one x r end.

Definition refused {S A} (r : RefusalReason) : SE S Refusal A := throw (Refused r).

(** The entries of a list that passed the shape check. *)
Definition typed (l : list RawEntry) : list DenyEntry :=
  omap (fun e => match e with RawName (Some n) => Some (ByName n) | RawPath (Some q) => Some (ByPath q) | _ => None end) l.

(** [s.length]: code points above 0xFFFF count twice. *)
Definition unit_length (s : text) : Z := zsum (fun x => if x <? 65536 then 1 else 2) s.

Section files.
Context (toLowerCase toUpperCase NFC : text -> text).
(** [path.dirname], [path.basename], [path.join], [path.parse(p).root] and [path.resolve], per platform. *)
Context (dirname basename : bool -> text -> text) (path_join : text -> text -> text) (parse_root resolve : bool -> text -> text).
Context (fs : nat -> Moment) (homedir : text).

Notation checkSyntax := (checkSyntax toLowerCase).
Notation matchDeny := (matchDeny toLowerCase toUpperCase NFC).
Notation isSystemTreePath := (isSystemTreePath toLowerCase toUpperCase NFC).
Notation F := (SE nat Refusal).

(** Ask the file system as it is now; a moment passes. *)
Definition ask {E A} (q : Moment -> result E A) : SE nat E A := fun n => (q (fs n), S n).

(** [await m.catch(...)]: the answer or its error, as a value. *)
Definition attempt {E E' A} (m : SE nat E A) : SE nat E' (result E A) := fun n => let '(r, n') := m n in (Ok r, n').

Definition identity_of (s : Stat) : Identity := identityOf (st_dev s) (st_ino s) (st_birth s).

(** ** Real targets *)

(** The [try] block: it throws with the file system and answers with a target or a refusal. *)
(* @src policy/paths.ts 268 281 resolveReal *)
Definition resolve_here (windows : bool) (cur : text) (tail : list text) : SE nat Errno (result RefusalReason Resolved) :=
  let sep := if windows then BACK else SLASH in
  p ← ask (fun m => realpath m cur);
  let rp := normaliseNative p windows in
  st ← ask (fun m => stat m rp);
  if negb (bool_decide (tail = [])) && negb (isDirectory st) then mret (Err not_directory)
  else
    let id := identity_of st in
    if ino id =? 0 then mret (Err no_identity)
    else
      parent ← (let parentReal := dirname windows rp in
                if bool_decide (tail = []) && negb (bool_decide (parentReal = rp))
                then s ← ask (fun m => stat m parentReal); mret (identity_of s)
                else mret id);
      let full := if bool_decide (tail = []) then rp else rp ++ (if ends_in sep rp then [] else [sep]) ++ join_with sep tail in
      mret (Ok {| real := full; r_exists := bool_decide (tail = []); r_identity := id; parentIdentity := parent;
                  hardLinked := bool_decide (tail = []) && isFile st && (1 <? st_nlink st) |}).

(* @src policy/paths.ts 262 299 resolveReal *)
Fixpoint resolveReal (fuel : nat) (windows : bool) (cur : text) (tail : list text) : F Resolved :=
  match fuel with
  | O => throw OutOfFuel
  | S fuel =>
      r ← attempt (resolve_here windows cur tail);
      match r with
      | Ok (Ok t) => mret t
      | Ok (Err e) => refused e
      | Err ELOOP => refused link_loop
      | Err ENOTDIR => refused not_directory
      | Err ENOENT =>
          l ← attempt (ask (fun m => lstat m cur));
          match l with
          | Ok true => refused dangling_link
          | _ =>
              let parent := dirname windows cur in
              if bool_decide (parent = cur) then refused unresolvable
              else resolveReal fuel windows parent (basename windows cur :: tail)
          end
      | Err _ => refused unresolvable
      end
  end.

(** One step per parent directory, and one for a relative path without a separator: the length of the path is enough. *)
Definition resolve_path (windows : bool) (abs : text) : F Resolved := resolveReal (S (S (length abs))) windows abs [].

(** ** Roots *)

(* @src policy/paths.ts 330 343 isForbiddenRoot *)
Definition isForbiddenRoot (p : text) (windows : bool) (hm : text) : bool :=
  let fold s := if windows then toLowerCase s else s in
  let sep := if windows then BACK else SLASH in
  bool_decide (parse_root windows p = p)
  || (negb (bool_decide (hm = [])) && bool_decide (fold p = fold (resolve windows hm)))
  || existsb (fun f => bool_decide (fold p = fold f)) (homes_parent windows)
  || existsb (fun f => bool_decide (fold p = fold f) || starts (fold f ++ [sep]) (fold p)) (system_trees windows).

(* @src policy/paths.ts 311 321 resolveRoots *)
Definition resolve_root (windows unc : bool) (hm : text) (homeReal : option text) (r : PathRoot) : F ResolvedRoot :=
  match checkSyntax windows unc (Some (root_path r)) with
  | Err _ => refused bad_root
  | Ok s =>
      if negb (absolute s) then refused bad_root
      else
        res ← catch (resolve_path windows (assemble s)) (fun e => match e with OutOfFuel => throw OutOfFuel | Refused _ => refused bad_root end);
        if negb (r_exists res) then refused bad_root
        else if match root_identity r with Some i => negb (sameIdentity i (r_identity res)) | None => false end then refused root_identity_changed
        else if isForbiddenRoot (real res) windows hm || match homeReal with Some h => isForbiddenRoot (real res) windows h | None => false end
        then refused bad_root
        else mret {| rr_id := root_id r; rr_real := real res |}
  end.

Fixpoint each_root (f : PathRoot -> F ResolvedRoot) (l : list PathRoot) : F (list ResolvedRoot) :=
  match l with [] => mret [] | r :: l => x ← f r; xs ← each_root f l; mret (x :: xs) end.

(* @src policy/paths.ts 303 323 resolveRoots *)
Definition resolveRoots (rs : list PathRoot) (windows unc : bool) (hm : text) : F (list ResolvedRoot * option text) :=
  homeReal ← (if negb (bool_decide (hm = [])) && ABSOLUTE_SPELLING hm
              then h ← attempt (resolve_path windows hm);
                   match h with
                   | Ok h => mret (if r_exists h then Some (real h) else None)
                   | Err OutOfFuel => throw OutOfFuel
                   | Err (Refused _) => mret None
                   end
              else mret None);
  out ← each_root (resolve_root windows unc hm homeReal) rs;
  mret (out, homeReal).

(** ** The deny-list on the file system *)

(** Both spellings of every path entry, and the entries that exist. *)
(* @src policy/paths.ts 446 454 resolveDenyPaths *)
Fixpoint resolve_deny (windows : bool) (l : list DenyEntry) : F (list DenyEntry * list text) :=
  match l with
  | [] => mret ([], [])
  | ByPath q :: l =>
      match checkSyntax windows true (Some q) with
      | Ok s =>
          if negb (absolute s) then resolve_deny windows l
          else
            r ← attempt (resolve_path windows (assemble s));
            match r with
            | Err OutOfFuel => throw OutOfFuel
            | Err (Refused _) => resolve_deny windows l
            | Ok r =>
                rest ← resolve_deny windows l;
                mret ((if bool_decide (real r = q) then [] else [ByPath (real r)]) ++ rest.1,
                      (if r_exists r then [real r] else []) ++ rest.2)
            end
      | Err _ => resolve_deny windows l
      end
  | _ :: l => resolve_deny windows l
  end.

(* @src policy/paths.ts 443 456 resolveDenyPaths *)
Definition resolveDenyPaths (deny : list DenyEntry) (windows : bool) : F (list DenyEntry * list text) :=
  r ← resolve_deny windows deny; mret (deny ++ r.1, r.2).

(** [`${st.dev}:${st.ino}` === key] *)
Definition same_key (key : Z * Z) (s : Stat) : bool := (st_dev s =? key.1) && (st_ino s =? key.2).

(** The children of [dir] in turn, with the entries left to visit; [sub] visits a directory. *)
(* @src policy/paths.ts 463 474 pathEntryAlias *)
Fixpoint each_child (sub : text -> Z -> SE nat Errno (option Alias * Z)) (key : Z * Z) (dir : text) (l : list Dirent) (left : Z)
    : SE nat Errno (option Alias * Z) :=
  match l with
  | [] => mret (None, left)
  | d :: l =>
      if left <=? 0 then mret (Some Incomplete, left - 1)
      else
        let full := path_join dir (d_name d) in
        r ← (if d_isDirectory d then sub full (left - 1)
             else if d_isFile d
             then st ← ask (fun m => stat m full); mret (if same_key key st then Some IsAlias else None, left - 1)
             else mret (None, left - 1));
        match r.1 with Some a => mret (Some a, r.2) | None => each_child sub key dir l r.2 end
  end.

(** A walk below [dir]: what was found, and how many entries are left. Each level of directories uses up an entry,
    so [fuel] counts levels and the number of entries left is enough. *)
(* @src policy/paths.ts 461 475 pathEntryAlias *)
Fixpoint visit_path (fuel : nat) (key : Z * Z) (dir : text) (left : Z) : SE nat Errno (option Alias * Z) :=
  children ← ask (fun m => readdir m dir);
  each_child (match fuel with O => fun _ l => mret (Some Incomplete, l) | S f => visit_path f key end) key dir children left.

(* @src policy/paths.ts 477 485 pathEntryAlias *)
Fixpoint scan_paths (key : Z * Z) (paths : list text) (left : Z) : SE nat Errno (option Alias) :=
  match paths with
  | [] => mret None
  | p :: l =>
      st ← ask (fun m => stat m p);
      if isFile st && same_key key st then mret (Some IsAlias)
      else if isDirectory st
      then r ← visit_path (Z.to_nat left) key p left; match r.1 with Some a => mret (Some a) | None => scan_paths key l r.2 end
      else scan_paths key l left
  end.

(** A partial walk cannot rule an alias out. *)
(* @src policy/paths.ts 459 490 pathEntryAlias *)
Definition pathEntryAlias (key : Z * Z) (paths : list text) (cap : Z) : F (option Alias) :=
  catch (scan_paths key paths cap) (fun _ => mret (Some Incomplete)).

(** The walk for protected names: found, or not, with the entries left and whether it had to give up. *)
Record Walk : Type := { found : bool; budget : Z; overflow : bool }.

(* @src policy/paths.ts 420 430 nameEntryAlias *)
Fixpoint each_name (sub : text -> bool -> Z -> F Walk) (key : Z * Z) (names : list DenyEntry) (dir : text) (protectedBelow : bool)
    (l : list Dirent) (left : Z) : F Walk :=
  match l with
  | [] => mret {| found := false; budget := left; overflow := false |}
  | d :: l =>
      if left <=? 0 then mret {| found := false; budget := left - 1; overflow := true |}
      else
        let full := path_join dir (d_name d) in
        let hit := protectedBelow || bool_decide (matchDeny (d_name d) names <> None) in
        w ← (if d_isDirectory d then sub full hit (left - 1)
             else if hit && d_isFile d
             then st ← attempt (ask (fun m => stat m full));
                  mret (match st with
                        | Ok st => {| found := same_key key st; budget := left - 1; overflow := false |}
                        | Err e => {| found := false; budget := left - 1; overflow := negb (bool_decide (e = ENOENT)) |}
                        end)
             else mret {| found := false; budget := left - 1; overflow := false |});
        if found w || overflow w then mret w else each_name sub key names dir protectedBelow l (budget w)
  end.

(* @src policy/paths.ts 416 431 nameEntryAlias *)
Fixpoint visit_names (fuel : nat) (key : Z * Z) (names : list DenyEntry) (dir : text) (protectedBelow : bool) (left : Z) : F Walk :=
  ents ← attempt (ask (fun m => readdir m dir));
  match ents with
  | Err e => mret {| found := false; budget := left; overflow := negb (bool_decide (e = ENOENT)) |}
  | Ok ents =>
      each_name (match fuel with
                 | O => fun _ _ l => mret {| found := false; budget := l; overflow := true |}
                 | S f => visit_names f key names
                 end) key names dir protectedBelow ents left
  end.

(* @src policy/paths.ts 432 439 nameEntryAlias *)
Fixpoint scan_roots (key : Z * Z) (names : list DenyEntry) (rs : list ResolvedRoot) (seen : list text) (left : Z) : F (option Alias) :=
  match rs with
  | [] => mret None
  | r :: l =>
      if existsb (fun s => bool_decide (s = rr_real r)) seen then scan_roots key names l seen left
      else
        w ← visit_names (Z.to_nat left) key names (rr_real r) (bool_decide (matchDeny (rr_real r) names <> None)) left;
        if found w then mret (Some IsAlias)
        else if overflow w then mret (Some Incomplete)
        else scan_roots key names l (rr_real r :: seen) (budget w)
  end.

(* @src policy/paths.ts 412 440 nameEntryAlias *)
Definition nameEntryAlias (key : Z * Z) (rs : list ResolvedRoot) (names : list DenyEntry) (cap : Z) : F (option Alias) :=
  scan_roots key names rs [] cap.

(* @src policy/paths.ts 398 398 DENY_SCAN_CAP *)
Definition DENY_SCAN_CAP : Z := 20000.
(* @src policy/paths.ts 399 399 NAME_SCAN_CAP *)
Definition NAME_SCAN_CAP : Z := 100000.

(** ** The entry point *)

(** The most specific root: the first of the longest that contain the path. *)
(* @src policy/paths.ts 557 561 canonicalisePath *)
Definition best_root (rs : list ResolvedRoot) (p : text) (sep : Z) : option string * Z :=
  fold_left (fun (acc : option string * Z) r =>
    if containsExact (rr_real r) p sep && (acc.2 <? unit_length (rr_real r)) then (Some (rr_id r), unit_length (rr_real r)) else acc)
    rs (None, -1).

(** The scans a hard-linked target goes through. *)
(* @src policy/paths.ts 538 549 canonicalisePath *)
Definition alias_checks (res : Resolved) (existing : list text) (names : list DenyEntry) (rs : list ResolvedRoot) (cap : option Z) : F unit :=
  if r_exists res && hardLinked res then
    let key := (dev (r_identity res), ino (r_identity res)) in
    a ← pathEntryAlias key existing (default DENY_SCAN_CAP cap);
    if bool_decide (a <> None) then refused deny_listed
    else if bool_decide (names = []) then mret tt
    else b ← nameEntryAlias key rs names (default NAME_SCAN_CAP cap);
         if bool_decide (b <> None) then refused deny_listed else mret tt
  else mret tt.

(** Everything that follows the real target: its spelling, its tree, its name rules and its root. *)
(* @src policy/paths.ts 550 569 canonicalisePath *)
Definition settle_target (o : CanonicaliseOptions) (windows : bool) (deny : list DenyEntry) (rs : list ResolvedRoot) (homes : list text)
    (res : Resolved) : F CanonicalPath :=
  let acc := default Reading (o_access o) in
  let rooted := default true (requireRoot o) in
  if specialTree (real res) (platform o) then refused special_tree
  else if starts [BACK; BACK] (real res) && negb (default false (allowUnc o)) then refused unc_not_allowed
  else match checkSyntax windows true (Some (real res)) with
  | Err e => refused e
  | Ok _ =>
      let found := (best_root rs (real res) (if windows then BACK else SLASH)).1 in
      let linked_write := bool_decide (acc = Writing) && hardLinked res in
      if linked_write && rooted then refused hard_link
      else
        let id := if linked_write then None else found in
        if bool_decide (id = None) && rooted then refused outside_root
        else mret {| canonical_path := real res; rootId := id; c_exists := r_exists res; identity := r_identity res;
                     c_parentIdentity := parentIdentity res; c_hardLinked := hardLinked res; denyGuarded := negb (bool_decide (deny = []));
                     systemTree := isSystemTreePath (real res) windows homes; access := acc |}
  end.

(** [cwd] gives the base of a relative path. *)
(* @src policy/paths.ts 496 570 canonicalisePath *)
Definition canonicalise_from (base : F text) (input : option text) (o : CanonicaliseOptions) : F CanonicalPath :=
  let windows := default (bool_decide (platform o = Win32)) (windowsRules o) in
  let unc := default false (allowUnc o) in
  let hm := default homedir (home o) in
  let sep := if windows then BACK else SLASH in
  if bool_decide (is_Some (invalidDenyEntry (o_deny o))) then refused deny_listed
  else
    let given := typed (default [] (mjoin (o_deny o))) in
    d ← resolveDenyPaths given windows;
    let '(deny, existing) := d in
    let names := bfilter (fun e => match e with ByName _ => true | _ => false end) given in
    match checkSyntax windows unc input with
    | Err e => refused e
    | Ok syn =>
        rr ← resolveRoots (roots o) windows unc hm;
        let '(rs, homeReal) := rr in
        abs ← (if absolute syn then mret (assemble syn)
               else b ← base; mret (b ++ sep :: join_with sep (segments syn)));
        if bool_decide (is_Some (matchDeny abs deny)) then refused deny_listed
        else if specialTree abs (platform o) then refused special_tree
        else
          res ← resolve_path windows abs;
          if bool_decide (is_Some (matchDeny (real res) deny)) then refused deny_listed
          else
            alias_checks res existing names rs (scanCap o) ;;
            settle_target o windows deny rs (hm :: match homeReal with Some h => [h] | None => [] end) res
    end.

(** The options of the base: no [cwd] of its own, read access, inside a root. *)
(* @src policy/paths.ts 521 522 canonicalisePath *)
Definition base_options (o : CanonicaliseOptions) : CanonicaliseOptions :=
  {| platform := platform o; windowsRules := windowsRules o; cwd := None; roots := roots o; o_deny := o_deny o;
     o_access := Some Reading; requireRoot := Some true; allowUnc := allowUnc o; home := home o; scanCap := scanCap o |}.

(* @src policy/paths.ts 496 570 canonicalisePath *)
Definition canonicalisePath (input : option text) (o : CanonicaliseOptions) : F CanonicalPath :=
  canonicalise_from
    (match cwd o with
     | None => refused relative_no_cwd
     | Some c => b ← canonicalise_from (refused relative_no_cwd) (Some c) (base_options o); mret (canonical_path b)
     end) input o.

(** ** Opening *)

(** [now.replace(/ \(deleted\)$/u, "")] *)
Definition strip_deleted (s : text) : text :=
  let d := lit " (deleted)" in
  if Nat.leb (length d) (length s) && bool_decide (drop (length s - length d) s = d) then take (length s - length d) s else s.

(** The parent directory still resolves to itself and is still the one that was checked. *)
(* @src policy/paths.ts 590 600 openVerified *)
Definition checkParent {E} (windows : bool) (c : CanonicalPath) : SE nat E (option RefusalReason) :=
  let parent := dirname windows (canonical_path c) in
  r ← attempt
    (p ← ask (fun m => realpath m parent);
     if negb (bool_decide (normaliseNative p windows = parent)) then mret (Some identity_changed)
     else
       st ← ask (fun m => stat m parent);
       let pst := identity_of st in
       let want := if c_exists c then c_parentIdentity c else identity c in
       if negb (c_exists c) && negb (bool_decide (dirname windows (canonical_path c) = canonical_path c)) && negb (sameIdentity pst want)
       then mret (Some identity_changed)
       else if c_exists c && negb (sameIdentity pst want) then mret (Some identity_changed)
       else mret None);
  match r with
  | Ok x => mret x
  | Err _ => mret (Some (if c_exists c then identity_changed else not_found))
  end.

(* @src policy/paths.ts 630 634 openVerified *)
Definition created_elsewhere (windows : bool) (c : CanonicalPath) : SE nat Errno bool :=
  if windows && negb (c_exists c)
  then p ← ask (fun m => realpath m (canonical_path c)); mret (negb (bool_decide (normaliseNative p true = canonical_path c)))
  else mret false.

(** The checks on an open handle; a throw is the [catch] of the source. *)
(* @src policy/paths.ts 624 638 openVerified *)
Definition verify_open (host : Platform) (c : CanonicalPath) (write : bool) (fd : nat) : SE nat Errno (option RefusalReason) :=
  let windows := bool_decide (host = Win32) in
  st ← ask (fun m => fstat m fd);
  if c_exists c && negb (sameIdentity (identity_of st) (identity c)) then mret (Some identity_changed)
  else if (write || denyGuarded c) && isFile st && (1 <? st_nlink st) && negb (c_hardLinked c) then mret (Some hard_link)
  else
    post ← checkParent windows c;
    match post with
    | Some r => mret (Some r)
    | None =>
        swapped ← created_elsewhere windows c;
        if (swapped : bool) then mret (Some link_swap)
        else if bool_decide (host = Linux)
        then now ← ask (fun m => Ok (fd_link m fd));
             mret (match now with
                   | Some s => if bool_decide (strip_deleted s = canonical_path c) then None else Some identity_changed
                   | None => None
                   end)
        else mret None
    end.

(** The moment, and the handles that are open. *)
Record Handles : Type := { clock : nat; opened : list nat }.

Definition at_clock {E A} (m : SE nat E A) : SE Handles E A :=
  fun h => let '(r, n) := m (clock h) in (r, {| clock := n; opened := opened h |}).

(** [await open(...)]; a handle it gives is open from then on. *)
Definition open_handle (p : text) (f : OpenFlags) : SE Handles Errno nat :=
  fd ← at_clock (ask (fun m => open_file m p f)); modify (fun h => {| clock := clock h; opened := fd :: opened h |}) ;; mret fd.

(** [await fh.close().catch(() => {})] *)
Definition close_handle {E} (fd : nat) : SE Handles E unit := modify (fun h => {| clock := clock h; opened := remove_one fd (opened h) |}).

(** [f]: links are never followed, creation is exclusive, and only a file that was missing is created. *)
(* @src policy/paths.ts 584 587 openVerified *)
Definition open_flags (windows : bool) (c : CanonicalPath) (f : OpenFlags) : OpenFlags :=
  {| o_wr := o_wr f; o_creat := o_creat f && negb (c_exists c); o_excl := o_excl f || (negb (c_exists c) && o_creat f);
     o_nofollow := o_nofollow f || negb windows |}.

(* @src policy/paths.ts 616 620 openVerified *)
Definition open_fault (c : CanonicalPath) (e : Errno) : RefusalReason :=
  match e with
  | ELOOP | EMLINK => link_swap
  | EEXIST => identity_changed
  | ENOENT => if c_exists c then identity_changed else not_found
  | _ => unresolvable
  end.

(** Something already stands where a file is to be created. *)
(* @src policy/paths.ts 606 609 openVerified *)
Definition planted (windows : bool) (c : CanonicalPath) (f : OpenFlags) : F bool :=
  if windows && negb (c_exists c) && o_creat f
  then l ← attempt (ask (fun m => lstat m (canonical_path c)));
       mret (match l with Ok _ => true | Err e => negb (bool_decide (e = ENOENT)) end)
  else mret false.

(** The [catch] of the checks on the handle. *)
(* @src policy/paths.ts 623 641 openVerified *)
Definition verified (host : Platform) (c : CanonicalPath) (write : bool) (fd : nat) : F (option RefusalReason) :=
  r ← attempt (verify_open host c write fd);
  mret (match r with Ok x => x | Err _ => Some identity_changed end).

(** Cancellation by an abort signal is not modelled. *)
(* @src policy/paths.ts 579 643 openVerified *)
Definition openVerified (host : Platform) (c : CanonicalPath) (flags : OpenFlags) : SE Handles Refusal nat :=
  let windows := bool_decide (host = Win32) in
  let write := o_wr flags || o_creat flags in
  if write && bool_decide (access c <> Writing) then throw (Refused unsupported_open)
  else
    pre ← at_clock (checkParent windows c);
    match pre with
    | Some r => throw (Refused r)
    | None =>
        p ← at_clock (planted windows c flags);
        if (p : bool) then throw (Refused identity_changed)
        else
          fd ← catch (open_handle (canonical_path c) (open_flags windows c flags)) (fun e => throw (Refused (open_fault c e)));
          post ← at_clock (verified host c write fd);
          match post with
          | Some r => close_handle fd ;; throw (Refused r)
          | None => mret fd
          end
    end.
End files.
