(* ===== verification/PathResolveSpec.v ===== *)
(** * Canonicalisation and opening, proved

    Every loop ends; a canonical path is inside a root, off the deny-list and off the
    special trees whatever the file system did meanwhile; an opened file is the one
    that was checked, and a refused one is closed. *)

From S2P Require Import Prelude NetIp Paths PathsSpec PathResolve.

(** ** Loops end *)

(** The fuel of the model never runs out. *)
Definition ends {A} (m : SE nat Refusal A) : Prop := forall n, (m n).1 <> Err OutOfFuel.

Lemma ends_ret {A} (a : A) : ends (mret a).
Proof. by intros n. Qed.

Lemma ends_refused {A} r : ends (refused r : SE nat Refusal A).
Proof. by intros n. Qed.

Lemma ends_bind {A B} (m : SE nat Refusal A) (k : A -> SE nat Refusal B) : ends m -> (forall a, ends (k a)) -> ends (m ≫= k).
Proof.
  intros Hm Hk n. unfold mbind, SE_bind. specialize (Hm n). destruct (m n) as [[a|e] n']; [apply Hk|]. cbn in *. congruence.
Qed.

Lemma ends_attempt {E A B} (m : SE nat E A) (k : result E A -> SE nat Refusal B) :
  (forall r n n', m n = (r, n') -> (k r n').1 <> Err OutOfFuel) -> ends (attempt m ≫= k).
Proof. intros H n. unfold mbind, SE_bind, attempt. destruct (m n) as [r n'] eqn:Er. by apply (H r n). Qed.

Lemma ends_attempt_all {E A B} (m : SE nat E A) (k : result E A -> SE nat Refusal B) :
  (forall r, ends (k r)) -> ends (attempt m ≫= k).
Proof. intros H. apply ends_attempt. intros r n n' _. apply H. Qed.

Lemma attempt_ok {E E' A} (m : SE nat E A) n r n' : attempt (E' := E') m n = (Ok r, n') -> m n = (r, n').
Proof. unfold attempt. destruct (m n) as [r1 n1]. by intros [= -> ->]. Qed.

(** Asking for a value that may be a refusal, where running out of fuel is passed on. *)
Lemma ends_attempt_pass {A B} (m : SE nat Refusal A) (k : result Refusal A -> SE nat Refusal B) :
  ends m -> (forall a, ends (k (Ok a))) -> (forall r, ends (k (Err (Refused r)))) -> ends (attempt m ≫= k).
Proof.
  intros Hm Ha Hr. apply ends_attempt. intros r n n' E. specialize (Hm n). rewrite E in Hm.
  destruct r as [a|[r|]]; [apply Ha|apply Hr|done].
Qed.

Lemma ends_catch {A} (m : SE nat Refusal A) (h : Refusal -> SE nat Refusal A) :
  ends m -> (forall r, ends (h (Refused r))) -> ends (catch m h).
Proof. intros Hm Hh n. unfold catch. specialize (Hm n). destruct (m n) as [[a|[r|]] n']; [done|apply Hh|done]. Qed.

#[export] Hint Resolve ends_ret ends_refused : paths.
Ltac ends_tac := intros; cbn; solve [eauto with paths].

Section files.
Context (toLowerCase toUpperCase NFC : text -> text).
Context (dirname basename : bool -> text -> text) (path_join : text -> text -> text) (parse_root resolve : bool -> text -> text).
Context (fs : nat -> Moment) (homedir : text).

(** A parent is the path itself, shorter, or "." which is its own parent. *)
Definition parents_shrink : Prop := forall w,
  dirname w [DOT] = [DOT] /\ forall p, dirname w p = p \/ (length (dirname w p) < length p)%nat \/ dirname w p = [DOT].

Notation resolveReal := (resolveReal dirname basename fs).
Notation resolve_path := (resolve_path dirname basename fs).

Lemma resolveReal_ends (H : parents_shrink) w fuel cur tail :
  (length cur + 2 <= fuel \/ cur = [DOT] /\ 1 <= fuel)%nat -> ends (resolveReal fuel w cur tail).
Proof.
  revert cur tail. induction fuel as [|fuel IH]; intros cur tail Hf; [lia|].
  cbn [PathResolve.resolveReal]. apply ends_attempt_all. intros [[t|e]|e]; [ends_tac..|].
  destruct e; try ends_tac. apply ends_attempt_all. intros l.
  assert (ends (if bool_decide (dirname w cur = cur) then refused unresolvable
                else resolveReal fuel w (dirname w cur) (basename w cur :: tail))) as Hgo.
  { case_bool_decide as Hp; [ends_tac|]. apply IH. destruct (H w) as [Hdot Hsh].
    destruct (Hsh cur) as [?|[Hlt|E]]; [done| |].
    - destruct Hf as [Hf|[-> Hf]]; [left; lia|]. by rewrite Hdot in Hp.
    - right. split; [done|]. destruct Hf as [Hf|[-> Hf]]; [lia|]. by rewrite Hdot in Hp. }
  destruct l as [[]|]; try exact Hgo. ends_tac.
Qed.

Lemma resolve_path_ends (H : parents_shrink) w p : ends (resolve_path w p).
Proof. apply (resolveReal_ends H). left. lia. Qed.

Notation resolve_root := (resolve_root toLowerCase dirname basename parse_root resolve fs).
Notation resolveRoots := (resolveRoots toLowerCase dirname basename parse_root resolve fs).
Notation resolveDenyPaths := (resolveDenyPaths toLowerCase dirname basename fs).
Notation canonicalise_from := (canonicalise_from toLowerCase toUpperCase NFC dirname basename path_join parse_root resolve fs homedir).
Notation canonicalisePath := (canonicalisePath toLowerCase toUpperCase NFC dirname basename path_join parse_root resolve fs homedir).
Notation isForbiddenRoot := (isForbiddenRoot toLowerCase parse_root resolve).

Lemma resolve_root_ends (H : parents_shrink) w u hm hr r : ends (resolve_root w u hm hr r).
Proof.
  unfold PathResolve.resolve_root. destruct (checkSyntax _ _ _ _) as [s|]; [|ends_tac]. destruct (absolute s); [|ends_tac].
  apply ends_bind; [apply ends_catch; [by apply resolve_path_ends|ends_tac]|].
  intros ?. repeat case_match; ends_tac.
Qed.

Lemma resolveRoots_ends (H : parents_shrink) rs w u hm : ends (resolveRoots rs w u hm).
Proof.
  unfold PathResolve.resolveRoots. apply ends_bind.
  - case_match; [|ends_tac]. apply ends_attempt_pass; [by apply resolve_path_ends|ends_tac..].
  - intros hr. apply ends_bind; [|ends_tac].
    induction rs as [|r rs IH]; cbn; [ends_tac|]. apply ends_bind; [by apply resolve_root_ends|].
    intros x. apply ends_bind; [exact IH|ends_tac].
Qed.

Lemma resolve_deny_ends (H : parents_shrink) w l : ends (resolve_deny toLowerCase dirname basename fs w l).
Proof.
  induction l as [|[q|n] l IH]; cbn [resolve_deny]; [ends_tac| |exact IH].
  destruct (checkSyntax _ _ _ _) as [s|]; [|exact IH]. destruct (absolute s); [|exact IH]. cbn [negb].
  apply ends_attempt_pass; [by apply resolve_path_ends| |intros; exact IH].
  intros ?. apply ends_bind; [exact IH|ends_tac].
Qed.

Lemma each_name_ends sub key names dir below l left : (forall p b n, ends (sub p b n)) ->
  ends (each_name toLowerCase toUpperCase NFC path_join fs sub key names dir below l left).
Proof.
  intros Hs. revert left. induction l as [|d l IH]; intros left; cbn [each_name]; [ends_tac|].
  destruct (left <=? 0); [ends_tac|]. apply ends_bind; [|intros w; destruct (found w || overflow w); [ends_tac|apply IH]].
  destruct (d_isDirectory d); [apply Hs|]. destruct (_ && d_isFile d); [|ends_tac]. apply ends_attempt_all. intros r. ends_tac.
Qed.

Lemma visit_names_ends fuel key names dir below left : ends (visit_names toLowerCase toUpperCase NFC path_join fs fuel key names dir below left).
Proof.
  revert dir below left. induction fuel as [|fuel IH]; intros dir below left.
  all: cbn [visit_names]; apply ends_attempt_all; intros [ents|e]; [apply each_name_ends|ends_tac].
  - ends_tac.
  - exact IH.
Qed.

Lemma nameEntryAlias_ends key rs names cap : ends (nameEntryAlias toLowerCase toUpperCase NFC path_join fs key rs names cap).
Proof.
  unfold nameEntryAlias. generalize (@nil text). revert cap. induction rs as [|r rs IH]; intros cap seen; cbn [scan_roots]; [ends_tac|].
  case_match; [apply IH|]. apply ends_bind; [apply visit_names_ends|]. intros ?. repeat case_match; [ends_tac..|apply IH].
Qed.

Lemma pathEntryAlias_ends key paths cap : ends (pathEntryAlias path_join fs key paths cap).
Proof. intros n. unfold pathEntryAlias, catch. by destruct (scan_paths path_join fs key paths cap n) as [[]]. Qed.

Lemma alias_checks_ends res ex names rs cap : ends (alias_checks toLowerCase toUpperCase NFC path_join fs res ex names rs cap).
Proof.
  unfold alias_checks. case_match; [|ends_tac]. apply ends_bind; [apply pathEntryAlias_ends|]. intros a.
  repeat case_match; try ends_tac. apply ends_bind; [apply nameEntryAlias_ends|]. intros ?. case_match; ends_tac.
Qed.

Lemma canonicalise_from_ends (H : parents_shrink) base input o : ends base -> ends (canonicalise_from base input o).
Proof.
  intros Hb. unfold PathResolve.canonicalise_from. case_match; [ends_tac|]. cbv zeta.
  apply ends_bind; [apply ends_bind; [by apply resolve_deny_ends|ends_tac]|]. intros [deny ex]. case_match; [|ends_tac].
  apply ends_bind; [by apply resolveRoots_ends|]. intros [rs hr].
  apply ends_bind; [case_match; [ends_tac|apply ends_bind; [exact Hb|ends_tac]]|]. intros abs.
  destruct (bool_decide (is_Some (Paths.matchDeny _ _ _ _ _))); [ends_tac|]. destruct (specialTree _ _); [ends_tac|].
  apply ends_bind; [by apply resolve_path_ends|]. intros res. destruct (bool_decide (is_Some (Paths.matchDeny _ _ _ _ _))); [ends_tac|].
  apply ends_bind; [apply alias_checks_ends|]. intros _. unfold settle_target. repeat case_match; ends_tac.
Qed.

(** ** What was observed *)

(** A target the file system answered for [abs], between the moments [n] and [n']: either the real path of [abs]
    itself, or the real path of its nearest resolvable ancestor, a directory, followed by the names below it. *)
Definition observed (w : bool) (abs : text) (n n' : nat) (t : Resolved) : Prop :=
  exists k tail p st, (n <= k)%nat /\ (S k < n')%nat /\ realpath (fs k) (Nat.iter (length tail) (dirname w) abs) = Ok p /\
    let rp := normaliseNative p w in
    stat (fs (S k)) rp = Ok st /\ r_identity t = identity_of st /\ ino (r_identity t) <> 0 /\
    if r_exists t then tail = [] /\ real t = rp /\ hardLinked t = isFile st && (1 <? st_nlink st)
    else tail <> [] /\ isDirectory st = true /\ hardLinked t = false /\
      let sep := if w then BACK else SLASH in
      real t = rp ++ (if ends_in sep rp then [] else [sep]) ++ join_with sep tail.

Lemma resolve_here_ok w cur tail n t n' : resolve_here dirname fs w cur tail n = (Ok (Ok t), n') ->
  exists p st, (S n < n')%nat /\ realpath (fs n) cur = Ok p /\
    let rp := normaliseNative p w in
    stat (fs (S n)) rp = Ok st /\ r_identity t = identity_of st /\ ino (r_identity t) <> 0 /\
    if r_exists t then tail = [] /\ real t = rp /\ hardLinked t = isFile st && (1 <? st_nlink st)
    else tail <> [] /\ isDirectory st = true /\ hardLinked t = false /\
      let sep := if w then BACK else SLASH in
      real t = rp ++ (if ends_in sep rp then [] else [sep]) ++ join_with sep tail.
Proof.
  unfold resolve_here. intros H. apply SE_bind_ok in H as (p & n1 & [= Hp <-] & H).
  apply SE_bind_ok in H as (st & n2 & [= Hs <-] & H). exists p, st.
  destruct (negb (bool_decide (tail = [])) && negb (isDirectory st)) eqn:Hd; [by injection H|].
  destruct (Z.eqb_spec (ino (identity_of st)) 0) as [|Hi]; [by injection H|].
  apply SE_bind_ok in H as (par & n3 & Hpar & [= <- <-]). cbn.
  assert (S n < n3)%nat as Hlt.
  { destruct (bool_decide (tail = []) && _); [|by injection Hpar as _ <-; lia].
    apply SE_bind_ok in Hpar as (? & ? & [= _ <-] & [= _ <-]). lia. }
  split; [done|]. split; [done|]. split; [done|]. split; [done|]. split; [done|].
  case_bool_decide as Ht; [by repeat split|]. split; [done|]. split; [|by split].
  cbn in Hd. by destruct (isDirectory st).
Qed.

Lemma resolve_here_later w cur tail n r n' : resolve_here dirname fs w cur tail n = (r, n') -> (n <= n')%nat.
Proof.
  unfold resolve_here, mbind, SE_bind, ask. destruct (realpath _ _); [|by intros [= _ <-]; lia].
  destruct (stat _ _); [|by intros [= _ <-]; lia]. destruct (_ && _); [by intros [= _ <-]; lia|].
  destruct (_ =? 0); [by intros [= _ <-]; lia|]. destruct (bool_decide (tail = []) && _); [|by intros [= _ <-]; lia].
  destruct (stat _ _); intros [= _ <-]; lia.
Qed.

Lemma resolveReal_observed w fuel abs tail n t n' :
  resolveReal fuel w (Nat.iter (length tail) (dirname w) abs) tail n = (Ok t, n') -> observed w abs n n' t.
Proof.
  revert tail n. induction fuel as [|fuel IH]; intros tail n; [done|]. cbn [PathResolve.resolveReal].
  unfold mbind, SE_bind, attempt.
  destruct (resolve_here dirname fs w (Nat.iter (length tail) (dirname w) abs) tail n) as [r n1] eqn:Hh. destruct r as [[t'|e]|e].
  - intros [= <- <-]. apply resolve_here_ok in Hh as (p & st & Hlt & Hp & Hrest). exists n, tail, p, st.
    split; [done|]. split; [done|]. by split.
  - done.
  - destruct e; try done. cbn. destruct (lstat _ _) as [[]|]; [done|..].
    all: case_bool_decide; [done|]; intros Hgo.
    all: change (dirname w (Nat.iter (length tail) (dirname w) abs)) with
      (Nat.iter (length (basename w (Nat.iter (length tail) (dirname w) abs) :: tail)) (dirname w) abs) in Hgo.
    all: apply IH in Hgo as (k & tl & p & st & Hk & Hrest).
    all: assert (n <= n1)%nat by (revert Hh; apply resolve_here_later).
    all: exists k, tl, p, st; split; [lia|exact Hrest].
Qed.

Lemma observed_later w abs n n' t : observed w abs n n' t -> (n <= n')%nat.
Proof. intros (k & tail & p & st & H1 & H2 & _). lia. Qed.

(** Asking takes time. *)
Lemma resolveReal_later w fuel cur tail n : (n <= (resolveReal fuel w cur tail n).2)%nat.
Proof.
  revert cur tail n. induction fuel as [|fuel IH]; intros cur tail n; cbn [PathResolve.resolveReal]; [done|].
  unfold mbind, SE_bind, attempt. destruct (resolve_here dirname fs w cur tail n) as [r n1] eqn:Hh. apply resolve_here_later in Hh.
  destruct r as [[t|e]|e]; [exact Hh..|]. destruct e; try exact Hh. cbn. destruct (lstat _ _) as [[]|]; cbn; [lia|..].
  all: destruct (bool_decide _); cbn; [lia|]. all: etrans; [|apply IH]; lia.
Qed.

(** What resolution answers was observed: an existing target is the real path the file system gave for the path
    asked for, with its identity and link count; a missing one lies below the real path of its nearest ancestor that
    resolves, which is a directory, and keeps the names below it. *)
Theorem resolution_observed w abs n t n' : resolve_path w abs n = (Ok t, n') -> observed w abs n n' t.
Proof. exact (resolveReal_observed w _ abs [] n t n'). Qed.

(** ** Roots *)

Lemma unit_length_nonneg p : 0 <= unit_length p.
Proof. apply zsum_nonneg. intros x _. by destruct (x <? 65536). Qed.

(** The root chosen contains the path, and no root that contains it is longer. *)
Definition most_specific (rs : list ResolvedRoot) (p : text) (sep : Z) (r : ResolvedRoot) : Prop :=
  r ∈ rs /\ containsExact (rr_real r) p sep = true /\
  forall r', r' ∈ rs -> containsExact (rr_real r') p sep = true -> unit_length (rr_real r') <= unit_length (rr_real r).

Lemma best_root_snoc rs r p sep : best_root (rs ++ [r]) p sep =
  (let acc := best_root rs p sep in
   if containsExact (rr_real r) p sep && (acc.2 <? unit_length (rr_real r)) then (Some (rr_id r), unit_length (rr_real r)) else acc).
Proof. unfold best_root. by rewrite fold_left_app. Qed.

Lemma best_root_spec rs p sep :
  match best_root rs p sep with
  | (Some id, n) => exists r, rr_id r = id /\ n = unit_length (rr_real r) /\ most_specific rs p sep r
  | (None, n) => n = -1 /\ forall r, r ∈ rs -> containsExact (rr_real r) p sep = false
  end.
Proof.
  induction rs as [|r rs IH] using rev_ind; [split; [done|]; by intros r ?%elem_of_nil|].
  rewrite best_root_snoc. cbv zeta. pose proof (unit_length_nonneg (rr_real r)) as Hpos.
  destruct (containsExact (rr_real r) p sep) eqn:Hc; cbn [andb].
  - revert IH. destruct (best_root rs p sep) as [[id|] m]; cbn [snd]; intros IH.
    + destruct IH as (b & <- & -> & Hb & Hcb & Hmax). destruct (Z.ltb_spec (unit_length (rr_real b)) (unit_length (rr_real r))).
      * exists r. split; [done|]. split; [done|]. split; [apply elem_of_app; right; by left|]. split; [done|].
        intros r' [Hr'|Hr']%elem_of_app Hc'; [specialize (Hmax r' Hr' Hc'); lia|]. apply list_elem_of_singleton in Hr' as ->. lia.
      * exists b. split; [done|]. split; [done|]. split; [apply elem_of_app; by left|]. split; [done|].
        intros r' [Hr'|Hr']%elem_of_app Hc'; [by apply Hmax|]. apply list_elem_of_singleton in Hr' as ->. lia.
    + destruct IH as [-> Hnone]. rewrite (proj2 (Z.ltb_lt _ _)) by lia.
      exists r. split; [done|]. split; [done|]. split; [apply elem_of_app; right; by left|]. split; [done|].
      intros r' [Hr'|Hr']%elem_of_app Hc'; [by rewrite Hnone in Hc'|]. apply list_elem_of_singleton in Hr' as ->. lia.
  - revert IH. destruct (best_root rs p sep) as [[id|] m]; intros IH.
    + destruct IH as (b & <- & -> & Hb & Hcb & Hmax). exists b. split; [done|]. split; [done|].
      split; [apply elem_of_app; by left|]. split; [done|].
      intros r' [Hr'|Hr']%elem_of_app Hc'; [by apply Hmax|]. apply list_elem_of_singleton in Hr' as ->. congruence.
    + destruct IH as [-> Hnone]. split; [done|].
      intros r' [Hr'|Hr']%elem_of_app; [by apply Hnone|]. by apply list_elem_of_singleton in Hr' as ->.
Qed.

(** A root as it was resolved: it exists, it is the one that was confirmed, and it is not a home, a drive, or a system tree. *)
Definition root_ok (w u : bool) (hm : text) (n n' : nat) (r : PathRoot) (rr : ResolvedRoot) : Prop :=
  rr_id rr = root_id r /\ isForbiddenRoot (rr_real rr) w hm = false /\
  exists s k k' t, checkSyntax toLowerCase w u (Some (root_path r)) = Ok s /\ absolute s = true /\ (n <= k)%nat /\ (k' <= n')%nat /\
    observed w (assemble s) k k' t /\ r_exists t = true /\ real t = rr_real rr /\
    forall i, root_identity r = Some i -> sameIdentity i (r_identity t) = true.

Lemma resolve_root_ok w u hm hr r n rr n' : resolve_root w u hm hr r n = (Ok rr, n') -> root_ok w u hm n n' r rr /\ (n <= n')%nat.
Proof.
  unfold PathResolve.resolve_root. destruct (checkSyntax _ _ _ _) as [s|] eqn:Hsy; [|done]. destruct (absolute s) eqn:Hab; [|done]. cbn [negb].
  intros H. apply SE_bind_ok in H as (t & n1 & Ht & H).
  assert (resolve_path w (assemble s) n = (Ok t, n1)) as Hres.
  { unfold catch in Ht. destruct (resolve_path w (assemble s) n) as [[t'|[]] n2]; by try (injection Ht as -> ->). }
  destruct (r_exists t) eqn:He; [|done]. cbn [negb] in H.
  destruct (match root_identity r with Some _ => _ | None => _ end) eqn:Hi; [done|].
  destruct (isForbiddenRoot (real t) w hm) eqn:Hf; [done|]. cbn [orb] in H.
  destruct (match hr with Some _ => _ | None => _ end); [done|]. injection H as <- <-.
  pose proof (resolveReal_observed w _ _ [] _ _ _ Hres) as Hob. split; [|by eapply observed_later]. split; [done|]. split; [done|].
  exists s, n, n1, t. split_and!; try done. intros i Hid. rewrite Hid in Hi. by apply negb_false_iff in Hi.
Qed.

Lemma root_ok_wider w u hm a b a' b' r rr : (a' <= a)%nat -> (b <= b')%nat -> root_ok w u hm a b r rr -> root_ok w u hm a' b' r rr.
Proof. intros Ha Hb (H1 & H2 & s & k & k' & t & H3 & H4 & H5 & H6 & H). split; [done|]. split; [done|]. exists s, k, k', t. split_and!; try done; try lia; apply H. Qed.

Lemma each_root_ok rs w u hm hr n out n' : each_root (resolve_root w u hm hr) rs n = (Ok out, n') -> Forall2 (root_ok w u hm n n') rs out /\ (n <= n')%nat.
Proof.
  revert n out. induction rs as [|r rs IH]; intros n out; cbn; [intros [= <- <-]; split; [constructor|lia]|].
  intros H. apply SE_bind_ok in H as (x & n3 & Hx & H). apply SE_bind_ok in H as (xs & n4 & Hxs & [= <- <-]).
  apply resolve_root_ok in Hx as [Hx Hl]. destruct (IH _ _ Hxs) as [Hall Hl']. split; [|lia]. constructor; [by eapply root_ok_wider; [| |exact Hx]; lia|].
  eapply list.Forall2_impl; [exact Hall|]. intros a b. apply root_ok_wider; lia.
Qed.

(** Every root of the options is resolved, in their order. *)
Lemma resolveRoots_ok rs w u hm n out hr n' : resolveRoots rs w u hm n = (Ok (out, hr), n') -> Forall2 (root_ok w u hm n n') rs out /\ (n <= n')%nat.
Proof.
  unfold PathResolve.resolveRoots. intros H. apply SE_bind_ok in H as (h & n1 & Hh & H). apply SE_bind_ok in H as (out' & n2 & H & [= -> _ <-]).
  assert (n <= n1)%nat as Hle.
  { destruct (_ && _); [|by injection Hh as _ <-]. apply SE_bind_ok in Hh as (res & n3 & Ha & Hh). apply attempt_ok in Ha.
    pose proof (resolveReal_later w (S (S (length hm))) hm [] n) as Hl. unfold PathResolve.resolve_path in Ha. rewrite Ha in Hl. cbn in Hl.
    destruct res as [x|[x|]]; [destruct (r_exists x)|..]; injection Hh as _ <- || done; exact Hl. }
  apply each_root_ok in H as [Hall Hl]. split; [|lia]. eapply list.Forall2_impl; [exact Hall|]. intros a b. apply root_ok_wider; lia.
Qed.

(** ** Time passes *)

Definition later {E A} (m : SE nat E A) : Prop := forall n, (n <= (m n).2)%nat.

Lemma later_ret {E A} (a : A) : later (mret a : SE nat E A). Proof. by intros n. Qed.
Lemma later_throw {E A} (e : E) : later (throw e : SE nat E A). Proof. by intros n. Qed.
Lemma later_ask {E A} (q : Moment -> result E A) : later (ask fs q). Proof. intros n. cbn. lia. Qed.
Lemma later_bind {E A B} (m : SE nat E A) (k : A -> SE nat E B) : later m -> (forall a, later (k a)) -> later (m ≫= k).
Proof. intros Hm Hk n. unfold mbind, SE_bind. specialize (Hm n). destruct (m n) as [[a|e] n1]; [|done]. etrans; [exact Hm|apply Hk]. Qed.
Lemma later_attempt {E E' A} (m : SE nat E A) : later m -> later (attempt (E' := E') m).
Proof. intros Hm n. unfold attempt. specialize (Hm n). by destruct (m n). Qed.
Lemma later_catch {E E' A} (m : SE nat E A) (h : E -> SE nat E' A) : later m -> (forall e, later (h e)) -> later (catch m h).
Proof. intros Hm Hh n. unfold catch. specialize (Hm n). destruct (m n) as [[a|e] n1]; [done|]. etrans; [exact Hm|apply Hh]. Qed.
#[local] Hint Resolve later_ret later_throw later_ask : later.
Ltac later_tac := repeat match goal with
  | |- later (_ ≫= _) => apply later_bind; [|intros]
  | |- later (attempt _) => apply later_attempt
  | |- later (catch _ _) => apply later_catch; [|intros]
  | |- later (match ?x with _ => _ end) => destruct x
  | |- later _ => solve [auto with later]
  end.

Lemma later_resolve w p : later (resolve_path w p). Proof. intros n. apply resolveReal_later. Qed.
#[local] Hint Resolve later_resolve : later.

Lemma later_deny l w : later (resolveDenyPaths l w).
Proof. unfold PathResolve.resolveDenyPaths. apply later_bind; [|intros; apply later_ret]. induction l as [|[q|q] l IH]; cbn [resolve_deny]; unfold refused; later_tac; exact IH. Qed.

Lemma later_visit_path fuel key dir left : later (visit_path path_join fs fuel key dir left).
Proof.
  assert (Hc : forall sub key dir l left, (forall p x, later (sub p x)) -> later (each_child path_join fs sub key dir l left)).
  { intros sub k d l. induction l as [|e l IH]; intros x Hs; cbn [each_child]; later_tac; try apply Hs; by apply IH. }
  revert dir left. induction fuel as [|fuel IH]; intros dir left; cbn [visit_path]; (apply later_bind; [apply later_ask|]; intros ch; apply Hc); [intros; apply later_ret|exact IH].
Qed.

Lemma later_visit_names fuel key names dir below left : later (visit_names toLowerCase toUpperCase NFC path_join fs fuel key names dir below left).
Proof.
  assert (Hc : forall sub key names dir below l left, (forall p b x, later (sub p b x)) -> later (each_name toLowerCase toUpperCase NFC path_join fs sub key names dir below l left)).
  { intros sub k ns d b l. induction l as [|e l IH]; intros x Hs; cbn [each_name]; cbv zeta; later_tac; try apply Hs; by apply IH. }
  revert dir below left. induction fuel as [|fuel IH]; intros dir below left; cbn [visit_names]; (apply later_bind; [apply later_attempt, later_ask|]; intros [ch|e]; [apply Hc|apply later_ret]);
    [intros; apply later_ret|exact IH].
Qed.

Lemma later_alias res ex names rs cap : later (alias_checks toLowerCase toUpperCase NFC path_join fs res ex names rs cap).
Proof.
  assert (Hp : forall key l left, later (scan_paths path_join fs key l left)).
  { intros key l. induction l as [|p l IH]; intros left; cbn [scan_paths]; later_tac; try apply later_visit_path; apply IH. }
  assert (Hn : forall key ns l seen left, later (scan_roots toLowerCase toUpperCase NFC path_join fs key ns l seen left)).
  { intros key ns l. induction l as [|p l IH]; intros seen left; cbn [scan_roots]; later_tac; try apply later_visit_names; apply IH. }
  unfold alias_checks, pathEntryAlias, nameEntryAlias, refused. cbv zeta. later_tac; auto.
Qed.

Lemma settle_target_now o w deny rs homes t n c n' : settle_target toLowerCase toUpperCase NFC o w deny rs homes t n = (Ok c, n') -> n' = n.
Proof. unfold settle_target. cbv zeta. repeat (match goal with |- context [if ?b then _ else _] => destruct b | |- context [match ?x with _ => _ end] => destruct x end; try done). all: by intros [= _ <-]. Qed.

(** ** Canonical paths *)

Notation windows_of o := (default (bool_decide (platform o = Win32)) (windowsRules o)).
Notation home_of o := (default homedir (home o)).
Notation given o := (typed (default [] (mjoin (o_deny o)))).
Notation unc_of o := (default false (allowUnc o)).
Notation covered := (covered toLowerCase toUpperCase NFC).

(** The absolute path an input asks for: its own, or below the canonical path of the base. *)
Definition asks_for (input : option text) (o : CanonicaliseOptions) (abs : text) : Prop :=
  exists s, checkSyntax toLowerCase (windows_of o) (unc_of o) input = Ok s /\
    if absolute s then abs = assemble s
    else exists c b m m', cwd o = Some c /\ canonicalise_from (refused relative_no_cwd) (Some c) (base_options o) m = (Ok b, m') /\
      abs = canonical_path b ++ (if windows_of o then BACK else SLASH) :: join_with (if windows_of o then BACK else SLASH) (segments s).

(** What every canonical path satisfies, however the file system changed during the call. *)
Record sound (input : option text) (o : CanonicaliseOptions) (n n' : nat) (c : CanonicalPath) : Prop := {
  s_observed : exists abs k k' t, asks_for input o abs /\ (n <= k)%nat /\ (k' <= n')%nat /\ observed (windows_of o) abs k k' t /\ ~ covered (given o) abs /\
    canonical_path c = real t /\ c_exists c = r_exists t /\ identity c = r_identity t /\ c_hardLinked c = hardLinked t;
  s_denied : ~ covered (given o) (canonical_path c);
  s_special : specialTree (canonical_path c) (platform o) = false;
  s_spelled : exists s, checkSyntax toLowerCase (windows_of o) true (Some (canonical_path c)) = Ok s;
  s_unc_ok : starts [BACK; BACK] (canonical_path c) = true -> allowUnc o = Some true;
  s_access : access c = default Reading (o_access o);
  s_linked : access c = Writing -> c_hardLinked c = true -> rootId c = None /\ requireRoot o = Some false;
  s_rootless : rootId c = None -> requireRoot o = Some false;
  s_root : forall id, rootId c = Some id -> exists rs rr r,
    Forall2 (root_ok (windows_of o) (unc_of o) (home_of o) n n') (roots o) rs /\
    most_specific rs (canonical_path c) (if windows_of o then BACK else SLASH) rr /\ rr_id rr = id /\
    r ∈ roots o /\ root_ok (windows_of o) (unc_of o) (home_of o) n n' r rr;
  s_guarded : denyGuarded c = false -> given o = []
}.

Lemma covered_mono deny extra p : covered deny p -> covered (deny ++ extra) p.
Proof.
  intros [(q & rest & Hq & H)|(n & seg & Hn & H)]; [left; exists q, rest|right; exists n, seg]; (split; [apply elem_of_app; by left|done]).
Qed.

Lemma undenied p deny extra : bool_decide (is_Some (matchDeny toLowerCase toUpperCase NFC p (deny ++ extra))) = false -> ~ covered deny p.
Proof. intros H%bool_decide_eq_false Hc. apply H. apply matchDeny_covered. by apply covered_mono. Qed.

(** The last stage: [t] is the observed target, the roots are resolved, and neither spelling is denied. *)
Lemma settle_target_sound input o deny extra rs homes t n c n' abs k k' a b :
  settle_target toLowerCase toUpperCase NFC o (windows_of o) (deny ++ extra) rs homes t n = (Ok c, n') ->
  deny = given o -> asks_for input o abs -> (a <= k)%nat -> (k' <= b)%nat -> observed (windows_of o) abs k k' t -> ~ covered deny abs -> ~ covered deny (real t) ->
  Forall2 (root_ok (windows_of o) (unc_of o) (home_of o) a b) (roots o) rs -> sound input o a b c.
Proof.
  intros H -> Hask Ha Hb Hobs Hd1 Hd2 Hrs. unfold settle_target in H. cbv zeta in H.
  destruct (specialTree (real t) (platform o)) eqn:Hsp; [done|].
  destruct (starts [BACK; BACK] (real t) && negb (default false (allowUnc o))) eqn:Hu; [done|].
  destruct (checkSyntax toLowerCase (windows_of o) true (Some (real t))) as [sy|] eqn:Hsy; [|done].
  set (best := best_root rs (real t) (if windows_of o then BACK else SLASH)) in H.
  set (lw := bool_decide (default Reading (o_access o) = Writing) && hardLinked t) in H.
  destruct (lw && default true (requireRoot o)) eqn:Hlw; [done|].
  destruct (bool_decide ((if lw then None else best.1) = None) && default true (requireRoot o)) eqn:Hout; [done|].
  injection H as <- _. split; cbn [canonical_path rootId c_exists identity c_hardLinked denyGuarded access].
  - exists abs, k, k', t. by split_and!.
  - done.
  - done.
  - by exists sy.
  - intros E. rewrite E in Hu. cbn in Hu. destruct (allowUnc o) as [[]|]; done.
  - done.
  - intros Hac Hl. assert (lw = true) as El by (unfold lw; rewrite Hac, Hl, bool_decide_eq_true_2; done).
    rewrite El in *. cbn in Hlw. destruct (requireRoot o) as [[]|]; done.
  - intros E. rewrite E, bool_decide_eq_true_2 in Hout by done. cbn in Hout. destruct (requireRoot o) as [[]|]; done.
  - intros id E. destruct lw; [done|]. pose proof (best_root_spec rs (real t) (if windows_of o then BACK else SLASH)) as Hbest.
    fold best in Hbest. destruct best as [i m]. cbn in E. subst i. destruct Hbest as (rr & <- & _ & Hms).
    destruct (proj1 (list_elem_of_lookup rs rr)) as [x Hx]; [apply Hms|]. destruct (list.Forall2_lookup_r _ _ _ _ _ Hrs Hx) as (r & Hr & Hok).
    exists rs, rr, r. split_and!; try done; [apply Hms..|by eapply list_elem_of_lookup_2].
  - intros E%negb_false_iff%bool_decide_eq_true. by apply app_nil in E as [? _].
Qed.

(** The bases a call may use: one is only asked when the input is relative. *)
Definition base_ok (o : CanonicaliseOptions) (base : SE nat Refusal text) : Prop := forall m b m', base m = (Ok b, m') -> (m <= m')%nat /\
  exists c r k k', cwd o = Some c /\ canonicalise_from (refused relative_no_cwd) (Some c) (base_options o) k = (Ok r, k') /\ b = canonical_path r.

Lemma canonicalise_from_sound base input o n c n' : base_ok o base -> canonicalise_from base input o n = (Ok c, n') -> sound input o n n' c.
Proof.
  intros Hbase. unfold PathResolve.canonicalise_from. destruct (bool_decide _); [done|]. cbv zeta.
  intros H. apply SE_bind_ok in H as ([deny ex] & n1 & Hd & H). pose proof (later_deny (given o) (windows_of o) n) as L1. rewrite Hd in L1. cbn [snd] in L1.
  unfold PathResolve.resolveDenyPaths in Hd. apply SE_bind_ok in Hd as ([extra ex'] & n2 & _ & [= <- _ <-]).
  destruct (checkSyntax _ _ _ input) as [syn|] eqn:Hsy; [|done]. apply SE_bind_ok in H as ([rs hr] & n3 & Hr & H). apply resolveRoots_ok in Hr as [Hr L2].
  apply SE_bind_ok in H as (abs & n4 & Habs & H). cbn [fst] in H.
  assert (asks_for input o abs /\ (n3 <= n4)%nat) as [Hask L3].
  { destruct (absolute syn) eqn:Ha; [injection Habs as <- <-; split; [exists syn; by rewrite Ha|lia]|]. apply SE_bind_ok in Habs as (b & n5 & Hb & [= <- <-]).
    apply Hbase in Hb as (L & c0 & r0 & k & k' & Hc & Hf & ->). split; [|exact L]. exists syn. rewrite Ha. split; [done|]. by exists c0, r0, k, k'. }
  destruct (bool_decide (is_Some (Paths.matchDeny _ _ _ abs _))) eqn:Hd1; [done|].
  destruct (specialTree abs (platform o)); [done|].
  apply SE_bind_ok in H as (t & n5 & Ht & H). pose proof (resolveReal_observed _ _ abs [] _ _ _ Ht) as Hob. pose proof (observed_later _ _ _ _ _ Hob) as L4.
  destruct (bool_decide (is_Some (Paths.matchDeny _ _ _ (real t) _))) eqn:Hd2; [done|].
  apply SE_bind_ok in H as (u & n6 & Hal & H). pose proof (later_alias t ex (bfilter (fun e => match e with ByName _ => true | _ => false end) (given o)) rs (scanCap o) n5) as L5.
  rewrite Hal in L5. cbn [snd] in L5. apply settle_target_now in H as L6.
  eapply settle_target_sound; [exact H|done|exact Hask| | |exact Hob|exact (undenied _ _ _ Hd1)|exact (undenied _ _ _ Hd2)|]; [lia..|].
  eapply list.Forall2_impl; [exact Hr|]. intros a b. apply root_ok_wider; lia.
Qed.

(** (C13) A canonical path is safe to decide on, whatever the file system did while it was computed: its real target was
    observed during the call for the path the input asks for, neither spelling is deny-listed, it is in no special
    tree, its name passes the platform's rules, it lies in the most specific of the roots of the options, all of which
    were resolved during the call (each of them existing, the one that was confirmed, and never the home it was told of
    or a system tree), and a hard-linked file is never writable inside a root. Only a caller that asked for it gets a
    path outside every root. *)
Theorem canonicalise_sound input o n c n' : canonicalisePath input o n = (Ok c, n') -> sound input o n n' c.
Proof.
  apply canonicalise_from_sound. intros m b m' H. destruct (cwd o) as [c0|]; [|done]. apply SE_bind_ok in H as (r & m1 & Hf & [= <- <-]).
  split; [|by exists c0, r, m, m1]. apply canonicalise_from_sound in Hf as [(abs & k & k' & t & _ & H1 & H2 & Hob & _) _ _ _ _ _ _ _ _ _]; [|by intros ?]. apply observed_later in Hob. lia.
Qed.

(** ** Opening *)

Notation openVerified := (openVerified dirname fs).
Notation checkParent := (checkParent dirname fs).

(** The parent, seen from the moment [k] on, is the directory that was checked. *)
Definition parent_unchanged (w : bool) (c : CanonicalPath) (k : nat) : Prop :=
  let parent := dirname w (canonical_path c) in
  exists p st, realpath (fs k) parent = Ok p /\ normaliseNative p w = parent /\ stat (fs (S k)) parent = Ok st /\
    (c_exists c = true -> sameIdentity (identity_of st) (c_parentIdentity c) = true) /\
    (c_exists c = false -> parent <> canonical_path c -> sameIdentity (identity_of st) (identity c) = true).

Lemma checkParent_ok {E} w c n n' : @PathResolve.checkParent dirname fs E w c n = (Ok None, n') -> parent_unchanged w c n /\ n' = S (S n).
Proof.
  unfold PathResolve.checkParent. intros H. apply SE_bind_ok in H as (r & n1 & Hr & H).
  destruct r as [[x|]|e]; [by injection H| |by injection H]. injection H as ->. apply attempt_ok in Hr as Hm.
  apply SE_bind_ok in Hm as (p & n3 & [= Hp <-] & Hm). case_bool_decide as Hn; [|by injection Hm]. cbn [negb] in Hm.
  apply SE_bind_ok in Hm as (st & n4 & [= Hs <-] & Hm).
  assert (n' = S (S n)) as -> by (revert Hm; repeat match goal with |- (if ?b then _ else _) _ = _ -> _ => destruct b end; intros [= Hm]; congruence).
  split; [|done]. exists p, st. split; [done|]. split; [done|]. split; [done|]. destruct (c_exists c); cbn [negb andb] in Hm.
  - destruct (sameIdentity _ _); [|by injection Hm]. by split.
  - split; [done|]. intros _ Hne. rewrite bool_decide_eq_false_2 in Hm by congruence.
    by destruct (sameIdentity _ _); [|injection Hm].
Qed.

Notation writes f := (o_wr f || o_creat f).

(** Between [n] and [n'] the handle was found to be the file that was checked, and then nothing around it to have moved. *)
Definition handle_checked (host : Platform) (c : CanonicalPath) (write : bool) (fd n n' : nat) : Prop :=
  exists st, fstat (fs n) fd = Ok st /\
    (c_exists c = true -> sameIdentity (identity_of st) (identity c) = true) /\
    (write = true \/ denyGuarded c = true -> isFile st = true -> 1 < st_nlink st -> c_hardLinked c = true) /\
    parent_unchanged (bool_decide (host = Win32)) c (S n) /\ (S (S n) < n')%nat /\
    (host = Win32 -> c_exists c = false -> exists k p, (S (S n) < k < n')%nat /\ realpath (fs k) (canonical_path c) = Ok p /\ normaliseNative p true = canonical_path c) /\
    (host = Linux -> exists k, (S (S n) < k < n')%nat /\ match fd_link (fs k) fd with Some s => strip_deleted s = canonical_path c | None => True end).

Lemma created_elsewhere_ok w c n n' : created_elsewhere fs w c n = (Ok false, n') -> (n <= n')%nat /\
  (w = true -> c_exists c = false -> n' = S n /\ exists p, realpath (fs n) (canonical_path c) = Ok p /\ normaliseNative p true = canonical_path c).
Proof.
  unfold created_elsewhere. destruct (w && negb (c_exists c)) eqn:E; [|intros [= <-]; split; [lia|]; intros -> He; by rewrite He in E].
  intros H. apply SE_bind_ok in H as (p & n1 & [= Hp <-] & [= Hq <-]). split; [lia|]. intros _ _. split; [done|]. exists p. split; [done|]. by apply negb_false_iff, bool_decide_eq_true in Hq.
Qed.

Lemma verified_ok host c write fd n n' : verified dirname fs host c write fd n = (Ok None, n') -> handle_checked host c write fd n n'.
Proof.
  unfold verified. intros H. apply SE_bind_ok in H as (r & n1 & Hr & [= E <-]). destruct r as [[x|]|]; try done. clear E.
  apply attempt_ok in Hr as Hv. unfold verify_open in Hv.
  apply SE_bind_ok in Hv as (st & n3 & [= Hs <-] & Hv). exists st. split; [done|].
  destruct (c_exists c && negb (sameIdentity (identity_of st) (identity c))) eqn:Hid; [by injection Hv|].
  destruct ((write || denyGuarded c) && isFile st && (1 <? st_nlink st) && negb (c_hardLinked c)) eqn:Hl; [by injection Hv|].
  apply SE_bind_ok in Hv as (post & n4 & Hpost & Hv). destruct post as [x|]; [by injection Hv|]. apply checkParent_ok in Hpost as [Hpar ->].
  apply SE_bind_ok in Hv as (sw & n5 & Hsw & Hv). destruct sw; [by injection Hv|]. apply created_elsewhere_ok in Hsw as [Hle Hsw].
  assert (n5 <= n1)%nat as Hle' by (destruct (bool_decide (host = Linux)); [apply SE_bind_ok in Hv as (x & n6 & [= _ <-] & [= _ <-]); lia|injection Hv as <-; lia]).
  split_and!.
  - intros E. rewrite E in Hid. cbn in Hid. by apply negb_false_iff in Hid.
  - intros Hw Hf Hn. rewrite Hf, (proj2 (Z.ltb_lt _ _)) in Hl by lia.
    assert (write || denyGuarded c = true) as Hwg by (by apply orb_true_iff). rewrite Hwg in Hl. by destruct (c_hardLinked c).
  - done.
  - lia.
  - intros -> E. destruct (Hsw eq_refl E) as (-> & p & Hp & Hn). exists (S (S (S n))), p. split; [lia|]. done.
  - intros ->. cbn in Hv. apply SE_bind_ok in Hv as (now & n6 & [= <- <-] & [= Hq <-]). exists n5. split; [lia|].
    destruct (fd_link (fs n5) fd); [|done]. destruct (bool_decide (strip_deleted _ = _)) eqn:Es; [by apply bool_decide_eq_true in Es|done].
Qed.

(** Before a file is created where a link would be followed, nothing stood there. *)
Lemma planted_ok w c f n n' : planted fs w c f n = (Ok false, n') -> (n <= n')%nat /\
  (w = true -> c_exists c = false -> o_creat f = true -> n' = S n /\ lstat (fs n) (canonical_path c) = Err ENOENT).
Proof.
  unfold planted. destruct (w && negb (c_exists c) && o_creat f) eqn:E; [|intros [= <-]; split; [lia|]; intros -> He Hc; by rewrite He, Hc in E].
  unfold attempt, ask, mbind, SE_bind, mret, SE_ret. destruct (lstat _ _) as [b|e] eqn:El; intros [= H <-]. split; [lia|]. intros _ _ _. split; [done|].
  by apply negb_false_iff, bool_decide_eq_true in H as ->.
Qed.

Lemma at_clock_ok {E A} (m : SE nat E A) h r h' : at_clock m h = (r, h') -> m (clock h) = (r, clock h') /\ opened h' = opened h.
Proof. unfold at_clock. destruct (m (clock h)) as [r1 n1]. intros [= -> <-]. by split. Qed.

(** The open call: what it asks, and what it leaves open. *)
Lemma open_handle_ok p f h r h' : open_handle fs p f h = (r, h') ->
  open_file (fs (clock h)) p f = r /\ opened h' = (match r with Ok fd => fd :: opened h | Err _ => opened h end) /\ clock h' = S (clock h).
Proof.
  unfold open_handle, mbind, SE_bind, at_clock, ask. destruct (open_file _ _ _) eqn:E; intros [= <- <-]; by split_and!.
Qed.

Lemma remove_one_head x l : remove_one x (x :: l) = l.
Proof. cbn. by rewrite Nat.eqb_refl. Qed.

(** The stages of [openVerified]: refused before the open, at the open, or after it. *)
Lemma openVerified_cases host c f h r h' : openVerified host c f h = (r, h') ->
  match r with
  | Err _ => opened h' = opened h
  | Ok fd => opened h' = fd :: opened h /\ (writes f = true -> access c = Writing) /\ parent_unchanged (bool_decide (host = Win32)) c (clock h) /\
      exists k, (S (clock h) < k)%nat /\ open_file (fs k) (canonical_path c) (open_flags (bool_decide (host = Win32)) c f) = Ok fd /\
        (host = Win32 -> c_exists c = false -> o_creat f = true -> exists j, (S (clock h) < j < k)%nat /\ lstat (fs j) (canonical_path c) = Err ENOENT) /\
        handle_checked host c (writes f) fd (S k) (clock h')
  end.
Proof.
  unfold PathResolve.openVerified. cbv zeta.
  destruct (writes f && bool_decide (access c <> Writing)) eqn:Hw; [by intros [= <- <-]|].
  unfold mbind at 1, SE_bind at 1. destruct (at_clock (checkParent _ c) h) as [[pre|e] h1] eqn:H1.
  all: apply at_clock_ok in H1 as [Hpre Ho1].
  2: { by intros [= <- <-]. }
  destruct pre; [by intros [= <- <-]|]. apply checkParent_ok in Hpre as [Hpre Ht1].
  unfold mbind at 1, SE_bind at 1. destruct (at_clock (planted _ _ c f) h1) as [[pl|e] h2] eqn:H2.
  all: apply at_clock_ok in H2 as [Hpl Ho2].
  2: { intros [= <- <-]; congruence. }
  destruct pl; [intros [= <- <-]; congruence|]. apply planted_ok in Hpl as [Hle Hpl].
  unfold mbind at 1, SE_bind at 1, catch. destruct (open_handle _ _ _ h2) as [[fd|e] h3] eqn:H3.
  all: apply open_handle_ok in H3 as (Hop & Ho3 & Ht3).
  2: { intros [= <- <-]; congruence. }
  unfold mbind at 1, SE_bind at 1. destruct (at_clock (verified _ _ _ _ _ fd) h3) as [[post|e] h4] eqn:H4.
  all: apply at_clock_ok in H4 as [Hv Ho4].
  - destruct post as [x|].
    + intros [= <- <-]. cbn. rewrite Ho4, Ho3, remove_one_head. congruence.
    + intros [= <- <-]. split; [congruence|]. split; [|split; [exact Hpre|]].
      { intros E. rewrite E in Hw. cbn in Hw. by apply bool_decide_eq_false, dec_stable in Hw. }
      exists (clock h2). split; [lia|]. split; [done|]. split; [|rewrite <- Ht3; by apply verified_ok].
      intros -> He Hc. destruct (Hpl eq_refl He Hc) as [Hs Hl]. exists (clock h1). split; [lia|done].
  - unfold verified, mbind, SE_bind, attempt in Hv. by destruct (verify_open _ _ _ _ _ _ _).
Qed.

(** (C14) An opened path is the file that was checked. In this order: the parent resolves to itself and is the checked
    directory; the open call creates over no existing file and exclusively, and follows no link, or on Windows, which
    cannot be told so, creates only where it just found nothing at all; then the handle has the checked identity and
    has gained no hard link when written or guarded; then the parent is the checked one again; and last, on Linux the
    handle's own path agrees, on Windows a created file's path resolves to itself. It is the only handle left open. *)
Theorem openVerified_sound host c f h fd h' : openVerified host c f h = (Ok fd, h') ->
  opened h' = fd :: opened h /\ (writes f = true -> access c = Writing) /\ parent_unchanged (bool_decide (host = Win32)) c (clock h) /\
  exists k g, (S (clock h) < k)%nat /\ open_file (fs k) (canonical_path c) g = Ok fd /\ (c_exists c = true -> o_creat g = false) /\
    (o_creat g = true -> o_excl g = true) /\ (host <> Win32 -> o_nofollow g = true) /\
    (host = Win32 -> o_creat g = true -> exists j, (S (clock h) < j < k)%nat /\ lstat (fs j) (canonical_path c) = Err ENOENT) /\
    handle_checked host c (writes f) fd (S k) (clock h').
Proof.
  intros H. apply openVerified_cases in H as (Ho & Hw & Hp & k & Hk & Hop & Hl & Hc). split; [done|]. split; [done|]. split; [done|].
  exists k, (open_flags (bool_decide (host = Win32)) c f). unfold open_flags in *. cbn [o_creat o_excl o_nofollow]. split_and!; try done.
  - by intros ->; rewrite andb_false_r.
  - intros [-> ->]%andb_true_iff. cbn. by rewrite orb_true_r.
  - intros Hne. rewrite bool_decide_eq_false_2 by done. by rewrite orb_true_r.
  - intros Hh [Hcr Hne%negb_true_iff]%andb_true_iff. by apply Hl.
Qed.

(** A refused open leaves no handle behind: whatever check fails, and whenever, exactly the handles that were open
    before are open after it. *)
Theorem openVerified_closes host c f h e h' : openVerified host c f h = (Err e, h') -> opened h' = opened h.
Proof. intros H. by apply openVerified_cases in H. Qed.

(** ** The scans' fuel *)

Notation visit_path := (visit_path path_join fs).
Notation visit_names := (visit_names toLowerCase toUpperCase NFC path_join fs).

Lemma each_child_left sub key dir l left n a l' n' :
  (forall p x n a y n', sub p x n = (Ok (a, y), n') -> y <= x) ->
  each_child path_join fs sub key dir l left n = (Ok (a, l'), n') -> l' <= left.
Proof.
  intros Hs. revert left n. induction l as [|d l IH]; intros left n; cbn [each_child]; [intros [= _ <- _]; lia|].
  destruct (left <=? 0); [intros [= _ <- _]; lia|]. intros H. apply SE_bind_ok in H as ([a1 l1] & n1 & Hr & H). cbn [fst snd] in H.
  assert (l1 <= left - 1) as Hl1.
  { destruct (d_isDirectory d); [by apply Hs in Hr|]. destruct (d_isFile d); [|injection Hr as _ <- _; lia].
    apply SE_bind_ok in Hr as (st & n2 & _ & [= _ <- _]). lia. }
  destruct a1; [injection H as _ <- _; lia|]. apply IH in H. lia.
Qed.

Lemma visit_path_left fuel key dir left n a l n' : visit_path fuel key dir left n = (Ok (a, l), n') -> l <= left.
Proof.
  revert dir left n a l n'. induction fuel as [|fuel IH]; intros dir left n a l n'.
  all: cbn [PathResolve.visit_path]; intros H; apply SE_bind_ok in H as (ch & n1 & _ & H); revert H; apply each_child_left.
  - intros p x m a1 y m' [= _ <- _]. lia.
  - exact IH.
Qed.

(** Two ways to visit directories that agree on fewer entries agree on the children. *)
Lemma each_child_ext s1 s2 key dir l left n :
  (forall p x m, x < left -> s1 p x m = s2 p x m) ->
  (forall p x m a y m', s2 p x m = (Ok (a, y), m') -> y <= x) ->
  each_child path_join fs s1 key dir l left n = each_child path_join fs s2 key dir l left n.
Proof.
  intros He Hs. revert left n He. induction l as [|d l IH]; intros left n He; cbn [each_child]; [done|].
  destruct (left <=? 0); [done|]. cbv zeta. destruct (d_isDirectory d).
  - unfold mbind, SE_bind. rewrite He by lia. destruct (s2 _ _ n) as [[[a y]|e] n1] eqn:Hr; [|done]. cbn [fst snd].
    destruct a; [done|]. apply Hs in Hr. apply IH. intros p x m Hx. apply He. lia.
  - assert (forall n', each_child path_join fs s1 key dir l (left - 1) n' = each_child path_join fs s2 key dir l (left - 1) n') as Hgo.
    { intros n'. apply IH. intros p x m Hx. apply He. lia. }
    unfold mbind, SE_bind, ask, mret, SE_ret. destruct (d_isFile d); cbn [fst snd]; [|apply Hgo].
    destruct (stat _ _); [|done]. cbn [fst snd]. destruct (same_key _ _); [done|apply Hgo].
Qed.

Lemma visit_path_fuel f1 f2 key dir left n : (Z.to_nat left <= f1)%nat -> (Z.to_nat left <= f2)%nat ->
  visit_path f1 key dir left n = visit_path f2 key dir left n.
Proof.
  revert f2 dir left n. induction f1 as [|f1 IH]; intros f2 dir left n H1 H2; destruct f2 as [|f2]; [done| | |].
  all: cbn [PathResolve.visit_path]; unfold mbind, SE_bind; destruct (ask _ _ n) as [[ch|e] n1]; [|done].
  1,2: destruct ch as [|d ch]; cbn [each_child]; [done|]; by rewrite (proj2 (Z.leb_le left 0)) by lia.
  apply each_child_ext; [intros p x m Hx; apply IH; lia|intros p x m a y m'; apply visit_path_left].
Qed.

Notation each_name := (each_name toLowerCase toUpperCase NFC path_join fs).

Lemma each_name_left sub key names dir below l left n w n' :
  (forall p b x n w n', sub p b x n = (Ok w, n') -> budget w <= x) ->
  each_name sub key names dir below l left n = (Ok w, n') -> budget w <= left.
Proof.
  intros Hs. revert left n. induction l as [|d l IH]; intros left n; cbn [PathResolve.each_name]; [intros [= <- _]; cbn; lia|].
  destruct (left <=? 0); [intros [= <- _]; cbn; lia|]. intros H. apply SE_bind_ok in H as (w1 & n1 & Hr & H).
  assert (budget w1 <= left - 1) as Hl1.
  { destruct (d_isDirectory d); [by apply Hs in Hr|]. destruct (_ && d_isFile d); [|injection Hr as <- _; cbn; lia].
    apply SE_bind_ok in Hr as (st & n2 & _ & [= <- _]). destruct st; cbn; lia. }
  destruct (found w1 || overflow w1); [injection H as <- _; lia|]. apply IH in H. lia.
Qed.

Lemma visit_names_left fuel key names dir below left n w n' : visit_names fuel key names dir below left n = (Ok w, n') -> budget w <= left.
Proof.
  revert dir below left n w n'. induction fuel as [|fuel IH]; intros dir below left n w n'.
  all: cbn [PathResolve.visit_names]; intros H; apply SE_bind_ok in H as ([ch|e] & n1 & _ & H); [|injection H as <- _; cbn; lia].
  all: revert H; apply each_name_left.
  - intros p b x m a m' [= <- _]. cbn. lia.
  - exact IH.
Qed.

Lemma each_name_ext s1 s2 key names dir below l left n :
  (forall p b x m, x < left -> s1 p b x m = s2 p b x m) ->
  (forall p b x m w m', s2 p b x m = (Ok w, m') -> budget w <= x) ->
  each_name s1 key names dir below l left n = each_name s2 key names dir below l left n.
Proof.
  intros He Hs. revert left n He. induction l as [|d l IH]; intros left n He; cbn [PathResolve.each_name]; [done|].
  destruct (left <=? 0); [done|]. cbv zeta. destruct (d_isDirectory d).
  - unfold mbind, SE_bind. rewrite He by lia. destruct (s2 _ _ _ n) as [[w|e] n1] eqn:Hr; [|done].
    destruct (found w || overflow w); [done|]. apply Hs in Hr. apply IH. intros p b x m Hx. apply He. lia.
  - assert (forall n', each_name s1 key names dir below l (left - 1) n' = each_name s2 key names dir below l (left - 1) n') as Hgo.
    { intros n'. apply IH. intros p b x m Hx. apply He. lia. }
    unfold mbind, SE_bind, attempt, ask, mret, SE_ret. destruct (_ && d_isFile d); cbn [found overflow budget orb]; [|apply Hgo].
    destruct (stat _ _); cbn [found overflow budget].
    + destruct (same_key _ _); cbn [orb]; [done|apply Hgo].
    + destruct (negb _); cbn [orb]; [done|apply Hgo].
Qed.

Lemma visit_names_fuel f1 f2 key names dir below left n : (Z.to_nat left <= f1)%nat -> (Z.to_nat left <= f2)%nat ->
  visit_names f1 key names dir below left n = visit_names f2 key names dir below left n.
Proof.
  revert f2 dir below left n. induction f1 as [|f1 IH]; intros f2 dir below left n H1 H2; destruct f2 as [|f2]; [done| | |].
  all: cbn [PathResolve.visit_names]; unfold mbind, SE_bind; destruct (attempt _ n) as [[[ch|e]|e] n1]; [|done..].
  1,2: destruct ch as [|d ch]; cbn [PathResolve.each_name]; [done|]; by rewrite (proj2 (Z.leb_le left 0)) by lia.
  apply each_name_ext; [intros p b x m Hx; apply IH; lia|intros p b x m w m'; apply visit_names_left].
Qed.

(** The recursion depth the scans are given is never what stops them: with any larger depth, each walk gives the
    same answer at every moment, so only the cap on the entries visited makes a scan incomplete. *)
Theorem scan_depth_enough deeper key names dir below left n : (Z.to_nat left <= deeper)%nat ->
  visit_path (Z.to_nat left) key dir left n = visit_path deeper key dir left n /\
  visit_names (Z.to_nat left) key names dir below left n = visit_names deeper key names dir below left n.
Proof. intros H. split; [by apply visit_path_fuel|by apply visit_names_fuel]. Qed.

(** ** How often a scan asks *)

(** The entries a scan may still visit. *)
Notation room x := (Z.max x 0).

Lemma each_child_asks sub key dir l left n :
  (forall p x n, match sub p x n with (Ok (_, y), n') => Z.of_nat n' + room y <= Z.of_nat n + 1 + room x | (Err _, n') => Z.of_nat n' <= Z.of_nat n + 1 + room x end) ->
  match each_child path_join fs sub key dir l left n with
  | (Ok (_, y), n') => Z.of_nat n' + room y <= Z.of_nat n + room left
  | (Err _, n') => Z.of_nat n' <= Z.of_nat n + room left
  end.
Proof.
  intros Hs. revert left n. induction l as [|d l IH]; intros left n; cbn [each_child]; [cbn; lia|].
  destruct (Z.leb_spec left 0) as [Hle|Hle]; [cbn; lia|]. cbv zeta. unfold mbind at 1, SE_bind at 1. cbv beta.
  match goal with |- context [?f n] => match f with context [if d_isDirectory d then _ else _] => set (m := f n) end end.
  assert (Hm : match m with | (Ok (_, y), n') => Z.of_nat n' + room y <= Z.of_nat n + room left | (Err _, n') => Z.of_nat n' <= Z.of_nat n + room left end).
  { subst m. destruct (d_isDirectory d).
    - specialize (Hs (path_join dir (d_name d)) (left - 1) n). destruct (sub _ _ n) as [[[a y]|e] n']; lia.
    - destruct (d_isFile d); [|cbn; lia]. unfold mbind, SE_bind, ask. destruct (stat _ _); cbn; lia. }
  clearbody m. destruct m as [[[a y]|e] n1]; [|exact Hm]. cbn [fst snd]. destruct a as [a|]; [exact Hm|].
  specialize (IH y n1). destruct (each_child _ _ _ _ _ _ y n1) as [[[a' y']|e'] n2]; lia.
Qed.

Lemma visit_path_asks fuel key dir left n :
  match visit_path fuel key dir left n with
  | (Ok (_, y), n') => Z.of_nat n' + room y <= Z.of_nat n + 1 + room left
  | (Err _, n') => Z.of_nat n' <= Z.of_nat n + 1 + room left
  end.
Proof.
  revert dir left n. induction fuel as [|fuel IH]; intros dir left n; cbn [PathResolve.visit_path]; unfold mbind, SE_bind, ask; (destruct (readdir (fs n) dir) as [ch|e]; [|cbn; lia]).
  - match goal with |- context [each_child _ _ ?s] => pose proof (each_child_asks s key dir ch left (S n) ltac:(intros; cbn; lia)) as H end. destruct (each_child _ _ _ _ _ _ _ _) as [[[a y]|e] n']; lia.
  - pose proof (each_child_asks (visit_path fuel key) key dir ch left (S n) IH) as H. destruct (each_child _ _ _ _ _ _ _ _) as [[[a y]|e] n']; lia.
Qed.

Lemma scan_paths_asks key l left n : Z.of_nat (scan_paths path_join fs key l left n).2 <= Z.of_nat n + 2 * Z.of_nat (length l) + room left.
Proof.
  revert left n. induction l as [|p l IH]; intros left n; cbn [scan_paths length]; [cbn; lia|]. unfold mbind, SE_bind, ask. destruct (stat (fs n) p) as [s|e]; [|cbn; lia].
  destruct (isFile s && same_key key s); [cbn; lia|]. destruct (isDirectory s); [|specialize (IH left (S n)); lia].
  pose proof (visit_path_asks (Z.to_nat left) key p left (S n)) as H. destruct (visit_path _ _ _ _ _) as [[[a y]|e] n']; [|cbn; lia].
  cbn [fst snd]. destruct a; [cbn; lia|]. specialize (IH y n'). lia.
Qed.

Lemma each_name_asks sub key names dir below l left n :
  (forall p b x n, match sub p b x n with (Ok w, n') => Z.of_nat n' + room (budget w) <= Z.of_nat n + 1 + room x | (Err _, n') => Z.of_nat n' <= Z.of_nat n + 1 + room x end) ->
  match each_name sub key names dir below l left n with
  | (Ok w, n') => Z.of_nat n' + room (budget w) <= Z.of_nat n + room left
  | (Err _, n') => Z.of_nat n' <= Z.of_nat n + room left
  end.
Proof.
  intros Hs. revert left n. induction l as [|d l IH]; intros left n; cbn [PathResolve.each_name]; [cbn; lia|].
  destruct (Z.leb_spec left 0) as [Hle|Hle]; [cbn; lia|]. cbv zeta. unfold mbind at 1, SE_bind at 1. cbv beta.
  match goal with |- context [?f n] => match f with context [if d_isDirectory d then _ else _] => set (m := f n) end end.
  assert (Hm : match m with | (Ok w, n') => Z.of_nat n' + room (budget w) <= Z.of_nat n + room left | (Err _, n') => Z.of_nat n' <= Z.of_nat n + room left end).
  { subst m. destruct (d_isDirectory d).
    - match goal with |- context [sub ?p ?b _ _] => specialize (Hs p b (left - 1) n) end. destruct (sub _ _ _ n) as [[w|e] n']; lia.
    - destruct (_ && d_isFile d); [|cbn; lia]. unfold mbind, SE_bind, attempt, ask. destruct (stat _ _); cbn; lia. }
  clearbody m. destruct m as [[w|e] n1]; [|exact Hm]. destruct (found w || overflow w); [exact Hm|].
  specialize (IH (budget w) n1). destruct (each_name _ _ _ _ _ _ (budget w) n1) as [[w'|e'] n2]; lia.
Qed.

Lemma visit_names_asks fuel key names dir below left n :
  match visit_names fuel key names dir below left n with
  | (Ok w, n') => Z.of_nat n' + room (budget w) <= Z.of_nat n + 1 + room left
  | (Err _, n') => Z.of_nat n' <= Z.of_nat n + 1 + room left
  end.
Proof.
  revert dir below left n. induction fuel as [|fuel IH]; intros dir below left n; cbn [PathResolve.visit_names]; unfold mbind, SE_bind, attempt, ask; (destruct (readdir (fs n) dir) as [ch|e]; [|cbn; lia]).
  - match goal with |- context [each_name ?s] => pose proof (each_name_asks s key names dir below ch left (S n) ltac:(intros; cbn; lia)) as H end.
    destruct (each_name _ _ _ _ _ _ _ _) as [[w|e] n']; lia.
  - pose proof (each_name_asks (visit_names fuel key names) key names dir below ch left (S n) ltac:(intros; apply IH)) as H.
    destruct (each_name _ _ _ _ _ _ _ _) as [[w|e] n']; lia.
Qed.

Lemma scan_roots_asks key names l seen left n :
  Z.of_nat (scan_roots toLowerCase toUpperCase NFC path_join fs key names l seen left n).2 <= Z.of_nat n + Z.of_nat (length l) + room left.
Proof.
  revert seen left n. induction l as [|r l IH]; intros seen left n; cbn [scan_roots length]; [cbn; lia|]. destruct (existsb _ _); [specialize (IH seen left n); lia|].
  unfold mbind, SE_bind. match goal with |- context [visit_names ?f ?k ?ns ?d ?b ?x n] => pose proof (visit_names_asks f k ns d b x n) as H end.
  destruct (visit_names _ _ _ _ _ _ n) as [[w|e] n']; [|cbn; lia]. destruct (found w); [cbn; lia|]. destruct (overflow w); [cbn; lia|].
  specialize (IH (rr_real r :: seen) (budget w) n'). lia.
Qed.

Lemma resolve_here_asks w cur tail n : ((resolve_here dirname fs w cur tail n).2 <= n + 3)%nat.
Proof.
  unfold resolve_here, mbind, SE_bind, ask. destruct (realpath _ _); [|cbn; lia]. destruct (stat _ _); [|cbn; lia]. destruct (_ && _); [cbn; lia|].
  destruct (_ =? 0); [cbn; lia|]. destruct (bool_decide (tail = []) && _); [|cbn; lia]. destruct (stat _ _); cbn; lia.
Qed.
Lemma resolveReal_asks w fuel cur tail n : ((resolveReal fuel w cur tail n).2 <= n + 4 * fuel)%nat.
Proof.
  revert cur tail n. induction fuel as [|fuel IH]; intros cur tail n; cbn [PathResolve.resolveReal]; [cbn; lia|].
  unfold mbind, SE_bind, attempt. pose proof (resolve_here_asks w cur tail n) as Hh. destruct (resolve_here dirname fs w cur tail n) as [r n1]. cbn [snd] in Hh.
  destruct r as [[t|e]|e]; [cbn; lia..|]. destruct e; try (cbn; lia). cbn [ask]. unfold ask. destruct (lstat _ _) as [[]|]; [cbn; lia|..].
  all: destruct (bool_decide _); [cbn; lia|]. all: etrans; [apply IH|lia].
Qed.

(** (C16) Canonicalisation ends: whatever the file system answers, at every moment, and whatever the input and the
    options are, it gives a path or one of the typed refusals. Resolving a path asks at most four questions for each
    of its characters and eight more, since each parent is shorter. The scan for protected paths asks at most twice for
    each path and once for each entry under its cap, the scan for protected names once for each root and once for each
    entry under its cap; and it is the cap that stops a walk, never the depth it may go to: with any larger depth
    each walk gives the same answer. *)
Theorem canonicalisePath_ends : parents_shrink ->
  (forall input o n, (canonicalisePath input o n).1 <> Err OutOfFuel) /\
  (forall w p n, (n <= (resolve_path w p n).2 <= n + 4 * (length p + 2))%nat) /\
  (forall key paths cap n, Z.of_nat (pathEntryAlias path_join fs key paths cap n).2 <= Z.of_nat n + 2 * Z.of_nat (length paths) + Z.max cap 0) /\
  (forall key rs names cap n, Z.of_nat (nameEntryAlias toLowerCase toUpperCase NFC path_join fs key rs names cap n).2 <= Z.of_nat n + Z.of_nat (length rs) + Z.max cap 0) /\
  (forall deeper key names dir below left n, (Z.to_nat left <= deeper)%nat ->
     visit_path (Z.to_nat left) key dir left n = visit_path deeper key dir left n /\
     visit_names (Z.to_nat left) key names dir below left n = visit_names deeper key names dir below left n).
Proof.
  intros H. split_and!.
  - intros input o n. unfold PathResolve.canonicalisePath. apply canonicalise_from_ends; [done|].
    destruct (cwd o) as [c|]; [|ends_tac]. apply ends_bind; [|ends_tac]. apply canonicalise_from_ends; [done|ends_tac].
  - intros w p n. split; [apply resolveReal_later|]. etrans; [apply resolveReal_asks|lia].
  - intros key paths cap n. unfold pathEntryAlias, catch. pose proof (scan_paths_asks key paths cap n) as Ha. by destruct (scan_paths _ _ _ _ _ n) as [[a|e] n'].
  - intros key rs names cap n. apply scan_roots_asks.
  - intros deeper key names dir below left n Hd. split; [by apply visit_path_fuel|by apply visit_names_fuel].
Qed.
End files.
