(* ===== verification/PathsRun.v ===== *)
(** * Path policy: runs

    The properties of Paths and PathResolve at concrete inputs: a small file system
    with one project root, ASCII case folding, and a [dirname] that cuts at the last
    separator. *)

From S2P Require Import Prelude NetIp Paths PathsSpec PathResolve PathResolveSpec.

(** ** A small machine *)

Notation lower := (map (fun x => if (65 <=? x) && (x <=? 90) then x + 32 else x)).
Notation upper := (map ascii_upper).
Notation nfc := (fun s : text => s).

(** Up to the last separator: what is before it, the separator itself at the start, or ".". *)
Fixpoint cut_last (c : Z) (l : text) : option text :=
  match l with
  | [] => None
  | x :: r => match cut_last c r with
              | Some p => Some (x :: p)
              | None => if x =? c then Some [] else None
              end
  end.

Definition dir_of (w : bool) (p : text) : text :=
  let sep := if w then BACK else SLASH in
  match cut_last sep p with None => [DOT] | Some [] => [sep] | Some q => q end.

Definition base_of (w : bool) (p : text) : text := default [] (list.last (split_at (if w then BACK else SLASH) p)).
Definition join_of (a b : text) : text := a ++ SLASH :: b.
Notation root_of := (fun (w : bool) (p : text) => [SLASH]).
Notation self := (fun (w : bool) (p : text) => p).

Lemma cut_last_shorter c l p : cut_last c l = Some p -> (length p < length l)%nat.
Proof.
  revert p. induction l as [|x l IH]; intros p; [done|]. cbn. destruct (cut_last c l) as [q|].
  - intros [= <-]. cbn. specialize (IH q eq_refl). lia.
  - destruct (x =? c); [|done]. intros [= <-]. cbn. lia.
Qed.

Lemma cut_last_single c x : cut_last c [x] = Some [] -> x = c.
Proof. cbn. by destruct (Z.eqb_spec x c). Qed.

Lemma dir_of_shrinks : parents_shrink dir_of.
Proof.
  intros w. split; [by destruct w|]. intros p. unfold dir_of.
  destruct (cut_last _ p) as [q|] eqn:E; [|by right; right]. pose proof (cut_last_shorter _ _ _ E) as Hl.
  destruct q as [|x q]; [|right; left; exact Hl].
  destruct p as [|x [|y p]]; [cbn in Hl; lia| |right; left; cbn; lia].
  apply cut_last_single in E as ->. by left.
Qed.

(** ** A small file system *)

Definition dir_stat (i : Z) : Stat := {| st_dev := 1; st_ino := i; st_birth := 0; st_nlink := 2; isDirectory := true; isFile := false |}.
Definition file_stat (i links : Z) : Stat := {| st_dev := 1; st_ino := i; st_birth := 9; st_nlink := links; isDirectory := false; isFile := true |}.

(** Below /home/u: the project /home/u/p with a.txt, whose link count is given. *)
Definition table (links : Z) : list (text * Stat) :=
  [(lit "/", dir_stat 2); (lit "/home", dir_stat 3); (lit "/home/u", dir_stat 4); (lit "/home/u/p", dir_stat 5);
   (lit "/home/u/p/a.txt", file_stat 7 links)].

Definition find_stat (links : Z) (p : text) : result Errno Stat :=
  match bfind (fun e => bool_decide (e.1 = p)) (table links) with Some e => Ok e.2 | None => Err ENOENT end.

Definition calm (links : Z) : Moment := {|
  realpath p := match find_stat links p with Ok _ => Ok p | Err e => Err e end;
  stat := find_stat links;
  lstat p := match find_stat links p with Ok _ => Ok false | Err e => Err e end;
  readdir p := if bool_decide (p = lit "/home/u/p") then Ok [{| d_name := lit "a.txt"; d_isDirectory := false; d_isFile := true |}] else Err ENOTDIR;
  open_file p f := match find_stat links p with Ok _ => Ok 3%nat | Err e => if o_creat f then Ok 4%nat else Err e end;
  fstat fd := Ok (file_stat (if Nat.eqb fd 3 then 7 else 8) links);
  fd_link fd := Some (lit (if Nat.eqb fd 3 then "/home/u/p/a.txt" else "/home/u/p/new.txt"))
|}.

Definition project : PathRoot := {| root_id := "proj"; root_path := lit "/home/u/p"; root_identity := Some {| dev := 1; ino := 5; birth := None |} |}.

Definition options (mode : AccessMode) (base : option text) : CanonicaliseOptions := {|
  platform := Linux; windowsRules := None; cwd := base; roots := [project];
  o_deny := Some (Some [RawName (Some (lit ".env")); RawPath (Some (lit "/home/u/.ssh"))]);
  o_access := Some mode; requireRoot := None; allowUnc := None; home := Some (lit "/home/u"); scanCap := None |}.

Notation run_path := (canonicalisePath lower upper nfc dir_of base_of join_of root_of self).
Notation quiet := (fun _ : nat => calm 1).

Definition canonical_file (mode : AccessMode) : CanonicalPath := {|
  canonical_path := lit "/home/u/p/a.txt"; rootId := Some "proj"%string; c_exists := true; identity := {| dev := 1; ino := 7; birth := Some 9 |};
  c_parentIdentity := {| dev := 1; ino := 5; birth := None |}; c_hardLinked := false; denyGuarded := true; systemTree := false; access := mode |}.

(** A relative path is resolved below its base, and the project's root contains it. *)
Example relative_resolves : (run_path quiet (lit "/root") (Some (lit "./a.txt")) (options Writing (Some (lit "/home/u/p")))  0%nat).1 = Ok (canonical_file Writing).
Proof. vm_compute. reflexivity. Qed.

(** Denied names are refused in any case, and dot-dot even inside the root. *)
Example deny_any_case : (run_path quiet (lit "/root") (Some (lit "/home/u/p/.ENV")) (options Reading None)  0%nat).1 = Err (Refused deny_listed).
Proof. vm_compute. reflexivity. Qed.
Example dot_dot_refused : (run_path quiet (lit "/root") (Some (lit "/home/u/p/../p/a.txt")) (options Reading None)  0%nat).1 = Err (Refused dot_dot).
Proof. vm_compute. reflexivity. Qed.
(** Two links: a scan of the deny-list finds no protected twin, but a write is still refused. *)
Example linked_write_refused : (run_path (fun _ => calm 2) (lit "/root") (Some (lit "/home/u/p/a.txt")) (options Writing None)  0%nat).1 = Err (Refused hard_link).
Proof. vm_compute. reflexivity. Qed.
Example missing_below_root : (run_path quiet (lit "/root") (Some (lit "/home/u/p/x/new.txt")) (options Writing None)  0%nat).1 =
  Ok {| canonical_path := lit "/home/u/p/x/new.txt"; rootId := Some "proj"%string; c_exists := false; identity := {| dev := 1; ino := 5; birth := None |};
        c_parentIdentity := {| dev := 1; ino := 5; birth := None |}; c_hardLinked := false; denyGuarded := true; systemTree := false; access := Writing |}.
Proof. vm_compute. reflexivity. Qed.

(** ** Witnesses *)

Notation c_x_y := {| s_windows := true; s_unc := false; s_drive := Some 67; segments := [lit "x"; lit "y"]; absolute := true |}.

Lemma syntax_round_trip_witness :
  checkSyntax lower true false (Some (lit "c:/x\.\y")) = Ok c_x_y /\ assemble c_x_y = lit "C:\x\y" /\
  checkSyntax lower true false (Some (assemble c_x_y)) = Ok c_x_y.
Proof. split; [reflexivity|]. split; [reflexivity|]. apply (syntax_round_trip lower true false (lit "c:/x\.\y")); reflexivity. Defined.

Lemma grant_below_is_clear_witness : isSystemTreePath lower upper nfc (lit "/srv/data/x") false [lit "/home/u"] = false.
Proof. apply (grant_below_is_clear lower upper nfc false [lit "/home/u"] (lit "/srv/data") (lit "/srv/data/x") [lit "x"]); [discriminate|reflexivity|reflexivity]. Defined.

Lemma canonicalisePath_ends_witness :
  parents_shrink dir_of /\ (run_path quiet (lit "/root") (Some (lit "/no/such/path")) (options Reading None)  0%nat).1 <> Err OutOfFuel.
Proof.
  split; [exact dir_of_shrinks|].
  destruct (canonicalisePath_ends lower upper nfc dir_of base_of join_of root_of self quiet (lit "/root") dir_of_shrinks) as (H & _). apply H.
Defined.

Lemma resolution_observed_witness : exists t n', resolve_path dir_of base_of quiet false (lit "/home/u/p/x/new") 0%nat = (Ok t, n') /\
  observed dir_of quiet false (lit "/home/u/p/x/new") 0%nat n' t.
Proof.
  eexists _, _. split; [vm_compute; reflexivity|]. apply (resolution_observed dir_of base_of quiet false (lit "/home/u/p/x/new") 0%nat).
  vm_compute. reflexivity.
Defined.

Lemma canonicalise_sound_witness : exists n', sound lower upper nfc dir_of base_of join_of root_of self quiet (lit "/root") (Some (lit "./a.txt")) (options Writing (Some (lit "/home/u/p"))) 0%nat n' (canonical_file Writing).
Proof.
  eexists. eapply (canonicalise_sound lower upper nfc dir_of base_of join_of root_of self quiet (lit "/root") (Some (lit "./a.txt")) _ 0%nat).
  vm_compute. reflexivity.
Defined.

Definition read_write : OpenFlags := {| o_wr := true; o_creat := false; o_excl := false; o_nofollow := false |}.
Definition start : Handles := {| clock := 0; opened := [9%nat] |}.

Lemma openVerified_sound_witness : exists h', openVerified dir_of quiet Linux (canonical_file Writing) read_write start = (Ok 3%nat, h') /\ opened h' = [3%nat; 9%nat] /\
  parent_unchanged dir_of quiet false (canonical_file Writing) 0 /\ exists k, (1 < k)%nat /\ handle_checked dir_of quiet Linux (canonical_file Writing) true 3 (S k) (clock h').
Proof.
  eexists. split; [vm_compute; reflexivity|].
  destruct (openVerified_sound dir_of quiet Linux (canonical_file Writing) read_write start 3 {| clock := 7; opened := [3%nat; 9%nat] |}) as (Ho & _ & Hp & k & g & Hk & _ & _ & _ & _ & _ & Hc);
    [vm_compute; reflexivity|]. split; [exact Ho|]. split; [exact Hp|]. exists k. exact (conj Hk Hc).
Defined.

(** The file gained a link between the check and the open. *)
Lemma openVerified_closes_witness : exists h', openVerified dir_of (fun _ => calm 2) Linux (canonical_file Writing) read_write start = (Err (Refused hard_link), h') /\
  opened h' = [9%nat].
Proof.
  eexists. split; [vm_compute; reflexivity|].
  eapply (openVerified_closes dir_of (fun _ => calm 2) Linux (canonical_file Writing) read_write start). vm_compute. reflexivity.
Defined.

Lemma scan_depth_enough_witness : visit_path join_of quiet (Z.to_nat 5) (1, 7) (lit "/home/u/p") 5 0%nat = (Ok (Some IsAlias, 4), 2%nat) /\
  visit_path join_of quiet (Z.to_nat 5) (1, 7) (lit "/home/u/p") 5 0%nat = visit_path join_of quiet 9 (1, 7) (lit "/home/u/p") 5 0%nat.
Proof.
  split; [reflexivity|]. apply (scan_depth_enough lower upper nfc join_of quiet 9 (1, 7) [] (lit "/home/u/p") false 5 0%nat). cbn. lia.
Defined.
