(* ===== verification/GrantPaths.v ===== *)
(** * Path grants and the path policy together

    The grant store's path checks, taken from the path policy: the syntax rules and the
    test for system trees of [policy/paths.ts], as [grants/store.ts] calls them on
    POSIX. What the evaluator's path coverage lets a stored grant reach is then clear
    of system trees. *)

From S2P Require Import Prelude PolicyCaps PolicyDecide PolicyMatchers ApprovalChain ApprovalChainSpec Grants GrantsSpec NetIp Paths PathsSpec PathsRun.
From Stdlib Require Import Ascii.

(** ** Two ways to cut a path into segments *)

Lemma code_inj c d : code c = code d -> c = d.
Proof. unfold code. intros H%Nat2Z.inj. by rewrite <- (Ascii.ascii_nat_embedding c), H, Ascii.ascii_nat_embedding. Qed.

Lemma map_code_nil l : map code l = [] <-> l = [].
Proof. by destruct l. Qed.

Notation filled := (bfilter (fun x : text => negb (bool_decide (x = [])))).

(** The evaluator's pieces, as code points, are the non-empty parts between slashes. *)
Lemma pieces_split cur p :
  map (map code) (pieces is_slash cur p) =
  filled (match split_at SLASH (map code p) with h :: t => (map code (reverse cur) ++ h) :: t | [] => [] end).
Proof.
  revert cur. induction p as [|c p IH]; intros cur.
  - cbn. case_decide as Hc; [by subst|]. cbn. rewrite app_nil_r, bool_decide_eq_false_2; [done|].
    intros E%map_code_nil. by apply (reverse_not_nil cur).
  - cbn [pieces map split_at]. pose proof (split_at_ne SLASH (map code p)) as Hne.
    destruct (is_slash c) eqn:Hc.
    + apply Ascii.eqb_eq in Hc as ->. change (code "/"%char =? SLASH) with true.
      destruct (split_at SLASH (map code p)) as [|h t] eqn:Hs; [done|].
      case_decide as Hcur.
      * subst. rewrite IH. done.
      * cbn [map]. rewrite IH. unfold bfilter. cbn [List.filter]. rewrite app_nil_r.
        rewrite (bool_decide_eq_false_2 (map code (reverse cur) = [])); [reflexivity|].
        intros E%map_code_nil. by apply (reverse_not_nil cur).
    + assert (code c =? SLASH = false) as ->.
      { apply Z.eqb_neq. intros E. apply Ascii.eqb_neq in Hc. apply Hc. by apply code_inj. }
      rewrite IH. destruct (split_at SLASH (map code p)) as [|h t]; [done|].
      by rewrite reverse_cons, map_app, <- app_assoc.
Qed.

(** ** The store over the path policy *)

Section unicode.
Context (toLowerCase toUpperCase NFC : text -> text) (homes : list text).

(** [checkSyntax(m.path, ...)]: refused, or whether the path is absolute. *)
(* @src grants/store.ts 291 293 create *)
Definition grant_syntax (p : string) : option bool :=
  match checkSyntax toLowerCase false false (Some (lit p)) with Ok s => Some (absolute s) | Err _ => None end.

(* @src grants/store.ts 299 299 create *)
Definition grant_reaches (p : string) (recursive : bool) : bool := grantReachesSystemTree toLowerCase toUpperCase NFC (lit p) recursive false homes.

Notation foldSegments := (foldSegments toLowerCase toUpperCase NFC).

Lemma grant_syntax_posix p : grant_syntax p = Some true -> exists r, chars p = "/"%char :: r.
Proof.
  unfold grant_syntax. destruct (checkSyntax _ _ _ _) as [s|] eqn:H; [|done]. intros [= Ha].
  apply syntax_ok_iff in H as (_ & _ & _ & rest & Hr & _). unfold prefix_of in Hr. destruct (existsb _ _); [done|].
  injection Hr as _ _ _ Hs. rewrite Ha in Hs. unfold starts, lit in Hs. apply bool_decide_eq_true in Hs.
  destruct (chars p) as [|c r]; [done|]. injection Hs as Hc. exists r. f_equal. apply code_inj. by rewrite Hc.
Qed.

Lemma segments_fold p px segs : PolicyDecide.segments p = Some (px, segs) -> px = true ->
  foldSegments (lit p) false = map (fun s => foldForDeny toLowerCase toUpperCase NFC (map code s)) segs.
Proof.
  intros H ->. unfold PolicyDecide.segments in H. destruct (_ || _ || _); [done|].
  destruct (match chars p with c :: _ => is_slash c | [] => false end) eqn:Hp; cbv zeta in H.
  - destruct (existsb _ _); [done|]. injection H as <-. unfold Paths.foldSegments, lit.
    pose proof (pieces_split [] (chars p)) as Hc. pose proof (split_at_ne SLASH (map code (chars p))) as Hne.
    destruct (split_at SLASH (map code (chars p))) as [|h t]; [done|]. cbn [reverse map app] in Hc.
    change (map code (reverse []) ++ h) with h in Hc. rewrite <- Hc. by rewrite map_map.
  - by destruct (existsb _ _).
Qed.

(** Whatever a path covers recursively is as clear of system trees as the path itself. *)
Lemma covered_clear p t : grant_syntax p = Some true -> grant_reaches p true = false -> pathCovered p true t = true ->
  isSystemTreePath toLowerCase toUpperCase NFC (lit t) false homes = false.
Proof.
  intros Hs Hr Hc. apply pathCovered_spec in Hc as (px & gs & rest & Hg & Ht & _).
  assert (px = true) as Hpx.
  { destruct (grant_syntax_posix p Hs) as [r Hp]. unfold PolicyDecide.segments in Hg. rewrite Hp in Hg.
    destruct (_ || _ || _); [done|]. cbv zeta in Hg. destruct (existsb _ _); [done|]. by injection Hg as <- _. }
  apply (grant_clear _ _ _ false homes (lit p) (lit t) (map (fun s => foldForDeny toLowerCase toUpperCase NFC (map code s)) rest)); [done| |done].
  by rewrite (segments_fold t px _ Ht Hpx), (segments_fold p px _ Hg Hpx), map_app.
Qed.

(** ** What a created grant reaches *)

Context {Text : Type} `{EqDecision Text} (stringify : js -> Text) (parse : Text -> option js).
Context (hmac : string -> Z -> Z -> string -> string -> option string -> Text -> string) (tag : Z -> string -> string).
Context (verifySignature : string -> string -> string -> bool) (signer : option DecisionSigner).
Context {Rows : Type} `{GrantTable Rows} (clk : nat -> Z) (audit : option (list Event -> Event -> bool)).
Context (sha : Text -> string) (freshId : Z -> nat -> string).

Notation create := (create stringify parse hmac tag verifySignature signer clk audit grant_syntax grant_reaches sha freshId).

(** A recursive path grant that outlives a task cannot be made to reach a system tree: for every path the evaluator's
    coverage lets it stand for, that path is no home, no container of homes and in no system tree. Creation over the
    path policy refuses every other such grant. *)
Theorem lasting_grant_clear i (w w' : World Rows Event) s p a t :
  json_laws stringify parse -> create i w = (Ok s, w') -> g_match (grant s) = MPath p a true ->
  scopeRank Task < scopeRank (g_scope (grant s)) \/ g_surface (grant s) < 3 -> pathCovered p true t = true ->
  isSystemTreePath toLowerCase toUpperCase NFC (lit t) false homes = false.
Proof.
  intros J Hc Hm Hlast Hcov. destruct (create_ok _ _ _ _ _ _ _ _ _ _ _ _ i w w' s J Hc) as (d & now & row & e & w0 & Hi & Hrow & _ & _ & _ & _ & (h & q & -> & _) & _).
  assert (i_match i = MPath p a true) as Him by (rewrite <- Hm, Hrow; cbn; unfold row_match; cbn; by destruct (i_match i)).
  assert (g_scope (grant (toGrant (with_chain h q row))) = i_scope i /\ g_surface (grant (toGrant (with_chain h q row))) = i_surface i) as [Hsc Hsu] by (by rewrite Hrow).
  rewrite Hsc, Hsu in Hlast. destruct (io_path _ _ _ _ Hi p a true Him) as [Hsyn _ Hsys].
  apply (covered_clear p t Hsyn); [|done]. destruct (grant_reaches p true); [|done]. destruct (Hsys eq_refl). lia.
Qed.
End unicode.

(** ** A run *)

Notation posix_create := (create gr_stringify gr_parse gr_hmac gr_tag gr_verify None gr_clock gr_audit (grant_syntax lower) (grant_reaches lower upper nfc [lit "/home/u"]) gr_sha gr_fresh).

Definition path_input (p : string) : CreateGrantInput :=
  {| i_id := Some "g1"; i_capability := "fs.read"; i_person := "p1"; i_agent := "a1"; i_scope := Always; i_match := MPath p ARead true; i_createdBy := "p1";
     i_surface := 3; i_effect := None; i_expiresAt := None; i_actionHash := None; i_taskId := None; i_sessionId := None; i_projectId := None;
     i_jobId := None; i_delegable := false; i_acknowledgedUnsandboxed := false; i_attestedVia := None |}.

(** The directory above a home is refused, in any case. *)
Example above_home_refused : (posix_create (path_input "/HOME") gr_world).1 = Err (Own (Refused CeilingExceeded)).
Proof. vm_compute. reflexivity. Qed.

Lemma lasting_grant_clear_witness : exists s w', posix_create (path_input "/srv/data") gr_world = (Ok s, w') /\ g_scope (grant s) = Always /\
  pathCovered "/srv/data" true "/srv/data/a/b" = true /\ isSystemTreePath lower upper nfc (lit "/srv/data/a/b") false [lit "/home/u"] = false.
Proof.
  destruct (posix_create (path_input "/srv/data") gr_world) as [[s|x] w'] eqn:E;
    [|exfalso; assert (X : is_ok (posix_create (path_input "/srv/data") gr_world).1 = true) by (vm_compute; reflexivity); rewrite E in X; discriminate].
  assert (g_match (grant s) = MPath "/srv/data" ARead true /\ g_scope (grant s) = Always) as [Hm Hs].
  { assert (X : match (posix_create (path_input "/srv/data") gr_world).1 with
                | Ok s => g_match (grant s) = MPath "/srv/data" ARead true /\ g_scope (grant s) = Always | Err _ => True end)
      by (vm_compute; by split). by rewrite E in X. }
  exists s, w'. split; [reflexivity|]. split; [exact Hs|]. split; [reflexivity|].
  apply (lasting_grant_clear lower upper nfc [lit "/home/u"] gr_stringify gr_parse gr_hmac gr_tag gr_verify None gr_clock gr_audit gr_sha gr_fresh
           (path_input "/srv/data") gr_world w' s "/srv/data" ARead "/srv/data/a/b" gr_laws E Hm); [|reflexivity].
  left. rewrite Hs. reflexivity.
Defined.
