(* ===== verification/AuditChain.v ===== *)
(** * The audit chain

    Model of [packages/core/src/audit/chain.ts]: the hash-chained audit file with its
    anchor, rotation, recovery and verification. Files are byte lists in one directory;
    every operation that changes the disk is a step that can fail, and a write that
    fails leaves any prefix of its bytes, so a failure stands for a crash as well. The
    directory's lock serialises the calls; the lock, permissions, and what a power cut
    does to bytes not yet flushed are not modelled. *)

From S2P Require Import Prelude.
From Stdlib Require Import Ascii.

Notation bytes := (list Z).

(** ** Names and data *)

Definition LF : Z := 10.
Definition CR : Z := 13.

(* @src audit/chain.ts 18 18 GENESIS_HASH *)
Definition GENESIS_HASH : string := "0000000000000000000000000000000000000000000000000000000000000000".
(* @src audit/chain.ts 24 24 MAX_FINDINGS *)
Definition MAX_FINDINGS : nat := 50.
(* @src audit/chain.ts 26 26 REANCHORED_ACTION *)
Definition REANCHORED_ACTION : string := "audit.chain.reanchored".
(* @src audit/chain.ts 28 28 ANCHOR_ADVANCED_ACTION *)
Definition ANCHOR_ADVANCED_ACTION : string := "audit.chain.anchor-advanced".
(* @src audit/chain.ts 35 35 DEFAULT_MAX_BYTES *)
Definition DEFAULT_MAX_BYTES : Z := 8 * 1024 * 1024.

(** [/^[0-9a-f]{64}$/] *)
(* @src audit/chain.ts 23 23 HEX64 *)
Definition HEX64 (s : string) : bool :=
  Nat.eqb (String.length s) 64
  && forallb (fun c => let n := Ascii.nat_of_ascii c in (Nat.leb 48 n && Nat.leb n 57) || (Nat.leb 97 n && Nat.leb n 102)) (chars s).

(** [/^pre-reanchor-\d{1,16}$/] *)
(* @src audit/chain.ts 33 33 ASIDE_SUFFIX *)
Definition ASIDE_SUFFIX (s : string) : bool :=
  starts_with "pre-reanchor-" s
  && (let d := skipn 13 (chars s) in
      Nat.leb 1 (length d) && Nat.leb (length d) 16
      && forallb (fun c => let n := Ascii.nat_of_ascii c in Nat.leb 48 n && Nat.leb n 57) d).

(* @src audit/chain.ts 38 40 FindingCode *)
Inductive FindingCode : Type :=
| line_malformed | hash_mismatch | seq_gap | prefix_missing | file_name_mismatch | torn_tail
| anchor_missing | anchor_invalid | anchor_mismatch | truncated | pin_missing | pin_mismatch.

(** A file of the chain: the active one, a rotated one by the number in its name, the anchor. *)
Inductive FileName : Type := ActiveFile | RotatedFile (first : Z) | AnchorFile.

(* @src audit/chain.ts 41 41 Finding *)
Record Finding : Type := { f_code : FindingCode; f_file : FileName; f_line : option nat; f_seq : option Z }.
(* @src audit/chain.ts 42 42 AnchorStatus *)
Inductive AnchorStatus : Type := AMatch | ABehind | AAbsent | AInvalid | AAhead | AMismatch.
(* @src audit/chain.ts 44 44 ReanchorNote *)
Record ReanchorNote : Type := { n_seq : Z; n_file : FileName; n_line : nat; n_at : option Z; n_suffix : option string }.
(* @src audit/chain.ts 46 56 PreviousChain *)
Record PreviousChain : Type := {
  pc_suffix : string; announced : bool; pc_files : nat; pc_records : nat; pc_lastSeq : Z; pc_lastHash : option string;
  pc_intact : bool; firstBreak : option Finding; pc_anchor : AnchorStatus * option Z
}.
(* @src audit/chain.ts 57 65 VerifyResult *)
Record VerifyResult : Type := {
  v_ok : bool; v_records : nat; v_files : nat; v_lastSeq : Z; v_lastHash : option string; v_anchor : AnchorStatus * option Z;
  v_findings : list Finding; v_findingsTotal : nat; v_reanchors : list ReanchorNote; v_previous : list PreviousChain
}.
(* @src audit/chain.ts 76 76 AuditPin *)
Record AuditPin : Type := { pin_seq : Z; pin_hash : string }.
(** An event as it is handed in; its fields may hold anything. *)
(* @src audit/chain.ts 77 77 ChainRecord *)
Record ChainRecord : Type := { e_at : js; e_actor : js; e_action : js; e_target : js; e_detail : js }.
(* @src audit/chain.ts 111 111 Parsed *)
Record Parsed : Type := { p_seq : Z; p_prev : string; p_reanchor : option (option Z * option string) }.
(* @src audit/chain.ts 192 192 Anchor *)
Record Anchor : Type := { a_seq : Z; a_hash : string }.
(* @src audit/chain.ts 193 193 AnchorRead *)
Inductive AnchorRead : Type := NoAnchor | BadAnchor | TheAnchor (a : Anchor).
(* @src audit/chain.ts 204 204 Tail *)
Record Tail : Type := { t_seq : Z; t_hash : string; t_prev : string }.
(** Why an append is refused, and an operation that failed. *)
Inductive ChainFault : Type :=
| InvalidEvent | InvalidPin | AnchorIsInvalid | AnchorIsMissing | ShorterThanAnchor | TailMismatch | TailMalformed | RotationTargetExists | Unserialisable | Failed.
(* @src audit/chain.ts 214 214 Verdict *)
Inductive Verdict : Type := Agree | Advance | Refuse (why : ChainFault).

(** A chain set aside: its suffix, its files (rotated by number, then the active one), its anchor. *)
Record Aside : Type := { as_suffix : string; as_files : list (option Z * bytes); as_anchor : option bytes }.

(** The directory. Rotated files are in the order of their names; [evidence] is the unterminated tails that
    were moved away, [asides] the chains set aside in the order of their suffixes. *)
Record Disk : Type := {
  active : option bytes; rotated : list (Z * bytes); anchor : option bytes; anchor_tmp : option bytes; evidence : list bytes; asides : list Aside
}.

(** ** Reading files *)

(** [chunk.lastIndexOf(0x0a)] *)
Fixpoint last_nl (l : bytes) : option nat :=
  match l with
  | [] => None
  | x :: r => match last_nl r with Some i => Some (S i) | None => if x =? LF then Some O else None end
  end.

(** [chunk.indexOf(0x0a)] *)
Fixpoint first_nl (l : bytes) : option nat :=
  match l with [] => None | x :: r => if x =? LF then Some O else S <$> first_nl r end.

Definition CHUNK : nat := Z.to_nat 65536.

(** Offset of the last newline strictly before [pos], read backwards in chunks. *)
(* @src audit/chain.ts 146 157 findNlBack *)
Fixpoint findNlBack (fuel chunk : nat) (file : bytes) (pos : nat) : option nat :=
  match fuel with
  | O => None
  | S fuel =>
      if Nat.eqb pos 0 then None
      else
        let n := Nat.min chunk pos in
        let pos := (pos - n)%nat in
        match last_nl (take n (drop pos file)) with
        | Some i => Some (pos + i)%nat
        | None => findNlBack fuel chunk file pos
        end
  end.

(* @src audit/chain.ts 134 134 stripCr *)
Definition stripCr (s : bytes) : bytes := match list.last s with Some x => if x =? CR then take (length s - 1) s else s | None => s end.

(** Whole-file read: the complete lines, and an unterminated tail if any. *)
(* @src audit/chain.ts 137 143 readLines *)
Definition readLines (text : bytes) : list bytes * option bytes :=
  match reverse (split_at LF text) with
  | [] => ([], None)
  | last :: parts => (map stripCr (reverse parts), if bool_decide (last = []) then None else Some last)
  end.

(** The last complete line, and where an unterminated tail starts. *)
(* @src audit/chain.ts 160 173 scanTail *)
Definition scanTail (chunk : nat) (file : bytes) : option bytes * option nat :=
  let size := length file in
  if Nat.eqb size 0 then (None, None)
  else
    let back pos := findNlBack (S pos) chunk file pos in
    match back size with
    | None => (None, Some O)
    | Some lastNl =>
        let start := match back lastNl with Some prevNl => S prevNl | None => O end in
        (Some (stripCr (take (lastNl - start) (drop start file))), if Nat.ltb (S lastNl) size then Some (S lastNl) else None)
    end.

(** The bytes read so far, a chunk at a time, until one of them is a newline. *)
(* @src audit/chain.ts 175 188 firstLine *)
Fixpoint first_line (fuel chunk : nat) (file acc : bytes) (pos : nat) : option bytes :=
  match fuel with
  | O => None
  | S fuel =>
      let got := take chunk (drop pos file) in
      if bool_decide (got = []) then None
      else
        let acc := acc ++ got in
        match first_nl acc with
        | Some i => Some (stripCr (take i acc))
        | None => first_line fuel chunk file acc (pos + length got)
        end
  end.

Definition firstLine (chunk : nat) (file : bytes) : option bytes := first_line (S (length file)) chunk file [] 0.

Section chain.
(** [JSON.stringify] and [JSON.parse] over the bytes of a line, the digest of a line's bytes, the redactor of details
    (which throws for what JSON cannot hold), and the process that writes. *)
Context (stringify : js -> bytes) (json_parse : bytes -> option js) (hashLine : bytes -> string) (redact : js -> option js).
Context (maxBytes : Z) (chunk : nat) (clk : nat -> Z) (actorOfThisProcess : js).

(** ** Lines and the anchor *)

(* @src audit/chain.ts 88 96 assertRecordable *)
Definition assertRecordable (e : ChainRecord) : bool :=
  match e_at e with JNum (Fin z) => 0 <=? z | _ => false end
  && js_is_obj (e_actor e) && js_is_str (jget "user" (e_actor e)) && js_is_str (jget "host" (e_actor e))
  && js_is_str (e_action e) && (js_is_str (e_target e) || bool_decide (e_target e = JNull)) && js_is_obj (e_detail e).

(* @src audit/chain.ts 112 132 parse *)
Definition parse (line : bytes) : option Parsed :=
  match json_parse line with
  | Some (JObj fs) =>
      let o := JObj fs in
      let rec := jget "rec" o in
      match jget "seq" o, jget "prev" o with
      | JNum n, JStr prev =>
          if negb (num_safe n) || num_ltb n (Fin 1) || negb (HEX64 prev) || negb (js_is_obj rec) then None
          else
            Some {| p_seq := match n with Fin z => z | _ => 0 end; p_prev := prev;
                    p_reanchor :=
                      if bool_decide (jget "action" rec = JStr REANCHORED_ACTION)
                      then Some (match jget "at" rec with JNum (Fin z) => Some z | _ => None end,
                                 match jget "asideSuffix" (jget "detail" rec) with JStr s => if ASIDE_SUFFIX s then Some s else None | _ => None end)
                      else None |}
      | _, _ => None
      end
  | _ => None
  end.

(* @src audit/chain.ts 194 201 readAnchor *)
Definition readAnchor (file : option bytes) : AnchorRead :=
  match file with
  | None => NoAnchor
  | Some b =>
      match json_parse b with
      | Some v =>
          match jget "v" v, jget "seq" v, jget "hash" v with
          | JNum (Fin 1), JNum n, JStr h => if num_safe n && negb (num_ltb n (Fin 1)) && HEX64 h then TheAnchor {| a_seq := match n with Fin z => z | _ => 0 end; a_hash := h |} else BadAnchor
          | _, _, _ => BadAnchor
          end
      | None => BadAnchor
      end
  end.

(* @src audit/chain.ts 215 222 judge *)
Definition judge (st : Tail) (a : AnchorRead) : Verdict :=
  match a with
  | BadAnchor => Refuse AnchorIsInvalid
  | NoAnchor => if t_seq st =? 0 then Agree else Refuse AnchorIsMissing
  | TheAnchor a =>
      if t_seq st <? a_seq a then Refuse ShorterThanAnchor
      else if (a_seq a =? t_seq st) && String.eqb (a_hash a) (t_hash st) then Agree
      else if (t_seq st =? a_seq a + 1) && String.eqb (t_prev st) (a_hash a) then Advance
      else Refuse TailMismatch
  end.

(** ** The disk, step by step *)

Record World : Type := { disk : Disk; ticks : nat; fuse : option nat; part : nat }.
Notation M := (SE World ChainFault).

(** One operation on the disk: it is done, or it fails having done some of it. *)
Definition step (whole broken : Disk -> Disk) : M unit := fun w =>
  match fuse w with
  | Some O => (Err Failed, {| disk := broken (disk w); ticks := ticks w; fuse := fuse w; part := part w |})
  | Some (S n) => (Ok tt, {| disk := whole (disk w); ticks := ticks w; fuse := Some n; part := part w |})
  | None => (Ok tt, {| disk := whole (disk w); ticks := ticks w; fuse := None; part := part w |})
  end.

Definition now : M Z := fun w => (Ok (clk (ticks w)), {| disk := disk w; ticks := S (ticks w); fuse := fuse w; part := part w |}).

Definition set_active (b : option bytes) (d : Disk) : Disk :=
  {| active := b; rotated := rotated d; anchor := anchor d; anchor_tmp := anchor_tmp d; evidence := evidence d; asides := asides d |}.
Definition set_rotated (l : list (Z * bytes)) (d : Disk) : Disk :=
  {| active := active d; rotated := l; anchor := anchor d; anchor_tmp := anchor_tmp d; evidence := evidence d; asides := asides d |}.
Definition set_tmp (b : option bytes) (d : Disk) : Disk :=
  {| active := active d; rotated := rotated d; anchor := anchor d; anchor_tmp := b; evidence := evidence d; asides := asides d |}.
Definition set_anchor (b : option bytes) (d : Disk) : Disk :=
  {| active := active d; rotated := rotated d; anchor := b; anchor_tmp := anchor_tmp d; evidence := evidence d; asides := asides d |}.
Definition add_evidence (b : bytes) (d : Disk) : Disk :=
  {| active := active d; rotated := rotated d; anchor := anchor d; anchor_tmp := anchor_tmp d; evidence := evidence d ++ [b]; asides := asides d |}.

(** [ROTATED]: ten digits in the name. *)
Definition listed (n : Z) : bool := n <? 10000000000.

(* @src audit/chain.ts 254 257 rotatedFiles *)
Definition rotatedFiles (d : Disk) : list (Z * bytes) := bfilter (fun f => listed f.1) (rotated d).

(** The files a writer looks at, the newest first. *)
Definition candidates (d : Disk) : list (option Z * bytes) :=
  match active d with Some b => [(None, b)] | None => [] end ++ map (fun f => (Some f.1, f.2)) (reverse (rotatedFiles d)).

(** Cut a file back to [k] bytes. *)
Definition cut (f : option Z) (k : nat) (d : Disk) : Disk :=
  match f with
  | None => set_active (take k <$> active d) d
  | Some n => set_rotated (map (fun g => if g.1 =? n then (g.1, take k g.2) else g) (rotated d)) d
  end.

(** The evidence of an interrupted write, then the file without it. *)
(* @src audit/chain.ts 327 339 tailState *)
Definition move_torn (f : option Z) (b : bytes) (k : nat) : M unit :=
  w ← gets id;
  step (add_evidence (drop k b)) (add_evidence (take (part w) (drop k b))) ;;
  step (cut f k) id.

(* @src audit/chain.ts 322 346 tailState *)
Fixpoint tail_of (l : list (option Z * bytes)) : M Tail :=
  match l with
  | [] => mret {| t_seq := 0; t_hash := GENESIS_HASH; t_prev := GENESIS_HASH |}
  | (f, b) :: r =>
      let t := scanTail chunk b in
      last ← match t.2 with
             | Some k => move_torn f b k ;; mret (scanTail chunk (take k b)).1
             | None => mret t.1
             end;
      match last with
      | None => tail_of r
      | Some line =>
          match parse line with
          | None => throw TailMalformed
          | Some p => mret {| t_seq := p_seq p; t_hash := hashLine line; t_prev := p_prev p |}
          end
      end
  end.

(* @src audit/chain.ts 322 346 tailState *)
Definition tailState : M Tail := w ← gets id; tail_of (candidates (disk w)).

(** The line before the newest one, across the files. *)
(* @src audit/chain.ts 349 357 lineBeforeTailHashes *)
Definition lineBeforeTailHashes (d : Disk) (expected : string) : bool :=
  match concat (map (fun f => reverse (readLines f.2).1) (candidates d)) with
  | _ :: l :: _ => String.eqb (hashLine l) expected
  | _ => false
  end.

(** ** Writing *)

Fixpoint insert_rotated (n : Z) (b : bytes) (l : list (Z * bytes)) : list (Z * bytes) :=
  match l with [] => [(n, b)] | g :: r => if n <? g.1 then (n, b) :: l else g :: insert_rotated n b r end.

(* @src audit/chain.ts 359 371 rotateLocked *)
Definition rotateLocked : M (option Z) :=
  w ← gets id;
  match active (disk w) with
  | None => mret None
  | Some b =>
      match match firstLine chunk b with Some l => parse l | None => None end with
      | None => mret None
      | Some p =>
          if existsb (fun g => g.1 =? p_seq p) (rotated (disk w)) then throw RotationTargetExists
          else step (fun d => set_active None (set_rotated (insert_rotated (p_seq p) b (rotated d)) d)) id ;; mret (Some (p_seq p))
      end
  end.

(** The anchor is written beside the old one and takes its place in one rename. *)
(* @src audit/chain.ts 373 382 writeAnchor *)
Definition writeAnchor (a : Anchor) : M unit :=
  w ← gets id;
  let text := stringify (JObj [("v", JNum (Fin 1)); ("seq", JNum (Fin (a_seq a))); ("hash", JStr (a_hash a))]) ++ [LF] in
  step (set_tmp (Some text)) (set_tmp (Some (take (part w) text))) ;;
  step (fun d => set_tmp None (set_anchor (anchor_tmp d) d)) id.

(** The bytes of a line. *)
(* @src audit/chain.ts 389 389 writeLine *)
Definition line_of (seq : Z) (prev : string) (e : ChainRecord) (detail : js) : bytes :=
  stringify (JObj [("seq", JNum (Fin seq)); ("prev", JStr prev);
    ("rec", JObj [("at", e_at e); ("actor", e_actor e); ("action", e_action e); ("target", e_target e); ("detail", detail)])]).

Definition append_active (b : bytes) (d : Disk) : Disk := set_active (Some (default [] (active d) ++ b)) d.

(* @src audit/chain.ts 385 399 writeLine *)
Definition writeLine (start : Tail) (e : ChainRecord) : M Tail :=
  w ← gets id;
  st ← (if match active (disk w) with Some b => maxBytes <=? Z.of_nat (length b) | None => false end
        then rotateLocked ;; tailState
        else mret start);
  match redact (e_detail e) with
  | None => throw Unserialisable
  | Some detail =>
      let seq := t_seq st + 1 in
      let line := line_of seq (t_hash st) e detail in
      w ← gets id;
      step (append_active (line ++ [LF])) (append_active (take (part w) (line ++ [LF]))) ;;
      let hash := hashLine line in
      writeAnchor {| a_seq := seq; a_hash := hash |} ;;
      mret {| t_seq := seq; t_hash := hash; t_prev := t_hash st |}
  end.

(** The event that records a recovery. *)
(* @src audit/chain.ts 418 418 append *)
Definition advanced_event (at_ from to : Z) : ChainRecord :=
  {| e_at := JNum (Fin at_); e_actor := actorOfThisProcess; e_action := JStr ANCHOR_ADVANCED_ACTION; e_target := JStr "audit-chain.anchor";
     e_detail := JObj [("fromSeq", JNum (Fin from)); ("toSeq", JNum (Fin to)); ("writer", JStr "core")] |}.

(* @src audit/chain.ts 403 421 append *)
Definition append (e : ChainRecord) : M unit :=
  if negb (assertRecordable e) then throw InvalidEvent
  else
    st ← tailState;
    w ← gets id;
    match judge st (readAnchor (anchor (disk w))) with
    | Refuse why => throw why
    | Agree => _ ← writeLine st e; mret tt
    | Advance =>
        if negb (lineBeforeTailHashes (disk w) (t_prev st)) then throw TailMismatch
        else
          writeAnchor {| a_seq := t_seq st; a_hash := t_hash st |} ;;
          at_ ← now;
          st ← writeLine st (advanced_event at_ (t_seq st - 1) (t_seq st));
          _ ← writeLine st e; mret tt
    end.

(** What an observer is told about a refusal; nothing for an event that is not recordable. *)
(* @src audit/chain.ts 422 433 append *)
Definition refusal_code (f : ChainFault) : option string :=
  match f with
  | InvalidEvent | InvalidPin => None
  | AnchorIsMissing => Some "anchor-missing"
  | AnchorIsInvalid => Some "anchor-invalid"
  | ShorterThanAnchor => Some "chain-shorter-than-anchor"
  | TailMismatch => Some "tail-anchor-mismatch"
  | TailMalformed => Some "tail-malformed"
  | RotationTargetExists => Some "rotation-target-exists"
  | Unserialisable | Failed => Some "audit-unavailable"
  end.

(* @src audit/chain.ts 435 435 rotate *)
Definition rotate : M (option Z) := rotateLocked.

(** ** Verification *)

(** What a pass over the lines has gathered; [known] says the last sequence number still means something. *)
Record Scan : Type := {
  c_findings : list Finding; c_records : nat; c_lastSeq : Z; c_prevHash : string; c_anchorHash : option string; c_started : bool; c_known : bool;
  c_pinned : option (string * FileName * nat); c_reanchors : list ReanchorNote
}.

Definition fresh_scan : Scan := {| c_findings := []; c_records := 0; c_lastSeq := 0; c_prevHash := GENESIS_HASH; c_anchorHash := None; c_started := false;
  c_known := true; c_pinned := None; c_reanchors := [] |}.

Definition found (code : FindingCode) (f : FileName) (n : option nat) (s : option Z) : Finding := {| f_code := code; f_file := f; f_line := n; f_seq := s |}.

(* @src audit/chain.ts 454 466 verify *)
Definition scan_line (a : AnchorRead) (pin : option AuditPin) (name : FileName) (n : nat) (line : bytes) (s : Scan) : Scan :=
  match parse line with
  | None =>
      {| c_findings := c_findings s ++ [found line_malformed name (Some n) None]; c_records := c_records s; c_lastSeq := c_lastSeq s; c_prevHash := hashLine line;
         c_anchorHash := c_anchorHash s; c_started := true; c_known := false; c_pinned := c_pinned s; c_reanchors := c_reanchors s |}
  | Some p =>
      let bad :=
        if negb (c_started s)
        then if negb (String.eqb (p_prev p) GENESIS_HASH) || negb (p_seq p =? 1) then [found prefix_missing name (Some n) (Some (p_seq p))] else []
        else (if negb (String.eqb (p_prev p) (c_prevHash s)) then [found hash_mismatch name (Some n) (Some (p_seq p))] else [])
             ++ (if c_known s && negb (p_seq p =? c_lastSeq s + 1) then [found seq_gap name (Some n) (Some (p_seq p))] else []) in
      let h := hashLine line in
      {| c_findings := c_findings s ++ bad; c_records := S (c_records s); c_lastSeq := p_seq p; c_prevHash := h;
         c_anchorHash := match a with TheAnchor x => if p_seq p =? a_seq x then Some h else c_anchorHash s | _ => c_anchorHash s end;
         c_started := true; c_known := true;
         c_pinned := match pin with Some q => if p_seq p =? pin_seq q then Some (h, name, n) else c_pinned s | None => c_pinned s end;
         c_reanchors := c_reanchors s ++ match p_reanchor p with
                                         | Some (at_, suffix) => [{| n_seq := p_seq p; n_file := name; n_line := n; n_at := at_; n_suffix := suffix |}]
                                         | None => [] end |}
  end.

Fixpoint scan_lines (a : AnchorRead) (pin : option AuditPin) (name : FileName) (n : nat) (l : list bytes) (s : Scan) : Scan :=
  match l with [] => s | x :: r => scan_lines a pin name (S n) r (scan_line a pin name n x s) end.

(** The number of a file's first line that parses. *)
Definition first_seq (l : list bytes) : option Z := p_seq <$> head (omap parse l).

Definition add_findings (l : list Finding) (s : Scan) : Scan :=
  {| c_findings := c_findings s ++ l; c_records := c_records s; c_lastSeq := c_lastSeq s; c_prevHash := c_prevHash s; c_anchorHash := c_anchorHash s;
     c_started := c_started s; c_known := c_known s; c_pinned := c_pinned s; c_reanchors := c_reanchors s |}.

(* @src audit/chain.ts 449 469 verify *)
Definition scan_file (a : AnchorRead) (pin : option AuditPin) (f : option Z * bytes) (s : Scan) : Scan :=
  let '(lines, torn) := readLines f.2 in
  let name := match f.1 with Some n => RotatedFile n | None => ActiveFile end in
  let s := scan_lines a pin name 1 lines s in
  let misnamed := match f.1, first_seq lines with
                  | Some n, Some q => if q =? n then [] else [found file_name_mismatch name (Some 1%nat) (Some q)]
                  | _, _ => [] end in
  let tail := match torn with Some _ => [found torn_tail name (Some (S (length lines))) None] | None => [] end in
  add_findings (misnamed ++ tail) s.

Definition chain_files (d : Disk) : list (option Z * bytes) :=
  map (fun f => (Some f.1, f.2)) (rotatedFiles d) ++ match active d with Some b => [(None, b)] | None => [] end.

(** How the anchor stands against what was read, and the findings about it. *)
(* @src audit/chain.ts 472 486 verify *)
Definition anchor_status (a : AnchorRead) (last : FileName) (s : Scan) : (AnchorStatus * option Z) * list Finding :=
  match a with
  | NoAnchor => ((AAbsent, None), if Nat.ltb 0 (c_records s) then [found anchor_missing AnchorFile None None] else [])
  | BadAnchor => ((AInvalid, None), [found anchor_invalid AnchorFile None None])
  | TheAnchor x =>
      if c_lastSeq s <? a_seq x then ((AAhead, Some (a_seq x)), [found truncated last None (Some (a_seq x))])
      else if negb (bool_decide (c_anchorHash s = Some (a_hash x))) then ((AMismatch, Some (a_seq x)), [found anchor_mismatch AnchorFile None (Some (a_seq x))])
      else ((if a_seq x =? c_lastSeq s then AMatch else ABehind, Some (a_seq x)), [])
  end.

(* @src audit/chain.ts 487 492 verify *)
Definition pin_findings (pin : option AuditPin) (s : Scan) : list Finding :=
  match pin with
  | None => []
  | Some q =>
      match c_pinned s with
      | None => [found pin_missing ActiveFile None (Some (pin_seq q))]
      | Some (h, f, n) => if String.eqb h (pin_hash q) then [] else [found pin_mismatch f (Some n) (Some (pin_seq q))]
      end
  end.

(** ** Chains set aside *)

(** One line of an era: the pass stops at the first deviation. *)
(* @src audit/chain.ts 296 307 verifyAside *)
Fixpoint aside_lines (a : AnchorRead) (name : FileName) (n : nat) (l : list bytes) (s : Scan) : Scan * option Finding :=
  match l with
  | [] => (s, None)
  | line :: r =>
      match parse line with
      | None => (s, Some (found line_malformed name (Some n) None))
      | Some p =>
          let stop c := (s, Some (found c name (Some n) (Some (p_seq p)))) in
          if negb (c_started s) && (negb (String.eqb (p_prev p) GENESIS_HASH) || negb (p_seq p =? 1)) then stop prefix_missing
          else if c_started s && negb (String.eqb (p_prev p) (c_prevHash s)) then stop hash_mismatch
          else if c_started s && negb (p_seq p =? c_lastSeq s + 1) then stop seq_gap
          else
            let h := hashLine line in
            aside_lines a name (S n) r
              {| c_findings := []; c_records := S (c_records s); c_lastSeq := p_seq p; c_prevHash := h;
                 c_anchorHash := match a with TheAnchor x => if p_seq p =? a_seq x then Some h else c_anchorHash s | _ => c_anchorHash s end;
                 c_started := true; c_known := true; c_pinned := None; c_reanchors := [] |}
      end
  end.

(* @src audit/chain.ts 292 310 verifyAside *)
Fixpoint aside_files (a : AnchorRead) (l : list (option Z * bytes)) (s : Scan) : Scan * option Finding :=
  match l with
  | [] => (s, None)
  | (f, b) :: r =>
      let name := match f with Some n => RotatedFile n | None => ActiveFile end in
      let '(lines, torn) := readLines b in
      match aside_lines a name 1 lines s with
      | (s, Some stop) => (s, Some stop)
      | (s, None) =>
          match f, first_seq lines with
          | Some n, Some q => if q =? n then match torn with Some _ => (s, Some (found torn_tail name (Some (S (length lines))) None)) | None => aside_files a r s end
                              else (s, Some (found file_name_mismatch name (Some 1%nat) (Some q)))
          | _, _ => match torn with Some _ => (s, Some (found torn_tail name (Some (S (length lines))) None)) | None => aside_files a r s end
          end
      end
  end.

(* @src audit/chain.ts 284 319 verifyAside *)
Definition verifyAside (x : Aside) (named : bool) : PreviousChain :=
  let a := readAnchor (as_anchor x) in
  let '(s, broken) := aside_files a (as_files x) fresh_scan in
  let st := match a with
            | NoAnchor => (AAbsent, None)
            | BadAnchor => (AInvalid, None)
            | TheAnchor y =>
                if c_lastSeq s <? a_seq y then (AAhead, Some (a_seq y))
                else if negb (bool_decide (c_anchorHash s = Some (a_hash y))) then (AMismatch, Some (a_seq y))
                else (if a_seq y =? c_lastSeq s then AMatch else ABehind, Some (a_seq y))
            end in
  {| pc_suffix := as_suffix x; announced := named; pc_files := length (as_files x); pc_records := c_records s; pc_lastSeq := c_lastSeq s;
     pc_lastHash := if Nat.ltb 0 (c_records s) then Some (c_prevHash s) else None;
     pc_intact := match broken, st.1 with None, AMatch | None, ABehind => true | _, _ => false end; firstBreak := broken; pc_anchor := st |}.

(** A pin that cannot be one is refused before anything is read. *)
(* @src audit/chain.ts 436 497 verify *)
Definition verify (pin : option AuditPin) (d : Disk) : result ChainFault VerifyResult :=
  if match pin with Some q => negb (safe_int (pin_seq q)) || (pin_seq q <? 1) || negb (HEX64 (pin_hash q)) | None => false end then Err InvalidPin
  else
    let a := readAnchor (anchor d) in
    let files := chain_files d in
    let s := fold_left (fun s f => scan_file a pin f s) files fresh_scan in
    let last := match list.last files with Some (Some n, _) => RotatedFile n | _ => ActiveFile end in
    let '(st, about) := anchor_status a last s in
    let all := c_findings s ++ about ++ pin_findings pin s in
    let names := map n_suffix (c_reanchors s) in
    Ok {| v_ok := Nat.eqb (length all) 0; v_records := c_records s; v_files := length files; v_lastSeq := c_lastSeq s;
          v_lastHash := if Nat.ltb 0 (c_records s) then Some (c_prevHash s) else None; v_anchor := st;
          v_findings := take MAX_FINDINGS all; v_findingsTotal := length all; v_reanchors := c_reanchors s;
          v_previous := map (fun x => verifyAside x (bool_decide (Some (as_suffix x) ∈ names))) (asides d) |}.
End chain.

(** Several sinks: all are tried, and the first failure is the one reported. *)
(* @src audit/chain.ts 501 510 teeAuditSinks *)
Fixpoint teeAuditSinks {W E} (sinks : list (ChainRecord -> SE W E unit)) (e : ChainRecord) : SE W E unit := fun w =>
  match sinks with
  | [] => (Ok tt, w)
  | s :: r =>
      let '(first, w) := s e w in
      let '(later, w) := teeAuditSinks r e w in
      (match first with Err f => Err f | Ok _ => later end, w)
  end.
