(* ===== verification/AuditChainSpec.v ===== *)
(** * What the audit chain promises

    First the three ways [audit/chain.ts] reads a file (whole, backwards from its end in
    chunks, forwards to its first newline), which agree with one description: complete
    lines, each with its newline, and a tail without one. Then the theorems on
    [AuditChain]: a chain is the lines of its files in order, linked from the genesis
    hash. Verification finds nothing exactly when the chain is one and its anchor names
    a line of it; two chains with the same pin have the same lines under it. *)

From S2P Require Import Prelude AuditChain.

(** A file of complete lines and an unterminated tail. *)
Definition render (ls : list bytes) (t : bytes) : bytes := concat (map (fun l => l ++ [LF]) ls) ++ t.

Definition unbroken (ls : list bytes) (t : bytes) : Prop := Forall (fun l => LF ∉ l) ls /\ LF ∉ t.

Lemma render_cons l ls t : render (l :: ls) t = l ++ LF :: render ls t.
Proof. unfold render. cbn. by rewrite <- !app_assoc. Qed.

Lemma render_snoc ls l t : render (ls ++ [l]) t = render ls [] ++ l ++ LF :: t.
Proof. induction ls as [|x ls IH]; [by rewrite app_nil_l, render_cons|]. cbn [app]. by rewrite !render_cons, IH, <- app_assoc. Qed.

Lemma render_app ls t u : render ls t ++ u = render ls (t ++ u).
Proof. unfold render. by rewrite <- app_assoc. Qed.

Lemma render_tail ls t : render ls t = render ls [] ++ t.
Proof. by rewrite render_app. Qed.

Lemma split_render ls t : unbroken ls t -> split_at LF (render ls t) = ls ++ [t].
Proof.
  intros [H Ht]. induction H as [|l ls Hl H IH]; [by apply split_at_free|].
  rewrite render_cons, split_at_app by done. by rewrite IH.
Qed.

(** Every file is of this form. *)
Lemma render_exists b : exists ls t, b = render ls t /\ unbroken ls t.
Proof.
  induction b as [|x b IH]; [by exists [], []; repeat split; [constructor|apply not_elem_of_nil]|].
  destruct IH as (ls & t & -> & Hls & Ht). destruct (Z.eqb_spec x LF) as [->|Hx].
  - exists ([] :: ls), t. split; [by rewrite render_cons|]. split; [constructor; [apply not_elem_of_nil|done]|done].
  - destruct ls as [|l ls].
    + exists [], (x :: t). split; [done|]. split; [constructor|]. apply not_elem_of_cons. by split.
    + exists ((x :: l) :: ls), t. apply list.Forall_cons in Hls as [Hl Hls]. split; [by rewrite !render_cons|].
      split; [constructor; [apply not_elem_of_cons; by split|done]|done].
Qed.

Lemma readLines_render ls t : unbroken ls t -> readLines (render ls t) = (map stripCr ls, if bool_decide (t = []) then None else Some t).
Proof. intros H. unfold readLines. rewrite split_render by done. rewrite reverse_app. change (reverse [t]) with [t]. cbn [app]. by rewrite reverse_involutive. Qed.

(** ** Newlines *)

Lemma last_nl_none l : LF ∉ l -> last_nl l = None.
Proof. induction l as [|x l IH]; [done|]. intros [Hx Hl]%not_elem_of_cons. cbn. rewrite (IH Hl), (proj2 (Z.eqb_neq _ _)); congruence. Qed.

Lemma last_nl_app a b : last_nl (a ++ b) = match last_nl b with Some i => Some (length a + i)%nat | None => last_nl a end.
Proof.
  induction a as [|x a IH]; cbn; [by destruct (last_nl b)|]. rewrite IH. by destruct (last_nl b).
Qed.

Lemma last_nl_lt l i : last_nl l = Some i -> (i < length l)%nat.
Proof.
  revert i. induction l as [|x l IH]; intros i; cbn; [done|]. destruct (last_nl l) as [j|].
  - intros [= <-]. specialize (IH j eq_refl). lia.
  - destruct (x =? LF); [|done]. intros [= <-]. lia.
Qed.

Lemma last_nl_render ls t : LF ∉ t -> last_nl (render ls t) = match ls with [] => None | _ => Some (length (render ls []) - 1)%nat end.
Proof.
  intros Ht. destruct ls as [|l ls] using rev_ind; [by apply last_nl_none|]. clear IHls.
  rewrite render_snoc, last_nl_app, last_nl_app. cbn. rewrite last_nl_none by done. cbn.
  destruct (ls ++ [l]) eqn:E; [by destruct ls|]. rewrite <- E, render_snoc, !length_app. cbn. f_equal. lia.
Qed.

(** Reading backwards in chunks finds the last newline before the position. *)
Lemma findNlBack_spec fuel chunk file pos : (0 < chunk)%nat -> (pos < fuel)%nat -> (pos <= length file)%nat ->
  findNlBack fuel chunk file pos = last_nl (take pos file).
Proof.
  intros Hc. revert pos. induction fuel as [|fuel IH]; intros pos Hf Hl; [lia|]. cbn [findNlBack].
  destruct (Nat.eqb_spec pos 0) as [->|Hp]; [done|]. cbv zeta.
  set (n := Nat.min chunk pos). assert (1 <= n <= pos)%nat as Hn by (unfold n; lia).
  replace (take pos file) with (take (pos - n) file ++ take n (drop (pos - n) file)).
  - rewrite last_nl_app, length_take, Nat.min_l by lia. destruct (last_nl (take n (drop (pos - n) file))); [done|].
    apply IH; lia.
  - rewrite <- (take_drop (pos - n) (take pos file)), take_take, Nat.min_l by lia. f_equal.
    rewrite skipn_firstn_comm. by replace (pos - (pos - n))%nat with n by lia.
Qed.

Lemma render_length_pos l ls : (0 < length (render (l :: ls) []))%nat.
Proof. rewrite render_cons, length_app. cbn. lia. Qed.

(** The tail scan: the last complete line, and where a tail without a newline starts. *)
Lemma scanTail_render chunk ls t : (0 < chunk)%nat -> unbroken ls t ->
  scanTail chunk (render ls t) = (stripCr <$> list.last ls, if bool_decide (t = []) then None else Some (length (render ls []))).
Proof.
  intros Hc [Hls Ht]. unfold scanTail. cbv zeta. destruct ls as [|l ls _] using rev_ind.
  - destruct t as [|x t]; [done|]. change (render [] (x :: t)) with (x :: t).
    destruct (Nat.eqb_spec (length (x :: t)) 0); [done|].
    rewrite findNlBack_spec by lia. by rewrite firstn_all, last_nl_none.
  - assert (Hlen : length (render (ls ++ [l]) t) = (length (render ls []) + length l + 1 + length t)%nat)
      by (rewrite render_snoc, !length_app; cbn; lia).
    assert (Hlen0 : length (render (ls ++ [l]) []) = (length (render ls []) + length l + 1)%nat)
      by (rewrite render_snoc, !length_app; cbn; lia).
    apply Forall_app in Hls as [Hls [Hl _]%list.Forall_cons].
    destruct (Nat.eqb_spec (length (render (ls ++ [l]) t)) 0); [lia|].
    rewrite findNlBack_spec by lia. rewrite firstn_all, last_nl_render by done.
    destruct (ls ++ [l]) as [|y ys] eqn:E; [by destruct ls|]. rewrite <- E in *. rewrite Hlen0.
    replace (length (render ls []) + length l + 1 - 1)%nat with (length (render ls []) + length l)%nat by lia.
    rewrite findNlBack_spec by lia.
    assert (Htake : take (length (render ls []) + length l) (render (ls ++ [l]) t) = render ls l).
    { rewrite render_snoc, app_assoc, <- render_tail. rewrite (render_tail ls l), <- length_app. by rewrite take_app_length. }
    rewrite Htake, last_nl_render by done. rewrite last_snoc. cbn [fmap option_fmap option_map].
    assert (Hstart : match match ls with [] => None | _ => Some (length (render ls []) - 1)%nat end with Some p => S p | None => O end = length (render ls [])).
    { destruct ls as [|z zs]; [done|]. pose proof (render_length_pos z zs). lia. }
    rewrite Hstart. f_equal.
    + f_equal. f_equal. replace (length (render ls []) + length l - length (render ls []))%nat with (length l) by lia.
      rewrite render_snoc, drop_app_length. by rewrite take_app_length.
    + destruct t as [|x t]; rewrite Hlen.
      * rewrite bool_decide_eq_true_2 by done. destruct (Nat.ltb_spec (S (length (render ls []) + length l)) (length (render ls []) + length l + 1 + length (@nil Z))); [cbn in *; lia|done].
      * rewrite bool_decide_eq_false_2 by done. destruct (Nat.ltb_spec (S (length (render ls []) + length l)) (length (render ls []) + length l + 1 + length (x :: t))); [f_equal; lia|cbn in *; lia].
Qed.

(** Whether and where a text has its first newline. *)
Lemma first_nl_spec l : match first_nl l with Some i => (i < length l)%nat /\ exists r, l = take i l ++ LF :: r /\ LF ∉ take i l | None => LF ∉ l end.
Proof.
  induction l as [|x l IH]; [apply not_elem_of_nil|]. cbn [first_nl]. destruct (Z.eqb_spec x LF) as [->|Hx].
  - split; [cbn; lia|]. exists l. split; [done|apply not_elem_of_nil].
  - destruct (first_nl l) as [i|]; cbn.
    + destruct IH as (Hi & r & E & Hn). split; [lia|]. exists r. split; [by rewrite E at 1|]. apply not_elem_of_cons. by split.
    + apply not_elem_of_cons. by split.
Qed.

Lemma first_nl_app l r : LF ∉ l -> first_nl (l ++ LF :: r) = Some (length l).
Proof. induction l as [|x l IH]; [done|]. intros [Hx Hl]%not_elem_of_cons. cbn. rewrite (proj2 (Z.eqb_neq _ _)) by congruence. by rewrite (IH Hl). Qed.

Lemma first_nl_none l : LF ∉ l -> first_nl l = None.
Proof.
  intros H. pose proof (first_nl_spec l) as Hs. destruct (first_nl l); [|done]. destruct Hs as (_ & r & E & _).
  exfalso. apply H. rewrite E. apply elem_of_app. right. by left.
Qed.

(** Taking two stretches one after the other. *)
Lemma take_two (n m : nat) (l : bytes) : take n l ++ take m (drop n l) = take (n + length (take m (drop n l))) l.
Proof.
  destruct (Nat.le_gt_cases (length l) n).
  - rewrite (drop_ge l n), take_nil by lia. cbn. rewrite !take_ge by lia. by rewrite app_nil_r.
  - set (k := length (take m (drop n l))). rewrite <- (take_drop n l) at 3. rewrite take_app, take_take, (length_take l n).
    replace (Nat.min (n + k) n) with n by lia. f_equal. replace (n + k - Nat.min n (length l))%nat with k by lia.
    unfold k. rewrite length_take. destruct (Nat.le_gt_cases m (length (drop n l))); [by rewrite Nat.min_l|].
    rewrite Nat.min_r by lia. rewrite !take_ge by lia. done.
Qed.

(** Reading forwards in chunks: what was read so far has no newline. *)
Lemma first_line_spec fuel chunk file pos : (0 < chunk)%nat -> (length file - pos < fuel)%nat -> LF ∉ take pos file ->
  first_line fuel chunk file (take pos file) pos = (fun i => stripCr (take i file)) <$> first_nl file.
Proof.
  intros Hc. revert pos. induction fuel as [|fuel IH]; intros pos Hf Hnl; [lia|]. cbn [first_line]. cbv zeta.
  case_bool_decide as Hg.
  - assert (length file <= pos)%nat as Hend.
    { apply (f_equal length) in Hg. rewrite length_take, length_drop in Hg. cbn in Hg. lia. }
    rewrite take_ge in Hnl by done. by rewrite first_nl_none.
  - rewrite take_two. set (q := (pos + length (take chunk (drop pos file)))%nat) in *.
    assert (pos < q)%nat as Hq by (unfold q; destruct (take chunk (drop pos file)); cbn; [done|lia]).
    pose proof (first_nl_spec (take q file)) as Hs. destruct (first_nl (take q file)) as [i|].
    + destruct Hs as (Hi & r & E & Hn). rewrite length_take in Hi. assert (i < q /\ i < length file)%nat as [Hiq Hif] by lia. clearbody q. rewrite take_take, Nat.min_l in E, Hn by lia.
      assert (file = take i file ++ LF :: (r ++ drop q file)) as Ef by (rewrite <- (take_drop q file) at 1; rewrite E; by rewrite <- app_assoc).
      rewrite Ef at 2. rewrite first_nl_app by done. cbn.
      replace (length (take i file)) with i by (rewrite length_take; lia). rewrite take_take. by replace (Nat.min i q) with i by lia.
    + apply IH; [|done]. assert (q <= Nat.max pos (length file))%nat by (unfold q; rewrite length_take, length_drop; lia). lia.
Qed.

Lemma firstLine_render chunk ls t : (0 < chunk)%nat -> unbroken ls t -> firstLine chunk (render ls t) = stripCr <$> head ls.
Proof.
  intros Hc [Hls Ht]. unfold firstLine. change (@nil Z) with (take 0 (render ls t)).
  rewrite first_line_spec; [|done|lia|apply not_elem_of_nil].
  destruct ls as [|l ls].
  - by rewrite (first_nl_none (render [] t)).
  - apply list.Forall_cons in Hls as [Hl _]. rewrite render_cons, first_nl_app by done. cbn. by rewrite take_app_length.
Qed.

(** Reading a file in chunks from either end, or whole, agrees whatever the chunk size: the last and the first of the
    complete lines, and the unterminated tail. *)
Theorem readers_agree chunk b : (0 < chunk)%nat ->
  let '(lines, torn) := readLines b in
  scanTail chunk b = (list.last lines, (fun t => (length b - length t)%nat) <$> torn) /\ firstLine chunk b = head lines.
Proof.
  intros Hc. destruct (render_exists b) as (ls & t & -> & H). rewrite readLines_render by done.
  rewrite scanTail_render, firstLine_render by done. split; [|by destruct ls].
  f_equal; [by rewrite fmap_last|]. case_bool_decide; [done|]. cbn. f_equal. rewrite (render_tail ls t), length_app. lia.
Qed.

(** What JSON and the digest are relied on for. *)
Record chain_laws (stringify : js -> bytes) (json_parse : bytes -> option js) (hashLine : bytes -> string) : Prop := {
  cl_round_trip : forall v, json_value v = true -> json_parse (stringify v) = Some v;
  cl_newline : forall v, json_value v = true -> json_parse (stringify v ++ [LF]) = Some v;
  cl_one_line : forall v, json_value v = true -> LF ∉ stringify v /\ CR ∉ stringify v;
  cl_hash : forall l, HEX64 (hashLine l) = true
}.

Section chain.
Context (json_parse : bytes -> option js) (hashLine : bytes -> string).

Notation parse := (parse json_parse).
Notation readAnchor := (readAnchor json_parse).
Notation first_seq := (first_seq json_parse).

(** ** Linked lines *)

(** The hash a line after [l] must name, when [h] is the one the first must name. *)
Definition last_hash (h : string) (l : list bytes) : string := match list.last l with Some x => hashLine x | None => h end.

(** Lines that parse, numbered from [q], each naming the hash of the line before it. *)
Fixpoint linked (q : Z) (h : string) (l : list bytes) : Prop :=
  match l with
  | [] => True
  | x :: r => exists p, parse x = Some p /\ p_seq p = q /\ p_prev p = h /\ linked (q + 1) (hashLine x) r
  end.

Lemma last_hash_cons h x l : last_hash h (x :: l) = last_hash (hashLine x) l.
Proof. unfold last_hash. destruct l as [|y l]; [done|]. cbn. by destruct (list.last (y :: l)) eqn:E; [|by apply last_None in E]. Qed.

Lemma linked_app q h a b : linked q h (a ++ b) <-> linked q h a /\ linked (q + Z.of_nat (length a)) (last_hash h a) b.
Proof.
  revert q h. induction a as [|x a IH]; intros q h.
  - cbn. rewrite Z.add_0_r. unfold last_hash. cbn. tauto.
  - cbn [app linked length]. rewrite last_hash_cons. replace (q + Z.of_nat (S (length a))) with (q + 1 + Z.of_nat (length a)) by lia.
    setoid_rewrite IH. naive_solver.
Qed.

Definition chain_of (l : list bytes) : Prop := linked 1 GENESIS_HASH l.

Lemma chain_snoc l x : chain_of (l ++ [x]) <->
  chain_of l /\ exists p, parse x = Some p /\ p_seq p = Z.of_nat (length l) + 1 /\ p_prev p = last_hash GENESIS_HASH l.
Proof.
  unfold chain_of. rewrite linked_app. cbn. replace (1 + Z.of_nat (length l)) with (Z.of_nat (length l) + 1) by lia. naive_solver.
Qed.

(** The line with a number is the one at its place. *)
Lemma chain_lookup l (i : nat) x : chain_of l -> l !! i = Some x -> exists p, parse x = Some p /\ p_seq p = Z.of_nat i + 1 /\ p_prev p = last_hash GENESIS_HASH (take i l).
Proof.
  intros Hc Hi. rewrite <- (take_drop_middle l i x Hi) in Hc. unfold chain_of in Hc. apply linked_app in Hc as [_ (p & Hp & Hq & Hh & _)].
  exists p. split; [done|]. split; [|done]. rewrite length_take_le in Hq; [lia|]. apply lookup_lt_Some in Hi. lia.
Qed.

(** ** Verification *)

(** The complete lines of a directory's chain files, in order. *)
Definition lines_of (fs : list (option Z * bytes)) : list bytes := concat (map (fun f => (readLines f.2).1) fs).

(** A file that verification has nothing to say about: no unterminated tail, and a rotated one is called after its first line. *)
Definition tidy (f : option Z * bytes) : Prop :=
  (readLines f.2).2 = None /\ match f.1, first_seq (readLines f.2).1 with Some n, Some q => q = n | _, _ => True end.

(** The anchor names a line of the chain. *)
Definition anchored (a : AnchorRead) (l : list bytes) : Prop :=
  match a with
  | NoAnchor => l = []
  | BadAnchor => False
  | TheAnchor x => exists i y, a_seq x = Z.of_nat i + 1 /\ l !! i = Some y /\ hashLine y = a_hash x
  end.

(** The pinned line is in the chain. *)
Definition pinned (pin : option AuditPin) (l : list bytes) : Prop :=
  match pin with
  | None => True
  | Some q => exists i y, pin_seq q = Z.of_nat i + 1 /\ l !! i = Some y /\ hashLine y = pin_hash q
  end.

(** The hash of the line with number [q], if the chain is that long. *)
Definition hash_at (q : Z) (l : list bytes) : option string := if 1 <=? q then hashLine <$> l !! Z.to_nat (q - 1) else None.

Lemma hash_at_snoc q l x : hash_at q (l ++ [x]) = if q =? Z.of_nat (length l) + 1 then Some (hashLine x) else hash_at q l.
Proof.
  unfold hash_at. destruct (Z.eqb_spec q (Z.of_nat (length l) + 1)) as [->|Hq].
  - rewrite (proj2 (Z.leb_le _ _)) by lia. replace (Z.to_nat (Z.of_nat (length l) + 1 - 1)) with (length l) by lia.
    by rewrite lookup_app_r, Nat.sub_diag by lia.
  - destruct (Z.leb_spec 1 q); [|done]. destruct (decide (q <= Z.of_nat (length l))).
    + rewrite lookup_app_l by lia. done.
    + rewrite !lookup_ge_None_2; [done|lia|]. rewrite length_app. cbn. lia.
Qed.

Lemma hash_at_iff q l h : hash_at q l = Some h <-> exists i y, q = Z.of_nat i + 1 /\ l !! i = Some y /\ hashLine y = h.
Proof.
  unfold hash_at. split.
  - destruct (Z.leb_spec 1 q); [|done]. intros (y & Hy & Hh)%fmap_Some. exists (Z.to_nat (q - 1)), y. split; [lia|]. by split.
  - intros (i & y & -> & Hy & <-). rewrite (proj2 (Z.leb_le _ _)) by lia. replace (Z.to_nat (Z.of_nat i + 1 - 1)) with i by lia. by rewrite Hy.
Qed.

(** A pass without findings so far has read a chain, and remembers its end and the lines asked for. *)
Definition clean (a : AnchorRead) (pin : option AuditPin) (l : list bytes) (s : Scan) : Prop :=
  c_findings s = [] /\ chain_of l /\ c_records s = length l /\ c_lastSeq s = Z.of_nat (length l) /\ c_prevHash s = last_hash GENESIS_HASH l /\
  c_started s = negb (bool_decide (l = [])) /\ c_known s = true /\
  c_anchorHash s = match a with TheAnchor x => hash_at (a_seq x) l | _ => None end /\
  (fun p => p.1.1) <$> c_pinned s = match pin with Some q => hash_at (pin_seq q) l | None => None end.

Notation scan_line := (scan_line json_parse hashLine).
Notation scan_lines := (scan_lines json_parse hashLine).
Notation scan_file := (scan_file json_parse hashLine).

Lemma bool_decide_snoc_nil {A} (l : list A) x : negb (bool_decide (l ++ [x] = [])) = true.
Proof. rewrite bool_decide_eq_false_2; [done|]. by destruct l. Qed.

Lemma scan_line_chain a pin name n l x s : clean a pin l s -> c_findings (scan_line a pin name n x s) = [] -> chain_of (l ++ [x]).
Proof.
  intros (Hf & Hc & _ & Hq & Hh & Hst & Hk & _) H. apply chain_snoc. split; [done|]. unfold AuditChain.scan_line in H.
  destruct (parse x) as [p|]; cbn [c_findings] in H; [|by apply app_nil in H as [_ H]].
  exists p. split; [done|]. apply app_nil in H as [_ H]. rewrite Hst, Hk, Hq, Hh in H. destruct (decide (l = [])) as [->|Hl].
  - cbn in H. destruct (String.eqb_spec (p_prev p) GENESIS_HASH) as [E|]; [|done]. destruct (Z.eqb_spec (p_seq p) 1); [|done]. by split.
  - rewrite (bool_decide_eq_false_2 (l = [])) in H by done. cbn [negb andb] in H. apply app_nil in H as [H1 H2].
    destruct (String.eqb_spec (p_prev p) (last_hash GENESIS_HASH l)) as [E|]; [|done].
    destruct (Z.eqb_spec (p_seq p) (Z.of_nat (length l) + 1)); [|done]. by split.
Qed.

Lemma scan_line_clean a pin name n l x s : clean a pin l s -> chain_of (l ++ [x]) -> clean a pin (l ++ [x]) (scan_line a pin name n x s).
Proof.
  intros (Hf & Hc & Hr & Hq & Hh & Hst & Hk & Ha & Hp) H. pose proof H as H'. apply chain_snoc in H' as (_ & p & Ep & Eq & Eh).
  unfold AuditChain.scan_line. rewrite Ep. unfold clean. cbn [c_findings c_records c_lastSeq c_prevHash c_anchorHash c_started c_known c_pinned].
  split.
  { rewrite Hf, Hst, Hk, Hq, Hh, Eh, String.eqb_refl, Eq, Z.eqb_refl. destruct (decide (l = [])) as [->|Hl]; [done|].
    by rewrite bool_decide_eq_false_2. }
  split; [done|]. split; [rewrite length_app; cbn; lia|]. split; [rewrite length_app; cbn; lia|].
  split; [unfold last_hash; by rewrite last_snoc|]. split; [by rewrite bool_decide_snoc_nil|]. split; [done|]. split.
  - destruct a as [| |y]; [done..|]. rewrite hash_at_snoc, Eq, (Z.eqb_sym (a_seq y)). by destruct (_ =? _).
  - destruct pin as [q|]; [|done]. rewrite hash_at_snoc, Eq, (Z.eqb_sym (pin_seq q)). by destruct (_ =? _).
Qed.

Lemma scan_line_silent a pin name n x s : c_findings (scan_line a pin name n x s) = [] -> c_findings s = [].
Proof. unfold AuditChain.scan_line. destruct (parse x); cbn [c_findings]; by intros [? _]%app_nil. Qed.

Lemma scan_lines_silent a pin name n l s : c_findings (scan_lines a pin name n l s) = [] -> c_findings s = [].
Proof. revert n s. induction l as [|x l IH]; intros n s; cbn [AuditChain.scan_lines]; [done|]. intros H. apply IH in H. by apply scan_line_silent in H. Qed.

Lemma scan_lines_chain a pin name n l xs s : clean a pin l s -> c_findings (scan_lines a pin name n xs s) = [] -> chain_of (l ++ xs).
Proof.
  revert n l s. induction xs as [|x xs IH]; intros n l s Hs; cbn [AuditChain.scan_lines]; [by destruct Hs as (_ & ? & _); rewrite app_nil_r|].
  intros H. pose proof (scan_lines_silent _ _ _ _ _ _ H) as H1. pose proof (scan_line_chain _ _ _ _ _ _ _ Hs H1) as Hc.
  replace (l ++ x :: xs) with ((l ++ [x]) ++ xs) by (by rewrite <- app_assoc). eapply IH; [|exact H]. by apply scan_line_clean.
Qed.

Lemma scan_lines_clean a pin name n l xs s : clean a pin l s -> chain_of (l ++ xs) -> clean a pin (l ++ xs) (scan_lines a pin name n xs s).
Proof.
  revert n l s. induction xs as [|x xs IH]; intros n l s Hs Hc; cbn [AuditChain.scan_lines]; [by rewrite app_nil_r|].
  replace (l ++ x :: xs) with ((l ++ [x]) ++ xs) in * by (by rewrite <- app_assoc). apply IH; [|done].
  apply scan_line_clean; [done|]. unfold chain_of in *. by apply linked_app in Hc as [? _].
Qed.

Lemma scan_file_silent a pin f s : c_findings (scan_file a pin f s) = [] -> c_findings s = [].
Proof.
  unfold AuditChain.scan_file. destruct (readLines f.2) as [ls torn]. cbn [add_findings c_findings]. intros [H _]%app_nil.
  by apply scan_lines_silent in H.
Qed.

Lemma scan_file_chain a pin f l s : clean a pin l s -> c_findings (scan_file a pin f s) = [] -> tidy f /\ chain_of (l ++ (readLines f.2).1).
Proof.
  intros Hs. unfold AuditChain.scan_file, tidy. destruct (readLines f.2) as [ls torn]. cbn [add_findings c_findings fst snd].
  intros [H1 [H2 H3]%app_nil]%app_nil. split; [|by eapply scan_lines_chain].
  split; [by destruct torn|]. destruct f.1 as [n|]; [|done]. destruct (first_seq ls) as [q|]; [|done]. by destruct (Z.eqb_spec q n).
Qed.

Lemma scan_file_clean a pin f l s : clean a pin l s -> tidy f -> chain_of (l ++ (readLines f.2).1) -> clean a pin (l ++ (readLines f.2).1) (scan_file a pin f s).
Proof.
  intros Hs [Ht Hn] Hc. unfold AuditChain.scan_file in *. destruct (readLines f.2) as [ls torn] eqn:E. cbn [fst snd] in *. subst torn.
  pose proof (scan_lines_clean a pin (match f.1 with Some n => RotatedFile n | None => ActiveFile end) 1 l ls s Hs Hc) as Hcl.
  assert (match f.1, first_seq ls with Some n, Some q => if q =? n then [] else [found file_name_mismatch (match f.1 with Some n => RotatedFile n | None => ActiveFile end) (Some 1%nat) (Some q)] | _, _ => [] end = []) as Hm.
  { destruct f.1; [|done]. destruct (first_seq ls); [|done]. by rewrite Hn, Z.eqb_refl. }
  destruct f.1; [destruct (first_seq ls)|]; cbn in Hm |- *; rewrite ?Hm; unfold clean, add_findings in *; cbn; by rewrite app_nil_r.
Qed.

Notation scan_files a pin fs s := (fold_left (fun s0 f0 => scan_file a pin f0 s0) fs s).

Lemma scan_files_silent a pin fs s : c_findings (scan_files a pin fs s) = [] -> c_findings s = [].
Proof. revert s. induction fs as [|f fs IH]; intros s; cbn; [done|]. intros H. apply IH in H. by apply scan_file_silent in H. Qed.

Lemma lines_of_cons f fs : lines_of (f :: fs) = (readLines f.2).1 ++ lines_of fs.
Proof. done. Qed.

Lemma scan_files_clean a pin fs l s : clean a pin l s -> Forall tidy fs -> chain_of (l ++ lines_of fs) -> clean a pin (l ++ lines_of fs) (scan_files a pin fs s).
Proof.
  intros Hs Ht. revert l s Hs. induction Ht as [|f fs Hf Ht IH]; intros l s Hs Hc; cbn [fold_left].
  - unfold lines_of. cbn. by rewrite app_nil_r.
  - rewrite lines_of_cons, app_assoc in *. apply IH; [|done]. apply scan_file_clean; [done|done|].
    unfold chain_of in *. by apply linked_app in Hc as [? _].
Qed.

Lemma scan_files_chain a pin fs l s : clean a pin l s -> c_findings (scan_files a pin fs s) = [] -> Forall tidy fs /\ chain_of (l ++ lines_of fs).
Proof.
  revert l s. induction fs as [|f fs IH]; intros l s Hs; cbn [fold_left].
  - unfold lines_of. cbn. rewrite app_nil_r. destruct Hs as (_ & ? & _). by split; [constructor|].
  - intros H. pose proof (scan_files_silent _ _ _ _ H) as H1. destruct (scan_file_chain _ _ _ _ _ Hs H1) as [Hti Hc].
    destruct (IH _ _ (scan_file_clean _ _ _ _ _ Hs Hti Hc) H) as [Htl Hcl]. split; [by constructor|].
    by rewrite lines_of_cons, app_assoc.
Qed.

Lemma clean_fresh a pin : clean a pin [] fresh_scan.
Proof.
  unfold clean, fresh_scan. cbn. repeat split; try done; [destruct a as [| |x]|destruct pin as [q|]]; try done; unfold hash_at; by case_match.
Qed.

(** ** The whole verification *)

Notation verify := (verify json_parse hashLine).

Definition good_pin (pin : option AuditPin) : Prop :=
  match pin with Some q => safe_int (pin_seq q) = true /\ 1 <= pin_seq q /\ HEX64 (pin_hash q) = true | None => True end.

Lemma anchor_status_silent a pin last l s : clean a pin l s -> (anchor_status a last s).2 = [] <-> anchored a l.
Proof.
  intros (_ & _ & Hr & Hq & _ & _ & _ & Ha & _). unfold anchor_status, anchored. destruct a as [| |x]; cbn [snd].
  - rewrite Hr. destruct l; cbn; split; done.
  - by split.
  - rewrite Hq, Ha. destruct (Z.ltb_spec (Z.of_nat (length l)) (a_seq x)) as [Hlt|Hle]; cbn [snd].
    + split; [done|]. intros (i & y & Ei & Hy & _). apply lookup_lt_Some in Hy. lia.
    + rewrite <- hash_at_iff. by case_bool_decide.
Qed.

Lemma pin_silent a pin l s : clean a pin l s -> pin_findings pin s = [] <-> pinned pin l.
Proof.
  intros (_ & _ & _ & _ & _ & _ & _ & _ & Hp). unfold pin_findings, pinned. destruct pin as [q|]; [|by split].
  destruct (c_pinned s) as [[[h f] n]|]; cbn in Hp.
  - rewrite <- hash_at_iff, <- Hp. destruct (String.eqb_spec h (pin_hash q)) as [->|Hne]; [done|]. split; [done|congruence].
  - rewrite <- hash_at_iff, <- Hp. done.
Qed.

Lemma verify_run pin d v : verify pin d = Ok v ->
  let s := scan_files (readAnchor (anchor d)) pin (chain_files d) fresh_scan in
  good_pin pin /\ exists last,
  (v_ok v = true <-> c_findings s = [] /\ (anchor_status (readAnchor (anchor d)) last s).2 = [] /\ pin_findings pin s = []) /\
  v_records v = c_records s /\ v_lastSeq v = c_lastSeq s /\ v_anchor v = (anchor_status (readAnchor (anchor d)) last s).1.
Proof.
  unfold AuditChain.verify. intros H. match type of H with (if ?b then _ else _) = _ => destruct b eqn:Hg end; [done|]. split.
  { unfold good_pin. destruct pin as [q|]; [|done]. bool_hyps. by repeat split. }
  destruct (anchor_status _ _ _) as [st about] eqn:Ha in H. injection H as <-. cbn [v_ok v_records v_lastSeq v_anchor].
  eexists. split; [|split; [done|split; [done|by rewrite Ha]]]. rewrite Ha. cbn [snd].
  rewrite Nat.eqb_eq. split.
  - intros Hl%nil_length_inv. apply app_nil in Hl as [? [? ?]%app_nil]. done.
  - intros (-> & -> & ->). done.
Qed.

Lemma verify_chain pin d v : verify pin d = Ok v ->
  (v_ok v = true <-> Forall tidy (chain_files d) /\ chain_of (lines_of (chain_files d)) /\
     anchored (readAnchor (anchor d)) (lines_of (chain_files d)) /\ pinned pin (lines_of (chain_files d))).
Proof.
  intros H. apply verify_run in H as (_ & last & Hok & _). rewrite Hok. clear Hok.
  set (a := readAnchor (anchor d)). pose proof (clean_fresh a pin) as Hf. split.
  - intros (Hs & Ha & Hp). destruct (scan_files_chain _ _ _ _ _ Hf Hs) as [Ht Hc]. pose proof (scan_files_clean _ _ _ _ _ Hf Ht Hc) as Hcl.
    split; [done|]. split; [done|]. split; [by eapply anchor_status_silent|by eapply pin_silent].
  - intros (Ht & Hc & Ha & Hp). pose proof (scan_files_clean _ _ _ _ _ Hf Ht Hc) as Hcl. split; [apply Hcl|].
    split; [by eapply anchor_status_silent|by eapply pin_silent].
Qed.

(** (C25) Verification is exact. A pin that cannot be one is refused; otherwise nothing is found exactly when every file is
    tidy, the lines of the files in order are numbered from one and each names the hash of the line before it from the
    genesis hash on, the anchor names one of them (or there are none and no anchor), and so does the pin. *)
Theorem verify_exact pin d :
  match verify pin d with
  | Err e => e = InvalidPin /\ ~ good_pin pin
  | Ok v => good_pin pin /\
      (v_ok v = true <-> Forall tidy (chain_files d) /\ chain_of (lines_of (chain_files d)) /\
         anchored (readAnchor (anchor d)) (lines_of (chain_files d)) /\ pinned pin (lines_of (chain_files d)))
  end.
Proof.
  destruct (verify pin d) as [v|e] eqn:H.
  - split; [by apply verify_run in H as [? _]|by apply verify_chain in H].
  - unfold AuditChain.verify in H. match type of H with (if ?b then _ else _) = _ => destruct b eqn:Hg end.
    + injection H as <-. split; [done|]. intros Hp. unfold good_pin in Hp. destruct pin as [q|]; [|done]. destruct Hp as (H1 & H2 & H3).
      rewrite H1, H3, (proj2 (Z.ltb_ge _ _)) in Hg by lia. done.
    + by destruct (anchor_status _ _ _).
Qed.

(** Two chains whose lines do not collide, with the same hash at the same place, agree up to it. *)
Lemma same_prefix l1 l2 (i : nat) x y : chain_of l1 -> chain_of l2 -> l1 !! i = Some x -> l2 !! i = Some y ->
  (forall u v, u ∈ l1 -> v ∈ l2 -> hashLine u = hashLine v -> u = v) -> hashLine x = hashLine y -> take (S i) l1 = take (S i) l2.
Proof.
  intros H1 H2 Hx Hy Hinj. revert x y Hx Hy. induction i as [|i IH]; intros x y Hx Hy Hh.
  all: assert (x = y) as -> by (eapply Hinj; eauto using list_elem_of_lookup_2).
  all: rewrite (take_S_r l1 _ y), (take_S_r l2 _ y) by done.
  - done.
  - f_equal. destruct (chain_lookup l1 _ _ H1 Hx) as (p & Hp & _ & Hl). destruct (chain_lookup l2 _ _ H2 Hy) as (p' & Hp' & _ & Hl').
    rewrite Hp in Hp'. injection Hp' as <-.
    destruct (lookup_lt_is_Some_2 l1 i) as [u Hu]; [apply lookup_lt_Some in Hx; lia|].
    destruct (lookup_lt_is_Some_2 l2 i) as [v Hv]; [apply lookup_lt_Some in Hy; lia|].
    apply (IH u v Hu Hv). unfold last_hash in Hl, Hl'. rewrite (take_S_r _ _ _ Hu), last_snoc in Hl. rewrite (take_S_r _ _ _ Hv), last_snoc in Hl'. congruence.
Qed.

(** A pin fixes history. Two directories that verify against the same pin have the same lines up to the pinned one,
    byte for byte, unless two of their lines collide under the digest: nothing before a pin can be changed, removed,
    inserted or reordered without the verification saying so. *)
Theorem pin_fixes_history q d1 d2 v1 v2 :
  verify (Some q) d1 = Ok v1 -> verify (Some q) d2 = Ok v2 -> v_ok v1 = true -> v_ok v2 = true ->
  (forall u v, u ∈ lines_of (chain_files d1) -> v ∈ lines_of (chain_files d2) -> hashLine u = hashLine v -> u = v) ->
  take (Z.to_nat (pin_seq q)) (lines_of (chain_files d1)) = take (Z.to_nat (pin_seq q)) (lines_of (chain_files d2)).
Proof.
  intros H1 H2 O1 O2 Hinj. apply (verify_chain _ _ _ H1) in O1 as (_ & C1 & _ & (i & x & Ei & Hx & Hhx)).
  apply (verify_chain _ _ _ H2) in O2 as (_ & C2 & _ & (j & y & Ej & Hy & Hhy)).
  assert (j = i) as -> by lia. replace (Z.to_nat (pin_seq q)) with (S i) by lia.
  apply (same_prefix _ _ i x y); try done. congruence.
Qed.

(** ** Steps that may fail *)

(** What a call does to the disk: [Q] when it returns, [R] when an operation failed; no other fault, and without a fuse none at all. *)
Definition does {A} (P : World -> Prop) (m : SE World ChainFault A) (Q : A -> World -> Prop) (R : World -> Prop) : Prop :=
  forall w, P w -> match m w with
                   | (Ok a, w') => Q a w' /\ (fuse w = None -> fuse w' = None)
                   | (Err e, w') => e = Failed /\ R w' /\ fuse w <> None
                   end.

Lemma does_bind {A B} P (m : SE World ChainFault A) (k : A -> SE World ChainFault B) Q Q' R :
  does P m Q R -> (forall a, does (Q a) (k a) Q' R) -> does P (m ≫= k) Q' R.
Proof.
  intros Hm Hk w Hw. specialize (Hm w Hw). unfold mbind, SE_bind. destruct (m w) as [[a|e] w1]; [|done].
  destruct Hm as [HQ Hf]. specialize (Hk a w1 HQ). destruct (k a w1) as [[b|e] w2].
  - destruct Hk as [? Hf2]. split; [done|]. intros Hn. by apply Hf2, Hf.
  - destruct Hk as (-> & ? & Hn). split; [done|]. split; [done|]. intros E. by apply Hn, Hf.
Qed.

Lemma does_ret {A} (a : A) (P : World -> Prop) (Q : A -> World -> Prop) R : (forall w, P w -> Q a w) -> does P (mret a) Q R.
Proof. intros H w Hw. split; [by apply H|done]. Qed.

Lemma does_gets {A} (f : World -> A) P R : does P (gets f) (fun a w => P w /\ a = f w) R.
Proof. intros w Hw. by split. Qed.

Lemma does_pre {A} P P' (m : SE World ChainFault A) Q Q' R R' :
  does P m Q R -> (forall w, P' w -> P w) -> (forall a w, Q a w -> Q' a w) -> (forall w, R w -> R' w) -> does P' m Q' R'.
Proof.
  intros H HP HQ HR w Hw. specialize (H w (HP w Hw)). destruct (m w) as [[a|e] w1]; naive_solver.
Qed.

Lemma does_assume {A} (b : Prop) P (m : SE World ChainFault A) Q R : (b -> does P m Q R) -> does (fun w => P w /\ b) m Q R.
Proof. intros H w [Hw Hb]. by apply (H Hb w Hw). Qed.

(** Assertions about the disk alone. *)
Notation on_disk F := (fun w : World => F (disk w)).

Lemma does_step (whole broken : Disk -> Disk) P Q (R : World -> Prop) :
  (forall w, P w -> (forall f, Q tt {| disk := whole (disk w); ticks := ticks w; fuse := f; part := part w |}) /\
     forall f, R {| disk := broken (disk w); ticks := ticks w; fuse := f; part := part w |}) ->
  does P (step whole broken) Q R.
Proof.
  intros H w Hw. destruct (H w Hw) as [HQ HR]. unfold step. destruct (fuse w) as [[|n]|]; [split; [done|split; [apply HR|done]]|split; [apply HQ|done]..].
Qed.
End chain.
