(* ===== verification/AuditWrite.v ===== *)
(** * The audit chain under interrupted writes

    The shape of a directory whose last write may have been cut short, what every
    operation of the writer does to it when it returns and when it fails, and the
    recovery of the next append. *)

From S2P Require Import Prelude AuditChain AuditChainSpec.

Section chain.
Context (stringify : js -> bytes) (json_parse : bytes -> option js) (hashLine : bytes -> string) (redact : js -> option js).

Notation parse := (parse json_parse).
Notation readAnchor := (readAnchor json_parse).
Notation chain_of := (chain_of json_parse hashLine).
Notation last_hash := (last_hash hashLine).

(** ** Directories *)

Definition clean_line (l : bytes) : Prop := LF ∉ l /\ stripCr l = l.

(** Rotated files are called after their first line, which follows the last one of the file before. *)
Fixpoint named (q : Z) (R : list (Z * list bytes)) : Prop :=
  match R with [] => True | (n, ls) :: r => n = q /\ ls <> [] /\ named (q + Z.of_nat (length ls)) r end.

Notation body R := (concat (map snd R)).

(** The rotated files [R], the active file with the lines [A] and an unterminated tail [t], and all lines [L]. *)
Record shape (d : Disk) (R : list (Z * list bytes)) (A : list bytes) (t : bytes) (L : list bytes) : Prop := {
  sh_rotated : rotated d = map (fun g => (g.1, render g.2 [])) R;
  sh_active : active d = Some (render A t) \/ active d = None /\ A = [] /\ t = [];
  sh_named : named 1 R;
  sh_lines : L = body R ++ A;
  sh_clean : Forall clean_line L;
  sh_tail : LF ∉ t;
  sh_chain : chain_of L;
  sh_bound : Z.of_nat (length L) < 10000000000
}.

Definition Chain (d : Disk) (L : list bytes) (t : bytes) : Prop := exists R A, shape d R A t L.

Lemma named_app q R R' : named q (R ++ R') <-> named q R /\ named (q + Z.of_nat (length (body R))) R'.
Proof.
  revert q. induction R as [|[n ls] R IH]; intros q; cbn [app named map snd concat length]; [rewrite Z.add_0_r; tauto|].
  rewrite IH, length_app, Nat2Z.inj_add, Z.add_assoc. tauto.
Qed.

Lemma named_bound q R n ls : named q R -> (n, ls) ∈ R -> q <= n < q + Z.of_nat (length (body R)).
Proof.
  revert q. induction R as [|[m ks] R IH]; intros q; [by intros _ ?%elem_of_nil|]. cbn [named map snd concat]. intros (-> & Hk & HR).
  assert (0 < length ks)%nat by (destruct ks; cbn; [done|lia]).
  intros [[= -> ->]|Hin]%elem_of_cons; rewrite length_app, Nat2Z.inj_add; [lia|]. specialize (IH _ HR Hin). lia.
Qed.

Lemma strip_clean ls : Forall clean_line ls -> map stripCr ls = ls.
Proof. induction 1 as [|l ls [_ H] _ IH]; [done|]. cbn. by rewrite H, IH. Qed.

Lemma clean_unbroken ls t : Forall clean_line ls -> LF ∉ t -> unbroken ls t.
Proof. intros H Ht. split; [|done]. eapply list.Forall_impl; [exact H|]. by intros l [? _]. Qed.

Section facts.
Context (d : Disk) (R : list (Z * list bytes)) (A : list bytes) (t : bytes) (L : list bytes) (S : shape d R A t L).

Lemma shape_rotatedFiles : rotatedFiles d = map (fun g => (g.1, render g.2 [])) R.
Proof.
  unfold rotatedFiles. rewrite (sh_rotated _ _ _ _ _ S). pose proof (sh_named _ _ _ _ _ S) as Hn. pose proof (sh_bound _ _ _ _ _ S) as Hb.
  rewrite (sh_lines _ _ _ _ _ S), length_app, Nat2Z.inj_add in Hb.
  assert (forall g, g ∈ R -> listed g.1 = true) as Hall.
  { intros [n ls] Hin. pose proof (named_bound _ _ _ _ Hn Hin). unfold listed. cbn. lia. }
  clear -Hall. induction R as [|g R' IH]; [done|]. unfold bfilter in *. cbn. rewrite Hall by (by left). f_equal. apply IH. intros h Hh. apply Hall. by right.
Qed.

Lemma shape_clean_R g : g ∈ R -> Forall clean_line g.2.
Proof.
  intros Hin. pose proof (sh_clean _ _ _ _ _ S) as Hc. rewrite (sh_lines _ _ _ _ _ S) in Hc. apply Forall_app in Hc as [Hc _].
  apply list.Forall_forall. intros l Hl. apply (proj1 (list.Forall_forall _ _) Hc). clear -Hin Hl.
  induction R as [|h R' IH]; [by apply elem_of_nil in Hin|]. cbn. apply elem_of_app. apply elem_of_cons in Hin as [->|Hin]; [by left|right; by apply IH].
Qed.

Lemma shape_clean_A : Forall clean_line A.
Proof. pose proof (sh_clean _ _ _ _ _ S) as Hc. rewrite (sh_lines _ _ _ _ _ S) in Hc. by apply Forall_app in Hc as [_ Hc]. Qed.

Lemma read_rotated g : g ∈ R -> readLines (render g.2 []) = (g.2, None).
Proof.
  intros Hin. pose proof (shape_clean_R g Hin) as Hc. rewrite readLines_render by (by apply clean_unbroken; [|apply not_elem_of_nil]).
  by rewrite strip_clean.
Qed.

Lemma read_active : readLines (render A t) = (A, if bool_decide (t = []) then None else Some t).
Proof.
  pose proof shape_clean_A as Hc. rewrite readLines_render by (apply clean_unbroken; [done|apply (sh_tail _ _ _ _ _ S)]). by rewrite strip_clean.
Qed.

(** The lines of the directory are [L]. *)
Lemma shape_lines : lines_of (chain_files d) = L.
Proof.
  unfold chain_files, lines_of. rewrite shape_rotatedFiles, map_app, concat_app, (sh_lines _ _ _ _ _ S). f_equal.
  - rewrite !map_map. assert (forall g, g ∈ R -> (readLines (render g.2 [])).1 = g.2) as H by (intros g Hg; by rewrite read_rotated).
    clear -H. induction R as [|g R' IH]; [done|]. cbn. rewrite H by (by left). f_equal. apply IH. intros h Hh. apply H. by right.
  - destruct (sh_active _ _ _ _ _ S) as [->|(-> & -> & _)]; [|done]. cbn. by rewrite read_active, app_nil_r.
Qed.
End facts.

Lemma named_first q R n ls : named q R -> (n, ls) ∈ R -> exists q', q' = n /\ ls <> [] /\ exists R1 R2, R = R1 ++ (n, ls) :: R2 /\ n = q + Z.of_nat (length (body R1)).
Proof.
  intros Hn [R1 [R2 E]]%list_elem_of_split. rewrite E in Hn. apply named_app in Hn as [_ (E1 & Hl & _)]. exists n. split; [done|]. split; [done|].
  by exists R1, R2.
Qed.

(** The number of the first of some lines further down a chain. *)
Lemma chain_first l1 x l2 l3 : chain_of (l1 ++ (x :: l2) ++ l3) -> first_seq json_parse (x :: l2) = Some (1 + Z.of_nat (length l1)).
Proof.
  intros (_ & p & Hp & Hq & _)%linked_app. unfold first_seq. cbn. rewrite Hp. cbn. f_equal. lia.
Qed.

(** Without an unterminated tail every file is tidy. *)
Lemma shape_tidy d R A L : shape d R A [] L -> Forall (tidy json_parse) (chain_files d).
Proof.
  intros S. unfold chain_files. rewrite (shape_rotatedFiles _ _ _ _ _ S). apply Forall_app. split.
  - rewrite map_map. apply list.Forall_forall. intros f ([n ls] & -> & Hg)%elem_of_map. cbn [fst snd].
    unfold tidy. cbn [fst snd]. pose proof (read_rotated _ _ _ _ _ S _ Hg) as Hr. cbn [snd] in Hr. rewrite Hr. split; [done|]. cbn [fst].
    destruct (named_first _ _ _ _ (sh_named _ _ _ _ _ S) Hg) as (_ & _ & Hl & R1 & R2 & E & ->). destruct ls as [|x ls]; [done|].
    pose proof (sh_chain _ _ _ _ _ S) as Hc. rewrite (sh_lines _ _ _ _ _ S), E, map_app, concat_app, <- app_assoc in Hc. cbn [map concat snd] in Hc.
    rewrite <- app_assoc in Hc. by rewrite (chain_first _ _ _ _ Hc).
  - destruct (sh_active _ _ _ _ _ S) as [->|(-> & _)]; [|constructor]. constructor; [|constructor].
    unfold tidy. cbn [fst snd]. by rewrite (read_active _ _ _ _ _ S).
Qed.

(** ** The tail of a chain *)

Definition tail_at (L : list bytes) : Tail :=
  {| t_seq := Z.of_nat (length L); t_hash := last_hash GENESIS_HASH L; t_prev := last_hash GENESIS_HASH (removelast L) |}.

Lemma removelast_snoc {A} (l : list A) x : removelast (l ++ [x]) = l.
Proof. rewrite removelast_app by done. by rewrite app_nil_r. Qed.

Lemma parse_last L x : chain_of (L ++ [x]) -> exists p, parse x = Some p /\
  {| t_seq := p_seq p; t_hash := hashLine x; t_prev := p_prev p |} = tail_at (L ++ [x]).
Proof.
  intros (_ & p & Hp & Hq & Hh)%chain_snoc. exists p. split; [done|]. unfold tail_at, AuditChainSpec.last_hash. rewrite removelast_snoc, last_snoc, Hq, Hh.
  f_equal. rewrite length_app. cbn. lia.
Qed.

(** ** The anchor *)

Context (laws : chain_laws stringify json_parse hashLine).

Definition anchor_text (x : Anchor) : bytes :=
  stringify (JObj [("v", JNum (Fin 1)); ("seq", JNum (Fin (a_seq x))); ("hash", JStr (a_hash x))]) ++ [LF].

(** The anchor that pins the newest of some lines. *)
Definition end_of (L : list bytes) : Anchor := {| a_seq := Z.of_nat (length L); a_hash := last_hash GENESIS_HASH L |}.
Definition anchor_for (L : list bytes) : option bytes := match L with [] => None | _ => Some (anchor_text (end_of L)) end.

Lemma last_hash_hex L : HEX64 (last_hash GENESIS_HASH L) = true.
Proof. unfold AuditChainSpec.last_hash. destruct (list.last L); [apply (cl_hash _ _ _ laws)|reflexivity]. Qed.

Lemma read_anchor_text x : safe_int (a_seq x) = true -> 1 <= a_seq x -> HEX64 (a_hash x) = true -> readAnchor (Some (anchor_text x)) = TheAnchor x.
Proof.
  intros Hs Hl Hh. unfold AuditChain.readAnchor, anchor_text. rewrite (cl_newline _ _ _ laws) by done.
  set (v := JObj _). change (jget "v" v) with (JNum (Fin 1)). change (jget "seq" v) with (JNum (Fin (a_seq x))).
  change (jget "hash" v) with (JStr (a_hash x)). unfold num_safe, num_ltb. rewrite Hs, Hh, (proj2 (Z.ltb_ge _ _)) by lia. by destruct x.
Qed.

Lemma read_anchor_for L : Z.of_nat (length L) < 10000000000 ->
  readAnchor (anchor_for L) = match L with [] => NoAnchor | _ => TheAnchor (end_of L) end.
Proof.
  intros Hb. destruct L as [|x L]; [done|]. unfold anchor_for. apply read_anchor_text.
  - apply safe_int_range. unfold MAX_SAFE_INTEGER. cbn [a_seq end_of]. lia.
  - cbn [a_seq end_of length]. lia.
  - apply last_hash_hex.
Qed.

Lemma shape_tmp b d R A t L : shape d R A t L -> shape (set_tmp b d) R A t L.
Proof. intros []. by split. Qed.
Lemma shape_anchor b d R A t L : shape d R A t L -> shape (set_anchor b d) R A t L.
Proof. intros []. by split. Qed.

Notation writeAnchor := (writeAnchor stringify).

Lemma writeAnchor_does L a x :
  does (fun w => Chain (disk w) L [] /\ anchor (disk w) = a) (writeAnchor x)
    (fun _ w => Chain (disk w) L [] /\ anchor (disk w) = Some (anchor_text x)) (fun w => Chain (disk w) L [] /\ anchor (disk w) = a).
Proof.
  intros w [(R & A & S) Ha]. unfold AuditChain.writeAnchor. fold (anchor_text x). unfold mbind, SE_bind, gets, id, step.
  destruct (fuse w) as [[|[|n]]|]; cbn [disk fuse set_tmp set_anchor anchor anchor_tmp].
  - split; [done|]. split; [|done]. split; [exists R, A; by apply shape_tmp|done].
  - split; [done|]. split; [|done]. split; [exists R, A; by apply shape_tmp|done].
  - split; [|done]. split; [exists R, A; by apply shape_tmp, shape_anchor, shape_tmp|done].
  - split; [|done]. split; [exists R, A; by apply shape_tmp, shape_anchor, shape_tmp|done].
Qed.

(** ** Lines *)

(** An event that can be written: [assertRecordable], an actor JSON can hold, and a detail the redactor can. *)
Record loggable (e : ChainRecord) (detail : js) : Prop := {
  lg_recordable : assertRecordable e = true;
  lg_actor : json_value (e_actor e) = true;
  lg_redact : redact (e_detail e) = Some detail;
  lg_detail : json_value detail = true
}.

Notation line_of := (line_of stringify).

Lemma strip_no_cr l : CR ∉ l -> stripCr l = l.
Proof.
  intros H. unfold stripCr. destruct (list.last l) as [x|] eqn:E; [|done]. destruct (Z.eqb_spec x CR) as [->|]; [|done].
  exfalso. apply H. apply last_Some_elem_of in E. done.
Qed.

Lemma line_json q h e detail : loggable e detail ->
  json_value (JObj [("seq", JNum (Fin q)); ("prev", JStr h);
    ("rec", JObj [("at", e_at e); ("actor", e_actor e); ("action", e_action e); ("target", e_target e); ("detail", detail)])]) = true.
Proof.
  intros [Hr Ha _ Hd]. unfold assertRecordable in Hr. bool_hyps. cbn. rewrite Ha, Hd.
  destruct (e_at e) as [| | |[]| | |]; try done. destruct (e_action e); try done. cbn.
  destruct (e_target e); cbn in *; try done; bool_hyps; done.
Qed.

Lemma line_clean q h e detail : loggable e detail -> clean_line (line_of q h e detail).
Proof.
  intros H. pose proof (line_json q h e detail H) as Hj. destruct (cl_one_line _ _ _ laws _ Hj) as [H1 H2].
  split; [exact H1|]. by apply strip_no_cr.
Qed.

Lemma parse_line q h e detail : loggable e detail -> safe_int q = true -> 1 <= q -> HEX64 h = true ->
  exists p, parse (line_of q h e detail) = Some p /\ p_seq p = q /\ p_prev p = h.
Proof.
  intros H Hs Hq Hh. unfold AuditChain.parse, AuditChain.line_of. rewrite (cl_round_trip _ _ _ laws) by (by apply line_json).
  set (v := JObj _). change (jget "seq" v) with (JNum (Fin q)). change (jget "prev" v) with (JStr h).
  set (r := JObj [("at", e_at e); ("actor", e_actor e); ("action", e_action e); ("target", e_target e); ("detail", detail)]).
  change (jget "rec" v) with r. change (js_is_obj r) with true. unfold num_safe, num_ltb. rewrite Hs, Hh, (proj2 (Z.ltb_ge _ _)) by lia. cbn [negb orb].
  eexists. split; [reflexivity|by split].
Qed.

(** One more line after the last one. *)
Lemma shape_append d R A L e detail : shape d R A [] L -> Z.of_nat (length L) + 1 < 10000000000 -> loggable e detail ->
  let line := line_of (Z.of_nat (length L) + 1) (last_hash GENESIS_HASH L) e detail in
  shape (append_active (line ++ [LF]) d) R (A ++ [line]) [] (L ++ [line]) /\
  forall k, shape (append_active (take k (line ++ [LF])) d) R A (take k line) L \/
            shape (append_active (take k (line ++ [LF])) d) R (A ++ [line]) [] (L ++ [line]).
Proof.
  intros S Hb He line. pose proof (line_clean (Z.of_nat (length L) + 1) (last_hash GENESIS_HASH L) e detail He) as Hl. fold line in Hl.
  assert (Hact : forall b, active (append_active b d) = Some (render A [] ++ b)).
  { intros b. unfold append_active. cbn. destruct (sh_active _ _ _ _ _ S) as [->|(-> & -> & _)]; done. }
  assert (Hwhole : shape (append_active (line ++ [LF]) d) R (A ++ [line]) [] (L ++ [line])).
  { split; try apply S.
    - left. rewrite Hact, render_snoc. done.
    - rewrite (sh_lines _ _ _ _ _ S). by rewrite <- app_assoc.
    - apply Forall_app. split; [apply S|]. by constructor.
    - apply chain_snoc. split; [apply S|].
      apply parse_line; [done|apply safe_int_range; unfold MAX_SAFE_INTEGER; lia|lia|apply last_hash_hex].
    - rewrite length_app. cbn. lia. }
  split; [exact Hwhole|]. intros k. destruct (Nat.le_gt_cases k (length line)) as [Hk|Hk].
  - left. rewrite take_app_le by done. split; try apply S.
    + left. by rewrite Hact, <- render_tail.
    + intros Hin. apply elem_of_take in Hin as (i & Hi & _). destruct Hl as [Hl _]. apply Hl. by eapply list_elem_of_lookup_2.
  - right. rewrite take_ge; [exact Hwhole|]. rewrite length_app. cbn. lia.
Qed.

(** ** Reading the tail *)

Context (maxBytes : Z) (chunk : nat) (chunk_pos : (0 < chunk)%nat).

Notation tail_of := (tail_of json_parse hashLine chunk).
Notation tailState := (tailState json_parse hashLine chunk).
Notation rotateLocked := (rotateLocked json_parse chunk).

(** Reading the newest rotated file. *)
Lemma tail_rotated d R A t L w : shape d R A t L -> A = [] ->
  tail_of (map (fun f : Z * bytes => (Some f.1, f.2)) (reverse (rotatedFiles d))) w = (Ok (tail_at L), w).
Proof.
  intros S ->. rewrite (shape_rotatedFiles _ _ _ _ _ S). pose proof (sh_lines _ _ _ _ _ S) as HL. rewrite app_nil_r in HL.
  destruct R as [|[n ls] R _] using rev_ind; [by subst|]. rewrite map_app. cbn [map]. rewrite reverse_snoc. cbn [map fst snd AuditChain.tail_of].
  destruct (named_first _ _ n ls (sh_named _ _ _ _ _ S)) as (_ & _ & Hl & _); [apply elem_of_app; right; by left|].
  pose proof (shape_clean_R _ _ _ _ _ S (n, ls)) as Hc. cbn [snd] in Hc.
  assert (Forall clean_line ls) as Hcl by (apply Hc, elem_of_app; right; by left).
  rewrite scanTail_render; [|done|apply clean_unbroken; [done|apply not_elem_of_nil]]. cbn [snd fst].
  destruct ls as [|x ls _] using rev_ind; [done|]. rewrite last_snoc. cbn.
  apply Forall_app in Hcl as [_ [[_ Hx] _]%list.Forall_cons]. rewrite Hx.
  rewrite map_app, concat_app in HL. cbn [map concat snd] in HL. rewrite app_nil_r, app_assoc in HL.
  pose proof (sh_chain _ _ _ _ _ S) as Hch. rewrite HL in *. destruct (parse_last _ _ Hch) as (p & Hp & E).
  unfold mbind, SE_bind, mret, SE_ret. by rewrite Hp, E.
Qed.

Lemma scan_active A t : Forall clean_line A -> LF ∉ t ->
  scanTail chunk (render A t) = (list.last A, if bool_decide (t = []) then None else Some (length (render A []))).
Proof.
  intros Hc Ht. rewrite scanTail_render by (done || by apply clean_unbroken). f_equal.
  destruct A as [|x A _] using rev_ind; [done|]. rewrite last_snoc. cbn. apply Forall_app in Hc as [_ [[_ Hx] _]%list.Forall_cons]. by rewrite Hx.
Qed.

Lemma take_render A t : take (length (render A [])) (render A t) = render A [].
Proof. rewrite (render_tail A t). by rewrite take_app_length. Qed.

(** From the last line of the active file on, when its tail is gone. *)
Lemma tail_settled d R A t L w : shape d R A t L ->
  (match list.last A with
   | None => tail_of (map (fun f : Z * bytes => (Some f.1, f.2)) (reverse (rotatedFiles d)))
   | Some line => match parse line with
                  | None => throw TailMalformed
                  | Some p => mret {| t_seq := p_seq p; t_hash := hashLine line; t_prev := p_prev p |}
                  end
   end) w = (Ok (tail_at L), w).
Proof.
  intros S. destruct A as [|x A _] using rev_ind; [by eapply tail_rotated|]. rewrite last_snoc.
  pose proof (sh_chain _ _ _ _ _ S) as Hch. pose proof (sh_lines _ _ _ _ _ S) as HL. rewrite app_assoc in HL. rewrite HL in *.
  destruct (parse_last _ _ Hch) as (p & Hp & E). unfold mret, SE_ret. by rewrite Hp, E.
Qed.

Lemma shape_evidence b d R A t L : shape d R A t L -> shape (add_evidence b d) R A t L.
Proof. intros []. by split. Qed.

Lemma shape_cut d R A t L : shape d R A t L -> active d = Some (render A t) -> shape (cut None (length (render A [])) d) R A [] L.
Proof.
  intros [] Ha. split; try done; [|apply not_elem_of_nil]. left. unfold cut, set_active. cbn. rewrite Ha. cbn. by rewrite take_render.
Qed.

(** The newest line, after an interrupted write was moved away. *)
Lemma tailState_does L t a :
  does (fun w => Chain (disk w) L t /\ anchor (disk w) = a) tailState
    (fun st w => st = tail_at L /\ Chain (disk w) L [] /\ anchor (disk w) = a)
    (fun w => Chain (disk w) L t /\ anchor (disk w) = a).
Proof.
  intros w [(R & A & S) Ha]. unfold AuditChain.tailState. unfold mbind at 1, SE_bind at 1. unfold gets, id. unfold candidates.
  destruct (sh_active _ _ _ _ _ S) as [Hact|(Hact & EA & ->)]; rewrite Hact.
  - cbn [app AuditChain.tail_of]. rewrite (scan_active A t) by (apply (shape_clean_A _ _ _ _ _ S) || apply (sh_tail _ _ _ _ _ S)). cbn [fst snd].
    case_bool_decide as Ht; cbn [fst snd].
    + subst t. erewrite SE_bind_run by reflexivity. rewrite (tail_settled _ _ _ _ _ w S). split; [|done]. by repeat split; [exists R, A|].
    + rewrite take_render, (scan_active A []) by (apply (shape_clean_A _ _ _ _ _ S) || apply not_elem_of_nil). cbn [fst snd].
      unfold move_torn. unfold mbind at 1 2 3 4, SE_bind at 1 2 3 4. unfold gets, id, step. unfold mret at 1, SE_ret at 1.
      destruct (fuse w) as [[|[|n]]|] eqn:Hfu; cbn beta iota; cbn [disk ticks fuse part].
      * split; [done|]. split; [|done]. split; [exists R, A; by apply shape_evidence|done].
      * split; [done|]. split; [|done]. split; [exists R, A; by apply shape_evidence|done].
      * rewrite (tail_settled (disk w) R A t L _ S). cbn [disk fuse]. split; [|done]. split; [done|].
        split; [exists R, A; eapply (shape_cut (add_evidence _ _)); [by apply shape_evidence|exact Hact]|done].
      * rewrite (tail_settled (disk w) R A t L _ S). cbn [disk fuse]. split; [|done]. split; [done|].
        split; [exists R, A; eapply (shape_cut (add_evidence _ _)); [by apply shape_evidence|exact Hact]|done].
  - cbn [app]. rewrite (tail_rotated _ _ _ _ _ w S EA). split; [|done]. by repeat split; [exists R, A|].
Qed.

(** All that reading the tail may do to the directory: nothing, or put the unterminated tail (part of it, when that is cut short) with the evidence, and,
    once all of it is there, take it off the active file. *)
Definition tail_moved (d : Disk) (t : bytes) (d' : Disk) : Prop :=
  d' = d \/
  t <> [] /\ exists b got, active d = Some (b ++ t) /\ got `prefix_of` t /\
    (d' = add_evidence got d \/ got = t /\ d' = set_active (Some b) (add_evidence t d)).

Lemma move_torn_run b k w : exists r w', move_torn None b k w = (r, w') /\
  disk w' = match fuse w with
            | Some O => add_evidence (take (part w) (drop k b)) (disk w)
            | Some 1%nat => add_evidence (drop k b) (disk w)
            | _ => cut None k (add_evidence (drop k b) (disk w))
            end.
Proof. unfold move_torn, mbind, SE_bind, gets, id, step. destruct (fuse w) as [[|[|n]]|]; cbn beta iota; by eexists _, _. Qed.

Lemma tailState_moves L t w : Chain (disk w) L t -> tail_moved (disk w) t (disk (tailState w).2).
Proof.
  intros (R & A & S). unfold AuditChain.tailState. unfold mbind at 1, SE_bind at 1. unfold gets, id. unfold candidates.
  destruct (sh_active _ _ _ _ _ S) as [Hact|(Hact & EA & ->)]; rewrite Hact; cbn [app]; [|rewrite (tail_rotated _ _ _ _ _ w S EA); by left].
  cbn [AuditChain.tail_of]. rewrite (scan_active A t) by (apply (shape_clean_A _ _ _ _ _ S) || apply (sh_tail _ _ _ _ _ S)). cbn [fst snd].
  case_bool_decide as Ht; cbn [fst snd]; [subst t; erewrite SE_bind_run by reflexivity; rewrite (tail_settled _ _ _ _ _ w S); by left|].
  rewrite take_render, (scan_active A []) by (apply (shape_clean_A _ _ _ _ _ S) || apply not_elem_of_nil). cbn [fst snd].
  destruct (move_torn_run (render A t) (length (render A [])) w) as (r & w' & Hr & Hd). unfold mbind at 1 2, SE_bind at 1 2. rewrite Hr.
  assert (Hdisk : disk (match (match r with Ok _ => (mret (list.last A) : SE World ChainFault (option bytes)) w' | Err e => (Err e, w') end) with
    | (Ok last, s') => (match last with
       | None => tail_of (map (fun f : Z * bytes => (Some f.1, f.2)) (reverse (rotatedFiles (disk w))))
       | Some line => match parse line with None => throw TailMalformed | Some p => mret {| t_seq := p_seq p; t_hash := hashLine line; t_prev := p_prev p |} end
       end) s'
    | (Err e, s') => (Err e, s') end).2 = disk w').
  { destruct r; [|done]. unfold mret at 1, SE_ret at 1. by rewrite (tail_settled (disk w) R A t L w' S). }
  assert (Hgot : tail_moved (disk w) t (disk w')); [|by destruct r; [rewrite <- Hdisk in Hgot|]].
  right. split; [done|]. exists (render A []). rewrite <- (render_tail A t).
  assert (Hdrop : drop (length (render A [])) (render A t) = t) by (rewrite (render_tail A t); apply drop_app_length).
  assert (Hcut : cut None (length (render A [])) (add_evidence t (disk w)) = set_active (Some (render A [])) (add_evidence t (disk w))).
  { unfold cut, set_active. cbn. rewrite Hact. cbn. by rewrite take_render. }
  rewrite Hdrop, ?Hcut in Hd. destruct (fuse w) as [[|[|n]]|]; rewrite Hd; [exists (take (part w) t)|exists t..].
  - split; [done|]. split; [apply prefix_take|by left].
  - split; [done|]. split; [done|by left].
  - split; [done|]. split; [done|]. right. by split.
  - split; [done|]. split; [done|]. right. by split.
Qed.

(** ** Rotation *)

Lemma insert_last n b l : (forall g, g ∈ l -> g.1 < n) -> insert_rotated n b l = l ++ [(n, b)].
Proof.
  induction l as [|g l IH]; intros H; [done|]. cbn. rewrite (proj2 (Z.ltb_ge _ _)).
  - by rewrite IH by (intros h Hh; apply H; by right).
  - specialize (H g ltac:(left)). lia.
Qed.

(** The active file becomes the newest rotated one. *)
Lemma shape_rotate d R x A L : shape d R (x :: A) [] L ->
  let n := 1 + Z.of_nat (length (body R)) in
  (exists p, parse x = Some p /\ p_seq p = n) /\ (forall g, g ∈ rotated d -> g.1 < n) /\
  shape (set_active None (set_rotated (insert_rotated n (render (x :: A) []) (rotated d)) d)) (R ++ [(n, x :: A)]) [] [] L.
Proof.
  intros S n.
  assert (forall g, g ∈ rotated d -> g.1 < n) as Hlt.
  { rewrite (sh_rotated _ _ _ _ _ S). intros g ([m ls] & -> & Hg)%elem_of_map. pose proof (named_bound _ _ _ _ (sh_named _ _ _ _ _ S) Hg). cbn. lia. }
  split; [|split; [done|]].
  - pose proof (sh_chain _ _ _ _ _ S) as Hc. rewrite (sh_lines _ _ _ _ _ S) in Hc. apply linked_app in Hc as (_ & p & Hp & Hq & _). by exists p.
  - split; cbn [set_active set_rotated rotated active].
    + rewrite insert_last by done. rewrite (sh_rotated _ _ _ _ _ S), map_app. done.
    + by right.
    + apply named_app. split; [apply S|]. cbn. split; [lia|done].
    + rewrite (sh_lines _ _ _ _ _ S), map_app, concat_app. cbn. by rewrite !app_nil_r.
    + apply S.
    + apply not_elem_of_nil.
    + apply S.
    + apply S.
Qed.

Lemma rotateLocked_does L a :
  does (fun w => Chain (disk w) L [] /\ anchor (disk w) = a) rotateLocked
    (fun _ w => Chain (disk w) L [] /\ anchor (disk w) = a) (fun w => Chain (disk w) L [] /\ anchor (disk w) = a).
Proof.
  intros w [(R & A & S) Ha]. unfold AuditChain.rotateLocked. unfold mbind at 1, SE_bind at 1. unfold gets, id.
  destruct (sh_active _ _ _ _ _ S) as [Hact|(Hact & _)]; rewrite Hact; [|split; [split; [by exists R, A|done]|done]].
  pose proof (shape_clean_A _ _ _ _ _ S) as HA. rewrite firstLine_render by (done || (apply clean_unbroken; [done|apply not_elem_of_nil])).
  destruct A as [|x A]; [split; [split; [by exists R, []|done]|done]|]. cbn [head fmap option_fmap option_map].
  apply list.Forall_cons in HA as [[_ Hx] _]. rewrite Hx. destruct (shape_rotate _ _ _ _ _ S) as ((p & Hp & Hq) & Hlt & S').
  rewrite Hp, Hq. rewrite existsb_none by (intros g Hg; apply Hlt in Hg; lia).
  unfold mbind, SE_bind, step. destruct (fuse w) as [[|n]|]; cbn [disk fuse].
  - split; [done|]. split; [|done]. split; [by exists R, (x :: A)|done].
  - split; [|done]. split; [by eexists _, _|done].
  - split; [|done]. split; [by eexists _, _|done].
Qed.

(** ** Writing a line *)

Notation writeLine := (writeLine stringify json_parse hashLine redact maxBytes chunk).

(** [x] is the line of event [e]. *)
Definition carries (e : ChainRecord) (x : bytes) : Prop := exists q h detail, redact (e_detail e) = Some detail /\ x = line_of q h e detail.

Lemma writeLine_does L e detail a : Z.of_nat (length L) + 1 < 10000000000 -> loggable e detail ->
  does (fun w => Chain (disk w) L [] /\ anchor (disk w) = a) (writeLine (tail_at L) e)
    (fun st w => exists x, carries e x /\ st = tail_at (L ++ [x]) /\ Chain (disk w) (L ++ [x]) [] /\ anchor (disk w) = anchor_for (L ++ [x]))
    (fun w => anchor (disk w) = a /\ ((exists t, Chain (disk w) L t) \/ exists x, carries e x /\ Chain (disk w) (L ++ [x]) [])).
Proof.
  intros Hb He. unfold AuditChain.writeLine.
  eapply does_bind with (Q := fun w1 w => (Chain (disk w) L [] /\ anchor (disk w) = a)).
  { intros w Hw. by split. }
  intros w1. eapply does_bind with (Q := fun st w => st = tail_at L /\ (Chain (disk w) L [] /\ anchor (disk w) = a)).
  { destruct (match active (disk w1) with Some _ => _ | None => _ end).
    - assert (Hweak : forall w : World, Chain (disk w) L [] /\ anchor (disk w) = a ->
          anchor (disk w) = a /\ ((exists t, Chain (disk w) L t) \/ exists x, carries e x /\ Chain (disk w) (L ++ [x]) []))
        by (intros w [Hc Ha]; split; [done|]; left; by exists []).
      eapply does_bind with (Q := fun _ w => Chain (disk w) L [] /\ anchor (disk w) = a).
      { eapply does_pre; [apply (rotateLocked_does L a)|done|done|exact Hweak]. }
      intros _.
      eapply does_pre; [apply (tailState_does L [] a)|done|done|exact Hweak].
    - apply does_ret. intros w Hw. by split. }
  intros st w [-> [(R & A & S) Ha]]. rewrite (lg_redact _ _ He). unfold mbind at 1, SE_bind at 1. unfold gets, id. cbv zeta.
  change (t_seq (tail_at L)) with (Z.of_nat (length L)). change (t_hash (tail_at L)) with (last_hash GENESIS_HASH L).
  set (line := line_of (Z.of_nat (length L) + 1) (last_hash GENESIS_HASH L) e detail).
  destruct (shape_append _ _ _ _ _ _ S Hb He) as [Hw Hk]. fold line in Hw, Hk.
  assert (Htail : {| t_seq := Z.of_nat (length L) + 1; t_hash := hashLine line; t_prev := last_hash GENESIS_HASH L |} = tail_at (L ++ [line])).
  { unfold tail_at, AuditChainSpec.last_hash. rewrite removelast_snoc, last_snoc. f_equal. rewrite length_app. cbn. lia. }
  assert (Hend : {| a_seq := Z.of_nat (length L) + 1; a_hash := hashLine line |} = end_of (L ++ [line])).
  { unfold end_of, AuditChainSpec.last_hash. rewrite last_snoc. f_equal. rewrite length_app. cbn. lia. }
  assert (Hfor : Some (anchor_text (end_of (L ++ [line]))) = anchor_for (L ++ [line])) by (unfold anchor_for; by destruct L).
  unfold mbind at 1, SE_bind at 1. unfold step.
  assert (Hgo : forall w1, disk w1 = append_active (line ++ [LF]) (disk w) ->
    match (writeAnchor {| a_seq := Z.of_nat (length L) + 1; a_hash := hashLine line |} ;; mret {| t_seq := Z.of_nat (length L) + 1; t_hash := hashLine line; t_prev := last_hash GENESIS_HASH L |}) w1 with
    | (Ok st, w') => (exists x, carries e x /\ st = tail_at (L ++ [x]) /\ Chain (disk w') (L ++ [x]) [] /\ anchor (disk w') = anchor_for (L ++ [x])) /\ (fuse w1 = None -> fuse w' = None)
    | (Err f, w') => f = Failed /\ (anchor (disk w') = a /\ ((exists t, Chain (disk w') L t) \/ exists x, carries e x /\ Chain (disk w') (L ++ [x]) [])) /\ fuse w1 <> None
    end).
  { intros w2 Hd. rewrite Hend, Htail.
    pose proof (writeAnchor_does (L ++ [line]) a (end_of (L ++ [line])) w2) as Hwa.
    assert (Chain (disk w2) (L ++ [line]) [] /\ anchor (disk w2) = a) as Hpre by (rewrite Hd; split; [by eexists _, _|exact Ha]).
    specialize (Hwa Hpre). unfold mbind, SE_bind. destruct (writeAnchor (end_of (L ++ [line])) w2) as [[u|f] w3].
    - destruct Hwa as [[Hc Han] Hfu]. split; [|done]. exists line. split; [by eexists _, _, _; split; [apply He|]|]. split; [done|].
      split; [done|]. by rewrite Han.
    - destruct Hwa as (-> & [Hc Han] & Hfu). split; [done|]. split; [|done]. split; [done|]. right. exists line. by split; [eexists _, _, _; split; [apply He|]|]. }
  destruct (fuse w) as [[|n]|] eqn:Hfu.
  - split; [done|]. split; [|done]. split; [exact Ha|]. destruct (Hk (part w)) as [H|H]; [left; eexists; by eexists _, _|right].
    exists line. split; [by eexists _, _, _; split; [apply He|]|by eexists _, _].
  - specialize (Hgo {| disk := append_active (line ++ [LF]) (disk w); ticks := ticks w; fuse := Some n; part := part w |} eq_refl).
    cbn [fuse] in Hgo. match type of Hgo with (let (_, _) := ?m in _) => destruct m as [[st|f] w3] end; [split; [apply Hgo|done]|].
    destruct Hgo as (Hf & Hr & _). by split; [|split].
  - exact (Hgo {| disk := append_active (line ++ [LF]) (disk w); ticks := ticks w; fuse := None; part := part w |} eq_refl).
Qed.
End chain.
