(* ===== verification/AuditRecover.v ===== *)
(** * Recovery of the audit chain

    An append to a directory whose last append was cut short at any operation on the
    disk, or was not: it completes, or it fails and leaves such a directory again;
    nothing that was written is lost, and what it records of a recovery is in the chain. *)

From S2P Require Import Prelude AuditChain AuditChainSpec AuditWrite.

(** What the writer's clock, its identity and the redactor are relied on for: they make an event that can be recorded. *)
Record writer_laws (redact : js -> option js) (clk : nat -> Z) (actorOfThisProcess : js) : Prop := {
  wl_clock : forall n, 0 <= clk n;
  wl_actor : js_is_obj actorOfThisProcess = true /\ js_is_str (jget "user" actorOfThisProcess) = true /\ js_is_str (jget "host" actorOfThisProcess) = true;
  wl_json : json_value actorOfThisProcess = true;
  wl_redact : forall a b s, exists detail, redact (JObj [("fromSeq", JNum (Fin a)); ("toSeq", JNum (Fin b)); ("writer", JStr s)]) = Some detail /\ json_value detail = true
}.

Section chain.
Context (stringify : js -> bytes) (json_parse : bytes -> option js) (hashLine : bytes -> string) (redact : js -> option js).
Context (maxBytes : Z) (chunk : nat) (clk : nat -> Z) (actorOfThisProcess : js).
Context (laws : chain_laws stringify json_parse hashLine) (wlaws : writer_laws redact clk actorOfThisProcess) (chunk_pos : (0 < chunk)%nat).

Notation readAnchor := (readAnchor json_parse).
Notation chain_of := (chain_of json_parse hashLine).
Notation last_hash := (last_hash hashLine).
Notation Chain := (Chain json_parse hashLine).
Notation tail_at := (tail_at hashLine).
Notation end_of := (end_of hashLine).
Notation anchor_for := (anchor_for stringify hashLine).
Notation carries := (AuditWrite.carries stringify redact).
Notation advanced_event := (advanced_event actorOfThisProcess).
Notation append := (append stringify json_parse hashLine redact maxBytes chunk clk actorOfThisProcess).

(** ** What an interrupted append leaves *)

(** The chain of the lines [L] is whole and its anchor names the last one. *)
Definition intact (d : Disk) (L : list bytes) : Prop := Chain d L [] /\ anchor d = anchor_for L.

(** The lines [L], a cut-short one perhaps, and an anchor that names the last line or the one before it. *)
Definition interrupted (d : Disk) (L : list bytes) : Prop :=
  L <> [] /\ (exists t, Chain d L t) /\
  (anchor d = anchor_for L \/ exists L' x, L = L' ++ [x] /\ L' <> [] /\ anchor d = anchor_for L').

Lemma intact_interrupted d L : L <> [] -> intact d L -> interrupted d L.
Proof. intros HL [Hc Ha]. split; [done|]. split; [by exists []|by left]. Qed.

(** A line about a recovery. *)
Definition recovery (x : bytes) : Prop := exists at_ from to, carries (advanced_event at_ from to) x.

Lemma chain_bound d L t : Chain d L t -> Z.of_nat (length L) < 10000000000.
Proof. intros (R & A & S). apply S. Qed.

Lemma anchor_for_cons L : L <> [] -> Z.of_nat (length L) < 10000000000 -> readAnchor (anchor_for L) = TheAnchor (end_of L).
Proof. intros HL Hb. rewrite read_anchor_for by done. by destruct L. Qed.

(** An anchor on the last line agrees; one on the line before is to be advanced. *)
Lemma judge_last L : judge (tail_at L) (TheAnchor (end_of L)) = Agree.
Proof. unfold judge. cbn. by rewrite Z.ltb_irrefl, Z.eqb_refl, String.eqb_refl. Qed.

Lemma judge_before L x : judge (tail_at (L ++ [x])) (TheAnchor (end_of L)) = Advance.
Proof.
  unfold judge, AuditWrite.tail_at, AuditWrite.end_of. cbn [t_seq t_prev t_hash a_seq a_hash].
  rewrite removelast_snoc, length_app. cbn [length].
  rewrite (proj2 (Z.ltb_ge _ _)), (proj2 (Z.eqb_neq (Z.of_nat (length L)) _)), (proj2 (Z.eqb_eq (Z.of_nat (length L + 1)) _)) by lia.
  cbn [andb]. by rewrite String.eqb_refl.
Qed.

Lemma concat_reverse {A B} (h : A -> list B) (l : list A) : concat (map (fun x => reverse (h x)) (reverse l)) = reverse (concat (map h l)).
Proof.
  induction l as [|x l IH]; [done|]. rewrite reverse_cons, map_app, concat_app, IH. cbn [map concat]. by rewrite app_nil_r, reverse_app.
Qed.

Lemma candidates_reverse d : candidates d = reverse (chain_files d).
Proof. unfold candidates, chain_files. rewrite reverse_app. f_equal; [by destruct (active d)|]. apply list.fmap_reverse. Qed.

(** The lines of the directory from its end. *)
Lemma lines_backwards d R A t L : shape json_parse hashLine d R A t L ->
  concat (map (fun f : option Z * bytes => reverse (readLines f.2).1) (candidates d)) = reverse L.
Proof.
  intros S. rewrite <- (shape_lines _ _ _ _ _ _ _ S), candidates_reverse.
  apply (concat_reverse (fun f : option Z * bytes => (readLines f.2).1)).
Qed.

Lemma line_before_hashes d L x : Chain d (L ++ [x]) [] -> L <> [] -> lineBeforeTailHashes hashLine d (t_prev (tail_at (L ++ [x]))) = true.
Proof.
  intros (R & A & S) HL. unfold lineBeforeTailHashes. rewrite (lines_backwards _ _ _ _ _ S). destruct L as [|y L _] using rev_ind; [done|].
  rewrite !reverse_snoc. unfold AuditWrite.tail_at, AuditChainSpec.last_hash. cbn [t_prev]. rewrite removelast_snoc, last_snoc. apply String.eqb_refl.
Qed.

Lemma advanced_loggable at_ from to : 0 <= at_ -> exists detail, loggable redact (advanced_event at_ from to) detail.
Proof.
  intros Ht. destruct (wl_redact _ _ _ wlaws from to "core") as (detail & Hr & Hj). exists detail. split; [|apply wlaws|exact Hr|exact Hj].
  unfold assertRecordable, AuditChain.advanced_event. cbn [e_at e_actor e_action e_target e_detail js_is_str js_is_obj orb].
  destruct (wl_actor _ _ _ wlaws) as (-> & -> & ->). by rewrite (proj2 (Z.leb_le _ _)).
Qed.

(** ** An append *)

(** What an append of [e] adds to the lines [L]. *)
Definition grown (e : ChainRecord) (L : list bytes) (w : World) : Prop :=
  exists pre x, (length pre <= 1)%nat /\ Forall recovery pre /\ carries e x /\ intact (disk w) (L ++ pre ++ [x]).
Definition cut_short (e : ChainRecord) (L : list bytes) (w : World) : Prop :=
  exists new, (length new <= 2)%nat /\ Forall (fun x => carries e x \/ recovery x) new /\ interrupted (disk w) (L ++ new).

Lemma writeLine_does' L e detail : L <> [] -> Z.of_nat (length L) + 1 < 10000000000 -> loggable redact e detail ->
  does (fun w => intact (disk w) L) (writeLine stringify json_parse hashLine redact maxBytes chunk (tail_at L) e)
    (fun st w => exists x, carries e x /\ st = tail_at (L ++ [x]) /\ intact (disk w) (L ++ [x]))
    (fun w => exists new, (length new <= 1)%nat /\ Forall (carries e) new /\ interrupted (disk w) (L ++ new)).
Proof.
  intros HL Hb He. eapply does_pre; [by eapply (writeLine_does _ _ _ _ laws maxBytes chunk chunk_pos L e detail (anchor_for L))|done|done|].
  intros w [Ha [Hc|(x & Hx & Hc)]].
  - exists []. rewrite app_nil_r. split; [cbn; lia|]. split; [constructor|]. split; [done|]. split; [done|by left].
  - exists [x]. split; [done|]. split; [by constructor|]. split; [by destruct L|]. split; [by exists []|]. right. by exists L, x.
Qed.

(** After [pre], whose lines tell of a recovery. *)
Lemma last_write e detail L pre : (length pre <= 1)%nat -> Forall recovery pre -> L <> [] -> Z.of_nat (length L) + 2 < 10000000000 ->
  loggable redact e detail ->
  does (fun w => intact (disk w) (L ++ pre)) (_ ← writeLine stringify json_parse hashLine redact maxBytes chunk (tail_at (L ++ pre)) e; mret tt)
    (fun _ => grown e L) (cut_short e L).
Proof.
  intros Hn Hp HL Hb He. eapply does_bind with (Q := fun _ w => grown e L w).
  - eapply does_pre; [apply (writeLine_does' (L ++ pre) e detail)| | |]; try done.
    + by destruct L.
    + rewrite length_app. lia.
    + intros st w (x & Hx & _ & Hi). exists pre, x. rewrite app_assoc. by repeat (split; [done|]).
    + intros w (new & Hl & Hf & Hi). exists (pre ++ new). rewrite length_app, app_assoc. split; [lia|]. split; [|done].
      apply Forall_app. split; (eapply list.Forall_impl; [eassumption|]); intros x Hx; [by right|by left].
  - intros _. by apply does_ret.
Qed.

(** An anchor that an interrupted append may leave on the lines [L]. *)
Definition trails (a : option bytes) (L : list bytes) : Prop :=
  a = anchor_for L \/ exists L' x, L = L' ++ [x] /\ L' <> [] /\ a = anchor_for L'.

Lemma untouched e L t a w : L <> [] -> trails a L -> Chain (disk w) L t /\ anchor (disk w) = a -> cut_short e L w.
Proof.
  intros HL Ha [Hc <-]. exists []. rewrite app_nil_r. split; [cbn; lia|]. split; [constructor|]. split; [done|]. split; [by exists t|done].
Qed.

(** The anchor catches up, the recovery is recorded, and the event is. *)
Lemma catch_up e detail L a : L <> [] -> trails a L -> Z.of_nat (length L) + 2 < 10000000000 -> loggable redact e detail ->
  does (fun w => Chain (disk w) L [] /\ anchor (disk w) = a)
    (writeAnchor stringify {| a_seq := t_seq (tail_at L); a_hash := t_hash (tail_at L) |} ;;
     at_ ← now clk;
     st ← writeLine stringify json_parse hashLine redact maxBytes chunk (tail_at L) (advanced_event at_ (t_seq (tail_at L) - 1) (t_seq (tail_at L)));
     _ ← writeLine stringify json_parse hashLine redact maxBytes chunk st e; mret tt)
    (fun _ => grown e L) (cut_short e L).
Proof.
  intros HL Ha Hb He. eapply does_bind with (Q := fun _ w => intact (disk w) L).
  { eapply does_pre; [apply (writeAnchor_does stringify json_parse hashLine L a (end_of L))|done| |by intros w; apply untouched].
    intros _ w [Hc Hw]. split; [done|]. rewrite Hw. by destruct L. }
  intros _. eapply does_bind with (Q := fun at_ w => 0 <= at_ /\ intact (disk w) L).
  { intros w Hw. split; [|done]. split; [apply (wl_clock _ _ _ wlaws)|exact Hw]. }
  intros at_ w [Hat Hw]. revert w Hw. destruct (advanced_loggable at_ (t_seq (tail_at L) - 1) (t_seq (tail_at L)) Hat) as [d Hd].
  eapply does_bind with (Q := fun st w => exists x, recovery x /\ st = tail_at (L ++ [x]) /\ intact (disk w) (L ++ [x])).
  - eapply does_pre; [apply (writeLine_does' L _ d HL ltac:(lia) Hd)|done| |].
    + intros st w (x & Hx & Hi). exists x. split; [by eexists _, _, _|exact Hi].
    + intros w (new & Hl & Hf & Hi). exists new. split; [lia|]. split; [|done].
      eapply list.Forall_impl; [exact Hf|]. intros x Hx. right. by eexists _, _, _.
  - intros st w (x & Hx & -> & Hi). apply (last_write e detail L [x]); try done. by constructor.
Qed.

Lemma append_does L e detail : Z.of_nat (length L) + 2 < 10000000000 -> loggable redact e detail ->
  does (fun w => interrupted (disk w) L) (append e) (fun _ => grown e L) (cut_short e L).
Proof.
  intros Hb He w0 (HL & [t Hc0] & Ha). set (a := anchor (disk w0)) in *. change (trails a L) in Ha.
  assert (H : does (fun w => Chain (disk w) L t /\ anchor (disk w) = a) (append e) (fun _ => grown e L) (cut_short e L)); [|by apply H].
  unfold AuditChain.append. rewrite (lg_recordable _ _ _ He). cbn [negb].
  eapply does_bind with (Q := fun st w => st = tail_at L /\ Chain (disk w) L [] /\ anchor (disk w) = a).
  { eapply does_pre; [apply (tailState_does _ _ chunk chunk_pos L t a)|done|done|by intros w; apply untouched]. }
  intros st. eapply does_bind with (Q := fun w1 w => w1 = w /\ st = tail_at L /\ Chain (disk w) L [] /\ anchor (disk w) = a).
  { intros w Hw. by split. }
  intros w1 w (-> & -> & Hc & Hw). rewrite Hw. destruct Ha as [->|(L' & x & -> & HL' & ->)].
  - rewrite anchor_for_cons, judge_last by first [done|lia]. pose proof (last_write e detail L []) as Hl. rewrite app_nil_r in Hl. apply Hl; [cbn; lia|constructor|done..].
  - pose proof (chain_bound _ _ _ Hc) as Hn. rewrite length_app in Hn. cbn in Hn. rewrite anchor_for_cons, judge_before by first [done|lia].
    rewrite line_before_hashes by done. cbn [negb]. apply (catch_up e detail _ (anchor_for L')); try done. by right; exists L', x.
Qed.

(** ** Many appends, any of them interrupted *)

(** One call: its event, and after how many operations on the disk it is cut short and how much of the next one is done. *)
Definition attempt (w : World) (c : ChainRecord * option nat * nat) : World :=
  (append c.1.1 {| disk := disk w; ticks := ticks w; fuse := c.1.2; part := c.2 |}).2.

Definition can_log (e : ChainRecord) : Prop := exists detail, loggable redact e detail.

Lemma attempt_keeps w L e f k : interrupted (disk w) L -> Z.of_nat (length L) + 2 < 10000000000 -> can_log e ->
  exists new, (length new <= 2)%nat /\ Forall (fun x => carries e x \/ recovery x) new /\ interrupted (disk (attempt w (e, f, k))) (L ++ new).
Proof.
  intros Hi Hb [detail He]. unfold attempt. cbn [fst snd].
  pose proof (append_does L e detail Hb He {| disk := disk w; ticks := ticks w; fuse := f; part := k |} Hi) as H.
  destruct (append e _) as [[u|err] w1]; cbn [snd].
  - destruct H as [(pre & x & Hl & Hp & Hx & Ht) _]. exists (pre ++ [x]). split; [rewrite length_app; cbn; lia|]. split.
    + apply Forall_app. split; [|constructor; [by left|constructor]]. eapply list.Forall_impl; [exact Hp|]. by right.
    + apply intact_interrupted; [|done]. by destruct L, pre.
  - by destruct H as (_ & H & _).
Qed.

Lemma attempts_keep l : forall w L, interrupted (disk w) L -> Z.of_nat (length L) + 2 * Z.of_nat (length l) < 10000000000 ->
  Forall (fun c => can_log c.1.1) l ->
  exists new, (length new <= 2 * length l)%nat /\ Forall (fun x => recovery x \/ exists c, c ∈ l /\ carries c.1.1 x) new /\
    interrupted (disk (fold_left attempt l w)) (L ++ new).
Proof.
  induction l as [|[[e f] k] l IH]; intros w L Hi Hb Hl; cbn [fold_left].
  - exists []. rewrite app_nil_r. split; [done|]. by split; [constructor|].
  - apply list.Forall_cons in Hl as [He Hl]. cbn [length] in Hb.
    destruct (attempt_keeps w L e f k Hi ltac:(lia) He) as (n1 & H1 & F1 & I1).
    destruct (IH _ (L ++ n1) I1) as (n2 & H2 & F2 & I2); [rewrite length_app; lia|done|].
    exists (n1 ++ n2). rewrite length_app, app_assoc. split; [cbn [length]; lia|]. split; [|done]. apply Forall_app. split.
    + eapply list.Forall_impl; [exact F1|]. intros x [Hx|Hx]; [right; exists (e, f, k); by split; [left|]|by left].
    + eapply list.Forall_impl; [exact F2|]. intros x [Hx|(c & Hc & Hx)]; [by left|right; exists c; by split; [right|]].
Qed.

(** An intact directory verifies, and its anchor names the last line. *)
Lemma hash_at_end L : L <> [] -> hash_at hashLine (Z.of_nat (length L)) L = Some (last_hash GENESIS_HASH L).
Proof.
  intros HL. destruct L as [|x L _] using rev_ind; [done|]. rewrite hash_at_snoc, length_app. cbn.
  rewrite (proj2 (Z.eqb_eq _ _)) by lia. unfold AuditChainSpec.last_hash. by rewrite last_snoc.
Qed.

Lemma intact_verifies d L : L <> [] -> intact d L ->
  exists v, verify json_parse hashLine None d = Ok v /\ v_ok v = true /\ v_records v = length L /\ v_anchor v = (AMatch, Some (Z.of_nat (length L))).
Proof.
  intros HL [Hc Ha]. pose proof (chain_bound _ _ _ Hc) as Hb. destruct Hc as (R & A & S).
  assert (exists v, verify json_parse hashLine None d = Ok v) as [v Hv] by (unfold verify; destruct (anchor_status _ _ _); by eexists).
  exists v. split; [done|]. pose proof (shape_tidy _ _ _ _ _ _ S) as Ht. pose proof (shape_lines _ _ _ _ _ _ _ S) as Hl.
  assert (Hread : readAnchor (anchor d) = TheAnchor (end_of L)) by (rewrite Ha; by apply anchor_for_cons).
  pose proof (hash_at_end L HL) as He. split.
  - apply (verify_chain _ _ _ _ _ Hv). rewrite Hl, Hread. split; [done|]. split; [apply S|]. split; [|done].
    unfold anchored. apply hash_at_iff. exact He.
  - apply verify_run in Hv as (_ & last & _ & Hr & _ & Hst). cbv zeta in *. rewrite Hread in *.
    pose proof (scan_files_clean json_parse hashLine _ None _ [] _ (clean_fresh json_parse hashLine (TheAnchor (end_of L)) None) Ht) as Hcl.
    cbn [app] in Hcl. rewrite Hl in Hcl. destruct (Hcl (sh_chain _ _ _ _ _ _ _ S)) as (_ & _ & Hn & Hq & _ & _ & _ & Hh & _).
    rewrite Hr, Hst. split; [exact Hn|]. unfold anchor_status. cbn [a_seq a_hash AuditWrite.end_of]. rewrite Hq, Hh, Z.ltb_irrefl, Z.eqb_refl.
    cbn [a_seq AuditWrite.end_of]. by rewrite He, bool_decide_eq_true_2.
Qed.

(** (C24) Recovery. Start from a chain of at least one line with an anchor on the last line or, its last append having been
    cut short, on the line before it; let any number of appends run, each cut short at any operation on the disk, after any
    part of a write, or not at all, all of events that can be recorded, up to ten thousand million lines. The next append
    that no failure hits completes: every line from before is still there in its place, what came since are lines of the
    events that were attempted and of recoveries, the last line is the event's, and the verification finds nothing and
    the anchor on it. (The very first append of a directory is not among them: cut short after its line and before the
    first anchor, it leaves a chain without an anchor, on which the writer fails closed.) *)
Theorem append_recovers l w L e : interrupted (disk w) L -> Z.of_nat (length L) + 2 * Z.of_nat (length l) + 2 < 10000000000 ->
  Forall (fun c => can_log c.1.1) l -> can_log e ->
  let w1 := fold_left attempt l w in
  exists new x w2 v,
    append e {| disk := disk w1; ticks := ticks w1; fuse := None; part := 0 |} = (Ok tt, w2) /\
    lines_of (chain_files (disk w2)) = L ++ new ++ [x] /\ (length new <= 2 * length l + 1)%nat /\
    Forall (fun y => recovery y \/ exists c, c ∈ l /\ carries c.1.1 y) new /\ carries e x /\
    verify json_parse hashLine None (disk w2) = Ok v /\ v_ok v = true /\ v_anchor v = (AMatch, Some (Z.of_nat (length (L ++ new ++ [x])))).
Proof.
  intros Hi Hb Hl [detail He] w1. destruct (attempts_keep l w L Hi ltac:(lia) Hl) as (n1 & H1 & F1 & I1). fold w1 in I1.
  pose proof (append_does (L ++ n1) e detail ltac:(rewrite length_app; lia) He {| disk := disk w1; ticks := ticks w1; fuse := None; part := 0 |} I1) as H.
  destruct (append e _) as [[[]|err] w2]; [|by destruct H as (_ & _ & ?)].
  destruct H as [(pre & x & Hp & Fp & Hx & Ht) _].
  replace ((L ++ n1) ++ pre ++ [x]) with (L ++ (n1 ++ pre) ++ [x]) in Ht by (by rewrite <- !app_assoc).
  assert (L ++ (n1 ++ pre) ++ [x] <> []) as Hne by (intros [_ [_ ?]%app_nil]%app_nil; done).
  destruct (intact_verifies _ _ Hne Ht) as (v & Hv & Hok & _ & Han).
  exists (n1 ++ pre), x, w2, v. split; [done|]. split.
  { destruct Ht as [(R & A & S) _]. apply (shape_lines _ _ _ _ _ _ _ S). }
  split; [rewrite length_app; lia|]. split; [|done]. apply Forall_app. split; [done|].
  eapply list.Forall_impl; [exact Fp|]. by left.
Qed.

(** ** Refusals *)

(** The anchors a writer goes on from: none on an empty chain, the last line, or the line before it. *)
Definition accepted (a : AnchorRead) (L : list bytes) : Prop :=
  match a with
  | NoAnchor => L = []
  | BadAnchor => False
  | TheAnchor x => x = end_of L \/ exists L' y, L = L' ++ [y] /\ x = end_of L'
  end.

Lemma anchor_positive file x : readAnchor file = TheAnchor x -> 1 <= a_seq x.
Proof.
  unfold AuditChain.readAnchor. destruct file as [b|]; [|done]. destruct (json_parse b) as [v|]; [|done].
  destruct (jget "v" v) as [| | |[[|[]|]| |]| | |]; try done. destruct (jget "seq" v) as [| | |n| | |]; try done.
  destruct (jget "hash" v); try done. destruct (_ && _) eqn:E; [|done]. intros [= <-]. bool_hyps. unfold num_safe, num_ltb in *. cbn.
  destruct n; try done. bool_hyps. lia.
Qed.

Lemma judge_refuses L a : (forall x, a = TheAnchor x -> 1 <= a_seq x) -> ~ accepted a L -> exists why, judge (tail_at L) a = Refuse why.
Proof.
  intros Hpos Hno. destruct a as [| |[q h]]; cbn in *; [|by eexists|].
  - destruct (Z.eqb_spec (Z.of_nat (length L)) 0); [|by eexists]. destruct Hno. by destruct L.
  - destruct (Z.of_nat (length L) <? q); [by eexists|]. destruct (Z.eqb_spec q (Z.of_nat (length L))) as [->|Hq]; cbn [andb].
    + destruct (String.eqb_spec h (last_hash GENESIS_HASH L)) as [->|]; [destruct Hno; by left|].
      rewrite (proj2 (Z.eqb_neq _ _)) by lia. by eexists.
    + destruct (Z.eqb_spec (Z.of_nat (length L)) (q + 1)) as [E|]; [|by eexists]. cbn [andb].
      destruct (String.eqb_spec (last_hash GENESIS_HASH (removelast L)) h) as [<-|]; [|by eexists]. destruct Hno. right.
      destruct L as [|y L _] using rev_ind; [specialize (Hpos _ eq_refl); cbn in E, Hpos; lia|]. exists L, y. split; [done|]. rewrite removelast_snoc. unfold AuditWrite.end_of. f_equal.
      rewrite length_app in E. cbn in E. lia.
Qed.

(** (C26) Appending fails closed. On a chain whose anchor is not one the writer accepts (missing, unreadable, ahead of the
    chain, or naming another line than the last or the one before), nothing is appended: the call fails, the lines and the
    anchor are what they were, and the directory as a whole is unchanged, except that an unterminated tail of the active
    file may have been put with the evidence, and was taken off the file only when all of it was there. *)
Theorem append_fails_closed L t e w : Chain (disk w) L t -> ~ accepted (readAnchor (anchor (disk w))) L ->
  exists f w1, append e w = (Err f, w1) /\ anchor (disk w1) = anchor (disk w) /\ lines_of (chain_files (disk w1)) = L /\ tail_moved (disk w) t (disk w1).
Proof.
  intros Hc Hno. pose proof Hc as (R & A & S). unfold AuditChain.append. destruct (assertRecordable e); cbn [negb].
  - pose proof (tailState_does _ _ chunk chunk_pos L t (anchor (disk w)) w (conj Hc eq_refl)) as H. unfold mbind at 1, SE_bind at 1.
    pose proof (tailState_moves _ _ chunk chunk_pos L t w Hc) as Hm. destruct (tailState json_parse hashLine chunk w) as [[st|f] w1]; cbn [snd] in Hm.
    + destruct H as [(-> & (R1 & A1 & S1) & Ha) _]. unfold mbind at 1, SE_bind at 1. unfold gets, id. rewrite Ha.
      destruct (judge_refuses L _ (anchor_positive _) Hno) as [why ->]. exists why, w1. split; [done|]. split; [done|]. split; [apply (shape_lines _ _ _ _ _ _ _ S1)|done].
    + destruct H as (_ & [(R1 & A1 & S1) Ha] & _). exists f, w1. split; [done|]. split; [done|]. split; [apply (shape_lines _ _ _ _ _ _ _ S1)|done].
  - exists InvalidEvent, w. split; [done|]. split; [done|]. split; [apply (shape_lines _ _ _ _ _ _ _ S)|by left].
Qed.

(** The first append to an empty directory, when nothing fails. *)
Lemma first_append e detail w : Chain (disk w) [] [] -> anchor (disk w) = None -> fuse w = None -> loggable redact e detail ->
  exists x w1, append e w = (Ok tt, w1) /\ carries e x /\ intact (disk w1) [x].
Proof.
  intros Hc Ha Hf He. unfold AuditChain.append. rewrite (lg_recordable _ _ _ He). cbn [negb].
  pose proof (tailState_does _ _ chunk chunk_pos [] [] None w (conj Hc Ha)) as H. unfold mbind at 1, SE_bind at 1.
  destruct (tailState json_parse hashLine chunk w) as [[st|f] w1]; [|by destruct H as (_ & _ & ?)].
  destruct H as [(-> & Hc1 & Ha1) Hf1]. unfold mbind at 1, SE_bind at 1. unfold gets, id. rewrite Ha1. change (judge (tail_at []) (readAnchor None)) with Agree.
  pose proof (writeLine_does _ _ _ _ laws maxBytes chunk chunk_pos [] e detail None ltac:(done) He w1 (conj Hc1 Ha1)) as H.
  cbv beta iota. unfold mbind at 1, SE_bind at 1. destruct (writeLine _ _ _ _ _ _ _ _ w1) as [[st|f] w2]; [|destruct H as (_ & _ & H); by destruct (H (Hf1 Hf))].
  destruct H as [(x & Hx & _ & Hc2 & Ha2) _]. exists x, w2. by split; [|split; [|split]].
Qed.
End chain.
