(* ===== verification/AuditChainRun.v ===== *)
(** * Runs of the audit chain

    A concrete notation for JSON values, a digest of 64 hexadecimal digits, and the
    theorems on the audit chain applied to short chains, some of whose writes are cut
    short. *)

From S2P Require Import Prelude AuditChain AuditChainSpec AuditWrite AuditRecover.
From Stdlib Require Import Ascii.

(** ** A notation for JSON values *)

(** Every part of a value is a tag, a length where it has one, and its contents; no byte of it is a newline. *)
Definition put_str (s : string) : bytes := 20 + Z.of_nat (String.length s) :: map (fun c => 20 + Z.of_nat (nat_of_ascii c)) (chars s).

Fixpoint run_stringify (v : js) : bytes :=
  match v with
  | JNull => [1]
  | JBool b => [2; if b then 1 else 0]
  | JNum (Fin z) => [3; if z <? 0 then 0 else 1; 20 + Z.abs z]
  | JStr s => 4 :: put_str s
  | JArr l => 5 :: 20 + Z.of_nat (length l) :: concat (map run_stringify l)
  | JObj fs => 6 :: 20 + Z.of_nat (length fs) :: concat (map (fun p => put_str (fst p) ++ run_stringify (snd p)) fs)
  | _ => [7]
  end.

Section reader.
Context {A : Type} (get : bytes -> option (A * bytes)).
Fixpoint many (n : nat) (b : bytes) : option (list A * bytes) :=
  match n with
  | O => Some ([], b)
  | S n => p ← get b; q ← many n p.2; Some (p.1 :: q.1, q.2)
  end.

Lemma many_ok (put : A -> bytes) (l : list A) r : (forall x r, x ∈ l -> get (put x ++ r) = Some (x, r)) ->
  many (length l) (concat (map put l) ++ r) = Some (l, r).
Proof.
  intros H. induction l as [|x l IH]; [done|]. cbn [length map concat many]. rewrite <- app_assoc, H by (by left). cbn.
  rewrite IH; [done|]. intros y s Hy. apply H. by right.
Qed.
End reader.

Definition get_str (b : bytes) : option (string * bytes) :=
  match b with n :: r => Some (String.string_of_list_ascii (map (fun z => ascii_of_nat (Z.to_nat (z - 20))) (take (Z.to_nat (n - 20)) r)), drop (Z.to_nat (n - 20)) r) | [] => None end.

Fixpoint get_js (fuel : nat) (b : bytes) : option (js * bytes) :=
  match fuel with
  | O => None
  | S fuel =>
      match b with
      | 1 :: r => Some (JNull, r)
      | 2 :: x :: r => Some (JBool (x =? 1), r)
      | 3 :: g :: n :: r => Some (JNum (Fin (if g =? 0 then 20 - n else n - 20)), r)
      | 4 :: r => p ← get_str r; Some (JStr p.1, p.2)
      | 5 :: n :: r => p ← many (get_js fuel) (Z.to_nat (n - 20)) r; Some (JArr p.1, p.2)
      | 6 :: n :: r => p ← many (fun b => k ← get_str b; v ← get_js fuel k.2; Some ((k.1, v.1), v.2)) (Z.to_nat (n - 20)) r; Some (JObj p.1, p.2)
      | _ => None
      end
  end.

Definition run_parse (b : bytes) : option js := fst <$> get_js (length b) b.

Lemma length_chars s : length (chars s) = String.length s.
Proof. unfold chars. induction s as [|c s IH]; [done|]. cbn. by rewrite IH. Qed.

Lemma get_put_str s r : get_str (put_str s ++ r) = Some (s, r).
Proof.
  unfold get_str, put_str. cbn [app]. replace (Z.to_nat (20 + Z.of_nat (String.length s) - 20)) with (length (map (fun c => 20 + Z.of_nat (nat_of_ascii c)) (chars s))).
  - rewrite take_app_length, drop_app_length, map_map. do 2 f_equal. rewrite <- (String.string_of_list_ascii_of_string s) at 2. fold (chars s). f_equal. rewrite <- (map_id (chars s)) at 2.
    apply map_ext. intros c. replace (Z.to_nat (20 + Z.of_nat (nat_of_ascii c) - 20)) with (nat_of_ascii c) by lia. apply Ascii.ascii_nat_embedding.
  - rewrite length_map, length_chars. lia.
Qed.

Lemma part_le {A} (f : A -> bytes) l x : x ∈ l -> (length (f x) <= length (concat (map f l)))%nat.
Proof. induction 1 as [x l|x y l _ IH]; cbn; rewrite length_app; lia. Qed.

Lemma get_put : forall fuel v r, json_value v = true -> (length (run_stringify v) <= fuel)%nat -> get_js fuel (run_stringify v ++ r) = Some (v, r).
Proof.
  induction fuel as [|fuel IH]; intros v r Hv Hl; [destruct v as [| | |[]| | |]; cbn in Hl; lia|].
  destruct v as [| |b|[z| |]|s|l|fs]; try done; cbn [run_stringify app get_js].
  - by destruct b.
  - do 4 f_equal. destruct (Z.ltb_spec z 0); cbn; lia.
  - by rewrite get_put_str.
  - replace (Z.to_nat (20 + Z.of_nat (length l) - 20)) with (length l) by lia. cbn [json_value] in Hv. cbn [run_stringify length] in Hl. rewrite forallb_forall in Hv. rewrite many_ok; [done|].
    intros x s Hx. apply IH; [by apply Hv, list_elem_of_In|]. pose proof (part_le run_stringify l x Hx). lia.
  - replace (Z.to_nat (20 + Z.of_nat (length fs) - 20)) with (length fs) by lia. cbn [json_value] in Hv. cbn [run_stringify length] in Hl. rewrite forallb_forall in Hv.
    rewrite (many_ok _ (fun p : string * js => put_str p.1 ++ run_stringify p.2)); [done|].
    intros [k x] s Hx. cbn [fst snd]. rewrite <- app_assoc, get_put_str. cbn [mbind option_bind fst snd].
    rewrite IH; [done|by apply (Hv (k, x)), list_elem_of_In|].
    pose proof (part_le (fun p : string * js => put_str p.1 ++ run_stringify p.2) fs (k, x) Hx) as H. cbn [fst snd] in H. rewrite length_app in H. lia.
Qed.

Lemma put_str_high s x : x ∈ put_str s -> 20 <= x.
Proof. unfold put_str. intros [->|(c & -> & _)%elem_of_map]%elem_of_cons; lia. Qed.

(** No byte is a newline or a carriage return. *)
Definition plain (b : bytes) : Prop := Forall (fun x => x <> LF /\ x <> CR) b.

Lemma plain_high b : (forall x, x ∈ b -> 20 <= x) -> plain b.
Proof. intros H. apply list.Forall_forall. intros x Hx. specialize (H x Hx). unfold LF, CR. lia. Qed.

Lemma plain_concat {A} (f : A -> bytes) l : (forall x, x ∈ l -> plain (f x)) -> plain (concat (map f l)).
Proof. intros H. induction l as [|x l IH]; [constructor|]. cbn. apply Forall_app. split; [apply H; by left|]. apply IH. intros y Hy. apply H. by right. Qed.

Lemma plain_cons x b : x <> LF -> x <> CR -> plain b -> plain (x :: b).
Proof. intros. by constructor. Qed.

Lemma stringify_plain : forall v, plain (run_stringify v).
Proof.
  assert (Hs : forall s, plain (put_str s)) by (intros s; apply plain_high, put_str_high).
  fix go 1. intros [| |b|[z| |]|s|l|fs]; cbn [run_stringify]; repeat first [apply Hs|apply plain_cons; [unfold LF; try case_match; lia|unfold CR; try case_match; lia|]]; try by constructor.
  - induction l as [|x l IH]; [constructor|]. cbn. apply Forall_app. split; [apply go|exact IH].
  - induction fs as [|[k x] fs IH]; [constructor|]. cbn [map concat fst snd]. apply Forall_app. split; [|exact IH].
    apply Forall_app. split; [apply Hs|apply go].
Qed.

(** ** A digest *)

Definition hex_digit (z : Z) : ascii :=
  nth (Z.to_nat (z mod 16)) ["0"; "1"; "2"; "3"; "4"; "5"; "6"; "7"; "8"; "9"; "a"; "b"; "c"; "d"; "e"; "f"]%char "0"%char.
Fixpoint hex (n : nat) (z : Z) : string := match n with O => "" | S n => String (hex_digit z) (hex n (z / 16)) end.
Definition run_hash (l : bytes) : string := hex 64 (fold_left (fun a x => (a * 257 + x) mod 2 ^ 61) l 1).

Lemma hex_ok n z : String.length (hex n z) = n /\
  forallb (fun c => let m := Ascii.nat_of_ascii c in (Nat.leb 48 m && Nat.leb m 57) || (Nat.leb 97 m && Nat.leb m 102)) (chars (hex n z)) = true.
Proof.
  revert z. induction n as [|n IH]; intros z; [done|]. destruct (IH (z / 16)) as [H1 H2]. cbn [hex String.length]. split; [by rewrite H1|].
  unfold chars in *. cbn [String.list_ascii_of_string forallb]. rewrite H2, andb_true_r. unfold hex_digit.
  generalize (Z.to_nat (z mod 16)). intros m. do 16 (destruct m as [|m]; [done|]). by destruct m.
Qed.

Lemma run_laws : chain_laws run_stringify run_parse run_hash.
Proof.
  split.
  - intros v Hv. unfold run_parse. rewrite <- (app_nil_r (run_stringify v)) at 2. by rewrite get_put.
  - intros v Hv. unfold run_parse. rewrite get_put; [done..|]. rewrite length_app. lia.
  - intros v _. pose proof (proj1 (list.Forall_forall _ _) (stringify_plain v)) as H. split; intros Hx; by destruct (H _ Hx).
  - intros l. unfold HEX64, run_hash. destruct (hex_ok 64 (fold_left (fun a x => (a * 257 + x) mod 2 ^ 61) l 1)) as [H1 H2].
    apply andb_true_intro. split; [by rewrite H1|exact H2].
Qed.

(** ** Runs *)

Definition run_actor : js := JObj [("user", JStr "u"); ("host", JStr "h")].
Definition run_redact (v : js) : option js := if json_value v then Some v else None.
Notation run_clk := (fun n : nat => Z.of_nat n).
Definition run_event (s : string) : ChainRecord := {| e_at := JNum (Fin 7); e_actor := run_actor; e_action := JStr s; e_target := JNull; e_detail := JObj [] |}.

Lemma run_writer : writer_laws run_redact run_clk run_actor.
Proof. split; [intros n; lia|by repeat split|done|]. intros a b s. by eexists. Qed.

Lemma run_loggable s : loggable run_redact (run_event s) (JObj []).
Proof. by split. Qed.

Definition run_disk : Disk := {| active := None; rotated := []; anchor := None; anchor_tmp := None; evidence := []; asides := [] |}.
Definition run_world : World := {| disk := run_disk; ticks := 0; fuse := None; part := 0 |}.
(** Every line fills a file. *)
Notation run_append := (append run_stringify run_parse run_hash run_redact 100 16 run_clk run_actor).
Notation run_attempt := (attempt run_stringify run_parse run_hash run_redact 100 16 run_clk run_actor).

Lemma run_empty : Chain run_parse run_hash run_disk [] [].
Proof. exists [], []. split; try done; [by right|apply not_elem_of_nil]. Qed.

(** A torn line, an anchor left one line behind, and a whole append: what was torn is kept as evidence, the recovery is
    recorded, and every line fills a file of its own. *)
Definition crashed : World := fold_left run_attempt [(run_event "a", None, 0%nat); (run_event "b", Some 1%nat, 5%nat); (run_event "b", Some 4%nat, 0%nat)] run_world.

Example run_crashed :
  (evidence (disk crashed) = [take 5 (line_of run_stringify 2 (run_hash (default [] (head (lines_of (chain_files (disk crashed)))))) (run_event "b") (JObj []))]) /\
  match verify run_parse run_hash None (disk crashed) with Ok v => (v_ok v, v_records v, (v_anchor v).1) | Err _ => (false, O, AAbsent) end = (true, 2%nat, ABehind).
Proof. vm_compute. by split. Qed.

Example run_recovered :
  match verify run_parse run_hash None (disk (run_attempt crashed (run_event "c", None, 0%nat))) with
  | Ok v => (v_ok v, v_records v, v_files v, (v_anchor v).1) | Err _ => (false, O, O, AAbsent) end = (true, 4%nat, 4%nat, AMatch).
Proof. by vm_compute. Qed.

Lemma readers_agree_witness : (0 < 3)%nat /\ scanTail 3 [65; 66; LF; 67; CR; LF; 68] = (Some [67], Some 6%nat) /\ firstLine 3 [65; 66; LF; 67; CR; LF; 68] = Some [65; 66].
Proof.
  assert (H : (0 < 3)%nat) by lia. split; [exact H|]. pose proof (readers_agree 3 [65; 66; LF; 67; CR; LF; 68] H) as E.
  vm_compute in E. exact E.
Defined.

(** One line, written without failure. *)
Lemma run_one : exists x w, carries run_stringify run_redact (run_event "a") x /\ AuditRecover.intact run_stringify run_parse run_hash (disk w) [x].
Proof.
  destruct (first_append run_stringify run_parse run_hash run_redact 100 16 run_clk run_actor run_laws ltac:(lia) (run_event "a") (JObj []) run_world
              run_empty eq_refl eq_refl (run_loggable "a")) as (x & w & _ & Hx & Hi). by exists x, w.
Qed.

Lemma append_recovers_witness :
  exists x w, AuditRecover.interrupted run_stringify run_parse run_hash (disk w) [x] /\
  let w1 := fold_left run_attempt [(run_event "b", Some 0%nat, 7%nat); (run_event "b", Some 1%nat, 0%nat); (run_event "c", Some 3%nat, 0%nat)] w in
  exists w2 v, run_append (run_event "d") {| disk := disk w1; ticks := ticks w1; fuse := None; part := 0 |} = (Ok tt, w2) /\
    verify run_parse run_hash None (disk w2) = Ok v /\ v_ok v = true /\ take 1 (lines_of (chain_files (disk w2))) = [x].
Proof.
  destruct run_one as (x & w & _ & Hi). exists x, w.
  assert (H : AuditRecover.interrupted run_stringify run_parse run_hash (disk w) [x]) by (by apply intact_interrupted). split; [exact H|].
  destruct (append_recovers run_stringify run_parse run_hash run_redact 100 16 run_clk run_actor run_laws run_writer ltac:(lia)
              [(run_event "b", Some 0%nat, 7%nat); (run_event "b", Some 1%nat, 0%nat); (run_event "c", Some 3%nat, 0%nat)] w [x] (run_event "d") H)
    as (new & y & w2 & v & Ha & Hl & _ & _ & _ & Hv & Hok & _).
  - done.
  - repeat constructor; by exists (JObj []).
  - by exists (JObj []).
  - exists w2, v. rewrite Hl. by repeat split.
Defined.

(** The anchor of a chain is deleted: no more is appended. *)
Lemma append_fails_closed_witness :
  exists L w, Chain run_parse run_hash (disk w) L [] /\ length L = 1%nat /\ anchor (disk w) = None /\
    exists f w1, run_append (run_event "b") w = (Err f, w1) /\ anchor (disk w1) = None /\ lines_of (chain_files (disk w1)) = L /\ tail_moved (disk w) [] (disk w1).
Proof.
  destruct run_one as (x & w & _ & [(R & A & S) _]). set (w0 := {| disk := set_anchor None (disk w); ticks := 0; fuse := None; part := 0 |}).
  assert (H : Chain run_parse run_hash (disk w0) [x] []) by (exists R, A; by apply shape_anchor).
  exists [x], w0. split; [exact H|]. split; [done|]. split; [done|].
  apply (append_fails_closed run_stringify run_parse run_hash run_redact 100 16 run_clk run_actor ltac:(lia) [x] [] (run_event "b") w0 H).
  by cbn.
Defined.

(** No two lines of the two runs collide. *)
Definition no_collision (l1 l2 : list bytes) : bool :=
  forallb (fun u => forallb (fun v => negb (String.eqb (run_hash u) (run_hash v)) || bool_decide (u = v)) l2) l1.

Lemma no_collision_spec l1 l2 : no_collision l1 l2 = true -> forall u v, u ∈ l1 -> v ∈ l2 -> run_hash u = run_hash v -> u = v.
Proof.
  unfold no_collision. rewrite forallb_forall. intros H u v Hu%list_elem_of_In Hv%list_elem_of_In Hh.
  specialize (H u Hu). rewrite forallb_forall in H. specialize (H v Hv). rewrite Hh, String.eqb_refl in H. by apply bool_decide_eq_true in H.
Qed.

Definition recovered : World := run_attempt crashed (run_event "c", None, 0%nat).
Definition second_pin : AuditPin := {| pin_seq := 2; pin_hash := run_hash (default [] (lines_of (chain_files (disk crashed)) !! 1%nat)) |}.
Definition holds (r : result ChainFault VerifyResult) : bool := match r with Ok v => v_ok v | Err _ => false end.

Lemma holds_spec r : holds r = true -> exists v, r = Ok v /\ v_ok v = true.
Proof. destruct r as [v|]; [|done]. by exists v. Qed.

Lemma pin_fixes_history_witness :
  holds (verify run_parse run_hash (Some second_pin) (disk crashed)) = true /\ holds (verify run_parse run_hash (Some second_pin) (disk recovered)) = true /\
  take 2 (lines_of (chain_files (disk crashed))) = take 2 (lines_of (chain_files (disk recovered))).
Proof.
  assert (H1 : holds (verify run_parse run_hash (Some second_pin) (disk crashed)) = true) by (vm_compute; reflexivity).
  assert (H2 : holds (verify run_parse run_hash (Some second_pin) (disk recovered)) = true) by (vm_compute; reflexivity).
  assert (H3 : no_collision (lines_of (chain_files (disk crashed))) (lines_of (chain_files (disk recovered))) = true) by (vm_compute; reflexivity).
  split; [exact H1|]. split; [exact H2|]. apply holds_spec in H1 as (v1 & E1 & O1). apply holds_spec in H2 as (v2 & E2 & O2).
  exact (pin_fixes_history run_parse run_hash second_pin (disk crashed) (disk recovered) v1 v2 E1 E2 O1 O2 (no_collision_spec _ _ H3)).
Defined.
