(* ===== verification/Session.v ===== *)
(** * The session store

    Model of the transcript part of [packages/core/src/session/store.ts] with
    [session/types.ts] and [session/rewind-path.ts]: sessions, turns, messages and
    events, the rewind overlays over them, and summaries. A table is the list of its
    rows in the order they were inserted; a statement that breaks a constraint of
    [session/migrations.ts] throws. An event's data is the value its text was printed
    from. Full-text search, listings for people, prompt and skill snapshots, model
    profiles, worktree bindings and checkpoints are not modelled. *)

From S2P Require Import Prelude.

(** ** Data *)

(* @src session/types.ts 3 3 SESSION_KINDS *)
Definition SESSION_KINDS : list string := ["direct"; "card"; "project"; "channel"; "acp"].
(* @src session/types.ts 6 6 SESSION_ORIGINS *)
Definition SESSION_ORIGINS : list string := ["mcp"; "a2a"; "acp-agent"].
(* @src session/types.ts 9 9 MemoryMode *)
Inductive MemoryMode : Type := Remember | Incognito.
(* @src session/types.ts 20 20 TurnState *)
Inductive TurnState : Type := Running | Completed | FailedTurn.
#[export] Instance TurnState_eq_dec : EqDecision TurnState.
Proof. solve_decision. Defined.
(* @src session/types.ts 21 21 MessageRole *)
Inductive MessageRole : Type := RSystem | RUser | RAssistant | RTool.
#[export] Instance MessageRole_eq_dec : EqDecision MessageRole.
Proof. solve_decision. Defined.

(** With the counters of its row that [toSession] leaves out. *)
(* @src session/types.ts 28 50 SessionRecord *)
Record SessionRecord : Type := {
  s_id : string; s_kind : string; s_agentId : string; s_owner : string; s_scope : string; s_chatKey : option string; s_origin : option string;
  s_title : string; s_pinned : bool; s_memoryMode : MemoryMode; s_createdAt : Z; s_updatedAt : Z; s_lastTurnAt : option Z; s_archivedAt : option Z;
  s_turnCount : Z; s_lastMessageSeq : Z; s_lastEventSeq : Z
}.
(* @src session/types.ts 52 61 TurnRecord *)
Record TurnRecord : Type := {
  t_id : string; t_session : string; t_turn : Z; t_state : TurnState; t_startedAt : Z; t_endedAt : option Z; t_error : option string; t_incognito : bool
}.
(* @src session/types.ts 63 72 MessageRecord *)
Record MessageRecord : Type := {
  m_id : string; m_session : string; m_turnId : option string; m_seq : Z; m_role : MessageRole; m_text : string; m_tokens : Z; m_createdAt : Z
}.
(* @src session/types.ts 74 81 EventRecord *)
Record EventRecord : Type := { v_session : string; v_turnId : option string; v_seq : Z; v_type : string; v_data : js; v_at : Z }.
(* @src session/types.ts 94 94 SummaryRecord *)
Inductive SummaryState : Type := Prepared | Applied | Superseded.
#[export] Instance SummaryState_eq_dec : EqDecision SummaryState.
Proof. solve_decision. Defined.
(* @src session/types.ts 83 96 SummaryRecord *)
Record SummaryRecord : Type := {
  y_id : string; y_session : string; y_fromSeq : Z; y_toSeq : Z; y_text : string; y_tokens : Z; y_tier : Z; y_state : SummaryState; y_createdAt : Z
}.
(* @src session/types.ts 99 111 RewindRecord *)
Record RewindRecord : Type := {
  r_id : string; r_session : string; r_parentSeq : Z; r_hiddenFromSeq : Z; r_hiddenToSeq : Z; r_lessonMessageId : option string; r_hiddenDigest : string;
  r_trigger : string; r_actor : string; r_createdAt : Z; r_undoneAt : option Z
}.
(** The tombstone of an erasure. Who observes erasures is told nothing of them and is left out. *)
Record Erasure : Type := { x_id : string; x_session : string; x_agentId : string; x_owner : string; x_kind : string; x_messages : Z; x_at : Z; x_actor : string; x_reason : string }.

(* @src session/types.ts 115 115 SessionErrorCode *)
Inductive SessionErrorCode : Type := Invalid | NotFound | Conflict | Immutable | Storage.
(* @src session/types.ts 116 125 SessionError *)
Inductive SessionError : Type := Refused (code : SessionErrorCode) (reason : string).

(** [mapSqlite] of a statement that breaks a constraint, and of an exception that is not a [SessionError]. *)
(* @src session/store.ts 955 962 mapSqlite *)
Definition Sqlite : SessionError := Refused Storage "sqlite".

Record Db : Type := {
  sessions : list SessionRecord; turns : list TurnRecord; messages : list MessageRecord; events : list EventRecord;
  rewinds_tbl : list RewindRecord; summaries_tbl : list SummaryRecord; erasures : list Erasure
}.

Definition set_sessions (l : list SessionRecord) (d : Db) : Db :=
  {| sessions := l; turns := turns d; messages := messages d; events := events d; rewinds_tbl := rewinds_tbl d; summaries_tbl := summaries_tbl d; erasures := erasures d |}.
Definition set_turns (l : list TurnRecord) (d : Db) : Db :=
  {| sessions := sessions d; turns := l; messages := messages d; events := events d; rewinds_tbl := rewinds_tbl d; summaries_tbl := summaries_tbl d; erasures := erasures d |}.
Definition set_messages (l : list MessageRecord) (d : Db) : Db :=
  {| sessions := sessions d; turns := turns d; messages := l; events := events d; rewinds_tbl := rewinds_tbl d; summaries_tbl := summaries_tbl d; erasures := erasures d |}.
Definition set_events (l : list EventRecord) (d : Db) : Db :=
  {| sessions := sessions d; turns := turns d; messages := messages d; events := l; rewinds_tbl := rewinds_tbl d; summaries_tbl := summaries_tbl d; erasures := erasures d |}.
Definition set_rewinds (l : list RewindRecord) (d : Db) : Db :=
  {| sessions := sessions d; turns := turns d; messages := messages d; events := events d; rewinds_tbl := l; summaries_tbl := summaries_tbl d; erasures := erasures d |}.
Definition set_summaries (l : list SummaryRecord) (d : Db) : Db :=
  {| sessions := sessions d; turns := turns d; messages := messages d; events := events d; rewinds_tbl := rewinds_tbl d; summaries_tbl := l; erasures := erasures d |}.
Definition set_erasures (l : list Erasure) (d : Db) : Db :=
  {| sessions := sessions d; turns := turns d; messages := messages d; events := events d; rewinds_tbl := rewinds_tbl d; summaries_tbl := summaries_tbl d; erasures := l |}.

(** The database, the reservations of paths by token, the moments of the clock and of the id generator, and what the
    observers of archived sessions and the audit sink were told. *)
Record World : Type := { db : Db; reservations : list (string * nat); tokens : nat; ticks : nat; fresh : nat; archived_log : list string; audit_log : list js }.
Notation M := (SE World SessionError).

Definition with_db (d : Db) (w : World) : World :=
  {| db := d; reservations := reservations w; tokens := tokens w; ticks := ticks w; fresh := fresh w; archived_log := archived_log w; audit_log := audit_log w |}.
Definition on_db (f : Db -> Db) : M unit := modify (fun w => with_db (f (db w)) w).
Definition read {A} (f : Db -> A) : M A := gets (fun w => f (db w)).

(** A transaction: a throw takes the tables back. A transaction inside one is part of it. *)
(* @src session/store.ts 274 280 #tx *)
Definition tx {A} (m : M A) : M A := fun w =>
  match m w with
  | (Ok a, w') => (Ok a, w')
  | (Err e, w') => (Err e, with_db (db w) w')
  end.

(** ** Overlays *)

Definition active_rewind (r : RewindRecord) : bool := match r_undoneAt r with None => true | Some _ => false end.

(** Whether a sequence number lies in a range that an active rewind hides. *)
Definition hidden_by (r : RewindRecord) (seq : Z) : bool := (r_hiddenFromSeq r <=? seq) && (seq <=? r_hiddenToSeq r).

(* @src session/rewind-path.ts 13 20 activePath *)
Definition activePath (ms : list MessageRecord) (rs : list RewindRecord) : list MessageRecord :=
  let ranges := bfilter active_rewind rs in
  let obsolete := omap r_lessonMessageId (bfilter (fun r => negb (active_rewind r)) rs) in
  bfilter (fun m => negb (includes obsolete (m_id m)) && negb (existsb (fun r => hidden_by r (m_seq m)) ranges)) ms.

(** The range of an overlay, as [summaryRewinds] hands it on: only active ones. *)
Definition overlaps (f t : Z) (range : Z * Z) : bool := (f <=? range.2) && (range.1 <=? t).

(* @src session/rewind-path.ts 23 29 activeSummaries *)
Definition activeSummaries {A} (range : A -> Z * Z) (l : list A) (ranges : list (Z * Z)) : list A :=
  bfilter (fun x => negb (existsb (overlaps (range x).1 (range x).2) ranges)) l.

Section store.
(** The clock, the generator of ids, SHA-256 in hexadecimal and [JSON.stringify]. *)
Context (clk : nat -> Z) (newId_at : string -> nat -> string) (sha256 : string -> string) (stringify : js -> string).

(* @src session/rewind-path.ts 31 39 hiddenDigest *)
Definition hiddenDigest (ms : list MessageRecord) : string :=
  sha256 ("[" +:+ String.concat "," (map (fun m => stringify (JArr [JStr (m_id m); JStr (m_text m)])) ms) +:+ "]").

Definition clock : M Z := fun w =>
  (Ok (clk (ticks w)), {| db := db w; reservations := reservations w; tokens := tokens w; ticks := S (ticks w); fresh := fresh w; archived_log := archived_log w; audit_log := audit_log w |}).
Definition newId (prefix : string) : M string := fun w =>
  (Ok (newId_at prefix (fresh w)), {| db := db w; reservations := reservations w; tokens := tokens w; ticks := ticks w; fresh := S (fresh w); archived_log := archived_log w; audit_log := audit_log w |}).

(** ** Reading *)

(* @src session/store.ts 358 361 getSession *)
Definition getSession (id : string) (d : Db) : option SessionRecord := bfind (fun s => String.eqb (s_id s) id) (sessions d).
(* @src session/store.ts 619 622 runningTurn *)
Definition runningTurn (id : string) (d : Db) : option TurnRecord :=
  bfind (fun t => String.eqb (t_session t) id && bool_decide (t_state t = Running)) (turns d).
(* @src session/store.ts 623 623 getTurn *)
Definition getTurn (id : string) (d : Db) : option TurnRecord := bfind (fun t => String.eqb (t_id t) id) (turns d).
(* @src session/store.ts 624 624 listTurns *)
Definition listTurns (id : string) (d : Db) : list TurnRecord := sort_by (fun a b => t_turn a <=? t_turn b) (bfilter (fun t => String.eqb (t_session t) id) (turns d)).
(* @src session/store.ts 614 617 lastEventSeq *)
Definition lastEventSeq (id : string) (d : Db) : option Z := s_lastEventSeq <$> getSession id d.

Definition messages_of (id : string) (d : Db) : list MessageRecord := bfilter (fun m => String.eqb (m_session m) id) (messages d).
Definition by_seq (l : list MessageRecord) : list MessageRecord := sort_by (fun a b => m_seq a <=? m_seq b) l.

(* @src session/store.ts 704 708 harnessCommandTurns *)
Definition harnessCommandTurns (id : string) (d : Db) : list string :=
  omap v_turnId (bfilter (fun v => String.eqb (v_session v) id && includes ["turn.started"; "turn.completed"; "turn.failed"] (v_type v)
    && bool_decide (jget "provider" (v_data v) = JStr "harness-command")) (events d)).

(* @src session/store.ts 721 724 rewinds *)
Definition rewinds (id : string) (d : Db) : list RewindRecord := bfilter (fun r => String.eqb (r_session r) id) (rewinds_tbl d).

(* @src session/store.ts 711 718 contextMessages *)
Definition contextMessages (id : string) (afterSeq : Z) (d : Db) : list MessageRecord :=
  let commands := harnessCommandTurns id d in
  let rows := by_seq (bfilter (fun m => afterSeq <? m_seq m) (messages_of id d)) in
  activePath (bfilter (fun m => match m_turnId m with None => true | Some t => negb (includes commands t) end) rows) (rewinds id d).

(* @src session/store.ts 727 735 summaryRewinds *)
Definition summaryRewinds (id : string) (d : Db) : list (Z * Z) :=
  omap (fun r => match r_undoneAt r with
                 | None => Some (r_hiddenFromSeq r, r_hiddenToSeq r)
                 | Some _ => l ← r_lessonMessageId r; m ← bfind (fun m => String.eqb (m_id m) l) (messages d); Some (m_seq m, m_seq m)
                 end) (rewinds id d).

(** Whether a turn is wholly on the active path. *)
(* @src session/store.ts 79 83 ACTIVE_TURN_SQL *)
Definition active_turn (t : TurnRecord) (d : Db) : bool :=
  negb (existsb (fun m => bool_decide (m_turnId m = Some (t_id t)) && String.eqb (m_session m) (t_session t)
    && existsb (fun r => String.eqb (r_session r) (m_session m)
         && (if active_rewind r then hidden_by r (m_seq m) else bool_decide (r_lessonMessageId r = Some (m_id m)))) (rewinds_tbl d)) (messages d)).

(* @src session/store.ts 929 933 contextToolEvents *)
Definition contextToolEvents (id : string) (d : Db) : list EventRecord :=
  sort_by (fun a b => v_seq a <=? v_seq b)
    (bfilter (fun v => String.eqb (v_session v) id && includes ["tool.call"; "tool.result"] (v_type v)
       && match v_turnId v with
          | Some t => existsb (fun r => String.eqb (t_id r) t && String.eqb (t_session r) (v_session v) && active_turn r d) (turns d)
          | None => false
          end) (events d)).

(* @src session/store.ts 943 947 listSummaries *)
Definition listSummaries (id : string) (state : option SummaryState) (d : Db) : list SummaryRecord :=
  sort_by (fun a b => (y_fromSeq a <? y_fromSeq b) || ((y_fromSeq a =? y_fromSeq b) && (y_tier a <=? y_tier b)))
    (bfilter (fun y => String.eqb (y_session y) id && match state with Some s => bool_decide (y_state y = s) | None => true end) (summaries_tbl d)).

(* @src session/store.ts 903 905 latestAssistantContext *)
Definition latestAssistantContext (id : string) (d : Db) : string :=
  match bfind (fun m => bool_decide (m_role m = RAssistant)) (reverse (contextMessages id 0 d)) with Some m => m_text m | None => "" end.

(** ** Writing rows *)

Definition upd_session (id : string) (f : SessionRecord -> SessionRecord) (d : Db) : Db :=
  set_sessions (map (fun s => if String.eqb (s_id s) id then f s else s) (sessions d)) d.
Definition upd_turn (id : string) (f : TurnRecord -> TurnRecord) (d : Db) : Db :=
  set_turns (map (fun t => if String.eqb (t_id t) id then f t else t) (turns d)) d.

Definition with_message_seq (n : Z) (s : SessionRecord) : SessionRecord :=
  {| s_id := s_id s; s_kind := s_kind s; s_agentId := s_agentId s; s_owner := s_owner s; s_scope := s_scope s; s_chatKey := s_chatKey s; s_origin := s_origin s;
     s_title := s_title s; s_pinned := s_pinned s; s_memoryMode := s_memoryMode s; s_createdAt := s_createdAt s; s_updatedAt := s_updatedAt s; s_lastTurnAt := s_lastTurnAt s;
     s_archivedAt := s_archivedAt s; s_turnCount := s_turnCount s; s_lastMessageSeq := n; s_lastEventSeq := s_lastEventSeq s |}.
Definition with_event_seq (n : Z) (s : SessionRecord) : SessionRecord :=
  {| s_id := s_id s; s_kind := s_kind s; s_agentId := s_agentId s; s_owner := s_owner s; s_scope := s_scope s; s_chatKey := s_chatKey s; s_origin := s_origin s;
     s_title := s_title s; s_pinned := s_pinned s; s_memoryMode := s_memoryMode s; s_createdAt := s_createdAt s; s_updatedAt := s_updatedAt s; s_lastTurnAt := s_lastTurnAt s;
     s_archivedAt := s_archivedAt s; s_turnCount := s_turnCount s; s_lastMessageSeq := s_lastMessageSeq s; s_lastEventSeq := n |}.
Definition with_turn (n now : Z) (s : SessionRecord) : SessionRecord :=
  {| s_id := s_id s; s_kind := s_kind s; s_agentId := s_agentId s; s_owner := s_owner s; s_scope := s_scope s; s_chatKey := s_chatKey s; s_origin := s_origin s;
     s_title := s_title s; s_pinned := s_pinned s; s_memoryMode := s_memoryMode s; s_createdAt := s_createdAt s; s_updatedAt := now; s_lastTurnAt := Some now;
     s_archivedAt := s_archivedAt s; s_turnCount := n; s_lastMessageSeq := s_lastMessageSeq s; s_lastEventSeq := s_lastEventSeq s |}.
Definition with_archived (a : option Z) (now : Z) (s : SessionRecord) : SessionRecord :=
  {| s_id := s_id s; s_kind := s_kind s; s_agentId := s_agentId s; s_owner := s_owner s; s_scope := s_scope s; s_chatKey := s_chatKey s; s_origin := s_origin s;
     s_title := s_title s; s_pinned := s_pinned s; s_memoryMode := s_memoryMode s; s_createdAt := s_createdAt s; s_updatedAt := now; s_lastTurnAt := s_lastTurnAt s;
     s_archivedAt := a; s_turnCount := s_turnCount s; s_lastMessageSeq := s_lastMessageSeq s; s_lastEventSeq := s_lastEventSeq s |}.
Definition with_fields (title : string) (pinned : bool) (mode : MemoryMode) (now : Z) (s : SessionRecord) : SessionRecord :=
  {| s_id := s_id s; s_kind := s_kind s; s_agentId := s_agentId s; s_owner := s_owner s; s_scope := s_scope s; s_chatKey := s_chatKey s; s_origin := s_origin s;
     s_title := title; s_pinned := pinned; s_memoryMode := mode; s_createdAt := s_createdAt s; s_updatedAt := now; s_lastTurnAt := s_lastTurnAt s;
     s_archivedAt := s_archivedAt s; s_turnCount := s_turnCount s; s_lastMessageSeq := s_lastMessageSeq s; s_lastEventSeq := s_lastEventSeq s |}.
Definition touched (now : Z) (s : SessionRecord) : SessionRecord := with_archived (s_archivedAt s) now s.

Definition ended (state : TurnState) (now : Z) (error : option string) (t : TurnRecord) : TurnRecord :=
  {| t_id := t_id t; t_session := t_session t; t_turn := t_turn t; t_state := state; t_startedAt := t_startedAt t; t_endedAt := Some now;
     t_error := match error with Some e => Some e | None => t_error t end; t_incognito := t_incognito t |}.

(* @src session/store.ts 656 662 #insertMessage *)
Definition insertMessage (id : string) (turn : option string) (role : MessageRole) (text : string) (tokens : Z) : M MessageRecord :=
  row ← read (getSession id);
  match row with
  | None => throw Sqlite
  | Some s =>
      let seq := s_lastMessageSeq s + 1 in
      mid ← newId "msg";
      now ← clock;
      let m := {| m_id := mid; m_session := id; m_turnId := turn; m_seq := seq; m_role := role; m_text := text; m_tokens := tokens; m_createdAt := now |} in
      taken ← read (fun d => existsb (fun x => String.eqb (m_id x) mid || (String.eqb (m_session x) id && (m_seq x =? seq))) (messages d));
      require (negb taken) Sqlite ;;
      on_db (fun d => let d := upd_session id (with_message_seq seq) d in set_messages (messages d ++ [m]) d) ;;
      mret m
  end.

(* @src session/store.ts 664 670 #insertEvent *)
Definition insertEvent (id : string) (turn : option string) (type : string) (data : js) : M EventRecord :=
  row ← read (getSession id);
  match row with
  | None => throw Sqlite
  | Some s =>
      let seq := s_lastEventSeq s + 1 in
      at_ ← clock;
      let v := {| v_session := id; v_turnId := turn; v_seq := seq; v_type := type; v_data := data; v_at := at_ |} in
      taken ← read (fun d => existsb (fun x => String.eqb (v_session x) id && (v_seq x =? seq)) (events d));
      require (negb taken) Sqlite ;;
      on_db (fun d => let d := upd_session id (with_event_seq seq) d in set_events (events d ++ [v]) d) ;;
      mret v
  end.

(** [{ ...base, ...over }]: a later field replaces an earlier one in its place. *)
Fixpoint put_field (k : string) (v : js) (fs : list (string * js)) : list (string * js) :=
  match fs with
  | [] => [(k, v)]
  | (k', v') :: r => if String.eqb k' k then (k, v) :: r else (k', v') :: put_field k v r
  end.
Definition spread (base : list (string * js)) (over : js) : js :=
  JObj (match over with JObj fs => fold_left (fun acc p => put_field p.1 p.2 acc) fs base | _ => base end).

(** ** Turns *)

(* @src session/store.ts 562 578 beginTurn *)
Definition beginTurn (id text : string) (tokens : Z) (harnessCommand : bool) (channelOrigin : option js) : M (TurnRecord * MessageRecord * EventRecord) :=
  tx (
    row ← read (getSession id);
    match row with
    | None => throw (Refused NotFound "session")
    | Some s =>
        require (bool_decide (s_archivedAt s = None)) (Refused Conflict "archived") ;;
        held ← gets reservations;
        require (negb (existsb (fun p => String.eqb p.1 id) held)) (Refused Conflict "rewind-in-progress") ;;
        running ← read (runningTurn id);
        require (bool_decide (t_id <$> running = None)) (Refused Conflict "turn-in-progress") ;;
        now ← clock;
        tid ← newId "trn";
        let seq := s_turnCount s + 1 in
        let t := {| t_id := tid; t_session := id; t_turn := seq; t_state := Running; t_startedAt := now; t_endedAt := None; t_error := None;
                    t_incognito := match s_memoryMode s with Incognito => true | Remember => false end |} in
        ids ← read (fun d => existsb (fun x => String.eqb (t_id x) tid) (turns d));
        require (negb ids) Sqlite ;;
        taken ← read (fun d => existsb (fun x => String.eqb (t_session x) id && ((t_turn x =? seq) || bool_decide (t_state x = Running))) (turns d));
        require (negb taken) (Refused Conflict "turn-in-progress") ;;
        on_db (fun d => upd_session id (with_turn seq now) (set_turns (turns d ++ [t]) d)) ;;
        m ← insertMessage id (Some tid) RUser text tokens;
        v ← insertEvent id (Some tid) "turn.started"
              (JObj ([("turnId", JStr tid); ("turnSeq", JNum (Fin seq)); ("messageId", JStr (m_id m))]
                     ++ (if harnessCommand then [("provider", JStr "harness-command")] else [])
                     ++ match channelOrigin with Some o => [("channelOrigin", o)] | None => [] end));
        mret (t, m, v)
    end).

(* @src session/store.ts 580 591 completeTurn *)
Definition completeTurn (turn text : string) (tokens : Z) (data : js) : M (option (MessageRecord * EventRecord)) :=
  tx (
    row ← read (getTurn turn);
    match row with
    | None => mret None
    | Some t =>
        if negb (bool_decide (t_state t = Running)) then mret None
        else
          now ← clock;
          m ← insertMessage (t_session t) (Some turn) RAssistant text tokens;
          on_db (upd_turn turn (ended Completed now None)) ;;
          on_db (upd_session (t_session t) (touched now)) ;;
          v ← insertEvent (t_session t) (Some turn) "turn.completed" (spread [("turnId", JStr turn); ("messageId", JStr (m_id m))] data);
          mret (Some (m, v))
    end).

(* @src session/store.ts 594 603 failTurn *)
Definition failTurn (turn error : string) (data : js) : M (option EventRecord) :=
  tx (
    row ← read (getTurn turn);
    match row with
    | None => mret None
    | Some t =>
        if negb (bool_decide (t_state t = Running)) then mret None
        else
          now ← clock;
          on_db (upd_turn turn (ended FailedTurn now (Some error))) ;;
          on_db (upd_session (t_session t) (touched now)) ;;
          v ← insertEvent (t_session t) (Some turn) "turn.failed" (spread [("turnId", JStr turn); ("error", JStr error)] data);
          mret (Some v)
    end).

(* @src session/store.ts 606 611 recoverRunningTurns *)
Fixpoint fail_all (ids : list string) : M (list EventRecord) :=
  match ids with
  | [] => mret []
  | t :: r =>
      e ← failTurn t "core-restarted" (JObj [("recovered", JBool true)]);
      rest ← fail_all r;
      mret (match e with Some v => v :: rest | None => rest end)
  end.

(* @src session/store.ts 606 611 recoverRunningTurns *)
Definition recoverRunningTurns : M (list EventRecord) :=
  ids ← read (fun d => map t_id (sort_by (fun a b => (t_startedAt a <? t_startedAt b) || ((t_startedAt a =? t_startedAt b) && negb (str_ltb (t_id b) (t_id a))))
                        (bfilter (fun t => bool_decide (t_state t = Running)) (turns d))));
  fail_all ids.

(* @src session/store.ts 673 680 appendEvent *)
Definition appendEvent (turn type : string) (data : js) : M EventRecord :=
  tx (
    row ← read (getTurn turn);
    match row with
    | None => throw (Refused NotFound "turn")
    | Some t =>
        require (bool_decide (t_state t = Running)) (Refused Conflict "turn-not-running") ;;
        insertEvent (t_session t) (Some turn) type data
    end).
End store.
