(* ===== verification/SessionPath.v ===== *)
(** * Sessions and their paths

    The rest of the session store: creating, archiving, forking and erasing sessions,
    and the rewinds that hide a range of a transcript behind a note, without a change to
    the transcript itself; summaries. *)

From S2P Require Import Prelude Session.

(** ** Data *)

(* @src session/store.ts 46 58 CreateSessionInput *)
Record CreateSessionInput : Type := {
  ci_kind : string; ci_agentId : string; ci_owner : string; ci_scope : option string; ci_title : option string; ci_memoryMode : option MemoryMode;
  ci_chatKey : option string; ci_replaceActive : bool; ci_origin : option string
}.
(* @src session/store.ts 64 64 SessionPatch *)
Record SessionPatch : Type := { sp_title : option string; sp_pinned : option bool; sp_memoryMode : option MemoryMode }.
(* @src session/store.ts 67 67 MAX_TITLE *)
Definition MAX_TITLE : nat := 200.

(** Where to go back to: the message with a number, or the one before the last turn. *)
Inductive Target : Type := ToSeq (n : num) | ToLast.

(** A sink of audit events may refuse one. *)
(* @src session/store.ts 22 32 RewindInput *)
Record RewindInput : Type := {
  ri_toSeq : Target; ri_lesson : string; ri_actor : string; ri_trigger : string; ri_expectedEventSeq : option Z; ri_audit : option (js -> bool);
  ri_commandTurnId : option string; ri_reservation : option nat
}.
Record RewindPlan : Type := { pl_parentSeq : Z; pl_from : Z; pl_to : Z; pl_messages : list MessageRecord; pl_eventSeq : Z }.

Section store.
Context (clk : nat -> Z) (newId_at : string -> nat -> string) (sha256 : string -> string) (stringify : js -> string).

Notation clock := (clock clk).
Notation newId := (newId newId_at).
Notation insertMessage := (insertMessage clk newId_at).
Notation insertEvent := (insertEvent clk).
Notation hiddenDigest := (hiddenDigest sha256 stringify).

(** ** Sessions *)

(** [title.slice(0, MAX_TITLE)] *)
Definition clip_title (s : string) : string := String.substring 0 MAX_TITLE s.

Definition note_archived (id : string) : M unit :=
  modify (fun w => {| db := db w; reservations := reservations w; tokens := tokens w; ticks := ticks w; fresh := fresh w; archived_log := archived_log w ++ [id]; audit_log := audit_log w |}).

(* @src session/store.ts 364 367 activeForChat *)
Definition activeForChat (chat : string) (d : Db) : option SessionRecord :=
  bfind (fun s => bool_decide (s_chatKey s = Some chat) && bool_decide (s_archivedAt s = None)) (sessions d).

(** What is wrong with the input of a new session. *)
(* @src session/store.ts 316 322 createSession *)
Definition create_fault (i : CreateSessionInput) : option SessionError :=
  if negb (includes SESSION_KINDS (ci_kind i)) then Some (Refused Invalid "kind")
  else if match ci_origin i with Some o => negb (includes SESSION_ORIGINS o) | None => false end then Some (Refused Invalid "origin")
  else if is_empty (ci_agentId i) then Some (Refused Invalid "agent")
  else if is_empty (ci_owner i) then Some (Refused Invalid "owner")
  else if String.eqb (ci_kind i) "channel" && match ci_chatKey i with Some k => is_empty k | None => true end then Some (Refused Invalid "chat-key")
  else if negb (String.eqb (ci_kind i) "channel") && bool_decide (ci_chatKey i <> None) then Some (Refused Invalid "chat-key")
  else None.

(** The chat's active session is archived, when the caller may. *)
(* @src session/store.ts 327 336 createSession *)
Definition replace_active (i : CreateSessionInput) (now : Z) : M (option string) :=
  match ci_chatKey i with
  | None => mret None
  | Some chat =>
      row ← read (activeForChat chat);
      match row with
      | None => mret None
      | Some s =>
          require (ci_replaceActive i && String.eqb (s_owner s) (ci_owner i)) (Refused Conflict "active-chat-session") ;;
          running ← read (runningTurn (s_id s));
          require (bool_decide (t_id <$> running = None)) (Refused Conflict "turn-in-progress") ;;
          on_db (upd_session (s_id s) (with_archived (Some now) now)) ;;
          mret (Some (s_id s))
      end
  end.

(* @src session/store.ts 315 346 createSession *)
Definition createSession (i : CreateSessionInput) : M SessionRecord :=
  match create_fault i with
  | Some e => throw e
  | None =>
      now ← clock;
      id ← newId "ses";
      let s := {| s_id := id; s_kind := ci_kind i; s_agentId := ci_agentId i; s_owner := ci_owner i; s_scope := default "user" (ci_scope i);
                  s_chatKey := ci_chatKey i; s_origin := ci_origin i; s_title := clip_title (default "" (ci_title i)); s_pinned := false;
                  s_memoryMode := default Remember (ci_memoryMode i); s_createdAt := now; s_updatedAt := now; s_lastTurnAt := None; s_archivedAt := None;
                  s_turnCount := 0; s_lastMessageSeq := 0; s_lastEventSeq := 0 |} in
      archived ← tx (
        archived ← replace_active i now;
        ids ← read (fun d => existsb (fun x => String.eqb (s_id x) id) (sessions d));
        require (negb ids) Sqlite ;;
        on_db (fun d => set_sessions (sessions d ++ [s]) d) ;;
        mret archived);
      match archived with Some a => note_archived a | None => mret tt end ;;
      mret s
  end.

(* @src session/store.ts 349 356 createContinuation *)
Definition createContinuation (agentId owner title context : string) : M SessionRecord :=
  require (slen context <=? 8000) (Refused Invalid "context") ;;
  tx (
    s ← createSession {| ci_kind := "direct"; ci_agentId := agentId; ci_owner := owner; ci_scope := None; ci_title := Some title; ci_memoryMode := None;
                         ci_chatKey := None; ci_replaceActive := false; ci_origin := None |};
    insertMessage (s_id s) None RUser context ((slen context + 3) / 4) ;;
    mret s).

(** The session under an id, for a call that ends by reading it back. *)
Definition the_session (id : string) : M SessionRecord :=
  row ← read (getSession id);
  match row with Some s => mret s | None => throw Sqlite end.

(* @src session/store.ts 480 492 updateSession *)
Definition updateSession (id : string) (p : SessionPatch) : M SessionRecord :=
  tx (
    row ← read (getSession id);
    match row with
    | None => throw (Refused NotFound "session")
    | Some s =>
        require (bool_decide (s_archivedAt s = None)) (Refused Conflict "archived") ;;
        now ← clock;
        on_db (upd_session id (with_fields (clip_title (default (s_title s) (sp_title p))) (default (s_pinned s) (sp_pinned p)) (default (s_memoryMode s) (sp_memoryMode p)) now)) ;;
        the_session id
    end).

(* @src session/store.ts 495 509 archiveSession *)
Definition archiveSession (id : string) : M SessionRecord :=
  r ← tx (
    row ← read (getSession id);
    match row with
    | None => throw (Refused NotFound "session")
    | Some s =>
        if negb (bool_decide (s_archivedAt s = None)) then mret (s, false)
        else
          running ← read (runningTurn id);
          require (bool_decide (t_id <$> running = None)) (Refused Conflict "turn-in-progress") ;;
          now ← clock;
          on_db (upd_session id (with_archived (Some now) now)) ;;
          s ← the_session id;
          mret (s, true)
    end);
  (if (r : SessionRecord * bool).2 then note_archived id else mret tt) ;;
  mret r.1.

(* @src session/store.ts 511 517 restoreSession *)
Definition restoreSession (id : string) : M SessionRecord :=
  row ← read (getSession id);
  match row with
  | None => throw (Refused NotFound "")
  | Some s =>
      require (String.eqb (s_kind s) "direct") (Refused Invalid "") ;;
      now ← clock;
      on_db (upd_session id (with_archived None now)) ;;
      the_session id
  end.

(** The messages of a path, copied one by one into another session. *)
Fixpoint copy_messages (into : string) (lessons : list string) (l : list MessageRecord) : M unit :=
  match l with
  | [] => mret tt
  | m :: r =>
      insertMessage into None (if includes lessons (m_id m) then RUser else m_role m) (m_text m) (m_tokens m) ;;
      copy_messages into lessons r
  end.

(* @src session/store.ts 520 530 forkSession *)
Definition forkSession (id : string) (title : option string) (beforeSeq : option Z) : M SessionRecord :=
  tx (
    row ← read (getSession id);
    match row with
    | None => throw (Refused NotFound "")
    | Some s =>
        require (String.eqb (s_kind s) "direct") (Refused Invalid "") ;;
        next ← createSession {| ci_kind := "direct"; ci_agentId := s_agentId s; ci_owner := s_owner s; ci_scope := None; ci_title := Some (default (s_title s) title);
                                ci_memoryMode := Some (s_memoryMode s); ci_chatKey := None; ci_replaceActive := false; ci_origin := None |};
        lessons ← read (fun d => omap r_lessonMessageId (rewinds id d));
        path ← read (fun d => bfilter (fun m => match beforeSeq with None => true | Some b => m_seq m <=? b end) (contextMessages id 0 d));
        copy_messages (s_id next) lessons path ;;
        the_session (s_id next)
    end).

Definition other {A} (key : A -> string) (id : string) (l : list A) : list A := bfilter (fun x => negb (String.eqb (key x) id)) l.

(* @src session/store.ts 535 551 eraseSession *)
Definition eraseSession (id actor reason : string) : M (string * Z) :=
  require (negb (is_empty actor || is_empty reason)) (Refused Invalid "erasure-audit") ;;
  tx (
    row ← read (getSession id);
    match row with
    | None => throw (Refused NotFound "session")
    | Some s =>
        require (negb (bool_decide (s_archivedAt s = None))) (Refused Conflict "not-archived") ;;
        n ← read (fun d => Z.of_nat (length (messages_of id d)));
        tomb ← newId "era";
        at_ ← clock;
        ids ← read (fun d => existsb (fun x => String.eqb (x_id x) tomb) (erasures d));
        require (negb ids) Sqlite ;;
        on_db (fun d => set_erasures (erasures d ++ [{| x_id := tomb; x_session := id; x_agentId := s_agentId s; x_owner := s_owner s; x_kind := s_kind s; x_messages := n; x_at := at_; x_actor := actor; x_reason := reason |}]) d) ;;
        on_db (fun d => {| sessions := other s_id id (sessions d); turns := other t_session id (turns d); messages := other m_session id (messages d);
                           events := other v_session id (events d); rewinds_tbl := other r_session id (rewinds_tbl d);
                           summaries_tbl := other y_session id (summaries_tbl d); erasures := erasures d |}) ;;
        mret (tomb, n)
    end).

(** ** Rewinds *)

Definition reservation_of (id : string) (w : World) : option nat := snd <$> bfind (fun p => String.eqb p.1 id) (reservations w).

(* @src session/store.ts 877 877 rewindReserved *)
Definition rewindReserved (id : string) (w : World) : bool := existsb (fun p => String.eqb p.1 id) (reservations w).

(* @src session/store.ts 879 888 #rewindIdle *)
Definition rewindIdle (id : string) (commandTurnId : option string) (reservation : option nat) : M unit :=
  row ← read (getSession id);
  match row with
  | None => throw (Refused NotFound "session")
  | Some s =>
      require (bool_decide (s_archivedAt s = None)) (Refused Conflict "archived") ;;
      held ← gets (fun w => rewindReserved id w && negb (bool_decide (reservation_of id w = reservation)));
      require (negb held) (Refused Conflict "rewind-in-progress") ;;
      running ← read (runningTurn id);
      require (match running with Some t => bool_decide (commandTurnId = Some (t_id t)) | None => true end) (Refused Conflict "turn-running")
  end.

(** The parent that a target names on the active path; a number that cannot be one for none. *)
(* @src session/store.ts 805 810 planRewind *)
Definition parent_of (active : list MessageRecord) (target : Target) : num :=
  match target with
  | ToSeq n => n
  | ToLast =>
      match bfind (fun m => bool_decide (m_turnId m <> None)) (reverse active) with
      | None => Fin (-1)
      | Some newest =>
          match bfind (fun m => bool_decide (m_turnId m = m_turnId newest)) active with
          | None => Fin (-1)
          | Some first => Fin (match bfind (fun m => m_seq m <? m_seq first) (reverse active) with Some m => m_seq m | None => 0 end)
          end
      end
  end.

(** The path a rewind acts on: what the command itself has said is not on it. *)
Definition rewind_path (id : string) (commandTurnId : option string) (d : Db) : list MessageRecord :=
  bfilter (fun m => match commandTurnId with Some c => negb (bool_decide (m_turnId m = Some c)) | None => true end) (contextMessages id 0 d).

(* @src session/store.ts 800 821 planRewind *)
Definition planRewind (id : string) (target : Target) (commandTurnId : option string) (reservation : option nat) : M RewindPlan :=
  rewindIdle id commandTurnId reservation ;;
  active ← read (rewind_path id commandTurnId);
  let n := parent_of active target in
  require (num_safe n && num_leb (Fin 0) n && match n with Fin p => (p =? 0) || existsb (fun m => m_seq m =? p) active | _ => false end) (Refused Invalid "rewind-target") ;;
  let parent := match n with Fin p => p | _ => 0 end in
  let from := parent + 1 in
  match list.last active with
  | None => throw (Refused Invalid "rewind-empty")
  | Some newest =>
      let to := m_seq newest in
      require (from <=? to) (Refused Invalid "rewind-empty") ;;
      ms ← read (fun d => by_seq (bfilter (fun m => (from <=? m_seq m) && (m_seq m <=? to)) (messages_of id d)));
      at_ ← read (lastEventSeq id);
      mret {| pl_parentSeq := parent; pl_from := from; pl_to := to; pl_messages := ms; pl_eventSeq := default 0 at_ |}
  end.

(** The audit sink is told, and may refuse by throwing. *)
Definition tell_audit (audit : option (js -> bool)) (e : js) : M unit :=
  match audit with
  | None => mret tt
  | Some sink =>
      modify (fun w => {| db := db w; reservations := reservations w; tokens := tokens w; ticks := ticks w; fresh := fresh w; archived_log := archived_log w; audit_log := audit_log w ++ [e] |}) ;;
      require (sink e) Sqlite
  end.

(* @src session/store.ts 824 845 rewindPath *)
Definition rewindPath (id : string) (i : RewindInput) : M RewindRecord :=
  require (negb (is_empty (ri_actor i)) && includes ["user"; "agent"] (ri_trigger i) && negb (is_empty (trim (ri_lesson i))) && (slen (ri_lesson i) <=? 1600))
    (Refused Invalid "rewind-lesson") ;;
  tx (
    plan ← planRewind id (ri_toSeq i) (ri_commandTurnId i) (ri_reservation i);
    require (match ri_expectedEventSeq i with Some n => pl_eventSeq plan =? n | None => true end) (Refused Conflict "rewind-stale") ;;
    rid ← newId "rew";
    at_ ← clock;
    let digest := hiddenDigest (pl_messages plan) in
    let detail := [("sessionId", JStr id); ("rewindId", JStr rid); ("parentSeq", JNum (Fin (pl_parentSeq plan))); ("hiddenFrom", JNum (Fin (pl_from plan)));
                   ("hiddenTo", JNum (Fin (pl_to plan))); ("trigger", JStr (ri_trigger i)); ("actor", JStr (ri_actor i)); ("hiddenDigest", JStr digest)] in
    tell_audit (ri_audit i) (JObj [("action", JStr "session.rewind"); ("detail", JObj detail)]) ;;
    lesson ← insertMessage id None RSystem (ri_lesson i) ((slen (ri_lesson i) + 3) / 4);
    let r := {| r_id := rid; r_session := id; r_parentSeq := pl_parentSeq plan; r_hiddenFromSeq := pl_from plan; r_hiddenToSeq := pl_to plan;
                r_lessonMessageId := Some (m_id lesson); r_hiddenDigest := digest; r_trigger := ri_trigger i; r_actor := ri_actor i; r_createdAt := at_; r_undoneAt := None |} in
    ids ← read (fun d => existsb (fun x => String.eqb (r_id x) rid) (rewinds_tbl d));
    require (negb ids && (slen digest =? 64)) Sqlite ;;
    on_db (fun d => set_rewinds (rewinds_tbl d ++ [r]) d) ;;
    on_db (upd_session id (touched at_)) ;;
    insertEvent id None "session.rewind" (JObj (detail ++ [("lessonMessageId", JStr (m_id lesson))])) ;;
    mret r).

Definition undone (at_ : Z) (r : RewindRecord) : RewindRecord :=
  {| r_id := r_id r; r_session := r_session r; r_parentSeq := r_parentSeq r; r_hiddenFromSeq := r_hiddenFromSeq r; r_hiddenToSeq := r_hiddenToSeq r;
     r_lessonMessageId := r_lessonMessageId r; r_hiddenDigest := r_hiddenDigest r; r_trigger := r_trigger r; r_actor := r_actor r; r_createdAt := r_createdAt r; r_undoneAt := Some at_ |}.

(* @src session/store.ts 848 864 undoRewind *)
Definition undoRewind (id rid actor : string) (audit : option (js -> bool)) (commandTurnId : option string) : M RewindRecord :=
  tx (
    rewindIdle id commandTurnId None ;;
    row ← read (fun d => bfind (fun r => String.eqb (r_session r) id && String.eqb (r_id r) rid) (rewinds_tbl d));
    match row with
    | None => throw (Refused NotFound "rewind")
    | Some r =>
        require (negb (is_empty actor)) (Refused Invalid "rewind-actor") ;;
        if negb (active_rewind r) then mret r
        else
          let detail := JObj [("sessionId", JStr id); ("rewindId", JStr rid); ("actor", JStr actor); ("hiddenDigest", JStr (r_hiddenDigest r))] in
          tell_audit audit (JObj [("action", JStr "session.rewind.undone"); ("detail", detail)]) ;;
          at_ ← clock;
          on_db (fun d => set_rewinds (map (fun x => if String.eqb (r_id x) rid then undone at_ x else x) (rewinds_tbl d)) d) ;;
          on_db (upd_session id (touched at_)) ;;
          insertEvent id None "session.rewind.undone" detail ;;
          mret (undone at_ r)
    end).

Definition set_reservations (l : list (string * nat)) (n : nat) (w : World) : World :=
  {| db := db w; reservations := l; tokens := n; ticks := ticks w; fresh := fresh w; archived_log := archived_log w; audit_log := audit_log w |}.

(* @src session/store.ts 867 870 reserveRewind *)
Definition reserveRewind (id : string) (commandTurnId : option string) : M nat :=
  rewindIdle id commandTurnId None ;;
  token ← gets tokens;
  modify (fun w => set_reservations ((id, token) :: bfilter (fun p => negb (String.eqb p.1 id)) (reservations w)) (S token) w) ;;
  mret token.

(* @src session/store.ts 870 873 reserveRewind *)
Definition release (id : string) (token : nat) : M unit :=
  modify (fun w => if bool_decide (reservation_of id w = Some token)
                   then set_reservations (bfilter (fun p => negb (String.eqb p.1 id)) (reservations w)) (tokens w) w else w).

(** ** Summaries *)

(* @src session/store.ts 937 942 addSummary *)
Definition addSummary (session : string) (fromSeq toSeq : Z) (text : string) (tokens tier : Z) (state : SummaryState) : M SummaryRecord :=
  sid ← newId "sum";
  now ← clock;
  let y := {| y_id := sid; y_session := session; y_fromSeq := fromSeq; y_toSeq := toSeq; y_text := text; y_tokens := tokens; y_tier := tier; y_state := state; y_createdAt := now |} in
  ids ← read (fun d => existsb (fun x => String.eqb (y_id x) sid) (summaries_tbl d) || bool_decide (s_id <$> getSession session d = None));
  require (negb ids) Sqlite ;;
  on_db (fun d => set_summaries (summaries_tbl d ++ [y]) d) ;;
  mret y.

Definition with_state (state : SummaryState) (y : SummaryRecord) : SummaryRecord :=
  {| y_id := y_id y; y_session := y_session y; y_fromSeq := y_fromSeq y; y_toSeq := y_toSeq y; y_text := y_text y; y_tokens := y_tokens y; y_tier := y_tier y; y_state := state; y_createdAt := y_createdAt y |}.

(* @src session/store.ts 948 948 setSummaryState *)
Definition setSummaryState (sid : string) (state : SummaryState) : M unit :=
  on_db (fun d => set_summaries (map (fun y => if String.eqb (y_id y) sid then with_state state y else y) (summaries_tbl d)) d).

Fixpoint supersede_all (ids : list string) : M unit :=
  match ids with [] => mret tt | i :: r => setSummaryState i Superseded ;; supersede_all r end.

(* @src session/store.ts 950 952 replaceSummaries *)
Definition replaceSummaries (supersede : list string) (session : string) (fromSeq toSeq : Z) (text : string) (tokens tier : Z) (state : SummaryState) : M SummaryRecord :=
  tx (supersede_all supersede ;; addSummary session fromSeq toSeq text tokens tier state).
End store.
