(* ===== verification/SessionInv.v ===== *)
(** * The invariant of the session store

    What every call does to the database is a sequence of small steps, each with the
    condition under which the call takes it; the steps keep the store well formed and
    never change a transcript but at its end. *)

From S2P Require Import Prelude Session SessionPath.

(** ** Rows of a session *)

Definition events_of (id : string) (d : Db) : list EventRecord := bfilter (fun v => String.eqb (v_session v) id) (events d).
Definition turns_of (id : string) (d : Db) : list TurnRecord := bfilter (fun t => String.eqb (t_session t) id) (turns d).
Definition running_of (id : string) (d : Db) : list TurnRecord := bfilter (fun t => bool_decide (t_state t = Running)) (turns_of id d).

(** What an update of a session leaves alone. *)
Definition same_session (s s' : SessionRecord) : Prop :=
  s_id s' = s_id s /\ s_kind s' = s_kind s /\ s_owner s' = s_owner s /\ s_agentId s' = s_agentId s /\ s_scope s' = s_scope s /\ s_chatKey s' = s_chatKey s /\ s_origin s' = s_origin s /\
  s_turnCount s' = s_turnCount s /\ s_lastMessageSeq s' = s_lastMessageSeq s /\ s_lastEventSeq s' = s_lastEventSeq s.

(** ** Opening a run *)

Lemma table_ok {A} (f : Db -> A) w a w' : read f w = (Ok a, w') -> a = f (db w) /\ w' = w.
Proof. intros [= <- <-]. done. Qed.
Lemma on_db_ok f w u w' : on_db f w = (Ok u, w') -> w' = with_db (f (db w)) w.
Proof. intros [= _ <-]. done. Qed.
Lemma clock_ok clk w a w' : clock clk w = (Ok a, w') -> a = clk (ticks w) /\ db w' = db w /\ reservations w' = reservations w.
Proof. intros [= <- <-]. done. Qed.
Lemma newId_ok ids p w a w' : newId ids p w = (Ok a, w') -> a = ids p (fresh w) /\ db w' = db w /\ reservations w' = reservations w.
Proof. intros [= <- <-]. done. Qed.
Lemma tx_ok {A} (m : M A) w a w' : tx m w = (Ok a, w') -> m w = (Ok a, w').
Proof. unfold tx. by destruct (m w) as [[?|?] ?]. Qed.
Lemma gets_ok {A} (f : World -> A) w a w' : (gets f : M A) w = (Ok a, w') -> a = f w /\ w' = w.
Proof. intros [= <- <-]. done. Qed.

(** Split a successful run into what each of its steps found and did. *)
Ltac open_run :=
  repeat match goal with
  | H : (let _ := _ in _) _ = (Ok _, _) |- _ => cbv zeta in H
  | H : (_ ≫= _) _ = (Ok _, _) |- _ => apply SE_bind_ok in H as (? & ? & ? & ?)
  | H : tx _ _ = (Ok _, _) |- _ => apply tx_ok in H
  | H : require _ _ _ = (Ok _, _) |- _ => apply require_ok in H as [? ?]; subst
  | H : mret _ _ = (Ok _, _) |- _ => injection H as ? ?; subst
  | H : read _ _ = (Ok _, _) |- _ => apply table_ok in H as [? ?]; subst
  | H : on_db _ _ = (Ok _, _) |- _ => apply on_db_ok in H; subst
  | H : clock _ _ = (Ok _, _) |- _ => apply clock_ok in H as (? & ? & ?)
  | H : newId _ _ _ = (Ok _, _) |- _ => apply newId_ok in H as (? & ? & ?)
  | H : gets _ _ = (Ok _, _) |- _ => apply gets_ok in H as [? ?]; subst
  | H : throw _ _ = (Ok _, _) |- _ => discriminate H
  | H : (Ok _, _) = (Ok _, _) |- _ => injection H as ? ?; subst
  | H : (Err _, _) = (Ok _, _) |- _ => discriminate H
  | H : context [match getSession ?i ?d with _ => _ end] |- _ => destruct (getSession i d) eqn:?
  | H : context [match getTurn ?i ?d with _ => _ end] |- _ => destruct (getTurn i d) eqn:?
  | H : (if negb (bool_decide ?P) then _ else _) _ = (Ok _, _) |- _ => destruct (decide P); [rewrite bool_decide_eq_true_2 in H by assumption|rewrite bool_decide_eq_false_2 in H by assumption]; cbn [negb] in H
  end.

(** The moments of the clock and the id generator are not the database's. *)
Ltac same_db :=
  repeat match goal with
  | H : db ?x = db _ |- _ => is_var x; rewrite H in *; clear H
  | H : reservations ?x = reservations _ |- _ => is_var x; rewrite H in *; clear H
  end.

(** ** Small steps

    [may_erase] are the sessions that may be erased. *)

Section steps.
Context (may_erase : string -> Prop).

Inductive small : Db -> Db -> Prop :=
| add_session s d : s_id s ∉ map s_id (sessions d) -> s_turnCount s = 0 -> s_lastMessageSeq s = 0 -> s_lastEventSeq s = 0 -> s_archivedAt s = None ->
    small d (set_sessions (sessions d ++ [s]) d)
| edit_session id f d : (forall s, same_session s (f s)) -> (forall s, s_archivedAt (f s) = s_archivedAt s \/ s_archivedAt (f s) = None) -> small d (upd_session id f d)
| archive id now d : running_of id d = [] -> small d (upd_session id (with_archived (Some now) now) d)
| add_turn s t now d : getSession (t_session t) d = Some s -> s_archivedAt s = None -> running_of (t_session t) d = [] -> t_id t ∉ map t_id (turns d) ->
    t_turn t = s_turnCount s + 1 -> t_state t = Running -> small d (upd_session (t_session t) (with_turn (t_turn t) now) (set_turns (turns d ++ [t]) d))
| end_turn tid state now e d t : getTurn tid d = Some t -> t_state t = Running -> state <> Running -> small d (upd_turn tid (ended state now e) d)
| add_message s m d : getSession (m_session m) d = Some s -> m_seq m = s_lastMessageSeq s + 1 -> m_id m ∉ map m_id (messages d) ->
    small d (set_messages (messages d ++ [m]) (upd_session (m_session m) (with_message_seq (m_seq m)) d))
| add_event s v d : getSession (v_session v) d = Some s -> v_seq v = s_lastEventSeq s + 1 ->
    small d (set_events (events d ++ [v]) (upd_session (v_session v) (with_event_seq (v_seq v)) d))
| add_rewind s r l x d : getSession (r_session r) d = Some s -> r_id r ∉ map r_id (rewinds_tbl d) -> 0 <= r_parentSeq r -> r_hiddenFromSeq r = r_parentSeq r + 1 ->
    r_hiddenFromSeq r <= r_hiddenToSeq r -> l ∈ messages d -> r_lessonMessageId r = Some (m_id l) -> m_session l = r_session r -> m_turnId l = None ->
    m_seq l = s_lastMessageSeq s -> x ∈ messages d -> m_session x = r_session r -> m_seq x = r_hiddenToSeq r -> m_id x <> m_id l -> r_undoneAt r = None -> small d (set_rewinds (rewinds_tbl d ++ [r]) d)
| undo_rewind rid at_ d r : r ∈ rewinds_tbl d -> r_id r = rid -> r_undoneAt r = None ->
    small d (set_rewinds (map (fun x => if String.eqb (r_id x) rid then undone at_ x else x) (rewinds_tbl d)) d)
| change_summaries l d : small d (set_summaries l d)
| erase s x d : may_erase (s_id s) -> getSession (s_id s) d = Some s -> s_archivedAt s <> None ->
    small d {| sessions := other s_id (s_id s) (sessions d); turns := other t_session (s_id s) (turns d); messages := other m_session (s_id s) (messages d);
               events := other v_session (s_id s) (events d); rewinds_tbl := other r_session (s_id s) (rewinds_tbl d);
               summaries_tbl := other y_session (s_id s) (summaries_tbl d); erasures := erasures d ++ [x] |}.

(** ** The calls as small steps *)

(** [m] changes the database by small steps, whether it returns or throws. *)
Definition stepwise {A} (m : M A) : Prop := forall w, rtc small (db w) (db (m w).2).

Lemma stepwise_tx {A} (m : M A) : (forall w a w', m w = (Ok a, w') -> rtc small (db w) (db w')) -> stepwise (tx m).
Proof. intros H w. unfold tx. destruct (m w) as [[a|e] w'] eqn:E; cbn; [by eapply H|done]. Qed.

Lemma stepwise_ok {A} (m : M A) w a w' : stepwise m -> m w = (Ok a, w') -> rtc small (db w) (db w').
Proof. intros H E. specialize (H w). by rewrite E in H. Qed.

Lemma stepwise_bind {A B} (m : M A) (k : A -> M B) : stepwise m -> (forall a, stepwise (k a)) -> stepwise (m ≫= k).
Proof.
  intros Hm Hk w. unfold mbind, SE_bind. specialize (Hm w). destruct (m w) as [[a|e] w1]; cbn in *; [|done].
  etrans; [exact Hm|apply Hk].
Qed.

(** Steps that leave the database alone. *)
Definition idle {A} (m : M A) : Prop := forall w, db (m w).2 = db w.

Lemma idle_stepwise {A} (m : M A) : idle m -> stepwise m.
Proof. intros H w. by rewrite H. Qed.

Lemma same_ret {A} (a : A) : idle (mret a). Proof. done. Qed.
Lemma same_throw {A} e : idle (throw e : M A). Proof. done. Qed.
Lemma same_gets {A} (f : World -> A) : idle (gets f). Proof. done. Qed.
Lemma same_require b e : idle (require b e). Proof. by destruct b. Qed.
Lemma same_bind {A B} (m : M A) (k : A -> M B) : idle m -> (forall a, idle (k a)) -> idle (m ≫= k).
Proof. intros Hm Hk w. unfold mbind, SE_bind. specialize (Hm w). destruct (m w) as [[a|e] w1]; cbn in *; [|done]. by rewrite Hk. Qed.

Lemma idle_ok {A} (m : M A) w a w' : idle m -> m w = (Ok a, w') -> db w' = db w.
Proof. intros H E. specialize (H w). by rewrite E in H. Qed.

Section calls.
Context (clk : nat -> Z) (newId_at : string -> nat -> string) (sha256 : string -> string) (stringify : js -> string).

Lemma getSession_elem id d s : getSession id d = Some s -> s ∈ sessions d /\ s_id s = id.
Proof. intros [H1 H2]%bfind_some. split; [done|]. by apply String.eqb_eq in H2. Qed.

(** A session after an update of one that keeps its id. *)
Lemma getSession_upd id id' f d : (forall s, s_id (f s) = s_id s) ->
  getSession id' (upd_session id f d) = (fun s => if String.eqb (s_id s) id then f s else s) <$> getSession id' d.
Proof.
  intros H. unfold getSession. cbn. induction (sessions d) as [|s l IH]; [done|]. cbn [map bfind List.find].
  assert (s_id (if (s_id s =? id)%string then f s else s) = s_id s) as -> by (destruct (s_id s =? id)%string; [apply H|done]).
  destruct (s_id s =? id')%string; [done|exact IH].
Qed.

Lemma getTurn_elem id d t : getTurn id d = Some t -> t ∈ turns d /\ t_id t = id.
Proof. intros [H1 H2]%bfind_some. split; [done|]. by apply String.eqb_eq in H2. Qed.

(** Nothing runs in a session without a running turn. *)
Lemma idle_session id d : runningTurn id d = None -> running_of id d = [].
Proof.
  intros H. apply bfilter_none. intros t [Ht Hs]%bfilter_elem. pose proof (bfind_none _ _ t H Ht) as Hn. cbn in Hn. by rewrite Hs in Hn.
Qed.

Lemma not_taken {A} (key : A -> string) k (p : A -> bool) l : existsb (fun x => String.eqb (key x) k || p x) l = false -> k ∉ map key l.
Proof.
  intros H (x & -> & Hx)%elem_of_map. pose proof (existsb_false_elem _ _ x H Hx) as E. cbn in E. by rewrite String.eqb_refl in E.
Qed.

Lemma not_taken' {A} (key : A -> string) k l : existsb (fun x => String.eqb (key x) k) l = false -> k ∉ map key l.
Proof. intros H (x & -> & Hx)%elem_of_map. pose proof (existsb_false_elem _ _ x H Hx) as E. cbn in E. by rewrite String.eqb_refl in E. Qed.

(** One message more. *)
Lemma insertMessage_ok id turn role text tokens w m w' : insertMessage clk newId_at id turn role text tokens w = (Ok m, w') ->
  exists s, getSession id (db w) = Some s /\ m_session m = id /\ m_turnId m = turn /\ m_role m = role /\ m_text m = text /\ m_tokens m = tokens /\
    m_seq m = s_lastMessageSeq s + 1 /\ m_id m ∉ map m_id (messages (db w)) /\
    db w' = set_messages (messages (db w) ++ [m]) (upd_session id (with_message_seq (m_seq m)) (db w)) /\ reservations w' = reservations w.
Proof.
  unfold insertMessage. intros H. open_run. cbn zeta in *. open_run. same_db. exists s. cbn. repeat (split; [done|]).
  split; [|by split]. match goal with H : negb _ = true |- _ => apply negb_true_iff in H; exact (not_taken _ _ _ _ H) end.
Qed.

(** One event more. *)
Lemma insertEvent_ok id turn type data w v w' : insertEvent clk id turn type data w = (Ok v, w') ->
  exists s, getSession id (db w) = Some s /\ v_session v = id /\ v_turnId v = turn /\ v_type v = type /\ v_data v = data /\
    v_seq v = s_lastEventSeq s + 1 /\
    db w' = set_events (events (db w) ++ [v]) (upd_session id (with_event_seq (v_seq v)) (db w)) /\ reservations w' = reservations w.
Proof.
  unfold insertEvent. intros H. open_run. cbn zeta in *. open_run. same_db. exists s. cbn. by repeat (split; [done|]).
Qed.

Lemma insertMessage_small id turn role text tokens w m w' : insertMessage clk newId_at id turn role text tokens w = (Ok m, w') -> rtc small (db w) (db w').
Proof. intros (s & Hs & <- & _ & _ & _ & _ & Hq & Hi & -> & _)%insertMessage_ok. by eapply rtc_once, add_message. Qed.

Lemma insertEvent_small id turn type data w v w' : insertEvent clk id turn type data w = (Ok v, w') -> rtc small (db w) (db w').
Proof. intros (s & Hs & <- & _ & _ & _ & Hq & -> & _)%insertEvent_ok. by eapply rtc_once, add_event. Qed.

(** An update that only marks when a session was last changed. *)
Lemma touch_small id now d : small d (upd_session id (touched now) d).
Proof. apply edit_session; [by intros s|by left]. Qed.

Lemma beginTurn_small id text n h o : stepwise (beginTurn clk newId_at id text n h o).
Proof.
  apply stepwise_tx. intros w a w' H. open_run.
  match goal with H : bool_decide (s_archivedAt _ = None) = true |- _ => apply bool_decide_eq_true in H; rename H into Harch end.
  match goal with H : bool_decide (t_id <$> _ = None) = true |- _ => apply bool_decide_eq_true, fmap_None, idle_session in H; rename H into Hidle end.
  same_db. etrans; [|by eapply insertEvent_small]. etrans; [|by eapply insertMessage_small]. cbn [db with_db]. same_db.
  apply rtc_once. eapply (add_turn _ {| t_id := _ |}); cbn; try done.
  match goal with H : negb (existsb (fun x => String.eqb (t_id x) _) _) = true |- _ => apply negb_true_iff, not_taken' in H; exact H end.
Qed.

Lemma endTurn_small tid state now e t text d : getTurn tid d = Some t -> t_state t = Running -> state <> Running -> 
  rtc small d (upd_session text (touched now) (upd_turn tid (ended state now e) d)).
Proof. intros. eapply rtc_l; [by eapply end_turn|]. apply rtc_once, touch_small. Qed.

Lemma completeTurn_small tid text n data : stepwise (completeTurn clk newId_at tid text n data).
Proof.
  apply stepwise_tx. intros w a w' H. open_run; [|done..].
  match goal with H : insertMessage _ _ _ _ _ _ _ _ = _ |- _ => pose proof (insertMessage_small _ _ _ _ _ _ _ _ H) as Hm; apply insertMessage_ok in H as (? & ? & ? & ? & ? & ? & ? & ? & ? & Hdb & ?) end.
  etrans; [|by eapply insertEvent_small]. cbn [db with_db]. same_db. etrans; [exact Hm|].
  eapply endTurn_small; [|by eauto..]. rewrite Hdb. by cbn.
Qed.

Lemma failTurn_small tid e data : stepwise (failTurn clk tid e data).
Proof.
  apply stepwise_tx. intros w a w' H. open_run; [|done..].
  etrans; [|by eapply insertEvent_small]. cbn [db with_db]. same_db. by eapply endTurn_small.
Qed.

Lemma recover_small : stepwise (recoverRunningTurns clk).
Proof.
  apply stepwise_bind; [by apply idle_stepwise|]. intros ids. induction ids as [|t ids IH]; [by apply idle_stepwise|].
  apply stepwise_bind; [apply failTurn_small|]. intros e. apply stepwise_bind; [exact IH|]. intros r. by apply idle_stepwise.
Qed.

Lemma appendEvent_small tid type data : stepwise (appendEvent clk tid type data).
Proof. apply stepwise_tx. intros w a w' H. open_run. by eapply insertEvent_small. Qed.

(** *** Sessions *)

Lemma map_s_id id f d : (forall s, s_id (f s) = s_id s) -> map s_id (sessions (upd_session id f d)) = map s_id (sessions d).
Proof. intros H. cbn. rewrite map_map. apply map_ext. intros s. by destruct (String.eqb _ _). Qed.

Lemma replace_small i now w a w' : replace_active i now w = (Ok a, w') ->
  rtc small (db w) (db w') /\ map s_id (sessions (db w')) = map s_id (sessions (db w)) /\ messages (db w') = messages (db w) /\ events (db w') = events (db w) /\ rewinds_tbl (db w') = rewinds_tbl (db w).
Proof.
  unfold replace_active. intros H. destruct (ci_chatKey i) as [chat|]; [|by open_run]. open_run.
  destruct (activeForChat chat (db _)) as [s|]; open_run; [|done].
  match goal with H : bool_decide (t_id <$> _ = None) = true |- _ => apply bool_decide_eq_true, fmap_None, idle_session in H; rename H into Hidle end.
  cbn [db with_db]. split; [by apply rtc_once, archive|]. split; [by apply map_s_id|done].
Qed.

(** A new session, at the end of the table, with nothing in it. *)
Lemma createSession_ok i w s w' : createSession clk newId_at i w = (Ok s, w') ->
  rtc small (db w) (db w') /\ (exists l, sessions (db w') = l ++ [s] /\ map s_id l = map s_id (sessions (db w)) /\ s_id s ∉ map s_id l) /\
  messages (db w') = messages (db w) /\ events (db w') = events (db w) /\ rewinds_tbl (db w') = rewinds_tbl (db w) /\
  s_kind s = ci_kind i /\ s_owner s = ci_owner i /\ s_agentId s = ci_agentId i /\ s_lastMessageSeq s = 0 /\ s_archivedAt s = None.
Proof.
  unfold createSession. destruct (create_fault i); [done|]. intros H. open_run.
  match goal with H : (match ?a with Some _ => _ | None => _ end) ?w1 = (Ok ?u, ?w2) |- _ => assert (db w2 = db w1) as Hlog by (destruct a; unfold note_archived, modify in H; by open_run) end.
  match goal with H : replace_active _ _ _ = _ |- _ => apply replace_small in H as (Hr & Hi & Hm & He & Hw) end.
  match goal with H : negb _ = true |- _ => apply negb_true_iff, not_taken' in H; rename H into Hnew end.
  rewrite Hlog. cbn [db with_db set_sessions sessions messages events rewinds_tbl]. same_db.
  split; [etrans; [exact Hr|]; by apply rtc_once, add_session|]. split; [|done].
  eexists. split; [done|]. split; [exact Hi|]. cbn [s_id]. done.
Qed.

Lemma idle_clock : idle (clock clk). Proof. done. Qed.
Lemma idle_newId p : idle (newId newId_at p). Proof. done. Qed.

Lemma createSession_small i : stepwise (createSession clk newId_at i).
Proof.
  unfold createSession. destruct (create_fault i); [by apply idle_stepwise|].
  apply stepwise_bind; [by apply idle_stepwise, idle_clock|]. intros now. apply stepwise_bind; [by apply idle_stepwise, idle_newId|]. intros id. cbv zeta.
  apply stepwise_bind.
  - apply stepwise_tx. intros w a w' H. open_run.
    match goal with H : replace_active _ _ _ = _ |- _ => apply replace_small in H as (Hr & _) end.
    match goal with H : negb _ = true |- _ => apply negb_true_iff, not_taken' in H end.
    etrans; [exact Hr|]. by apply rtc_once, add_session.
  - intros a. apply stepwise_bind; [by destruct a; apply idle_stepwise|]. intros _. by apply idle_stepwise.
Qed.

Lemma createContinuation_small a o t c : stepwise (createContinuation clk newId_at a o t c).
Proof.
  unfold createContinuation. apply stepwise_bind; [apply idle_stepwise, same_require|]. intros _. apply stepwise_tx. intros w s w' H. open_run.
  match goal with H : createSession _ _ _ _ = _ |- _ => apply createSession_ok in H as (Hr & _) end.
  etrans; [exact Hr|by eapply insertMessage_small].
Qed.

Lemma the_session_idle id : idle (the_session id).
Proof. apply same_bind; [apply same_gets|]. intros [s|]; [apply same_ret|apply same_throw]. Qed.

Lemma updateSession_small id p : stepwise (updateSession clk id p).
Proof.
  apply stepwise_tx. intros w a w' H. open_run.
  match goal with H : the_session _ _ = _ |- _ => apply (idle_ok _ _ _ _ (the_session_idle _)) in H; rewrite H end.
  cbn [db with_db]. same_db. apply rtc_once, edit_session; [by intros ?|by left].
Qed.

Lemma archiveSession_small id : stepwise (archiveSession clk id).
Proof.
  apply stepwise_bind; [|intros [r [|]]; (apply stepwise_bind; [by apply idle_stepwise|intros _; by apply idle_stepwise])].
  apply stepwise_tx. intros w a w' H. open_run; [|done].
  match goal with H : the_session _ _ = _ |- _ => apply (idle_ok _ _ _ _ (the_session_idle _)) in H; rewrite H end.
  match goal with H : bool_decide (t_id <$> _ = None) = true |- _ => apply bool_decide_eq_true, fmap_None, idle_session in H; rename H into Hidle end.
  cbn [db with_db]. same_db. by apply rtc_once, archive.
Qed.

Lemma restoreSession_small id : stepwise (restoreSession clk id).
Proof.
  apply stepwise_bind; [by apply idle_stepwise|]. intros [s|]; [|by apply idle_stepwise].
  apply stepwise_bind; [apply idle_stepwise, same_require|]. intros _. apply stepwise_bind; [by apply idle_stepwise, idle_clock|]. intros now.
  apply stepwise_bind; [|intros _; apply idle_stepwise, the_session_idle].
  intros w. cbn [on_db modify snd db with_db]. apply rtc_once, edit_session; [by intros ?|by right].
Qed.

Lemma copy_small into lessons l w u w' : copy_messages clk newId_at into lessons l w = (Ok u, w') -> rtc small (db w) (db w').
Proof.
  revert w. induction l as [|m l IH]; intros w H; cbn [copy_messages] in H; open_run; [done|].
  etrans; [by eapply insertMessage_small|by apply IH].
Qed.

Lemma forkSession_small id t b : stepwise (forkSession clk newId_at id t b).
Proof.
  apply stepwise_tx. intros w a w' H. open_run.
  match goal with H : the_session _ _ = _ |- _ => apply (idle_ok _ _ _ _ (the_session_idle _)) in H; rewrite H end.
  match goal with H : createSession _ _ _ _ = _ |- _ => apply createSession_ok in H as (Hr & _) end.
  etrans; [exact Hr|by eapply copy_small].
Qed.

Lemma eraseSession_small id actor reason : may_erase id -> stepwise (eraseSession clk newId_at id actor reason).
Proof.
  intros HE. unfold eraseSession. apply stepwise_bind; [apply idle_stepwise, same_require|]. intros _. apply stepwise_tx. intros w a w' H. open_run.
  cbn [db with_db set_erasures sessions turns messages events rewinds_tbl summaries_tbl erasures] in *. same_db.
  match goal with H : getSession _ _ = Some ?s |- _ => pose proof (getSession_elem _ _ _ H) as [_ <-]; eapply rtc_once, (erase s); [done|done|] end.
  match goal with H : negb (bool_decide _) = true |- _ => by apply negb_true_iff, bool_decide_eq_false in H end.
Qed.

(** *** Rewinds *)

Lemma activePath_elem ms rs m : m ∈ activePath ms rs -> m ∈ ms.
Proof. unfold activePath. cbv zeta. by intros [H _]%bfilter_elem. Qed.

Lemma by_seq_elem l m : m ∈ by_seq l <-> m ∈ l.
Proof. unfold by_seq. by rewrite sort_by_perm. Qed.

Lemma context_elem id after d m : m ∈ contextMessages id after d -> m ∈ messages d /\ m_session m = id /\ after < m_seq m.
Proof.
  unfold contextMessages. cbv zeta. intros [H _]%activePath_elem%bfilter_elem. apply (proj1 (by_seq_elem _ _)) in H. apply bfilter_elem in H as [H Hq].
  unfold messages_of in H. apply bfilter_elem in H as [H Hs]. apply String.eqb_eq in Hs. apply Z.ltb_lt in Hq. done.
Qed.

Lemma rewind_path_elem id c d m : m ∈ rewind_path id c d -> m ∈ messages d /\ m_session m = id.
Proof. unfold rewind_path. intros [H _]%bfilter_elem. apply context_elem in H as (? & ? & _). done. Qed.

Lemma rewindIdle_ok id c r w u w' : rewindIdle id c r w = (Ok u, w') -> w' = w /\ exists s, getSession id (db w) = Some s /\ s_archivedAt s = None.
Proof.
  unfold rewindIdle. intros H. open_run.
  match goal with H : bool_decide (s_archivedAt _ = None) = true |- _ => apply bool_decide_eq_true in H; rename H into Harch end.
  split; [done|]. by exists s.
Qed.

(** What a plan is: the range after the parent up to the end of the path. *)
Lemma planRewind_ok id target c r w p w' : planRewind id target c r w = (Ok p, w') ->
  w' = w /\ (exists s, getSession id (db w) = Some s /\ s_archivedAt s = None /\ pl_eventSeq p = s_lastEventSeq s) /\
  parent_of (rewind_path id c (db w)) target = Fin (pl_parentSeq p) /\ 0 <= pl_parentSeq p /\
  (pl_parentSeq p = 0 \/ exists m, m ∈ rewind_path id c (db w) /\ m_seq m = pl_parentSeq p) /\
  pl_from p = pl_parentSeq p + 1 /\ pl_from p <= pl_to p /\
  (exists m, list.last (rewind_path id c (db w)) = Some m /\ m_seq m = pl_to p) /\
  pl_messages p = by_seq (bfilter (fun m => (pl_from p <=? m_seq m) && (m_seq m <=? pl_to p)) (messages_of id (db w))).
Proof.
  unfold planRewind. intros H. apply SE_bind_ok in H as (u & w1 & Hi & H). apply rewindIdle_ok in Hi as (-> & s & Hs & Ha). open_run.
  destruct (parent_of (rewind_path id c (db w)) target) as [q| |] eqn:Hp; [|by bool_hyps..].
  destruct (list.last (rewind_path id c (db w))) as [m|] eqn:Hl; open_run. bool_hyps. cbn in *. split; [done|].
  split; [exists s; unfold lastEventSeq; by rewrite Hs|]. split; [done|]. split; [lia|].
  split; [|split; [done|split; [lia|split; [by exists m|done]]]].
  match goal with H : _ || existsb _ _ = true |- _ => apply orb_true_iff in H as [H|H]; [left; lia|right] end.
  match goal with H : existsb _ _ = true |- _ => apply existsb_elem in H as (m' & Hm' & E) end. exists m'. split; [done|lia].
Qed.

Lemma tell_audit_ok a e w u w' : tell_audit a e w = (Ok u, w') -> db w' = db w.
Proof. unfold tell_audit, modify. destruct a; intros H; by open_run. Qed.

(** What a rewind adds: its note, at the end of the transcript, and the overlay. *)
Lemma rewindPath_ok id i w r w' : rewindPath clk newId_at sha256 stringify id i w = (Ok r, w') ->
  exists p w1 m w2 v, planRewind id (ri_toSeq i) (ri_commandTurnId i) (ri_reservation i) w = (Ok p, w) /\
    db w1 = db w /\ insertMessage clk newId_at id None RSystem (ri_lesson i) ((slen (ri_lesson i) + 3) / 4) w1 = (Ok m, w2) /\
    r_session r = id /\ r_parentSeq r = pl_parentSeq p /\ r_hiddenFromSeq r = pl_from p /\ r_hiddenToSeq r = pl_to p /\ r_lessonMessageId r = Some (m_id m) /\
    r_undoneAt r = None /\ r_id r ∉ map r_id (rewinds_tbl (db w2)) /\ r_hiddenDigest r = hiddenDigest sha256 stringify (pl_messages p) /\
    exists w3, db w3 = upd_session id (touched (r_createdAt r)) (set_rewinds (rewinds_tbl (db w2) ++ [r]) (db w2)) /\
    v_type v = "session.rewind" /\ insertEvent clk id None (v_type v) (v_data v) w3 = (Ok v, w').
Proof.
  unfold rewindPath. intros H. open_run.
  match goal with H : planRewind _ _ _ _ _ = (Ok ?p, _) |- _ => pose proof (planRewind_ok _ _ _ _ _ _ _ H) as [-> _]; exists p end.
  match goal with H : tell_audit _ _ _ = _ |- _ => apply tell_audit_ok in H end.
  match goal with H : insertMessage _ _ _ _ _ _ _ ?w1 = (Ok ?m, ?w2), H' : insertEvent _ _ _ _ _ ?w3 = (Ok ?v, _) |- _ =>
    exists w1, m, w2, v; pose proof (insertEvent_ok _ _ _ _ _ _ _ H') as (_ & _ & _ & _ & Ht & Hd & _);
    split; [done|]; split; [congruence|]; split; [exact H|] end.
  cbn. bool_hyps. repeat (split; [done|]). split; [by apply not_taken'|]. split; [done|].
  eexists. split; [|split; [exact Ht|rewrite Ht, Hd; eassumption]]. done.
Qed.

Lemma stepwise_guarded {A} b e (m : M A) : (forall w a w', (require b e ;; tx m) w = (Ok a, w') -> rtc small (db w) (db w')) -> stepwise (require b e ;; tx m).
Proof.
  intros H w. specialize (H w). destruct ((require b e ;; tx m) w) as [[a|f] w'] eqn:E; [by eapply H|]. cbn.
  unfold mbind, SE_bind in E. destruct b; cbn in E; [|by injection E as _ <-].
  unfold tx in E. destruct (m w) as [[a|f'] w1]; [done|]. by injection E as _ <-.
Qed.

Lemma rewindPath_small id i : stepwise (rewindPath clk newId_at sha256 stringify id i).
Proof.
  apply stepwise_guarded. intros w r w' H. change (rewindPath clk newId_at sha256 stringify id i w = (Ok r, w')) in H.
  apply rewindPath_ok in H as (p & w1 & m & w2 & v & Hp & Hd & Hm & Hs & Hpar & Hf & Ht & Hl & Hu & Hi & _ & w3 & Hd3 & _ & Hv).
  pose proof (insertMessage_small _ _ _ _ _ _ _ _ Hm) as Hsm. rewrite Hd in Hsm.
  pose proof (insertMessage_ok _ _ _ _ _ _ _ _ Hm) as (s & Hg & Hms & Hmt & _ & _ & _ & Hq & Hnew & Hd2 & _). rewrite Hd in Hg, Hnew, Hd2.
  apply planRewind_ok in Hp as (_ & _ & _ & H0 & _ & H1 & H2 & (x & Hx & Hxq) & _).
  apply last_Some_elem_of, rewind_path_elem in Hx as [Hx Hxs].
  etrans; [exact Hsm|]. etrans; [|by eapply insertEvent_small]. rewrite Hd3.
  eapply rtc_l; [|apply rtc_once, touch_small].
  eapply (add_rewind (with_message_seq (m_seq m) s) r m x); rewrite ?Hs, ?Hpar, ?Hf, ?Ht; try done; try congruence.
  - rewrite Hd2. transitivity (getSession id (upd_session id (with_message_seq (m_seq m)) (db w))); [done|]. rewrite getSession_upd by done. rewrite Hg. cbn.
    apply getSession_elem in Hg as [_ ->]. by rewrite String.eqb_refl.
  - rewrite Hd2. cbn. apply elem_of_app. right. by left.
  - rewrite Hd2. cbn. apply elem_of_app. by left.
  - intros E. apply Hnew, elem_of_map. exists x. by split.
Qed.

Lemma undoRewind_small id rid actor a c : stepwise (undoRewind clk id rid actor a c).
Proof.
  apply stepwise_tx. intros w r w' H. apply SE_bind_ok in H as (u & w1 & Hi & H). apply rewindIdle_ok in Hi as (-> & s & Hs & Ha). open_run.
  match goal with H : context [bfind ?p ?l] |- _ => destruct (bfind p l) as [x|] eqn:Hx end; open_run.
  apply bfind_some in Hx as [Hx Hid]. bool_hyps. destruct (active_rewind x) eqn:Hact; cbn [negb] in *; open_run; [|done].
  match goal with H : tell_audit _ _ _ = _ |- _ => apply tell_audit_ok in H end.
  etrans; [|by eapply insertEvent_small]. cbn [db with_db]. same_db. eapply rtc_l; [|apply rtc_once, touch_small].
  eapply undo_rewind; [done..|]. unfold active_rewind in Hact. by destruct (r_undoneAt x).
Qed.

Lemma rewindIdle_idle id c r : idle (rewindIdle id c r).
Proof.
  apply same_bind; [apply same_gets|]. intros [s|]; [|apply same_throw]. apply same_bind; [apply same_require|]. intros _.
  apply same_bind; [apply same_gets|]. intros h. apply same_bind; [apply same_require|]. intros _. apply same_bind; [apply same_gets|]. intros t. apply same_require.
Qed.

Lemma reserveRewind_small id c : stepwise (reserveRewind id c).
Proof. apply idle_stepwise, same_bind; [apply rewindIdle_idle|]. intros _. apply same_bind; [apply same_gets|]. intros t. by apply same_bind. Qed.

Lemma release_small id t : stepwise (release id t).
Proof. apply idle_stepwise. intros w. unfold release. cbn. by case_bool_decide. Qed.

(** *** Summaries *)

Lemma addSummary_small id f t x n k st : stepwise (addSummary clk newId_at id f t x n k st).
Proof.
  unfold addSummary. apply stepwise_bind; [by apply idle_stepwise, idle_newId|]. intros i. apply stepwise_bind; [by apply idle_stepwise, idle_clock|]. intros now. cbv zeta.
  apply stepwise_bind; [by apply idle_stepwise|]. intros b. apply stepwise_bind; [apply idle_stepwise, same_require|]. intros _.
  apply stepwise_bind; [|intros _; by apply idle_stepwise]. intros w. apply rtc_once, change_summaries.
Qed.

Lemma setSummaryState_small i st : stepwise (setSummaryState i st).
Proof. intros w. apply rtc_once, change_summaries. Qed.

Lemma replaceSummaries_small l id f t x n k st : stepwise (replaceSummaries clk newId_at l id f t x n k st).
Proof.
  apply stepwise_tx. intros w a w' H. apply (stepwise_ok _ _ _ _) in H; [exact H|]. clear H. apply stepwise_bind; [|intros _; apply addSummary_small].
  induction l as [|i l IH]; [by apply idle_stepwise|]. apply stepwise_bind; [apply setSummaryState_small|]. intros _. exact IH.
Qed.

(** ** Every call *)

Inductive Call : Type :=
| CCreate (i : CreateSessionInput) | CContinue (agentId owner title context : string) | CUpdate (id : string) (p : SessionPatch)
| CArchive (id : string) | CRestore (id : string) | CFork (id : string) (title : option string) (beforeSeq : option Z) | CErase (id actor reason : string)
| CBegin (id text : string) (tokens : Z) (harness : bool) (origin : option js) | CComplete (turn text : string) (tokens : Z) (data : js)
| CFail (turn error : string) (data : js) | CRecover | CAppend (turn type : string) (data : js)
| CRewind (id : string) (i : RewindInput) | CUndo (id rid actor : string) (audit : option (js -> bool)) (command : option string)
| CReserve (id : string) (command : option string) | CRelease (id : string) (token : nat)
| CAddSummary (id : string) (f t : Z) (text : string) (tokens tier : Z) (state : SummaryState) | CSetState (sid : string) (state : SummaryState)
| CReplace (l : list string) (id : string) (f t : Z) (text : string) (tokens tier : Z) (state : SummaryState).

Definition do_call (c : Call) (w : World) : World :=
  match c with
  | CCreate i => (createSession clk newId_at i w).2
  | CContinue a o t x => (createContinuation clk newId_at a o t x w).2
  | CUpdate id p => (updateSession clk id p w).2
  | CArchive id => (archiveSession clk id w).2
  | CRestore id => (restoreSession clk id w).2
  | CFork id t b => (forkSession clk newId_at id t b w).2
  | CErase id a r => (eraseSession clk newId_at id a r w).2
  | CBegin id x n h o => (beginTurn clk newId_at id x n h o w).2
  | CComplete t x n d => (completeTurn clk newId_at t x n d w).2
  | CFail t e d => (failTurn clk t e d w).2
  | CRecover => (recoverRunningTurns clk w).2
  | CAppend t k d => (appendEvent clk t k d w).2
  | CRewind id i => (rewindPath clk newId_at sha256 stringify id i w).2
  | CUndo id r a u c => (undoRewind clk id r a u c w).2
  | CReserve id c => (reserveRewind id c w).2
  | CRelease id t => (release id t w).2
  | CAddSummary id f t x n k s => (addSummary clk newId_at id f t x n k s w).2
  | CSetState i s => (setSummaryState i s w).2
  | CReplace l id f t x n k s => (replaceSummaries clk newId_at l id f t x n k s w).2
  end.

(** What a call may erase. *)
Definition erases (c : Call) (id : string) : Prop := match c with CErase id' _ _ => id' = id | _ => False end.

Lemma do_call_small c w : (forall id, erases c id -> may_erase id) -> rtc small (db w) (db (do_call c w)).
Proof.
  intros HE. destruct c; cbn [do_call]; first
    [apply createSession_small|apply createContinuation_small|apply updateSession_small|apply archiveSession_small|apply restoreSession_small|apply forkSession_small
    |apply eraseSession_small; by apply HE|apply beginTurn_small|apply completeTurn_small|apply failTurn_small|apply recover_small|apply appendEvent_small|apply rewindPath_small
    |apply undoRewind_small|apply reserveRewind_small|apply release_small|apply addSummary_small|apply setSummaryState_small|apply replaceSummaries_small].
Qed.

Lemma calls_small l w : (forall c id, c ∈ l -> erases c id -> may_erase id) -> rtc small (db w) (db (fold_left (fun w c => do_call c w) l w)).
Proof.
  revert w. induction l as [|c l IH]; intros w H; [done|]. cbn. etrans; [apply do_call_small|apply IH].
  - intros id. apply H. by left.
  - intros c' id Hc. apply H. by right.
Qed.
End calls.
End steps.
