(* ===== verification/SessionSpec.v ===== *)
(** * What the session store promises

    The invariant of the tables (numbers without gaps, one turn at a time, none in an
    archived session, overlays over what is there), transcripts that only grow at their
    end, and the path a reader sees: exactly what a rewind leaves, back again when it is
    undone, the same in a fork. *)

From S2P Require Import Prelude Session SessionPath SessionInv.

(** ** Well-formed tables *)

Definition rows_ok (d : Db) (s : SessionRecord) : Prop :=
  map m_seq (messages_of (s_id s) d) = seqZ 1 (s_lastMessageSeq s) /\ 0 <= s_lastMessageSeq s /\
  map v_seq (events_of (s_id s) d) = seqZ 1 (s_lastEventSeq s) /\ 0 <= s_lastEventSeq s /\
  map t_turn (turns_of (s_id s) d) = seqZ 1 (s_turnCount s) /\ 0 <= s_turnCount s /\
  (length (running_of (s_id s) d) <= 1)%nat /\ (s_archivedAt s <> None -> running_of (s_id s) d = []).

(** An overlay hides a range of its session that ends before its note. *)
Definition overlay_ok (d : Db) (r : RewindRecord) : Prop :=
  0 <= r_parentSeq r /\ r_hiddenFromSeq r = r_parentSeq r + 1 /\ r_hiddenFromSeq r <= r_hiddenToSeq r /\
  exists l, l ∈ messages d /\ r_lessonMessageId r = Some (m_id l) /\ m_session l = r_session r /\ m_turnId l = None /\ r_hiddenToSeq r < m_seq l.

Record well_formed (d : Db) : Prop := {
  wf_sessions : NoDup (map s_id (sessions d));
  wf_turns : NoDup (map t_id (turns d));
  wf_messages : NoDup (map m_id (messages d));
  wf_rewinds : NoDup (map r_id (rewinds_tbl d));
  wf_rows : forall s, s ∈ sessions d -> rows_ok d s;
  wf_home_t : forall t, t ∈ turns d -> t_session t ∈ map s_id (sessions d);
  wf_home_m : forall m, m ∈ messages d -> m_session m ∈ map s_id (sessions d);
  wf_home_v : forall v, v ∈ events d -> v_session v ∈ map s_id (sessions d);
  wf_overlays : forall r, r ∈ rewinds_tbl d -> overlay_ok d r
}.

(** ** Rows after a step *)

Lemma of_snoc {A} (key : A -> string) id l x : bfilter (fun y => String.eqb (key y) id) (l ++ [x]) = bfilter (fun y => String.eqb (key y) id) l ++ (if String.eqb (key x) id then [x] else []).
Proof. by rewrite bfilter_app. Qed.

Lemma of_other {A} (key : A -> string) id id' l : id <> id' -> bfilter (fun y => String.eqb (key y) id) (other key id' l) = bfilter (fun y => String.eqb (key y) id) l.
Proof.
  intros Hne. unfold other, bfilter. induction l as [|x l IH]; [done|]. cbn. destruct (String.eqb_spec (key x) id') as [E|E]; cbn.
  - rewrite IH. destruct (String.eqb_spec (key x) id); [congruence|done].
  - destruct (String.eqb_spec (key x) id); cbn; by rewrite IH.
Qed.

Lemma of_none {A} (key : A -> string) id (l : list A) : (forall x, x ∈ l -> key x <> id) -> bfilter (fun y => String.eqb (key y) id) l = [].
Proof. intros H. apply bfilter_none. intros x Hx. apply String.eqb_neq. by apply H. Qed.

Lemma nodup_map_bfilter {A B} (f : A -> B) (p : A -> bool) l : NoDup (map f l) -> NoDup (map f (bfilter p l)).
Proof.
  unfold bfilter. induction l as [|x l IH]; [done|]. cbn. intros [Hx Hl]%list.NoDup_cons. destruct (p x); [|by apply IH].
  cbn. apply list.NoDup_cons. split; [|by apply IH]. intros (y & E & Hy)%elem_of_map. apply Hx, elem_of_map. exists y. split; [done|].
  by apply (bfilter_elem p) in Hy as [? _].
Qed.

(** The session of an id is the row the lookup finds. *)
Lemma getSession_row d s : NoDup (map s_id (sessions d)) -> s ∈ sessions d -> getSession (s_id s) d = Some s.
Proof.
  unfold getSession. induction (sessions d) as [|x l IH]; [by intros _ ?%elem_of_nil|]. cbn. intros [Hx Hl]%list.NoDup_cons [->|Hs]%elem_of_cons.
  - by rewrite String.eqb_refl.
  - destruct (String.eqb_spec (s_id x) (s_id s)) as [E|]; [|by apply IH]. destruct Hx. rewrite E. apply elem_of_map. by exists s.
Qed.

Lemma upd_elem id f d s : s ∈ sessions (upd_session id f d) <-> exists s0, s0 ∈ sessions d /\ s = (if String.eqb (s_id s0) id then f s0 else s0).
Proof. cbn. rewrite elem_of_map. naive_solver. Qed.

(** The row of a session, changed or not, under its id. *)
Lemma upd_case (P : SessionRecord -> Prop) id f d s : (forall s0, s0 ∈ sessions d -> s_id s0 = id -> P (f s0)) -> (forall s0, s0 ∈ sessions d -> s_id s0 <> id -> P s0) ->
  s ∈ sessions (upd_session id f d) -> P s.
Proof. intros H1 H2 (s0 & Hs & ->)%upd_elem. destruct (String.eqb_spec (s_id s0) id); [by apply H1|by apply H2]. Qed.

(** ** The invariant, step by step *)

(** What the tables of turns, messages and events say of a session. *)
Lemma rows_same d d' s : messages d' = messages d -> events d' = events d -> turns d' = turns d -> rows_ok d s -> rows_ok d' s.
Proof. unfold rows_ok, messages_of, events_of, running_of, turns_of. by intros -> -> ->. Qed.

Lemma wf_edit id f d : well_formed d -> (forall s, s_id (f s) = s_id s) -> (forall s, s ∈ sessions d -> rows_ok d s -> s_id s = id -> rows_ok d (f s)) ->
  well_formed (upd_session id f d).
Proof.
  intros W Hid Hf. pose proof (map_s_id id f d Hid) as Hm. split; try (apply W); try (rewrite Hm; apply W).
  - intros s. apply upd_case; intros s0 Hs He; [apply Hf; [done|by apply W|done]|by apply W].
Qed.

Lemma seqZ_snoc n : 0 <= n -> seqZ 1 (n + 1) = seqZ 1 n ++ [n + 1].
Proof. intros H. rewrite seqZ_app by lia. rewrite (seqZ_cons (1 + n)) by lia. rewrite (seqZ_nil _ (Z.pred 1)) by lia. do 2 f_equal. lia. Qed.

Lemma turns_upd id f d id' : (forall t, t_session (f t) = t_session t) -> turns_of id' (upd_turn id f d) = map (fun t => if String.eqb (t_id t) id then f t else t) (turns_of id' d).
Proof.
  intros H. unfold turns_of, upd_turn. cbn. unfold bfilter. induction (turns d) as [|t l IH]; [done|]. cbn.
  assert (t_session (if (t_id t =? id)%string then f t else t) = t_session t) as -> by (destruct (t_id t =? id)%string; [apply H|done]).
  destruct (t_session t =? id')%string; cbn; by rewrite IH.
Qed.

(** A turn that ends runs no more, and no other starts to. *)
Lemma running_upd id f d id' : (forall t, t_session (f t) = t_session t) -> (forall t, t_state (f t) <> Running) ->
  exists p, running_of id' (upd_turn id f d) = bfilter p (running_of id' d).
Proof.
  intros H Hn. exists (fun t => negb (String.eqb (t_id t) id)). unfold running_of. rewrite turns_upd by done. unfold bfilter. induction (turns_of id' d) as [|t l IH]; [done|]. cbn.
  destruct (String.eqb_spec (t_id t) id) as [E|E]; cbn.
  - rewrite bool_decide_eq_false_2 by done. destruct (bool_decide (t_state t = Running)); [|done]. cbn. rewrite E, String.eqb_refl. exact IH.
  - destruct (bool_decide (t_state t = Running)); [|exact IH]. cbn. destruct (String.eqb_spec (t_id t) id); [done|]. cbn. by rewrite IH.
Qed.

Lemma bfilter_length {A} (p : A -> bool) l : (length (bfilter p l) <= length l)%nat.
Proof. unfold bfilter. induction l as [|x l IH]; [done|]. cbn. destruct (p x); cbn; lia. Qed.

Lemma same_row d id s s0 : well_formed d -> getSession id d = Some s -> s0 ∈ sessions d -> s_id s0 = id -> s0 = s.
Proof. intros W Hs Hs0 He. pose proof (getSession_row d s0 (wf_sessions _ W) Hs0) as Hrow. rewrite He, Hs in Hrow. by injection Hrow. Qed.

Lemma overlay_mono d d' r : (forall m, m ∈ messages d -> m ∈ messages d') -> overlay_ok d r -> overlay_ok d' r.
Proof. intros H (H1 & H2 & H3 & l & Hl & H4). repeat (split; [done|]). exists l. split; [by apply H|done]. Qed.

Lemma wf_message d s m : well_formed d -> getSession (m_session m) d = Some s -> m_seq m = s_lastMessageSeq s + 1 -> m_id m ∉ map m_id (messages d) ->
  well_formed (set_messages (messages d ++ [m]) (upd_session (m_session m) (with_message_seq (m_seq m)) d)).
Proof.
  intros W Hs Hq Hnew. pose proof (getSession_elem _ _ _ Hs) as [Hin Hid]. pose proof (map_s_id (m_session m) (with_message_seq (m_seq m)) d (fun _ => eq_refl)) as Hm.
  split; try apply W; cbn [sessions messages set_messages]; try (rewrite Hm; apply W).
  - rewrite map_app. by apply nodup_snoc; [apply W|].
  - intros s'. apply upd_case; intros s0 Hs0 He.
    + assert (s0 = s) as -> by (by eapply same_row).
      destruct (wf_rows _ W s Hin) as (H1 & H2 & H3). split; [|split; [cbn; lia|exact H3]].
      unfold messages_of. cbn [messages set_messages with_message_seq s_id s_lastMessageSeq]. rewrite of_snoc, He, String.eqb_refl, map_app, Hq, seqZ_snoc by done. cbn.
      f_equal; [|by rewrite Hq]. rewrite <- He. exact H1.
    + destruct (wf_rows _ W s0 Hs0) as (H1 & H3). split; [|exact H3]. unfold messages_of. cbn [messages set_messages]. rewrite of_snoc.
      destruct (String.eqb_spec (m_session m) (s_id s0)); [congruence|]. by rewrite app_nil_r.
  - intros x [Hx| ->%list_elem_of_singleton]%elem_of_app; rewrite Hm; [by apply W|]. apply elem_of_map. by exists s.
  - intros r Hr. eapply overlay_mono; [|by apply W]. intros x Hx. apply elem_of_app. by left.
Qed.

Lemma wf_event d s v : well_formed d -> getSession (v_session v) d = Some s -> v_seq v = s_lastEventSeq s + 1 ->
  well_formed (set_events (events d ++ [v]) (upd_session (v_session v) (with_event_seq (v_seq v)) d)).
Proof.
  intros W Hs Hq. pose proof (getSession_elem _ _ _ Hs) as [Hin Hid]. pose proof (map_s_id (v_session v) (with_event_seq (v_seq v)) d (fun _ => eq_refl)) as Hm.
  split; try apply W; cbn [sessions events set_events]; try (rewrite Hm; apply W).
  - intros s'. apply upd_case; intros s0 Hs0 He.
    + assert (s0 = s) as -> by (by eapply same_row).
      destruct (wf_rows _ W s Hin) as (H1 & H2 & H3 & H4 & H5). split; [exact H1|]. split; [exact H2|]. split; [|split; [cbn; lia|exact H5]].
      unfold events_of. cbn [events set_events with_event_seq s_id s_lastEventSeq]. rewrite of_snoc, He, String.eqb_refl, map_app, Hq, seqZ_snoc by done. cbn.
      f_equal; [|by rewrite Hq]. rewrite <- He. exact H3.
    + destruct (wf_rows _ W s0 Hs0) as (H1 & H2 & H3 & H5). split; [exact H1|]. split; [exact H2|]. split; [|exact H5]. unfold events_of. cbn [events set_events]. rewrite of_snoc.
      destruct (String.eqb_spec (v_session v) (s_id s0)); [congruence|]. by rewrite app_nil_r.
  - intros x [Hx| ->%list_elem_of_singleton]%elem_of_app; rewrite Hm; [by apply W|]. apply elem_of_map. by exists s.
Qed.

Lemma wf_turn d s t now : well_formed d -> getSession (t_session t) d = Some s -> s_archivedAt s = None -> running_of (t_session t) d = [] ->
  t_id t ∉ map t_id (turns d) -> t_turn t = s_turnCount s + 1 -> t_state t = Running ->
  well_formed (upd_session (t_session t) (with_turn (t_turn t) now) (set_turns (turns d ++ [t]) d)).
Proof.
  intros W Hs Ha Hr Hnew Hq Hst. pose proof (getSession_elem _ _ _ Hs) as [Hin Hid].
  pose proof (map_s_id (t_session t) (with_turn (t_turn t) now) (set_turns (turns d ++ [t]) d) (fun _ => eq_refl)) as Hm.
  split; try apply W; try (rewrite Hm; apply W).
  - cbn [turns upd_session set_sessions set_turns]. rewrite map_app. by apply nodup_snoc; [apply W|].
  - intros s'. apply upd_case; cbn [sessions set_turns]; intros s0 Hs0 He.
    + assert (s0 = s) as -> by (by eapply same_row).
      destruct (wf_rows _ W s Hin) as (H1 & H2 & H3 & H4 & H5 & H6 & H7 & H8). do 4 (split; [done|]).
      assert (Hof : turns_of (s_id s) (set_turns (turns d ++ [t]) d) = turns_of (s_id s) d ++ [t]).
      { unfold turns_of. cbn [turns set_turns]. by rewrite of_snoc, He, String.eqb_refl. }
      change (turns_of ?i (upd_session ?x ?y ?z)) with (turns_of i z).
      change (running_of ?i (upd_session ?x ?y ?z)) with (running_of i z). unfold running_of in *. cbn [with_turn s_id s_turnCount s_archivedAt].
      rewrite Hof, map_app, H5, Hq, seqZ_snoc by done. split; [by cbn; rewrite Hq|]. split; [lia|].
      rewrite bfilter_app. rewrite He, Hr. split; [apply (bfilter_length _ [t])|]. by rewrite Ha.
    + destruct (wf_rows _ W s0 Hs0) as (H1 & H2 & H3 & H4 & H5). do 4 (split; [done|]).
      assert (Hof : turns_of (s_id s0) (set_turns (turns d ++ [t]) d) = turns_of (s_id s0) d).
      { unfold turns_of. cbn [turns set_turns]. rewrite of_snoc. destruct (String.eqb_spec (t_session t) (s_id s0)); [congruence|]. by rewrite app_nil_r. }
      unfold running_of in *. change (turns_of ?i (upd_session ?x ?y ?z)) with (turns_of i z). by rewrite Hof.
  - intros x [Hx| ->%list_elem_of_singleton]%elem_of_app; rewrite Hm; [by apply (wf_home_t _ W)|]. apply elem_of_map. by exists s.
Qed.

Lemma map_turns_id id f l : (forall t, t_id (f t) = t_id t) -> map t_id (map (fun t => if String.eqb (t_id t) id then f t else t) l) = map t_id l.
Proof. intros H. rewrite map_map. apply map_ext. intros t. by destruct (String.eqb _ _). Qed.

Lemma wf_end d tid state now e : well_formed d -> state <> Running -> well_formed (upd_turn tid (ended state now e) d).
Proof.
  intros W Hst. split; try apply W; cbn [turns upd_turn set_turns].
  - rewrite map_turns_id by done. apply W.
  - intros s Hs. destruct (wf_rows _ W s Hs) as (H1 & H2 & H3 & H4 & H5 & H6 & H7 & H8). do 4 (split; [done|]).
    destruct (running_upd tid (ended state now e) d (s_id s) (fun _ => eq_refl) (fun _ => Hst)) as [p Hp]. rewrite Hp.
    split; [|split; [done|split; [pose proof (bfilter_length p (running_of (s_id s) d)); lia|intros Ha; by rewrite H8]]].
    rewrite turns_upd by done. rewrite map_map, <- H5. apply map_ext. intros t. by destruct (String.eqb _ _).
  - intros t (t0 & -> & Ht)%elem_of_map. destruct (String.eqb _ _); by apply (wf_home_t _ W t0).
Qed.

Lemma wf_new_session d s : well_formed d -> s_id s ∉ map s_id (sessions d) -> s_turnCount s = 0 -> s_lastMessageSeq s = 0 -> s_lastEventSeq s = 0 ->
  well_formed (set_sessions (sessions d ++ [s]) d).
Proof.
  intros W Hnew Ht Hm Hv. assert (Hmap : map s_id (sessions d ++ [s]) = map s_id (sessions d) ++ [s_id s]) by apply map_app.
  assert (Hno : forall {A} (key : A -> string) (l : list A), (forall x, x ∈ l -> key x ∈ map s_id (sessions d)) -> bfilter (fun x => String.eqb (key x) (s_id s)) l = []).
  { intros A key l H. apply of_none. intros x Hx E. apply Hnew. rewrite <- E. by apply H. }
  split; try apply W; cbn [sessions set_sessions]; rewrite ?Hmap.
  - by apply nodup_snoc; [apply W|].
  - intros x [Hx| ->%list_elem_of_singleton]%elem_of_app; [by apply (wf_rows _ W)|].
    unfold rows_ok, messages_of, events_of, running_of, turns_of. cbn [messages events turns set_sessions].
    rewrite (Hno _ m_session), (Hno _ v_session), (Hno _ t_session) by apply W. rewrite Ht, Hm, Hv. cbn. repeat (split; [done || lia|]). done.
  - intros t H. apply elem_of_app. left. by apply W.
  - intros m H. apply elem_of_app. left. by apply W.
  - intros v H. apply elem_of_app. left. by apply W.
Qed.

Lemma wf_new_rewind d s r l x : well_formed d -> getSession (r_session r) d = Some s -> r_id r ∉ map r_id (rewinds_tbl d) -> 0 <= r_parentSeq r ->
  r_hiddenFromSeq r = r_parentSeq r + 1 -> r_hiddenFromSeq r <= r_hiddenToSeq r -> l ∈ messages d -> r_lessonMessageId r = Some (m_id l) ->
  m_session l = r_session r -> m_turnId l = None -> m_seq l = s_lastMessageSeq s -> x ∈ messages d -> m_session x = r_session r -> m_seq x = r_hiddenToSeq r -> m_id x <> m_id l ->
  well_formed (set_rewinds (rewinds_tbl d ++ [r]) d).
Proof.
  intros W Hs Hnew Hp Hf Ht Hl Hle Hls Hlt Hlq Hx Hxs Hxq Hxl. split; try apply W; cbn [rewinds_tbl set_rewinds].
  - rewrite map_app. by apply nodup_snoc; [apply W|].
  - intros y [Hy| ->%list_elem_of_singleton]%elem_of_app; [by apply (wf_overlays _ W)|]. repeat (split; [done|]). exists l. repeat (split; [done|]).
    apply getSession_elem in Hs as [Hs Hid]. destruct (wf_rows _ W s Hs) as (H1 & H2 & _).
    assert (Hmem : forall m, m ∈ messages d -> m_session m = r_session r -> m ∈ messages_of (s_id s) d).
    { intros m Hm E. apply bfilter_elem. split; [done|]. rewrite E, <- Hid. apply String.eqb_refl. }
    assert (m_seq x ∈ seqZ 1 (s_lastMessageSeq s)) as Hrange by (rewrite <- H1; apply elem_of_map; exists x; split; [done|by apply Hmem]).
    apply elem_of_seqZ in Hrange. destruct (decide (m_seq x = m_seq l)) as [E|]; [|lia]. destruct Hxl.
    pose proof (NoDup_seqZ 1 (s_lastMessageSeq s)) as Hnd. rewrite <- H1 in Hnd. f_equal.
    apply (NoDup_map_inj m_seq (messages_of (s_id s) d)); by auto.
Qed.

Lemma wf_undo d rid at_ : well_formed d -> well_formed (set_rewinds (map (fun x => if String.eqb (r_id x) rid then undone at_ x else x) (rewinds_tbl d)) d).
Proof.
  intros W. split; try apply W; cbn [rewinds_tbl set_rewinds].
  - rewrite map_map. replace (map _ (rewinds_tbl d)) with (map r_id (rewinds_tbl d)); [apply W|]. apply map_ext. intros r. by destruct (String.eqb _ _).
  - intros y (r & -> & Hr)%elem_of_map. pose proof (wf_overlays _ W r Hr). by destruct (String.eqb _ _).
Qed.

Lemma wf_erase d s x : well_formed d -> 
  well_formed {| sessions := other s_id (s_id s) (sessions d); turns := other t_session (s_id s) (turns d); messages := other m_session (s_id s) (messages d);
                 events := other v_session (s_id s) (events d); rewinds_tbl := other r_session (s_id s) (rewinds_tbl d);
                 summaries_tbl := other y_session (s_id s) (summaries_tbl d); erasures := erasures d ++ [x] |}.
Proof.
  intros W. assert (Hhome : forall {A} (key : A -> string) (l : list A), (forall y, y ∈ l -> key y ∈ map s_id (sessions d)) ->
      forall y, y ∈ other key (s_id s) l -> key y ∈ map s_id (other s_id (s_id s) (sessions d))).
  { intros A key l H y [Hy Hne]%bfilter_elem. apply negb_true_iff, String.eqb_neq in Hne. apply H, elem_of_map in Hy as (s0 & E & Hs0).
    apply elem_of_map. exists s0. split; [done|]. apply bfilter_elem. split; [done|]. apply negb_true_iff, String.eqb_neq. congruence. }
  split; cbn [sessions turns messages events rewinds_tbl]; try (by apply nodup_map_bfilter, W); try (apply Hhome, W).
  - intros s0 [Hs0 Hne]%bfilter_elem. apply negb_true_iff, String.eqb_neq in Hne. pose proof (wf_rows _ W s0 Hs0) as H.
    unfold rows_ok, messages_of, events_of, running_of, turns_of in *. cbn [messages events turns]. by rewrite !of_other.
  - intros r [Hr Hne]%bfilter_elem. apply negb_true_iff, String.eqb_neq in Hne. destruct (wf_overlays _ W r Hr) as (H1 & H2 & H3 & l & Hl & H4 & H5 & H6).
    repeat (split; [done|]). exists l. split; [|done]. apply bfilter_elem. split; [done|]. apply negb_true_iff, String.eqb_neq. congruence.
Qed.

Lemma small_wf May d d' : small May d d' -> well_formed d -> well_formed d'.
Proof.
  intros H W. destruct H.
  - by apply wf_new_session.
  - apply wf_edit; [done|intros s; apply H|]. intros s Hs (H1 & H2 & H3 & H4 & H5 & H6 & H7 & H8) _. destruct (H s) as (E1 & _ & _ & _ & _ & _ & _ & E2 & E3 & E4).
    unfold rows_ok. rewrite E1, E2, E3, E4. repeat (split; [done|]). intros Ha. destruct (H0 s) as [E|E]; [apply H8; congruence|done].
  - apply wf_edit; [done|done|]. intros s Hs (H1 & H2 & H3 & H4 & H5 & H6 & H7 & H8) <-. unfold rows_ok in *. cbn. by repeat (split; [done|]).
  - by eapply wf_turn.
  - by apply wf_end.
  - by eapply wf_message.
  - by eapply wf_event.
  - by apply (wf_new_rewind d s r l x).
  - by apply wf_undo.
  - destruct W. by split.
  - by apply wf_erase.
Qed.

Lemma rtc_wf May d d' : rtc (small May) d d' -> well_formed d -> well_formed d'.
Proof. induction 1 as [|d d1 d2 H1 _ IH]; [done|]. intros W. by eapply IH, small_wf. Qed.

(** ** Transcripts only grow *)

Definition identity (s : SessionRecord) : string * string * string * string * string * option string * option string :=
  (s_id s, s_kind s, s_agentId s, s_owner s, s_scope s, s_chatKey s, s_origin s).

(** What no call but an erasure of the session does away with: messages and events stay as they are where they are, a
    turn changes once, when it ends, an overlay once, when it is undone, and who the session belongs to never. *)
Definition grows (id : string) (d d' : Db) : Prop :=
  messages_of id d `prefix_of` messages_of id d' /\ events_of id d `prefix_of` events_of id d' /\
  Forall2 (fun t t' => t' = t \/ t_state t = Running /\ exists state now e, state <> Running /\ t' = ended state now e t) (turns_of id d) (take (length (turns_of id d)) (turns_of id d')) /\
  Forall2 (fun r r' => r' = r \/ r_undoneAt r = None /\ exists at_, r' = undone at_ r) (rewinds id d) (take (length (rewinds id d)) (rewinds id d')) /\
  (forall s, getSession id d = Some s -> exists s', getSession id d' = Some s' /\ identity s' = identity s).

Section forall2.
Context {A : Type} (R : A -> A -> Prop) (R_refl : forall x, R x x) (R_trans : forall x y z, R x y -> R y z -> R x z).

Lemma forall2_refl l : Forall2 R l l.
Proof. induction l; by constructor. Qed.

Lemma forall2_grown l l1 l2 : Forall2 R l (take (length l) l1) -> Forall2 R l1 (take (length l1) l2) -> Forall2 R l (take (length l) l2).
Proof.
  intros H1 H2. pose proof (list.Forall2_length _ _ _ H1) as Hl. rewrite length_take in Hl.
  apply (list.Forall2_take _ _ _ (length l)) in H2. rewrite take_take, Nat.min_l in H2 by lia.
  clear Hl. revert H1 H2. generalize (take (length l) l1), (take (length l) l2). intros k k' H1. revert k'. induction H1 as [|x y l0 k H H1 IH]; intros k' H2.
  - inversion H2. constructor.
  - inversion H2 as [|y' z k0 k1 H3 H4]; subst. constructor; [by eapply R_trans|by apply IH].
Qed.

Lemma forall2_app_r l k : Forall2 R l (take (length l) (l ++ k)).
Proof. rewrite take_app_length. apply forall2_refl. Qed.

Lemma forall2_map l (f : A -> A) : (forall x, x ∈ l -> R x (f x)) -> Forall2 R l (take (length l) (map f l)).
Proof.
  intros H. rewrite take_ge by (rewrite length_map; lia). induction l as [|x l IH]; constructor; [apply H; by left|]. apply IH. intros y Hy. apply H. by right.
Qed.
End forall2.

Lemma grows_refl id d : grows id d d.
Proof.
  split; [done|]. split; [done|]. rewrite !take_ge by lia. split; [apply forall2_refl; by left|]. split; [apply forall2_refl; by left|]. intros s Hs. by exists s.
Qed.

Lemma grows_trans id d1 d2 d3 : grows id d1 d2 -> grows id d2 d3 -> grows id d1 d3.
Proof.
  intros (M1 & V1 & T1 & R1 & S1) (M2 & V2 & T2 & R2 & S2). split; [by etrans|]. split; [by etrans|]. split; [|split].
  - eapply forall2_grown; [|exact T1|exact T2]. intros x y z [->|(Hx & st & now & e & Hs & ->)]; [done|]. intros [->|(Hy & _)]; [right; by eauto 10|]. by destruct Hs.
  - eapply forall2_grown; [|exact R1|exact R2]. intros x y z [->|(Hx & at_ & ->)]; [done|]. intros [->|(Hy & _)]; [right; by eauto|]. done.
  - intros s Hs. destruct (S1 s Hs) as (s1 & H1 & E1). destruct (S2 s1 H1) as (s2 & H2 & E2). exists s2. split; [done|congruence].
Qed.

(** A step that leaves most of a session's rows alone. *)
Lemma grows_rows id d d' : messages_of id d `prefix_of` messages_of id d' -> events_of id d `prefix_of` events_of id d' ->
  (exists k, turns_of id d' = turns_of id d ++ k) -> (exists k, rewinds id d' = rewinds id d ++ k) ->
  (forall s, getSession id d = Some s -> exists s', getSession id d' = Some s' /\ identity s' = identity s) -> grows id d d'.
Proof.
  intros H1 H2 [k Hk] [k' Hk'] H3. unfold grows. rewrite Hk, Hk'. split; [done|]. split; [done|]. split; [apply forall2_app_r; by left|]. split; [apply forall2_app_r; by left|done].
Qed.

Lemma unchanged {A} (l l' : list A) : l' = l -> exists k, l' = l ++ k.
Proof. intros ->. exists []. by rewrite app_nil_r. Qed.

Lemma session_upd id id' f d s : (forall s, s_id (f s) = s_id s /\ identity (f s) = identity s) -> getSession id' d = Some s ->
  exists s', getSession id' (upd_session id f d) = Some s' /\ identity s' = identity s.
Proof.
  intros H Hs. rewrite getSession_upd by (intros x; apply H). rewrite Hs. cbn. eexists. split; [done|]. destruct (String.eqb _ _); [apply H|done].
Qed.

Lemma snoc_grows {A} (key : A -> string) id l x : exists k, bfilter (fun y => String.eqb (key y) id) (l ++ [x]) = bfilter (fun y => String.eqb (key y) id) l ++ k.
Proof. eexists. apply of_snoc. Qed.

Lemma bfilter_fixed {A} (p : A -> bool) (f : A -> A) l : (forall x, p (f x) = p x) -> bfilter p (map f l) = map f (bfilter p l).
Proof. intros H. rewrite bfilter_map. f_equal. apply bfilter_ext. intros x _. apply H. Qed.

Lemma small_grows May id d d' : small May d d' -> well_formed d -> ~ May id -> grows id d d'.
Proof.
  intros H W Hno. destruct H.
  - apply grows_rows; [done|done|by apply unchanged|by apply unchanged|]. intros s0 Hs. exists s0. split; [|done].
    unfold getSession in *. cbn [sessions set_sessions]. by rewrite bfind_app, Hs.
  - apply grows_rows; [done|done|by apply unchanged|by apply unchanged|]. intros s0 Hs. eapply session_upd; [|exact Hs].
    intros x. destruct (H x) as (E1 & E2 & E3 & E4 & E5 & E6 & E7 & _). unfold identity. by rewrite E1, E2, E3, E4, E5, E6, E7.
  - apply grows_rows; [done|done|by apply unchanged|by apply unchanged|]. intros s0 Hs. by eapply session_upd.
  - apply grows_rows; [done|done|apply snoc_grows|by apply unchanged|]. intros s0 Hs. by eapply session_upd.
  - split; [done|]. split; [done|]. split; [|split; [rewrite take_ge by done; apply forall2_refl; by left|intros s0 Hs; by exists s0]].
    rewrite turns_upd by done. apply forall2_map. intros x Hx. destruct (String.eqb_spec (t_id x) tid) as [E|]; [right|by left].
    apply bfilter_elem in Hx as [Hx _]. apply getTurn_elem in H as [Ht Hi].
    assert (x = t) as -> by (apply (NoDup_map_inj t_id (turns d)); [apply W|done|done|congruence]). split; [done|]. by exists state, now, e.
  - apply grows_rows; [|done|by apply unchanged|by apply unchanged|].
    + destruct (snoc_grows m_session id (messages d) m) as [k Hk]. exists k. exact Hk.
    + intros s0 Hs. by eapply (session_upd (m_session m) id (with_message_seq (m_seq m)) d).
  - apply grows_rows; [done| |by apply unchanged|by apply unchanged|].
    + destruct (snoc_grows v_session id (events d) v) as [k Hk]. exists k. exact Hk.
    + intros s0 Hs. by eapply (session_upd (v_session v) id (with_event_seq (v_seq v)) d).
  - apply grows_rows; [done|done|by apply unchanged|apply snoc_grows|]. intros s0 Hs. by exists s0.
  - split; [done|]. split; [done|]. split; [rewrite take_ge by done; apply forall2_refl; by left|]. split; [|intros s0 Hs; by exists s0].
    unfold rewinds. cbn [rewinds_tbl set_rewinds]. rewrite bfilter_fixed by (intros x; by destruct (String.eqb (r_id x) rid)).
    apply forall2_map. intros x [Hx _]%bfilter_elem. destruct (String.eqb_spec (r_id x) rid) as [E|]; [right|by left].
    assert (x = r) as -> by (apply (NoDup_map_inj r_id (rewinds_tbl d)); [apply W|done|done|congruence]). split; [done|]. by exists at_.
  - apply grows_rows; [done|done|by apply unchanged|by apply unchanged|]. intros s0 Hs. by exists s0.
  - assert (id <> s_id s) as Hne by (intros ->; done).
    apply grows_rows; unfold messages_of, events_of, turns_of, rewinds; cbn [messages events turns rewinds_tbl]; rewrite ?of_other by done; try done; try by apply unchanged.
    intros s0 Hs. exists s0. split; [|done]. unfold getSession in *. cbn [sessions]. unfold other. clear H0.
    induction (sessions d) as [|y l IH]; [done|]. cbn in Hs |- *. destruct (String.eqb_spec (s_id y) (s_id s)) as [E|E]; cbn.
    + rewrite (proj2 (String.eqb_neq _ _)) in Hs by congruence. by apply IH.
    + destruct (String.eqb (s_id y) id); [done|]. by apply IH.
Qed.

Lemma rtc_grows May id d d' : rtc (small May) d d' -> well_formed d -> ~ May id -> grows id d d'.
Proof.
  induction 1 as [|d d1 d2 H1 _ IH]; [intros _ _; apply grows_refl|]. intros W Hno. eapply grows_trans; [by eapply small_grows|].
  apply IH; [by eapply small_wf|done].
Qed.
