(* ===== verification/SessionView.v ===== *)
(** * The path a reader sees

    A reader of a session sees the messages of its transcript that no overlay hides. What
    a rewind leaves is the path up to its parent and the note; undoing it gives the path
    back as it was; a fork starts with a copy of it; an erasure leaves nothing. *)

From S2P Require Import Prelude Session SessionPath SessionInv SessionSpec.
From Stdlib Require Import Sorted.

(** ** The path a reader sees *)

Lemma sort_by_id {A} (le : A -> A -> bool) l : StronglySorted (fun a b => le a b = true) l -> sort_by le l = l.
Proof.
  induction 1 as [|x l Hl IH Hx]; [done|]. unfold sort_by in *. cbn. rewrite IH. destruct l as [|y l]; [done|]. cbn.
  apply list.Forall_cons in Hx as [Hx _]. by rewrite Hx.
Qed.

Lemma sorted_filter {A} (R : A -> A -> Prop) (p : A -> bool) l : StronglySorted R l -> StronglySorted R (bfilter p l).
Proof.
  unfold bfilter. induction 1 as [|x l Hl IH Hx]; [constructor|]. cbn. destruct (p x); [|done]. constructor; [done|].
  apply list.Forall_forall. intros y [Hy _]%bfilter_elem. by apply (proj1 (list.Forall_forall _ _) Hx).
Qed.

Lemma seqZ_sorted m n : StronglySorted Z.lt (seqZ m n).
Proof.
  destruct (Z.le_gt_cases n 0) as [H|H]; [rewrite seqZ_nil by lia; constructor|]. replace n with (Z.of_nat (Z.to_nat n)) by lia. clear H. revert m.
  induction (Z.to_nat n) as [|k IH]; intros m; [constructor|]. rewrite seqZ_cons by lia. replace (Z.pred (Z.of_nat (S k))) with (Z.of_nat k) by lia.
  constructor; [apply IH|]. apply list.Forall_forall. intros x Hx%elem_of_seqZ. lia.
Qed.

Lemma sorted_map {A B} (R : B -> B -> Prop) (f : A -> B) l : StronglySorted R (map f l) -> StronglySorted (fun a b => R (f a) (f b)) l.
Proof.
  induction l as [|x l IH]; [constructor|]. cbn. inversion 1 as [|y k Hk Hx]; subst. constructor; [by apply IH|].
  apply list.Forall_forall. intros y Hy. apply (proj1 (list.Forall_forall _ _) Hx). apply elem_of_map. by exists y.
Qed.

Lemma sorted_weaken {A} (R R' : A -> A -> Prop) l : (forall a b, R a b -> R' a b) -> StronglySorted R l -> StronglySorted R' l.
Proof. intros H. induction 1 as [|x l Hl IH Hx]; constructor; [done|]. eapply list.Forall_impl; [exact Hx|]. by apply H. Qed.

Definition before (a b : MessageRecord) : Prop := m_seq a < m_seq b.

Lemma transcript_sorted id d : well_formed d -> StronglySorted before (messages_of id d).
Proof.
  intros W. destruct (getSession id d) as [s|] eqn:Hs.
  - apply getSession_elem in Hs as [Hs <-]. destruct (wf_rows _ W s Hs) as (H & _). apply (sorted_map Z.lt m_seq). rewrite H. apply seqZ_sorted.
  - replace (messages_of id d) with (@nil MessageRecord); [constructor|]. symmetry. apply of_none. intros m Hm E.
    apply (wf_home_m _ W) in Hm as (s & Es & Hin)%elem_of_map. apply (bfind_none _ _ s) in Hs; [|done]. cbn in Hs. rewrite <- Es, E, String.eqb_refl in Hs. done.
Qed.

Lemma by_seq_filter id d p : well_formed d -> by_seq (bfilter p (messages_of id d)) = bfilter p (messages_of id d).
Proof.
  intros W. unfold by_seq. apply sort_by_id. eapply sorted_weaken; [|apply sorted_filter, transcript_sorted, W].
  intros a b Hab. apply Z.leb_le. unfold before in Hab. lia.
Qed.

Lemma seq_positive id d m : well_formed d -> m ∈ messages_of id d -> 1 <= m_seq m.
Proof.
  intros W Hm. pose proof Hm as [Hin Hid]%bfilter_elem. apply String.eqb_eq in Hid.
  apply (wf_home_m _ W) in Hin as (s & Es & Hs)%elem_of_map. destruct (wf_rows _ W s Hs) as (H & _). rewrite <- Es, Hid in H.
  assert (m_seq m ∈ seqZ 1 (s_lastMessageSeq s)) as Hq by (rewrite <- H; apply elem_of_map; by exists m). apply elem_of_seqZ in Hq. lia.
Qed.

(** The numbers of a session's messages end at its counter. *)
Lemma message_bound id d m s : well_formed d -> m ∈ messages d -> m_session m = id -> getSession id d = Some s -> m_seq m <= s_lastMessageSeq s.
Proof.
  intros W Hm Hid Hs. apply getSession_elem in Hs as [Hs Hsid]. destruct (wf_rows _ W s Hs) as (H & _).
  assert (m_seq m ∈ seqZ 1 (s_lastMessageSeq s)) as Hq.
  { rewrite <- H. apply elem_of_map. exists m. split; [done|]. apply bfilter_elem. split; [done|]. apply String.eqb_eq. congruence. }
  apply elem_of_seqZ in Hq. lia.
Qed.

(** Whether a message is on the path: not part of a harness command, not the note of an overlay that was undone, not in a hidden range. *)
Definition visible (commands : list string) (rs : list RewindRecord) (m : MessageRecord) : bool :=
  match m_turnId m with None => true | Some t => negb (includes commands t) end
  && (negb (includes (omap r_lessonMessageId (bfilter (fun r => negb (active_rewind r)) rs)) (m_id m)) && negb (existsb (fun r => hidden_by r (m_seq m)) (bfilter active_rewind rs))).

(** On well-formed tables the path is the transcript without the messages that are not on it. *)
Lemma context_visible id d : well_formed d -> contextMessages id 0 d = bfilter (visible (harnessCommandTurns id d) (rewinds id d)) (messages_of id d).
Proof.
  intros W. unfold contextMessages, activePath. cbv zeta. rewrite by_seq_filter by done. rewrite !bfilter_bfilter. apply bfilter_ext. intros m Hm.
  rewrite (proj2 (Z.ltb_lt _ _)) by (apply (seq_positive id d m W) in Hm; lia). done.
Qed.

Lemma harness_snoc id d d' v : events d' = events d ++ [v] -> includes ["turn.started"; "turn.completed"; "turn.failed"] (v_type v) = false ->
  harnessCommandTurns id d' = harnessCommandTurns id d.
Proof.
  intros E H. unfold harnessCommandTurns. rewrite E, bfilter_app, omap_app. unfold bfilter at 2. cbn [List.filter].
  rewrite H. rewrite andb_false_r. cbn. by rewrite app_nil_r.
Qed.

(** One overlay more, active or undone. *)
Lemma visible_active cmds rs r m : r_undoneAt r = None -> visible cmds (rs ++ [r]) m = visible cmds rs m && negb (hidden_by r (m_seq m)).
Proof.
  intros H. unfold visible. rewrite !bfilter_app. assert (active_rewind r = true) as Ha by (unfold active_rewind; by rewrite H).
  unfold bfilter at 2 4. cbn [List.filter]. rewrite Ha. cbn [negb]. rewrite app_nil_r, existsb_app. cbn [existsb].
  rewrite orb_false_r, negb_orb. by rewrite !andb_assoc.
Qed.

Lemma visible_undone cmds rs r l m : r_undoneAt r <> None -> r_lessonMessageId r = Some l -> visible cmds (rs ++ [r]) m = visible cmds rs m && negb (String.eqb (m_id m) l).
Proof.
  intros H Hl. unfold visible. rewrite !bfilter_app. assert (active_rewind r = false) as Ha by (unfold active_rewind; by destruct (r_undoneAt r)).
  unfold bfilter at 2 4. cbn [List.filter]. rewrite Ha. cbn [negb]. rewrite app_nil_r, omap_app. cbn. rewrite Hl.
  unfold includes. rewrite existsb_app. cbn [existsb]. rewrite orb_false_r, negb_orb. destruct (match m_turnId m with None => _ | Some _ => _ end); [|done].
  cbn. rewrite <- !andb_assoc. f_equal. apply andb_comm.
Qed.

(** A call that returns keeps the tables well formed. *)
Lemma stepwise_wf {A} (m : SE World SessionError A) w a w' : stepwise (fun _ => True) m -> m w = (Ok a, w') -> well_formed (db w) -> well_formed (db w').
Proof. intros H E. by eapply rtc_wf, stepwise_ok. Qed.

Section store.
Context (clk : nat -> Z) (newId_at : string -> nat -> string) (sha256 : string -> string) (stringify : js -> string).

Notation rewindPath := (rewindPath clk newId_at sha256 stringify).
Notation undoRewind := (undoRewind clk).

(** The tables after a rewind. *)
Lemma rewindPath_tables id i w r w' : rewindPath id i w = (Ok r, w') ->
  exists p m v, planRewind id (ri_toSeq i) (ri_commandTurnId i) (ri_reservation i) w = (Ok p, w) /\
    messages (db w') = messages (db w) ++ [m] /\ rewinds_tbl (db w') = rewinds_tbl (db w) ++ [r] /\ events (db w') = events (db w) ++ [v] /\
    v_type v = "session.rewind" /\ m_session m = id /\ m_turnId m = None /\ m_role m = RSystem /\ m_text m = ri_lesson i /\ m_id m ∉ map m_id (messages (db w)) /\
    (exists s, getSession id (db w) = Some s /\ m_seq m = s_lastMessageSeq s + 1) /\
    r_session r = id /\ r_parentSeq r = pl_parentSeq p /\ r_hiddenFromSeq r = pl_from p /\ r_hiddenToSeq r = pl_to p /\ r_lessonMessageId r = Some (m_id m) /\
    r_undoneAt r = None /\ r_id r ∉ map r_id (rewinds_tbl (db w)).
Proof.
  intros H. apply rewindPath_ok in H as (p & w1 & m & w2 & v & Hp & Hd & Hm & Hs & Hpar & Hf & Ht & Hl & Hu & Hi & _ & w3 & Hd3 & Hvt & Hv).
  apply insertMessage_ok in Hm as (s & Hg & Hms & Hmt & Hmr & Hmx & _ & Hq & Hnew & Hd2 & _). rewrite Hd in Hg, Hnew, Hd2.
  apply insertEvent_ok in Hv as (s' & _ & _ & _ & _ & _ & _ & Hd' & _). rewrite Hd3 in Hd'. rewrite Hd2 in Hi, Hd'. cbn in Hi.
  exists p, m, v. rewrite Hd'. cbn. rewrite Hd2 in *. repeat (split; [done|]). split; [by exists s|]. by repeat (split; [done|]).
Qed.

(** The path a rewind acts on has no message after its last one. *)
Lemma path_end id c d m newest : well_formed d -> list.last (rewind_path id c d) = Some newest -> m ∈ rewind_path id c d -> m_seq m <= m_seq newest.
Proof.
  intros W Hl Hm. assert (StronglySorted before (rewind_path id c d)) as Hs.
  { unfold rewind_path. rewrite context_visible by done. by apply sorted_filter, sorted_filter, transcript_sorted. }
  destruct (rewind_path id c d) as [|x l] using rev_ind; [done|]. clear IHl. rewrite last_snoc in Hl. injection Hl as ->.
  apply elem_of_app in Hm as [Hm| ->%list_elem_of_singleton]; [|lia]. induction l as [|y l IH]; [by apply elem_of_nil in Hm|].
  cbn in Hs. inversion Hs as [|? ? Hs' Hy]; subst. apply elem_of_cons in Hm as [->|Hm]; [|by apply IH].
  assert (before y newest) as H by (apply (proj1 (list.Forall_forall _ _) Hy); apply elem_of_app; right; by left). unfold before in H. lia.
Qed.

(** A note is on the path: nothing hides what comes after everything. *)
Lemma note_visible id d m : well_formed d -> m_session m = id -> m_turnId m = None -> m_id m ∉ map m_id (messages d) ->
  (exists s, getSession id d = Some s /\ m_seq m = s_lastMessageSeq s + 1) -> visible (harnessCommandTurns id d) (rewinds id d) m = true.
Proof.
  intros W Hs Ht Hnew (s & Hg & Hq). unfold visible. rewrite Ht. cbn [andb]. apply andb_true_intro. split; apply negb_true_iff.
  - destruct (includes _ _) eqn:E; [|done]. apply includes_spec, list_elem_of_omap in E as (r & Hr & Hl). apply bfilter_elem in Hr as [Hr _].
    apply bfilter_elem in Hr as [Hr _]. destruct (wf_overlays _ W r Hr) as (_ & _ & _ & l & Hin & E & _). destruct Hnew. apply elem_of_map. exists l. split; [congruence|done].
  - apply existsb_none. intros r Hr. apply bfilter_elem in Hr as [Hr _]. apply bfilter_elem in Hr as [Hr Hid]. apply String.eqb_eq in Hid.
    destruct (wf_overlays _ W r Hr) as (_ & _ & _ & l & Hin & _ & Hls & _ & Hlt).
    pose proof (message_bound id d l s W Hin ltac:(congruence) Hg). unfold hidden_by. lia.
Qed.

(** (C29) A rewind hides exactly what it says. The transcript keeps every message and gets the note at its end; the path
    afterwards is the path before up to the parent, the messages of the command itself where the rewind is one, and the
    note. *)
Theorem rewind_exact id i w r w' : well_formed (db w) -> rewindPath id i w = (Ok r, w') ->
  let seen := contextMessages id 0 (db w) in
  exists note, m_role note = RSystem /\ m_text note = ri_lesson i /\ r_lessonMessageId r = Some (m_id note) /\
    messages (db w') = messages (db w) ++ [note] /\
    contextMessages id 0 (db w') = bfilter (fun m => (m_seq m <=? r_parentSeq r) || (r_hiddenToSeq r <? m_seq m)) seen ++ [note] /\
    (forall m, m ∈ seen -> r_hiddenToSeq r < m_seq m -> m_turnId m <> None /\ m_turnId m = ri_commandTurnId i).
Proof.
  intros W H seen. pose proof (stepwise_wf _ _ _ _ (rewindPath_small _ clk newId_at sha256 stringify id i) H W) as W'.
  apply rewindPath_tables in H as (p & note & v & Hp & Hm & Hr & Hv & Hvt & Hns & Hnt & Hrole & Htext & Hnew & Hq & Hrs & Hpar & Hf & Ht & Hl & Hu & _).
  apply planRewind_ok in Hp as (_ & _ & _ & H0 & _ & H1 & H2 & (newest & Hlast & Hto) & _).
  exists note. repeat (split; [done|]). split.
  - rewrite context_visible by done. unfold messages_of. rewrite Hm, bfilter_app. unfold bfilter at 3. cbn [List.filter]. rewrite Hns, String.eqb_refl.
    assert (Hrew : rewinds id (db w') = rewinds id (db w) ++ [r]) by (unfold rewinds; rewrite Hr, of_snoc, Hrs, String.eqb_refl; done).
    rewrite (harness_snoc id (db w) (db w') v Hv) by (by rewrite Hvt). rewrite Hrew, bfilter_app. f_equal.
    + unfold seen. rewrite context_visible by done. rewrite (bfilter_bfilter _ (visible _ _)). apply bfilter_ext. intros m _. rewrite visible_active by done. f_equal.
      unfold hidden_by. rewrite Hf, Ht, Hpar, H1. lia.
    + unfold bfilter. cbn [List.filter]. rewrite visible_active, note_visible by done. unfold hidden_by. rewrite Hf, Ht.
      apply last_Some_elem_of, rewind_path_elem in Hlast as [Hnm Hns']. destruct Hq as (s & Hg & Hq).
      pose proof (message_bound id (db w) newest s W Hnm Hns' Hg). rewrite (proj2 (Z.leb_gt (m_seq note) _)) by lia. by rewrite andb_false_r.
  - intros m Hin Hgt. assert (m ∉ rewind_path id (ri_commandTurnId i) (db w)) as Hp.
    { intros Hp. pose proof (path_end id (ri_commandTurnId i) (db w) m newest W Hlast Hp). lia. }
    destruct (ri_commandTurnId i) as [c|] eqn:Hc; [|destruct Hp; by apply bfilter_elem].
    destruct (decide (m_turnId m = Some c)) as [E|E]; [by rewrite E|]. destruct Hp. apply bfilter_elem. split; [done|]. by rewrite bool_decide_eq_false_2.
Qed.

(** The overlay of a rewind, undone, in the tables. *)
Lemma undoRewind_tables id rid actor audit c w r' w' r : undoRewind id rid actor audit c w = (Ok r', w') -> r ∈ rewinds_tbl (db w) -> NoDup (map r_id (rewinds_tbl (db w))) ->
  r_id r = rid -> r_undoneAt r = None ->
  exists at_ v, r' = undone at_ r /\ messages (db w') = messages (db w) /\ turns (db w') = turns (db w) /\ events (db w') = events (db w) ++ [v] /\ v_type v = "session.rewind.undone" /\
    rewinds_tbl (db w') = map (fun x => if String.eqb (r_id x) rid then undone at_ x else x) (rewinds_tbl (db w)).
Proof.
  intros H Hr Hnd Hid Hu. apply tx_ok in H. apply SE_bind_ok in H as (u & w1 & Hi & H). apply rewindIdle_ok in Hi as (-> & _). open_run.
  match goal with H : context [bfind ?p ?l] |- _ => destruct (bfind p l) as [x|] eqn:Hx end; open_run.
  apply bfind_some in Hx as [Hx Hxid]. bool_hyps. assert (x = r) as -> by (eapply (NoDup_map_inj r_id); [exact Hnd|done|done|congruence]).
  unfold active_rewind in *. rewrite Hu in *. cbn [negb] in *. open_run.
  match goal with H : tell_audit _ _ _ = _ |- _ => apply tell_audit_ok in H end.
  match goal with H : insertEvent _ _ _ _ _ _ = _ |- _ => apply insertEvent_ok in H as (s & _ & _ & _ & Ht & _ & _ & Hd & _) end.
  cbn [db with_db] in Hd. rewrite Hd. same_db. eexists _, _. repeat (split; [done|]). done.
Qed.

(** Undoing a rewind brings back the path it hid: as it was before the rewind, without the note, which the
    transcript keeps. *)
Theorem undo_restores id i w r w1 actor audit c r' w2 : well_formed (db w) -> rewindPath id i w = (Ok r, w1) ->
  undoRewind id (r_id r) actor audit c w1 = (Ok r', w2) ->
  contextMessages id 0 (db w2) = contextMessages id 0 (db w) /\ messages (db w2) = messages (db w1) /\ r_undoneAt r' <> None.
Proof.
  intros W H1 H2. pose proof (stepwise_wf _ _ _ _ (rewindPath_small _ clk newId_at sha256 stringify id i) H1 W) as W1.
  pose proof (stepwise_wf _ _ _ _ (undoRewind_small _ clk id (r_id r) actor audit c) H2 W1) as W2.
  apply rewindPath_tables in H1 as (p & note & v & _ & Hm & Hr & Hv & Hvt & Hns & Hnt & _ & _ & Hnew & _ & Hrs & _ & _ & _ & Hl & Hu & Hrid).
  apply (undoRewind_tables _ _ _ _ _ _ _ _ r) in H2 as (at_ & v2 & -> & Hm2 & _ & Hv2 & Hvt2 & Hr2); [|by rewrite Hr; apply elem_of_app; right; left|apply W1|done..].
  split; [|by split]. rewrite !context_visible by done. unfold messages_of. rewrite Hm2, Hm, bfilter_app. unfold bfilter at 3. cbn [List.filter]. rewrite Hns, String.eqb_refl.
  rewrite (harness_snoc id (db w1) (db w2) v2 Hv2), (harness_snoc id (db w) (db w1) v Hv) by (by rewrite ?Hvt2, ?Hvt).
  assert (rewinds id (db w2) = rewinds id (db w) ++ [undone at_ r]) as ->.
  { unfold rewinds. rewrite Hr2, Hr, map_app. cbn [map]. rewrite String.eqb_refl, of_snoc. cbn [undone r_session]. rewrite Hrs, String.eqb_refl. f_equal. f_equal.
    transitivity (map (fun x => x) (rewinds_tbl (db w))); [|apply map_id]. apply map_ext_in. intros x Hx%list_elem_of_In. destruct (String.eqb_spec (r_id x) (r_id r)) as [E|]; [|done].
    destruct Hrid. rewrite <- E. apply elem_of_map. by exists x. }
  rewrite bfilter_app. rewrite (bfilter_none _ [note]).
  - rewrite app_nil_r. apply bfilter_ext. intros m [Hin _]%bfilter_elem. rewrite (visible_undone _ _ _ (m_id note)) by done.
    destruct (String.eqb_spec (m_id m) (m_id note)) as [E|]; [|apply andb_true_r]. destruct Hnew. rewrite <- E. apply elem_of_map. by exists m.
  - intros m ->%list_elem_of_singleton. rewrite (visible_undone _ _ _ (m_id note)) by done. rewrite String.eqb_refl. apply andb_false_r.
Qed.
End store.
