(* ===== verification/SessionLife.v ===== *)
(** * The life of a session

    A turn starts exactly when nothing forbids it; after a restart no turn runs; a fork
    starts with the path of its source and leaves the source alone; an erasure leaves
    nothing of a session but the count of its messages. *)

From S2P Require Import Prelude Session SessionPath SessionInv SessionSpec SessionView.

Section life.
Context (clk : nat -> Z) (newId_at : string -> nat -> string).

Notation insertMessage := (insertMessage clk newId_at).
Notation insertEvent := (insertEvent clk).
Notation forkSession := (forkSession clk newId_at).
Notation eraseSession := (eraseSession clk newId_at).
Notation failTurn := (failTurn clk).
Notation recoverRunningTurns := (recoverRunningTurns clk).

(** ** Forks *)

(** What a fork copies of a message. *)
Definition content (m : MessageRecord) : MessageRole * string * Z := (m_role m, m_text m, m_tokens m).
Definition copied (lessons : list string) (m : MessageRecord) : MessageRole * string * Z := (if includes lessons (m_id m) then RUser else m_role m, m_text m, m_tokens m).

Lemma copy_ok into lessons l w u w' : copy_messages clk newId_at into lessons l w = (Ok u, w') ->
  exists ms, messages (db w') = messages (db w) ++ ms /\ map content ms = map (copied lessons) l /\
    (forall m, m ∈ ms -> m_session m = into /\ m_turnId m = None) /\ events (db w') = events (db w) /\ rewinds_tbl (db w') = rewinds_tbl (db w).
Proof.
  revert w. induction l as [|x l IH]; intros w H; cbn [copy_messages] in H; open_run.
  - exists []. split; [by rewrite app_nil_r|]. split; [done|]. split; [by intros m ?%elem_of_nil|done].
  - match goal with H : insertMessage _ _ _ _ _ _ = (Ok ?m, _) |- _ => apply insertMessage_ok in H as (s & _ & Hs & Ht & Hr & Hx & Hn & _ & _ & Hd & _); rename m into m0 end.
    match goal with H : copy_messages _ _ _ _ _ _ = _ |- _ => apply IH in H as (ms & Hm & Hc & Hin & Hv & Hw) end.
    rewrite Hd in Hm, Hv, Hw. exists (m0 :: ms). cbn [messages set_messages] in Hm. split; [by rewrite Hm, <- app_assoc|]. split; [|split; [|done]].
    + cbn. rewrite Hc. f_equal. unfold content, copied. by rewrite Hr, Hx, Hn.
    + intros m [->|Hm']%elem_of_cons; [done|by apply Hin].
Qed.

Lemma wf_no_rows d id : well_formed d -> id ∉ map s_id (sessions d) -> messages_of id d = [] /\ events_of id d = [] /\ rewinds id d = [].
Proof.
  intros W Hid. split; [|split]; apply of_none.
  - intros m Hm E. apply Hid. rewrite <- E. by apply (wf_home_m _ W).
  - intros v Hv E. apply Hid. rewrite <- E. by apply (wf_home_v _ W).
  - intros r Hr E. apply Hid. destruct (wf_overlays _ W r Hr) as (_ & _ & _ & l & Hl & _ & Hs & _). rewrite <- E, <- Hs. by apply (wf_home_m _ W).
Qed.

(** A session that nothing was said to but by copies shows all of it. *)
Lemma context_plain id d : well_formed d -> events_of id d = [] -> rewinds id d = [] -> (forall m, m ∈ messages_of id d -> m_turnId m = None) ->
  contextMessages id 0 d = messages_of id d.
Proof.
  intros W Hv Hr Ht. rewrite context_visible by done. apply bfilter_all. intros m Hm. unfold visible. by rewrite Hr, (Ht m Hm).
Qed.

(** The path is a matter of the session's messages, the events and the overlays. *)
Lemma context_same id d d' : messages_of id d' = messages_of id d -> events d' = events d -> rewinds_tbl d' = rewinds_tbl d ->
  contextMessages id 0 d' = contextMessages id 0 d.
Proof. unfold contextMessages, harnessCommandTurns, rewinds. by intros -> -> ->. Qed.

(** A fork starts with the path of its source up to the number asked for, a note of a rewind as if the reader had
    said it; the source and its transcript stay as they are. *)
Theorem fork_copies id title b w s w' : well_formed (db w) -> forkSession id title b w = (Ok s, w') ->
  map content (contextMessages (s_id s) 0 (db w')) =
    map (copied (omap r_lessonMessageId (rewinds id (db w)))) (bfilter (fun m => match b with None => true | Some n => m_seq m <=? n end) (contextMessages id 0 (db w))) /\
  s_id s <> id /\ messages_of id (db w') = messages_of id (db w) /\ contextMessages id 0 (db w') = contextMessages id 0 (db w).
Proof.
  intros W H. pose proof (stepwise_wf _ _ _ _ (forkSession_small _ clk newId_at id title b) H W) as W'.
  apply tx_ok in H. open_run.
  match goal with H : getSession id ?d = Some ?x |- _ => apply getSession_elem in H as [Hx Hxid] end.
  match goal with H : createSession _ _ _ _ = (Ok ?n, _) |- _ => apply createSession_ok with (may_erase := fun _ => True) in H as (_ & (l & Hl & Hmap & Hnew) & Hm1 & Hv1 & Hr1 & _); rename n into next end.
  match goal with H : copy_messages _ _ _ _ _ _ = _ |- _ => apply copy_ok in H as (ms & Hm & Hc & Hin & Hv & Hw) end.
  match goal with H : the_session _ _ = _ |- _ => pose proof (idle_ok _ _ _ _ (the_session_idle _) H) as Hd; unfold the_session in H end. open_run.
  match goal with H : getSession (s_id next) _ = Some _ |- _ => apply getSession_elem in H as [_ Hsid] end. rewrite Hsid.
  assert (Hrows : forall id, id <> s_id next -> messages_of id (db w') = messages_of id (db x0)).
  { intros id Hne. unfold messages_of. rewrite Hm, bfilter_app, Hm1, (of_none m_session id ms); [apply app_nil_r|].
    intros m Hm'. destruct (Hin m Hm') as [-> _]. congruence. }
  rewrite Hmap in Hnew. destruct (wf_no_rows _ _ W Hnew) as (Hn1 & Hn2 & Hn3).
  assert (s_id s0 <> s_id next) as Hne by (intros E; apply Hnew; rewrite <- E; apply elem_of_map; by exists s0).
  assert (messages_of (s_id next) (db w') = ms) as Hms.
  { unfold messages_of in *. rewrite Hm, bfilter_app, Hm1, Hn1. apply bfilter_all. intros m Hm'. destruct (Hin m Hm') as [-> _]. apply String.eqb_refl. }
  split; [|split; [congruence|split; [by apply Hrows|apply context_same; [by apply Hrows|congruence..]]]].
  rewrite context_plain, Hms, Hc; [|done|unfold events_of; by rewrite Hv, Hv1|unfold rewinds; by rewrite Hw, Hr1|rewrite Hms; intros m Hm'; by apply Hin].
  unfold rewinds. rewrite Hr1. rewrite (context_same _ (db x0) (db x2)); [done|unfold messages_of; by rewrite Hm1|done..].
Qed.

(** ** Erasure *)

Lemma none_of_other {A} (key : A -> string) id l : bfilter (fun y => String.eqb (key y) id) (other key id l) = [].
Proof. apply of_none. intros x [_ H]%bfilter_elem. by apply negb_true_iff, String.eqb_neq in H. Qed.

Lemma getSession_other id id' d l : id <> id' -> sessions d = other s_id id' l -> getSession id d = bfind (fun s => String.eqb (s_id s) id) l.
Proof.
  unfold getSession. intros Hne ->. unfold other, bfilter, bfind. induction l as [|x l IH]; [done|]. cbn. destruct (String.eqb_spec (s_id x) id') as [E|E]; cbn.
  - rewrite IH. destruct (String.eqb_spec (s_id x) id); [congruence|done].
  - destruct (String.eqb (s_id x) id); [done|exact IH].
Qed.

Lemma none_found (l : list SessionRecord) id : bfind (fun s => String.eqb (s_id s) id) (other s_id id l) = None.
Proof.
  destruct (bfind _ _) as [s|] eqn:E; [|done]. apply bfind_some in E as [[_ Hne]%bfilter_elem E]. by rewrite E in Hne.
Qed.

Lemma listSummaries_rows id d : listSummaries id None d =
  sort_by (fun a b => (y_fromSeq a <? y_fromSeq b) || ((y_fromSeq a =? y_fromSeq b) && (y_tier a <=? y_tier b))) (bfilter (fun y => String.eqb (y_session y) id) (summaries_tbl d)).
Proof. unfold listSummaries. f_equal. apply bfilter_ext. intros y _. apply andb_true_r. Qed.

(** An erasure leaves nothing of an archived session, in any table, but a tombstone with the number of its
    messages, the owner, the actor and the reason; every other session keeps all its rows. *)
Theorem erase_complete id actor reason w tomb n w' : eraseSession id actor reason w = (Ok (tomb, n), w') ->
  (exists s at_, getSession id (db w) = Some s /\ s_archivedAt s <> None /\ n = Z.of_nat (length (messages_of id (db w))) /\
    erasures (db w') = erasures (db w) ++ [{| x_id := tomb; x_session := id; x_agentId := s_agentId s; x_owner := s_owner s; x_kind := s_kind s; x_messages := n; x_at := at_; x_actor := actor; x_reason := reason |}]) /\
  actor <> "" /\ reason <> "" /\
  getSession id (db w') = None /\ messages_of id (db w') = [] /\ events_of id (db w') = [] /\ turns_of id (db w') = [] /\ rewinds id (db w') = [] /\ listSummaries id None (db w') = [] /\
  (forall id', id' <> id -> getSession id' (db w') = getSession id' (db w) /\ messages_of id' (db w') = messages_of id' (db w) /\ events_of id' (db w') = events_of id' (db w) /\
    turns_of id' (db w') = turns_of id' (db w) /\ rewinds id' (db w') = rewinds id' (db w) /\ listSummaries id' None (db w') = listSummaries id' None (db w)).
Proof.
  intros H. unfold SessionPath.eraseSession in H. open_run.
  match goal with H : negb (_ || _) = true |- _ => apply negb_true_iff, orb_false_iff in H as [Ha Hr] end.
  match goal with H : negb (bool_decide _) = true |- _ => apply negb_true_iff, bool_decide_eq_false in H; rename H into Harch end.
  cbn [db with_db set_erasures sessions turns messages events rewinds_tbl summaries_tbl erasures] in *. same_db.
  split; [eexists _, _; by repeat (split; [done|])|]. split; [by intros ->|]. split; [by intros ->|].
  rewrite listSummaries_rows. unfold messages_of, events_of, turns_of, rewinds. cbn [messages events turns rewinds_tbl summaries_tbl]. rewrite !none_of_other.
  split; [apply none_found|]. repeat (split; [done|]). intros id' Hne. rewrite !listSummaries_rows. cbn [summaries_tbl]. rewrite !of_other by done.
  split; [by eapply getSession_other|done].
Qed.

(** ** Turns that a restart cut off *)

Lemma beyond_none n q l : 0 <= n -> map v_seq l = seqZ 1 n -> q = n + 1 -> existsb (fun v => v_seq v =? q) l = false.
Proof.
  intros Hn H ->. apply existsb_none. intros v Hv. assert (v_seq v ∈ seqZ 1 n) as Hq%elem_of_seqZ by (rewrite <- H; apply elem_of_map; by exists v). lia.
Qed.

(** On well-formed tables an event can always be added to a session that is there. *)
Lemma insertEvent_total id turn type data w s : well_formed (db w) -> getSession id (db w) = Some s -> exists v w', insertEvent id turn type data w = (Ok v, w').
Proof.
  intros W Hs. unfold Session.insertEvent. erewrite SE_bind_run by reflexivity. rewrite Hs. cbv zeta. erewrite SE_bind_run by reflexivity.
  pose proof (getSession_elem _ _ _ Hs) as [Hin Hid]. destruct (wf_rows _ W s Hin) as (_ & _ & H & Hn & _).
  assert (existsb (fun v => String.eqb (v_session v) id && (v_seq v =? s_lastEventSeq s + 1)) (events (db w)) = false) as Hfree.
  { apply existsb_none. intros v Hv. apply andb_false_iff. destruct (String.eqb_spec (v_session v) id) as [E|]; [right|by left].
    refine (existsb_false_elem _ _ v (beyond_none _ _ (events_of (s_id s) (db w)) Hn H eq_refl) _). apply bfilter_elem. split; [done|]. apply String.eqb_eq. congruence. }
  erewrite SE_bind_run by reflexivity. cbn [db]. rewrite Hfree. by eexists _, _.
Qed.

(** How a turn stands after it was failed, or not, for a reason. *)
Definition failed_row (hit : bool) (e : string) (t t' : TurnRecord) : Prop :=
  if hit && bool_decide (t_state t = Running) then exists now, t' = ended FailedTurn now (Some e) t else t' = t.

Lemma forall2_map_in {A} (R : A -> A -> Prop) (f : A -> A) l : (forall x, x ∈ l -> R x (f x)) -> Forall2 R l (map f l).
Proof. induction l as [|x l IH]; intros H; constructor; [apply H; by left|]. apply IH. intros y Hy. apply H. by right. Qed.

Lemma forall2_same {A} (R : A -> A -> Prop) l : (forall x, x ∈ l -> R x x) -> Forall2 R l l.
Proof. intros H. rewrite <- (map_id l) at 2. by apply forall2_map_in. Qed.

Lemma failTurn_total tid e data w : well_formed (db w) ->
  exists o w', failTurn tid e data w = (Ok o, w') /\ well_formed (db w') /\ Forall2 (fun t t' => failed_row (String.eqb (t_id t) tid) e t t') (turns (db w)) (turns (db w')).
Proof.
  intros W. assert (exists o w', failTurn tid e data w = (Ok o, w') /\ Forall2 (fun t t' => failed_row (String.eqb (t_id t) tid) e t t') (turns (db w)) (turns (db w'))) as (o & w' & H & Ht).
  { unfold Session.failTurn, tx. erewrite SE_bind_run by reflexivity. destruct (getTurn tid (db w)) as [t|] eqn:Ht.
    2: { eexists _, _. split; [reflexivity|]. apply forall2_same. intros x Hx. unfold failed_row. pose proof (bfind_none _ _ x Ht Hx) as E. cbn in E. by rewrite E. }
    apply getTurn_elem in Ht as Hin. destruct Hin as [Hin Hid]. destruct (decide (t_state t = Running)) as [Hrun|Hrun].
    2: { rewrite bool_decide_eq_false_2 by done. eexists _, _. split; [reflexivity|]. apply forall2_same. intros x Hx. unfold failed_row.
         destruct (String.eqb_spec (t_id x) tid) as [E|]; [|done]. assert (x = t) as -> by (apply (NoDup_map_inj t_id (turns (db w))); [apply W|done|done|congruence]).
         by rewrite bool_decide_eq_false_2. }
    rewrite bool_decide_eq_true_2 by done. cbn [negb]. erewrite SE_bind_run by reflexivity. do 2 (erewrite SE_bind_run by reflexivity).
    match goal with |- context [(insertEvent _ _ _ _ ≫= _) ?w0] => set (w1 := w0) end.
    assert (well_formed (db w1)) as W1 by (eapply rtc_wf; [eapply (endTurn_small (fun _ => True)); [exact Ht|exact Hrun|done]|exact W]).
    pose proof (wf_home_t _ W t Hin) as (s & Es & Hs)%elem_of_map. pose proof (getSession_row _ _ (wf_sessions _ W) Hs) as Hg. rewrite <- Es in Hg.
    assert (exists s', getSession (t_session t) (db w1) = Some s') as [s' Hs'].
    { cbn [db with_db w1]. rewrite getSession_upd by done. change (getSession ?i (upd_turn ?a ?f ?d)) with (getSession i d). rewrite Hg. by eexists. }
    destruct (insertEvent_total (t_session t) (Some tid) "turn.failed" (spread [("turnId", JStr tid); ("error", JStr e)] data) w1 s' W1 Hs') as (v & w2 & Hv).
    erewrite SE_bind_run by exact Hv. eexists _, _. split; [reflexivity|]. apply insertEvent_ok in Hv as (_ & _ & _ & _ & _ & _ & _ & Hd & _). rewrite Hd. cbn.
    apply forall2_map_in. intros x Hx. unfold failed_row. destruct (String.eqb_spec (t_id x) tid) as [E|]; [|done].
    assert (x = t) as -> by (apply (NoDup_map_inj t_id (turns (db w))); [apply W|done|done|congruence]). rewrite bool_decide_eq_true_2 by done. cbn. by eexists. }
  exists o, w'. split; [done|]. split; [|done]. eapply stepwise_wf; [apply failTurn_small|exact H|exact W].
Qed.

Lemma fail_all_total ids w : well_formed (db w) ->
  exists l w', fail_all clk ids w = (Ok l, w') /\ well_formed (db w') /\ Forall2 (fun t t' => failed_row (includes ids (t_id t)) "core-restarted" t t') (turns (db w)) (turns (db w')).
Proof.
  revert w. induction ids as [|i ids IH]; intros w W; cbn [fail_all].
  - eexists _, _. split; [reflexivity|]. split; [done|]. by apply forall2_same.
  - destruct (failTurn_total i "core-restarted" (JObj [("recovered", JBool true)]) w W) as (o & w1 & H1 & W1 & T1). erewrite SE_bind_run by exact H1.
    destruct (IH w1 W1) as (l & w2 & H2 & W2 & T2). erewrite SE_bind_run by exact H2. eexists _, _. split; [reflexivity|]. split; [done|].
    clear - T1 T2. revert T2. generalize (turns (db w2)). induction T1 as [|t t1 k k1 Ht H IH']; intros k2 H2; inversion H2 as [|? t2 ? k3 Ht2 H3]; subst; constructor; [|by apply IH'].
    unfold failed_row, includes in *. cbn [existsb]. destruct (String.eqb (t_id t) i) eqn:E; cbn in Ht |- *.
    + destruct (bool_decide (t_state t = Running)) eqn:Hs; cbn in Ht |- *.
      * destruct Ht as [now ->]. cbn in Ht2. rewrite andb_false_r in Ht2. by exists now.
      * subst t1. rewrite Hs, andb_false_r in Ht2. exact Ht2.
    + by subst t1.
Qed.

Definition restarted (t t' : TurnRecord) : Prop :=
  match t_state t with Running => exists now, t' = ended FailedTurn now (Some "core-restarted") t | _ => t' = t end.

Lemma failed_all ids l l' : (forall t, t ∈ l -> t_state t = Running -> includes ids (t_id t) = true) ->
  Forall2 (fun t t' => failed_row (includes ids (t_id t)) "core-restarted" t t') l l' -> Forall2 restarted l l'.
Proof.
  intros Hall. induction 1 as [|t t' l l' Ht H IH]; constructor; [|apply IH; intros x Hx; apply Hall; by right].
  unfold failed_row, restarted in *. destruct (decide (t_state t = Running)) as [E|E].
  - rewrite (Hall t) in Ht by (done || by left). rewrite bool_decide_eq_true_2 in Ht by done. by rewrite E.
  - rewrite bool_decide_eq_false_2, andb_false_r in Ht by done. by destruct (t_state t).
Qed.

(** (C30) After a restart no turn runs. The recovery always comes to its end; it fails every turn that was still running
    with the reason of the restart, and leaves every other turn as it was. *)
Theorem recovery_ends_every_turn w : well_formed (db w) ->
  exists l w', recoverRunningTurns w = (Ok l, w') /\ well_formed (db w') /\
    Forall2 restarted (turns (db w)) (turns (db w')) /\
    (forall id, runningTurn id (db w') = None).
Proof.
  intros W. unfold Session.recoverRunningTurns. erewrite SE_bind_run by reflexivity.
  match goal with |- context [fail_all clk ?ids w] => destruct (fail_all_total ids w W) as (l & w' & H & W' & T); assert (forall t, t ∈ turns (db w) -> t_state t = Running -> includes ids (t_id t) = true) as Hall end.
  { intros t Ht Hr. apply includes_spec, elem_of_map. exists t. split; [done|]. rewrite sort_by_perm. apply bfilter_elem. split; [done|]. by apply bool_decide_eq_true. }
  exists l, w'. split; [exact H|]. split; [done|].
  pose proof (failed_all _ _ _ Hall T) as T'.
  split; [exact T'|]. intros id. destruct (runningTurn id (db w')) as [t|] eqn:E; [|done]. apply bfind_some in E as [Hin E]. bool_hyps.
  apply list_elem_of_lookup in Hin as [n Hn]. destruct (list.Forall2_lookup_r _ _ _ _ _ T' Hn) as (t0 & _ & Ht0).
  unfold restarted in Ht0. destruct (t_state t0) eqn:E0; [by destruct Ht0 as [now ->]|subst; congruence..].
Qed.

(** ** The start of a turn *)

(** What forbids a turn of a session, first reason first. *)
Definition refusal (id : string) (w : World) : option SessionError :=
  match getSession id (db w) with
  | None => Some (Refused NotFound "session")
  | Some s =>
      if negb (bool_decide (s_archivedAt s = None)) then Some (Refused Conflict "archived")
      else if rewindReserved id w then Some (Refused Conflict "rewind-in-progress")
      else if negb (bool_decide (t_id <$> runningTurn id (db w) = None)) then Some (Refused Conflict "turn-in-progress")
      else None
  end.

Lemma message_free d s q : well_formed d -> s ∈ sessions d -> q = s_lastMessageSeq s + 1 -> existsb (fun m => String.eqb (m_session m) (s_id s) && (m_seq m =? q)) (messages d) = false.
Proof.
  intros W Hs ->. apply existsb_none. intros m Hm. apply andb_false_iff. destruct (String.eqb_spec (m_session m) (s_id s)) as [E|]; [right|by left].
  pose proof (message_bound _ d m s W Hm E (getSession_row _ _ (wf_sessions _ W) Hs)). lia.
Qed.

(** On well-formed tables a message with a new id can always be added to a session that is there. *)
Lemma insertMessage_total id turn role text n w s : well_formed (db w) -> getSession id (db w) = Some s -> newId_at "msg" (fresh w) ∉ map m_id (messages (db w)) ->
  exists m w', insertMessage id turn role text n w = (Ok m, w').
Proof.
  intros W Hs Hnew. unfold Session.insertMessage. erewrite SE_bind_run by reflexivity. rewrite Hs. cbv zeta. do 3 (erewrite SE_bind_run by reflexivity). cbn [db fresh].
  pose proof (getSession_elem _ _ _ Hs) as [Hin Hid].
  assert (existsb (fun x => String.eqb (m_id x) (newId_at "msg" (fresh w)) || (String.eqb (m_session x) id && (m_seq x =? s_lastMessageSeq s + 1))) (messages (db w)) = false) as ->; [|by eexists _, _].
  apply existsb_none. intros m Hm. apply orb_false_iff. split.
  - apply String.eqb_neq. intros E. apply Hnew, elem_of_map. by exists m.
  - rewrite <- Hid. exact (existsb_false_elem _ _ _ (message_free _ _ _ W Hin eq_refl) Hm).
Qed.

(** A turn that follows the counter of its session, with a new id, is not taken. *)
Lemma turn_free d s : well_formed d -> s ∈ sessions d -> runningTurn (s_id s) d = None ->
  existsb (fun x => String.eqb (t_session x) (s_id s) && ((t_turn x =? s_turnCount s + 1) || bool_decide (t_state x = Running))) (turns d) = false.
Proof.
  intros W Hs Hr. apply existsb_none. intros t Ht. destruct (String.eqb_spec (t_session t) (s_id s)) as [E|]; [|done]. cbn. apply orb_false_iff. split.
  - destruct (wf_rows _ W s Hs) as (_ & _ & _ & _ & H & _). assert (t_turn t ∈ seqZ 1 (s_turnCount s)) as Hq%elem_of_seqZ; [|lia].
    rewrite <- H. apply elem_of_map. exists t. split; [done|]. apply bfilter_elem. split; [done|]. by apply String.eqb_eq.
  - pose proof (bfind_none _ _ t Hr Ht) as Hn. cbn in Hn. by rewrite E, String.eqb_refl in Hn.
Qed.

Lemma new_free {A} (key : A -> string) k l : k ∉ map key l -> existsb (fun x => String.eqb (key x) k) l = false.
Proof. intros H. apply existsb_none. intros x Hx. apply String.eqb_neq. intros <-. apply H, elem_of_map. by exists x. Qed.

(** A turn starts exactly when nothing forbids it: the session is there, is not archived, no rewind of it is in
    progress and no turn of it runs. A refusal gives the first reason and changes nothing; a start is one turn more, that
    runs, with the next number, and its text as the next message of the reader. *)
Theorem begin_turn_exact id text n h o w : well_formed (db w) -> newId_at "trn" (fresh w) ∉ map t_id (turns (db w)) ->
  newId_at "msg" (S (fresh w)) ∉ map m_id (messages (db w)) ->
  match refusal id w with
  | Some e => beginTurn clk newId_at id text n h o w = (Err e, w)
  | None => exists s t m v w', beginTurn clk newId_at id text n h o w = (Ok (t, m, v), w') /\ getSession id (db w) = Some s /\
      turns (db w') = turns (db w) ++ [t] /\ t_session t = id /\ t_turn t = s_turnCount s + 1 /\ t_state t = Running /\ runningTurn id (db w') = Some t /\
      messages (db w') = messages (db w) ++ [m] /\ m_session m = id /\ m_turnId m = Some (t_id t) /\ m_role m = RUser /\ m_text m = text /\ m_seq m = s_lastMessageSeq s + 1
  end.
Proof.
  intros W Hnt Hnm. unfold refusal, beginTurn, tx. erewrite SE_bind_run by reflexivity.
  destruct (getSession id (db w)) as [s|] eqn:Hs; [|by destruct w].
  destruct (bool_decide (s_archivedAt s = None)) eqn:Ha; cbn [negb]; [|by destruct w].
  erewrite SE_bind_run by reflexivity. erewrite SE_bind_run by reflexivity. unfold rewindReserved.
  destruct (existsb _ (reservations w)) eqn:Hres; [by destruct w|]. erewrite SE_bind_run by reflexivity. erewrite SE_bind_run by reflexivity.
  destruct (bool_decide (t_id <$> runningTurn id (db w) = None)) eqn:Hr; cbn [negb]; [|by destruct w].
  apply bool_decide_eq_true, fmap_None in Hr. apply bool_decide_eq_true in Ha. pose proof (getSession_elem _ _ _ Hs) as [Hin <-].
  do 4 (erewrite SE_bind_run by reflexivity). cbn [db fresh ticks]. rewrite (new_free _ _ _ Hnt).
  do 2 (erewrite SE_bind_run by reflexivity). cbn [db]. rewrite (turn_free _ _ W Hin) by done. do 2 (erewrite SE_bind_run by reflexivity).
  match goal with |- context [turns _ ++ [?t]] => set (t0 := t) end.
  match goal with |- context [(insertMessage _ _ _ _ _ ≫= _) ?w0] => set (w1 := w0) end.
  assert (db w1 = upd_session (t_session t0) (with_turn (t_turn t0) (clk (ticks w))) (set_turns (turns (db w) ++ [t0]) (db w))) as Hd1 by done.
  pose proof (idle_session _ _ Hr) as Hidle. assert (W1 : well_formed (db w1)) by (rewrite Hd1; by eapply wf_turn).
  assert (getSession (s_id s) (db w1) = Some (with_turn (t_turn t0) (clk (ticks w)) s)) as Hs1.
  { rewrite Hd1, getSession_upd by done. change (getSession (s_id s) (set_turns _ _)) with (getSession (s_id s) (db w)). rewrite Hs. cbn. by rewrite String.eqb_refl. }
  destruct (insertMessage_total (s_id s) (Some (newId_at "trn" (fresh w))) RUser text n w1 _ W1 Hs1 Hnm) as (m & w2 & Hm). erewrite SE_bind_run by exact Hm.
  pose proof (rtc_wf _ _ _ (insertMessage_small (fun _ => True) _ _ _ _ _ _ _ _ _ _ Hm) W1) as W2.
  apply insertMessage_ok in Hm as (s' & Hs' & Hms & Hmt & Hmr & Hmx & _ & Hmq & _ & Hd2 & _). rewrite Hs1 in Hs'. injection Hs' as <-.
  assert (exists s2, getSession (s_id s) (db w2) = Some s2) as [s2 Hs2].
  { rewrite Hd2. change (getSession ?i (set_messages ?l ?d)) with (getSession i d). rewrite getSession_upd, Hs1 by done. by eexists. }
  match goal with |- context [(insertEvent ?i ?t ?k ?d ≫= _) _] => destruct (insertEvent_total i t k d w2 s2 W2 Hs2) as (v & w3 & Hv); erewrite SE_bind_run by exact Hv end.
  apply insertEvent_ok in Hv as (_ & _ & _ & _ & _ & _ & _ & Hd3 & _). rewrite Hd2 in Hd3.
  eexists s, t0, m, v, w3. split; [reflexivity|]. rewrite Hd3. repeat (split; [done|]). split; [|by repeat (split; [done|])].
  unfold runningTurn in *. cbn. rewrite bfind_app, Hr. cbn. by rewrite String.eqb_refl.
Qed.

(** ** Every sequence of calls *)

Context (sha256 : string -> string) (stringify : js -> string).

Definition empty : Db := {| sessions := []; turns := []; messages := []; events := []; rewinds_tbl := []; summaries_tbl := []; erasures := [] |}.

Lemma empty_wf : well_formed empty.
Proof. split; cbn; first [by apply NoDup_nil_2|by intros ? ?%elem_of_nil]. Qed.

(** The world after a sequence of calls, each of which may return or throw. *)
Definition run (l : list Call) (w : World) : World := fold_left (fun w c => do_call clk newId_at sha256 stringify c w) l w.

(** (C27) Whatever is called, in whatever order, and whatever of it throws, the tables stay well formed: the messages, the
    events and the turns of a session are numbered without a gap up to its counters, at most one turn of it runs, none
    when it is archived, no id is used twice, and every overlay hides a range of its session that ends before its note. *)
Theorem store_sound l w : db w = empty -> well_formed (db (run l w)).
Proof. intros H. apply (rtc_wf (fun _ => True) (db w)); [by apply calls_small|]. rewrite H. apply empty_wf. Qed.

(** (C28) No sequence of calls without an erasure of the session rewrites its past: messages and events are only added at
    the end, a turn changes only when it ends, an overlay only when it is undone, and whose session it is never does. *)
Theorem transcript_append_only l w id : well_formed (db w) -> (forall c, c ∈ l -> ~ erases c id) -> grows id (db w) (db (run l w)).
Proof.
  intros W H. apply (rtc_grows (fun i => i <> id)); [|done|naive_solver]. apply calls_small. intros c i Hc Hi ->. by apply (H c).
Qed.
End life.
