(* ===== verification/SessionRun.v ===== *)
(** * A session, from its first message to its erasure

    The store at work: two turns, a rewind of the second, its undoing, a fork, a turn that
    a restart cuts off, an erasure. *)

From S2P Require Import Prelude Session SessionPath SessionInv SessionSpec SessionView SessionLife.

(** ** A store *)

Definition clk (n : nat) : Z := 1700000000000 + Z.of_nat n.
(** Ids in unary, a different one for every moment of the generator. *)
Fixpoint strokes (n : nat) : string := match n with O => "" | S n => "'" +:+ strokes n end.
Definition ids (prefix : string) (n : nat) : string := prefix +:+ "_" +:+ strokes n.
(** Any text of 64 characters will do for a digest. *)
Definition sha (s : string) : string := String.substring 0 64 (s +:+ "----------------------------------------------------------------").
Definition text_of (j : js) : string := match j with JArr [JStr a; JStr b] => a +:+ ":" +:+ b | _ => "" end.

Definition start : World := {| db := empty; reservations := []; tokens := 0; ticks := 0; fresh := 0; archived_log := []; audit_log := [] |}.
Notation calls l w := (run clk ids sha text_of l w).

Definition chat : CreateSessionInput :=
  {| ci_kind := "direct"; ci_agentId := "agt_1"; ci_owner := "usr_1"; ci_scope := None; ci_title := Some "Plan"; ci_memoryMode := None; ci_chatKey := None;
     ci_replaceActive := false; ci_origin := None |}.
Definition ses : string := "ses_".
Definition trn1 : string := "trn_'".
Definition trn2 : string := "trn_''''".

(** One turn done, and a second. *)
Definition talk : list Call :=
  [CCreate chat; CBegin ses "draft it" 3 false None; CComplete trn1 "done" 2 JNull; CBegin ses "wrong idea" 3 false None; CComplete trn2 "built" 2 JNull].
Definition talked : World := calls talk start.

Definition back : RewindInput :=
  {| ri_toSeq := ToLast; ri_lesson := "that idea failed"; ri_actor := "usr_1"; ri_trigger := "user"; ri_expectedEventSeq := None; ri_audit := None;
     ri_commandTurnId := None; ri_reservation := None |}.
Notation rewound := (rewindPath clk ids sha text_of ses back talked).

Example talked_path : map m_text (contextMessages ses 0 (db talked)) = ["draft it"; "done"; "wrong idea"; "built"].
Proof. vm_compute. reflexivity. Qed.

Example rewound_path : map m_text (contextMessages ses 0 (db rewound.2)) = ["draft it"; "done"; "that idea failed"].
Proof. vm_compute. reflexivity. Qed.

Definition overlay : RewindRecord := match rewound.1 with Ok r => r | Err _ => {| r_id := ""; r_session := ""; r_parentSeq := 0; r_hiddenFromSeq := 0; r_hiddenToSeq := 0; r_lessonMessageId := None; r_hiddenDigest := ""; r_trigger := ""; r_actor := ""; r_createdAt := 0; r_undoneAt := None |} end.

Example overlay_range : (r_parentSeq overlay, r_hiddenFromSeq overlay, r_hiddenToSeq overlay) = (2, 3, 4).
Proof. vm_compute. reflexivity. Qed.

Notation undone_run := (undoRewind clk ses (r_id overlay) "usr_1" None None rewound.2).

Example undone_path : map m_text (contextMessages ses 0 (db undone_run.2)) = ["draft it"; "done"; "wrong idea"; "built"].
Proof. vm_compute. reflexivity. Qed.

(** A fork of the rewound session up to its second message, and one of all of it. *)
Example fork_short : map m_text (contextMessages (ids "ses" 9) 0 (db (forkSession clk ids ses None (Some 2) rewound.2).2)) = ["draft it"; "done"].
Proof. vm_compute. reflexivity. Qed.

(** ** The theorems apply *)

Lemma talked_wf : well_formed (db talked).
Proof. eapply (rtc_wf (fun _ => True)); [by apply calls_small|]. apply empty_wf. Qed.

Lemma store_sound_witness : well_formed (db (calls talk start)).
Proof. apply (store_sound clk ids sha text_of talk start). reflexivity. Defined.

Lemma transcript_append_only_witness : grows ses (db talked) (db (calls [CRewind ses back; CArchive ses; CErase "ses_other" "usr_1" "asked"] talked)).
Proof.
  apply (transcript_append_only clk ids sha text_of); [apply talked_wf|].
  intros c [->|[->|[->|H%elem_of_nil]%elem_of_cons]%elem_of_cons]%elem_of_cons; [by intros []|by intros []|discriminate|done].
Defined.

Lemma rewind_exact_witness : exists note, m_text note = "that idea failed" /\ messages (db rewound.2) = messages (db talked) ++ [note].
Proof.
  destruct (rewind_exact clk ids sha text_of ses back talked overlay rewound.2 talked_wf) as (note & _ & H1 & _ & H2 & _); [vm_compute; reflexivity|]. exists note. split; [exact H1|exact H2].
Defined.

Lemma undo_restores_witness : contextMessages ses 0 (db undone_run.2) = contextMessages ses 0 (db talked).
Proof.
  destruct undone_run as [[r|e] w2] eqn:E; [|vm_compute in E; discriminate E]. cbn [snd].
  apply (undo_restores clk ids sha text_of ses back talked overlay rewound.2 "usr_1" None None r w2 talked_wf); [vm_compute; reflexivity|exact E].
Defined.

Definition forked : SessionRecord := match (forkSession clk ids ses None None rewound.2).1 with Ok s => s | Err _ => {| s_id := ""; s_kind := ""; s_agentId := ""; s_owner := ""; s_scope := ""; s_chatKey := None; s_origin := None; s_title := ""; s_pinned := false; s_memoryMode := Remember; s_createdAt := 0; s_updatedAt := 0; s_lastTurnAt := None; s_archivedAt := None; s_turnCount := 0; s_lastMessageSeq := 0; s_lastEventSeq := 0 |} end.

Lemma rewound_wf : well_formed (db rewound.2).
Proof. eapply (rtc_wf (fun _ => True)); [apply rewindPath_small|apply talked_wf]. Qed.

Lemma fork_copies_witness : map content (contextMessages (s_id forked) 0 (db (forkSession clk ids ses None None rewound.2).2)) =
  [(RUser, "draft it", 3); (RAssistant, "done", 2); (RUser, "that idea failed", 4)].
Proof.
  destruct (fork_copies clk ids ses None None rewound.2 forked (forkSession clk ids ses None None rewound.2).2 rewound_wf) as [H _]; [vm_compute; reflexivity|].
  rewrite H. vm_compute. reflexivity.
Defined.

Definition archived : World := calls [CArchive ses] talked.

Lemma erase_complete_witness : getSession ses (db (eraseSession clk ids ses "usr_1" "asked" archived).2) = None.
Proof.
  apply (erase_complete clk ids ses "usr_1" "asked" archived "era_'''''''" 4). vm_compute. reflexivity.
Defined.

(** A turn runs when the process dies. *)
Definition cut : World := calls [CBegin ses "go on" 2 false None] talked.

Lemma cut_wf : well_formed (db cut).
Proof. eapply (rtc_wf (fun _ => True)); [by apply calls_small|apply talked_wf]. Qed.

Lemma recovery_ends_every_turn_witness : runningTurn ses (db cut) <> None /\ exists l w', recoverRunningTurns clk cut = (Ok l, w') /\ runningTurn ses (db w') = None.
Proof.
  split; [by vm_compute|]. destruct (recovery_ends_every_turn clk cut cut_wf) as (l & w' & H & _ & _ & Hr). exists l, w'. exact (conj H (Hr ses)).
Defined.

Lemma begin_turn_exact_witness : beginTurn clk ids ses "again" 2 false None cut = (Err (Refused Conflict "turn-in-progress"), cut).
Proof.
  pose proof (begin_turn_exact clk ids ses "again" 2 false None cut cut_wf) as H. apply H; apply (bool_decide_unpack _); vm_compute; exact I.
Defined.
