(* ===== verification/Pruning.v ===== *)
(** * Tool output that a model no longer needs

    Model of [packages/core/src/session/pruning.ts] with the tables of
    [session/store.ts] it keeps: which pairs of a tool call and its result a context
    view shows in full, which it hides, and the background run that decides what to
    hide. A run waits for a decision, batch by batch; what happens meanwhile, and how
    the decision turns out, is arbitrary. That two runs of a session at a time are one,
    and what observers are told, is left out. *)

From S2P Require Import Prelude Session.
From Stdlib Require Import QArith.
From stdpp Require Import pretty.
#[local] Open Scope Z_scope.

(** ** Text *)

Definition NL : string := String (Ascii.ascii_of_nat 10) "".

(** [s.includes(w)] *)
Definition contains (w s : string) : bool := match String.index 0 w s with Some _ => true | None => false end.
(** A regular expression of alternatives, without regard to case. *)
Definition mentions (words : list string) (s : string) : bool := existsb (fun w => contains w (lower s)) words.

(** [String(v)] of a value that was parsed from JSON, or is absent. *)
Fixpoint js_string (v : js) : string :=
  match v with
  | JUndef => "undefined"
  | JNull => "null"
  | JBool b => if b then "true" else "false"
  | JNum (Fin z) => pretty z
  | JNum NaN => "NaN"
  | JNum (Inf neg) => if neg then "-Infinity" else "Infinity"
  | JStr s => s
  | JArr l => String.concat "," (map (fun x => match x with JUndef | JNull => "" | _ => js_string x end) l)
  | JObj _ => "[object Object]"
  end.

(** [Boolean(v)] *)
Definition truthy (v : js) : bool :=
  match v with
  | JUndef | JNull => false
  | JBool b => b
  | JNum (Fin z) => negb (z =? 0)
  | JNum NaN => false
  | JNum (Inf _) => true
  | JStr s => negb (is_empty s)
  | JArr _ | JObj _ => true
  end.

(** [v ?? d] *)
Definition nullish (v d : js) : js := match v with JUndef | JNull => d | _ => v end.

Definition slice_to (n : Z) (s : string) : string := String.substring 0 (Z.to_nat n) s.
Definition slice_last (n : nat) (s : string) : string := String.substring (String.length s - n) n s.

(** [Math.ceil(text.length / 4)] *)
Definition quarter (text : string) : Z := (slen text + 3) / 4.

(** ** Tables *)

(** With [session/migrations.ts]: the mode is ['drop'] unless it was set. *)
(* @src session/migrations.ts 122 130 tool_visibility *)
Record Visibility : Type := {
  z_session : string; z_ref : string; z_hidden : bool; z_reason : string; z_mode : string; z_confidence : option Q; z_tokensSaved : Z; z_refetches : Z
}.

(** A database with the tables that hide tool output and that calibrate the token count. *)
Record Usage : Type := { u_message : string; u_model : string; u_tokens : Z }.
Record Store : Type := { core : World; visibility : list Visibility; calibration : gmap string Q; usage : list Usage }.
Definition rows (st : Store) : Db := db (core st).
Definition set_core (w : World) (st : Store) : Store := {| core := w; visibility := visibility st; calibration := calibration st; usage := usage st |}.
Definition set_visibility (l : list Visibility) (st : Store) : Store := {| core := core st; visibility := l; calibration := calibration st; usage := usage st |}.

(** What is kept of a verdict: how the pair is to be shown, how sure the decision was, and the tokens it saves. *)
Record Detail : Type := { d_mode : string; d_confidence : Q; d_tokensSaved : Z }.
Record Change : Type := { h_ref : string; h_turnId : string; h_reason : string; h_detail : option Detail }.

(* @src session/store.ts 895 897 toolVisibility *)
Definition toolVisibility (id : string) (st : Store) : list Visibility :=
  sort_by (fun a b => negb (str_ltb (z_ref b) (z_ref a))) (bfilter (fun z => String.eqb (z_session z) id) (visibility st)).

Definition is_row (id ref : string) (z : Visibility) : bool := String.eqb (z_session z) id && String.eqb (z_ref z) ref.

Definition shown_as (hidden : bool) (reason : string) (z : Visibility) : Visibility :=
  {| z_session := z_session z; z_ref := z_ref z; z_hidden := hidden; z_reason := reason; z_mode := z_mode z; z_confidence := z_confidence z;
     z_tokensSaved := z_tokensSaved z; z_refetches := z_refetches z |}.
Definition detailed (d : Detail) (z : Visibility) : Visibility :=
  {| z_session := z_session z; z_ref := z_ref z; z_hidden := z_hidden z; z_reason := z_reason z; z_mode := d_mode d; z_confidence := Some (d_confidence d);
     z_tokensSaved := d_tokensSaved d; z_refetches := z_refetches z |}.
Definition refetched (z : Visibility) : Visibility :=
  {| z_session := z_session z; z_ref := z_ref z; z_hidden := z_hidden z; z_reason := z_reason z; z_mode := z_mode z; z_confidence := z_confidence z;
     z_tokensSaved := z_tokensSaved z; z_refetches := z_refetches z + 1 |}.
Definition on_row (id ref : string) (f : Visibility -> Visibility) (l : list Visibility) : list Visibility := map (fun z => if is_row id ref z then f z else z) l.

(* @src session/store.ts 898 901 setToolVisibility *)
Definition setToolVisibility (id ref : string) (hidden : bool) (reason : string) (detail : option Detail) (l : list Visibility) : list Visibility :=
  let l := if existsb (is_row id ref) l then on_row id ref (shown_as hidden reason) l
           else l ++ [{| z_session := id; z_ref := ref; z_hidden := hidden; z_reason := reason; z_mode := "drop"; z_confidence := None; z_tokensSaved := 0; z_refetches := 0 |}] in
  match detail with Some d => on_row id ref (detailed d) l | None => l end.

(* @src session/store.ts 909 909 recordToolRefetch *)
Definition recordToolRefetch (id ref : string) (l : list Visibility) : list Visibility := on_row id ref refetched l.

(* @src session/store.ts 910 914 pruneMetrics *)
Definition pruneMetrics (id : string) (st : Store) : Z * Z * Z :=
  let l := bfilter (fun z => String.eqb (z_session z) id) (visibility st) in (Z.of_nat (length l), zsum z_tokensSaved l, zsum z_refetches l).

(* @src session/store.ts 926 926 toolEvents *)
Definition toolEvents (id : string) (d : Db) : list EventRecord :=
  sort_by (fun a b => v_seq a <=? v_seq b) (bfilter (fun v => String.eqb (v_session v) id && includes ["tool.call"; "tool.result"] (v_type v)) (events d)).

(** ** Pairs *)

(* @src session/pruning.ts 5 5 PruneConfig *)
Inductive Decider : Type := Laya | Heuristic | Off.
#[export] Instance Decider_eq_dec : EqDecision Decider.
Proof. solve_decision. Defined.
(* @src session/pruning.ts 5 5 PruneConfig *)
Record PruneConfig : Type := { enabled : bool; keepLastTurns : Z; decider : Decider; batchSize : nat }.
(* @src session/pruning.ts 9 9 ToolPair *)
Record ToolPair : Type := {
  p_ref : string; p_turnId : string; p_call : EventRecord; p_result : EventRecord; p_text : string; p_hidden : bool; p_restored : bool; p_reason : option string
}.
(** An answer of the decider, with fields of whatever type it came with; a confidence that is not a finite number is none. *)
(* @src session/pruning.ts 10 10 Relevance *)
Record Relevance : Type := { a_ref : string; a_relevant : js; a_reason : js; a_verdict : js; a_confidence : option Q }.

(** What the protection of a pair is judged by. *)
Record Boundary : Type := { b_pending : list EventRecord; b_turns : list TurnRecord; b_latest : Z; b_assistant : string }.

Definition event_ref (seq : Z) : string := "event:" +:+ pretty seq.
Definition pair_key (v : EventRecord) : string := default "null" (v_turnId v) +:+ ":" +:+ js_string (jget "id" (v_data v)).
Definition is_error (v : EventRecord) : bool := js_is_true (jget "isError" (v_data v)).
Definition args (v : EventRecord) : js := nullish (jget "args" (v_data v)) (JObj []).

(** The names of fields under which a value refers to something. *)
Definition REF_KEYS : list string := ["path"; "ref"; "uri"; "url"; "id"].
Definition EVIDENCE : list string := ["approval"; "audit"; "grant"; "attest"; "permission"; "policy"].

(* @src session/pruning.ts 65 68 #protected *)
Fixpoint collect (key : string) (v : js) : list string :=
  match v with
  | JStr s => if mentions REF_KEYS key && (4 <=? slen s) then [s] else []
  | JArr l => (fix go (i : Z) (l : list js) : list string := match l with [] => [] | x :: r => collect (pretty i) x ++ go (i + 1) r end) 0 l
  | JObj fs => (fix go (fs : list (string * js)) : list string := match fs with [] => [] | (k, x) :: r => collect k x ++ go r end) fs
  | _ => []
  end.

Section pruning.
(** The clock, SHA-256 in hexadecimal, [JSON.stringify] and [JSON.parse], and a fraction as a value. *)
Context (clk : nat -> Z) (sha256 : string -> string) (stringify : js -> string) (parse : string -> option js) (fraction : Q -> js) (cfg : PruneConfig).

(** The call and the result as one text. *)
Definition pair_text (call result : EventRecord) : string := stringify (JObj [("call", v_data call); ("result", v_data result)]).

(* @src session/pruning.ts 16 22 prunedText *)
Definition prunedText (p : ToolPair) (mode : string) : string :=
  let stub := "call " +:+ slice_to 100 (js_string (jget "name" (v_data (p_call p)))) +:+ "; args-sha256 " +:+ sha256 (stringify (args (p_call p)))
              +:+ "; status " +:+ (if is_error (p_result p) then "error" else "ok") in
  if String.eqb mode "drop" then "[tool output hidden; originals " +:+ p_ref p +:+ ", " +:+ event_ref (v_seq (p_result p)) +:+ "; " +:+ stub +:+ "]"
  else
    let output := js_string (nullish (jget "output" (v_data (p_result p))) (JStr "")) in
    stub +:+ NL +:+ slice_to 256 output +:+ NL +:+ "[truncated by compaction: " +:+ pretty (quarter (p_text p)) +:+ " tokens, ref " +:+ p_ref p +:+ "]" +:+ NL +:+ slice_last 256 output.

(** Calls that no result has come for yet, by the key of their turn and id. *)
Definition note_pending (m : gmap string EventRecord) (v : EventRecord) : gmap string EventRecord :=
  if String.eqb (v_type v) "tool.call" then <[pair_key v := v]> m else delete (pair_key v) m.

(* @src session/pruning.ts 48 53 #boundary *)
Definition boundary (id : string) (st : Store) : Boundary :=
  let ts := listTurns id (rows st) in
  {| b_pending := map snd (map_to_list (fold_left note_pending (contextToolEvents id (rows st)) ∅));
     b_turns := ts; b_latest := match list.last ts with Some t => t_turn t | None => 0 end; b_assistant := latestAssistantContext id (rows st) |}.

(** What a pair may be referred to by. *)
(* @src session/pruning.ts 64 70 #protected *)
Definition references (p : ToolPair) : list string :=
  [p_ref p; event_ref (v_seq (p_result p)); js_string (jget "id" (v_data (p_call p))); p_turnId p; js_string (jget "name" (v_data (p_call p)))]
  ++ collect "" (jget "args" (v_data (p_call p)))
  ++ match parse (js_string (jget "output" (v_data (p_result p)))) with Some v => collect "" v | None => [] end.

(* @src session/pruning.ts 54 72 #protected *)
Definition protected (p : ToolPair) (b : Boundary) : bool :=
  match bfind (fun t => String.eqb (t_id t) (p_turnId p)) (b_turns b) with
  | None => true
  | Some t =>
      negb (bool_decide (t_state t = Completed)) || (b_latest b - keepLastTurns cfg <? t_turn t) || p_restored p
      || (bool_decide (jget "name" (v_data (p_call p)) = JStr "skill.load") && negb (is_error (p_result p)))
      || mentions EVIDENCE (pair_text (p_call p) (p_result p))
      || existsb (fun c => bool_decide (v_turnId c = Some (p_turnId p))) (b_pending b)
      || existsb (fun r => (0 <? slen r) && (contains r (b_assistant b) || existsb (fun c => contains r (stringify (args c))) (b_pending b))) (references p)
  end.

(** One event more, of a call or of a result. *)
(* @src session/pruning.ts 34 44 view *)
Definition view_step (vis : list Visibility) (b : Boundary) (acc : gmap string EventRecord * list ToolPair) (v : EventRecord) : gmap string EventRecord * list ToolPair :=
  let '(pending, pairs) := acc in
  if String.eqb (v_type v) "tool.call" then (<[pair_key v := v]> pending, pairs)
  else
    match pending !! pair_key v with
    | None => acc
    | Some call =>
        match v_turnId call with
        | None => acc
        | Some t =>
            if is_empty t then acc
            else
              let ref := event_ref (v_seq call) in
              let state := bfind (fun z => String.eqb (z_ref z) ref) vis in
              let pair := {| p_ref := ref; p_turnId := t; p_call := call; p_result := v; p_text := pair_text call v;
                             p_hidden := match state with Some z => z_hidden z | None => false end;
                             p_restored := match state with Some z => negb (z_hidden z) | None => false end; p_reason := z_reason <$> state |} in
              let hidden := p_hidden pair && negb (protected pair b) in
              let text := if hidden then prunedText pair (match state with Some z => if String.eqb (z_mode z) "truncate" then "truncate" else "drop" | None => "drop" end) else p_text pair in
              (delete (pair_key v) pending,
               pairs ++ [{| p_ref := ref; p_turnId := t; p_call := call; p_result := v; p_text := text; p_hidden := hidden; p_restored := p_restored pair; p_reason := p_reason pair |}])
        end
    end.

(* @src session/pruning.ts 29 47 view *)
Definition view (id : string) (st : Store) : list ToolPair :=
  (fold_left (view_step (toolVisibility id st) (boundary id st)) (contextToolEvents id (rows st)) (∅, [])).2.

(* @src session/pruning.ts 73 80 restore *)
Definition restore (id ref : string) (st : Store) : bool * Store :=
  match bfind (fun p => String.eqb (p_ref p) ref) (view id st), bfind (fun z => String.eqb (z_ref z) ref) (toolVisibility id st) with
  | Some _, Some z =>
      if z_hidden z
      then (true, set_visibility (recordToolRefetch id ref (setToolVisibility id ref false "explicit-restore" None (visibility st))) st)
      else (false, st)
  | _, _ => (false, st)
  end.

(** A hidden output, read back from the events. *)
(* @src session/pruning.ts 139 139 HiddenToolOutput *)
Record HiddenToolOutput : Type := { n_ref : string; n_reason : string; n_name : string; n_callId : string; n_turnId : string; n_args : js; n_output : string; n_isError : option bool }.

Definition call_key (v : EventRecord) : option string := t ← v_turnId v; if is_empty t then None else Some (t +:+ ":" +:+ js_string (jget "id" (v_data v))).

(* @src session/pruning.ts 143 159 hiddenToolOutputs *)
Definition hiddenToolOutputs (id : string) (st : Store) : list HiddenToolOutput :=
  let vis := bfilter z_hidden (toolVisibility id st) in
  let evs := toolEvents id (rows st) in
  let results : gmap string EventRecord :=
    fold_left (fun m v => if String.eqb (v_type v) "tool.result" then match call_key v with Some k => <[k := v]> m | None => m end else m) evs ∅ in
  omap (fun v =>
    z ← bfind (fun z => String.eqb (z_ref z) (event_ref (v_seq v))) vis;
    t ← v_turnId v;
    if negb (String.eqb (v_type v) "tool.call") || is_empty t then None
    else
      let result := results !! (t +:+ ":" +:+ js_string (jget "id" (v_data v))) in
      Some {| n_ref := event_ref (v_seq v); n_reason := z_reason z; n_name := js_string (jget "name" (v_data v)); n_callId := js_string (jget "id" (v_data v)); n_turnId := t;
              n_args := jget "args" (v_data v); n_output := js_string (nullish (match result with Some r => jget "output" (v_data r) | None => JUndef end) (JStr ""));
              n_isError := match result with Some r => match jget "isError" (v_data r) with JUndef => None | x => Some (truthy x) end | None => None end |}) evs.

(** ** What to hide *)

(** A foreign exception of a statement apart, a database with more tables behaves as one with fewer. *)
Definition on_core {A} (m : SE World SessionError A) : SE Store SessionError A := fun st => let '(r, w) := m (core st) in (r, set_core w st).

(* @src session/store.ts 274 280 #tx *)
Definition tx_store {A} (m : SE Store SessionError A) : SE Store SessionError A := fun st =>
  match m st with
  | (Ok a, st') => (Ok a, st')
  | (Err e, st') => (Err e, {| core := with_db (rows st) (core st'); visibility := visibility st; calibration := calibration st; usage := usage st |})
  end.

(* @src session/store.ts 916 923 setToolVisibilities *)
Fixpoint apply_changes (id : string) (l : list Change) : SE Store SessionError unit :=
  match l with
  | [] => mret tt
  | h :: r =>
      modify (fun st => set_visibility (setToolVisibility id (h_ref h) true (h_reason h) (h_detail h) (visibility st)) st) ;;
      match h_detail h with
      | Some d =>
          if is_empty (h_turnId h) then mret tt
          else
            row ← gets (fun st => getTurn (h_turnId h) (rows st));
            require (match row with Some t => String.eqb (t_session t) id && bool_decide (t_state t = Completed) | None => false end) (Refused Conflict "turn-not-running") ;;
            on_core (insertEvent clk id (Some (h_turnId h)) "compaction.prune"
              (JObj [("ref", JStr (h_ref h)); ("mode", JStr (d_mode d)); ("confidence", fraction (d_confidence d)); ("tokensSaved", JNum (Fin (d_tokensSaved d)))])) ;;
            mret tt
      | None => mret tt
      end ;;
      apply_changes id r
  end.

(* @src session/store.ts 915 924 setToolVisibilities *)
Definition setToolVisibilities (id : string) (l : list Change) : SE Store SessionError unit := tx_store (apply_changes id l).

(** How the decider answered. *)
Inductive Answer : Type := Threw | Unavailable | Answered (l : list Relevance) | Junk.

(** What a run meets at a batch: whether it was stopped or out of time before, how the decider answered and whether the run
    was stopped by then, the floor that is configured, and the database then. *)
Record Moment : Type := { o_late : bool; o_answer : Answer; o_aborted : bool; o_floor : Q; o_store : Store }.
Record Proposal : Type := { q_pair : ToolPair; q_reason : string; q_detail : option Detail }.

(* @src session/pruning.ts 104 104 #run *)
Definition heuristic (batch : list ToolPair) : list Relevance :=
  map (fun p => {| a_ref := p_ref p; a_relevant := JBool (slen (p_text p) <? 1024); a_reason := JStr "old-large-unreferenced"; a_verdict := JUndef; a_confidence := None |}) batch.

(* @src session/pruning.ts 111 111 #run *)
Definition valid_answer (batch : list ToolPair) (answer : list Relevance) : bool :=
  Nat.eqb (length answer) (length batch) && Nat.eqb (size (list_to_set (map a_ref answer) : gset string)) (length batch)
  && forallb (fun a => existsb (fun p => String.eqb (p_ref p) (a_ref a)) batch && js_is_bool (a_relevant a)
                       && match a_reason a with JStr s => negb (is_empty (trim s)) && (slen s <=? 256) | _ => false end) answer.

(** A verdict that is there must be to hide, and sure enough. *)
(* @src session/pruning.ts 119 119 #run *)
Definition verdict_admitted (floor : Q) (a : Relevance) : bool :=
  match a_verdict a with
  | JUndef => true
  | JStr v => includes ["truncate"; "drop"] v && match a_confidence a with Some c => Qle_bool floor c && Qle_bool c 1 | None => false end
  | _ => false
  end.

(* @src session/pruning.ts 121 121 #run *)
Definition detail_of (p : ToolPair) (a : Relevance) : option Detail :=
  match a_verdict a, a_confidence a with
  | JStr v, Some c => if is_empty v then None else
      Some {| d_mode := v; d_confidence := c; d_tokensSaved := Z.max 0 (quarter (p_text p) - quarter (prunedText p v)) |}
  | _, _ => None
  end.

Definition seen_before (id ref : string) (st : Store) : bool := existsb (fun z => String.eqb (z_ref z) ref) (toolVisibility id st).

(* @src session/pruning.ts 115 122 #run *)
Definition proposals (id : string) (batch : list ToolPair) (answer : list Relevance) (floor : Q) (st : Store) : list Proposal :=
  let fresh := boundary id st in
  omap (fun a =>
    p ← bfind (fun p => String.eqb (p_ref p) (a_ref a)) batch;
    if verdict_admitted floor a && negb (js_is_true (a_relevant a) || protected p fresh || seen_before id (p_ref p) st)
    then Some {| q_pair := p; q_reason := js_str (a_reason a); q_detail := detail_of p a |} else None) answer.

(** Whether another turn or event makes the work of a run stale. *)
Definition stale (id : string) (revision : option Z) (st : Store) : bool :=
  negb (bool_decide (t_id <$> runningTurn id (rows st) = None)) || negb (bool_decide (lastEventSeq id (rows st) = revision)).

(** The batches one after the other; none of a run that is to hide nothing. *)
(* @src session/pruning.ts 101 123 #run *)
Fixpoint propose (ask : bool) (id : string) (revision : option Z) (env : nat -> Moment) (i : nat) (batches : list (list ToolPair)) (st : Store) (acc : list Proposal) : option (list Proposal) * Store :=
  match batches with
  | [] => (Some acc, st)
  | batch :: rest =>
      let m := env i in
      if o_late m then (None, st)
      else
        let st := if ask then o_store m else st in
        let threw := ask && match o_answer m with Threw => true | _ => false end in
        if threw || (ask && o_aborted m) then (None, st)
        else
          let answer := if ask then match o_answer m with Answered l => Some l | Unavailable => Some (heuristic batch) | _ => None end else Some (heuristic batch) in
          match answer with
          | Some l =>
              if valid_answer batch l
              then if stale id revision st then (None, st) else propose ask id revision env (S i) rest st (acc ++ proposals id batch l (o_floor m) st)
              else propose ask id revision env (S i) rest st acc
          | None => propose ask id revision env (S i) rest st acc
          end
  end.

Fixpoint chunks {A} (n : nat) (fuel : nat) (l : list A) : list (list A) :=
  match fuel, l with
  | O, _ | _, [] => []
  | S f, _ => take n l :: chunks n f (drop n l)
  end.

(** [stopped] is the owner's signal at the start, [late] whether the run was stopped or out of time at its end. *)
(* @src session/pruning.ts 87 135 #run *)
Definition run (id : string) (stopped has_decider late : bool) (env : nat -> Moment) (st : Store) : result SessionError Z * Store :=
  if stopped || negb (enabled cfg) || bool_decide (decider cfg = Off) || negb (bool_decide (t_id <$> runningTurn id (rows st) = None))
     || existsb (fun p => String.eqb p.1 id) (reservations (core st))
  then (Ok 0, st)
  else
    let revision := lastEventSeq id (rows st) in
    let b := boundary id st in
    let candidates := bfilter (fun p => negb (p_hidden p) && negb (protected p b)) (view id st) in
    let ask := bool_decide (decider cfg = Laya) && has_decider in
    match candidates with
    | [] => (Ok 0, st)
    | _ =>
        match propose ask id revision env 0 (chunks (batchSize cfg) (length candidates) candidates) st [] with
        | (None, st) => (Ok 0, st)
        | (Some proposed, st) =>
            if late || stale id revision st || existsb (fun p => String.eqb p.1 id) (reservations (core st)) then (Ok 0, st)
            else
              let b := boundary id st in
              let changes := bfilter (fun q => negb (protected (q_pair q) b) && negb (seen_before id (p_ref (q_pair q)) st)) proposed in
              match setToolVisibilities id (map (fun q => {| h_ref := p_ref (q_pair q); h_turnId := p_turnId (q_pair q); h_reason := q_reason q; h_detail := q_detail q |}) changes) st with
              | (Ok _, st) => (Ok (Z.of_nat (length changes)), st)
              | (Err e, st) => (Err e, st)
              end
        end
    end.
End pruning.
