(* ===== verification/PruningSpec.v ===== *)
(** * What pruning leaves alone

    Hiding is a matter of the view: what is protected is shown whole, a pair that was
    restored stays, and a run hides nothing that became protected while it waited. *)

From S2P Require Import Prelude Session SessionPath SessionInv Pruning.
From Stdlib Require Import QArith.
From stdpp Require Import pretty.
#[local] Open Scope Z_scope.

Section spec.
Context (clk : nat -> Z) (sha256 : string -> string) (stringify : js -> string) (parse : string -> option js) (fraction : Q -> js) (cfg : PruneConfig).

Notation pair_text := (pair_text stringify).
Notation prunedText := (prunedText sha256 stringify).
Notation protected := (protected stringify parse cfg).
Notation view_step := (view_step sha256 stringify parse cfg).
Notation view := (Pruning.view sha256 stringify parse cfg).
Notation restore := (restore sha256 stringify parse cfg).
Notation run := (Pruning.run clk sha256 stringify parse fraction cfg).
Notation propose := (propose sha256 stringify parse cfg).
Notation proposals := (proposals sha256 stringify parse cfg).

(** ** The view, pair by pair *)

(** A call with its result. *)
Definition Raw : Type := EventRecord * EventRecord * string.
Definition raw_step (acc : gmap string EventRecord * list Raw) (v : EventRecord) : gmap string EventRecord * list Raw :=
  let '(pending, pairs) := acc in
  if String.eqb (v_type v) "tool.call" then (<[pair_key v := v]> pending, pairs)
  else match pending !! pair_key v with
       | None => acc
       | Some call => match v_turnId call with
                      | None => acc
                      | Some t => if is_empty t then acc else (delete (pair_key v) pending, pairs ++ [(call, v, t)])
                      end
       end.
Definition raw_pairs (l : list EventRecord) : list Raw := (fold_left raw_step l (∅, [])).2.

(** What is stored of a pair. *)
Definition state_of (vis : list Visibility) (x : Raw) : option Visibility := bfind (fun z => String.eqb (z_ref z) (event_ref (v_seq x.1.1))) vis.
Definition bare (vis : list Visibility) (x : Raw) : ToolPair :=
  let state := state_of vis x in
  {| p_ref := event_ref (v_seq x.1.1); p_turnId := x.2; p_call := x.1.1; p_result := x.1.2; p_text := pair_text x.1.1 x.1.2;
     p_hidden := match state with Some z => z_hidden z | None => false end;
     p_restored := match state with Some z => negb (z_hidden z) | None => false end; p_reason := z_reason <$> state |}.
Definition mode_of (state : option Visibility) : string := match state with Some z => if String.eqb (z_mode z) "truncate" then "truncate" else "drop" | None => "drop" end.
Definition render (vis : list Visibility) (b : Boundary) (x : Raw) : ToolPair :=
  let p := bare vis x in
  let hidden := p_hidden p && negb (protected p b) in
  {| p_ref := p_ref p; p_turnId := p_turnId p; p_call := p_call p; p_result := p_result p; p_text := if hidden then prunedText p (mode_of (state_of vis x)) else p_text p;
     p_hidden := hidden; p_restored := p_restored p; p_reason := p_reason p |}.

Lemma view_step_raw vis b pending rs v :
  view_step vis b (pending, map (render vis b) rs) v = ((raw_step (pending, rs) v).1, map (render vis b) (raw_step (pending, rs) v).2).
Proof.
  unfold Pruning.view_step, raw_step. destruct (String.eqb _ _); [done|]. destruct (pending !! pair_key v) as [call|]; [|done].
  destruct (v_turnId call) as [t|]; [|done]. destruct (is_empty t); [done|]. cbn [fst snd]. by rewrite map_app.
Qed.

Lemma view_raw id st : view id st = map (render (toolVisibility id st) (boundary id st)) (raw_pairs (contextToolEvents id (rows st))).
Proof.
  unfold Pruning.view, raw_pairs. generalize (contextToolEvents id (rows st)), (toolVisibility id st), (boundary id st). intros l vis b.
  change (∅, @nil ToolPair) with (∅ : gmap string EventRecord, map (render vis b) []). generalize (∅ : gmap string EventRecord), (@nil Raw).
  induction l as [|v l IH]; intros m rs; cbn [fold_left]; [done|]. rewrite view_step_raw. destruct (raw_step (m, rs) v) as [m' rs']. apply IH.
Qed.

(** What a pair is protected by is not its text, nor whether it is hidden. *)
Lemma protected_render vis b b' x : protected (render vis b x) b' = protected (bare vis x) b'.
Proof. reflexivity. Qed.

(** What an unprotected pair is. *)
Lemma protected_false p b : protected p b = false ->
  (exists t, t ∈ b_turns b /\ t_id t = p_turnId p /\ t_state t = Completed /\ t_turn t <= b_latest b - keepLastTurns cfg) /\
  p_restored p = false /\ mentions EVIDENCE (pair_text (p_call p) (p_result p)) = false /\ (jget "name" (v_data (p_call p)) = JStr "skill.load" -> is_error (p_result p) = true) /\
  (forall r, r ∈ references parse p -> r <> "" -> contains r (b_assistant b) = false).
Proof.
  unfold Pruning.protected. destruct (bfind _ (b_turns b)) as [t|] eqn:E; [|done]. apply bfind_some in E as [Ht Hid]. apply String.eqb_eq in Hid.
  intros H. repeat (apply orb_false_iff in H as [H ?]). bool_hyps. split; [exists t; split_and!; [done..|by destruct (decide (t_state t = Completed))|lia]|].
  split; [done|]. split; [done|]. split.
  - intros Hn. match goal with H : _ && _ = false |- _ => rewrite bool_decide_eq_true_2 in H by done end. by destruct (is_error (p_result p)).
  - intros r Hr Hne. match goal with H : existsb _ (references _ _) = false |- _ => pose proof (existsb_false_elem _ _ _ H Hr) as Hx end. cbn in Hx.
    apply andb_false_iff in Hx as [Hx|Hx]; [|by apply orb_false_iff in Hx as [? _]]. apply Z.ltb_ge in Hx. destruct r; [done|]. unfold slen in Hx. cbn in Hx. lia.
Qed.

(** Calls and results of a pair are events of one turn that was not undone, the call first. *)
Lemma raw_pairs_elem l x : x ∈ raw_pairs l -> x.1.1 ∈ l /\ x.1.2 ∈ l /\ v_turnId x.1.1 = Some x.2 /\ pair_key x.1.1 = pair_key x.1.2 /\ v_type x.1.1 = "tool.call" /\ v_type x.1.2 <> "tool.call".
Proof.
  unfold raw_pairs. set (P := fun (seen : list EventRecord) (acc : gmap string EventRecord * list Raw) =>
    (forall k v, acc.1 !! k = Some v -> v ∈ seen /\ pair_key v = k /\ v_type v = "tool.call") /\
    (forall x, x ∈ acc.2 -> x.1.1 ∈ seen /\ x.1.2 ∈ seen /\ v_turnId x.1.1 = Some x.2 /\ pair_key x.1.1 = pair_key x.1.2 /\ v_type x.1.1 = "tool.call" /\ v_type x.1.2 <> "tool.call")).
  assert (H : P l (fold_left raw_step l (∅, []))); [|by apply H].
  induction l as [|v l IH] using rev_ind; [split; [intros k v H; cbn in H; by rewrite lookup_empty in H|by intros y ?%elem_of_nil]|].
  rewrite fold_left_app. cbn [fold_left]. destruct (fold_left raw_step l (∅, [])) as [m rs]. destruct IH as [IH1 IH2]. cbn [fst snd] in *.
  assert (Hmono : forall y, y ∈ l -> y ∈ l ++ [v]) by (intros y Hy; apply elem_of_app; by left).
  assert (Hv : v ∈ l ++ [v]) by (apply elem_of_app; right; by left).
  assert (Hold : P (l ++ [v]) (m, rs)).
  { split; [intros k y (H1 & H2)%IH1; by auto|intros y (H1 & H2 & H3)%IH2; by auto]. }
  unfold raw_step. destruct (String.eqb_spec (v_type v) "tool.call") as [Et|Et].
  - split; [|apply Hold]. intros k y. cbn. destruct (decide (pair_key v = k)) as [<-|Hk]; [rewrite lookup_insert_eq; by intros [= <-]|rewrite lookup_insert_ne by done; apply Hold].
  - destruct (m !! pair_key v) as [call|] eqn:Em; [|done]. destruct (v_turnId call) as [t|] eqn:Etn; [|done]. destruct (is_empty t); [done|]. apply IH1 in Em as (H1 & H2 & H3). split.
    + intros k y Hy. cbn [fst] in Hy. apply lookup_delete_Some in Hy as [_ Hy]. exact (proj1 Hold k y Hy).
    + intros y [Hy| ->%list_elem_of_singleton]%elem_of_app; [by apply Hold|]. cbn. by split_and!; auto.
Qed.

(** What a view hides it may hide. A pair that is not shown whole has a row that says so, and is not protected: its
    turn is completed and not among the last ones that are kept, it does not speak of approvals, grants or policy, it
    loads no skill, and the last reply refers to nothing of it. Every other pair is shown whole, call and result. *)
Theorem view_hides_unprotected id st p : p ∈ view id st ->
  let whole := pair_text (p_call p) (p_result p) in
  v_turnId (p_call p) = Some (p_turnId p) /\ pair_key (p_call p) = pair_key (p_result p) /\ p_call p ∈ contextToolEvents id (rows st) /\ p_result p ∈ contextToolEvents id (rows st) /\
  if p_hidden p
  then (exists z, z ∈ toolVisibility id st /\ z_ref z = p_ref p /\ z_hidden z = true) /\
       (exists t, t ∈ listTurns id (rows st) /\ t_id t = p_turnId p /\ t_state t = Completed /\ t_turn t <= b_latest (boundary id st) - keepLastTurns cfg) /\
       mentions EVIDENCE whole = false /\ (jget "name" (v_data (p_call p)) = JStr "skill.load" -> is_error (p_result p) = true) /\
       (forall r, r ∈ references parse p -> r <> "" -> contains r (latestAssistantContext id (rows st)) = false)
  else p_text p = whole.
Proof.
  rewrite view_raw. intros (x & -> & Hx)%elem_of_map. apply raw_pairs_elem in Hx as (H1 & H2 & H3 & H4 & _). cbv zeta.
  split; [done|]. split; [done|]. split; [done|]. split; [done|].
  destruct (p_hidden (render (toolVisibility id st) (boundary id st) x)) eqn:Eh.
  - cbn in Eh. apply andb_true_iff in Eh as [Eh Ep]. apply negb_true_iff in Ep. split.
    + unfold state_of in Eh. destruct (bfind _ (toolVisibility id st)) as [z|] eqn:Ez; [|done]. apply bfind_some in Ez as [Hz Er]. apply String.eqb_eq in Er. by exists z.
    + destruct (protected_false _ _ Ep) as (Hd & _ & He & Hk & Hr). split; [exact Hd|]. split; [exact He|]. split; [exact Hk|exact Hr].
  - cbn in Eh |- *. by rewrite Eh.
Qed.

(** ** Restoring *)

Lemma insert_by_map {A} (le : A -> A -> bool) (f : A -> A) x l : (forall a b, le (f a) (f b) = le a b) -> insert_by le (f x) (map f l) = map f (insert_by le x l).
Proof. intros H. induction l as [|y l IH]; [done|]. cbn. rewrite H, IH. by destruct (le x y). Qed.

Lemma sort_by_map {A} (le : A -> A -> bool) (f : A -> A) l : (forall a b, le (f a) (f b) = le a b) -> sort_by le (map f l) = map f (sort_by le l).
Proof. intros H. unfold sort_by. induction l as [|x l IH]; [done|]. cbn. rewrite IH. by apply insert_by_map. Qed.

Lemma bfind_map {A} (p : A -> bool) (f : A -> A) l : (forall x, p (f x) = p x) -> bfind p (map f l) = f <$> bfind p l.
Proof. intros H. unfold bfind. induction l as [|x l IH]; [done|]. cbn. rewrite H. by destruct (p x). Qed.

Definition restored_row (id ref : string) (z : Visibility) : Visibility := if is_row id ref z then refetched (shown_as false "explicit-restore" z) else z.

Lemma restored_ref id ref z : z_ref (restored_row id ref z) = z_ref z /\ z_session (restored_row id ref z) = z_session z.
Proof. unfold restored_row. by destruct (is_row id ref z). Qed.

Lemma bfilter_still {A} (p : A -> bool) (f : A -> A) l : (forall x, p (f x) = p x) -> bfilter p (map f l) = map f (bfilter p l).
Proof. intros H. rewrite bfilter_map. f_equal. apply bfilter_ext. intros x _. apply H. Qed.

Lemma toolVisibility_map id f st : (forall z, z_ref (f z) = z_ref z /\ z_session (f z) = z_session z) ->
  toolVisibility id (set_visibility (map f (visibility st)) st) = map f (toolVisibility id st).
Proof.
  intros H. unfold toolVisibility. cbn [visibility set_visibility]. rewrite bfilter_still by (intros z; by destruct (H z) as [_ ->]).
  apply sort_by_map. intros a b. by destruct (H a) as [-> _], (H b) as [-> _].
Qed.

Lemma toolVisibility_elem id st z : z ∈ toolVisibility id st <-> z ∈ visibility st /\ z_session z = id.
Proof. unfold toolVisibility. rewrite sort_by_perm, bfilter_elem. by rewrite String.eqb_eq. Qed.

(** Restoring a hidden pair shows it whole, from then on: it is in the view with its text, and is protected from every
    later run. No other pair changes, and no row of a transcript; a pair that is not hidden is not restored. *)
Theorem restore_shows id ref st :
  match restore id ref st with
  | (true, st') =>
      (exists p, p ∈ view id st' /\ p_ref p = ref /\ p_hidden p = false /\ p_text p = pair_text (p_call p) (p_result p) /\ forall b, protected p b = true) /\
      (forall p, p ∈ view id st -> p_ref p <> ref -> p ∈ view id st') /\ core st' = core st
  | (false, st') => st' = st
  end.
Proof.
  unfold Pruning.restore. destruct (bfind (fun p => String.eqb (p_ref p) ref) (view id st)) as [p|] eqn:Ep; [|done].
  destruct (bfind _ (toolVisibility id st)) as [z|] eqn:Ez; [|done]. destruct (z_hidden z) eqn:Eh; [|done].
  apply bfind_some in Ez as Hz. destruct Hz as [Hz Hr]. apply toolVisibility_elem in Hz as [Hz Hs]. apply String.eqb_eq in Hr.
  assert (E : recordToolRefetch id ref (setToolVisibility id ref false "explicit-restore" None (visibility st)) = map (restored_row id ref) (visibility st)).
  { unfold setToolVisibility. rewrite (proj2 (existsb_elem (is_row id ref) _)) by (exists z; split; [done|unfold is_row; by rewrite Hs, Hr, !String.eqb_refl]).
    unfold recordToolRefetch, on_row. rewrite map_map. apply map_ext. intros y. unfold restored_row. destruct (is_row id ref y) eqn:Ey; [|by rewrite Ey].
    by replace (is_row id ref (shown_as false "explicit-restore" y)) with true. }
  rewrite E. clear E. pose proof (toolVisibility_map id (restored_row id ref) st (restored_ref id ref)) as Hv. set (st' := set_visibility _ st) in *.
  assert (Hb : boundary id st' = boundary id st) by done.
  assert (Hst : forall x, state_of (toolVisibility id st') x = restored_row id ref <$> state_of (toolVisibility id st) x).
  { intros x. unfold state_of. rewrite Hv. apply bfind_map. intros y. by destruct (restored_ref id ref y) as [-> _]. }
  split; [|split; [|done]].
  - apply bfind_some in Ep as [Hp Epr]. apply String.eqb_eq in Epr. rewrite view_raw in Hp. apply elem_of_map in Hp as (x & -> & Hx). cbn in Epr.
    exists (render (toolVisibility id st') (boundary id st) x).
    assert (Hx' : state_of (toolVisibility id st') x = Some (refetched (shown_as false "explicit-restore" z))).
    { rewrite Hst. unfold state_of. rewrite Epr, Ez. cbn. unfold restored_row, is_row. by rewrite Hs, Hr, !String.eqb_refl. }
    split; [rewrite view_raw, Hb; apply elem_of_map; by exists x|]. split; [done|]. unfold render, bare. rewrite !Hx'. cbn. split; [done|]. split; [done|].
    intros b. unfold Pruning.protected. cbn. destruct (bfind _ (b_turns b)); [|done]. by rewrite !orb_true_r.
  - intros q Hq Hne. rewrite view_raw in Hq |- *. rewrite Hb. apply elem_of_map in Hq as (x & -> & Hx). apply elem_of_map. exists x. split; [|done].
    assert (state_of (toolVisibility id st') x = state_of (toolVisibility id st) x) as Hsame.
    { clear Ez Ep. rewrite Hst. unfold state_of. destruct (bfind _ (toolVisibility id st)) as [y|] eqn:Ey; [|done]. cbn. f_equal. apply bfind_some in Ey as [_ Ey]. apply String.eqb_eq in Ey. cbn in Hne.
      unfold restored_row, is_row. destruct (String.eqb_spec (z_ref y) ref); [congruence|]. by rewrite andb_false_r. }
    unfold render, bare. by rewrite !Hsame.
Qed.

(** ** A run *)

Lemma propose_pairs ask id revision env i batches st acc acc' st' : propose ask id revision env i batches st acc = (Some acc', st') ->
  forall q, q ∈ acc' -> q ∈ acc \/ q_pair q ∈ concat batches.
Proof.
  intros H. revert i st acc H. induction batches as [|batch rest IH]; intros i st acc; cbn [Pruning.propose].
  - intros [= <- <-] q Hq. by left.
  - destruct (o_late (env i)); [done|]. destruct ((ask && _) || (ask && _)); [done|].
    destruct (if ask then _ else _) as [answer|].
    + destruct (valid_answer batch answer).
      * destruct (stale id revision _); [done|]. intros H q Hq. destruct (IH _ _ _ H q Hq) as [Hin|Hin]; [|right; apply elem_of_app; by right].
        apply elem_of_app in Hin as [Hin|Hin]; [by left|right]. apply elem_of_app. left. unfold Pruning.proposals in Hin.
        apply list_elem_of_omap in Hin as (a & _ & Ha). destruct (bfind _ batch) as [p|] eqn:Ep; [|done]. cbn in Ha. apply bfind_some in Ep as [Hp _].
        destruct (_ && _); [|done]. by injection Ha as <-.
      * intros H q Hq. destruct (IH _ _ _ H q Hq); [by left|right; apply elem_of_app; by right].
    + intros H q Hq. destruct (IH _ _ _ H q Hq); [by left|right; apply elem_of_app; by right].
Qed.

Lemma chunks_elem {A} n fuel (l : list A) x : x ∈ concat (chunks n fuel l) -> x ∈ l.
Proof.
  revert l. induction fuel as [|f IH]; intros l; cbn; [by intros ?%elem_of_nil|]. destruct l as [|y l]; [done|]. cbn [concat].
  rewrite <- (take_drop n (y :: l)) at 3. intros [H|H]%elem_of_app; apply elem_of_app; [by left|right; by apply IH].
Qed.

(** What the changes of a run do to the tables. *)
Lemma apply_changes_ok id l st u st' : apply_changes clk fraction id l st = (Ok u, st') ->
  visibility st' = fold_left (fun vis h => setToolVisibility id (h_ref h) true (h_reason h) (h_detail h) vis) l (visibility st) /\
  messages (rows st') = messages (rows st) /\ turns (rows st') = turns (rows st) /\ rewinds_tbl (rows st') = rewinds_tbl (rows st) /\
  exists more, events (rows st') = events (rows st) ++ more /\ Forall (fun v => v_session v = id /\ v_type v = "compaction.prune") more.
Proof.
  revert st. induction l as [|h l IH]; intros st H; cbn [apply_changes] in H.
  - injection H as _ <-. split_and!; [done..|]. exists []. split; [by rewrite app_nil_r|constructor].
  - apply SE_bind_ok in H as (u1 & st1 & H1 & H). injection H1 as _ <-. apply SE_bind_ok in H as (u2 & st2 & H2 & H).
    apply IH in H as (Hv & Hm & Ht & Hr & more & He & Hf). cbn [fold_left].
    assert (H2' : visibility st2 = setToolVisibility id (h_ref h) true (h_reason h) (h_detail h) (visibility st) /\ messages (rows st2) = messages (rows st) /\
      turns (rows st2) = turns (rows st) /\ rewinds_tbl (rows st2) = rewinds_tbl (rows st) /\
      exists more, events (rows st2) = events (rows st) ++ more /\ Forall (fun v => v_session v = id /\ v_type v = "compaction.prune") more).
    { destruct (h_detail h) as [d|]; [|injection H2 as _ <-; split_and!; [done..|]; exists []; split; [by rewrite app_nil_r|constructor]].
      destruct (is_empty (h_turnId h)); [injection H2 as _ <-; split_and!; [done..|]; exists []; split; [by rewrite app_nil_r|constructor]|].
      apply SE_bind_ok in H2 as (row & st3 & H3 & H2). injection H3 as <- <-. apply SE_bind_ok in H2 as (u3 & st3 & H3 & H2). apply require_ok in H3 as [_ <-].
      apply SE_bind_ok in H2 as (v & st4 & H4 & H2). injection H2 as _ <-. unfold on_core in H4. cbn [core set_visibility] in H4.
      destruct (insertEvent clk id _ _ _ (core st)) as [[v'|e] w] eqn:Ei; [|done]. injection H4 as <- <-. apply insertEvent_ok in Ei as (s & _ & Hs & _ & Hy & _ & _ & Hd & _).
      unfold rows. cbn [core set_core set_visibility visibility]. rewrite Hd. split_and!; [done..|]. eexists. split; [reflexivity|]. by repeat constructor. }
    destruct H2' as (Hv2 & Hm2 & Ht2 & Hr2 & more2 & He2 & Hf2). rewrite Hv, Hv2. split_and!; [done|congruence..|].
    exists (more2 ++ more). split; [by rewrite He, He2, app_assoc|by apply Forall_app].
Qed.

(** What may be hidden of a session [st] began with, when the database is [st1]. *)
Definition may_hide (id : string) (st st1 : Store) (p : ToolPair) : Prop :=
  p ∈ view id st /\ p_hidden p = false /\ seen_before id (p_ref p) st1 = false /\
  (exists t, t ∈ listTurns id (rows st1) /\ t_id t = p_turnId p /\ t_state t = Completed /\ t_turn t <= b_latest (boundary id st1) - keepLastTurns cfg) /\
  mentions EVIDENCE (pair_text (p_call p) (p_result p)) = false /\
  (forall r, r ∈ references parse p -> r <> "" -> contains r (latestAssistantContext id (rows st1)) = false) /\
  runningTurn id (rows st1) = None /\ lastEventSeq id (rows st1) = lastEventSeq id (rows st).

(** The database a run finds when it has waited [k] times for its decider: the one of that moment, as others left it. *)
Definition after_waiting (env : nat -> Moment) (st : Store) (k : nat) : Store := match k with O => st | S k => o_store (env k) end.

(** What a run does in one transaction to the database [st1] it finds at the end: the pairs [qs] are hidden, and the decisions recorded. *)
Definition hides (id : string) (st1 : Store) (qs : list Proposal) (st' : Store) : Prop :=
  (qs = [] -> st' = st1) /\
  visibility st' = fold_left (fun vis q => setToolVisibility id (p_ref (q_pair q)) true (q_reason q) (q_detail q) vis) qs (visibility st1) /\
  messages (rows st') = messages (rows st1) /\ turns (rows st') = turns (rows st1) /\ rewinds_tbl (rows st') = rewinds_tbl (rows st1) /\
  exists more, events (rows st') = events (rows st1) ++ more /\ Forall (fun v => v_session v = id /\ v_type v = "compaction.prune") more.

Lemma hides_nothing id st : hides id st [] st.
Proof. split_and!; try done. exists []. split; [by rewrite app_nil_r|constructor]. Qed.

Lemma propose_waits ask id revision env i batches st acc r st' : propose ask id revision env i batches st acc = (r, st') ->
  exists k, (k <= length batches)%nat /\ st' = if ask then match k with O => st | S k => o_store (env (i + k)%nat) end else st.
Proof.
  revert i st acc. induction batches as [|batch rest IH]; intros i st acc; cbn [Pruning.propose].
  - intros [= _ <-]. exists 0%nat. by destruct ask.
  - assert (Hhere : exists k, (k <= length (batch :: rest))%nat /\ (if ask then o_store (env i) else st) = if ask then match k with O => st | S k => o_store (env (i + k)%nat) end else st).
    { exists 1%nat. rewrite Nat.add_0_r. split; [cbn; lia|by destruct ask]. }
    assert (Hlater : forall acc', propose ask id revision env (S i) rest (if ask then o_store (env i) else st) acc' = (r, st') ->
      exists k, (k <= length (batch :: rest))%nat /\ st' = if ask then match k with O => st | S k => o_store (env (i + k)%nat) end else st).
    { intros acc' (k & Hk & ->)%IH. exists (S k). split; [cbn; lia|]. destruct ask; [|done]. destruct k as [|k]; [by rewrite Nat.add_0_r|]. by replace (S i + k)%nat with (i + S k)%nat by lia. }
    destruct (o_late (env i)); [intros [= _ <-]; exists 0%nat; split; [lia|by destruct ask]|]. cbv zeta. destruct (_ || _); [intros [= _ <-]; exact Hhere|].
    repeat case_match; first [by apply Hlater|intros [= _ <-]; exact Hhere].
Qed.

(** (C33) A run hides only what nothing protects when it is done. A run that ends well changes the database only in one step at
    its end, of the state in which it then finds it (the one it began with or, when it waited for a decider, the one the last
    wait left), and hides exactly as many pairs as it says; when it was stopped or ran out of time, none. Each pair it hides was in
    the view when it began, and at the moment of hiding its turn is completed and not among the last ones that are kept, it
    was never hidden or restored before, it does not speak of approvals, grants or policy, and the last reply refers to
    nothing of it; no turn runs, and no event came since the run began. No message, turn or rewind changes, and the events
    it adds are those of its decisions. *)
Theorem run_hides_unprotected id stopped has late env st n st' : run id stopped has late env st = (Ok n, st') ->
  exists k qs, let st1 := after_waiting env st k in
    n = Z.of_nat (length qs) /\ hides id st1 qs st' /\ (stopped = true \/ late = true -> qs = []) /\ forall q, q ∈ qs -> may_hide id st st1 (q_pair q).
Proof.
  intros H. assert (Hnone : forall k, n = 0 -> st' = after_waiting env st k -> exists k qs, let st1 := after_waiting env st k in
    n = Z.of_nat (length qs) /\ hides id st1 qs st' /\ (stopped = true \/ late = true -> qs = []) /\ forall q, q ∈ qs -> may_hide id st st1 (q_pair q)).
  { intros k -> ->. exists k, []. split; [done|]. split; [apply hides_nothing|]. split; [done|by intros q ?%elem_of_nil]. }
  unfold Pruning.run in H. destruct (stopped || _ || _ || _ || _) eqn:Eo; [injection H as <- <-; by apply (Hnone 0%nat)|].
  cbv zeta in H. set (candidates := bfilter (fun p => negb (p_hidden p) && negb (protected p (boundary id st))) (view id st)) in *.
  destruct candidates as [|c0 cs] eqn:Ec; [injection H as <- <-; by apply (Hnone 0%nat)|]. rewrite <- Ec in H.
  destruct (propose _ _ _ _ _ _ _ _) as [proposed st1] eqn:Ep.
  assert (Hk : exists k, st1 = after_waiting env st k).
  { destruct (propose_waits _ _ _ _ _ _ _ _ _ _ Ep) as (k & _ & ->). destruct (_ && _); [exists k; by destruct k|by exists 0%nat]. }
  destruct Hk as [k Hk]. destruct proposed as [proposed|]; [|injection H as <- <-; by apply (Hnone k)].
  destruct (late || stale id (lastEventSeq id (rows st)) st1 || _) eqn:El; [injection H as <- <-; by apply (Hnone k)|].
  set (qs := bfilter _ proposed) in H. destruct (setToolVisibilities _ _ _ _ _) as [[u|e] st2] eqn:Es; [|done]. injection H as <- <-.
  unfold setToolVisibilities, tx_store in Es. destruct (apply_changes _ _ _ _ st1) as [[u'|e] st3] eqn:Ea; [|done]. injection Es as _ <-.
  pose proof Ea as Hok. apply apply_changes_ok in Hok as (Hv & Hrest). exists k, qs. rewrite <- Hk. split; [done|]. split; [split; [|split; [|done]]|split].
  - intros Hq. rewrite Hq in Ea. by injection Ea as _ <-.
  - rewrite Hv. clear. generalize (visibility st1). induction qs as [|q l IH]; intros vis; [done|]. apply IH.
  - repeat (apply orb_false_iff in Eo as [Eo ?]). repeat (apply orb_false_iff in El as [El ?]). intros [?|?]; congruence.
  - intros q [Hq Hf]%bfilter_elem. destruct (propose_pairs _ _ _ _ _ _ _ _ _ _ Ep q Hq) as [?%elem_of_nil|Hp]; [done|]. apply chunks_elem in Hp.
    unfold candidates in Hp. apply bfilter_elem in Hp as [Hp Hc]. bool_hyps. unfold stale in *. bool_hyps.
    match goal with H : protected (q_pair q) (boundary id st1) = false |- _ => apply protected_false in H as (Ht & _ & He & _ & Hr) end.
    split_and!; [done|done|done|exact Ht|exact He|exact Hr|by eapply fmap_None|done].
Qed.
End spec.
