(* ===== verification/Compaction.v ===== *)
(** * Context views within a model's window

    Model of [packages/core/src/session/compaction.ts] with [session/tokens.ts]: how
    many tokens a text is counted as, the view of a session a model is given (applied
    summaries and the messages they do not cover, each cut to a size), the summary of
    its oldest turns that replaces them, and the bound no view exceeds. Texts are
    sequences of code units; the ellipsis of a marker is one of them. *)

From S2P Require Import Prelude Double Session SessionPath Pruning.
From Stdlib Require Import QArith Qround.
From stdpp Require Import pretty.
#[local] Open Scope Z_scope.

(** ** Counting *)

(* @src session/compaction.ts 30 30 estimateTokens *)
Definition estimateTokens (text : string) : Z := quarter text.

(* @src session/tokens.ts 12 15 TokenMeter.count *)
Definition meter_count (factor : Q) (text : string) (measured : option Z) : Z :=
  match measured with
  | Some n => if safe_int n && (0 <=? n) then n else Qceiling (fmul (inject_Z (estimateTokens text)) factor)
  | None => Qceiling (fmul (inject_Z (estimateTokens text)) factor)
  end.

(* @src session/store.ts 890 890 tokenCalibration *)
Definition tokenCalibration (model : string) (st : Store) : option Q := calibration st !! model.
(* @src session/store.ts 891 891 tokenFactor *)
Definition tokenFactor (model : string) (st : Store) : Q := default 1%Q (tokenCalibration model st).
(* @src session/store.ts 892 892 setTokenFactor *)
Definition setTokenFactor (model : string) (factor : Q) (st : Store) : Store :=
  {| core := core st; visibility := visibility st; calibration := <[model := factor]> (calibration st); usage := usage st |}.
(* @src session/store.ts 893 893 recordMessageUsage *)
Definition recordMessageUsage (id model : string) (tokens : Z) (st : Store) : Store :=
  {| core := core st; visibility := visibility st; calibration := calibration st;
     usage := bfilter (fun u => negb (String.eqb (u_message u) id)) (usage st) ++ [{| u_message := id; u_model := model; u_tokens := tokens |}] |}.
(* @src session/store.ts 894 894 messageUsage *)
Definition messageUsage (id model text : string) (st : Store) : option Z :=
  u_tokens <$> bfind (fun u => String.eqb (u_message u) id && String.eqb (u_model u) model
    && existsb (fun m => String.eqb (m_id m) id && String.eqb (m_text m) text) (messages (rows st))) (usage st).

Definition Qmin' (a b : Q) : Q := if Qle_bool a b then a else b.
Definition Qmax' (a b : Q) : Q := if Qle_bool a b then b else a.

(** How far estimate and measure are apart, between a quarter and sixteen; a number that is not finite is none. *)
(* @src session/tokens.ts 16 21 TokenMeter.observe *)
Definition observe (model : string) (estimated : option Q) (measured : Z) (st : Store) : Store :=
  match estimated with
  | None => st
  | Some e =>
      if is_empty model || Qle_bool e 0 || negb (safe_int measured) || (measured <=? 0) then st
      else
        let ratio := Qmin' 16 (Qmax' (1 # 4) (fdiv (inject_Z measured) e)) in
        setTokenFactor model (match tokenCalibration model st with
                              | None => ratio
                              | Some prior => fl (fmul (fl (8 # 10)) prior + fmul (fl (2 # 10)) ratio)
                              end) st
  end.

(** ** Cutting *)

(** [text.slice(0, n)] and [text.split("\n")] with [join] *)
Definition slice (n : Z) (s : string) : string := slice_to (Z.max 0 n) s.
Fixpoint lines_of (l : list Ascii.ascii) : list string :=
  match l with
  | [] => [""]
  | c :: r =>
      if Ascii.eqb c (Ascii.ascii_of_nat 10) then "" :: lines_of r
      else match lines_of r with [] => [String c ""] | s :: t => String c s :: t end
  end.
Definition split_lines (s : string) : list string := lines_of (chars s).
Definition join_lines (l : list string) : string := String.concat NL l.

(* @src session/compaction.ts 32 38 truncateWithPointer *)
Definition truncateWithPointer (text : string) (maxTokens : Z) (pointer : string) : string * bool :=
  if estimateTokens text <=? maxTokens then (text, false)
  else
    let note := NL +:+ "[truncated " +:+ pretty (slen text) +:+ " chars; " +:+ pointer +:+ "]" in
    let room := Z.max 0 (maxTokens * 4 - slen note) in
    (slice (maxTokens * 4) (slice room text +:+ note), true).

(** Runs of white space as one space, none at the ends. *)
(* @src session/compaction.ts 69 69 oneLine *)
Definition oneLine (s : string) : string :=
  trim (of_chars ((fix go (space : bool) (l : list Ascii.ascii) : list Ascii.ascii :=
    match l with
    | [] => []
    | c :: r => if is_space c then (if space then go true r else Ascii.ascii_of_nat 32 :: go true r) else c :: go false r
    end) false (chars s))).

(* @src session/compaction.ts 64 64 LINE_CHARS *)
Definition LINE_CHARS : Z := 160.
(* @src session/compaction.ts 67 68 SKILL_LOAD *)
Definition SKILL_LOAD : string := "skill.load".
Definition MAX_WHOLE_SKILL_PAIR_CHARS : Z := 256 * 1024.

Definition role_name (r : MessageRole) : string := match r with RSystem => "system" | RUser => "user" | RAssistant => "assistant" | RTool => "tool" end.

(** A line of a digest: who said it, its number, and how it begins. *)
Definition Said : Type := MessageRole * string * Z.
(* @src session/compaction.ts 72 74 digest *)
Definition digest (l : list Said) : string :=
  join_lines (map (fun m => role_name m.1.1 +:+ "#" +:+ pretty m.2 +:+ ": " +:+ slice LINE_CHARS (oneLine m.1.2)) l).

(** ** Views *)

(* @src session/compaction.ts 11 23 CompactionConfig *)
Record Config : Type := {
  windowTokens : Z; summarizer_digest : bool; softRatio : Q; hardRatio : Q; summaryMaxTokens : Z; maxMessageTokens : Z
}.
(* @src session/compaction.ts 52 56 ContextView *)
Record Shown : Type := { x_id : string; x_role : MessageRole; x_text : string; x_seq : Z; x_turnId : option string; x_toolCall : option (string * string * bool) }.
(* @src session/compaction.ts 61 61 ContextView *)
Inductive Checkpoint : Type := Done | FailedCheckpoint | Skipped.
Record Swap : Type := { w_swapped : bool; w_range : option (Z * Z); w_checkpoint : option Checkpoint }.
(* @src session/compaction.ts 50 62 ContextView *)
Record ContextView : Type := {
  v_summaries : list SummaryRecord; v_messages : list Shown; v_tokens : Z; v_hidden : list (string * option string); v_clipped : Z;
  v_swap : Swap; v_before : option Z
}.
Definition no_swap : Swap := {| w_swapped := false; w_range := None; w_checkpoint := None |}.

(* @src session/compaction.ts 25 27 defaultCompaction *)
Definition defaultCompaction (w : Z) : Config :=
  {| windowTokens := w; summarizer_digest := false; softRatio := fl (65 # 100); hardRatio := fl (88 # 100);
     summaryMaxTokens := Qfloor (fmul (inject_Z w) (fl (15 # 100))); maxMessageTokens := Qfloor (fmul (inject_Z w) (fl (1 # 10))) |}.

(* @src session/compaction.ts 103 103 Compactor *)
Definition valid_config (c : Config) : bool :=
  safe_int (windowTokens c) && (0 <? windowTokens c) && safe_int (maxMessageTokens c) && (0 <=? maxMessageTokens c) && safe_int (summaryMaxTokens c) && (0 <=? summaryMaxTokens c)
  && negb (Qle_bool (softRatio c) 0) && negb (Qle_bool (hardRatio c) (softRatio c)) && negb (Qle_bool 1 (hardRatio c)).

Section compaction.
Context (clk : nat -> Z) (newId_at : string -> nat -> string) (sha256 : string -> string) (stringify : js -> string) (parse : string -> option js).
(** The code unit of the ellipsis; the pruner of tool output, if there is one; the configuration, and the models of sessions. *)
Context (ELLIPSIS : Ascii.ascii) (pruner : option PruneConfig) (cfg : Config) (models : gmap string (string * Config)).

(* @src session/compaction.ts 81 81 fitTail *)
Definition elided (dropped : Z) : string := "[" +:+ String ELLIPSIS "" +:+ " " +:+ pretty dropped +:+ " earlier lines elided]".

(* @src session/compaction.ts 82 82 fitTail *)
Fixpoint drop_lines (dropped : Z) (lines : list string) (maxTokens : Z) : Z * list string :=
  match lines with
  | [] => (dropped, [])
  | _ :: r => if maxTokens <? estimateTokens (join_lines (elided dropped :: lines)) then drop_lines (dropped + 1) r maxTokens else (dropped, lines)
  end.

(* @src session/compaction.ts 78 85 fitTail *)
Definition fitTail (text : string) (maxTokens : Z) : string :=
  if estimateTokens text <=? maxTokens then text
  else
    let '(dropped, lines) := drop_lines 0 (split_lines text) maxTokens in
    let out := join_lines (elided dropped :: lines) in
    if estimateTokens out <=? maxTokens then out else slice (Z.max (maxTokens * 4) 0) out.

(* @src session/compaction.ts 95 98 configureModel *)
Definition configureModel (id model : string) (window : option Z) (ms : gmap string (string * Config)) : gmap string (string * Config) :=
  let c := match window with
           | Some w => if w =? 0 then cfg else
               {| windowTokens := w; summarizer_digest := summarizer_digest cfg; softRatio := softRatio cfg; hardRatio := hardRatio cfg;
                  summaryMaxTokens := Z.min (summaryMaxTokens cfg) (Qfloor (fmul (inject_Z w) (fl (15 # 100))));
                  maxMessageTokens := Z.min (maxMessageTokens cfg) (Qfloor (fmul (inject_Z w) (fl (1 # 10)))) |}
           | None => cfg
           end in <[id := (model, c)]> ms.

(* @src session/compaction.ts 99 99 configFor *)
Definition configFor (id : string) : Config := match models !! id with Some p => p.2 | None => cfg end.
Definition model_of (id : string) : string := match models !! id with Some p => p.1 | None => "" end.
Definition factor_of (id : string) (st : Store) : Q := tokenFactor (model_of id) st.

(* @src session/compaction.ts 100 100 count *)
Definition count (id text : string) (message : option string) (st : Store) : Z :=
  meter_count (factor_of id st) text (match message with Some m => if is_empty m then None else messageUsage m (model_of id) text st | None => None end).

(* @src session/compaction.ts 178 178 prepare *)
Definition hardLimit (id : string) : Z := Qfloor (fmul (inject_Z (windowTokens (configFor id))) (hardRatio (configFor id))).
(* @src session/compaction.ts 207 207 afterTurn *)
Definition softLimit (id : string) : Z := Qfloor (fmul (inject_Z (windowTokens (configFor id))) (softRatio (configFor id))).

Definition summary_range (y : SummaryRecord) : Z * Z := (y_fromSeq y, y_toSeq y).
(** [b] covers more than [a] and all of it. *)
Definition wider (b a : SummaryRecord) : bool :=
  negb (String.eqb (y_id b) (y_id a)) && (y_fromSeq b <=? y_fromSeq a) && (y_toSeq a <=? y_toSeq b) && ((y_fromSeq b <? y_fromSeq a) || (y_toSeq a <? y_toSeq b)).

(* @src session/compaction.ts 110 116 #applied *)
Definition applied (id : string) (d : Db) : list SummaryRecord :=
  let l := activeSummaries summary_range (listSummaries id (Some Applied) d) (summaryRewinds id d) in
  bfilter (fun a => negb (existsb (fun b => wider b a) l)) l.
(* @src session/compaction.ts 117 119 #prepared *)
Definition prepared (id : string) (d : Db) : list SummaryRecord := activeSummaries summary_range (listSummaries id (Some Prepared) d) (summaryRewinds id d).

Definition covers (l : list SummaryRecord) (seq : Z) : bool := existsb (fun y => (y_fromSeq y <=? seq) && (seq <=? y_toSeq y)) l.

(** The end of the prefix that summaries, in the order of their starts, cover without a gap. *)
(* @src session/compaction.ts 132 135 view *)
Fixpoint prefix_end (afterSeq : Z) (l : list SummaryRecord) : Z :=
  match l with
  | [] => afterSeq
  | y :: r => if afterSeq + 1 <? y_fromSeq y then afterSeq else prefix_end (Z.max afterSeq (y_toSeq y)) r
  end.

Definition pairs_of (id : string) (st : Store) : list ToolPair :=
  match pruner with Some c => Pruning.view sha256 stringify parse c id st | None => [] end.

(** A message as the view shows it. *)
(* @src session/compaction.ts 139 144 view *)
Definition show_message (c : Config) (lessons : list string) (m : MessageRecord) : Shown * bool :=
  let '(text, cut) := truncateWithPointer (m_text m) (maxMessageTokens c) ("full text is message " +:+ m_id m +:+ " in the session transcript") in
  ({| x_id := m_id m; x_role := if includes lessons (m_id m) then RUser else m_role m; x_text := text; x_seq := m_seq m; x_turnId := m_turnId m; x_toolCall := None |}, cut).

Definition turn_start (source : list MessageRecord) (turn : option string) : option MessageRecord := bfind (fun m => bool_decide (m_turnId m = turn)) source.

(** A pair of a call and its result, at the start of its turn. *)
(* @src session/compaction.ts 146 154 view *)
Definition show_pair (c : Config) (l : list SummaryRecord) (source : list MessageRecord) (p : ToolPair) : option (Shown * bool) :=
  match turn_start source (Some (p_turnId p)) with
  | None => None
  | Some first =>
      if covers l (m_seq first) && negb (p_restored p) then None
      else
        let name := jget "name" (v_data (p_call p)) in
        let whole := bool_decide (name = JStr SKILL_LOAD) && negb (p_hidden p) && negb (is_error (p_result p)) && (slen (p_text p) <=? MAX_WHOLE_SKILL_PAIR_CHARS) in
        let '(text, cut) := if whole then (p_text p, false)
                            else truncateWithPointer (p_text p) (maxMessageTokens c) ("originals " +:+ p_ref p +:+ ", " +:+ event_ref (v_seq (p_result p))) in
        Some ({| x_id := p_ref p; x_role := RTool; x_text := text; x_seq := m_seq first; x_turnId := Some (p_turnId p);
                 x_toolCall := Some (js_string (jget "id" (v_data (p_call p))), js_string name, negb (p_hidden p) && negb cut) |}, cut)
  end.

(** A call that no result has come for. *)
(* @src session/compaction.ts 158 164 view *)
Definition show_call (c : Config) (l : list SummaryRecord) (source : list MessageRecord) (paired : list string) (v : EventRecord) : option (Shown * bool) :=
  let ref := event_ref (v_seq v) in
  if negb (String.eqb (v_type v) "tool.call") || includes paired ref then None
  else
    match turn_start source (v_turnId v) with
    | None => None
    | Some first =>
        if covers l (m_seq first) then None
        else
          let '(text, cut) := truncateWithPointer (stringify (JObj [("call", v_data v); ("result", JStr "pending")])) (maxMessageTokens c) ("original call " +:+ ref) in
          Some ({| x_id := ref; x_role := RTool; x_text := text; x_seq := m_seq first; x_turnId := v_turnId v; x_toolCall := None |}, cut)
    end.

Definition shown_tokens (id : string) (st : Store) (l : list Shown) : Z := zsum (fun m => count id (x_text m) (Some (x_id m)) st) l.

(** Where the transcript is read from: after the prefix that is covered, unless a tool reference was restored. *)
(* @src session/compaction.ts 128 136 view *)
Definition read_after (id : string) (st : Store) : Z :=
  if existsb p_restored (pairs_of id st) then 0 else prefix_end 0 (sort_by (fun a b => y_fromSeq a <=? y_fromSeq b) (applied id (rows st))).

(* @src session/compaction.ts 122 169 view *)
Definition view (id : string) (st : Store) : ContextView :=
  let c := configFor id in
  let summaries := applied id (rows st) in
  let pairs := pairs_of id st in
  let source := contextMessages id (read_after id st) (rows st) in
  let lessons := omap r_lessonMessageId (rewinds id (rows st)) in
  let shown := map (show_message c lessons) (bfilter (fun m => negb (covers summaries (m_seq m))) source)
               ++ omap (show_pair c summaries source) pairs
               ++ omap (show_call c summaries source (map p_ref pairs)) (contextToolEvents id (rows st)) in
  let ms := sort_by (fun a b => x_seq a <=? x_seq b) (map fst shown) in
  {| v_summaries := summaries; v_messages := ms;
     v_tokens := zsum (fun y => count id (y_text y) None st) summaries + shown_tokens id st ms;
     v_hidden := map (fun p => (p_ref p, p_reason p)) (bfilter p_hidden pairs);
     v_clipped := Z.of_nat (length (bfilter snd shown)); v_swap := no_swap; v_before := None |}.

(** ** The oldest turns *)

(** Consecutive messages of one turn go together; a message of no turn goes alone. *)
(* @src session/compaction.ts 235 238 #segment *)
Definition push_group (gs : list (list Shown)) (m : Shown) : list (list Shown) :=
  match list.last gs with
  | Some (x :: g) => if bool_decide (x_turnId x = x_turnId m) && bool_decide (x_turnId m <> None) then removelast gs ++ [(x :: g) ++ [m]] else gs ++ [[m]]
  | _ => gs ++ [[m]]
  end.
Definition groups (l : list Shown) : list (list Shown) := fold_left push_group l [].

(** A summary records one range: groups are cut while what is left is above the target, up to a gap that a rewind left. *)
(* @src session/compaction.ts 242 249 #segment *)
Fixpoint cut_groups (id : string) (st : Store) (gaps : list (Z * Z)) (target tokens : Z) (gs : list (list Shown)) (cut : list Shown) : list Shown :=
  match gs with
  | [] => cut
  | g :: r =>
      if target <? tokens
      then
        match cut ++ g, list.last g with
        | first :: _, Some newest =>
            if existsb (overlaps (x_seq first) (x_seq newest)) gaps then cut
            else cut_groups id st gaps target (tokens - shown_tokens id st g) r (cut ++ g)
        | _, _ => cut
        end
      else cut
  end.

Record Segment : Type := { g_messages : list Shown; g_from : Z; g_to : Z }.

(* @src session/compaction.ts 233 252 #segment *)
Definition segment (id : string) (v : ContextView) (st : Store) : option Segment :=
  let c := configFor id in
  let gs := groups (v_messages v) in
  if (length gs <? 2)%nat then None
  else
    let target := Qfloor (fmul (fmul (inject_Z (windowTokens c)) (softRatio c)) (1 # 2)) in
    let cut := cut_groups id st (summaryRewinds id (rows st)) target (v_tokens v) (removelast gs) [] in
    match cut, list.last cut with
    | first :: _, Some newest => Some {| g_messages := cut; g_from := x_seq first; g_to := x_seq newest |}
    | _, _ => None
    end.

(* @src session/compaction.ts 254 259 #mergeable *)
Definition mergeable (id : string) (l : list SummaryRecord) (seg : Segment) (d : Db) : list SummaryRecord :=
  let gaps := summaryRewinds id d in
  bfilter (fun y => (y_toSeq y <? g_from seg) && negb (existsb (overlaps (y_fromSeq y) (g_to seg)) gaps)) l.

(* @src session/compaction.ts 261 264 #marked *)
Definition marked (body : string) (from to max : Z) : string :=
  let marker := "[summary; originals messages " +:+ pretty from +:+ "-" +:+ pretty to +:+ " in transcript]" +:+ NL in
  slice (Z.max 0 (max * 4)) (marker +:+ fitTail body (Z.max 0 (max - estimateTokens marker))).

(** Where a summary of a segment and of the summaries it takes in starts, and its tier. *)
Definition start_of (older : list SummaryRecord) (seg : Segment) : Z :=
  match older with [] => g_from seg | y :: r => fold_left (fun n y => Z.min n (y_fromSeq y)) r (y_fromSeq y) end.
Definition tier_of (older : list SummaryRecord) : Z := fold_left (fun n y => Z.max n (y_tier y + 1)) older 1.
Definition said (m : Shown) : Said := (x_role m, x_text m, x_seq m).
Definition summary_room (id : string) (st : Store) : Z := Qfloor (fdiv (inject_Z (summaryMaxTokens (configFor id))) (factor_of id st)).

(** What the pauses bring: the outcome of the checkpoint, if there is one to wait for, and the database afterwards; what
    others do to the database before the caller of a swap goes on. *)
Record Pause : Type := { s_outcome : option Checkpoint; s_store : Store; s_resume : Store -> Store }.

(* @src session/compaction.ts 266 288 #swap *)
Definition swap (id : string) (v : ContextView) (pause : Pause) : SE Store SessionError Swap := fun st =>
  match segment id v st with
  | None => (Ok no_swap, st)
  | Some seg =>
      let revision := lastEventSeq id (rows st) in
      let checkpoint := default Skipped (s_outcome pause) in
      let st := match s_outcome pause with Some _ => s_store pause | None => st end in
      if negb (bool_decide (lastEventSeq id (rows st) = revision)) then (Ok no_swap, st)
      else
        let older := mergeable id (v_summaries v) seg (rows st) in
        let from := start_of older seg in
        let ready := bfind (fun y => (y_toSeq y <=? g_to seg) && (y_fromSeq y =? from)) (prepared id (rows st)) in
        let text := match ready with
                    | Some y => join_lines [y_text y; digest (map said (bfilter (fun m => y_toSeq y <? x_seq m) (g_messages seg)))]
                    | None => join_lines (map y_text older ++ [digest (map said (g_messages seg))])
                    end in
        let merged := marked text from (g_to seg) (summary_room id st) in
        let gone := map y_id older ++ map y_id (bfilter (fun y => (from <=? y_fromSeq y) && (y_toSeq y <=? g_to seg)) (prepared id (rows st))) in
        match on_core (replaceSummaries clk newId_at gone id from (g_to seg) merged (count id merged None st) (tier_of older) Applied) st with
        | (Ok _, st) => (Ok {| w_swapped := true; w_range := Some (g_from seg, g_to seg); w_checkpoint := Some checkpoint |}, st)
        | (Err e, st) => (Err e, st)
        end
  end.

(** ** Keeping the bound *)

(** The oldest messages leave the view until it fits, but for the newest. *)
(* @src session/compaction.ts 186 188 prepare *)
Fixpoint drop_oldest (id : string) (st : Store) (limit tokens clipped : Z) (l : list Shown) : Z * Z * list Shown :=
  match l with
  | [] => (tokens, clipped, l)
  | m :: r =>
      match r with
      | [] => (tokens, clipped, l)
      | _ => if limit <? tokens then drop_oldest id st limit (tokens - count id (x_text m) (Some (x_id m)) st) (clipped + 1) r else (tokens, clipped, l)
      end
  end.

(* @src session/compaction.ts 191 194 prepare *)
Definition last_resort (id : string) (st : Store) (limit : Z) (l : list Shown) : list Shown :=
  match list.last l with
  | None => []
  | Some m =>
      [{| x_id := x_id m; x_role := x_role m; x_text := fitTail (x_text m) (Z.max 0 (Qfloor (fdiv (inject_Z limit) (factor_of id st))));
          x_seq := x_seq m; x_turnId := x_turnId m; x_toolCall := x_toolCall m |}]
  end.

(** A view cut down to the limit. *)
(* @src session/compaction.ts 183 197 prepare *)
Definition bounded (id : string) (limit before : Z) (s : Swap) (v : ContextView) (st : Store) : ContextView :=
  let '(tokens, clipped, ms) := drop_oldest id st limit (v_tokens v) (v_clipped v) (v_messages v) in
  if limit <? tokens
  then
    let ms := last_resort id st limit ms in
    {| v_summaries := []; v_messages := ms; v_tokens := zsum (fun m => count id (x_text m) None st) ms; v_hidden := v_hidden v; v_clipped := clipped + 1;
       v_swap := s; v_before := Some before |}
  else {| v_summaries := v_summaries v; v_messages := ms; v_tokens := tokens; v_hidden := v_hidden v; v_clipped := clipped; v_swap := s; v_before := Some before |}.

(* @src session/compaction.ts 177 198 prepare *)
Definition prepare (id : string) (pause : Pause) : SE Store SessionError ContextView := fun st =>
  let limit := hardLimit id in
  let v := view id st in
  if v_tokens v <=? limit then (Ok v, st)
  else
    match swap id v pause st with
    | (Err e, st) => (Err e, st)
    | (Ok s, st) => let st := s_resume pause st in (Ok (bounded id limit (v_tokens v) s (view id st) st), st)
    end.

(** ** After a turn *)

(** What the background work brings: the database after pruning, whether the compactor was stopped by then; the summary of
    the model, if it is asked and answers, and the database then. *)
Record Background : Type := { k_pruned : Store; k_stopped : bool; k_summary : option (option string); k_store : Store; k_stopped_late : bool }.

Definition overlaps_segment (seg : Segment) (y : SummaryRecord) : bool := (y_fromSeq y <=? g_to seg) && (g_from seg <=? y_toSeq y).

(* @src session/compaction.ts 201 230 afterTurn *)
Definition afterTurn (id : string) (stopped : bool) (k : Background) : SE Store SessionError bool := fun st =>
  if stopped || negb (bool_decide (t_id <$> runningTurn id (rows st) = None)) || rewindReserved id (core st) then (Ok false, st)
  else
    let st := k_pruned k in
    if k_stopped k then (Ok false, st)
    else
      let v := view id st in
      if v_tokens v <=? softLimit id then (Ok false, st)
      else if bool_decide (prepared id (rows st) <> []) then (Ok false, st)
      else
        match segment id v st with
        | None => (Ok false, st)
        | Some seg =>
            let revision := lastEventSeq id (rows st) in
            let older := mergeable id (v_summaries v) seg (rows st) in
            let from := start_of older seg in
            let input := map (fun y => (RSystem, y_text y, y_fromSeq y)) older ++ map said (g_messages seg) in
            let asked := negb (summarizer_digest cfg) && bool_decide (k_summary k <> None) in
            let body := if asked then match k_summary k with Some (Some t) => t | _ => digest input end else digest input in
            let st := if asked then k_store k else st in
            if (asked && k_stopped_late k) || negb (bool_decide (lastEventSeq id (rows st) = revision)) || bool_decide (prepared id (rows st) <> [])
               || existsb (overlaps_segment seg) (applied id (rows st))
            then (Ok false, st)
            else
              let text := marked body from (g_to seg) (summary_room id st) in
              match on_core (addSummary clk newId_at id from (g_to seg) text (count id text None st) (tier_of older) Prepared) st with
              | (Ok _, st) => (Ok true, st)
              | (Err e, st) => (Err e, st)
              end
        end.
End compaction.
