(* ===== verification/CompactionSpec.v ===== *)
(** * What a model is given, and what a summary takes out

    Sizes of texts first: every cut stays within the size it was given, and what a text
    is counted as, with the factor of a model, is within one token of the size it was cut
    for. Then the bound on a view's tokens, and that it shows the whole path but for what
    its summaries cover. Then swaps: what one takes out of a view is a run of its
    oldest messages that ends where a turn ends, before the newest turn, within one stretch of
    the path, and one summary takes its place. At the end, runs: a tool's output hidden
    and restored, the compactor on a session of two turns, and the one token by which a
    view can exceed its hard limit. *)

From stdpp Require Import pretty.
From S2P Require Import Prelude Double Session SessionPath SessionInv SessionSpec SessionView SessionLife SessionRun Pruning PruningSpec Compaction.
From Stdlib Require Import QArith Qround Lqa Sorted.

#[local] Open Scope Z_scope.

(** ** Lengths *)

Lemma slen_nonneg s : 0 <= slen s.
Proof. unfold slen. lia. Qed.

Lemma substring_length n s : (String.length (String.substring 0 n s) <= n)%nat.
Proof. revert n. induction s as [|c s IH]; intros [|n]; cbn; [lia..|]. specialize (IH n). lia. Qed.

Lemma slen_slice n s : slen (slice n s) <= Z.max 0 n.
Proof. unfold slen, slice, slice_to. pose proof (substring_length (Z.to_nat (Z.max 0 n)) s). lia. Qed.

(** Four code units to a token. *)
Lemma estimate_le text k : estimateTokens text <= k <-> slen text <= 4 * k.
Proof. unfold estimateTokens, quarter. Z.div_mod_to_equations. lia. Qed.

Lemma estimate_nonneg text : 0 <= estimateTokens text.
Proof. unfold estimateTokens, quarter. pose proof (slen_nonneg text). apply Z.div_pos; lia. Qed.

Lemma estimate_slice n s : 0 <= n -> estimateTokens (slice (n * 4) s) <= n.
Proof. intros H. apply estimate_le. pose proof (slen_slice (n * 4) s). lia. Qed.

(** ** Cuts *)

(** A message cut with a pointer is within the size, and was not cut if it was. *)
Lemma truncate_within text n pointer : 0 <= n -> estimateTokens (truncateWithPointer text n pointer).1 <= n.
Proof.
  intros H. unfold truncateWithPointer. destruct (Z.leb_spec (estimateTokens text) n); [done|]. by apply estimate_slice.
Qed.

Lemma truncate_whole text n pointer : (truncateWithPointer text n pointer).2 = false -> (truncateWithPointer text n pointer).1 = text.
Proof. unfold truncateWithPointer. by destruct (_ <=? _). Qed.

Lemma substring_split n s : exists r, s = String.substring 0 n s +:+ r.
Proof.
  revert n. induction s as [|c s IH]; intros [|n]; cbn; [by exists ""|by exists ""|by exists (String c s)|]. destruct (IH n) as [r Hr]. exists r. exact (f_equal (String c) Hr).
Qed.

Lemma length_substring n s : String.length (String.substring 0 n s) = Nat.min n (String.length s).
Proof. revert n. induction s as [|c s IH]; intros [|n]; cbn; [done..|]. by rewrite IH. Qed.

Lemma substring_all n s : (String.length s <= n)%nat -> String.substring 0 n s = s.
Proof. revert n. induction s as [|c s IH]; intros [|n]; cbn; [done..|lia|]. intros H. by rewrite IH by lia. Qed.

Lemma length_append a b : String.length (a +:+ b) = (String.length a + String.length b)%nat.
Proof. induction a as [|c a IH]; [done|]. change (S (String.length (a +:+ b)) = S (String.length a + String.length b)). by rewrite IH. Qed.

(** What takes the place of a text that is too long for [max] tokens: its beginning and a note that says how long it was and where the original
    is, as many characters as the size allows; of a note that is itself too long, its beginning. *)
Definition cut_note (text pointer : string) : string := NL +:+ "[truncated " +:+ pretty (slen text) +:+ " chars; " +:+ pointer +:+ "]".
Definition shortened (max : Z) (pointer text out : string) : Prop :=
  let note := cut_note text pointer in
  if estimateTokens text <=? max then out = text
  else slen out = Z.max 0 (4 * max) /\
       if slen note <=? 4 * max then exists head rest, text = head +:+ rest /\ out = head +:+ note else exists rest, note = out +:+ rest.

Lemma truncate_shortened text n pointer : shortened n pointer text (truncateWithPointer text n pointer).1.
Proof.
  unfold shortened, truncateWithPointer. destruct (Z.leb_spec (estimateTokens text) n) as [|Hn]; [done|]. fold (cut_note text pointer). cbn [fst].
  assert (Hlen : 4 * n < slen text) by (destruct (Z.lt_ge_cases (4 * n) (slen text)) as [|Hc]; [done|]; apply estimate_le in Hc; lia). clear Hn.
  unfold slen, slice, slice_to in *. generalize dependent (cut_note text pointer). intros note. destruct (Z.leb_spec (Z.of_nat (String.length note)) (4 * n)) as [Hl|Hl].
  - rewrite substring_all.
    + rewrite length_append, length_substring. split; [lia|]. destruct (substring_split (Z.to_nat (Z.max 0 (Z.max 0 (n * 4 - Z.of_nat (String.length note))))) text) as [r Hr].
      by exists (String.substring 0 (Z.to_nat (Z.max 0 (Z.max 0 (n * 4 - Z.of_nat (String.length note))))) text), r.
    + rewrite length_append, length_substring. lia.
  - replace (Z.to_nat (Z.max 0 (Z.max 0 (n * 4 - Z.of_nat (String.length note))))) with 0%nat by lia.
    assert (E : String.substring 0 0 text = "") by (by destruct text). rewrite E. change ("" +:+ note) with note. rewrite length_substring. split; [lia|]. apply substring_split.
Qed.

Section tail.
Context (ELLIPSIS : Ascii.ascii).

Lemma drop_lines_spec k lines n d r : drop_lines ELLIPSIS k lines n = (d, r) -> r = drop (Z.to_nat (d - k)) lines /\ k <= d <= k + Z.of_nat (length lines).
Proof.
  revert k. induction lines as [|x l IH]; intros k; cbn [drop_lines].
  - intros [= <- <-]. split; [by rewrite drop_nil|cbn; lia].
  - destruct (_ <? _); [|intros [= <- <-]; rewrite Z.sub_diag; split; [done|lia]].
    intros [-> H]%IH. split; [|cbn; lia]. by replace (Z.to_nat (d - k)) with (S (Z.to_nat (d - (k + 1)))) by lia.
Qed.

(** What is left of a text after its tail was fitted is always within the size: the text itself where it fits,
    otherwise a marker and as many of its last lines as fit with it. *)
Theorem fitTail_within text n : 0 <= n ->
  estimateTokens (fitTail ELLIPSIS text n) <= n /\
  (estimateTokens text <= n -> fitTail ELLIPSIS text n = text) /\
  (n < estimateTokens text -> exists d, 0 <= d <= Z.of_nat (length (split_lines text)) /\
    let out := join_lines (elided ELLIPSIS d :: drop (Z.to_nat d) (split_lines text)) in fitTail ELLIPSIS text n = out \/ n < estimateTokens out /\ fitTail ELLIPSIS text n = slice (n * 4) out).
Proof.
  intros Hn. unfold fitTail. destruct (Z.leb_spec (estimateTokens text) n) as [H|H]; [split; [done|split; [done|lia]]|].
  destruct (drop_lines ELLIPSIS 0 (split_lines text) n) as [d r] eqn:E. apply drop_lines_spec in E as [-> Hd]. rewrite Z.sub_0_r.
  rewrite Z.max_l by lia. split; [|split; [lia|intros _; exists d; split; [lia|]; cbv zeta]].
  - destruct (Z.leb_spec (estimateTokens (join_lines (elided ELLIPSIS d :: drop (Z.to_nat d) (split_lines text)))) n); [done|by apply estimate_slice].
  - destruct (Z.leb_spec (estimateTokens (join_lines (elided ELLIPSIS d :: drop (Z.to_nat d) (split_lines text)))) n); [by left|by right].
Qed.

Lemma fitTail_bound text n : 0 <= n -> estimateTokens (fitTail ELLIPSIS text n) <= n.
Proof.
  intros Hn. unfold fitTail. destruct (Z.leb_spec (estimateTokens text) n) as [H|H]; [done|]. destruct (drop_lines _ _ _ _) as [d r].
  rewrite Z.max_l by lia. destruct (Z.leb_spec (estimateTokens (join_lines (elided ELLIPSIS d :: r))) n); [done|by apply estimate_slice].
Qed.

(** A summary with its marker is within the size. *)
Lemma marked_within body from to n : 0 <= n -> estimateTokens (marked ELLIPSIS body from to n) <= n.
Proof. intros H. unfold marked. rewrite Z.max_r by lia. by apply estimate_slice. Qed.
End tail.

(** ** Counts *)

Lemma Qceiling_le_Z q z : (q <= inject_Z z)%Q -> Qceiling q <= z.
Proof. intros H. rewrite <- (Qceiling_Z z). by apply Qceiling_resp_le. Qed.

(** The factor one counts what is estimated. *)
Lemma fl_Z z : 0 <= z < 2 ^ 53 -> (fl (inject_Z z) == inject_Z z)%Q.
Proof. intros H. destruct (fl_between (inject_Z z) z z) as [H1 H2]; [apply Qle_refl..|lia|lia|]. by apply Qle_antisym. Qed.

(** What fits into the share of a limit, counted with the factor, exceeds the limit by at most one token: the share and
    the count are each rounded once. *)
Lemma count_of_share limit f k : 0 <= limit < 2 ^ 40 -> (1 # 4 <= f)%Q -> (f <= 16)%Q -> 0 <= k <= Z.max 0 (Qfloor (fdiv (inject_Z limit) f)) ->
  Qceiling (fmul (inject_Z k) f) <= limit + 1.
Proof.
  intros Hl Hf1 Hf2 Hk. assert (Hf : (0 < f)%Q) by lra. set (x := (inject_Z limit / f)%Q).
  assert (Hx : (x * f == inject_Z limit)%Q) by (unfold x; field; lra).
  assert (H0 : (0 <= inject_Z limit)%Q) by (change 0%Q with (inject_Z 0); rewrite <- Zle_Qle; lia).
  assert (Hx0 : (0 <= x)%Q) by (unfold x; apply Qle_shift_div_l; [done|]; by rewrite Qmult_0_l).
  assert (Hlim : (inject_Z limit < inject_Z (2 ^ 40))%Q) by (rewrite <- Zlt_Qlt; lia).
  assert (Hx1 : (x < two_to 42)%Q).
  { rewrite two_to_Z by lia. change (inject_Z (2 ^ 42)) with (4 * inject_Z (2 ^ 40))%Q. destruct (Qlt_le_dec x (4 * inject_Z (2 ^ 40))) as [|Hc]; [done|].
    assert (4 * inject_Z (2 ^ 40) * f <= x * f)%Q by (apply Qmult_le_compat_r; lra). rewrite Hx in H.
    assert (4 * inject_Z (2 ^ 40) * (1 # 4) <= 4 * inject_Z (2 ^ 40) * f)%Q by (apply Qmult_le_l; [by compute|lra]). lra. }
  pose proof (fl_error x 42 ltac:(lia) Hx0 Hx1) as He. apply Qabs.Qabs_Qle_condition in He as [_ He]. change (two_to (42 - 54)) with (1 # 4096)%Q in He.
  assert (Hkx : (inject_Z k <= x + (1 # 4096))%Q \/ k = 0).
  { destruct (Z.le_gt_cases (Qfloor (fdiv (inject_Z limit) f)) 0); [right; lia|left].
    apply Qle_trans with (inject_Z (Qfloor (fdiv (inject_Z limit) f))); [rewrite <- Zle_Qle; lia|]. eapply Qle_trans; [apply Qfloor_le|]. unfold fdiv. fold x. lra. }
  assert (Hk0 : (0 <= inject_Z k)%Q) by (change 0%Q with (inject_Z 0); rewrite <- Zle_Qle; lia).
  apply Qceiling_le_Z. unfold fmul. apply (fl_between _ 0 (limit + 1)); [apply Qmult_le_0_compat; lra| |lia|lia].
  rewrite inject_Z_plus. change (inject_Z 1) with 1%Q. destruct Hkx as [Hkx| ->]; [|rewrite Qmult_0_l; lra].
  apply Qle_trans with ((x + (1 # 4096)) * f)%Q; [apply Qmult_le_compat_r; lra|]. rewrite Qmult_plus_distr_l, Hx. lra.
Qed.

(** With the factor one there is no rounding. *)
Lemma count_of_share_one limit f k : 0 <= limit < 2 ^ 40 -> (f == 1)%Q -> 0 <= k <= Z.max 0 (Qfloor (fdiv (inject_Z limit) f)) -> Qceiling (fmul (inject_Z k) f) <= limit.
Proof.
  intros Hl Hf Hk. assert (Qfloor (fdiv (inject_Z limit) f) = limit) as E.
  { unfold fdiv. rewrite (fl_ext _ (inject_Z limit)) by (rewrite Hf; field). rewrite (Qfloor_comp _ _ (fl_Z limit ltac:(lia))). apply Qfloor_Z. }
  rewrite E, Z.max_r in Hk by lia. apply Qceiling_le_Z. unfold fmul. rewrite (fl_ext _ (inject_Z k)) by (rewrite Hf; ring).
  rewrite (fl_Z k) by lia. rewrite <- Zle_Qle. lia.
Qed.

(** ** Calibration *)

(** Every factor that is kept is between a quarter and sixteen. *)
Definition calibrated (st : Store) : Prop := forall model f, calibration st !! model = Some f -> (1 # 4 <= f)%Q /\ (f <= 16)%Q.

Lemma clamp_range x : (1 # 4 <= Qmin' 16 (Qmax' (1 # 4) x))%Q /\ (Qmin' 16 (Qmax' (1 # 4) x) <= 16)%Q.
Proof.
  unfold Qmin', Qmax'. destruct (Qle_bool (1 # 4) x) eqn:E1; [|done].
  apply Qle_bool_iff in E1. destruct (Qle_bool 16 x) eqn:E2; [done|]. split; [done|].
  apply Qlt_le_weak, Qnot_le_lt. intros C. apply Qle_bool_iff in C. congruence.
Qed.

(** A product with a weight, rounded, is between those of the ends of the range. *)
Lemma weighted_range w x : (1 # 8 <= w)%Q -> (1 # 4 <= x)%Q -> (x <= 16)%Q -> (fmul w (1 # 4) <= fmul w x)%Q /\ (fmul w x <= fmul w 16)%Q.
Proof.
  intros Hw H1 H2. assert (two_to (-1000) <= 1 # 32)%Q as Hs by (by compute).
  assert (w * (1 # 4) <= w * x)%Q as Ha by (rewrite !(Qmult_comm w); apply Qmult_le_compat_r; lra).
  assert (w * x <= w * 16)%Q as Hb by (rewrite !(Qmult_comm w); apply Qmult_le_compat_r; lra).
  split; apply fl_mono; lra.
Qed.

Lemma blend_range prior ratio : (1 # 4 <= prior)%Q -> (prior <= 16)%Q -> (1 # 4 <= ratio)%Q -> (ratio <= 16)%Q ->
  let f := fl (fmul (fl (8 # 10)) prior + fmul (fl (2 # 10)) ratio) in (1 # 4 <= f)%Q /\ (f <= 16)%Q.
Proof.
  intros H1 H2 H3 H4 f. destruct (weighted_range (fl (8 # 10)) prior) as [A1 A2]; [by vm_compute|done..|].
  destruct (weighted_range (fl (2 # 10)) ratio) as [B1 B2]; [by vm_compute|done..|].
  assert (two_to (-1000) <= fmul (fl (8 # 10)) (1 # 4) + fmul (fl (2 # 10)) (1 # 4))%Q as Hs by (by vm_compute).
  split.
  - apply Qle_trans with (fl (fmul (fl (8 # 10)) (1 # 4) + fmul (fl (2 # 10)) (1 # 4))); [by vm_compute|]. apply fl_mono; [done|lra].
  - apply Qle_trans with (fl (fmul (fl (8 # 10)) 16 + fmul (fl (2 # 10)) 16)); [apply fl_mono; lra|by vm_compute].
Qed.

Lemma observe_calibrated model e n st : calibrated st -> calibrated (observe model e n st).
Proof.
  intros H. unfold observe. destruct e as [e|]; [|done]. destruct (_ || _); [done|]. intros m f. cbn [setTokenFactor calibration].
  destruct (decide (m = model)) as [->|Hne]; [rewrite lookup_insert_eq|rewrite lookup_insert_ne by done; apply H].
  intros [= <-]. destruct (clamp_range (fdiv (inject_Z n) e)) as [C1 C2]. unfold tokenCalibration.
  destruct (calibration st !! model) as [prior|] eqn:E; [|done]. apply H in E as [P1 P2]. by apply blend_range.
Qed.

Lemma factor_range st model : calibrated st -> (1 # 4 <= tokenFactor model st)%Q /\ (tokenFactor model st <= 16)%Q.
Proof. intros H. unfold tokenFactor, tokenCalibration. destruct (calibration st !! model) as [f|] eqn:E; [by apply H in E|done]. Qed.

#[local] Open Scope Z_scope.

Lemma last_cons {A} (x : A) l : l <> [] -> list.last (x :: l) = list.last l.
Proof. by destruct l. Qed.

Lemma sort_by_sorted {A} (key : A -> Z) l : StronglySorted (fun a b => key a <= key b) (sort_by (fun a b => key a <=? key b) l).
Proof.
  unfold sort_by. induction l as [|x l IH]; [constructor|]. cbn. clear -IH. induction IH as [|y k Hk IH Hy]; cbn; [by repeat constructor|].
  destruct (Z.leb_spec (key x) (key y)).
  - constructor; [by constructor|]. constructor; [done|]. eapply list.Forall_impl; [exact Hy|]. cbn. lia.
  - constructor; [done|]. apply list.Forall_forall. intros z Hz. rewrite insert_by_perm in Hz. apply elem_of_cons in Hz as [->|Hz]; [lia|].
    by apply (proj1 (list.Forall_forall _ _) Hy).
Qed.

Lemma sorted_bfilter {A} (R : A -> A -> Prop) f l : StronglySorted R l -> StronglySorted R (bfilter f l).
Proof.
  unfold bfilter. induction 1 as [|x l Hl IH Hx]; cbn; [constructor|]. destruct (f x); [|done]. constructor; [done|]. apply list.Forall_forall. intros y Hy.
  apply list_elem_of_In, filter_In in Hy as [Hy _]. by apply (proj1 (list.Forall_forall _ _) Hx), list_elem_of_In.
Qed.

Lemma context_sorted id n d : StronglySorted (fun a b => m_seq a <= m_seq b) (contextMessages id n d).
Proof. unfold contextMessages, activePath. cbv zeta. apply sorted_bfilter, sorted_bfilter, sort_by_sorted. Qed.

(** The first element that fits is the least one. *)
Lemma first_least f l (m m' : MessageRecord) : StronglySorted (fun a b => m_seq a <= m_seq b) l -> bfind f l = Some m -> m' ∈ l -> f m' = true -> m_seq m <= m_seq m'.
Proof.
  induction 1 as [|x l Hl IH Hx]; [done|]. cbn. destruct (f x) eqn:E.
  - intros [= <-] [->|Hin]%elem_of_cons _; [done|]. by apply (proj1 (list.Forall_forall _ _) Hx).
  - intros Hb [->|Hin]%elem_of_cons Hf; [congruence|]. by apply IH.
Qed.

(** The path after a number is the rest of the path. *)
Lemma context_after id n d : well_formed d -> 0 <= n -> contextMessages id n d = bfilter (fun m => n <? m_seq m) (contextMessages id 0 d).
Proof.
  intros W Hn. unfold contextMessages, activePath. cbv zeta. rewrite !by_seq_filter by done. rewrite !bfilter_bfilter. apply bfilter_ext. intros m _.
  destruct (Z.ltb_spec n (m_seq m)); cbn [andb]; [rewrite (proj2 (Z.ltb_lt 0 _)) by lia; cbn [andb]; by rewrite andb_true_r|by rewrite !andb_false_r].
Qed.

(** A prefix that summaries cover is covered number by number. *)
Lemma prefix_covered n l q : n < q <= prefix_end n l -> exists y, y ∈ l /\ y_fromSeq y <= q <= y_toSeq y.
Proof.
  revert n. induction l as [|y l IH]; intros n; cbn [prefix_end]; [lia|]. destruct (Z.ltb_spec (n + 1) (y_fromSeq y)); [lia|]. intros H1.
  destruct (Z.le_gt_cases q (Z.max n (y_toSeq y))) as [H2|H2]; [exists y; split; [by left|lia]|].
  destruct (IH (Z.max n (y_toSeq y))) as (z & Hz & Hq); [lia|]. exists z. split; [by right|done].
Qed.

Lemma prefix_nonneg n l : 0 <= n -> 0 <= prefix_end n l.
Proof. revert n. induction l as [|y l IH]; intros n Hn; cbn [prefix_end]; [done|]. destruct (_ <? _); [done|]. apply IH. lia. Qed.

Lemma covers_elem l q : covers l q = true <-> exists y, y ∈ l /\ y_fromSeq y <= q <= y_toSeq y.
Proof. unfold covers. rewrite existsb_elem. split; intros (y & Hy & H); exists y; (split; [done|lia]). Qed.

Section view.
Context (clk : nat -> Z) (newId_at : string -> nat -> string) (sha256 : string -> string) (stringify : js -> string) (parse : string -> option js).
Context (ELLIPSIS : Ascii.ascii) (pruner : option PruneConfig) (cfg : Config) (models : gmap string (string * Config)).

Notation count := (count models).
Notation factor_of := (factor_of models).
Notation shown_tokens := (shown_tokens models).
Notation hardLimit := (hardLimit cfg models).
Notation view := (Compaction.view sha256 stringify parse pruner cfg models).
Notation drop_oldest := (drop_oldest models).
Notation last_resort := (last_resort ELLIPSIS models).
Notation bounded := (bounded ELLIPSIS models).
Notation swap := (swap clk newId_at ELLIPSIS cfg models).
Notation prepare := (prepare clk newId_at sha256 stringify parse ELLIPSIS pruner cfg models).
Notation segment := (segment cfg models).

(** ** The bound *)

(** The tokens a view states are those of what it shows, measured where the provider told how many there were. *)
Definition accounted (id : string) (st : Store) (v : ContextView) : Prop := exists measured : bool,
  v_tokens v = zsum (fun y => count id (y_text y) None st) (v_summaries v)
               + zsum (fun m => count id (x_text m) (if measured then Some (x_id m) else None) st) (v_messages v).

Lemma view_accounted id st : accounted id st (view id st).
Proof. exists true. done. Qed.

Lemma drop_oldest_spec id st limit tokens clipped l tokens' clipped' l' : drop_oldest id st limit tokens clipped l = (tokens', clipped', l') ->
  tokens' - shown_tokens id st l' = tokens - shown_tokens id st l /\ list.last l' = list.last l /\ (limit < tokens' -> (length l' <= 1)%nat) /\ (exists k, l' = drop k l).
Proof.
  revert tokens clipped. induction l as [|m l IH]; intros tokens clipped.
  - intros [= <- <- <-]. split_and!; [done..|cbn; lia|by exists 0%nat].
  - cbn [Compaction.drop_oldest]. destruct l as [|m2 l].
    + intros [= <- <- <-]. split_and!; [done..|cbn; lia|by exists 0%nat].
    + destruct (Z.ltb_spec limit tokens).
      * intros (H1 & H2 & H3 & k & H4)%IH. split_and!; [unfold Compaction.shown_tokens in *; rewrite zsum_cons; lia|by rewrite H2|done|by exists (S k)].
      * intros [= <- <- <-]. split_and!; [done..|lia|by exists 0%nat].
Qed.

Lemma resort_tokens id st limit l : 0 <= limit < 2 ^ 40 -> (1 # 4 <= factor_of id st)%Q -> (factor_of id st <= 16)%Q ->
  let tokens := zsum (fun m => count id (x_text m) None st) (last_resort id st limit l) in
  tokens <= limit + 1 /\ ((factor_of id st == 1)%Q -> tokens <= limit).
Proof.
  intros Hl Hf1 Hf2. unfold Compaction.last_resort. destruct (list.last l) as [m|]; cbn [zsum]; [|lia]. cbn [x_text]. unfold Compaction.count, meter_count.
  set (n := Z.max 0 (Qfloor (fdiv (inject_Z limit) (factor_of id st)))).
  pose proof (fitTail_bound ELLIPSIS (x_text m) n ltac:(lia)) as Hb. pose proof (estimate_nonneg (fitTail ELLIPSIS (x_text m) n)).
  rewrite Z.add_0_r. split; [by apply count_of_share|]. intros Hf. by apply count_of_share_one.
Qed.

Lemma bounded_spec id limit before s v st : 0 <= limit < 2 ^ 40 -> (1 # 4 <= factor_of id st)%Q -> (factor_of id st <= 16)%Q ->
  v_tokens v = zsum (fun y => count id (y_text y) None st) (v_summaries v) + shown_tokens id st (v_messages v) ->
  let v' := bounded id limit before s v st in
  v_tokens v' <= limit + 1 /\ ((factor_of id st == 1)%Q -> v_tokens v' <= limit) /\ accounted id st v' /\
  x_id <$> list.last (v_messages v') = x_id <$> list.last (v_messages v).
Proof.
  intros Hl Hf1 Hf2 Hv. unfold Compaction.bounded. destruct (drop_oldest _ _ _ _ _ _) as [[t c] l] eqn:E. apply drop_oldest_spec in E as (H1 & H2 & _ & _).
  destruct (Z.ltb_spec limit t); cbn [v_tokens v_messages].
  - destruct (resort_tokens id st limit l Hl Hf1 Hf2) as [H3 H4]. split_and!; [done..|by exists false|]. rewrite <- H2. unfold Compaction.last_resort. by destruct (list.last l).
  - split_and!; [lia|lia| |by rewrite H2]. exists true. cbn [v_tokens v_summaries v_messages]. unfold Compaction.shown_tokens in *. lia.
Qed.

(** (C31) A view that is handed to a model exceeds the hard limit of its session by at most one token, and by none where
    the model's count needs no calibration, whatever was observed of the model before; the tokens it states are those of what it shows; and the newest message of
    the session's view is in it. *)
Theorem prepare_within_limit id pause st v st' : prepare id pause st = (Ok v, st') -> 0 <= hardLimit id < 2 ^ 40 ->
  calibrated st' ->
  v_tokens v <= hardLimit id + 1 /\ ((factor_of id st' == 1)%Q -> v_tokens v <= hardLimit id) /\ accounted id st' v /\
  x_id <$> list.last (v_messages v) = x_id <$> list.last (v_messages (view id st')).
Proof.
  unfold Compaction.prepare. intros H Hl [Hf1 Hf2]%(factor_range _ (model_of models id)). destruct (Z.leb_spec (v_tokens (view id st)) (hardLimit id)).
  - injection H as <- <-. split_and!; [lia|lia|apply view_accounted|done].
  - destruct (swap id (view id st) pause st) as [[s|e] st1]; [|done]. injection H as <- <-. by apply bounded_spec.
Qed.

(** ** What a view shows *)

Notation read_after := (read_after sha256 stringify parse pruner).
Notation pairs_of := (pairs_of sha256 stringify parse pruner).

(** What is not read of the transcript is covered. *)
Lemma unread_covered id st m : well_formed (rows st) -> m ∈ contextMessages id 0 (rows st) -> m ∉ contextMessages id (read_after id st) (rows st) ->
  covers (applied id (rows st)) (m_seq m) = true.
Proof.
  intros W Hm Hn. assert (0 <= read_after id st) as Hr by (unfold Compaction.read_after; destruct (existsb _ _); [done|by apply prefix_nonneg]).
  rewrite context_after in Hn by done. assert (m_seq m <= read_after id st) as Hle.
  { destruct (Z.le_gt_cases (m_seq m) (read_after id st)) as [|Hc]; [done|]. destruct Hn. apply bfilter_elem. split; [done|]. by apply Z.ltb_lt. }
  apply context_elem in Hm as (_ & _ & Hq). revert Hle. unfold Compaction.read_after. destruct (existsb _ _); [lia|]. intros Hle.
  destruct (prefix_covered 0 _ (m_seq m) (conj Hq Hle)) as (y & Hy & H). rewrite sort_by_perm in Hy. apply covers_elem. by exists y.
Qed.

Lemma read_on_path id st m : well_formed (rows st) -> m ∈ contextMessages id (read_after id st) (rows st) -> m ∈ contextMessages id 0 (rows st).
Proof.
  intros W. rewrite context_after; [by intros [H _]%bfilter_elem|done|]. unfold Compaction.read_after. destruct (existsb _ _); [done|by apply prefix_nonneg].
Qed.

(** The message as a view shows it. *)
Definition stands_for (c : Config) (lessons : list string) (m : MessageRecord) (x : Shown) : Prop :=
  x_id x = m_id m /\ x_seq x = m_seq m /\ x_turnId x = m_turnId m /\ x_toolCall x = None /\ x_role x = (if bool_decide (m_id m ∈ lessons) then RUser else m_role m) /\
  shortened (maxMessageTokens c) ("full text is message " +:+ m_id m +:+ " in the session transcript") (m_text m) (x_text x).

Lemma show_message_stands c lessons m : stands_for c lessons m (show_message c lessons m).1.
Proof.
  unfold show_message, stands_for. pose proof (truncate_shortened (m_text m) (maxMessageTokens c) ("full text is message " +:+ m_id m +:+ " in the session transcript")) as H.
  destruct (truncateWithPointer _ _ _) as [text cut]. cbn [fst x_id x_seq x_turnId x_toolCall x_role x_text] in *. split_and!; try done.
  destruct (includes lessons (m_id m)) eqn:E; [rewrite bool_decide_true by (by apply includes_spec)|rewrite bool_decide_false by (by rewrite <- includes_spec, E)]; done.
Qed.

(** The first message of a turn on the path, from where the view reads it. *)
Definition first_read (id : string) (st : Store) (turn : option string) (m : MessageRecord) : Prop :=
  let on_path m := m ∈ contextMessages id 0 (rows st) /\ read_after id st < m_seq m /\ m_turnId m = turn in
  on_path m /\ forall m', on_path m' -> m_seq m <= m_seq m'.

(** A call with its result, and a call that none has come for, at the first message of the turn. *)
Definition pair_entry (id : string) (st : Store) (x : Shown) : Prop :=
  exists p m, p ∈ pairs_of id st /\ first_read id st (Some (p_turnId p)) m /\ (covers (applied id (rows st)) (m_seq m) = true -> p_restored p = true) /\
    x_id x = p_ref p /\ x_role x = RTool /\ x_turnId x = Some (p_turnId p) /\ x_seq x = m_seq m /\
    (x_text x = p_text p /\ jget "name" (v_data (p_call p)) = JStr SKILL_LOAD \/
     shortened (maxMessageTokens (configFor cfg models id)) ("originals " +:+ p_ref p +:+ ", " +:+ event_ref (v_seq (p_result p))) (p_text p) (x_text x)).
Definition call_entry (id : string) (st : Store) (x : Shown) : Prop :=
  exists v m, v ∈ contextToolEvents id (rows st) /\ v_type v = "tool.call" /\ event_ref (v_seq v) ∉ map p_ref (pairs_of id st) /\
    first_read id st (v_turnId v) m /\ covers (applied id (rows st)) (m_seq m) = false /\
    x_id x = event_ref (v_seq v) /\ x_role x = RTool /\ x_turnId x = v_turnId v /\ x_seq x = m_seq m /\
    shortened (maxMessageTokens (configFor cfg models id)) ("original call " +:+ event_ref (v_seq v)) (stringify (JObj [("call", v_data v); ("result", JStr "pending")])) (x_text x).

Lemma read_after_nonneg id st : 0 <= read_after id st.
Proof. unfold Compaction.read_after. destruct (existsb _ _); [done|by apply prefix_nonneg]. Qed.

Lemma turn_start_first id st t m : well_formed (rows st) -> turn_start (contextMessages id (read_after id st) (rows st)) t = Some m -> first_read id st t m.
Proof.
  intros W H. pose proof (context_sorted id (read_after id st) (rows st)) as Hs. pose proof H as H'. apply bfind_some in H' as [Hin Ht]. apply bool_decide_eq_true in Ht.
  assert (Hiff : forall m, m ∈ contextMessages id (read_after id st) (rows st) <-> m ∈ contextMessages id 0 (rows st) /\ read_after id st < m_seq m).
  { intros m0. rewrite context_after by (done || apply read_after_nonneg). by rewrite bfilter_elem, Z.ltb_lt. }
  split; [apply Hiff in Hin as [? ?]; done|]. intros m' (H1 & H2 & H3).
  eapply (first_least _ _ _ m' Hs H); [by apply Hiff|]. by apply bool_decide_eq_true.
Qed.

Lemma show_pair_entry id st p x : well_formed (rows st) -> p ∈ pairs_of id st ->
  show_pair (configFor cfg models id) (applied id (rows st)) (contextMessages id (read_after id st) (rows st)) p = Some x -> pair_entry id st x.1.
Proof.
  intros W Hp. unfold show_pair. destruct (turn_start _ _) as [m|] eqn:E; [|done]. apply (turn_start_first _ _ _ _ W) in E.
  destruct (covers _ _ && _) eqn:Ec; [done|]. intros H. exists p, m. split; [done|]. split; [done|]. split.
  { intros Hc. rewrite Hc in Ec. cbn in Ec. by apply negb_false_iff in Ec. }
  destruct (bool_decide _ && _ && _ && _) eqn:Ew.
  - injection H as <-. split_and!; try done. left. split; [done|]. by bool_hyps.
  - pose proof (truncate_shortened (p_text p) (maxMessageTokens (configFor cfg models id)) ("originals " +:+ p_ref p +:+ ", " +:+ event_ref (v_seq (p_result p)))) as Hs.
    destruct (truncateWithPointer _ _ _) as [text cut]. injection H as <-. split_and!; try done. by right.
Qed.

Lemma show_call_entry id st v x : well_formed (rows st) -> v ∈ contextToolEvents id (rows st) ->
  show_call stringify (configFor cfg models id) (applied id (rows st)) (contextMessages id (read_after id st) (rows st)) (map p_ref (pairs_of id st)) v = Some x -> call_entry id st x.1.
Proof.
  intros W Hv. unfold show_call. destruct (negb _ || _) eqn:Eo; [done|]. apply orb_false_iff in Eo as [Et Ep]. apply negb_false_iff, String.eqb_eq in Et.
  destruct (turn_start _ _) as [m|] eqn:E; [|done]. apply (turn_start_first _ _ _ _ W) in E. destruct (covers _ _) eqn:Ec; [done|].
  pose proof (truncate_shortened (stringify (JObj [("call", v_data v); ("result", JStr "pending")])) (maxMessageTokens (configFor cfg models id)) ("original call " +:+ event_ref (v_seq v))) as Hs.
  destruct (truncateWithPointer _ _ _) as [text cut]. intros [= <-]. exists v, m. split_and!; try done. by rewrite <- includes_spec, Ep.
Qed.

(** (C32) A view shows the whole path of a session: every message that no summary in it covers, at its place, whole or,
    where it is too long, as its beginning with a note that points to the original, of exactly the size allowed; a
    lesson speaks as the user. What else it shows are calls of tools, with their results or without, shortened in the same
    way (a skill may be whole), each at the first message of its turn among those the view reads (all but the prefix that
    summaries cover without a gap). No summary in it speaks of what a rewind hides. *)
Theorem view_complete id st : well_formed (rows st) ->
  let v := view id st in
  let path := contextMessages id 0 (rows st) in
  let shows := stands_for (configFor cfg models id) (omap r_lessonMessageId (rewinds id (rows st))) in
  (forall m, m ∈ path -> covers (v_summaries v) (m_seq m) = true \/ exists x, x ∈ v_messages v /\ shows m x) /\
  (forall x, x ∈ v_messages v -> pair_entry id st x \/ call_entry id st x \/ exists m, m ∈ path /\ covers (v_summaries v) (m_seq m) = false /\ shows m x) /\
  StronglySorted (fun a b => x_seq a <= x_seq b) (v_messages v) /\
  (forall y r, y ∈ v_summaries v -> r ∈ rewinds id (rows st) -> r_undoneAt r = None -> y_toSeq y < r_hiddenFromSeq r \/ r_hiddenToSeq r < y_fromSeq y).
Proof.
  intros W v path shows. unfold v, Compaction.view. cbn [v_summaries v_messages]. split; [|split; [|split; [apply sort_by_sorted|]]].
  - intros m Hm. destruct (covers (applied id (rows st)) (m_seq m)) eqn:Hc; [by left|right]. eexists. split; [|apply show_message_stands].
    rewrite sort_by_perm. apply elem_of_map. eexists. split; [done|]. apply elem_of_app. left. apply elem_of_map. exists m. split; [done|]. apply bfilter_elem. split; [|by rewrite Hc].
    destruct (existsb (fun x => String.eqb (m_id x) (m_id m)) (contextMessages id (read_after id st) (rows st))) eqn:E.
    + apply existsb_elem in E as (m' & Hm' & E). apply String.eqb_eq in E. pose proof (read_on_path _ _ _ W Hm') as Hp. apply context_elem in Hp as (Hp & _). apply context_elem in Hm as (Hm & _).
      by rewrite <- (NoDup_map_inj m_id (messages (rows st)) m' m (wf_messages _ W) Hp Hm E).
    + rewrite (unread_covered id st m W Hm) in Hc; [done|]. intros Hin. pose proof (existsb_false_elem _ _ m E Hin) as Hn. cbn in Hn. by rewrite String.eqb_refl in Hn.
  - intros x Hx. rewrite sort_by_perm in Hx. apply elem_of_map in Hx as ([x' cut] & -> & Hx). cbn. apply elem_of_app in Hx as [Hx|[Hx|Hx]%elem_of_app].
    + apply elem_of_map in Hx as (m & E & [Hm Hc]%bfilter_elem). right. right. exists m. split; [by eapply read_on_path|]. split; [by apply negb_true_iff|].
      apply (f_equal fst) in E. cbn in E. rewrite E. apply show_message_stands.
    + apply list_elem_of_omap in Hx as (p & Hp & E%show_pair_entry); [by left|done..].
    + apply list_elem_of_omap in Hx as (u & Hu & E%show_call_entry); [by right; left|done..].
  - intros y r [Hy _]%bfilter_elem Hr Hu. apply bfilter_elem in Hy as [_ Hy]. apply negb_true_iff in Hy.
    assert ((r_hiddenFromSeq r, r_hiddenToSeq r) ∈ summaryRewinds id (rows st)) as Hin.
    { unfold summaryRewinds. apply list_elem_of_omap. exists r. split; [done|]. by rewrite Hu. }
    pose proof (existsb_false_elem _ _ _ Hy Hin) as H. unfold overlaps in H. cbn in H. lia.
Qed.
End view.

#[local] Open Scope Z_scope.

(** ** Groups *)

(** A group is of one turn, and the next group of another, or of none. *)
Definition one_turn (g : list Shown) : Prop := g <> [] /\ forall x y, x ∈ g -> y ∈ g -> x_turnId x = x_turnId y.
Definition parted (g h : list Shown) : Prop :=
  forall x y, list.last g = Some x -> list.head h = Some y -> x_turnId x <> x_turnId y \/ x_turnId y = None.
Fixpoint grouped (gs : list (list Shown)) : Prop :=
  match gs with
  | [] => True
  | g :: r => one_turn g /\ match r with [] => True | h :: _ => parted g h end /\ grouped r
  end.

Lemma grouped_snoc gs g h : grouped (gs ++ [g]) -> one_turn h -> parted g h -> grouped ((gs ++ [g]) ++ [h]).
Proof.
  induction gs as [|f gs IH]; cbn; [tauto|]. intros (H1 & H2 & H3) Hh Hp. split; [done|]. split; [|by apply IH]. by destruct gs.
Qed.

Lemma grouped_last gs g h : grouped (gs ++ [g]) -> one_turn h -> list.head h = list.head g -> grouped (gs ++ [h]).
Proof.
  induction gs as [|f gs IH]; cbn; [tauto|]. intros (H1 & H2 & H3) Hh He. split; [done|]. split; [|by apply IH].
  destruct gs; cbn in *; [|done]. intros x y Hx. rewrite He. by apply H2.
Qed.

Lemma grouped_split gs hs g h : grouped ((gs ++ [g]) ++ h :: hs) -> parted g h.
Proof. induction gs as [|f gs IH]; cbn; [tauto|]. intros (_ & _ & H). by apply IH. Qed.

Lemma grouped_elem gs g : grouped gs -> g ∈ gs -> one_turn g.
Proof. induction gs as [|f gs IH]; cbn; [by intros _ ?%elem_of_nil|]. intros (H1 & _ & H2) [->|Hg]%elem_of_cons; [done|by apply IH]. Qed.

Lemma push_group_ok gs m : grouped gs -> grouped (push_group gs m) /\ concat (push_group gs m) = concat gs ++ [m].
Proof.
  assert (Hm : one_turn [m]) by (split; [done|]; by intros x y ->%list_elem_of_singleton ->%list_elem_of_singleton).
  intros H. unfold push_group. induction gs as [|g gs _] using rev_ind; [cbn; by split_and!|].
  rewrite last_snoc. assert (one_turn g) as [Hne Hg] by (apply (grouped_elem _ _ H), elem_of_app; right; by left).
  destruct g as [|x g]; [done|]. destruct (bool_decide (x_turnId x = x_turnId m) && _) eqn:E.
  - rewrite removelast_last, !concat_app. cbn. bool_hyps. rewrite !app_nil_r. split; [|by rewrite <- app_assoc].
    apply (grouped_last _ (x :: g)); [done| |done]. split; [done|].
    assert (forall y, y ∈ (x :: g) ++ [m] -> x_turnId y = x_turnId x) as Hall.
    { intros y [Hy| ->%list_elem_of_singleton]%elem_of_app; [apply Hg; [done|by left]|congruence]. }
    intros y z Hy Hz. rewrite (Hall y Hy). symmetry. by apply Hall.
  - rewrite concat_app. cbn. split; [|done]. apply grouped_snoc; [done..|].
    intros y z Hy [= <-]. rewrite (Hg y x); [|by apply last_Some_elem_of|by left]. apply andb_false_iff in E as [E|E]; apply bool_decide_eq_false in E; [by left|right].
    by destruct (x_turnId m); [destruct E|].
Qed.

Lemma groups_whole l : grouped (groups l) /\ concat (groups l) = l.
Proof.
  unfold groups. induction l as [|m l [IH1 IH2]] using rev_ind; [done|]. rewrite fold_left_app. cbn.
  destruct (push_group_ok (fold_left push_group l []) m IH1) as [H1 H2]. by rewrite H2, IH2.
Qed.

Section swap.
Context (clk : nat -> Z) (newId_at : string -> nat -> string) (ELLIPSIS : Ascii.ascii) (cfg : Config) (models : gmap string (string * Config)).

Notation cut_groups := (cut_groups models).
Notation segment := (segment cfg models).
Notation swap := (swap clk newId_at ELLIPSIS cfg models).
Notation summary_room := (summary_room cfg models).

(** No gap lies between the first and the last of what is cut. *)
Definition gapless (gaps : list (Z * Z)) (cut : list Shown) : Prop :=
  forall a b, list.head cut = Some a -> list.last cut = Some b -> existsb (overlaps (x_seq a) (x_seq b)) gaps = false.

Lemma head_first {A} (l : list A) x r : l = x :: r -> list.head l = Some x.
Proof. by intros ->. Qed.

Lemma cut_groups_spec id st gaps target tokens gs cut : gapless gaps cut ->
  exists k, cut_groups id st gaps target tokens gs cut = cut ++ concat (take k gs) /\ gapless gaps (cut_groups id st gaps target tokens gs cut).
Proof.
  revert tokens cut. induction gs as [|g gs IH]; intros tokens cut H; cbn [Compaction.cut_groups].
  - exists 0%nat. split; [by rewrite app_nil_r|done].
  - assert (Hstop : exists k, cut = cut ++ concat (take k (g :: gs)) /\ gapless gaps cut) by (exists 0%nat; split; [by rewrite app_nil_r|done]).
    destruct (target <? tokens); [|done]. destruct (cut ++ g) as [|a r] eqn:E; [done|]. destruct (list.last g) as [b|] eqn:Eb; [|done].
    destruct (existsb _ gaps) eqn:Eg; [done|]. rewrite <- E. destruct (IH (tokens - shown_tokens models id st g) (cut ++ g)) as (k & Hk & Hg).
    + intros a' b' Ha Hb. rewrite E in Ha. injection Ha as <-. rewrite last_app, Eb in Hb. injection Hb as <-. done.
    + exists (S k). split; [|done]. by rewrite Hk, <- app_assoc.
Qed.

Lemma split_last {A} (l : list A) : l <> [] -> exists i x, l = i ++ [x].
Proof. induction l as [|x i _] using rev_ind; [done|]. intros _. by exists i, x. Qed.

Lemma last_concat_take (gs : list (list Shown)) k a : grouped gs -> list.last (concat (take k gs)) = Some a ->
  exists i g r, gs = (i ++ [g]) ++ r /\ list.last g = Some a /\ concat (take k gs) = concat (i ++ [g]) /\ r = drop k gs.
Proof.
  intros Hg. rewrite <- (take_drop k gs) in Hg at 1. destruct (decide (take k gs = [])) as [->|Hne]; [done|].
  destruct (split_last _ Hne) as (i & g & E). rewrite E in *. intros Ha. exists i, g, (drop k gs). split; [by rewrite <- E, take_drop|].
  split; [|done]. rewrite concat_app, last_app in Ha. cbn in Ha. rewrite app_nil_r in Ha. destruct (list.last g) eqn:El; [done|].
  apply last_None in El. rewrite <- app_assoc in Hg. assert (one_turn g) as [Hn _]; [|done]. apply (grouped_elem _ _ Hg), elem_of_app. right. by left.
Qed.

(** What a summary takes out of a view are its oldest messages, up to the end of a turn: never a part of a turn, never
    the newest turn, and never across a gap that a rewind left. *)
Theorem segment_takes_whole_turns id v st seg : segment id v st = Some seg ->
  exists rest, v_messages v = g_messages seg ++ rest /\ g_messages seg <> [] /\ rest <> [] /\
    (forall a b, list.last (g_messages seg) = Some a -> list.head rest = Some b -> x_turnId a <> x_turnId b \/ x_turnId b = None) /\
    (forall a, list.head (g_messages seg) = Some a -> g_from seg = x_seq a) /\ (forall a, list.last (g_messages seg) = Some a -> g_to seg = x_seq a) /\
    (forall gap, gap ∈ summaryRewinds id (rows st) -> gap.2 < g_from seg \/ g_to seg < gap.1).
Proof.
  unfold Compaction.segment. intros H. destruct (groups_whole (v_messages v)) as [Hg Hc]. destruct (length (groups (v_messages v)) <? 2)%nat eqn:E; [done|]. apply Nat.ltb_ge in E.
  destruct (split_last (groups (v_messages v))) as (i & newest & Ei); [by intros E0; rewrite E0 in E; cbn in E; lia|]. rewrite Ei, removelast_last in H.
  destruct (cut_groups_spec id st (summaryRewinds id (rows st)) (Qfloor (fmul (fmul (inject_Z (windowTokens (configFor cfg models id))) (softRatio (configFor cfg models id))) (1 # 2)))
    (v_tokens v) i []) as (k & Hk & Hgap); [by intros a b|].
  rewrite app_nil_l in Hk. rewrite Hk in H, Hgap. destruct (concat (take k i)) as [|a cut] eqn:Ecut; [done|]. destruct (list.last (a :: cut)) as [b|] eqn:Eb; [|done].
  injection H as <-. cbn [g_messages g_from g_to]. rewrite Ei in Hg, Hc. rewrite <- Ecut in Eb.
  assert (Hgi : grouped i) by (clear -Hg; induction i as [|f i IH]; [done|]; cbn in *; destruct Hg as (H1 & H2 & H3); split_and!; [done|by destruct i|by apply IH]).
  destruct (last_concat_take i k b Hgi Eb) as (j & g & r & Ej & Eg & Ecj & Er). exists (concat r ++ newest).
  assert (Hne : newest <> []) by (apply (grouped_elem _ _ Hg), elem_of_app; right; by left).
  split; [rewrite <- Hc, Ej, <- Ecut, Ecj, !concat_app; cbn; by rewrite !app_nil_r, <- !app_assoc|]. split; [done|]. split; [by destruct (concat r)|].
  rewrite <- Ecut. split; [|split; [rewrite Ecut; by intros ? [= <-]|split; [rewrite Eb; by intros ? [= <-]|]]].
  - intros a' b' Ha' Hb'. rewrite Eb in Ha'. injection Ha' as <-. rewrite Ej, <- app_assoc in Hg. destruct r as [|h r].
    + apply (grouped_split _ _ _ _ Hg b b' Eg Hb').
    + assert (one_turn h) as [Hh _] by (apply (grouped_elem _ _ Hg); rewrite !elem_of_app; right; left; by left). destruct h as [|y h]; [done|].
      injection Hb' as <-. cbn in Hg. by apply (grouped_split _ _ _ _ Hg b y Eg).
  - intros gap Hin. rewrite Ecut in Eb. pose proof (existsb_false_elem _ _ _ (Hgap a b eq_refl Eb) Hin) as Ho. unfold overlaps in Ho. lia.
Qed.

(** ** The summary in the tables *)

Definition superseded_in (ids : list string) (y : SummaryRecord) : SummaryRecord := if includes ids (y_id y) then with_state Superseded y else y.

Lemma supersede_ok ids w u w' : supersede_all ids w = (Ok u, w') -> db w' = set_summaries (map (superseded_in ids) (summaries_tbl (db w))) (db w).
Proof.
  revert w. induction ids as [|i ids IH]; intros w H; cbn [supersede_all] in H.
  - injection H as _ <-. rewrite map_id. by destruct (db w).
  - apply SE_bind_ok in H as (u1 & w1 & H1 & H). apply IH in H. rewrite H. unfold setSummaryState in H1. open_run. cbn. unfold set_summaries. cbn. f_equal.
    rewrite map_map. apply map_ext. intros y. unfold superseded_in, includes. cbn [existsb]. destruct (String.eqb (y_id y) i) eqn:E; cbn; [|done].
    by destruct (existsb (String.eqb (y_id y)) ids).
Qed.

Lemma addSummary_ok id f t x n k stt w y w' : addSummary clk newId_at id f t x n k stt w = (Ok y, w') ->
  db w' = set_summaries (summaries_tbl (db w) ++ [y]) (db w) /\ y_session y = id /\ y_fromSeq y = f /\ y_toSeq y = t /\ y_text y = x /\ y_tokens y = n /\ y_tier y = k /\ y_state y = stt.
Proof. unfold addSummary. intros H. open_run. cbn. same_db. done. Qed.

Lemma replace_ok ids id f t x n k stt w y w' : replaceSummaries clk newId_at ids id f t x n k stt w = (Ok y, w') ->
  db w' = set_summaries (map (superseded_in ids) (summaries_tbl (db w)) ++ [y]) (db w) /\
  y_session y = id /\ y_fromSeq y = f /\ y_toSeq y = t /\ y_text y = x /\ y_tokens y = n /\ y_tier y = k /\ y_state y = stt.
Proof.
  unfold replaceSummaries. intros H. apply tx_ok in H. apply SE_bind_ok in H as (u & w1 & H1%supersede_ok & (H2 & H3)%addSummary_ok). split; [|done].
  by rewrite H2, H1.
Qed.

(** The tables a summary has no part in. *)
Definition same_transcripts (d d' : Db) : Prop :=
  sessions d' = sessions d /\ turns d' = turns d /\ messages d' = messages d /\ events d' = events d /\ rewinds_tbl d' = rewinds_tbl d /\ erasures d' = erasures d.

(** A swap hides and does not delete. One summary of its segment, within the size of a summary, is applied; the
    summaries it takes in are superseded; no message, event or turn changes. It is not made when an event came while the
    checkpoint was awaited, and then it changes nothing. *)
Theorem swap_hides_not_deletes id v pause st s st' : swap id v pause st = (Ok s, st') ->
  let st1 := match s_outcome pause with Some _ => s_store pause | None => st end in
  if w_swapped s then
    exists seg y ids, segment id v st = Some seg /\ w_range s = Some (g_from seg, g_to seg) /\ lastEventSeq id (rows st1) = lastEventSeq id (rows st) /\
      summaries_tbl (rows st') = map (superseded_in ids) (summaries_tbl (rows st1)) ++ [y] /\
      (forall z, z ∈ mergeable id (v_summaries v) seg (rows st1) -> y_id z ∈ ids) /\
      y_session y = id /\ y_state y = Applied /\ y_toSeq y = g_to seg /\ y_fromSeq y = start_of (mergeable id (v_summaries v) seg (rows st1)) seg /\
      (0 <= summary_room id st1 -> estimateTokens (y_text y) <= summary_room id st1) /\ same_transcripts (rows st1) (rows st')
  else st' = st \/ st' = st1.
Proof.
  unfold Compaction.swap. intros H. destruct (segment id v st) as [seg|]; [|injection H as <- <-; by left].
  set (st1 := match s_outcome pause with Some _ => s_store pause | None => st end) in *. cbv zeta in *.
  destruct (bool_decide (lastEventSeq id (rows st1) = lastEventSeq id (rows st))) eqn:E; cbn [negb] in H; [|injection H as <- <-; by right].
  apply bool_decide_eq_true in E. unfold on_core in H. destruct (replaceSummaries _ _ _ _ _ _ _ _ _ _ _) as [[y|e] w'] eqn:Er; [|done]. injection H as <- <-. cbn [w_swapped w_range].
  apply replace_ok in Er as (Hd & Hs & Hf & Ht & Hx & _ & _ & Hst). unfold rows, set_core. cbn [core]. rewrite Hd.
  eexists seg, y, _. split; [done|]. split; [done|]. split; [done|]. split; [done|]. split; [intros z Hz; apply elem_of_app; left; apply elem_of_map; by exists z|].
  repeat (split; [done|]). split; [|done]. intros Hr. rewrite Hx. by apply marked_within.
Qed.
End swap.

#[local] Open Scope Z_scope.

(** A printer of values that a parser is not needed for. *)
Fixpoint printed (v : js) : string :=
  match v with
  | JStr s => s
  | JArr l => "[" +:+ String.concat "," (map printed l) +:+ "]"
  | JObj fs => "{" +:+ String.concat "," (map (fun p => p.1 +:+ ":" +:+ printed p.2) fs) +:+ "}"
  | _ => js_string v
  end.
Definition no_parse (s : string) : option js := None.
Definition no_fraction (q : Q) : js := JNull.
Definition keep_one : PruneConfig := {| enabled := true; keepLastTurns := 1; decider := Heuristic; batchSize := 16 |}.

Definition large : string := String.concat "" (List.repeat "line of the file " 80).
Definition trn3 : string := "trn_''''".
Definition reading : list Call :=
  [CCreate chat; CBegin ses "read it" 3 false None;
   CAppend trn1 "tool.call" (JObj [("id", JStr "c1"); ("name", JStr "fs.read"); ("args", JObj [("path", JStr "/notes/plan.txt")])]);
   CAppend trn1 "tool.result" (JObj [("id", JStr "c1"); ("output", JStr large)]);
   CComplete trn1 "read" 2 JNull; CBegin ses "and now" 3 false None; CComplete trn3 "done" 2 JNull].
Definition read_store : Store := {| core := calls reading start; visibility := []; calibration := ∅; usage := [] |}.
Definition idle_moment (i : nat) : Moment := {| o_late := false; o_answer := Unavailable; o_aborted := false; o_floor := 7 # 10; o_store := read_store |}.

Notation pruned := (Pruning.run clk sha printed no_parse no_fraction keep_one ses false false false idle_moment read_store).
Notation pairs := (fun st => Pruning.view sha printed no_parse keep_one ses st).

Example one_hidden : pruned.1 = Ok 1 /\ map p_hidden (pairs read_store) = [false] /\ map p_hidden (pairs pruned.2) = [true].
Proof. vm_compute. done. Qed.

(** What stands for the output is short, and names the events it stands for. *)
Example hidden_short : map (fun p => slice_to 51 (p_text p)) (pairs pruned.2) = ["[tool output hidden; originals event:2, event:3; ca"].
Proof. vm_compute. done. Qed.

Notation restored_ref_run := (restore sha printed no_parse keep_one ses "event:2" pruned.2).
Example restored_again : restored_ref_run.1 = true /\ map p_hidden (pairs restored_ref_run.2) = [false]
  /\ (Pruning.run clk sha printed no_parse no_fraction keep_one ses false false false idle_moment restored_ref_run.2).1 = Ok 0.
Proof. vm_compute. done. Qed.

(** An approval in the output protects it. *)
Example evidence_protected : mentions EVIDENCE (printed (JObj [("output", JStr "Approval: granted")])) = true /\ mentions EVIDENCE (printed (JObj [("output", JStr "a plan")])) = false.
Proof. vm_compute. done. Qed.

Lemma pruned_ok : is_ok pruned.1 = true.
Proof. vm_compute. reflexivity. Qed.

Lemma run_hides_unprotected_witness :
  exists qs, length qs = 1%nat /\ hides ses read_store qs pruned.2 /\ forall q, q ∈ qs -> may_hide sha printed no_parse keep_one ses read_store read_store (q_pair q).
Proof.
  pose proof (proj1 one_hidden) as Hok. destruct pruned as [[n|e] st'] eqn:E; [|discriminate Hok]. cbn [fst] in Hok. injection Hok as ->.
  destruct (run_hides_unprotected clk sha printed no_parse no_fraction keep_one ses false false false idle_moment read_store 1 st' E) as (k & qs & Hn & Hh & _ & Hm).
  assert (Hs : after_waiting idle_moment read_store k = read_store) by (destruct k; reflexivity). rewrite Hs in Hh, Hm.
  exists qs. split; [lia|]. split; [exact Hh|exact Hm].
Defined.

Lemma view_hides_unprotected_witness : forall p, p ∈ pairs pruned.2 -> v_turnId (p_call p) = Some (p_turnId p).
Proof. intros p Hp. destruct (view_hides_unprotected sha printed no_parse keep_one ses pruned.2 p Hp) as (H & _). exact H. Defined.

#[local] Open Scope Z_scope.

Definition DOTS : Ascii.ascii := Ascii.ascii_of_nat 133.
Definition store_of (w : World) : Store := {| core := w; visibility := []; calibration := ∅; usage := [] |}.

(** ** A swap *)

Definition small_window : Config :=
  {| windowTokens := 8; summarizer_digest := true; softRatio := 1 # 2; hardRatio := fl (8 # 10); summaryMaxTokens := 3; maxMessageTokens := 5 |}.
Definition json (v : js) : string := "{}".
Definition parse_none (s : string) : option js := None.
Definition no_pause : Pause := {| s_outcome := None; s_store := store_of talked; s_resume := fun st => st |}.

Notation view_of_talk := (Compaction.view sha json parse_none None small_window ∅ ses (store_of talked)).
Notation swapped := (swap clk ids DOTS small_window ∅ ses view_of_talk no_pause (store_of talked)).
Notation prepared_view := (prepare clk ids sha json parse_none DOTS None small_window ∅ ses no_pause (store_of talked)).

Example talk_counted : v_tokens view_of_talk = 8 /\ hardLimit small_window ∅ ses = 6.
Proof. vm_compute. done. Qed.

(** The first turn is covered by a summary, the second has lost its first message to the bound. *)
Example talk_prepared : match prepared_view.1 with
  | Ok v => map (fun y => (y_fromSeq y, y_toSeq y, y_text y)) (v_summaries v) = [(1, 2, "[summary; or")] /\ map x_text (v_messages v) = ["built"] /\ v_tokens v = 5
  | Err _ => False end.
Proof. vm_compute. done. Qed.

Lemma no_calibration w : calibrated (store_of w).
Proof. intros m f H. cbn [store_of calibration] in H. by rewrite lookup_empty in H. Qed.

Lemma talked_calibrated : calibrated prepared_view.2.
Proof.
  unfold calibrated. replace (calibration prepared_view.2) with (∅ : gmap string Q) by (vm_compute; reflexivity).
  intros m f H. rewrite lookup_empty in H. discriminate H.
Qed.

Lemma prepared_ok : is_ok prepared_view.1 = true.
Proof. vm_compute. reflexivity. Qed.
Lemma swapped_ok : match swapped.1 with Ok s => w_swapped s | Err _ => false end = true.
Proof. vm_compute. reflexivity. Qed.
Lemma segment_there : bool_decide (g_messages <$> segment small_window ∅ ses view_of_talk (store_of talked) = None) = false.
Proof. vm_compute. reflexivity. Qed.

Lemma prepare_within_limit_witness : match prepared_view.1 with Ok v => v_tokens v <= 7 | Err _ => False end.
Proof.
  pose proof prepared_ok as Hok. destruct prepared_view as [[v|e] st'] eqn:E; [|discriminate Hok]. cbn [fst].
  assert (calibrated st') as Hc by (change st' with (@snd (result SessionError ContextView) Store (Ok v, st')); rewrite <- E; apply talked_calibrated).
  assert (0 <= hardLimit small_window ∅ ses < 2 ^ 40) as Hl by (vm_compute; split; [discriminate|reflexivity]).
  pose proof (prepare_within_limit clk ids sha json parse_none DOTS None small_window ∅ ses no_pause (store_of talked) v st' E Hl Hc) as [H _].
  replace (hardLimit small_window ∅ ses) with 6 in H by (vm_compute; reflexivity). exact H.
Defined.

Lemma view_complete_witness : Forall (fun m => exists x, x ∈ v_messages view_of_talk /\ x_id x = m_id m) (contextMessages ses 0 (db talked)).
Proof.
  apply list.Forall_forall. intros m Hm. destruct (view_complete sha json parse_none None small_window ∅ ses (store_of talked) talked_wf) as [H _].
  destruct (H m Hm) as [Hc|(x & Hx & Hid & _)]; [vm_compute in Hc; discriminate Hc|]. exists x. split; [exact Hx|exact Hid].
Defined.

Lemma segment_takes_whole_turns_witness : match segment small_window ∅ ses view_of_talk (store_of talked) with Some seg => g_messages seg <> [] | None => False end.
Proof.
  pose proof segment_there as Hok. destruct (segment small_window ∅ ses view_of_talk (store_of talked)) as [seg|] eqn:E; [|discriminate Hok].
  destruct (segment_takes_whole_turns small_window ∅ ses view_of_talk (store_of talked) seg E) as (rest & _ & H & _). exact H.
Defined.

Lemma swap_hides_not_deletes_witness : match swapped.1 with Ok s => w_swapped s = true /\ exists range, w_range s = Some range | Err _ => False end.
Proof.
  pose proof swapped_ok as Hs. destruct swapped as [[s|e] st'] eqn:E; [|discriminate Hs]. cbn [fst] in *.
  pose proof (swap_hides_not_deletes clk ids DOTS small_window ∅ ses view_of_talk no_pause (store_of talked) s st' E) as H.
  split; [exact Hs|]. cbv zeta in H. rewrite Hs in H. destruct H as (seg & y & l & _ & Hr & _). eexists. exact Hr.
Defined.

Lemma fitTail_within_witness : estimateTokens (fitTail DOTS "a text of more than four tokens" 4) <= 4.
Proof. apply (fitTail_within DOTS "a text of more than four tokens" 4). lia. Defined.

(** ** One token too many *)

(** A message of 818 short lines, which the default configuration shows whole. *)
Definition long_text : string := join_lines (List.repeat "abc" 818).
Definition long_message : MessageRecord :=
  {| m_id := "msg_1"; m_session := ses; m_turnId := Some trn1; m_seq := 1; m_role := RUser; m_text := long_text; m_tokens := 818; m_createdAt := 0 |}.
Definition long_world : World :=
  {| db := set_messages [long_message] empty; reservations := []; tokens := 0; ticks := 0; fresh := 0; archived_log := []; audit_log := [] |}.

(** One observation: the provider measured 53 tokens where 6 were estimated. *)
Definition measured_store : Store := observe "gpt" (Some 6%Q) 53 (store_of long_world).
Definition default_models : gmap string (string * Config) := {[ses := ("gpt", defaultCompaction 8192)]}.

(** The share of the limit and the count of the text that fills it are rounded separately; together they can exceed the
    limit, by the one token the bound allows. *)
Example hard_limit_missed :
  match (prepare clk ids sha json parse_none DOTS None (defaultCompaction 8192) default_models ses no_pause measured_store).1 with
  | Ok v => hardLimit (defaultCompaction 8192) default_models ses = 7208 /\ v_tokens v = 7209
  | Err _ => False
  end.
Proof. vm_compute. done. Qed.
