(* ===== verification/IdentityCodes.v ===== *)
(** * Pairing codes, principals and the counters of failures

    Model of [packages/core/src/identity/codes.ts], [principals.ts],
    [invite-token.ts] (tokens) and [ratelimit.ts]. SHA-256 in hexadecimal and the
    random sources are parameters; [toUpperCase] and white space are those of ASCII,
    the characters a code is made of. The counters are the table [attempts], a map from
    its key; the clock is read by the caller. *)

From S2P Require Import Prelude.
From Stdlib Require Import Ascii.

(** ** Texts *)

(** [s.toUpperCase()] *)
Definition upper_ascii (c : ascii) : ascii :=
  let n := Ascii.nat_of_ascii c in
  if (Nat.leb 97 n && Nat.leb n 122)%bool then Ascii.ascii_of_nat (n - 32) else c.

Definition hex_digit (z : Z) : ascii := Ascii.ascii_of_nat (Z.to_nat (if z <? 10 then 48 + z else 87 + z)).
(** [buffer.toString("hex")] *)
Definition hex_of (l : list Z) : list ascii := l ≫= (fun b => [hex_digit (b / 16); hex_digit (b mod 16)]).

Definition hex_val (c : ascii) : option Z :=
  let n := Z.of_nat (Ascii.nat_of_ascii c) in
  if (48 <=? n) && (n <=? 57) then Some (n - 48)
  else if (97 <=? n) && (n <=? 102) then Some (n - 87)
  else if (65 <=? n) && (n <=? 70) then Some (n - 55) else None.
(** [Buffer.from(s, "hex")]: it ends at the first pair that is not two digits. *)
Fixpoint bytes_of_hex (l : list ascii) : list Z :=
  match l with
  | a :: b :: r => match hex_val a, hex_val b with Some x, Some y => (16 * x + y) :: bytes_of_hex r | _, _ => [] end
  | _ => []
  end.

(** ** Codes *)

(* @src identity/codes.ts 4 4 CODE_ALPHABET *)
Definition CODE_ALPHABET : string := "ABCDEFGHJKLMNPQRSTUVWXYZ23456789".
(* @src identity/codes.ts 5 5 CODE_LENGTH *)
Definition CODE_LENGTH : nat := 8.

Section codes.
(** The [n]-th result of [randomInt(bound)] and of [randomBytes(size)], and SHA-256 of a text as a hexadecimal text. *)
Context (random_int : nat -> Z -> Z) (random_bytes : nat -> nat -> list Z) (sha256 : string -> string).

Definition symbol (i : Z) : ascii := default "u"%char (String.get (Z.to_nat i) CODE_ALPHABET).

(** A fresh code from the draws [n], [n + 1], … *)
(* @src identity/codes.ts 8 12 generateCode *)
Definition generateCode (n : nat) : string :=
  of_chars (map (fun i => symbol (random_int (n + i)%nat (slen CODE_ALPHABET))) (seq 0 CODE_LENGTH)).

(* @src identity/codes.ts 15 17 normalizeCode *)
Definition normalizeCode (raw : string) : string :=
  of_chars (bfilter (fun c => negb (is_space c || Ascii.eqb c "-")) (map upper_ascii (chars raw))).

(* @src identity/codes.ts 19 19 newSalt *)
Definition newSalt (n : nat) : string := of_chars (hex_of (random_bytes n 16)).

Definition NUL : string := String (Ascii.ascii_of_nat 0) EmptyString.

(* @src identity/codes.ts 22 24 hashCode *)
Definition hashCode (salt code : string) : string := sha256 (salt +:+ NUL +:+ code).

(* @src identity/codes.ts 26 29 hashesEqual *)
Definition hashesEqual (a b : string) : bool :=
  let x := bytes_of_hex (chars a) in let y := bytes_of_hex (chars b) in
  Nat.eqb (length x) (length y) && bool_decide (x = y).

(** Big-endian bytes of the milliseconds, as [writeUIntBE(nowMs, 0, 6)] writes them; out of range it throws. *)
Definition be48 (t : Z) : list Z := map (fun i => (t / 2 ^ (8 * (5 - Z.of_nat i))) mod 256) (seq 0 6).

(* @src identity/codes.ts 32 39 uuidv7 *)
Definition uuidv7 (nowMs : Z) (n : nat) : option string :=
  if (0 <=? nowMs) && (nowMs <? 2 ^ 48) then
    let b := random_bytes n 16 in
    let b := be48 nowMs ++ drop 6 b in
    let b := alter (fun x => Z.lor (Z.land x 15) 112) 6%nat b in
    let b := alter (fun x => Z.lor (Z.land x 63) 128) 8%nat b in
    let h := hex_of b in
    let part (f t : nat) := take (t - f) (drop f h) in
    Some (of_chars (part 0 8 ++ ["-"%char] ++ part 8 12 ++ ["-"%char] ++ part 12 16 ++ ["-"%char] ++ part 16 20 ++ ["-"%char] ++ drop 20 h))%nat
  else None.

(** ** Principals *)

Definition hex_lower (c : ascii) : bool := let n := Ascii.nat_of_ascii c in ((Nat.leb 97 n && Nat.leb n 102) || (Nat.leb 48 n && Nat.leb n 57))%bool.

(* @src identity/principals.ts 5 8 isUserPrincipal *)
Definition isUserPrincipal (v : string) : bool :=
  (starts_with "user:v1:" v || starts_with "user:v2:" v) && (let d := drop 8 (chars v) in Nat.eqb (length d) 64 && forallb hex_lower d).

(** [CONTROL]: a character below space, or DEL. *)
Definition is_control (c : ascii) : bool := let n := Ascii.nat_of_ascii c in (Nat.ltb n 32 || Nat.eqb n 127)%bool.

(** [None]: the id is refused. *)
(* @src identity/principals.ts 10 15 deriveUserPrincipal *)
Definition deriveUserPrincipal (harnessUserId : string) : option string :=
  if is_empty harnessUserId || (128 <? slen harnessUserId) || existsb is_control (chars harnessUserId) then None
  else Some ("user:v2:" +:+ sha256 harnessUserId).

(** ** Invitation tokens *)

(* @src identity/invite-token.ts 10 12 TOKEN_SHAPE *)
Definition token_char (c : ascii) : bool :=
  let n := Ascii.nat_of_ascii c in
  ((Nat.leb 65 n && Nat.leb n 90) || (Nat.leb 97 n && Nat.leb n 122) || (Nat.leb 48 n && Nat.leb n 57) || Nat.eqb n 95 || Nat.eqb n 45)%bool.

(* @src identity/invite-token.ts 17 17 isInviteTokenShape *)
Definition isInviteTokenShape (raw : string) : bool := Nat.eqb (String.length raw) 43 && forallb token_char (chars raw).

(* @src identity/invite-token.ts 23 24 hashInviteToken *)
Definition hashInviteToken (token : string) : string := sha256 ("plur1bus-invite-v1" +:+ NUL +:+ token).

(* @src identity/invite-token.ts 38 38 inviteLink *)
Definition inviteLink (origin token : string) : string := origin +:+ "/#/invite/" +:+ token.
End codes.

(** ** The counters *)

(* @src identity/ratelimit.ts 3 3 LimitSpec *)
Record LimitSpec : Type := { limit : Z; windowMs : Z; lockMs : Z }.
(* @src identity/ratelimit.ts 6 6 SOURCE_LIMIT *)
Definition SOURCE_LIMIT : LimitSpec := {| limit := 5; windowMs := 15 * 60000; lockMs := 15 * 60000 |}.
(* @src identity/ratelimit.ts 7 7 GLOBAL_LIMIT *)
Definition GLOBAL_LIMIT : LimitSpec := {| limit := 20; windowMs := 15 * 60000; lockMs := 15 * 60000 |}.
(* @src identity/ratelimit.ts 8 8 GLOBAL_KEY *)
Definition GLOBAL_KEY : string := "global".

Record Attempt : Type := { failures : Z; window_start : Z; locked_until : Z }.
Notation Attempts := (gmap string Attempt).

(* @src identity/ratelimit.ts 21 25 lockedFor *)
Definition lockedFor (keys : list string) (now : Z) (m : Attempts) : Z :=
  fold_left (fun wait k => match m !! k with Some r => if now <? locked_until r then Z.max wait (locked_until r - now) else wait | None => wait end) keys 0.

(* @src identity/ratelimit.ts 26 32 failure *)
Definition failure (key : string) (spec : LimitSpec) (now : Z) (m : Attempts) : Attempts :=
  let r := m !! key in
  let current := match r with Some r => now - window_start r <=? windowMs spec | None => false end in
  let f := (match r with Some r => if current then failures r else 0 | None => 0 end) + 1 in
  let start := match r with Some r => if current then window_start r else now | None => now end in
  let until := match r with Some r => locked_until r | None => 0 end in
  <[key := if limit spec <=? f then {| failures := 0; window_start := now; locked_until := now + lockMs spec |}
           else {| failures := f; window_start := start; locked_until := until |}]> m.

(* @src identity/ratelimit.ts 33 33 success *)
Definition success (key : string) (m : Attempts) : Attempts := delete key m.

(* @src identity/ratelimit.ts 38 43 release *)
Definition release (key : string) (spec : LimitSpec) (eventAt now : Z) (m : Attempts) : Attempts :=
  match m !! key with
  | None => m
  | Some r =>
      if eventAt <? now - windowMs spec then m
      else if (0 <? failures r) && (now - window_start r <=? windowMs spec) then
        <[key := {| failures := failures r - 1; window_start := window_start r; locked_until := locked_until r |}]> m
      else if (failures r =? 0) && (now <? locked_until r) then
        <[key := {| failures := limit spec - 1; window_start := window_start r; locked_until := 0 |}]> m
      else m
  end.

(** With the two moments the statement is given. *)
(* @src identity/ratelimit.ts 44 44 prune *)
Definition prune (now1 now2 : Z) (m : Attempts) : Attempts :=
  filter (fun p => (locked_until p.2 <? now1) && (window_start p.2 <? now2 - 24 * 3600000) = false) m.
