(* ===== verification/Identity.v ===== *)
(** * The identity service

    Model of [packages/core/src/identity/service.ts] with [authorization.ts] and the
    constraints of [store.ts]: people, the channel handles linked to them, the pairing
    codes that prove a handle, and the counters that bound guessing. A table is the
    list of its rows in the order they were inserted. Pairings live in a temporary
    table: opening the service starts without them. What the service answers about
    stored principals is included; the audit sink may fail, which changes nothing, so
    only what it is handed is kept. *)

From S2P Require Import Prelude Rbac IdentityCodes.

(** ** Data *)

(* @src identity/store.ts 7 7 IdentityErrorCode *)
Inductive IdentityError : Type :=
| InvalidParams (field : string) | NotFound | InvalidCode | Expired | RateLimited (retryAfterMs : Z) | Conflict | LimitReached | Storage | Denied
| Sqlite.

(* @src identity/service.ts 17 17 Actor *)
Record Actor : Type := { user : string; host : string; a_kind : option string; a_role : option string; a_scopes : option (list string) }.
(* @src identity/service.ts 19 19 ChannelIdentity *)
Record ChannelIdentity : Type := { channel : string; accountId : string; ci_userId : string; displayName : option string }.
(* @src identity/service.ts 20 20 ProofMethod *)
Inductive ProofMethod : Type := PairingCode | OwnerManual | SignedChallenge.
(* @src identity/service.ts 21 21 Human *)
Record Human : Type := { h_id : string; h_displayName : string; h_createdAt : Z; h_createdBy : string }.
(* @src identity/service.ts 22 27 Link *)
Record Link : Type := {
  l_id : string; humanId : string; l_handle : ChannelIdentity; v1Principal : string; proofMethod : ProofMethod; linkedAt : Z; linkedBy : string;
  revokedAt : option Z; revokedBy : option string
}.
(* @src identity/service.ts 28 28 PairingState *)
Inductive PairingState : Type := Pending | Claimed | Confirmed | Declined | PExpired.
#[export] Instance PairingState_eq_dec : EqDecision PairingState.
Proof. solve_decision. Defined.
(** The columns that [claim] writes together. *)
Record Claim : Type := { claim_accountId : string; claim_userId : string; claim_displayName : option string; claimedAt : Z; confirmBy : Z }.
(** A row of [pairings]. *)
(* @src identity/service.ts 29 32 Pairing *)
Record Pairing : Type := {
  p_id : string; p_human : string; p_channel : string; p_salt : string; code_hash : string; p_state : PairingState; p_createdAt : Z; p_createdBy : string;
  p_expiresAt : Z; p_claim : option Claim; resolvedAt : option Z; p_link : option string
}.
Inductive BackfillState : Type := BRunning | BApplied | BReversing | BReversed.
#[export] Instance BackfillState_eq_dec : EqDecision BackfillState.
Proof. solve_decision. Defined.
Record Backfill : Type := { b_link : string; operation_id : string; b_state : BackfillState; actor_hash : string; b_at : Z; b_count : option Z; b_receipt : option string }.
(* @src identity/service.ts 33 33 AuditEvent *)
Record AuditEvent : Type := { e_action : string; e_target : string; e_detail : list (string * js); e_actor : option (string * string) }.

(* @src identity/service.ts 42 42 DEFAULT_CODE_TTL_MS *)
Definition DEFAULT_CODE_TTL_MS : Z := 10 * 60000.
(* @src identity/service.ts 44 44 MAX_CODE_TTL_MS *)
Definition MAX_CODE_TTL_MS : Z := 60 * 60000.
(* @src identity/service.ts 45 45 MAX_PENDING_PER_HUMAN_CHANNEL *)
Definition MAX_PENDING_PER_HUMAN_CHANNEL : nat := 3.
(* @src identity/service.ts 46 46 MAX_FIELD *)
Definition MAX_FIELD : Z := 128.
(* @src identity/service.ts 49 49 PRUNE_AFTER_MS *)
Definition PRUNE_AFTER_MS : Z := 30 * 24 * 3600000.

(* @src identity/store.ts 23 62 MIGRATIONS *)
Record Db : Type := { humans : list Human; identities : list Link; pairings : list Pairing; attempts : Attempts; backfills : list Backfill }.
Record World : Type := { db : Db; ticks : nat; draws : nat; log : list AuditEvent }.
Notation M := (SE World IdentityError).

Definition set_humans (l : list Human) (d : Db) : Db := {| humans := l; identities := identities d; pairings := pairings d; attempts := attempts d; backfills := backfills d |}.
Definition set_identities (l : list Link) (d : Db) : Db := {| humans := humans d; identities := l; pairings := pairings d; attempts := attempts d; backfills := backfills d |}.
Definition set_pairings (l : list Pairing) (d : Db) : Db := {| humans := humans d; identities := identities d; pairings := l; attempts := attempts d; backfills := backfills d |}.
Definition set_attempts (m : Attempts) (d : Db) : Db := {| humans := humans d; identities := identities d; pairings := pairings d; attempts := m; backfills := backfills d |}.
Definition set_backfills (l : list Backfill) (d : Db) : Db := {| humans := humans d; identities := identities d; pairings := pairings d; attempts := attempts d; backfills := l |}.

Definition with_db (d : Db) (w : World) : World := {| db := d; ticks := ticks w; draws := draws w; log := log w |}.
Definition on_db (f : Db -> Db) : M unit := modify (fun w => with_db (f (db w)) w).
Definition read {A} (f : Db -> A) : M A := gets (fun w => f (db w)).

(* @src identity/service.ts 109 114 tx *)
Definition tx {A} (m : M A) : M A := fun w =>
  match m w with
  | (Ok a, w') => (Ok a, w')
  | (Err e, w') => (Err e, with_db (db w) w')
  end.

(** ** What a field may be *)

(* @src identity/service.ts 52 55 text *)
Definition text (v field : string) (max : Z) : M unit :=
  require (negb (is_empty v) && (slen v <=? max) && negb (existsb is_control (chars v))) (InvalidParams field).

Definition low_letter (c : Ascii.ascii) : bool := let n := Ascii.nat_of_ascii c in (Nat.leb 97 n && Nat.leb n 122)%bool.
Definition channel_char (c : Ascii.ascii) : bool :=
  let n := Ascii.nat_of_ascii c in (low_letter c || (Nat.leb 48 n && Nat.leb n 57) || Nat.eqb n 46 || Nat.eqb n 95 || Nat.eqb n 45)%bool.
(* @src identity/service.ts 57 57 isChannelName *)
Definition isChannelName (v : string) : bool :=
  match chars v with c :: r => low_letter c && Nat.leb (length r) 31 && forallb channel_char r | [] => false end.
(* @src identity/service.ts 58 61 channelOf *)
Definition channelOf (v : string) : M unit := require (isChannelName v) (InvalidParams "channel").
(* @src identity/service.ts 62 66 identityOf *)
Definition identityOf (i : ChannelIdentity) : M unit :=
  channelOf (channel i) ;; text (accountId i) "accountId" MAX_FIELD ;; text (ci_userId i) "userId" MAX_FIELD ;;
  match displayName i with Some n => text n "displayName" MAX_FIELD | None => mret tt end.

(** The three columns that name a handle. *)
Definition handle (i : ChannelIdentity) : string * string * string := (channel i, accountId i, ci_userId i).
Definition same_handle (i j : ChannelIdentity) : bool := bool_decide (handle i = handle j).
Definition active (l : Link) : bool := bool_decide (revokedAt l = None).

(** ** Who may *)

(* @src identity/authorization.ts 6 6 IdentityAction *)
Inductive IdentityAction : Type := ActCreate | ActLink | ActUnlink | ActPair | ActConfirm | ActBackfill.

(* @src identity/authorization.ts 11 21 rbacAuthorizePort *)
Definition rbacAuthorizePort (actor : Actor) (act : IdentityAction) (harnessUserId : string) : bool :=
  match a_role actor with
  | None => false
  | Some r =>
      bool_decide (a_kind actor = Some "person") && negb (is_empty r) &&
      let p := Some {| userId := user actor; kind := a_kind actor; role := r; agentRights := None; projectRights := None; p_tokenScopes := a_scopes actor;
                       bindingAgentId := None; breakGlass := [] |} in
      let elevated := is_allow (authorize p "users.manage" (Some ResSystem) None) in
      match act with
      | ActBackfill | ActCreate => elevated
      | _ => elevated || (String.eqb (user actor) harnessUserId && is_allow (authorize p "my.write" (Some (ResUser harnessUserId)) None))
      end
  end.

Section service.
Context (clk : nat -> Z) (random_int : nat -> Z -> Z) (random_bytes : nat -> nat -> list Z) (sha256 : string -> string) (stringify : js -> string)
  (port : Actor -> IdentityAction -> string -> bool).

(* @src identity/authorization.ts 22 25 requireAuthorization *)
Definition requireAuthorization (actor : Actor) (act : IdentityAction) (u : string) : M unit :=
  require (bool_decide (a_kind actor = Some "person") && port actor act u) Denied.

Definition now : M Z := fun w => (Ok (clk (ticks w)), {| db := db w; ticks := S (ticks w); draws := draws w; log := log w |}).
(** The place of the next [n] draws of a random source. *)
Definition draw (n : nat) : M nat := fun w => (Ok (draws w), {| db := db w; ticks := ticks w; draws := (draws w + n)%nat; log := log w |}).
Definition newId (t : Z) : M string :=
  n ← draw 1; match uuidv7 random_bytes t n with Some id => mret id | None => throw Sqlite end.

(** ** The audit *)

Definition digest (s : string) : string := sha256 s.
Definition safe_detail (p : string * js) : string * js :=
  (p.1, match p.2 with JStr s => if includes ["channel"; "proof"; "result"; "reason"] p.1 then JStr s else JStr (digest s) | v => v end).
Definition detail_is (k v : string) (e : AuditEvent) : bool := bool_decide (jget k (JObj (e_detail e)) = JStr v).

(** The second name an event is told under. *)
Definition event_name (e : AuditEvent) : option string :=
  if String.eqb (e_action e) "identity.link" then Some "link.approved"
  else if String.eqb (e_action e) "identity.pair.start" then Some "link.requested"
  else if String.eqb (e_action e) "identity.pair.confirm" then Some (if detail_is "result" "confirmed" e then "link.approved" else "link.declined")
  else if String.eqb (e_action e) "identity.unlink" then Some "link.removed"
  else if String.eqb (e_action e) "identity.pair.rate-limited" then Some "pairing.locked"
  else if String.eqb (e_action e) "identity.pair.claim" && detail_is "result" "refused" e then Some "pairing.failed"
  else None.

Definition named (n : string) (e : AuditEvent) : AuditEvent := {| e_action := n; e_target := e_target e; e_detail := e_detail e; e_actor := e_actor e |}.
Definition safe_event (e : AuditEvent) : AuditEvent :=
  {| e_action := e_action e; e_target := digest (e_target e); e_detail := map safe_detail (e_detail e);
     e_actor := (fun a => (digest a.1, digest a.2)) <$> e_actor e |}.

(* @src identity/service.ts 94 106 audit *)
Definition audit (e : AuditEvent) : M unit :=
  modify (fun w => {| db := db w; ticks := ticks w; draws := draws w;
                      log := log w ++ safe_event e :: match event_name e with Some n => [named n (safe_event e)] | None => [] end |}).

Definition event (action target : string) (detail : list (string * js)) (actor : option Actor) : AuditEvent :=
  {| e_action := action; e_target := target; e_detail := detail; e_actor := (fun a => (user a, host a)) <$> actor |}.
Definition handle_detail (i : ChannelIdentity) : list (string * js) :=
  [("channel", JStr (channel i)); ("accountId", JStr (accountId i)); ("userId", JStr (ci_userId i))].

(** ** Rows *)

Definition find_human (id : string) (d : Db) : option Human := bfind (fun h => String.eqb (h_id h) id) (humans d).
Definition find_link (id : string) (d : Db) : option Link := bfind (fun l => String.eqb (l_id l) id) (identities d).
Definition find_pairing (id : string) (d : Db) : option Pairing := bfind (fun p => String.eqb (p_id p) id) (pairings d).

(* @src identity/service.ts 126 130 requireHuman *)
Definition requireHuman (id : string) : M Human :=
  text id "humanId" 64 ;;
  h ← read (find_human id);
  match h with Some h => mret h | None => throw NotFound end.

(* @src identity/service.ts 131 136 activeLink *)
Definition activeLink (i : ChannelIdentity) (d : Db) : option Link := bfind (fun l => same_handle (l_handle l) i && active l) (identities d).

(* @src identity/service.ts 69 71 v1PrincipalOf *)
Definition v1PrincipalOf (i : ChannelIdentity) : string :=
  "user:v1:" +:+ sha256 (stringify (JArr [JStr (channel i); JStr (accountId i); JStr (ci_userId i)])).

(* @src identity/service.ts 138 143 insertLink *)
Definition insertLink (human : string) (i : ChannelIdentity) (proof : ProofMethod) (by_ : string) : M Link :=
  t ← now;
  id ← newId t;
  at_ ← now;
  let l := {| l_id := id; humanId := human; l_handle := i; v1Principal := v1PrincipalOf i; proofMethod := proof; linkedAt := at_; linkedBy := by_;
              revokedAt := None; revokedBy := None |} in
  fits ← read (fun d => bool_decide (find_link id d = None) && bool_decide (is_Some (find_human human d)) && bool_decide (activeLink i d = None));
  require fits Sqlite ;;
  on_db (fun d => set_identities (identities d ++ [l]) d) ;;
  mret l.

(* @src identity/service.ts 148 154 createHuman *)
Definition createHuman (name : string) (actor : Actor) : M Human :=
  requireAuthorization actor ActCreate "" ;;
  text name "displayName" MAX_FIELD ;;
  t0 ← now;
  id ← newId t0;
  t ← now;
  let h := {| h_id := id; h_displayName := name; h_createdAt := t; h_createdBy := user actor |} in
  fits ← read (fun d => bool_decide (find_human id d = None));
  require fits Sqlite ;;
  on_db (fun d => set_humans (humans d ++ [h]) d) ;;
  audit (event "identity.human.create" id [("displayName", JStr name)] (Some actor)) ;;
  mret h.

Definition proof_text (p : ProofMethod) : string := match p with PairingCode => "pairing_code" | OwnerManual => "owner_manual" | SignedChallenge => "signed_challenge" end.

(* @src identity/service.ts 157 168 link *)
Definition link (human : string) (i : ChannelIdentity) (actor : Actor) : M Link :=
  requireAuthorization actor ActLink human ;;
  identityOf i ;;
  audit (event "link.requested" human (handle_detail i) (Some actor)) ;;
  l ← tx (
    requireHuman human ;;
    taken ← read (activeLink i);
    match taken with
    | Some _ => throw Conflict
    | None => insertLink human i OwnerManual (user actor)
    end);
  audit (event "identity.link" (l_id l) (("humanId", JStr (humanId l)) :: handle_detail i ++ [("proof", JStr (proof_text (proofMethod l)))]) (Some actor)) ;;
  mret l.

(** ** Pairing *)

Definition upd_pairing (id : string) (f : Pairing -> Pairing) (d : Db) : Db :=
  set_pairings (map (fun p => if String.eqb (p_id p) id then f p else p) (pairings d)) d.
Definition resolved (state : PairingState) (t : Z) (p : Pairing) : Pairing :=
  {| p_id := p_id p; p_human := p_human p; p_channel := p_channel p; p_salt := p_salt p; code_hash := code_hash p; p_state := state; p_createdAt := p_createdAt p;
     p_createdBy := p_createdBy p; p_expiresAt := p_expiresAt p; p_claim := p_claim p; resolvedAt := Some t; p_link := p_link p |}.
Definition confirmed (t : Z) (l : string) (p : Pairing) : Pairing :=
  {| p_id := p_id p; p_human := p_human p; p_channel := p_channel p; p_salt := p_salt p; code_hash := code_hash p; p_state := Confirmed; p_createdAt := p_createdAt p;
     p_createdBy := p_createdBy p; p_expiresAt := p_expiresAt p; p_claim := p_claim p; resolvedAt := Some t; p_link := Some l |}.
Definition claimed (c : Claim) (p : Pairing) : Pairing :=
  {| p_id := p_id p; p_human := p_human p; p_channel := p_channel p; p_salt := p_salt p; code_hash := code_hash p; p_state := Claimed; p_createdAt := p_createdAt p;
     p_createdBy := p_createdBy p; p_expiresAt := p_expiresAt p; p_claim := Some c; resolvedAt := resolvedAt p; p_link := p_link p |}.

(* @src identity/service.ts 172 181 revokePairing *)
Definition revokePairing (id : string) (actor : Actor) : M unit :=
  tx (
    text id "pairingId" 64 ;;
    row ← read (find_pairing id);
    match row with
    | None => throw NotFound
    | Some r =>
        requireAuthorization actor ActConfirm (p_human r) ;;
        require (negb (bool_decide (p_state r = Confirmed))) Conflict ;;
        t ← now;
        on_db (upd_pairing id (resolved Declined t))
    end) ;;
  audit (event "identity.pair.revoke" id [("result", JStr "revoked")] (Some actor)).

Definition count_failure (key : string) (spec : LimitSpec) : M unit :=
  t ← now; on_db (fun d => set_attempts (failure key spec t (attempts d)) d).
Definition locked (keys : list string) : M Z :=
  t ← now; read (fun d => lockedFor keys t (attempts d)).

(** A pairing that waits for a claim or for the owner. *)
Definition live_pairing (t : Z) (p : Pairing) : bool :=
  match p_state p with
  | Pending => t <? p_expiresAt p
  | Claimed => match p_claim p with Some c => t <? confirmBy c | None => false end
  | _ => false
  end.

Definition ISSUE_GLOBAL : string := "issue:global".
Definition ISSUE_SOURCE_LIMIT : LimitSpec := {| limit := 10; windowMs := 15 * 60000; lockMs := 15 * 60000 |}.
Definition ISSUE_GLOBAL_LIMIT : LimitSpec := {| limit := 100; windowMs := 15 * 60000; lockMs := 15 * 60000 |}.

Record Issued : Type := { pairingId : string; code : string; i_channel : string; i_expiresAt : Z }.

Section ttl.
(** The lifetime of a code by default, and the longest that may be asked for. *)
Context (ttl ttlCap : Z).

(* @src identity/service.ts 183 206 startPairing *)
Definition startPairing (human chan : string) (ttlMs : option num) (actor : Actor) : M Issued :=
  lifetime ← (match ttlMs with
              | None => mret ttl
              | Some (Fin z) => require ((60000 <=? z) && (z <=? ttlCap)) (InvalidParams "ttlMs") ;; mret z
              | Some _ => throw (InvalidParams "ttlMs")
              end);
  requireAuthorization actor ActPair human ;;
  channelOf chan ;;
  out ← tx (
    requireHuman human ;;
    t ← now;
    let userKey := "issue:" +:+ digest human in
    wait ← locked [userKey; ISSUE_GLOBAL];
    (if wait =? 0 then mret tt
     else audit (event "identity.pair.rate-limited" userKey [("retryAfterMs", JNum (Fin wait)); ("reason", JStr "issuance")] (Some actor)) ;; throw (RateLimited wait)) ;;
    pending ← read (fun d => length (bfilter (fun p => String.eqb (p_human p) human && String.eqb (p_channel p) chan && live_pairing t p) (pairings d)));
    require (Nat.ltb pending MAX_PENDING_PER_HUMAN_CHANNEL) LimitReached ;;
    count_failure userKey ISSUE_SOURCE_LIMIT ;;
    count_failure ISSUE_GLOBAL ISSUE_GLOBAL_LIMIT ;;
    n ← draw CODE_LENGTH;
    let c := generateCode random_int n in
    m ← draw 1;
    let salt := newSalt random_bytes m in
    id ← newId t;
    let p := {| p_id := id; p_human := human; p_channel := chan; p_salt := salt; code_hash := hashCode sha256 salt c; p_state := Pending; p_createdAt := t;
                p_createdBy := user actor; p_expiresAt := t + lifetime; p_claim := None; resolvedAt := None; p_link := None |} in
    fits ← read (fun d => bool_decide (find_pairing id d = None));
    require fits Sqlite ;;
    on_db (fun d => set_pairings (pairings d ++ [p]) d) ;;
    mret {| pairingId := id; code := c; i_channel := chan; i_expiresAt := t + lifetime |});
  audit (event "identity.pair.start" (pairingId out) [("humanId", JStr human); ("channel", JStr chan); ("expiresAt", JNum (Fin (i_expiresAt out)))] (Some actor)) ;;
  mret out.

(** What a claim comes to, before it is told. *)
Inductive Outcome : Type := OOk (p : Pairing) (confirm_by : Z) | OFail (why : string) | OLocked (ms : Z) | OTaken.

(** Whether a row's code is the presented one. *)
Definition matches_code (c : string) (r : Pairing) : bool := hashesEqual (hashCode sha256 (p_salt r) c) (code_hash r) && Nat.eqb (String.length c) CODE_LENGTH.

(** Every row of the channel is looked at; the last match decides. *)
Definition search (c : string) (t : Z) (rows : list Pairing) : option Pairing * string :=
  fold_left (fun acc r =>
    if negb (matches_code c r) then acc
    else if bool_decide (p_state r = Pending) && (t <? p_expiresAt r) then (Some r, acc.2)
    else (acc.1, if bool_decide (p_state r = Pending) then "expired" else "reused")) rows (None, "wrong").

Definition src_key (i : ChannelIdentity) : string := "src:" +:+ digest (stringify (JArr [JStr (channel i); JStr (accountId i); JStr (ci_userId i)])).
Definition claim_key (human : string) : string := "claim:" +:+ digest human.

(** A claim waits no longer than its code, when the code lives for less than the default. *)
Definition confirm_deadline (t : Z) (r : Pairing) : Z :=
  if p_expiresAt r - p_createdAt r <? ttl then Z.min (t + ttl) (p_expiresAt r) else t + ttl.

(* @src identity/service.ts 217 240 claim *)
Definition claim_tx (raw : string) (i : ChannelIdentity) : M Outcome :=
  let srcKey := src_key i in
  tx (
    wait ← locked [srcKey; GLOBAL_KEY];
    if 0 <? wait then mret (OLocked wait)
    else
      t ← now;
      let c := if slen raw <=? 128 then normalizeCode raw else "" in
      rows ← read (fun d => bfilter (fun p => String.eqb (p_channel p) (channel i)) (pairings d));
      match search c t rows with
      | (None, why) => count_failure srcKey SOURCE_LIMIT ;; count_failure GLOBAL_KEY GLOBAL_LIMIT ;; mret (OFail why)
      | (Some hit, _) =>
          taken ← read (activeLink i);
          match taken with
          | Some _ => mret OTaken
          | None =>
              let userKey := claim_key (p_human hit) in
              userWait ← locked [userKey];
              if negb (userWait =? 0) then mret (OLocked userWait)
              else
                count_failure userKey SOURCE_LIMIT ;;
                let by_ := confirm_deadline t hit in
                on_db (upd_pairing (p_id hit) (claimed {| claim_accountId := accountId i; claim_userId := ci_userId i; claim_displayName := displayName i;
                                                          claimedAt := t; confirmBy := by_ |})) ;;
                on_db (fun d => set_attempts (success srcKey (attempts d)) d) ;;
                mret (OOk hit by_)
          end
      end).

(* @src identity/service.ts 214 254 claim *)
Definition claim (raw : string) (i : ChannelIdentity) : M (string * Z) :=
  identityOf i ;;
  outcome ← claim_tx raw i;
  match outcome with
  | OLocked ms => audit (event "identity.pair.rate-limited" (src_key i) (handle_detail i ++ [("retryAfterMs", JNum (Fin ms))]) None) ;; throw (RateLimited ms)
  | OFail why => audit (event "identity.pair.claim" (src_key i) (handle_detail i ++ [("result", JStr "refused"); ("reason", JStr why)]) None) ;; throw InvalidCode
  | OTaken => throw Conflict
  | OOk p by_ =>
      audit (event "identity.pair.claim" (p_id p) (handle_detail i ++ [("result", JStr "awaiting-confirmation"); ("humanId", JStr (p_human p))]) None) ;;
      mret (p_id p, by_)
  end.
End ttl.

Record Settled : Type := { s_state : PairingState; s_link : option Link; refuse : option IdentityError }.
Definition state_text (s : PairingState) : string :=
  match s with Pending => "pending" | Claimed => "claimed" | Confirmed => "confirmed" | Declined => "declined" | PExpired => "expired" end.

(** The handle that claimed a row. *)
Definition claimant (r : Pairing) (c : Claim) : ChannelIdentity :=
  {| channel := p_channel r; accountId := claim_accountId c; ci_userId := claim_userId c; displayName := claim_displayName c |}.

(* @src identity/service.ts 258 280 confirm *)
Definition confirm_tx (id : string) (approve : bool) (actor : Actor) : M Settled :=
  tx (
    row ← read (find_pairing id);
    match row with
    | None => throw NotFound
    | Some r =>
        requireAuthorization actor ActConfirm (p_human r) ;;
        match p_state r, p_claim r with
        | Claimed, Some c =>
            t ← now;
            if confirmBy c <=? t then
              on_db (upd_pairing id (resolved PExpired t)) ;; mret {| s_state := PExpired; s_link := None; refuse := Some Expired |}
            else
              let i := claimant r c in
              if negb approve then on_db (upd_pairing id (resolved Declined t)) ;; mret {| s_state := Declined; s_link := None; refuse := None |}
              else
                taken ← read (activeLink i);
                match taken with
                | Some _ => on_db (upd_pairing id (resolved Declined t)) ;; mret {| s_state := Declined; s_link := None; refuse := Some Conflict |}
                | None =>
                    requireHuman (p_human r) ;;
                    l ← insertLink (p_human r) i PairingCode (user actor);
                    t' ← now;
                    on_db (fun d => set_attempts (release (claim_key (p_human r)) SOURCE_LIMIT (claimedAt c) t' (attempts d)) d) ;;
                    on_db (upd_pairing id (confirmed t (l_id l))) ;;
                    mret {| s_state := Confirmed; s_link := Some l; refuse := None |}
                end
        | _, _ => throw Conflict
        end
    end).

(* @src identity/service.ts 257 284 confirm *)
Definition confirm (id : string) (approve : bool) (actor : Actor) : M (PairingState * option Link) :=
  text id "pairingId" 64 ;;
  out ← confirm_tx id approve actor;
  audit (event "identity.pair.confirm" id (("result", JStr (state_text (s_state out))) ::
    match s_link out with
    | Some l => [("linkId", JStr (l_id l)); ("humanId", JStr (humanId l))] ++ handle_detail (l_handle l)
    | None => []
    end) (Some actor)) ;;
  match refuse out with
  | Some e => throw e
  | None => mret (s_state out, s_link out)
  end.

(** ** Links *)

Definition revoked (t : Z) (by_ : string) (l : Link) : Link :=
  {| l_id := l_id l; humanId := humanId l; l_handle := l_handle l; v1Principal := v1Principal l; proofMethod := proofMethod l; linkedAt := linkedAt l;
     linkedBy := linkedBy l; revokedAt := Some t; revokedBy := Some by_ |}.
Definition upd_link (id : string) (f : Link -> Link) (d : Db) : Db := set_identities (map (fun l => if String.eqb (l_id l) id then f l else l) (identities d)) d.

(* @src identity/service.ts 328 328 backfillRecord *)
Definition backfillRecord (id : string) (d : Db) : option Backfill := bfind (fun b => String.eqb (b_link b) id) (backfills d).

(* @src identity/service.ts 287 301 unlink *)
Definition unlink (id : string) (actor : Actor) : M Link :=
  text id "linkId" 64 ;;
  l ← tx (
    row ← read (find_link id);
    match row with
    | None => throw NotFound
    | Some r =>
        requireAuthorization actor ActUnlink (humanId r) ;;
        b ← read (backfillRecord id);
        require (match b with Some b => negb (bool_decide (b_state b ∈ [BRunning; BReversing])) | None => true end) Conflict ;;
        require (active r) Conflict ;;
        t ← now;
        on_db (upd_link id (revoked t (user actor))) ;;
        mret (revoked t (user actor) r)
    end);
  audit (event "identity.unlink" id (("humanId", JStr (humanId l)) :: handle_detail (l_handle l)) (Some actor)) ;;
  mret l.

(** ** Reading *)

Definition link_before (a b : Link) : bool := (linkedAt a <? linkedAt b) || ((linkedAt a =? linkedAt b) && negb (str_ltb (l_id b) (l_id a))).
Definition by_link (l : list Link) : list Link := sort_by link_before l.

Definition shown (t : Z) (p : Pairing) : PairingState :=
  match p_state p with
  | Pending => if p_expiresAt p <=? t then PExpired else Pending
  | Claimed => match p_claim p with Some c => if confirmBy c <=? t then PExpired else Claimed | None => Claimed end
  | s => s
  end.

(* @src identity/service.ts 303 317 list *)
Definition list_all (includeRevoked includeResolved : bool) : M (list (Human * list Link) * list (Pairing * PairingState)) :=
  links ← read (fun d => by_link (if includeRevoked then identities d else bfilter active (identities d)));
  people ← read (fun d => sort_by (fun a b => (h_createdAt a <? h_createdAt b) || ((h_createdAt a =? h_createdAt b) && negb (str_ltb (h_id b) (h_id a)))) (humans d));
  t ← now;
  rows ← read (fun d => sort_by (fun a b => (p_createdAt a <? p_createdAt b) || ((p_createdAt a =? p_createdAt b) && negb (str_ltb (p_id b) (p_id a))))
                 (if includeResolved then pairings d else bfilter (live_pairing t) (pairings d)));
  mret (map (fun h => (h, bfilter (fun l => String.eqb (humanId l) (h_id h)) links)) people, map (fun p => (p, shown t p)) rows).

(* @src identity/service.ts 320 323 resolve *)
Definition resolve (i : ChannelIdentity) (d : Db) : option (string * string) := (fun l => (humanId l, l_id l)) <$> activeLink i d.

Definition stored_principals (human : string) (d : Db) : list string :=
  map v1Principal (by_link (bfilter (fun l => String.eqb (humanId l) human && active l) (identities d))).
Definition v1_ok (p : string) : bool := isUserPrincipal p && starts_with "user:v1:" p.

(* @src identity/service.ts 326 331 linkedV1Principals *)
Definition linkedV1Principals (human : string) : M (list string) :=
  requireHuman human ;;
  l ← read (stored_principals human);
  require (forallb v1_ok l) Storage ;;
  mret l.

(** [new Set(l)] *)
Fixpoint distinct (l : list string) : list string :=
  match l with [] => [] | x :: r => x :: bfilter (fun y => negb (String.eqb y x)) (distinct r) end.

(** A person whose id no principal can be derived from makes the search throw. *)
Fixpoint find_principal (userV2 : string) (l : list Human) : result IdentityError (option Human) :=
  match l with
  | [] => Ok None
  | h :: r => match deriveUserPrincipal sha256 (h_id h) with
              | None => Err (InvalidParams "")
              | Some p => if String.eqb p userV2 then Ok (Some h) else find_principal userV2 r
              end
  end.

(* @src identity/service.ts 334 341 resolvePrincipals *)
Definition resolvePrincipals (userV2 : string) : M (list string) :=
  require (isUserPrincipal userV2 && starts_with "user:v2:" userV2) (InvalidParams "userV2") ;;
  found ← read (fun d => find_principal userV2 (humans d));
  match found with
  | Err e => throw e
  | Ok None => throw NotFound
  | Ok (Some h) =>
      l ← read (stored_principals (h_id h));
      require (forallb v1_ok l) Storage ;;
      mret (userV2 :: distinct l)
  end.

(* @src identity/recall.ts 10 19 createRecallScopeProvider *)
Definition capturePrincipal (userV2 : string) : M string :=
  require (isUserPrincipal userV2 && starts_with "user:v2:" userV2) (InvalidParams "") ;;
  resolvePrincipals userV2 ;;
  mret userV2.

(* @src identity/service.ts 342 346 getLink *)
Definition getLink (id : string) : M Link :=
  text id "linkId" 64 ;;
  r ← read (find_link id);
  match r with Some l => mret l | None => throw NotFound end.

(** ** The record of a back-fill *)

(* @src identity/service.ts 348 350 reserveBackfill *)
Definition reserveBackfill (id operation : string) (actor : Actor) : M unit :=
  t ← now;
  held ← read (backfillRecord id);
  match held with
  | Some _ => mret tt
  | None =>
      fits ← read (fun d => bool_decide (is_Some (find_link id d)) && negb (existsb (fun b => String.eqb (operation_id b) operation) (backfills d)));
      require fits Sqlite ;;
      on_db (fun d => set_backfills (backfills d ++ [{| b_link := id; operation_id := operation; b_state := BRunning; actor_hash := digest (user actor); b_at := t;
                                                         b_count := None; b_receipt := None |}]) d)
  end.

Definition backfill_from (s : BackfillState) : list BackfillState :=
  match s with BApplied => [BRunning; BApplied] | BReversing => [BApplied; BReversing] | _ => [BReversing; BReversed] end.
Definition finished (s : BackfillState) (count : Z) (receipt : string) (b : Backfill) : Backfill :=
  {| b_link := b_link b; operation_id := operation_id b; b_state := s; actor_hash := actor_hash b; b_at := b_at b; b_count := Some count; b_receipt := Some receipt |}.

(* @src identity/service.ts 351 355 finishBackfill *)
Definition finishBackfill (id : string) (s : BackfillState) (count : Z) (receipt : string) : M unit :=
  row ← read (backfillRecord id);
  match row with
  | Some b => require (bool_decide (b_state b ∈ backfill_from s)) Conflict ;;
              on_db (fun d => set_backfills (map (fun b => if String.eqb (b_link b) id then finished s count receipt b else b) (backfills d)) d)
  | None => throw Conflict
  end.

(** ** Opening the service *)

Definition expired_rows (t1 t2 : Z) (p : Pairing) : bool :=
  if bool_decide (p_state p = Pending) then p_expiresAt p <? t2 - PRUNE_AFTER_MS else p_createdAt p <? t1 - PRUNE_AFTER_MS.

(** The temporary table of pairings is new. *)
(* @src identity/service.ts 84 124 createIdentityService *)
Definition open (codeTtlMs : option num) : M (Z * Z) :=
  on_db (set_pairings []) ;;
  ttls ← (match codeTtlMs with
          | None => mret (DEFAULT_CODE_TTL_MS, MAX_CODE_TTL_MS)
          | Some (Fin z) => require ((0 <? z) && (z <=? MAX_CODE_TTL_MS)) (InvalidParams "codeTtlMs") ;; mret (z, z)
          | Some _ => throw (InvalidParams "codeTtlMs")
          end);
  tx (
    t1 ← now; t2 ← now;
    on_db (fun d => set_pairings (bfilter (fun p => negb (expired_rows t1 t2 p)) (pairings d)) d) ;;
    t3 ← now; t4 ← now;
    on_db (fun d => set_attempts (prune t3 t4 (attempts d)) d)) ;;
  mret ttls.
End service.
