(* ===== verification/IdentityCalls.v ===== *)
(** * What each call of the identity service does

    One lemma per call that writes: what a call that returns did to the tables, and that
    a call that throws left them as they were, but for the counters and for a claim that
    came too late. Then sequences of calls, the histories of what they told the outside,
    and the step relation they all follow. *)

From S2P Require Import Prelude Rbac IdentityCodes Identity.

(** ** Opening a run *)

Lemma svc_read_ok {A} (f : Db -> A) w a w' : read f w = (Ok a, w') -> a = f (db w) /\ w' = w.
Proof. intros [= <- <-]. done. Qed.
Lemma svc_on_db_ok f w u w' : on_db f w = (Ok u, w') -> w' = with_db (f (db w)) w.
Proof. intros [= _ <-]. done. Qed.
Lemma svc_tx_ok {A} (m : M A) w a w' : tx m w = (Ok a, w') -> m w = (Ok a, w').
Proof. unfold tx. by destruct (m w) as [[?|?] ?]. Qed.
Lemma now_ok clk w t w' : now clk w = (Ok t, w') -> t = clk (ticks w) /\ db w' = db w /\ ticks w' = S (ticks w).
Proof. intros [= <- <-]. done. Qed.
Lemma draw_ok n w a w' : draw n w = (Ok a, w') -> a = draws w /\ db w' = db w /\ ticks w' = ticks w.
Proof. intros [= <- <-]. done. Qed.
Lemma audit_ok sha e w u w' : audit sha e w = (Ok u, w') -> db w' = db w /\ ticks w' = ticks w.
Proof. intros [= _ <-]. done. Qed.

Lemma bind_err {A B} (m : M A) (k : A -> M B) w e w' :
  (m ≫= k) w = (Err e, w') -> m w = (Err e, w') \/ exists a w1, m w = (Ok a, w1) /\ k a w1 = (Err e, w').
Proof. unfold mbind, SE_bind. destruct (m w) as [[a|e'] w1] eqn:E; [eauto|]. intros [= -> ->]. by left. Qed.

(** *** Steps that leave the tables alone, that cannot throw, that throw before they write *)

Definition idle {A} (m : M A) : Prop := forall w, db (m w).2 = db w.
Definition sure {A} (m : M A) : Prop := forall w, exists a, (m w).1 = Ok a.
Definition atomic {A} (m : M A) : Prop := forall w e w', m w = (Err e, w') -> db w' = db w.

Lemma svc_idle_ok {A} (m : M A) w a w' : idle m -> m w = (Ok a, w') -> db w' = db w.
Proof. intros H E. specialize (H w). by rewrite E in H. Qed.
Lemma idle_atomic {A} (m : M A) : idle m -> atomic m.
Proof. intros H w e w' E. specialize (H w). by rewrite E in H. Qed.
Lemma atomic_tx {A} (m : M A) : atomic (tx m).
Proof. intros w e w'. unfold tx. destruct (m w) as [[a|e'] w1]; [done|]. by intros [= -> <-]. Qed.
Lemma atomic_bind {A B} (m : M A) (k : A -> M B) : idle m -> (forall a, atomic (k a)) -> atomic (m ≫= k).
Proof.
  intros Hm Hk w e w' [E|(a & w1 & E & E')]%bind_err.
  - by apply (idle_atomic m Hm) in E.
  - rewrite (Hk a w1 e w' E'). by apply (svc_idle_ok m w a w1).
Qed.
Lemma sure_atomic {A} (m : M A) : sure m -> atomic m.
Proof. intros H w e w' E. destruct (H w) as (a & Ha). by rewrite E in Ha. Qed.
Lemma atomic_sure {A B} (m : M A) (k : A -> M B) : atomic m -> (forall a, sure (k a)) -> atomic (m ≫= k).
Proof.
  intros Hm Hk w e w' [E|(a & w1 & E & E')]%bind_err; [by eapply Hm|].
  destruct (Hk a w1) as (b & Hb). by rewrite E' in Hb.
Qed.
Lemma sure_tx {A} (m : M A) : sure m -> sure (tx m).
Proof. intros H w. destruct (H w) as (a & Ha). unfold tx. destruct (m w) as [r w1]. cbn in Ha. subst r. by exists a. Qed.
Lemma sure_bind {A B} (m : M A) (k : A -> M B) : sure m -> (forall a, sure (k a)) -> sure (m ≫= k).
Proof. intros Hm Hk w. destruct (Hm w) as (a & Ha). unfold mbind, SE_bind. destruct (m w) as [[x|x] w1]; [apply Hk|done]. Qed.

Lemma svc_idle_ret {A} (a : A) : idle (mret a). Proof. done. Qed.
Lemma svc_idle_throw {A} e : idle (throw e : M A). Proof. done. Qed.
Lemma idle_read {A} (f : Db -> A) : idle (read f). Proof. done. Qed.
Lemma idle_require b e : idle (require b e). Proof. by destruct b. Qed.
Lemma svc_idle_bind {A B} (m : M A) (k : A -> M B) : idle m -> (forall a, idle (k a)) -> idle (m ≫= k).
Proof. intros Hm Hk w. unfold mbind, SE_bind. specialize (Hm w). destruct (m w) as [[a|e] w1]; cbn in *; [|done]. by rewrite Hk. Qed.
Lemma idle_now clk : idle (now clk). Proof. done. Qed.
Lemma idle_draw n : idle (draw n). Proof. done. Qed.
Lemma idle_audit sha e : idle (audit sha e). Proof. done. Qed.
Lemma idle_text v f m : idle (text v f m). Proof. apply idle_require. Qed.
Lemma idle_auth port a act u : idle (requireAuthorization port a act u). Proof. apply idle_require. Qed.
Lemma idle_channel v : idle (channelOf v). Proof. apply idle_require. Qed.
Lemma idle_identity i : idle (identityOf i).
Proof. unfold identityOf. repeat (apply svc_idle_bind; [apply idle_require|intros []]). destruct (displayName i); [apply idle_text|done]. Qed.
Lemma sure_read {A} (f : Db -> A) : sure (read f). Proof. intros w. by eexists. Qed.
Lemma sure_now clk : sure (now clk). Proof. intros w. by eexists. Qed.
Lemma sure_ret {A} (a : A) : sure (mret a). Proof. intros w. by exists a. Qed.
Lemma sure_on_db f : sure (on_db f). Proof. intros w. by exists tt. Qed.
Lemma sure_audit sha e : sure (audit sha e). Proof. intros w. by exists tt. Qed.

Create HintDb calls.
#[export] Hint Resolve svc_idle_ret svc_idle_throw idle_read idle_require idle_now idle_draw idle_audit idle_text idle_auth idle_channel idle_identity : calls.
#[export] Hint Resolve sure_ret sure_read sure_now sure_on_db sure_audit atomic_tx : calls.
#[export] Hint Resolve svc_idle_bind sure_bind : calls.

(** A call that checks, runs one transaction and then only tells of it. *)
Ltac atomic_tac :=
  repeat match goal with
  | |- atomic (tx _ ≫= _) => apply atomic_sure; [apply atomic_tx|intros; auto with calls]
  | |- atomic (_ ≫= _) => apply atomic_bind; [solve [auto with calls]|intros]
  | |- atomic (match ?x with _ => _ end) => destruct x
  | |- atomic _ => solve [auto using idle_atomic, sure_atomic with calls]
  end.

Ltac open_call :=
  repeat match goal with
  | H : (let _ := _ in _) _ = (Ok _, _) |- _ => cbv zeta in H
  | H : (_ ≫= _) _ = (Ok _, _) |- _ => apply SE_bind_ok in H as (? & ? & ? & ?)
  | H : tx _ _ = (Ok _, _) |- _ => apply svc_tx_ok in H
  | H : require _ _ _ = (Ok _, _) |- _ => apply require_ok in H as [? ?]; subst
  | H : mret _ _ = (Ok _, _) |- _ => injection H as ? ?; subst
  | H : read _ _ = (Ok _, _) |- _ => apply svc_read_ok in H as [? ?]; subst
  | H : on_db _ _ = (Ok _, _) |- _ => apply svc_on_db_ok in H; subst
  | H : now _ _ = (Ok _, _) |- _ => apply now_ok in H as (? & ? & ?)
  | H : draw _ _ = (Ok _, _) |- _ => apply draw_ok in H as (? & ? & ?)
  | H : audit _ _ _ = (Ok _, _) |- _ => apply audit_ok in H as [? ?]
  | H : text _ _ _ _ = (Ok _, _) |- _ => apply require_ok in H as [? ?]; subst
  | H : channelOf _ _ = (Ok _, _) |- _ => apply require_ok in H as [? ?]; subst
  | H : throw _ _ = (Ok _, _) |- _ => discriminate H
  | H : (Ok _, _) = (Ok _, _) |- _ => injection H as ? ?; subst
  | H : (Err _, _) = (Ok _, _) |- _ => discriminate H
  | H : context [match find_human ?i ?d with _ => _ end] |- _ => destruct (find_human i d) eqn:?
  | H : context [match find_link ?i ?d with _ => _ end] |- _ => destruct (find_link i d) eqn:?
  | H : context [match find_pairing ?i ?d with _ => _ end] |- _ => destruct (find_pairing i d) eqn:?
  | H : context [match activeLink ?i ?d with _ => _ end] |- _ => destruct (activeLink i d) eqn:?
  | H : (if ?b then _ else _) _ = (Ok _, _) |- _ => destruct b eqn:?
  end.

(** The moments of the clock and of the random sources are not the tables'. *)
Ltac same_db :=
  repeat match goal with
  | H : true = _ |- _ => symmetry in H
  | H : db ?x = _, H' : context [db ?x] |- _ => is_var x; rewrite H in H'
  | H : ticks ?x = _, H' : context [ticks ?x] |- _ => is_var x; rewrite H in H'
  | H : db ?x = _ |- context [db ?x] => is_var x; rewrite H
  | H : ticks ?x = _ |- context [ticks ?x] => is_var x; rewrite H
  end; cbn [db ticks with_db] in *.
Ltac splits := repeat match goal with |- _ /\ _ => split end.

(** ** The counters *)

Lemma failure_other key key' spec t m : key <> key' -> failure key spec t m !! key' = m !! key'.
Proof. intros H. unfold failure. by rewrite lookup_insert_ne. Qed.
Lemma success_other key key' m : key <> key' -> success key m !! key' = m !! key'.
Proof. intros H. unfold success. by rewrite lookup_delete_ne. Qed.
Lemma release_other key key' spec e t m : key <> key' -> release key spec e t m !! key' = m !! key'.
Proof.
  intros H. unfold release. destruct (m !! key) as [r|]; [|done]. destruct (e <? _); [done|].
  destruct (_ && _); [by rewrite lookup_insert_ne|]. destruct (_ && _); [by rewrite lookup_insert_ne|done].
Qed.

(** ** The calls *)

Section calls.
Context (clk : nat -> Z) (random_int : nat -> Z -> Z) (random_bytes : nat -> nat -> list Z) (sha256 : string -> string) (stringify : js -> string)
  (port : Actor -> IdentityAction -> string -> bool).

(** A person whom the policy lets do it. *)
Definition may (a : Actor) (act : IdentityAction) (u : string) : Prop := a_kind a = Some "person" /\ port a act u = true.

Lemma auth_ok a act u w x w' : requireAuthorization port a act u w = (Ok x, w') -> may a act u /\ w' = w.
Proof. intros [[H1 H2]%andb_true_iff ->]%require_ok. by apply bool_decide_eq_true in H1. Qed.
Lemma svc_newId_ok t w id w' : newId random_bytes t w = (Ok id, w') -> db w' = db w /\ ticks w' = ticks w.
Proof. unfold newId. intros H. open_call. destruct (uuidv7 _ _ _); [|discriminate]. open_call. by same_db. Qed.
Lemma svc_idle_newId t : idle (newId random_bytes t).
Proof. unfold newId. apply svc_idle_bind; [done|intros n]. by destruct (uuidv7 _ _ _). Qed.
Lemma idle_human id : idle (requireHuman id).
Proof. unfold requireHuman. apply svc_idle_bind; [apply idle_text|intros _]. apply svc_idle_bind; [done|intros [h|]]; done. Qed.
Lemma human_ok id w h w' : requireHuman id w = (Ok h, w') -> find_human id (db w) = Some h /\ w' = w.
Proof. unfold requireHuman. intros H. open_call. by split. Qed.
#[local] Hint Resolve svc_idle_newId idle_human : calls.

Lemma svc_count_ok key spec w u w' : count_failure clk key spec w = (Ok u, w') ->
  db w' = set_attempts (failure key spec (clk (ticks w)) (attempts (db w))) (db w) /\ ticks w' = S (ticks w).
Proof. unfold count_failure. intros H. open_call. cbn [db ticks with_db] in *. same_db. by subst. Qed.
Lemma locked_ok keys w n w' : locked clk keys w = (Ok n, w') -> n = lockedFor keys (clk (ticks w)) (attempts (db w)) /\ db w' = db w /\ ticks w' = S (ticks w).
Proof. unfold locked. intros H. open_call. same_db. by subst. Qed.
Lemma idle_locked keys : idle (locked clk keys). Proof. done. Qed.
Lemma sure_count key spec : sure (count_failure clk key spec). Proof. intros w. by exists tt. Qed.
Lemma sure_locked keys : sure (locked clk keys). Proof. intros w. by eexists. Qed.
#[local] Hint Resolve idle_locked sure_count sure_locked : calls.

Ltac open_steps :=
  repeat progress (open_call; try match goal with
  | H : newId _ _ _ = (Ok _, _) |- _ => apply svc_newId_ok in H as [? ?]
  | H : requireHuman _ _ = (Ok _, _) |- _ => apply human_ok in H as [? ->]
  | H : requireAuthorization _ _ _ _ _ = (Ok _, _) |- _ => apply auth_ok in H as [? ->]
  | H : locked _ _ _ = (Ok _, _) |- _ => apply locked_ok in H as (? & ? & ?)
  | H : count_failure _ _ _ _ = (Ok _, _) |- _ => apply svc_count_ok in H as [? ?]
  | H : identityOf ?i _ = (Ok _, _) |- _ => apply (svc_idle_ok _ _ _ _ (idle_identity i)) in H
  end); open_call.
Ltac open_all := open_steps; same_db; bool_hyps.

Lemma insertLink_ok human i proof by_ w l w' :
  insertLink clk random_bytes sha256 stringify human i proof by_ w = (Ok l, w') ->
  find_link (l_id l) (db w) = None /\ is_Some (find_human human (db w)) /\ activeLink i (db w) = None /\
  humanId l = human /\ l_handle l = i /\ proofMethod l = proof /\ linkedBy l = by_ /\ revokedAt l = None /\ v1Principal l = v1PrincipalOf sha256 stringify i /\
  db w' = set_identities (identities (db w) ++ [l]) (db w) /\ (ticks w <= ticks w')%nat.
Proof. unfold insertLink. intros H. open_all. splits; try done. cbn. lia. Qed.

Lemma createHuman_ok name a w h w' : createHuman clk random_bytes sha256 port name a w = (Ok h, w') ->
  may a ActCreate "" /\ find_human (h_id h) (db w) = None /\ db w' = set_humans (humans (db w) ++ [h]) (db w).
Proof. unfold createHuman. intros H. open_all. by splits. Qed.

Lemma createHuman_atomic name a : atomic (createHuman clk random_bytes sha256 port name a).
Proof. unfold createHuman. atomic_tac. Qed.

Lemma link_ok human i a w l w' : link clk random_bytes sha256 stringify port human i a w = (Ok l, w') ->
  may a ActLink human /\ find_link (l_id l) (db w) = None /\ is_Some (find_human human (db w)) /\ activeLink i (db w) = None /\
  humanId l = human /\ l_handle l = i /\ proofMethod l = OwnerManual /\ revokedAt l = None /\ db w' = set_identities (identities (db w) ++ [l]) (db w).
Proof.
  unfold link. intros H. open_steps.
  match goal with H : insertLink _ _ _ _ _ _ _ _ _ = _ |- _ => apply insertLink_ok in H; destruct_and! H end.
  open_all. by splits.
Qed.

Lemma link_atomic human i a : atomic (link clk random_bytes sha256 stringify port human i a).
Proof. unfold link. atomic_tac. Qed.

Lemma revokePairing_ok id a w x w' : revokePairing clk sha256 port id a w = (Ok x, w') ->
  exists r t, find_pairing id (db w) = Some r /\ may a ActConfirm (p_human r) /\ p_state r <> Confirmed /\ db w' = upd_pairing id (resolved Declined t) (db w).
Proof. unfold revokePairing. intros H. open_all. eexists _, _. by splits. Qed.

Lemma revokePairing_atomic id a : atomic (revokePairing clk sha256 port id a).
Proof. unfold revokePairing. atomic_tac. Qed.

Lemma unlink_ok id a w l w' : unlink clk sha256 port id a w = (Ok l, w') ->
  exists r t, find_link id (db w) = Some r /\ may a ActUnlink (humanId r) /\ revokedAt r = None /\ l = revoked t (user a) r /\
    (forall b, backfillRecord id (db w) = Some b -> b_state b ∉ [BRunning; BReversing]) /\ db w' = upd_link id (revoked t (user a)) (db w).
Proof.
  unfold unlink. intros H. open_all. unfold active in *. bool_hyps. eexists _, _. splits; try done. intros b Hb.
  match goal with H : match backfillRecord _ _ with _ => _ end = true |- _ => rewrite Hb in H; bool_hyps; done end.
Qed.

Lemma unlink_atomic id a : atomic (unlink clk sha256 port id a).
Proof. unfold unlink. atomic_tac. Qed.

Lemma startPairing_ok ttl cap human chan req a w out w' :
  startPairing clk random_int random_bytes sha256 port ttl cap human chan req a w = (Ok out, w') ->
  exists p m, db w' = set_pairings (pairings (db w) ++ [p]) (set_attempts m (db w)) /\ m !! GLOBAL_KEY = attempts (db w) !! GLOBAL_KEY /\
    may a ActPair human /\ is_Some (find_human human (db w)) /\ find_pairing (pairingId out) (db w) = None /\
    p_id p = pairingId out /\ p_human p = human /\ p_channel p = chan /\ code_hash p = hashCode sha256 (p_salt p) (code out) /\ p_state p = Pending /\ p_claim p = None.
Proof.
  unfold startPairing. intros [life [w0 [H0 H]]]%SE_bind_ok.
  assert (w0 = w) as ->. { destruct req as [[z| |]|]; open_call; done. }
  clear H0. open_all. do 2 eexists. split; [reflexivity|]. cbn [attempts set_attempts]. rewrite !failure_other by done. splits; done || by eexists.
Qed.

Lemma startPairing_atomic ttl cap human chan req a : atomic (startPairing clk random_int random_bytes sha256 port ttl cap human chan req a).
Proof.
  unfold startPairing. apply atomic_bind; [|intros life; atomic_tac].
  destruct req as [[z| |]|]; auto with calls.
Qed.

(** *** A claim *)

Lemma search_ok c t rows acc hit why :
  fold_left (fun acc r =>
    if negb (matches_code sha256 c r) then acc
    else if bool_decide (p_state r = Pending) && (t <? p_expiresAt r) then (Some r, acc.2)
    else (acc.1, if bool_decide (p_state r = Pending) then "expired" else "reused")) rows acc = (Some hit, why) ->
  acc.1 = Some hit \/ (hit ∈ rows /\ matches_code sha256 c hit = true /\ p_state hit = Pending /\ t < p_expiresAt hit).
Proof.
  revert acc. induction rows as [|r rows IH]; intros acc H; cbn in H; [subst acc; by left|].
  destruct (IH _ H) as [H'|(H1 & H2 & H3 & H4)]; [|right; splits; try done; by right]. clear IH H.
  destruct (matches_code sha256 c r) eqn:Em; cbn in H'; [|by left].
  destruct (bool_decide (p_state r = Pending) && (t <? p_expiresAt r)) eqn:E; cbn in H'; [|by left].
  injection H' as <-. bool_hyps. right. splits; try done. by left.
Qed.

(** The code that is looked for. *)
Definition presented (raw : string) : string := if slen raw <=? 128 then normalizeCode raw else "".

(** What a claim's transaction came to. *)
Definition claimed_as (ttl : Z) (raw : string) (i : ChannelIdentity) (w w' : World) (o : Outcome) : Prop :=
  match o with
  | OLocked _ | OTaken => db w' = db w
  | OFail _ => lockedFor [src_key sha256 stringify i; GLOBAL_KEY] (clk (ticks w)) (attempts (db w)) <= 0 /\
      exists t k, (ticks w <= k < ticks w')%nat /\
        db w' = set_attempts (failure GLOBAL_KEY GLOBAL_LIMIT (clk k) (failure (src_key sha256 stringify i) SOURCE_LIMIT t (attempts (db w)))) (db w)
  | OOk hit by_ => hit ∈ pairings (db w) /\ p_channel hit = channel i /\ matches_code sha256 (presented raw) hit = true /\ p_state hit = Pending /\
      activeLink i (db w) = None /\
      exists t m, t < p_expiresAt hit /\ by_ = confirm_deadline ttl t hit /\ m !! GLOBAL_KEY = attempts (db w) !! GLOBAL_KEY /\
        db w' = set_attempts m (upd_pairing (p_id hit) (claimed {| claim_accountId := accountId i; claim_userId := ci_userId i; claim_displayName := displayName i;
                                                                 claimedAt := t; confirmBy := by_ |}) (db w))
  end.

Lemma claim_tx_ok ttl raw i w o w' : claim_tx clk sha256 stringify ttl raw i w = (Ok o, w') -> claimed_as ttl raw i w w' o.
Proof.
  unfold claim_tx. fold (presented raw). intros H. open_steps.
  { same_db. done. }
  match goal with H : context [search sha256 ?c ?t ?rows] |- _ => destruct (search sha256 c t rows) as [[hit|] why] eqn:Es end.
  - open_steps; cbn [claimed_as]; same_db; [done|done|].
    apply search_ok in Es as [?|(S1 & S2 & S3 & S4)]; [done|]. apply bfilter_elem in S1 as [S1 S1']. bool_hyps.
    splits; try done. do 2 eexists. splits; [exact S4|subst; reflexivity| |reflexivity].
    cbn. rewrite success_other by done. by rewrite failure_other.
  - open_steps. cbn [claimed_as]. same_db. bool_hyps. split; [subst; done|]. do 2 eexists. split; [|reflexivity]. lia.
Qed.

(** The check of a handle reads nothing, so the transaction starts where the call does. *)
Lemma identity_ok i w u w' : identityOf i w = (Ok u, w') -> w' = w.
Proof. unfold identityOf. intros H. open_call. destruct (displayName i); open_call; done. Qed.
Lemma identity_err i w e w' : identityOf i w = (Err e, w') -> w' = w /\ e <> InvalidCode.
Proof.
  unfold identityOf, channelOf, text, require, mbind, SE_bind, mret, SE_ret, throw. intros H.
  repeat match type of H with context [if ?b then _ else _] => destruct b end; try (by injection H as <- <-).
  destruct (displayName i); [|discriminate]. repeat match type of H with context [if ?b then _ else _] => destruct b end; [discriminate|]. by injection H as <- <-.
Qed.

Lemma sure_claim ttl raw i : sure (claim_tx clk sha256 stringify ttl raw i).
Proof.
  unfold claim_tx. apply sure_tx.
  repeat first [apply sure_bind; [solve [auto with calls]|intros] | match goal with |- sure (match ?x with _ => _ end) => destruct x end]; auto with calls.
Qed.

(** A claim that returns has been parked; one that throws changed nothing, but that a wrong code is counted. *)
Lemma claim_spec ttl raw i w :
  match claim clk sha256 stringify ttl raw i w with
  | (Ok (pid, by_), w') => exists hit, pid = p_id hit /\ claimed_as ttl raw i w w' (OOk hit by_)
  | (Err e, w') => (exists why, e = InvalidCode /\ claimed_as ttl raw i w w' (OFail why)) \/ (e <> InvalidCode /\ db w' = db w)
  end.
Proof.
  unfold claim. destruct (identityOf i w) as [[[]|e] w0] eqn:Ei.
  2:{ rewrite (SE_bind_err _ _ _ _ _ Ei). apply identity_err in Ei as [-> Hne]. by right. }
  rewrite (SE_bind_run _ _ _ _ _ Ei). apply identity_ok in Ei as ->.
  destruct (sure_claim ttl raw i w) as (o & Ho). destruct (claim_tx clk sha256 stringify ttl raw i w) as [r w1] eqn:E. cbn in Ho. subst r.
  rewrite (SE_bind_run _ _ _ _ _ E). pose proof (claim_tx_ok _ _ _ _ _ _ E) as H.
  destruct o as [hit by_|why|ms|]; cbn.
  - exists hit. split; [done|]. exact H.
  - left. exists why. split; [done|]. exact H.
  - right. split; [done|]. exact H.
  - right. split; [done|]. exact H.
Qed.

(** *** The owner's answer *)

Definition settled_as (id : string) (approve : bool) (a : Actor) (w : World) (d' : Db) (out : Settled) : Prop :=
  exists r c, find_pairing id (db w) = Some r /\ may a ActConfirm (p_human r) /\ p_state r = Claimed /\ p_claim r = Some c /\
  ((s_link out = None /\ (s_state out = PExpired \/ s_state out = Declined) /\ (exists t, d' = upd_pairing id (resolved (s_state out) t) (db w))) \/
   (exists l t m, approve = true /\ out = {| s_state := Confirmed; s_link := Some l; refuse := None |} /\ t < confirmBy c /\
      find_link (l_id l) (db w) = None /\ is_Some (find_human (p_human r) (db w)) /\ activeLink (claimant r c) (db w) = None /\
      humanId l = p_human r /\ l_handle l = claimant r c /\ proofMethod l = PairingCode /\ revokedAt l = None /\
      d' = upd_pairing id (confirmed t (l_id l)) (set_attempts m (set_identities (identities (db w) ++ [l]) (db w))) /\
      m !! GLOBAL_KEY = attempts (db w) !! GLOBAL_KEY)).

Lemma confirm_tx_ok id approve a w out w' : confirm_tx clk random_bytes sha256 stringify port id approve a w = (Ok out, w') -> settled_as id approve a w (db w') out.
Proof.
  unfold confirm_tx. intros H. open_steps.
  match goal with H : context [p_state ?r] |- _ => destruct (p_state r) eqn:Es, (p_claim r) as [c|] eqn:Ec; try discriminate H end.
  open_steps; cbn [s_link s_state]; same_db.
  1-3: eexists _, _; splits; try done; left; cbn; splits; [done|auto|by eexists].
  match goal with H : insertLink _ _ _ _ _ _ _ _ _ = _ |- _ => apply insertLink_ok in H; destruct_and! H end. same_db.
  eexists _, _. splits; try done. right. do 3 eexists. cbn. destruct approve; [|done]. bool_hyps. splits; try done. by rewrite release_other.
Qed.

Lemma confirm_spec id approve a w :
  match confirm clk random_bytes sha256 stringify port id approve a w with
  | (Ok (st, l), w') => exists out, s_state out = st /\ s_link out = l /\ refuse out = None /\ settled_as id approve a w (db w') out
  | (Err e, w') => db w' = db w \/ exists out, s_link out = None /\ settled_as id approve a w (db w') out
  end.
Proof.
  unfold confirm. destruct (text id "pairingId" 64 w) as [[[]|e] w0] eqn:Et.
  2:{ rewrite (SE_bind_err _ _ _ _ _ Et). left. apply (idle_atomic _ (idle_text id "pairingId" 64)) in Et. exact Et. }
  rewrite (SE_bind_run _ _ _ _ _ Et). apply require_ok in Et as [_ <-].
  destruct (confirm_tx clk random_bytes sha256 stringify port id approve a w) as [[out|e] w1] eqn:E.
  2:{ rewrite (SE_bind_err _ _ _ _ _ E). left. unfold confirm_tx in E. by apply atomic_tx in E. }
  rewrite (SE_bind_run _ _ _ _ _ E). apply confirm_tx_ok in E. cbn.
  destruct (refuse out) as [e|] eqn:Er; cbn.
  - right. exists out. split; [|exact E]. destruct E as (r & c & _ & _ & _ & _ & [(H & _)|(l & t & m & _ & -> & _)]); [done|discriminate Er].
  - exists out. by splits.
Qed.

(** ** Opening *)

Lemma open_spec ttlMs w : exists m, db (open clk ttlMs w).2 = set_attempts m (set_pairings [] (db w)) /\
  match (open clk ttlMs w).1 with
  | Ok _ => exists k, (ticks w <= k < ticks (open clk ttlMs w).2)%nat /\ exists k', (ticks w <= k' < ticks (open clk ttlMs w).2)%nat /\ m = prune (clk k) (clk k') (attempts (db w))
  | Err _ => m = attempts (db w)
  end.
Proof.
  unfold open, require, throw, tx, on_db, modify, now, mbind, SE_bind, mret, SE_ret.
  destruct ttlMs as [[z| |]|]; [destruct ((0 <? z) && (z <=? MAX_CODE_TTL_MS))|..]; cbn; eexists; (split; [reflexivity|]); try done.
  all: exists (S (S (ticks w))); (split; [lia|]); exists (S (S (S (ticks w)))); (split; [lia|reflexivity]).
Qed.
End calls.

(** ** Calls and what they tell *)

Inductive Call : Type :=
| CCreateHuman (name : string) (a : Actor)
| CLink (human : string) (i : ChannelIdentity) (a : Actor)
| CRevoke (id : string) (a : Actor)
| CStart (human chan : string) (ttlMs : option num) (a : Actor)
| CClaim (raw : string) (i : ChannelIdentity)
| CConfirm (id : string) (approve : bool) (a : Actor)
| CUnlink (id : string) (a : Actor)
| CReserve (id operation : string) (a : Actor)
| CFinish (id : string) (s : BackfillState) (count : Z) (receipt : string)
| CList (includeRevoked includeResolved : bool)
| CReopen (codeTtlMs : option num).

(** What an observer of the calls learns: who was linked by whom, which code was handed out, who presented it, the
    moment of a claim that was refused, and that the record of a back-fill was touched. *)
Inductive Event : Type :=
| EvLink (l : Link) (a : Actor)
| EvStart (pid human chan code : string) (a : Actor)
| EvClaim (pid raw : string) (i : ChannelIdentity)
| EvConfirm (pid : string) (l : Link) (a : Actor)
| EvUnlink (l : Link) (a : Actor)
| EvGuess (t : Z)
| EvBackfill (id : string).

(** The service is open, with the lifetimes it was opened with, or it is not. *)
Record Service : Type := { world : World; ttls : option (Z * Z) }.

Definition closed : World := {| db := {| humans := []; identities := []; pairings := []; attempts := ∅; backfills := [] |}; ticks := 0; draws := 0; log := [] |}.
Definition fresh_service : Service := {| world := closed; ttls := None |}.

Section spec.
Context (clk : nat -> Z) (random_int : nat -> Z -> Z) (random_bytes : nat -> nat -> list Z) (sha256 : string -> string) (stringify : js -> string)
  (port : Actor -> IdentityAction -> string -> bool).

Definition tell {A} (f : A -> list Event) (g : IdentityError -> list Event) (r : result IdentityError A * World) : list Event * World :=
  (match r.1 with Ok a => f a | Err e => g e end, r.2).
Definition as_backfill {A} (id : string) (r : result IdentityError A * World) : list Event * World := ([EvBackfill id], r.2).
Definition silent {A} (r : result IdentityError A * World) : list Event * World := ([], r.2).

Definition perform (ttl cap : Z) (c : Call) (w : World) : list Event * World :=
  match c with
  | CCreateHuman name a => silent (createHuman clk random_bytes sha256 port name a w)
  | CLink h i a => tell (fun l => [EvLink l a]) (fun _ => []) (link clk random_bytes sha256 stringify port h i a w)
  | CRevoke id a => silent (revokePairing clk sha256 port id a w)
  | CStart h chan req a => tell (fun o => [EvStart (pairingId o) h chan (code o) a]) (fun _ => []) (startPairing clk random_int random_bytes sha256 port ttl cap h chan req a w)
  | CClaim raw i => tell (fun o => [EvClaim o.1 raw i]) (fun e => match e with InvalidCode => [EvGuess (clk (ticks w))] | _ => [] end) (claim clk sha256 stringify ttl raw i w)
  | CConfirm id approve a => tell (fun o => match o.2 with Some l => [EvConfirm id l a] | None => [] end) (fun _ => []) (confirm clk random_bytes sha256 stringify port id approve a w)
  | CUnlink id a => tell (fun l => [EvUnlink l a]) (fun _ => []) (unlink clk sha256 port id a w)
  | CReserve id op a => as_backfill id (reserveBackfill clk sha256 id op a w)
  | CFinish id s n r => as_backfill id (finishBackfill id s n r w)
  | CList a b => silent (list_all clk a b w)
  | CReopen _ => ([], w)
  end.

Definition call (c : Call) (s : Service) : list Event * Service :=
  match c with
  | CReopen cfg => let r := open clk cfg (world s) in ([], {| world := r.2; ttls := match r.1 with Ok t => Some t | Err _ => None end |})
  | _ => match ttls s with
         | Some (ttl, cap) => let r := perform ttl cap c (world s) in (r.1, {| world := r.2; ttls := ttls s |})
         | None => ([], s)
         end
  end.

Fixpoint calls (cs : list Call) (s : Service) : list Event * Service :=
  match cs with
  | [] => ([], s)
  | c :: r => let x := call c s in let y := calls r x.2 in (x.1 ++ y.1, y.2)
  end.

(** ** The calls as steps of the tables *)

Inductive step : Db -> list Event -> Db -> Prop :=
| st_count m d : step d [] (set_attempts m d)
| st_backfill id l d : step d [EvBackfill id] (set_backfills l d)
| st_reopen m d : step d [] (set_attempts m (set_pairings [] d))
| st_human h d : find_human (h_id h) d = None -> step d [] (set_humans (humans d ++ [h]) d)
| st_link l a d : may port a ActLink (humanId l) -> find_link (l_id l) d = None -> is_Some (find_human (humanId l) d) -> activeLink (l_handle l) d = None ->
    revokedAt l = None -> proofMethod l = OwnerManual -> step d [EvLink l a] (set_identities (identities d ++ [l]) d)
| st_start p m c a d : may port a ActPair (p_human p) -> is_Some (find_human (p_human p) d) -> find_pairing (p_id p) d = None -> code_hash p = hashCode sha256 (p_salt p) c ->
    p_state p = Pending -> p_claim p = None -> step d [EvStart (p_id p) (p_human p) (p_channel p) c a] (set_pairings (pairings d ++ [p]) (set_attempts m d))
| st_claim hit raw i c m d : hit ∈ pairings d -> p_channel hit = channel i -> matches_code sha256 (presented raw) hit = true -> p_state hit = Pending ->
    (claim_accountId c, claim_userId c) = (accountId i, ci_userId i) ->
    step d [EvClaim (p_id hit) raw i] (set_attempts m (upd_pairing (p_id hit) (claimed c) d))
| st_settle id r s t d : find_pairing id d = Some r -> p_state r <> Confirmed -> s = Declined \/ s = PExpired -> step d [] (upd_pairing id (resolved s t) d)
| st_confirm id r c l t m a d : find_pairing id d = Some r -> may port a ActConfirm (p_human r) -> p_state r = Claimed -> p_claim r = Some c -> find_link (l_id l) d = None ->
    is_Some (find_human (p_human r) d) -> activeLink (claimant r c) d = None -> humanId l = p_human r -> l_handle l = claimant r c -> proofMethod l = PairingCode ->
    revokedAt l = None -> step d [EvConfirm id l a] (upd_pairing id (confirmed t (l_id l)) (set_attempts m (set_identities (identities d ++ [l]) d)))
| st_unlink id r t a d : find_link id d = Some r -> may port a ActUnlink (humanId r) -> revokedAt r = None ->
    (forall b, backfillRecord id d = Some b -> b_state b ∉ [BRunning; BReversing]) ->
    step d [EvUnlink (revoked t (user a) r) a] (upd_link id (revoked t (user a)) d)
| st_guess t m d : step d [EvGuess t] (set_attempts m d).

Lemma step_same d d' : d' = d -> step d [] d'.
Proof. intros ->. generalize (st_count (attempts d) d). by destruct d. Qed.

Lemma reserve_step id op a w : exists l, db (reserveBackfill clk sha256 id op a w).2 = set_backfills l (db w).
Proof.
  unfold reserveBackfill, now, mbind, SE_bind, read, gets. cbn. destruct (backfillRecord id (db w)); cbn.
  - exists (backfills (db w)). by destruct (db w).
  - unfold require. destruct (_ && _); cbn; [by eexists|]. exists (backfills (db w)). by destruct (db w).
Qed.
Lemma finish_step id s n r w : exists l, db (finishBackfill id s n r w).2 = set_backfills l (db w).
Proof.
  unfold finishBackfill, mbind, SE_bind, read, gets. cbn. destruct (backfillRecord id (db w)) as [b|]; cbn.
  - unfold require. destruct (bool_decide _); cbn; [by eexists|]. exists (backfills (db w)). by destruct (db w).
  - exists (backfills (db w)). by destruct (db w).
Qed.
Lemma settle_step id approve a w d' out : s_link out = None -> settled_as port id approve a w d' out -> step (db w) [] d'.
Proof.
  intros Hn (r & c & Hf & _ & Hs & _ & [(_ & Ho & t & ->)|(l & t & m & _ & -> & _)]); [|discriminate Hn].
  eapply st_settle; [exact Hf|congruence|]. tauto.
Qed.

Lemma perform_step ttl cap c w : step (db w) (perform ttl cap c w).1 (db (perform ttl cap c w).2).
Proof.
  destruct c as [name a|h i a|id a|h chan req a|raw i|id approve a|id a|id op a|id s n r|x y|cfg]; cbn [perform]; unfold tell, silent, as_backfill; cbn [fst snd].
  - destruct (createHuman _ _ _ _ name a w) as [[x|e] w'] eqn:E; cbn.
    + apply createHuman_ok in E as (_ & H & ->). by apply st_human.
    + apply step_same. by eapply createHuman_atomic.
  - destruct (link _ _ _ _ _ h i a w) as [[l|e] w'] eqn:E; cbn.
    + apply link_ok in E as (H1 & H2 & H3 & H4 & <- & <- & H5 & H6 & ->). by apply st_link.
    + apply step_same. by eapply link_atomic.
  - destruct (revokePairing _ _ _ id a w) as [[x|e] w'] eqn:E; cbn.
    + apply revokePairing_ok in E as (r & t & H1 & _ & H2 & ->). eapply st_settle; eauto.
    + apply step_same. by eapply revokePairing_atomic.
  - destruct (startPairing _ _ _ _ _ _ _ h chan req a w) as [[o|e] w'] eqn:E; cbn.
    + apply startPairing_ok in E as (p & m & -> & _ & H1 & H2 & H3 & H4 & <- & <- & H5 & H6 & H7). rewrite <- H4 in *. by apply st_start.
    + apply step_same. by eapply startPairing_atomic.
  - pose proof (claim_spec clk sha256 stringify ttl raw i w) as H. destruct (claim _ _ _ _ raw i w) as [[[pid b]|e] w'] eqn:E; cbn.
    + destruct H as (hit & -> & H1 & H2 & H3 & H4 & _ & t & m & _ & _ & _ & ->). by eapply st_claim.
    + destruct H as [(why & -> & _ & t & k & _ & ->)|[Hne ->]]; [apply st_guess|]. destruct e; try done; by apply step_same.
  - pose proof (confirm_spec clk random_bytes sha256 stringify port id approve a w) as H.
    destruct (confirm _ _ _ _ _ id approve a w) as [[[st l]|e] w'] eqn:E; cbn.
    + destruct H as (out & <- & <- & _ & H). destruct (s_link out) as [l|] eqn:El; [|by eapply settle_step].
      destruct H as (r & c & H1 & H2 & H3 & H4 & [(H5 & _)|(l' & t & m & _ & Ho & _ & H6 & H7 & H8 & H9 & H10 & H11 & H12 & -> & _)]); [congruence|].
      assert (l' = l) as -> by (subst out; cbn in El; congruence). by eapply st_confirm.
    + destruct H as [->|(out & Hn & H)]; [by apply step_same|by eapply settle_step].
  - destruct (unlink _ _ _ id a w) as [[l|e] w'] eqn:E; cbn.
    + apply unlink_ok in E as (r & t & H1 & H2 & H3 & -> & H4 & ->). by apply st_unlink.
    + apply step_same. by eapply unlink_atomic.
  - destruct (reserve_step id op a w) as (l & ->). apply st_backfill.
  - destruct (finish_step id s n r w) as (l & ->). apply st_backfill.
  - by apply step_same.
  - by apply step_same.
Qed.

Lemma call_step c s : step (db (world s)) (call c s).1 (db (world (call c s).2)).
Proof.
  pose proof (step_same (db (world s)) _ eq_refl) as Hsame.
  destruct c; try (cbn [call]; destruct (ttls s) as [[ttl cap]|]; [|done]; apply perform_step).
  cbn. destruct (open_spec clk codeTtlMs (world s)) as (m & -> & _). apply st_reopen.
Qed.
End spec.
