(* ===== verification/IdentityInv.v ===== *)
(** * The invariant of the identity tables

    Proved step by step over every sequence of calls, from the empty database; then the
    theorems about links and codes that follow from it. *)

From S2P Require Import Prelude Rbac IdentityCodes Identity IdentityCalls.

Section inv.
Context (clk : nat -> Z) (random_int : nat -> Z -> Z) (random_bytes : nat -> nat -> list Z) (sha256 : string -> string) (stringify : js -> string)
  (port : Actor -> IdentityAction -> string -> bool).

Notation may := (may port).
Notation step := (step sha256 port).
Notation calls := (calls clk random_int random_bytes sha256 stringify port).

(** ** What is said of a history *)

(** The presented text is the code, as far as the stored hash can tell. *)
Definition right_code (issued raw : string) : Prop :=
  exists salt, hashesEqual (hashCode sha256 salt (presented raw)) (hashCode sha256 salt issued) = true /\ String.length (presented raw) = CODE_LENGTH.

(** The same link, revoked since or not. *)
Definition same_link (l l0 : Link) : Prop := l_id l0 = l_id l /\ humanId l0 = humanId l /\ l_handle l0 = l_handle l /\ proofMethod l0 = proofMethod l.

(** A code was issued to [human] on [chan], by someone who may. *)
Definition issued_at (h : list Event) (k : nat) (pid human chan code : string) : Prop :=
  exists a, h !! k = Some (EvStart pid human chan code a) /\ may a ActPair human.

(** A handle presented the code of [pid] after it was issued. *)
Definition claimed_at (h : list Event) (k j : nat) (pid human : string) (hd : string * string * string) : Prop :=
  exists code raw i, issued_at h k pid human hd.1.1 code /\ (k < j)%nat /\ h !! j = Some (EvClaim pid raw i) /\ handle i = hd /\ right_code code raw.

(** Who agreed to a link: the one who made it by hand; or the person who asked for a code, the handle that presented
    it, and the one who confirmed the claim, in that order. *)
Definition consented (h : list Event) (l : Link) : Prop :=
  match proofMethod l with
  | OwnerManual => exists k l0 a, h !! k = Some (EvLink l0 a) /\ same_link l l0 /\ may a ActLink (humanId l)
  | PairingCode => exists k j n pid l0 a, claimed_at h k j pid (humanId l) (handle (l_handle l)) /\ (j < n)%nat /\
      h !! n = Some (EvConfirm pid l0 a) /\ same_link l l0 /\ may a ActConfirm (humanId l)
  | SignedChallenge => False
  end.

Definition started (pid : string) (h : list Event) : nat := length (bfilter (fun e => match e with EvStart p _ _ _ _ => String.eqb p pid | _ => false end) h).
Definition taken (pid : string) (h : list Event) : nat := length (bfilter (fun e => match e with EvClaim p _ _ => String.eqb p pid | _ => false end) h).
Definition linked (pid : string) (h : list Event) : nat := length (bfilter (fun e => match e with EvConfirm p _ _ => String.eqb p pid | _ => false end) h).

Record LinkInv (d : Db) (h : list Event) : Prop := {
  links_unique : NoDup (map l_id (identities d));
  links_people : forall l, l ∈ identities d -> is_Some (find_human (humanId l) d);
  one_owner : forall l l', l ∈ identities d -> l' ∈ identities d -> active l = true -> active l' = true -> handle (l_handle l) = handle (l_handle l') -> l_id l = l_id l';
  links_consented : forall l, l ∈ identities d -> consented h l
}.
Record PairInv (d : Db) (h : list Event) : Prop := {
  pairs_unique : NoDup (map p_id (pairings d));
  pairs_issued : forall p, p ∈ pairings d -> exists k code, issued_at h k (p_id p) (p_human p) (p_channel p) code /\ code_hash p = hashCode sha256 (p_salt p) code;
  pairs_claimed : forall p c, p ∈ pairings d -> p_state p = Claimed -> p_claim p = Some c -> exists k j, claimed_at h k j (p_id p) (p_human p) (handle (claimant p c))
}.
Record CountInv (d : Db) (h : list Event) : Prop := {
  counts : forall pid, (linked pid h <= taken pid h <= started pid h)%nat;
  pending_counts : forall p, p ∈ pairings d -> p_state p = Pending -> (taken (p_id p) h < started (p_id p) h)%nat;
  claimed_counts : forall p, p ∈ pairings d -> p_state p = Claimed -> (linked (p_id p) h < taken (p_id p) h)%nat
}.

(** ** Histories only grow *)

Lemma issued_app h e k pid human chan code : issued_at h k pid human chan code -> issued_at (h ++ e) k pid human chan code.
Proof. intros (a & H & Ha). exists a. split; [by apply lookup_app_l_Some|done]. Qed.
Lemma claimed_app h e k j pid human hd : claimed_at h k j pid human hd -> claimed_at (h ++ e) k j pid human hd.
Proof. intros (code & raw & i & H1 & H2 & H3 & H4). exists code, raw, i. split_and!; [by apply issued_app|done|by apply lookup_app_l_Some|..]; tauto. Qed.
Lemma consented_app h e l : consented h l -> consented (h ++ e) l.
Proof.
  unfold consented. destruct (proofMethod l); [|intros (k & l0 & a & H & ?)|done].
  - intros (k & j & n & pid & l0 & a & H1 & H2 & H3 & H4). exists k, j, n, pid, l0, a.
    split_and!; [by apply claimed_app|done|by apply lookup_app_l_Some|..]; tauto.
  - exists k, l0, a. split; [by apply lookup_app_l_Some|done].
Qed.
Lemma same_consented h l l0 : same_link l l0 -> consented h l0 -> consented h l.
Proof.
  unfold consented. intros (E1 & E2 & E3 & E4). rewrite <- E4. destruct (proofMethod l0) eqn:Em; [|intros (k & l1 & a & H & (S1 & S2 & S3 & S4) & ?)|done].
  - intros (k & j & n & pid & l1 & a & H1 & H2 & H3 & (S1 & S2 & S3 & S4) & H5). exists k, j, n, pid, l1, a. rewrite <- E2, <- E3.
    split_and!; try done. unfold same_link. split_and!; congruence.
  - exists k, l1, a. rewrite <- E2. split_and!; try done. unfold same_link. split_and!; congruence.
Qed.

Lemma started_app pid h e : started pid (h ++ e) = (started pid h + started pid e)%nat.
Proof. unfold started. by rewrite bfilter_app, length_app. Qed.
Lemma taken_app pid h e : taken pid (h ++ e) = (taken pid h + taken pid e)%nat.
Proof. unfold taken. by rewrite bfilter_app, length_app. Qed.
Lemma svc_linked_app pid h e : linked pid (h ++ e) = (linked pid h + linked pid e)%nat.
Proof. unfold linked. by rewrite bfilter_app, length_app. Qed.

(** ** Rows after an update *)

Lemma upd_rows {A} (key : A -> string) (f : A -> A) id x l :
  x ∈ map (fun y => if String.eqb (key y) id then f y else y) l -> (x ∈ l /\ key x <> id) \/ (exists y, y ∈ l /\ key y = id /\ x = f y).
Proof.
  intros (y & -> & Hy)%elem_of_map. destruct (String.eqb_spec (key y) id); [right|left]; eauto.
Qed.
Lemma upd_keys {A} (key : A -> string) (f : A -> A) id l : (forall y, key (f y) = key y) -> map key (map (fun y => if String.eqb (key y) id then f y else y) l) = map key l.
Proof. intros H. rewrite map_map. apply map_ext. intros y. by destruct (_ =? _)%string. Qed.

Lemma find_pairing_elem id d p : find_pairing id d = Some p -> p ∈ pairings d /\ p_id p = id.
Proof. intros [H1 H2]%bfind_some. by apply String.eqb_eq in H2. Qed.
Lemma find_link_elem id d l : find_link id d = Some l -> l ∈ identities d /\ l_id l = id.
Proof. intros [H1 H2]%bfind_some. by apply String.eqb_eq in H2. Qed.
Lemma find_none {A} (key : A -> string) id l : bfind (fun x => String.eqb (key x) id) l = None -> id ∉ map key l.
Proof. intros H (x & -> & Hx)%elem_of_map. pose proof (bfind_none _ _ _ H Hx) as E. cbn in E. by rewrite String.eqb_refl in E. Qed.
Lemma activeLink_none i d l : activeLink i d = None -> l ∈ identities d -> active l = true -> handle (l_handle l) <> handle i.
Proof.
  intros H Hl Ha E. pose proof (bfind_none _ _ _ H Hl) as F. cbn in F. rewrite Ha, andb_true_r in F. unfold same_handle in F. by apply bool_decide_eq_false in F.
Qed.
Lemma find_human_app id h d : is_Some (find_human id d) -> is_Some (find_human id (set_humans (humans d ++ [h]) d)).
Proof. intros [x Hx]. unfold find_human in *. cbn. rewrite bfind_app, Hx. eauto. Qed.

(** ** Links *)

(** Tables whose links are the old ones, and whose people include the old ones. *)
Lemma links_kept d d' h e : LinkInv d h -> identities d' = identities d -> (forall id, is_Some (find_human id d) -> is_Some (find_human id d')) -> LinkInv d' (h ++ e).
Proof.
  intros [H1 H2 H3 H4] E Hh. split; rewrite E; auto. intros l Hl. by apply consented_app, H4.
Qed.

Lemma link_added d d' h e l : LinkInv d h -> identities d' = identities d ++ [l] -> humans d' = humans d -> find_link (l_id l) d = None ->
  is_Some (find_human (humanId l) d) -> activeLink (l_handle l) d = None -> consented (h ++ e) l -> LinkInv d' (h ++ e).
Proof.
  intros [H1 H2 H3 H4] E Ep Hid Hh Ha Hc. split; rewrite E.
  - rewrite map_app. apply nodup_snoc; [done|]. by apply find_none.
  - intros x [Hx| ->%list_elem_of_singleton]%elem_of_app; unfold find_human in *; rewrite Ep; auto.
  - intros x y [Hx| ->%list_elem_of_singleton]%elem_of_app [Hy| ->%list_elem_of_singleton]%elem_of_app Ax Ay Eh; auto.
    + by destruct (activeLink_none _ _ _ Ha Hx Ax).
    + by destruct (activeLink_none _ _ _ Ha Hy Ay).
  - intros x [Hx| ->%list_elem_of_singleton]%elem_of_app; [|done]. by apply consented_app, H4.
Qed.

Lemma links_step d h e d' : LinkInv d h -> PairInv d h -> step d e d' -> LinkInv d' (h ++ e).
Proof.
  intros Hl Hp St. destruct St as [m d|bid bl d|m d|x d Hx|l a d Ha Hid Hh Hn Hr Hm|p m c a d Ha Hh Hid Hc Hs Hcl|hit raw i c m d Hin Hch Hm Hs Hc|id r s t d Hf Hs Hn
    |id r c l t m a d Hf Ha Hs Hc Hid Hh Hn Hu Hd Hm Hr|id r t a d Hf Ha Hr Hb|t m d]; try (by eapply links_kept).
  - eapply links_kept; [done..|]. intros id. apply find_human_app.
  - eapply link_added; try done. unfold consented. rewrite Hm. exists (length h), l, a. split_and!; try done. by rewrite list_lookup_middle.
  - apply find_pairing_elem in Hf as [Hin <-]. destruct (pairs_claimed _ _ Hp r c Hin Hs Hc) as (k & j & Hk).
    eapply link_added; try done; [by rewrite Hu|by rewrite Hd|]. unfold consented. rewrite Hm, Hu, Hd. exists k, j, (length h), (p_id r), l, a.
    split_and!; [by apply claimed_app| |by rewrite list_lookup_middle|done|done]. destruct Hk as (? & ? & ? & _ & _ & Hj & _). by apply lookup_lt_Some in Hj.
  - destruct Hl as [H1 H2 H3 H4]. split; cbn [upd_link set_identities identities].
    + by rewrite upd_keys.
    + intros x [[Hx _]|(y & Hy & _ & ->)]%upd_rows; [by apply H2|]. apply (H2 y Hy).
    + intros x y [[Hx _]|(x' & _ & _ & ->)]%upd_rows [[Hy _]|(y' & _ & _ & ->)]%upd_rows Ax Ay; try discriminate. by apply H3.
    + intros x [[Hx _]|(y & Hy & _ & ->)]%upd_rows; [by apply consented_app, H4|]. apply consented_app, (same_consented _ _ y); [done|by apply H4].
Qed.

(** ** Pairings *)

Lemma pairs_kept d d' h e : PairInv d h -> pairings d' = pairings d -> PairInv d' (h ++ e).
Proof.
  intros [H1 H2 H3] E. split; rewrite E; [done|..].
  - intros p Hp. destruct (H2 p Hp) as (k & c & Hk & ?). exists k, c. split; [by apply issued_app|done].
  - intros p c Hp Hs Hc. destruct (H3 p c Hp Hs Hc) as (k & j & ?). exists k, j. by apply claimed_app.
Qed.

(** One row changes: it keeps its code, and if it is claimed now, the claim is in the history. *)
Lemma pairs_updated d d' h e id f : PairInv d h -> pairings d' = map (fun p => if String.eqb (p_id p) id then f p else p) (pairings d) ->
  (forall p, p_id (f p) = p_id p /\ p_human (f p) = p_human p /\ p_channel (f p) = p_channel p /\ p_salt (f p) = p_salt p /\ code_hash (f p) = code_hash p) ->
  (forall p c, p ∈ pairings d -> p_id p = id -> p_state (f p) = Claimed -> p_claim (f p) = Some c ->
    exists k j, claimed_at (h ++ e) k j (p_id p) (p_human p) (handle (claimant (f p) c))) -> PairInv d' (h ++ e).
Proof.
  intros [H1 H2 H3] E Hf Hc. split; rewrite E.
  - rewrite upd_keys; [done|]. apply Hf.
  - intros p [[Hp _]|(y & Hy & _ & ->)]%upd_rows.
    + destruct (H2 p Hp) as (k & c & Hk & ?). exists k, c. split; [by apply issued_app|done].
    + destruct (H2 y Hy) as (k & c & Hk & ?). exists k, c. destruct (Hf y) as (-> & -> & -> & -> & ->). split; [by apply issued_app|done].
  - intros p c [[Hp _]|(y & Hy & Hi & ->)]%upd_rows Hs Hcl.
    + destruct (H3 p c Hp Hs Hcl) as (k & j & ?). exists k, j. by apply claimed_app.
    + destruct (Hf y) as (-> & -> & _). by apply Hc.
Qed.

Lemma matches_right code p raw : code_hash p = hashCode sha256 (p_salt p) code -> matches_code sha256 (presented raw) p = true -> right_code code raw.
Proof. intros Hc [H1 H2%Nat.eqb_eq]%andb_true_iff. exists (p_salt p). by rewrite <- Hc. Qed.

Lemma pairs_step d h e d' : PairInv d h -> step d e d' -> PairInv d' (h ++ e).
Proof.
  intros Hp St. destruct St as [m d|bid bl d|m d|x d Hx|l a d Ha Hid Hh Hn Hr Hm|p m c a d Ha Hh Hid Hc Hs Hcl|hit raw i c m d Hin Hch Hm Hs Hc|id r s t d Hf Hs Hn
    |id r c l t m a d Hf Ha Hs Hc Hid Hh Hn Hu Hd Hm Hr|id r t a d Hf Ha Hr Hb|t m d]; try (by eapply pairs_kept).
  - split; cbn; [constructor|set_solver|set_solver].
  - destruct Hp as [H1 H2 H3]. split; cbn [set_pairings pairings set_attempts].
    + rewrite map_app. apply nodup_snoc; [done|]. by apply find_none.
    + intros x [Hx| ->%list_elem_of_singleton]%elem_of_app.
      * destruct (H2 x Hx) as (k & c' & Hk & ?). exists k, c'. split; [by apply issued_app|done].
      * exists (length h), c. split; [|done]. exists a. split; [by rewrite list_lookup_middle|done].
    + intros x c' [Hx| ->%list_elem_of_singleton]%elem_of_app Hs' Hc'; [|congruence].
      destruct (H3 x c' Hx Hs' Hc') as (k & j & ?). exists k, j. by apply claimed_app.
  - eapply (pairs_updated _ _ _ _ (p_id hit) (claimed c)); [done..|]. intros p c' Hp' Hi _ [= <-].
    assert (p = hit) as -> by (eapply NoDup_map_inj; [apply (pairs_unique _ _ Hp)|done..]).
    destruct (pairs_issued _ _ Hp hit Hin) as (k & code & Hk & Hh). exists k, (length h), code, raw, i. unfold handle, claimant. cbn.
    injection Hc as -> ->. rewrite Hch in *. split_and!; [by apply issued_app| |by rewrite list_lookup_middle|done|by eapply matches_right].
    destruct Hk as (a & Hk & _). by apply lookup_lt_Some in Hk.
  - eapply (pairs_updated _ _ _ _ id (resolved s t)); [done..|]. cbn. intros p c _ _ ->. destruct Hn; discriminate.
  - eapply (pairs_updated _ _ _ _ id (confirmed t (l_id l))); [done..|]. discriminate.
Qed.

(** ** Counts *)

(** Steps whose events are about no pairing, and that make no row pending or claimed. *)
Lemma counts_kept d d' h e : CountInv d h -> (forall pid, started pid e = 0 /\ taken pid e = 0 /\ linked pid e = 0)%nat ->
  (forall p, p ∈ pairings d' -> p_state p = Pending \/ p_state p = Claimed -> p ∈ pairings d) -> CountInv d' (h ++ e).
Proof.
  intros [H1 H2 H3] He Hp. split.
  - intros pid. rewrite svc_linked_app, taken_app, started_app. destruct (He pid) as (-> & -> & ->). specialize (H1 pid). lia.
  - intros p Hin Hs. rewrite taken_app, started_app. destruct (He (p_id p)) as (-> & -> & _). specialize (H2 p (Hp p Hin (or_introl Hs)) Hs). lia.
  - intros p Hin Hs. rewrite taken_app, svc_linked_app. destruct (He (p_id p)) as (_ & -> & ->). specialize (H3 p (Hp p Hin (or_intror Hs)) Hs). lia.
Qed.

Lemma started_one pid' p h c k a : started pid' [EvStart p h c k a] = if String.eqb p pid' then 1%nat else 0%nat.
Proof. unfold started, bfilter. cbn. by destruct (p =? pid')%string. Qed.
Lemma taken_one pid' p r i : taken pid' [EvClaim p r i] = if String.eqb p pid' then 1%nat else 0%nat.
Proof. unfold taken, bfilter. cbn. by destruct (p =? pid')%string. Qed.
Lemma linked_one pid' p l a : linked pid' [EvConfirm p l a] = if String.eqb p pid' then 1%nat else 0%nat.
Proof. unfold linked, bfilter. cbn. by destruct (p =? pid')%string. Qed.

Ltac count_events :=
  rewrite ?svc_linked_app, ?taken_app, ?started_app, ?started_one, ?taken_one, ?linked_one;
  repeat match goal with
  | |- context [started ?q [EvClaim ?x ?y ?z]] => change (started q [EvClaim x y z]) with 0%nat
  | |- context [started ?q [EvConfirm ?x ?y ?z]] => change (started q [EvConfirm x y z]) with 0%nat
  | |- context [taken ?q [EvStart ?x ?y ?z ?u ?v]] => change (taken q [EvStart x y z u v]) with 0%nat
  | |- context [taken ?q [EvConfirm ?x ?y ?z]] => change (taken q [EvConfirm x y z]) with 0%nat
  | |- context [linked ?q [EvStart ?x ?y ?z ?u ?v]] => change (linked q [EvStart x y z u v]) with 0%nat
  | |- context [linked ?q [EvClaim ?x ?y ?z]] => change (linked q [EvClaim x y z]) with 0%nat
  end.

Lemma counts_step d h e d' : PairInv d h -> CountInv d h -> step d e d' -> CountInv d' (h ++ e).
Proof.
  intros Hp Hk St. pose proof Hk as [H1 H2 H3].
  destruct St as [m d|bid bl d|m d|x d Hx|l a d Ha Hid Hh Hn Hr Hm|p m c a d Ha Hh Hid Hc Hs Hcl|hit raw i c m d Hin Hch Hm Hs Hc|id r s t d Hf Hs Hn
    |id r c l t m a d Hf Ha Hs Hc Hid Hh Hn Hu Hd Hm Hr|id r t a d Hf Ha Hr Hb|t m d]; try (eapply counts_kept; [done..|]; by intros p Hp' _).
  - eapply counts_kept; [done..|]. cbn. set_solver.
  - split; cbn [set_pairings pairings set_attempts].
    + intros pid. count_events. specialize (H1 pid). destruct (_ =? _)%string; lia.
    + intros x [Hx| ->%list_elem_of_singleton]%elem_of_app Hx'; count_events.
      * specialize (H2 x Hx Hx'). destruct (_ =? _)%string; lia.
      * rewrite String.eqb_refl. specialize (H1 (p_id p)). lia.
    + intros x [Hx| ->%list_elem_of_singleton]%elem_of_app Hx'; [|congruence]. count_events. specialize (H3 x Hx Hx'). lia.
  - specialize (H2 hit Hin Hs). split; cbn [upd_pairing set_pairings pairings set_attempts].
    + intros pid. count_events. specialize (H1 pid). destruct (String.eqb_spec (p_id hit) pid) as [<-|]; lia.
    + intros x [[Hx Hne]|(y & _ & _ & ->)]%upd_rows Hx'; [|discriminate]. count_events. rewrite (proj2 (String.eqb_neq _ _)) by done.
      pose proof (pending_counts _ _ Hk x Hx Hx'). lia.
    + intros x [[Hx Hne]|(y & _ & Hi & ->)]%upd_rows Hx'; count_events.
      * specialize (H3 x Hx Hx'). destruct (_ =? _)%string; lia.
      * cbn [p_id claimed]. rewrite Hi, String.eqb_refl. specialize (H1 (p_id hit)). lia.
  - eapply counts_kept; [done..|]. cbn. intros x [[Hx _]|(y & _ & _ & ->)]%upd_rows [E|E]; try done; cbn in E; destruct Hn; congruence.
  - apply find_pairing_elem in Hf as [Hin <-]. specialize (H3 r Hin Hs). split; cbn [upd_pairing set_pairings pairings set_attempts set_identities].
    + intros pid. count_events. specialize (H1 pid). destruct (String.eqb_spec (p_id r) pid) as [<-|]; lia.
    + intros x [[Hx _]|(y & _ & _ & ->)]%upd_rows Hx'; [|discriminate]. count_events. specialize (H2 x Hx Hx'). lia.
    + intros x [[Hx Hne]|(y & _ & _ & ->)]%upd_rows Hx'; [|discriminate]. count_events. rewrite (proj2 (String.eqb_neq _ _)) by done.
      pose proof (claimed_counts _ _ Hk x Hx Hx'). lia.
Qed.

(** ** Sequences of calls *)

Definition Inv (d : Db) (h : list Event) : Prop := LinkInv d h /\ PairInv d h /\ CountInv d h.

Lemma inv_calls cs : forall s h, Inv (db (world s)) h -> Inv (db (world (calls cs s).2)) (h ++ (calls cs s).1).
Proof.
  induction cs as [|c cs IH]; intros s h H; cbn [IdentityCalls.calls fst snd]; [by rewrite app_nil_r|].
  rewrite app_assoc. apply IH. destruct H as (Hl & Hp & Hk). pose proof (call_step clk random_int random_bytes sha256 stringify port c s) as St.
  split_and!; [by eapply links_step|by eapply pairs_step|by eapply counts_step].
Qed.

Lemma inv_fresh : Inv (db closed) [].
Proof. split_and!; split; cbn; try set_solver; try apply NoDup_nil_2; intros; unfold linked, taken, started; cbn; lia. Qed.

Lemma inv_all cs : Inv (db (world (calls cs fresh_service).2)) (calls cs fresh_service).1.
Proof. apply (inv_calls cs fresh_service [] inv_fresh). Qed.

(** (C17) Consent. However the identity service is used, from an empty database on and across restarts, every link it
    holds was agreed to: it was made by hand by a person the policy lets link for that human; or a code was issued for
    that human on the handle's own channel at the request of a person who may pair, exactly that handle then presented
    a text whose hash under the code's salt is that of the code, and after that a person who may confirm for that human
    confirmed the claim. No link comes about in any other way. *)
Theorem links_consented_to cs l : l ∈ identities (db (world (calls cs fresh_service).2)) -> consented (calls cs fresh_service).1 l.
Proof. intros Hl. destruct (inv_all cs) as (H & _ & _). by apply (links_consented _ _ H). Qed.

(** Codes are used once. In every history, a pairing has been claimed at most as often as a code was issued under
    its id, and has been turned into a link at most as often as it was claimed. *)
Theorem codes_used_once cs pid : (linked pid (calls cs fresh_service).1 <= taken pid (calls cs fresh_service).1 <= started pid (calls cs fresh_service).1)%nat.
Proof. destruct (inv_all cs) as (_ & _ & H). apply (counts _ _ H). Qed.

(** One owner. What [resolve] answers for a handle is exactly what the links say: the answer is the human and the id
    of an active link of that very handle (channel, account and user id, never a name), there is at most one such link,
    and the human is one the service knows. *)
Theorem resolve_exact cs i human lid : let d := db (world (calls cs fresh_service).2) in
  resolve i d = Some (human, lid) <->
  exists l, l ∈ identities d /\ revokedAt l = None /\ handle (l_handle l) = handle i /\ humanId l = human /\ l_id l = lid /\ is_Some (find_human human d).
Proof.
  cbn zeta. destruct (inv_all cs) as (H & _ & _). set (d := db _) in *. unfold resolve. rewrite fmap_Some. split.
  - intros (l & [Hl Ha]%bfind_some & [= -> ->]). bool_hyps. unfold same_handle, active in *. bool_hyps. exists l. split_and!; try done. by apply (links_people _ _ H).
  - intros (l & Hl & Hr & Hh & <- & <- & _).
    assert (Ha : active l = true) by (by apply bool_decide_eq_true).
    destruct (bfind_is_some (fun l => same_handle (l_handle l) i && active l) (identities d) l Hl) as (x & Hx).
    { rewrite Ha, andb_true_r. by apply bool_decide_eq_true. }
    exists x. split; [exact Hx|]. apply bfind_some in Hx as [Hx Hax]. bool_hyps. unfold same_handle in *. bool_hyps.
    assert (x = l) as ->; [|done]. eapply NoDup_map_inj; [apply (links_unique _ _ H)|done..|]. apply (one_owner _ _ H); try done. congruence.
Qed.
End inv.
