(* ===== verification/IdentityGuess.v ===== *)
(** * How often a code can be guessed

    The counters of refused claims are windows with a lock; over any stretch of time
    shorter than a window they admit fewer than twice the limit, whatever else happens
    to the service in between, restarts included. *)

From S2P Require Import Prelude Rbac IdentityCodes Identity IdentityCalls.

(** ** One counter *)

(** The row that a failure at [now] leaves. *)
Definition counted (spec : LimitSpec) (now : Z) (r : option Attempt) : Attempt :=
  let current := match r with Some r => now - window_start r <=? windowMs spec | None => false end in
  let f := (match r with Some r => if current then failures r else 0 | None => 0 end) + 1 in
  let start := match r with Some r => if current then window_start r else now | None => now end in
  let until := match r with Some r => locked_until r | None => 0 end in
  if limit spec <=? f then {| failures := 0; window_start := now; locked_until := now + lockMs spec |}
  else {| failures := f; window_start := start; locked_until := until |}.

Lemma failure_same key spec t m : failure key spec t m !! key = Some (counted spec t (m !! key)).
Proof. unfold failure. by rewrite lookup_insert_eq. Qed.

(** [c] failures have been counted in [[a, b]] by the moment [now], and [r] is the row then. *)
Definition within (spec : LimitSpec) (a b now : Z) (r : option Attempt) (c : Z) : Prop :=
  0 <= c <= 2 * limit spec - 1 /\ (now < a -> c = 0) /\
  (now <= b -> match r with
   | None => c <= limit spec - 1
   | Some r => 0 <= failures r < limit spec /\
       ((window_start r < a /\ c <= failures r) \/ (a <= window_start r /\ c <= limit spec - 1 + failures r) \/ (a <= window_start r /\ b < locked_until r))
   end).

Lemma within_later spec a b now now' r c : within spec a b now r c -> now <= now' -> within spec a b now' r c.
Proof. intros (H1 & H2 & H3) Hn. split; [done|]. split; [lia|]. intros Hb. apply H3. lia. Qed.

Lemma within_fresh spec a b now : 1 <= limit spec -> within spec a b now None 0.
Proof. intros H. unfold within. split_and!; lia. Qed.

Ltac case_limit := match goal with |- context [limit ?s <=? ?f] => destruct (Z.leb_spec (limit s) f) end.

(** A failure that the lock let through at [now], counted at [n]. *)
Lemma within_failure spec a b now n r c : 1 <= limit spec -> b - a < windowMs spec -> windowMs spec <= lockMs spec ->
  now <= n -> match r with Some r => locked_until r <= now | None => True end -> within spec a b now r c ->
  within spec a b n (Some (counted spec n r)) (c + if (a <=? now) && (now <=? b) then 1 else 0).
Proof.
  intros HL Hab HW Hn Hlock (H1 & H2 & H3).
  destruct (Z.leb_spec a now) as [Ha|Ha]; cbn [andb].
  2:{ rewrite (H2 Ha) in *. unfold within. split; [lia|]. split; [done|]. intros Hb. assert (H3' := H3 ltac:(lia)).
      unfold counted. destruct r as [r|].
      - destruct (Z.leb_spec (n - window_start r) (windowMs spec)); case_limit; cbn; lia.
      - case_limit; cbn; lia. }
  destruct (Z.leb_spec now b) as [Hb|Hb].
  2:{ split; [lia|]. split; lia. }
  assert (H3' := H3 Hb). clear H3. unfold within, counted. destruct r as [r|].
  - destruct (Z.leb_spec (n - window_start r) (windowMs spec)); case_limit; cbn; lia.
  - case_limit; cbn; lia.
Qed.

(** Pruning drops a row only when its window is a day old. *)
Lemma within_prune spec a b now t1 t2 n key m c : b - a < 24 * 3600000 -> now <= t2 -> t2 <= n -> within spec a b now (m !! key) c ->
  within spec a b n (prune t1 t2 m !! key) c.
Proof.
  intros Hab Hn Hn' H. unfold prune. rewrite map_lookup_filter. destruct (m !! key) as [r|] eqn:E; cbn; [|by apply (within_later _ _ _ now); [|lia]].
  destruct (decide ((locked_until r <? t1) && (window_start r <? t2 - 24 * 3600000) = false)) as [Hd|Hd].
  - rewrite option_guard_True by done. by apply (within_later _ _ _ now); [|lia].
  - rewrite option_guard_False by done. apply not_false_iff_true in Hd. bool_hyps. destruct H as (P1 & P2 & P3). split; [done|]. split; [lia|]. intros Hb. specialize (P3 ltac:(lia)). cbn in P3. change (c <= limit spec - 1). lia.
Qed.

Lemma unlocked src now m : lockedFor [src; GLOBAL_KEY] now m <= 0 -> match m !! GLOBAL_KEY with Some r => locked_until r <= now | None => True end.
Proof.
  unfold lockedFor. cbn. destruct (m !! GLOBAL_KEY) as [r|]; [|done]. destruct (m !! src) as [q|].
  - destruct (Z.ltb_spec now (locked_until q)); destruct (Z.ltb_spec now (locked_until r)); lia.
  - destruct (Z.ltb_spec now (locked_until r)); lia.
Qed.

(** ** The service *)

Section guess.
Context (clk : nat -> Z) (random_int : nat -> Z -> Z) (random_bytes : nat -> nat -> list Z) (sha256 : string -> string) (stringify : js -> string)
  (port : Actor -> IdentityAction -> string -> bool).
(** The clock does not run backwards. *)
Context (clk_mono : forall n, clk n <= clk (S n)).

Notation call := (call clk random_int random_bytes sha256 stringify port).
Notation calls := (calls clk random_int random_bytes sha256 stringify port).
Notation perform := (perform clk random_int random_bytes sha256 stringify port).

Lemma clk_le n m : (n <= m)%nat -> clk n <= clk m.
Proof. induction 1 as [|m _ IH]; [lia|]. etrans; [exact IH|apply clk_mono]. Qed.

(** *** Time passes *)

Definition later (n : nat) (w : World) : Prop := (n <= ticks w)%nat.

Lemma later_now n : keeps (later n) (now clk). Proof. intros w H. unfold later in *. cbn. lia. Qed.
Lemma later_draw n k : keeps (later n) (draw k). Proof. by intros w H. Qed.
Lemma later_on_db n f : keeps (later n) (on_db f). Proof. by intros w H. Qed.
Lemma later_audit n e : keeps (later n) (audit sha256 e). Proof. by intros w H. Qed.
Lemma later_tx {A} n (m : M A) : keeps (later n) m -> keeps (later n) (tx m).
Proof. intros H w Hw. specialize (H w Hw). unfold tx. by destruct (m w) as [[a|e] w']. Qed.
Lemma later_text n v f m : keeps (later n) (text v f m). Proof. apply keeps_require. Qed.
Lemma later_auth n a act u : keeps (later n) (requireAuthorization port a act u). Proof. apply keeps_require. Qed.
Lemma later_channel n v : keeps (later n) (channelOf v). Proof. apply keeps_require. Qed.
Lemma later_read {A} n (f : Db -> A) : keeps (later n) (read f). Proof. by intros w H. Qed.
#[local] Hint Resolve later_now later_draw later_on_db later_audit later_tx later_text later_auth later_channel later_read : keeps.
Lemma later_identity n i : keeps (later n) (identityOf i). Proof. unfold identityOf. keeps_tac. Qed.
Lemma later_newId n t : keeps (later n) (newId random_bytes t). Proof. unfold newId. keeps_tac. Qed.
Lemma later_human n id : keeps (later n) (requireHuman id). Proof. unfold requireHuman. keeps_tac. Qed.
Lemma later_count n k s : keeps (later n) (count_failure clk k s). Proof. unfold count_failure. keeps_tac. Qed.
Lemma later_locked n k : keeps (later n) (locked clk k). Proof. unfold locked. keeps_tac. Qed.
#[local] Hint Resolve later_identity later_newId later_human later_count later_locked : keeps.
Lemma later_insert n h i p b : keeps (later n) (insertLink clk random_bytes sha256 stringify h i p b). Proof. unfold insertLink. keeps_tac. Qed.
#[local] Hint Resolve later_insert : keeps.

Lemma open_later cfg w : (ticks w <= ticks (open clk cfg w).2)%nat.
Proof.
  assert (H : keeps (later (ticks w)) (open clk cfg)). { unfold open. keeps_tac. apply later_tx. keeps_tac. }
  apply (keeps_state _ _ w H). unfold later. lia.
Qed.

Lemma perform_later ttl cap c w : (ticks w <= ticks (perform ttl cap c w).2)%nat.
Proof.
  assert (H : forall A (m : M A), keeps (later (ticks w)) m -> (ticks w <= ticks (m w).2)%nat) by (intros A m Hm; apply (keeps_state (later (ticks w)) m w Hm); unfold later; lia).
  destruct c; cbn [IdentityCalls.perform]; unfold tell, silent, as_backfill; cbn [snd]; try apply H; [..|cbn; lia].
  - unfold createHuman. keeps_tac.
  - unfold link. keeps_tac. apply later_tx. keeps_tac.
  - unfold revokePairing. keeps_tac. apply later_tx. keeps_tac.
  - unfold startPairing. keeps_tac. apply later_tx. keeps_tac.
  - unfold claim, claim_tx. keeps_tac. apply later_tx. keeps_tac.
  - unfold confirm, confirm_tx. keeps_tac. apply later_tx. keeps_tac.
  - unfold unlink. keeps_tac. apply later_tx. keeps_tac.
  - unfold reserveBackfill. keeps_tac.
  - unfold finishBackfill. keeps_tac.
  - unfold list_all. keeps_tac.
Qed.

(** *** Refused claims *)

Definition guess_at (a b : Z) (e : Event) : Z := match e with EvGuess t => if (a <=? t) && (t <=? b) then 1 else 0 | _ => 0 end.
(** The claims refused for a wrong code that began in [[a, b]]. *)
Definition guesses (a b : Z) (h : list Event) : Z := zsum (guess_at a b) h.

(** The counter of all claims after a call: one failure later for a refused claim, which the lock let through, and as
    it was after any other call. *)
Definition counter (w : World) : option Attempt := attempts (db w) !! GLOBAL_KEY.
Definition refused (w w' : World) : Prop :=
  match counter w with Some r => locked_until r <= clk (ticks w) | None => True end /\
  exists k, (ticks w <= k < ticks w')%nat /\ counter w' = Some (counted GLOBAL_LIMIT (clk k) (counter w)).
Definition counted_as (es : list Event) (w w' : World) : Prop :=
  (es = [EvGuess (clk (ticks w))] /\ refused w w') \/ ((forall a b, guesses a b es = 0) /\ counter w' = counter w).

Lemma counted_same es w w' : (forall a b, guesses a b es = 0) -> db w' = db w -> counted_as es w w'.
Proof. intros H E. right. split; [done|]. unfold counter. by rewrite E. Qed.
Lemma counted_other es w w' : (forall a b, guesses a b es = 0) -> counter w' = counter w -> counted_as es w w'.
Proof. by right. Qed.

Lemma settled_counter id approve a w w' out : settled_as port id approve a w (db w') out -> counter w' = counter w.
Proof.
  intros (r & c & _ & _ & _ & _ & [(_ & _ & t & E)|(l & t & m & _ & _ & _ & _ & _ & _ & _ & _ & _ & _ & E & Hm)]); unfold counter; by rewrite E.
Qed.

Lemma perform_counter ttl cap c w : counted_as (perform ttl cap c w).1 w (perform ttl cap c w).2.
Proof.
  destruct c as [name a|h i a|id a|h chan req a|raw i|id approve a|id a|id op a|id s n r|x y|cfg]; cbn [IdentityCalls.perform]; unfold tell, silent, as_backfill; cbn [fst snd].
  - destruct (createHuman _ _ _ _ name a w) as [[x|e] w'] eqn:E; cbn.
    + apply createHuman_ok in E as (_ & _ & E). apply counted_other; [done|]. unfold counter. by rewrite E.
    + apply counted_same; [done|]. by eapply createHuman_atomic.
  - destruct (link _ _ _ _ _ h i a w) as [[l|e] w'] eqn:E; cbn.
    + apply link_ok in E as (_ & _ & _ & _ & _ & _ & _ & _ & E). apply counted_other; [done|]. unfold counter. by rewrite E.
    + apply counted_same; [done|]. by eapply link_atomic.
  - destruct (revokePairing _ _ _ id a w) as [[x|e] w'] eqn:E; cbn.
    + apply revokePairing_ok in E as (r & t & _ & _ & _ & E). apply counted_other; [done|]. unfold counter. by rewrite E.
    + apply counted_same; [done|]. by eapply revokePairing_atomic.
  - destruct (startPairing _ _ _ _ _ _ _ h chan req a w) as [[o|e] w'] eqn:E; cbn.
    + apply startPairing_ok in E as (p & m & E & Hm & _). apply counted_other; [done|]. unfold counter. by rewrite E.
    + apply counted_same; [done|]. by eapply startPairing_atomic.
  - pose proof (claim_spec clk sha256 stringify ttl raw i w) as H. destruct (claim _ _ _ _ raw i w) as [[[pid b]|e] w'] eqn:E; cbn.
    + destruct H as (hit & _ & _ & _ & _ & _ & _ & t & m & _ & _ & Hm & E'). apply counted_other; [done|]. unfold counter. by rewrite E'.
    + destruct H as [(why & -> & Hw & t & k & Hk & E')|[Hne E']]; [|destruct e; try done; by apply counted_same].
      left. split; [done|]. split; [by apply unlocked in Hw|]. exists k. split; [done|]. unfold counter. rewrite E'. cbn [attempts set_attempts].
      rewrite failure_same, failure_other by done. done.
  - pose proof (confirm_spec clk random_bytes sha256 stringify port id approve a w) as H.
    destruct (confirm _ _ _ _ _ id approve a w) as [[[st l]|e] w'] eqn:E; cbn.
    + destruct H as (out & _ & _ & _ & H). apply counted_other; [by destruct l|]. by eapply settled_counter.
    + destruct H as [E'|(out & _ & H)]; [by apply counted_same|]. apply counted_other; [done|]. by eapply settled_counter.
  - destruct (unlink _ _ _ id a w) as [[l|e] w'] eqn:E; cbn.
    + apply unlink_ok in E as (r & t & _ & _ & _ & _ & _ & E). apply counted_other; [done|]. unfold counter. by rewrite E.
    + apply counted_same; [done|]. by eapply unlink_atomic.
  - destruct (reserve_step clk sha256 id op a w) as (l & E). apply counted_other; [done|]. unfold counter. by rewrite E.
  - destruct (finish_step id s n r w) as (l & E). apply counted_other; [done|]. unfold counter. by rewrite E.
  - by apply counted_same.
  - by apply counted_same.
Qed.

(** *** Sequences of calls *)

Definition Bounded (a b : Z) (s : Service) (c : Z) : Prop := within GLOBAL_LIMIT a b (clk (ticks (world s))) (counter (world s)) c.

Lemma bounded_call a b c s n : b - a < 15 * 60000 -> Bounded a b s n -> Bounded a b (call c s).2 (n + guesses a b (call c s).1).
Proof.
  intros Hab H. unfold Bounded in *.
  assert (P : forall ttl cap c, within GLOBAL_LIMIT a b (clk (ticks (perform ttl cap c (world s)).2)) (counter (perform ttl cap c (world s)).2)
     (n + guesses a b (perform ttl cap c (world s)).1)).
  { intros ttl cap c'. pose proof (perform_later ttl cap c' (world s)) as Hl.
    destruct (perform_counter ttl cap c' (world s)) as [(-> & Hw & k & Hk & ->)|[-> ->]].
    - unfold guesses. cbn [zsum guess_at]. rewrite Z.add_0_r. eapply within_later; [|by apply (clk_le k); lia].
      eapply (within_failure _ a b (clk (ticks (world s)))); cbn; try done; try lia. apply clk_le. lia.
    - rewrite Z.add_0_r. eapply within_later; [done|]. by apply clk_le. }
  destruct c; try (cbn [IdentityCalls.call]; destruct (ttls s) as [[ttl cap]|]; [apply P|by rewrite Z.add_0_r]).
  cbn [IdentityCalls.call world fst snd]. rewrite Z.add_0_r. destruct (open_spec clk codeTtlMs (world s)) as (m & E & Ho). unfold counter. rewrite E. cbn [attempts set_attempts].
  pose proof (open_later codeTtlMs (world s)) as Hl. destruct (open clk codeTtlMs (world s)) as [[t|e] w']; cbn [fst snd] in *.
  - destruct Ho as (k & Hk & k' & Hk' & ->). eapply (within_prune _ a b (clk (ticks (world s)))); [lia|apply clk_le; lia|apply clk_le; lia|exact H].
  - subst m. eapply within_later; [exact H|]. by apply clk_le.
Qed.

Lemma bounded_calls a b cs : b - a < 15 * 60000 -> forall s n, Bounded a b s n -> Bounded a b (calls cs s).2 (n + guesses a b (calls cs s).1).
Proof.
  intros Hab. induction cs as [|c cs IH]; intros s n H; cbn [IdentityCalls.calls fst snd]; [by rewrite Z.add_0_r|].
  unfold guesses. rewrite zsum_app, Z.add_assoc. apply IH. by apply bounded_call.
Qed.

(** (C18) A bound on guessing. While the clock does not run backwards, any stretch of less than fifteen minutes sees at
    most 39 claims refused for a wrong code, over all handles and channels together and whatever else is called,
    restarts included: every further claim is refused unread until the lock ends. *)
Theorem guesses_bounded cs a b : b - a < 15 * 60000 -> guesses a b (calls cs fresh_service).1 <= 39.
Proof.
  intros Hab. assert (H : Bounded a b fresh_service 0) by (by apply within_fresh).
  destruct (bounded_calls a b cs Hab _ _ H) as [H1 _]. cbn in H1. lia.
Qed.
End guess.
