(* ===== verification/IdentityBackfill.v ===== *)
(** * Back-fills

    Model of [packages/core/src/identity/backfill.ts] with the engine port of
    [engine-rebind.ts]: the memories written under a handle's old principal are given
    to the person it is linked to, and back. The engine answers later; until it does,
    anything else may be called. A back-fill is therefore two functions, up to the
    request to the engine and from its answer on, and a process is the service with the
    links that are busy and the requests under way. *)

From S2P Require Import Prelude Rbac IdentityCodes Identity IdentityCalls.

(** ** Data *)

(** What the engine is asked: whose handle, and which person. *)
(* @src identity/engine-rebind.ts 13 13 RebindTarget *)
Record RebindTarget : Type := { rt_human : string; rt_channel : string; rt_accountId : string; rt_userId : string }.

(** What the engine answers, or the code it fails with. *)
Record EngineAnswer : Type := { en_count : num; en_receipt : option string }.
Inductive EngineError : Type := AlreadyBound | Refused | OtherError.

Inductive Request : Type :=
| AskRebind (target : RebindTarget) (dry : bool)
| AskUnbind (receipt : string) (dry : bool).

(** A back-fill whose request is with the engine. *)
Inductive Pending : Type :=
| PRun (linkId from to : string) (dry : bool) (operation : string) (a : Actor) (ask : Request)
| PReverse (linkId human v1 : string) (dry : bool) (operation receipt : string) (a : Actor) (ask : Request).
Definition pend_link (p : Pending) : string := match p with PRun id _ _ _ _ _ _ => id | PReverse id _ _ _ _ _ _ _ => id end.

(* @src identity/backfill.ts 11 13 BackfillReport *)
Record BackfillReport : Type := { r_linkId : string; r_from : string; r_to : string; r_dryRun : bool; r_count : Z; r_at : Z; r_receipt : option string }.

(** How far a call came: it ended with a value, or waits. *)
Inductive Begun (A : Type) : Type := Ended (a : A) | Waits (p : Pending).
Arguments Ended {A} a.
Arguments Waits {A} p.

Section backfill.
Context (clk : nat -> Z) (random_bytes : nat -> nat -> list Z) (uuid : nat -> string) (sha256 : string -> string) (stringify : js -> string)
  (port : Actor -> IdentityAction -> string -> bool).

Notation audit := (audit sha256).
Notation requireAuthorization := (requireAuthorization port).
Notation now := (now clk).

Definition randomUUID : M string := n ← draw 1; mret (uuid n).

(* @src identity/backfill.ts 23 26 countOf *)
Definition countOf (n : num) : M Z :=
  match n with Fin z => require (safe_int z && (0 <=? z)) Storage ;; mret z | _ => throw Storage end.

(** ** The engine port *)

(** The first active link with the principal, people and links in the order they are listed. *)
(* @src identity/engine-rebind.ts 17 26 rebindLookupFromService *)
Definition rebindLookup (v1 : string) : M (option RebindTarget) :=
  l ← list_all clk false false;
  mret (match bfind (fun l => active l && String.eqb (v1Principal l) v1) (concat (map snd l.1)) with
        | Some l => Some {| rt_human := humanId l; rt_channel := channel (l_handle l); rt_accountId := accountId (l_handle l); rt_userId := ci_userId (l_handle l) |}
        | None => None
        end).

(** What the port does before it asks. *)
(* @src identity/engine-rebind.ts 40 48 createEngineRebindPort *)
Definition port_rebind (from to : string) (dry : bool) : M Request :=
  t ← rebindLookup from;
  match t with
  | None => throw NotFound
  | Some t => require (bool_decide (deriveUserPrincipal sha256 (rt_human t) = Some to)) Conflict ;; mret (AskRebind t dry)
  end.

(* @src identity/engine-rebind.ts 33 38 guard *)
Definition port_error (e : EngineError) : IdentityError := match e with AlreadyBound => Conflict | Refused => InvalidParams "" | OtherError => Storage end.

Definition is_v1 (p : string) : bool := isUserPrincipal p && starts_with "user:v1:" p.
Definition derive (human : string) : M string :=
  match deriveUserPrincipal sha256 human with Some p => mret p | None => throw (InvalidParams "") end.
Definition receipt_text (r : option string) : string := default "" r.
Definition has_receipt (r : option string) : bool := match r with Some s => negb (is_empty s) | None => false end.

(* @src identity/backfill.ts 52 54 run *)
Definition report (id from to : string) (dry : bool) (count : Z) (receipt : option string) (a : Actor) : M BackfillReport :=
  t ← now;
  audit (event "identity.backfill" id [("from", JStr from); ("to", JStr to); ("count", JNum (Fin count)); ("dryRun", JBool dry); ("at", JNum (Fin t));
                                       ("receipt", JStr (receipt_text receipt))] (Some a)) ;;
  mret {| r_linkId := id; r_from := from; r_to := to; r_dryRun := dry; r_count := count; r_at := t; r_receipt := if has_receipt receipt then receipt else None |}.

(** ** A back-fill *)

(** Up to the request. An applied back-fill answers from its record. *)
(* @src identity/backfill.ts 28 45 run *)
Definition run_begin (linkId : string) (dry : bool) (a : Actor) : M (Begun BackfillReport) :=
  l ← getLink linkId;
  requireAuthorization a ActBackfill (humanId l) ;;
  require (active l) Conflict ;;
  require (is_v1 (v1Principal l)) Storage ;;
  to ← derive (humanId l);
  rec ← read (backfillRecord (l_id l));
  require (match rec with Some b => negb (bool_decide (b_state b ∈ [BReversing; BReversed])) | None => true end) Conflict ;;
  (if negb dry && bool_decide (rec = None) then op ← randomUUID; reserveBackfill clk sha256 (l_id l) op a else mret tt) ;;
  rec ← read (backfillRecord (l_id l));
  match rec with
  | Some b =>
      if negb dry && bool_decide (b_state b = BApplied) then
        count ← countOf (Fin (default 0 (b_count b)));
        r ← report (l_id l) (v1Principal l) to dry count (b_receipt b) a;
        mret (Ended r)
      else
        ask ← port_rebind (v1Principal l) to dry;
        mret (Waits (PRun (l_id l) (v1Principal l) to dry (operation_id b) a ask))
  | None =>
      op ← randomUUID;
      ask ← port_rebind (v1Principal l) to dry;
      mret (Waits (PRun (l_id l) (v1Principal l) to dry op a ask))
  end.

(** From the answer on. *)
(* @src identity/backfill.ts 45 56 run *)
Definition run_end (id from to : string) (dry : bool) (a : Actor) (ans : EngineAnswer + EngineError) : M BackfillReport :=
  match ans with
  | inr e => throw (port_error e)
  | inl x =>
      count ← countOf (en_count x);
      (if dry then mret tt
       else require (has_receipt (en_receipt x)) Storage ;; finishBackfill id BApplied count (receipt_text (en_receipt x))) ;;
      report id from to dry count (en_receipt x) a
  end.

(* @src identity/backfill.ts 57 65 reverse *)
Definition reverse_begin (linkId : string) (dry : bool) (a : Actor) : M (Begun Z) :=
  l ← getLink linkId;
  requireAuthorization a ActBackfill (humanId l) ;;
  rec ← read (backfillRecord (l_id l));
  match rec with
  | None => throw Conflict
  | Some b =>
      require (negb (bool_decide (b_state b = BRunning))) Conflict ;;
      if bool_decide (b_state b = BReversed) then mret (Ended (default 0 (b_count b)))
      else
        let receipt := receipt_text (b_receipt b) in
        (if dry then mret tt else finishBackfill (l_id l) BReversing (default 0 (b_count b)) receipt) ;;
        mret (Waits (PReverse (l_id l) (humanId l) (v1Principal l) dry (operation_id b +:+ ":reverse") receipt a (AskUnbind receipt dry)))
  end.

(* @src identity/backfill.ts 65 71 reverse *)
Definition reverse_end (id human v1 : string) (dry : bool) (receipt : string) (a : Actor) (ans : EngineAnswer + EngineError) : M Z :=
  match ans with
  | inr e => throw (port_error e)
  | inl x =>
      count ← countOf (en_count x);
      (if dry then mret tt else finishBackfill id BReversed count receipt) ;;
      from ← derive human;
      audit (event "identity.backfill.reversed" id [("count", JNum (Fin count)); ("dryRun", JBool dry); ("from", JStr from); ("to", JStr v1)] (Some a)) ;;
      mret count
  end.

(** ** A process *)

Record Process : Type := { service : Service; busy : list string; under_way : list Pending }.

Inductive Action : Type :=
| DoCall (c : Call)
| BeginRun (linkId : string) (dry : bool) (a : Actor)
| BeginReverse (linkId : string) (dry : bool) (a : Actor)
| Answer (n : nat) (ans : EngineAnswer + EngineError)
| Restart.

Definition with_world (w : World) (s : Service) : Service := {| world := w; ttls := ttls s |}.
Definition free (id : string) (l : list string) : list string := bfilter (fun x => negb (String.eqb x id)) l.

(** [exclusive]: a link that is busy is refused; it stays busy until the call has ended. A closed service throws. *)
(* @src identity/backfill.ts 17 22 exclusive *)
Definition exclusive {A} (id : string) (m : M (Begun A)) (p : Process) : Process :=
  if includes (busy p) id || bool_decide (ttls (service p) = None) then p
  else match m (world (service p)) with
       | (Ok (Waits x), w) => {| service := with_world w (service p); busy := busy p ++ [id]; under_way := under_way p ++ [x] |}
       | (_, w) => {| service := with_world w (service p); busy := busy p; under_way := under_way p |}
       end.

Definition answer (x : Pending) (ans : EngineAnswer + EngineError) (w : World) : World :=
  match x with
  | PRun id from to dry _ a _ => (run_end id from to dry a ans w).2
  | PReverse id human v1 dry _ receipt a _ => (reverse_end id human v1 dry receipt a ans w).2
  end.

(** Calls of the service that are not a back-fill's own. *)
Definition from_outside (c : Call) : bool := match c with CReserve _ _ _ | CFinish _ _ _ _ => false | _ => true end.

Context (random_int : nat -> Z -> Z).

Definition act (x : Action) (p : Process) : Process :=
  match x with
  | DoCall c => if from_outside c then {| service := (call clk random_int random_bytes sha256 stringify port c (service p)).2; busy := busy p; under_way := under_way p |} else p
  | BeginRun id dry a => exclusive id (run_begin id dry a) p
  | BeginReverse id dry a => exclusive id (reverse_begin id dry a) p
  | Answer n ans => match under_way p !! n with
                    | Some x => {| service := match ttls (service p) with None => service p | Some _ => with_world (answer x ans (world (service p))) (service p) end; busy := free (pend_link x) (busy p);
                                   under_way := take n (under_way p) ++ drop (S n) (under_way p) |}
                    | None => p
                    end
  | Restart => {| service := {| world := world (service p); ttls := None |}; busy := []; under_way := [] |}
  end.

Definition acts (l : list Action) (p : Process) : Process := fold_left (fun p x => act x p) l p.
End backfill.

Definition fresh_process : Process := {| service := fresh_service; busy := []; under_way := [] |}.
