(* ===== verification/IdentityBackfillSpec.v ===== *)
(** * What a back-fill may touch

    Over every interleaving of calls, back-fills, answers of the engine and restarts: the
    engine is only ever asked to move the memories of a handle that is linked, and the
    record of a back-fill only moves forward. *)

From S2P Require Import Prelude Rbac IdentityCodes Identity IdentityCalls IdentityInv IdentityBackfill.

Section spec.
Context (clk : nat -> Z) (random_bytes : nat -> nat -> list Z) (uuid : nat -> string) (sha256 : string -> string) (stringify : js -> string)
  (port : Actor -> IdentityAction -> string -> bool) (random_int : nat -> Z -> Z).

Notation call := (call clk random_int random_bytes sha256 stringify port).
Notation run_begin := (run_begin clk uuid sha256 port).
Notation run_end := (run_end clk sha256).
Notation reverse_begin := (reverse_begin port).
Notation reverse_end := (reverse_end sha256).
Notation act := (act clk random_bytes uuid sha256 stringify port random_int).
Notation acts := (acts clk random_bytes uuid sha256 stringify port random_int).

(** ** Records of back-fills *)

Definition rank (s : BackfillState) : nat := match s with BRunning => 0 | BApplied => 1 | BReversing => 2 | BReversed => 3 end.

(** From [d] to [d'] no record is lost, records move forward, and those of other links than [ids] do not move. *)
Definition forward (ids : list string) (d d' : Db) : Prop :=
  identities d' = identities d /\
  forall id b, backfillRecord id d = Some b -> exists b', backfillRecord id d' = Some b' /\ operation_id b' = operation_id b /\ (rank (b_state b) <= rank (b_state b'))%nat /\
    (id ∉ ids -> b' = b).

Lemma forward_refl ids d : forward ids d d.
Proof. split; [done|]. intros id b H. exists b. split_and!; done || lia. Qed.
Lemma forward_trans ids d d1 d2 : forward ids d d1 -> forward ids d1 d2 -> forward ids d d2.
Proof.
  intros [E1 H1] [E2 H2]. split; [congruence|]. intros id b Hb. destruct (H1 id b Hb) as (b1 & Hb1 & O1 & R1 & S1). destruct (H2 id b1 Hb1) as (b2 & Hb2 & O2 & R2 & S2).
  exists b2. split_and!; [done|congruence|lia|]. intros Hn. by rewrite (S2 Hn), (S1 Hn).
Qed.

Lemma forward_append ids d b : forward ids d (set_backfills (backfills d ++ [b]) d).
Proof.
  split; [done|]. intros id x H. exists x. split_and!; try done; try lia. unfold backfillRecord in *. cbn. by rewrite bfind_app, H.
Qed.

Lemma record_upd id id' f l : (forall b, b_link (f b) = b_link b) ->
  bfind (fun b => String.eqb (b_link b) id') (map (fun b => if String.eqb (b_link b) id then f b else b) l) =
  (fun b => if String.eqb (b_link b) id then f b else b) <$> bfind (fun b => String.eqb (b_link b) id') l.
Proof.
  intros Hf. unfold bfind. induction l as [|b l IH]; [done|]. cbn [map List.find].
  assert (b_link (if (b_link b =? id)%string then f b else b) = b_link b) as -> by (destruct (b_link b =? id)%string; [apply Hf|done]).
  destruct (b_link b =? id')%string; [done|exact IH].
Qed.

Lemma record_link id d b : backfillRecord id d = Some b -> b_link b = id.
Proof. intros [_ H]%bfind_some. by apply String.eqb_eq in H. Qed.

(** ** Steps of a back-fill *)

Definition fwd (ids : list string) (d : Db) (w : World) : Prop := forward ids d (db w).

Lemma fwd_idle {A} ids d (m : M A) : idle m -> keeps (fwd ids d) m.
Proof. intros H w Hw. specialize (H w). destruct (m w) as [[a|e] w']; cbn in H; unfold fwd in *; by rewrite H. Qed.

Lemma fwd_reserve ids d id op a : keeps (fwd ids d) (reserveBackfill clk sha256 id op a).
Proof.
  unfold reserveBackfill. apply keeps_bind; [by apply fwd_idle|intros t]. apply keeps_bind; [by apply fwd_idle|intros [b|]]; [apply keeps_ret|].
  apply keeps_bind; [by apply fwd_idle|intros fits]. apply keeps_bind; [apply keeps_require|intros _]. apply keeps_modify. intros w Hw.
  eapply forward_trans; [exact Hw|]. apply forward_append.
Qed.

Lemma rank_from s t : t ∈ backfill_from s -> s <> BRunning -> (rank t <= rank s)%nat.
Proof. destruct s; cbn; set_unfold; intros [->|[->|?]] ?; cbn; done || lia. Qed.

Lemma forward_finish ids d id s n r b : id ∈ ids -> s <> BRunning -> backfillRecord id d = Some b -> b_state b ∈ backfill_from s ->
  forward ids d (set_backfills (map (fun b => if String.eqb (b_link b) id then finished s n r b else b) (backfills d)) d).
Proof.
  intros Hi Hs Hb Hf. split; [done|]. intros id' x Hx. unfold backfillRecord in *. cbn [set_backfills backfills]. rewrite record_upd by done. rewrite Hx. cbn.
  pose proof (record_link _ _ _ Hx) as E. destruct (String.eqb_spec (b_link x) id) as [E'|E'].
  - assert (id' = id) as -> by congruence. rewrite Hb in Hx. injection Hx as ->. eexists. split_and!; [done|done| |]. { cbn. by apply rank_from. } congruence.
  - exists x. split_and!; done || lia.
Qed.

Lemma fwd_finish ids d id s n r : id ∈ ids -> s <> BRunning -> keeps (fwd ids d) (finishBackfill id s n r).
Proof.
  intros Hi Hs w Hw. unfold finishBackfill, mbind, SE_bind, read, gets. destruct (backfillRecord id (db w)) as [b|] eqn:Eb; [|done].
  unfold require. destruct (bool_decide_reflect (b_state b ∈ backfill_from s)) as [Hf|Hf]; cbn; [|done].
  eapply forward_trans; [exact Hw|]. by eapply forward_finish.
Qed.

Lemma getLink_ok id w l w' : getLink id w = (Ok l, w') -> find_link id (db w) = Some l /\ w' = w.
Proof. unfold getLink. intros H. open_call. by split. Qed.
Lemma idle_getLink id : idle (getLink id).
Proof. unfold getLink. apply svc_idle_bind; [apply idle_text|intros _]. apply svc_idle_bind; [done|]. by intros [l|]. Qed.
Lemma idle_list a b : idle (list_all clk a b). Proof. done. Qed.
Lemma idle_derive h : idle (derive sha256 h). Proof. unfold derive. by destruct (deriveUserPrincipal _ _). Qed.
Lemma idle_countOf n : idle (countOf n).
Proof. unfold countOf. destruct n; [|done..]. apply svc_idle_bind; [apply idle_require|done]. Qed.
Lemma idle_port from to dry : idle (port_rebind clk sha256 from to dry).
Proof.
  unfold port_rebind, rebindLookup. apply svc_idle_bind; [by apply svc_idle_bind|]. intros [t|]; [|done]. apply svc_idle_bind; [apply idle_require|done].
Qed.
Lemma idle_report id from to dry n r a : idle (report clk sha256 id from to dry n r a). Proof. done. Qed.
Lemma idle_uuid : idle (randomUUID uuid). Proof. done. Qed.
#[local] Hint Resolve idle_getLink idle_list idle_derive idle_countOf idle_port idle_report idle_uuid : calls.
#[local] Hint Resolve fwd_reserve : keeps.

Ltac fwd_tac :=
  repeat match goal with
  | |- keeps _ (_ ≫= _) => apply keeps_bind; [|intros]
  | |- keeps _ (if ?b then _ else _) => destruct b
  | |- keeps _ (match ?x with _ => _ end) => destruct x
  | |- keeps (fwd _ _) _ => solve [apply fwd_idle; auto with calls | auto with keeps | apply fwd_finish; [by left|done]]
  end.

Lemma run_begin_forward ids d id dry a : keeps (fwd ids d) (run_begin id dry a).
Proof. unfold IdentityBackfill.run_begin. fwd_tac. Qed.
Lemma run_end_forward d id from to dry a ans : keeps (fwd [id] d) (run_end id from to dry a ans).
Proof. unfold IdentityBackfill.run_end. destruct ans; fwd_tac. Qed.
Lemma reverse_end_forward d id h v dry r a ans : keeps (fwd [id] d) (reverse_end id h v dry r a ans).
Proof. unfold IdentityBackfill.reverse_end. destruct ans; fwd_tac. Qed.
Lemma fwd_getLink ids d id : triple (fwd ids d) (getLink id) (fun l w => fwd ids d w /\ l_id l = id) (fun _ => fwd ids d).
Proof.
  intros w Hw. destruct (getLink id w) as [[l|e] w1] eqn:E.
  - apply getLink_ok in E as [[_ E]%find_link_elem ->]. by split.
  - pose proof (fwd_idle ids d (getLink id) (idle_getLink id) w Hw) as H. by rewrite E in H.
Qed.
Lemma reverse_begin_forward d id dry a : keeps (fwd [id] d) (reverse_begin id dry a).
Proof.
  unfold IdentityBackfill.reverse_begin. eapply triple_bind; [apply fwd_getLink|]. intros l. apply triple_pre. intros <-.
  change (keeps (fwd [l_id l] d) (requireAuthorization port a ActBackfill (humanId l) ≫= fun _ => read (backfillRecord (l_id l)) ≫= fun rec =>
    match rec with None => throw Conflict | Some b => require (negb (bool_decide (b_state b = BRunning))) Conflict ;; if bool_decide (b_state b = BReversed) then mret (Ended (default 0 (b_count b)))
      else (if dry then mret tt else finishBackfill (l_id l) BReversing (default 0 (b_count b)) (receipt_text (b_receipt b))) ;;
        mret (Waits (PReverse (l_id l) (humanId l) (v1Principal l) dry (operation_id b +:+ ":reverse") (receipt_text (b_receipt b)) a (AskUnbind (receipt_text (b_receipt b)) dry))) end)).
  fwd_tac.
Qed.

(** *** What a request rests on *)

Definition owed (d : Db) (x : Pending) : Prop :=
  match x with
  | PRun id from to false op a ask => exists l b, find_link id d = Some l /\ revokedAt l = None /\ v1Principal l = from /\ deriveUserPrincipal sha256 (humanId l) = Some to /\
      may port a ActBackfill (humanId l) /\ backfillRecord id d = Some b /\ b_state b = BRunning /\ operation_id b = op /\
      exists t, ask = AskRebind t false /\ deriveUserPrincipal sha256 (rt_human t) = Some to
  | _ => True
  end.

Lemma derive_ok h w p w' : derive sha256 h w = (Ok p, w') -> deriveUserPrincipal sha256 h = Some p /\ w' = w.
Proof. unfold derive. destruct (deriveUserPrincipal sha256 h); [|discriminate]. by intros [= -> ->]. Qed.
Lemma port_ok from to dry w ask w' : port_rebind clk sha256 from to dry w = (Ok ask, w') ->
  db w' = db w /\ exists t, ask = AskRebind t dry /\ deriveUserPrincipal sha256 (rt_human t) = Some to.
Proof.
  intros H. split; [by apply (svc_idle_ok _ _ _ _ (idle_port from to dry) H)|]. unfold port_rebind in H. open_call.
  match goal with H : match ?t with _ => _ end _ = (Ok _, _) |- _ => destruct t as [t|]; [|discriminate] end. open_call. bool_hyps. eauto.
Qed.

(** The record a new back-fill works under. *)
Lemma reserve_ok id op a w u w' : reserveBackfill clk sha256 id op a w = (Ok u, w') -> backfillRecord id (db w) = None ->
  identities (db w') = identities (db w) /\ exists b, backfillRecord id (db w') = Some b /\ b_state b = BRunning.
Proof.
  unfold reserveBackfill. intros H Hn. open_call; same_db; [congruence|]. cbn [db with_db] in *. same_db. split; [done|].
  unfold backfillRecord in *. cbn [backfills set_backfills]. rewrite bfind_app, Hn. unfold bfind. cbn. rewrite String.eqb_refl. by eexists.
Qed.

Lemma run_begin_owed id dry a w x w' : run_begin id dry a w = (Ok (Waits x), w') -> pend_link x = id /\ owed (db w') x.
Proof.
  unfold IdentityBackfill.run_begin. intros H. apply SE_bind_ok in H as (l & w0 & [Hl ->]%getLink_ok & H). pose proof (find_link_elem _ _ _ Hl) as [_ <-].
  apply SE_bind_ok in H as (u1 & w1 & Ha & H). apply auth_ok in Ha as [Ha ->].
  apply SE_bind_ok in H as (u2 & w2 & [Hact <-]%require_ok & H). apply SE_bind_ok in H as (u3 & w3 & [_ <-]%require_ok & H).
  apply SE_bind_ok in H as (to & w4 & [Hto ->]%derive_ok & H). apply SE_bind_ok in H as (rec & w5 & [-> ->]%svc_read_ok & H).
  apply SE_bind_ok in H as (u4 & w6 & [Hst <-]%require_ok & H). apply SE_bind_ok in H as (u5 & w7 & Hres & H).
  apply SE_bind_ok in H as (rec & w8 & [-> ->]%svc_read_ok & H).
  assert (R : identities (db w7) = identities (db w) /\ (dry = false -> exists b, backfillRecord (l_id l) (db w7) = Some b /\ (b_state b = BRunning \/ b_state b = BApplied))).
  { destruct (negb dry && bool_decide (backfillRecord (l_id l) (db w) = None)) eqn:E.
    - apply SE_bind_ok in Hres as (op & w9 & Hop & Hres). unfold randomUUID in Hop. open_call. bool_hyps.
      match goal with E : db w9 = _ |- _ => rewrite <- E end. apply reserve_ok in Hres as (? & b & ? & ?); [|congruence]. eauto 6.
    - injection Hres as _ <-. split; [done|]. intros ->. cbn in E. bool_hyps. destruct (backfillRecord (l_id l) (db w)) as [b|]; [|done]. exists b. split; [done|].
      bool_hyps. destruct (b_state b); set_solver. }
  destruct R as [Ri Rb]. unfold owed. clear Hres Hst.
  assert (Hl' : find_link (l_id l) (db w7) = Some l) by (unfold find_link; by rewrite Ri).
  destruct (backfillRecord (l_id l) (db w7)) as [b|] eqn:Eb.
  - destruct (negb dry && bool_decide (b_state b = BApplied)) eqn:E; open_call; [discriminate|].
    match goal with H : port_rebind _ _ _ _ _ _ = _ |- _ => apply port_ok in H as (Ed & t & -> & Ht) end. split; [done|]. destruct dry; [done|].
    destruct (Rb eq_refl) as (b' & [= <-] & Hs). cbn in E. bool_hyps. unfold active in Hact. bool_hyps. exists l, b. rewrite Ed. split_and!; try done; [|eauto]. destruct Hs; done.
  - open_call. match goal with H : port_rebind _ _ _ _ _ _ = _ |- _ => apply port_ok in H as (Ed & t & -> & Ht) end. split; [done|]. destruct dry; [done|].
    destruct (Rb eq_refl) as (b' & Hb' & _). congruence.
Qed.
Lemma reverse_begin_owed id dry a w x w' : reverse_begin id dry a w = (Ok (Waits x), w') -> pend_link x = id /\ owed (db w') x.
Proof.
  unfold IdentityBackfill.reverse_begin. intros H. apply SE_bind_ok in H as (l & w0 & [Hl ->]%getLink_ok & H). pose proof (find_link_elem _ _ _ Hl) as [_ <-].
  apply SE_bind_ok in H as (u1 & w1 & _ & H). apply SE_bind_ok in H as (rec & w2 & [-> ->]%svc_read_ok & H). destruct (backfillRecord (l_id l) (db w1)) as [b|]; [|discriminate].
  apply SE_bind_ok in H as (u2 & w3 & _ & H). destruct (bool_decide (b_state b = BReversed)); [discriminate|].
  apply SE_bind_ok in H as (u3 & w4 & _ & H). by injection H as <- <-.
Qed.

(** ** Calls from outside *)

Definition silent_on_backfills (es : list Event) : Prop := forall id, EvBackfill id ∉ es.

Lemma call_silent c s : from_outside c = true -> silent_on_backfills (call c s).1.
Proof.
  intros Hc id. destruct c; try discriminate Hc; cbn [IdentityCalls.call]; try (destruct (ttls s) as [[ttl cap]|]; [|set_solver]); cbn [IdentityCalls.perform fst];
    unfold tell, silent; cbn [fst]; try set_solver;
    match goal with |- context [match ?r with Ok _ => _ | Err _ => _ end] => destruct r as [x|e] end; try set_solver.
  - destruct e; set_solver.
  - destruct (x.2); set_solver.
Qed.

(** A step that is not a back-fill's leaves their records alone, and the links whose back-fill is running. *)
Lemma step_outside d es d' : step sha256 port d es d' -> silent_on_backfills es -> backfills d' = backfills d /\
  (forall id l b, find_link id d = Some l -> backfillRecord id d = Some b -> b_state b = BRunning -> find_link id d' = Some l).
Proof.
  intros St Hs. destruct St as [m d|bid bl d|m d|x d Hx|l a d Ha Hid Hh Hn Hr Hm|p m c a d Ha Hh Hid Hc Hs' Hcl|hit raw i c m d Hin Hch Hm Hs' Hc|id r s t d Hf Hs' Hn
    |id r c l t m a d Hf Ha Hs' Hc Hid Hh Hn Hu Hd Hm Hr|id r t a d Hf Ha Hr Hb|t m d]; try (by split).
  - by destruct (Hs bid); left.
  - split; [done|]. intros id x b Hx _ _. unfold find_link in *. cbn. by rewrite bfind_app, Hx.
  - split; [done|]. intros id' x b Hx _ _. unfold find_link in *. cbn. by rewrite bfind_app, Hx.
  - split; [done|]. intros id' x b Hx Hbx Hbs. unfold find_link in *. cbn [upd_link set_identities identities].
    assert (Hne : id <> id'). { intros ->. apply (Hb b Hbx). rewrite Hbs. by left. }
    pose proof (find_link_elem id' d x Hx) as [_ E]. clear Hf Hb. revert Hx. unfold bfind. generalize (identities d). intros l. induction l as [|y l IH]; [done|].
    cbn [map List.find]. destruct (String.eqb_spec (l_id y) id) as [Ey|Ey]; cbn [l_id revoked].
    + rewrite Ey. rewrite (proj2 (String.eqb_neq _ _)) by done. exact IH.
    + destruct (l_id y =? id')%string; [done|exact IH].
Qed.

(** ** The invariant of a process *)

Record PInv (p : Process) : Prop := {
  one_each : NoDup (map pend_link (under_way p));
  all_busy : forall x, x ∈ under_way p -> pend_link x ∈ busy p;
  all_owed : forall x, x ∈ under_way p -> owed (db (world (service p))) x
}.

Lemma owed_forward ids d d' x : forward ids d d' -> pend_link x ∉ ids -> owed d x -> owed d' x.
Proof.
  intros [Ei Hf] Hn. destruct x as [id from to [] op a ask|]; [done| |done]. cbn in Hn. intros (l & b & H1 & H2 & H3 & H4 & H5 & H6 & H7 & H8 & H9).
  destruct (Hf id b H6) as (b' & Hb' & _ & _ & Eb). rewrite (Eb Hn) in Hb'. exists l, b. split_and!; try done. unfold find_link. by rewrite Ei.
Qed.

Lemma owed_outside d d' x : backfills d' = backfills d -> (forall id l b, find_link id d = Some l -> backfillRecord id d = Some b -> b_state b = BRunning -> find_link id d' = Some l) ->
  owed d x -> owed d' x.
Proof.
  intros Eb Hl. destruct x as [id from to [] op a ask|]; [done| |done]. intros (l & b & H1 & H2 & H3 & H4 & H5 & H6 & H7 & H8 & H9).
  exists l, b. split_and!; try done; [by eapply Hl|]. unfold backfillRecord. by rewrite Eb.
Qed.

(** A call that begins a back-fill of [id] and changes no other record. *)
Lemma exclusive_inv {A} id (m : M (Begun A)) p : (forall d, keeps (fwd [id] d) m) -> (forall w x w', m w = (Ok (Waits x), w') -> pend_link x = id /\ owed (db w') x) ->
  PInv p -> PInv (exclusive id m p).
Proof.
  intros Hk Ho Hp. pose proof Hp as [H1 H2 H3]. unfold exclusive. destruct (includes (busy p) id || _) eqn:Eb; [done|]. bool_hyps.
  assert (Hid : id ∉ busy p). { intros Hin. apply includes_spec in Hin. congruence. }
  specialize (Hk (db (world (service p))) (world (service p)) (forward_refl _ _)).
  assert (Hold : forall w', fwd [id] (db (world (service p))) w' -> forall x, x ∈ under_way p -> owed (db w') x).
  { intros w' Hw x Hx. eapply owed_forward; [exact Hw| |by apply H3]. intros E%list_elem_of_singleton. apply Hid. rewrite <- E. by apply H2. }
  destruct (m (world (service p))) as [[[r|x]|e] w'] eqn:E; [by split; auto| |by split; auto].
  destruct (Ho _ _ _ E) as [Hx Hox]. split; cbn [under_way busy service with_world world].
  - rewrite map_app. apply nodup_snoc; [done|]. rewrite Hx. intros (y & Ey & Hy)%elem_of_map. apply Hid. rewrite Ey. by apply H2.
  - intros y [Hy| ->%list_elem_of_singleton]%elem_of_app; apply elem_of_app; [left; by apply H2|right; rewrite Hx; by left].
  - intros y [Hy| ->%list_elem_of_singleton]%elem_of_app; [by apply Hold|done].
Qed.

Lemma answer_forward x ans w : forward [pend_link x] (db w) (db (answer clk sha256 x ans w)).
Proof.
  destruct x; cbn [answer pend_link].
  - apply (keeps_state (fwd [linkId] (db w))); [apply run_end_forward|apply forward_refl].
  - apply (keeps_state (fwd [linkId] (db w))); [apply reverse_end_forward|apply forward_refl].
Qed.

Lemma answered_inv n ans p x : PInv p -> under_way p !! n = Some x -> PInv (act (Answer n ans) p).
Proof.
  intros [H1 H2 H3] Hn. cbn [IdentityBackfill.act]. rewrite Hn. pose proof (take_drop_middle _ _ _ Hn) as E.
  assert (Hsub : forall y, y ∈ take n (under_way p) ++ drop (S n) (under_way p) -> y ∈ under_way p /\ pend_link y <> pend_link x).
  { intros y Hy. rewrite <- E in H1 |- *. rewrite map_app in H1. cbn [map] in H1. split; [set_solver|]. intros Eq.
    apply list.NoDup_app in H1 as (N1 & N2 & N3). apply list.NoDup_cons in N3 as [N3 _].
    apply elem_of_app in Hy as [Hy|Hy].
    - apply (N2 (pend_link y)); [by apply elem_of_map; eauto|]. rewrite Eq. by left.
    - apply N3. rewrite <- Eq. apply elem_of_map. eauto. }
  split; cbn [under_way busy service].
  - rewrite <- E in H1. rewrite map_app in *. cbn [map] in H1. apply list.NoDup_app in H1 as (N1 & N2 & N3). apply list.NoDup_cons in N3 as [_ N3].
    apply list.NoDup_app. split_and!; try done. intros y Hy Hy'. apply (N2 y Hy). by right.
  - intros y Hy. destruct (Hsub y Hy) as [Hin Hne]. apply bfilter_elem. split; [by apply H2|]. by apply negb_true_iff, String.eqb_neq.
  - intros y Hy. destruct (Hsub y Hy) as [Hin Hne]. destruct (ttls (service p)); [|by apply H3].
    eapply owed_forward; [apply answer_forward| |by apply H3]. by intros ?%list_elem_of_singleton.
Qed.

Lemma act_inv x p : PInv p -> PInv (act x p).
Proof.
  intros Hp. destruct x as [c|id dry a|id dry a|n ans|].
  - cbn. destruct (from_outside c) eqn:Ec; [|done]. destruct Hp as [H1 H2 H3]. split; cbn; try done.
    destruct (step_outside _ _ _ (call_step clk random_int random_bytes sha256 stringify port c (service p)) (call_silent c (service p) Ec)) as [Eb Hl].
    intros x Hx. eapply owed_outside; [exact Eb|exact Hl|by apply H3].
  - apply exclusive_inv; [intros d; apply run_begin_forward|apply run_begin_owed|done].
  - apply exclusive_inv; [intros d; apply reverse_begin_forward| |done]. intros w y w'. apply reverse_begin_owed.
  - destruct (under_way p !! n) as [x|] eqn:E; [by eapply answered_inv|]. cbn. by rewrite E.
  - split; cbn; [constructor|set_solver|set_solver].
Qed.

Lemma acts_inv l p : PInv p -> PInv (acts l p).
Proof. revert p. induction l as [|x l IH]; intros p H; [done|]. apply IH. by apply act_inv. Qed.

Lemma fresh_inv : PInv fresh_process.
Proof. split; cbn; [constructor|set_solver|set_solver]. Qed.

(** A link whose back-fill is running cannot be unlinked. *)
Lemma running_not_unlinked id b a w : backfillRecord id (db w) = Some b -> b_state b = BRunning -> exists e, (unlink clk sha256 port id a w).1 = Err e.
Proof.
  intros Hb Hs. destruct (unlink clk sha256 port id a w) as [[l|e] w'] eqn:E; [|by exists e].
  apply unlink_ok in E as (r & t & _ & _ & _ & _ & Hn & _). destruct (Hn b Hb). rewrite Hs. by left.
Qed.

(** (C19) Memories move only under a live link. However calls, back-fills, answers of the engine and restarts are
    interleaved, at every moment at which the engine has a request to move memories (not a dry run) under way: the link
    it was made for is still active, so nobody can have revoked it meanwhile, and cannot be revoked now by anyone; the
    principal the memories leave is the one that link was stored with, the one they go to is derived from that link's
    human, and so is the one the engine was asked for; a person who may back-fill for that human asked for it; and the
    operation is the one the record of this back-fill carries, which is marked as running. *)
Theorem rebind_only_active l id from to op a ask : let d := world (service (acts l fresh_process)) in
  PRun id from to false op a ask ∈ under_way (acts l fresh_process) ->
  exists k b t, find_link id (db d) = Some k /\ revokedAt k = None /\ v1Principal k = from /\ deriveUserPrincipal sha256 (humanId k) = Some to /\
    ask = AskRebind t false /\ deriveUserPrincipal sha256 (rt_human t) = Some to /\ may port a ActBackfill (humanId k) /\
    backfillRecord id (db d) = Some b /\ b_state b = BRunning /\ operation_id b = op /\ forall by_, exists e, (unlink clk sha256 port id by_ d).1 = Err e.
Proof.
  cbn zeta. intros Hx. destruct (all_owed _ (acts_inv l _ fresh_inv) _ Hx) as (k & b & H1 & H2 & H3 & H4 & H5 & H6 & H7 & H8 & t & H9 & H10).
  exists k, b, t. split_and!; try done. intros by_. by eapply running_not_unlinked.
Qed.

(** *** Records move forward *)

Definition record_forward (d d' : Db) : Prop :=
  forall id b, backfillRecord id d = Some b -> exists b', backfillRecord id d' = Some b' /\ operation_id b' = operation_id b /\ (rank (b_state b) <= rank (b_state b'))%nat.

Lemma forward_record ids d d' : forward ids d d' -> record_forward d d'.
Proof. intros [_ H] id b Hb. destruct (H id b Hb) as (b' & ? & ? & ? & _). eauto. Qed.
Lemma same_record d d' : backfills d' = backfills d -> record_forward d d'.
Proof. intros E id b Hb. exists b. unfold backfillRecord in *. by rewrite E. Qed.

Lemma exclusive_forward {A} id (m : M (Begun A)) p : (forall d, keeps (fwd [id] d) m) -> record_forward (db (world (service p))) (db (world (service (exclusive id m p)))).
Proof.
  intros Hk. unfold exclusive. destruct (_ || _); [by apply same_record|]. specialize (Hk _ (world (service p)) (forward_refl _ _)).
  destruct (m (world (service p))) as [[[r|x]|e] w']; eapply forward_record, Hk.
Qed.

Lemma act_forward x p : record_forward (db (world (service p))) (db (world (service (act x p)))).
Proof.
  destruct x as [c|id dry a|id dry a|n ans|].
  - cbn. destruct (from_outside c) eqn:Ec; [|by apply same_record]. apply same_record.
    by destruct (step_outside _ _ _ (call_step clk random_int random_bytes sha256 stringify port c (service p)) (call_silent c (service p) Ec)).
  - apply exclusive_forward. intros d. apply run_begin_forward.
  - apply exclusive_forward. intros d. apply reverse_begin_forward.
  - cbn. destruct (under_way p !! n) as [x|]; [|by apply same_record]. cbn. destruct (ttls (service p)); [|by apply same_record].
    eapply forward_record, answer_forward.
  - by apply same_record.
Qed.

(** The record of a back-fill is never lost, keeps its operation, and only moves on from running to applied to
    reversing to reversed: what was reversed is never applied again. *)
Theorem backfill_only_forward l p : record_forward (db (world (service p))) (db (world (service (acts l p)))).
Proof.
  revert p. induction l as [|x l IH]; intros p; [by apply same_record|]. intros id b Hb.
  destruct (act_forward x p id b Hb) as (b1 & H1 & O1 & R1). destruct (IH (act x p) id b1 H1) as (b2 & H2 & O2 & R2).
  exists b2. split_and!; [exact H2|congruence|lia].
Qed.
End spec.
