(* ===== verification/IdentityAdmin.v ===== *)
(** * Roles, rights and invitations

    Model of [packages/core/src/identity/admin-store.ts]: the role of every person, who
    is disabled, rights on agents, and the invitations with their one-time tokens. A
    callback that runs before a commit writes an audit line; all that matters here is
    whether it throws. Notices for people are kept as they are written. *)

From S2P Require Import Prelude Rbac IdentityCodes.

(** ** Data *)

Inductive AdminError : Type := NoPerson | LastOwner | BadParams | Constraint | AuditThrew.

(* @src identity/admin-store.ts 15 15 REDEEM_SOURCE_LIMIT *)
Definition REDEEM_SOURCE_LIMIT : LimitSpec := {| limit := 5; windowMs := 15 * 60000; lockMs := 15 * 60000 |}.
(* @src identity/admin-store.ts 16 16 REDEEM_GLOBAL_LIMIT *)
Definition REDEEM_GLOBAL_LIMIT : LimitSpec := {| limit := 100; windowMs := 15 * 60000; lockMs := 5 * 60000 |}.
(* @src identity/admin-store.ts 17 17 REDEEM_GLOBAL_KEY *)
Definition REDEEM_GLOBAL_KEY : string := "invite-redeem:global".

Record RoleRow : Type := { ro_user : string; ro_role : Role; ro_disabled : bool; disabledAt : option Z; disabledBy : option string; ro_version : Z }.
Record RightRow : Type := { ri_agent : string; ri_user : string; ri_right : string }.
(** With the columns that callers are not shown. *)
(* @src identity/admin-store.ts 19 19 InviteRow *)
Record InviteRow : Type := {
  iv_id : string; iv_user : string; iv_role : Role; iv_channel : string; iv_expiresAt : Z; iv_revoked : bool; iv_createdAt : Z; iv_createdBy : string;
  iv_hash : option string; redeemedAt : option Z
}.
Inductive Refusal : Type := Unknown | InviteExpired | Revoked | Redeemed | Malformed | RateLimited.
(* @src identity/admin-store.ts 21 21 RedeemOutcome *)
Inductive RedeemOutcome : Type := Taken (invite : InviteRow) | NotTaken (reason : Refusal) (invite : option string).

(* @src identity/admin-store.ts 28 34 constructor *)
Record AdminDb : Type := { roles : list RoleRow; rights_tbl : list RightRow; notices_tbl : list (string * string * js); invites_tbl : list InviteRow; tries : Attempts }.
Notation M := (SE AdminDb AdminError).

Definition set_roles (l : list RoleRow) (d : AdminDb) : AdminDb := {| roles := l; rights_tbl := rights_tbl d; notices_tbl := notices_tbl d; invites_tbl := invites_tbl d; tries := tries d |}.
Definition set_rights (l : list RightRow) (d : AdminDb) : AdminDb := {| roles := roles d; rights_tbl := l; notices_tbl := notices_tbl d; invites_tbl := invites_tbl d; tries := tries d |}.
Definition set_notices (l : list (string * string * js)) (d : AdminDb) : AdminDb := {| roles := roles d; rights_tbl := rights_tbl d; notices_tbl := l; invites_tbl := invites_tbl d; tries := tries d |}.
Definition set_invites (l : list InviteRow) (d : AdminDb) : AdminDb := {| roles := roles d; rights_tbl := rights_tbl d; notices_tbl := notices_tbl d; invites_tbl := l; tries := tries d |}.
Definition set_tries (m : Attempts) (d : AdminDb) : AdminDb := {| roles := roles d; rights_tbl := rights_tbl d; notices_tbl := notices_tbl d; invites_tbl := invites_tbl d; tries := m |}.

(** A throw inside takes everything back. *)
Definition atomically {A} (m : M A) : M A := fun d => match m d with (Ok a, d') => (Ok a, d') | (Err e, _) => (Err e, d) end.

Definition role_row (id : string) (d : AdminDb) : option RoleRow := bfind (fun r => String.eqb (ro_user r) id) (roles d).
Definition new_role (id : string) (r : Role) : RoleRow := {| ro_user := id; ro_role := r; ro_disabled := false; disabledAt := None; disabledBy := None; ro_version := 1 |}.

(** ** People *)

(** Only an empty installation is seeded. *)
(* @src identity/admin-store.ts 38 41 constructor *)
Definition seed (ownerId : string) : M unit :=
  modify (fun d => match roles d with [] => set_roles [new_role ownerId Owner] d | _ => d end).

(* @src identity/admin-store.ts 43 43 role *)
Definition role_for (id : string) (fallback : Role) (d : AdminDb) : Role := match role_row id d with Some r => ro_role r | None => fallback end.
(* @src identity/admin-store.ts 44 46 users *)
Definition users (d : AdminDb) : list RoleRow := sort_by (fun a b => negb (str_ltb (ro_user b) (ro_user a))) (roles d).

Definition role_text (r : Role) : string := match r with Owner => "owner" | Admin => "admin" | Operator => "operator" | Member => "member" | Viewer => "viewer" end.

(** An agent is never made a person, and stored rights take the place of those presented. *)
(* @src identity/admin-store.ts 87 93 resolve *)
Definition resolve (p : Principal) (d : AdminDb) : Principal :=
  if bool_decide (kind p = Some "person") then
    {| userId := userId p; kind := kind p; role := match role_row (userId p) d with Some r => role_text (ro_role r) | None => role p end;
       agentRights := Some (map (fun r => (ri_agent r, ri_right r)) (bfilter (fun r => String.eqb (ri_user r) (userId p)) (rights_tbl d)));
       projectRights := projectRights p; p_tokenScopes := p_tokenScopes p; bindingAgentId := bindingAgentId p; breakGlass := breakGlass p |}
  else p.

Definition plain_person (id : string) (r : Role) : Principal :=
  {| userId := id; kind := Some "person"; role := role_text r; agentRights := None; projectRights := None; p_tokenScopes := None; bindingAgentId := None; breakGlass := [] |}.

(* @src identity/admin-store.ts 47 50 person *)
Definition person (id : string) (d : AdminDb) : option (Principal * bool * Z) :=
  (fun r => (resolve (plain_person id (ro_role r)) d, ro_disabled r, ro_version r)) <$> role_row id d.

(* @src identity/admin-store.ts 51 51 resolvePerson *)
Definition resolvePerson (id : string) (d : AdminDb) : option Principal :=
  match role_row id d with
  | Some r => if ro_disabled r then None else Some (resolve (plain_person id (ro_role r)) d)
  | None => None
  end.

Definition live_owner (r : RoleRow) : bool := bool_decide (ro_role r = Owner) && negb (ro_disabled r).
Definition live_owners (d : AdminDb) : nat := length (bfilter live_owner (roles d)).

Definition upd_role (id : string) (f : RoleRow -> RoleRow) (d : AdminDb) : AdminDb := set_roles (map (fun r => if String.eqb (ro_user r) id then f r else r) (roles d)) d.
Definition with_disabled (b : bool) (by_ : string) (now : Z) (r : RoleRow) : RoleRow :=
  {| ro_user := ro_user r; ro_role := ro_role r; ro_disabled := b; disabledAt := if b then Some now else None; disabledBy := if b then Some by_ else None; ro_version := ro_version r + 1 |}.
Definition with_role (x : Role) (r : RoleRow) : RoleRow :=
  {| ro_user := ro_user r; ro_role := x; ro_disabled := ro_disabled r; disabledAt := disabledAt r; disabledBy := disabledBy r; ro_version := ro_version r + 1 |}.
Definition bumped (r : RoleRow) : RoleRow :=
  {| ro_user := ro_user r; ro_role := ro_role r; ro_disabled := ro_disabled r; disabledAt := disabledAt r; disabledBy := disabledBy r; ro_version := ro_version r + 1 |}.

(** [audited]: whether the callback returns. *)
(* @src identity/admin-store.ts 52 65 setDisabled *)
Definition setDisabled (id : string) (disabled : bool) (by_ : string) (now : Z) (audited : bool) : M unit :=
  atomically (
    row ← gets (role_row id);
    match row with
    | None => throw NoPerson
    | Some r =>
        n ← gets live_owners;
        require (negb (disabled && negb (ro_disabled r) && bool_decide (ro_role r = Owner) && Nat.leb n 1)) LastOwner ;;
        if Bool.eqb (ro_disabled r) disabled then mret tt
        else require audited AuditThrew ;; modify (upd_role id (with_disabled disabled by_ now))
    end).

(* @src identity/admin-store.ts 70 80 setRole *)
Definition setRole (id role : string) (audited : bool) : M unit :=
  match role_of role with
  | None => throw BadParams
  | Some x =>
      atomically (
        row ← gets (role_row id);
        n ← gets live_owners;
        require (negb (match row with Some r => live_owner r | None => false end && negb (bool_decide (x = Owner)) && Nat.leb n 1)) LastOwner ;;
        require audited AuditThrew ;;
        match row with
        | Some _ => modify (upd_role id (with_role x))
        | None => modify (fun d => set_roles (roles d ++ [new_role id x]) d)
        end)
  end.

(** ** Rights *)

(* @src identity/admin-store.ts 81 81 rights *)
Definition rights (agent : string) (d : AdminDb) : list (string * string) :=
  sort_by (fun a b => negb (str_ltb b.1 a.1)) (map (fun r => (ri_user r, ri_right r)) (bfilter (fun r => String.eqb (ri_agent r) agent) (rights_tbl d))).

Definition is_right (agent id : string) (r : RightRow) : bool := String.eqb (ri_agent r) agent && String.eqb (ri_user r) id.

(** Two statements and no transaction around them; the first cannot fail after its check. *)
(* @src identity/admin-store.ts 82 86 setRight *)
Definition setRight (agent id : string) (right : option string) : M unit :=
  match right with
  | None => modify (fun d => set_rights (bfilter (fun r => negb (is_right agent id r)) (rights_tbl d)) d)
  | Some x =>
      require (includes ["use"; "manage"] x) BadParams ;;
      let row := {| ri_agent := agent; ri_user := id; ri_right := x |} in
      modify (fun d => set_rights (if existsb (is_right agent id) (rights_tbl d) then map (fun r => if is_right agent id r then row else r) (rights_tbl d)
                                   else rights_tbl d ++ [row]) d)
  end ;;
  modify (upd_role id bumped).

(** ** Invitations *)

(* @src identity/admin-store.ts 95 98 invite *)
Definition invite (id user : string) (role : Role) (chan : string) (expiresAt createdAt : Z) (by_ : string) (hash : option string) : M unit :=
  let row := {| iv_id := id; iv_user := user; iv_role := role; iv_channel := chan; iv_expiresAt := expiresAt; iv_revoked := false; iv_createdAt := createdAt;
                iv_createdBy := by_; iv_hash := hash; redeemedAt := None |} in
  fits ← gets (fun d => negb (existsb (fun i => String.eqb (iv_id i) id || match hash with Some h => bool_decide (iv_hash i = Some h) | None => false end) (invites_tbl d)));
  require fits Constraint ;;
  modify (fun d => set_invites (invites_tbl d ++ [row]) d).

Definition upd_invite (id : string) (f : InviteRow -> InviteRow) (d : AdminDb) : AdminDb :=
  set_invites (map (fun i => if String.eqb (iv_id i) id then f i else i) (invites_tbl d)) d.
Definition withdrawn (i : InviteRow) : InviteRow :=
  {| iv_id := iv_id i; iv_user := iv_user i; iv_role := iv_role i; iv_channel := iv_channel i; iv_expiresAt := iv_expiresAt i; iv_revoked := true; iv_createdAt := iv_createdAt i;
     iv_createdBy := iv_createdBy i; iv_hash := iv_hash i; redeemedAt := redeemedAt i |}.
Definition consumed (now : Z) (i : InviteRow) : InviteRow :=
  {| iv_id := iv_id i; iv_user := iv_user i; iv_role := iv_role i; iv_channel := iv_channel i; iv_expiresAt := iv_expiresAt i; iv_revoked := iv_revoked i; iv_createdAt := iv_createdAt i;
     iv_createdBy := iv_createdBy i; iv_hash := iv_hash i; redeemedAt := Some now |}.

(* @src identity/admin-store.ts 103 103 revoke *)
Definition revoke (id : string) : M unit := modify (upd_invite id withdrawn).

(* @src identity/admin-store.ts 102 102 invites *)
Definition invites (d : AdminDb) : list InviteRow :=
  sort_by (fun a b => (iv_expiresAt a <? iv_expiresAt b) || ((iv_expiresAt a =? iv_expiresAt b) && negb (str_ltb (iv_id b) (iv_id a)))) (invites_tbl d).

Definition by_hash (h : string) (d : AdminDb) : option InviteRow := bfind (fun i => bool_decide (iv_hash i = Some h)) (invites_tbl d).
Definition usable (now : Z) (i : InviteRow) : bool := bool_decide (redeemedAt i = None) && negb (iv_revoked i) && (now <? iv_expiresAt i).

(* @src identity/admin-store.ts 66 69 validateInvite *)
Definition validateInvite (hash : option string) (now : Z) (d : AdminDb) : option InviteRow :=
  match hash with
  | Some h => if is_empty h then None else bfind (fun i => bool_decide (iv_hash i = Some h) && usable now i) (invites_tbl d)
  | None => None
  end.

Definition redeem_key (source : string) : string := "invite-redeem:src:" +:+ source.
Definition count_try (key : string) (spec : LimitSpec) (now : Z) : M unit := modify (fun d => set_tries (failure key spec now (tries d)) d).

(** Why a token was not taken. *)
Definition refusal (hash : option string) (row : option InviteRow) : Refusal :=
  match hash, row with
  | None, _ => Malformed
  | _, None => Unknown
  | _, Some i => if iv_revoked i then Revoked else match redeemedAt i with Some _ => Redeemed | None => InviteExpired end
  end.

(** The guarded update takes the row with its id if it is unredeemed, unrevoked and not expired. *)
(* @src identity/admin-store.ts 110 129 redeem *)
Definition redeem (hash : option string) (now : Z) (source : string) (audited : bool) : M RedeemOutcome :=
  atomically (
    wait ← gets (fun d => lockedFor [redeem_key source; REDEEM_GLOBAL_KEY] now (tries d));
    if 0 <? wait then mret (NotTaken RateLimited None)
    else
      row ← gets (fun d => match hash with Some h => by_hash h d | None => None end);
      match row with
      | Some i =>
          if usable now i then
            modify (upd_invite (iv_id i) (consumed now)) ;;
            require audited AuditThrew ;;
            modify (fun d => set_tries (success (redeem_key source) (tries d)) d) ;;
            mret (Taken (consumed now i))
          else
            count_try (redeem_key source) REDEEM_SOURCE_LIMIT now ;; count_try REDEEM_GLOBAL_KEY REDEEM_GLOBAL_LIMIT now ;;
            mret (NotTaken (refusal hash row) (Some (iv_id i)))
      | None =>
          count_try (redeem_key source) REDEEM_SOURCE_LIMIT now ;; count_try REDEEM_GLOBAL_KEY REDEEM_GLOBAL_LIMIT now ;;
          mret (NotTaken (refusal hash row) None)
      end).

(** ** Notices *)

(* @src identity/admin-store.ts 99 99 notice *)
Definition notice (id user : string) (payload : js) : M unit :=
  free ← gets (fun d => negb (existsb (fun n => String.eqb n.1.1 id) (notices_tbl d)));
  require free Constraint ;;
  modify (fun d => set_notices (notices_tbl d ++ [(id, user, payload)]) d).
(* @src identity/admin-store.ts 100 100 notices *)
Definition notices (user : string) (d : AdminDb) : list js :=
  take 200 (map snd (reverse (bfilter (fun n => String.eqb n.1.2 user) (notices_tbl d)))).
(* @src identity/admin-store.ts 101 101 allNotices *)
Definition allNotices (d : AdminDb) : list js := map snd (notices_tbl d).

(** ** Sequences of operations *)

Inductive Op : Type :=
| OSeed (ownerId : string)
| OSetDisabled (id : string) (disabled : bool) (by_ : string) (now : Z) (audited : bool)
| OSetRole (id role : string) (audited : bool)
| OSetRight (agent id : string) (right : option string)
| OInvite (id user : string) (role : Role) (chan : string) (expiresAt createdAt : Z) (by_ : string) (hash : option string)
| ORevoke (id : string)
| ORedeem (hash : option string) (now : Z) (source : string) (audited : bool)
| ONotice (id user : string) (payload : js).

(** What is told outside: an invitation handed out, one withdrawn, one taken. *)
Inductive Told : Type := Invited (i : InviteRow) | Withdrew (id : string) | Took (id : string) (hash : option string) (now : Z).

Definition run_op (o : Op) (d : AdminDb) : list Told * AdminDb :=
  match o with
  | OSeed x => ([], (seed x d).2)
  | OSetDisabled id b by_ t a => ([], (setDisabled id b by_ t a d).2)
  | OSetRole id r a => ([], (setRole id r a d).2)
  | OSetRight g id r => ([], (setRight g id r d).2)
  | OInvite id u r c e t by_ h =>
      let x := invite id u r c e t by_ h d in
      (match x.1 with Ok _ => [Invited {| iv_id := id; iv_user := u; iv_role := r; iv_channel := c; iv_expiresAt := e; iv_revoked := false; iv_createdAt := t; iv_createdBy := by_;
                                          iv_hash := h; redeemedAt := None |}] | Err _ => [] end, x.2)
  | ORevoke id => ([Withdrew id], (revoke id d).2)
  | ORedeem h t s a => let x := redeem h t s a d in (match x.1 with Ok (Taken i) => [Took (iv_id i) h t] | _ => [] end, x.2)
  | ONotice id u p => ([], (notice id u p d).2)
  end.

Fixpoint run_ops (l : list Op) (d : AdminDb) : list Told * AdminDb :=
  match l with [] => ([], d) | o :: r => let x := run_op o d in let y := run_ops r x.2 in (x.1 ++ y.1, y.2) end.

Definition no_people : AdminDb := {| roles := []; rights_tbl := []; notices_tbl := []; invites_tbl := []; tries := ∅ |}.
