(* ===== verification/IdentityAdminSpec.v ===== *)
(** * What the store of roles promises

    There is always an owner who can act, and an invitation is taken at most once, while
    it is valid, with the token it was made with. *)

From S2P Require Import Prelude Rbac IdentityCodes IdentityInv IdentityAdmin.

(** ** Owners *)

Definition OwnerInv (d : AdminDb) : Prop := NoDup (map ro_user (roles d)) /\ exists r, r ∈ roles d /\ live_owner r = true.

(** Among two rows one has another key. *)
Lemma another {A} (key : A -> string) (p : A -> bool) l id : NoDup (map key l) -> (2 <= length (bfilter p l))%nat -> exists x, x ∈ l /\ p x = true /\ key x <> id.
Proof.
  intros Hn Hl. destruct (bfilter p l) as [|x [|y r]] eqn:E; cbn in Hl; try lia.
  assert (Hx : x ∈ bfilter p l) by (rewrite E; by left). assert (Hy : y ∈ bfilter p l) by (rewrite E; right; by left).
  apply bfilter_elem in Hx as [Hx Px]. apply bfilter_elem in Hy as [Hy Py].
  destruct (decide (key x = id)) as [Ex|]; [|eauto]. destruct (decide (key y = id)) as [Ey|]; [|eauto].
  assert (x = y) as -> by (apply (NoDup_map_inj key l); try done; congruence).
  exfalso. assert (N : NoDup (bfilter p l)). { clear - Hn. apply NoDup_fmap_1 in Hn. unfold bfilter. apply NoDup_ListNoDup, List.NoDup_filter. by apply NoDup_ListNoDup. }
  rewrite E in N. apply list.NoDup_cons in N as [N _]. apply N. by left.
Qed.

Lemma role_row_elem id d r : role_row id d = Some r -> r ∈ roles d /\ ro_user r = id.
Proof. intros [H1 H2]%bfind_some. by apply String.eqb_eq in H2. Qed.

(** One row changes; if it was an owner who can act and is not any more, there are two. *)
Lemma owner_updated d id r f : OwnerInv d -> role_row id d = Some r -> (forall x, ro_user (f x) = ro_user x) ->
  (live_owner r = true -> live_owner (f r) = false -> (2 <= live_owners d)%nat) -> OwnerInv (upd_role id f d).
Proof.
  intros [Hn (o & Ho & Hl)] Hr Hf Hc. apply role_row_elem in Hr as [Hin Hid]. split; cbn [upd_role roles set_roles]; [by rewrite upd_keys|].
  assert (K : forall x, x ∈ roles d -> live_owner x = true -> ro_user x <> id -> exists y, y ∈ map (fun r => if String.eqb (ro_user r) id then f r else r) (roles d) /\ live_owner y = true).
  { intros x Hx Lx Nx. exists x. split; [|done]. apply elem_of_map. exists x. split; [|done]. by rewrite (proj2 (String.eqb_neq _ _)). }
  destruct (decide (ro_user o = id)) as [Eo|No]; [|by apply (K o)].
  assert (o = r) as -> by (apply (NoDup_map_inj ro_user (roles d)); try done; congruence).
  destruct (live_owner (f r)) eqn:El.
  - exists (f r). split; [|done]. apply elem_of_map. exists r. split; [|done]. by rewrite Hid, String.eqb_refl.
  - destruct (another ro_user live_owner (roles d) id Hn (Hc Hl eq_refl)) as (x & Hx & Lx & Nx). by apply (K x).
Qed.

Lemma bumped_owner d id : OwnerInv d -> OwnerInv (upd_role id bumped d).
Proof.
  intros H. destruct (role_row id d) as [r|] eqn:E; [eapply owner_updated; [done|exact E|done|]|].
  - intros H1 H2. unfold live_owner, bumped in *. cbn in *. congruence.
  - assert (upd_role id bumped d = d) as ->; [|done]. unfold upd_role. destruct d as [l ? ? ? ?]. unfold set_roles. cbn in *. f_equal.
    clear H. unfold role_row in E. cbn in E. induction l as [|r l IH]; [done|]. unfold bfind in *. cbn in *. destruct (ro_user r =? id)%string; [done|]. by rewrite IH.
Qed.

Lemma atomically_keeps {A} (P : AdminDb -> Prop) (m : M A) d : P d -> (forall a d', m d = (Ok a, d') -> P d') -> P (atomically m d).2.
Proof. intros Hd H. unfold atomically. destruct (m d) as [[a|e] d'] eqn:E; [by eapply H|done]. Qed.

Lemma setDisabled_owner id b by_ t a d : OwnerInv d -> OwnerInv (setDisabled id b by_ t a d).2.
Proof.
  intros H. unfold setDisabled. apply (atomically_keeps OwnerInv); [done|]. intros u d' E. run_se. destruct (role_row id _) as [r|] eqn:Er; [|discriminate]. run_se.
  destruct (Bool.eqb (ro_disabled r) b) eqn:Eb; run_se; [done|]. eapply owner_updated; [done|exact Er|done|].
  unfold live_owner, with_disabled. cbn. intros [Ho Hd]%andb_true_iff Hl. apply bool_decide_eq_true in Ho.
  match goal with H : negb _ = true |- _ => rewrite Ho, Hd, bool_decide_eq_true_2 in H by done end. rewrite Ho, bool_decide_eq_true_2 in Hl by done.
  destruct b; [|done]. cbn in *. bool_hyps. match goal with H : Nat.leb _ _ = false |- _ => apply Nat.leb_gt in H end. lia.
Qed.

Lemma setRole_owner id role a d : OwnerInv d -> OwnerInv (setRole id role a d).2.
Proof.
  intros H. unfold setRole. destruct (role_of role) as [x|]; [|done]. apply (atomically_keeps OwnerInv); [done|]. intros u d' E. run_se.
  destruct (role_row id _) as [r|] eqn:Er; run_se.
  - eapply owner_updated; [done|exact Er|done|]. intros Hl Hn. match goal with H : negb _ = true |- _ => rewrite Hl in H end.
    assert (x <> Owner) as Hx. { intros ->. unfold live_owner, with_role in *. cbn in *. by destruct (ro_disabled r); [rewrite andb_false_r in Hl|]. }
    match goal with H : negb _ = true |- _ => rewrite bool_decide_eq_false_2 in H by done; cbn in H end. bool_hyps. match goal with H : Nat.leb _ _ = false |- _ => apply Nat.leb_gt in H end. lia.
  - destruct H as [Hn (o & Ho & Hl)]. split; cbn [roles set_roles].
    + rewrite map_app. apply nodup_snoc; [done|]. by apply find_none.
    + exists o. split; [|done]. apply elem_of_app. by left.
Qed.

Lemma setRight_owner g id r d : OwnerInv d -> OwnerInv (setRight g id r d).2.
Proof.
  intros H. unfold setRight. destruct r as [x|]; unfold require, mbind, SE_bind, modify.
  - destruct (includes ["use"; "manage"] x); cbn; [|done]. apply (bumped_owner (set_rights _ d)). destruct d. exact H.
  - cbn. apply (bumped_owner (set_rights _ d)). destruct d. exact H.
Qed.

Lemma same_roles d d' : roles d' = roles d -> OwnerInv d -> OwnerInv d'.
Proof. intros E. unfold OwnerInv. by rewrite E. Qed.

(** Calls that do not touch the roles. *)
Lemma redeem_roles h t s a d : roles (redeem h t s a d).2 = roles d.
Proof.
  unfold redeem. apply (atomically_keeps (fun d' => roles d' = roles d)); [done|]. intros o d' E. unfold count_try in E.
  repeat (run_se; try match goal with H : (if ?b then _ else _) _ = (Ok _, _) |- _ => destruct b | H : match ?x with _ => _ end _ = (Ok _, _) |- _ => destruct x end); done.
Qed.
Lemma invite_roles id u r c e t b h d : roles (invite id u r c e t b h d).2 = roles d.
Proof. unfold invite, require, mbind, SE_bind, gets, modify. cbn. by destruct (negb _). Qed.
Lemma notice_roles id u p d : roles (notice id u p d).2 = roles d.
Proof. unfold notice, require, mbind, SE_bind, gets, modify. cbn. by destruct (negb _). Qed.

Lemma op_owner o d : OwnerInv d -> OwnerInv (run_op o d).2.
Proof.
  intros H. destruct o; cbn [run_op snd].
  - unfold seed, modify. cbn. destruct (roles d) eqn:E; [|done]. destruct H as [_ (r & Hr & _)]. rewrite E in Hr. by apply elem_of_nil in Hr.
  - by apply setDisabled_owner.
  - by apply setRole_owner.
  - by apply setRight_owner.
  - by apply (same_roles d); [apply invite_roles|].
  - by apply (same_roles d).
  - by apply (same_roles d); [apply redeem_roles|].
  - by apply (same_roles d); [apply notice_roles|].
Qed.

Lemma ops_owner l d : OwnerInv d -> OwnerInv (run_ops l d).2.
Proof. revert d. induction l as [|o l IH]; intros d H; [done|]. cbn. apply IH. by apply op_owner. Qed.

(** (C20) Someone can always act as owner. After an installation has been opened for its first owner, whatever roles are
    set, whoever is disabled, and whichever audit lines fail, there is a person who is not disabled and whom the store
    resolves to a principal with the role of an owner. *)
Theorem owner_remains ownerId l : let d := (run_ops (OSeed ownerId :: l) no_people).2 in
  exists id p, resolvePerson id d = Some p /\ userId p = id /\ kind p = Some "person" /\ role p = "owner".
Proof.
  cbn zeta. destruct (ops_owner l (run_op (OSeed ownerId) no_people).2) as [Hn (r & Hr & Hl)].
  { split; cbn; [apply NoDup_singleton|]. exists (new_role ownerId Owner). split; [by left|done]. }
  cbn [run_ops snd]. set (d := (run_ops l _).2) in *. apply andb_true_iff in Hl as [Ho Hd]. apply bool_decide_eq_true in Ho. apply negb_true_iff in Hd.
  assert (E : role_row (ro_user r) d = Some r).
  { destruct (bfind_is_some (fun x => String.eqb (ro_user x) (ro_user r)) (roles d) r Hr) as (y & Hy); [apply String.eqb_refl|].
    unfold role_row. rewrite Hy. f_equal. apply bfind_some in Hy as [Hy Ey]. apply String.eqb_eq in Ey. by apply (NoDup_map_inj ro_user (roles d)). }
  exists (ro_user r), (resolve (plain_person (ro_user r) Owner) d). unfold resolvePerson. rewrite E, Hd, Ho. split; [done|].
  unfold resolve. cbn [kind plain_person]. rewrite bool_decide_eq_true_2 by done. cbn [userId kind role plain_person]. by rewrite E, Ho.
Qed.

(** ** Invitations *)

Definition took (h : list Told) : list string := omap (fun e => match e with Took id _ _ => Some id | _ => None end) h.

(** The invitation [i] was handed out at [j], and has not been withdrawn before [k]. *)
Definition open_invitation (h : list Told) (j k : nat) (i : InviteRow) : Prop :=
  h !! j = Some (Invited i) /\ forall m, (j < m < k)%nat -> h !! m <> Some (Withdrew (iv_id i)).

Record InviteInv (d : AdminDb) (h : list Told) : Prop := {
  invites_unique : NoDup (map iv_id (invites_tbl d));
  invites_told : forall i, i ∈ invites_tbl d -> exists j i0, h !! j = Some (Invited i0) /\ iv_id i0 = iv_id i /\ iv_hash i0 = iv_hash i /\ iv_expiresAt i0 = iv_expiresAt i /\
    (iv_revoked i = false -> open_invitation h j (length h) i0);
  untaken : forall i, i ∈ invites_tbl d -> redeemedAt i = None -> iv_id i ∉ took h;
  took_known : forall id, id ∈ took h -> id ∈ map iv_id (invites_tbl d);
  took_once : NoDup (took h);
  took_open : forall k id hash now, h !! k = Some (Took id hash now) -> exists j i, (j < k)%nat /\ open_invitation h j k i /\ iv_id i = id /\ iv_hash i = hash /\ hash <> None /\
    now < iv_expiresAt i
}.

Lemma took_app h e : took (h ++ e) = took h ++ took e.
Proof. apply omap_app. Qed.
Lemma open_app h e j k i : (k <= length h)%nat -> open_invitation h j k i -> open_invitation (h ++ e) j k i.
Proof. intros Hk [H1 H2]. split; [by apply lookup_app_l_Some|]. intros m Hm. rewrite lookup_app_l by lia. by apply H2. Qed.
Lemma open_longer h e j i : e <> Withdrew (iv_id i) -> open_invitation h j (length h) i -> open_invitation (h ++ [e]) j (length (h ++ [e])) i.
Proof.
  intros He [H1 H2]. split; [by apply lookup_app_l_Some|]. intros m Hm. rewrite length_app in Hm. cbn in Hm.
  destruct (decide (m < length h)%nat); [rewrite lookup_app_l by lia; apply H2; lia|].
  assert (m = length h) as -> by lia. rewrite list_lookup_middle by done. congruence.
Qed.

Lemma told_longer h e k id hash now : (forall id hash now, e = Took id hash now -> exists j i, open_invitation h j (length h) i /\ iv_id i = id /\ iv_hash i = hash /\ hash <> None /\ now < iv_expiresAt i) ->
  (forall k id hash now, h !! k = Some (Took id hash now) -> exists j i, (j < k)%nat /\ open_invitation h j k i /\ iv_id i = id /\ iv_hash i = hash /\ hash <> None /\ now < iv_expiresAt i) ->
  (h ++ [e]) !! k = Some (Took id hash now) -> exists j i, (j < k)%nat /\ open_invitation (h ++ [e]) j k i /\ iv_id i = id /\ iv_hash i = hash /\ hash <> None /\ now < iv_expiresAt i.
Proof.
  intros He Hh [Hk|[Hk E]]%lookup_app_Some.
  - destruct (Hh k id hash now Hk) as (j & i & H1 & H2 & ?). exists j, i. split; [done|]. split; [|done]. apply open_app; [|done]. apply lookup_lt_Some in Hk. lia.
  - apply list_lookup_singleton_Some in E as [E ->]. assert (k = length h) as -> by lia. destruct (He _ _ _ eq_refl) as (j & i & H2 & ?).
    exists j, i. split; [|split; [|done]; by apply open_app]. destruct H2 as [H2 _]. by apply lookup_lt_Some in H2.
Qed.

(** Invitations that stay, after an event about another invitation or none. *)
Lemma invite_added d h i : InviteInv d h -> iv_id i ∉ map iv_id (invites_tbl d) -> iv_revoked i = false -> InviteInv (set_invites (invites_tbl d ++ [i]) d) (h ++ [Invited i]).
Proof.
  intros [H1 H2 H3 H4 H5 H6] Hn Hr. split; cbn [invites_tbl set_invites].
  - rewrite map_app. by apply nodup_snoc.
  - intros x [Hx| ->%list_elem_of_singleton]%elem_of_app.
    + destruct (H2 x Hx) as (j & i0 & E1 & E2 & E3 & E4 & E5). exists j, i0. split_and!; try done; [by apply lookup_app_l_Some|]. intros Hx'. by apply open_longer; [|apply E5].
    + exists (length h), i. split_and!; try done; [by rewrite list_lookup_middle|]. intros _. split; [by rewrite list_lookup_middle|]. rewrite length_app. cbn. lia.
  - rewrite took_app, app_nil_r. intros x [Hx| ->%list_elem_of_singleton]%elem_of_app Hx'; [by apply H3|]. intros Ht. by apply Hn, H4.
  - rewrite took_app, app_nil_r. intros id Hid. rewrite map_app. apply elem_of_app. left. by apply H4.
  - by rewrite took_app, app_nil_r.
  - intros k id hash now. by apply told_longer.
Qed.

Lemma invite_withdrawn d h id : InviteInv d h -> InviteInv (upd_invite id withdrawn d) (h ++ [Withdrew id]).
Proof.
  intros [H1 H2 H3 H4 H5 H6]. split; cbn [invites_tbl set_invites upd_invite].
  - by rewrite upd_keys.
  - intros x [[Hx Hne]|(y & Hy & Ey & ->)]%upd_rows.
    + destruct (H2 x Hx) as (j & i0 & E1 & E2 & E3 & E4 & E5). exists j, i0. split_and!; try done; [by apply lookup_app_l_Some|]. intros Hx'. apply open_longer; [congruence|by apply E5].
    + destruct (H2 y Hy) as (j & i0 & E1 & E2 & E3 & E4 & E5). exists j, i0. split_and!; try done. by apply lookup_app_l_Some.
  - rewrite took_app, app_nil_r. intros x [[Hx Hne]|(y & Hy & Ey & ->)]%upd_rows; [by apply H3|]. apply (H3 y Hy).
  - rewrite took_app, app_nil_r. intros x Hx. rewrite upd_keys by done. by apply H4.
  - by rewrite took_app, app_nil_r.
  - intros k i hash now. by apply told_longer.
Qed.

Lemma invite_taken d h i hash now : InviteInv d h -> i ∈ invites_tbl d -> iv_hash i = Some hash -> usable now i = true ->
  InviteInv (upd_invite (iv_id i) (consumed now) d) (h ++ [Took (iv_id i) (Some hash) now]).
Proof.
  intros [H1 H2 H3 H4 H5 H6] Hi Hh Hu. unfold usable in Hu. bool_hyps. pose proof (H3 i Hi ltac:(done)) as Hfree.
  split; cbn [invites_tbl set_invites upd_invite].
  - by rewrite upd_keys.
  - assert (K : forall x, x ∈ invites_tbl d -> exists j i0, (h ++ [Took (iv_id i) (Some hash) now]) !! j = Some (Invited i0) /\ iv_id i0 = iv_id x /\ iv_hash i0 = iv_hash x /\
      iv_expiresAt i0 = iv_expiresAt x /\ (iv_revoked x = false -> open_invitation (h ++ [Took (iv_id i) (Some hash) now]) j (length (h ++ [Took (iv_id i) (Some hash) now])) i0)).
    { intros x Hx. destruct (H2 x Hx) as (j & i0 & E1 & E2 & E3 & E4 & E5). exists j, i0. split_and!; try done; [by apply lookup_app_l_Some|]. intros Hx'. by apply open_longer; [|apply E5]. }
    intros x [[Hx Hne]|(y & Hy & Ey & ->)]%upd_rows; [by apply K|]. apply (K y Hy).
  - rewrite took_app. cbn. intros x [[Hx Hne]|(y & Hy & Ey & ->)]%upd_rows Hr; [|discriminate].
    intros [Ht|Ht%list_elem_of_singleton]%elem_of_app; [by apply (H3 x Hx Hr)|congruence].
  - rewrite took_app. cbn. intros id Hid. rewrite upd_keys by done. apply elem_of_app in Hid as [Hid| ->%list_elem_of_singleton]; [by apply H4|]. apply elem_of_map. eauto.
  - rewrite took_app. cbn. by apply nodup_snoc.
  - intros k id hash' now'. apply told_longer; [|done]. intros ? ? ? [= <- <- <-]. destruct (H2 i Hi) as (j & i0 & E1 & E2 & E3 & E4 & E5).
    exists j, i0. split_and!; [by apply E5|done|congruence|done|congruence].
Qed.

Lemma same_invites d d' h : invites_tbl d' = invites_tbl d -> InviteInv d h -> InviteInv d' h.
Proof. intros E [H1 H2 H3 H4 H5 H6]. by split; rewrite ?E. Qed.

(** *** What the calls do to the invitations *)

Lemma redeem_spec hash now s a d :
  match redeem hash now s a d with
  | (Ok (Taken x), d') => exists i t, hash = Some t /\ i ∈ invites_tbl d /\ iv_hash i = Some t /\ usable now i = true /\ x = consumed now i /\
      invites_tbl d' = invites_tbl (upd_invite (iv_id i) (consumed now) d)
  | (_, d') => invites_tbl d' = invites_tbl d
  end.
Proof.
  unfold redeem, atomically. match goal with |- context [match ?m d with _ => _ end] => destruct (m d) as [[o|e] d'] eqn:E end; [|done]. unfold count_try in E.
  apply SE_bind_ok in E as (wait & d1 & [= <- <-] & E). destruct (0 <? _); [by injection E as <- <-|].
  apply SE_bind_ok in E as (row & d2 & [= <- <-] & E). destruct hash as [t|]; [destruct (by_hash t d) as [i|] eqn:Eb; [destruct (usable now i) eqn:Eu|]|]; run_se; try done.
  apply bfind_some in Eb as [Hi Ht]. apply bool_decide_eq_true in Ht. exists i, t. by split_and!.
Qed.

Lemma invite_spec id u r c e t b h d :
  match invite id u r c e t b h d with
  | (Ok _, d') => id ∉ map iv_id (invites_tbl d) /\ d' = set_invites (invites_tbl d ++ [{| iv_id := id; iv_user := u; iv_role := r; iv_channel := c; iv_expiresAt := e; iv_revoked := false;
      iv_createdAt := t; iv_createdBy := b; iv_hash := h; redeemedAt := None |}]) d
  | (Err _, d') => d' = d
  end.
Proof.
  unfold invite, require, mbind, SE_bind, gets, modify. cbn. destruct (existsb _ _) eqn:E; cbn; [done|]. split; [|done].
  intros (i & Ei & Hi)%elem_of_map. pose proof (existsb_false_elem _ _ _ E Hi) as F. cbn in F. apply orb_false_iff in F as [F _]. apply String.eqb_neq in F. congruence.
Qed.

Lemma op_invites o d h : InviteInv d h -> InviteInv (run_op o d).2 (h ++ (run_op o d).1).
Proof.
  intros H. destruct o; cbn [run_op fst snd]; rewrite ?app_nil_r.
  - apply (same_invites d); [|done]. unfold seed, modify. cbn. by destruct (roles d).
  - apply (same_invites d); [|done]. unfold setDisabled. apply (atomically_keeps (fun d' => invites_tbl d' = invites_tbl d)); [done|]. intros u d' E.
    repeat (run_se; try match goal with H : (if ?b then _ else _) _ = (Ok _, _) |- _ => destruct b | H : match ?x with _ => _ end _ = (Ok _, _) |- _ => destruct x end); done.
  - apply (same_invites d); [|done]. unfold setRole. destruct (role_of role); [|done]. apply (atomically_keeps (fun d' => invites_tbl d' = invites_tbl d)); [done|]. intros u d' E.
    repeat (run_se; try match goal with H : match ?x with _ => _ end _ = (Ok _, _) |- _ => destruct x end); done.
  - apply (same_invites d); [|done]. unfold setRight, require, mbind, SE_bind, modify. destruct right; [|done]. by destruct (includes _ _).
  - pose proof (invite_spec id user role chan expiresAt createdAt by_ hash d) as E. destruct (invite _ _ _ _ _ _ _ _ d) as [[u|e] d']; cbn [fst snd].
    + destruct E as [Hn ->]. by apply invite_added.
    + subst d'. by rewrite app_nil_r.
  - by apply invite_withdrawn.
  - pose proof (redeem_spec hash now source audited d) as E. destruct (redeem _ _ _ _ d) as [[[x|r o]|e] d']; cbn [fst snd]; rewrite ?app_nil_r.
    + destruct E as (i & t & -> & Hi & Hh & Hu & -> & E). eapply same_invites; [exact E|]. by apply (invite_taken d h i t now).
    + by apply (same_invites d).
    + by apply (same_invites d).
  - apply (same_invites d); [|done]. unfold notice, require, mbind, SE_bind, gets, modify. cbn. by destruct (negb _).
Qed.

Lemma ops_invites l : forall d h, InviteInv d h -> InviteInv (run_ops l d).2 (h ++ (run_ops l d).1).
Proof.
  induction l as [|o l IH]; intros d h H; cbn; [by rewrite app_nil_r|]. rewrite app_assoc. apply IH. by apply op_invites.
Qed.

Lemma no_invites : InviteInv no_people [].
Proof. split; cbn; try apply NoDup_nil_2; set_solver. Qed.

(** An invitation is good once. In every history of the store no invitation is taken twice; and whenever one is
    taken, it had been handed out before with exactly the token hash that was presented, it had not expired at the
    moment given, and it had not been withdrawn since it was handed out. An invitation without a token is never taken. *)
Theorem invitation_taken_once l : let h := (run_ops l no_people).1 in
  NoDup (took h) /\
  forall k id hash now, h !! k = Some (Took id hash now) ->
    exists j i, (j < k)%nat /\ open_invitation h j k i /\ iv_id i = id /\ iv_hash i = hash /\ hash <> None /\ now < iv_expiresAt i.
Proof. pose proof (ops_invites l no_people [] no_invites) as H. split; [apply (took_once _ _ H)|apply (took_open _ _ H)]. Qed.
