(* ===== verification/IdentityRun.v ===== *)
(** * A handle is linked, and its memories moved

    A concrete digest, random sources and the policy of [rbac]; then a pairing from the
    invitation to the confirmed link, a back-fill with its request under way, and a
    store of roles with one invitation. *)

From S2P Require Import Prelude Rbac IdentityCodes Identity IdentityCalls IdentityInv IdentityGuess IdentityBackfill IdentityBackfillSpec IdentityAdmin IdentityAdminSpec.

(** ** The surroundings *)

Definition clk (n : nat) : Z := 1700000000000 + 1000 * Z.of_nat n.
Definition random_int (n : nat) (b : Z) : Z := (7 * Z.of_nat n + 3) mod b.
Definition random_bytes (n k : nat) : list Z := map (fun i => (Z.of_nat n + 11 * Z.of_nat i) mod 256) (seq 0 k).
Fixpoint strokes (n : nat) : string := match n with O => "" | S n => "'" +:+ strokes n end.
Definition uuid (n : nat) : string := "op" +:+ strokes n.
(** Eight bytes of a polynomial, and zeros: a text of 64 hexadecimal digits. *)
Definition digest_of (s : string) : string :=
  let z := fold_left (fun a c => (a * 257 + Z.of_nat (Ascii.nat_of_ascii c)) mod 2 ^ 61) (chars s) 1 in
  of_chars (hex_of (map (fun i => if Nat.ltb i 8 then (z / 2 ^ (8 * Z.of_nat i)) mod 256 else 0) (seq 0 32))).
Definition text_of (j : js) : string := match j with JArr [JStr a; JStr b; JStr c] => a +:+ "|" +:+ b +:+ "|" +:+ c | _ => "" end.

Lemma clk_mono n : clk n <= clk (S n).
Proof. unfold clk. lia. Qed.

Notation run l := (IdentityCalls.calls clk random_int random_bytes digest_of text_of rbacAuthorizePort l fresh_service).

(** ** A pairing *)

Definition owner : Actor := {| user := "own"; host := "here"; a_kind := Some "person"; a_role := Some "owner"; a_scopes := None |}.
Definition ada : ChannelIdentity := {| channel := "matrix"; accountId := "home"; ci_userId := "@ada"; displayName := Some "Ada" |}.

Definition human_id : string := default "" (uuidv7 random_bytes (clk 4) 0).
Definition pairing_id : string := default "" (uuidv7 random_bytes (clk 6) 10).
Definition the_code : string := generateCode random_int 1.

Example code_text : the_code = "LT29GPW5".
Proof. vm_compute. reflexivity. Qed.

(** A wrong code first; then the right one, as a person types it. *)
Definition pairing : list Call :=
  [CReopen None; CCreateHuman "Ada" owner; CStart human_id "matrix" None owner; CClaim "AAAA-AAAA" ada; CClaim "lt29 gpw5" ada; CConfirm pairing_id true owner].

Definition ada_link : Link := default {| l_id := ""; humanId := ""; l_handle := ada; v1Principal := ""; proofMethod := OwnerManual; linkedAt := 0; linkedBy := ""; revokedAt := None; revokedBy := None |}
  (head (identities (db (world (run pairing).2)))).

Example pairing_told : map (fun e => match e with EvStart p h c k a => ("start", p, k) | EvClaim p r i => ("claim", p, r) | EvConfirm p l a => ("confirm", p, "")
    | EvGuess t => ("guess", "", "") | _ => ("", "", "") end) (run pairing).1 =
  [("start", pairing_id, the_code); ("guess", "", ""); ("claim", pairing_id, "lt29 gpw5"); ("confirm", pairing_id, "")].
Proof. vm_compute. reflexivity. Qed.

Example ada_resolves : Identity.resolve ada (db (world (run pairing).2)) = Some (human_id, l_id ada_link).
Proof. vm_compute. reflexivity. Qed.

(** ** The theorems apply *)

Lemma links_consented_to_witness : consented digest_of rbacAuthorizePort (run pairing).1 ada_link.
Proof.
  apply (links_consented_to clk random_int random_bytes digest_of text_of rbacAuthorizePort pairing ada_link).
  assert (E : identities (db (world (run pairing).2)) = [ada_link]) by (vm_compute; reflexivity). rewrite E. left.
Defined.

Lemma guesses_bounded_witness : guesses (clk 0) (clk 0 + 600000) (run pairing).1 = 1 /\ guesses (clk 0) (clk 0 + 600000) (run pairing).1 <= 39.
Proof.
  split; [vm_compute; reflexivity|].
  apply (guesses_bounded clk random_int random_bytes digest_of text_of rbacAuthorizePort clk_mono pairing). lia.
Defined.

(** ** A back-fill under way *)

Definition moving : list Action := map DoCall pairing ++ [BeginRun (l_id ada_link) false owner].
Notation process l := (acts clk random_bytes uuid digest_of text_of rbacAuthorizePort random_int l fresh_process).

Definition request : Pending := default (PReverse "" "" "" true "" "" owner (AskUnbind "" true)) (head (under_way (process moving))).

Lemma request_made : exists from to op ask, request = PRun (l_id ada_link) from to false op owner ask /\ under_way (process moving) = [request].
Proof. vm_compute. eauto 10. Qed.

Lemma rebind_only_active_witness : exists k, find_link (l_id ada_link) (db (world (service (process moving)))) = Some k /\ revokedAt k = None.
Proof.
  destruct request_made as (from & to & op & ask & E & U).
  destruct (rebind_only_active clk random_bytes uuid digest_of text_of rbacAuthorizePort random_int moving (l_id ada_link) from to op owner ask) as (k & b & t & H1 & H2 & _).
  - rewrite U, E. left.
  - exists k. split; [exact H1|exact H2].
Defined.

(** The engine answers: the record is applied, and only then may the link be removed. *)
Definition moved : list Action := moving ++ [DoCall (CUnlink (l_id ada_link) owner); Answer 0 (inl {| en_count := Fin 3; en_receipt := Some "r1" |})].
Example moved_record : b_state <$> backfillRecord (l_id ada_link) (db (world (service (process moved)))) = Some BApplied.
Proof. vm_compute. reflexivity. Qed.
Example still_linked : bool_decide (revokedAt <$> find_link (l_id ada_link) (db (world (service (process moved)))) = Some None) = true.
Proof. vm_compute. reflexivity. Qed.
Example then_unlinked : active <$> find_link (l_id ada_link) (db (world (service (process (moved ++ [DoCall (CUnlink (l_id ada_link) owner)]))))) = Some false.
Proof. vm_compute. reflexivity. Qed.

(** ** A store of roles *)

Definition token : string := hashInviteToken digest_of "a-token".
Definition store_ops : list Op :=
  [OSeed "own"; OSetDisabled "own" true "own" 5 true; OInvite "inv1" "ada" Member "matrix" 100 1 "own" (Some token);
   ORedeem (Some token) 50 "c1" false; ORedeem (Some token) 50 "c1" true; ORedeem (Some token) 60 "c2" true; ORevoke "inv1"].

(** The last owner is not disabled; a redemption whose audit line fails takes nothing; the next takes the invitation, and no later one. *)
Example store_told : took (run_ops store_ops no_people).1 = ["inv1"] /\ map ro_disabled (roles (run_ops store_ops no_people).2) = [false].
Proof. vm_compute. split; reflexivity. Qed.

Lemma invitation_taken_once_witness : NoDup (took (run_ops store_ops no_people).1) /\ exists j i, (j < 1)%nat /\ open_invitation (run_ops store_ops no_people).1 j 1 i.
Proof.
  destruct (invitation_taken_once store_ops) as [H1 H2]. split; [exact H1|].
  destruct (H2 1%nat "inv1" (Some token) 50) as (j & i & Hj & Ho & _); [vm_compute; reflexivity|]. exists j, i. split; [exact Hj|exact Ho].
Defined.
