(* ===== verification/Behaviour.v ===== *)
(** * Channel behaviour: profiles that only narrow

    Model of [packages/core/src/channels/behaviour.ts] with [permitsTool] of
    [behaviour-context.ts]: what a channel's profile permits, and the layers (shipped,
    default, kind of chat, channel, connection) a profile is met from. The list of which
    layer set what is kept for people only and not modelled. Texts are ASCII. *)

From S2P Require Import Prelude.
From Stdlib Require Import Ascii.

(** ** Profiles *)

Inductive ReplyPolicy : Type := ReplyAlways | ReplyOnMention | ReplyNever.
Inductive Capture : Type := CaptureFull | CaptureProvenance | CaptureNone.

#[export] Instance reply_eq_dec : EqDecision ReplyPolicy.
Proof. solve_decision. Defined.

(** [REPLY.indexOf] and [CAPTURE.indexOf] *)
(* @src channels/behaviour.ts 14 14 REPLY *)
Definition reply_rank (p : ReplyPolicy) : Z := match p with ReplyAlways => 0 | ReplyOnMention => 1 | ReplyNever => 2 end.
(* @src channels/behaviour.ts 15 15 CAPTURE *)
Definition capture_rank (c : Capture) : Z := match c with CaptureFull => 0 | CaptureProvenance => 1 | CaptureNone => 2 end.

Record Rule : Type := { allow : option (list string); deny : list string }.

(* @src channels/behaviour.ts 4 11 EffectiveBehaviour *)
Record EffectiveBehaviour : Type := {
  reply : ReplyPolicy; capture : Capture; allowedScopes : list string; captureOtherSpeakers : bool; requireLinked : bool;
  commands : Rule; tools : Rule; capabilities : Rule; repliesPerHour : Z; editsPerMinute : Z; maxReplyChars : Z }.

(** A layer: what it leaves out imposes nothing. *)
Record RuleLayer : Type := { l_allow : option (list string); l_deny : option (list string) }.
(* @src packages/config-schema/src/behaviour.ts 2 9 BehaviourLayer *)
Record BehaviourLayer : Type := {
  l_reply : option ReplyPolicy; l_capture : option Capture; l_scopes : option (list string); l_other : option bool; l_linked : option bool;
  l_commands : RuleLayer; l_tools : RuleLayer; l_capabilities : RuleLayer; l_replies : option num; l_edits : option num; l_chars : option num }.

(* @src channels/behaviour.ts 17 23 initial *)
Definition initial : EffectiveBehaviour :=
  {| reply := ReplyAlways; capture := CaptureFull; allowedScopes := ["agent-private"; "workspace"; "user"]; captureOtherSpeakers := true; requireLinked := false;
     commands := {| allow := None; deny := [] |}; tools := {| allow := None; deny := [] |}; capabilities := {| allow := None; deny := [] |};
     repliesPerHour := 3600; editsPerMinute := 60; maxReplyChars := 65536 |}.

(** [[...new Set(l)]] *)
Fixpoint dedupe (l : list string) (seen : list string) : list string :=
  match l with [] => [] | x :: r => if includes seen x then dedupe r seen else x :: dedupe r (x :: seen) end.

(* @src channels/behaviour.ts 41 45 mergeBehaviour *)
Definition meet_rule (p : Rule) (l : RuleLayer) : Rule :=
  {| deny := match l_deny l with Some d => dedupe (deny p ++ d) [] | None => deny p end;
     allow := match l_allow l with
              | Some a => Some (match allow p with None => dedupe a [] | Some prev => bfilter (includes a) prev end)
              | None => allow p
              end |}.

(* @src channels/behaviour.ts 46 49 mergeBehaviour *)
Definition meet_rate (p : Z) (n : option num) : Z :=
  match n with
  | None => p
  | Some (Fin z) => if safe_int z && (0 <=? z) then Z.min p z else 0
  | Some _ => 0
  end.

(* @src channels/behaviour.ts 29 50 mergeBehaviour *)
Definition meet (p : EffectiveBehaviour) (l : BehaviourLayer) : EffectiveBehaviour :=
  {| reply := match l_reply l with Some r => if reply_rank (reply p) <? reply_rank r then r else reply p | None => reply p end;
     capture := match l_capture l with Some c => if capture_rank (capture p) <? capture_rank c then c else capture p | None => capture p end;
     allowedScopes := match l_scopes l with Some s => bfilter (includes s) (allowedScopes p) | None => allowedScopes p end;
     captureOtherSpeakers := match l_other l with Some b => captureOtherSpeakers p && b | None => captureOtherSpeakers p end;
     requireLinked := match l_linked l with Some b => requireLinked p || b | None => requireLinked p end;
     commands := meet_rule (commands p) (l_commands l); tools := meet_rule (tools p) (l_tools l); capabilities := meet_rule (capabilities p) (l_capabilities l);
     repliesPerHour := meet_rate (repliesPerHour p) (l_replies l); editsPerMinute := meet_rate (editsPerMinute p) (l_edits l);
     maxReplyChars := meet_rate (maxReplyChars p) (l_chars l) |}.

(** Absent layers are skipped. *)
(* @src channels/behaviour.ts 26 53 mergeBehaviour *)
Definition mergeBehaviour (layers : list (option BehaviourLayer)) : EffectiveBehaviour :=
  fold_left (fun p l => match l with Some l => meet p l | None => p end) layers initial.

(* @src packages/config-schema/src/behaviour.ts 10 16 BehaviourSet *)
Record BehaviourSet : Type := {
  s_default : option BehaviourLayer; s_direct : option BehaviourLayer; s_group : option BehaviourLayer;
  byChannelKind : list (string * option BehaviourLayer); byBotConnection : list (string * option BehaviourLayer) }.

(* @src channels/behaviour.ts 12 12 BehaviourContext *)
Record BehaviourContext : Type := { x_channel : string; x_connection : option string; x_chatKind : string }.

(* @src channels/behaviour.ts 64 66 own *)
Definition own (m : list (string * option BehaviourLayer)) (key : string) : option BehaviourLayer :=
  match bfind (fun p => String.eqb p.1 key) m with Some p => p.2 | None => None end.

Definition no_rule : RuleLayer := {| l_allow := None; l_deny := None |}.

(* @src channels/behaviour.ts 57 57 resolveBehaviour *)
Definition shipped_group : BehaviourLayer :=
  {| l_reply := Some ReplyOnMention; l_capture := Some CaptureProvenance; l_scopes := Some ["agent-private"; "workspace"]; l_other := Some false; l_linked := Some true;
     l_commands := no_rule; l_tools := no_rule; l_capabilities := no_rule; l_replies := Some (Fin 60); l_edits := Some (Fin 20); l_chars := Some (Fin 8192) |}.

(* @src channels/behaviour.ts 56 56 resolveBehaviour *)
Definition is_direct (c : BehaviourContext) : bool := String.eqb (x_chatKind c) "direct" || String.eqb (x_chatKind c) "dm".

(** The layers in their order; the first, empty one imposes nothing. *)
(* @src channels/behaviour.ts 58 62 resolveBehaviour *)
Definition layers_of (s : BehaviourSet) (c : BehaviourContext) : list (option BehaviourLayer) :=
  (if is_direct c then [] else [Some shipped_group])
  ++ [s_default s; (if is_direct c then s_direct s else s_group s); own (byChannelKind s) (x_channel c);
      own (byBotConnection s) (default (x_channel c) (x_connection c))].

(* @src channels/behaviour.ts 55 63 resolveBehaviour *)
Definition resolveBehaviour (s : BehaviourSet) (c : BehaviourContext) : EffectiveBehaviour := mergeBehaviour (layers_of s c).

(** ** What a profile permits *)

Definition line_end (c : ascii) : bool := Nat.eqb (Ascii.nat_of_ascii c) 10 || Nat.eqb (Ascii.nat_of_ascii c) 13.

(** The whole of [name] is the pattern, a star standing for any text within a line. *)
(* @src channels/behaviour.ts 77 78 permitsName *)
Fixpoint star_match (pat : list ascii) : list ascii -> bool :=
  match pat with
  | [] => fun name => match name with [] => true | _ => false end
  | c :: p =>
      if Ascii.eqb c "*" then
        fix rest (name : list ascii) : bool := star_match p name || match name with x :: r => negb (line_end x) && rest r | [] => false end
      else fun name => match name with x :: r => Ascii.eqb c x && star_match p r | [] => false end
  end.

Definition denies (pattern name : string) : bool := star_match (map lower_ascii (chars pattern)) (map lower_ascii (chars name)).

(* @src channels/behaviour.ts 75 80 permitsName *)
Definition permitsName (r : Rule) (name : string) : bool :=
  match allow r with None => true | Some a => includes a name end && negb (existsb (fun p => denies p name) (deny r)).

(** [/^\/([a-z0-9_-]+)/i], lower-cased *)
Definition command_char (c : ascii) : bool :=
  let n := Ascii.nat_of_ascii (lower_ascii c) in (Nat.leb 97 n && Nat.leb n 122) || (Nat.leb 48 n && Nat.leb n 57) || Ascii.eqb c "_" || Ascii.eqb c "-".
Fixpoint leading (l : list ascii) : list ascii := match l with c :: r => if command_char c then c :: leading r else [] | [] => [] end.
(* @src channels/behaviour.ts 71 71 permitsMessage *)
Definition command_of (text : string) : option string :=
  match chars (trim text) with
  | c :: r => if Ascii.eqb c "/" && negb (bool_decide (leading r = [])) then Some (lower (of_chars (leading r))) else None
  | [] => None
  end.

(* @src channels/behaviour.ts 68 73 permitsMessage *)
Definition permitsMessage (p : EffectiveBehaviour) (addressed : bool) (text : string) (command : option string) : bool :=
  match reply p with
  | ReplyNever => false
  | r =>
      if bool_decide (r = ReplyOnMention) && negb addressed then false
      else match (match command with Some c => Some c | None => command_of text end) with
      | None => true
      | Some c => permitsName (commands p) c
      end
  end.

Inductive Legacy : Type := LMention | LAlways | LAllowlist.
Definition only_reply (r : ReplyPolicy) : BehaviourLayer :=
  {| l_reply := Some r; l_capture := None; l_scopes := None; l_other := None; l_linked := None; l_commands := no_rule; l_tools := no_rule; l_capabilities := no_rule;
     l_replies := None; l_edits := None; l_chars := None |}.

(** [resolved]: the host's profile for the message, when the host has profiles. *)
(* @src channels/behaviour.ts 83 87 channelMessageAllowed *)
Definition channelMessageAllowed (resolved : option EffectiveBehaviour) (c : BehaviourContext) (addressed : bool) (text : string) (command : option string)
    (legacy : Legacy) (allowlisted : bool) : bool :=
  let profile := match resolved with
    | Some p => p
    | None => mergeBehaviour [Some (only_reply (if is_direct c || match legacy with LAlways => true | _ => false end then ReplyAlways else ReplyOnMention))]
    end in
  let addressed := addressed || match resolved, legacy with None, LAllowlist => allowlisted | _, _ => false end in
  permitsMessage profile addressed text command.

(** [None]: no profile is in force. *)
(* @src channels/behaviour-context.ts 9 13 permitsTool *)
Definition permitsTool (p : option EffectiveBehaviour) (name capability : string) : bool :=
  match p with
  | None => true
  | Some p => permitsName (tools p) name && permitsName (capabilities p) capability && permitsName {| allow := None; deny := deny (tools p) |} capability
  end.

(* @src channels/behaviour-context.ts 16 19 permitsEngineMemory *)
Definition permitsEngineMemory (p : option EffectiveBehaviour) : bool :=
  match p with None => true | Some p => forallb (includes (allowedScopes p)) ["agent-private"; "workspace"; "user"] end.

(** ** What a met profile permits *)

Lemma dedupe_elem l : forall seen x, x ∈ dedupe l seen <-> x ∈ l /\ includes seen x = false.
Proof.
  induction l as [|y l IH]; intros seen x; cbn [dedupe]; [set_solver|]. destruct (includes seen y) eqn:E.
  - rewrite IH, elem_of_cons. naive_solver congruence.
  - rewrite !elem_of_cons, IH. cbn [includes existsb]. fold (includes seen x). destruct (String.eqb_spec x y) as [->|N]; cbn [orb]; naive_solver.
Qed.

Lemma existsb_dedupe f l : existsb f (dedupe l []) = existsb f l.
Proof.
  apply eq_true_iff_eq. rewrite !existsb_elem. split; intros (x & Hx & H); exists x; (split; [|done]).
  - by apply dedupe_elem in Hx as [? _].
  - by apply dedupe_elem.
Qed.

Lemma includes_dedupe l x : includes (dedupe l []) x = includes l x.
Proof. apply eq_true_iff_eq. rewrite !includes_spec, dedupe_elem. naive_solver. Qed.

(** A layer that does not stand in the way of [name]. *)
Definition rule_ok (l : RuleLayer) (name : string) : bool :=
  match l_allow l with None => true | Some a => includes a name end && match l_deny l with None => true | Some d => negb (existsb (fun p => denies p name) d) end.

Lemma includes_filter a l x : includes (bfilter (includes a) l) x = includes l x && includes a x.
Proof. apply eq_true_iff_eq. by rewrite andb_true_iff, !includes_spec, bfilter_elem, includes_spec. Qed.

Lemma permits_meet p l name : permitsName (meet_rule p l) name = permitsName p name && rule_ok l name.
Proof.
  unfold permitsName, rule_ok, meet_rule. cbn [allow deny]. destruct (l_deny l) as [d|].
  - rewrite existsb_dedupe, existsb_app. destruct (l_allow l) as [a|], (allow p) as [b|]; rewrite ?includes_filter, ?includes_dedupe; repeat destruct (includes _ _);
      repeat destruct (existsb _ _); done.
  - destruct (l_allow l) as [a|], (allow p) as [b|]; rewrite ?includes_filter, ?includes_dedupe; repeat destruct (includes _ _); by repeat destruct (existsb _ _).
Qed.

(** The layers of a list that are present. *)
Definition present (layers : list (option BehaviourLayer)) : list BehaviourLayer := omap id layers.

Lemma merge_fold layers p : fold_left (fun p l => match l with Some l => meet p l | None => p end) layers p = fold_left meet (present layers) p.
Proof. revert p. induction layers as [|[l|] layers IH]; intros p; cbn; [done|apply IH|apply IH]. Qed.

Section exact.
Context (rule : EffectiveBehaviour -> Rule) (part : BehaviourLayer -> RuleLayer) (Hmeet : forall p l, rule (meet p l) = meet_rule (rule p) (part l)).

Lemma permits_fold ls : forall p name, permitsName (rule (fold_left meet ls p)) name = permitsName (rule p) name && forallb (fun l => rule_ok (part l) name) ls.
Proof.
  induction ls as [|l ls IH]; intros p name; cbn; [by rewrite andb_true_r|]. by rewrite IH, Hmeet, permits_meet, andb_assoc.
Qed.

Lemma denies_fold ls : forall p name, existsb (fun d => denies d name) (deny (rule (fold_left meet ls p))) =
  existsb (fun d => denies d name) (deny (rule p)) || existsb (fun l => existsb (fun d => denies d name) (default [] (l_deny (part l)))) ls.
Proof.
  induction ls as [|l ls IH]; intros p name; cbn; [by rewrite orb_false_r|]. rewrite IH, Hmeet. unfold meet_rule. cbn [deny].
  destruct (l_deny (part l)) as [d|]; cbn [default]; [|done]. rewrite existsb_dedupe, existsb_app. by rewrite orb_assoc.
Qed.
End exact.

(** A tool is permitted exactly when every layer permits it. With the profile met from any layers, in any order, a tool is let through if and only
    if no layer stands in its way: each layer that lists tools lists this one, each that lists capabilities lists the tool's, and no layer has a pattern against
    the tool's name, against its capability, or, among those for tools, against the capability. *)
Theorem profile_exact layers name capability : permitsTool (Some (mergeBehaviour layers)) name capability = true <->
  forall l, Some l ∈ layers -> rule_ok (l_tools l) name = true /\ rule_ok (l_capabilities l) capability = true /\
    forall d pattern, l_deny (l_tools l) = Some d -> pattern ∈ d -> denies pattern capability = false.
Proof.
  unfold permitsTool, mergeBehaviour. rewrite merge_fold, (permits_fold tools l_tools), (permits_fold capabilities l_capabilities) by done.
  unfold permitsName at 3. cbn [allow deny]. rewrite (denies_fold tools l_tools) by done. cbn [initial tools capabilities deny allow existsb permitsName negb orb andb].
  change (permitsName {| allow := None; deny := [] |} name) with true. change (permitsName {| allow := None; deny := [] |} capability) with true. cbn [andb].
  rewrite !andb_true_iff, negb_true_iff, !forallb_elem.
  assert (P : forall l, l ∈ present layers <-> Some l ∈ layers) by (intros l; unfold present; rewrite list_elem_of_omap; naive_solver).
  split.
  - intros [[H1 H2] H3] l Hl%P. split_and!; [by apply H1|by apply H2|]. intros d pat Hd Hp. pose proof (existsb_false_elem _ _ _ H3 Hl) as H. cbn in H.
    rewrite Hd in H. cbn in H. by apply (existsb_false_elem _ _ _ H).
  - intros H. split_and!; [intros l Hl%P; by apply H..|]. apply existsb_none. intros l Hl%P. apply existsb_none. intros pat Hp.
    destruct (H l Hl) as (_ & _ & H'). destruct (l_deny (l_tools l)) as [d|]; [by apply (H' d)|by apply elem_of_nil in Hp].
Qed.

(** *** The other limits *)

(** [p] is no wider than [l] allows. *)
Definition honours (p : EffectiveBehaviour) (l : BehaviourLayer) : Prop :=
  (forall r, l_reply l = Some r -> reply_rank r <= reply_rank (reply p)) /\ (forall c, l_capture l = Some c -> capture_rank c <= capture_rank (capture p)) /\
  (forall s, l_scopes l = Some s -> forall x, x ∈ allowedScopes p -> x ∈ s) /\ (l_other l = Some false -> captureOtherSpeakers p = false) /\
  (l_linked l = Some true -> requireLinked p = true) /\
  (forall z, l_replies l = Some (Fin z) -> 0 <= z -> repliesPerHour p <= z) /\ (forall z, l_edits l = Some (Fin z) -> 0 <= z -> editsPerMinute p <= z) /\
  (forall z, l_chars l = Some (Fin z) -> 0 <= z -> maxReplyChars p <= z).

(** [p] is no wider than [q]. *)
Definition narrower (p q : EffectiveBehaviour) : Prop :=
  reply_rank (reply q) <= reply_rank (reply p) /\ capture_rank (capture q) <= capture_rank (capture p) /\ (forall x, x ∈ allowedScopes p -> x ∈ allowedScopes q) /\
  (captureOtherSpeakers p = true -> captureOtherSpeakers q = true) /\ (requireLinked q = true -> requireLinked p = true) /\
  repliesPerHour p <= repliesPerHour q /\ editsPerMinute p <= editsPerMinute q /\ maxReplyChars p <= maxReplyChars q /\
  0 <= repliesPerHour p /\ 0 <= editsPerMinute p /\ 0 <= maxReplyChars p.

Definition rates_ok (p : EffectiveBehaviour) : Prop := 0 <= repliesPerHour p /\ 0 <= editsPerMinute p /\ 0 <= maxReplyChars p.

Lemma meet_rate_bound p n : 0 <= p -> 0 <= meet_rate p n <= p /\ forall z, n = Some (Fin z) -> 0 <= z -> meet_rate p n <= z.
Proof.
  intros Hp. unfold meet_rate. destruct n as [[z| |]|]; try (split; [lia|by intros]). destruct (safe_int z); cbn [andb]; [|split; [lia|intros ? [= ->]; lia]].
  destruct (Z.leb_spec 0 z); (split; [lia|intros ? [= ->]; lia]).
Qed.

Lemma meet_narrows p l : rates_ok p -> narrower (meet p l) p /\ honours (meet p l) l.
Proof.
  intros (H1 & H2 & H3). pose proof (meet_rate_bound _ (l_replies l) H1) as [R1 B1]. pose proof (meet_rate_bound _ (l_edits l) H2) as [R2 B2].
  pose proof (meet_rate_bound _ (l_chars l) H3) as [R3 B3].
  unfold narrower, honours, meet. cbn [reply capture allowedScopes captureOtherSpeakers requireLinked repliesPerHour editsPerMinute maxReplyChars].
  destruct (l_reply l) as [r|], (l_capture l) as [c|], (l_scopes l) as [s|], (l_other l) as [[]|], (l_linked l) as [[]|];
    repeat match goal with |- context [if ?a <? ?b then _ else _] => destruct (Z.ltb_spec a b) end; rewrite ?orb_true_r, ?orb_false_r, ?andb_true_r, ?andb_false_r;
    (split; [split_and!; try done; try lia; intros x; rewrite ?bfilter_elem; tauto
            |split_and!; try done; try (intros ? [= <-]; lia); try (intros ? [= <-] x; rewrite bfilter_elem, includes_spec; tauto); assumption]).
Qed.

Lemma honours_narrower p q l : narrower p q -> honours q l -> honours p l.
Proof.
  intros (N1 & N2 & N3 & N4 & N5 & N6 & N7 & N8 & _) (H1 & H2 & H3 & H4 & H5 & H6 & H7 & H8). split_and!; intros.
  - specialize (H1 _ H). lia.
  - specialize (H2 _ H). lia.
  - eauto.
  - destruct (captureOtherSpeakers p); [|done]. by rewrite N4 in H4 by done; rewrite H4.
  - auto.
  - specialize (H6 _ H H0). lia.
  - specialize (H7 _ H H0). lia.
  - specialize (H8 _ H H0). lia.
Qed.

Lemma fold_narrows ls : forall p, rates_ok p -> narrower (fold_left meet ls p) p /\ forall l, l ∈ ls -> honours (fold_left meet ls p) l.
Proof.
  induction ls as [|l ls IH]; intros p Hp; cbn [fold_left].
  - split; [|by intros ? ?%elem_of_nil]. destruct Hp as (? & ? & ?). unfold narrower. split_and!; done || lia.
  - destruct (meet_narrows p l Hp) as [Hn Hh]. assert (Hm : rates_ok (meet p l)) by (unfold rates_ok, narrower in *; tauto).
    destruct (IH _ Hm) as [Hn' Hh']. split.
    + unfold narrower in *. repeat match goal with H : _ /\ _ |- _ => destruct H end. split_and!; auto; lia.
    + intros l' [->|Hl]%elem_of_cons; [by eapply honours_narrower|auto].
Qed.

(** Layers only narrow. Whatever layers a profile is met from, each of them is honoured: replies and capture are at least as strict as it says, no
    memory scope outside its list is left, nobody else is captured when it forbids that, a linked person is required when it says so, and each rate is at most
    its own; and adding layers never widens anything. *)
Theorem layers_only_narrow layers more : (forall l, Some l ∈ layers -> honours (mergeBehaviour layers) l) /\ narrower (mergeBehaviour (layers ++ more)) (mergeBehaviour layers).
Proof.
  assert (H0 : rates_ok initial) by (split_and!; cbn; lia). unfold mergeBehaviour. rewrite !merge_fold. destruct (fold_narrows (present layers) initial H0) as [Hn Hh]. split.
  - intros l Hl. apply Hh. unfold present. rewrite list_elem_of_omap. by exists (Some l).
  - unfold present. rewrite omap_app, fold_left_app. apply fold_narrows. unfold rates_ok, narrower in *. tauto.
Qed.
