(* ===== verification/Tools.v ===== *)
(** * Tools: what exists, what it accepts, who may name it

    Model of [packages/core/src/tools/registry.ts] with [reserved-names.ts], of the argument
    validator of [tools/repair.ts] (over values of its own, [jsval], whose numbers are all doubles), and of [channels/behaviour.ts] (what a channel's
    profile permits, and how profiles are layered). The tables of method and host-tool
    names, the JSON round trip of a schema and regular expressions are parameters; the
    texts an issue is shown with are not modelled. *)

From Stdlib Require Import QArith.
From S2P Require Import Prelude PolicyCaps.
From Stdlib Require Import Ascii.

(** ** The registry *)

(* @src tools/registry.ts 8 8 HARD_MAX_TIMEOUT_MS *)
Definition HARD_MAX_TIMEOUT_MS : Z := 300000.
(* @src tools/registry.ts 9 9 HARD_MAX_RESULT_BYTES *)
Definition HARD_MAX_RESULT_BYTES : Z := 1024 * 1024.
(* @src tools/registry.ts 10 10 DEFAULT_TIMEOUT_MS *)
Definition DEFAULT_TIMEOUT_MS : Z := 30000.
(* @src tools/registry.ts 11 11 DEFAULT_MAX_RESULT_BYTES *)
Definition DEFAULT_MAX_RESULT_BYTES : Z := 64 * 1024.

(* @src tools/registry.ts 14 14 ToolTrust *)
Inductive ToolTrust : Type := FirstParty | OperatorVetted | Untrusted.

#[export] Instance trust_eq_dec : EqDecision ToolTrust.
Proof. solve_decision. Defined.

(* @src tools/registry.ts 16 16 ToolLimits *)
Record ToolLimits : Type := { timeoutMs : Z; maxResultBytes : Z }.

(** A definition as it is handed in: [d_sandbox] is absent, not an object, or the value of [required] and whether [recordBypass] is a function;
    the functions of a tool are named by the tool. *)
(* @src tools/registry.ts 59 78 ToolDef *)
Record ToolDef : Type := {
  d_name : js; d_description : js; d_inputSchema : js; d_capability : string; d_effect : js; d_risk : js; d_trust : option ToolTrust;
  d_timeoutMs : option num; d_maxResultBytes : option num; d_sandbox : option (option (js * bool)); d_classifies : bool; d_before : bool }.

(* @src tools/registry.ts 80 80 RegisteredTool *)
Record RegisteredTool : Type := {
  t_name : string; t_description : string; t_inputSchema : js; t_capability : string; t_effect : Effect; t_risk : Risk; t_trust : ToolTrust;
  t_limits : ToolLimits; t_sandbox : option bool; t_classifies : bool; t_before : bool }.

(* @src tools/registry.ts 83 83 RegistryReason *)
Inductive RegistryReason : Type := RName | RDescription | RSchema | RCapability | REffect | RRisk | RLimits | RSandbox | RDuplicate | RReserved.

Definition name_head (c : ascii) : bool := let n := Ascii.nat_of_ascii c in Nat.leb 97 n && Nat.leb n 122.
Definition name_char (c : ascii) : bool :=
  let n := Ascii.nat_of_ascii c in name_head c || (Nat.leb 48 n && Nat.leb n 57) || existsb (Ascii.eqb c) (chars "_.-").

(* @src tools/registry.ts 89 89 NAME *)
Definition NAME (s : string) : bool :=
  match chars s with c :: r => name_head c && forallb name_char r && Nat.leb (length r) 63 | [] => false end || String.eqb s "sys.startupItems".

(** The risk a value names. *)
Definition risk_of (v : js) : option Risk :=
  match v with JStr s => snd <$> bfind (fun p => String.eqb p.1 s) [("low", Low); ("medium", Medium); ("high", High); ("critical", Critical)] | _ => None end.

(** [Number.isInteger(n)], at least 1 and at most [max]. *)
Definition within (n : num) (max : Z) : option Z := match n with Fin z => if (1 <=? z) && (z <=? max) then Some z else None | _ => None end.

(** [s.split(".")[0]] *)
Fixpoint before_dot (l : list ascii) : list ascii := match l with [] => [] | c :: r => if Ascii.eqb c "." then [] else c :: before_dot r end.
Definition prefix_of_name (s : string) : string := of_chars (before_dot (chars s)).

Section registry.
(** [METHODS] and [NOTIFICATIONS] of rpc-schema, the names of [HOST_TOOLS], and [JSON.parse(JSON.stringify(v))]. *)
Context (METHODS NOTIFICATIONS HOST_TOOLS : list string) (json_clone : js -> option js).

(* @src tools/reserved-names.ts 7 17 FIRST_PARTY_TOOL_NAMES *)
Definition FIRST_PARTY_TOOL_NAMES : list string :=
  ["exec.run"; "media.generate"; "media.edit"; "image.generate"; "image.edit"; "web.search"; "memory.recall"; "memory.capture"] ++ HOST_TOOLS.
(* @src tools/reserved-names.ts 19 19 RPC_NAMES *)
Definition RPC_NAMES : list string := METHODS ++ NOTIFICATIONS.
(* @src tools/reserved-names.ts 20 22 FIRST_PARTY_PREFIXES *)
Definition FIRST_PARTY_PREFIXES : list string := map prefix_of_name FIRST_PARTY_TOOL_NAMES.
(* @src tools/reserved-names.ts 23 25 RPC_PREFIXES *)
Definition RPC_PREFIXES : list string := map (fun n => if starts_with "external.turn." n then "external.turn" else prefix_of_name n) RPC_NAMES.

(* @src tools/reserved-names.ts 28 34 isReservedToolName *)
Definition isReservedToolName (name : string) : bool :=
  if includes FIRST_PARTY_TOOL_NAMES name then false
  else if includes RPC_NAMES name then true
  else if starts_with "external.turn." name then true
  else let prefix := prefix_of_name name in includes RPC_PREFIXES prefix && negb (includes FIRST_PARTY_PREFIXES prefix).

(* @src tools/registry.ts 133 133 get *)
Definition get (tools : list RegisteredTool) (name : string) : option RegisteredTool := bfind (fun t => String.eqb (t_name t) name) tools.

Definition is_some_b {A} (o : option A) : bool := match o with Some _ => true | None => false end.

(* @src tools/registry.ts 101 128 register *)
Definition register (tools : list RegisteredTool) (d : ToolDef) : result RegistryReason (list RegisteredTool) :=
  let name := js_str (d_name d) in
  assert* js_is_str (d_name d) && NAME name else RName in
  assert* negb (isReservedToolName name) else RReserved in
  assert* negb (is_some_b (get tools name)) else RDuplicate in
  assert* js_is_str (d_description d) && negb (is_empty (trim (js_str (d_description d)))) else RDescription in
  assert* js_is_obj (d_inputSchema d) && bool_decide (jget "type" (d_inputSchema d) = JStr "object") else RSchema in
  match CAPABILITIES_get (d_capability d) with
  | None => Err RCapability
  | Some cap =>
      match effect_of (d_effect d) with
      | None => Err REffect
      | Some effect =>
          assert* effectRank (intrinsicEffect cap) <=? effectRank effect else REffect in
          match risk_of (d_risk d) with
          | None => Err RRisk
          | Some risk =>
              assert* riskRank (baseRisk cap) <=? riskRank risk else RRisk in
              match within (default (Fin DEFAULT_TIMEOUT_MS) (d_timeoutMs d)) HARD_MAX_TIMEOUT_MS with
              | None => Err RLimits
              | Some timeout =>
                  match within (default (Fin DEFAULT_MAX_RESULT_BYTES) (d_maxResultBytes d)) HARD_MAX_RESULT_BYTES with
                  | None => Err RLimits
                  | Some bytes =>
                      assert* match d_sandbox d with None => true | Some None => false | Some (Some (required, fn)) => js_is_bool required && fn end else RSandbox in
                      match json_clone (d_inputSchema d) with
                      | None => Err RSchema
                      | Some schema => Ok (tools ++ [{|
                          t_name := name; t_description := js_str (d_description d); t_inputSchema := schema; t_capability := cap_id cap; t_effect := effect; t_risk := risk;
                          t_trust := default Untrusted (d_trust d); t_limits := {| timeoutMs := timeout; maxResultBytes := bytes |};
                          t_sandbox := match d_sandbox d with Some (Some (required, _)) => Some (js_is_true required) | _ => None end;
                          t_classifies := d_classifies d; t_before := d_before d |}])
                      end
                  end
              end
          end
      end
  end.

(* @src tools/registry.ts 131 131 entries *)
Definition entries (tools : list RegisteredTool) : list RegisteredTool := tools.

(* @src tools/registry.ts 81 81 ToolDescription *)
Record ToolDescription : Type := { ds_name : string; ds_description : string; ds_inputSchema : js; ds_risk : Risk }.

(* @src tools/registry.ts 136 139 describe *)
Definition describe (tools : list RegisteredTool) : list ToolDescription :=
  map (fun t => {| ds_name := t_name t; ds_description := t_description t; ds_inputSchema := t_inputSchema t; ds_risk := t_risk t |})
    (sort_by (fun a b => str_ltb (t_name a) (t_name b)) tools).
End registry.

(** ** Arguments *)

(** What is wrong with a value. *)
Inductive Problem : Type :=
| NotAllowedValue | MustBeObject | MissingProperty | UnknownProperty | MustBeArray | TooManyItems | TooFewItems | MustBeString | TooShort | TooLong | PatternMismatch
| MustBeInteger | MustBeNumber | BelowMinimum | AboveMaximum | MustBeBoolean | ArgumentsTooLarge.

(* @src tools/repair.ts 12 18 ValidationIssue *)
Record ValidationIssue : Type := { i_path : string; i_problem : Problem }.

Definition fields (v : js) : list (string * js) := match v with JObj fs => fs | _ => [] end.

Definition js_truthy (v : js) : bool :=
  match v with JUndef | JNull | JBool false | JNum NaN => false | JNum (Fin z) => negb (z =? 0) | JStr s => negb (is_empty s) | _ => true end.

(** The numbers a value may hold: [Whole] is an integer, NaN or an infinity, and [Part k e] is (2k+1) / 2^e: the doubles that are no integer
    are exactly of that form, each in one way. *)
Inductive double : Type := Whole (n : num) | Part (k : Z) (e : positive).

#[export] Instance double_eq_dec : EqDecision double.
Proof. solve_decision. Defined.

(** [Number.isFinite] and [Number.isInteger] *)
Definition finite (a : double) : bool := match a with Whole n => is_finite n | Part _ _ => true end.
Definition is_integer (a : double) : bool := match a with Whole n => is_finite n | Part _ _ => false end.

(** [a < b] *)
Definition double_ltb (a b : double) : bool :=
  match a, b with
  | Whole m, Whole n => num_ltb m n
  | Whole (Fin x), Part k e => x * 2 ^ Zpos e <? 2 * k + 1
  | Part k e, Whole (Fin x) => 2 * k + 1 <? x * 2 ^ Zpos e
  | Part k e, Part k' e' => (2 * k + 1) * 2 ^ Zpos e' <? (2 * k' + 1) * 2 ^ Zpos e
  | Whole (Inf neg), Part _ _ => neg
  | Part _ _, Whole (Inf neg) => negb neg
  | Whole NaN, Part _ _ | Part _ _, Whole NaN => false
  end.

(** The values an argument or a schema holds. *)
Inductive jsval : Type :=
| VUndef
| VNull
| VBool (b : bool)
| VNum (n : double)
| VStr (s : string)
| VArr (l : list jsval)
| VObj (fields : list (string * jsval)).

(** A value of the other files, whose numbers have no fraction. *)
Fixpoint value_of (v : js) : jsval :=
  match v with
  | JUndef => VUndef | JNull => VNull | JBool b => VBool b | JNum n => VNum (Whole n) | JStr s => VStr s
  | JArr l => VArr (map value_of l) | JObj fs => VObj (map (fun p => (p.1, value_of p.2)) fs)
  end.

Definition vfields (v : jsval) : list (string * jsval) := match v with VObj fs => fs | _ => [] end.
Definition elements (v : jsval) : list jsval := match v with VArr l => l | _ => [] end.
(** Own-property read; anything but an object has none. *)
Definition vget (k : string) (v : jsval) : jsval := match list_find (fun p => fst p = k) (vfields v) with Some (_, (_, x)) => x | None => VUndef end.
(** [Object.hasOwn(v, k)] *)
Definition has_own (k : string) (v : jsval) : bool := existsb (fun p => String.eqb p.1 k) (vfields v).
Definition value_str (v : jsval) : string := match v with VStr s => s | _ => "" end.
Definition value_is_bool (v : jsval) : bool := match v with VBool _ => true | _ => false end.

(** [a === b], for a value [b] of another object tree: objects are never the same. *)
Definition strict_eq (a b : jsval) : bool :=
  match a, b with
  | VUndef, VUndef | VNull, VNull => true
  | VBool x, VBool y => Bool.eqb x y
  | VNum (Whole NaN), _ => false
  | VNum x, VNum y => bool_decide (x = y)
  | VStr x, VStr y => String.eqb x y
  | _, _ => false
  end.

Definition value_truthy (v : jsval) : bool :=
  match v with VUndef | VNull | VBool false => false | VNum (Whole NaN) => false | VNum (Whole (Fin z)) => negb (z =? 0) | VStr s => negb (is_empty s) | _ => true end.

Fixpoint value_depth (v : jsval) : nat :=
  match v with
  | VArr l => S (list_max (map value_depth l))
  | VObj fs => S (list_max (map (fun p => value_depth p.2) fs))
  | _ => O
  end.

(** [s.length] of a text whose bytes are its UTF-8 form: a character outside the basic plane (a lead byte from 240 on) is two units, any other one;
    the bytes 128 to 191 continue a character. *)
Definition units_of (c : ascii) : Z :=
  let n := Ascii.nat_of_ascii c in if Nat.leb 128 n && Nat.leb n 191 then 0 else if Nat.leb 240 n then 2 else 1.
Definition utf16_length (s : string) : Z := foldr (fun c n => units_of c + n) 0 (chars s).

(** A position in an array, as it is written in a path. *)
Definition index_text (i : nat) : string := of_chars (map (fun d => Ascii.ascii_of_nat (48 + d)) (let fix go fuel n acc :=
  match fuel with O => acc | S f => let acc := (n mod 10)%nat :: acc in if Nat.eqb (n / 10) 0 then acc else go f (n / 10)%nat acc end in go (S i) i [])).

Section validate.
(** [new RegExp(pattern).test(text)]; [None] is a pattern that does not compile, which throws. *)
Context (regex_test : string -> string -> option bool).

Definition issue (path : string) (p : Problem) : option (list ValidationIssue) := Some [{| i_path := path; i_problem := p |}].
Definition when (b : bool) (path : string) (p : Problem) : option (list ValidationIssue) := if b then issue path p else Some [].

(** The issues of each step in order, unless one throws. *)
Fixpoint all_issues (l : list (option (list ValidationIssue))) : option (list ValidationIssue) :=
  match l with
  | [] => Some []
  | x :: r => match x, all_issues r with Some a, Some b => Some (a ++ b) | _, _ => None end
  end.

(** A limit of the schema, when it is a number. *)
Definition limit_test (schema : jsval) (k : string) (f : double -> bool) : bool := match vget k schema with VNum n => f n | _ => false end.

(** Fuel bounds the depth of the schema. *)
(* @src tools/repair.ts 51 90 check *)
Fixpoint check (fuel : nat) (schema value : jsval) (path : string) : option (list ValidationIssue) :=
  match fuel with
  | O => None
  | S fuel =>
      match vget "enum" schema, vget "type" schema with
      | VArr l, _ => when (negb (existsb (fun e => strict_eq e value) l)) path NotAllowedValue
      | _, VStr t =>
          if String.eqb t "object" then
            match value with
            | VObj obj =>
                let props := vget "properties" schema in
                all_issues
                  (map (fun k => when (negb (has_own (value_str k) value)) (path +:+ "/" +:+ value_str k) MissingProperty) (elements (vget "required" schema))
                   ++ map (fun p => if has_own p.1 value then check fuel p.2 (vget p.1 value) (path +:+ "/" +:+ p.1) else Some []) (vfields props)
                   ++ (match vget "additionalProperties" schema with
                       | VBool false => map (fun p => when (negb (has_own p.1 props)) (path +:+ "/" +:+ p.1) UnknownProperty) obj
                       | _ => []
                       end))
            | _ => issue path MustBeObject
            end
          else if String.eqb t "array" then
            match value with
            | VArr l =>
                let n := Whole (Fin (Z.of_nat (length l))) in
                all_issues
                  ([when (limit_test schema "maxItems" (fun m => double_ltb m n)) path TooManyItems; when (limit_test schema "minItems" (fun m => double_ltb n m)) path TooFewItems]
                   ++ (if value_truthy (vget "items" schema) then imap (fun i v => check fuel (vget "items" schema) v (path +:+ "/" +:+ index_text i)) l else []))
            | _ => issue path MustBeArray
            end
          else if String.eqb t "string" then
            match value with
            | VStr s =>
                let n := Whole (Fin (utf16_length s)) in
                all_issues
                  [when (limit_test schema "minLength" (fun m => double_ltb n m)) path TooShort; when (limit_test schema "maxLength" (fun m => double_ltb m n)) path TooLong;
                   match vget "pattern" schema with
                   | VStr p => match regex_test p s with Some b => when (negb b) path PatternMismatch | None => None end
                   | _ => Some []
                   end]
            | _ => issue path MustBeString
            end
          else if String.eqb t "integer" || String.eqb t "number" then
            match value with
            | VNum n =>
                if negb (finite n) || (String.eqb t "integer" && negb (is_integer n)) then issue path (if String.eqb t "integer" then MustBeInteger else MustBeNumber)
                else all_issues [when (limit_test schema "minimum" (fun m => double_ltb n m)) path BelowMinimum; when (limit_test schema "maximum" (fun m => double_ltb m n)) path AboveMaximum]
            | _ => issue path (if String.eqb t "integer" then MustBeInteger else MustBeNumber)
            end
          else if String.eqb t "boolean" then when (negb (value_is_bool value)) path MustBeBoolean
          else Some []
      | _, _ => Some []
      end
  end.

(* @src tools/repair.ts 92 96 validateArgs *)
Definition validateArgs (schema args : jsval) : option (list ValidationIssue) := check (S (value_depth schema)) schema args "".
End validate.

(** ** What is registered *)

(** A registered tool is what it was declared to be and within every bound. *)
Definition tool_ok (METHODS NOTIFICATIONS HOST_TOOLS : list string) (t : RegisteredTool) : Prop :=
  NAME (t_name t) = true /\ isReservedToolName METHODS NOTIFICATIONS HOST_TOOLS (t_name t) = false /\
  1 <= timeoutMs (t_limits t) <= HARD_MAX_TIMEOUT_MS /\ 1 <= maxResultBytes (t_limits t) <= HARD_MAX_RESULT_BYTES /\
  exists cap, cap ∈ TABLE /\ t_capability t = cap_id cap /\ effectRank (intrinsicEffect cap) <= effectRank (t_effect t) /\ riskRank (baseRisk cap) <= riskRank (t_risk t).

Lemma get_none tools name : get tools name = None -> name ∉ map t_name tools.
Proof. intros H (t & -> & Ht)%elem_of_map. pose proof (bfind_none _ _ t H Ht) as E. cbn in E. by rewrite String.eqb_refl in E. Qed.

Lemma within_some n max z : within n max = Some z -> 1 <= z <= max.
Proof. unfold within. destruct n as [x| |]; [|done..]. destruct ((1 <=? x) && (x <=? max)) eqn:E; [|done]. intros [= <-]. bool_hyps. lia. Qed.

Section registered.
Context (METHODS NOTIFICATIONS HOST_TOOLS : list string) (json_clone : js -> option js).
Notation register := (register METHODS NOTIFICATIONS HOST_TOOLS json_clone).
Notation tool_ok := (tool_ok METHODS NOTIFICATIONS HOST_TOOLS).

Lemma register_ok tools d tools' : register tools d = Ok tools' -> exists t, tools' = tools ++ [t] /\ t_name t ∉ map t_name tools /\ tool_ok t.
Proof.
  unfold Tools.register. intros H. run_ok.
  destruct (CAPABILITIES_get _) as [cap|] eqn:Ec; [|done]. destruct (effect_of _) as [e|]; [|done]. run_ok. destruct (risk_of _) as [r|]; [|done]. run_ok.
  destruct (within (default (Fin DEFAULT_TIMEOUT_MS) _) _) as [tm|] eqn:Et; [|done]. destruct (within (default (Fin DEFAULT_MAX_RESULT_BYTES) _) _) as [by_|] eqn:Eb; [|done]. run_ok.
  destruct (json_clone _) as [sc|]; [|done]. run_ok. bool_hyps. eexists. split; [reflexivity|]. cbn [t_name]. split.
  - apply get_none. destruct (get tools (js_str (d_name d))); [discriminate|reflexivity].
  - apply within_some in Et, Eb. apply CAPABILITIES_in in Ec as [Ec _]. split_and!; cbn; try done; try lia. exists cap. split_and!; try done; lia.
Qed.

(** Registrations in order; what is refused leaves the registry as it was. *)
Definition register_all (ds : list ToolDef) (tools : list RegisteredTool) : list RegisteredTool :=
  fold_left (fun ts d => match register ts d with Ok ts' => ts' | Err _ => ts end) ds tools.

(** Registration fails closed. Whatever definitions are handed to an empty registry, in whatever order: no two tools share a name; every name has the
    required shape and is not that of a method; time limit and result size are within the hard caps; and each tool names a capability of the table, with an
    effect and a risk that are not below the capability's own. *)
Theorem registry_sound ds : let tools := register_all ds [] in NoDup (map t_name tools) /\ forall t, t ∈ tools -> tool_ok t.
Proof.
  cbn zeta. assert (H : forall ts, NoDup (map t_name ts) -> (forall t, t ∈ ts -> tool_ok t) -> NoDup (map t_name (register_all ds ts)) /\ forall t, t ∈ register_all ds ts -> tool_ok t).
  { induction ds as [|d ds IH]; intros ts Hn Ht; [by split|]. cbn [register_all fold_left]. destruct (register ts d) as [ts'|e] eqn:E; [|by apply IH].
    apply register_ok in E as (t & -> & Hx & Hok). apply IH.
    - rewrite map_app. by apply nodup_snoc.
    - intros x [Hxs| ->%list_elem_of_singleton]%elem_of_app; auto. }
  apply H; [constructor|by intros ? ?%elem_of_nil].
Qed.
End registered.

(** ** What a schema accepts *)

(** The rational a finite number is; [double_ltb] orders the finite numbers as it does. *)
Definition rational (a : double) : Q := match a with Whole (Fin z) => inject_Z z | Whole _ => 0 | Part k e => (2 * k + 1) # (2 ^ e) end.

Lemma double_ltb_lt a b : finite a = true -> finite b = true -> double_ltb a b = true <-> (rational a < rational b)%Q.
Proof.
  destruct a as [[x| |]|k e], b as [[y| |]|k' e']; try done; intros _ _; unfold Qlt; cbn [double_ltb num_ltb rational inject_Z Qnum Qden]; rewrite ?Pos2Z.inj_pow, Z.ltb_lt; lia.
Qed.

Section conforms.
Context (regex_test : string -> string -> option bool).
Notation check := (check regex_test).

Definition typed (s : jsval) (t : string) : Prop := (forall l, vget "enum" s <> VArr l) /\ vget "type" s = VStr t.
Definition bounded (s : jsval) (low high : string) (n : double) : Prop :=
  (forall m, vget low s = VNum m -> double_ltb n m = false) /\ (forall m, vget high s = VNum m -> double_ltb m n = false).

(** The subset of JSON Schema the tools use, read declaratively. *)
Inductive conforms : jsval -> jsval -> Prop :=
| conf_enum s v l e : vget "enum" s = VArr l -> e ∈ l -> strict_eq e v = true -> conforms s v
| conf_object s fs : typed s "object" ->
    (forall k, k ∈ elements (vget "required" s) -> has_own (value_str k) (VObj fs) = true) ->
    (forall k sub, (k, sub) ∈ vfields (vget "properties" s) -> has_own k (VObj fs) = true -> conforms sub (vget k (VObj fs))) ->
    (vget "additionalProperties" s = VBool false -> forall k x, (k, x) ∈ fs -> has_own k (vget "properties" s) = true) -> conforms s (VObj fs)
| conf_array s l : typed s "array" -> bounded s "minItems" "maxItems" (Whole (Fin (Z.of_nat (length l)))) ->
    (value_truthy (vget "items" s) = true -> forall v, v ∈ l -> conforms (vget "items" s) v) -> conforms s (VArr l)
| conf_string s x : typed s "string" -> bounded s "minLength" "maxLength" (Whole (Fin (utf16_length x))) -> (forall p, vget "pattern" s = VStr p -> regex_test p x = Some true) -> conforms s (VStr x)
| conf_integer s z : typed s "integer" -> bounded s "minimum" "maximum" (Whole (Fin z)) -> conforms s (VNum (Whole (Fin z)))
| conf_number s n : typed s "number" -> finite n = true -> bounded s "minimum" "maximum" n -> conforms s (VNum n)
| conf_boolean s b : typed s "boolean" -> conforms s (VBool b)
| conf_any s v : (forall l, vget "enum" s <> VArr l) -> (forall t, vget "type" s = VStr t -> t ∉ ["object"; "array"; "string"; "integer"; "number"; "boolean"]) -> conforms s v.

Lemma all_issues_none l : all_issues l = Some [] <-> forall x, x ∈ l -> x = Some [].
Proof.
  induction l as [|x l IH]; cbn; [split; [by intros _ ? ?%elem_of_nil|done]|]. split.
  - destruct x as [a|]; [|done]. destruct (all_issues l) as [b|]; [|done]. intros [= H]. apply app_eq_nil in H as [-> ->]. intros y [->|Hy]%elem_of_cons; [done|]. by apply IH.
  - intros H. rewrite (H x) by left. replace (all_issues l) with (Some (@nil ValidationIssue)); [done|]. symmetry. apply IH. intros y Hy. apply H. by right.
Qed.

Lemma when_none b path p : when b path p = Some [] <-> b = false.
Proof. by destruct b. Qed.

Lemma limit_none s k f path p : when (limit_test s k f) path p = Some [] <-> forall m, vget k s = VNum m -> f m = false.
Proof. rewrite when_none. unfold limit_test. destruct (vget k s); split; intros H; try done; naive_solver. Qed.

Lemma depth_elem (l : list nat) x : x ∈ l -> (x <= list_max l)%nat.
Proof.
  induction l as [|y l IH]; [by intros ?%elem_of_nil|]. change (list_max (y :: l)) with (Nat.max y (list_max l)). intros [->|H]%elem_of_cons; [lia|]. specialize (IH H). lia.
Qed.

Lemma vget_elem k fs x : vget k (VObj fs) = x -> x <> VUndef -> exists k', (k', x) ∈ fs.
Proof.
  unfold vget. cbn [vfields]. match goal with |- context [list_find ?P fs] => destruct (list_find P fs) as [[i [k' y]]|] eqn:E end; [|by intros <-]. intros -> _. apply list_find_Some in E as (E & _ & _). exists k'. by eapply list_elem_of_lookup_2.
Qed.

Lemma vget_depth k s : vget k s <> VUndef -> (value_depth (vget k s) < value_depth s)%nat.
Proof.
  destruct s as [| | | | | |fs]; try done. intros H. destruct (vget_elem k fs _ eq_refl H) as (k' & Hk). cbn [value_depth].
  apply Nat.lt_succ_r, depth_elem, elem_of_map. by exists (k', vget k (VObj fs)).
Qed.

Lemma field_depth k x v : (k, x) ∈ vfields v -> (value_depth x < value_depth v)%nat.
Proof. destruct v as [| | | | | |fs]; cbn [vfields]; try (by intros ?%elem_of_nil). intros H. cbn [value_depth]. apply Nat.lt_succ_r, depth_elem, elem_of_map. by exists (k, x). Qed.

Lemma truthy_defined v : value_truthy v = true -> v <> VUndef.
Proof. by destruct v. Qed.

Lemma undef_cases v : v = VUndef \/ v <> VUndef.
Proof. destruct v; by (left + right). Qed.

Lemma enum_cases s : (exists l, vget "enum" s = VArr l) \/ forall l, vget "enum" s <> VArr l.
Proof. destruct (vget "enum" s) as [| | | | |l|]; try (by right); left; by exists l. Qed.

Lemma type_cases s : (exists t, vget "type" s = VStr t /\ t ∈ ["object"; "array"; "string"; "integer"; "number"; "boolean"]) \/
  forall t, vget "type" s = VStr t -> t ∉ ["object"; "array"; "string"; "integer"; "number"; "boolean"].
Proof.
  destruct (vget "type" s) as [| | | |t| |]; try (by right). destruct (decide (t ∈ ["object"; "array"; "string"; "integer"; "number"; "boolean"])); [left; by exists t|].
  right. by intros t' [= <-].
Qed.

(** What is checked where no enumeration is given, by type. *)
Ltac typed_check := intros (He & Ht); cbn [Tools.check]; rewrite Ht; destruct (vget "enum" _) as [| | | | |l0|]; [reflexivity..|destruct (He l0 eq_refl)|reflexivity].

Lemma check_object fuel s v path : typed s "object" -> check (S fuel) s v path =
  match v with
  | VObj obj => all_issues
      (map (fun k => when (negb (has_own (value_str k) v)) (path +:+ "/" +:+ value_str k) MissingProperty) (elements (vget "required" s))
       ++ map (fun p => if has_own p.1 v then check fuel p.2 (vget p.1 v) (path +:+ "/" +:+ p.1) else Some []) (vfields (vget "properties" s))
       ++ (match vget "additionalProperties" s with
           | VBool false => map (fun p => when (negb (has_own p.1 (vget "properties" s))) (path +:+ "/" +:+ p.1) UnknownProperty) obj
           | _ => [] end))
  | _ => issue path MustBeObject
  end.
Proof. typed_check. Qed.

Lemma check_array fuel s v path : typed s "array" -> check (S fuel) s v path =
  match v with
  | VArr l => all_issues
      ([when (limit_test s "maxItems" (fun m => double_ltb m (Whole (Fin (Z.of_nat (length l)))))) path TooManyItems;
        when (limit_test s "minItems" (fun m => double_ltb (Whole (Fin (Z.of_nat (length l)))) m)) path TooFewItems]
       ++ (if value_truthy (vget "items" s) then imap (fun i x => check fuel (vget "items" s) x (path +:+ "/" +:+ index_text i)) l else []))
  | _ => issue path MustBeArray
  end.
Proof. typed_check. Qed.

Lemma check_string fuel s v path : typed s "string" -> check (S fuel) s v path =
  match v with
  | VStr x => all_issues
      [when (limit_test s "minLength" (fun m => double_ltb (Whole (Fin (utf16_length x))) m)) path TooShort; when (limit_test s "maxLength" (fun m => double_ltb m (Whole (Fin (utf16_length x))))) path TooLong;
       match vget "pattern" s with VStr p => match regex_test p x with Some b => when (negb b) path PatternMismatch | None => None end | _ => Some [] end]
  | _ => issue path MustBeString
  end.
Proof. typed_check. Qed.

Lemma check_number fuel s v path t : typed s t -> t = "integer" \/ t = "number" -> check (S fuel) s v path =
  match v with
  | VNum n =>
      if negb (finite n) || (String.eqb t "integer" && negb (is_integer n)) then issue path (if String.eqb t "integer" then MustBeInteger else MustBeNumber)
      else all_issues [when (limit_test s "minimum" (fun m => double_ltb n m)) path BelowMinimum; when (limit_test s "maximum" (fun m => double_ltb m n)) path AboveMaximum]
  | _ => issue path (if String.eqb t "integer" then MustBeInteger else MustBeNumber)
  end.
Proof. intros H [->| ->]; revert H; typed_check. Qed.

Lemma check_boolean fuel s v path : typed s "boolean" -> check (S fuel) s v path = when (negb (value_is_bool v)) path MustBeBoolean.
Proof. typed_check. Qed.

(** Which clause a value conforms by, where no enumeration is given. *)
Lemma conforms_typed s v t : typed s t -> t ∈ ["object"; "array"; "string"; "integer"; "number"; "boolean"] -> conforms s v ->
  match v with
  | VObj fs => t = "object" /\ (forall k, k ∈ elements (vget "required" s) -> has_own (value_str k) v = true) /\
      (forall k sub, (k, sub) ∈ vfields (vget "properties" s) -> has_own k v = true -> conforms sub (vget k v)) /\
      (vget "additionalProperties" s = VBool false -> forall k x, (k, x) ∈ fs -> has_own k (vget "properties" s) = true)
  | VArr l => t = "array" /\ bounded s "minItems" "maxItems" (Whole (Fin (Z.of_nat (length l)))) /\ (value_truthy (vget "items" s) = true -> forall x, x ∈ l -> conforms (vget "items" s) x)
  | VStr x => t = "string" /\ bounded s "minLength" "maxLength" (Whole (Fin (utf16_length x))) /\ (forall p, vget "pattern" s = VStr p -> regex_test p x = Some true)
  | VNum n => (t = "integer" /\ is_integer n = true \/ t = "number" /\ finite n = true) /\ bounded s "minimum" "maximum" n
  | VBool _ => t = "boolean"
  | _ => False
  end.
Proof.
  intros (He & Ht) Hin. destruct 1 as [s v l e El _ _|s fs Hty H1 H2 H3|s l Hty H1 H2|s x Hty H1 H2|s z Hty H1|s n Hty H1 H2|s b Hty|s v _ Hany].
  - by destruct (He l).
  - destruct Hty as (_ & E). by replace t with "object" by congruence.
  - destruct Hty as (_ & E). by replace t with "array" by congruence.
  - destruct Hty as (_ & E). by replace t with "string" by congruence.
  - destruct Hty as (_ & E). split; [|done]. left. split; [congruence|done].
  - destruct Hty as (_ & E). split; [|done]. right. split; [congruence|done].
  - destruct Hty as (_ & E). congruence.
  - by destruct (Hany t Ht).
Qed.

Lemma conforms_enum s v l : conforms s v -> vget "enum" s = VArr l -> exists e, e ∈ l /\ strict_eq e v = true.
Proof.
  destruct 1 as [s v l' e El Hi Hs|s fs [Hn _]|s l' [Hn _]|s x [Hn _]|s z [Hn _]|s n [Hn _]|s b [Hn _]|s v Hn _]; intros E; try (by destruct (Hn l)).
  assert (l' = l) as -> by congruence. by exists e.
Qed.

Lemma check_num_none fuel s v path t : typed s t -> t = "integer" \/ t = "number" ->
  (conforms s v -> match v with VNum n => (t = "integer" /\ is_integer n = true \/ t = "number" /\ finite n = true) /\ bounded s "minimum" "maximum" n | _ => False end) ->
  check (S fuel) s v path = Some [] <-> conforms s v.
Proof.
  intros Hty Ht Hc. rewrite (check_number fuel s v path t) by done. split.
  - destruct v as [| | |n| | |]; try done. destruct (_ || _) eqn:E; [done|]. apply orb_false_iff in E as [Ef Ei]. apply negb_false_iff in Ef.
    rewrite all_issues_none. intros H. assert (Hb : bounded s "minimum" "maximum" n).
    { split; [refine (proj1 (limit_none _ _ _ _ _) (H _ _)); by left|refine (proj1 (limit_none _ _ _ _ _) (H _ _)); right; by left]. }
    destruct Ht as [-> | ->]; [|by apply conf_number]. destruct n as [[z| |]|]; cbn in Ef, Ei; try discriminate. by apply conf_integer.
  - intros H. specialize (Hc H). destruct v as [| | |n| | |]; try done. destruct Hc as [Hn [H1 H2]].
    replace (negb (finite n) || (String.eqb t "integer" && negb (is_integer n))) with false.
    2: { destruct Hn as [[-> Hn]|[-> Hn]]; [|by rewrite Hn]. destruct n as [[]|]; [done|discriminate Hn..]. }
    apply all_issues_none. intros y Hy. apply elem_of_cons in Hy as [->| ->%list_elem_of_singleton]; by apply limit_none.
Qed.

Lemma check_none fuel : forall s v path, (value_depth s < fuel)%nat -> check fuel s v path = Some [] <-> conforms s v.
Proof.
  induction fuel as [|fuel IH]; intros s v path Hd; [lia|].
  assert (Hf : forall k sub x p, (k, sub) ∈ vfields (vget "properties" s) -> check fuel sub x p = Some [] <-> conforms sub x).
  { intros k sub x p Hk. apply IH. pose proof (field_depth _ _ _ Hk). destruct (undef_cases (vget "properties" s)) as [E|E]; [rewrite E in Hk; by apply elem_of_nil in Hk|].
    pose proof (vget_depth _ _ E). lia. }
  assert (Hi : value_truthy (vget "items" s) = true -> forall x p, check fuel (vget "items" s) x p = Some [] <-> conforms (vget "items" s) x).
  { intros Ht x p. apply IH. pose proof (vget_depth "items" s (truthy_defined _ Ht)). lia. }
  destruct (enum_cases s) as [[l El]|He].
  { cbn [Tools.check]. rewrite El, when_none, negb_false_iff, existsb_elem. split; [intros (e & ? & ?); by eapply conf_enum|].
    intros H. by apply (conforms_enum s). }
  destruct (type_cases s) as [(t & Ht & Hin)|Hout].
  2: { cbn [Tools.check]. split; [intros _; by apply conf_any|intros _].
       destruct (vget "enum" s) as [| | | | |l0|]; try (by destruct (He l0)); destruct (vget "type" s) as [| | | |t| |]; try done; specialize (Hout t eq_refl);
         rewrite !not_elem_of_cons in Hout; destruct Hout as (N1 & N2 & N3 & N4 & N5 & N6 & _);
         by rewrite !(proj2 (String.eqb_neq _ _)). }
  assert (Hty : typed s t) by done. pose proof (conforms_typed s v t Hty Hin) as Hc.
  apply elem_of_cons in Hin as [->|Hin]; [|apply elem_of_cons in Hin as [->|Hin]; [|apply elem_of_cons in Hin as [->|Hin];
    [|apply elem_of_cons in Hin as [E|Hin]; [|apply elem_of_cons in Hin as [E|Hin]; [|apply list_elem_of_singleton in Hin as ->]]]]].
  - rewrite check_object by done. split.
    + destruct v as [| | | | | |fs]; try done. rewrite all_issues_none. intros H. apply conf_object; [done|..].
      * intros k Hk. apply negb_false_iff. refine (proj1 (when_none _ _ _) (H _ _)). rewrite !elem_of_app. left. apply elem_of_map. by exists k.
      * intros k sub Hk Ho. apply (Hf k sub _ (path +:+ "/" +:+ k) Hk), H. rewrite !elem_of_app. right. left. apply elem_of_map. exists (k, sub). cbn [fst snd]. by rewrite Ho.
      * intros Ha k x Hk. apply negb_false_iff. refine (proj1 (when_none _ _ _) (H _ _)). rewrite !elem_of_app. right. right. rewrite Ha. apply elem_of_map. by exists (k, x).
    + intros H. specialize (Hc H). destruct v as [| | |n| |l|fs]; try done; try (by destruct Hc as [[=] _]); try (by destruct Hc as [[[[=] _]|[[=] _]] _]).
      destruct Hc as (_ & H1 & H2 & H3). apply all_issues_none. intros x. rewrite !elem_of_app, !elem_of_map. intros [(k & -> & Hk)|[([k sub] & -> & Hk)|Hx]].
      * apply when_none. by rewrite H1.
      * cbn [fst snd]. destruct (has_own k (VObj fs)) eqn:Eo; [|done]. apply (Hf k sub); auto.
      * destruct (vget "additionalProperties" s) as [| |[]| | | |] eqn:Ea; try (by apply elem_of_nil in Hx). apply elem_of_map in Hx as ([k y] & -> & Hk).
        apply when_none. cbn [fst]. by rewrite (H3 eq_refl k y Hk).
  - rewrite check_array by done. split.
    + destruct v as [| | | | |l|]; try done. rewrite all_issues_none. intros H. apply conf_array; [done|split|].
      * refine (proj1 (limit_none _ _ _ _ _) (H _ _)). rewrite elem_of_app. left. right. by left.
      * refine (proj1 (limit_none _ _ _ _ _) (H _ _)). rewrite elem_of_app. left. by left.
      * intros Ht' x Hx. apply list_elem_of_lookup in Hx as [n Hn]. apply (Hi Ht' x (path +:+ "/" +:+ index_text n)), H. rewrite elem_of_app. right. rewrite Ht'.
        apply list_elem_of_lookup. exists n. by rewrite list_lookup_imap, Hn.
    + intros H. specialize (Hc H). destruct v as [| | |n| |l|fs]; try done; try (by destruct Hc as [[=] _]); try (by destruct Hc as [[[[=] _]|[[=] _]] _]).
      destruct Hc as (_ & [H1 H2] & H3). apply all_issues_none. intros x [Hx|Hx]%elem_of_app.
      * apply elem_of_cons in Hx as [->| ->%list_elem_of_singleton]; by apply limit_none.
      * destruct (value_truthy (vget "items" s)) eqn:Ht'; [|by apply elem_of_nil in Hx]. apply list_elem_of_lookup in Hx as [n Hn]. rewrite list_lookup_imap in Hn.
        apply fmap_Some in Hn as (y & Hy & ->). apply Hi; [done|]. apply H3; [done|]. by eapply list_elem_of_lookup_2.
  - rewrite check_string by done. split.
    + destruct v as [| | | |x| |]; try done. rewrite all_issues_none. intros H. apply conf_string; [done|split|].
      * refine (proj1 (limit_none _ _ _ _ _) (H _ _)). by left.
      * refine (proj1 (limit_none _ _ _ _ _) (H _ _)). right. by left.
      * intros p Hp. specialize (H (match vget "pattern" s with VStr p => match regex_test p x with Some b => when (negb b) path PatternMismatch | None => None end | _ => Some [] end)).
        rewrite Hp in H. specialize (H ltac:(right; right; by left)). destruct (regex_test p x) as [[]|]; [done|discriminate H..].
    + intros H. specialize (Hc H). destruct v as [| | |n|x|l|fs]; try done; try (by destruct Hc as [[=] _]); try (by destruct Hc as [[[[=] _]|[[=] _]] _]).
      destruct Hc as (_ & [H1 H2] & H3). apply all_issues_none. intros y Hy.
      apply elem_of_cons in Hy as [->|[->| ->%list_elem_of_singleton]%elem_of_cons]; [by apply limit_none..|].
      destruct (vget "pattern" s) as [| | | |p| |]; try done. by rewrite (H3 p eq_refl).
  - subst t. apply (check_num_none fuel s v path "integer"); [done|by left|]. intros H. specialize (Hc H).
    destruct v as [| | |n| |l|fs]; try done; try (by destruct Hc as [[=] _]).
  - subst t. apply (check_num_none fuel s v path "number"); [done|by right|]. intros H. specialize (Hc H).
    destruct v as [| | |n| |l|fs]; try done; try (by destruct Hc as [[=] _]).
  - rewrite check_boolean by done. rewrite when_none, negb_false_iff. split.
    + destruct v as [| |b| | | |]; try done. intros _. by apply conf_boolean.
    + intros H. specialize (Hc H). destruct v as [| | |n| |l|fs]; try done; try (by destruct Hc as [[=] _]); try (by destruct Hc as [[[[=] _]|[[=] _]] _]).
Qed.

(** (C22) The validator accepts exactly what the schema describes. [validateArgs] has no complaint about a value if and only if the value conforms to the
    schema: one of its enumeration where there is one; else of its type (a number for [number], and one without a fraction for [integer]), every required
    property there, every property and item conforming to its own schema, no property beyond those named where that is asked for, and counts, numbers and
    lengths (in UTF-16 units) within their limits. A pattern that is no regular expression accepts nothing. *)
Theorem validateArgs_exact schema v : validateArgs regex_test schema v = Some [] <-> conforms schema v.
Proof. apply check_none. lia. Qed.
End conforms.
