(* ===== verification/Dispatcher.v ===== *)
(** * The tool-call dispatcher

    Model of [packages/core/src/tools/dispatcher.ts] over the port of [tools/approval.ts]:
    a call is resolved, its arguments are checked, the policy decides, a person or a grant
    clears it, it runs under its limits, and its result leaves in an envelope. Everything
    outside is arbitrary at every moment: the repair round, classifiers, the policy's
    context, the grant source, the approval port, the audit trail, the sandbox's record,
    the tool itself, the abort signal, and other calls of the same dispatcher that taint turns
    meanwhile. Serialisation, the digest and the masking of secret values are parameters;
    the texts of errors, which are masked and cut for the model, are not modelled. *)

From S2P Require Import Prelude PolicyCaps PolicyDecide Behaviour Tools.

(** ** Data *)

(* @src tools/dispatcher.ts 19 19 MAX_ARGS_BYTES *)
Definition MAX_ARGS_BYTES : Z := 256 * 1024.

(* @src tools/dispatcher.ts 22 25 ToolCallRequest *)
Record ToolCallRequest : Type := { q_id : string; q_name : js; q_args : js; q_reason : js; q_diff : js; q_peerTrust : js }.

(** [x_recurring]: the job, for a call of a recurring one; [x_settles]: a consumer takes over the delivery receipt. *)
(* @src tools/dispatcher.ts 27 42 DispatchContext *)
Record DispatchContext : Type := {
  x_agentId : string; x_recurring : option string; x_principal : string; x_sessionId : option string; x_taskId : option string; x_turnId : option string;
  x_surface : Z; x_settles : bool }.

(* @src tools/dispatcher.ts 54 56 ToolErrorCode *)
Inductive ToolErrorCode : Type :=
| EUnknown | ECallInvalid | EDenied | ENotApproved | ETimeout | EFailed | EResultTooLarge | EResultInvalid | EAborted.

(* @src tools/dispatcher.ts 59 59 InternalToolFailureCategory *)
Inductive InternalFailure : Type := InternalError | ClassificationFailure | ApprovalPortFailure | AuditUnavailable.

(* @src tools/dispatcher.ts 61 67 TypedToolFailure *)
Record TypedToolFailure : Type := { tf_code : string; tf_message : string; tf_hint : option string; tf_userAction : option string; tf_reason : option string }.

(* @src tools/dispatcher.ts 68 78 ToolError *)
Record ToolError : Type := {
  e_code : ToolErrorCode; e_issues : option (list ValidationIssue); e_sourceCode : option string; e_internal : option InternalFailure; e_typed : option TypedToolFailure }.

(* @src tools/dispatcher.ts 79 79 ToolDecisionMeta *)
Inductive ToolDecisionMeta : Type := MNone | MAllow | MApproved | MDeny | MAskRefused.

(* @src tools/dispatcher.ts 48 52 ToolProvenance *)
Record ToolProvenance : Type := { o_system : string; o_agent : string; o_principal : string; o_trust : ToolTrust }.

(* @src tools/dispatcher.ts 81 84 ToolResult *)
Record ToolResult : Type := {
  r_callId : string; r_name : js; r_provenance : ToolProvenance; r_decision : ToolDecisionMeta; r_durationMs : Z; r_bytes : Z; r_outcome : result ToolError js }.

(* @src tools/registry.ts 49 57 ToolClassification *)
Record ToolClassification : Type := { k_untrustedResult : bool; k_flags : js; k_targets : option (list string); k_access : js; k_hashExtra : option string }.

(* @src tools/approval.ts 11 40 ApprovalAsk *)
Record ApprovalAsk : Type := {
  a_request : ApprovalRequest; a_callId : string; a_tool : string; a_args : js; a_agentId : string; a_principal : string; a_sessionId : option string; a_park : bool;
  a_subjectKind : js; a_turnId : string; a_taskId : js; a_projectId : js; a_targets : option (list string); a_access : js; a_reason : js; a_diff : js;
  a_recurring : option string; a_peerTrust : js }.

Inductive AuditAction : Type := PolicyDecision | PolicyOutcome.

(** The fields of a line that say who, what and how it ended. *)
(* @src policy/audit.ts 25 75 PolicyAuditFields *)
Record PolicyAuditFields : Type := {
  f_person : string; f_agentId : string; f_subjectKind : js; f_sessionId : option string; f_taskId : js; f_jobId : js; f_tool : string; f_capability : string;
  f_effect : option Effect; f_risk : option Risk; f_actionHash : option string; f_surface : option Z; f_targets : option (list string); f_flags : js; f_argsBytes : option Z;
  f_outcome : string; f_via : option string; f_grantId : option string; f_rule : option string; f_reason : option DenyReason;
  f_durationMs : option Z; f_resultBytes : option Z; f_resultCode : option ToolErrorCode }.

(** *** What a call does to the outside *)

Inductive Ev : Type :=
| Audited (a : AuditAction) (f : PolicyAuditFields)
| Asked (a : ApprovalAsk)
| Began (answer : js) (a : ApprovalAsk)
| MarkedUsed (grant : string)
| ConsumedOnce (grant : string) (person agent actionHash : string)
| BypassRecorded (tool : string)
| Executed (tool : string) (args : js)
| Settled (accepted : bool).

(** One turn of one agent for one principal; the key is the text of the array of the four. *)
Definition TurnKey : Type := (string * string * option string * option string)%type.

(* @src tools/dispatcher.ts 157 157 #taintedTurns *)
Record World : Type := { moment : nat; log : list Ev; tainted : list TurnKey; settled : option bool; handedOff : bool }.

(** A [return] from within the call, or a throw that nothing on the way catches. *)
Inductive Stop : Type := Return (r : ToolResult) | Thrown.
Definition M := SE World Stop.

Definition emit (e : Ev) : M unit := modify (fun w => {| moment := moment w; log := log w ++ [e]; tainted := tainted w; settled := settled w; handedOff := handedOff w |}).

Inductive RunResult : Type :=
| RunOk (value : js)
| RunTimeout
| RunAborted
| RunFailed (sourceCode : option string) (typed : option TypedToolFailure).

(** What the approval port answers: it throws at once, rejects later, or resolves with a value. *)
Inductive PortReply : Type := PortThrows | PortRejects | PortAnswers (v : js).

(** [{ ...a, ...b }] *)
Definition set_field (fs : list (string * js)) (kv : string * js) : list (string * js) :=
  if existsb (fun p => String.eqb p.1 kv.1) fs then map (fun p => if String.eqb p.1 kv.1 then kv else p) fs else fs ++ [kv].
Definition spread (a b : js) : js := JObj (fold_left set_field (fields b) (fields a)).

Definition opt_field (k : string) (v : option js) : list (string * js) := match v with Some x => [(k, x)] | None => [] end.
Definition opt_str (v : option string) : option js := option_map JStr v.
Definition js_of (v : js) : option js := match v with JUndef => None | _ => Some v end.

Section canonical.
(** [JSON.stringify] of a scalar, and of a key. *)
Context (stringify : js -> string).

Fixpoint join_comma (l : list string) : string := match l with [] => "" | [x] => x | x :: r => x +:+ "," +:+ join_comma r end.

(* @src tools/dispatcher.ts 144 151 canonicalJson *)
Fixpoint canonicalJson (v : js) : string :=
  match v with
  | JArr l => "[" +:+ join_comma (map canonicalJson l) +:+ "]"
  | JObj fs =>
      let defined := List.filter (fun p => negb (js_is_undef p.1.2)) (map (fun p => (p, canonicalJson p.2)) fs) in
      let sorted := sort_by (fun a b => negb (str_ltb b.1.1 a.1.1)) defined in
      "{" +:+ join_comma (map (fun p => stringify (JStr p.1.1) +:+ ":" +:+ p.2) sorted) +:+ "}"
  | JUndef => "null"
  | _ => stringify v
  end.
End canonical.

Section dispatcher.
Context (tools : list RegisteredTool) (behaviour : option EffectiveBehaviour)
  (regex_test : string -> string -> option bool) (stringify : js -> string) (sha256 : string -> string).
(** [JSON.stringify(v)]: [None] throws, [Some None] is [undefined]; [JSON.parse] of such a text; the masking of secret values in a result, which may throw
    and leaves alone what holds none. *)
Context (json_text : js -> option (option string)) (parse_json : string -> js) (mask : nat -> string -> js -> option (option (js * string))).
Context (now : nat -> Z) (aborted : nat -> bool) (others : nat -> list TurnKey) (settler : nat -> bool).
(** A hook that is absent, throws ([None]), or answers. *)
Context (repair : option (nat -> RegisteredTool -> js -> list ValidationIssue -> option js)) (classify : nat -> RegisteredTool -> js -> option (option ToolClassification))
  (policyContext : nat -> DispatchContext -> option js) (deps : nat -> option Deps) (audit : option (nat -> AuditAction -> PolicyAuditFields -> bool)).
Context (port : nat -> ApprovalAsk -> PortReply) (begin : option (nat -> js -> ApprovalAsk -> option js)).
Context (grant_get : nat -> string -> option (option Grant)) (grantUse : bool) (markUsed : nat -> string -> bool)
  (consumeOnce : nat -> string -> string -> string -> string -> option bool).
Context (recordBypass : nat -> RegisteredTool -> bool) (beforeExecute : nat -> RegisteredTool -> option (option string * option TypedToolFailure))
  (execute : nat -> RegisteredTool -> js -> RunResult).

Definition tick {E} : SE World E nat := fun w =>
  (Ok (moment w), {| moment := S (moment w); log := log w; tainted := tainted w ++ others (moment w); settled := settled w; handedOff := handedOff w |}).
Definition emit_any {E} (e : Ev) : SE World E unit :=
  modify (fun w => {| moment := moment w; log := log w ++ [e]; tainted := tainted w; settled := settled w; handedOff := handedOff w |}).
Definition clock {E} : SE World E Z := n ← tick; mret (now n).

(** A text that is there and not empty. *)
Definition truthy (v : option string) : option string := match v with Some "" => None | _ => v end.
(** [a ?? b] *)
Definition nullish (a b : js) : js := match a with JUndef | JNull => b | _ => a end.

(** [v ? { k: v } : {}] *)
Definition only_truthy (v : js) : js := if js_truthy v then v else JUndef.

(* @src tools/dispatcher.ts 158 158 #turnKey *)
Definition turnKey (ctx : DispatchContext) : TurnKey :=
  (x_principal ctx, x_agentId ctx, x_sessionId ctx, match x_turnId ctx with Some t => Some t | None => x_sessionId ctx end).

(** *** Arguments *)

(* @src tools/dispatcher.ts 526 528 tooLarge *)
Definition tooLarge (args : js) : bool :=
  match json_text args with None => true | Some None => false | Some (Some s) => MAX_ARGS_BYTES <? slen s end.

(* @src tools/dispatcher.ts 522 524 argsSize *)
Definition argsSize (args : js) : Z := slen (canonicalJson stringify args).

(** [None]: a pattern of the schema throws. *)
(* @src tools/dispatcher.ts 530 533 argIssues *)
Definition argIssues (t : RegisteredTool) (args : js) : option (list ValidationIssue) :=
  if tooLarge args then Some [{| i_path := ""; i_problem := ArgumentsTooLarge |}] else validateArgs regex_test (value_of (t_inputSchema t)) (value_of args).

(** *** Envelopes and audit lines *)

(* @src tools/dispatcher.ts 535 541 provenance *)
Definition provenance (ctx : DispatchContext) (t : option RegisteredTool) : ToolProvenance :=
  {| o_system := match t with Some t => "tool:" +:+ t_name t | None => "harness:tools" end; o_agent := x_agentId ctx; o_principal := x_principal ctx;
     o_trust := match t with Some t => t_trust t | None => FirstParty end |}.

Definition plain (c : ToolErrorCode) : ToolError := {| e_code := c; e_issues := None; e_sourceCode := None; e_internal := None; e_typed := None |}.
Definition internal (c : ToolErrorCode) (f : InternalFailure) : ToolError := {| e_code := c; e_issues := None; e_sourceCode := None; e_internal := Some f; e_typed := None |}.

(** What a refusal needs to know of the call: when it began, what was asked for, and for whom. *)
Record Frame : Type := { fr_started : Z; fr_req : ToolCallRequest; fr_ctx : DispatchContext }.

(** [producer]: the tool, for what it brought about itself. *)
(* @src tools/dispatcher.ts 184 188 fail *)
Definition fail {E} (fr : Frame) (e : ToolError) (decision : ToolDecisionMeta) (producer : option RegisteredTool) : SE World E ToolResult :=
  t ← clock;
  mret {| r_callId := q_id (fr_req fr); r_name := q_name (fr_req fr); r_provenance := provenance (fr_ctx fr) producer; r_decision := decision;
          r_durationMs := Z.max 0 (t - fr_started fr); r_bytes := 0; r_outcome := Err e |}.

(* @src tools/dispatcher.ts 437 443 #who *)
Definition who (ctx : DispatchContext) (context : option js) (t : RegisteredTool) : PolicyAuditFields :=
  let c := default JUndef context in
  {| f_person := x_principal ctx; f_agentId := x_agentId ctx; f_subjectKind := match context with Some c => nullish (jget "kind" (jget "subject" c)) (JStr "agent") | None => JStr "agent" end;
     f_sessionId := truthy (x_sessionId ctx); f_taskId := only_truthy (nullish (jget "taskId" c) (default JUndef (opt_str (x_taskId ctx)))); f_jobId := jget "jobId" (jget "headless" c);
     f_tool := t_name t; f_capability := t_capability t; f_effect := None; f_risk := None; f_actionHash := None; f_surface := None; f_targets := None; f_flags := JUndef;
     f_argsBytes := None; f_outcome := ""; f_via := None; f_grantId := None; f_rule := None; f_reason := None; f_durationMs := None; f_resultBytes := None; f_resultCode := None |}.

(** The line with its outcome, and what goes with that. *)
Definition outcome_line (f : PolicyAuditFields) (outcome : string) (via grantId rule : option string) (reason : option DenyReason) : PolicyAuditFields :=
  {| f_person := f_person f; f_agentId := f_agentId f; f_subjectKind := f_subjectKind f; f_sessionId := f_sessionId f; f_taskId := f_taskId f; f_jobId := f_jobId f;
     f_tool := f_tool f; f_capability := f_capability f; f_effect := f_effect f; f_risk := f_risk f; f_actionHash := f_actionHash f; f_surface := f_surface f;
     f_targets := f_targets f; f_flags := f_flags f; f_argsBytes := f_argsBytes f; f_outcome := outcome; f_via := via; f_grantId := grantId; f_rule := rule; f_reason := reason;
     f_durationMs := f_durationMs f; f_resultBytes := f_resultBytes f; f_resultCode := f_resultCode f |}.

(** [this.#d.audit?.record(a, f)]; [false] when it throws. *)
Definition record {E} (a : AuditAction) (f : PolicyAuditFields) : SE World E bool :=
  match audit with
  | None => mret true
  | Some sink => n ← tick; if sink n a f then emit_any (Audited a f) ;; mret true else mret false
  end.

(* @src tools/dispatcher.ts 445 447 #auditSoft *)
Definition auditSoft {E} (a : AuditAction) (f : PolicyAuditFields) : SE World E unit := _ ← record a f; mret tt.

Definition stop {A} (r : M ToolResult) : M A := x ← r; throw (Return x).

(* @src tools/dispatcher.ts 450 457 #outcome *)
Definition outcome (base : PolicyAuditFields) (r : ToolResult) : M ToolResult :=
  match audit with
  | None => mret r
  | Some _ =>
      let o := match r_outcome r with
        | Ok _ => "executed"
        | Err e => match e_code e with ENotApproved => "refused" | EAborted => "aborted" | _ => "failed" end
        end in
      let f := outcome_line base o None None None None in
      auditSoft PolicyOutcome
        {| f_person := f_person f; f_agentId := f_agentId f; f_subjectKind := f_subjectKind f; f_sessionId := f_sessionId f; f_taskId := f_taskId f; f_jobId := f_jobId f;
           f_tool := f_tool f; f_capability := f_capability f; f_effect := f_effect f; f_risk := f_risk f; f_actionHash := f_actionHash f; f_surface := f_surface f;
           f_targets := f_targets f; f_flags := f_flags f; f_argsBytes := f_argsBytes f; f_outcome := o; f_via := None; f_grantId := None; f_rule := None; f_reason := None;
           f_durationMs := Some (r_durationMs r); f_resultBytes := Some (r_bytes r); f_resultCode := match r_outcome r with Ok _ => None | Err e => Some (e_code e) end |} ;;
      mret r
  end.

(** *** Resolve and validate *)

(* @src tools/dispatcher.ts 198 207 call *)
Definition repaired (t : RegisteredTool) (args : js) (issues : list ValidationIssue) : M (js * list ValidationIssue) :=
  match issues, repair with
  | _ :: _, Some hook =>
      if tooLarge args then mret (args, issues)
      else
        n ← tick;
        match hook n t args issues with
        | None | Some JUndef => mret (args, issues)
        | Some fixed => mret (fixed, match argIssues t fixed with Some l => l | None => issues end)
        end
  | _, _ => mret (args, issues)
  end.

Definition never (ctx : DispatchContext) (t : RegisteredTool) (rule : string) : PolicyAuditFields := outcome_line (who ctx None t) "never" None None (Some rule) None.

(* @src tools/dispatcher.ts 183 216 call *)
Definition prepare (fr : Frame) : M (RegisteredTool * js) :=
  let req := fr_req fr in let ctx := fr_ctx fr in
  match (match q_name req with JStr s => get tools s | _ => None end) with
  | None => stop (fail fr (plain EUnknown) MNone None)
  | Some t =>
      if negb (permitsTool behaviour (t_name t) (t_capability t)) then
        auditSoft PolicyDecision (never ctx t "channel-behaviour") ;;
        stop (fail fr (plain EDenied) MDeny None)
      else
        n ← tick;
        if aborted n then stop (fail fr (plain EAborted) MNone None)
        else
          match argIssues t (q_args req) with
          | None => throw Thrown
          | Some issues =>
              '(args, issues) ← repaired t (q_args req) issues;
              match issues with
              | _ :: _ =>
                  stop (fail fr {| e_code := ECallInvalid; e_issues := Some (take 10 issues); e_sourceCode := None; e_internal := None; e_typed := None |} MNone None)
              | [] =>
                  match t_sandbox t with
                  | Some true => auditSoft PolicyDecision (never ctx t "sandbox-unavailable") ;; stop (fail fr (plain EDenied) MDeny None)
                  | _ => mret (t, args)
                  end
              end
          end
  end.

(** *** The policy gate *)

Definition default_flags : js := JObj [("outsideRoots", JBool true); ("denyListHit", JBool false)].

Definition action_hash (t : RegisteredTool) (args : js) (c : option ToolClassification) : string :=
  sha256 (canonicalJson stringify (JObj (
    [("capability", JStr (t_capability t)); ("tool", JStr (t_name t)); ("args", args);
     ("targets", JArr (map JStr (default [] (match c with Some c => k_targets c | None => None end))))]
    ++ opt_field "hashExtra" (opt_str (truthy (match c with Some c => k_hashExtra c | None => None end)))))).

Definition effect_text (e : Effect) : string :=
  match e with
  | ERead => "read" | ELocalWrite => "local-write" | ELocalDestructive => "local-destructive" | EExternal => "external" | ENetworkA2a => "network.a2a" | EMoney => "money"
  end.

(** The call the policy judges, given the classification. *)
(* @src tools/dispatcher.ts 342 359 #buildCall *)
Definition buildCall (t : RegisteredTool) (args : js) (c : option ToolClassification) : js :=
  let flags := spread default_flags (match c with Some c => k_flags c | None => JUndef end) in
  let targets := match c with Some c => k_targets c | None => None end in
  let access := match c with Some c => js_of (k_access c) | None => None end in
  JObj ([("capability", JStr (t_capability t)); ("tool", JStr (t_name t)); ("effect", JStr (effect_text (t_effect t))); ("flags", flags)]
        ++ opt_field "targets" (option_map (fun l => JArr (map JStr l)) targets) ++ opt_field "access" access
        ++ [("actionHash", JStr (action_hash t args c))]).

Definition base_context (ctx : DispatchContext) : js :=
  JObj ([("principal", JObj [("person", JStr (x_principal ctx))]); ("subject", JObj [("kind", JStr "agent"); ("agentId", JStr (x_agentId ctx))]);
         ("surface", JNum (Fin (x_surface ctx)))]
        ++ opt_field "sessionId" (opt_str (truthy (x_sessionId ctx))) ++ opt_field "taskId" (opt_str (truthy (x_taskId ctx)))).

Definition tainted_patch : js := JObj [("taint", JObj [("tainted", JBool true); ("readPrivate", JBool true)])].

(* @src tools/dispatcher.ts 362 375 #decide *)
Definition decide_call (call : js) (ctx : DispatchContext) : M (Decision * js) :=
  n ← tick;
  match policyContext n ctx with
  | None => mret (DDeny PolicyNever "context-unavailable", base_context ctx)
  | Some patch =>
      ts ← gets tainted;
      let context := spread (spread (base_context ctx) patch) (if bool_decide (turnKey ctx ∈ ts) then tainted_patch else JUndef) in
      match deps n with
      | None => mret (DDeny PolicyNever "evaluator-error", context)
      | Some d => mret (headlessGate (decide call context d) (negb (js_is_undef (jget "headless" context))), context)
      end
  end.

Record Gate : Type := { g_call : js; g_classified : option ToolClassification; g_decision : Decision; g_context : js; g_base : PolicyAuditFields }.

(* @src tools/dispatcher.ts 234 237 call *)
Definition base_line (t : RegisteredTool) (ctx : DispatchContext) (context : js) (args call : js) (c : option ToolClassification) : PolicyAuditFields :=
  let f := who ctx (Some context) t in
  {| f_person := f_person f; f_agentId := f_agentId f; f_subjectKind := f_subjectKind f; f_sessionId := f_sessionId f; f_taskId := f_taskId f; f_jobId := f_jobId f;
     f_tool := t_name t; f_capability := t_capability t; f_effect := Some (t_effect t); f_risk := Some (t_risk t); f_actionHash := Some (action_hash t args c);
     f_surface := Some (x_surface ctx); f_targets := match c with Some c => k_targets c | None => None end; f_flags := jget "flags" call; f_argsBytes := Some (argsSize args);
     f_outcome := ""; f_via := None; f_grantId := None; f_rule := None; f_reason := None; f_durationMs := None; f_resultBytes := None; f_resultCode := None |}.

Definition via_text (v : Via) : string := match v with ViaDefault => "default" | ViaOverride => "override" | ViaGrant _ _ => "grant" end.

(* @src tools/dispatcher.ts 238 241 call *)
Definition decision_line (base : PolicyAuditFields) (d : Decision) : PolicyAuditFields :=
  match d with
  | DAllow v => outcome_line base "allowed" (Some (via_text v)) (match v with ViaGrant id _ => truthy (Some id) | _ => None end) None None
  | DAsk _ _ why => outcome_line base "approval" (Some "ask") None (Some why) None
  | DDeny reason rule => outcome_line base "never" None None (Some rule) (Some reason)
  end.

(* @src tools/dispatcher.ts 221 251 call *)
Definition gate (fr : Frame) (t : RegisteredTool) (args : js) : M Gate :=
  let ctx := fr_ctx fr in
  n ← tick;
  match (if t_classifies t then classify n t args else Some None) with
  | None =>
      auditSoft PolicyDecision (never ctx t "classify-failed") ;;
      stop (fail fr (internal EDenied ClassificationFailure) MDeny None)
  | Some c =>
      let call := buildCall t args c in
      '(d, context) ← decide_call call ctx;
      let base := base_line t ctx context args call c in
      match d with
      | DDeny _ _ => auditSoft PolicyDecision (decision_line base d) ;; stop (fail fr (plain EDenied) MDeny None)
      | _ =>
          recorded ← record PolicyDecision (decision_line base d);
          if negb recorded then stop (fail fr (internal EDenied AuditUnavailable) MDeny None)
          else mret {| g_call := call; g_classified := c; g_decision := d; g_context := context; g_base := base |}
      end
  end.

(** *** A person, or a grant *)

Inductive AskResult : Type := AskAborted | PortFailure | Refused (parked : bool) (rejected : bool) | Approved (answer : js).

(* @src tools/dispatcher.ts 385 394 #ask *)
Definition the_ask (fr : Frame) (t : RegisteredTool) (args : js) (g : Gate) (request : ApprovalRequest) (park : bool) : ApprovalAsk :=
  let ctx := fr_ctx fr in let req := fr_req fr in
  {| a_request := request; a_callId := q_id req; a_tool := t_name t; a_args := args; a_agentId := x_agentId ctx; a_principal := x_principal ctx;
     a_sessionId := truthy (x_sessionId ctx); a_park := park; a_subjectKind := jget "kind" (jget "subject" (g_context g)); a_turnId := default (q_id req) (x_turnId ctx);
     a_taskId := only_truthy (nullish (jget "taskId" (g_context g)) (default JUndef (opt_str (x_taskId ctx)))); a_projectId := only_truthy (jget "projectId" (g_context g));
     a_targets := match g_classified g with Some c => k_targets c | None => None end; a_access := only_truthy (jget "access" (g_call g));
     a_reason := (if js_is_str (q_reason req) then q_reason req else JUndef); a_diff := (if js_is_str (q_diff req) then q_diff req else JUndef);
     a_recurring := x_recurring ctx;
     a_peerTrust := if String.eqb (t_name t) "peer.a2a_trust" && bool_decide (t_trust t = FirstParty) then only_truthy (q_peerTrust req) else JUndef |}.

(** Only a literal [approved: true] counts. *)
(* @src tools/dispatcher.ts 377 420 #ask *)
Definition ask (recurring : bool) (a : ApprovalAsk) : M AskResult :=
  n ← tick;
  emit (Asked a) ;;
  match port n a with
  | PortThrows => mret PortFailure
  | reply =>
      n ← tick;
      if aborted n then mret AskAborted
      else match reply with
      | PortAnswers v => mret (if js_is_true (jget "approved" v) then Approved v else Refused (recurring && js_is_true (jget "parked" v)) false)
      | _ => mret (Refused false true)
      end
  end.

(** [false] with a refusal. *)
(* @src tools/dispatcher.ts 423 435 #useGrant *)
Definition useGrant (id : string) : M bool :=
  n ← tick;
  match grant_get n id with
  | Some (Some g) =>
      if bool_decide (g_scope g = Once) then
        if negb grantUse then mret false
        else
          n ← tick;
          let h := default "" (g_actionHash g) in
          match consumeOnce n id (g_person g) (g_agent g) h with
          | Some true => emit (ConsumedOnce id (g_person g) (g_agent g) h) ;; mret true
          | _ => mret false
          end
      else if grantUse then n ← tick; if markUsed n id then emit (MarkedUsed id) ;; mret true else mret false
      else mret true
  | _ => mret false
  end.

(* @src tools/dispatcher.ts 270 273 call *)
Definition begin_approved (answer : js) (a : ApprovalAsk) : M (bool * bool) :=
  match begin with
  | None => mret (true, false)
  | Some f =>
      n ← tick;
      match f n answer a with
      | None => mret (false, true)
      | Some r => if js_is_true r then emit (Began answer a) ;; mret (true, false) else mret (false, false)
      end
  end.

(* @src tools/dispatcher.ts 254 283 call *)
Definition clear (fr : Frame) (t : RegisteredTool) (args : js) (g : Gate) : M ToolDecisionMeta :=
  let out e m := stop (r ← fail fr e m None; outcome (g_base g) r) in
  match g_decision g with
  | DAsk request park _ =>
      let a := the_ask fr t args g request park in
      r ← ask (match x_recurring (fr_ctx fr) with Some _ => true | None => false end) a;
      match r with
      | AskAborted => out (plain EAborted) MNone
      | PortFailure => stop (fail fr (internal EFailed ApprovalPortFailure) MNone None)
      | Refused parked rejected =>
          out {| e_code := ENotApproved; e_issues := None; e_sourceCode := if parked then Some "approval-timeout" else None;
                 e_internal := if rejected then Some ApprovalPortFailure else None; e_typed := None |} MAskRefused
      | Approved answer =>
          '(began, failed) ← begin_approved answer a;
          if (began : bool) then mret MApproved
          else out {| e_code := ENotApproved; e_issues := None; e_sourceCode := None; e_internal := if (failed : bool) then Some ApprovalPortFailure else None; e_typed := None |} MAskRefused
      end
  | DAllow (ViaGrant id _) =>
      if is_empty id then mret MAllow
      else used ← useGrant id; if (used : bool) then mret MAllow else out (plain ENotApproved) MAskRefused
  | _ => mret MAllow
  end.

(** *** Run *)

(** The last looks before the tool starts. *)
(* @src tools/dispatcher.ts 284 289 call *)
Definition launch (fr : Frame) (t : RegisteredTool) (g : Gate) (via : ToolDecisionMeta) : M unit :=
  let out e := stop (r ← fail fr e via None; outcome (g_base g) r) in
  n ← tick;
  if aborted n then out (plain EAborted)
  else match t_sandbox t with
  | None => mret tt
  | Some _ => n ← tick; if recordBypass n t then emit (BypassRecorded (t_name t)) else out (plain EDenied)
  end.

(** However the race between the tool, its time limit and the caller's abort ends, the tool has been started by then, unless its own last check refused. *)
(* @src tools/dispatcher.ts 459 490 #run *)
Definition run (t : RegisteredTool) (args : js) : M RunResult :=
  n ← tick;
  match (if t_before t then beforeExecute n t else None) with
  | Some (source, typed) => n ← tick; mret (if aborted n then RunAborted else RunFailed source typed)
  | None =>
      emit (Executed (t_name t) args) ;;
      n ← tick;
      mret (execute n t args)
  end.

(** *** The result *)

Definition foreign_name (name : string) : bool := starts_with "web." name || starts_with "mcp." name || starts_with "peer." name.

(* @src tools/dispatcher.ts 311 311 call *)
Definition taints (t : RegisteredTool) (c : option ToolClassification) (call : js) : bool :=
  bool_decide (t_trust t = Untrusted) || match c with Some c => k_untrustedResult c | None => false end || foreign_name (t_name t)
  || (String.eqb (t_capability t) "fs.read" && js_truthy (jget "outsideRoots" (jget "flags" call))).

Definition taint (k : TurnKey) : M unit :=
  modify (fun w => {| moment := moment w; log := log w; tainted := if bool_decide (k ∈ tainted w) then tainted w else tainted w ++ [k]; settled := settled w; handedOff := handedOff w |}).

(* @src tools/dispatcher.ts 565 569 resultDelivery *)
Definition settle {E} (accepted : bool) : SE World E unit := fun w =>
  match settled w with
  | Some _ => (Ok tt, w)
  | None => (Ok tt, {| moment := moment w; log := log w ++ [Settled accepted]; tainted := tainted w; settled := Some accepted; handedOff := handedOff w |})
  end.

(* @src tools/dispatcher.ts 293 300 call *)
Definition accepted (fr : Frame) (base : PolicyAuditFields) (r : ToolResult) : M ToolResult :=
  envelope ← outcome base r;
  (if x_settles (fr_ctx fr) then
     n ← tick;
     if settler n then modify (fun w => {| moment := moment w; log := log w; tainted := tainted w; settled := settled w; handedOff := true |}) else throw Thrown
   else settle true) ;;
  mret envelope.

(** [JSON.stringify(v)], when it is a text. *)
Definition result_text (v : js) : option string := match json_text (match v with JUndef => JNull | _ => v end) with Some s => s | None => None end.

(* @src tools/dispatcher.ts 301 336 call *)
Definition finish (fr : Frame) (t : RegisteredTool) (g : Gate) (via : ToolDecisionMeta) (ran : RunResult) : M ToolResult :=
  let base := g_base g in
  let out e := r ← fail fr e via (Some t); outcome base r in
  match ran with
  | RunTimeout => out (plain ETimeout)
  | RunAborted => out (plain EAborted)
  | RunFailed source typed =>
      r ← fail fr {| e_code := EFailed; e_issues := None; e_sourceCode := source; e_internal := None; e_typed := typed |} via (Some t);
      accepted fr base r
  | RunOk v =>
      (if taints t (g_classified g) (g_call g) then taint (turnKey (fr_ctx fr)) else mret tt) ;;
      match result_text v with
      | None => out (plain EResultInvalid)
      | Some json =>
          if maxResultBytes (t_limits t) <? slen json then out (plain EResultTooLarge)
          else
            n ← tick;
            match mask n json (parse_json json) with
            | None => out (plain EResultInvalid)
            | Some masked =>
                let '(value, json) := default (parse_json json, json) masked in
                let bytes := slen json in
                if maxResultBytes (t_limits t) <? bytes then out (plain EResultTooLarge)
                else
                  now_ ← clock;
                  accepted fr base
                    {| r_callId := q_id (fr_req fr); r_name := JStr (t_name t); r_provenance := provenance (fr_ctx fr) (Some t); r_decision := via;
                       r_durationMs := Z.max 0 (now_ - fr_started fr); r_bytes := bytes; r_outcome := Ok value |}
            end
      end
  end.

(** Everything inside the call's [try]. *)
(* @src tools/dispatcher.ts 189 336 call *)
Definition body (fr : Frame) : M ToolResult :=
  '(t, args) ← prepare fr;
  g ← gate fr t args;
  via ← clear fr t args g;
  launch fr t g via ;;
  ran ← run t args;
  finish fr t g via ran.

Definition fresh_delivery : SE World Empty_set unit :=
  modify (fun w => {| moment := moment w; log := log w; tainted := tainted w; settled := None; handedOff := false |}).

(** A call ends with an envelope, whatever happens in it: its type has no error. *)
(* @src tools/dispatcher.ts 179 340 call *)
Definition call (req : ToolCallRequest) (ctx : DispatchContext) : SE World Empty_set ToolResult :=
  started ← clock;
  fresh_delivery ;;
  let fr := {| fr_started := started; fr_req := req; fr_ctx := ctx |} in
  r ← catch (body fr) (fun s => match s with Return r => mret r | Thrown => fail fr (internal EFailed InternalError) MNone None end);
  handed ← gets handedOff;
  (if (handed : bool) then mret tt else settle false) ;;
  mret r.

(** What a provider is told about: the tools the channel's profile permits. *)
(* @src tools/dispatcher.ts 177 177 describe *)
Definition describe_permitted : list ToolDescription :=
  bfilter (fun d => match get tools (ds_name d) with Some t => permitsTool behaviour (ds_name d) (t_capability t) | None => false end) (describe tools).
End dispatcher.
