(* ===== verification/DispatcherSpec.v ===== *)
(** * What the dispatcher lets run

    A call is a sequence of stages, each with what it leaves in the log and what it has
    established by its end; the theorems put the stages together. *)

From S2P Require Import Prelude PolicyCaps PolicyDecide PolicyProps Behaviour Tools Dispatcher.

(** ** Stages *)

Definition noexec (l : list Ev) : Prop := forall t a, Executed t a ∉ l.

Lemma noexec_nil : noexec []. Proof. by intros t a ?%elem_of_nil. Qed.
Lemma noexec_app l l' : noexec (l ++ l') <-> noexec l /\ noexec l'.
Proof. unfold noexec. split; [intros H; split; intros t a Hx; apply (H t a), elem_of_app; auto|intros [H1 H2] t a [Hx|Hx]%elem_of_app; [by apply (H1 t a)|by apply (H2 t a)]]. Qed.
Lemma noexec_one e : (forall t a, e <> Executed t a) -> noexec [e].
Proof. intros H t a Hx. apply list_elem_of_singleton in Hx. by apply (H t a). Qed.

(** From [w] to [w'] the log grew by [l], in which no tool is started, and no turn lost its taint. *)
Definition grows (w w' : World) (l : list Ev) : Prop := log w' = log w ++ l /\ tainted w ⊆ tainted w' /\ noexec l.

Lemma grows_same w w' : log w' = log w -> tainted w ⊆ tainted w' -> grows w w' [].
Proof. intros Hl Ht. split_and!; [by rewrite app_nil_r|done|apply noexec_nil]. Qed.
Lemma log_grows_trans w w1 w2 l l' : grows w w1 l -> grows w1 w2 l' -> grows w w2 (l ++ l').
Proof.
  intros (Hl & Ht & Hn) (Hl' & Ht' & Hn'). split_and!; [by rewrite Hl', Hl, app_assoc|set_solver|by apply noexec_app].
Qed.

(** From [w] the step logs no start of a tool; [Q] holds of what it returns, [R] of what it throws. *)
Definition yields {E A} (m : SE World E A) (w : World) (Q : A -> World -> list Ev -> Prop) (R : E -> Prop) : Prop :=
  match m w with
  | (Ok a, w') => exists l, grows w w' l /\ Q a w' l
  | (Err e, w') => exists l, grows w w' l /\ R e
  end.

Section yields.
Context {E : Type}.
Implicit Types R : E -> Prop.

Lemma yields_bind {A B} (m : SE World E A) (k : A -> SE World E B) w Q Q' R :
  yields m w Q R -> (forall a w' l, grows w w' l -> Q a w' l -> yields (k a) w' (fun b w'' l' => Q' b w'' (l ++ l')) R) -> yields (m ≫= k) w Q' R.
Proof.
  unfold yields, mbind, SE_bind. destruct (m w) as [[a|e] w1]; [|done]. intros (l & Hl & Hq) Hk. specialize (Hk a w1 l Hl Hq).
  destruct (k a w1) as [[b|e] w2]; destruct Hk as (l' & Hl' & Hq'); exists (l ++ l'); (split; [by eapply log_grows_trans|done]).
Qed.

Lemma yields_ret {A} (a : A) w (Q : A -> World -> list Ev -> Prop) R : Q a w [] -> yields (mret a : SE World E A) w Q R.
Proof. intros H. exists []. split; [by apply grows_same|done]. Qed.

Lemma yields_throw {A} (e : E) w (Q : A -> World -> list Ev -> Prop) R : R e -> yields (throw e : SE World E A) w Q R.
Proof. intros H. exists []. split; [by apply grows_same|done]. Qed.

Lemma yields_weaken {A} (m : SE World E A) w Q Q' R R' :
  yields m w Q R -> (forall a w' l, grows w w' l -> Q a w' l -> Q' a w' l) -> (forall e, R e -> R' e) -> yields m w Q' R'.
Proof. unfold yields. destruct (m w) as [[a|e] w1]; intros (l & Hl & Hq) Hw Hr; exists l; auto. Qed.

Lemma yields_step {A} (m : SE World E A) a w w' l (Q : A -> World -> list Ev -> Prop) R : m w = (Ok a, w') -> grows w w' l -> Q a w' l -> yields m w Q R.
Proof. intros E1 Hg HQ. unfold yields. rewrite E1. by exists l. Qed.

Lemma yields_emit e w (Q : unit -> World -> list Ev -> Prop) R : (forall t a, e <> Executed t a) -> (forall w', Q tt w' [e]) -> yields (emit_any e : SE World E unit) w Q R.
Proof. intros He H. eapply yields_step; [done| |apply H]. split_and!; [done|done|by apply noexec_one]. Qed.

(** A step that always returns. *)
Definition silent {A} (m : SE World E A) : Prop := forall w R, yields m w (fun _ _ _ => True) R.

Lemma silent_bind {A B} (m : SE World E A) (k : A -> SE World E B) : silent m -> (forall a, silent (k a)) -> silent (m ≫= k).
Proof. intros Hm Hk w R. eapply yields_bind; [apply Hm|]. intros a w' l _ _. apply Hk. Qed.
Lemma silent_ret {A} (a : A) : silent (mret a). Proof. intros w R. by apply yields_ret. Qed.
End yields.

Section dispatcher.
Context (tools : list RegisteredTool) (behaviour : option EffectiveBehaviour)
  (regex_test : string -> string -> option bool) (stringify : js -> string) (sha256 : string -> string)
  (json_text : js -> option (option string)) (parse_json : string -> js) (mask : nat -> string -> js -> option (option (js * string)))
  (now : nat -> Z) (aborted : nat -> bool) (others : nat -> list TurnKey) (settler : nat -> bool)
  (repair : option (nat -> RegisteredTool -> js -> list ValidationIssue -> option js)) (classify : nat -> RegisteredTool -> js -> option (option ToolClassification))
  (policyContext : nat -> DispatchContext -> option js) (deps : nat -> option Deps) (audit : option (nat -> AuditAction -> PolicyAuditFields -> bool))
  (port : nat -> ApprovalAsk -> PortReply) (begin : option (nat -> js -> ApprovalAsk -> option js))
  (grant_get : nat -> string -> option (option Grant)) (grantUse : bool) (markUsed : nat -> string -> bool)
  (consumeOnce : nat -> string -> string -> string -> string -> option bool)
  (recordBypass : nat -> RegisteredTool -> bool) (beforeExecute : nat -> RegisteredTool -> option (option string * option TypedToolFailure))
  (execute : nat -> RegisteredTool -> js -> RunResult).

Notation tick := (tick others).
Notation clock := (clock now others).
Notation fail := (fail now others).
Notation record := (record others audit).
Notation auditSoft := (auditSoft others audit).
Notation outcome := (outcome others audit).
Notation argIssues := (argIssues regex_test json_text).
Notation prepare := (prepare tools behaviour regex_test json_text now aborted others repair audit).
Notation buildCall := (buildCall stringify sha256).
Notation decide_call := (decide_call others policyContext deps).
Notation gate := (gate stringify sha256 now others classify policyContext deps audit).
Notation base_line := (base_line stringify sha256).
Notation clear := (clear now aborted others audit port begin grant_get grantUse markUsed consumeOnce).
Notation launch := (launch now aborted others audit recordBypass).
Notation run := (run aborted others beforeExecute execute).
Notation accepted := (accepted others settler audit).
Notation finish := (finish json_text parse_json mask now others settler audit).
Notation body := (body tools behaviour regex_test stringify sha256 json_text parse_json mask now aborted others settler repair classify policyContext deps audit
  port begin grant_get grantUse markUsed consumeOnce recordBypass beforeExecute execute).
Notation call := (call tools behaviour regex_test stringify sha256 json_text parse_json mask now aborted others settler repair classify policyContext deps audit
  port begin grant_get grantUse markUsed consumeOnce recordBypass beforeExecute execute).

Lemma yields_tick {E} w (Q : nat -> World -> list Ev -> Prop) (R : E -> Prop) : (forall w', tainted w ⊆ tainted w' -> Q (moment w) w' []) -> yields (tick : SE World E nat) w Q R.
Proof. intros H. assert (Ht : tainted w ⊆ tainted w ++ others (moment w)) by set_solver. eapply yields_step; [done| |by apply H]. by apply grows_same. Qed.
Lemma silent_tick {E} : silent (tick : SE World E nat). Proof. intros w R. by apply yields_tick. Qed.
Lemma silent_clock {E} : silent (clock : SE World E Z). Proof. apply silent_bind; [apply silent_tick|intros; apply silent_ret]. Qed.

(** One step whose answer is only looked at. *)
Lemma yields_look {E A} (k : nat -> SE World E A) w (Q : A -> World -> list Ev -> Prop) R :
  (forall n w', tainted w ⊆ tainted w' -> yields (k n) w' Q R) -> yields (n ← tick; k n) w Q R.
Proof. intros H. eapply yields_bind; [by apply (yields_tick w (fun _ _ l => l = []))|]. intros n w' l (_ & Ht & _) ->. by apply H. Qed.

Lemma yields_record {E} a f w (Q : bool -> World -> list Ev -> Prop) (R : E -> Prop) :
  (audit = None -> forall w', Q true w' []) -> (audit <> None -> forall w', Q true w' [Audited a f] /\ Q false w' []) -> yields (record a f : SE World E bool) w Q R.
Proof.
  intros Hn Hs. unfold Dispatcher.record. destruct audit as [sink|]; [|by apply yields_ret, Hn]. apply yields_look. intros n w' _.
  destruct (sink n a f); [|apply yields_ret; by apply Hs].
  eapply yields_bind; [by apply (yields_emit _ _ (fun _ _ l => l = [Audited a f]))|]. intros _ w'' l _ ->. apply yields_ret. by apply Hs.
Qed.
Lemma silent_record {E} a f : silent (record a f : SE World E bool). Proof. intros w R. by apply yields_record. Qed.
Lemma silent_auditSoft {E} a f : silent (auditSoft a f : SE World E unit). Proof. apply silent_bind; [apply silent_record|intros; apply silent_ret]. Qed.

Lemma yields_fail {E} fr e d p w (R : E -> Prop) : yields (fail fr e d p) w (fun r _ _ => r_outcome r = Err e) R.
Proof. eapply yields_bind; [apply silent_clock|]. intros z w' l _ _. by apply yields_ret. Qed.
Lemma yields_outcome b r w R : yields (outcome b r) w (fun r' _ _ => r' = r) R.
Proof.
  unfold Dispatcher.outcome. destruct audit as [s|] eqn:E; [|by apply yields_ret]. rewrite <- E. eapply yields_bind; [apply silent_auditSoft|]. intros _ w' l _ _. by apply yields_ret.
Qed.
Lemma yields_out fr e m p b w R : yields (r ← fail fr e m p; outcome b r : M ToolResult) w (fun r _ _ => r_outcome r = Err e) R.
Proof. eapply yields_bind; [apply yields_fail|]. intros r w' l _ Hr. eapply yields_weaken; [apply yields_outcome|by intros ? ? ? _ ->|intros x Hx; exact Hx]. Qed.

(** An answer that holds no result. *)
Definition refusing (m : M ToolResult) : Prop := forall w (R : Stop -> Prop), yields m w (fun r _ _ => exists e, r_outcome r = Err e) R.
Lemma refusing_fail fr e d p : refusing (fail fr e d p).
Proof. intros w R. eapply yields_weaken; [apply yields_fail|intros r' w' l _ Hr; by exists e|]. intros x Hx. exact Hx. Qed.
Lemma refusing_out fr e m p b : refusing (r ← fail fr e m p; outcome b r).
Proof. intros w R. eapply yields_weaken; [apply yields_out|intros r' w' l _ Hr; by exists e|]. intros x Hx. exact Hx. Qed.
#[local] Hint Resolve refusing_fail refusing_out : dispatch.

(** What stops the call. *)
Definition halted (s : Stop) : Prop := match s with Return r => exists e, r_outcome r = Err e | Thrown => True end.
Lemma yields_stop {A} (r : M ToolResult) w (Q : A -> World -> list Ev -> Prop) : refusing r -> yields (stop r : M A) w Q halted.
Proof. intros H. eapply yields_bind; [apply H|]. intros a w' l _ Ha. by apply yields_throw. Qed.
Lemma yields_soft_stop {A} a f (r : M ToolResult) w (Q : A -> World -> list Ev -> Prop) : refusing r -> yields (auditSoft a f ;; stop r : M A) w Q halted.
Proof. intros H. eapply yields_bind; [apply silent_auditSoft|]. intros _ w' l _ _. by apply yields_stop. Qed.

(** *** The stages of a call *)

(** The tool is the one that was named, it is permitted, and its arguments pass. *)
Definition resolved (req : ToolCallRequest) (t : RegisteredTool) (args : js) : Prop :=
  (exists name, q_name req = JStr name /\ get tools name = Some t) /\ permitsTool behaviour (t_name t) (t_capability t) = true /\ argIssues t args = Some [] /\ t_sandbox t <> Some true.

Lemma reissued (o : option (list ValidationIssue)) i issues : match o with Some l => l | None => i :: issues end = [] -> o = Some [].
Proof. destruct o; congruence. Qed.

Lemma repaired_yields t args issues w R : argIssues t args = Some issues ->
  yields (repaired regex_test json_text others repair t args issues) w (fun p _ _ => p.2 = [] -> argIssues t p.1 = Some []) R.
Proof.
  intros Hi. unfold repaired. destruct issues as [|i issues], repair as [hook|]; try (by apply yields_ret; cbn; intros; subst).
  destruct (tooLarge json_text args); [by apply yields_ret|]. apply yields_look. intros n w' _. destruct (hook n t args (i :: issues)) as [[]|]; apply yields_ret; cbn [fst snd]; try done.
  all: apply reissued.
Qed.

Lemma prepare_yields fr w : yields (prepare fr) w (fun p _ _ => resolved (fr_req fr) p.1 p.2) halted.
Proof.
  unfold Dispatcher.prepare. destruct (match q_name (fr_req fr) with JStr s => get tools s | _ => None end) as [t|] eqn:Et; [|apply yields_stop; auto with dispatch].
  destruct (permitsTool _ _ _) eqn:Ep; cbn [negb]; [|apply yields_soft_stop; auto with dispatch]. apply yields_look. intros n w' _.
  destruct (aborted n); [apply yields_stop; auto with dispatch|]. destruct (argIssues t _) as [issues|] eqn:Ei; [|by apply yields_throw].
  eapply yields_bind; [by apply repaired_yields|]. intros [args iss] w'' l _ Hr. cbn [fst snd] in Hr. destruct iss as [|i iss]; [|apply yields_stop; auto with dispatch].
  specialize (Hr eq_refl). destruct (t_sandbox t) as [[]|] eqn:Es; [apply yields_soft_stop; auto with dispatch|..]; apply yields_ret; cbn [fst snd].
  all: split_and!; [|done|done|by rewrite Es]; destruct (q_name (fr_req fr)) as [| | | |s| |]; try done; by exists s.
Qed.

(** The policy was asked with the context of some moment, tainted when the turn is, and what it said was brought to a headless run. *)
Lemma jget_set_field fs k v : jget k (JObj (set_field fs (k, v))) = v.
Proof.
  unfold set_field. cbn [jget fst]. induction fs as [|[k1 x] fs IH]; [cbn; by rewrite decide_True|].
  cbn [existsb fst]. destruct (String.eqb_spec k1 k) as [->|Hne]; cbn [orb map fst app list_find].
  - rewrite String.eqb_refl. cbn. by rewrite decide_True.
  - rewrite (proj2 (String.eqb_neq k1 k) Hne). revert IH. destruct (existsb _ fs); cbn [app list_find fst]; rewrite (decide_False (P := k1 = k)) by done.
    all: destruct (list_find _ _) as [[i [k2 y]]|]; cbn; congruence.
Qed.
Definition full_taint : js := JObj [("tainted", JBool true); ("readPrivate", JBool true)].
Lemma fields_spread_tainted a : jget "taint" (spread a tainted_patch) = full_taint.
Proof. unfold spread. cbn [fields tainted_patch fold_left]. by rewrite jget_set_field. Qed.

Definition judged (call : js) (context : js) (d : Decision) : Prop :=
  exists n ds, deps n = Some ds /\ d = headlessGate (decide call context ds) (negb (js_is_undef (jget "headless" context))).

Lemma decide_call_yields c ctx w R :
  yields (decide_call c ctx) w
    (fun p _ _ => (forall r s, p.1 <> DDeny r s) -> judged c p.2 p.1 /\ (turnKey ctx ∈ tainted w -> jget "taint" p.2 = full_taint)) R.
Proof.
  apply yields_look. intros n w' Ht. destruct (policyContext n ctx) as [patch|]; [|apply yields_ret; cbn; intros H; by destruct (H PolicyNever "context-unavailable")].
  eapply yields_bind; [eapply (yields_step (gets tainted) _ _ _ _ (fun ts _ l => ts = tainted w' /\ l = [])); [done|by apply grows_same|done]|].
  intros ts w'' l _ [-> ->]. destruct (deps n) as [ds|] eqn:Ed; apply yields_ret; cbn [fst snd]; [|by intros H; destruct (H PolicyNever "evaluator-error")].
  intros _. split; [by exists n, ds|]. intros Hk. rewrite bool_decide_true by set_solver. apply fields_spread_tainted.
Qed.

(** What the policy decided of this call of this tool, and that the decision is on record. *)
Definition decided (ctx : DispatchContext) (t : RegisteredTool) (args : js) (g : Gate) (tainted_turn : Prop) (l : list Ev) : Prop :=
  (if t_classifies t then exists n, classify n t args = Some (g_classified g) else g_classified g = None) /\
  g_call g = buildCall t args (g_classified g) /\ judged (g_call g) (g_context g) (g_decision g) /\
  (tainted_turn -> jget "taint" (g_context g) = full_taint) /\ (forall r s, g_decision g <> DDeny r s) /\
  (audit <> None -> Audited PolicyDecision (decision_line (base_line t ctx (g_context g) args (g_call g) (g_classified g)) (g_decision g)) ∈ l).

Lemma gate_yields fr t args w : yields (gate fr t args) w (fun g _ l => decided (fr_ctx fr) t args g (turnKey (fr_ctx fr) ∈ tainted w) l) halted.
Proof.
  apply yields_look. intros n w' Ht.
  destruct (if t_classifies t then classify n t args else Some None) as [c|] eqn:Ec; [|apply yields_soft_stop; auto with dispatch].
  eapply yields_bind; [apply decide_call_yields|]. intros [d context] w'' l _ Hd. cbn [fst snd] in Hd.
  assert (Hgo : (forall r s, d <> DDeny r s) -> yields
    (recorded ← record PolicyDecision (decision_line (base_line t (fr_ctx fr) context args (buildCall t args c) c) d);
     if negb recorded then stop (fail fr (internal EDenied AuditUnavailable) MDeny None)
     else mret {| g_call := buildCall t args c; g_classified := c; g_decision := d; g_context := context; g_base := base_line t (fr_ctx fr) context args (buildCall t args c) c |})
    w'' (fun g _ l' => decided (fr_ctx fr) t args g (turnKey (fr_ctx fr) ∈ tainted w) (l ++ l')) halted).
  { intros Hn. destruct (Hd Hn) as [Hj Hk].
    eapply yields_bind; [apply (yields_record _ _ _ (fun b _ l => b = true -> audit <> None -> Audited PolicyDecision (decision_line (base_line t (fr_ctx fr) context args (buildCall t args c) c) d) ∈ l)); [done|]|].
    { intros Ha w1. split; [|done]. intros _ _. by apply list_elem_of_singleton. }
    intros b w1 l1 _ Hb. destruct b; cbn [negb]; [|apply yields_stop; auto with dispatch]. apply yields_ret. split_and!; cbn [g_call g_classified g_decision g_context]; try done.
    - destruct (t_classifies t); [by exists n|congruence].
    - intros Hin. apply Hk. set_solver.
    - intros Ha. rewrite app_nil_r. apply elem_of_app. right. auto. }
  destruct d as [v|request park why|reason rule]; [by apply Hgo|by apply Hgo|apply yields_soft_stop; auto with dispatch].
Qed.

(** A grant that was named is there; a single-use one has been spent, another one is noted as used. *)
Definition grant_used (id : string) (l : list Ev) : Prop :=
  exists n g, grant_get n id = Some (Some g) /\
    if bool_decide (g_scope g = Once)
    then (exists m, consumeOnce m id (g_person g) (g_agent g) (default "" (g_actionHash g)) = Some true) /\ ConsumedOnce id (g_person g) (g_agent g) (default "" (g_actionHash g)) ∈ l
    else grantUse = true -> MarkedUsed id ∈ l.

Lemma useGrant_yields id w R : yields (useGrant others grant_get grantUse markUsed consumeOnce id) w (fun b _ l => b = true -> grant_used id l) R.
Proof.
  apply yields_look. intros n w' _. destruct (grant_get n id) as [[g|]|] eqn:Eg; [|by apply yields_ret..].
  destruct (bool_decide (g_scope g = Once)) eqn:Es, grantUse eqn:Eu; cbn [negb]; try (apply yields_ret; intros; exists n, g; by rewrite Es).
  - apply yields_look. intros n' w1 _. destruct (consumeOnce n' id _ _ _) as [[]|] eqn:Ec; [|by apply yields_ret..].
    eapply yields_bind; [by apply (yields_emit _ _ (fun _ _ l => l = [ConsumedOnce id (g_person g) (g_agent g) (default "" (g_actionHash g))]))|].
    intros _ w2 l _ ->. apply yields_ret. intros _. exists n, g. rewrite Es. split; [done|]. split; [by exists n'|by apply list_elem_of_singleton].
  - apply yields_look. intros n' w1 _. destruct (markUsed n' id); [|by apply yields_ret].
    eapply yields_bind; [by apply (yields_emit _ _ (fun _ _ l => l = [MarkedUsed id]))|].
    intros _ w2 l _ ->. apply yields_ret. intros _. exists n, g. rewrite Es. split; [done|]. intros _. by apply list_elem_of_singleton.
  - apply yields_ret. intros _. exists n, g. rewrite Es. split; [done|congruence].
Qed.

(** A person was asked this very question and said yes, and what follows from it had begun. *)
Definition consented (a : ApprovalAsk) (l : list Ev) : Prop :=
  exists n answer, port n a = PortAnswers answer /\ jget "approved" answer = JBool true /\ Asked a ∈ l /\ (begin <> None -> Began answer a ∈ l).

Lemma js_is_true_eq v : js_is_true v = true -> v = JBool true. Proof. destruct v as [| |[]| | | |]; by intros ?. Qed.

Lemma ask_yields recurring a w R :
  yields (ask aborted others port recurring a) w
    (fun r _ l => match r with Approved answer => exists n, port n a = PortAnswers answer /\ jget "approved" answer = JBool true /\ Asked a ∈ l | _ => True end) R.
Proof.
  apply yields_look. intros n w' _. eapply yields_bind; [by apply (yields_emit _ _ (fun _ _ l => l = [Asked a]))|]. intros _ w1 l _ ->.
  destruct (port n a) as [| |v] eqn:Ep; [by apply yields_ret|apply yields_look; intros n' w2 _; destruct (aborted n'); by apply yields_ret|].
  apply yields_look. intros n' w2 _. destruct (aborted n'); [by apply yields_ret|]. apply yields_ret. destruct (js_is_true _) eqn:Et; [|done].
  exists n. split_and!; [done|by apply js_is_true_eq|set_solver].
Qed.

Lemma begin_yields answer a w R : yields (begin_approved others begin answer a) w (fun p _ l => p.1 = true -> begin <> None -> Began answer a ∈ l) R.
Proof.
  unfold begin_approved. destruct begin as [f|]; [|by apply yields_ret]. apply yields_look. intros n w' _. destruct (f n answer a) as [r|]; [|by apply yields_ret].
  destruct (js_is_true r); [|by apply yields_ret]. eapply yields_bind; [by apply (yields_emit _ _ (fun _ _ l => l = [Began answer a]))|].
  intros _ w1 l _ ->. apply yields_ret. intros _ _. set_solver.
Qed.

(** What an allowed or approved call rests on. *)
Definition cleared (fr : Frame) (t : RegisteredTool) (args : js) (g : Gate) (via : ToolDecisionMeta) (l : list Ev) : Prop :=
  match g_decision g with
  | DAsk request park _ => via = MApproved /\ consented (the_ask fr t args g request park) l
  | DAllow (ViaGrant id _) => via = MAllow /\ (id <> "" -> grant_used id l)
  | _ => via = MAllow
  end.

Lemma clear_yields fr t args g w : yields (clear fr t args g) w (fun via _ l => cleared fr t args g via l) halted.
Proof.
  unfold Dispatcher.clear, cleared. destruct (g_decision g) as [[| |id s]|request park why|]; try (by apply yields_ret).
  - destruct (is_empty id) eqn:Ei; [apply yields_ret; split; [done|]; intros Hn; by destruct id|].
    eapply yields_bind; [apply useGrant_yields|]. intros used w' l _ Hu. destruct used; [|apply yields_stop; auto with dispatch]. apply yields_ret. rewrite app_nil_r. auto.
  - eapply yields_bind; [apply ask_yields|]. intros r w' l _ Hr. destruct r as [| |parked rejected|answer]; try (apply yields_stop; auto with dispatch).
    destruct Hr as (n & Hp & Ha & Hl). eapply yields_bind; [apply begin_yields|]. intros [began failed] w1 l1 _ Hb. cbn [fst] in Hb.
    destruct began; [|apply yields_stop; auto with dispatch]. apply yields_ret. split; [done|]. exists n, answer. rewrite app_nil_r. split_and!; [done|done|set_solver|].
    intros Hn. apply elem_of_app. auto.
Qed.

Lemma launch_yields fr t g via w : yields (launch fr t g via) w (fun _ _ l => t_sandbox t <> None -> BypassRecorded (t_name t) ∈ l) halted.
Proof.
  apply yields_look. intros n w' _. destruct (aborted n); [apply yields_stop; auto with dispatch|]. destruct (t_sandbox t); [|by apply yields_ret].
  apply yields_look. intros n' w1 _. destruct (recordBypass n' t); [|apply yields_stop; auto with dispatch]. apply yields_emit; [done|]. intros _ _. set_solver.
Qed.

(** *** The answer *)

(** Codes of a call whose tool was never started. *)
Definition refusal (c : ToolErrorCode) : bool := match c with EUnknown | ECallInvalid | EDenied | ENotApproved => true | _ => false end.

(** A result is what the tool returned and masking let through, within the tool's limit, under the tool's own trust; one that is not trusted taints the turn. *)
Definition delivered (ctx : DispatchContext) (t : RegisteredTool) (g : Gate) (returned : js -> Prop) (r : ToolResult) (w' : World) : Prop :=
  match r_outcome r with
  | Ok v =>
      (exists n raw json masked, returned raw /\ result_text json_text raw = Some json /\ mask n json (parse_json json) = Some masked /\ v = (default (parse_json json, json) masked).1 /\
        r_bytes r = slen (default (parse_json json, json) masked).2) /\
      r_bytes r <= maxResultBytes (t_limits t) /\ r_name r = JStr (t_name t) /\ o_trust (r_provenance r) = t_trust t /\
      (taints t (g_classified g) (g_call g) = true -> turnKey ctx ∈ tainted w')
  | Err e => refusal (e_code e) = false
  end.

Lemma yields_modify {E} f w (Q : unit -> World -> list Ev -> Prop) (R : E -> Prop) : log (f w) = log w -> tainted w ⊆ tainted (f w) -> Q tt (f w) [] -> yields (modify f : SE World E unit) w Q R.
Proof. intros Hl Ht HQ. eapply yields_step; [done| |done]. by apply grows_same. Qed.

Lemma silent_settle {E} b : silent (settle b : SE World E unit).
Proof.
  intros w R. unfold yields, settle. destruct (settled w); [exists []; by split; [apply grows_same|]|]. exists [Settled b]. by split; [split_and!; [| |apply noexec_one]|].
Qed.

Lemma yields_accepted fr b r w : yields (accepted fr b r) w (fun r' _ _ => r' = r) (fun s => s = Thrown).
Proof.
  eapply yields_bind; [apply yields_outcome|]. intros r' w' l _ ->. apply (yields_bind _ _ _ (fun _ _ _ => True)); [|intros [] w1 l1 _ _; by apply yields_ret].
  destruct (x_settles (fr_ctx fr)); [|apply silent_settle]. apply yields_look. intros n w1 _. destruct (settler n); [by apply yields_modify|by apply yields_throw].
Qed.

Lemma finish_yields fr t g via ran w :
  yields (finish fr t g via ran) w (fun r w' _ => delivered (fr_ctx fr) t g (fun v => ran = RunOk v) r w' /\ ((exists e, r_outcome r = Err e) \/ exists v, ran = RunOk v)) (fun s => s = Thrown).
Proof.
  assert (Hout : forall e b w1 l1 (P : Prop), refusal (e_code e) = false ->
    yields (r ← fail fr e via (Some t); outcome b r) w1 (fun r w' l => (fun r w' (_ : list Ev) => delivered (fr_ctx fr) t g (fun v => ran = RunOk v) r w' /\ ((exists e, r_outcome r = Err e) \/ P)) r w' (l1 ++ l)) (fun s => s = Thrown)).
  { intros e b w1 l1 P He. eapply yields_weaken; [apply yields_out| |intros x Hx; exact Hx]. intros r w' l _ Hr. unfold delivered. rewrite Hr. split; [done|left; by exists e]. }
  unfold Dispatcher.finish. destruct ran as [v| | |source typed]; [|by apply (Hout _ _ _ [])|by apply (Hout _ _ _ [])|].
  - apply (yields_bind _ _ _ (fun _ w' _ => taints t (g_classified g) (g_call g) = true -> turnKey (fr_ctx fr) ∈ tainted w')).
    { destruct (taints _ _ _); [|by apply yields_ret]. apply yields_modify; [done|..]; cbn [tainted]; destruct (bool_decide _) eqn:Ek; set_solver by (try apply bool_decide_eq_true_1 in Ek; eauto). }
    intros [] w1 l1 _ Ht. destruct (result_text json_text v) as [json|] eqn:Ej; [|by apply Hout]. destruct (_ <? _); [by apply Hout|].
    apply yields_look. intros n w2 H2. destruct (mask n json (parse_json json)) as [masked|] eqn:Em; [|by apply Hout].
    destruct (default (parse_json json, json) masked) as [value json'] eqn:Ed. destruct (_ <? slen json') eqn:El; [by apply Hout|].
    eapply yields_bind; [apply silent_clock|]. intros z w3 l3 (_ & H3 & _) _. eapply yields_weaken; [apply yields_accepted| |done].
    intros r' w4 l4 (_ & H4 & _) ->. split; [|right; by exists v]. unfold delivered. cbn [r_outcome r_bytes r_name r_provenance provenance o_trust].
    split_and!; [|lia|done|done|intros Hk; apply H4, H3, H2, Ht, Hk]. exists n, v, json, masked. by rewrite Ed.
  - eapply yields_bind; [apply yields_fail|]. intros r w1 l1 _ Hr. eapply yields_weaken; [apply yields_accepted| |done]. intros r' w2 l2 _ ->. unfold delivered. rewrite Hr. split; [done|left; by eexists].
Qed.

(** *** The whole call *)

(** What had been established, and was in the log, when the tool was started. *)
Definition warranted (fr : Frame) (w : World) (t : RegisteredTool) (args : js) (g : Gate) (via : ToolDecisionMeta) (l : list Ev) : Prop :=
  resolved (fr_req fr) t args /\ decided (fr_ctx fr) t args g (turnKey (fr_ctx fr) ∈ tainted w) l /\ cleared fr t args g via l /\ (t_sandbox t <> None -> BypassRecorded (t_name t) ∈ l).

(** A call either starts nothing and holds no result, or starts one tool, once, with everything it needs before that. *)
Definition told (fr : Frame) (w : World) (o : option ToolResult) (w' : World) (l : list Ev) : Prop :=
  (noexec l /\ forall r, o = Some r -> exists e, r_outcome r = Err e) \/
  (exists t args g via pre post, l = pre ++ Executed (t_name t) args :: post /\ noexec pre /\ noexec post /\ warranted fr w t args g via pre /\
     forall r, o = Some r -> delivered (fr_ctx fr) t g (fun v => exists n, execute n t args = RunOk v) r w').

Definition reply (o : result Stop ToolResult) : option ToolResult := match o with Ok r | Err (Return r) => Some r | Err Thrown => None end.

(** From [w] the log grows, and [F] holds of how the step ended and of what was logged. *)
Definition ends {A} (m : M A) (w : World) (F : result Stop A -> World -> list Ev -> Prop) : Prop :=
  exists l, log (m w).2 = log w ++ l /\ tainted w ⊆ tainted (m w).2 /\ F (m w).1 (m w).2 l.

Lemma ends_yields {A} (m : M A) w Q R (F : result Stop A -> World -> list Ev -> Prop) :
  yields m w Q R -> (forall a w' l, noexec l -> Q a w' l -> F (Ok a) w' l) -> (forall s w' l, noexec l -> R s -> F (Err s) w' l) -> ends m w F.
Proof. unfold yields, ends. destruct (m w) as [[a|s] w']; intros (l & (Hl & Ht & Hn) & Hq) Ho He; exists l; cbn [fst snd]; auto. Qed.

Lemma call_ends_bind {A B} (m : M A) (k : A -> M B) w Q R F :
  yields m w Q R -> (forall s w' l, noexec l -> R s -> F (Err s) w' l) -> (forall a w' l, grows w w' l -> Q a w' l -> ends (k a) w' (fun o w'' l' => F o w'' (l ++ l'))) -> ends (m ≫= k) w F.
Proof.
  unfold yields, ends, mbind, SE_bind. destruct (m w) as [[a|s] w1]; intros (l & Hg & Hq) He Hk.
  - destruct (Hk a w1 l Hg Hq) as (l' & Hl' & Ht' & HF). destruct Hg as (Hl & Ht & Hn). exists (l ++ l'). split_and!; [by rewrite Hl', Hl, app_assoc|set_solver|done].
  - destruct Hg as (Hl & Ht & Hn). exists l. cbn [fst snd]. auto.
Qed.

Lemma told_halted fr w s w' l : noexec l -> halted s -> told fr w (reply (Err s)) w' l.
Proof. intros Hn Hs. left. split; [done|]. intros r Hr. destruct s; cbn in Hr; [|done]. by injection Hr as ->. Qed.

(** The tool's own last check refuses, or the tool is started. *)
Lemma run_cases t args w : exists ran w1, run t args w = (Ok ran, w1) /\ tainted w ⊆ tainted w1 /\
  ((log w1 = log w /\ forall v, ran <> RunOk v) \/ (log w1 = log w ++ [Executed (t_name t) args] /\ exists n, ran = execute n t args)).
Proof.
  unfold Dispatcher.run, Dispatcher.tick, mbind, SE_bind. cbv beta iota zeta. destruct (if t_before t then _ else _) as [[source typed]|].
  - eexists _, _. split; [reflexivity|]. cbn [log tainted moment]. split; [set_solver|left]. split; [done|]. by destruct (aborted _).
  - eexists _, _. split; [reflexivity|]. cbn [log tainted]. split; [set_solver|right]. split; [done|by eexists].
Qed.

Lemma delivered_weaken ctx t g (P P' : js -> Prop) r w' : delivered ctx t g P r w' -> (forall v, P v -> P' v) -> delivered ctx t g P' r w'.
Proof. unfold delivered. destruct (r_outcome r); [|done]. intros ((n & raw & json & masked & H & H') & Hr) HP. split; [|done]. exists n, raw, json, masked. auto. Qed.

(** The start, and what comes of it. *)
Lemma run_ends fr w0 t args g via pre w : noexec pre -> warranted fr w0 t args g via pre ->
  ends (ran ← run t args; finish fr t g via ran) w (fun o w' l => told fr w0 (reply o) w' (pre ++ l)).
Proof.
  intros Hn Hw. destruct (run_cases t args w) as (ran & w1 & Hr & Ht & Hl). pose proof (finish_yields fr t g via ran w1) as Hf.
  unfold ends, mbind, SE_bind. rewrite Hr. unfold yields in Hf.
  destruct (finish fr t g via ran w1) as [[r|s] w2]; destruct Hf as (l & (Hl2 & Ht2 & Hn2) & Hq); cbn [fst snd].
  all: destruct Hl as [[Hl Hran]|[Hl [k Hk]]]; [exists l; split_and!; [by rewrite Hl2, Hl|set_solver|]|exists (Executed (t_name t) args :: l); split_and!; [by rewrite Hl2, Hl, <- app_assoc|set_solver|]].
  1, 3: left; split; [by apply noexec_app|]. 1, 2: intros r' Hr'.
  - injection Hr' as <-. destruct Hq as [_ [?|[v Hv]]]; [done|by destruct (Hran v)].
  - by subst s.
  - right. exists t, args, g, via, pre, l. split_and!; try done. intros r' [= <-]. eapply delivered_weaken; [apply Hq|]. intros v Hv. cbv beta in Hv. exists k. by rewrite <- Hk.
  - right. exists t, args, g, via, pre, l. split_and!; try done. by subst s.
Qed.

Lemma ends_weaken {A} (m : M A) w (F F' : result Stop A -> World -> list Ev -> Prop) : ends m w F -> (forall o w' l, F o w' l -> F' o w' l) -> ends m w F'.
Proof. intros (l & Hl & Ht & HF) Hw. exists l. auto. Qed.

Lemma decided_weaken ctx t args g (P P' : Prop) l l' : decided ctx t args g P l -> (P' -> P) -> l ⊆ l' -> decided ctx t args g P' l'.
Proof. intros (H1 & H2 & H3 & H4 & H5 & H6) HP Hl. split_and!; auto. Qed.

Lemma cleared_weaken fr t args g via l l' : cleared fr t args g via l -> l ⊆ l' -> cleared fr t args g via l'.
Proof.
  unfold cleared. intros H Hl. destruct (g_decision g) as [[| |id s]|request park why|]; try done.
  - destruct H as [Hv Hu]. split; [done|]. intros Hi. destruct (Hu Hi) as (n & g' & Hg & Hu'). exists n, g'. split; [done|]. destruct (bool_decide _); [destruct Hu' as [? ?]|]; auto.
  - destruct H as (Hv & n & answer & H1 & H2 & H3 & H4). split; [done|]. exists n, answer. split_and!; auto.
Qed.

Lemma body_ends fr w : ends (body fr) w (fun o w' l => told fr w (reply o) w' l).
Proof.
  unfold Dispatcher.body. eapply call_ends_bind; [apply prepare_yields|by auto using told_halted|]. intros [t args] w1 l1 (_ & H1 & N1) Hr. cbn [fst snd] in Hr.
  eapply call_ends_bind; [apply gate_yields|intros; apply told_halted; [by apply noexec_app|done]|]. intros g w2 l2 (_ & _ & N2) Hg.
  eapply call_ends_bind; [apply clear_yields|intros; apply told_halted; [by rewrite !noexec_app|done]|]. intros via w3 l3 (_ & _ & N3) Hc.
  eapply call_ends_bind; [apply launch_yields|intros; apply told_halted; [by rewrite !noexec_app|done]|]. intros _ w4 l4 (_ & _ & N4) Hb.
  eapply ends_weaken; [apply (run_ends fr w t args g via (l1 ++ l2 ++ l3 ++ l4)); [by rewrite !noexec_app|]|intros o w' l Ho; cbv beta in Ho; rewrite <- !app_assoc in Ho; exact Ho].
  split_and!; [done|eapply decided_weaken; [done|set_solver..]|eapply cleared_weaken; [done|set_solver]|intros Hs; specialize (Hb Hs); set_solver].
Qed.

Definition the_frame (req : ToolCallRequest) (ctx : DispatchContext) (w : World) : Frame := {| fr_started := now (moment w); fr_req := req; fr_ctx := ctx |}.

Lemma noexec_settled b w : exists l, log (@settle Empty_set b w).2 = log w ++ l /\ noexec l /\ tainted (@settle Empty_set b w).2 = tainted w.
Proof.
  unfold settle. destruct (settled w); [exists []; cbn; rewrite app_nil_r; split_and!; [done|apply noexec_nil|done]|].
  exists [Settled b]. split_and!; [done|by apply noexec_one|done].
Qed.

(** What happens to the delivery afterwards starts nothing. *)
Lemma told_app fr w o w' w'' l l' : told fr w o w' l -> noexec l' -> tainted w' ⊆ tainted w'' -> told fr w o w'' (l ++ l').
Proof.
  intros [[Hn Ho]|(t & args & g & via & pre & post & -> & Hp & Hq & Hw & Ho)] Hl Ht.
  - left. split; [by apply noexec_app|done].
  - right. exists t, args, g, via, pre, (post ++ l'). split_and!; [by rewrite <- app_assoc|done|by apply noexec_app|done|].
    intros r Hr. specialize (Ho r Hr). unfold delivered in *. destruct (r_outcome r); [|done]. destruct Ho as (H1 & H2 & H3 & H4 & H5). split_and!; auto.
Qed.

(** The world the call's body starts in: a moment on, with no delivery settled yet. *)
Definition entered (w : World) : World :=
  {| moment := S (moment w); log := log w; tainted := tainted w ++ others (moment w); settled := None; handedOff := false |}.

Lemma call_told req ctx w : exists r w' l, call req ctx w = (Ok r, w') /\ log w' = log w ++ l /\ tainted w ⊆ tainted w' /\ told (the_frame req ctx w) (entered w) (Some r) w' l.
Proof.
  destruct (body_ends (the_frame req ctx w) (entered w)) as (l & Hl & Ht & HF). assert (H0 : tainted w ⊆ tainted (entered w)) by (cbn; set_solver).
  assert (Hend : forall r w1 l1, log w1 = log w ++ l1 -> tainted w ⊆ tainted w1 -> told (the_frame req ctx w) (entered w) (Some r) w1 l1 ->
    exists r' w' l', ((handed ← gets handedOff; (if (handed : bool) then mret tt else settle false) ;; mret r) : SE World Empty_set ToolResult) w1 = (Ok r', w') /\
      log w' = log w ++ l' /\ tainted w ⊆ tainted w' /\ told (the_frame req ctx w) (entered w) (Some r') w' l').
  { intros r w1 l1 H1 H2 H3. destruct (noexec_settled false w1) as (l2 & H4 & H5 & H6).
    unfold gets, mbind, SE_bind. cbv beta iota zeta. destruct (handedOff w1); [by exists r, w1, l1|].
    destruct (settle false w1) as [[u|[]] w2] eqn:Es; cbn [snd] in *. exists r, w2, (l1 ++ l2). split_and!; [done|by rewrite H4, H1, app_assoc|by rewrite H6|].
    apply told_app with w1; [done|done|by rewrite H6]. }
  set (leave := fun r : ToolResult => (handed ← gets handedOff; (if (handed : bool) then mret tt else settle false) ;; mret r) : SE World Empty_set ToolResult) in *.
  set (h := fun s => match s with Return r => mret r | Thrown => fail (the_frame req ctx w) (internal EFailed InternalError) MNone None end : SE World Empty_set ToolResult).
  assert (Hc : call req ctx w = (catch (body (the_frame req ctx w)) h ≫= leave) (entered w)) by reflexivity. rewrite Hc. clear Hc.
  unfold mbind, SE_bind, catch. destruct (body (the_frame req ctx w) (entered w)) as [[r|[r|]] w1]; cbn [fst snd reply] in *.
  1, 2: apply (Hend r w1 l); [done|set_solver|done].
  pose proof (yields_fail (the_frame req ctx w) (internal EFailed InternalError) MNone None w1 (fun _ : Empty_set => True)) as Hf. unfold h. unfold yields in Hf.
  destruct (fail (the_frame req ctx w) _ _ _ w1) as [[r|[]] w2]. destruct Hf as (l1 & (H1 & H2 & H3) & H4). apply (Hend r w2 (l ++ l1)).
  - by rewrite H1, Hl, app_assoc.
  - set_solver.
  - destruct HF as [[Hn _]|(t & args & g & via & pre & post & -> & Hp & Hq & Hw & _)]; [left|right].
    + split; [by apply noexec_app|]. intros r' [= <-]. by eexists.
    + exists t, args, g, via, pre, (post ++ l1). split_and!; [by rewrite <- app_assoc|done|by apply noexec_app|done|]. intros r' [= <-]. unfold delivered. by rewrite H4.
Qed.

(** *** What the log of a call shows *)

(** (C1) Whatever happens around it, and whatever goes wrong, a call ends with an
    envelope, starts a tool at most once, and starts it only with all of this before
    it: the tool is the registered one that was named, the channel's profile permits it
    and its arguments pass the schema; the policy, asked about this call with these
    arguments in the context of that moment (tainted when the turn is), did not deny
    it, and its decision is in the audit trail; an [ask] was put to a person, who said
    yes to this very question and whose follow-up began; an allow by grant used the
    grant up; and running outside a sandbox was recorded. *)
Theorem tool_runs_only_cleared (req : ToolCallRequest) (ctx : DispatchContext) (w : World) :
  exists r w' l, call req ctx w = (Ok r, w') /\ log w' = log w ++ l /\
    (noexec l \/ exists t args g via pre post, l = pre ++ Executed (t_name t) args :: post /\ noexec pre /\ noexec post /\
                   warranted (the_frame req ctx w) (entered w) t args g via pre).
Proof.
  destruct (call_told req ctx w) as (r & w' & l & Hc & Hl & _ & [[Hn _]|(t & args & g & via & pre & post & He & Hp & Hq & Hw & _)]); exists r, w', l; (split; [done|]); (split; [done|]).
  - by left.
  - right. by exists t, args, g, via, pre, post.
Qed.

(** (C3) What a call answers is what happened: a result is the value the tool that this
    call started gave for the very arguments it was started with, as JSON carries it
    and masking leaves it, counted in bytes, within the tool's own limit and under the
    tool's own trust, and when the tool is untrusted or foreign the turn is tainted
    from then on; an answer with a refusing code started nothing. No call lifts a
    taint. *)
Theorem answer_is_what_happened (req : ToolCallRequest) (ctx : DispatchContext) (w : World) :
  exists r w' l, call req ctx w = (Ok r, w') /\ log w' = log w ++ l /\ tainted w ⊆ tainted w' /\
    match r_outcome r with
    | Ok v => exists name t args, q_name req = JStr name /\ get tools name = Some t /\ Executed (t_name t) args ∈ l /\
        r_name r = JStr (t_name t) /\ o_trust (r_provenance r) = t_trust t /\ r_bytes r <= maxResultBytes (t_limits t) /\
        (exists k n raw json masked, execute k t args = RunOk raw /\ result_text json_text raw = Some json /\ mask n json (parse_json json) = Some masked /\
          v = (default (parse_json json, json) masked).1 /\ r_bytes r = slen (default (parse_json json, json) masked).2) /\
        (t_trust t = Untrusted \/ foreign_name (t_name t) = true -> turnKey ctx ∈ tainted w')
    | Err e => refusal (e_code e) = true -> noexec l
    end.
Proof.
  destruct (call_told req ctx w) as (r & w' & l & Hc & Hl & Ht & H); exists r, w', l; do 3 (split; [done|]).
  destruct H as [[Hn Ho]|(t & args & g & via & pre & post & -> & Hp & Hq & (((name & H1 & H2) & _) & _) & Hd)].
  { destruct (Ho r eq_refl) as [e He]. by rewrite He. }
  specialize (Hd r eq_refl). unfold delivered in Hd. destruct (r_outcome r) as [v|e]; [|intros He; by rewrite Hd in He].
  destruct Hd as ((n & raw & json & masked & [k Hraw] & Hj & Hm & Hv & Hbytes) & Hb & Hr & Hto & Hk). exists name, t, args. split_and!; try done; [set_solver|by exists k, n, raw, json, masked|].
  intros Hu. apply Hk. unfold taints. destruct Hu as [Hu|Hu]; rewrite Hu; [by rewrite bool_decide_true|by rewrite orb_true_r].
Qed.

(** *** A turn that has read what others wrote *)

Lemma buildCall_reads t args c :
  jget "capability" (buildCall t args c) = JStr (t_capability t) /\ jget "effect" (buildCall t args c) = JStr (effect_text (t_effect t)) /\
  jget "actionHash" (buildCall t args c) = JStr (action_hash stringify sha256 t args c).
Proof. unfold Dispatcher.buildCall. split_and!; [reflexivity..|]. destruct (match c with Some c => k_targets c | None => None end), (match c with Some c => js_of (k_access c) | None => None end); reflexivity. Qed.

(** The effect the policy gives a call of [t]: its declared one, or the capability's own when that is worse. *)
Definition judged_effect (d : CapabilityDef) (t : RegisteredTool) : Effect := call_effect d (JStr (effect_text (t_effect t))).

Lemma headlessGate_allow dec b v : headlessGate dec b = DAllow v -> dec = DAllow v.
Proof. destruct dec; cbn; try done. by destruct (_ || _). Qed.

(** In a tainted turn an external call is allowed by a single-use grant of this very action only. *)
Lemma tainted_allow call context d deps0 via :
  decide call context deps0 = DAllow via -> jget "taint" context = full_taint -> CAPABILITIES_get (call_capability (jget "capability" call)) = Some d ->
  (let e := call_effect d (jget "effect" call) in e = EExternal \/ e = ENetworkA2a) ->
  exists gr rd x, via = ViaGrant (g_id gr) rd /\ g_id gr <> "" /\ gr ∈ candidateGrants x deps0 (cap_id d) /\ g_scope gr = Once /\ g_actionHash gr = Some (js_str (jget "actionHash" call)).
Proof.
  intros Hd Ht Hc He. destruct (decide_cases call context deps0) as [(r & s & E)|(d' & G & E)]; rewrite E in Hd; [done|].
  assert (d' = d) as -> by (apply gp_cap in G; change (capability (read_call call)) with (jget "capability" call) in G; congruence).
  cbv zeta in He.
  assert (Hts : taint_suspends d (read_ctx context) (call_effect d (c_effect (read_call call))) = true).
  { unfold taint_suspends, is_tainted. change (PolicyDecide.taint (read_ctx context)) with (jget "taint" context). rewrite Ht.
    change (c_effect (read_call call)) with (jget "effect" call). destruct He as [-> | ->]; cbn; by rewrite ?orb_true_r. }
  destruct via as [| |id rd].
  1, 2: exfalso; destruct (standing_facts _ _ _ _ _ Hd) as (Hx & _); [done|]; cbn [read_call c_effect] in Hx; destruct Hx, He; congruence.
  destruct (evaluate_class_grant _ _ _ _ _ _ Hd) as (gr & <- & _ & Hv & S). pose proof (gs_taint _ _ _ _ _ S Hts) as Hs. exists gr, rd, (read_ctx context). split_and!; [done| |exact (gs_candidate _ _ _ _ _ S)|done|].
  - intros Hi. unfold validGrant in Hv. by rewrite Hi in Hv.
  - exact (proj2 (gs_once _ _ _ _ _ S Hs)).
Qed.

(** The dispatcher looks a grant up where the evaluator got it from: what a grant is for never changes, so the two agree on it. *)
Definition one_store : Prop := forall n id g, grant_get n id = Some (Some g) ->
  forall m ds x cap g', deps m = Some ds -> g' ∈ candidateGrants x ds cap -> g_id g' = id ->
    g_scope g = g_scope g' /\ g_person g = g_person g' /\ g_agent g = g_agent g' /\ g_actionHash g = g_actionHash g'.

(** A single-use grant of the store for exactly this call of this tool, as its classification describes it, and that the store has just consumed. *)
Definition spent_for (t : RegisteredTool) (args : js) (l : list Ev) : Prop :=
  exists n id gr c, grant_get n id = Some (Some gr) /\ g_scope gr = Once /\
    (if t_classifies t then exists k, classify k t args = Some c else c = None) /\
    let h := action_hash stringify sha256 t args c in
    g_actionHash gr = Some h /\ (exists m, consumeOnce m id (g_person gr) (g_agent gr) h = Some true) /\ ConsumedOnce id (g_person gr) (g_agent gr) h ∈ l.

(** (C2) Once a turn has read what others wrote, what a model was told there cannot
    act on the outside by itself: where the dispatcher and the evaluator read the same
    grants, in a tainted turn a tool whose call counts as external, or as a message to
    another agent, starts only after a person was asked about this very call and said
    yes, or on a single-use grant that was made for exactly this action (capability,
    tool, arguments and the targets its classification names) and that the store had
    consumed just before. *)
Theorem tainted_turn_asks (req : ToolCallRequest) (ctx : DispatchContext) (w : World) (d : CapabilityDef) :
  one_store -> turnKey ctx ∈ tainted w ->
  exists r w' l, call req ctx w = (Ok r, w') /\ log w' = log w ++ l /\
    forall t args, Executed (t_name t) args ∈ l -> (exists name, q_name req = JStr name /\ get tools name = Some t) ->
      CAPABILITIES_get (call_capability (JStr (t_capability t))) = Some d -> judged_effect d t = EExternal \/ judged_effect d t = ENetworkA2a ->
      exists pre post, l = pre ++ Executed (t_name t) args :: post /\
        ((exists a, a_tool a = t_name t /\ a_args a = args /\ consented a pre) \/ spent_for t args pre).
Proof.
  intros Hone Hk. destruct (call_told req ctx w) as (r & w' & l & Hc & Hl & _ & H). exists r, w', l. do 2 (split; [done|]). intros t args Hx (name & Hq & Hg) Hd He.
  destruct H as [[Hn _]|(t' & args' & g & via & pre & post & -> & Hp & Hq' & (((name' & H1 & H2) & _) & Hdec & Hcl & _) & _)]; [by destruct (Hn _ _ Hx)|].
  unfold the_frame in H1; cbn [fr_req] in H1. assert (t' = t) as -> by congruence.
  assert (args' = args) as ->. { apply elem_of_app in Hx as [Hx|Hx]; [by destruct (Hp _ _ Hx)|]. apply elem_of_cons in Hx as [[= ->]|Hx]; [done|by destruct (Hq' _ _ Hx)]. }
  exists pre, post. split; [done|]. destruct Hdec as (Hcls & Hcall & (n & ds & Hds & Hj) & Htaint & Hnd & _). destruct (buildCall_reads t args (g_classified g)) as (R1 & R2 & R3).
  assert (Hft : jget "taint" (g_context g) = full_taint) by (apply Htaint; cbn; set_solver).
  unfold cleared in Hcl. destruct (g_decision g) as [v|request park why|reason rule] eqn:Eg; [|left|].
  - right. symmetry in Hj. apply headlessGate_allow in Hj.
    destruct (tainted_allow _ _ d _ _ Hj Hft) as (gr & rd & x & -> & Hi & Hin & Hs & Hh); [by rewrite Hcall, R1|by rewrite Hcall, R2|].
    destruct Hcl as [_ Hu]. destruct (Hu Hi) as (n' & gr' & Hget & Hused). destruct (Hone _ _ _ Hget _ _ _ _ _ Hds Hin eq_refl) as (E1 & E2 & E3 & E4).
    rewrite Hcall, R3 in Hh. cbn [js_str] in Hh. rewrite bool_decide_true in Hused by congruence. rewrite E4, Hh in Hused. cbn [default] in Hused.
    exists n', (g_id gr), gr', (g_classified g). cbv zeta. rewrite E4, Hh. split_and!; [done|congruence|done|done|apply Hused..].
  - destruct Hcl as [_ Hco]. by exists (the_ask (the_frame req ctx w) t args g request park).
  - by destruct (Hnd reason rule).
Qed.
End dispatcher.

(** ** An example: a page is read, then something is sent *)

Module Example.
Definition tool (name cap : string) (e : Effect) (trust : ToolTrust) : RegisteredTool :=
  {| t_name := name; t_description := "d"; t_inputSchema := JObj [("type", JStr "object")]; t_capability := cap; t_effect := e; t_risk := Low; t_trust := trust;
     t_limits := {| timeoutMs := 1000; maxResultBytes := 1000 |}; t_sandbox := None; t_classifies := false; t_before := false |}.
Definition page := tool "web.fetch" "net.fetch" ERead Untrusted.
Definition form := tool "web.submit" "net.submit" EExternal FirstParty.
Definition person : DispatchContext :=
  {| x_agentId := "a1"; x_recurring := None; x_principal := "p1"; x_sessionId := Some "s1"; x_taskId := None; x_turnId := Some "t1"; x_surface := 3; x_settles := false |}.
Definition ask_for (name : string) : ToolCallRequest := {| q_id := "c1"; q_name := JStr name; q_args := JObj []; q_reason := JUndef; q_diff := JUndef; q_peerTrust := JUndef |}.
Definition start : World := {| moment := 0; log := []; tainted := []; settled := None; handedOff := false |}.
(** A person who does not answer, an audit trail that takes every line, roots every target lies in, and one grant: for submitting this very form, once. *)
Definition grant : Grant :=
  {| g_id := "g1"; g_capability := "net.submit"; g_person := "p1"; g_agent := "a1"; g_scope := Once; g_match := MAction;
     createdAt := Fin 1000; lastUsedAt := None; expiresAt := None; revoked := JUndef; consumedAt := None; g_actionHash := Some (action_hash js_str (fun s => s) form (JObj []) None);
     g_taskId := None; g_sessionId := None; g_projectId := None; g_jobId := None; delegable := JUndef; g_surface := 3; acknowledgedUnsandboxed := JUndef |}.
#[local] Notation here f :=
  (f [page; form] None (fun _ _ => Some true) js_str (fun s => s) (fun v => Some (Some (js_str v))) JStr (fun _ _ _ => Some None) (fun n => Z.of_nat n) (fun _ => false) (fun _ => [])
    (fun _ => true) None (fun _ _ _ => Some None) (fun _ _ => Some JUndef) (fun _ => Some (ex_deps [grant])) (Some (fun _ _ _ => true))
    (fun _ _ => PortThrows) None (fun _ id => Some (if String.eqb id "g1" then Some grant else None)) true (fun _ _ => false) (fun _ _ _ _ _ => Some true) (fun _ _ => false) (fun _ _ => None)
    (fun _ _ _ => RunOk (JStr "hello"))).
Definition the_call : ToolCallRequest -> DispatchContext -> World -> result Empty_set ToolResult * World := here call.
Definition after_page : World := (the_call (ask_for "web.fetch") person start).2.
Definition after_form : World := (the_call (ask_for "web.submit") person after_page).2.

Lemma tainted_turn_asks_witness :
  turnKey person ∈ tainted after_page /\
  exists pre post h, drop (length (log after_page)) (log after_form) = pre ++ Executed "web.submit" (JObj []) :: post /\ g_actionHash grant = Some h /\ ConsumedOnce "g1" "p1" "a1" h ∈ pre.
Proof.
  destruct (CAPABILITIES_get "net.submit") as [d|] eqn:Hd; [|vm_compute in Hd; discriminate].
  assert (Hk : turnKey person ∈ tainted after_page) by (apply (list_elem_of_lookup_2 _ 0); vm_compute; reflexivity). split; [exact Hk|].
  destruct (here tainted_turn_asks (ask_for "web.submit") person after_page d) as (r & w' & l & Hc & Hl & H); [|exact Hk|].
  { intros n id g Hg m ds x cap g' Hds Hg' <-. assert (g = grant) as -> by (destruct (String.eqb (g_id g') "g1"); congruence).
    injection Hds as <-. unfold candidateGrants in Hg'. apply elem_of_app in Hg' as [Hg'|Hg'].
    - apply list_elem_of_singleton in Hg' as ->. split_and!; reflexivity.
    - assert (E : omap (grants_get (ex_deps [grant])) (match handoff x with Some h => approvalsHeld h | None => [] end) = []) by (induction (match handoff x with Some h => approvalsHeld h | None => [] end) as [|y ys IH]; [reflexivity|exact IH]).
      destruct (handoff x) as [h|]; [|by apply elem_of_nil in Hg']. rewrite E in Hg'. destruct (bool_decide _); by apply elem_of_nil in Hg'. }
  assert (Hw : w' = after_form) by (unfold after_form, the_call; rewrite Hc; reflexivity). subst w'.
  assert (El : l = drop (length (log after_page)) (log after_form)) by (rewrite Hl, drop_app_length; reflexivity). rewrite <- El.
  destruct (H form (JObj [])) as (pre & post & Hp & [(a & _ & _ & n & answer & Hport & _)|(n & id & gr & c & Hg & _ & Hcl & Hh & _ & Hin)]).
  - rewrite El. apply (list_elem_of_lookup_2 _ 2). vm_compute. reflexivity.
  - exists "web.submit". split; vm_compute; reflexivity.
  - vm_compute in Hd |- *. exact Hd.
  - left. vm_compute in Hd. injection Hd as <-. vm_compute. reflexivity.
  - discriminate Hport.
  - destruct (String.eqb id "g1") eqn:Ei; [|discriminate Hg]. apply String.eqb_eq in Ei. injection Hg as <-. subst id.
    exists pre, post. eexists. split; [exact Hp|split; [exact Hh|exact Hin]].
Defined.
End Example.
