(* ===== verification/TurnLoop.v ===== *)
(** * The turn loop

    Model of [packages/core/src/session/turn-loop.ts] with the command parser of
    [session/rewind.ts]: a person's message and a running turn are written at once, then
    the turn recalls, asks a provider, writes down what it streams and what its tool calls
    answered, and ends completed or failed. It works over the session store's own calls.
    Everything it waits for is arbitrary at every moment: the provider's stream and
    callbacks, the dispatcher, memory, compaction, checkpoints, the rewind service, the
    cancel switch and the other signals, and what other code does to the store meanwhile.
    The message sent to the provider, traces and log lines are not modelled; nor is the
    job that prepares a summary in the background, only that it is asked for. *)

From S2P Require Import Prelude Session Compaction.
From Stdlib Require Import Ascii.
#[local] Open Scope Z_scope.

(** ** Commands in a message *)

(* @src session/rewind.ts 231 231 RewindCommand *)
Inductive RewindCommand : Type := Undo (id : string) | RewindTo (toSeq : option Z) (lesson : option string) (files : bool).

Definition bad_command : SessionError := Refused Invalid "rewind-command".

(** [None]: an escape or a quote is left open. *)
(* @src session/rewind.ts 233 260 words *)
Fixpoint words (l token : list ascii) (quote : option ascii) (started : bool) (found : list string) : option (list string) :=
  match l with
  | [] => if quote then None else Some (if started then found ++ [of_chars token] else found)
  | c :: r =>
      if Ascii.eqb c "\" && negb (bool_decide (quote = Some "'"%char)) then
        match r with [] => None | d :: r => words r (token ++ [d]) quote true found end
      else match quote with
      | Some q => if Ascii.eqb c q then words r token None started found else words r (token ++ [c]) quote started found
      | None =>
          if Ascii.eqb c "'" || Nat.eqb (Ascii.nat_of_ascii c) 34 then words r token (Some c) true found
          else if is_space c then words r [] None false (if started then found ++ [of_chars token] else found)
          else words r (token ++ [c]) None true found
      end
  end.

Definition is_digit_char (c : ascii) : bool := Nat.leb 48 (Ascii.nat_of_ascii c) && Nat.leb (Ascii.nat_of_ascii c) 57.
Definition id_char (c : ascii) : bool :=
  let n := Ascii.nat_of_ascii c in is_digit_char c || (Nat.leb 65 n && Nat.leb n 90) || (Nat.leb 97 n && Nat.leb n 122) || Ascii.eqb c "_" || Ascii.eqb c "-".
Definition rewind_id (s : string) : bool := (1 <=? slen s) && (slen s <=? 128) && forallb id_char (chars s).
Definition all_digits (s : string) : bool := negb (is_empty s) && forallb is_digit_char (chars s).
Definition decimal (s : string) : Z := fold_left (fun v c => v * 10 + (Z.of_nat (Ascii.nat_of_ascii c) - 48)) (chars s) 0.

(* @src session/rewind.ts 10 12 BODY_CHARS *)
Definition BODY_CHARS : Z := 400 * 4 - slen "Lesson from a discarded attempt: ".

(* @src session/rewind.ts 279 286 parseRewindCommand *)
Fixpoint rewind_flags (args : list string) (toSeq : option Z) (lesson : option string) (files : bool) : result SessionError RewindCommand :=
  match args with
  | [] => Ok (RewindTo toSeq lesson files)
  | flag :: r =>
      if String.eqb flag "--files" && negb files then rewind_flags r toSeq lesson true
      else match r with
      | text :: r =>
          if String.eqb flag "--lesson" && bool_decide (lesson = None) then
            if is_empty (trim text) || (BODY_CHARS <? slen text) then Err bad_command else rewind_flags r toSeq (Some text) files
          else Err bad_command
      | [] => Err bad_command
      end
  end.

(* @src session/rewind.ts 263 263 isRewindCommand *)
Definition isRewindCommand (text : string) : bool :=
  starts_with "/rewind" (trim text) && match String.get 7 (trim text) with None => true | Some c => is_space c end.

(* @src session/rewind.ts 265 288 parseRewindCommand *)
Definition parseRewindCommand (text : string) : result SessionError (option RewindCommand) :=
  if negb (isRewindCommand text) then Ok None
  else match words (chars (trim text)) [] None false [] with
  | None => Err bad_command
  | Some all =>
      match tail all with
      | "--undo" :: rest => match rest with [id] => if rewind_id id then Ok (Some (Undo id)) else Err bad_command | _ => Err bad_command end
      | target :: rest =>
          if String.eqb target "last" then let* c := rewind_flags rest None None false in Ok (Some c)
          else if all_digits target then
            if decimal target <=? MAX_SAFE_INTEGER then let* c := rewind_flags rest (Some (decimal target)) None false in Ok (Some c) else Err bad_command
          else let* c := rewind_flags (target :: rest) None None false in Ok (Some c)
      | [] => Ok (Some (RewindTo None None false))
      end
  end.

(** ** Data *)

(** An exception: its code, its kind, its message. *)
Record Exc : Type := { x_code : option string; x_kind : option string; x_message : string }.

(* @src session/types.ts 115 115 SessionErrorCode *)
Definition code_text (c : SessionErrorCode) : string :=
  match c with Invalid => "invalid" | NotFound => "not-found" | Conflict => "conflict" | Immutable => "immutable" | Storage => "storage" end.
Definition session_exc (e : SessionError) : Exc := match e with Refused c r => {| x_code := Some (code_text c); x_kind := None; x_message := r |} end.

(** [new NoProviderError()] *)
(* @src session/turn-loop.ts 49 51 NoProviderError *)
Definition NoProvider : SessionError := Refused Conflict "no-provider".

(** The counters the loop itself moves, and the fields only a provider fills in. *)
(* @src session/turn-telemetry.ts 23 34 TurnTelemetry *)
Record TurnTelemetry : Type := { te_rounds : Z; te_toolCalls : Z; te_search : Z; te_skillLoad : Z; te_skillRead : Z; te_rest : list (string * js); te_endReason : string }.

(* @src session/turn-telemetry.ts 37 49 createTurnTelemetry *)
Definition createTurnTelemetry : TurnTelemetry :=
  {| te_rounds := 0; te_toolCalls := 0; te_search := 0; te_skillLoad := 0; te_skillRead := 0;
     te_rest := [("skills", JObj [("injected", JNum (Fin 0)); ("loaded", JNum (Fin 0))]); ("toolChoice", JObj [("status", JStr "auto"); ("forced", JBool false)]);
                 ("toolNeed", JObj [("detected", JBool false); ("reasons", JArr [])]); ("errorsReturned", JNum (Fin 0)); ("triageDurationMs", JNull)];
     te_endReason := "completed" |}.

Definition telemetry_js (t : TurnTelemetry) : js :=
  JObj ([("rounds", JNum (Fin (te_rounds t))); ("toolCalls", JNum (Fin (te_toolCalls t)));
         ("metaCalls", JObj [("search", JNum (Fin (te_search t))); ("skillLoad", JNum (Fin (te_skillLoad t))); ("skillRead", JNum (Fin (te_skillRead t)))])]
        ++ te_rest t ++ [("endReason", JStr (te_endReason t))]).

Definition with_rounds (n : Z) (t : TurnTelemetry) : TurnTelemetry :=
  {| te_rounds := n; te_toolCalls := te_toolCalls t; te_search := te_search t; te_skillLoad := te_skillLoad t; te_skillRead := te_skillRead t; te_rest := te_rest t; te_endReason := te_endReason t |}.
Definition with_endReason (s : string) (t : TurnTelemetry) : TurnTelemetry :=
  {| te_rounds := te_rounds t; te_toolCalls := te_toolCalls t; te_search := te_search t; te_skillLoad := te_skillLoad t; te_skillRead := te_skillRead t; te_rest := te_rest t; te_endReason := s |}.

(** One more call of [name]; the three calls about skills have counters of their own. *)
(* @src session/turn-loop.ts 223 226 #run *)
Definition count_call (name : string) (t : TurnTelemetry) : TurnTelemetry :=
  let b (s : string) := if String.eqb name s then 1 else 0 in
  let meta := existsb (String.eqb name) ["capabilities.search"; "skill.load"; "skill.read"] in
  {| te_rounds := te_rounds t; te_toolCalls := if meta then te_toolCalls t else te_toolCalls t + 1; te_search := te_search t + b "capabilities.search";
     te_skillLoad := te_skillLoad t + b "skill.load"; te_skillRead := te_skillRead t + b "skill.read"; te_rest := te_rest t; te_endReason := te_endReason t |}.

Record Usage : Type := { u_input : Z; u_output : Z; u_model : option string; u_measurements : option js }.

(* @src session/provider.ts 5 12 ChatChunk *)
Inductive ChatChunk : Type :=
| Delta (text : string)
| ToolCall (id name : string) (args : js)
| ToolResult (id output : string)
| Telemetry (t : TurnTelemetry)
| UsageOf (u : Usage).

(** What a provider does through the request's callbacks. Every registration is of a callback of its own, and is known by its number. *)
Inductive Act : Type :=
| Register (id : string)
| Unregister (id : string) (receipt : nat)
| Delegated (taskId output : string)
| Observed (t : TurnTelemetry).

(** One step of the provider's generator: what it does, and then a chunk, an exception, or its end. *)
Record Pull : Type := { p_acts : list Act; p_yields : option (result Exc ChatChunk) }.

(** A voice connection's profile, when the turn has one. *)
Record TurnProfile : Type := { privacyPin : bool; confirmed : bool; localRealtime : bool }.

Record Recall : Type := { rc_text : string; rc_degraded : js }.
Record View : Type := { vw_compaction : js; vw_swapped : bool; vw_clipped : bool }.

(* @src session/turn-loop.ts 47 47 TurnOutcome *)
Record TurnOutcome : Type := { o_completed : bool; o_error : option string; o_message : option string; o_reply : option string }.

(** What the turn did, in order. [TurnCompleted] and [TurnFailed] carry the moment they happened at. *)
Inductive Ev : Type :=
| Recalled
| Prepared
| Dispatched (id name : string) (args : js) (output : string) (isError : bool)
| Persisted (v : EventRecord)
| Registered (id : string) (receipt : nat)
| Unregistered (id : string) (receipt : nat)
| Settled (receipt : nat) (accepted : bool)
| Relayed (v : EventRecord)
| TurnCompleted (n : nat) (m : MessageRecord)
| TurnFailed (n : nat) (v : EventRecord)
| FailureUnwritten
| Captured (user assistant : string)
| SummaryAsked.

(** The store with everything else in it, the moment, what was done, the receipts that wait for a delivery with the number of the
    next one, and the turn's counters. *)
Record Turn : Type := { st : World; moment : nat; log : list Ev; receipts : list (string * nat); next : nat; telemetry : TurnTelemetry }.

Definition T := SE Turn Exc.

Definition set_st (s : World) (w : Turn) : Turn := {| st := s; moment := moment w; log := log w; receipts := receipts w; next := next w; telemetry := telemetry w |}.
Definition set_receipts (r : list (string * nat)) (w : Turn) : Turn := {| st := st w; moment := moment w; log := log w; receipts := r; next := next w; telemetry := telemetry w |}.
Definition set_telemetry (t : TurnTelemetry) (w : Turn) : Turn := {| st := st w; moment := moment w; log := log w; receipts := receipts w; next := next w; telemetry := t |}.
Definition note (e : Ev) (w : Turn) : Turn := {| st := st w; moment := moment w; log := log w ++ [e]; receipts := receipts w; next := next w; telemetry := telemetry w |}.

(** [k: v] where [v] is there. *)
Definition given (k : string) (v : option js) : list (string * js) := match v with Some x => [(k, x)] | None => [] end.
Definition is_there (v : js) : option js := if js_is_undef v then None else Some v.
Definition non_empty (s : option string) : option string := match s with Some "" => None | _ => s end.

Section turn.
Context (clk : nat -> Z) (newId_at : string -> nat -> string).
(** The turn: its session, its message, the person behind it (who approves, or who is authenticated, or whom a recurring job runs as), a voice profile. *)
Context (sessionId turnId text : string) (incognito : bool) (actor : option string) (profile : option TurnProfile).
(** The cancel switch, the core's shutdown, the voice connection's signal; what happens in the store while the turn waits. *)
Context (cancelled stopped hung_up : nat -> bool) (others : nat -> World -> World).
Context (has_rewind : bool) (command : nat -> result Exc string) (checkpoint : option (nat -> result Exc unit)).
Context (voice_recall : nat -> result Exc bool) (recall : nat -> result Exc Recall) (prepare : nat -> result Exc View).
(** The provider: what its generator does, and what it does when it is closed early. A generator that neither ends nor throws leaves the turn waiting. *)
Context (provider : option string) (pulls : list Pull) (closing : list Act).
(** [dispatcher.call], with the text of its envelope, whether that is an error and whether it hands over a receipt; what is learnt of a skill from a result. *)
Context (dispatch : option (nat -> string -> string -> js -> result Exc (string * bool * bool))) (learnt : nat -> option js) (parse_json : string -> option js).
Context (on_delta confirmation : nat -> result Exc unit) (measure : nat -> result Exc unit).
Context (capture after_rewind : nat -> result Exc unit) (voice_after : nat -> result Exc bool).

Definition lift {A} (r : result Exc A) : T A := match r with Ok a => mret a | Err e => throw e end.

(** The turn gives way: other code runs, signals may change. *)
Definition tick {E} : SE Turn E nat := fun w =>
  (Ok (moment w), {| st := others (moment w) (st w); moment := S (moment w); log := log w; receipts := receipts w; next := next w; telemetry := telemetry w |}).
Definition emit_ev {E} (e : Ev) : SE Turn E unit := modify (note e).

(** A call of the session store. *)
Definition store_op {A} (m : SE World SessionError A) : T A := fun w =>
  match m (st w) with
  | (Ok a, s) => (Ok a, set_st s w)
  | (Err e, s) => (Err (session_exc e), set_st s w)
  end.

Definition is_aborted : T bool := gets (fun w => cancelled (moment w) || stopped (moment w) || hung_up (moment w)).
Definition throwIfAborted : T unit := b ← is_aborted; if (b : bool) then throw {| x_code := None; x_kind := None; x_message := "aborted" |} else mret tt.

(** [stage]: a step with an abort check before it and one after it. *)
(* @src composition/trace.ts 14 26 stage *)
Definition stage {A} (check : T unit) (m : T A) : T A := check ;; a ← m; check ;; mret a.

(** The race of the confirmation against the turn's signal. *)
(* @src voice/turn-profile.ts 45 51 waitForVoiceConfirmation *)
Definition waitForVoiceConfirmation : T unit := throwIfAborted ;; n ← tick; lift (confirmation n).
Definition when_confirmed (m : T unit) : T unit := match profile with Some p => if confirmed p then m else mret tt | None => mret tt end.

(** [this.#emit]: the observer is told; what it throws is only logged. *)
(* @src session/turn-loop.ts 98 100 #emit *)
Definition emit {E} (v : EventRecord) : SE Turn E unit := emit_ev (Relayed v) ;; _ ← tick; mret tt.

Definition persist (type : string) (data : list (string * js)) : T EventRecord :=
  v ← store_op (appendEvent clk turnId type (JObj data));
  emit_ev (Persisted v) ;;
  mret v.

(* @src session/turn-loop.ts 101 103 #event *)
Definition event (type : string) (data : list (string * js)) : T unit := v ← persist type data; emit v.

(** *** Receipts *)

(* @src session/turn-loop.ts 116 119 #run *)
Definition registerDelivery (id : string) : T unit := modify (fun w =>
  {| st := st w; moment := moment w; log := log w ++ [Registered id (next w)]; receipts := receipts w ++ [(id, next w)]; next := S (next w); telemetry := telemetry w |}).

(* @src session/turn-loop.ts 120 120 #run *)
Definition unregister (id : string) (k : nat) : T unit :=
  held ← gets (fun w => bool_decide ((id, k) ∈ receipts w));
  if (held : bool) then emit_ev (Unregistered id k) ;; modify (fun w => set_receipts (bfilter (fun p => negb (bool_decide (p = (id, k)))) (receipts w)) w) else mret tt.

Fixpoint settle_each {E} (l : list (string * nat)) (accepted : bool) : SE Turn E unit :=
  match l with [] => mret tt | p :: r => emit_ev (Settled p.2 accepted) ;; _ ← tick; settle_each r accepted end.

(* @src session/turn-loop.ts 122 126 #run *)
Definition settleDelivery {E} (id : string) (accepted : bool) : SE Turn E unit :=
  mine ← gets (fun w => bfilter (fun p => String.eqb p.1 id) (receipts w));
  modify (fun w => set_receipts (bfilter (fun p => negb (String.eqb p.1 id)) (receipts w)) w) ;;
  settle_each mine accepted.

(* @src session/turn-loop.ts 127 132 #run *)
Definition persistToolResult (id : string) (data : list (string * js)) : T unit :=
  v ← persist "tool.result" data;
  settleDelivery id true ;;
  emit v.

(** *** The provider's stream *)

(* @src session/turn-loop.ts 187 193 #run *)
Definition do_act (a : Act) : T unit :=
  match a with
  | Register id => registerDelivery id
  | Unregister id k => unregister id k
  | Delegated taskId output =>
      event "tool.call" [("id", JStr taskId); ("name", JStr "await_delegations"); ("args", JObj [("taskIds", JArr [JStr taskId]); ("timeoutMs", JNum (Fin 0))]); ("origin", JStr "harness:collaboration")] ;;
      persistToolResult taskId [("id", JStr taskId); ("output", JStr output); ("origin", JStr "harness:collaboration")]
  | Observed t => modify (set_telemetry t)
  end.

(** An exception of a callback reaches the provider, which may go on, or throw what it yields next. *)
Fixpoint do_acts (l : list Act) : T unit := match l with [] => mret tt | a :: r => catch (do_act a) (fun _ => mret tt) ;; do_acts r end.

(** The reply so far, the number of its pieces, the usage that was reported last. *)
Record Progress : Type := { pg_reply : string; pg_index : Z; pg_usage : option Usage }.

(** Only a typed envelope of an aborted call survives a cancellation. *)
(* @src session/turn-loop.ts 210 219 #run *)
Definition aborted_envelope (output : string) : bool :=
  (slen output <=? 4096) && match parse_json output with
  | Some r => js_is_true (jget "isError" r) && bool_decide (jget "code" (jget "error" r) = JStr "aborted")
  | None => false
  end.

(* @src session/turn-loop.ts 222 237 #run *)
Definition on_tool_call (id name : string) (args : js) : T unit :=
  modify (fun w => set_telemetry (count_call name (telemetry w)) w) ;;
  when_confirmed waitForVoiceConfirmation ;;
  event "tool.call" ([("id", JStr id); ("name", JStr name)] ++ given "args" (is_there args)) ;;
  match dispatch with
  | None => mret tt
  | Some call =>
      n ← tick;
      answer ← lift (call n id name args);
      let '(output, isError, settles) := (answer : string * bool * bool) in
      emit_ev (Dispatched id name args output isError) ;;
      (if (settles : bool) then registerDelivery id else mret tt) ;;
      persistToolResult id ([("id", JStr id); ("output", JStr output); ("isError", JBool isError)] ++ given "learnTool" (learnt n)) ;;
      throwIfAborted
  end.

(* @src session/turn-loop.ts 208 240 #run *)
Definition on_chunk (c : ChatChunk) (p : Progress) : T Progress :=
  match c with
  | Telemetry t => modify (set_telemetry t) ;; mret p
  | _ =>
      aborted ← is_aborted;
      (match c, dispatch with
       | ToolResult id output, None =>
           if (aborted : bool) && aborted_envelope output then persistToolResult id [("id", JStr id); ("output", JStr output); ("isError", JBool true)] else mret tt
       | _, _ => mret tt
       end) ;;
      throwIfAborted ;;
      match c with
      | Delta s =>
          (match profile with Some _ => n ← tick; lift (on_delta n) | None => mret tt end) ;;
          event "delta" [("index", JNum (Fin (pg_index p))); ("text", JStr s)] ;;
          mret {| pg_reply := pg_reply p +:+ s; pg_index := pg_index p + 1; pg_usage := pg_usage p |}
      | ToolCall id name args => on_tool_call id name args ;; mret p
      | ToolResult id output =>
          (match dispatch with
           | None => n ← gets moment; persistToolResult id ([("id", JStr id); ("output", JStr output)] ++ given "learnTool" (learnt n))
           | Some _ => mret tt
           end) ;;
          mret p
      | UsageOf u => mret {| pg_reply := pg_reply p; pg_index := pg_index p; pg_usage := Some u |}
      | Telemetry _ => mret p
      end
  end.

(** [for await]: an exception in the loop's body closes the generator; what goes wrong while it closes is dropped. *)
(* @src session/turn-loop.ts 207 241 #run *)
Fixpoint consume (l : list Pull) (p : Progress) : T Progress :=
  match l with
  | [] => mret p
  | pull :: rest =>
      _ ← tick;
      do_acts (p_acts pull) ;;
      match p_yields pull with
      | None => mret p
      | Some c =>
          c ← lift c;
          p ← catch (on_chunk c p) (fun e => do_acts closing ;; throw e);
          consume rest p
      end
  end.

(** *** The turn *)

Definition failed (error : string) : TurnOutcome := {| o_completed := false; o_error := Some error; o_message := None; o_reply := None |}.
Definition completed (m : MessageRecord) (reply : string) : TurnOutcome := {| o_completed := true; o_error := None; o_message := Some (m_id m); o_reply := Some reply |}.

(** [store.completeTurn], and what is told of it. *)
Definition complete (reply : string) (tokens : Z) (data : list (string * js)) : T (option (MessageRecord * EventRecord)) :=
  done ← store_op (completeTurn clk newId_at turnId reply tokens (JObj data));
  match done with
  | Some (m, _) => n ← gets moment; emit_ev (TurnCompleted n m) ;; mret done
  | None => mret None
  end.

Definition restore_ref (t : string) : option string :=
  if starts_with "/compact --restore event:" t && all_digits (String.substring 25 (String.length t - 25) t) then Some (String.substring 19 (String.length t - 19) t) else None.

Definition rewinds_wanted : bool := match parseRewindCommand text with Ok (Some _) => true | _ => false end.

(** A message that is a command to the harness, not to the model. *)
(* @src session/turn-loop.ts 71 71 submit *)
Definition localCommand : bool := rewinds_wanted || String.eqb (trim text) "/compact --explain" || bool_decide (restore_ref (trim text) <> None).

(* @src session/turn-loop.ts 136 156 #run *)
Definition run_command : T TurnOutcome :=
  throwIfAborted ;;
  (if rewinds_wanted && (negb has_rewind || bool_decide (non_empty actor = None)) then throw (session_exc (Refused Immutable "rewind-person-required")) else mret tt) ;;
  n ← tick;
  reply ← lift (command n);
  throwIfAborted ;;
  event "delta" [("index", JNum (Fin 0)); ("text", JStr reply)] ;;
  modify (fun w => set_telemetry (with_endReason "command" (telemetry w)) w) ;;
  te ← gets telemetry;
  done ← complete reply (estimateTokens reply) [("provider", JStr "harness-command"); ("telemetry", telemetry_js te)];
  match done with
  | None => mret (failed "turn-not-running")
  | Some (m, v) => emit v ;; mret (completed m reply)
  end.

(* @src session/turn-loop.ts 158 165 #run *)
Definition take_checkpoint : T unit :=
  n ← tick;
  match checkpoint with
  | None => mret tt
  | Some f => catch (lift (f n)) (fun _ => throwIfAborted)
  end.

Definition no_recall : Recall := {| rc_text := ""; rc_degraded := JNull |}.
Definition recall_failed (e : Exc) : Recall := {| rc_text := ""; rc_degraded := JObj [("reason", JStr "recall-error"); ("detail", JStr (x_message e))] |}.
Definition ask_memory : T Recall := stage throwIfAborted (emit_ev Recalled ;; n ← tick; lift (recall n)).

(** Whatever becomes of the recall, the turn goes on, unless it was aborted. *)
(* @src session/turn-loop.ts 166 171 #run *)
Definition recall_once : T Recall :=
  r ← catch
    (match profile with
     | Some p =>
         if privacyPin p then mret no_recall
         else n ← tick; asked ← lift (voice_recall n); if (asked : bool) then ask_memory else mret no_recall
     | None => ask_memory
     end) (fun e => mret (recall_failed e));
  throwIfAborted ;;
  mret r.

(* @src session/turn-loop.ts 181 181 #run *)
Definition prepare_view : T View := stage throwIfAborted (emit_ev Prepared ;; n ← tick; lift (prepare n)).

Definition shutdown_check : T unit := aborted ← gets (fun w => stopped (moment w)); if (aborted : bool) then throw {| x_code := None; x_kind := None; x_message := "aborted" |} else mret tt.

(** The memory of the turn: once, after its completion, never of an incognito session. A voice profile may put off what it is given. *)
(* @src session/turn-loop.ts 285 304 #after *)
Definition after (reply : string) : T unit :=
  let take := emit_ev (Captured text reply) ;; n ← tick; lift (capture n) in
  if match profile with Some p => privacyPin p | None => false end then mret tt
  else if match profile with Some p => localRealtime p | None => false end then
    (if incognito then mret tt else n ← tick; now ← lift (voice_after n); if (now : bool) then take else mret tt) ;;
    n ← tick; now ← lift (voice_after n);
    if (now : bool) then emit_ev SummaryAsked else mret tt
  else
    (if incognito then mret tt else catch (stage shutdown_check take) (fun _ => mret tt)) ;;
    aborted ← gets (fun w => stopped (moment w));
    if (aborted : bool) then mret tt else emit_ev SummaryAsked.

Definition usage_js (u : Usage) : js :=
  JObj ([("inputTokens", JNum (Fin (u_input u))); ("outputTokens", JNum (Fin (u_output u)))] ++ given "model" (option_map JStr (u_model u)) ++ given "measurements" (u_measurements u)).

(* @src session/turn-loop.ts 243 270 #run *)
Definition finish (id : string) (recalled : Recall) (view : View) (p : Progress) : T TurnOutcome :=
  when_confirmed (stage throwIfAborted waitForVoiceConfirmation) ;;
  gone ← gets (fun w => cancelled (moment w));
  (if (gone : bool) then throw {| x_code := None; x_kind := None; x_message := "cancelled" |} else mret tt) ;;
  (match profile with Some _ => throwIfAborted | None => mret tt end) ;;
  te ← gets telemetry;
  done ← complete (pg_reply p) (match pg_usage p with Some u => u_output u | None => estimateTokens (pg_reply p) end)
    ([("provider", JStr id)] ++ given "usage" (option_map usage_js (pg_usage p)) ++ [("telemetry", telemetry_js te); ("recall", JObj [("degraded", rc_degraded recalled)])]
     ++ (if vw_swapped view || vw_clipped view then [("compaction", vw_compaction view); ("clipped", JBool (vw_clipped view))] else []));
  match done with
  | None => mret (failed "turn-not-running")
  | Some (m, v) =>
      (match pg_usage p with Some _ => n ← gets moment; lift (measure n) | None => mret tt end) ;;
      emit v ;;
      after (pg_reply p) ;;
      n ← tick;
      catch (lift (after_rewind n)) (fun _ => mret tt) ;;
      mret (completed m (pg_reply p))
  end.

(** Everything inside the turn's [try]. *)
(* @src session/turn-loop.ts 133 186 #run *)
Definition attempt : T TurnOutcome :=
  match parseRewindCommand text with
  | Err e => throw (session_exc e)
  | Ok _ =>
      if localCommand then run_command
      else match provider with
      | None => throw (session_exc NoProvider)
      | Some id =>
          take_checkpoint ;;
          recalled ← recall_once;
          view ← prepare_view;
          modify (fun w => set_telemetry (with_rounds 1 (telemetry w)) w) ;;
          p ← consume pulls {| pg_reply := ""; pg_index := 0; pg_usage := None |};
          finish id recalled view p
      end
  end.

(** The store's own text of what went wrong: a signal's first, then a code, a kind, a message. *)
(* @src session/turn-loop.ts 272 272 #run *)
Definition error_of (gone aborted : bool) (e : Exc) : string :=
  if gone then "cancelled" else if aborted then "aborted"
  else match x_code e, x_kind e with Some c, _ => c | None, Some k => k | None, None => x_message e end.

(* @src session/turn-loop.ts 271 279 #run *)
Definition on_failure (e : Exc) : SE Turn Empty_set TurnOutcome :=
  gone ← gets (fun w => cancelled (moment w));
  aborted ← gets (fun w => cancelled (moment w) || stopped (moment w) || hung_up (moment w));
  let error := error_of gone aborted e in
  modify (fun w => set_telemetry
    (if (gone : bool) then with_endReason "cancelled" (telemetry w) else if (aborted : bool) then with_endReason "aborted" (telemetry w)
     else if String.eqb (te_endReason (telemetry w)) "completed" then with_endReason "provider-error" (telemetry w) else telemetry w) w) ;;
  te ← gets telemetry;
  n ← gets moment;
  catch (ev ← store_op (failTurn clk turnId error (JObj [("telemetry", telemetry_js te)])); match ev with Some v => emit_ev (TurnFailed n v) ;; emit v | None => mret tt end)
        (fun _ => emit_ev FailureUnwritten) ;;
  mret (failed error).

Fixpoint settle_all {E} (ids : list string) : SE Turn E unit := match ids with [] => mret tt | id :: r => settleDelivery id false ;; settle_all r end.

(** A turn ends with an outcome, whatever happens in it: its type has no error. *)
(* @src session/turn-loop.ts 271 283 #run *)
Definition run : SE Turn Empty_set TurnOutcome :=
  o ← catch attempt on_failure;
  ids ← gets (fun w => map fst (receipts w));
  settle_all ids ;;
  mret o.
End turn.

(** ** Submission and cancellation *)

(** The turn begins with the checks, the person's message and its row; [profiles] are those of the provider. *)
(* @src session/turn-loop.ts 64 83 submit *)
Definition submit (clk : nat -> Z) (newId_at : string -> nat -> string) (sessionId text : string) (actor : option string) (has_rewind : bool)
    (provider : option (option (list string))) (origin : option js) : SE World SessionError (TurnRecord * MessageRecord * EventRecord) :=
  match parseRewindCommand text with
  | Err e => throw e
  | Ok rewind =>
      require (bool_decide (rewind = None) || negb (bool_decide (non_empty actor = None))) (Refused Immutable "rewind-person-required") ;;
      require (bool_decide (rewind = None) || has_rewind) (Refused Conflict "rewind-unavailable") ;;
      require (localCommand text || match provider with None | Some (Some []) => false | _ => true end) NoProvider ;;
      require (negb (is_empty text)) (Refused Invalid "text-empty") ;;
      beginTurn clk newId_at sessionId text (estimateTokens text) (localCommand text) origin
  end.

(** The turn whose switch is thrown: the one that runs in the session, if this process runs it and it was not thrown before. *)
(* @src session/turn-loop.ts 87 93 cancel *)
Definition cancel (sessionId : string) (d : Db) (switches : list (string * bool)) : option string * list (string * bool) :=
  match runningTurn sessionId d with
  | None => (None, switches)
  | Some t =>
      match bfind (fun p => String.eqb p.1 (t_id t)) switches with
      | Some (_, false) => (Some (t_id t), map (fun p => if String.eqb p.1 (t_id t) then (p.1, true) else p) switches)
      | _ => (None, switches)
      end
  end.
