(* ===== verification/TurnLoopSpec.v ===== *)
(** * What a turn writes down

    Every event a turn logs is lawful after the ones before it: a result is what the
    dispatcher answered to the call written before it, the reply is the pieces that were
    written, a receipt is accepted when its result is stored. A turn that could write to
    the store has ended in it. *)

From S2P Require Import Prelude Session SessionPath SessionInv SessionSpec SessionView SessionLife SessionRun TurnLoop.
#[local] Open Scope Z_scope.

(** ** The record of a turn *)

Definition delta_of (e : Ev) : option string :=
  match e with Persisted v => if String.eqb (v_type v) "delta" then Some (js_str (jget "text" (v_data v))) else None | _ => None end.
Definition pieces (l : list Ev) : list string := omap delta_of l.
Definition joined (l : list string) : string := fold_right (fun a b => a +:+ b) "" l.

Lemma append_assoc (a b c : string) : (a +:+ b) +:+ c = a +:+ (b +:+ c).
Proof. induction a as [|x a IH]; [done|]. change (String x ((a +:+ b) +:+ c) = String x (a +:+ (b +:+ c))). by rewrite IH. Qed.
Lemma append_nil (a : string) : a +:+ "" = a.
Proof. induction a as [|x a IH]; [done|]. change (String x (a +:+ "") = String x a). by rewrite IH. Qed.
Lemma joined_app l l' : joined (l ++ l') = joined l +:+ joined l'.
Proof.
  induction l as [|a l IH]; [done|]. change (joined ((a :: l) ++ l')) with (a +:+ joined (l ++ l')). change (joined (a :: l)) with (a +:+ joined l). by rewrite IH, append_assoc.
Qed.
Lemma pieces_app l l' : pieces (l ++ l') = pieces l ++ pieces l'.
Proof. apply omap_app. Qed.

(** [P] holds of every element with those before it. *)
Definition every {A} (P : list A -> A -> Prop) (l : list A) : Prop := forall pre e post, l = pre ++ e :: post -> P pre e.

Lemma every_snoc {A} (P : list A -> A -> Prop) l e : every P l -> P l e -> every P (l ++ [e]).
Proof.
  intros Hl He pre x post E. destruct (decide (post = [])) as [->|Hn].
  - apply app_inj_tail in E as [-> ->]. done.
  - destruct (exists_last Hn) as (post' & y & ->). rewrite (app_comm_cons post' [y] x), app_assoc in E. apply app_inj_tail in E as [-> _]. by apply (Hl pre x post').
Qed.
Lemma every_nil {A} (P : list A -> A -> Prop) : every P [].
Proof. intros pre e post E. by destruct pre. Qed.

Section turn.
Context (clk : nat -> Z) (newId_at : string -> nat -> string)
  (sessionId turnId text : string) (incognito : bool) (actor : option string) (profile : option TurnProfile)
  (cancelled stopped hung_up : nat -> bool) (others : nat -> World -> World)
  (has_rewind : bool) (command : nat -> result Exc string) (checkpoint : option (nat -> result Exc unit))
  (voice_recall : nat -> result Exc bool) (recall : nat -> result Exc Recall) (prepare : nat -> result Exc View)
  (provider : option string) (pulls : list Pull) (closing : list Act)
  (dispatch : option (nat -> string -> string -> js -> result Exc (string * bool * bool))) (learnt : nat -> option js) (parse_json : string -> option js)
  (on_delta confirmation : nat -> result Exc unit) (measure : nat -> result Exc unit)
  (capture after_rewind : nat -> result Exc unit) (voice_after : nat -> result Exc bool).

(** The result of a call: the event before it is the dispatcher's answer, but for a receipt it handed over, and the call itself was written before that. *)
Definition answers (pre : list Ev) (v : EventRecord) : Prop :=
  exists pre0 id name args output isError regs vc,
    pre = pre0 ++ Dispatched id name args output isError :: regs /\ (regs = [] \/ exists k, regs = [Registered id k]) /\
    jget "id" (v_data v) = JStr id /\ jget "output" (v_data v) = JStr output /\ jget "isError" (v_data v) = JBool isError /\
    Persisted vc ∈ pre0 /\ v_type vc = "tool.call" /\ jget "id" (v_data vc) = JStr id /\ jget "name" (v_data vc) = JStr name.

(** A result that the harness's own delegations brought. *)
Definition delegated (v : EventRecord) : Prop := jget "origin" (v_data v) = JStr "harness:collaboration".

Definition lawful (pre : list Ev) (e : Ev) : Prop :=
  match e with
  | Persisted v =>
      v_turnId v = Some turnId /\ (v_type v = "tool.result" -> dispatch <> None -> delegated v \/ answers pre v) /\
      (v_type v = "delta" -> jget "index" (v_data v) = JNum (Fin (Z.of_nat (length (pieces pre)))))
  | Settled k b =>
      (exists id, Registered id k ∈ pre /\ (b = true -> exists v, Persisted v ∈ pre /\ v_type v = "tool.result" /\ jget "id" (v_data v) = JStr id)) /\ forall b', Settled k b' ∉ pre
  | TurnCompleted n m =>
      m_text m = joined (pieces pre) /\ m_turnId m = Some turnId /\ m_role m = RAssistant /\ (localCommand text = false -> cancelled n = false) /\
      forall n' m', TurnCompleted n' m' ∉ pre
  | Captured u r =>
      u = text /\ incognito = false /\ localCommand text = false /\ (forall u' r', Captured u' r' ∉ pre) /\ exists n m, TurnCompleted n m ∈ pre /\ m_text m = r
  | Recalled => localCommand text = false /\ Recalled ∉ pre /\ pieces pre = []
  | _ => True
  end.

(** The log is lawful, and the receipts that wait are the registered ones that were neither taken back nor settled. *)
Record sound (w : Turn) : Prop := {
  sd_log : every lawful (log w);
  sd_next : forall id k, Registered id k ∈ log w -> (k < next w)%nat;
  sd_live : forall id k, (id, k) ∈ receipts w -> Registered id k ∈ log w /\ forall b, Settled k b ∉ log w;
  sd_once : NoDup (map snd (receipts w));
  sd_kept : forall id k, Registered id k ∈ log w -> (id, k) ∈ receipts w \/ Unregistered id k ∈ log w \/ exists b, Settled k b ∈ log w
}.

(** *** Steps *)

(** From [w] to [w'] the log grew by [l], every event of a kind in [C], and soundness was kept. *)
Definition grew (C : Ev -> bool) (w w' : Turn) (l : list Ev) : Prop := log w' = log w ++ l /\ Forall (fun e => C e = true) l /\ (sound w -> sound w').

Lemma grew_same C w w' : log w' = log w -> (sound w -> sound w') -> grew C w w' [].
Proof. intros Hl Hs. split_and!; [by rewrite app_nil_r|constructor|done]. Qed.
Lemma grew_trans C w w1 w2 l l' : grew C w w1 l -> grew C w1 w2 l' -> grew C w w2 (l ++ l').
Proof. intros (Hl & Hc & Hs) (Hl' & Hc' & Hs'). split_and!; [by rewrite Hl', Hl, app_assoc|by apply Forall_app|auto]. Qed.

Definition logs {E A} (C : Ev -> bool) (m : SE Turn E A) (w : Turn) (Q : A -> Turn -> list Ev -> Prop) (R : Turn -> list Ev -> Prop) : Prop :=
  match m w with
  | (Ok a, w') => exists l, grew C w w' l /\ Q a w' l
  | (Err e, w') => exists l, grew C w w' l /\ R w' l
  end.

Section logs.
Context {E : Type} (C : Ev -> bool).

Lemma logs_bind {A B} (m : SE Turn E A) (k : A -> SE Turn E B) w Q Q' (R : Turn -> list Ev -> Prop) :
  logs C m w Q R -> (forall a w' l, grew C w w' l -> Q a w' l -> logs C (k a) w' (fun b w'' l' => Q' b w'' (l ++ l')) (fun w'' l' => R w'' (l ++ l'))) -> logs C (m ≫= k) w Q' R.
Proof.
  unfold logs, mbind, SE_bind. destruct (m w) as [[a|e] w1]; [|done]. intros (l & Hl & Hq) Hk. specialize (Hk a w1 l Hl Hq).
  destruct (k a w1) as [[b|e] w2]; destruct Hk as (l' & Hl' & Hq'); exists (l ++ l'); (split; [by eapply grew_trans|done]).
Qed.
Lemma logs_ret {A} (a : A) w (Q : A -> Turn -> list Ev -> Prop) R : Q a w [] -> logs C (mret a : SE Turn E A) w Q R.
Proof. intros H. exists []. split; [by apply grew_same|done]. Qed.
Lemma logs_throw {A} (e : E) w (Q : A -> Turn -> list Ev -> Prop) (R : Turn -> list Ev -> Prop) : R w [] -> logs C (throw e : SE Turn E A) w Q R.
Proof. intros H. exists []. split; [by apply grew_same|done]. Qed.
Lemma logs_gets {A} (f : Turn -> A) w (Q : A -> Turn -> list Ev -> Prop) R : Q (f w) w [] -> logs C (gets f : SE Turn E A) w Q R.
Proof. intros H. exists []. split; [by apply grew_same|done]. Qed.
Lemma logs_weaken {A} (m : SE Turn E A) w (Q Q' : A -> Turn -> list Ev -> Prop) (R R' : Turn -> list Ev -> Prop) :
  logs C m w Q R -> (forall a w' l, grew C w w' l -> Q a w' l -> Q' a w' l) -> (forall w' l, grew C w w' l -> R w' l -> R' w' l) -> logs C m w Q' R'.
Proof. unfold logs. destruct (m w) as [[a|e] w1]; intros (l & Hl & Hq) Hw Hr; exists l; auto. Qed.
Lemma logs_modify f w (Q : unit -> Turn -> list Ev -> Prop) R : log (f w) = log w -> (sound w -> sound (f w)) -> Q tt (f w) [] -> logs C (modify f : SE Turn E unit) w Q R.
Proof. intros Hl Hs HQ. exists []. split; [by apply grew_same|done]. Qed.
End logs.

Lemma logs_catch {E E' A} C (m : SE Turn E A) (h : E -> SE Turn E' A) w Q R R' :
  logs C m w Q R -> (forall e w' l, grew C w w' l -> R w' l -> logs C (h e) w' (fun a w'' l' => Q a w'' (l ++ l')) (fun w'' l' => R' w'' (l ++ l'))) -> logs C (catch m h) w Q R'.
Proof.
  unfold logs, catch. destruct (m w) as [[a|e] w1]; [done|]. intros (l & Hl & Hq) Hk. specialize (Hk e w1 l Hl Hq).
  destruct (h e w1) as [[b|e'] w2]; destruct Hk as (l' & Hl' & Hq'); exists (l ++ l'); (split; [by eapply grew_trans|done]).
Qed.

(** Soundness speaks of the log and the receipts only. *)
Lemma sound_same w w' : log w' = log w -> receipts w' = receipts w -> next w' = next w -> sound w -> sound w'.
Proof. intros H1 H2 H3 [S1 S2 S3 S4 S5]. split; rewrite ?H1, ?H2, ?H3; done. Qed.

(** An event that is neither of a receipt. *)
Definition apart (e : Ev) : Prop := match e with Registered _ _ | Unregistered _ _ | Settled _ _ => False | _ => True end.
Lemma sound_note w e : apart e -> lawful (log w) e -> sound w -> sound (note e w).
Proof.
  intros Ha He [S1 S2 S3 S4 S5].
  assert (Hr : forall id k, Registered id k ∈ log w ++ [e] -> Registered id k ∈ log w) by (intros id k [?|Hx%list_elem_of_singleton]%elem_of_app; [done|by subst e]).
  split; cbn [log note receipts next].
  - by apply every_snoc.
  - eauto.
  - intros id k H. destruct (S3 id k H) as [H1 H2]. split; [set_solver|]. intros b [Hx|Hx%list_elem_of_singleton]%elem_of_app; [by apply (H2 b)|by subst e].
  - done.
  - intros id k H. destruct (S5 id k (Hr _ _ H)) as [?|[?|[b ?]]]; [by left|right; left; set_solver|right; right; exists b; set_solver].
Qed.

Lemma every_app {A B} (P : list A -> A -> Prop) (f : B -> A) (l0 : list A) (k : list B) :
  every P l0 -> (forall pre x post, k = pre ++ x :: post -> P (l0 ++ map f pre) (f x)) -> every P (l0 ++ map f k).
Proof.
  intros H0. induction k as [|x k IH] using rev_ind; intros H; [by rewrite app_nil_r|].
  rewrite map_app. cbn [map]. rewrite app_assoc. apply every_snoc; [|by apply (H k x [])].
  apply IH. intros pre y post E. apply (H pre y (post ++ [x])). by rewrite E, <- app_assoc.
Qed.

Notation tick := (tick others).
Notation emit := (emit others).
Notation persist := (persist clk turnId).
Notation event := (event clk turnId others).
Notation settle_each := (settle_each others).
Notation settleDelivery := (settleDelivery others).
Notation persistToolResult := (persistToolResult clk turnId others).
Notation do_act := (do_act clk turnId others).
Notation do_acts := (do_acts clk turnId others).
Notation on_tool_call := (on_tool_call clk turnId profile cancelled stopped hung_up others dispatch learnt confirmation).
Notation on_chunk := (on_chunk clk turnId profile cancelled stopped hung_up others dispatch learnt parse_json on_delta confirmation).
Notation consume := (consume clk turnId profile cancelled stopped hung_up others closing dispatch learnt parse_json on_delta confirmation).
Notation throwIfAborted := (throwIfAborted cancelled stopped hung_up).
Notation waitForVoiceConfirmation := (waitForVoiceConfirmation cancelled stopped hung_up others confirmation).
Notation when_confirmed := (when_confirmed profile).

Lemma settle_each_run {E} l b w : exists w', settle_each l b w = (Ok tt, w' : Turn) :> (result E unit * Turn) /\
  log w' = log w ++ map (fun p => Settled p.2 b) l /\ receipts w' = receipts w /\ next w' = next w.
Proof.
  revert w. induction l as [|p l IH]; intros w; [exists w; by rewrite app_nil_r|].
  cbn [TurnLoop.settle_each map]. unfold TurnLoop.tick, emit_ev, modify, mbind, SE_bind. cbv beta iota zeta.
  match goal with |- context [settle_each l b ?x] => destruct (IH x) as (w' & Hr & Hl & H1 & H2) end. exists w'. rewrite Hr. split; [done|]. cbn in Hl, H1, H2.
  by rewrite Hl, <- app_assoc.
Qed.

(** One stored result settles every receipt that waits for it. *)
Lemma sound_settle w w' id b : sound w -> (b = true -> exists v, Persisted v ∈ log w /\ v_type v = "tool.result" /\ jget "id" (v_data v) = JStr id) ->
  log w' = log w ++ map (fun p => Settled p.2 b) (bfilter (fun p => String.eqb p.1 id) (receipts w)) ->
  receipts w' = bfilter (fun p => negb (String.eqb p.1 id)) (receipts w) -> next w' = next w -> sound w'.
Proof.
  intros [S1 S2 S3 S4 S5] Hb Hl Hr Hn. set (mine := bfilter _ _) in Hl.
  assert (Hm : forall i k, (i, k) ∈ mine -> i = id /\ (i, k) ∈ receipts w) by (intros i k [Hin He]%bfilter_elem; cbn in He; by apply String.eqb_eq in He).
  assert (Hnd : NoDup (map snd mine)) by (apply nodup_map_bfilter; exact S4).
  assert (Hset : forall k b', Settled k b' ∈ map (fun p : string * nat => Settled p.2 b) mine -> k ∈ map snd mine) by (intros k b' ([i k'] & [= -> ->] & Hin)%elem_of_map; apply elem_of_map; by exists (i, k')).
  assert (Hreg : forall i k, Registered i k ∈ log w' -> Registered i k ∈ log w) by (rewrite Hl; intros i k [?|(p & ? & _)%elem_of_map]%elem_of_app; done).
  split.
  - rewrite Hl. apply every_app; [done|]. intros pre [i k] post E. cbn [snd lawful]. destruct (Hm i k) as [-> Hin]; [rewrite E; set_solver|]. destruct (S3 id k Hin) as [H1 H2].
    split; [exists id; split; [set_solver|]; intros Hbt; destruct (Hb Hbt) as (v & ? & ?); exists v; set_solver|].
    intros b' [Hx|(p & [= -> ->] & Hp)%elem_of_map]%elem_of_app; [by apply (H2 b')|].
    rewrite E, map_app, map_cons in Hnd. apply list.NoDup_app in Hnd as (_ & Hd & _). apply (Hd p.2); [apply elem_of_map; by exists p|by left].
  - rewrite Hn. eauto.
  - intros i k Hin. rewrite Hr in Hin. apply bfilter_elem in Hin as [Hin Hne]. destruct (S3 i k Hin) as [H1 H2]. rewrite Hl. split; [set_solver|].
    intros b' [Hx|Hx]%elem_of_app; [by apply (H2 b')|]. apply Hset, elem_of_map in Hx as ([i' k'] & Hk & Hx). cbn in Hk. subst k'. destruct (Hm _ _ Hx) as [-> Hx'].
    assert ((i, k) = (id, k)) as [= ->] by (apply (NoDup_map_inj snd (receipts w)); done). cbn in Hne. by rewrite String.eqb_refl in Hne.
  - rewrite Hr. by apply nodup_map_bfilter.
  - intros i k Hin%Hreg. rewrite Hl, Hr. destruct (S5 i k Hin) as [Hx|[?|[b' ?]]]; [|right; left; set_solver|right; right; exists b'; set_solver].
    destruct (String.eqb_spec i id) as [->|Hne].
    + right. right. exists b. apply elem_of_app. right. apply elem_of_map. exists (id, k). split; [done|]. apply bfilter_elem. cbn. by rewrite String.eqb_refl.
    + left. apply bfilter_elem. cbn. by rewrite (proj2 (String.eqb_neq i id) Hne).
Qed.

(** What the stream may log. *)
Definition streamed (e : Ev) : bool := match e with Persisted _ | Registered _ _ | Unregistered _ _ | Settled _ _ | Relayed _ | Dispatched _ _ _ _ _ => true | _ => false end.

(** Steps that write no piece of the reply. *)
Definition mute {E A} (m : SE Turn E A) (w : Turn) : Prop := logs streamed m w (fun _ _ l => pieces l = []) (fun _ l => pieces l = []).

Lemma mute_bind {E A B} (m : SE Turn E A) (k : A -> SE Turn E B) w : mute m w -> (forall a w', mute (k a) w') -> mute (m ≫= k) w.
Proof.
  intros Hm Hk. eapply logs_bind; [eapply logs_weaken; [exact Hm|intros a w' l _ H; exact H|done]|]. intros a w' l _ Hl.
  eapply logs_weaken; [apply Hk|intros b w'' l' _ Hl'|intros w'' l' _ Hl']; cbn beta in *; by rewrite pieces_app, Hl, Hl'.
Qed.
Lemma mute_ret {E A} (a : A) w : mute (mret a : SE Turn E A) w. Proof. by apply logs_ret. Qed.

Lemma logs_tick {E} C w (Q : nat -> Turn -> list Ev -> Prop) R : (forall w', log w' = log w -> Q (moment w) w' []) -> logs C (tick : SE Turn E nat) w Q R.
Proof. intros H. exists []. split; [apply grew_same; [done|by apply sound_same]|by apply H]. Qed.
Lemma logs_look {E A} C (k : nat -> SE Turn E A) w (Q : A -> Turn -> list Ev -> Prop) (R : Turn -> list Ev -> Prop) :
  (forall n w', log w' = log w -> logs C (k n) w' Q R) -> logs C (n ← tick; k n) w Q R.
Proof. intros H. eapply logs_bind; [by apply (logs_tick C w (fun _ w' l => log w' = log w /\ l = []))|]. intros n w' l _ [Hl ->]. by apply H. Qed.

Lemma logs_note {E} C e w (Q : unit -> Turn -> list Ev -> Prop) R : apart e -> C e = true -> lawful (log w) e -> Q tt (note e w) [e] -> logs C (emit_ev e : SE Turn E unit) w Q R.
Proof. intros Ha Hc He HQ. exists [e]. split; [|done]. split_and!; [done|by repeat constructor|by apply sound_note]. Qed.

Lemma logs_emit {E} C v w (Q : unit -> Turn -> list Ev -> Prop) R : C (Relayed v) = true -> (forall w', log w' = log w ++ [Relayed v] -> Q tt w' [Relayed v]) -> logs C (emit v : SE Turn E unit) w Q R.
Proof.
  intros Hc HQ. eapply logs_bind; [by apply (logs_note C (Relayed v) w (fun _ w' l => w' = note (Relayed v) w /\ l = [Relayed v]))|].
  intros _ w' l _ [-> ->]. apply logs_look. intros n w' Hl. apply logs_ret. rewrite app_nil_r. apply HQ. by rewrite Hl.
Qed.

Lemma store_op_same {A} (m : SE World SessionError A) w : log (store_op m w).2 = log w /\ receipts (store_op m w).2 = receipts w /\ next (store_op m w).2 = next w.
Proof. unfold store_op. destruct (m (st w)) as [[a|e] s]; done. Qed.

(** What the store wrote is an event of this turn with this data. *)
Lemma appended type data w v w' : store_op (appendEvent clk turnId type (JObj data)) w = (Ok v, w') -> v_turnId v = Some turnId /\ v_type v = type /\ v_data v = JObj data.
Proof.
  unfold store_op. destruct (appendEvent _ _ _ _ _) as [[v'|e] s] eqn:E; [|done]. intros [= -> _]. unfold appendEvent in E. open_run.
  match goal with H : insertEvent _ _ _ _ _ _ = _ |- _ => apply insertEvent_ok in H as (s0 & _ & _ & Ht & Hty & Hd & _) end. done.
Qed.

Lemma logs_persist C type data w (Q : EventRecord -> Turn -> list Ev -> Prop) (R : Turn -> list Ev -> Prop) :
  (forall v, C (Persisted v) = true) -> (forall v, v_turnId v = Some turnId -> v_type v = type -> v_data v = JObj data -> lawful (log w) (Persisted v)) ->
  (forall w', log w' = log w -> R w' []) -> (forall v w', v_type v = type -> v_data v = JObj data -> log w' = log w ++ [Persisted v] -> Q v w' [Persisted v]) ->
  logs C (persist type data) w Q R.
Proof.
  intros Hc Hv HR HQ. unfold TurnLoop.persist. destruct (store_op_same (appendEvent clk turnId type (JObj data)) w) as (H1 & H2 & H3).
  eapply (logs_bind C _ _ w (fun v w' l => l = [] /\ log w' = log w /\ v_turnId v = Some turnId /\ v_type v = type /\ v_data v = JObj data)).
  { destruct (store_op _ w) as [[v|e] w1] eqn:E; unfold logs; rewrite E; cbn [fst snd] in *; exists []; (split; [apply grew_same; [done|by apply sound_same]|]).
    - split; [done|]. split; [done|]. by eapply appended.
    - by apply HR. }
  intros v w' l _ (-> & Hl & Ht & Hty & Hd). eapply (logs_bind C _ _ w' (fun _ w'' l => log w'' = log w' ++ [Persisted v] /\ l = [Persisted v])).
  - apply logs_note; [done|apply Hc|rewrite Hl; by apply Hv|done].
  - intros _ w'' l _ [Hl' ->]. apply logs_ret. apply HQ; [done|done|by rewrite Hl', Hl].
Qed.

Lemma logs_register C id w (Q : unit -> Turn -> list Ev -> Prop) R : (forall k, C (Registered id k) = true) ->
  (forall k w', log w' = log w ++ [Registered id k] -> Q tt w' [Registered id k]) -> logs C (registerDelivery id) w Q R.
Proof.
  intros Hc HQ. exists [Registered id (next w)]. split; [|by apply HQ]. split_and!; [done|by repeat constructor|]. intros [S1 S2 S3 S4 S5].
  assert (Hf : forall i k, Registered i k ∈ log w ++ [Registered id (next w)] -> Registered i k ∈ log w \/ (i = id /\ k = next w)) by (intros i k [?|Hx%list_elem_of_singleton]%elem_of_app; [by left|right; by injection Hx]).
  assert (Hset : forall k b, Settled k b ∈ log w -> exists i, Registered i k ∈ log w).
  { intros k b (pre & post & Hp)%list_elem_of_split. destruct (S1 _ _ _ Hp) as [[i [Hi _]] _]. exists i. rewrite Hp. set_solver. }
  split; cbn [log receipts next].
  - by apply every_snoc.
  - intros i k [H|[-> ->]]%Hf; [specialize (S2 _ _ H); lia|lia].
  - intros i k [H|Hx%list_elem_of_singleton]%elem_of_app.
    + destruct (S3 _ _ H) as [H1 H2]. split; [set_solver|]. intros b [Hx|Hx%list_elem_of_singleton]%elem_of_app; [by apply (H2 b)|done].
    + injection Hx as -> ->. split; [set_solver|]. intros b [Hx|Hx%list_elem_of_singleton]%elem_of_app; [|done]. destruct (Hset _ _ Hx) as [i' Hi']. specialize (S2 _ _ Hi'). lia.
  - rewrite map_app. apply list.NoDup_app. split; [done|]. split; [|by repeat constructor; set_solver].
    intros k ([i k'] & -> & Hin)%elem_of_map Hx%list_elem_of_singleton. cbn in Hx. subst k'. destruct (S3 _ _ Hin) as [Hr _]. specialize (S2 _ _ Hr). lia.
  - intros i k [H|[-> ->]]%Hf; [|left; set_solver]. destruct (S5 _ _ H) as [?|[?|[b ?]]]; [left; set_solver|right; left; set_solver|right; right; exists b; set_solver].
Qed.

Lemma mute_unregister id k w : mute (unregister id k) w.
Proof.
  unfold mute, logs, unregister, gets, emit_ev, modify, mbind, SE_bind, mret, SE_ret. cbv beta iota zeta. destruct (bool_decide _) eqn:Hin; [|exists []; by split; [apply grew_same|]].
  apply bool_decide_eq_true_1 in Hin. exists [Unregistered id k]. split; [|done]. split_and!; [done|by repeat constructor|]. intros [S1 S2 S3 S4 S5].
  assert (Hf : forall i j, Registered i j ∈ log w ++ [Unregistered id k] -> Registered i j ∈ log w) by (intros i j [?|Hx%list_elem_of_singleton]%elem_of_app; done).
  split; cbn [log receipts next note set_receipts].
  - by apply every_snoc.
  - eauto.
  - intros i j [H _]%bfilter_elem. destruct (S3 _ _ H) as [H1 H2]. split; [set_solver|]. intros b [Hx|Hx%list_elem_of_singleton]%elem_of_app; [by apply (H2 b)|done].
  - by apply nodup_map_bfilter.
  - intros i j H%Hf. destruct (decide ((i, j) = (id, k))) as [[= -> ->]|Hne]; [right; left; set_solver|].
    destruct (S5 _ _ H) as [?|[?|[b ?]]]; [left|right; left; set_solver|right; right; exists b; set_solver]. apply bfilter_elem. split; [done|]. by rewrite bool_decide_false.
Qed.

(** The receipts of a call that has no event of its own: none is a piece of the reply. *)
Lemma pieces_settled (l : list (string * nat)) b : pieces (map (fun p => Settled p.2 b) l) = [].
Proof. induction l as [|p l IH]; [done|exact IH]. Qed.

Lemma logs_settle {E} C id b w R : (forall k, C (Settled k b) = true) -> (b = true -> exists v, Persisted v ∈ log w /\ v_type v = "tool.result" /\ jget "id" (v_data v) = JStr id) ->
  logs C (settleDelivery id b : SE Turn E unit) w (fun _ w' l => pieces l = [] /\ receipts w' = bfilter (fun p => negb (String.eqb p.1 id)) (receipts w)) R.
Proof.
  intros Hc Hb. unfold logs, TurnLoop.settleDelivery, gets, modify, mbind, SE_bind. cbv beta iota zeta.
  match goal with |- context [settle_each ?l b ?x] => destruct (@settle_each_run E l b x) as (w' & Hr & Hl & H1 & H2) end. cbn [log receipts next set_receipts] in Hl, H1, H2. rewrite Hr.
  eexists. split; [|split; [apply pieces_settled|exact H1]]. split_and!; [exact Hl| |].
  - apply Forall_map, List.Forall_forall. intros p _. apply Hc.
  - intros S. by eapply sound_settle.
Qed.

(** A result is stored, its receipts are accepted, and it is told. *)
Lemma mute_result id data w : jget "id" (JObj data) = JStr id ->
  (forall v, v_turnId v = Some turnId -> v_type v = "tool.result" -> v_data v = JObj data -> lawful (log w) (Persisted v)) -> mute (persistToolResult id data) w.
Proof.
  intros Hid Hv. unfold TurnLoop.persistToolResult.
  eapply (logs_bind streamed _ _ w (fun v w' l => pieces l = [] /\ v_type v = "tool.result" /\ v_data v = JObj data /\ Persisted v ∈ log w')).
  - apply logs_persist; [done|exact Hv|done|]. intros v w' Ht Hd Hl. split_and!; [|done|done|rewrite Hl; set_solver]. unfold pieces. cbn. by rewrite Ht.
  - intros v w' l _ (Hp & Ht & Hd & Hin). cbn beta.
    enough (mute (settleDelivery id true ;; emit v : T unit) w') as Hm. { eapply logs_weaken; [exact Hm|intros a w2 l2 _ H2|intros w2 l2 _ H2]; cbn beta in *; by rewrite pieces_app, Hp, H2. }
    apply mute_bind.
    + eapply logs_weaken; [apply logs_settle; [done|]|by intros _ w2 l2 _ [H _]|]. { intros _. exists v. split_and!; [done|done|by rewrite Hd]. } intros w2 l2 _ H2. exact H2.
    + intros _ w2. by apply logs_emit.
Qed.

Lemma mute_event type data w : type <> "delta" -> (forall v, v_turnId v = Some turnId -> v_type v = type -> v_data v = JObj data -> lawful (log w) (Persisted v)) ->
  logs streamed (event type data) w (fun _ w' l => pieces l = [] /\ exists v, log w' = log w ++ [Persisted v; Relayed v] /\ v_type v = type /\ v_data v = JObj data) (fun _ l => pieces l = []).
Proof.
  intros Hn Hv. eapply (logs_bind streamed _ _ w (fun v w' l => l = [Persisted v] /\ log w' = log w ++ l /\ v_type v = type /\ v_data v = JObj data)).
  { apply logs_persist; [done|exact Hv|done|]. done. }
  assert (Hp : forall v, v_type v = type -> pieces [Persisted v] = []). { intros v Ht. unfold pieces. cbn. rewrite Ht. by apply String.eqb_neq in Hn as ->. }
  intros v w' l _ (-> & Hl & Ht & Hd). apply logs_emit; [done|]. intros w'' Hl'. split.
  - rewrite pieces_app, (Hp v Ht). done.
  - exists v. split_and!; [|done|done]. by rewrite Hl', Hl, <- app_assoc.
Qed.

Lemma mute_of {E A} (m : SE Turn E A) w (Q : A -> Turn -> list Ev -> Prop) R : logs streamed m w Q R -> (forall a w' l, Q a w' l -> pieces l = []) -> (forall w' l, R w' l -> pieces l = []) -> mute m w.
Proof. intros H HQ HR. eapply logs_weaken; [exact H|intros a w' l _; apply HQ|intros w' l _; apply HR]. Qed.

(** An event that is no result, or that the harness's delegations brought, is lawful anywhere. *)
Lemma lawful_plain pre v : v_turnId v = Some turnId -> (v_type v = "tool.result" -> delegated v \/ dispatch = None) -> v_type v <> "delta" -> lawful pre (Persisted v).
Proof. intros Ht Hr Hd. cbn. split_and!; [done|intros Hx Hdn; destruct (Hr Hx); [by left|done]|done]. Qed.

Lemma mute_act a w : mute (do_act a) w.
Proof.
  destruct a as [id|id k|id output|t]; cbn [TurnLoop.do_act].
  - by apply logs_register.
  - apply mute_unregister.
  - apply mute_bind.
    + eapply mute_of; [apply mute_event; [done|]|by intros _ w' l [H _]|by intros w' l H]. intros v Ht Hty _. apply lawful_plain; [done|by rewrite Hty|by rewrite Hty].
    + intros _ w'. apply mute_result; [done|]. intros v Ht Hty Hd. apply lawful_plain; [done|left; unfold delegated; by rewrite Hd|by rewrite Hty].
  - apply logs_modify; [done|by apply sound_same|done].
Qed.
Lemma mute_catch {E E' A} (m : SE Turn E A) (h : E -> SE Turn E' A) w : mute m w -> (forall e w', mute (h e) w') -> mute (catch m h) w.
Proof.
  intros Hm Hh. eapply logs_catch; [exact Hm|]. intros e w' l _ Hl. eapply logs_weaken; [apply Hh|intros a w2 l2 _ H2|intros w2 l2 _ H2]; cbn beta in *; by rewrite pieces_app, Hl, H2.
Qed.
Lemma mute_acts l w : mute (do_acts l) w.
Proof.
  revert w. induction l as [|a l IH]; intros w; [apply mute_ret|]. apply mute_bind; [|intros _ w'; apply IH]. apply mute_catch; [apply mute_act|]. intros e w'. apply mute_ret.
Qed.

Lemma mute_lift {A} (r : result Exc A) w : mute (lift r) w.
Proof. destruct r; [apply mute_ret|by apply logs_throw]. Qed.
Lemma mute_tick {E} w : mute (tick : SE Turn E nat) w. Proof. by apply logs_tick. Qed.
Lemma mute_abort w : mute throwIfAborted w.
Proof. apply mute_bind; [by apply logs_gets|]. intros b w'. destruct b; [by apply logs_throw|apply mute_ret]. Qed.

Lemma mute_wait w : mute waitForVoiceConfirmation w.
Proof. apply mute_bind; [apply mute_abort|]. intros _ w1. apply mute_bind; [apply mute_tick|]. intros n w2. apply mute_lift. Qed.
Lemma mute_confirmed (m : T unit) w : (forall w', mute m w') -> mute (when_confirmed m) w.
Proof. intros Hm. unfold TurnLoop.when_confirmed. destruct profile as [p|]; [|apply mute_ret]. destruct (confirmed p); [apply Hm|apply mute_ret]. Qed.

(** The result of a call is written right after the dispatcher's answer to it. *)
Lemma mute_tool_call id name args w : mute (on_tool_call id name args) w.
Proof.
  unfold TurnLoop.on_tool_call. apply mute_bind; [apply logs_modify; [done|by apply sound_same|done]|]. intros _ w1. apply mute_bind.
  { apply mute_confirmed, mute_wait. }
  intros _ w2. set (data := [("id", JStr id); ("name", JStr name)] ++ _).
  eapply (logs_bind streamed _ _ w2 (fun _ w' l => pieces l = [] /\ exists v, log w' = log w2 ++ [Persisted v; Relayed v] /\ v_type v = "tool.call" /\ v_data v = JObj data)).
  { eapply logs_weaken; [apply mute_event; [done|]|done|done]. intros v Ht Hty _. apply lawful_plain; [done|by rewrite Hty|by rewrite Hty]. }
  intros _ w3 l3 _ (Hp3 & vc & Hl3 & Hvt & Hvd). cbn beta.
  enough (mute (match dispatch with
    | None => mret tt
    | Some call =>
        n ← tick; answer ← lift (call n id name args); let '(output, isError, settles) := (answer : string * bool * bool) in
        emit_ev (Dispatched id name args output isError) ;; (if (settles : bool) then registerDelivery id else mret tt) ;;
        persistToolResult id ([("id", JStr id); ("output", JStr output); ("isError", JBool isError)] ++ given "learnTool" (learnt n)) ;; throwIfAborted
    end) w3) as Hm.
  { eapply logs_weaken; [exact Hm|intros a w' l _ H2|intros w' l _ H2]; cbn beta in *; by rewrite pieces_app, Hp3, H2. }
  destruct dispatch as [call|] eqn:Edis; [|apply mute_ret]. apply logs_look. intros n w4 Hl4. destruct (call n id name args) as [[[output isError] settles]|e]; [|by apply logs_throw].
  eapply (logs_bind streamed _ _ w4 (fun a w' l => a = (output, isError, settles) /\ w' = w4 /\ l = [])); [by apply logs_ret|]. intros answer w4' l4 _ (-> & -> & ->).
  set (D := Dispatched id name args output isError).
  eapply (logs_bind streamed _ _ w4 (fun _ w' l => pieces l = [] /\ log w' = log w4 ++ [D])); [by apply logs_note|]. intros _ w5 l5 _ [Hp5 Hl5].
  eapply (logs_bind streamed _ _ w5 (fun _ w' l => pieces l = [] /\ exists regs, log w' = log w5 ++ regs /\ (regs = [] \/ exists k, regs = [Registered id k]))).
  { destruct settles; [apply logs_register; [done|]; intros k w' Hk; split; [done|]; exists [Registered id k]; split; [done|right; by exists k]|apply logs_ret; split; [done|]; exists []; rewrite app_nil_r; auto]. }
  intros _ w6 l6 _ [Hp6 (regs & Hl6 & Hregs)].
  assert (Hm : mute (persistToolResult id ([("id", JStr id); ("output", JStr output); ("isError", JBool isError)] ++ given "learnTool" (learnt n)) ;; throwIfAborted) w6).
  { apply mute_bind; [|intros _ w7; apply mute_abort]. apply mute_result; [done|]. intros v Ht Hty Hd. split_and!; [done| |by rewrite Hty]. intros _ _. right.
    exists (log w4), id, name, args, output, isError, regs, vc. rewrite Hd. split_and!; try done.
    - by rewrite Hl6, Hl5, <- app_assoc.
    - rewrite Hl4, Hl3. set_solver.
    - rewrite Hvd. done.
    - rewrite Hvd. done. }
  eapply logs_weaken; [exact Hm|intros a w' l _ H2|intros w' l _ H2]; cbn beta in *; by rewrite !pieces_app, Hp5, Hp6, H2.
Qed.

(** The reply so far is what was written of it. *)
Definition in_step (p : Progress) (w : Turn) : Prop := pg_reply p = joined (pieces (log w)) /\ pg_index p = Z.of_nat (length (pieces (log w))).

Lemma in_step_mute C p w w' l : in_step p w -> grew C w w' l -> pieces l = [] -> in_step p w'.
Proof. intros [H1 H2] (Hl & _ & _) Hp. unfold in_step. by rewrite Hl, pieces_app, Hp, app_nil_r. Qed.

Lemma after_mute {A B} (m : T A) (k : A -> T B) p w (Q : B -> Turn -> list Ev -> Prop) :
  in_step p w -> mute m w -> (forall a w', in_step p w' -> logs streamed (k a) w' (fun b w'' _ => Q b w'' []) (fun _ _ => True)) ->
  logs streamed (m ≫= k) w (fun b w' _ => Q b w' []) (fun _ _ => True).
Proof.
  intros Hp Hm Hk. eapply logs_bind; [eapply logs_weaken; [exact Hm|intros a w' l _ H; exact H|done]|]. intros a w' l Hg Hl. apply Hk. by eapply in_step_mute.
Qed.

Lemma on_chunk_logs c p w : in_step p w -> logs streamed (on_chunk c p) w (fun p' w' _ => in_step p' w') (fun _ _ => True).
Proof.
  intros Hp. unfold TurnLoop.on_chunk. destruct c as [s|id name args|id output|t|u].
  4: { apply (after_mute _ _ p w (fun p' w' _ => in_step p' w')); [done|apply logs_modify; [done|by apply sound_same|done]|]. intros _ w' Hp'. by apply logs_ret. }
  all: apply (after_mute _ _ p w (fun p' w' _ => in_step p' w')); [done|by apply logs_gets|]; intros aborted w1 Hp1.
  all: apply (after_mute _ _ p w1 (fun p' w' _ => in_step p' w')); [done| |].
  all: try (apply mute_ret).
  all: try (intros _ w2 Hp2; apply (after_mute _ _ p w2 (fun p' w' _ => in_step p' w')); [done|apply mute_abort|]; intros _ w3 Hp3).
  - apply (after_mute _ _ p w3 (fun p' w' _ => in_step p' w')); [done|destruct profile; [apply mute_bind; [apply mute_tick|intros; apply mute_lift]|apply mute_ret]|]. intros _ w4 Hp4.
    unfold TurnLoop.event. set (data := [("index", _); ("text", _)]).
    eapply (logs_bind streamed _ _ w4 (fun _ w' l => in_step {| pg_reply := pg_reply p +:+ s; pg_index := pg_index p + 1; pg_usage := pg_usage p |} w')).
    + eapply (logs_bind streamed _ _ w4 (fun v w' l => v_type v = "delta" /\ v_data v = JObj data /\ log w' = log w4 ++ [Persisted v])).
      * apply logs_persist; [done| |done|done]. intros v Ht Hty Hd. split_and!; [done|by rewrite Hty|]. intros _. rewrite Hd. cbn. by rewrite (proj2 Hp4).
      * intros v w' l _ (Ht & Hd & Hl). apply logs_emit; [done|]. intros w'' Hl'. destruct Hp4 as [H1 H2]. unfold in_step. cbn [pg_reply pg_index].
        assert (pieces (log w'') = pieces (log w4) ++ [s]) as ->.
        { rewrite Hl', Hl, !pieces_app. change (pieces [Relayed v]) with (@nil string). rewrite app_nil_r. f_equal. unfold pieces. cbn. rewrite Ht, Hd. done. }
        rewrite joined_app, length_app, H1, H2. cbn [joined fold_right length]. rewrite append_nil. split; [done|lia].
    + intros _ w' l _ Hs. by apply logs_ret.
  - apply (after_mute _ _ p w3 (fun p' w' _ => in_step p' w')); [done|apply mute_tool_call|]. intros _ w4 Hp4. by apply logs_ret.
  - destruct dispatch as [call|] eqn:Edis; [apply mute_ret|]. destruct (_ && _); [|apply mute_ret]. apply mute_result; [done|]. intros v Ht Hty _. apply lawful_plain; [done|by right|by rewrite Hty].
  - apply (after_mute _ _ p w3 (fun p' w' _ => in_step p' w')); [done| |intros _ w4 Hp4; by apply logs_ret]. destruct dispatch as [call|] eqn:Edis; [apply mute_ret|].
    apply mute_bind; [by apply logs_gets|]. intros n w4. apply mute_result; [done|]. intros v Ht Hty _. apply lawful_plain; [done|by right|by rewrite Hty].
  - by apply logs_ret.
Qed.

Lemma consume_logs l p w : in_step p w -> logs streamed (consume l p) w (fun p' w' _ => in_step p' w') (fun _ _ => True).
Proof.
  revert p w. induction l as [|pull l IH]; intros p w Hp; cbn [TurnLoop.consume]; [by apply logs_ret|].
  apply (after_mute _ _ p w (fun p' w' _ => in_step p' w')); [done|apply mute_tick|]. intros _ w1 Hp1.
  apply (after_mute _ _ p w1 (fun p' w' _ => in_step p' w')); [done|apply mute_acts|]. intros _ w2 Hp2.
  destruct (p_yields pull) as [c|]; [|by apply logs_ret]. apply (after_mute _ _ p w2 (fun p' w' _ => in_step p' w')); [done|apply mute_lift|]. intros c' w3 Hp3.
  eapply (logs_bind streamed _ _ w3 (fun p' w' _ => in_step p' w')).
  - eapply logs_catch; [by apply on_chunk_logs|]. intros e w4 l4 _ _.
    eapply (logs_bind streamed _ _ w4 (fun _ _ _ => True)); [|intros _ w5 l5 _ _; by apply logs_throw].
    by eapply logs_weaken; [apply mute_acts|..].
  - intros p' w4 l4 _ Hp4. eapply logs_weaken; [by apply IH|done|done].
Qed.

(** *** The whole turn *)

Notation complete := (complete clk newId_at turnId).
Notation run_command := (run_command clk newId_at turnId text actor cancelled stopped hung_up others has_rewind command).
Notation take_checkpoint := (take_checkpoint cancelled stopped hung_up others checkpoint).
Notation recall_once := (recall_once profile cancelled stopped hung_up others voice_recall recall).
Notation ask_memory := (ask_memory cancelled stopped hung_up others recall).
Notation prepare_view := (prepare_view cancelled stopped hung_up others prepare).
Notation after := (after text incognito profile stopped others capture voice_after).
Notation finish := (finish clk newId_at turnId text incognito profile cancelled stopped hung_up others confirmation measure capture after_rewind voice_after).
Notation attempt := (attempt clk newId_at turnId text incognito actor profile cancelled stopped hung_up others has_rewind command checkpoint voice_recall recall prepare provider pulls closing
  dispatch learnt parse_json on_delta confirmation measure capture after_rewind voice_after).
Notation on_failure := (on_failure clk turnId cancelled stopped hung_up others).
Notation settle_all := (settle_all others).
Notation run := (run clk newId_at turnId text incognito actor profile cancelled stopped hung_up others has_rewind command checkpoint voice_recall recall prepare provider pulls closing
  dispatch learnt parse_json on_delta confirmation measure capture after_rewind voice_after).

Definition anything (e : Ev) : bool := true.
(** Before the reply is complete. *)
Definition early (e : Ev) : bool := match e with TurnCompleted _ _ | Captured _ _ | TurnFailed _ _ | FailureUnwritten | SummaryAsked => false | _ => true end.

Lemma logs_mono {E A} (C C' : Ev -> bool) (m : SE Turn E A) w Q R : (forall e, C e = true -> C' e = true) -> logs C m w Q R -> logs C' m w Q R.
Proof.
  intros HC. unfold logs, grew. destruct (m w) as [[a|e] w1]; intros (l & (Hl & Hf & Hs) & Hq); exists l; (split; [|exact Hq]); (split_and!; [done|eapply Forall_impl; [|exact Hf]; intros x; apply HC|done]).
Qed.
Lemma logs_gets_bind {E A B} C (f : Turn -> A) (k : A -> SE Turn E B) w Q R : logs C (k (f w)) w Q R -> logs C (gets f ≫= k) w Q R.
Proof. done. Qed.
Lemma logs_abort C w (Q : unit -> Turn -> list Ev -> Prop) (R : Turn -> list Ev -> Prop) : R w [] -> Q tt w [] -> logs C throwIfAborted w Q R.
Proof. intros HR HQ. apply logs_gets_bind. destruct (_ || _); [by apply logs_throw|by apply logs_ret]. Qed.
Lemma logs_lift {A} C (r : result Exc A) w (Q : A -> Turn -> list Ev -> Prop) (R : Turn -> list Ev -> Prop) : (forall a, Q a w []) -> R w [] -> logs C (lift r) w Q R.
Proof. intros HQ HR. destruct r; [by apply logs_ret|by apply logs_throw]. Qed.

(** A check only looks. *)
Definition looks (m : T unit) : Prop := forall w, m w = (Ok tt, w) \/ exists e, m w = (Err e, w).
Lemma looks_abort : looks throwIfAborted.
Proof. intros w. unfold TurnLoop.throwIfAborted, is_aborted, gets, mbind, SE_bind. cbv beta iota zeta. destruct (_ || _); [right; by eexists|by left]. Qed.
Lemma looks_shutdown : looks (shutdown_check stopped).
Proof. intros w. unfold shutdown_check, gets, mbind, SE_bind. cbv beta iota zeta. destruct (stopped _); [right; by eexists|by left]. Qed.
Lemma logs_stage {A} C (check : T unit) (m : T A) w (Q : A -> Turn -> list Ev -> Prop) (R : Turn -> list Ev -> Prop) :
  looks check -> R w [] -> logs C m w Q R -> (forall a w' l, Q a w' l -> R w' l) -> logs C (stage check m) w Q R.
Proof.
  intros Hc HR Hm HQ. unfold logs, stage, mbind, SE_bind in *. destruct (Hc w) as [->|[e ->]]; [|exists []; by split; [apply grew_same|]].
  destruct (m w) as [[a|e] w1]; [|done]. destruct Hm as (l & Hg & Hl). destruct (Hc w1) as [->|[e ->]]; exists l; (split; [exact Hg|]); [exact Hl|by eapply HQ].
Qed.
Lemma logs_wait C w (Q : unit -> Turn -> list Ev -> Prop) (R : Turn -> list Ev -> Prop) :
  R w [] -> (forall w', log w' = log w -> Q tt w' [] /\ R w' []) -> logs C waitForVoiceConfirmation w Q R.
Proof.
  intros HR HQ. eapply (logs_bind C _ _ w (fun _ w' l => w' = w /\ l = [])); [by apply logs_abort|]. intros _ w1 l1 _ (-> & ->). apply logs_look. intros n w2 H2.
  destruct (HQ w2 H2). apply logs_lift; [by intros []|done].
Qed.

Definition is_early (w : Turn) : Prop := Forall (fun e => early e = true) (log w).
Lemma early_grew w w' l : is_early w -> grew early w w' l -> is_early w'.
Proof. intros H (Hl & Hc & _). unfold is_early. rewrite Hl. by apply Forall_app. Qed.
Lemma streamed_early e : streamed e = true -> early e = true. Proof. by destruct e. Qed.
Lemma early_none w : is_early w -> (forall n m, TurnCompleted n m ∉ log w) /\ (forall u r, Captured u r ∉ log w).
Proof. unfold is_early. rewrite list.Forall_forall. intros H. split; intros a b Hin; by apply H in Hin. Qed.

(** The message that is stored is the reply. *)
Lemma completed_message reply tokens data w d w' : store_op (completeTurn clk newId_at turnId reply tokens data) w = (Ok d, w') ->
  match d with Some (m, v) => m_text m = reply /\ m_turnId m = Some turnId /\ m_role m = RAssistant | None => True end.
Proof.
  unfold store_op. destruct (completeTurn _ _ _ _ _ _ _) as [[d'|e] s] eqn:E; [|done]. intros [= -> _]. unfold completeTurn in E. open_run; [|done..].
  match goal with H : insertMessage _ _ _ _ _ _ _ _ = _ |- _ => apply insertMessage_ok in H as (s0 & _ & _ & Ht & Hr & Hx & _) end. done.
Qed.

Lemma logs_complete reply tokens data w (Q : option (MessageRecord * EventRecord) -> Turn -> list Ev -> Prop) (R : Turn -> list Ev -> Prop) :
  is_early w -> reply = joined (pieces (log w)) -> (localCommand text = false -> cancelled (moment w) = false) -> (forall w', R w' []) -> (forall w', Q None w' []) ->
  (forall n m v w', m_text m = reply -> log w' = log w ++ [TurnCompleted n m] -> Q (Some (m, v)) w' [TurnCompleted n m]) -> logs anything (complete reply tokens data) w Q R.
Proof.
  intros He Hr Hc HR HN HQ. destruct (early_none w He) as [Hno _]. unfold TurnLoop.complete. destruct (store_op_same (completeTurn clk newId_at turnId reply tokens (JObj data)) w) as (H1 & H2 & H3).
  eapply (logs_bind anything _ _ w (fun d w' l => l = [] /\ log w' = log w /\ moment w' = moment w /\
    match d with Some (m, v) => m_text m = reply /\ m_turnId m = Some turnId /\ m_role m = RAssistant | None => True end)).
  { destruct (store_op _ w) as [[d|e] w1] eqn:E; unfold logs; rewrite E; cbn [fst snd] in *; exists []; (split; [apply grew_same; [done|by apply sound_same]|]); [|by apply HR].
    split; [done|]. split; [done|]. split; [|by eapply completed_message]. unfold store_op in E. destruct (completeTurn _ _ _ _ _ _ _) as [[d'|e'] s]; [by injection E as _ <-|done]. }
  intros d w' l _ (-> & Hl & Hm & Hd). destruct d as [[m v]|]; [|by apply logs_ret]. destruct Hd as (Hx & Ht & Hro). apply logs_gets_bind.
  eapply (logs_bind anything _ _ w' (fun _ w'' l => log w'' = log w' ++ [TurnCompleted (moment w') m] /\ l = [TurnCompleted (moment w') m])).
  - apply logs_note; [done|done| |done]. cbn. rewrite Hl, Hm. split_and!; [by rewrite Hx|done|done|done|apply Hno].
  - intros _ w'' l2 _ [Hl2 ->]. apply logs_ret. cbn. apply HQ; [done|by rewrite Hl2, Hl].
Qed.

(** A turn that says it is completed stored the message it names, with the reply it gives. *)
Definition told (o : TurnOutcome) (w : Turn) : Prop :=
  o_completed o = true -> exists n m, TurnCompleted n m ∈ log w /\ o_message o = Some (m_id m) /\ o_reply o = Some (m_text m).

Lemma told_failed e w : told (failed e) w. Proof. done. Qed.
Lemma told_grew C o w w' l : told o w -> grew C w w' l -> told o w'.
Proof. intros Ht (Hl & _) Ho. destruct (Ht Ho) as (n & m & Hin & H). exists n, m. rewrite Hl. split; [set_solver|done]. Qed.

Lemma run_command_logs w : localCommand text = true -> log w = [] -> logs anything run_command w (fun o w' _ => told o w') (fun _ _ => True).
Proof.
  intros Hlc Hw. unfold TurnLoop.run_command. eapply (logs_bind anything _ _ w (fun _ w' _ => log w' = [])); [by apply logs_abort|]. intros _ w1 l1 _ H1.
  eapply (logs_bind anything _ _ w1 (fun _ w' _ => log w' = [])); [destruct (_ && _); [by apply logs_throw|by apply logs_ret]|]. intros _ w2 l2 _ H2.
  apply logs_look. intros n w3 H3. rewrite H2 in H3. eapply (logs_bind anything _ _ w3 (fun _ w' _ => log w' = [])); [by apply logs_lift|]. intros reply w4 l4 _ H4.
  eapply (logs_bind anything _ _ w4 (fun _ w' _ => log w' = [])); [by apply logs_abort|]. intros _ w5 l5 _ H5.
  unfold TurnLoop.event. set (data := [("index", _); ("text", _)]).
  eapply (logs_bind anything _ _ w5 (fun _ w' _ => is_early w' /\ reply = joined (pieces (log w')))).
  { eapply (logs_bind anything _ _ w5 (fun v w' l => v_type v = "delta" /\ v_data v = JObj data /\ log w' = [Persisted v])).
    - apply logs_persist; [done| |done|]. { intros v Ht Hty Hd. split_and!; [done|by rewrite Hty|]. intros _. by rewrite Hd, H5. } intros v w' Ht Hd Hl. by rewrite Hl, H5.
    - intros v w' l _ (Ht & Hd & Hl). apply logs_emit; [done|]. intros w'' Hl'. rewrite Hl in Hl'. unfold is_early. rewrite Hl'. split; [by repeat constructor|].
      unfold pieces. cbn. rewrite Ht, Hd. cbn. by rewrite append_nil. }
  intros _ w6 l6 _ [He Hr]. eapply (logs_bind anything _ _ w6 (fun _ w' _ => is_early w' /\ reply = joined (pieces (log w')))); [apply logs_modify; [done|by apply sound_same|done]|].
  intros _ w7 l7 _ [He7 Hr7]. apply logs_gets_bind.
  eapply (logs_bind anything _ _ w7 (fun d w' _ => match d with Some (m, v) => exists n, TurnCompleted n m ∈ log w' /\ m_text m = reply | None => True end)).
  - apply logs_complete; [done|done|by rewrite Hlc|done|done|]. intros n' m v w' Hx Hl. exists n'. rewrite Hl. split; [set_solver|done].
  - intros [[m v]|] w8 l8 _ Hd; [|by apply logs_ret]. destruct Hd as (n' & Hin & Hx). eapply (logs_bind anything _ _ w8 (fun _ w' _ => TurnCompleted n' m ∈ log w')).
    + apply logs_emit; [done|]. intros w' Hl. rewrite Hl. set_solver.
    + intros _ w9 l9 _ H9. apply logs_ret. intros _. exists n', m. cbn. by rewrite Hx.
Qed.

(** The memory is told once, of what was stored. *)
Definition to_capture (reply : string) (w : Turn) : Prop := (forall u r, Captured u r ∉ log w) /\ exists n m, TurnCompleted n m ∈ log w /\ m_text m = reply.

Lemma logs_any {E A} (m : SE Turn E A) w Q R : logs anything m w Q R -> logs anything m w (fun _ _ _ => True) (fun _ _ => True).
Proof. intros H. by eapply logs_weaken. Qed.

Lemma after_logs reply w : localCommand text = false -> to_capture reply w -> logs anything (after reply) w (fun _ _ _ => True) (fun _ _ => True).
Proof.
  intros Hlc Hw.
  assert (Htake : forall w1, incognito = false -> to_capture reply w1 -> logs anything (emit_ev (Captured text reply) ;; n ← tick; lift (capture n)) w1 (fun _ _ _ => True) (fun _ _ => True)).
  { intros w1 Hi (Hn & Hc). eapply (logs_bind anything _ _ w1 (fun _ _ _ => True)).
    - apply logs_note; [done|done| |done]. cbn. by split_and!.
    - intros _ w2 l2 _ _. apply logs_look. intros n w3 _. by apply logs_lift. }
  assert (Hasked : forall w1, logs anything (emit_ev SummaryAsked : T unit) w1 (fun _ _ _ => True) (fun _ _ => True)) by (intros w1; by apply logs_note).
  unfold TurnLoop.after. cbv zeta. destruct (match profile with Some p => privacyPin p | None => false end); [by apply logs_ret|].
  destruct (match profile with Some p => localRealtime p | None => false end).
  - eapply (logs_bind anything _ _ w (fun _ _ _ => True)).
    + destruct incognito eqn:Hi; [by apply logs_ret|]. apply logs_look. intros n w1 Hl. eapply (logs_bind anything _ _ w1 (fun _ w2 _ => log w2 = log w1)); [by apply logs_lift|].
      intros now w2 l2 _ H2. destruct now; [|by apply logs_ret]. eapply logs_weaken; [apply Htake; [done|]|done|done]. unfold to_capture. by rewrite H2, Hl.
    + intros _ w1 l1 _ _. apply logs_look. intros n w2 _. eapply (logs_bind anything _ _ w2 (fun _ _ _ => True)); [by apply logs_lift|]. intros now w3 l3 _ _. destruct now; [apply Hasked|by apply logs_ret].
  - eapply (logs_bind anything _ _ w (fun _ _ _ => True)).
    + destruct incognito eqn:Hi; [by apply logs_ret|]. eapply (logs_catch anything _ _ w _ (fun _ _ => True)); [apply logs_stage; [apply looks_shutdown|done|by apply Htake|done]|]. intros e w1 l1 _ _. by apply logs_ret.
    + intros _ w1 l1 _ _. apply logs_gets_bind. destruct (stopped (moment w1)); [by apply logs_ret|apply Hasked].
Qed.

Lemma finish_logs id rc view p w : localCommand text = false -> is_early w -> in_step p w -> logs anything (finish id rc view p) w (fun o w' _ => told o w') (fun _ _ => True).
Proof.
  intros Hlc He Hp. unfold TurnLoop.finish. eapply (logs_bind anything _ _ w (fun _ w' _ => log w' = log w)).
  { unfold TurnLoop.when_confirmed. destruct profile as [v|]; [|by apply logs_ret]. destruct (confirmed v); [|by apply logs_ret]. apply logs_stage; [apply looks_abort|done|apply logs_wait; [done|by intros w1 H1]|done]. }
  intros _ w1 l1 _ H1. assert (He1 : is_early w1) by (unfold is_early; by rewrite H1). assert (Hp1 : in_step p w1) by (unfold in_step; by rewrite H1). clear H1 He Hp w l1.
  apply logs_gets_bind. destruct (cancelled (moment w1)) eqn:Hcan; [eapply (logs_bind anything _ _ w1 (fun _ _ _ => False)); [by apply logs_throw|done]|].
  eapply (logs_bind anything _ _ w1 (fun _ w' _ => w' = w1)); [by apply logs_ret|]. intros _ w2 l2 _ ->.
  eapply (logs_bind anything _ _ w1 (fun _ w' _ => w' = w1)); [destruct profile; [by apply logs_abort|by apply logs_ret]|]. intros _ w2 l3 _ ->.
  apply logs_gets_bind. eapply (logs_bind anything _ _ w1 (fun d w' _ => match d with Some (m, v) => to_capture (pg_reply p) w' /\ exists n, TurnCompleted n m ∈ log w' /\ m_text m = pg_reply p | None => True end)).
  - apply logs_complete; [done|apply Hp1|done|done|done|]. intros n m v w' Hx Hl. destruct (early_none w1 He1) as [_ Hcap]. rewrite Hl. split; [split|].
    + rewrite Hl. intros u r [Hin|Hin%list_elem_of_singleton]%elem_of_app; [by apply (Hcap u r)|done].
    + exists n, m. rewrite Hl. split; [set_solver|done].
    + exists n. split; [set_solver|done].
  - intros [[m v]|] w2 l4 _ Hd; [|by apply logs_ret]. destruct Hd as (Hcap & n & Hin & Hx).
    eapply (logs_bind anything _ _ w2 (fun _ w' _ => log w' = log w2)).
    { destruct (pg_usage p); [|by apply logs_ret]. apply logs_gets_bind. by apply logs_lift. }
    intros _ w3 l5 _ H3. eapply (logs_bind anything _ _ w3 (fun _ w' _ => log w' = log w2 ++ [Relayed v])); [apply logs_emit; [done|]; intros w' Hl; by rewrite Hl, H3|].
    intros _ w4 l6 _ H4. eapply (logs_bind anything _ _ w4 (fun _ w' _ => TurnCompleted n m ∈ log w')).
    { eapply logs_weaken; [apply after_logs; [done|]| |done].
      - destruct Hcap as (Hc1 & n' & m' & Hc2 & Hc3). split.
        + rewrite H4. intros u r [Hi|Hi%list_elem_of_singleton]%elem_of_app; [by apply (Hc1 u r)|done].
        + exists n', m'. rewrite H4. split; [set_solver|done].
      - intros _ w5 l7 (Hl & _) _. rewrite Hl, H4. set_solver. }
    intros _ w5 l7 _ H5. apply logs_look. intros n' w6 H6. eapply (logs_bind anything _ _ w6 (fun _ w' _ => log w' = log w6)).
    { eapply logs_catch; [by apply (logs_lift anything _ w6 (fun _ w' _ => log w' = log w6) (fun w' _ => log w' = log w6))|]. intros e w7 l8 _ H7. by apply logs_ret. }
    intros _ w7 l8 _ H7. apply logs_ret. intros _. exists n, m. cbn. by rewrite H7, H6, Hx.
Qed.

Lemma attempt_logs w : log w = [] -> logs anything attempt w (fun o w' _ => told o w') (fun _ _ => True).
Proof.
  intros Hw. unfold TurnLoop.attempt. destruct (parseRewindCommand text) as [c|e]; [|by apply logs_throw]. destruct (localCommand text) eqn:Hlc; [by apply run_command_logs|]. destruct provider as [id|]; [|by apply logs_throw].
  eapply (logs_bind anything _ _ w (fun _ w' _ => log w' = [])).
  { unfold TurnLoop.take_checkpoint. apply logs_look. intros n w1 H1. rewrite Hw in H1. destruct checkpoint as [f|]; [|by apply logs_ret].
    eapply logs_catch; [by apply (logs_lift anything _ w1 (fun _ w' _ => log w' = []) (fun w' _ => log w' = []))|]. intros e w2 l2 _ H2. by apply logs_abort. }
  intros _ w1 l1 _ H1. clear Hw. eapply (logs_bind anything _ _ w1 (fun _ w' _ => is_early w' /\ pieces (log w') = [])).
  { assert (Hask : forall w2, log w2 = [] -> logs anything ask_memory w2 (fun _ w' _ => is_early w' /\ pieces (log w') = []) (fun w' _ => is_early w' /\ pieces (log w') = [])).
    { intros w2 H2. apply logs_stage; [apply looks_abort|unfold is_early; rewrite H2; by split; [constructor|]| |done]. eapply (logs_bind anything _ _ w2 (fun _ w' _ => log w' = [Recalled])).
      - apply logs_note; [done|done| |cbn; by rewrite H2]. cbn. rewrite H2. split_and!; [done|apply not_elem_of_nil|done].
      - intros _ w3 l3 _ H3. apply logs_look. intros n w4 H4. unfold is_early. rewrite H3 in H4. apply logs_lift; [intros a|]; rewrite H4; (split; [by repeat constructor|done]). }
    unfold TurnLoop.recall_once. eapply (logs_bind anything _ _ w1 (fun _ w' _ => is_early w' /\ pieces (log w') = [])).
    - assert (Hquiet : forall w2, log w2 = [] -> is_early w2 /\ pieces (log w2) = []) by (intros w2 H2; unfold is_early; rewrite H2; by split; [constructor|]).
      eapply (logs_catch anything _ _ w1 _ (fun w' _ => is_early w' /\ pieces (log w') = [])); [|intros e w2 l2 _ H2; by apply logs_ret].
      destruct profile as [v|]; [|by apply Hask]. destruct (privacyPin v); [by apply logs_ret, Hquiet|]. apply logs_look. intros n w2 H2. rewrite H1 in H2.
      eapply (logs_bind anything _ _ w2 (fun _ w' _ => log w' = [])); [by apply logs_lift; [|apply Hquiet]|]. intros asked w3 l3 _ H3. destruct asked; [by apply Hask|by apply logs_ret, Hquiet].
    - intros r w2 l2 _ H2. eapply (logs_bind anything _ _ w2 (fun _ w' _ => w' = w2)); [by apply logs_abort|]. intros _ w3 l3 _ ->. by apply logs_ret. }
  intros rc w2 l2 _ [He2 Hp2]. eapply (logs_bind anything _ _ w2 (fun _ w' _ => is_early w' /\ pieces (log w') = [])).
  { apply logs_stage; [apply looks_abort|done| |done]. eapply (logs_bind anything _ _ w2 (fun _ w' _ => log w' = log w2 ++ [Prepared])); [by apply logs_note|]. intros _ w3 l3 _ H3. apply logs_look. intros n w4 H4.
    apply logs_lift; [|done]. intros a. unfold is_early. rewrite H4, H3, pieces_app, Hp2. split; [|done]. apply Forall_app. split; [done|by repeat constructor]. }
  intros view w3 l3 _ [He3 Hp3]. eapply (logs_bind anything _ _ w3 (fun _ w' _ => is_early w' /\ pieces (log w') = [])); [apply logs_modify; [done|by apply sound_same|done]|].
  intros _ w4 l4 _ [He4 Hp4]. eapply (logs_bind anything _ _ w4 (fun p w' _ => is_early w' /\ in_step p w')).
  - eapply (logs_mono early); [done|]. eapply logs_weaken; [eapply (logs_mono streamed early); [apply streamed_early|]; apply consume_logs| |done].
    + unfold in_step. by rewrite Hp4.
    + intros p w5 l5 Hg Hs. split; [by eapply early_grew|done].
  - intros p w5 l5 _ [He5 Hs]. by apply finish_logs.
Qed.

Lemma on_failure_logs e w : logs anything (on_failure e) w (fun o w' _ => told o w') (fun _ _ => False).
Proof.
  unfold TurnLoop.on_failure. do 2 apply logs_gets_bind. cbv zeta.
  eapply (logs_bind anything _ _ w (fun _ _ _ => True)); [apply logs_modify; [done|by apply sound_same|done]|]. intros _ w1 l1 _ _. do 2 apply logs_gets_bind.
  eapply (logs_bind anything _ _ w1 (fun _ _ _ => True)); [|intros _ w2 l2 _ _; by apply logs_ret].
  eapply (logs_catch anything _ _ w1 _ (fun _ _ => True)); [|intros e' w2 l2 _ _; by apply logs_note].
  match goal with |- context [store_op ?m] => destruct (store_op_same m w1) as (H1 & H2 & H3); eapply (logs_bind anything (store_op m) _ w1 (fun _ _ _ => True)); [|] end.
  - unfold logs. destruct (store_op _ w1) as [[d|x] w2] eqn:E; cbn [fst snd] in *; exists []; (split; [apply grew_same; [done|by apply sound_same]|done]).
  - intros [v|] w2 l2 _ _; [|by apply logs_ret]. eapply (logs_bind anything _ _ w2 (fun _ _ _ => True)); [by apply logs_note|]. intros _ w3 l3 _ _. by apply logs_emit.
Qed.

Lemma settle_all_logs {E} ids w : logs anything (settle_all ids : SE Turn E unit) w (fun _ w' _ => forall i k, (i, k) ∈ receipts w' -> (i, k) ∈ receipts w /\ i ∉ ids) (fun _ _ => False).
Proof.
  revert w. induction ids as [|id ids IH]; intros w; cbn [TurnLoop.settle_all]; [apply logs_ret; intros i k H; split; [done|apply not_elem_of_nil]|].
  eapply (logs_bind anything _ _ w (fun _ w' _ => receipts w' = bfilter (fun p => negb (String.eqb p.1 id)) (receipts w))).
  - eapply logs_weaken; [by apply (logs_settle anything id false w (fun _ _ => False))|by intros _ w' l _ [_ H]|]. intros w' l _ H. exact H.
  - intros _ w1 l1 _ H1. eapply logs_weaken; [apply IH| |intros w' l _ H; exact H]. cbn beta. intros _ w2 l2 _ H2 i k Hin. destruct (H2 i k Hin) as [Hr Hn]. rewrite H1 in Hr. apply bfilter_elem in Hr as [Hr Hne].
    cbn in Hne. split; [done|]. intros [->|?]%elem_of_cons; [by rewrite String.eqb_refl in Hne|done].
Qed.

(** The turn as it is when its work begins: nothing done, nothing to deliver. *)
Definition fresh_turn (s : World) (n : nat) : Turn := {| st := s; moment := n; log := []; receipts := []; next := 0; telemetry := createTurnTelemetry |}.

Lemma fresh_sound s n : sound (fresh_turn s n).
Proof. split; cbn [log receipts next fresh_turn map]; [apply every_nil|by intros id k ?%elem_of_nil|by intros id k ?%elem_of_nil|constructor|by intros id k ?%elem_of_nil]. Qed.

Lemma run_sound s n : exists o w', run (fresh_turn s n) = (Ok o, w') /\ sound w' /\ receipts w' = [] /\ told o w'.
Proof.
  assert (H : logs anything run (fresh_turn s n) (fun o w' _ => told o w' /\ receipts w' = []) (fun _ _ => False)).
  { unfold TurnLoop.run. eapply (logs_bind anything _ _ _ (fun o w' _ => told o w')).
    - eapply (logs_catch anything _ _ _ _ (fun _ _ => True)); [by apply attempt_logs|]. intros e w1 l1 _ _. eapply logs_weaken; [apply on_failure_logs|done|done].
    - intros o w1 l1 _ Ho. apply logs_gets_bind. eapply (logs_bind anything _ _ w1 (fun _ w' _ => receipts w' = [] /\ told o w')).
      + eapply logs_weaken; [apply settle_all_logs| |intros w' l _ H; exact H]. intros u w2 l2 Hg H2. cbn beta in H2. split; [|by eapply told_grew].
        destruct (receipts w2) as [|[i k] r]; [done|]. destruct (H2 i k ltac:(left)) as [Hin Hn]. destruct Hn. apply elem_of_map. by exists (i, k).
      + intros _ w2 l2 _ [H2 H3]. by apply logs_ret. }
  unfold logs in H. destruct (run (fresh_turn s n)) as [[o|e] w']; [|by destruct e]. destruct H as (ll & (_ & _ & Hs) & Ht & Hr). exists o, w'. split_and!; [done|apply Hs, fresh_sound|done|done].
Qed.

(** (C4) No result is forged. In a turn that runs its tools through the dispatcher, however
    the provider streams and whatever fails, every tool result that is stored is the
    answer the dispatcher gave, under the call's id and in its own words, to a call that
    was stored before, with nothing between the answer and its storing but a receipt; the
    only others are those the harness's own delegations bring. *)
Theorem results_not_forged (s : World) (n : nat) : exists o w', run (fresh_turn s n) = (Ok o, w') /\
  forall pre v post, log w' = pre ++ Persisted v :: post -> v_type v = "tool.result" -> dispatch <> None -> delegated v \/ answers pre v.
Proof.
  destruct (run_sound s n) as (o & w' & Hr & [S _ _ _ _] & _). exists o, w'. split; [done|]. intros pre v post E Ht Hd. destruct (S _ _ _ E) as (_ & H & _). by apply H.
Qed.

(** (C6) What a turn says is what it wrote. A turn that ends completed has stored one
    assistant message, the pieces that were written in order joined together, and gives
    that text back; a model's turn that was cancelled is not completed; and the memory
    is told at most once, only of a model's turn that is not incognito and is completed,
    and then the message it answers and that very text. *)
Theorem reply_is_what_was_written (s : World) (n : nat) : exists o w', run (fresh_turn s n) = (Ok o, w') /\
  (o_completed o = true -> exists i m, TurnCompleted i m ∈ log w' /\ o_message o = Some (m_id m) /\ o_reply o = Some (m_text m)) /\
  (forall pre i m post, log w' = pre ++ TurnCompleted i m :: post ->
     m_text m = joined (pieces pre) /\ m_role m = RAssistant /\ m_turnId m = Some turnId /\ (localCommand text = false -> cancelled i = false) /\ forall i' m', TurnCompleted i' m' ∉ pre) /\
  (forall pre u r post, log w' = pre ++ Captured u r :: post ->
     u = text /\ incognito = false /\ localCommand text = false /\ (forall u' r', Captured u' r' ∉ pre) /\ exists i m, TurnCompleted i m ∈ pre /\ m_text m = r).
Proof.
  destruct (run_sound s n) as (o & w' & Hr & [S _ _ _ _] & _ & Ht). exists o, w'. split_and!; [done|done| |].
  - intros pre i m post E. destruct (S _ _ _ E) as (H1 & H2 & H3 & H4 & H5). by split_and!.
  - intros pre u r post E. exact (S _ _ _ E).
Qed.

(** (C7) Deliveries are accounted for. When a turn is over no receipt waits: each one that
    was registered was taken back or settled, never twice, and it was accepted only when
    a result of its call had been stored before. *)
Theorem receipts_settled_once (s : World) (n : nat) : exists o w', run (fresh_turn s n) = (Ok o, w') /\ receipts w' = [] /\
  (forall id k, Registered id k ∈ log w' -> Unregistered id k ∈ log w' \/ exists b, Settled k b ∈ log w') /\
  (forall pre k b post, log w' = pre ++ Settled k b :: post -> (forall b', Settled k b' ∉ pre) /\
     exists id, Registered id k ∈ pre /\ (b = true -> exists v, Persisted v ∈ pre /\ v_type v = "tool.result" /\ jget "id" (v_data v) = JStr id)).
Proof.
  destruct (run_sound s n) as (o & w' & Hr & [S _ _ _ K] & He & _). exists o, w'. split_and!; [done|done| |].
  - intros id k H. destruct (K id k H) as [Hx|[Hx|Hx]]; [|by left|by right]. rewrite He in Hx. by apply elem_of_nil in Hx.
  - intros pre k b post E. destruct (S _ _ _ E) as [H1 H2]. by split.
Qed.

(** ** The turn in the store *)

(** The turn's row is there, of its session, in a state that [S] allows; the store is well formed. *)
Definition has_row (S : TurnState -> Prop) (w : World) : Prop := well_formed (db w) /\ exists t, getTurn turnId (db w) = Some t /\ t_session t = sessionId /\ S (t_state t).

(** A turn that ends is not set running again, and another end is not put in place of its own. *)
Definition stable (S : TurnState -> Prop) : Prop := forall x y, x = Running -> S x -> S y.

Lemma getTurn_row d t : NoDup (map t_id (turns d)) -> t ∈ turns d -> getTurn (t_id t) d = Some t.
Proof.
  intros Hnd Hin. unfold getTurn. destruct (bfind _ _) as [x|] eqn:E.
  - apply bfind_some in E as [Hx He]. apply String.eqb_eq in He. f_equal. by apply (NoDup_map_inj t_id (turns d)).
  - pose proof (bfind_none _ _ t E Hin) as H. cbn in H. by rewrite String.eqb_refl in H.
Qed.

(** The store's steps, short of an erasure of the session, keep it so. *)
Lemma small_row S w w' : stable S -> rtc (small (fun i => i <> sessionId)) (db w) (db w') -> has_row S w -> has_row S w'.
Proof.
  intros HS Hr (W & t & Ht & Hses & Hs). assert (W' : well_formed (db w')) by by eapply rtc_wf. split; [exact W'|].
  destruct (rtc_grows _ sessionId _ _ Hr W) as (_ & _ & HT & _); [by intros H; apply H|]. apply getTurn_elem in Ht as [Hin Hid].
  assert (Hof : t ∈ turns_of sessionId (db w)) by (apply bfilter_elem; split; [done|by rewrite Hses, String.eqb_refl]).
  apply list_elem_of_lookup_1 in Hof as [i Hi]. destruct (list.Forall2_lookup_l _ _ _ _ _ HT Hi) as (t' & Hi' & Hrel).
  apply list_elem_of_lookup_2, elem_of_take in Hi' as (k & Hk & _). apply list_elem_of_lookup_2, bfilter_elem in Hk as [Hin' Hses'%String.eqb_eq].
  assert (t_id t' = turnId) as Hid' by (destruct Hrel as [->|(_ & state & now & e & _ & ->)]; done).
  exists t'. split; [rewrite <- Hid'; apply getTurn_row; [apply W'|done]|]. split; [done|].
  destruct Hrel as [->|(Hrun & state & now & e & Hne & ->)]; [done|]. by apply (HS (t_state t)).
Qed.

Lemma row_of_end d f t : (forall x, t_id (f x) = t_id x) -> getTurn turnId (upd_turn turnId f d) = Some t -> exists x, t = f x.
Proof.
  intros Hi [Hin He]%getTurn_elem. cbn in Hin. apply elem_of_map in Hin as (x & -> & _). destruct (String.eqb_spec (t_id x) turnId) as [E|E]; [by exists x|done].
Qed.

Lemma complete_row reply tokens data w d w' : completeTurn clk newId_at turnId reply tokens data w = (Ok d, w') ->
  forall t, getTurn turnId (db w') = Some t -> t_state t <> Running /\ (d <> None -> t_state t = Completed).
Proof.
  unfold completeTurn. intros H. apply tx_ok in H. apply SE_bind_ok in H as (row & w1 & Hrow & H). apply table_ok in Hrow as [-> ->].
  destruct (getTurn turnId (db w)) as [t|] eqn:Et; [|injection H as <- <-; intros x Hx; congruence].
  destruct (decide (t_state t = Running)) as [Hs|Hs]; [rewrite bool_decide_true in H by done|rewrite bool_decide_false in H by done; injection H as <- <-; intros x Hx; split; [congruence|done]].
  cbn [negb] in H. apply SE_bind_ok in H as (now & w2 & _ & H). apply SE_bind_ok in H as (m & w3 & _ & H). apply SE_bind_ok in H as (u1 & w4 & H4 & H). apply on_db_ok in H4.
  apply SE_bind_ok in H as (u2 & w5 & H5 & H). apply on_db_ok in H5. apply SE_bind_ok in H as (v & w6 & H6 & H). injection H as _ <-.
  apply insertEvent_ok in H6 as (s & _ & _ & _ & _ & _ & _ & Hdb & _). rewrite Hdb, H5, H4. intros x Hx.
  by apply (row_of_end (db w3) (ended Completed now None)) in Hx as [y ->].
Qed.

Lemma fail_row error data w d w' : failTurn clk turnId error data w = (Ok d, w') -> forall t, getTurn turnId (db w') = Some t -> t_state t <> Running.
Proof.
  unfold failTurn. intros H. apply tx_ok in H. apply SE_bind_ok in H as (row & w1 & Hrow & H). apply table_ok in Hrow as [-> ->].
  destruct (getTurn turnId (db w)) as [t|] eqn:Et; [|injection H as _ <-; intros x Hx; congruence].
  destruct (decide (t_state t = Running)) as [Hs|Hs]; [rewrite bool_decide_true in H by done|rewrite bool_decide_false in H by done; injection H as _ <-; intros x Hx; congruence].
  cbn [negb] in H. apply SE_bind_ok in H as (now & w2 & _ & H). apply SE_bind_ok in H as (u1 & w4 & H4 & H). apply on_db_ok in H4.
  apply SE_bind_ok in H as (u2 & w5 & H5 & H). apply on_db_ok in H5. apply SE_bind_ok in H as (v & w6 & H6 & H). injection H as _ <-.
  apply insertEvent_ok in H6 as (s & _ & _ & _ & _ & _ & _ & Hdb & _). rewrite Hdb, H5, H4. intros x Hx.
  by apply (row_of_end (db w2) (ended FailedTurn now (Some error))) in Hx as [y ->].
Qed.

Section ends.
(** Other code works on the store through its own calls, and does not erase this session while the turn waits. *)
Hypothesis others_calls : forall n s, rtc (small (fun i => i <> sessionId)) (db s) (db (others n s)).

Definition wf (w : Turn) : Prop := has_row (fun _ => True) (st w).
(** The row has ended, and as completed when the turn says so. *)
Definition over (b : bool) : TurnState -> Prop := fun x => x <> Running /\ (b = true -> x = Completed).
Definition wf_over (b : bool) (w : Turn) : Prop := has_row (over b) (st w).

Lemma any_stable : stable (fun _ => True). Proof. done. Qed.
Lemma over_stable b : stable (over b). Proof. by intros x y -> [H _]. Qed.
Lemma over_wf b w : wf_over b w -> wf w.
Proof. intros (W & t & H1 & H2 & _). split; [exact W|]. by exists t. Qed.

(** A property of the store alone, which the turn's waiting keeps. *)
Definition stored (P : Turn -> Prop) : Prop :=
  (forall w w', st w' = st w -> P w -> P w') /\ (forall n w w', st w' = others n (st w) -> P w -> P w').

Lemma stored_row S : stable S -> stored (fun w => has_row S (st w)).
Proof. intros HS. split; [intros w w' E H; by rewrite E|]. intros n w w' E H. rewrite E. eapply small_row; [exact HS|apply others_calls|exact H]. Qed.
Lemma stored_wf : stored wf. Proof. apply stored_row, any_stable. Qed.
Lemma stored_over b : stored (wf_over b). Proof. apply stored_row, over_stable. Qed.

Section keeping.
Context (P : Turn -> Prop) (HP : stored P).

Lemma keeps_tick {E} : keeps P (tick : SE Turn E nat). Proof. intros w Hw. destruct HP as [_ H]. by apply (H (moment w) w). Qed.
Lemma keeps_same {E} f : (forall w, st (f w) = st w) -> keeps P (modify f : SE Turn E unit). Proof. intros Hf w Hw. destruct HP as [H _]. cbn. by apply (H w). Qed.
Lemma keeps_note {E} e : keeps P (emit_ev e : SE Turn E unit). Proof. by apply keeps_same. Qed.
Lemma keeps_lift {A} (r : result Exc A) : keeps P (lift r). Proof. destruct r; [apply keeps_ret|apply keeps_throw]. Qed.
Lemma keeps_look {E A} (k : nat -> SE Turn E A) : (forall n, keeps P (k n)) -> keeps P (n ← tick; k n). Proof. intros H. apply keeps_bind; [apply keeps_tick|exact H]. Qed.
Lemma keeps_abort : keeps P throwIfAborted. Proof. apply keeps_bind; [apply keeps_gets|]. intros []; [apply keeps_throw|apply keeps_ret]. Qed.
Lemma keeps_emit {E} v : keeps P (emit v : SE Turn E unit). Proof. apply keeps_bind; [apply keeps_note|]. intros _. apply keeps_look. intros n. apply keeps_ret. Qed.
Lemma keeps_settled {E} id b : keeps P (settleDelivery id b : SE Turn E unit).
Proof.
  apply keeps_bind; [apply keeps_gets|]. intros mine. apply keeps_bind; [by apply keeps_same|]. intros _. induction mine as [|p mine IH]; [apply keeps_ret|].
  apply keeps_bind; [apply keeps_note|]. intros _. by apply keeps_look.
Qed.
Lemma keeps_settle_all {E} ids : keeps P (settle_all ids : SE Turn E unit).
Proof. induction ids as [|id ids IH]; [apply keeps_ret|]. apply keeps_bind; [apply keeps_settled|]. by intros _. Qed.
End keeping.

Notation kwf := (keeps wf).
#[local] Hint Resolve keeps_tick keeps_note keeps_lift keeps_abort keeps_emit keeps_settled keeps_ret keeps_throw keeps_gets stored_wf stored_over : turn.

Lemma keeps_store {A} (m : SE World SessionError A) : stepwise (fun i => i <> sessionId) m -> keeps wf (store_op m).
Proof. intros Hm w Hw. unfold store_op. specialize (Hm (st w)). destruct (m (st w)) as [[a|e] s]; cbn in *; (eapply small_row; [apply any_stable|exact Hm|exact Hw]). Qed.

Lemma keeps_stage {A} P (check : T unit) (m : T A) : keeps P check -> keeps P m -> keeps P (stage check m).
Proof. intros Hc Hm. apply keeps_bind; [exact Hc|]. intros _. apply keeps_bind; [exact Hm|]. intros a. apply keeps_bind; [exact Hc|]. auto with turn. Qed.
Lemma keeps_shutdown P : keeps P (shutdown_check stopped).
Proof. apply keeps_bind; [apply keeps_gets|]. intros []; auto with turn. Qed.
#[local] Hint Resolve keeps_stage keeps_shutdown : turn.
Lemma keeps_wait : keeps wf waitForVoiceConfirmation.
Proof. apply keeps_bind; [auto with turn|]. intros _. auto using keeps_look with turn. Qed.
Lemma keeps_confirmed (m : T unit) : keeps wf m -> keeps wf (when_confirmed m).
Proof. intros Hm. unfold TurnLoop.when_confirmed. destruct profile as [p|]; [destruct (confirmed p)|]; auto with turn. Qed.
#[local] Hint Resolve keeps_wait keeps_confirmed : turn.

Lemma keeps_event type data : keeps wf (event type data).
Proof.
  apply keeps_bind; [|auto with turn]. apply keeps_bind; [apply keeps_store, appendEvent_small|]. intros v. apply keeps_bind; auto with turn.
Qed.
Lemma keeps_result id data : keeps wf (persistToolResult id data).
Proof.
  apply keeps_bind; [apply keeps_bind; [apply keeps_store, appendEvent_small|]; intros v; apply keeps_bind; auto with turn|]. intros v. apply keeps_bind; auto with turn.
Qed.
Lemma keeps_register id : keeps wf (registerDelivery id). Proof. by apply (keeps_same wf stored_wf). Qed.
#[local] Hint Resolve keeps_event keeps_result keeps_register : turn.

Lemma keeps_acts l : keeps wf (do_acts l).
Proof.
  induction l as [|a l IH]; [apply keeps_ret|]. apply keeps_bind; [|by intros _]. apply keeps_catch; [|auto with turn]. destruct a as [id|id k|id output|t]; cbn [TurnLoop.do_act].
  - auto with turn.
  - apply keeps_bind; [apply keeps_gets|]. intros []; [|apply keeps_ret]. apply keeps_bind; [auto with turn|]. intros _. by apply (keeps_same wf stored_wf).
  - apply keeps_bind; auto with turn.
  - by apply (keeps_same wf stored_wf).
Qed.
#[local] Hint Resolve keeps_acts : turn.

Lemma keeps_tool_call id name args : keeps wf (on_tool_call id name args).
Proof.
  apply keeps_bind; [by apply (keeps_same wf stored_wf)|]. intros _. apply keeps_bind; [auto with turn|]. intros _.
  apply keeps_bind; [auto with turn|]. intros _. destruct dispatch as [call|]; [|apply keeps_ret]. apply (keeps_look wf stored_wf). intros n. apply keeps_bind; [auto with turn|]. intros [[output isError] settles].
  apply keeps_bind; [auto with turn|]. intros _. apply keeps_bind; [destruct settles; auto with turn|]. intros _. apply keeps_bind; auto with turn.
Qed.
#[local] Hint Resolve keeps_tool_call : turn.

Lemma keeps_chunk c p : keeps wf (on_chunk c p).
Proof.
  unfold TurnLoop.on_chunk. destruct c as [s|id name args|id output|t|u]; [..|apply keeps_bind; [by apply (keeps_same wf stored_wf)|auto with turn]|].
  all: apply keeps_bind; [apply keeps_gets|]; intros aborted; apply keeps_bind; [try (destruct dispatch; [|destruct (_ && _)]); auto with turn|]; intros _; apply keeps_bind; [auto with turn|]; intros _.
  - apply keeps_bind; [destruct profile; auto using keeps_look with turn|]. intros _. apply keeps_bind; auto with turn.
  - apply keeps_bind; auto with turn.
  - apply keeps_bind; [|auto with turn]. destruct dispatch; [auto with turn|]. apply keeps_bind; auto with turn.
  - auto with turn.
Qed.

Lemma keeps_consume l p : keeps wf (consume l p).
Proof.
  revert p. induction l as [|pull l IH]; intros p; cbn [TurnLoop.consume]; [apply keeps_ret|]. apply (keeps_look wf stored_wf). intros _.
  apply keeps_bind; [auto with turn|]. intros _. destruct (p_yields pull) as [c|]; [|auto with turn]. apply keeps_bind; [auto with turn|]. intros c'.
  apply keeps_bind; [|intros p'; apply IH]. apply keeps_catch; [apply keeps_chunk|]. intros e. apply keeps_bind; auto with turn.
Qed.

Lemma keeps_after P reply : stored P -> keeps P (after reply).
Proof.
  intros HP. unfold TurnLoop.after. cbv zeta.
  assert (Htake : keeps P (emit_ev (Captured text reply) ;; n ← tick; lift (capture n))) by (apply keeps_bind; [by apply keeps_note|]; intros _; auto using keeps_look with turn).
  assert (Hasked : keeps P (emit_ev SummaryAsked : T unit)) by by apply keeps_note.
  destruct (match profile with Some p => privacyPin p | None => false end); [apply keeps_ret|]. destruct (match profile with Some p => localRealtime p | None => false end).
  - apply keeps_bind; [destruct incognito; [apply keeps_ret|]; apply (keeps_look P HP); intros n; apply keeps_bind; [auto with turn|]; intros []; auto with turn|].
    intros _. apply (keeps_look P HP). intros n. apply keeps_bind; [auto with turn|]. intros []; auto with turn.
  - apply keeps_bind; [destruct incognito; [apply keeps_ret|]; apply keeps_catch; auto with turn|]. intros _. apply keeps_bind; [apply keeps_gets|]. intros []; auto with turn.
Qed.

(** A step that leaves the turn over as [o] says it is, or throws. *)
Definition ends_it {A} (o : A -> bool) (m : T A) : Prop := triple wf m (fun a => wf_over (o a)) (fun _ => wf).

Lemma ends_bind_before {A B} (o : B -> bool) (m : T A) (k : A -> T B) : keeps wf m -> (forall a, ends_it o (k a)) -> ends_it o (m ≫= k).
Proof. intros Hm Hk. by eapply triple_bind. Qed.
Lemma ends_bind_after {A B} (o : A -> bool) (o' : B -> bool) (m : T A) (k : A -> T B) :
  ends_it o m -> (forall a, triple (wf_over (o a)) (k a) (fun b => wf_over (o' b)) (fun _ => wf_over (o a))) -> ends_it o' (m ≫= k).
Proof. intros Hm Hk. eapply triple_bind; [exact Hm|]. intros a. eapply triple_weaken; [apply Hk|done|done|]. intros e w. apply over_wf. Qed.
(** After the end the store's row is left as it is. *)
Lemma then_keeps {A B} (b : bool) (m : T A) (k : A -> T B) (Q : B -> Turn -> Prop) :
  keeps (wf_over b) m -> (forall a, triple (wf_over b) (k a) Q (fun _ => wf_over b)) -> triple (wf_over b) (m ≫= k) Q (fun _ => wf_over b).
Proof. intros Hm Hk. by eapply triple_bind. Qed.

Definition was_done {A} (d : option A) : bool := match d with Some _ => true | None => false end.

Lemma complete_ends reply tokens data : ends_it was_done (complete reply tokens data).
Proof.
  eapply (ends_bind_after was_done).
  - intros w Hw. unfold store_op. pose proof (completeTurn_small (fun i => i <> sessionId) clk newId_at turnId reply tokens (JObj data) (st w)) as Hm.
    destruct (completeTurn _ _ _ _ _ _ _) as [[d|e] s] eqn:E; cbn in Hm; (destruct (small_row (fun _ => True) (st w) s any_stable Hm Hw) as (W & t & H1 & H2 & H3)); (split; [exact W|]); exists t; [|done].
    destruct (complete_row _ _ _ _ _ _ E t H1) as [H4 H5]. split; [done|]. split; [done|]. split; [done|]. intros Hd. apply H5. by destruct d.
  - intros [[m v]|]; [|by apply triple_ret]. apply then_keeps; [apply keeps_gets|]. intros n. apply then_keeps; [by apply (keeps_note _ (stored_over _))|]. intros _. by apply triple_ret.
Qed.

Lemma run_command_ends : ends_it o_completed run_command.
Proof.
  unfold TurnLoop.run_command. apply ends_bind_before; [auto with turn|]. intros _. apply ends_bind_before; [destruct (_ && _); auto with turn|]. intros _.
  apply ends_bind_before; [auto with turn|]. intros n. apply ends_bind_before; [auto with turn|]. intros reply. apply ends_bind_before; [auto with turn|]. intros _.
  apply ends_bind_before; [auto with turn|]. intros _. apply ends_bind_before; [by apply (keeps_same wf stored_wf)|]. intros _. apply ends_bind_before; [auto with turn|]. intros te.
  eapply ends_bind_after; [apply complete_ends|]. intros [[m v]|]; [|by apply triple_ret]. apply then_keeps; [apply (keeps_emit _ (stored_over _))|]. intros _. by apply triple_ret.
Qed.

Lemma finish_ends id rc view p : ends_it o_completed (finish id rc view p).
Proof.
  unfold TurnLoop.finish. apply ends_bind_before; [auto with turn|]. intros _.
  apply ends_bind_before; [apply keeps_gets|]. intros gone. apply ends_bind_before; [destruct gone; auto with turn|]. intros _. apply ends_bind_before; [destruct profile; auto with turn|]. intros _.
  apply ends_bind_before; [apply keeps_gets|]. intros te. eapply ends_bind_after; [apply complete_ends|]. intros [[m v]|]; [|by apply triple_ret].
  apply then_keeps; [destruct (pg_usage p); [|apply keeps_ret]; apply keeps_bind; auto with turn|]. intros _. apply then_keeps; [apply (keeps_emit _ (stored_over _))|]. intros _.
  apply then_keeps; [apply keeps_after, stored_over|]. intros _. apply then_keeps; [apply (keeps_tick _ (stored_over _))|]. intros n.
  apply then_keeps; [apply keeps_catch; auto with turn|]. intros _. by apply triple_ret.
Qed.

Lemma attempt_ends : ends_it o_completed attempt.
Proof.
  unfold TurnLoop.attempt. destruct (parseRewindCommand text) as [c|e]; [|intros w Hw; exact Hw]. destruct (localCommand text); [apply run_command_ends|]. destruct provider as [id|]; [|intros w Hw; exact Hw].
  assert (Hask : keeps wf ask_memory) by (apply keeps_stage; [auto with turn|]; apply keeps_bind; [by apply (keeps_note wf stored_wf)|]; intros _; auto using keeps_look with turn).
  apply ends_bind_before.
  { unfold TurnLoop.take_checkpoint. apply (keeps_look wf stored_wf). intros n. destruct checkpoint as [f|]; [|apply keeps_ret]. apply keeps_catch; auto with turn. }
  intros _. apply ends_bind_before.
  { apply keeps_bind; [|intros r; apply keeps_bind; auto with turn]. apply keeps_catch; [|auto with turn]. destruct profile as [v|]; [|exact Hask]. destruct (privacyPin v); [apply keeps_ret|].
    apply (keeps_look wf stored_wf). intros n. apply keeps_bind; [auto with turn|]. intros []; [exact Hask|apply keeps_ret]. }
  intros rc. apply ends_bind_before; [apply keeps_stage; [auto with turn|]; apply keeps_bind; [by apply (keeps_note wf stored_wf)|]; intros _; auto using keeps_look with turn|]. intros view.
  apply ends_bind_before; [by apply (keeps_same wf stored_wf)|]. intros _. apply ends_bind_before; [apply keeps_consume|]. intros p. apply finish_ends.
Qed.

Lemma on_failure_ends e : triple wf (on_failure e) (fun o => wf_over (o_completed o)) (fun _ _ => False).
Proof.
  unfold TurnLoop.on_failure. eapply triple_bind; [apply triple_gets|]. intros gone. eapply triple_bind; [apply triple_gets|]. intros aborted. cbv zeta.
  eapply (triple_bind _ _ _ (fun _ => wf)); [intros w [[Hw _] _]; exact Hw|]. intros _. eapply (triple_bind _ _ _ (fun _ => wf)); [by intros w Hw|]. intros te.
  eapply (triple_bind _ _ _ (fun _ => wf)); [by intros w Hw|]. intros n. eapply (triple_bind _ _ _ (fun _ => wf_over false)); [|intros _; by intros w Hw].
  intros w Hw. unfold catch, mbind, SE_bind, store_op. set (error := error_of gone aborted e). set (data := JObj _).
  destruct (failTurn_total clk turnId error data (st w) (proj1 Hw)) as (d & s & Hf & _ & _). rewrite Hf.
  assert (Ho : wf_over false (set_st s w)).
  { pose proof (failTurn_small (fun i => i <> sessionId) clk turnId error data (st w)) as Hm. rewrite Hf in Hm.
    destruct (small_row (fun _ => True) (st w) s any_stable Hm Hw) as (W & t & H1 & H2 & _). split; [exact W|]. exists t. split; [done|]. split; [done|]. split; [by eapply fail_row|done]. }
  destruct d as [v|]; [|exact Ho].
  assert (Hk : keeps (wf_over false) (emit_ev (TurnFailed n v) ;; emit v : T unit)) by (apply keeps_bind; [by apply (keeps_note _ (stored_over _))|]; intros _; apply (keeps_emit _ (stored_over _))).
  specialize (Hk _ Ho). exact Hk.
Qed.

End ends.
End turn.

(** ** A turn at work *)

(** The model says a word, asks for a tool, and forges its result; another caller tries to begin a turn meanwhile. *)
Definition at_work : string := match runningTurn ses (db cut) with Some t => t_id t | None => "" end.
Definition intruder (n : nat) (s : World) : World := SessionLife.run clk ids sha text_of (if Nat.eqb (n mod 3) 1 then [CBegin ses "me too" 2 false None; CReserve ses None] else []) s.
Definition stream : list Pull :=
  [{| p_acts := []; p_yields := Some (Ok (Delta "It ")) |};
   {| p_acts := [Register "c1"]; p_yields := Some (Ok (ToolCall "c1" "fs.read" (JObj []))) |};
   {| p_acts := [Register "c2"]; p_yields := Some (Ok (ToolResult "c1" "forged")) |};
   {| p_acts := [Delegated "job" "done"]; p_yields := Some (Ok (Delta "works")) |}].
Definition answering (n : nat) (id name : string) (args : js) : result Exc (string * bool * bool) := Ok (name, false, true).
Notation working cancelled := (TurnLoop.run clk ids at_work "go on" false None None cancelled (fun _ => false) (fun _ => false) intruder true (fun _ => Ok "") None (fun _ => Ok true)
  (fun _ => Ok no_recall) (fun _ => Ok {| vw_compaction := JObj []; vw_swapped := false; vw_clipped := false |}) (Some "echo") stream [] (Some answering) (fun _ => None) (fun _ => None)
  (fun _ => Ok tt) (fun _ => Ok tt) (fun _ => Ok tt) (fun _ => Ok tt) (fun _ => Ok tt) (fun _ => Ok true) (fresh_turn cut 0)).

Definition told_of (e : Ev) : list string :=
  match e with
  | Persisted v => [v_type v +:+ " " +:+ match v_data v with JObj ((_, JStr id) :: (_, JStr x) :: _) => id +:+ " " +:+ x | JObj (_ :: (_, JStr x) :: _) => x | _ => "" end]
  | Settled k b => [if b then "accepted" else "refused"]
  | TurnCompleted _ m => ["completed " +:+ m_text m]
  | TurnFailed _ _ => ["failed"]
  | Captured u r => ["captured " +:+ u +:+ ": " +:+ r]
  | _ => []
  end.
Notation outcome r := (match fst r with Ok o => (o_completed o, default "" (o_error o), default "" (o_reply o)) | Err _ => (false, "", "") end).

Example work_done : outcome (working (fun _ => false)) = (true, "", "It works") /\
  concat (map told_of (log (working (fun _ => false)).2)) =
  ["delta It "; "tool.call c1 fs.read"; "tool.result c1 fs.read"; "accepted"; "accepted"; "tool.call job await_delegations"; "tool.result job done"; "delta works";
   "completed It works"; "captured go on: It works"; "refused"].
Proof. split; vm_compute; reflexivity. Qed.

Example work_cancelled : outcome (working (fun n => Nat.leb 9 n)) = (false, "cancelled", "") /\
  concat (map told_of (log (working (fun n => Nat.leb 9 n)).2)) = ["delta It "; "tool.call c1 fs.read"; "tool.result c1 fs.read"; "accepted"; "accepted"; "failed"].
Proof. split; vm_compute; reflexivity. Qed.

Lemma intruder_calls n s : rtc (small (fun i => i <> ses)) (db s) (db (intruder n s)).
Proof.
  apply calls_small. intros c id Hc. destruct (Nat.eqb (n mod 3) 1); [|by apply elem_of_nil in Hc]. by apply elem_of_cons in Hc as [->|[->|Hc%elem_of_nil]%elem_of_cons].
Qed.

